(* ===== verification/_CoqProject ===== *)
-Q . S2P
Prelude.v
Text.v
TextSplit.v
Net.v
YoungBase.v
Instances.v
IpRange.v
YoungFlow.v
YoungData.v
YoungUdp.v
YoungReassembler.v
YoungAuth.v
FakeIp.v
DnsCache.v
TcpNat.v
RouteModel.v
RouteMatch.v
RouteInstances.v
RouteSpec.v
RouteEngine.v
RouteDeferral.v
CompactSet.v
SrsDecode.v
RulesetIr.v
SrsRule.v
SrsSpec.v
MrsBitmap.v
MrsDomain.v
MrsTrie.v
MrsIpSet.v
RulesetMatcher.v
Sniff.v
Singleflight.v
IpFragment.v
FlowNat.v
RealityHello.v
RealityForward.v
XhttpQueue.v
Health.v
GroupSelect.v
Loopback.v
DnsPacket.v
DnsService.v
Listener.v
TunInbound.v
TunFrame.v
F64.v
DnsGroup.v
DnsPolicy.v
DnsInstances.v
DnsHosts.v
DnsResolve.v
DnsResolveInv.v
DnsResolveSpec.v
DnsBuild.v
DnsConfigure.v
RouteCompile.v
RouteCompileSpec.v
RouteRoundtrip.v
RouteConfig.v
TunAccept.v
GroupResolve.v
GroupResolveSpec.v
IntRanges.v
GroupCompile.v
GroupCompileSpec.v
FlowConfig.v
Dial.v
SmartStats.v
SmartSelect.v
SmartChoice.v
