(* ===== verification/Prelude.v ===== *)
(** * WutherCore: a verification development

    WutherCore is a proxy kernel.  Traffic enters through listeners or a captured TUN
    device ([core-inbound], [core-capture]); the runtime ([core-runtime]) describes each
    connection as a flow, asks the route engine ([core-route], with the rule sets of
    [core-ruleset] and a plan compiled by [core-config]) which outbound it takes, resolves
    names with [core-resolver] when the engine says the address is needed, and sends the
    bytes out through an outbound protocol ([core-outbound]) or the project's own Young
    protocol ([core-young]).  This library models the parts of that path which are
    algorithms on data and the concurrent protocols around shared state: the Young wire
    protocol; the resolver with its policies, groups, hosts, Fake-IP pool, cache and query
    coalescing, and its construction from a configuration; the capture layer's NAT tables,
    packet fragmentation; the compilers of rules and groups, the route engine with its
    sniffers, the semantic rule sets with their two binary decoders; the selection of a node in
    a group with the health data and the scores it rests on, the search through groups for the
    outbound of a flow, and dialling it; the reassembly of XHTTP uploads, the REALITY ClientHello, and the path of a
    captured flow from the DNS query to the rules.  All source paths below are under
    [src/crates/].

    ** Files

    - [Prelude.v] (this file): the outcome type of fallible code and its bind, slices and
      big-endian integers, saturating and wrapping arithmetic, strings as bytes, tactics
      ([inv_ok], [np], [lens], [be_facts]) and the hint databases [wuther] and [len_db].
    - [Net.v]: addresses, and the classes for library code several components use.
    - [Instances.v], [RouteInstances.v]: concrete instances of all classes, with which the
      witnesses evaluate the model.
    - [YoungBase.v], [YoungFlow.v], [YoungData.v], [YoungUdp.v], [YoungReassembler.v],
      [YoungAuth.v]: [core-young/src/codec.rs], split by frame type, and the receive loops
      [deliver_client_tcp_data] ([server.rs]) and [deliver_tcp_data] ([client.rs]).
    - [FakeIp.v]: [core-resolver/src/fake_ip.rs] (pool and domain filter).
    - [DnsCache.v]: [core-resolver/src/cache.rs].
    - [TcpNat.v]: [core-capture/src/tcp_nat.rs].
    - [RouteModel.v]: plan, flow and decision types ([core-config/src/runtime_plan.rs],
      [core-route/src/engine.rs], [sniff.rs]), the interface to rule sets.
    - [RouteMatch.v]: [core-route/src/builtin.rs] and the matching half of [engine.rs]
      ([PreparedMatchers], [MatchInput], [step_match_state]).
    - [RouteSpec.v]: rules evaluated from their text; the compiled tables refine it.
    - [RouteEngine.v]: [RouteEngine] of [engine.rs] and [validate_sub_rule_graph] of
      [runtime_plan.rs]; the big-step semantics of a rule list.
    - [RouteDeferral.v]: [needs_destination_ip] and [needs_process].
    - [CompactSet.v], [RulesetIr.v]: [core-ruleset/src/ir.rs].
    - [RulesetMatcher.v]: the matching half of [core-ruleset/src/matcher.rs] and its index,
      which is what the engine sees of rule sets.
    - [SrsDecode.v], [IpRange.v], [SrsRule.v], [SrsSpec.v]: [core-ruleset/src/parser/srs.rs]:
      succinct domain sets, splitting of address ranges into networks, the rule reader and
      compiler, and what a file means.
    - [MrsBitmap.v], [MrsDomain.v], [MrsTrie.v], [MrsIpSet.v]: [core-ruleset/src/parser/mrs]:
      rank/select bitmaps, the domain trie and its meaning, address ranges and the envelope.
    - [Text.v]: the string operations of the standard library the parsers use.
    - [Sniff.v]: [core-route/src/sniff.rs].
    - [Singleflight.v]: [core-resolver/src/singleflight.rs] as a step relation over tasks.
    - [IpFragment.v]: [core-outbound/src/ip_fragment.rs].
    - [FlowNat.v]: [core-capture/src/nat.rs] and [eim_nat.rs].
    - [RealityHello.v]: the ClientHello parser and record buffer of [core-reality]
      ([framing.rs], [buffer.rs]); [RealityForward.v]: the relay of the ClientHello to the
      camouflage target ([framing.rs], [server.rs]) as a state machine over reads and writes.
    - [XhttpQueue.v]: [core-outbound/src/proto/xhttp/upload_queue.rs] and [push_packet] of
      [core-inbound/src/xhttp.rs], as lock sections and as a concurrent system.
    - [Health.v], [GroupSelect.v]: the state of [UrlTester] ([core-runtime/src/health.rs])
      and [GroupSelector] ([group_selector.rs]).
    - [Loopback.v]: [core-outbound/src/loopback.rs], the detector of captured own traffic.
    - [DnsPacket.v], [DnsService.v]: [packet.rs], [mapping.rs] and [service.rs] of
      [core-resolver], and [find_host_by_ip].
    - [Listener.v]: [InboundMetadata] and [ListenerHandler] of
      [core-runtime/src/listener_handler.rs], up to the dialler a flow is given to.
    - [TunInbound.v]: [dial_meta.rs] and [tun_inbound.rs] of [core-capture]; the composition
      of DNS service, pool, TUN session, listener and routing context.
    - [TunAccept.v]: what the three TCP stacks ([stack_system.rs], [tun_dispatch.rs],
      [netstack_dispatch.rs]) and the UDP dispatcher ([udp_handle.rs]) do with a flow up to the
      listener, the host read from the first bytes included.
    - [TunFrame.v]: the outer frames of [core-capture/src/packet.rs].
    - [TextSplit.v]: further string operations, and decimal numbers.
    - [DnsGroup.v], [DnsPolicy.v], [DnsHosts.v]: [group.rs], [policy.rs] and [hosts.rs] of
      [core-resolver].
    - [DnsResolve.v]: the address queries of [core-resolver/src/resolver.rs] in a state monad
      over cache, pool, throttle and statistics; [DnsResolveInv.v]: what every run keeps;
      [DnsResolveSpec.v]: the documented reading of a policy and the paths for direct traffic.
    - [DnsBuild.v], [DnsConfigure.v]: [try_new_with_rulesets] of [resolver.rs] on the resolver
      part of [core-config/src/model.rs]: groups that refer to groups, endpoints, policies.
    - [DnsInstances.v]: instances for the resolver files.
    - [RouteCompile.v]: [compile_route] of [core-config/src/runtime_plan.rs] with the parsers
      of rule lines and objects; [RouteCompileSpec.v]: what it accepts and what the engine
      makes of it; [RouteRoundtrip.v]: printed rules are read back; [RouteConfig.v]: instances
      and concrete configurations.
    - [GroupResolve.v]: the way from a decision to an outbound in [core-runtime/src/engine.rs]
      and the registry of [core-outbound/src/registry.rs]; [GroupResolveSpec.v]: where a flow
      can end.
    - [IntRanges.v]: [core-runtime/src/int_ranges.rs].
    - [GroupCompile.v]: [compile_groups] of [runtime_plan.rs]; [GroupCompileSpec.v]: accepted
      groups at run time.
    - [FlowConfig.v]: rules, groups, engine and search composed.
    - [Dial.v]: the dial loops of [core-runtime/src/engine.rs] and what groups are told.
    - [F64.v]: IEEE doubles that compute.  [SmartStats.v]: [core-smart/src/metrics.rs];
      [SmartSelect.v]: [cache.rs] and [selector.rs] of [core-smart]; [SmartChoice.v]: what the
      selector chooses, and the instance of [SmartApi].

    ** How code is modelled

    A fallible function returns [outcome]: [Ok], [Err] with the [io::ErrorKind], or [Panic]
    where the Rust code would panic (a slice index out of range, say), so that "never
    panics" is a theorem about the same definition.  Integers are [Z] with their width
    written out: [wrapping_add], [checked_add], [saturating_*] and casts are explicit.
    Bytes are [list Z] with the predicate [bytes_ok].  Structs are records, enums are
    inductive types with the source's constructors.  A method that changes its object
    returns the new object; [HashMap] and [DashMap] are [gmap]s.  Where the code iterates a
    hash map the order is a parameter.  Clock readings and random draws are arguments.
    Objects shared by reference ([Arc] cells of cache slots and prefetch tickets) live in an
    explicit store.

    A method under a lock or on one map entry is one atomic step, and sequences of steps are
    arbitrary interleavings of calls.  Where the code's correctness rests on what happens
    between two accesses of one call the steps are finer: [Singleflight.v] (map accesses,
    channel messages and drops), [FlowNat.v] (calls that act on what they read earlier),
    [XhttpQueue.v] (lock sections, waker operations, polls), [RealityForward.v] (single reads
    and writes of any size).  Elsewhere interleavings inside one call are not modelled.

    ** Library code

    What the sources call but the repository does not contain is a typeclass: [NetText]
    (text of IP addresses), [StrCase] (Unicode lower-casing and trimming), [IpNetLib]
    ([ipnet]), [HashIter] (iteration order), [YoungCrypto] (HMAC, SHA-256, BLAKE3,
    base64url), [Channel] (the bounded tokio channel), [RouteLib] ([idna], [regex],
    [fancy_regex], [globset], [aho_corasick]), [RulesetLib] ([regex::RegexSet] and the
    target platform), [IpNetNew] and [RegexSetNew] (fallible constructors of [ipnet] and
    [regex]), [Inflater] ([flate2]), [ZstdDecoder] ([ruzstd]), [CaseMapping]
    ([unicode-case-mapping]), [PacketHash] (keyed hashes of a payload), [JitterHash] and
    [GroupLib] (AHash, globs and regular expressions of groups, the public suffix list),
    [StickyCache] ([lru]), [GroupRandom] and [DnsGroupLib] ([rand]), [Libm] (logarithms and
    powers), [SmartLib] (AHash of a site, numbers with decimals), [IpNetText] and
    [RouteText] (texts of networks), [YamlText] (numbers in YAML), [UpstreamLib] (constructors of
    the encrypted transports, system name lookup), [TrimLaws] ([str::trim]), [GroupConfigLib]
    ([globset], [url], [base64], [petgraph]).  Their laws are documented behaviour
    (output sizes, round trips, a permutation of the entries, an index in range); none states
    anything about forging a MAC.  Two
    classes are not library code but interfaces: [SmartApi] between the groups and the scoring
    selector of [core-smart], which returns one of the members it is given ([smart_api] of
    [SmartChoice.v] is its instance), and [RulesetIndexApi] between the engine and [core-ruleset]: the engine's theorems are
    proved against it, and [RulesetMatcher.v] is its instance ([matcher_index]).  What the
    engine's lookups need of an index is the record [stable_index] of [RouteDeferral.v], which
    [matcher_index_stable] proves for rule sets that wait for what they need ([index_safe]).

    ** Assumptions at seams inside the program

    Three conditions are about code of this repository and are hypotheses of theorems, not
    consequences of a composed model.  In [DnsResolve.v] a query that joins a running one gets its
    answer from an oracle ([re_joined]); the theorems that need it assume the answer is one a group
    gave for the same name and family, which is what [singleflight_safe] shows of the
    coalescing itself.  In [RealityForward.v] the suffix that is handed over at the end is taken by
    the target ([forward_recorded_suffix]); failures of that last write are not modelled.  The
    engine of a compiled plan is built only if the normal forms of its domain wildcards are globs
    ([wildcards_build]; [wildcard_panics_engine] is a plan where they are not).

    ** What the theorems show

    - Young codec: streams and datagrams survive the wire exactly.  Data frames deliver
      all that was sent, or everything before the message the channel refuses, however the
      network cuts them ([data_stream_end_to_end]); FlowOpen decodes from every prefix
      ([flow_open_stream_roundtrip]); UDP packets are fragmented within the size limit
      ([udp_fragment_plain_correct], [udp_fragment_padded_correct]) and reassembled in any
      order ([udp_reassembly_any_order]).  Untrusted input never panics and is accepted only
      with the right MAC ([flow_open_untrusted_input], [udp_decode_untrusted],
      [data_stream_untrusted], [udp_reassembler_robust], [padding_scheme_safe]).
    - Young authentication: completeness, soundness and replay protection
      ([authorization_accepts], [authorization_sound], [authorization_replay_rejected]).
    - Resolver: a fake address belongs to one host for its TTL ([fake_ip_binding]) and is
      inside its network ([fake_ip_alloc_sound]); the cache answers what was put last, at
      most one refresh at a time, within its size ([dns_cache_answers_latest],
      [dns_cache_single_refresh], [dns_cache_put_bounded]).
    - Resolution: every address comes from a group that was asked for this very name and
      family, the hosts table, an action of the policy or the fake range
      ([resolver_answer_provenance]), of the family asked for ([resolver_answer_family]); literals,
      hosts and the policy are obeyed in the documented order ([policy_refines_reading]), direct traffic has a path of its own
      ([direct_path_isolated]), the fallback filter decides as documented
      ([fallback_filter_decides]); a group answers exactly when a member does
      ([group_answers_iff_member_does]); building groups ends and detects cycles
      ([resolver_groups_build]), and an accepted configuration names nothing that is missing
      ([resolver_config_closed]).
    - TCP NAT: flow to port and back ([tcp_nat_flow_roundtrip]).
    - Routing: compiled tables refine the text of the rules ([route_tables_refine_text]),
      and the engine refines an ordered first-match semantics
      ([route_decide_first_match]), whose termination rests on
      [sub_rule_graph_validated]; disabling a rule is removing it
      ([route_disable_removes]); skipping a DNS or process lookup the engine says it
      does not need never changes a decision, for rule sets that wait for what they need
      ([route_skipped_dns_is_harmless], [route_skipped_process_is_harmless]).
    - Rule compiler: an accepted configuration gives an engine that is built without a panic and
      whose decisions name configured groups ([route_config_decides]); the text of a rule is read
      back as the rule, however deep and with escapes, parentheses and commas in its values
      ([rule_text_roundtrip]), and the recursion of the parser is well founded
      ([classical_parser_terminates]).
    - Outbounds: every flow gets a registered outbound, for a group the one the search ends on, and
      BLOCK only for a reason ([flow_outbound_sound]); DNS upstreams go the same way as flows
      ([dns_outbound_agrees]); the groups of an accepted configuration lead to outbounds
      ([accepted_groups_reach_outbounds]); rules, groups and search together
      ([configured_flow_carried]); sets of status codes are read back
      ([status_ranges_roundtrip]).  Dialling ends after at most ten dials, of outbounds the rules
      and groups allow, none of them twice ([dial_sound]).
    - Smart selection: the choice is the best score, the healthy node in use if it is close to
      it, or the hash of the site at a cold start, and never an avoided node while there is
      another ([smart_choice_sound]); the statistics of a node stay bounded and count its open
      connections ([node_stats_invariant]), recovery takes two successes
      ([recovery_takes_two]), and statistics survive a restart ([stats_survive_restart]).
    - Rule sets: lazy evaluation agrees with eager evaluation ([ruleset_lazy_agrees]), the
      exact-set flag is exact ([ruleset_exact_ip_set]), and a decoded domain set answers
      every query ([srs_decoded_set_answers]).
    - SRS files: a file that is accepted yields a well-formed program
      ([srs_parse_well_formed]), reading ends on any input ([srs_loops_terminate]), compiled
      rules mean what the format says ([srs_default_rule_meaning]), and address sets are
      exact ([srs_ip_set_exact]).
    - MRS files: rank and select ([mrs_rank_select]), membership in the trie
      ([mrs_has_is_trie]), exact address ranges ([mrs_ip_set_exact]), no panic
      ([mrs_parse_no_panic]).
    - Sniffers: no panic, the server name of a ClientHello is found, and a reported host is
      valid ([sniff_no_panic], [sniff_client_hello], [sniffed_host_valid]).
    - Query coalescing: one lookup per key at a time, results only of the own key, and every task
      finishes ([singleflight_safe], [singleflight_live]).
    - Fragmentation: fragments fit the MTU and reassemble to the packet
      ([ipv4_fragments_reassemble], [ipv6_fragments_reassemble], [fragment_ip_packet_total]).
    - UDP NAT: the table with its index implements a map ([flow_nat_refines]) and stays
      consistent under concurrent calls ([flow_nat_concurrent]); endpoint independence
      ([eim_endpoint_independent]).
    - REALITY: a well-formed ClientHello parses to what it says ([reality_hello_roundtrip]),
      untrusted bytes never panic ([reality_hello_untrusted]), the buffer is a queue
      ([slide_buffer_is_queue]); the relay to the target loses, repeats and reorders nothing
      wherever it stops ([reality_relay_transparent]), and the result does not depend on
      records, segments and partial writes ([reality_hello_any_fragmentation]).
    - XHTTP uploads: bytes come out in sequence order whatever the arrival order
      ([xhttp_upload_in_order]), retries never change the stream ([xhttp_retry_safe]), and no
      wake-up is lost ([xhttp_reader_live]).
    - Groups: the picked node is an eligible member ([group_pick_sound]) and alive when any is
      ([group_pick_alive]); the jump hash is consistent ([jump_hash_consistent]); a probe
      releases only its own pin ([manual_probe_releases_own_pin]); the fast pick and the
      probe schedule ([fast_pick_correct], [probe_schedule_exact]).
    - From DNS to the rules: a response reads back as what was asked and answered
      ([dns_answer_roundtrip]) and every datagram gets one ([dns_service_total]); a flow to a
      fake address is routed exactly as a flow to the name while the answer may be used
      ([fake_dns_end_to_end]), and on no way into the listener under the fake address
      ([fake_address_never_leaks]); listeners recover the domain too
      ([recovered_host_routes_as_domain], [redir_host_recovered]); exclusions never lose a
      packet ([tun_classify_sound]); frames are read back as written
      ([tun_frame_roundtrip]); own traffic is recognised exactly ([loopback_exact]).
    - Departures of the code from what it means to do, each with the shortest scenario we
      know: [srs_decode_panics_on_orphan_node], [route_process_lookup_masked],
      [route_name_rule_shadows_domain], [tcp_nat_false_exhaustion],
      [fake_ip_renewal_splits_binding], [fake_ip_v6_overruns_network],
      [fake_ip_filter_inner_star_dead], [dns_cache_negative_unbounded],
      [mrs_has_misses_member], [mrs_has_skips_wildcard],
      [singleflight_late_subscriber_fails], [fast_pick_untested_sticks],
      [fast_pick_leaves_candidates], [sticky_gives_up], [evaluate_answer_shadows_group],
      [rejected_name_answered_again], [direct_action_drops_options], [tcp_endpoint_is_udp],
      [default_predefined_rejects], [wildcard_panics_engine],
      [unconditional_branch_drops_final], [object_match_values_conjoined],
      [no_resolve_check_skipped], [final_direct_blocked], [disabled_udp_still_relayed],
      [udp_fallback_shadowed], [nested_truncation_refuses], [nesting_not_bounded],
      [status_codes_not_bounded], [low_cost_sees_no_cost], [pin_is_no_pin], [pin_comes_back],
      [history_keeps_twenty], [negated_address_set_does_not_wait]; and the DNS service of the runtime,
      which has no pool whatever the fake mode is ([redir_host_recovered]).

    ** Fuel and bounds

    Loops that are not structural carry fuel, chosen so that it is never the reason for a
    result.  [deliver_loop]: one more than the buffer's length, every frame consumes bytes;
    that it suffices is part of [data_stream_end_to_end] and [data_stream_untrusted].
    [udp_parts_loop]: 258, since the code's own limit of 256 fragments stops it earlier; part
    of [udp_fragment_padded_correct].  [walk]: the number of sub-rules plus one less the
    depth, so that it ends exactly where the code's own depth guard fires, which a validated
    plan never reaches: part of [route_decide_first_match].
    [visit]: the number of sub-rules plus two, as names on the path are distinct; part of
    [sub_rule_graph_validated].  [adguard_has] and [adguard_rounds]: the code's depth limit,
    and the length of the key; part of [srs_decoded_set_answers].  [child_loop]: one
    more than the bits left, each round reads one.  [next_v4_loop], [next_v6_loop],
    [scan_ports]: exactly the number of tries of the source's counting loops.
    The readers of [SrsRule.v] use [ITEM_FUEL] and the rule depth of the source, and that
    they suffice is [srs_loops_terminate]; the trie walk of [MrsDomain.v] uses [HAS_ROUNDS].
    The loops of [RealityHello.v] and [Sniff.v] take the length of what is left to read as
    fuel, since every round reads a byte.  [read_name_loop]: the 128 rounds of the source.  [poll_read_loop]: two more than the packets held,
    each round removes one; part of [xhttp_reader_live].  [jump_loop]: the number of buckets,
    since every jump goes further; part of [jump_hash_consistent].  [parse_classical_fuel]: the
    length of the text, as every parenthesis taken off shortens it, and [parse_port_fuel]: one
    level of lists; [classical_parser_terminates] shows that both solve the recursion equations
    of the source, which have one solution.  [evaluate_indexed_matcher]: 34 calls, one more than
    the code's limit of 33 names on its stack; [evaluate_fuel].  The searches of [GroupResolve.v] count down
    the code's own limit of 32 levels, [dial_loop] its ten attempts.  Groups of the resolver are built with one level more
    than there are groups ([resolver_groups_build]); the parsers of [DnsPolicy.v] and
    [TextSplit.v] take the length of the text.

    ** Not modelled

    Network and device I/O, task scheduling and tokio (the listeners of [core-inbound], the
    protocol clients of [core-outbound], the session code of
    [core-young], the upstreams of [core-resolver], the platform code of [core-capture]),
    the reading of the configuration ([core-config], serde), persistence ([core-store]),
    downloads ([core-feeds], [core-fetch]), the control API ([core-api]), observability,
    process lookup, mesh backends, gRPC, the TLS
    handshake of REALITY (a patched rustls) and vendored crates.  Allocation is taken to
    succeed, locks not to be poisoned.

    Left out although they are algorithms on data: raw record queries and the JSON form of the
    resolver, the route ownership ledger, the per-application filter and the UDP sessions of
    [core-capture], the compilation of rule-set matchers and the text formats of [core-ruleset], the
    compilers of nodes and streams of [core-config], the body budget of XHTTP.  *)

From stdpp Require Import base list gmap strings numbers option.

#[global] Open Scope Z_scope.

(** ** Outcomes of fallible Rust code

    [Ok]/[Err] are the two variants of [io::Result]; [Panic] is the third way a
    Rust call can end (slice index out of range, [expect] on [None], ...).  Error
    messages are dropped, the [io::ErrorKind] is kept. *)

Inductive ErrorKind : Type :=
| InvalidInput
| InvalidData
| NotFound
| PermissionDenied
| Unsupported
| AlreadyExists
| BrokenPipe
| OutOfMemory
| UnexpectedEof
| WriteZero
| Interrupted
| OtherError.

#[global] Instance ErrorKind_eq_dec : EqDecision ErrorKind.
Proof. solve_decision. Defined.

Inductive outcome (A : Type) : Type :=
| Ok (a : A)
| Err (e : ErrorKind)
| Panic.
Arguments Ok {A} a.
Arguments Err {A} e.
Arguments Panic {A}.

#[global] Instance outcome_ret : MRet outcome := fun A a => Ok a.
#[global] Instance outcome_bind : MBind outcome :=
  fun A B f m => match m with Ok a => f a | Err e => Err e | Panic => Panic end.

#[global] Instance outcome_eq_dec {A} `{EqDecision A} : EqDecision (outcome A).
Proof. solve_decision. Defined.

(** [result.map_err(|_| e)] *)
Definition map_err {A} (e : ErrorKind) (m : outcome A) : outcome A :=
  match m with Ok a => Ok a | Err _ => Err e | Panic => Panic end.

(** [option.ok_or(e)] *)
Definition ok_or {A} (o : option A) (e : ErrorKind) : outcome A :=
  match o with Some a => Ok a | None => Err e end.

(** [option.expect("..")] *)
Definition expect {A} (o : option A) : outcome A := match o with Some a => Ok a | None => Panic end.

Definition no_panic {A} (m : outcome A) : Prop := m <> Panic.

(** [iter.map(f).collect::<io::Result<Vec<_>>>()]: stops at the first error. *)
Fixpoint collect {A B} (f : A -> outcome B) (l : list A) : outcome (list B) :=
  match l with
  | [] => Ok []
  | x :: l' => y ← f x; ys ← collect f l'; Ok (y :: ys)
  end.

(** The same with the element's index, for [iter.enumerate().map(..).collect()]. *)
Fixpoint collect_from {A B} (i : Z) (f : Z -> A -> outcome B) (l : list A) : outcome (list B) :=
  match l with
  | [] => Ok []
  | x :: l' => y ← f i x; ys ← collect_from (i + 1) f l'; Ok (y :: ys)
  end.

(** ** Machine integers *)

Definition uint (w : Z) (z : Z) : Prop := 0 <= z < 2 ^ w.
Abbreviation u8 := (uint 8).
Abbreviation u16 := (uint 16).
Abbreviation u32 := (uint 32).
Abbreviation u64 := (uint 64).
Abbreviation u128 := (uint 128).

Definition uintb (w : Z) (z : Z) : bool := (0 <=? z) && (z <? 2 ^ w).

Definition wrapping_add (w a b : Z) : Z := (a + b) mod 2 ^ w.
Definition wrapping_sub (w a b : Z) : Z := (a - b) mod 2 ^ w.
Definition checked_add (w a b : Z) : option Z := if a + b <? 2 ^ w then Some (a + b) else None.
Definition saturating_add (w a b : Z) : Z := Z.min (a + b) (2 ^ w - 1).
Definition saturating_sub (a b : Z) : Z := Z.max 0 (a - b).
Definition saturating_mul (w a b : Z) : Z := Z.min (a * b) (2 ^ w - 1).
Definition abs_diff (a b : Z) : Z := Z.abs (a - b).
Definition div_ceil (a b : Z) : Z := (a + b - 1) / b.

(** [x.trailing_zeros()] and [x.leading_zeros()] of a [w]-bit unsigned integer. *)
Fixpoint pos_trailing_zeros (p : positive) : Z :=
  match p with xO p' => 1 + pos_trailing_zeros p' | _ => 0 end.
Definition trailing_zeros (w x : Z) : Z := match x with Zpos p => pos_trailing_zeros p | _ => w end.
Definition leading_zeros (w x : Z) : Z := if x =? 0 then w else w - 1 - Z.log2 x.

(** The set bits of a [u64], ascending, and [x.count_ones()] *)
Definition word_bits (w : Z) : list Z := List.filter (Z.testbit w) (Z.of_nat <$> seq 0 64).
Definition count_ones (w : Z) : Z := Z.of_nat (length (word_bits w)).

(** [u16::try_from(n)] and [u8::try_from(n)] for an unsigned [n]. *)
Definition try_from_u (w : Z) (n : Z) (e : ErrorKind) : outcome Z :=
  if n <? 2 ^ w then Ok n else Err e.

(** ** Loops

    [iter_until p step s] runs the body of a [loop] at most [p] times: [inl] goes round
    again, [inr] leaves the loop.  The bound is binary, so that it can be large without
    costing anything. *)
Fixpoint iter_until {S R : Type} (p : positive) (step : S -> S + R) (s : S) : S + R :=
  match p with
  | xH => step s
  | xO p' => match iter_until p' step s with inl s' => iter_until p' step s' | inr r => inr r end
  | xI p' =>
    match step s with
    | inl s' => match iter_until p' step s' with inl s'' => iter_until p' step s'' | inr r => inr r end
    | inr r => inr r
    end
  end.

(** ** Byte strings *)

Definition len {A} (l : list A) : Z := Z.of_nat (length l).

Abbreviation bytes_ok := (Forall u8).

(** [l[a..b]] when the range is valid. *)
Definition slice {A} (l : list A) (a b : Z) : list A :=
  take (Z.to_nat (b - a)) (drop (Z.to_nat a) l).

(** [l[a..b]]: panics unless [a <= b <= l.len()]. *)
Definition get_slice {A} (l : list A) (a b : Z) : outcome (list A) :=
  if (0 <=? a) && (a <=? b) && (b <=? len l) then Ok (slice l a b) else Panic.

(** [l[i]]: panics when out of range. *)
Definition index {A} (l : list A) (i : Z) : outcome A :=
  if 0 <=? i then match l !! Z.to_nat i with Some x => Ok x | None => Panic end else Panic.

(** [n.to_be_bytes()] of an [8*n]-bit integer, and [from_be_bytes]. *)
Fixpoint be_bytes (n : nat) (z : Z) : list Z :=
  match n with
  | O => []
  | S n' => (z / 256 ^ Z.of_nat n') mod 256 :: be_bytes n' z
  end.

Definition be_val (l : list Z) : Z := foldl (fun acc b => acc * 256 + b) 0 l.

(** [l.chunks(n)] *)
Fixpoint chunks_fuel {A} (fuel : nat) (n : nat) (l : list A) : list (list A) :=
  match fuel, l with
  | S fuel', _ :: _ => take n l :: chunks_fuel fuel' n (drop n l)
  | _, _ => []
  end.

Definition chunks {A} (n : Z) (l : list A) : list (list A) :=
  chunks_fuel (length l) (Z.to_nat n) l.

(** [l.chunks_exact(n)]: a last, shorter chunk is left out. *)
Definition chunks_exact {A} (n : Z) (l : list A) : list (list A) :=
  filter (fun c => len c = n) (chunks n l).

(** ** Rust strings: a [String.string] is the sequence of its UTF-8 bytes *)

Definition str_bytes (s : string) : list Z :=
  (fun c => Z.of_N (Ascii.N_of_ascii c)) <$> String.list_ascii_of_string s.

Definition str_of_bytes (l : list Z) : string :=
  String.string_of_list_ascii ((fun b => Ascii.ascii_of_N (Z.to_N b)) <$> l).

Definition str_len (s : string) : Z := len (str_bytes s).

(** [starts_with], [ends_with], [contains] and [trim_start_matches] on byte strings;
    the patterns in the code are ASCII, for which bytes and characters agree. *)
Fixpoint starts_with (l p : list Z) {struct p} : bool :=
  match p, l with
  | [], _ => true
  | y :: p', x :: l' => (x =? y) && starts_with l' p'
  | _ :: _, [] => false
  end.

Definition ends_with (l p : list Z) : bool := starts_with (rev l) (rev p).

Fixpoint contains_bytes (l p : list Z) : bool :=
  starts_with l p || match l with [] => false | _ :: l' => contains_bytes l' p end.

Fixpoint trim_start_fuel (fuel : nat) (p l : list Z) : list Z :=
  match fuel with
  | O => l
  | S fuel' => if starts_with l p then trim_start_fuel fuel' p (drop (length p) l) else l
  end.

(** [l.trim_start_matches(p)] for a non-empty [p]. *)
Definition trim_start_matches (p l : list Z) : list Z := trim_start_fuel (length l) p l.

(** Well-formed UTF-8 (Unicode table 3-7), the check of [String::from_utf8]. *)
Definition in_range (lo hi b : Z) : bool := (lo <=? b) && (b <=? hi).
Definition continuation (b : Z) : bool := in_range 128 191 b.

Fixpoint utf8_fuel (fuel : nat) (l : list Z) : bool :=
  match fuel with
  | O => match l with [] => true | _ => false end
  | S f =>
    match l with
    | [] => true
    | b0 :: r0 =>
      if in_range 0 127 b0 then utf8_fuel f r0 else
      match r0 with
      | b1 :: r1 =>
        if in_range 194 223 b0 then continuation b1 && utf8_fuel f r1 else
        match r1 with
        | b2 :: r2 =>
          if (((b0 =? 224) && in_range 160 191 b1)
              || (in_range 225 236 b0 && continuation b1)
              || ((b0 =? 237) && in_range 128 159 b1)
              || (in_range 238 239 b0 && continuation b1))
             && continuation b2
          then utf8_fuel f r2 else
          match r2 with
          | b3 :: r3 =>
            (((b0 =? 240) && in_range 144 191 b1)
             || (in_range 241 243 b0 && continuation b1)
             || ((b0 =? 244) && in_range 128 143 b1))
            && continuation b2 && continuation b3 && utf8_fuel f r3
          | [] => false
          end
        | [] => false
        end
      | [] => false
      end
    end
  end.

Definition utf8_valid (l : list Z) : bool := utf8_fuel (length l) l.

Definition from_utf8 (l : list Z) : option string :=
  if utf8_valid l then Some (str_of_bytes l) else None.

(** ** Lemmas: lengths, slices and indexing *)

Create HintDb wuther.
#[global] Arguments Z.to_nat : simpl never.
#[global] Arguments Z.pow : simpl never.
#[global] Arguments Z.mul : simpl never.
#[global] Arguments len : simpl never.
#[global] Arguments slice : simpl never.
#[global] Arguments get_slice : simpl never.
#[global] Arguments index : simpl never.

Section Lengths.
Context {A : Type}.
Implicit Types (l k : list A) (x : A).

Lemma len_nonneg l : 0 <= len l.
Proof. unfold len. lia. Qed.

Lemma len_nil : len (@nil A) = 0.
Proof. reflexivity. Qed.

Lemma len_cons x l : len (x :: l) = 1 + len l.
Proof. unfold len. simpl. lia. Qed.

Lemma len_app l k : len (l ++ k) = len l + len k.
Proof. unfold len. rewrite length_app. lia. Qed.

Lemma len_fmap {B} (f : A -> B) l : len (f <$> l) = len l.
Proof. unfold len. by rewrite length_fmap. Qed.

Lemma len_take n l : 0 <= n <= len l -> len (take (Z.to_nat n) l) = n.
Proof. unfold len. rewrite length_take. lia. Qed.

Lemma len_drop n l : 0 <= n <= len l -> len (drop (Z.to_nat n) l) = len l - n.
Proof. unfold len. rewrite length_drop. lia. Qed.

Lemma len_zero_nil l : len l = 0 -> l = [].
Proof. destruct l; [done|]. unfold len. simpl. lia. Qed.

Lemma len_slice l a b : 0 <= a <= b -> b <= len l -> len (slice l a b) = b - a.
Proof. unfold len, slice. rewrite length_take, length_drop. lia. Qed.

Lemma slice_app_skip l k a b :
  len l <= a -> a <= b -> slice (l ++ k) a b = slice k (a - len l) (b - len l).
Proof.
  unfold slice, len. intros H1 H2. rewrite drop_app_ge by lia.
  f_equal; [lia|]. f_equal. lia.
Qed.

Lemma slice_app_first l k a b :
  0 <= a -> a <= b -> b <= len l -> slice (l ++ k) a b = slice l a b.
Proof.
  unfold slice, len. intros H1 H2 H3. rewrite drop_app_le by lia.
  rewrite take_app_le; [done|]. rewrite length_drop. lia.
Qed.

Lemma slice_all l b : b = len l -> slice l 0 b = l.
Proof. unfold slice, len. intros ->. rewrite drop_0. apply take_ge. lia. Qed.

Lemma slice_0_take l n m : 0 <= n <= m -> slice (take (Z.to_nat m) l) 0 n = slice l 0 n.
Proof. unfold slice. intros. rewrite !drop_0, take_take. f_equal. lia. Qed.

Lemma slice_take l n a b :
  0 <= a -> b <= n -> slice (take (Z.to_nat n) l) a b = slice l a b.
Proof.
  unfold slice. intros. destruct (decide (a <= b)).
  - rewrite skipn_firstn_comm, take_take. f_equal. lia.
  - replace (Z.to_nat (b - a)) with 0%nat by lia. done.
Qed.

Lemma slice_to_end l a b : b = len l -> slice l a b = drop (Z.to_nat a) l.
Proof. unfold slice, len. intros ->. apply take_ge. rewrite length_drop. lia. Qed.

Lemma slice_from_0 l n : slice l 0 n = take (Z.to_nat n) l.
Proof. unfold slice. rewrite drop_0. f_equal. lia. Qed.

Lemma slice_split l a b c :
  0 <= a <= b -> b <= c -> c <= len l -> slice l a c = slice l a b ++ slice l b c.
Proof.
  unfold slice, len. intros.
  replace (Z.to_nat (c - a)) with (Z.to_nat (b - a) + Z.to_nat (c - b))%nat by lia.
  rewrite <- take_take_drop, drop_drop. f_equal. f_equal. f_equal. lia.
Qed.

Lemma get_slice_ok l a b :
  0 <= a <= b -> b <= len l -> get_slice l a b = Ok (slice l a b).
Proof. intros. unfold get_slice. by rewrite !(proj2 (Z.leb_le _ _)) by lia. Qed.

Lemma get_slice_inv l a b s :
  get_slice l a b = Ok s -> 0 <= a <= b /\ b <= len l /\ s = slice l a b.
Proof. unfold get_slice. intros. case_match; simplify_eq. split_and!; by try lia. Qed.

Lemma index_ok l i : 0 <= i < len l -> exists x, index l i = Ok x /\ x ∈ l.
Proof.
  unfold index, len. intros. rewrite (proj2 (Z.leb_le _ _)) by lia.
  destruct (lookup_lt_is_Some_2 l (Z.to_nat i)) as [x Hx]; [lia|].
  exists x. rewrite Hx. split; [done|]. by eapply list_elem_of_lookup_2.
Qed.

Lemma index_app_skip l k i : len l <= i -> index (l ++ k) i = index k (i - len l).
Proof.
  unfold index, len. intros. rewrite !(proj2 (Z.leb_le _ _)) by lia.
  rewrite lookup_app_r by lia. replace (Z.to_nat i - length l)%nat with (Z.to_nat (i - Z.of_nat (length l))) by lia.
  done.
Qed.

Lemma index_app_first l k i : i < len l -> index (l ++ k) i = index l i.
Proof.
  unfold index, len. intros. case_match; [|done].
  apply Z.leb_le in H0. by rewrite lookup_app_l by lia.
Qed.

Lemma index_take l n i : i < n -> index (take (Z.to_nat n) l) i = index l i.
Proof.
  unfold index. intros. case_match; [|done]. apply Z.leb_le in H0.
  by rewrite lookup_take_lt by lia.
Qed.

Lemma index_cons_eq x l i : i = 0 -> index (x :: l) i = Ok x.
Proof. by intros ->. Qed.

Lemma index_cons_skip x l i : 1 <= i -> index (x :: l) i = index l (i - 1).
Proof.
  intros. change (x :: l) with ([x] ++ l). rewrite index_app_skip; [done|]. unfold len. simpl. lia.
Qed.

Lemma slice_cons_skip x l a b : 1 <= a -> a <= b -> slice (x :: l) a b = slice l (a - 1) (b - 1).
Proof.
  intros. change (x :: l) with ([x] ++ l). rewrite slice_app_skip; [done|unfold len; simpl; lia|done].
Qed.

Lemma slice_exact l a b : a = 0 -> b = len l -> slice l a b = l.
Proof. intros -> ->. by apply slice_all. Qed.

Lemma len_take_min n l : 0 <= n -> len (take (Z.to_nat n) l) = Z.min n (len l).
Proof. unfold len. rewrite length_take. lia. Qed.

Lemma slice_take_app l k m n :
  n = len l -> n <= m -> slice (take (Z.to_nat m) (l ++ k)) n m = take (Z.to_nat (m - n)) k.
Proof.
  unfold slice, len. intros -> ?. rewrite skipn_firstn_comm, drop_app_length' by lia.
  rewrite take_take. f_equal. lia.
Qed.

Lemma slice_take_app_eq l m n k :
  0 <= n <= m -> drop (Z.to_nat n) l = k -> slice (take (Z.to_nat m) l) n m = take (Z.to_nat (m - n)) k.
Proof. unfold slice. intros ? <-. rewrite skipn_firstn_comm, take_take. f_equal. lia. Qed.

Lemma index_slice1 l i x : index l i = Ok x -> slice l i (i + 1) = [x].
Proof.
  unfold index, slice. intros. case_match; [|done]. case_match; simplify_eq.
  replace (Z.to_nat (i + 1 - i)) with 1%nat by lia.
  by erewrite drop_S.
Qed.
End Lengths.

(** ** Lemmas: big-endian integers *)

Lemma length_be_bytes n z : length (be_bytes n z) = n.
Proof. induction n; cbn [be_bytes length]; congruence. Qed.

Lemma len_be_bytes n z : len (be_bytes n z) = Z.of_nat n.
Proof. unfold len. by rewrite length_be_bytes. Qed.

Lemma be_bytes_ok n z : bytes_ok (be_bytes n z).
Proof.
  induction n; cbn [be_bytes]; constructor; [|done].
  pose proof (Z.mod_pos_bound (z / 256 ^ Z.of_nat n) 256). unfold uint.
  change (2 ^ 8) with 256. lia.
Qed.

Lemma be_fold acc l :
  foldl (fun a b => a * 256 + b) acc l = acc * 256 ^ len l + be_val l.
Proof.
  unfold be_val. revert acc. induction l as [|x l IH]; intros acc; cbn [foldl].
  - rewrite len_nil. lia.
  - rewrite len_cons, (IH (acc * 256 + x)), (IH (0 * 256 + x)).
    rewrite Z.pow_add_r by (pose proof (len_nonneg l); lia). lia.
Qed.

Lemma be_val_cons x l : be_val (x :: l) = x * 256 ^ len l + be_val l.
Proof. change (be_val (x :: l)) with (foldl (fun a b => a * 256 + b) (0 * 256 + x) l). rewrite be_fold. lia. Qed.

(** Fields of a word that do not overlap *)
Lemma lor_disjoint k c o : 0 <= k -> 0 <= o < 2 ^ k -> Z.lor (c * 2 ^ k) o = c * 2 ^ k + o.
Proof.
  intros Hk Ho. rewrite <- Z.add_lor_land. replace (Z.land (c * 2 ^ k) o) with 0; [lia|].
  symmetry. apply Z.bits_inj'. intros i Hi. rewrite Z.land_spec, Z.bits_0. destruct (Z.ltb_spec i k) as [Hlt|Hge].
  - by rewrite Z.mul_pow2_bits_low.
  - destruct (Z.eq_dec o 0) as [->|]; [by rewrite Z.bits_0, andb_false_r|].
    rewrite (Z.bits_above_log2 o); [apply andb_false_r|lia|]. apply Z.log2_lt_pow2; [lia|].
    apply Z.lt_le_trans with (2 ^ k); [lia|]. apply Z.pow_le_mono_r; lia.
Qed.

Lemma be_val_be_bytes n z : be_val (be_bytes n z) = z mod 256 ^ Z.of_nat n.
Proof.
  induction n as [|n IH].
  - cbn [be_bytes]. change (be_val []) with 0. change (256 ^ Z.of_nat 0) with 1. by rewrite Z.mod_1_r.
  - cbn [be_bytes]. rewrite be_val_cons, IH, len_be_bytes, Nat2Z.inj_succ, Z.pow_succ_r by lia.
    assert (0 < 256 ^ Z.of_nat n) by (apply Z.pow_pos_nonneg; lia).
    rewrite (Z.mul_comm 256), Z.rem_mul_r by lia. lia.
Qed.

Lemma be_val_be_bytes_small n z :
  0 <= z < 256 ^ Z.of_nat n -> be_val (be_bytes n z) = z.
Proof. intros. rewrite be_val_be_bytes. by apply Z.mod_small. Qed.

Lemma be_val_range l : bytes_ok l -> 0 <= be_val l < 256 ^ len l.
Proof.
  induction 1 as [|x l Hx Hl IH]; [done|].
  rewrite be_val_cons, len_cons, Z.pow_add_r by (pose proof (len_nonneg l); lia).
  unfold uint in Hx. change (2 ^ 8) with 256 in Hx. change (256 ^ 1) with 256. nia.
Qed.

Lemma be_bytes_be_val l : bytes_ok l -> be_bytes (length l) (be_val l) = l.
Proof.
  induction 1 as [|x l Hx Hl IH]; [done|].
  pose proof (be_val_range l Hl) as R. fold (len l) in *.
  assert (0 < 256 ^ len l) by lia.
  assert (Hcong : forall n a b, 256 ^ Z.of_nat n <> 0 ->
             (exists q, a = b + q * 256 ^ Z.of_nat n) -> be_bytes n a = be_bytes n b).
  { clear. induction n as [|n IHn]; intros a b Hn [q ->]; [done|]. cbn [be_bytes].
    rewrite Nat2Z.inj_succ, Z.pow_succ_r by lia.
    assert (0 < 256 ^ Z.of_nat n) by (apply Z.pow_pos_nonneg; lia).
    f_equal.
    - replace (b + q * (256 * 256 ^ Z.of_nat n)) with (b + (q * 256) * 256 ^ Z.of_nat n) by lia.
      rewrite Z.div_add by lia. by rewrite Z.mod_add.
    - apply IHn; [lia|]. exists (q * 256). lia. }
  cbn [length be_bytes]. rewrite be_val_cons. fold (len l).
  unfold uint in Hx. change (2 ^ 8) with 256 in Hx. f_equal.
  - unfold len in *. rewrite Z.add_comm, Z.div_add, Z.div_small by lia. rewrite Z.mod_small; lia.
  - rewrite (Hcong _ _ (be_val l)); [done| unfold len in *; lia |]. exists x. unfold len. lia.
Qed.

#[global] Arguments be_bytes : simpl never.
#[global] Arguments be_val : simpl never.

(** ** Lemmas: filters and chunks *)

Lemma NoDup_fmap_filter {A B} (f : A -> B) (P : A -> Prop) `{forall x, Decision (P x)} l :
  NoDup (f <$> l) -> NoDup (f <$> filter P l).
Proof.
  induction l as [|x l IH]; [done|]. cbn [fmap list_fmap]. intros Hnd. inversion_clear Hnd as [|? ? Hx Hl].
  destruct (decide (P x)).
  - rewrite filter_cons_True by done. cbn. constructor; [|by apply IH].
    intros Hin. apply Hx. apply list_elem_of_fmap in Hin as (y & -> & Hy).
    apply list_elem_of_filter in Hy as [_ Hy]. by apply list_elem_of_fmap_2.
  - rewrite filter_cons_False by done. by apply IH.
Qed.

Lemma filter_all_id {A} (P : A -> Prop) `{forall x, Decision (P x)} l : Forall P l -> filter P l = l.
Proof. induction 1 as [|x l Hx Hl IH]; [done|]. rewrite filter_cons_True by done. by rewrite IH. Qed.

Section Chunks.
Context {A : Type}.
Implicit Types l : list A.

Lemma chunks_fuel_concat f n l :
  (0 < n)%nat -> (length l <= f)%nat -> concat (chunks_fuel f n l) = l.
Proof.
  revert l. induction f as [|f IH]; intros l Hn Hf.
  - destruct l; [done|simpl in Hf; lia].
  - destruct l as [|x l]; [done|].
    change (chunks_fuel (S f) n (x :: l)) with (take n (x :: l) :: chunks_fuel f n (drop n (x :: l))).
    cbn [concat]. rewrite IH; [apply take_drop|done|].
    rewrite length_drop. simpl in *. lia.
Qed.

Lemma concat_chunks n l : 0 < n -> concat (chunks n l) = l.
Proof. intros. apply chunks_fuel_concat; lia. Qed.

Lemma chunks_fuel_sizes f n l :
  (0 < n)%nat -> Forall (fun c => (1 <= length c <= n)%nat) (chunks_fuel f n l).
Proof.
  intros Hn. revert l. induction f as [|f IH]; intros l; [constructor|].
  destruct l as [|x l]; [constructor|].
  change (chunks_fuel (S f) n (x :: l)) with (take n (x :: l) :: chunks_fuel f n (drop n (x :: l))).
  constructor; [|apply IH]. rewrite length_take. simpl. lia.
Qed.

Lemma chunks_sizes n l : 0 < n -> Forall (fun c => 1 <= len c <= n) (chunks n l).
Proof.
  intros. unfold chunks.
  pose proof (chunks_fuel_sizes (length l) (Z.to_nat n) l ltac:(lia)) as H1.
  eapply List.Forall_impl; [|exact H1]. unfold len. simpl. lia.
Qed.

Lemma chunks_fuel_count f n l :
  (0 < n)%nat -> (length l <= f)%nat ->
  Z.of_nat (length (chunks_fuel f n l)) = div_ceil (Z.of_nat (length l)) (Z.of_nat n).
Proof.
  unfold div_ceil. revert l. induction f as [|f IH]; intros l Hn Hf.
  - destruct l; [|simpl in Hf; lia]. simpl. rewrite Z.div_small; lia.
  - destruct l as [|x l]; [simpl; rewrite Z.div_small; lia|].
    change (chunks_fuel (S f) n (x :: l)) with (take n (x :: l) :: chunks_fuel f n (drop n (x :: l))).
    cbn [length]. rewrite Nat2Z.inj_succ, IH, length_drop by (rewrite ?length_drop; simpl in *; lia).
    cbn [length]. set (m := S (length l)).
    destruct (decide (n <= m)%nat).
    + replace (Z.of_nat m + Z.of_nat n - 1) with (Z.of_nat (m - n) + Z.of_nat n - 1 + 1 * Z.of_nat n) by lia.
      rewrite Z.div_add by lia. lia.
    + replace (m - n)%nat with 0%nat by lia.
      rewrite Z.div_small by lia.
      replace (Z.of_nat m + Z.of_nat n - 1) with (Z.of_nat m - 1 + 1 * Z.of_nat n) by lia.
      rewrite Z.div_add, Z.div_small by lia. lia.
Qed.

Lemma chunks_count n l : 0 < n -> len (chunks n l) = div_ceil (len l) n.
Proof. intros. unfold len, chunks. rewrite chunks_fuel_count by lia. f_equal. lia. Qed.

Lemma chunks_fuel_concat_blocks f n (ls : list (list A)) :
  (0 < n)%nat -> Forall (fun c => length c = n) ls -> (length (concat ls) <= f)%nat ->
  chunks_fuel f n (concat ls) = ls.
Proof.
  intros Hn. revert f. induction ls as [|c ls IH]; intros f Hl Hf; [by destruct f|].
  apply Forall_cons_1 in Hl as [Hc Hl]. cbn [concat] in *. rewrite length_app in Hf.
  destruct f as [|f]; [lia|]. destruct c as [|x c]; [cbn in Hc; lia|].
  change (chunks_fuel (S f) n ((x :: c) ++ concat ls))
    with (take n ((x :: c) ++ concat ls) :: chunks_fuel f n (drop n ((x :: c) ++ concat ls))).
  rewrite <- Hc. rewrite take_app_length, drop_app_length, Hc, IH; [done|done|]. cbn in Hf. lia.
Qed.

Lemma chunks_concat_blocks n (ls : list (list A)) :
  0 < n -> Forall (fun c => len c = n) ls -> chunks n (concat ls) = ls.
Proof.
  intros Hn Hl. apply chunks_fuel_concat_blocks; [lia| |lia].
  eapply List.Forall_impl; [|exact Hl]. unfold len. simpl. lia.
Qed.
End Chunks.

(** ** Lemmas: strings *)

Lemma byte_ascii_roundtrip b : u8 b -> Z.of_N (Ascii.N_of_ascii (Ascii.ascii_of_N (Z.to_N b))) = b.
Proof.
  unfold uint. change (2 ^ 8) with 256. intros. rewrite Ascii.N_ascii_embedding; lia.
Qed.

Lemma ascii_byte_range c : u8 (Z.of_N (Ascii.N_of_ascii c)).
Proof.
  pose proof (Ascii.N_ascii_bounded c). unfold uint. change (2 ^ 8) with 256. lia.
Qed.

Lemma str_bytes_ok s : bytes_ok (str_bytes s).
Proof. unfold str_bytes. apply Forall_fmap, Forall_true. intros c. apply ascii_byte_range. Qed.

Lemma str_bytes_of_bytes l : bytes_ok l -> str_bytes (str_of_bytes l) = l.
Proof.
  unfold str_bytes, str_of_bytes. intros H.
  rewrite String.list_ascii_of_string_of_list_ascii, <- list_fmap_compose.
  induction H as [|b l Hb Hl IH]; [done|]. cbn. f_equal; [by apply byte_ascii_roundtrip|done].
Qed.

Lemma str_len_of_bytes l : str_len (str_of_bytes l) = len l.
Proof.
  unfold str_len, str_bytes, str_of_bytes, len.
  by rewrite String.list_ascii_of_string_of_list_ascii, !length_fmap.
Qed.

Lemma str_of_str_bytes s : str_of_bytes (str_bytes s) = s.
Proof.
  unfold str_bytes, str_of_bytes. rewrite <- list_fmap_compose.
  rewrite <- (String.string_of_list_ascii_of_string s) at 2. f_equal.
  induction (String.list_ascii_of_string s) as [|c l IH]; [done|]. cbn. f_equal; [|done].
  by rewrite N2Z.id, Ascii.ascii_N_embedding.
Qed.

Lemma from_utf8_bytes s : utf8_valid (str_bytes s) = true -> from_utf8 (str_bytes s) = Some s.
Proof. unfold from_utf8. intros ->. by rewrite str_of_str_bytes. Qed.

Lemma str_bytes_app a b : str_bytes (a +:+ b) = str_bytes a ++ str_bytes b.
Proof.
  unfold str_bytes. induction a as [|c a IH]; [done|].
  change (String.String c a +:+ b) with (String.String c (a +:+ b)). cbn. f_equal. apply IH.
Qed.

Lemma starts_with_spec l p : starts_with l p = true <-> exists k, l = p ++ k.
Proof.
  revert l. induction p as [|y p IH]; intros l; cbn.
  - split; [by exists l|done].
  - destruct l as [|x l]; [split; [done|intros [k Hk]; discriminate]|].
    rewrite andb_true_iff, IH, Z.eqb_eq. split.
    + intros [-> [k ->]]. by exists k.
    + intros [k Hk]. injection Hk as -> ->. split; [done|by exists k].
Qed.

Lemma ends_with_spec l p : ends_with l p = true <-> exists k, l = k ++ p.
Proof.
  unfold ends_with. rewrite starts_with_spec. split; intros [k Hk].
  - exists (rev k). rewrite <- (rev_involutive l), Hk, rev_app_distr. by rewrite rev_involutive.
  - exists (rev k). by rewrite Hk, rev_app_distr.
Qed.

Lemma contains_bytes_spec l p : contains_bytes l p = true <-> exists a b, l = a ++ p ++ b.
Proof.
  induction l as [|x l IH]; cbn [contains_bytes]; rewrite orb_true_iff, starts_with_spec.
  - split; [|intros (a & b & E); left; exists []].
    + intros [[k E]|]; [|done]. by exists [], k.
    + symmetry in E. apply app_nil in E as [_ E]. apply app_nil in E as [-> _]. done.
  - rewrite IH. split.
    + intros [[k E]|(a & b & ->)]; [by exists [], k|by exists (x :: a), b].
    + intros ([|y a] & b & E); [left; by exists b|right]. injection E as -> ->. by exists a, b.
Qed.

(** ** Lemmas: outcomes *)

Lemma bind_Ok {A B} (f : A -> outcome B) (m : outcome A) (b : B) :
  (m ≫= f) = Ok b <-> exists a, m = Ok a /\ f a = Ok b.
Proof. destruct m; cbn; naive_solver. Qed.

Lemma ok_or_Ok {A} (o : option A) e a : ok_or o e = Ok a <-> o = Some a.
Proof. destruct o; cbn; naive_solver. Qed.

Lemma checked_add_Some w a b c : checked_add w a b = Some c <-> a + b < 2 ^ w /\ c = a + b.
Proof. unfold checked_add. destruct (Z.ltb_spec (a + b) (2 ^ w)); naive_solver lia. Qed.

Lemma no_panic_Ok {A} (a : A) : no_panic (Ok a).
Proof. discriminate. Qed.

Lemma no_panic_Err {A} e : no_panic (@Err A e).
Proof. discriminate. Qed.

Lemma no_panic_bind {A B} (f : A -> outcome B) (m : outcome A) :
  no_panic m -> (forall a, m = Ok a -> no_panic (f a)) -> no_panic (m ≫= f).
Proof. unfold no_panic. destruct m; cbn; naive_solver. Qed.

Lemma no_panic_if {A} (b : bool) (m k : outcome A) :
  (b = true -> no_panic m) -> (b = false -> no_panic k) -> no_panic (if b then m else k).
Proof. destruct b; auto. Qed.

(** Code without an error of its own *)
Definition no_error {A} (m : outcome A) : Prop := match m with Err _ => False | _ => True end.

Lemma no_error_bind {A B} (f : A -> outcome B) (m : outcome A) : no_error m -> (forall a, no_error (f a)) -> no_error (m ≫= f).
Proof. intros Hm Hf. by destruct m; cbn. Qed.

Lemma no_error_index {A} (l : list A) i : no_error (index l i).
Proof. unfold index. by repeat case_match. Qed.

Lemma no_panic_map_err {A} e (m : outcome A) : no_panic m -> no_panic (map_err e m).
Proof. by destruct m. Qed.

Lemma no_panic_try_from_u w n e : no_panic (try_from_u w n e).
Proof. unfold try_from_u. by case_match. Qed.

Lemma no_panic_ok_or {A} (o : option A) e : no_panic (ok_or o e).
Proof. by destruct o. Qed.

Lemma no_panic_get_slice {A} (l : list A) a b :
  0 <= a <= b -> b <= len l -> no_panic (get_slice l a b).
Proof. intros. by rewrite get_slice_ok. Qed.

Lemma no_panic_index {A} (l : list A) i : 0 <= i < len l -> no_panic (index l i).
Proof. intros H. by destruct (index_ok l i H) as (x & -> & _). Qed.

Lemma index_bytes_ok l i x : bytes_ok l -> index l i = Ok x -> u8 x.
Proof.
  unfold index. intros Hl Hi. case_match; [|done]. case_match; simplify_eq.
  by eapply Forall_lookup_1.
Qed.

Lemma slice_bytes_ok l a b : bytes_ok l -> bytes_ok (slice l a b).
Proof. intros. unfold slice. by apply Forall_take, Forall_drop. Qed.

Lemma get_slice_bytes_ok l a b s : bytes_ok l -> get_slice l a b = Ok s -> bytes_ok s /\ len s = b - a.
Proof.
  intros Hl Hs. apply get_slice_inv in Hs as (? & ? & ->). split; [by apply slice_bytes_ok|].
  by apply len_slice.
Qed.

Lemma be_val_slice_range l a b s n :
  bytes_ok l -> get_slice l a b = Ok s -> b - a = n -> 0 <= be_val s < 256 ^ n.
Proof.
  intros Hl Hs <-. destruct (get_slice_bytes_ok _ _ _ _ Hl Hs) as [Hs1 <-]. by apply be_val_range.
Qed.

#[export] Hint Resolve no_panic_Ok no_panic_Err no_panic_map_err no_panic_try_from_u no_panic_ok_or : wuther.

(** [yields e Q m]: [m] does not panic, fails only with [e], and a value it returns
    satisfies [Q]; a weakest-precondition style reading of a fallible program. *)
Definition yields {A} (e : ErrorKind) (Q : A -> Prop) (m : outcome A) : Prop :=
  match m with Ok a => Q a | Err e' => e' = e | Panic => False end.

Section Yields.
Context {A B : Type} (e : ErrorKind).

Lemma yields_bind (Q : B -> Prop) (f : A -> outcome B) (m : outcome A) :
  yields e (fun a => yields e Q (f a)) m -> yields e Q (m ≫= f).
Proof. by destruct m. Qed.

Lemma yields_if (Q : A -> Prop) (b : bool) (m k : outcome A) :
  (b = true -> yields e Q m) -> (b = false -> yields e Q k) -> yields e Q (if b then m else k).
Proof. destruct b; auto. Qed.

Lemma yields_ok_or (Q : A -> Prop) (o : option A) :
  (forall a, o = Some a -> Q a) -> yields e Q (ok_or o e).
Proof. destruct o; cbn; auto. Qed.

Lemma yields_map_err (Q : A -> Prop) (m : outcome A) :
  no_panic m -> (forall a, m = Ok a -> Q a) -> yields e Q (map_err e m).
Proof. unfold no_panic. destruct m; cbn; auto. Qed.

Lemma yields_get_slice (Q : list A -> Prop) (l : list A) a b :
  0 <= a <= b -> b <= len l -> (forall s, get_slice l a b = Ok s -> Q s) -> yields e Q (get_slice l a b).
Proof. intros H1 H2 HQ. rewrite get_slice_ok in * by done. cbn. auto. Qed.

Lemma yields_index (Q : A -> Prop) (l : list A) i :
  0 <= i < len l -> (forall x, index l i = Ok x -> Q x) -> yields e Q (index l i).
Proof. intros Hi HQ. destruct (index_ok l i Hi) as (x & E & _). rewrite E in *. cbn. auto. Qed.
End Yields.

Lemma collect_ok {A B} (f : A -> outcome B) (g : A -> B) l :
  (forall x, x ∈ l -> f x = Ok (g x)) -> collect f l = Ok (g <$> l).
Proof.
  induction l as [|x l IH]; intros H; [done|]. cbn.
  rewrite H by left. cbn. rewrite IH; [done|]. intros y Hy. apply H. by right.
Qed.

Lemma collect_from_ok {A B} (f : Z -> A -> outcome B) (g : Z -> A -> B) i l :
  (forall (j : nat) x, l !! j = Some x -> f (i + Z.of_nat j) x = Ok (g (i + Z.of_nat j) x)) ->
  collect_from i f l = Ok (imap (fun j x => g (i + Z.of_nat j) x) l).
Proof.
  revert i. induction l as [|x l IH]; intros i H; [done|]. cbn.
  pose proof (H 0%nat x eq_refl) as H0. rewrite Z.add_0_r in H0. rewrite H0. cbn.
  rewrite IH.
  - cbn. f_equal. f_equal; [f_equal; lia|]. apply imap_ext. intros j y _. cbn. f_equal. lia.
  - intros j y Hj. replace (i + 1 + Z.of_nat j) with (i + Z.of_nat (S j)) by lia. by apply H.
Qed.

(** ** Lemmas: loops *)

Section Loops.
Context {S R : Type} (step : S -> S + R) (I : S -> Prop) (measure : S -> Z).
Hypothesis step_decreases : forall s s', I s -> step s = inl s' -> I s' /\ 0 <= measure s' < measure s.

Lemma iter_until_inl p s s' : I s -> iter_until p step s = inl s' -> I s' /\ 0 <= measure s' <= measure s - Zpos p.
Proof using All.
  revert s s'. induction p as [p IH|p IH|]; cbn; intros s s' Hs E.
  - destruct (step s) as [s1|] eqn:E1; [|done]. destruct (iter_until p step s1) as [s2|] eqn:E2; [|done].
    destruct (step_decreases _ _ Hs E1) as [I1 M1]. destruct (IH _ _ I1 E2) as [I2 M2].
    destruct (IH _ _ I2 E) as [I3 M3]. split; [done|lia].
  - destruct (iter_until p step s) as [s1|] eqn:E1; [|done]. destruct (IH _ _ Hs E1) as [I1 M1].
    destruct (IH _ _ I1 E) as [I2 M2]. split; [done|lia].
  - destruct (step_decreases _ _ Hs E) as [I1 M1]. split; [done|lia].
Qed.

(** A loop whose body decreases a measure leaves within that many rounds. *)
Lemma iter_until_leaves p s : I s -> measure s < Zpos p -> exists r, iter_until p step s = inr r.
Proof using All.
  intros Hs Hm. destruct (iter_until p step s) as [s'|r] eqn:E; [|by exists r].
  destruct (iter_until_inl _ _ _ Hs E). lia.
Qed.
End Loops.

(** What holds of every way out of the loop body holds of the loop. *)
Lemma iter_until_post {S R} (step : S -> S + R) (I : S -> Prop) (Q : R -> Prop) p s :
  (forall s, I s -> match step s with inl s' => I s' | inr r => Q r end) ->
  I s -> match iter_until p step s with inl s' => I s' | inr r => Q r end.
Proof.
  intros Hstep. revert s. induction p as [p IH|p IH|]; cbn; intros s Hs; [| |by apply Hstep].
  - pose proof (Hstep s Hs) as H1. destruct (step s) as [s1|]; [|done].
    pose proof (IH _ H1) as H2. destruct (iter_until p step s1) as [s2|]; [|done]. by apply IH.
  - pose proof (IH _ Hs) as H1. destruct (iter_until p step s) as [s1|]; [|done]. by apply IH.
Qed.

(** ** Tactics

    [lens] discharges length side conditions; [slices] normalises slices and
    indexing of concatenations whose segment lengths are known; [np] walks an
    outcome-valued program and leaves only the bounds of its slice accesses. *)

Create Rewrite HintDb len_db.
#[global] Hint Rewrite @len_app @len_cons @len_nil len_be_bytes : len_db.

Ltac lens :=
  repeat match goal with
  | |- context [len (take (Z.to_nat ?n) ?l)] => rewrite (len_take_min n l) by lia
  end;
  autorewrite with len_db in *; lia.

Ltac slice_step :=
  match goal with
  | |- context [slice (take (Z.to_nat ?n) ?x) ?a ?b] => rewrite (slice_take x n a b) by lens
  | |- context [index (take (Z.to_nat ?n) ?x) ?a] => rewrite (index_take x n a) by lens
  | |- context [slice (?x ++ ?y) ?a ?b] =>
    first [ rewrite (slice_app_skip x y a b) by lens
          | rewrite (slice_app_first x y a b) by lens ]
  | |- context [slice (?x :: ?y) ?a ?b] => rewrite (slice_cons_skip x y a b) by lens
  | |- context [slice ?x ?a ?b] => rewrite (slice_exact x a b) by lens
  | |- context [index (?x ++ ?y) ?a] =>
    first [ rewrite (index_app_skip x y a) by lens
          | rewrite (index_app_first x y a) by lens ]
  | |- context [index (?x :: ?y) ?a] =>
    first [ rewrite (index_cons_eq x y a) by lens
          | rewrite (index_cons_skip x y a) by lens ]
  end.

(** Decide a comparison that guards the program being evaluated. *)
Ltac guard_step :=
  match goal with
  | |- context [if ?a <? ?b then _ else _] =>
    first [ rewrite (proj2 (Z.ltb_lt a b)) by lens | rewrite (proj2 (Z.ltb_ge a b)) by lens ]
  | |- context [if ?a =? ?b then _ else _] =>
    first [ rewrite (proj2 (Z.eqb_eq a b)) by lens | rewrite (proj2 (Z.eqb_neq a b)) by lens ]
  | |- context [get_slice ?x ?a ?b] => rewrite (get_slice_ok x a b) by lens
  end.

Ltac np_step :=
  lazymatch goal with
  | |- no_panic (Ok _) => apply no_panic_Ok
  | |- no_panic (Err _) => apply no_panic_Err
  | |- no_panic (if _ then _ else _) => apply no_panic_if; intros
  | |- no_panic (_ ≫= _) => apply no_panic_bind; [|intros ? ?]
  | |- no_panic (get_slice _ _ _) => apply no_panic_get_slice; [try lia|try lia]
  | |- no_panic (index _ _) => apply no_panic_index; try lia
  | |- no_panic (match ?x with _ => _ end) => destruct x eqn:?
  | |- no_panic _ => solve [eauto with wuther]
  end.
Ltac np := repeat np_step.

(** The same for [yields]: walks the program, naming what each step returned. *)
Ltac yields_step :=
  lazymatch goal with
  | |- yields _ _ (Err _) => reflexivity
  | |- yields _ _ (Ok _) => cbn [yields]
  | |- yields _ _ (_ ≫= _) => apply yields_bind
  | |- yields _ _ (if _ then _ else _) => apply yields_if; intros
  | |- yields _ _ (ok_or _ _) => apply yields_ok_or; intros
  | |- yields _ _ (map_err _ _) => apply yields_map_err; [|intros]
  | |- yields _ _ (get_slice _ _ _) => apply yields_get_slice; [try lia|try lia|intros]
  | |- yields _ _ (index _ _) => apply yields_index; [try lia|intros]
  end.

(** Inversion of a program that returned [Ok]. *)
Ltac inv_ok_step :=
  match goal with
  | H : (_ ≫= _) = Ok _ |- _ => apply bind_Ok in H; destruct H as (? & ? & H)
  | H : (if ?c then _ else _) = Ok _ |- _ => destruct c eqn:?; try discriminate H
  | H : (match ?c with _ => _ end) = Ok _ |- _ => destruct c eqn:?; try discriminate H
  | H : Ok _ = Ok _ |- _ => injection H; clear H; intros; subst
  | H : ok_or _ _ = Ok _ |- _ => apply ok_or_Ok in H
  | H : checked_add _ _ _ = Some _ |- _ => apply checked_add_Some in H as [? H]; subst
  | H : (_ ≫= _) = Some _ |- _ => apply bind_Some in H; destruct H as (? & ? & H)
  | H : Some _ = Some _ |- _ => injection H; clear H; intros; subst
  | H : Some _ = None |- _ => discriminate H
  | H : None = Some _ |- _ => discriminate H
  end.
Ltac inv_ok := repeat inv_ok_step.

(** The big-endian value of a slice of a byte string is not negative. *)
Ltac be_facts :=
  repeat match goal with
  | Hb : bytes_ok ?l, Hs : get_slice ?l ?a ?b = Ok ?s |- _ =>
    lazymatch goal with
    | _ : 0 <= be_val s |- _ => fail
    | _ => assert (0 <= be_val s) by
             (apply be_val_range; exact (proj1 (get_slice_bytes_ok _ _ _ _ Hb Hs)))
    end
  end.
