(* ===== verification/Text.v ===== *)
(** * Text of [std::str] and [std::num] the components share

    A Rust string is the sequence of its UTF-8 bytes ([Prelude.v]); the operations here are
    those with ASCII patterns, for which bytes and characters agree. *)

From stdpp Require Import base list gmap strings numbers option.
From S2P Require Import Prelude.

(** ** ASCII text helpers of [std::str] *)

Definition ascii_lower_byte (c : Z) : Z := if in_range 65 90 c then c + 32 else c.
Definition to_ascii_lowercase (s : string) : string := str_of_bytes (ascii_lower_byte <$> str_bytes s).
Definition eq_ignore_ascii_case (a b : string) : bool :=
  String.eqb (to_ascii_lowercase a) (to_ascii_lowercase b).

(** [s.contains(p)] *)
Definition str_contains (s p : string) : bool := contains_bytes (str_bytes s) (str_bytes p).

(** [s.split(c)] for an ASCII character [c]: at least one piece. *)
Fixpoint split_bytes (c : Z) (l : list Z) : list (list Z) :=
  match l with
  | [] => [[]]
  | x :: l' =>
    if x =? c then [] :: split_bytes c l'
    else match split_bytes c l' with
         | p :: ps => (x :: p) :: ps
         | [] => [[x]]
         end
  end.
Definition str_split (c : Z) (s : string) : list string := str_of_bytes <$> split_bytes c (str_bytes s).

(** [s.split_once(c)] *)
Fixpoint split_once_bytes (c : Z) (l : list Z) : option (list Z * list Z) :=
  match l with
  | [] => None
  | x :: l' =>
    if x =? c then Some ([], l')
    else '(a, b) ← split_once_bytes c l'; Some (x :: a, b)
  end.
Definition str_split_once (c : Z) (s : string) : option (string * string) :=
  '(a, b) ← split_once_bytes c (str_bytes s); Some (str_of_bytes a, str_of_bytes b).

(** [s.trim_end_matches(c)] and [s.trim_start_matches(c)] for one ASCII character *)
Definition trim_end_char (c : Z) (s : string) : string :=
  str_of_bytes (rev (trim_start_matches [c] (rev (str_bytes s)))).
Definition trim_start_char (c : Z) (s : string) : string :=
  str_of_bytes (trim_start_matches [c] (str_bytes s)).

(** [pieces.join(sep)] *)
Fixpoint join (sep : string) (l : list string) : string :=
  match l with
  | [] => ""
  | [s] => s
  | s :: l' => s +:+ sep +:+ join sep l'
  end.

(** [s.parse::<uN>()]: an optional [+], at least one digit, at most the type's maximum. *)
Definition digit_val (c : Z) : option Z := if in_range 48 57 c then Some (c - 48) else None.
Fixpoint parse_digits (bound acc : Z) (l : list Z) : option Z :=
  match l with
  | [] => Some acc
  | c :: l' => d ← digit_val c; if acc * 10 + d <=? bound then parse_digits bound (acc * 10 + d) l' else None
  end.
Definition parse_uint (bound : Z) (s : string) : option Z :=
  match str_bytes s with
  | [] => None
  | c :: l => let digits := if (c =? 43) && negb (len l =? 0) then l else c :: l in parse_digits bound 0 digits
  end.
Definition parse_u8 (s : string) : option Z := parse_uint 255 s.
Definition parse_u16 (s : string) : option Z := parse_uint 65535 s.

Lemma parse_digits_range bound l acc n :
  0 <= acc <= bound -> parse_digits bound acc l = Some n -> 0 <= n <= bound.
Proof.
  revert acc. induction l as [|c l IH]; intros acc Hacc Hp; cbn in Hp; [by simplify_eq|].
  unfold digit_val, in_range in Hp. destruct ((48 <=? c) && (c <=? 57)) eqn:E; [|done]. cbn in Hp.
  destruct (_ <=? bound) eqn:E2; [|done]. apply IH in Hp; lia.
Qed.

Lemma parse_uint_range bound s n : 0 <= bound -> parse_uint bound s = Some n -> 0 <= n <= bound.
Proof. intros Hb. unfold parse_uint. destruct (str_bytes s); [done|]. apply parse_digits_range. lia. Qed.

Lemma parse_u8_range s n : parse_u8 s = Some n -> 0 <= n <= 255.
Proof. by apply parse_uint_range. Qed.

Lemma parse_u16_range s n : parse_u16 s = Some n -> 0 <= n <= 65535.
Proof. by apply parse_uint_range. Qed.
