(* ===== verification/TextSplit.v ===== *)
(** * More of [std::str]: prefixes, white space, lines

    Further to [Text.v]: the splitting operations that the resolver's rule language and
    hosts files use.  White space is the Unicode property [White_Space], written out on
    the UTF-8 bytes. *)

From stdpp Require Import base list gmap strings numbers option pretty.
From S2P Require Import Prelude Text.

Definition str_starts_with (s p : string) : bool := starts_with (str_bytes s) (str_bytes p).

(** [&s[n..]] *)
Definition str_from (n : nat) (s : string) : string := str_of_bytes (drop n (str_bytes s)).

(** [s.strip_prefix(p)] *)
Definition str_strip_prefix (p s : string) : option string :=
  if str_starts_with s p then Some (str_from (length (str_bytes p)) s) else None.

Definition ascii_upper_byte (c : Z) : Z := if in_range 97 122 c then c - 32 else c.
Definition to_ascii_uppercase (s : string) : string := str_of_bytes (ascii_upper_byte <$> str_bytes s).

(** [s.split([c1, c2, ...])] *)
Fixpoint split_any_bytes (sep : Z -> bool) (l : list Z) : list (list Z) :=
  match l with
  | [] => [[]]
  | x :: l' =>
    if sep x then [] :: split_any_bytes sep l'
    else match split_any_bytes sep l' with
         | p :: ps => (x :: p) :: ps
         | [] => [[x]]
         end
  end.
Definition str_split_any (sep : Z -> bool) (s : string) : list string :=
  str_of_bytes <$> split_any_bytes sep (str_bytes s).

(** [s.split_once("...")] for a pattern of several characters *)
Fixpoint split_once_at (p l : list Z) : option (list Z * list Z) :=
  if starts_with l p then Some ([], drop (length p) l) else
  match l with
  | [] => None
  | x :: l' => '(a, b) ← split_once_at p l'; Some (x :: a, b)
  end.
Definition str_split_once_str (p s : string) : option (string * string) :=
  '(a, b) ← split_once_at (str_bytes p) (str_bytes s); Some (str_of_bytes a, str_of_bytes b).

(** The bytes of the white-space character the text starts with, 0 when there is none. *)
Definition ws_len (l : list Z) : nat :=
  match l with
  | [] => 0%nat
  | c :: l1 =>
    if in_range 9 13 c || (c =? 32) then 1%nat else
    match l1 with
    | [] => 0%nat
    | d :: l2 =>
      if (c =? 194) && ((d =? 133) || (d =? 160)) then 2%nat else
      match l2 with
      | [] => 0%nat
      | e :: _ =>
        if ((c =? 225) && (d =? 154) && (e =? 128))
           || ((c =? 226) && (d =? 128) && (in_range 128 138 e || (e =? 168) || (e =? 169) || (e =? 175)))
           || ((c =? 226) && (d =? 129) && (e =? 159))
           || ((c =? 227) && (d =? 128) && (e =? 128)) then 3%nat else 0%nat
      end
    end
  end.

(** [s.splitn(n, char::is_whitespace)]: the last piece takes the rest.  Every step eats a
    byte, so the length of the text is enough fuel. *)
Fixpoint splitn_ws_fuel (fuel n : nat) (l : list Z) : list (list Z) :=
  match fuel, n, l with
  | _, O, _ => []
  | O, _, _ | _, 1%nat, _ => [l]
  | _, _, [] => [[]]
  | S fuel', S n', c :: l' =>
    match ws_len l with
    | O => match splitn_ws_fuel fuel' n l' with
           | p :: ps => (c :: p) :: ps
           | [] => [[c]]
           end
    | k => [] :: splitn_ws_fuel fuel' n' (drop k l)
    end
  end.
Definition splitn_whitespace (n : nat) (s : string) : list string :=
  str_of_bytes <$> splitn_ws_fuel (length (str_bytes s)) n (str_bytes s).

Definition nonempty (s : string) : bool := negb (String.eqb s "").

(** [s.split_whitespace()] *)
Definition split_whitespace (s : string) : list string :=
  List.filter nonempty (splitn_whitespace (S (length (str_bytes s))) s).

(** [s.lines()]: pieces ended by a line feed, without a carriage return before it. *)
Definition strip_cr (l : list Z) : list Z :=
  match rev l with 13 :: r => rev r | _ => l end.
Fixpoint lines_of (pieces : list (list Z)) : list (list Z) :=
  match pieces with
  | [] => []
  | [p] => if len p =? 0 then [] else [p]
  | p :: rest => strip_cr p :: lines_of rest
  end.
Definition str_lines (s : string) : list string := str_of_bytes <$> lines_of (split_bytes 10 (str_bytes s)).

(** ** Facts *)
Lemma str_app_assoc a b c : a +:+ (b +:+ c) = (a +:+ b) +:+ c.
Proof. induction a as [|x a IH]; [done|]. exact (f_equal (String.String x) IH). Qed.

Lemma str_of_bytes_app a b : str_of_bytes (a ++ b) = str_of_bytes a +:+ str_of_bytes b.
Proof.
  unfold str_of_bytes. rewrite fmap_app. induction (_ <$> a) as [|c l IH]; [done|]. cbn. by rewrite IH.
Qed.

(** The first separator splits the text. *)
Lemma split_once_bytes_app c a b : c ∉ a -> split_once_bytes c (a ++ c :: b) = Some (a, b).
Proof.
  induction a as [|x a IH]; intros Hn; cbn; [by rewrite Z.eqb_refl|].
  rewrite (proj2 (Z.eqb_neq x c)) by (intros ->; apply Hn; left).
  rewrite IH by (intros ?; apply Hn; by right). done.
Qed.

Lemma str_split_once_sep c sep a b : str_bytes sep = [c] -> c ∉ str_bytes a ->
  str_split_once c (a +:+ sep +:+ b) = Some (a, b).
Proof.
  intros Es Ha. unfold str_split_once. rewrite !str_bytes_app, Es. cbn [app]. rewrite split_once_bytes_app by done.
  cbn [mbind option_bind]. by rewrite !str_of_str_bytes.
Qed.

(** ** Decimal numbers *)

Lemma str_bytes_digit d s : (d < 10)%N -> str_bytes (String (pretty_N_char d) s) = (48 + Z.of_N d) :: str_bytes s.
Proof.
  intros Hd. unfold str_bytes. cbn. f_equal.
  assert (Hall : Forall (fun d => Z.of_N (Ascii.N_of_ascii (pretty_N_char d)) = 48 + Z.of_N d) (N.of_nat <$> seq 0 10)) by (repeat constructor).
  rewrite list.Forall_forall in Hall. apply Hall. apply list_elem_of_fmap. exists (N.to_nat d).
  split; [lia|]. apply elem_of_seq. lia.
Qed.

Definition is_digit (c : Z) : Prop := 48 <= c <= 57.

Lemma pretty_go_digits x : forall s, exists ds, str_bytes (pretty_N_go x s) = ds ++ str_bytes s
  /\ Forall is_digit ds /\ ((0 < x)%N -> ds <> [])
  /\ forall bound acc r, 0 <= acc -> acc * 10 ^ len ds + Z.of_N x <= bound ->
     parse_digits bound acc (ds ++ r) = parse_digits bound (acc * 10 ^ len ds + Z.of_N x) r.
Proof.
  induction (N.lt_wf_0 x) as [x _ IH]. intros s. destruct (decide (x = 0%N)) as [->|Hx].
  - exists []. rewrite pretty_N_go_0. repeat split; [constructor|lia|]. intros bound acc r _ _. cbn [app]. f_equal. change (10 ^ len (@nil Z)) with 1. lia.
  - rewrite pretty_N_go_step by lia. assert (Hd : (x `mod` 10 < 10)%N) by (apply N.mod_lt; lia).
    pose proof (N.div_mod x 10 ltac:(lia)) as Hdm.
    destruct (IH (x `div` 10)%N ltac:(apply N.div_lt; lia) (String (pretty_N_char (x `mod` 10)) s)) as (ds & Es & Hds & _ & Hp).
    set (d := (x `mod` 10)%N) in *. set (q := (x `div` 10)%N) in *. clearbody d q. clear IH Hx.
    exists (ds ++ [48 + Z.of_N d]). rewrite Es, str_bytes_digit by done. rewrite <- app_assoc. cbn [app].
    split; [done|]. split; [apply Forall_app; split; [done|]; apply list.Forall_singleton; red; lia|].
    split; [intros _ Hn; by apply app_eq_nil in Hn as [_ ?]|].
    intros bound acc r Hacc Hb. rewrite <- app_assoc. unfold len in *. rewrite length_app in *. cbn [length app] in *.
    rewrite Nat2Z.inj_add in *. change (Z.of_nat 1) with 1 in *. rewrite Z.pow_add_r in * by lia. change (10 ^ 1) with 10 in *.
    set (k := 10 ^ Z.of_nat (length ds)) in *. assert (0 < k) by (apply Z.pow_pos_nonneg; lia).
    rewrite Hp by lia. cbn [parse_digits]. unfold digit_val, in_range.
    rewrite (proj2 (andb_true_iff _ _)) by (rewrite !Z.leb_le; lia). cbn [mbind option_bind].
    replace ((acc * k + Z.of_N q) * 10 + (48 + Z.of_N d - 48)) with (acc * (k * 10) + Z.of_N x) by lia.
    by rewrite (proj2 (Z.leb_le _ _)) by done.
Qed.

(** A printed number has digits only and is read back. *)
Lemma pretty_digits n : 0 <= n -> exists c ds, str_bytes (pretty n) = c :: ds /\ Forall is_digit (c :: ds)
  /\ forall bound, n <= bound -> parse_uint bound (pretty n) = Some n.
Proof.
  intros Hn. destruct (decide (n = 0)) as [->|Hz].
  - exists 48, []. split; [done|]. split; [apply list.Forall_singleton; red; lia|]. intros bound Hb.
    unfold parse_uint. change (str_bytes (pretty 0)) with [48]. cbn. rewrite (proj2 (Z.leb_le _ _)) by lia. done.
  - destruct (pretty_go_digits (Z.to_N n) "") as (ds & Es & Hds & Hne & Hp).
    assert (Et : str_bytes (pretty n) = ds).
    { destruct n as [|p|p]; [done| |lia]. change (pretty (Z.pos p)) with (pretty_N_go (N.pos p) "").
      rewrite <- (app_nil_r ds). exact Es. }
    destruct ds as [|c ds]; [exfalso; apply Hne; [lia|done]|]. exists c, ds. split; [done|]. split; [done|].
    intros bound Hb. unfold parse_uint. rewrite Et. apply Forall_inv in Hds as Hc. red in Hc.
    rewrite (proj2 (Z.eqb_neq c 43)) by lia. cbn [andb].
    rewrite <- (app_nil_r (c :: ds)), Hp by lia. cbn [parse_digits]. f_equal. lia.
Qed.

Lemma parse_pretty bound n : 0 <= n <= bound -> parse_uint bound (pretty n) = Some n.
Proof. intros Hn. destruct (pretty_digits n ltac:(lia)) as (c & ds & _ & _ & Hp). apply Hp. lia. Qed.
