(* ===== verification/Net.v ===== *)
(** * Addresses and the library functions the components are written against

    [IpAddr], [SocketAddr] of [std::net]; the typeclasses state what the modelled
    code relies on of code that is not in this repository: the text form of IP
    addresses ([NetText], [std::net]), Unicode lower-casing ([StrCase], [std::str]),
    CIDR networks ([IpNetLib], crate [ipnet]) and the iteration order of hash
    maps ([HashIter]).  Theorems are proved for every instance; the concrete
    instances of [Instances.v] show that the laws are satisfiable. *)

From stdpp Require Import base list gmap strings numbers option countable sorting.
From S2P Require Import Prelude.

(** [std::net::IpAddr]: a 32-bit or a 128-bit number. *)
Inductive IpAddr : Type :=
| V4 (a : Z)
| V6 (a : Z).

#[global] Instance IpAddr_eq_dec : EqDecision IpAddr.
Proof. solve_decision. Defined.

#[global] Instance IpAddr_countable : Countable IpAddr.
Proof.
  refine (inj_countable' (fun ip => match ip with V4 a => inl a | V6 a => inr a end)
                         (fun s => match s with inl a => V4 a | inr a => V6 a end) _).
  by intros [].
Defined.

Definition ip_ok (ip : IpAddr) : Prop :=
  match ip with V4 a => u32 a | V6 a => u128 a end.

Definition is_ipv4 (ip : IpAddr) : bool := match ip with V4 _ => true | V6 _ => false end.

(** [octets()] *)
Definition octets (ip : IpAddr) : list Z :=
  match ip with V4 a => be_bytes 4 a | V6 a => be_bytes 16 a end.

Record SocketAddr : Type := mkSocketAddr { sa_ip : IpAddr; sa_port : Z }.

#[global] Instance SocketAddr_eq_dec : EqDecision SocketAddr.
Proof. solve_decision. Defined.

#[global] Instance SocketAddr_countable : Countable SocketAddr.
Proof.
  refine (inj_countable' (fun s => (sa_ip s, sa_port s)) (fun p => mkSocketAddr p.1 p.2) _).
  by intros [].
Defined.

(** ** Text form of addresses: [str::parse::<Ipv4Addr>], [Ipv4Addr::to_string], ... *)
Class NetText := {
  parse_ipv4 : string -> option Z;
  parse_ipv6 : string -> option Z;
  show_ipv4 : Z -> string;
  show_ipv6 : Z -> string;
  parse_show_ipv4 : forall a, u32 a -> parse_ipv4 (show_ipv4 a) = Some a;
  parse_show_ipv6 : forall a, u128 a -> parse_ipv6 (show_ipv6 a) = Some a;
  parse_ipv4_range : forall s a, parse_ipv4 s = Some a -> u32 a;
  parse_ipv6_range : forall s a, parse_ipv6 s = Some a -> u128 a;
  (** an IPv6 text contains a colon, which the IPv4 grammar has not *)
  parse_ipv4_show_ipv6 : forall a, u128 a -> parse_ipv4 (show_ipv6 a) = None;
  (** printed addresses are short ASCII texts without NUL *)
  show_ipv4_text : forall a, u32 a ->
    1 <= str_len (show_ipv4 a) <= 253 /\ 0 ∉ str_bytes (show_ipv4 a);
  show_ipv6_text : forall a, u128 a ->
    1 <= str_len (show_ipv6 a) <= 253 /\ 0 ∉ str_bytes (show_ipv6 a)
}.

(** [str::parse::<IpAddr>]: IPv4 first, then IPv6. *)
Definition parse_ip `{NetText} (s : string) : option IpAddr :=
  match parse_ipv4 s with
  | Some a => Some (V4 a)
  | None => V6 <$> parse_ipv6 s
  end.

Definition show_ip `{NetText} (ip : IpAddr) : string :=
  match ip with V4 a => show_ipv4 a | V6 a => show_ipv6 a end.

Lemma parse_show_ip `{NetText} ip : ip_ok ip -> parse_ip (show_ip ip) = Some ip.
Proof.
  destruct ip as [a|a]; cbn; intros Ha; unfold parse_ip.
  - by rewrite parse_show_ipv4.
  - by rewrite parse_ipv4_show_ipv6, parse_show_ipv6.
Qed.

(** ** [str::to_lowercase] and [str::trim]: their Unicode tables are not modelled, the
    code relies on them being functions. *)
Class StrCase := { to_lowercase : string -> string; str_trim : string -> string }.

(** [str::trim] takes away white space at the two ends and nothing else. *)
Class TrimLaws `{StrCase} := {
  trim_infix : forall s, exists a b, str_bytes s = a ++ str_bytes (str_trim s) ++ b;
  trim_keeps : forall s c d, head (str_bytes s) = Some c -> last (str_bytes s) = Some d ->
    33 <= c <= 126 -> 33 <= d <= 126 -> str_trim s = s
}.

(** ** Crate [ipnet] *)
Class IpNetLib := {
  Ipv4Net : Type;
  Ipv6Net : Type;
  net4_network : Ipv4Net -> Z;
  net4_broadcast : Ipv4Net -> Z;
  net6_network : Ipv6Net -> Z;
  net6_broadcast : Ipv6Net -> Z;
  net4_contains : Ipv4Net -> Z -> bool;
  net6_contains : Ipv6Net -> Z -> bool;
  (** [network()] is the lowest and [broadcast()] the highest address of the net *)
  net4_bounds : forall n, 0 <= net4_network n <= net4_broadcast n /\ net4_broadcast n < 2 ^ 32;
  net4_contains_spec : forall n a,
    net4_contains n a = true <-> net4_network n <= a <= net4_broadcast n;
  net6_bounds : forall n, 0 <= net6_network n <= net6_broadcast n /\ net6_broadcast n < 2 ^ 128;
  net6_contains_spec : forall n a,
    net6_contains n a = true <-> net6_network n <= a <= net6_broadcast n
}.

Inductive IpNet `{IpNetLib} : Type :=
| Net4 (n : Ipv4Net)
| Net6 (n : Ipv6Net).

(** [IpNet::contains(&IpAddr)]: false across families. *)
Definition net_contains `{IpNetLib} (n : IpNet) (ip : IpAddr) : bool :=
  match n, ip with
  | Net4 n, V4 a => net4_contains n a
  | Net6 n, V6 a => net6_contains n a
  | _, _ => false
  end.

(** ** Hash maps: [iter()] yields every entry once, in an unspecified order. *)
Class HashIter := {
  hash_iter : forall {K V : Type} `{Countable K}, gmap K V -> list (K * V);
  hash_iter_perm : forall {K V : Type} `{Countable K} (m : gmap K V),
    hash_iter m ≡ₚ map_to_list m
}.

(** [iter.min_by_key(f)]: the first of the minimal elements. *)
Fixpoint min_by_key {A} (f : A -> Z) (l : list A) : option A :=
  match l with
  | [] => None
  | x :: l' =>
    match min_by_key f l' with
    | None => Some x
    | Some y => if f x <=? f y then Some x else Some y
    end
  end.

Lemma min_by_key_spec {A} (f : A -> Z) l :
  match min_by_key f l with
  | None => l = []
  | Some x => x ∈ l /\ forall y, y ∈ l -> f x <= f y
  end.
Proof.
  induction l as [|x l IH]; [done|]. cbn.
  destruct (min_by_key f l) as [y|].
  - destruct IH as [Hy Hmin]. destruct (f x <=? f y) eqn:E.
    + split; [left|]. intros z [->|Hz]%elem_of_cons; [lia|]. specialize (Hmin z Hz). lia.
    + split; [by right|]. intros z [->|Hz]%elem_of_cons; [lia|]. by apply Hmin.
  - subst. split; [left|]. intros z [->|Hz]%elem_of_cons; [lia|]. by apply elem_of_nil in Hz.
Qed.

(** [Instant::duration_since]: saturates at zero. *)
Definition duration_since (later earlier : Z) : Z := Z.max 0 (later - earlier).

Lemma hash_iter_elem `{HashIter} {K V} `{Countable K} (m : gmap K V) k v :
  (k, v) ∈ hash_iter m <-> m !! k = Some v.
Proof. by rewrite hash_iter_perm, elem_of_map_to_list. Qed.

(** The entry [HashMap::iter().min_by_key(..)] picks is an entry of the map with
    the least key value; there is one unless the map is empty. *)
Lemma hash_min_spec `{HashIter} {K V} `{Countable K} (f : K * V -> Z) (m : gmap K V) :
  match min_by_key f (hash_iter m) with
  | None => m = ∅
  | Some (k, v) => m !! k = Some v /\ forall k' v', m !! k' = Some v' -> f (k, v) <= f (k', v')
  end.
Proof.
  pose proof (min_by_key_spec f (hash_iter m)) as Hs.
  destruct (min_by_key f (hash_iter m)) as [[k v]|].
  - destruct Hs as [Hin Hmin]. apply hash_iter_elem in Hin. split; [done|].
    intros k' v' Hk'. apply Hmin. by apply hash_iter_elem.
  - apply map_to_list_empty_iff. apply Permutation_nil_r. by rewrite <- hash_iter_perm, Hs.
Qed.
