(* ===== verification/YoungBase.v ===== *)
(** * Young wire protocol, part 1: keys, padding schemes, targets

    Models [src/crates/core-young/src/codec.rs] lines 19-230 and 331-410 and the
    helper functions at its end.  HMAC-SHA-256, SHA-256, the keyed BLAKE3 XOF and
    base64url are the class [YoungCrypto]: code of other crates, of which only
    output sizes and the base64 round trip are used. *)

From stdpp Require Import base list gmap strings numbers option.
From S2P Require Import Prelude Net.

Class YoungCrypto := {
  (** [HmacSha256::new_from_slice(k)], [update], [finalize] *)
  hmac_sha256 : list Z -> list Z -> list Z;
  hmac_sha256_len : forall k m, length (hmac_sha256 k m) = 32%nat;
  hmac_sha256_ok : forall k m, bytes_ok (hmac_sha256 k m);
  sha256 : list Z -> list Z;
  sha256_len : forall m, length (sha256 m) = 32%nat;
  sha256_ok : forall m, bytes_ok (sha256 m);
  (** keyed BLAKE3 in XOF mode: key, absorbed input, position in the output stream *)
  blake3_xof : list Z -> list Z -> Z -> Z;
  blake3_xof_ok : forall k m i, u8 (blake3_xof k m i);
  (** [base64::engine::general_purpose::URL_SAFE_NO_PAD] *)
  b64_encode : list Z -> string;
  b64_decode : string -> option (list Z);
  b64_roundtrip : forall l, bytes_ok l -> b64_decode (b64_encode l) = Some l;
  b64_encode_len : forall l, str_len (b64_encode l) = div_ceil (4 * len l) 3;
  b64_decode_ok : forall s l, b64_decode s = Some l -> bytes_ok l
}.

(** ** Constants *)

Definition VERSION : Z := 1.
Definition MAX_PADDING_BYTES : Z := 4096.
Definition MAX_PADDING_SCHEME_LENGTH : Z := 256.
Definition MAX_DATA_PAYLOAD_BYTES : Z := 32 * 1024.
Definition MAX_UDP_PAYLOAD_BYTES : Z := 65507.
Definition MAX_UDP_FRAGMENTS : Z := 256.
Definition AUTH_TOKEN_BYTES : Z := 1 + 8 + 8 + 16 + 4 + 32.
Definition FLOW_TAG_BYTES : Z := 16.
Definition FLOW_RESPONSE_BYTES : Z := 2 + 1 + 1 + 8 + FLOW_TAG_BYTES.
Definition DATA_FRAME_HEADER_BYTES : Z := 2 + 1 + 1 + 8 + 2 + 2.
Definition UDP_HEADER_BYTES : Z := 2 + 1 + 1 + 8 + 4 + 2 + 2 + 2.
Definition PADDED_UDP_HEADER_BYTES : Z := UDP_HEADER_BYTES + 2 + 2.
Definition UDP_TAG_BYTES : Z := 16.
Definition PADDING_SCHEME_TAG_BYTES : Z := 32.
Definition LEGACY_PADDING_SCHEME_VERSION : Z := 1.
Definition BIDIRECTIONAL_PADDING_SCHEME_VERSION : Z := 2.
Definition PADDING_SCHEME_MAX_ENCODED_BYTES : Z :=
  div_ceil (1 + 2 + 2 * MAX_PADDING_SCHEME_LENGTH * 2 + PADDING_SCHEME_TAG_BYTES) 3 * 4.

(** ** Padding schemes *)

Inductive PaddingDirection : Type :=
| ClientToServer
| ServerToClient.

Definition tcp_padding_domain (d : PaddingDirection) : list Z :=
  match d with
  | ClientToServer => str_bytes "young/tcp-padding/c2s/v1"
  | ServerToClient => str_bytes "young/tcp-padding/s2c/v1"
  end.

Definition udp_padding_domain (d : PaddingDirection) : list Z :=
  match d with
  | ClientToServer => str_bytes "young/udp-padding/c2s/v1"
  | ServerToClient => str_bytes "young/udp-padding/s2c/v1"
  end.

Definition udp_hmac_domain (d : PaddingDirection) : list Z :=
  match d with
  | ClientToServer => str_bytes "young/udp-fragment/c2s/v2"
  | ServerToClient => str_bytes "young/udp-fragment/s2c/v2"
  end.

Record PaddingScheme : Type := mkPaddingScheme {
  client_to_server : list Z;
  server_to_client : option (list Z)
}.

Definition validate_padding_entries (entries : list Z) : outcome (list Z) :=
  if (len entries =? 0) || (MAX_PADDING_SCHEME_LENGTH <? len entries) then Err InvalidInput else
  if existsb (fun length => (length =? 0) || (MAX_PADDING_BYTES <? length)) entries
  then Err InvalidInput else
  Ok entries.

Definition PaddingScheme_new (entries : list Z) : outcome PaddingScheme :=
  c2s ← validate_padding_entries entries;
  Ok (mkPaddingScheme c2s None).

Definition PaddingScheme_bidirectional (c2s s2c : list Z) : outcome PaddingScheme :=
  c2s ← validate_padding_entries c2s;
  s2c ← validate_padding_entries s2c;
  if negb (len c2s =? len s2c) then Err InvalidInput else
  Ok (mkPaddingScheme c2s (Some s2c)).

Definition scheme_entries (s : PaddingScheme) (d : PaddingDirection) : list Z :=
  match d with
  | ClientToServer => client_to_server s
  | ServerToClient => default (client_to_server s) (server_to_client s)
  end.

Definition scheme_len (s : PaddingScheme) : Z := len (client_to_server s).

Definition is_bidirectional (s : PaddingScheme) : bool :=
  match server_to_client s with Some _ => true | None => false end.

Definition padding_for (s : PaddingScheme) (d : PaddingDirection) (frame_index : Z) : outcome Z :=
  let entries := scheme_entries s d in
  if len entries =? 0 then Panic else index entries (frame_index mod len entries).

(** ** Flow and data types *)

Record Target : Type := mkTarget { t_host : string; t_port : Z }.

Definition Target_new (host : string) (port : Z) : outcome Target :=
  if port =? 0 then Err InvalidInput else
  if (str_len host =? 0) || (253 <? str_len host) || existsb (Z.eqb 0) (str_bytes host)
  then Err InvalidInput else
  Ok (mkTarget host port).

Inductive FlowKind : Type := Tcp | Udp.

Definition FlowKind_u8 (k : FlowKind) : Z := match k with Tcp => 1 | Udp => 2 end.

Definition FlowKind_try_from (value : Z) : outcome FlowKind :=
  if value =? 1 then Ok Tcp else if value =? 2 then Ok Udp else Err Unsupported.

Record FlowOpen : Type := mkFlowOpen { fo_kind : FlowKind; fo_flow_id : Z; fo_target : Target }.

Inductive Status : Type :=
| StOk | StBadRequest | StUnauthorized | StConnectFailed | StUnsupported | StResourceLimit.

Definition Status_u8 (s : Status) : Z :=
  match s with
  | StOk => 0 | StBadRequest => 1 | StUnauthorized => 2
  | StConnectFailed => 3 | StUnsupported => 4 | StResourceLimit => 5
  end.

Definition Status_try_from (value : Z) : outcome Status :=
  if value =? 0 then Ok StOk else
  if value =? 1 then Ok StBadRequest else
  if value =? 2 then Ok StUnauthorized else
  if value =? 3 then Ok StConnectFailed else
  if value =? 4 then Ok StUnsupported else
  if value =? 5 then Ok StResourceLimit else Err InvalidData.

Record FlowResponse : Type := mkFlowResponse { fr_status : Status; fr_flow_id : Z }.

#[global] Instance PaddingDirection_eq_dec : EqDecision PaddingDirection.
Proof. solve_decision. Defined.
#[global] Instance Target_eq_dec : EqDecision Target.
Proof. solve_decision. Defined.
#[global] Instance FlowKind_eq_dec : EqDecision FlowKind.
Proof. solve_decision. Defined.
#[global] Instance FlowOpen_eq_dec : EqDecision FlowOpen.
Proof. solve_decision. Defined.
#[global] Instance Status_eq_dec : EqDecision Status.
Proof. solve_decision. Defined.
#[global] Instance FlowResponse_eq_dec : EqDecision FlowResponse.
Proof. solve_decision. Defined.

(** ** Authentication and deterministic padding *)

Section Crypto.
Context `{YoungCrypto}.

(** A [YoungKey] and a [SessionKey] are their 32 bytes. *)
Definition hmac_tag (key : list Z) (parts : list (list Z)) : list Z :=
  hmac_sha256 key (concat parts).

Definition verify_hmac (key : list Z) (parts : list (list Z)) (tag : list Z) : outcome unit :=
  if bool_decide (tag = hmac_sha256 key (concat parts)) then Ok tt else Err PermissionDenied.

Definition verify_hmac_truncated (key : list Z) (parts : list (list Z)) (tag : list Z)
  : outcome unit :=
  if negb (len tag =? FLOW_TAG_BYTES) then Err PermissionDenied else
  let expected := hmac_tag key parts in
  expected_prefix ← get_slice expected 0 (len tag);
  if bool_decide (expected_prefix = tag) then Ok tt else Err PermissionDenied.

(** [OutputReader::fill] of [n] bytes at stream position [pos]. *)
Fixpoint xof_fill (key input : list Z) (pos : Z) (n : nat) : list Z :=
  match n with
  | O => []
  | S n' => blake3_xof key input pos :: xof_fill key input (pos + 1) n'
  end.

Definition extend_deterministic_padding (session_key domain : list Z) (context : list (list Z))
    (output : list Z) (padding_len : Z) : list Z :=
  if padding_len =? 0 then output else
  output ++ xof_fill session_key (domain ++ concat context) 0 (Z.to_nat padding_len).

(** One 64-byte step of the comparison loop: the reader's position and the
    accumulated mismatch. *)
Definition padding_mismatch_step (session_key input : list Z) (st : Z * Z) (actual : list Z)
  : Z * Z :=
  let '(pos, mismatch) := st in
  let expected := xof_fill session_key input pos (length actual) in
  (pos + len actual,
   foldl (fun m '(l, r) => Z.lor m (Z.lxor l r)) mismatch (zip actual expected)).

Definition verify_deterministic_padding (session_key domain : list Z) (context : list (list Z))
    (padding : list Z) : outcome unit :=
  let input := domain ++ concat context in
  let '(_, mismatch) := foldl (padding_mismatch_step session_key input) (0, 0) (chunks 64 padding) in
  if mismatch =? 0 then Ok tt else Err InvalidData.

(** *** Their specifications *)

Lemma length_xof_fill key input pos n : length (xof_fill key input pos n) = n.
Proof. revert pos. induction n; intros; cbn; congruence. Qed.

Lemma len_xof_fill key input pos n : len (xof_fill key input pos n) = Z.of_nat n.
Proof. unfold len. by rewrite length_xof_fill. Qed.

Lemma xof_fill_ok key input pos n : bytes_ok (xof_fill key input pos n).
Proof. revert pos. induction n; intros; cbn; constructor; auto using blake3_xof_ok. Qed.

Lemma xof_fill_app key input pos n m :
  xof_fill key input pos (n + m) = xof_fill key input pos n ++ xof_fill key input (pos + Z.of_nat n) m.
Proof.
  revert pos. induction n as [|n IH]; intros pos; cbn.
  - f_equal. lia.
  - rewrite IH. do 3 f_equal. lia.
Qed.

Lemma mismatch_fold_zero (l r : list Z) m :
  length l = length r ->
  foldl (fun m '(l, r) => Z.lor m (Z.lxor l r)) m (zip l r) = 0 <-> m = 0 /\ l = r.
Proof.
  revert r m. induction l as [|x l IH]; intros [|y r] m Hlen; cbn in *; try lia.
  - naive_solver.
  - rewrite IH by lia. rewrite Z.lor_eq_0_iff, Z.lxor_eq_0_iff. naive_solver.
Qed.

Lemma padding_mismatch_fold key input (cs : list (list Z)) pos m :
  0 <= pos ->
  (foldl (padding_mismatch_step key input) (pos, m) cs).2 = 0
  <-> m = 0 /\ concat cs = xof_fill key input pos (length (concat cs)).
Proof.
  revert pos m. induction cs as [|c cs IH]; intros pos m Hpos; cbn [foldl concat].
  - cbn. naive_solver.
  - unfold padding_mismatch_step at 2. rewrite IH by (pose proof (len_nonneg c); lia).
    rewrite mismatch_fold_zero by (by rewrite length_xof_fill).
    rewrite length_app, xof_fill_app. split.
    + intros ((-> & Hc) & Hcs). split; [done|]. unfold len in Hcs. by f_equal.
    + intros (-> & E). apply app_inj_1 in E as [E1 E2]; [|by rewrite length_xof_fill].
      unfold len. naive_solver.
Qed.

(** The constant-time comparison in 64-byte blocks accepts exactly the prefix of
    the XOF stream of the padding's own length. *)
Lemma verify_deterministic_padding_spec key domain context padding :
  verify_deterministic_padding key domain context padding
  = if bool_decide (padding = xof_fill key (domain ++ concat context) 0 (length padding))
    then Ok tt else Err InvalidData.
Proof.
  unfold verify_deterministic_padding.
  pose proof (padding_mismatch_fold key (domain ++ concat context) (chunks 64 padding) 0 0 ltac:(lia)) as F.
  rewrite concat_chunks in F by lia.
  destruct (foldl _ _ _) as [p mm]. cbn in F.
  case_bool_decide as E; destruct (mm =? 0) eqn:Em; naive_solver lia.
Qed.

Lemma extend_padding_eq key domain context output n :
  0 <= n ->
  extend_deterministic_padding key domain context output n
  = output ++ xof_fill key (domain ++ concat context) 0 (Z.to_nat n).
Proof.
  intros Hn. unfold extend_deterministic_padding. destruct (n =? 0) eqn:E; [|done].
  apply Z.eqb_eq in E as ->. cbn. by rewrite app_nil_r.
Qed.

Lemma length_hmac_tag key parts : length (hmac_tag key parts) = 32%nat.
Proof. apply hmac_sha256_len. Qed.

Lemma len_hmac_prefix key parts : len (slice (hmac_tag key parts) 0 16) = 16.
Proof. apply len_slice; [lia|]. unfold len. rewrite length_hmac_tag. lia. Qed.

Lemma verify_hmac_truncated_spec key parts tag :
  len tag = 16 ->
  verify_hmac_truncated key parts tag
  = if bool_decide (tag = slice (hmac_tag key parts) 0 16) then Ok tt else Err PermissionDenied.
Proof.
  intros Hl. unfold verify_hmac_truncated, FLOW_TAG_BYTES. rewrite Hl. cbn -[get_slice].
  rewrite get_slice_ok by (unfold len; rewrite ?length_hmac_tag; lia). cbn.
  by repeat case_bool_decide; simplify_eq.
Qed.

Lemma verify_hmac_truncated_no_panic key parts tag : no_panic (verify_hmac_truncated key parts tag).
Proof.
  unfold verify_hmac_truncated. destruct (len tag =? FLOW_TAG_BYTES) eqn:E; cbn; [|done].
  apply Z.eqb_eq in E. unfold FLOW_TAG_BYTES in E. rewrite E.
  rewrite get_slice_ok by (unfold len; rewrite ?length_hmac_tag; lia). cbn. by case_bool_decide.
Qed.

Lemma verify_hmac_no_panic key parts tag : no_panic (verify_hmac key parts tag).
Proof. unfold verify_hmac. by case_bool_decide. Qed.

Lemma verify_deterministic_padding_no_panic key domain context padding :
  no_panic (verify_deterministic_padding key domain context padding).
Proof. rewrite verify_deterministic_padding_spec. by case_bool_decide. Qed.

Lemma verify_hmac_truncated_Ok key parts tag u :
  verify_hmac_truncated key parts tag = Ok u ->
  len tag = 16 /\ tag = slice (hmac_tag key parts) 0 16.
Proof.
  intros Hv. assert (len tag = 16) as Hl.
  { unfold verify_hmac_truncated, FLOW_TAG_BYTES in Hv.
    destruct (len tag =? 16) eqn:E; [lia|discriminate]. }
  split; [done|]. rewrite verify_hmac_truncated_spec in Hv by done. by case_bool_decide.
Qed.
End Crypto.

#[export] Hint Resolve verify_hmac_truncated_no_panic verify_hmac_no_panic
  verify_deterministic_padding_no_panic : wuther.
#[global] Hint Rewrite @len_xof_fill @len_hmac_prefix : len_db.

(** ** Well-formed padding schemes *)

Definition entries_ok (l : list Z) : Prop :=
  1 <= len l <= 256 /\ Forall (fun p => 1 <= p <= 4096) l.

Definition scheme_ok (s : PaddingScheme) : Prop :=
  entries_ok (client_to_server s)
  /\ match server_to_client s with
     | None => True
     | Some l => entries_ok l /\ len l = len (client_to_server s)
     end.

Lemma validate_padding_entries_spec l :
  Forall (fun p => 0 <= p) l ->
  (validate_padding_entries l = Ok l /\ entries_ok l)
  \/ (validate_padding_entries l = Err InvalidInput /\ ~ entries_ok l).
Proof.
  intros Hpos. unfold validate_padding_entries, MAX_PADDING_SCHEME_LENGTH, MAX_PADDING_BYTES, entries_ok.
  pose proof (len_nonneg l).
  destruct ((len l =? 0) || (256 <? len l)) eqn:E1; [right; split; [done|lia]|].
  destruct (existsb _ l) eqn:E2.
  - right. split; [done|]. intros [_ Hall]. apply existsb_exists in E2 as (x & Hx & Hb).
    rewrite List.Forall_forall in Hall. specialize (Hall x Hx). lia.
  - left. split; [done|]. split; [lia|]. rewrite List.Forall_forall in *. intros x Hx.
    specialize (Hpos x Hx). destruct (decide (1 <= x <= 4096)); [done|].
    assert (existsb (fun length => (length =? 0) || (4096 <? length)) l = true) as E3; [|congruence].
    apply existsb_exists. exists x. split; [done|lia].
Qed.

Lemma scheme_entries_ok s d : scheme_ok s -> entries_ok (scheme_entries s d).
Proof.
  intros [H1 H2]. destruct d; cbn; [done|]. destruct (server_to_client s); cbn; naive_solver.
Qed.

Lemma padding_for_ok s d i :
  scheme_ok s -> 0 <= i -> exists p, padding_for s d i = Ok p /\ 1 <= p <= 4096.
Proof.
  intros Hs Hi. destruct (scheme_entries_ok s d Hs) as [Hlen Hall]. unfold padding_for.
  destruct (len (scheme_entries s d) =? 0) eqn:E; [lia|].
  destruct (index_ok (scheme_entries s d) (i mod len (scheme_entries s d))) as (p & Hp & Hin).
  { apply Z.mod_pos_bound. lia. }
  exists p. split; [done|]. rewrite List.Forall_forall in Hall. by apply Hall, list_elem_of_In.
Qed.
