(* ===== verification/Instances.v ===== *)
(** * Concrete instances of the library classes

    The classes of [Net.v] and [YoungBase.v] stand for code outside the
    repository.  These instances show that their laws hold together and let the
    witnesses evaluate the model: dotted-quad text for IPv4 and the full
    eight-group text for IPv6, CIDR networks as (address, prefix length), RFC 4648
    base64url, ASCII lower-casing and trimming, and stand-ins for the hash functions. *)

From stdpp Require Import base list gmap strings numbers option.
From S2P Require Import Prelude Net YoungBase.

(** ** Text of addresses *)

Definition dec_digits (o : Z) : list Z :=
  if o <? 10 then [48 + o]
  else if o <? 100 then [48 + o / 10; 48 + o mod 10]
  else [48 + o / 100; 48 + (o / 10) mod 10; 48 + o mod 10].

Definition hex_digit (n : Z) : Z := if n <? 10 then 48 + n else 87 + n.
Definition unhex_digit (c : Z) : Z := if c <? 58 then c - 48 else c - 87.

Definition show4_bytes (a : Z) : list Z :=
  dec_digits (a / 16777216) ++ [46] ++ dec_digits ((a / 65536) mod 256) ++ [46]
  ++ dec_digits ((a / 256) mod 256) ++ [46] ++ dec_digits (a mod 256).

(** Reader: address so far, current octet. *)
Definition read4_step (st : Z * Z) (c : Z) : Z * Z :=
  if c =? 46 then (st.1 * 256 + st.2, 0) else (st.1, st.2 * 10 + (c - 48)).

Definition read4 (l : list Z) : Z :=
  let st := foldl read4_step (0, 0) l in st.1 * 256 + st.2.

Definition hex_group (g : Z) : list Z :=
  [hex_digit (g / 4096); hex_digit ((g / 256) mod 16); hex_digit ((g / 16) mod 16); hex_digit (g mod 16)].

Fixpoint show6_groups (n : nat) (a : Z) : list Z :=
  match n with
  | O => []
  | S n' => show6_groups n' (a / 65536) ++ [58] ++ hex_group (a mod 65536)
  end.

Definition read6_step (st : Z) (c : Z) : Z := if c =? 58 then st else st * 16 + unhex_digit c.
Definition read6 (l : list Z) : Z := foldl read6_step 0 l.

Definition show4 (a : Z) : string := str_of_bytes (show4_bytes a).
Definition show6 (a : Z) : string := str_of_bytes (show6_groups 8 a).

Definition parse4 (s : string) : option Z :=
  let a := read4 (str_bytes s) in
  if uintb 32 a && String.eqb (show4 a) s then Some a else None.

Definition parse6 (s : string) : option Z :=
  let a := read6 (str_bytes s) in
  if uintb 128 a && String.eqb (show6 a) s then Some a else None.

Definition small_range (n : nat) : list Z := Z.of_nat <$> seq 0 n.

Lemma small_range_elem n z : 0 <= z < Z.of_nat n -> z ∈ small_range n.
Proof.
  intros. unfold small_range. apply list_elem_of_fmap. exists (Z.to_nat z).
  split; [lia|]. apply elem_of_seq. lia.
Qed.

Definition octet_text_ok (o : Z) : bool :=
  let d := dec_digits o in
  let st := foldl read4_step (0, 0) d in
  (st.1 =? 0) && (st.2 =? o) && forallb (fun c => (48 <=? c) && (c <=? 57)) d
  && (1 <=? len d) && (len d <=? 3).

Lemma octet_text_all : forallb octet_text_ok (small_range 256) = true.
Proof. vm_compute. reflexivity. Qed.

Lemma octet_text o : 0 <= o < 256 -> octet_text_ok o = true.
Proof.
  intros. pose proof octet_text_all as H1. rewrite forallb_forall in H1.
  apply H1. apply list_elem_of_In, small_range_elem. lia.
Qed.

Lemma octet_text_spec o : 0 <= o < 256 ->
  foldl read4_step (0, 0) (dec_digits o) = (0, o)
  /\ forallb (fun c => (48 <=? c) && (c <=? 57)) (dec_digits o) = true
  /\ 1 <= len (dec_digits o) <= 3.
Proof.
  intros Ho. pose proof (octet_text o Ho) as Ht. unfold octet_text_ok in Ht.
  destruct (foldl read4_step (0, 0) (dec_digits o)) as [v d]. cbn in Ht.
  rewrite !andb_true_iff in Ht. destruct Ht as ((((H1 & H2) & H3) & H4) & H5).
  split_and!; [f_equal; lia|done|lia|lia].
Qed.

Lemma read4_shift l v c :
  forallb (fun c => (48 <=? c) && (c <=? 57)) l = true ->
  foldl read4_step (v, c) l = (v, (foldl read4_step (0, c) l).2).
Proof.
  revert c. induction l as [|x l IH]; intros c Hl; [done|]. cbn in *.
  apply andb_prop in Hl as [Hx Hl]. unfold read4_step at 2 4. cbn.
  destruct (x =? 46) eqn:E; [lia|]. by apply IH.
Qed.

Lemma read4_octet o v : 0 <= o < 256 -> foldl read4_step (v, 0) (dec_digits o) = (v, o).
Proof.
  intros Ho. destruct (octet_text_spec o Ho) as (E & Hf & _).
  by rewrite read4_shift, E.
Qed.

Lemma read4_dot v o : read4_step (v, o) 46 = (v * 256 + o, 0).
Proof. reflexivity. Qed.

Lemma show4_bytes_props a : u32 a ->
  read4 (show4_bytes a) = a /\ bytes_ok (show4_bytes a)
  /\ 1 <= len (show4_bytes a) <= 15 /\ Forall (fun c => 46 <= c <= 57) (show4_bytes a).
Proof.
  unfold uint. change (2 ^ 32) with 4294967296. intros Ha.
  assert (H1 : 0 <= a / 16777216 < 256) by (Z.div_mod_to_equations; lia).
  assert (H2 : 0 <= (a / 65536) mod 256 < 256) by (Z.div_mod_to_equations; lia).
  assert (H3 : 0 <= (a / 256) mod 256 < 256) by (Z.div_mod_to_equations; lia).
  assert (H4 : 0 <= a mod 256 < 256) by (Z.div_mod_to_equations; lia).
  assert (Hd : forall o, 0 <= o < 256 -> Forall (fun c => 48 <= c <= 57) (dec_digits o) /\ 1 <= len (dec_digits o) <= 3).
  { intros o Ho. destruct (octet_text_spec o Ho) as (_ & Hf & Hl). split; [|lia].
    apply List.Forall_forall. intros c Hc. rewrite forallb_forall in Hf. specialize (Hf c Hc). lia. }
  assert (Hall : Forall (fun c => 46 <= c <= 57) (show4_bytes a)).
  { unfold show4_bytes. rewrite !Forall_app, !Forall_singleton.
    split_and!; try lia; (eapply List.Forall_impl; [|apply Hd; assumption]; simpl; lia). }
  split_and!.
  - unfold read4, show4_bytes. rewrite !foldl_app. cbn [foldl].
    rewrite !read4_octet, !read4_dot, !read4_octet, !read4_dot, !read4_octet, !read4_dot, !read4_octet by assumption.
    cbn. Z.div_mod_to_equations; lia.
  - eapply List.Forall_impl; [|exact Hall]. unfold uint. change (2 ^ 8) with 256. simpl. lia.
  - unfold show4_bytes. pose proof (Hd _ H1). pose proof (Hd _ H2). pose proof (Hd _ H3). pose proof (Hd _ H4). lens.
  - unfold show4_bytes. pose proof (Hd _ H1). pose proof (Hd _ H2). pose proof (Hd _ H3). pose proof (Hd _ H4). lens.
  - done.
Qed.

Lemma hex_digit_ok n : 0 <= n < 16 ->
  unhex_digit (hex_digit n) = n /\ 48 <= hex_digit n <= 102 /\ hex_digit n <> 58.
Proof. intros. unfold hex_digit, unhex_digit. repeat case_match; lia. Qed.

Lemma read6_group st g : 0 <= g < 65536 ->
  foldl read6_step st (hex_group g) = st * 65536 + g.
Proof.
  intros Hg. unfold hex_group. cbn [foldl]. unfold read6_step.
  assert (0 <= g / 4096 < 16) by (Z.div_mod_to_equations; lia).
  assert (0 <= (g / 256) mod 16 < 16) by (Z.div_mod_to_equations; lia).
  assert (0 <= (g / 16) mod 16 < 16) by (Z.div_mod_to_equations; lia).
  assert (0 <= g mod 16 < 16) by (Z.div_mod_to_equations; lia).
  repeat match goal with |- context [hex_digit ?n =? 58] =>
    rewrite (proj2 (Z.eqb_neq (hex_digit n) 58)) by (apply hex_digit_ok; lia) end.
  rewrite !(fun n H => proj1 (hex_digit_ok n H)) by lia. Z.div_mod_to_equations; lia.
Qed.

Lemma show6_groups_props n a : 0 <= a < 65536 ^ Z.of_nat n ->
  (forall st, foldl read6_step st (show6_groups n a) = st * 65536 ^ Z.of_nat n + a)
  /\ len (show6_groups n a) = 5 * Z.of_nat n
  /\ Forall (fun c => 48 <= c <= 102) (show6_groups n a).
Proof.
  revert a. induction n as [|n IH]; intros a Ha; cbn [show6_groups].
  - change (65536 ^ Z.of_nat 0) with 1 in *. split_and!; [intros; cbn; lia|done|constructor].
  - rewrite Nat2Z.inj_succ, Z.pow_succ_r in * by lia.
    assert (Hr : 0 <= a mod 65536 < 65536) by (apply Z.mod_pos_bound; lia).
    assert (Hq : 0 <= a / 65536 < 65536 ^ Z.of_nat n).
    { split; [apply Z.div_pos; lia|]. apply Z.div_lt_upper_bound; lia. }
    destruct (IH _ Hq) as (I1 & I2 & I3). split_and!.
    + intros st. rewrite !foldl_app, I1. cbn [foldl]. change (read6_step ?x 58) with x.
      rewrite read6_group by done. pose proof (Z.div_mod a 65536). lia.
    + unfold hex_group. lens.
    + rewrite !Forall_app, Forall_singleton. split_and!; [done|lia|lia|].
      unfold hex_group.
      assert (0 <= (a mod 65536) / 4096 < 16) by (Z.div_mod_to_equations; lia).
      assert (0 <= ((a mod 65536) / 256) mod 16 < 16) by (Z.div_mod_to_equations; lia).
      assert (0 <= ((a mod 65536) / 16) mod 16 < 16) by (Z.div_mod_to_equations; lia).
      assert (0 <= (a mod 65536) mod 16 < 16) by (Z.div_mod_to_equations; lia).
      repeat constructor; apply hex_digit_ok; done.
Qed.

Lemma show6_bytes_props a : u128 a ->
  read6 (show6_groups 8 a) = a /\ bytes_ok (show6_groups 8 a)
  /\ len (show6_groups 8 a) = 40 /\ Forall (fun c => 48 <= c <= 102) (show6_groups 8 a).
Proof.
  intros Ha. destruct (show6_groups_props 8 a) as (R & L & F).
  { unfold uint in Ha. by change (65536 ^ Z.of_nat 8) with (2 ^ 128). }
  split_and!; [unfold read6; rewrite R; lia| |done|done].
  eapply List.Forall_impl; [|exact F]. unfold uint. change (2 ^ 8) with 256. simpl. lia.
Qed.

Lemma uintb_spec w z : uintb w z = true <-> uint w z.
Proof. unfold uintb, uint. lia. Qed.

Lemma parse4_show4 a : u32 a -> parse4 (show4 a) = Some a.
Proof.
  intros Ha. destruct (show4_bytes_props a Ha) as (R & B & _). unfold parse4.
  replace (str_bytes (show4 a)) with (show4_bytes a) by (symmetry; by apply str_bytes_of_bytes).
  rewrite R. rewrite (proj2 (uintb_spec 32 a)), String.eqb_refl by done. done.
Qed.

Lemma parse6_show6 a : u128 a -> parse6 (show6 a) = Some a.
Proof.
  intros Ha. destruct (show6_bytes_props a Ha) as (R & B & _). unfold parse6.
  replace (str_bytes (show6 a)) with (show6_groups 8 a) by (symmetry; by apply str_bytes_of_bytes).
  rewrite R. rewrite (proj2 (uintb_spec 128 a)), String.eqb_refl by done. done.
Qed.

Lemma show6_has_colon a : 58 ∈ show6_groups 8 a.
Proof. cbn [show6_groups]. rewrite !elem_of_app. right. left. by left. Qed.

Lemma parse4_show6 a : u128 a -> parse4 (show6 a) = None.
Proof.
  intros Ha. unfold parse4. set (v := read4 _). destruct (uintb 32 v) eqn:E; [|done].
  destruct (String.eqb_spec (show4 v) (show6 a)) as [Heq|]; [|done]. exfalso.
  apply uintb_spec in E. destruct (show4_bytes_props v E) as (_ & B4 & _ & F4).
  destruct (show6_bytes_props a Ha) as (_ & B6 & _).
  apply (f_equal str_bytes) in Heq. unfold show4, show6 in Heq.
  rewrite !str_bytes_of_bytes in Heq by done.
  pose proof (show6_has_colon a) as Hc. rewrite <- Heq in Hc.
  rewrite List.Forall_forall in F4. apply list_elem_of_In in Hc. specialize (F4 _ Hc). lia.
Qed.

Lemma text_no_nul lo hi l : 0 < lo -> Forall (fun c => lo <= c <= hi) l -> 0 ∉ l.
Proof.
  intros Hlo F Hin. rewrite List.Forall_forall in F. apply list_elem_of_In in Hin.
  specialize (F _ Hin). lia.
Qed.

Definition net_text : NetText.
Proof.
  refine {| parse_ipv4 := parse4; parse_ipv6 := parse6; show_ipv4 := show4; show_ipv6 := show6 |}.
  - exact parse4_show4.
  - exact parse6_show6.
  - intros s a. unfold parse4. set (v := read4 _). destruct (uintb 32 v) eqn:E; [|done]. cbn [andb].
    destruct (String.eqb _ _); [|done]. intros [= <-]. by apply uintb_spec.
  - intros s a. unfold parse6. set (v := read6 _). destruct (uintb 128 v) eqn:E; [|done]. cbn [andb].
    destruct (String.eqb _ _); [|done]. intros [= <-]. by apply uintb_spec.
  - exact parse4_show6.
  - intros a Ha. destruct (show4_bytes_props a Ha) as (_ & B & L & F). unfold str_len, show4.
    rewrite str_bytes_of_bytes by done. split; [lia|]. by apply (text_no_nul 46 57).
  - intros a Ha. destruct (show6_bytes_props a Ha) as (_ & B & L & F). unfold str_len, show6.
    rewrite str_bytes_of_bytes by done. split; [lia|]. by apply (text_no_nul 48 102).
Defined.

(** ** ASCII lower-casing, networks, hash iteration *)

Definition is_ascii_space (c : Z) : bool := in_range 9 13 c || (c =? 32).

Fixpoint trim_ascii (l : list Z) : list Z :=
  match l with
  | c :: l' => if is_ascii_space c then trim_ascii l' else l
  | [] => []
  end.

Definition trim_ascii_end (l : list Z) : list Z := List.rev (trim_ascii (List.rev l)).

Definition ascii_case : StrCase :=
  {| to_lowercase s := str_of_bytes ((fun c => if in_range 65 90 c then c + 32 else c) <$> str_bytes s);
     str_trim s := str_of_bytes (trim_ascii_end (trim_ascii (str_bytes s))) |}.

(** A network: the index of its block and the number of host bits. *)
Record Cidr (w : Z) : Type := mkCidr {
  cidr_block : Z; cidr_host_bits : Z;
  cidr_ok : (0 <=? cidr_host_bits) && (0 <=? cidr_block)
            && ((cidr_block + 1) * 2 ^ cidr_host_bits <=? 2 ^ w) = true
}.
Arguments mkCidr {w}.
Arguments cidr_block {w}.
Arguments cidr_host_bits {w}.

Definition cidr_network {w} (n : Cidr w) : Z := cidr_block n * 2 ^ cidr_host_bits n.
Definition cidr_broadcast {w} (n : Cidr w) : Z := (cidr_block n + 1) * 2 ^ cidr_host_bits n - 1.
Definition cidr_contains {w} (n : Cidr w) (a : Z) : bool :=
  (cidr_network n <=? a) && (a <=? cidr_broadcast n).

Lemma cidr_bounds {w} (n : Cidr w) :
  0 <= cidr_network n <= cidr_broadcast n /\ cidr_broadcast n < 2 ^ w.
Proof.
  destruct n as [b h Hok]. unfold cidr_network, cidr_broadcast. cbn.
  rewrite !andb_true_iff in Hok. destruct Hok as ((H1 & H2) & H3).
  assert (0 < 2 ^ h) by (apply Z.pow_pos_nonneg; lia). nia.
Qed.

Definition cidr_nets : IpNetLib.
Proof.
  refine {| Ipv4Net := Cidr 32; Ipv6Net := Cidr 128;
            net4_network := cidr_network; net4_broadcast := cidr_broadcast;
            net6_network := cidr_network; net6_broadcast := cidr_broadcast;
            net4_contains := cidr_contains; net6_contains := cidr_contains |}.
  - intros n. apply cidr_bounds.
  - intros n a. unfold cidr_contains. lia.
  - intros n. apply cidr_bounds.
  - intros n a. unfold cidr_contains. lia.
Defined.

Definition mk_cidr (w block host_bits : Z) : option (Cidr w) :=
  match Sumbool.sumbool_of_bool ((0 <=? host_bits) && (0 <=? block) && ((block + 1) * 2 ^ host_bits <=? 2 ^ w)) with
  | left e => Some (mkCidr block host_bits e)
  | right _ => None
  end.

Definition sorted_hash_iter : HashIter :=
  {| hash_iter K V _ _ m := map_to_list m; hash_iter_perm K V _ _ m := reflexivity _ |}.

(** ** base64url without padding (RFC 4648) *)

Definition b64_char (s : Z) : Z :=
  if s <? 26 then 65 + s else if s <? 52 then 71 + s else if s <? 62 then s - 4
  else if s =? 62 then 45 else 95.

Definition b64_sextet (c : Z) : Z :=
  if c =? 45 then 62 else if c =? 95 then 63 else
  if c <? 58 then c + 4 else if c <? 91 then c - 65 else c - 71.

Fixpoint b64_sextets (l : list Z) : list Z :=
  match l with
  | a :: b :: c :: r =>
    [a / 4; (a mod 4) * 16 + b / 16; (b mod 16) * 4 + c / 64; c mod 64] ++ b64_sextets r
  | [a; b] => [a / 4; (a mod 4) * 16 + b / 16; (b mod 16) * 4]
  | [a] => [a / 4; (a mod 4) * 16]
  | [] => []
  end.

Fixpoint b64_unsextets (l : list Z) : list Z :=
  match l with
  | x :: y :: z :: w :: r =>
    [x * 4 + y / 16; (y mod 16) * 16 + z / 4; (z mod 4) * 64 + w] ++ b64_unsextets r
  | [x; y; z] => [x * 4 + y / 16; (y mod 16) * 16 + z / 4]
  | [x; y] => [x * 4 + y / 16]
  | _ => []
  end.

Definition b64url_encode (l : list Z) : string := str_of_bytes (b64_char <$> b64_sextets l).

Definition b64url_decode (s : string) : option (list Z) :=
  let l := b64_unsextets (b64_sextet <$> str_bytes s) in
  if forallb (uintb 8) l && String.eqb (b64url_encode l) s then Some l else None.

Lemma list_ind3 {A} (P : list A -> Prop) :
  P [] -> (forall a, P [a]) -> (forall a b, P [a; b]) ->
  (forall a b c r, P r -> P (a :: b :: c :: r)) -> forall l, P l.
Proof.
  intros H0 H1 H2 H3. refine (fix IH l := _). destruct l as [|a [|b [|c r]]];
    [exact H0|apply H1|apply H2|apply H3, IH].
Qed.

Lemma b64_char_ok s : 0 <= s < 64 -> b64_sextet (b64_char s) = s /\ u8 (b64_char s).
Proof.
  intros Hs. unfold uint. change (2 ^ 8) with 256. unfold b64_char, b64_sextet.
  destruct (s <? 26) eqn:?; [repeat (case_match; try lia)|].
  destruct (s <? 52) eqn:?; [repeat (case_match; try lia)|].
  destruct (s <? 62) eqn:?; [repeat (case_match; try lia)|].
  destruct (s =? 62) eqn:?; cbn; lia.
Qed.

Lemma b64_sextets_spec l : bytes_ok l ->
  b64_unsextets (b64_sextets l) = l /\ Forall (fun s => 0 <= s < 64) (b64_sextets l).
Proof.
  unfold uint. change (2 ^ 8) with 256.
  induction l as [|a|a b|a b c r IH] using list_ind3; intros Hl; [done| | |];
    rewrite ?Forall_cons_iff in Hl; cbn [b64_sextets b64_unsextets app].
  3: destruct Hl as (Ha & Hb & Hc & Hr); destruct (IH Hr) as [-> Hf].
  all: split; [repeat (f_equal; try (Z.div_mod_to_equations; lia))|].
  all: rewrite ?Forall_cons_iff; split_and!; try done; Z.div_mod_to_equations; lia.
Qed.

Lemma len_b64_sextets l : len (b64_sextets l) = div_ceil (4 * len l) 3.
Proof.
  unfold div_ceil. induction l as [|a|a b|a b c r IH] using list_ind3; [done|done|done|].
  cbn [b64_sextets]. rewrite len_app, IH, !len_cons.
  replace (4 * (1 + (1 + (1 + len r))) + 3 - 1) with (4 * len r + 3 - 1 + 4 * 3) by lia.
  rewrite Z.div_add, len_nil by lia. lia.
Qed.

Lemma b64_chars_bytes l : bytes_ok l ->
  str_bytes (b64url_encode l) = b64_char <$> b64_sextets l.
Proof.
  intros Hl. destruct (b64_sextets_spec l Hl) as [_ Hf]. apply str_bytes_of_bytes.
  apply Forall_fmap. eapply List.Forall_impl; [|exact Hf]. intros s Hs. by apply b64_char_ok.
Qed.

Lemma b64url_roundtrip l : bytes_ok l -> b64url_decode (b64url_encode l) = Some l.
Proof.
  intros Hl. unfold b64url_decode. rewrite b64_chars_bytes by done.
  destruct (b64_sextets_spec l Hl) as [Hu Hf].
  replace (b64_sextet <$> (b64_char <$> b64_sextets l)) with (b64_sextets l).
  2:{ clear Hu. induction Hf as [|s r Hs Hr IH]; [done|]. cbn. rewrite <- IH.
      f_equal. by rewrite (proj1 (b64_char_ok s Hs)). }
  rewrite Hu, String.eqb_refl. replace (forallb (uintb 8) l) with true; [done|].
  symmetry. apply forallb_forall. intros x Hx. rewrite List.Forall_forall in Hl.
  by apply uintb_spec, Hl.
Qed.

(** ** Stand-ins for the hash functions: 32 bytes that depend on key and input *)

Definition mix (seed : Z) (l : list Z) : Z :=
  foldl (fun acc b => (acc * 257 + b + 1) mod 2 ^ 256) seed l.

Definition young_crypto : YoungCrypto.
Proof.
  refine {| hmac_sha256 k m := be_bytes 32 (mix 7 (k ++ [300] ++ m));
            sha256 m := be_bytes 32 (mix 11 m);
            blake3_xof k m i := mix (i + 13) (k ++ [300] ++ m) mod 256;
            b64_encode := b64url_encode; b64_decode := b64url_decode |}.
  - intros. apply length_be_bytes.
  - intros. apply be_bytes_ok.
  - intros. apply length_be_bytes.
  - intros. apply be_bytes_ok.
  - intros. unfold uint. apply Z.mod_pos_bound. done.
  - exact b64url_roundtrip.
  - intros l. unfold b64url_encode. rewrite str_len_of_bytes. unfold len at 1.
    rewrite length_fmap. apply len_b64_sextets.
  - intros s l. unfold b64url_decode. set (v := b64_unsextets _).
    destruct (forallb _ v) eqn:E; [|done]. cbn [andb]. destruct (String.eqb _ _); [|done].
    intros [= <-]. apply List.Forall_forall. intros x Hx. rewrite forallb_forall in E.
    by apply uintb_spec, E.
Defined.

(** [Import Concrete.] makes these the instances the witnesses are evaluated with. *)
Module Concrete.
#[export] Existing Instances net_text ascii_case cidr_nets sorted_hash_iter young_crypto.
End Concrete.
