(* ===== verification/IpRange.v ===== *)
(** * From address ranges to CIDR networks

    [ipv4_range_to_networks] and [ipv6_range_to_networks] of
    [core-ruleset/src/parser/srs.rs]: an inclusive address range is split into aligned
    power-of-two blocks, the largest that fits first.  The constructors of the crate [ipnet]
    are the class [IpNetNew].

    Both loops are instances of [blocks], which works on (address, block size in bits);
    the theorem is that the blocks tile the range: each begins where the one before ends. *)

From stdpp Require Import base list gmap strings numbers option.
From S2P Require Import Prelude Net Instances.

(** [Ipv4Net::new(addr, prefix)] and [Ipv6Net::new]: fail for a prefix longer than the
    address; [network()] clears the host bits and [broadcast()] sets them. *)
Class IpNetNew `{IpNetLib} := {
  net4_new : Z -> Z -> option Ipv4Net;
  net6_new : Z -> Z -> option Ipv6Net;
  net4_new_ok : forall a p, u32 a -> 0 <= p <= 32 -> exists n, net4_new a p = Some n
    /\ net4_network n = a / 2 ^ (32 - p) * 2 ^ (32 - p)
    /\ net4_broadcast n = a / 2 ^ (32 - p) * 2 ^ (32 - p) + 2 ^ (32 - p) - 1;
  net6_new_ok : forall a p, u128 a -> 0 <= p <= 128 -> exists n, net6_new a p = Some n
    /\ net6_network n = a / 2 ^ (128 - p) * 2 ^ (128 - p)
    /\ net6_broadcast n = a / 2 ^ (128 - p) * 2 ^ (128 - p) + 2 ^ (128 - p) - 1
}.

Section ranges.
Context `{IpNetNew}.

(** The loop of [ipv4_range_to_networks]; all sums are taken in [u64]. *)
Fixpoint range4_loop (fuel : nat) (from to : Z) : outcome (list IpNet) :=
  match fuel with
  | O => Panic
  | S fuel' =>
    let aligned_bits := trailing_zeros 32 from in
    let remaining := to - from + 1 in
    let range_bits := 63 - leading_zeros 64 remaining in
    let block_bits := Z.min aligned_bits range_bits in
    let prefix := 32 - block_bits in
    net ← expect (net4_new from prefix);
    let next := from + Z.shiftl 1 block_bits in
    if to <? next then Ok [Net4 net]
    else rest ← range4_loop fuel' (next mod 2 ^ 32) to; Ok (Net4 net :: rest)
  end.

Definition RANGE4_FUEL : nat := 66.
Definition ipv4_range_to_networks (from to : Z) : outcome (list IpNet) := range4_loop RANGE4_FUEL from to.

Fixpoint range6_loop (fuel : nat) (from to : Z) : outcome (list IpNet) :=
  match fuel with
  | O => Panic
  | S fuel' =>
    let aligned_bits := trailing_zeros 128 from in
    let range_bits :=
      if (from =? 0) && (to =? 2 ^ 128 - 1) then 128
      else let remaining := to - from + 1 in 127 - leading_zeros 128 remaining in
    let block_bits := Z.min aligned_bits range_bits in
    let prefix := 128 - block_bits in
    net ← expect (net6_new from prefix);
    if block_bits =? 128 then Ok [Net6 net] else
    match checked_add 128 from (Z.shiftl 1 block_bits) with
    | None => Ok [Net6 net]
    | Some next =>
      if to <? next then Ok [Net6 net]
      else rest ← range6_loop fuel' next to; Ok (Net6 net :: rest)
    end
  end.

Definition RANGE6_FUEL : nat := 258.
Definition ipv6_range_to_networks (from to : Z) : outcome (list IpNet) := range6_loop RANGE6_FUEL from to.

Definition ip_range_to_networks (from to : IpAddr) : outcome (list IpNet) :=
  match from, to with
  | V4 from, V4 to => ipv4_range_to_networks from to
  | V6 from, V6 to => ipv6_range_to_networks from to
  | _, _ => Err InvalidData
  end.

(** [ip_value] *)
Definition ip_value (ip : IpAddr) : Z := match ip with V4 a => a | V6 a => a end.

(** An address of a range of its family *)
Definition in_range_of (ip : IpAddr) (r : IpAddr * IpAddr) : bool :=
  eqb (is_ipv4 r.1) (is_ipv4 ip) && (ip_value r.1 <=? ip_value ip) && (ip_value ip <=? ip_value r.2).
End ranges.

(** ** Trailing zeros *)

Lemma pos_trailing_zeros_spec p :
  0 <= pos_trailing_zeros p /\ exists q, Zpos p = (2 * q + 1) * 2 ^ pos_trailing_zeros p /\ 0 <= q.
Proof.
  induction p as [p IH|p IH|]; cbn [pos_trailing_zeros].
  - split; [lia|]. exists (Zpos p). rewrite Z.pow_0_r. lia.
  - destruct IH as (IH1 & q & Hq & Hq0). split; [lia|]. exists q.
    rewrite Z.pow_add_r by lia. change (2 ^ 1) with 2. lia.
  - split; [lia|]. exists 0. rewrite Z.pow_0_r. lia.
Qed.

(** A multiple of [2 ^ a] that is not zero has at least [a] trailing zeros. *)
Lemma trailing_zeros_ge w x a : 0 <= a <= w -> 0 <= x -> x mod 2 ^ a = 0 -> a <= trailing_zeros w x.
Proof.
  intros Ha Hx Hm. destruct x as [|p|p]; [cbn; lia| |lia]. cbn [trailing_zeros].
  destruct (pos_trailing_zeros_spec p) as (Ht & q & Hq & Hq0).
  destruct (Z.le_gt_cases a (pos_trailing_zeros p)) as [|Hlt]; [done|exfalso].
  set (t := pos_trailing_zeros p) in *.
  assert (E : 2 ^ a = 2 ^ t * 2 * 2 ^ (a - t - 1)).
  { rewrite <- (Z.pow_1_r 2) at 3. rewrite <- !Z.pow_add_r by lia. f_equal. lia. }
  assert (0 < 2 ^ t) by (apply Z.pow_pos_nonneg; lia).
  assert (0 < 2 ^ (a - t - 1)) by (apply Z.pow_pos_nonneg; lia).
  apply Z.mod_divide in Hm; [|rewrite E; nia]. destruct Hm as [k Hk]. rewrite Hq, E in Hk.
  assert ((2 * q + 1) = k * 2 * 2 ^ (a - t - 1)) by nia. nia.
Qed.

Lemma trailing_zeros_divides w x : 0 <= w -> 0 <= x < 2 ^ w -> 0 <= trailing_zeros w x <= w /\ x mod 2 ^ trailing_zeros w x = 0.
Proof.
  intros Hw Hx. destruct x as [|p|p]; cbn [trailing_zeros]; [split; [lia|apply Z.mod_0_l; apply Z.pow_nonzero; lia]| |lia].
  destruct (pos_trailing_zeros_spec p) as (Ht & q & Hq & Hq0). set (t := pos_trailing_zeros p) in *.
  assert (0 < 2 ^ t) by (apply Z.pow_pos_nonneg; lia). split.
  - split; [done|]. apply Z.lt_le_incl, (Z.pow_lt_mono_r_iff 2); nia.
  - rewrite Hq. by apply Z.mod_mul; lia.
Qed.

(** ** Tiling a range with aligned blocks *)

Fixpoint blocks (w : Z) (fuel : nat) (from to : Z) : option (list (Z * Z)) :=
  match fuel with
  | O => None
  | S fuel' =>
    let b := Z.min (trailing_zeros w from) (Z.log2 (to - from + 1)) in
    if to <? from + 2 ^ b then Some [(from, b)]
    else rest ← blocks w fuel' (from + 2 ^ b) to; Some ((from, b) :: rest)
  end.

Fixpoint tiled (from : Z) (bl : list (Z * Z)) (to : Z) : Prop :=
  match bl with
  | [] => from = to + 1
  | (a, b) :: bl' => a = from /\ tiled (from + 2 ^ b) bl' to
  end.

(** While the alignment limits the block it grows with every block; once the rest of the
    range limits it, the rest at least halves. *)
Definition block_measure (w from to : Z) : Z :=
  let a := trailing_zeros w from in
  let g := Z.log2 (to - from + 1) in
  if a <=? g then 2 * g + 2 - a else g + 1.

Section blocks.
Variable w : Z.
Hypothesis Hw : 0 < w.

Lemma block_fits from to :
  0 <= from <= to -> to < 2 ^ w ->
  let b := Z.min (trailing_zeros w from) (Z.log2 (to - from + 1)) in
  0 <= b <= w /\ from mod 2 ^ b = 0 /\ from + 2 ^ b <= to + 1.
Proof using Hw.
  intros Hf Ht b. destruct (trailing_zeros_divides w from) as [Ha Hm]; [lia..|].
  pose proof (Z.log2_nonneg (to - from + 1)) as Hg0.
  destruct (Z.log2_spec (to - from + 1)) as [Hg _]; [lia|]. split; [lia|]. split.
  - assert (2 ^ trailing_zeros w from = 2 ^ b * 2 ^ (trailing_zeros w from - b)) as E
      by (rewrite <- Z.pow_add_r by lia; f_equal; lia).
    assert (0 < 2 ^ b) by (apply Z.pow_pos_nonneg; lia).
    assert (0 < 2 ^ (trailing_zeros w from - b)) by (apply Z.pow_pos_nonneg; lia).
    apply Z.mod_divide in Hm; [|lia]. destruct Hm as [k ->]. rewrite E.
    replace (k * (2 ^ b * 2 ^ (trailing_zeros w from - b))) with (k * 2 ^ (trailing_zeros w from - b) * 2 ^ b) by lia.
    by apply Z.mod_mul; lia.
  - pose proof (Z.pow_le_mono_r 2 b (Z.log2 (to - from + 1))). lia.
Qed.

Lemma block_measure_decreases from to :
  0 <= from <= to -> to < 2 ^ w ->
  let b := Z.min (trailing_zeros w from) (Z.log2 (to - from + 1)) in
  from + 2 ^ b <= to -> block_measure w (from + 2 ^ b) to < block_measure w from to.
Proof using Hw.
  intros Hf Ht b Hn. destruct (block_fits from to Hf Ht) as (Hb & Hmod & _). fold b in Hb, Hmod.
  destruct (trailing_zeros_divides w from) as [Ha Hm]; [lia..|].
  set (a := trailing_zeros w from) in *. set (g := Z.log2 (to - from + 1)) in *.
  assert (Hp : 0 < 2 ^ b) by (apply Z.pow_pos_nonneg; lia).
  set (from' := from + 2 ^ b) in *. set (a' := trailing_zeros w from').
  set (g' := Z.log2 (to - from' + 1)).
  assert (Hg' : g' <= g) by (apply Z.log2_le_mono; lia).
  assert (Hg0 : 0 <= g') by apply Z.log2_nonneg.
  unfold block_measure. fold a g a' g'. destruct (Z.leb_spec a g) as [Hag|Hag].
  - assert (Hbw : b < w) by (apply (Z.pow_lt_mono_r_iff 2); lia).
    assert (Ha' : a + 1 <= a').
    { apply trailing_zeros_ge; [lia|lia|]. assert (Hba : b = a) by lia.
      assert (Hodd : exists q, from = (2 * q + 1) * 2 ^ a).
      { destruct from as [|p|p] eqn:E; [|subst a; cbn [trailing_zeros]|lia].
        - subst a. cbn in *. lia.
        - destruct (pos_trailing_zeros_spec p) as (_ & q & Hq & _). by exists q. }
      destruct Hodd as [q Hq]. subst from'. rewrite Hba, Hq.
      replace ((2 * q + 1) * 2 ^ a + 2 ^ a) with ((q + 1) * (2 * 2 ^ a)) by lia.
      rewrite Z.pow_add_r by lia. change (2 ^ 1) with 2. rewrite (Z.mul_comm (2 ^ a) 2).
      by apply Z.mod_mul; lia. }
    destruct (Z.leb_spec a' g'); lia.
  - assert (Hbg : b = g) by lia. rewrite Hbg in *. clearbody b. subst b.
    assert (Hlt : g' < g).
    { destruct (Z.log2_spec (to - from + 1)) as [_ Hs]; [lia|]. fold g in Hs.
      rewrite Z.pow_succ_r in Hs by lia. apply Z.log2_lt_pow2; lia. }
    assert (Ha' : g <= a').
    { apply trailing_zeros_ge; [lia|lia|]. subst from'. rewrite <- (Z.mul_1_l (2 ^ g)) at 1.
      by rewrite Z.mod_add by lia. }
    destruct (Z.leb_spec a' g'); lia.
Qed.

(** An aligned block of [w]-bit addresses *)
Definition block_ok (ab : Z * Z) : Prop :=
  0 <= ab.1 /\ 0 <= ab.2 <= w /\ ab.1 mod 2 ^ ab.2 = 0 /\ ab.1 + 2 ^ ab.2 <= 2 ^ w.

Lemma blocks_spec fuel from to :
  0 <= from <= to -> to < 2 ^ w -> block_measure w from to <= Z.of_nat fuel ->
  exists bl, blocks w fuel from to = Some bl /\ tiled from bl to
    /\ Forall block_ok bl
    /\ len bl <= Z.of_nat fuel.
Proof using Hw.
  revert from. induction fuel as [|fuel IH]; intros from Hf Ht Hm.
  - exfalso. unfold block_measure in Hm. destruct (trailing_zeros_divides w from); [lia..|].
    pose proof (Z.log2_nonneg (to - from + 1)). destruct (Z.leb_spec (trailing_zeros w from) (Z.log2 (to - from + 1))); lia.
  - cbn [blocks]. destruct (block_fits from to Hf Ht) as (Hb & Hmod & Hle).
    set (b := Z.min _ _) in *. assert (0 < 2 ^ b) by (apply Z.pow_pos_nonneg; lia).
    destruct (Z.ltb_spec to (from + 2 ^ b)) as [Hlast|Hmore].
    + exists [(from, b)]. split_and!; [done|cbn; lia| |unfold len; cbn; lia].
      constructor; [unfold block_ok; cbn; lia|constructor].
    + pose proof (block_measure_decreases from to Hf Ht Hmore) as Hd. fold b in Hd.
      destruct (IH (from + 2 ^ b)) as (bl & -> & Htl & Hall & Hlen); [lia..|].
      exists ((from, b) :: bl). split_and!; [done|by cbn| |unfold len in *; cbn; lia].
      constructor; [unfold block_ok; cbn; lia|done].
Qed.

Lemma block_measure_bound from to : 0 <= from <= to -> to < 2 ^ w -> block_measure w from to <= 2 * w + 2.
Proof using Hw.
  intros Hf Ht. unfold block_measure. destruct (trailing_zeros_divides w from); [lia..|].
  assert (Z.log2 (to - from + 1) <= w).
  { apply Z.lt_succ_r, Z.log2_lt_pow2; [lia|]. rewrite Z.pow_succ_r by lia. lia. }
  destruct (_ <=? _); lia.
Qed.
End blocks.

(** ** The loops tile the range with networks *)

Section tile.
Context `{IpNetNew}.

Definition net_first (n : IpNet) : Z := match n with Net4 n => net4_network n | Net6 n => net6_network n end.
Definition net_last (n : IpNet) : Z := match n with Net4 n => net4_broadcast n | Net6 n => net6_broadcast n end.
Definition net_is_v4 (n : IpNet) : bool := match n with Net4 _ => true | Net6 _ => false end.

(** Each network begins right after the one before it, from [from] up to [to]. *)
Fixpoint tile (from : Z) (nets : list IpNet) (to : Z) : Prop :=
  match nets with
  | [] => from = to + 1
  | n :: nets' => net_first n = from /\ tile (net_last n + 1) nets' to
  end.

Lemma net_first_last n : net_first n <= net_last n.
Proof. destruct n as [n|n]; cbn; [pose proof (net4_bounds n)|pose proof (net6_bounds n)]; lia. Qed.

Lemma net_contains_bounds n ip :
  net_contains n ip = eqb (net_is_v4 n) (is_ipv4 ip) && (net_first n <=? ip_value ip) && (ip_value ip <=? net_last n).
Proof.
  destruct n as [n|n], ip as [a|a]; cbn; try done.
  - apply eq_true_iff_eq. rewrite net4_contains_spec, andb_true_iff, !Z.leb_le. done.
  - apply eq_true_iff_eq. rewrite net6_contains_spec, andb_true_iff, !Z.leb_le. done.
Qed.

(** The networks of a tiling contain exactly the addresses of the range. *)
Lemma tile_contains from nets to v4 ip :
  tile from nets to -> Forall (fun n => net_is_v4 n = v4) nets ->
  existsb (fun n => net_contains n ip) nets
  = eqb v4 (is_ipv4 ip) && (from <=? ip_value ip) && (ip_value ip <=? to).
Proof.
  intros Ht Hv. revert from Ht. induction Hv as [|n nets Hn Hv IH]; intros from Ht; cbn in *.
  - destruct (eqb v4 (is_ipv4 ip)); cbn; lia.
  - destruct Ht as [<- Ht]. rewrite (IH _ Ht), net_contains_bounds, Hn.
    assert (Hto : net_last n <= to).
    { clear -Ht. revert Ht. generalize (net_last n). induction nets as [|m nets IHn]; intros z Ht; cbn in Ht; [lia|].
      destruct Ht as [E Ht]. apply IHn in Ht. pose proof (net_first_last m). lia. }
    pose proof (net_first_last n). destruct (eqb v4 (is_ipv4 ip)); cbn; lia.
Qed.

Lemma pow2_shiftl b : 0 <= b -> Z.shiftl 1 b = 2 ^ b.
Proof. intros. rewrite Z.shiftl_mul_pow2 by done. lia. Qed.

Lemma log2_leading_zeros w x : 0 < x -> w - 1 - leading_zeros w x = Z.log2 x.
Proof. intros. unfold leading_zeros. rewrite (proj2 (Z.eqb_neq _ _)) by lia. lia. Qed.

Lemma range4_loop_blocks fuel from to bl :
  0 <= from <= to -> to < 2 ^ 32 -> blocks 32 fuel from to = Some bl ->
  range4_loop fuel from to = collect (fun ab => n ← expect (net4_new ab.1 (32 - ab.2)); Ok (Net4 n)) bl.
Proof.
  revert from bl. induction fuel as [|fuel IH]; intros from bl Hf Ht Hbl; [done|].
  cbn [blocks range4_loop] in *. change 63 with (64 - 1). rewrite log2_leading_zeros by lia.
  destruct (block_fits 32 ltac:(lia) from to Hf Ht) as (Hb & _ & _). set (b := Z.min _ _) in *. clearbody b.
  rewrite pow2_shiftl by lia. assert (0 < 2 ^ b) by (apply Z.pow_pos_nonneg; lia).
  destruct (Z.ltb_spec to (from + 2 ^ b)) as [Hlast|Hmore].
  - injection Hbl as <-. cbn. by destruct (expect _).
  - apply bind_Some in Hbl as (bl' & Hbl & [= <-]). rewrite Z.mod_small by lia.
    rewrite (IH (from + 2 ^ b) bl' ltac:(lia) Ht Hbl). cbn. by destruct (expect _).
Qed.

Lemma range6_loop_blocks fuel from to bl :
  0 <= from <= to -> to < 2 ^ 128 -> blocks 128 fuel from to = Some bl ->
  range6_loop fuel from to = collect (fun ab => n ← expect (net6_new ab.1 (128 - ab.2)); Ok (Net6 n)) bl.
Proof.
  revert from bl. induction fuel as [|fuel IH]; intros from bl Hf Ht Hbl; [done|].
  cbn [blocks range6_loop] in *.
  replace (if (from =? 0) && (to =? 2 ^ 128 - 1) then 128 else 127 - leading_zeros 128 (to - from + 1))
    with (Z.log2 (to - from + 1)).
  2:{ change 127 with (128 - 1). rewrite log2_leading_zeros by lia.
      destruct (_ && _) eqn:E; [|done]. apply andb_prop in E as [E1 E2].
      replace (to - from + 1) with (2 ^ 128) by lia. by rewrite Z.log2_pow2. }
  destruct (block_fits 128 ltac:(lia) from to Hf Ht) as (Hb & _ & _). set (b := Z.min _ _) in *. clearbody b.
  rewrite pow2_shiftl by lia. assert (0 < 2 ^ b) by (apply Z.pow_pos_nonneg; lia).
  unfold checked_add. destruct (Z.ltb_spec to (from + 2 ^ b)) as [Hlast|Hmore].
  - injection Hbl as <-. cbn. destruct (expect _); cbn; [|done|done].
    destruct (b =? 128); [done|]. destruct (from + 2 ^ b <? 2 ^ 128); [|done].
    by rewrite (proj2 (Z.ltb_lt to (from + 2 ^ b)) Hlast).
  - apply bind_Some in Hbl as (bl' & Hbl & [= <-]).
    rewrite (proj2 (Z.eqb_neq b 128)) by (intros ->; lia). rewrite (proj2 (Z.ltb_lt (from + 2 ^ b) (2 ^ 128))) by lia.
    rewrite (proj2 (Z.ltb_ge to (from + 2 ^ b))) by lia.
    rewrite (IH (from + 2 ^ b) bl' ltac:(lia) Ht Hbl). cbn. by destruct (expect _).
Qed.

Lemma collect_tile w v4 (mk : Z * Z -> outcome IpNet) from bl to :
  (forall ab, block_ok w ab -> exists n, mk ab = Ok n /\ net_first n = ab.1 /\ net_last n = ab.1 + 2 ^ ab.2 - 1 /\ net_is_v4 n = v4) ->
  Forall (block_ok w) bl -> tiled from bl to ->
  exists nets, collect mk bl = Ok nets /\ tile from nets to /\ Forall (fun n => net_is_v4 n = v4) nets /\ len nets = len bl.
Proof.
  intros Hmk Hall. revert from. induction Hall as [|[a b] bl Hab Hall IH]; intros from Htl; cbn in Htl.
  - by exists [].
  - destruct Htl as [-> Htl]. destruct (Hmk _ Hab) as (n & E & E1 & E2 & E3). cbn in E1, E2.
    destruct (IH _ Htl) as (nets & En & Ht & Hv & Hl). exists (n :: nets). cbn [collect]. rewrite E, En. cbn.
    split_and!; [done|done| |by constructor|rewrite !len_cons; lia].
    by replace (net_last n + 1) with (from + 2 ^ b) by lia.
Qed.

Lemma aligned_div a b : a mod 2 ^ b = 0 -> a / 2 ^ b * 2 ^ b = a.
Proof. intros Hm. pose proof (Z.div_mod a (2 ^ b)). destruct (Z.eq_dec (2 ^ b) 0) as [E|]; [rewrite E in *; rewrite Z.mod_0_r in Hm; lia|lia]. Qed.

Lemma mk4_block ab :
  block_ok 32 ab -> exists n, (n ← expect (net4_new ab.1 (32 - ab.2)); Ok (Net4 n)) = Ok n
    /\ net_first n = ab.1 /\ net_last n = ab.1 + 2 ^ ab.2 - 1 /\ net_is_v4 n = true.
Proof.
  destruct ab as [a b]. unfold block_ok. cbn [fst snd]. intros (Ha & Hb & Hm & Hle).
  assert (0 < 2 ^ b) by (apply Z.pow_pos_nonneg; lia).
  destruct (net4_new_ok a (32 - b)) as (n & -> & E1 & E2); [unfold uint; lia..|].
  replace (32 - (32 - b)) with b in * by lia. rewrite aligned_div in * by done. by exists (Net4 n).
Qed.

Lemma mk6_block ab :
  block_ok 128 ab -> exists n, (n ← expect (net6_new ab.1 (128 - ab.2)); Ok (Net6 n)) = Ok n
    /\ net_first n = ab.1 /\ net_last n = ab.1 + 2 ^ ab.2 - 1 /\ net_is_v4 n = false.
Proof.
  destruct ab as [a b]. unfold block_ok. cbn [fst snd]. intros (Ha & Hb & Hm & Hle).
  assert (0 < 2 ^ b) by (apply Z.pow_pos_nonneg; lia).
  destruct (net6_new_ok a (128 - b)) as (n & -> & E1 & E2); [unfold uint; lia..|].
  replace (128 - (128 - b)) with b in * by lia. rewrite aligned_div in * by done. by exists (Net6 n).
Qed.

(** Both families: no panic, at most [2 * w + 2] networks, and they tile the range. *)
Lemma ip_range_to_networks_spec from to :
  ip_ok from -> ip_ok to -> is_ipv4 from = is_ipv4 to -> ip_value from <= ip_value to ->
  exists nets, ip_range_to_networks from to = Ok nets
    /\ tile (ip_value from) nets (ip_value to) /\ Forall (fun n => net_is_v4 n = is_ipv4 from) nets
    /\ len nets <= (if is_ipv4 from then 66 else 258).
Proof.
  destruct from as [f|f], to as [t|t]; cbn [ip_ok is_ipv4 ip_value]; unfold uint; intros Hf Ht E Hle; try discriminate E.
  - destruct (blocks_spec 32 ltac:(lia) RANGE4_FUEL f t) as (bl & Hbl & Htl & Hall & Hlen); [lia|lia| |].
    { pose proof (block_measure_bound 32 ltac:(lia) f t). unfold RANGE4_FUEL. lia. }
    cbn [ip_range_to_networks]. unfold ipv4_range_to_networks. rewrite (range4_loop_blocks RANGE4_FUEL f t bl ltac:(lia) ltac:(lia) Hbl).
    destruct (collect_tile 32 true _ f bl t mk4_block Hall Htl) as (nets & -> & H1 & H2 & H3).
    exists nets. split_and!; [done..|]. unfold RANGE4_FUEL in Hlen. lia.
  - destruct (blocks_spec 128 ltac:(lia) RANGE6_FUEL f t) as (bl & Hbl & Htl & Hall & Hlen); [lia|lia| |].
    { pose proof (block_measure_bound 128 ltac:(lia) f t). unfold RANGE6_FUEL. lia. }
    cbn [ip_range_to_networks]. unfold ipv6_range_to_networks. rewrite (range6_loop_blocks RANGE6_FUEL f t bl ltac:(lia) ltac:(lia) Hbl).
    destruct (collect_tile 128 false _ f bl t mk6_block Hall Htl) as (nets & -> & H1 & H2 & H3).
    exists nets. split_and!; [done..|]. unfold RANGE6_FUEL in Hlen. lia.
Qed.
End tile.

(** ** A concrete constructor of networks *)

Definition new_cidr (w a p : Z) : option (Cidr w) := mk_cidr w (a / 2 ^ (w - p)) (w - p).

Lemma new_cidr_ok w a p :
  0 <= a < 2 ^ w -> 0 <= p <= w -> exists n, new_cidr w a p = Some n
    /\ cidr_network n = a / 2 ^ (w - p) * 2 ^ (w - p)
    /\ cidr_broadcast n = a / 2 ^ (w - p) * 2 ^ (w - p) + 2 ^ (w - p) - 1.
Proof.
  intros Ha Hp. unfold new_cidr, mk_cidr. set (h := w - p). assert (0 < 2 ^ h) by (apply Z.pow_pos_nonneg; lia).
  assert (Hblk : (a / 2 ^ h + 1) * 2 ^ h <= 2 ^ w).
  { assert (E : 2 ^ w = 2 ^ p * 2 ^ h) by (rewrite <- Z.pow_add_r by lia; f_equal; lia).
    assert (a / 2 ^ h < 2 ^ p) by (apply Z.div_lt_upper_bound; lia). nia. }
  assert (0 <= a / 2 ^ h) by (apply Z.div_pos; lia).
  destruct (Sumbool.sumbool_of_bool _) as [e|e].
  - eexists. split; [done|]. unfold cidr_network, cidr_broadcast. cbn. lia.
  - exfalso. revert e. rewrite !andb_false_iff, !Z.leb_gt. lia.
Qed.

Definition cidr_new : @IpNetNew cidr_nets :=
  {| net4_new := new_cidr 32 : Z -> Z -> option (@Ipv4Net cidr_nets);
     net6_new := new_cidr 128 : Z -> Z -> option (@Ipv6Net cidr_nets);
     net4_new_ok := new_cidr_ok 32; net6_new_ok := new_cidr_ok 128 |}.

Module IpRangeConcrete.
#[export] Existing Instance cidr_new.
End IpRangeConcrete.

(** 10.0.0.1 to 10.0.0.6: /32, /31, /31, /32 *)
Example range_example :
  (map (fun n => (net_first n, net_last n)) <$>
     match @ipv4_range_to_networks cidr_nets cidr_new 167772161 167772166 with Ok l => Some l | _ => None end)
  = Some [(167772161, 167772161); (167772162, 167772163); (167772164, 167772165); (167772166, 167772166)].
Proof. vm_compute. reflexivity. Qed.
