(* ===== verification/YoungFlow.v ===== *)
(** * Young wire protocol, part 2: FlowOpen and FlowResponse frames

    Models [encode_target]/[decode_target] and the flow-open and flow-response
    codecs of [src/crates/core-young/src/codec.rs].  A decoder reads a stream
    buffer: [Ok None] asks for more bytes, [Ok (Some (v, n))] consumes [n]. *)

From stdpp Require Import base list gmap strings numbers option.
From S2P Require Import Prelude Net YoungBase Instances.

Lemma len_YF : len (str_bytes "YF") = 2.
Proof. reflexivity. Qed.

Lemma len_YR : len (str_bytes "YR") = 2.
Proof. reflexivity. Qed.
#[global] Hint Rewrite len_YF len_YR : len_db.

Section Codec.
Context `{NetText} `{YoungCrypto}.

Definition encode_target (output : list Z) (target : Target) : outcome (list Z) :=
  let output := output ++ be_bytes 2 (t_port target) in
  match parse_ipv4 (t_host target) with
  | Some ip => Ok (output ++ [1] ++ be_bytes 4 ip)
  | None =>
    match parse_ipv6 (t_host target) with
    | Some ip => Ok (output ++ [3] ++ be_bytes 16 ip)
    | None =>
      let host := str_bytes (t_host target) in
      n ← try_from_u 8 (len host) InvalidInput;
      Ok (output ++ [2] ++ [n] ++ host)
    end
  end.

Definition decode_target (input : list Z) : outcome (option (Target * Z)) :=
  if len input <? 3 then Ok None else
  b0 ← index input 0;
  b1 ← index input 1;
  let port := be_val [b0; b1] in
  kind ← index input 2;
  r ← (if kind =? 1 then
         if len input <? 7 then Ok None else
         o ← get_slice input 3 7;
         Ok (Some (show_ip (V4 (be_val o)), 7))
       else if kind =? 2 then
         if len input <? 4 then Ok None else
         length ← index input 3;
         if length =? 0 then Err InvalidData else
         if len input <? 4 + length then Ok None else
         name ← get_slice input 4 (4 + length);
         host ← ok_or (from_utf8 name) InvalidData;
         Ok (Some (host, 4 + length))
       else if kind =? 3 then
         if len input <? 19 then Ok None else
         o ← get_slice input 3 19;
         Ok (Some (show_ip (V6 (be_val o)), 19))
       else Err InvalidData : outcome (option (string * Z)));
  match r with
  | None => Ok None
  | Some (host, consumed) => t ← Target_new host port; Ok (Some (t, consumed))
  end.

Definition encode_flow_open (session_key : list Z) (open : FlowOpen) (padding_len : Z)
  : outcome (list Z) :=
  if MAX_PADDING_BYTES <? padding_len then Err InvalidInput else
  let frame := str_bytes "YF" ++ [VERSION] ++ [FlowKind_u8 (fo_kind open)]
               ++ be_bytes 8 (fo_flow_id open) in
  frame ← encode_target frame (fo_target open);
  p ← try_from_u 16 padding_len InvalidInput;
  let frame := frame ++ be_bytes 2 p in
  let frame := extend_deterministic_padding session_key (str_bytes "young/flow-padding/v1")
                 [be_bytes 8 (fo_flow_id open)] frame padding_len in
  let tag := hmac_tag session_key [str_bytes "young/flow-open/v1"; frame] in
  tag16 ← get_slice tag 0 FLOW_TAG_BYTES;
  Ok (frame ++ tag16).

Definition decode_flow_open_inner (session_key : list Z) (scheme : option PaddingScheme)
    (input : list Z) : outcome (option (FlowOpen * Z)) :=
  let FIXED := 2 + 1 + 1 + 8 in
  if len input <? FIXED then Ok None else
  magic ← get_slice input 0 2;
  version ← index input 2;
  if negb (bool_decide (magic = str_bytes "YF")) || negb (version =? VERSION)
  then Err InvalidData else
  k ← index input 3;
  kind ← FlowKind_try_from k;
  id ← get_slice input 4 12;
  let flow_id := be_val id in
  rest ← get_slice input 12 (len input);
  tgt ← decode_target rest;
  match tgt with
  | None => Ok None
  | Some (target, target_bytes) =>
    let padding_offset := 12 + target_bytes in
    if len input <? padding_offset + 2 then Ok None else
    pl ← get_slice input padding_offset (padding_offset + 2);
    let padding_len := be_val pl in
    if MAX_PADDING_BYTES <? padding_len then Err InvalidData else
    let authenticated_len := padding_offset + 2 + padding_len in
    let total := authenticated_len + FLOW_TAG_BYTES in
    if len input <? total then Ok None else
    authenticated ← get_slice input 0 authenticated_len;
    tag ← get_slice input authenticated_len total;
    _ ← verify_hmac_truncated session_key [str_bytes "young/flow-open/v1"; authenticated] tag;
    _ ← match scheme with
        | None => Ok tt
        | Some scheme =>
          expected_padding ← padding_for scheme ClientToServer flow_id;
          if negb (padding_len =? expected_padding) then Err InvalidData else
          padding ← get_slice input (padding_offset + 2) authenticated_len;
          verify_deterministic_padding session_key (str_bytes "young/flow-padding/v1")
            [be_bytes 8 flow_id] padding
        end;
    Ok (Some (mkFlowOpen kind flow_id target, total))
  end.

Definition decode_flow_open (session_key input : list Z) : outcome (option (FlowOpen * Z)) :=
  decode_flow_open_inner session_key None input.

Definition decode_flow_open_padded (session_key : list Z) (scheme : PaddingScheme)
    (input : list Z) : outcome (option (FlowOpen * Z)) :=
  decode_flow_open_inner session_key (Some scheme) input.

Definition encode_flow_response (session_key : list Z) (response : FlowResponse) : list Z :=
  let output := str_bytes "YR" ++ [VERSION] ++ [Status_u8 (fr_status response)]
                ++ be_bytes 8 (fr_flow_id response) in
  let tag := hmac_tag session_key [str_bytes "young/flow-response/v1"; output] in
  output ++ slice tag 0 FLOW_TAG_BYTES.

Definition decode_flow_response (session_key input : list Z)
  : outcome (option (FlowResponse * Z)) :=
  if len input <? FLOW_RESPONSE_BYTES then Ok None else
  magic ← get_slice input 0 2;
  version ← index input 2;
  if negb (bool_decide (magic = str_bytes "YR")) || negb (version =? VERSION)
  then Err InvalidData else
  signed ← get_slice input 0 12;
  tag ← get_slice input 12 FLOW_RESPONSE_BYTES;
  _ ← verify_hmac_truncated session_key [str_bytes "young/flow-response/v1"; signed] tag;
  st ← index input 3;
  status ← Status_try_from st;
  id ← get_slice input 4 12;
  Ok (Some (mkFlowResponse status (be_val id), FLOW_RESPONSE_BYTES)).

(** ** What a target looks like on the other side

    A host that is the text of an address travels as the address, so the peer
    sees its canonical spelling; any other host travels verbatim. *)

Definition canonical_host (host : string) : string :=
  match parse_ipv4 host with
  | Some a => show_ipv4 a
  | None => match parse_ipv6 host with Some a => show_ipv6 a | None => host end
  end.

Definition canonical_target (t : Target) : Target := mkTarget (canonical_host (t_host t)) (t_port t).

(** What [Target::new] and the type [String] guarantee of a target. *)
Definition target_ok (t : Target) : Prop :=
  1 <= t_port t < 65536
  /\ 1 <= str_len (t_host t) <= 253
  /\ 0 ∉ str_bytes (t_host t)
  /\ utf8_valid (str_bytes (t_host t)) = true.

(** Encoded form of a well-formed target. *)
Definition target_bytes (t : Target) : list Z :=
  be_bytes 2 (t_port t) ++
  match parse_ipv4 (t_host t) with
  | Some ip => [1] ++ be_bytes 4 ip
  | None => match parse_ipv6 (t_host t) with
            | Some ip => [3] ++ be_bytes 16 ip
            | None => [2] ++ [str_len (t_host t)] ++ str_bytes (t_host t)
            end
  end.

Lemma existsb_zero l : existsb (Z.eqb 0) l = false <-> 0 ∉ l.
Proof.
  rewrite <- not_true_iff_false, existsb_exists, list_elem_of_In.
  split; intros Hn Hin; apply Hn; [exists 0; split; [done|lia]|].
  destruct Hin as (x & Hx & E). by replace 0 with x by lia.
Qed.

Lemma Target_new_ok host port :
  port <> 0 -> 1 <= str_len host <= 253 -> 0 ∉ str_bytes host ->
  Target_new host port = Ok (mkTarget host port).
Proof.
  intros Hp Hl Hz. unfold Target_new. apply existsb_zero in Hz. rewrite Hz.
  destruct (port =? 0) eqn:?; [lia|].
  destruct ((str_len host =? 0) || (253 <? str_len host) || false) eqn:?; [lia|done].
Qed.

Lemma encode_target_ok output t :
  target_ok t -> encode_target output t = Ok (output ++ target_bytes t).
Proof.
  intros (_ & Hl & _ & _). unfold encode_target, target_bytes.
  destruct (parse_ipv4 (t_host t)); [by rewrite <- app_assoc|].
  destruct (parse_ipv6 (t_host t)); [by rewrite <- app_assoc|].
  unfold try_from_u. unfold str_len in *. destruct (len _ <? 2 ^ 8) eqn:E.
  - cbn. by rewrite <- app_assoc.
  - change (2 ^ 8) with 256 in E. lia.
Qed.

Lemma len_target_bytes t : 3 <= len (target_bytes t).
Proof.
  unfold target_bytes. destruct (parse_ipv4 _); [lens|]. destruct (parse_ipv6 _); [lens|].
  pose proof (len_nonneg (str_bytes (t_host t))). lens.
Qed.

Lemma be_bytes_2 z : 0 <= z < 65536 -> exists a b, be_bytes 2 z = [a; b] /\ be_val [a; b] = z.
Proof.
  intros Hz. pose proof (be_val_be_bytes_small 2 z ltac:(change (256 ^ Z.of_nat 2) with 65536; lia)) as E.
  pose proof (length_be_bytes 2 z) as L.
  destruct (be_bytes 2 z) as [|a [|b []]]; try discriminate. by exists a, b.
Qed.

(** Decoding the first [m] bytes of an encoded target followed by anything:
    complete exactly when the target is. *)
Lemma decode_target_prefix t rest m :
  target_ok t -> 0 <= m <= len (target_bytes t ++ rest) ->
  decode_target (take (Z.to_nat m) (target_bytes t ++ rest))
  = Ok (if len (target_bytes t) <=? m then Some (canonical_target t, len (target_bytes t)) else None).
Proof.
  intros (Hp & Hl & Hz & Hu) Hm.
  destruct (be_bytes_2 (t_port t)) as (p0 & p1 & Ep & Vp); [lia|].
  unfold decode_target. rewrite !(len_take m) by lia.
  destruct (Z.ltb_spec m 3) as [Hlt|Hge].
  { pose proof (len_target_bytes t). rewrite (proj2 (Z.leb_gt _ _)) by lia. done. }
  unfold target_bytes, canonical_target, canonical_host in *. rewrite Ep in *.
  destruct (parse_ipv4 (t_host t)) as [a|] eqn:E4; [|destruct (parse_ipv6 (t_host t)) as [a|] eqn:E6].
  - pose proof (parse_ipv4_range _ _ E4) as Ra. destruct (show_ipv4_text a Ra) as [Rl Rz].
    repeat slice_step. cbn [mbind outcome_bind]. rewrite Vp. cbn.
    destruct (Z.ltb_spec m 7).
    + cbn. rewrite (proj2 (Z.leb_gt _ _)) by lens. done.
    + repeat guard_step. repeat slice_step. cbn.
      unfold uint in Ra. rewrite be_val_be_bytes_small by (change (256 ^ Z.of_nat 4) with (2 ^ 32); lia).
      rewrite Target_new_ok by (try done; lia). cbn. by rewrite (proj2 (Z.leb_le _ _)) by lens.
  - pose proof (parse_ipv6_range _ _ E6) as Ra. destruct (show_ipv6_text a Ra) as [Rl Rz].
    repeat slice_step. cbn [mbind outcome_bind]. rewrite Vp. cbn.
    destruct (Z.ltb_spec m 19).
    + cbn. rewrite (proj2 (Z.leb_gt _ _)) by lens. done.
    + repeat guard_step. repeat slice_step. cbn.
      unfold uint in Ra. rewrite be_val_be_bytes_small by (change (256 ^ Z.of_nat 16) with (2 ^ 128); lia).
      rewrite Target_new_ok by (try done; lia). cbn. by rewrite (proj2 (Z.leb_le _ _)) by lens.
  - unfold str_len in *. repeat slice_step. cbn [mbind outcome_bind]. rewrite Vp. cbn.
    destruct (Z.ltb_spec m 4).
    + cbn. rewrite (proj2 (Z.leb_gt _ _)) by lens. done.
    + repeat slice_step. cbn.
      repeat guard_step.
      destruct (Z.ltb_spec m (4 + len (str_bytes (t_host t)))).
      * cbn. rewrite (proj2 (Z.leb_gt _ _)) by lens. done.
      * repeat guard_step. repeat slice_step. cbn. rewrite from_utf8_bytes by done. cbn.
        rewrite Target_new_ok by (try done; unfold str_len; lia). cbn.
        rewrite (proj2 (Z.leb_le _ _)) by lens. do 4 f_equal. lens.
Qed.

(** ** FlowOpen *)

Definition flow_open_ok (o : FlowOpen) : Prop := u64 (fo_flow_id o) /\ target_ok (fo_target o).

Definition canonical_open (o : FlowOpen) : FlowOpen :=
  mkFlowOpen (fo_kind o) (fo_flow_id o) (canonical_target (fo_target o)).

Definition flow_open_body (session_key : list Z) (o : FlowOpen) (p : Z) : list Z :=
  (str_bytes "YF" ++ [VERSION] ++ [FlowKind_u8 (fo_kind o)] ++ be_bytes 8 (fo_flow_id o))
  ++ target_bytes (fo_target o) ++ be_bytes 2 p
  ++ xof_fill session_key (str_bytes "young/flow-padding/v1" ++ concat [be_bytes 8 (fo_flow_id o)])
       0 (Z.to_nat p).

Definition flow_open_frame (session_key : list Z) (o : FlowOpen) (p : Z) : list Z :=
  let body := flow_open_body session_key o p in
  body ++ slice (hmac_tag session_key [str_bytes "young/flow-open/v1"; body]) 0 16.

Lemma len_flow_open_body session_key o p :
  0 <= p -> len (flow_open_body session_key o p) = 14 + len (target_bytes (fo_target o)) + p.
Proof. intros. unfold flow_open_body. lens. Qed.

Lemma encode_flow_open_eq session_key o p :
  flow_open_ok o -> 0 <= p <= 4096 ->
  encode_flow_open session_key o p = Ok (flow_open_frame session_key o p).
Proof.
  intros [_ Ht] Hp. unfold encode_flow_open, MAX_PADDING_BYTES. guard_step.
  rewrite encode_target_ok by done. cbn [mbind outcome_bind].
  unfold try_from_u. change (2 ^ 16) with 65536. guard_step. cbn [mbind outcome_bind].
  rewrite extend_padding_eq by lia. rewrite <- !app_assoc.
  change FLOW_TAG_BYTES with 16. rewrite get_slice_ok by (unfold len; rewrite ?length_hmac_tag; lia).
  cbn [mbind outcome_bind]. unfold flow_open_frame, flow_open_body. by rewrite <- !app_assoc.
Qed.

Lemma FlowKind_roundtrip k : FlowKind_try_from (FlowKind_u8 k) = Ok k.
Proof. by destruct k. Qed.

(** Where the fields of a frame are in a buffer that starts with it. *)
Lemma flow_open_layout session_key o p rest L T :
  L = flow_open_frame session_key o p ++ rest -> 0 <= p -> T = len (target_bytes (fo_target o)) ->
  len L = 30 + T + p + len rest
  /\ slice L 0 2 = str_bytes "YF" /\ index L 2 = Ok VERSION
  /\ index L 3 = Ok (FlowKind_u8 (fo_kind o)) /\ slice L 4 12 = be_bytes 8 (fo_flow_id o)
  /\ (exists K, drop (Z.to_nat 12) L = target_bytes (fo_target o) ++ K /\ len K = 18 + p + len rest)
  /\ slice L (12 + T) (12 + T + 2) = be_bytes 2 p
  /\ slice L 0 (12 + T + 2 + p) = flow_open_body session_key o p
  /\ slice L (12 + T + 2) (12 + T + 2 + p)
     = xof_fill session_key (str_bytes "young/flow-padding/v1" ++ concat [be_bytes 8 (fo_flow_id o)])
         0 (Z.to_nat p)
  /\ slice L (12 + T + 2 + p) (12 + T + 2 + p + 16)
     = slice (hmac_tag session_key [str_bytes "young/flow-open/v1"; flow_open_body session_key o p]) 0 16.
Proof.
  intros -> Hp ->. pose proof (len_target_bytes (fo_target o)).
  pose proof (len_flow_open_body session_key o p Hp) as Hb. unfold flow_open_frame.
  pose proof (len_hmac_prefix session_key [str_bytes "young/flow-open/v1"; flow_open_body session_key o p]) as Htag.
  set (tag := slice (hmac_tag _ _) 0 16) in *.
  assert (slice ((flow_open_body session_key o p ++ tag) ++ rest) 0
            (12 + len (target_bytes (fo_target o)) + 2 + p) = flow_open_body session_key o p) as HB
    by (repeat slice_step; done).
  assert (len ((flow_open_body session_key o p ++ tag) ++ rest)
          = 30 + len (target_bytes (fo_target o)) + p + len rest) as HL by lens.
  rewrite HB, HL. clear HB HL. unfold flow_open_body in *. rewrite <- !app_assoc.
  split_and!; try (repeat slice_step; done).
  exists (be_bytes 2 p ++ xof_fill session_key (str_bytes "young/flow-padding/v1"
            ++ concat [be_bytes 8 (fo_flow_id o)]) 0 (Z.to_nat p) ++ tag ++ rest).
  split; [|lens].
  rewrite (app_assoc [FlowKind_u8 _]), (app_assoc [VERSION]), (app_assoc (str_bytes "YF")).
  apply drop_app_length'. rewrite !length_app, length_be_bytes. reflexivity.
Qed.

(** Every prefix of an encoded FlowOpen followed by other stream bytes: the
    decoder waits until the frame is complete and then returns it, its target in
    canonical form, consuming exactly the frame. *)
Lemma decode_flow_open_prefix session_key scheme o p rest m :
  flow_open_ok o -> 0 <= p <= 4096 ->
  match scheme with
  | None => True
  | Some s => padding_for s ClientToServer (fo_flow_id o) = Ok p
  end ->
  0 <= m <= len (flow_open_frame session_key o p ++ rest) ->
  decode_flow_open_inner session_key scheme (take (Z.to_nat m) (flow_open_frame session_key o p ++ rest))
  = Ok (if len (flow_open_frame session_key o p) <=? m
        then Some (canonical_open o, len (flow_open_frame session_key o p)) else None).
Proof.
  intros [Hid Ht] Hp Hs Hm.
  remember (flow_open_frame session_key o p ++ rest) as L eqn:EL.
  remember (len (target_bytes (fo_target o))) as T eqn:ET.
  destruct (flow_open_layout _ _ _ _ L T EL (proj1 Hp) ET)
    as (HL & F1 & F2 & F3 & F4 & (K & HK & LK) & F5 & F6 & F7 & F8).
  replace (len (flow_open_frame session_key o p)) with (30 + T + p)
    by (rewrite EL, len_app in HL; lia).
  unfold decode_flow_open_inner. rewrite !(len_take m) by lia.
  destruct (Z.ltb_spec m (2 + 1 + 1 + 8)) as [Hlt|Hge].
  { pose proof (len_nonneg (target_bytes (fo_target o))). by rewrite (proj2 (Z.leb_gt _ _)) by lia. }
  rewrite (get_slice_ok _ 0 2), (get_slice_ok _ 4 12), (get_slice_ok _ 12 m) by lens.
  rewrite (slice_take_app_eq L m 12 _) by (lia || exact HK).
  rewrite !slice_take, !index_take, F1, F2, F3, F4 by lia.
  cbn [mbind outcome_bind]. rewrite bool_decide_true by done. cbn [negb orb Z.eqb Pos.eqb VERSION].
  rewrite FlowKind_roundtrip. cbn [mbind outcome_bind].
  rewrite be_val_be_bytes_small by apply Hid.
  rewrite decode_target_prefix by (done || lens). cbn [mbind outcome_bind]. rewrite <- ET.
  destruct (Z.leb_spec T (m - 12)) as [HT|HT]; [|by rewrite (proj2 (Z.leb_gt _ _)) by lia].
  destruct (Z.ltb_spec m (12 + T + 2)) as [H2|H2]; [by rewrite (proj2 (Z.leb_gt _ _)) by lia|].
  pose proof (len_nonneg (target_bytes (fo_target o))).
  rewrite get_slice_ok, slice_take, F5 by lens. cbn [mbind outcome_bind].
  rewrite be_val_be_bytes_small by (change (256 ^ Z.of_nat 2) with 65536; lia).
  unfold MAX_PADDING_BYTES, FLOW_TAG_BYTES. rewrite (proj2 (Z.ltb_ge 4096 p)) by lia.
  destruct (Z.ltb_spec m (12 + T + 2 + p + 16)) as [H3|H3]; [by rewrite (proj2 (Z.leb_gt _ _)) by lia|].
  rewrite !get_slice_ok, !slice_take, F6, F7, F8 by lens. cbn [mbind outcome_bind].
  rewrite verify_hmac_truncated_spec, bool_decide_true by (done || apply len_hmac_prefix).
  cbn [mbind outcome_bind]. rewrite (proj2 (Z.leb_le _ _)) by lia.
  replace (12 + T + 2 + p + 16) with (30 + T + p) by lia.
  destruct scheme as [s|]; [|done].
  rewrite Hs. cbn [mbind outcome_bind]. rewrite Z.eqb_refl. cbn [negb].
  by rewrite verify_deterministic_padding_spec, length_xof_fill, bool_decide_true by done.
Qed.

(** ** Untrusted input *)

Lemma Target_new_no_panic h p : no_panic (Target_new h p).
Proof. unfold Target_new. np. Qed.
#[local] Hint Resolve Target_new_no_panic : wuther.

Lemma decode_target_no_panic input : bytes_ok input -> no_panic (decode_target input).
Proof.
  intros Hb. unfold decode_target. np; (pose proof (index_bytes_ok input 3 _ Hb ltac:(eassumption)) as Hu; unfold uint in Hu; lia).
Qed.

Lemma decode_target_consumed input t n :
  bytes_ok input -> decode_target input = Ok (Some (t, n)) -> 0 <= n <= len input.
Proof.
  intros Hb Hd. unfold decode_target in Hd. inv_ok; try lia.
  pose proof (index_bytes_ok input 3 _ Hb ltac:(eassumption)) as Hu. unfold uint in Hu. lia.
Qed.

Ltac target_fact Hb :=
  match goal with
  | Ht : decode_target ?r = Ok (Some _), Hr : get_slice _ _ _ = Ok ?r |- _ =>
    pose proof (decode_target_consumed r _ _ (proj1 (get_slice_bytes_ok _ _ _ _ Hb Hr)) Ht)
  end.

Lemma decode_flow_open_inner_no_panic session_key scheme input :
  bytes_ok input -> match scheme with Some s => scheme_ok s | None => True end ->
  no_panic (decode_flow_open_inner session_key scheme input).
Proof.
  intros Hb Hs. unfold decode_flow_open_inner, MAX_PADDING_BYTES, FLOW_TAG_BYTES. np; be_facts.
  - unfold FlowKind_try_from. np.
  - apply decode_target_no_panic. by eapply get_slice_bytes_ok.
  - target_fact Hb. lia.
  - target_fact Hb. lia.
  - target_fact Hb. lia.
  - destruct (padding_for_ok p0 ClientToServer (be_val a3) Hs ltac:(lia)) as (q & -> & _). done.
  - target_fact Hb. lia.
Qed.

(** An accepted FlowOpen lies within the buffer and carries the session's MAC. *)
Lemma decode_flow_open_inner_accepted session_key scheme input o n :
  bytes_ok input -> decode_flow_open_inner session_key scheme input = Ok (Some (o, n)) ->
  30 <= n <= len input /\ u64 (fo_flow_id o)
  /\ slice input (n - 16) n
     = slice (hmac_tag session_key [str_bytes "young/flow-open/v1"; slice input 0 (n - 16)]) 0 16
  /\ match scheme with
     | None => True
     | Some s => exists p, padding_for s ClientToServer (fo_flow_id o) = Ok p
         /\ slice input (n - 16 - p) (n - 16)
            = xof_fill session_key (str_bytes "young/flow-padding/v1" ++ be_bytes 8 (fo_flow_id o))
                0 (Z.to_nat p)
     end.
Proof.
  intros Hb Hd. unfold decode_flow_open_inner, FLOW_TAG_BYTES in Hd. inv_ok; be_facts.
  all: target_fact Hb.
  all: match goal with
  | Hv : verify_hmac_truncated _ _ _ = Ok _ |- _ => apply verify_hmac_truncated_Ok in Hv as [_ Hv] end.
  all: match goal with
  | Hid : get_slice _ 4 12 = Ok _ |- _ =>
    pose proof (be_val_slice_range _ _ _ _ 8 Hb Hid eq_refl) end.
  all: change (256 ^ 8) with (2 ^ 64) in *.
  all: repeat match goal with Hs : get_slice _ _ _ = Ok _ |- _ => apply get_slice_inv in Hs as (? & ? & Hs); subst end.
  all: cbn [fo_flow_id]; rewrite ?Z.add_simpl_r.
  all: split_and!; try done; try lia.
  match goal with Hv : verify_deterministic_padding _ _ _ _ = _ |- _ =>
    rewrite verify_deterministic_padding_spec in Hv; case_bool_decide as Hpad; [|discriminate Hv] end.
  cbn [concat] in Hpad. rewrite app_nil_r in Hpad.
  eexists. split; [done|].
  set (v := be_val (slice input (12 + z) _)) in *. assert (x11 = v) as -> by lia.
  rewrite Z.add_simpl_r, Hpad. f_equal.
  pose proof (len_slice input (12 + z + 2) (12 + z + 2 + v) ltac:(lia) ltac:(lia)). unfold len in *. lia.
Qed.

(** ** FlowResponse *)

Lemma Status_roundtrip st : Status_try_from (Status_u8 st) = Ok st.
Proof. by destruct st. Qed.

Lemma len_encode_flow_response session_key r : len (encode_flow_response session_key r) = 28.
Proof. unfold encode_flow_response. change FLOW_TAG_BYTES with 16. lens. Qed.

Lemma decode_flow_response_prefix session_key r rest m :
  u64 (fr_flow_id r) -> 0 <= m <= len (encode_flow_response session_key r ++ rest) ->
  decode_flow_response session_key (take (Z.to_nat m) (encode_flow_response session_key r ++ rest))
  = Ok (if 28 <=? m then Some (r, 28) else None).
Proof.
  intros Hid Hm. pose proof (len_encode_flow_response session_key r) as Hl.
  unfold decode_flow_response. change FLOW_RESPONSE_BYTES with 28. rewrite !(len_take m) by lia.
  destruct (Z.ltb_spec m 28) as [Hlt|Hge]; [by rewrite (proj2 (Z.leb_gt _ _)) by lia|].
  rewrite (proj2 (Z.leb_le _ _)) by lia. rewrite len_app in Hm.
  rewrite !get_slice_ok by lens. rewrite !slice_take, !index_take by lia.
  unfold encode_flow_response. change FLOW_TAG_BYTES with 16.
  set (out := str_bytes "YR" ++ _). set (tag := slice (hmac_tag _ _) 0 16).
  assert (Htag : len tag = 16) by apply len_hmac_prefix.
  assert (Ho : slice ((out ++ tag) ++ rest) 0 12 = out) by (subst out; repeat slice_step; done).
  assert (Ht : slice ((out ++ tag) ++ rest) 12 28 = tag)
    by (assert (len out = 12) by (subst out; lens); repeat slice_step; done).
  rewrite Ho, Ht. subst out. rewrite <- !app_assoc. repeat slice_step. cbn [mbind outcome_bind].
  rewrite bool_decide_true by done. cbn [negb orb Z.eqb Pos.eqb VERSION].
  rewrite verify_hmac_truncated_spec, bool_decide_true by done. cbn [mbind outcome_bind].
  rewrite Status_roundtrip. cbn [mbind outcome_bind].
  rewrite be_val_be_bytes_small by apply Hid. by destruct r.
Qed.

Lemma decode_flow_response_no_panic session_key input :
  bytes_ok input -> no_panic (decode_flow_response session_key input).
Proof.
  intros Hb. unfold decode_flow_response. change FLOW_RESPONSE_BYTES with 28. np.
  unfold Status_try_from. np.
Qed.
(** ** Claims *)

(** [C9] A FlowOpen written by [encode_flow_open] and followed by any stream bytes
    is decoded, plain or padded, from every prefix of the stream: the decoder asks
    for more bytes exactly while the frame is incomplete, then yields the same flow
    (target in canonical spelling) and consumes exactly the frame's bytes. *)
Theorem flow_open_stream_roundtrip session_key scheme o p :
  flow_open_ok o -> 0 <= p <= 4096 ->
  match scheme with
  | None => True
  | Some s => padding_for s ClientToServer (fo_flow_id o) = Ok p
  end ->
  exists frame, encode_flow_open session_key o p = Ok frame /\
    forall rest m, 0 <= m <= len (frame ++ rest) ->
    decode_flow_open_inner session_key scheme (take (Z.to_nat m) (frame ++ rest))
    = Ok (if len frame <=? m then Some (canonical_open o, len frame) else None).
Proof.
  intros Ho Hp Hs. exists (flow_open_frame session_key o p).
  split; [by apply encode_flow_open_eq|]. intros. by apply decode_flow_open_prefix.
Qed.

(** On arbitrary bytes from the network the FlowOpen decoder never panics; and
    a frame it accepts lies inside the buffer, ends in the truncated HMAC of all the
    bytes before the tag under the session key, and on a padded path carries exactly
    the scheme's amount of the session's deterministic padding. *)
Theorem flow_open_untrusted_input session_key scheme input :
  bytes_ok input -> match scheme with Some s => scheme_ok s | None => True end ->
  no_panic (decode_flow_open_inner session_key scheme input)
  /\ forall o n, decode_flow_open_inner session_key scheme input = Ok (Some (o, n)) ->
     30 <= n <= len input /\ u64 (fo_flow_id o)
     /\ slice input (n - 16) n
        = slice (hmac_tag session_key [str_bytes "young/flow-open/v1"; slice input 0 (n - 16)]) 0 16
     /\ match scheme with
        | None => True
        | Some s => exists p, padding_for s ClientToServer (fo_flow_id o) = Ok p
            /\ slice input (n - 16 - p) (n - 16)
               = xof_fill session_key (str_bytes "young/flow-padding/v1" ++ be_bytes 8 (fo_flow_id o))
                   0 (Z.to_nat p)
        end.
Proof.
  intros Hb Hs. split; [by apply decode_flow_open_inner_no_panic|].
  intros o n. by apply decode_flow_open_inner_accepted.
Qed.

(** A FlowResponse round-trips through every prefix of the byte stream, for
    each of the six statuses: nothing is reported before its 28 bytes are there. *)
Theorem flow_response_stream_roundtrip session_key r rest m :
  u64 (fr_flow_id r) -> 0 <= m <= len (encode_flow_response session_key r ++ rest) ->
  decode_flow_response session_key (take (Z.to_nat m) (encode_flow_response session_key r ++ rest))
  = Ok (if 28 <=? m then Some (r, 28) else None).
Proof. apply decode_flow_response_prefix. Qed.
End Codec.

(** ** Witnesses *)

Module FlowWitness.
Import Concrete.

Definition key : list Z := small_range 32.
Definition open : FlowOpen := mkFlowOpen Udp 5 (mkTarget "example.com" 443).
Definition scheme : PaddingScheme := mkPaddingScheme [3; 9] (Some [70; 2]).

Lemma flow_scheme_is_ok : scheme_ok scheme.
Proof. unfold scheme_ok, entries_ok, scheme, len. cbn. repeat split; try lia; repeat constructor; lia. Qed.

Lemma target_is_ok : target_ok (fo_target open).
Proof.
  unfold target_ok. split; [cbn; lia|]. split; [vm_compute; by split|].
  split; [apply existsb_zero; reflexivity|vm_compute; reflexivity].
Qed.

Lemma flow_open_stream_roundtrip_witness :
  exists frame, encode_flow_open key open 9 = Ok frame /\
    decode_flow_open_inner key (Some scheme) frame = Ok (Some (canonical_open open, len frame))
    /\ decode_flow_open_inner key (Some scheme) (take 50 frame) = Ok None.
Proof.
  destruct (flow_open_stream_roundtrip key (Some scheme) open 9) as (frame & E & Hd).
  - split; [unfold uint; cbn; lia|exact target_is_ok].
  - lia.
  - vm_compute. reflexivity.
  - exists frame. split; [exact E|].
    assert (L : len frame = 54) by (vm_compute in E; injection E as <-; reflexivity).
    split.
    + specialize (Hd [] (len frame)). rewrite app_nil_r in Hd. rewrite L in *.
      rewrite take_ge in Hd by (unfold len in L; lia). apply Hd. lia.
    + specialize (Hd [] 50). rewrite app_nil_r in Hd. rewrite L in *. apply Hd. lia.
Defined.

Lemma flow_open_untrusted_input_witness :
  no_panic (decode_flow_open_inner key (Some scheme) [89; 70; 1; 1]).
Proof.
  apply (flow_open_untrusted_input key (Some scheme) [89; 70; 1; 1]).
  - repeat constructor; unfold uint; lia.
  - exact flow_scheme_is_ok.
Defined.

Lemma flow_response_stream_roundtrip_witness :
  decode_flow_response key (take (Z.to_nat 28)
    (encode_flow_response key (mkFlowResponse StConnectFailed 77) ++ [1; 2]))
  = Ok (Some (mkFlowResponse StConnectFailed 77, 28)).
Proof.
  rewrite (flow_response_stream_roundtrip key (mkFlowResponse StConnectFailed 77) [1; 2] 28).
  - reflexivity.
  - unfold uint. cbn. lia.
  - rewrite len_app, len_encode_flow_response. pose proof (len_nonneg [1; 2]). lia.
Defined.
End FlowWitness.
