(* ===== verification/YoungData.v ===== *)
(** * Young wire protocol, part 3: padded TCP data frames

    Models [padding_cursor_for_flow], [encode_data_frames] and [decode_data_frame] of
    [src/crates/core-young/src/codec.rs] and the two receive loops that drive the
    decoder, [deliver_client_tcp_data] ([server.rs]) and [deliver_tcp_data]
    ([client.rs]).  The bounded tokio channel the payloads go to is the class
    [Channel]; its only law is that a successful [try_send] appends.

    The claim is a refinement: whatever way the network cuts the sender's frames
    into reads, the bytes that reach the application are a prefix of the bytes the
    sender was given, and all of them once every read was accepted. *)

From stdpp Require Import base list gmap strings numbers option.
From S2P Require Import Prelude Net YoungBase Instances.

(** [mpsc::Sender<Vec<u8>>]: [try_send] is [None] when the channel is full or closed. *)
Class Channel := {
  Chan : Type;
  try_send : Chan -> list Z -> option Chan;
  sent : Chan -> list (list Z);
  try_send_sent : forall c x c', try_send c x = Some c' -> sent c' = sent c ++ [x]
}.

(** [iter.map(f).collect::<io::Result<Vec<_>>>()] for a closure [f] that also
    updates captured variables [s]. *)
Fixpoint collect_state {S A B} (f : S -> A -> outcome (B * S)) (s : S) (l : list A)
  : outcome (list B * S) :=
  match l with
  | [] => Ok ([], s)
  | x :: l' => r ← f s x; rs ← collect_state f r.2 l'; Ok (r.1 :: rs.1, rs.2)
  end.

Record DataFrame : Type := mkDataFrame { df_sequence : Z; df_payload : list Z }.

(** The two counters a data stream threads through its calls: [sequence] and
    [padding_cursor].  Both functions below write them only when they succeed. *)
Record DataCursor : Type := mkDataCursor { dc_sequence : Z; dc_cursor : Z }.

Definition padding_cursor_for_flow (scheme : PaddingScheme) (direction : PaddingDirection)
    (flow_id : Z) : outcome Z :=
  let frame_seed := match direction with
                    | ClientToServer => wrapping_add 64 flow_id 1
                    | ServerToClient => flow_id
                    end in
  let n := len (scheme_entries scheme direction) in
  if n =? 0 then Panic else Ok (frame_seed mod n).

Section Data.
Context `{YoungCrypto}.
Variable session_key : list Z.
Variable scheme : PaddingScheme.
Variable direction : PaddingDirection.
Variable flow_id : Z.

Definition encode_data_step (st : DataCursor) (chunk : list Z) : outcome (list Z * DataCursor) :=
  let entries := scheme_entries scheme direction in
  padding_len ← index entries (dc_cursor st);
  let frame := str_bytes "YP" ++ [VERSION] ++ [0] ++ be_bytes 8 (dc_sequence st) in
  n ← try_from_u 16 (len chunk) InvalidInput;
  let frame := frame ++ be_bytes 2 n in
  p ← try_from_u 16 padding_len InvalidInput;
  let frame := frame ++ be_bytes 2 p in
  let frame := frame ++ chunk in
  let frame := extend_deterministic_padding session_key (tcp_padding_domain direction)
                 [be_bytes 8 flow_id; be_bytes 8 (dc_sequence st)] frame padding_len in
  next_sequence ← ok_or (checked_add 64 (dc_sequence st) 1) InvalidInput;
  let next_cursor := dc_cursor st + 1 in
  let next_cursor := if next_cursor =? len entries then 0 else next_cursor in
  Ok (frame, mkDataCursor next_sequence next_cursor).

Definition encode_data_frames (st : DataCursor) (payload : list Z)
  : outcome (list (list Z) * DataCursor) :=
  if len payload =? 0 then Ok ([], st) else
  collect_state encode_data_step st (chunks MAX_DATA_PAYLOAD_BYTES payload).

Definition decode_data_frame (st : DataCursor) (input : list Z)
  : outcome (option (DataFrame * Z) * DataCursor) :=
  if len input <? DATA_FRAME_HEADER_BYTES then Ok (None, st) else
  magic ← get_slice input 0 2;
  version ← index input 2;
  flags ← index input 3;
  if negb (bool_decide (magic = str_bytes "YP")) || negb (version =? VERSION) || negb (flags =? 0)
  then Err InvalidData else
  sq ← get_slice input 4 12;
  let sequence := be_val sq in
  pl ← get_slice input 12 14;
  let payload_len := be_val pl in
  pd ← get_slice input 14 16;
  let padding_len := be_val pd in
  if negb (sequence =? dc_sequence st) then Err InvalidData else
  if (payload_len =? 0) || (MAX_DATA_PAYLOAD_BYTES <? payload_len) then Err InvalidData else
  let entries := scheme_entries scheme direction in
  expected ← index entries (dc_cursor st);
  if negb (padding_len =? expected) then Err InvalidData else
  frame_len ← ok_or (l ← checked_add 64 DATA_FRAME_HEADER_BYTES payload_len;
                     checked_add 64 l padding_len) InvalidData;
  if len input <? frame_len then Ok (None, st) else
  padding ← get_slice input (DATA_FRAME_HEADER_BYTES + payload_len) frame_len;
  _ ← verify_deterministic_padding session_key (tcp_padding_domain direction)
        [be_bytes 8 flow_id; be_bytes 8 sequence] padding;
  payload ← get_slice input DATA_FRAME_HEADER_BYTES (DATA_FRAME_HEADER_BYTES + payload_len);
  expected_sequence ← ok_or (checked_add 64 (dc_sequence st) 1) InvalidData;
  let padding_cursor := dc_cursor st + 1 in
  let padding_cursor := if padding_cursor =? len entries then 0 else padding_cursor in
  Ok (Some (mkDataFrame sequence payload, frame_len), mkDataCursor expected_sequence padding_cursor).
End Data.

(** ** The receive loops

    The part of [ServerStream] / [ClientFlow] the loops use.  A failed decode ends
    the loop with the frames already handed over. *)
Section Deliver.
Context `{YoungCrypto} `{Channel}.

Record RecvFlow : Type := mkRecvFlow {
  rf_target : option Chan;
  rf_padded_data : bool;
  rf_flow_id : option Z;
  rf_receive : DataCursor;
  rf_data_buffer : list Z
}.

(** [loop { .. }]: [None] when the fuel is used up, which [deliver_loop_total] excludes. *)
Fixpoint deliver_loop (fuel : nat) (session_key : list Z) (scheme : PaddingScheme)
    (direction : PaddingDirection) (flow_id : Z) (target : Chan) (st : DataCursor) (buf : list Z)
  : option (outcome bool * (Chan * DataCursor * list Z)) :=
  match fuel with
  | O => None
  | S fuel' =>
    match decode_data_frame session_key scheme direction flow_id st buf with
    | Ok (Some (frame, consumed), st') =>
      let buf' := drop (Z.to_nat consumed) buf in
      match try_send target (df_payload frame) with
      | None => Some (Ok true, (target, st', buf'))
      | Some target' => deliver_loop fuel' session_key scheme direction flow_id target' st' buf'
      end
    | Ok (None, st') => Some (Ok false, (target, st', buf))
    | Err e => Some (Err e, (target, st, buf))
    | Panic => Some (Panic, (target, st, buf))
    end
  end.

Definition deliver (direction : PaddingDirection) (no_target : bool) (flow_id : Z)
    (flow : RecvFlow) (session_key : list Z) (scheme : PaddingScheme) (data : list Z)
  : option (outcome bool * RecvFlow) :=
  match rf_target flow with
  | None => Some (Ok no_target, flow)
  | Some target =>
    if negb (rf_padded_data flow) then
      match try_send target data with
      | None => Some (Ok true, flow)
      | Some t => Some (Ok false, mkRecvFlow (Some t) (rf_padded_data flow) (rf_flow_id flow)
                                    (rf_receive flow) (rf_data_buffer flow))
      end
    else
      let buf := rf_data_buffer flow ++ data in
      r ← deliver_loop (S (length buf)) session_key scheme direction flow_id target (rf_receive flow) buf;
      let '(res, (t, st, buf)) := r in
      Some (res, mkRecvFlow (Some t) (rf_padded_data flow) (rf_flow_id flow) st buf)
  end.

(** [server.rs]: the flow id is known once the flow is open; without a target the
    stream is to be reset. *)
Definition deliver_client_tcp_data (flow : RecvFlow) (session_key : list Z) (scheme : PaddingScheme)
    (data : list Z) : option (outcome bool * RecvFlow) :=
  deliver ClientToServer true (default 0 (rf_flow_id flow)) flow session_key scheme data.

(** [client.rs]: a flow without an application channel is skipped. *)
Definition deliver_tcp_data (flow : RecvFlow) (session_key : list Z) (scheme : PaddingScheme)
    (payload : list Z) : option (outcome bool * RecvFlow) :=
  deliver ServerToClient false (default 0 (rf_flow_id flow)) flow session_key scheme payload.
End Deliver.

(** ** Frames on the wire *)

Lemma len_YP : len (str_bytes "YP") = 2.
Proof. reflexivity. Qed.
#[global] Hint Rewrite len_YP : len_db.

Section Wire.
Context `{YoungCrypto}.
Variable session_key : list Z.
Variable scheme : PaddingScheme.
Variable direction : PaddingDirection.
Variable flow_id : Z.
Hypothesis Hscheme : scheme_ok scheme.

Let entries := scheme_entries scheme direction.
Let encode_step := encode_data_step session_key scheme direction flow_id.
Let decode := decode_data_frame session_key scheme direction flow_id.

Definition cursor_ok (st : DataCursor) : Prop :=
  0 <= dc_sequence st < 2 ^ 64 /\ 0 <= dc_cursor st < len entries.

Definition frame_padding (st : DataCursor) : Z := default 0 (entries !! Z.to_nat (dc_cursor st)).

Definition advance (st : DataCursor) : DataCursor :=
  mkDataCursor (dc_sequence st + 1)
    (if dc_cursor st + 1 =? len entries then 0 else dc_cursor st + 1).

Definition frame_padding_bytes (st : DataCursor) : list Z :=
  xof_fill session_key (tcp_padding_domain direction
                        ++ concat [be_bytes 8 flow_id; be_bytes 8 (dc_sequence st)])
    0 (Z.to_nat (frame_padding st)).

Definition data_frame (st : DataCursor) (chunk : list Z) : list Z :=
  str_bytes "YP" ++ [VERSION] ++ [0] ++ be_bytes 8 (dc_sequence st) ++ be_bytes 2 (len chunk)
  ++ be_bytes 2 (frame_padding st) ++ chunk ++ frame_padding_bytes st.

Definition chunk_ok (c : list Z) : Prop := 1 <= len c <= 32768.

Lemma frame_padding_spec st :
  cursor_ok st -> index entries (dc_cursor st) = Ok (frame_padding st) /\ 1 <= frame_padding st <= 4096.
Proof.
  intros [_ Hc]. destruct (scheme_entries_ok scheme direction Hscheme) as [_ Hall].
  destruct (index_ok entries (dc_cursor st) Hc) as (x & Hx & Hin). unfold frame_padding.
  unfold index in Hx |- *. destruct (0 <=? dc_cursor st); [|done].
  destruct (entries !! Z.to_nat (dc_cursor st)); simplify_eq. split; [done|].
  rewrite List.Forall_forall in Hall. by apply Hall, list_elem_of_In.
Qed.

Lemma len_data_frame st chunk :
  cursor_ok st -> len (data_frame st chunk) = 16 + len chunk + frame_padding st.
Proof.
  intros Hst. destruct (frame_padding_spec st Hst) as [_ Hp].
  unfold data_frame, frame_padding_bytes. lens.
Qed.

Lemma advance_ok st : cursor_ok st -> dc_sequence st + 1 < 2 ^ 64 -> cursor_ok (advance st).
Proof.
  unfold cursor_ok, advance. cbn [dc_sequence dc_cursor]. intros [Hs Hc] Hn.
  destruct (dc_cursor st + 1 =? len entries) eqn:E; lia.
Qed.

Lemma encode_data_step_spec st chunk :
  cursor_ok st -> chunk_ok chunk ->
  encode_step st chunk
  = if dc_sequence st + 1 <? 2 ^ 64 then Ok (data_frame st chunk, advance st) else Err InvalidInput.
Proof.
  intros Hst Hc. destruct (frame_padding_spec st Hst) as [Hi Hp]. unfold chunk_ok in Hc.
  unfold encode_step, encode_data_step. fold entries. rewrite Hi. cbn [mbind outcome_bind].
  unfold try_from_u. change (2 ^ 16) with 65536. repeat guard_step. cbn [mbind outcome_bind].
  repeat guard_step. cbn [mbind outcome_bind].
  rewrite extend_padding_eq by lia. unfold checked_add.
  destruct (dc_sequence st + 1 <? 2 ^ 64); [|done].
  cbn [ok_or mbind outcome_bind]. unfold data_frame, frame_padding_bytes. by rewrite <- !app_assoc.
Qed.

(** Decoding any prefix of a frame followed by later bytes. *)
Lemma decode_data_frame_prefix st chunk rest m :
  cursor_ok st -> dc_sequence st + 1 < 2 ^ 64 -> chunk_ok chunk ->
  0 <= m <= len (data_frame st chunk ++ rest) ->
  decode st (take (Z.to_nat m) (data_frame st chunk ++ rest))
  = Ok (if len (data_frame st chunk) <=? m
        then (Some (mkDataFrame (dc_sequence st) chunk, len (data_frame st chunk)), advance st)
        else (None, st)).
Proof.
  intros Hst Hn Hc Hm. destruct (frame_padding_spec st Hst) as [Hi Hp]. unfold chunk_ok in Hc.
  pose proof (len_data_frame st chunk Hst) as HF. rewrite len_app in Hm.
  unfold decode, decode_data_frame. fold entries. change DATA_FRAME_HEADER_BYTES with 16.
  rewrite !(len_take m) by lens.
  destruct (Z.ltb_spec m 16) as [Hlt|Hge]; [by rewrite (proj2 (Z.leb_gt _ _)) by lia|].
  rewrite (get_slice_ok _ 0 2), (get_slice_ok _ 4 12), (get_slice_ok _ 12 14), (get_slice_ok _ 14 16) by lens.
  assert (Hpl : len (frame_padding_bytes st) = frame_padding st) by (unfold frame_padding_bytes; lens).
  rewrite HF. unfold data_frame. rewrite <- !app_assoc. repeat slice_step.
  cbn [mbind outcome_bind]. rewrite bool_decide_true by done.
  cbn [negb orb Z.eqb Pos.eqb VERSION].
  destruct Hst as [Hs Hcur]. pose proof Hs as Hs'. change (2 ^ 64) with (256 ^ Z.of_nat 8) in Hs'.
  rewrite !be_val_be_bytes_small by (done || (change (256 ^ Z.of_nat 2) with 65536; lia)).
  rewrite Z.eqb_refl. cbn [negb].
  rewrite (proj2 (Z.eqb_neq (len chunk) 0)) by lia.
  change MAX_DATA_PAYLOAD_BYTES with 32768. rewrite (proj2 (Z.ltb_ge 32768 (len chunk))) by lia.
  cbn [orb]. rewrite Hi. cbn [mbind outcome_bind]. rewrite Z.eqb_refl. cbn [negb].
  unfold checked_add. change (2 ^ 64) with 18446744073709551616 in *.
  repeat guard_step. cbn [mbind option_bind ok_or outcome_bind]. guard_step.
  cbn [ok_or mbind outcome_bind].
  destruct (Z.ltb_spec m (16 + len chunk + frame_padding st)) as [H1|H1];
    [by rewrite (proj2 (Z.leb_gt _ _)) by lia|].
  rewrite (proj2 (Z.leb_le _ _)) by lia.
  rewrite !get_slice_ok by lens. repeat slice_step. cbn [mbind outcome_bind].
  rewrite verify_deterministic_padding_spec, bool_decide_true by
    (unfold frame_padding_bytes; by rewrite length_xof_fill).
  cbn [mbind outcome_bind]. done.
Qed.

(** The byte stream of consecutive chunks. *)
Fixpoint wire (st : DataCursor) (cs : list (list Z)) : list Z :=
  match cs with
  | [] => []
  | c :: cs' => data_frame st c ++ wire (advance st) cs'
  end.

(** Room for [n] more frames before the sequence number is exhausted. *)
Definition room (st : DataCursor) (n : Z) : Prop := cursor_ok st /\ dc_sequence st + n < 2 ^ 64.

Lemma room_advance st n : 0 <= n -> room st (1 + n) -> room (advance st) n.
Proof.
  intros Hn [Hst Hr]. split; [apply advance_ok; [done|lia]|]. unfold advance. cbn [dc_sequence]. lia.
Qed.

Lemma iter_advance_seq n st :
  dc_sequence (Nat.iter n advance st) = dc_sequence st + Z.of_nat n.
Proof.
  induction n as [|n IH]; [cbn; lia|]. rewrite Nat.iter_succ.
  change (dc_sequence (advance ?x)) with (dc_sequence x + 1). lia.
Qed.

Lemma iter_advance_ok n st : room st (Z.of_nat n) -> cursor_ok (Nat.iter n advance st).
Proof.
  intros [Hst Hr]. induction n as [|n IH]; [done|]. rewrite Nat.iter_succ.
  apply advance_ok; [apply IH; lia|]. rewrite iter_advance_seq. lia.
Qed.

(** What a successful [encode_data_frames] wrote. *)
Lemma encode_chunks_wire cs st fs st' :
  cursor_ok st -> Forall chunk_ok cs -> collect_state encode_step st cs = Ok (fs, st') ->
  concat fs = wire st cs /\ room st (len cs) /\ st' = Nat.iter (length cs) advance st.
Proof.
  revert st fs. induction cs as [|c cs IH]; intros st fs Hst Hcs He; cbn [collect_state] in He.
  - injection He as <- <-. split_and!; [done| |done]. split; [done|]. rewrite len_nil.
    destruct Hst. lia.
  - apply Forall_cons_1 in Hcs as [Hc Hcs]. rewrite encode_data_step_spec in He by done.
    destruct (dc_sequence st + 1 <? 2 ^ 64) eqn:En; [|discriminate He]. cbn [mbind outcome_bind snd] in He.
    apply bind_Ok in He as ([fs1 st1] & E1 & E2). injection E2 as <- <-. cbn [fst snd].
    destruct (IH (advance st) fs1) as (I1 & I2 & ->); [apply advance_ok; [done|lia]|done|done|].
    cbn [concat wire]. rewrite I1. split_and!; [done| |].
    + split; [done|]. destruct I2 as [_ I2]. unfold advance in I2. cbn [dc_sequence] in I2.
      rewrite len_cons. lia.
    + cbn [length]. by rewrite Nat.iter_succ_r.
Qed.

Lemma wire_app cs ds st : wire st (cs ++ ds) = wire st cs ++ wire (Nat.iter (length cs) advance st) ds.
Proof.
  revert st. induction cs as [|c cs IH]; intros st; [done|]. cbn [app wire length].
  by rewrite IH, Nat.iter_succ_r, app_assoc.
Qed.

(** A sender that writes several payloads in turn. *)
Lemma send_all_wire payloads st fs st' :
  cursor_ok st ->
  collect_state (encode_data_frames session_key scheme direction flow_id) st payloads = Ok (fs, st') ->
  exists cs, Forall chunk_ok cs /\ concat cs = concat payloads
    /\ concat (concat fs) = wire st cs /\ room st (len cs).
Proof.
  revert st fs. induction payloads as [|p ps IH]; intros st fs Hst He; cbn [collect_state] in He.
  - injection He as <- <-. exists []. split_and!; [constructor|done|done|]. split; [done|].
    rewrite len_nil. destruct Hst. lia.
  - apply bind_Ok in He as ([f1 st1] & E1 & He). apply bind_Ok in He as ([fs2 st2] & E2 & He).
    injection He as <- <-. cbn [fst snd] in *.
    assert (exists cs, Forall chunk_ok cs /\ concat cs = p /\ concat f1 = wire st cs
              /\ room st (len cs) /\ st1 = Nat.iter (length cs) advance st) as (cs & C1 & C2 & C3 & C4 & C5).
    { unfold encode_data_frames in E1. destruct (len p =? 0) eqn:El.
      - injection E1 as <- <-. exists []. apply Z.eqb_eq, len_zero_nil in El as ->.
        split_and!; [constructor|done|done| |done]. split; [done|]. rewrite len_nil. destruct Hst. lia.
      - exists (chunks MAX_DATA_PAYLOAD_BYTES p).
        assert (Forall chunk_ok (chunks MAX_DATA_PAYLOAD_BYTES p)) as Hch by by apply chunks_sizes.
        destruct (encode_chunks_wire _ _ _ _ Hst Hch E1) as (-> & ? & ->).
        split_and!; try done. by apply concat_chunks. }
    subst st1. destruct (IH _ _ (iter_advance_ok (length cs) st C4) E2) as (ds & D1 & D2 & D3 & D4).
    exists (cs ++ ds). cbn [concat]. rewrite Forall_app, !concat_app, C2, D2, wire_app, C3, D3, len_app.
    split_and!; try done. split; [done|]. destruct D4 as [_ D4].
    rewrite iter_advance_seq in D4. unfold len in *. lia.
Qed.

Section Loop.
Context `{Channel}.

Let loop fuel := deliver_loop fuel session_key scheme direction flow_id.

(** One run of the receive loop on a buffer that holds a prefix of the remaining
    wire bytes. *)
Lemma deliver_loop_spec fuel target st buf pending rest :
  (length buf < fuel)%nat -> room st (len rest) -> Forall chunk_ok rest ->
  buf ++ pending = wire st rest ->
  exists res t' st' buf' done rest', loop fuel target st buf = Some (Ok res, (t', st', buf'))
    /\ rest = done ++ rest' /\ sent t' = sent target ++ done
    /\ (res = false -> buf' ++ pending = wire st' rest' /\ room st' (len rest')
                       /\ (pending = [] -> rest' = []))
    /\ (res = true -> exists c r, rest' = c :: r /\ try_send t' c = None).
Proof.
  revert target st buf rest. induction fuel as [|fuel IH]; intros target st buf rest Hf Hr Hc Hw; [lia|].
  unfold loop. cbn [deliver_loop]. destruct rest as [|c rest].
  - cbn [wire] in Hw. apply app_nil in Hw as [-> ->].
    unfold decode_data_frame. cbn. exists false, target, st, [], [], [].
    split_and!; try done. by rewrite app_nil_r.
  - apply Forall_cons_1 in Hc as [Hc Hcs]. cbn [wire] in Hw. rewrite len_cons in Hr.
    destruct Hr as [Hst Hr]. pose proof (len_nonneg rest) as Hn.
    assert (buf = take (Z.to_nat (len buf)) (data_frame st c ++ wire (advance st) rest)) as Hbuf.
    { rewrite <- Hw. unfold len. rewrite Nat2Z.id. by rewrite take_app_length. }
    pose proof (decode_data_frame_prefix st c (wire (advance st) rest) (len buf) Hst ltac:(lia) Hc) as Hd.
    rewrite <- Hbuf in Hd. unfold decode in Hd. rewrite Hd; [|rewrite <- Hw, len_app; pose proof (len_nonneg pending); pose proof (len_nonneg buf); lia].
    destruct (len (data_frame st c) <=? len buf) eqn:El.
    + apply Z.leb_le in El. cbn [df_payload].
      destruct (try_send target c) as [t'|] eqn:Et.
      * pose proof (try_send_sent _ _ _ Et) as Hs. pose proof (len_data_frame st c Hst) as Lf.
        destruct (frame_padding_spec st Hst) as [_ Hp]. pose proof (len_nonneg c).
        destruct (IH t' (advance st) (drop (Z.to_nat (len (data_frame st c))) buf) rest)
          as (res & t2 & st2 & b2 & dn & rs & E & -> & Hs2 & Hfin & Href).
        -- rewrite length_drop. unfold len in *. lia.
        -- apply room_advance; [lia|]. by split.
        -- done.
        -- unfold len. rewrite Nat2Z.id. rewrite <- drop_app_le, Hw by (unfold len in El; lia).
           apply drop_app_length.
        -- exists res, t2, st2, b2, (c :: dn), rs. split_and!; try done.
           by rewrite Hs2, Hs, <- app_assoc.
      * eexists true, target, _, _, [], (c :: rest). split_and!; try done; [by rewrite app_nil_r|by eauto].
    + exists false, target, st, buf, [], (c :: rest). split_and!; try done; [by rewrite app_nil_r|].
      intros _. split_and!; [done|split; [done|by rewrite len_cons]|]. intros ->. exfalso.
      rewrite app_nil_r in Hw. rewrite Hw, len_app in El.
      pose proof (len_nonneg (wire (advance st) rest)). lia.
Qed.
End Loop.

(** ** Untrusted bytes *)

Lemma decode_data_frame_no_panic st input :
  bytes_ok input -> cursor_ok st -> no_panic (decode st input).
Proof.
  intros Hb Hst. destruct (frame_padding_spec st Hst) as [Hi Hp].
  unfold decode, decode_data_frame. fold entries. change DATA_FRAME_HEADER_BYTES with 16.
  rewrite Hi. np; be_facts; inv_ok; lia.
Qed.

Lemma decode_data_frame_consumed st input f n st' :
  bytes_ok input -> cursor_ok st -> decode st input = Ok (Some (f, n), st') ->
  16 <= n <= len input /\ st' = advance st /\ cursor_ok st' /\ df_sequence f = dc_sequence st
  /\ chunk_ok (df_payload f).
Proof.
  intros Hb Hst Hd. destruct (frame_padding_spec st Hst) as [Hi Hp].
  unfold decode, decode_data_frame in Hd. fold entries in Hd.
  change DATA_FRAME_HEADER_BYTES with 16 in Hd. change MAX_DATA_PAYLOAD_BYTES with 32768 in Hd.
  inv_ok; be_facts.
  assert (Hadv : cursor_ok (advance st)) by (apply advance_ok; [done|lia]).
  unfold advance in *. split_and!; try lia; try done; cbn [df_sequence df_payload].
  - lia.
  - match goal with Hx : get_slice _ 16 _ = Ok ?x |- _ =>
      destruct (get_slice_bytes_ok _ _ _ _ Hb Hx) as [_ Hl] end. unfold chunk_ok. lia.
Qed.

Lemma deliver_loop_total `{Channel} fuel target st buf :
  (length buf < fuel)%nat -> bytes_ok buf -> cursor_ok st ->
  exists res t' st' buf', deliver_loop fuel session_key scheme direction flow_id target st buf
    = Some (res, (t', st', buf'))
  /\ no_panic res /\ cursor_ok st' /\ bytes_ok buf' /\ (length buf' <= length buf)%nat.
Proof.
  revert target st buf. induction fuel as [|fuel IH]; intros target st buf Hf Hb Hst; [lia|].
  cbn [deliver_loop]. pose proof (decode_data_frame_no_panic st buf Hb Hst) as Hnp.
  pose proof (decode_data_frame_consumed st buf) as Hcon. unfold decode in *.
  destruct (decode_data_frame _ _ _ _ st buf) as [[[[f n]|] st1]|e|] eqn:E; [| | |done].
  - destruct (Hcon f n st1 Hb Hst eq_refl) as (Hn & -> & Hst' & _ & _).
    assert (Hl : (length (drop (Z.to_nat n) buf) < length buf)%nat)
      by (rewrite length_drop; unfold len in Hn; lia).
    destruct (try_send target (df_payload f)) as [t|].
    + destruct (IH t (advance st) (drop (Z.to_nat n) buf)) as (r & t' & s' & b' & -> & H1 & H2 & H3 & H4);
        [lia|by apply Forall_drop|done|]. exists r, t', s', b'. split_and!; try done. lia.
    + do 4 eexists. split_and!; try done; [by apply Forall_drop|lia].
  - assert (st1 = st) as ->.
    { unfold decode_data_frame in E. inv_ok; done. }
    do 4 eexists. by split_and!.
  - do 4 eexists. by split_and!.
Qed.
End Wire.

(** ** Claims *)
Section Claims.
Context `{YoungCrypto} `{Channel}.

(** The reads of a stream in turn; a stream that fails or whose application
    channel refuses data is reset, so later reads do not reach it. *)
Fixpoint receive_all (dlv : RecvFlow -> list Z -> option (outcome bool * RecvFlow))
    (flow : RecvFlow) (reads : list (list Z)) : option (outcome bool * RecvFlow) :=
  match reads with
  | [] => Some (Ok false, flow)
  | d :: ds =>
    match dlv flow d with
    | Some (Ok false, flow') => receive_all dlv flow' ds
    | r => r
    end
  end.

Definition receiver (direction : PaddingDirection) (session_key : list Z) (scheme : PaddingScheme)
    (flow : RecvFlow) (data : list Z) : option (outcome bool * RecvFlow) :=
  match direction with
  | ClientToServer => deliver_client_tcp_data flow session_key scheme data
  | ServerToClient => deliver_tcp_data flow session_key scheme data
  end.

Lemma receiver_padded direction session_key scheme fid st buf t data :
  receiver direction session_key scheme (mkRecvFlow (Some t) true (Some fid) st buf) data
  = (r ← deliver_loop (S (length (buf ++ data))) session_key scheme direction fid t st (buf ++ data);
     let '(res, (t, st, buf)) := r in Some (res, mkRecvFlow (Some t) true (Some fid) st buf)).
Proof. by destruct direction. Qed.

Lemma receive_all_wire direction session_key scheme fid reads t st buf rest :
  scheme_ok scheme -> room scheme direction st (len rest) -> Forall chunk_ok rest ->
  buf ++ concat reads = wire session_key scheme direction fid st rest ->
  (reads = [] -> rest = []) ->
  exists res flow' t' done rest',
    receive_all (receiver direction session_key scheme)
      (mkRecvFlow (Some t) true (Some fid) st buf) reads = Some (Ok res, flow')
    /\ rf_target flow' = Some t' /\ rest = done ++ rest' /\ sent t' = sent t ++ done
    /\ (res = false -> rest' = []) /\ (res = true -> exists c r, rest' = c :: r /\ try_send t' c = None).
Proof.
  intros Hs. revert t st buf rest. induction reads as [|d ds IH]; intros t st buf rest Hr Hc Hw Hend.
  - rewrite Hend by done. cbn [receive_all]. exists false. do 2 eexists. exists [], [].
    split_and!; try done. cbn. by rewrite app_nil_r.
  - cbn [receive_all concat] in *. rewrite receiver_padded.
    destruct (deliver_loop_spec session_key scheme direction fid Hs (S (length (buf ++ d))) t st
                (buf ++ d) (concat ds) rest) as (res & t1 & st1 & b1 & dn & rs & -> & -> & Hsent & Hfin & Href);
      [lia|done|done|by rewrite <- app_assoc|].
    cbn [mbind option_bind]. destruct res.
    + do 2 eexists. exists t1, dn, rs. by split_and!.
    + destruct (Hfin eq_refl) as (Hw1 & Hr1 & Hp1). apply Forall_app in Hc as [_ Hc].
      destruct (IH t1 st1 b1 rs) as (res & fl & t2 & dn2 & rs2 & -> & Ht & -> & Hs2 & Hf2 & Hr2);
        [done|done|done|intros ->; by apply Hp1|].
      exists res, fl, t2, (dn ++ dn2), rs2. split_and!; try done; [by rewrite app_assoc|].
      by rewrite Hs2, Hsent, app_assoc.
Qed.

Lemma padding_cursor_for_flow_ok scheme direction fid :
  scheme_ok scheme -> u64 fid ->
  exists cur, padding_cursor_for_flow scheme direction fid = Ok cur
    /\ cursor_ok scheme direction (mkDataCursor 0 cur).
Proof.
  intros Hs Hf. destruct (scheme_entries_ok scheme direction Hs) as [Hl _].
  unfold padding_cursor_for_flow. rewrite (proj2 (Z.eqb_neq _ 0)) by lia. eexists. split; [done|].
  split; [done|]. cbn [dc_cursor]. apply Z.mod_pos_bound. lia.
Qed.

(** [C4] End to end, in both directions: whatever payloads the sender frames with
    [encode_data_frames] (starting, like the receiver, at sequence 0 and at the
    flow's padding cursor), and whatever way the stream is cut into reads, the
    receive loop terminates without an error; the bytes handed to the application
    are all of the bytes sent, or the loop stopped at the very message its channel
    refuses next, with everything before it handed over. *)
Theorem data_stream_end_to_end direction session_key scheme fid cur t payloads frames st' reads :
  scheme_ok scheme -> u64 fid ->
  padding_cursor_for_flow scheme direction fid = Ok cur ->
  collect_state (encode_data_frames session_key scheme direction fid) (mkDataCursor 0 cur) payloads
    = Ok (frames, st') ->
  concat reads = concat (concat frames) ->
  exists res flow' t' done,
    receive_all (receiver direction session_key scheme)
      (mkRecvFlow (Some t) true (Some fid) (mkDataCursor 0 cur) []) reads = Some (Ok res, flow')
    /\ rf_target flow' = Some t' /\ sent t' = sent t ++ done
    /\ concat done `prefix_of` concat payloads
    /\ if res then exists c, c <> [] /\ concat done ++ c `prefix_of` concat payloads /\ try_send t' c = None
       else concat done = concat payloads.
Proof.
  intros Hs Hf Hcur He Hreads.
  destruct (padding_cursor_for_flow_ok scheme direction fid Hs Hf) as (cur' & Hcur' & Hok).
  rewrite Hcur in Hcur'. injection Hcur' as <-.
  destruct (send_all_wire session_key scheme direction fid Hs payloads _ _ _ Hok He)
    as (cs & C1 & C2 & C3 & C4).
  assert (Hend : reads = [] -> cs = []).
  { intros ->. destruct cs as [|c cs]; [done|]. cbn in Hreads. rewrite C3 in Hreads. done. }
  destruct (receive_all_wire direction session_key scheme fid reads t (mkDataCursor 0 cur) [] cs)
    as (res & fl & t' & dn & rs & E & Ht & -> & Hsent & Hfin & Href);
    [done|done|done|by rewrite Hreads|done|].
  exists res, fl, t', dn. rewrite <- C2, concat_app. split_and!; try done; [by eexists|].
  destruct res; [|rewrite (Hfin eq_refl); cbn; by rewrite app_nil_r].
  destruct (Href eq_refl) as (c & r & -> & Hc). exists c. apply Forall_app in C1 as [_ C1]. apply Forall_cons_1 in C1 as [C1 _].
  split; [intros ->; unfold chunk_ok in C1; rewrite len_nil in C1; lia|]. split; [|done]. exists (concat r). cbn. by rewrite <- app_assoc.
Qed.

(** The receive loops on arbitrary bytes from the peer: every read terminates,
    never panics, keeps the padding cursor inside the negotiated table and never
    grows the reassembly buffer beyond what it was given. *)
Theorem data_stream_untrusted direction session_key scheme fid st buf t data :
  scheme_ok scheme -> cursor_ok scheme direction st -> bytes_ok buf -> bytes_ok data ->
  exists res t' st' buf',
    receiver direction session_key scheme (mkRecvFlow (Some t) true (Some fid) st buf) data
      = Some (res, mkRecvFlow (Some t') true (Some fid) st' buf')
    /\ no_panic res /\ cursor_ok scheme direction st' /\ bytes_ok buf'
    /\ len buf' <= len buf + len data.
Proof.
  intros Hs Hst Hb Hd. rewrite receiver_padded.
  destruct (deliver_loop_total session_key scheme direction fid Hs (S (length (buf ++ data))) t st (buf ++ data))
    as (res & t' & st' & b' & -> & H1 & H2 & H3 & H4); [lia|by apply Forall_app|done|].
  exists res, t', st', b'. split_and!; try done. unfold len. rewrite length_app in H4. lia.
Qed.
End Claims.

(** ** Witnesses *)

(** A channel with room for [n] messages. *)
Definition bounded_channel : Channel :=
  {| Chan := nat * list (list Z);
     try_send c x := match c.1 with O => None | S n => Some (n, c.2 ++ [x]) end;
     sent c := c.2;
     try_send_sent c x c' := match c.1 as n return
         (match n with O => None | S n => Some (n, c.2 ++ [x]) end = Some c' -> c'.2 = c.2 ++ [x]) with
       | O => fun E => match E in _ = r return match r with None => True | Some d => d.2 = c.2 ++ [x] end
                       with eq_refl => I end
       | S n => fun E => match E in _ = r return match r with None => True | Some d => d.2 = c.2 ++ [x] end
                       with eq_refl => eq_refl end
       end |}.

Module DataWitness.
Import Concrete.
#[local] Existing Instance bounded_channel.

Definition key : list Z := small_range 32.
Definition scheme : PaddingScheme := mkPaddingScheme [3; 9] (Some [5; 2]).

Lemma data_scheme_is_ok : scheme_ok scheme.
Proof. unfold scheme_ok, entries_ok, scheme, len. cbn. repeat split; try lia; repeat constructor; lia. Qed.

Definition chan1 : Chan := (1%nat, @nil (list Z)).
Definition cursor0 : DataCursor := mkDataCursor 0 0.
Definition wire_frames : list (list (list Z)) :=
  match collect_state (encode_data_frames key scheme ServerToClient 4) cursor0 [[1; 2; 3]; [4; 5]] with
  | Ok (fs, _) => fs | _ => [] end.
Definition wire_bytes : list Z := Eval vm_compute in concat (concat wire_frames).

Lemma data_stream_end_to_end_witness :
  exists res flow' t' done,
    receive_all (receiver ServerToClient key scheme)
      (mkRecvFlow (Some chan1) true (Some 4) cursor0 []) [take 30 wire_bytes; drop 30 wire_bytes]
      = Some (Ok res, flow')
    /\ rf_target flow' = Some t' /\ sent t' = [] ++ done
    /\ concat done `prefix_of` [1; 2; 3; 4; 5]
    /\ if res then exists c, c <> [] /\ concat done ++ c `prefix_of` [1; 2; 3; 4; 5] /\ try_send t' c = None else concat done = [1; 2; 3; 4; 5].
Proof.
  refine (data_stream_end_to_end ServerToClient key scheme 4 0 chan1 [[1; 2; 3]; [4; 5]]
    wire_frames (mkDataCursor 2 0) _ data_scheme_is_ok _ _ _ _).
  - unfold uint. lia.
  - reflexivity.
  - vm_compute. reflexivity.
  - vm_compute. reflexivity.
Defined.

Lemma data_stream_untrusted_witness :
  exists res t' st' buf',
    receiver ClientToServer key scheme (mkRecvFlow (Some chan1) true (Some 4) cursor0 [89]) [80; 1; 7]
      = Some (res, mkRecvFlow (Some t') true (Some 4) st' buf')
    /\ no_panic res /\ cursor_ok scheme ClientToServer st' /\ bytes_ok buf'
    /\ len buf' <= len [89] + len [80; 1; 7].
Proof.
  apply (data_stream_untrusted ClientToServer key scheme 4 cursor0 [89] chan1 [80; 1; 7]).
  - exact data_scheme_is_ok.
  - split; vm_compute; by split.
  - repeat constructor; unfold uint; lia.
  - repeat constructor; unfold uint; lia.
Defined.
End DataWitness.
