(* ===== verification/YoungUdp.v ===== *)
(** * Young wire protocol, part 4: UDP fragments

    Models [encode_udp_fragments], [encode_udp_fragments_padded] and their decoders
    of [src/crates/core-young/src/codec.rs].  The planning loop of the padded
    encoder runs at most [MAX_UDP_FRAGMENTS + 1] times, which is its fuel here. *)

From stdpp Require Import base list gmap strings numbers option.
From S2P Require Import Prelude Net YoungBase Instances.

Record UdpFragment : Type := mkUdpFragment {
  uf_association_id : Z;
  uf_packet_id : Z;
  uf_index : Z;
  uf_count : Z;
  uf_total_len : Z;
  uf_padding_len : Z;
  uf_payload : list Z
}.

Definition udp_padding_index (association_id packet_id fragment_index : Z) : Z :=
  wrapping_add 64 (wrapping_add 64 association_id packet_id) fragment_index.

Section Udp.
Context `{YoungCrypto}.

Definition encode_udp_fragments (session_key : list Z) (association_id packet_id : Z)
    (payload : list Z) (max_datagram_size : Z) : outcome (list (list Z)) :=
  if (len payload =? 0) || (MAX_UDP_PAYLOAD_BYTES <? len payload) then Err InvalidInput else
  let overhead := UDP_HEADER_BYTES + UDP_TAG_BYTES in
  if max_datagram_size <=? overhead then Err InvalidInput else
  let chunk_size := max_datagram_size - overhead in
  let count := div_ceil (len payload) chunk_size in
  if MAX_UDP_FRAGMENTS <? count then Err InvalidInput else
  count_u16 ← try_from_u 16 count InvalidInput;
  total_len ← try_from_u 16 (len payload) InvalidInput;
  collect_from 0 (fun index chunk =>
    let frame := str_bytes "YD" ++ [VERSION] ++ [0] ++ be_bytes 8 association_id
                 ++ be_bytes 4 packet_id in
    i ← try_from_u 16 index InvalidInput;
    let frame := frame ++ be_bytes 2 i ++ be_bytes 2 count_u16 ++ be_bytes 2 total_len ++ chunk in
    let tag := hmac_tag session_key [str_bytes "young/udp-fragment/v1"; frame] in
    tag16 ← get_slice tag 0 UDP_TAG_BYTES;
    Ok (frame ++ tag16)) (chunks chunk_size payload).

(** [while offset < payload.len()]: the plan of (offset, payload, padding) parts. *)
Fixpoint udp_parts_loop (fuel : nat) (scheme : PaddingScheme) (direction : PaddingDirection)
    (association_id packet_id payload_total datagram_budget : Z)
    (parts : list (Z * Z * Z)) (offset : Z) : option (outcome (list (Z * Z * Z))) :=
  match fuel with
  | O => None
  | S fuel' =>
    if negb (offset <? payload_total) then Some (Ok parts) else
    if MAX_UDP_FRAGMENTS <=? len parts then Some (Err InvalidInput) else
    let fragment_index := len parts in
    match padding_for scheme direction
            (udp_padding_index association_id packet_id (fragment_index mod 2 ^ 16)) with
    | Ok requested_padding =>
      let padding_len := Z.min requested_padding (saturating_sub datagram_budget 1) in
      let payload_len := Z.min (datagram_budget - padding_len) (payload_total - offset) in
      if payload_len =? 0 then Some (Err InvalidInput) else
      udp_parts_loop fuel' scheme direction association_id packet_id payload_total datagram_budget
        (parts ++ [(offset, payload_len, padding_len)]) (offset + payload_len)
    | Err e => Some (Err e)
    | Panic => Some Panic
    end
  end.

Definition UDP_PARTS_FUEL : nat := 258.

(** The closure that writes part [index] of the plan. *)
Definition encode_padded_fragment (session_key : list Z) (direction : PaddingDirection)
    (association_id packet_id : Z) (payload : list Z) (count total_len : Z)
    (index : Z) (part : Z * Z * Z) : outcome (list Z) :=
  let '(offset, payload_len, padding_len) := part in
  index ← try_from_u 16 index InvalidInput;
  let frame := str_bytes "YD" ++ [VERSION] ++ [1] ++ be_bytes 8 association_id
               ++ be_bytes 4 packet_id ++ be_bytes 2 index ++ be_bytes 2 count
               ++ be_bytes 2 total_len in
  pl ← try_from_u 16 payload_len InvalidInput;
  let frame := frame ++ be_bytes 2 pl in
  pd ← try_from_u 16 padding_len InvalidInput;
  let frame := frame ++ be_bytes 2 pd in
  part ← get_slice payload offset (offset + payload_len);
  let frame := frame ++ part in
  let frame := extend_deterministic_padding session_key (udp_padding_domain direction)
                 [be_bytes 8 association_id; be_bytes 4 packet_id; be_bytes 2 index]
                 frame padding_len in
  let tag := hmac_tag session_key [udp_hmac_domain direction; frame] in
  tag16 ← get_slice tag 0 UDP_TAG_BYTES;
  Ok (frame ++ tag16).

Definition encode_udp_fragments_padded (session_key : list Z) (scheme : PaddingScheme)
    (direction : PaddingDirection) (association_id packet_id : Z) (payload : list Z)
    (max_datagram_size : Z) : option (outcome (list (list Z))) :=
  if (len payload =? 0) || (MAX_UDP_PAYLOAD_BYTES <? len payload) then Some (Err InvalidInput) else
  let overhead := PADDED_UDP_HEADER_BYTES + UDP_TAG_BYTES in
  if max_datagram_size <? overhead + 2 then Some (Err InvalidInput) else
  let datagram_budget := max_datagram_size - overhead in
  parts ← udp_parts_loop UDP_PARTS_FUEL scheme direction association_id packet_id (len payload)
            datagram_budget [] 0;
  Some (
    parts ← parts;
    count ← try_from_u 16 (len parts) InvalidInput;
    total_len ← try_from_u 16 (len payload) InvalidInput;
    collect_from 0 (encode_padded_fragment session_key direction association_id packet_id payload count total_len)
      parts).

Definition decode_udp_fragment (session_key input : list Z) : outcome UdpFragment :=
  bad ← (if len input <? UDP_HEADER_BYTES + UDP_TAG_BYTES then Ok true else
         magic ← get_slice input 0 2;
         if negb (bool_decide (magic = str_bytes "YD")) then Ok true else
         version ← index input 2;
         if negb (version =? VERSION) then Ok true else
         flags ← index input 3;
         Ok (negb (flags =? 0)));
  if (bad : bool) then Err InvalidData else
  let authenticated_len := len input - UDP_TAG_BYTES in
  authenticated ← get_slice input 0 authenticated_len;
  tag ← get_slice input authenticated_len (len input);
  _ ← verify_hmac_truncated session_key [str_bytes "young/udp-fragment/v1"; authenticated] tag;
  a ← get_slice input 4 12;
  p ← get_slice input 12 16;
  i ← get_slice input 16 18;
  c ← get_slice input 18 20;
  t ← get_slice input 20 22;
  let index := be_val i in
  let count := be_val c in
  let total_len := be_val t in
  let payload_len := authenticated_len - UDP_HEADER_BYTES in
  if (count =? 0) || (MAX_UDP_FRAGMENTS <? count) || (total_len <? count) || (count <=? index)
     || (total_len =? 0) || (MAX_UDP_PAYLOAD_BYTES <? total_len)
     || (payload_len =? 0) || (total_len <? payload_len)
  then Err InvalidData else
  payload ← get_slice input UDP_HEADER_BYTES authenticated_len;
  Ok (mkUdpFragment (be_val a) (be_val p) index count total_len 0 payload).

Definition decode_udp_fragment_padded (session_key : list Z) (scheme : PaddingScheme)
    (direction : PaddingDirection) (input : list Z) : outcome UdpFragment :=
  bad ← (if len input <? PADDED_UDP_HEADER_BYTES + UDP_TAG_BYTES then Ok true else
         magic ← get_slice input 0 2;
         if negb (bool_decide (magic = str_bytes "YD")) then Ok true else
         version ← index input 2;
         if negb (version =? VERSION) then Ok true else
         flags ← index input 3;
         Ok (negb (flags =? 1)));
  if (bad : bool) then Err InvalidData else
  let authenticated_len := len input - UDP_TAG_BYTES in
  authenticated ← get_slice input 0 authenticated_len;
  tag ← get_slice input authenticated_len (len input);
  _ ← verify_hmac_truncated session_key [udp_hmac_domain direction; authenticated] tag;
  a ← get_slice input 4 12;
  p ← get_slice input 12 16;
  i ← get_slice input 16 18;
  c ← get_slice input 18 20;
  t ← get_slice input 20 22;
  pl ← get_slice input 22 24;
  pd ← get_slice input 24 26;
  let association_id := be_val a in
  let packet_id := be_val p in
  let index := be_val i in
  let count := be_val c in
  let total_len := be_val t in
  let payload_len := be_val pl in
  let padding_len := be_val pd in
  expected_len ← ok_or (l ← checked_add 64 PADDED_UDP_HEADER_BYTES payload_len;
                        l ← checked_add 64 l padding_len;
                        checked_add 64 l UDP_TAG_BYTES) InvalidData;
  requested_padding ← padding_for scheme direction (udp_padding_index association_id packet_id index);
  if (count =? 0) || (MAX_UDP_FRAGMENTS <? count) || (total_len <? count) || (count <=? index)
     || (total_len =? 0) || (MAX_UDP_PAYLOAD_BYTES <? total_len)
     || (payload_len =? 0) || (total_len <? payload_len)
     || (padding_len =? 0) || (requested_padding <? padding_len) || negb (len input =? expected_len)
  then Err InvalidData else
  padding ← get_slice input (PADDED_UDP_HEADER_BYTES + payload_len)
              (PADDED_UDP_HEADER_BYTES + payload_len + padding_len);
  _ ← verify_deterministic_padding session_key (udp_padding_domain direction)
        [be_bytes 8 association_id; be_bytes 4 packet_id; be_bytes 2 index] padding;
  payload ← get_slice input PADDED_UDP_HEADER_BYTES (PADDED_UDP_HEADER_BYTES + payload_len);
  Ok (mkUdpFragment association_id packet_id index count total_len padding_len payload).

(** ** Fragments on the wire *)

Definition udp_head (flags aid pid index count total : Z) : list Z :=
  str_bytes "YD" ++ [VERSION] ++ [flags] ++ be_bytes 8 aid ++ be_bytes 4 pid
  ++ be_bytes 2 index ++ be_bytes 2 count ++ be_bytes 2 total.

Definition sealed (key domain body : list Z) : list Z :=
  body ++ slice (hmac_tag key [domain; body]) 0 16.

Definition plain_datagram (key : list Z) (aid pid index count total : Z) (chunk : list Z) : list Z :=
  sealed key (str_bytes "young/udp-fragment/v1") (udp_head 0 aid pid index count total ++ chunk).

Definition udp_padding_bytes (key : list Z) (direction : PaddingDirection)
    (aid pid index padding_len : Z) : list Z :=
  xof_fill key (udp_padding_domain direction
                ++ concat [be_bytes 8 aid; be_bytes 4 pid; be_bytes 2 index]) 0 (Z.to_nat padding_len).

Definition padded_datagram (key : list Z) (direction : PaddingDirection)
    (aid pid index count total : Z) (chunk : list Z) (padding_len : Z) : list Z :=
  sealed key (udp_hmac_domain direction)
    (udp_head 1 aid pid index count total ++ be_bytes 2 (len chunk) ++ be_bytes 2 padding_len
     ++ chunk ++ udp_padding_bytes key direction aid pid index padding_len).

Lemma len_YD : len (str_bytes "YD") = 2.
Proof. reflexivity. Qed.
#[local] Hint Rewrite len_YD : len_db.

Lemma len_udp_head flags aid pid index count total : len (udp_head flags aid pid index count total) = 22.
Proof. unfold udp_head. lens. Qed.
#[local] Hint Rewrite len_udp_head : len_db.

Lemma len_sealed key domain body : len (sealed key domain body) = len body + 16.
Proof. unfold sealed. lens. Qed.

Lemma seal_ok key domain body :
  (tag16 ← get_slice (hmac_tag key [domain; body]) 0 UDP_TAG_BYTES; Ok (body ++ tag16))
  = Ok (sealed key domain body).
Proof.
  change UDP_TAG_BYTES with 16. rewrite get_slice_ok by (unfold len; rewrite ?length_hmac_tag; lia).
  reflexivity.
Qed.

(** The metadata a decoder accepts. *)
Definition meta_ok (aid pid idx count total : Z) : Prop :=
  u64 aid /\ u32 pid /\ 0 <= idx < count /\ count <= 256 /\ count <= total <= 65507.

Definition fragment_ok (f : UdpFragment) : Prop :=
  meta_ok (uf_association_id f) (uf_packet_id f) (uf_index f) (uf_count f) (uf_total_len f)
  /\ 1 <= len (uf_payload f) <= uf_total_len f /\ 0 <= uf_padding_len f <= 4096.

Lemma udp_head_fields flags aid pid idx count total L k :
  L = udp_head flags aid pid idx count total ++ k -> meta_ok aid pid idx count total ->
  slice L 0 2 = str_bytes "YD" /\ index L 2 = Ok VERSION /\ index L 3 = Ok flags
  /\ be_val (slice L 4 12) = aid /\ be_val (slice L 12 16) = pid /\ be_val (slice L 16 18) = idx
  /\ be_val (slice L 18 20) = count /\ be_val (slice L 20 22) = total.
Proof.
  intros -> (Ha & Hp & Hi & Hc & Ht). unfold uint in *. unfold udp_head. rewrite <- !app_assoc.
  repeat slice_step.
  rewrite !be_val_be_bytes_small; [done|..].
  all: change (256 ^ Z.of_nat 2) with 65536; change (256 ^ Z.of_nat 4) with (2 ^ 32);
    change (256 ^ Z.of_nat 8) with (2 ^ 64); lia.
Qed.

(** A datagram that starts with a well-formed head passes the header checks, and
    its tag verifies. *)
Lemma sealed_verifies key domain body L :
  L = sealed key domain body ->
  get_slice L 0 (len L - 16) = Ok body
  /\ (exists tag, get_slice L (len L - 16) (len L) = Ok tag
      /\ verify_hmac_truncated key [domain; body] tag = Ok tt).
Proof.
  intros ->. rewrite len_sealed. pose proof (len_nonneg body).
  rewrite !get_slice_ok by (rewrite ?len_sealed; lia). unfold sealed.
  pose proof (len_hmac_prefix key [domain; body]) as Ht. set (tag := slice (hmac_tag _ _) 0 16) in *.
  split; [f_equal; repeat slice_step; done|]. exists tag. split; [f_equal; repeat slice_step; done|].
  by rewrite verify_hmac_truncated_spec, bool_decide_true.
Qed.

Ltac meta_guards :=
  repeat match goal with
  | |- context [?a =? ?b] => rewrite (proj2 (Z.eqb_neq a b)) by lia
  | |- context [?a <? ?b] => rewrite (proj2 (Z.ltb_ge a b)) by lia
  | |- context [?a <=? ?b] => rewrite (proj2 (Z.leb_gt a b)) by lia
  end; cbn [orb].

Lemma decode_plain_datagram key aid pid idx count total chunk :
  meta_ok aid pid idx count total -> 1 <= len chunk <= total ->
  decode_udp_fragment key (plain_datagram key aid pid idx count total chunk)
  = Ok (mkUdpFragment aid pid idx count total 0 chunk).
Proof.
  intros Hm Hc. unfold plain_datagram. set (body := udp_head 0 aid pid idx count total ++ chunk).
  remember (sealed key (str_bytes "young/udp-fragment/v1") body) as L eqn:EL.
  assert (HL : len L = 38 + len chunk) by (rewrite EL, len_sealed; subst body; lens).
  destruct (sealed_verifies _ _ _ _ EL) as (Hb & tag & Htag & Hv).
  destruct (udp_head_fields 0 aid pid idx count total L
    (chunk ++ slice (hmac_tag key [str_bytes "young/udp-fragment/v1"; body]) 0 16))
    as (F0 & F1 & F2 & F3 & F4 & F5 & F6 & F7); [|done|].
  { rewrite EL. unfold sealed. subst body. by rewrite <- app_assoc. }
  destruct Hm as (_ & _ & Hi & Hn & Ht).
  unfold decode_udp_fragment. change UDP_HEADER_BYTES with 22. change UDP_TAG_BYTES with 16.
  rewrite (proj2 (Z.ltb_ge _ _)) by lia. rewrite (get_slice_ok L 0 2) by lia.
  cbn [mbind outcome_bind]. rewrite F0, bool_decide_true, F1 by done.
  cbn [negb mbind outcome_bind Z.eqb Pos.eqb VERSION]. rewrite F2.
  cbn [negb mbind outcome_bind Z.eqb]. rewrite Hb, Htag. cbn [mbind outcome_bind].
  rewrite Hv. cbn [mbind outcome_bind].
  rewrite !get_slice_ok by lia. cbn [mbind outcome_bind]. rewrite F3, F4, F5, F6, F7.
  change MAX_UDP_FRAGMENTS with 256. change MAX_UDP_PAYLOAD_BYTES with 65507. rewrite HL.
  meta_guards. do 2 f_equal. rewrite EL. unfold sealed. subst body. repeat slice_step. done.
Qed.

Lemma decode_padded_datagram key scheme direction aid pid idx count total chunk padding_len requested :
  meta_ok aid pid idx count total -> 1 <= len chunk <= total ->
  padding_for scheme direction (udp_padding_index aid pid idx) = Ok requested ->
  1 <= padding_len <= requested -> requested <= 4096 ->
  decode_udp_fragment_padded key scheme direction
    (padded_datagram key direction aid pid idx count total chunk padding_len)
  = Ok (mkUdpFragment aid pid idx count total padding_len chunk).
Proof.
  intros Hm Hc Hreq Hp Hr. unfold padded_datagram.
  set (pad := udp_padding_bytes key direction aid pid idx padding_len).
  assert (Hpad : len pad = padding_len) by (unfold pad, udp_padding_bytes; lens).
  set (body := udp_head 1 aid pid idx count total ++ _).
  remember (sealed key (udp_hmac_domain direction) body) as L eqn:EL.
  assert (HL : len L = 42 + len chunk + padding_len) by (rewrite EL, len_sealed; subst body; lens).
  destruct (sealed_verifies _ _ _ _ EL) as (Hb & tag & Htag & Hv).
  destruct (udp_head_fields 1 aid pid idx count total L
    ((be_bytes 2 (len chunk) ++ be_bytes 2 padding_len ++ chunk ++ pad)
     ++ slice (hmac_tag key [udp_hmac_domain direction; body]) 0 16))
    as (F0 & F1 & F2 & F3 & F4 & F5 & F6 & F7); [|done|].
  { rewrite EL. unfold sealed. subst body. by rewrite <- !app_assoc. }
  destruct Hm as (_ & _ & Hi & Hn & Ht).
  assert (Fs : be_val (slice L 22 24) = len chunk /\ be_val (slice L 24 26) = padding_len
    /\ slice L 26 (26 + len chunk) = chunk
    /\ slice L (26 + len chunk) (26 + len chunk + padding_len) = pad).
  { rewrite EL. unfold sealed. subst body. rewrite <- !app_assoc. repeat slice_step.
    rewrite !be_val_be_bytes_small; [done|..]; change (256 ^ Z.of_nat 2) with 65536; lia. }
  destruct Fs as (F8 & F9 & F10 & F11).
  unfold decode_udp_fragment_padded. change PADDED_UDP_HEADER_BYTES with 26. change UDP_TAG_BYTES with 16.
  rewrite (proj2 (Z.ltb_ge _ _)) by lia. rewrite (get_slice_ok L 0 2) by lia.
  cbn [mbind outcome_bind]. rewrite F0, bool_decide_true, F1 by done.
  cbn [negb mbind outcome_bind Z.eqb Pos.eqb VERSION]. rewrite F2.
  cbn [negb mbind outcome_bind Z.eqb Pos.eqb]. rewrite Hb, Htag. cbn [mbind outcome_bind].
  rewrite Hv. cbn [mbind outcome_bind].
  rewrite (get_slice_ok L 4 12), (get_slice_ok L 12 16), (get_slice_ok L 16 18), (get_slice_ok L 18 20),
    (get_slice_ok L 20 22), (get_slice_ok L 22 24), (get_slice_ok L 24 26) by lia.
  cbn [mbind outcome_bind]. rewrite F3, F4, F5, F6, F7, F8, F9, Hreq.
  unfold checked_add. change (2 ^ 64) with 18446744073709551616.
  rewrite (proj2 (Z.ltb_lt (26 + _) _)) by lia. cbn [mbind option_bind].
  rewrite (proj2 (Z.ltb_lt (26 + _ + _) _)) by lia. cbn [mbind option_bind].
  rewrite (proj2 (Z.ltb_lt (26 + _ + _ + _) _)) by lia. cbn [ok_or mbind outcome_bind].
  change MAX_UDP_FRAGMENTS with 256. change MAX_UDP_PAYLOAD_BYTES with 65507.
  rewrite (proj2 (Z.eqb_eq (len L) _)) by lia. meta_guards. cbn [negb].
  rewrite !get_slice_ok, F10, F11 by lia. cbn [mbind outcome_bind].
  rewrite verify_deterministic_padding_spec, bool_decide_true; [done|].
  unfold pad, udp_padding_bytes. by rewrite length_xof_fill.
Qed.

(** ** A packet cut into fragments *)

Definition packet_fragments (aid pid : Z) (payload : list Z) (frags : list UdpFragment) : Prop :=
  1 <= len frags <= 256 /\ concat (uf_payload <$> frags) = payload
  /\ forall (i : nat) f, frags !! i = Some f ->
     uf_association_id f = aid /\ uf_packet_id f = pid /\ uf_index f = Z.of_nat i
     /\ uf_count f = len frags /\ uf_total_len f = len payload
     /\ fragment_ok f.

Lemma try_from_u16 n e : n < 65536 -> try_from_u 16 n e = Ok n.
Proof. intros. unfold try_from_u. change (2 ^ 16) with 65536. by rewrite (proj2 (Z.ltb_lt _ _)). Qed.

Lemma div_ceil_bounds a b : 0 < a -> 0 < b -> 1 <= div_ceil a b <= a.
Proof.
  intros Ha Hb. unfold div_ceil. split.
  - apply Z.div_le_lower_bound; lia.
  - apply Z.div_le_upper_bound; nia.
Qed.

Lemma concat_imap_payload {A} (g : nat -> A -> UdpFragment) (h : A -> list Z) (l : list A) :
  (forall i x, l !! i = Some x -> uf_payload (g i x) = h x) -> concat (uf_payload <$> imap g l) = concat (h <$> l).
Proof.
  intros Hg. apply (f_equal (@concat Z)). rewrite fmap_imap, <- (imap_const h).
  apply imap_ext. intros i x Hx. cbn. by apply Hg.
Qed.

Lemma encode_udp_fragments_eq key aid pid payload mx :
  encode_udp_fragments key aid pid payload mx
  = if (1 <=? len payload) && (len payload <=? 65507) && (39 <=? mx)
       && (div_ceil (len payload) (mx - 38) <=? 256)
    then Ok (imap (fun i c => plain_datagram key aid pid (Z.of_nat i) (len (chunks (mx - 38) payload))
                               (len payload) c) (chunks (mx - 38) payload))
    else Err InvalidInput.
Proof.
  unfold encode_udp_fragments. change MAX_UDP_PAYLOAD_BYTES with 65507. change MAX_UDP_FRAGMENTS with 256.
  change (UDP_HEADER_BYTES + UDP_TAG_BYTES) with 38. pose proof (len_nonneg payload).
  destruct ((len payload =? 0) || (65507 <? len payload)) eqn:E1;
    [destruct (1 <=? len payload) eqn:?, (len payload <=? 65507) eqn:?; (done || lia)|].
  replace ((1 <=? len payload) && (len payload <=? 65507)) with true by lia.
  destruct (Z.leb_spec mx 38); [by replace (39 <=? mx) with false by lia|].
  replace (39 <=? mx) with true by lia. cbn [andb].
  destruct (Z.ltb_spec 256 (div_ceil (len payload) (mx - 38))); [by rewrite (proj2 (Z.leb_gt _ _)) by lia|].
  rewrite (proj2 (Z.leb_le _ _)) by lia. pose proof (div_ceil_bounds (len payload) (mx - 38)).
  rewrite !try_from_u16 by lia. cbn [mbind outcome_bind].
  rewrite <- (chunks_count (mx - 38) payload) in * by lia.
  rewrite (collect_from_ok _ (fun i c => plain_datagram key aid pid i (len (chunks (mx - 38) payload))
             (len payload) c)); [reflexivity|].
  intros j c Hj. apply lookup_lt_Some in Hj. rewrite try_from_u16 by (unfold len in *; lia).
  cbn [mbind outcome_bind].
  rewrite <- !app_assoc, seal_ok. unfold plain_datagram, udp_head. by rewrite <- !app_assoc.
Qed.

Lemma Forall2_imap_same {A B C} (P : B -> C -> Prop) (f : nat -> A -> B) (g : nat -> A -> C) l :
  (forall i x, l !! i = Some x -> P (f i x) (g i x)) -> Forall2 P (imap f l) (imap g l).
Proof.
  intros HP. apply Forall2_same_length_lookup_2; [by rewrite !length_imap|].
  intros i b c Hb Hc. rewrite list_lookup_imap in Hb. rewrite list_lookup_imap in Hc.
  destruct (l !! i) eqn:E; cbn in *; simplify_eq. by apply HP.
Qed.

Lemma imap_packet_fragments {A} (g : nat -> A -> UdpFragment) (h : A -> list Z) l aid pid payload :
  1 <= len l <= 256 -> concat (h <$> l) = payload ->
  (forall i x, l !! i = Some x -> uf_payload (g i x) = h x /\ uf_association_id (g i x) = aid /\ uf_packet_id (g i x) = pid
     /\ uf_index (g i x) = Z.of_nat i /\ uf_count (g i x) = len l /\ uf_total_len (g i x) = len payload
     /\ fragment_ok (g i x)) ->
  packet_fragments aid pid payload (imap g l).
Proof.
  intros Hl Hc Hg. assert (Hlen : len (imap g l) = len l) by (unfold len; by rewrite length_imap).
  split; [lia|]. split; [by rewrite (concat_imap_payload g h) by (intros; by apply Hg)|].
  rewrite Hlen. intros i f Hf. rewrite list_lookup_imap in Hf.
  destruct (l !! i) eqn:E; cbn in Hf; simplify_eq. by apply Hg.
Qed.

Lemma encode_udp_fragments_spec key aid pid payload mx ds :
  u64 aid -> u32 pid -> encode_udp_fragments key aid pid payload mx = Ok ds ->
  exists frags, packet_fragments aid pid payload frags
    /\ Forall2 (fun d f => decode_udp_fragment key d = Ok f /\ len d <= mx) ds frags.
Proof.
  intros Ha Hp. rewrite encode_udp_fragments_eq.
  destruct (_ && _) eqn:E; [|done]. intros [= <-].
  rewrite !andb_true_iff in E. destruct E as (((E1 & E2) & E3) & E4).
  pose proof (div_ceil_bounds (len payload) (mx - 38) ltac:(lia) ltac:(lia)) as Hd.
  rewrite <- (chunks_count (mx - 38) payload) in * by lia. set (cs := chunks (mx - 38) payload) in *.
  assert (Hch : forall i c, cs !! i = Some c ->
    meta_ok aid pid (Z.of_nat i) (len cs) (len payload) /\ 1 <= len c <= mx - 38 /\ len c <= len payload).
  { intros i c Hc. assert (Hi := lookup_lt_Some _ _ _ Hc).
    assert (Hlc : 1 <= len c <= mx - 38).
    { pose proof (chunks_sizes (mx - 38) payload ltac:(lia)) as Hs. rewrite List.Forall_forall in Hs.
      apply Hs, list_elem_of_In. by eapply list_elem_of_lookup_2. }
    assert (len c <= len payload).
    { rewrite <- (concat_chunks (mx - 38) payload) by lia. fold cs.
      rewrite <- (take_drop_middle cs i c Hc), concat_app. cbn [concat]. rewrite !len_app.
      pose proof (len_nonneg (concat (take i cs))). pose proof (len_nonneg (concat (drop (S i) cs))). lia. }
    split_and!; try lia. unfold meta_ok, len in *. split_and!; try done; lia. }
  exists (imap (fun i c => mkUdpFragment aid pid (Z.of_nat i) (len cs) (len payload) 0 c) cs). split.
  - apply (imap_packet_fragments _ id); [lia| |].
    + rewrite list_fmap_id. unfold cs. apply concat_chunks. lia.
    + intros i c Hc. destruct (Hch i c Hc) as (? & ? & ?). split_and!; try done. split_and!; cbn; done || lia.
  - apply Forall2_imap_same. intros i c Hc. destruct (Hch i c Hc) as (? & ? & ?). split.
    + by apply decode_plain_datagram; [|lia].
    + unfold plain_datagram. rewrite len_sealed. lens.
Qed.

(** ** The padded encoder *)

Section Plan.
Variable scheme : PaddingScheme.
Variable direction : PaddingDirection.
Variables aid pid total budget : Z.
Hypothesis Hscheme : scheme_ok scheme.

(** A plan covers [offset .. total], its parts fit the budget with at least one
    payload and one padding byte, and never pad more than the scheme asks. *)
Fixpoint plan_ok (i offset : Z) (parts : list (Z * Z * Z)) : Prop :=
  match parts with
  | [] => offset = total
  | (o, payload_len, padding_len) :: ps =>
    o = offset /\ 1 <= payload_len /\ payload_len + padding_len <= budget /\ offset + payload_len <= total
    /\ (exists requested, padding_for scheme direction (udp_padding_index aid pid i) = Ok requested
          /\ 1 <= padding_len <= requested /\ requested <= 4096)
    /\ plan_ok (i + 1) (offset + payload_len) ps
  end.

Lemma wrapping_add_nonneg a b : 0 <= wrapping_add 64 a b.
Proof. unfold wrapping_add. by apply Z.mod_pos_bound. Qed.

(** Payload bytes every datagram but the last can carry for sure. *)
Definition part_room (budget : Z) : Z := Z.max 1 (budget - 4096).

Lemma udp_parts_loop_spec fuel parts offset :
  257 - len parts < Z.of_nat fuel -> len parts <= 256 -> 0 <= offset <= total -> 2 <= budget ->
  exists r, udp_parts_loop fuel scheme direction aid pid total budget parts offset = Some r
    /\ (r = Err InvalidInput /\ (256 - len parts) * part_room budget < total - offset
        \/ exists ps, r = Ok (parts ++ ps) /\ plan_ok (len parts) offset ps /\ len (parts ++ ps) <= 256).
Proof.
  revert parts offset. induction fuel as [|fuel IH]; intros parts offset Hf Hl Ho Hbud; [lia|].
  cbn [udp_parts_loop]. change MAX_UDP_FRAGMENTS with 256.
  destruct (Z.ltb_spec offset total) as [Hlt|Hge]; cbn [negb].
  2:{ exists (Ok parts). split; [done|]. right. exists []. rewrite app_nil_r. cbn. split_and!; try done. lia. }
  destruct (Z.leb_spec 256 (len parts)).
  { eexists. split; [done|]. left. split; [done|]. replace (256 - len parts) with 0 by lia. lia. }
  pose proof (len_nonneg parts).
  rewrite Z.mod_small by (change (2 ^ 16) with 65536; lia).
  destruct (padding_for_ok scheme direction (udp_padding_index aid pid (len parts)) Hscheme
              (wrapping_add_nonneg _ _)) as (rq & Hrq & Hrb).
  rewrite Hrq. unfold saturating_sub.
  set (pd := Z.min rq (Z.max 0 (budget - 1))). set (pl := Z.min (budget - pd) (total - offset)).
  assert (1 <= pd <= rq /\ 1 <= pl /\ pl + pd <= budget /\ offset + pl <= total) as (Hpd & Hpl & Hb & Hot) by lia.
  rewrite (proj2 (Z.eqb_neq pl 0)) by lia.
  destruct (IH (parts ++ [(offset, pl, pd)]) (offset + pl)) as (r & Hr & Hcase); [rewrite len_app; change (len [_]) with 1; lia..|lia|lia|].
  exists r. split; [done|]. destruct Hcase as [[-> Hr2]|(ps & -> & Hps & Hlen)].
  { left. split; [done|]. rewrite len_app in Hr2. change (len [_]) with 1 in Hr2.
    assert (part_room budget <= pl \/ offset + pl = total) as [|] by (unfold part_room; lia); nia. }
  right.
  exists ((offset, pl, pd) :: ps). rewrite <- app_assoc in *. split_and!; try done.
  cbn [plan_ok]. rewrite len_app in Hps. split_and!; try done. exists rq. split_and!; try done; lia.
Qed.

Definition part_bytes (payload : list Z) (part : Z * Z * Z) : list Z :=
  let '(o, payload_len, _) := part in slice payload o (o + payload_len).

Lemma plan_ok_concat payload parts i offset :
  0 <= offset -> len payload = total -> plan_ok i offset parts ->
  concat (part_bytes payload <$> parts) = slice payload offset total.
Proof.
  intros Ho Hlen. revert i offset Ho. induction parts as [|[[o pl] pd] ps IH]; intros i offset Ho Hp.
  - cbn in Hp |- *. rewrite Hp. unfold slice. by replace (Z.to_nat (total - total)) with 0%nat by lia.
  - cbn [plan_ok] in Hp. destruct Hp as (-> & H1 & H2 & H3 & _ & Hp). cbn [fmap list_fmap concat].
    rewrite (IH (i + 1) (offset + pl) ltac:(lia) Hp). cbn [part_bytes].
    rewrite <- slice_split; [done|lia|lia|lia].
Qed.

Lemma plan_ok_lookup parts i offset (j : nat) o pl pd :
  0 <= offset -> plan_ok i offset parts -> parts !! j = Some (o, pl, pd) ->
  0 <= o /\ 1 <= pl /\ pl + pd <= budget /\ o + pl <= total
  /\ exists requested, padding_for scheme direction (udp_padding_index aid pid (i + Z.of_nat j)) = Ok requested
      /\ 1 <= pd <= requested /\ requested <= 4096.
Proof.
  revert i offset j. induction parts as [|[[o' pl'] pd'] ps IH]; intros i offset j Ho Hp Hj; [done|].
  cbn [plan_ok] in Hp. destruct Hp as (-> & H1 & H2 & H3 & H4 & Hp). destruct j as [|j]; cbn in Hj.
  - simplify_eq. rewrite Z.add_0_r. by split_and!.
  - destruct (IH (i + 1) (offset + pl') j ltac:(lia) Hp Hj) as (I1 & I2 & I3 & I4 & I5).
    replace (i + Z.of_nat (S j)) with (i + 1 + Z.of_nat j) by lia. by split_and!.
Qed.

Lemma plan_ok_length parts i offset : plan_ok i offset parts -> len parts <= total - offset.
Proof.
  revert i offset. induction parts as [|[[o pl] pd] ps IH]; intros i offset Hp; cbn [plan_ok] in Hp.
  - rewrite len_nil. lia.
  - destruct Hp as (-> & H1 & _ & _ & _ & Hp). rewrite len_cons. specialize (IH _ _ Hp). lia.
Qed.
End Plan.

Definition padded_part (key : list Z) (direction : PaddingDirection) (aid pid count : Z)
    (payload : list Z) (i : Z) (part : Z * Z * Z) : list Z :=
  padded_datagram key direction aid pid i count (len payload) (part_bytes payload part) part.2.

Lemma encode_padded_parts key scheme direction aid pid payload parts budget :
  len payload <= 65507 -> plan_ok scheme direction aid pid (len payload) budget 0 0 parts -> len parts <= 256 ->
  collect_from 0 (encode_padded_fragment key direction aid pid payload (len parts) (len payload)) parts
  = Ok (imap (fun i part => padded_part key direction aid pid (len parts) payload (Z.of_nat i) part) parts).
Proof.
  intros Hpay Hplan Hlen.
  rewrite (collect_from_ok _ (fun i part => padded_part key direction aid pid (len parts) payload i part));
    [reflexivity|].
  intros j [[o pl] pd] Hj. unfold encode_padded_fragment.
  destruct (plan_ok_lookup _ _ _ _ _ _ _ 0 0 j o pl pd ltac:(lia) Hplan Hj) as (H1 & H2 & H3 & H4 & rq & _ & H5 & H6).
  apply lookup_lt_Some in Hj. rewrite !try_from_u16 by (unfold len in *; lia). cbn [mbind outcome_bind].
  rewrite get_slice_ok by lia. cbn [mbind outcome_bind]. rewrite extend_padding_eq by lia.
  rewrite <- !app_assoc, seal_ok. unfold padded_part, padded_datagram, udp_head, udp_padding_bytes.
  cbn [part_bytes snd]. rewrite (len_slice payload o (o + pl)) by lia.
  replace (o + pl - o) with pl by lia. by rewrite <- !app_assoc.
Qed.

Lemma encode_udp_fragments_padded_spec key scheme direction aid pid payload mx :
  scheme_ok scheme -> u64 aid -> u32 pid ->
  exists r, encode_udp_fragments_padded key scheme direction aid pid payload mx = Some r
  /\ (r = Err InvalidInput
        /\ ~ (1 <= len payload <= 65507 /\ 44 <= mx /\ len payload <= 256 * part_room (mx - 42))
      \/ exists ds frags, r = Ok ds /\ packet_fragments aid pid payload frags
         /\ Forall2 (fun d f => decode_udp_fragment_padded key scheme direction d = Ok f /\ len d <= mx)
              ds frags).
Proof.
  intros Hs Ha Hp. unfold encode_udp_fragments_padded. change MAX_UDP_PAYLOAD_BYTES with 65507.
  change (PADDED_UDP_HEADER_BYTES + UDP_TAG_BYTES) with 42. pose proof (len_nonneg payload).
  destruct ((len payload =? 0) || (65507 <? len payload)) eqn:E1; [eexists; split; [done|left; split; [done|lia]]|].
  destruct (Z.ltb_spec mx (42 + 2)); [eexists; split; [done|left; split; [done|lia]]|].
  destruct (udp_parts_loop_spec scheme direction aid pid (len payload) (mx - 42) Hs UDP_PARTS_FUEL [] 0)
    as (r & -> & Hr); [change (Z.of_nat UDP_PARTS_FUEL) with 258; rewrite len_nil; lia|rewrite len_nil; lia|lia|lia|].
  cbn [mbind option_bind]. eexists. split; [done|].
  destruct Hr as [[-> Hr]|(ps & -> & Hplan & Hlen)]; [left; split; [done|]; rewrite len_nil in Hr; intros (_ & _ & Hb); lia|]. right. cbn [app] in *. rewrite len_nil in Hplan.
  cbn [mbind outcome_bind]. rewrite !try_from_u16 by lia. cbn [mbind outcome_bind].
  rewrite (encode_padded_parts _ scheme _ _ _ _ _ (mx - 42)) by (done || lia).
  do 2 eexists. split; [done|].
  pose proof (plan_ok_length _ _ _ _ _ _ _ _ _ Hplan) as Hcnt.
  assert (Hne : 1 <= len ps).
  { destruct ps as [|p ps]; [cbn in Hplan; lia|]. rewrite len_cons. pose proof (len_nonneg ps). lia. }
  assert (Hpart : forall i o pl pd, ps !! i = Some (o, pl, pd) ->
    let sl := slice payload o (o + pl) in
    meta_ok aid pid (Z.of_nat i) (len ps) (len payload) /\ len sl = pl
    /\ 1 <= pl <= len payload /\ pl + pd <= mx - 42
    /\ exists rq, padding_for scheme direction (udp_padding_index aid pid (Z.of_nat i)) = Ok rq
         /\ 1 <= pd <= rq /\ rq <= 4096).
  { intros i o pl pd Hi.
    destruct (plan_ok_lookup _ _ _ _ _ _ _ 0 0 i o pl pd ltac:(lia) Hplan Hi) as (I1 & I2 & I3 & I4 & I5).
    apply lookup_lt_Some in Hi. cbn. split_and!; try lia; try done.
    - unfold meta_ok, len in *. split_and!; try done; lia.
    - rewrite len_slice; lia. }
  split.
  - apply (imap_packet_fragments (fun i part => mkUdpFragment aid pid (Z.of_nat i) (len ps) (len payload)
             part.2 (part_bytes payload part)) (part_bytes payload) ps); [lia| |].
    + rewrite (plan_ok_concat scheme direction aid pid (len payload) (mx - 42) payload ps 0 0) by (done || lia).
      by apply slice_all.
    + intros i [[o pl] pd] Hi. destruct (Hpart i o pl pd Hi) as (I1 & I2 & I3 & I4 & rq & I5 & I6 & I7).
      split_and!; try done. unfold fragment_ok. cbn in *. rewrite I2. split_and!; done || lia.
  - apply Forall2_imap_same. intros i [[o pl] pd] Hi.
    destruct (Hpart i o pl pd Hi) as (I1 & I2 & I3 & I4 & rq & I5 & I6 & I7).
    unfold padded_part. cbn [part_bytes snd]. split.
    + apply (decode_padded_datagram _ _ _ _ _ _ _ _ _ _ rq); [done|lia|done|done|done].
    + unfold padded_datagram, udp_padding_bytes. rewrite len_sealed. lens.
Qed.

(** ** Untrusted datagrams *)

Lemma decode_udp_fragment_safe key input :
  bytes_ok input -> no_panic (decode_udp_fragment key input)
  /\ forall f, decode_udp_fragment key input = Ok f -> fragment_ok f.
Proof.
  intros Hb. unfold decode_udp_fragment. change UDP_HEADER_BYTES with 22. change UDP_TAG_BYTES with 16. split.
  - destruct (Z.ltb_spec (len input) (22 + 16)); [done|]. np.
  - intros f Hf. change MAX_UDP_FRAGMENTS with 256 in Hf. change MAX_UDP_PAYLOAD_BYTES with 65507 in Hf.
    destruct (Z.ltb_spec (len input) (22 + 16)); [done|]. inv_ok; be_facts.
    all: repeat match goal with
      | Hs : get_slice _ ?a ?b = Ok ?s, Hbd : 0 <= be_val ?s |- _ =>
        pose proof (be_val_slice_range _ _ _ _ (b - a) Hb Hs eq_refl); clear Hbd end.
    all: match goal with Hs : get_slice _ 22 _ = Ok ?s |- _ =>
      destruct (get_slice_bytes_ok _ _ _ _ Hb Hs) end.
    all: unfold fragment_ok, meta_ok, uint; cbn [uf_association_id uf_packet_id uf_index uf_count uf_total_len uf_payload uf_padding_len].
    all: change (256 ^ (12 - 4)) with (2 ^ 64) in *; change (256 ^ (16 - 12)) with (2 ^ 32) in *.
    all: split_and!; lia.
Qed.

Lemma decode_udp_fragment_padded_safe key scheme direction input :
  scheme_ok scheme -> bytes_ok input ->
  no_panic (decode_udp_fragment_padded key scheme direction input)
  /\ forall f, decode_udp_fragment_padded key scheme direction input = Ok f -> fragment_ok f.
Proof.
  intros Hsch Hb.
  assert (Hpf : forall i, 0 <= i -> no_panic (padding_for scheme direction i)).
  { intros i Hi. by destruct (padding_for_ok scheme direction i Hsch Hi) as (q & -> & _). }
  assert (Hpb : forall i q, 0 <= i -> padding_for scheme direction i = Ok q -> 1 <= q <= 4096).
  { intros i q Hi Hq. destruct (padding_for_ok scheme direction i Hsch Hi) as (q' & Hq' & Hr). congruence. }
  unfold decode_udp_fragment_padded. change PADDED_UDP_HEADER_BYTES with 26. change UDP_TAG_BYTES with 16.
  change MAX_UDP_FRAGMENTS with 256. change MAX_UDP_PAYLOAD_BYTES with 65507. split.
  - destruct (Z.ltb_spec (len input) (26 + 16)); [done|]. np; be_facts; inv_ok; try lia.
    apply Hpf, wrapping_add_nonneg.
  - intros f Hf. destruct (Z.ltb_spec (len input) (26 + 16)); [done|]. inv_ok; be_facts.
    all: repeat match goal with
      | Hs : get_slice _ ?a ?b = Ok ?s, Hbd : 0 <= be_val ?s |- _ =>
        pose proof (be_val_slice_range _ _ _ _ (b - a) Hb Hs eq_refl); clear Hbd end.
    all: match goal with Hs : get_slice _ 26 _ = Ok ?s |- _ =>
      destruct (get_slice_bytes_ok _ _ _ _ Hb Hs) end.
    all: match goal with Hq : padding_for _ _ _ = Ok _ |- _ =>
      pose proof (Hpb _ _ (wrapping_add_nonneg _ _) Hq) end.
    all: unfold fragment_ok, meta_ok, uint; cbn [uf_association_id uf_packet_id uf_index uf_count uf_total_len uf_payload uf_padding_len].
    all: change (256 ^ (12 - 4)) with (2 ^ 64) in *; change (256 ^ (16 - 12)) with (2 ^ 32) in *.
    all: split_and!; lia.
Qed.

(** A datagram whose last 16 bytes are the truncated HMAC, under a domain, of the rest. *)
Definition datagram_tagged (key domain input : list Z) : Prop :=
  16 <= len input
  /\ slice input (len input - 16) (len input)
     = slice (hmac_tag key [domain; slice input 0 (len input - 16)]) 0 16.

Lemma verify_datagram_tag key domain input authenticated tag u :
  get_slice input 0 (len input - 16) = Ok authenticated ->
  get_slice input (len input - 16) (len input) = Ok tag ->
  verify_hmac_truncated key [domain; authenticated] tag = Ok u -> datagram_tagged key domain input.
Proof.
  intros Ha Ht Hv. apply verify_hmac_truncated_Ok in Hv as [_ Hv].
  apply get_slice_inv in Ha as (? & ? & ->). apply get_slice_inv in Ht as (? & ? & ->).
  split; [lia|done].
Qed.

Lemma decode_udp_fragment_tagged key input f :
  decode_udp_fragment key input = Ok f -> datagram_tagged key (str_bytes "young/udp-fragment/v1") input.
Proof. intros Hf. unfold decode_udp_fragment, UDP_TAG_BYTES in Hf. inv_ok; eauto using verify_datagram_tag. Qed.

Lemma decode_udp_fragment_padded_tagged key scheme direction input f :
  decode_udp_fragment_padded key scheme direction input = Ok f ->
  datagram_tagged key (udp_hmac_domain direction) input.
Proof. intros Hf. unfold decode_udp_fragment_padded, UDP_TAG_BYTES in Hf. inv_ok; eauto using verify_datagram_tag. Qed.

(** ** Claims *)

(** Plain UDP fragmentation succeeds exactly when the payload has 1 to 65507
    bytes and fits 256 datagrams of the given size, and fails with [InvalidInput]
    otherwise; every datagram respects the size limit and decodes to its fragment,
    and the fragments, numbered in order, concatenate to the payload. *)
Theorem udp_fragment_plain_correct key aid pid payload mx :
  u64 aid -> u32 pid ->
  if (1 <=? len payload) && (len payload <=? 65507) && (39 <=? mx)
     && (div_ceil (len payload) (mx - 38) <=? 256)
  then exists ds frags, encode_udp_fragments key aid pid payload mx = Ok ds
         /\ packet_fragments aid pid payload frags
         /\ Forall2 (fun d f => decode_udp_fragment key d = Ok f /\ len d <= mx) ds frags
  else encode_udp_fragments key aid pid payload mx = Err InvalidInput.
Proof.
  intros Ha Hp. pose proof (encode_udp_fragments_eq key aid pid payload mx) as E.
  destruct (_ && _); [|done]. destruct (encode_udp_fragments_spec key aid pid payload mx _ Ha Hp E) as (frags & F1 & F2).
  by do 2 eexists.
Qed.

(** [C28] Padded UDP fragmentation always terminates (its planning loop within the
    fragment limit); it accepts every payload of 1 to 65507 bytes for which
    256 datagrams have room whatever the scheme pads, rejects with [InvalidInput]
    or else yields datagrams within the size limit that decode, padding checks included, to
    fragments that concatenate to the payload. *)
Theorem udp_fragment_padded_correct key scheme direction aid pid payload mx :
  scheme_ok scheme -> u64 aid -> u32 pid ->
  exists r, encode_udp_fragments_padded key scheme direction aid pid payload mx = Some r
  /\ (r = Err InvalidInput
        /\ ~ (1 <= len payload <= 65507 /\ 44 <= mx /\ len payload <= 256 * part_room (mx - 42))
      \/ exists ds frags, r = Ok ds /\ packet_fragments aid pid payload frags
         /\ Forall2 (fun d f => decode_udp_fragment_padded key scheme direction d = Ok f /\ len d <= mx)
              ds frags).
Proof. apply encode_udp_fragments_padded_spec. Qed.

(** Both datagram decoders are total on arbitrary bytes: no panic, and what
    they accept ends in the truncated HMAC of all bytes before it (in the padded form
    under the direction's own domain, so that a datagram cannot be reflected), has an
    index below its count, at most 256 fragments, a total of at most 65507 bytes and
    a payload within it, which is what the reassembler needs. *)
Theorem udp_decode_untrusted key scheme direction input :
  scheme_ok scheme -> bytes_ok input ->
  no_panic (decode_udp_fragment key input)
  /\ no_panic (decode_udp_fragment_padded key scheme direction input)
  /\ (forall f, decode_udp_fragment key input = Ok f ->
        fragment_ok f /\ datagram_tagged key (str_bytes "young/udp-fragment/v1") input)
  /\ (forall f, decode_udp_fragment_padded key scheme direction input = Ok f ->
        fragment_ok f /\ datagram_tagged key (udp_hmac_domain direction) input).
Proof.
  intros Hs Hb. destruct (decode_udp_fragment_safe key input Hb) as [H1 H2].
  destruct (decode_udp_fragment_padded_safe key scheme direction input Hs Hb) as [H3 H4].
  split_and!; [done|done| |]; intros f Hf;
    eauto using decode_udp_fragment_tagged, decode_udp_fragment_padded_tagged.
Qed.
End Udp.
#[global] Hint Rewrite @len_udp_head len_YD : len_db.

(** ** Witnesses *)

Module UdpWitness.
Import Concrete.

Definition key : list Z := small_range 32.
Definition scheme : PaddingScheme := mkPaddingScheme [3; 9] None.

Lemma udp_scheme_is_ok : scheme_ok scheme.
Proof. unfold scheme_ok, entries_ok, scheme, len. cbn. repeat split; try lia; repeat constructor; lia. Qed.

Lemma udp_fragment_plain_correct_witness :
  exists ds frags, encode_udp_fragments key 9 1 [1; 2; 3; 4; 5] 40 = Ok ds
    /\ packet_fragments 9 1 [1; 2; 3; 4; 5] frags
    /\ Forall2 (fun d f => decode_udp_fragment key d = Ok f /\ len d <= 40) ds frags.
Proof.
  exact (udp_fragment_plain_correct key 9 1 [1; 2; 3; 4; 5] 40 ltac:(unfold uint; lia) ltac:(unfold uint; lia)).
Defined.

Lemma udp_fragment_padded_correct_witness :
  exists ds frags,
    encode_udp_fragments_padded key scheme ClientToServer 9 1 [1; 2; 3; 4; 5] 50 = Some (Ok ds)
    /\ packet_fragments 9 1 [1; 2; 3; 4; 5] frags
    /\ Forall2 (fun d f => decode_udp_fragment_padded key scheme ClientToServer d = Ok f /\ len d <= 50)
         ds frags.
Proof.
  destruct (udp_fragment_padded_correct key scheme ClientToServer 9 1 [1; 2; 3; 4; 5] 50
    udp_scheme_is_ok ltac:(unfold uint; lia) ltac:(unfold uint; lia))
    as (r & E & [[_ Hn]|(ds & frags & -> & Hf & Hd)]).
  - exfalso. apply Hn. vm_compute. by repeat split.
  - exists ds, frags. exact (conj E (conj Hf Hd)).
Defined.

Example padded_datagram_count :
  match encode_udp_fragments_padded key scheme ClientToServer 9 1 [1; 2; 3; 4; 5] 46 with
  | Some (Ok ds) => len ds = 5 | _ => False end.
Proof. vm_compute. reflexivity. Qed.

Lemma udp_decode_untrusted_witness :
  no_panic (decode_udp_fragment key [89; 68; 1])
  /\ no_panic (decode_udp_fragment_padded key scheme ClientToServer [89; 68; 1]).
Proof.
  destruct (udp_decode_untrusted key scheme ClientToServer [89; 68; 1] udp_scheme_is_ok) as (H1 & H2 & _).
  - repeat constructor; unfold uint; lia.
  - exact (conj H1 H2).
Defined.
End UdpWitness.
