(* ===== verification/YoungReassembler.v ===== *)
(** * Young wire protocol, part 5: UDP reassembly

    Models [UdpReassembler] of [src/crates/core-young/src/codec.rs]: the table of
    partial packets, its timeout, its eviction of the oldest packet and [push].
    [push] returns the new table and the call's outcome, because an error also
    changes the table.  The order of [HashMap::iter] is the class [HashIter]. *)

From stdpp Require Import base list gmap strings numbers option fin_map_dom.
From S2P Require Import Prelude Net YoungBase Instances YoungUdp.

Record PartialPacket : Type := mkPartialPacket {
  pp_created : Z;
  pp_total_len : Z;
  pp_fragments : list (option (list Z));
  pp_received_len : Z
}.

Record UdpReassembler : Type := mkUdpReassembler {
  ur_entries : gmap (Z * Z) PartialPacket;
  ur_max_packets : Z;
  ur_timeout : Z
}.

(** Durations are counted in milliseconds. *)
Definition UdpReassembler_default : UdpReassembler := mkUdpReassembler ∅ 256 10000.

Definition uf_key (f : UdpFragment) : Z * Z := (uf_association_id f, uf_packet_id f).

Definition is_none {A} (o : option A) : bool := match o with None => true | Some _ => false end.

Section Reassembler.
Context `{HashIter}.
Implicit Types (r : UdpReassembler) (f : UdpFragment) (now : Z) (p : PartialPacket).

(** [retain] and the eviction of the oldest packet. *)
Definition make_room (r : UdpReassembler) (key : Z * Z) (now : Z) : gmap (Z * Z) PartialPacket :=
  let entries := filter (fun kp => duration_since now (pp_created kp.2) <= ur_timeout r) (ur_entries r) in
  if (ur_max_packets r <=? Z.of_nat (size entries)) && is_none (entries !! key) then
    match min_by_key (fun kp => pp_created kp.2) (hash_iter entries) with
    | Some (oldest, _) => delete oldest entries
    | None => entries
    end
  else entries.

Definition push (r : UdpReassembler) (fragment : UdpFragment) (now : Z)
  : UdpReassembler * outcome (option (list Z)) :=
  let with_entries m := mkUdpReassembler m (ur_max_packets r) (ur_timeout r) in
  let key := uf_key fragment in
  let entries := make_room r key now in
  let packet := default (mkPartialPacket now (uf_total_len fragment)
                           (replicate (Z.to_nat (uf_count fragment)) None) 0) (entries !! key) in
  let entries := <[key := packet]> entries in
  if negb (pp_total_len packet =? uf_total_len fragment)
     || negb (len (pp_fragments packet) =? uf_count fragment)
  then (with_entries (delete key entries), Err InvalidData) else
  match index (pp_fragments packet) (uf_index fragment) with
  | Ok slot =>
    let packet :=
      if is_none slot then
        mkPartialPacket (pp_created packet) (pp_total_len packet)
          (<[Z.to_nat (uf_index fragment) := Some (uf_payload fragment)]> (pp_fragments packet))
          (saturating_add 64 (pp_received_len packet) (len (uf_payload fragment)))
      else packet in
    let entries := <[key := packet]> entries in
    if existsb is_none (pp_fragments packet) then (with_entries entries, Ok None) else
    let entries := delete key entries in
    if negb (pp_received_len packet =? pp_total_len packet)
    then (with_entries entries, Err InvalidData) else
    (with_entries entries, Ok (Some (concat (default [] <$> pp_fragments packet))))
  | Err e => (with_entries entries, Err e)
  | Panic => (with_entries entries, Panic)
  end.

(** ** Slots *)

Fixpoint slots_len (l : list (option (list Z))) : Z :=
  match l with [] => 0 | o :: l' => len (default [] o) + slots_len l' end.

Lemma slots_len_concat l : slots_len l = len (concat (default [] <$> l)).
Proof. induction l as [|o l IH]; [done|]. cbn. by rewrite len_app, <- IH. Qed.

Lemma slots_len_nonneg l : 0 <= slots_len l.
Proof. rewrite slots_len_concat. apply len_nonneg. Qed.

Lemma slots_len_insert l i x :
  l !! i = Some None -> slots_len (<[i := Some x]> l) = slots_len l + len x.
Proof.
  revert i. induction l as [|o l IH]; intros [|i] Hi; cbn in *; try done.
  - injection Hi as ->. change (len (default [] None)) with 0. lia.
  - rewrite IH by done. lia.
Qed.

Lemma slots_len_replicate n : slots_len (replicate n None) = 0.
Proof. induction n as [|n IH]; [done|]. cbn. by rewrite len_nil, IH. Qed.

Lemma index_lookup {A} (l : list A) i x : 0 <= i -> index l i = Ok x <-> l !! Z.to_nat i = Some x.
Proof.
  intros Hi. unfold index. rewrite (proj2 (Z.leb_le 0 i) Hi).
  destruct (l !! Z.to_nat i); naive_solver.
Qed.

(** ** Making room *)

Lemma make_room_lookup_Some r key now k p :
  make_room r key now !! k = Some p -> ur_entries r !! k = Some p.
Proof.
  unfold make_room. set (m := filter _ _). intros Hp. assert (m !! k = Some p) as Hm.
  { destruct ((_ <=? _) && _); [|done]. destruct (min_by_key _ _) as [[o po]|]; [|done].
    by apply lookup_delete_Some in Hp as [_ Hp]. }
  unfold m in Hm. by apply map_lookup_filter_Some in Hm as [? _].
Qed.

Lemma make_room_size r key now :
  1 <= ur_max_packets r -> Z.of_nat (size (ur_entries r)) <= ur_max_packets r ->
  Z.of_nat (size (make_room r key now)) <= ur_max_packets r
  /\ (make_room r key now !! key = None -> Z.of_nat (size (make_room r key now)) < ur_max_packets r).
Proof.
  intros Hmax Hsz. unfold make_room. set (m := filter _ _).
  assert (size m <= size (ur_entries r))%nat as Hm by (apply map_subseteq_size, map_filter_subseteq).
  destruct (Z.leb_spec (ur_max_packets r) (Z.of_nat (size m))) as [Hfull|]; cbn [andb]; [|lia].
  destruct (m !! key) as [q|] eqn:E; cbn [is_none]; [split; [lia|by rewrite E]|].
  pose proof (hash_min_spec (fun kp => pp_created kp.2) m) as Hmin.
  destruct (min_by_key _ _) as [[k p]|].
  - destruct Hmin as [Hk _]. rewrite map_size_delete_Some by done.
    assert (size m <> 0)%nat by (intros E0%map_size_empty_inv; by rewrite E0 in Hk). lia.
  - rewrite Hmin in Hfull. rewrite map_size_empty in Hfull. lia.
Qed.

(** A table whose keys, with the new one, fit the limit is never evicted from:
    the entries in their lifetime stay. *)
Lemma make_room_keeps (r : UdpReassembler) (key : Z * Z) (now : Z) (K : gset (Z * Z)) (k : Z * Z) (p : PartialPacket) :
  dom (ur_entries r) ⊆ K -> key ∈ K -> Z.of_nat (size K) <= ur_max_packets r ->
  ur_entries r !! k = Some p -> now <= pp_created p + ur_timeout r -> 0 <= ur_timeout r ->
  make_room r key now !! k = Some p.
Proof.
  intros Hdom Hkey HK Hp Hnow Hto. unfold make_room. set (m := filter _ _).
  assert (m !! k = Some p) as Hm.
  { apply map_lookup_filter_Some. split; [done|]. cbn. unfold duration_since. lia. }
  destruct (m !! key) eqn:E; cbn [is_none]; [by rewrite andb_false_r|].
  destruct (Z.leb_spec (ur_max_packets r) (Z.of_nat (size m))); [exfalso|done].
  assert (size ({[key]} ∪ dom m) <= size K)%nat as Hs.
  { apply subseteq_size, union_subseteq. split; [set_solver|].
    transitivity (dom (ur_entries r)); [|done]. apply subseteq_dom, map_filter_subseteq. }
  rewrite size_union in Hs by (apply not_elem_of_dom in E; set_solver).
  rewrite size_singleton, size_dom in Hs. lia.
Qed.

Lemma make_room_none r key now k :
  ur_entries r !! k = None -> make_room r key now !! k = None.
Proof.
  intros Hn. destruct (make_room r key now !! k) eqn:E; [|done].
  apply make_room_lookup_Some in E. congruence.
Qed.

Lemma make_room_dom r key now : dom (make_room r key now) ⊆ dom (ur_entries r).
Proof.
  intros k Hk. apply elem_of_dom in Hk as [p Hp]. apply elem_of_dom.
  exists p. by apply make_room_lookup_Some in Hp.
Qed.

(** ** Invariant of the table *)

Definition partial_ok (p : PartialPacket) : Prop :=
  1 <= len (pp_fragments p) <= 256 /\ 1 <= pp_total_len p <= 65507
  /\ pp_received_len p = slots_len (pp_fragments p)
  /\ Forall (fun o => len (default [] o) <= pp_total_len p) (pp_fragments p)
  /\ existsb is_none (pp_fragments p) = true.

Definition table_ok (r : UdpReassembler) : Prop :=
  1 <= ur_max_packets r /\ Z.of_nat (size (ur_entries r)) <= ur_max_packets r
  /\ map_Forall (fun _ p => partial_ok p) (ur_entries r).

Lemma slots_len_bound l b :
  Forall (fun o => len (default [] o) <= b) l -> slots_len l <= b * len l.
Proof.
  induction 1 as [|o l Ho Hl IH]; [cbn; unfold len; cbn; lia|]. cbn [slots_len]. rewrite len_cons. lia.
Qed.

(** The packet [push] works on: found or new. *)
Lemma packet_found_ok r f now :
  table_ok r -> fragment_ok f ->
  let p := default (mkPartialPacket now (uf_total_len f) (replicate (Z.to_nat (uf_count f)) None) 0)
             (make_room r (uf_key f) now !! uf_key f) in
  partial_ok p.
Proof.
  intros (_ & _ & Hall) ((_ & _ & Hi & Hc & Ht) & Hl & _). cbn.
  destruct (make_room r (uf_key f) now !! uf_key f) as [p|] eqn:E; cbn.
  - apply make_room_lookup_Some in E. by apply (Hall (uf_key f)).
  - unfold partial_ok. cbn. unfold len. rewrite length_replicate, slots_len_replicate. split_and!; try lia.
    + apply Forall_replicate. cbn. lia.
    + destruct (Z.to_nat (uf_count f)) eqn:En; [lia|]. done.
Qed.

(** Storing a fragment in its slot. *)
Definition store (p : PartialPacket) (f : UdpFragment) : PartialPacket :=
  mkPartialPacket (pp_created p) (pp_total_len p)
    (<[Z.to_nat (uf_index f) := Some (uf_payload f)]> (pp_fragments p))
    (saturating_add 64 (pp_received_len p) (len (uf_payload f))).

Lemma store_len p f : len (pp_fragments (store p f)) = len (pp_fragments p).
Proof. unfold len. cbn. by rewrite length_insert. Qed.

Lemma store_ok p f :
  partial_ok p -> fragment_ok f -> pp_total_len p = uf_total_len f ->
  pp_fragments p !! Z.to_nat (uf_index f) = Some None ->
  pp_received_len (store p f) = slots_len (pp_fragments (store p f))
  /\ Forall (fun o => len (default [] o) <= pp_total_len p) (pp_fragments (store p f)).
Proof.
  intros (Hl & Ht & Hr & Hf & _) (_ & Hp & _) Htot Hslot. split.
  - cbn. rewrite slots_len_insert by done. unfold saturating_add.
    pose proof (slots_len_bound _ _ Hf). pose proof (slots_len_nonneg (pp_fragments p)).
    rewrite Hr, Z.min_l; [done|]. change (2 ^ 64) with 18446744073709551616. nia.
  - cbn. apply Forall_insert; [done|]. cbn. lia.
Qed.

(** [push] by cases, in a table in good order. *)
Lemma push_spec r f now :
  table_ok r -> fragment_ok f ->
  let m := make_room r (uf_key f) now in
  let p := default (mkPartialPacket now (uf_total_len f) (replicate (Z.to_nat (uf_count f)) None) 0)
             (m !! uf_key f) in
  let with_entries e := mkUdpReassembler e (ur_max_packets r) (ur_timeout r) in
  let metadata_ok := (pp_total_len p =? uf_total_len f) && (len (pp_fragments p) =? uf_count f) in
  if metadata_ok then
    exists slot, pp_fragments p !! Z.to_nat (uf_index f) = Some slot /\
    let p' := if is_none slot then store p f else p in
    if existsb is_none (pp_fragments p')
    then push r f now = (with_entries (<[uf_key f := p']> m), Ok None) /\ partial_ok p'
    else push r f now = (with_entries (delete (uf_key f) m),
           if slots_len (pp_fragments p') =? uf_total_len f
           then Ok (Some (concat (default [] <$> pp_fragments p'))) else Err InvalidData)
  else push r f now = (with_entries (delete (uf_key f) m), Err InvalidData).
Proof.
  intros Hr Hf m p we mo. pose proof (packet_found_ok r f now Hr Hf) as Hp. fold m in Hp.
  change (partial_ok p) in Hp. unfold push. fold m. fold p. unfold mo.
  destruct (pp_total_len p =? uf_total_len f) eqn:E1; cbn [negb orb andb]; [|by rewrite delete_insert_eq].
  destruct (len (pp_fragments p) =? uf_count f) eqn:E2; cbn [negb]; [|by rewrite delete_insert_eq].
  apply Z.eqb_eq in E1, E2. pose proof Hf as ((_ & _ & Hi & _) & _).
  destruct (index_ok (pp_fragments p) (uf_index f)) as (slot & Hslot & _); [lia|].
  rewrite Hslot. apply index_lookup in Hslot as Hlk; [|lia]. exists slot. split; [done|].
  fold (store p f). set (p' := if is_none slot then store p f else p).
  assert (Hp' : pp_received_len p' = slots_len (pp_fragments p') /\ pp_total_len p' = pp_total_len p
     /\ len (pp_fragments p') = len (pp_fragments p)
     /\ Forall (fun o => len (default [] o) <= pp_total_len p) (pp_fragments p')).
  { destruct slot as [x|]; cbn in p'; subst p'.
    - destruct Hp as (? & ? & ? & ? & ?). done.
    - destruct (store_ok p f Hp Hf E1 Hlk). split_and!; try done. apply store_len. }
  destruct Hp' as (R1 & R2 & R3 & R4). cbn zeta.
  destruct (existsb is_none (pp_fragments p')) eqn:E3.
  - rewrite insert_insert_eq. split; [done|]. destruct Hp as (P1 & P2 & _).
    unfold partial_ok. rewrite R2, R3. split_and!; try done; lia.
  - rewrite insert_insert_eq, delete_insert_eq, R1, R2, E1. by destruct (_ =? _).
Qed.

Lemma table_ok_shrink r m :
  table_ok r -> (forall k p, m !! k = Some p -> ur_entries r !! k = Some p) ->
  Z.of_nat (size m) <= ur_max_packets r ->
  table_ok (mkUdpReassembler m (ur_max_packets r) (ur_timeout r)).
Proof.
  intros (H1 & H2 & H3) Hsub Hs. split_and!; try done. intros k p Hp. apply (H3 k), Hsub, Hp.
Qed.

Lemma push_preserves r f now :
  table_ok r -> fragment_ok f ->
  table_ok (push r f now).1 /\ no_panic (push r f now).2
  /\ forall out, (push r f now).2 = Ok (Some out) -> len out = uf_total_len f.
Proof.
  intros Hr Hf. pose proof (push_spec r f now Hr Hf) as Hs. cbn zeta in Hs.
  pose proof Hr as (Hmax & Hsz & Hall).
  destruct (make_room_size r (uf_key f) now Hmax Hsz) as [M1 M2].
  set (m := make_room r (uf_key f) now) in *.
  assert (Hdel : table_ok (mkUdpReassembler (delete (uf_key f) m) (ur_max_packets r) (ur_timeout r))).
  { apply table_ok_shrink; [done| |].
    - intros k p Hk. apply lookup_delete_Some in Hk as [_ Hk]. by eapply make_room_lookup_Some.
    - pose proof (map_subseteq_size _ _ (delete_subseteq m (uf_key f))). lia. }
  set (p := default _ (m !! uf_key f)) in *.
  destruct (_ && _).
  2:{ rewrite Hs. cbn. by split_and!. }
  destruct Hs as (slot & Hslot & Hs). set (p' := if is_none slot then store p f else p) in *.
  destruct (existsb is_none (pp_fragments p')).
  - destruct Hs as [-> Hp']. cbn. split_and!; try done. unfold table_ok. cbn. split_and!; [done| |].
    + destruct (m !! uf_key f) as [q|] eqn:E.
      * rewrite map_size_insert_Some by done. lia.
      * rewrite map_size_insert_None by done. specialize (M2 eq_refl). lia.
    + apply map_Forall_insert_2; [done|]. intros k q Hq. apply (Hall k). by eapply make_room_lookup_Some.
  - rewrite Hs. cbn. destruct (_ =? _) eqn:E; split_and!; try done.
    intros out [= <-]. rewrite <- slots_len_concat. lia.
Qed.

(** What a push does to the other keys. *)
Lemma push_frame r f now k :
  table_ok r -> fragment_ok f -> k <> uf_key f ->
  ur_entries (push r f now).1 !! k = make_room r (uf_key f) now !! k.
Proof.
  intros Hr Hf Hk. pose proof (push_spec r f now Hr Hf) as Hs. cbn zeta in Hs.
  destruct (_ && _); [destruct Hs as (slot & _ & Hs); destruct (existsb _ _)|].
  - destruct Hs as [-> _]. cbn. by rewrite lookup_insert_ne.
  - rewrite Hs. cbn. by rewrite lookup_delete_ne.
  - rewrite Hs. cbn. by rewrite lookup_delete_ne.
Qed.

Lemma push_params r f now :
  ur_max_packets (push r f now).1 = ur_max_packets r /\ ur_timeout (push r f now).1 = ur_timeout r.
Proof. unfold push. cbn zeta. by repeat case_match. Qed.

Lemma push_dom r f now (K : gset (Z * Z)) :
  table_ok r -> fragment_ok f -> dom (ur_entries r) ⊆ K -> uf_key f ∈ K ->
  dom (ur_entries (push r f now).1) ⊆ K.
Proof.
  intros Hr Hf Hd Hk k Hin. destruct (decide (k = uf_key f)) as [->|Hne]; [done|].
  apply elem_of_dom in Hin as [p Hp]. rewrite push_frame in Hp by done.
  apply make_room_lookup_Some in Hp. apply Hd, elem_of_dom. by exists p.
Qed.

(** ** One packet among others *)
Section Packet.
Variables (aid pid : Z) (payload : list Z) (frags : list UdpFragment).
Hypothesis Hfrags : packet_fragments aid pid payload frags.

Definition slots (S : gset nat) : list (option (list Z)) :=
  imap (fun i f => if decide (i ∈ S) then Some (uf_payload f) else None) frags.

Definition complete (S : gset nat) : bool :=
  forallb (fun i => bool_decide (i ∈ S)) (seq 0 (length frags)).

Lemma complete_spec S : complete S = true <-> forall i, (i < length frags)%nat -> i ∈ S.
Proof.
  unfold complete. rewrite forallb_forall. split; intros Hc i Hi.
  - specialize (Hc i). rewrite bool_decide_eq_true in Hc. apply Hc, in_seq. lia.
  - apply bool_decide_eq_true, Hc. apply in_seq in Hi. lia.
Qed.

Lemma slots_lookup S i f :
  frags !! i = Some f -> slots S !! i = Some (if decide (i ∈ S) then Some (uf_payload f) else None).
Proof. intros Hf. unfold slots. by rewrite list_lookup_imap, Hf. Qed.

Lemma slots_empty : slots ∅ = replicate (length frags) None.
Proof.
  apply list_eq. intros i. unfold slots. rewrite list_lookup_imap.
  destruct (frags !! i) eqn:E; cbn.
  - symmetry. apply lookup_replicate. split; [done|by eapply lookup_lt_Some].
  - symmetry. apply lookup_replicate_None. by apply lookup_ge_None.
Qed.

Lemma slots_insert S i f :
  frags !! i = Some f -> <[i := Some (uf_payload f)]> (slots S) = slots ({[i]} ∪ S).
Proof.
  intros Hf. pose proof (lookup_lt_Some _ _ _ Hf). apply list_eq. intros j.
  destruct (decide (i = j)) as [->|Hne].
  - rewrite list_lookup_insert_eq by (unfold slots; by rewrite length_imap).
    rewrite (slots_lookup _ _ _ Hf). by rewrite decide_True by set_solver.
  - rewrite list_lookup_insert_ne by done. unfold slots. rewrite !list_lookup_imap.
    destruct (frags !! j); [|done]. cbn. f_equal. by do 2 case_decide; set_solver.
Qed.

Lemma slots_add S i : i ∈ S -> slots ({[i]} ∪ S) = slots S.
Proof. intros Hi. f_equal. set_solver. Qed.

Lemma slots_incomplete S : existsb is_none (slots S) = negb (complete S).
Proof.
  apply eq_true_iff_eq. rewrite negb_true_iff, <- not_true_iff_false, complete_spec, existsb_exists. split.
  - intros (o & Ho & Hn) Hc. apply list_elem_of_In, list_elem_of_lookup in Ho as [i Hi].
    unfold slots in Hi. rewrite list_lookup_imap in Hi. destruct (frags !! i) eqn:E; [|done].
    cbn in Hi. rewrite decide_True in Hi by (apply Hc; by eapply lookup_lt_Some). by simplify_eq.
  - intros Hn. destruct (existsb is_none (slots S)) eqn:E; [by apply existsb_exists in E|].
    exfalso. apply Hn. intros i [f Hf]%lookup_lt_is_Some_2.
    destruct (decide (i ∈ S)) as [|Hni]; [done|].
    pose proof (slots_lookup S i f Hf) as Hl. rewrite decide_False in Hl by done.
    assert (existsb is_none (slots S) = true); [|congruence].
    apply existsb_exists. exists None. split; [|done]. apply list_elem_of_In. by eapply list_elem_of_lookup_2.
Qed.

Lemma slots_complete S : complete S = true -> concat (default [] <$> slots S) = payload.
Proof.
  intros Hc. rewrite complete_spec in Hc. destruct Hfrags as (_ & <- & _). f_equal.
  apply list_eq. intros i. rewrite !list_lookup_fmap. unfold slots. rewrite list_lookup_imap.
  destruct (frags !! i) eqn:E; [|done]. cbn.
  by rewrite decide_True by (apply Hc; by eapply lookup_lt_Some).
Qed.

(** The table holds exactly the fragments [S] of the packet, created at [t0] or later. *)
Definition collecting (r : UdpReassembler) (t0 : Z) (S : gset nat) : Prop :=
  match ur_entries r !! (aid, pid) with
  | None => S = ∅
  | Some p => t0 <= pp_created p /\ pp_total_len p = len payload /\ pp_fragments p = slots S
  end.

Section Step.
Variables (r : UdpReassembler) (K : gset (Z * Z)) (t0 now : Z).
Hypothesis Hr : table_ok r.
Hypothesis HK : dom (ur_entries r) ⊆ K.
Hypothesis Hsize : Z.of_nat (size K) <= ur_max_packets r.
Hypothesis Htime : t0 <= now <= t0 + ur_timeout r.

Lemma own_entry_kept f S :
  uf_key f ∈ K -> collecting r t0 S ->
  make_room r (uf_key f) now !! (aid, pid) = ur_entries r !! (aid, pid).
Proof.
  intros Hk Hc. unfold collecting in Hc. destruct (ur_entries r !! (aid, pid)) as [p|] eqn:E.
  - destruct Hc as (Hcr & _). apply (make_room_keeps r (uf_key f) now K); try done; lia.
  - by apply make_room_none.
Qed.

Lemma push_foreign f S :
  fragment_ok f -> uf_key f ∈ K -> uf_key f <> (aid, pid) -> collecting r t0 S ->
  collecting (push r f now).1 t0 S.
Proof.
  intros Hf Hk Hne Hc. unfold collecting. rewrite push_frame by done.
  rewrite (own_entry_kept f S) by done. exact Hc.
Qed.

Lemma push_own i f S :
  frags !! i = Some f -> uf_key f ∈ K -> collecting r t0 S ->
  (push r f now).2 = Ok (if complete ({[i]} ∪ S) then Some payload else None)
  /\ (complete ({[i]} ∪ S) = false -> collecting (push r f now).1 t0 ({[i]} ∪ S)).
Proof.
  intros Hf Hk Hc. pose proof Hfrags as (Hn & _ & Hlook).
  destruct (Hlook i f Hf) as (Fa & Fp & Fi & Fc & Ft & Hfo).
  assert (Hkey : uf_key f = (aid, pid)) by (unfold uf_key; by rewrite Fa, Fp).
  pose proof (own_entry_kept f S Hk Hc) as Hkept.
  pose proof (push_spec r f now Hr Hfo) as Hs. cbn zeta in Hs.
  rewrite Hkey in Hs, Hkept. rewrite Hkept in Hs. unfold collecting in Hc.
  set (p := default _ (ur_entries r !! (aid, pid))) in Hs.
  assert (Hp : t0 <= pp_created p /\ pp_total_len p = len payload /\ pp_fragments p = slots S).
  { unfold p. destruct (ur_entries r !! (aid, pid)) as [q|]; [done|]. subst S. cbn.
    split_and!; [lia|done|]. rewrite slots_empty, Fc. unfold len. by rewrite Nat2Z.id. }
  destruct Hp as (P1 & P2 & P3).
  assert (Hlen : len (slots S) = len frags) by (unfold slots, len; by rewrite length_imap).
  rewrite P2, P3, Ft, Fc, Hlen, !Z.eqb_refl in Hs. cbn [andb] in Hs.
  destruct Hs as (slot & Hslot & Hs). rewrite Fi, Nat2Z.id, (slots_lookup S i f Hf) in Hslot.
  injection Hslot as <-. set (p' := if is_none _ then store p f else p) in Hs.
  assert (P3' : pp_fragments p' = slots ({[i]} ∪ S) /\ pp_created p' = pp_created p
                /\ pp_total_len p' = pp_total_len p).
  { unfold p'. destruct (decide (i ∈ S)); cbn [is_none].
    - by rewrite slots_add.
    - split_and!; [|done|done]. cbn. rewrite P3, Fi, Nat2Z.id. by apply slots_insert. }
  destruct P3' as (P4 & P5 & P6). rewrite P4, slots_incomplete in Hs.
  destruct (complete ({[i]} ∪ S)) eqn:Ec; cbn [negb] in Hs.
  - rewrite Hs. cbn. rewrite slots_len_concat, slots_complete, Z.eqb_refl by done. done.
  - destruct Hs as [-> _]. cbn. split; [done|]. intros _. unfold collecting. cbn.
    rewrite lookup_insert_eq. rewrite P5, P6. by split_and!.
Qed.
End Step.

(** ** A trace of pushes *)

Definition run (r : UdpReassembler) (evs : list (UdpFragment * Z)) : UdpReassembler :=
  foldl (fun r e => (push r e.1 e.2).1) r evs.

(** The fragments of our packet among the events. *)
Definition own_index (e : UdpFragment * Z) : option nat :=
  if decide (uf_key e.1 = (aid, pid)) then Some (Z.to_nat (uf_index e.1)) else None.

Definition own_received (evs : list (UdpFragment * Z)) : gset nat := list_to_set (omap own_index evs).

Definition event_ok (K : gset (Z * Z)) (t0 t1 : Z) (e : UdpFragment * Z) : Prop :=
  fragment_ok e.1 /\ uf_key e.1 ∈ K /\ t0 <= e.2 <= t1 /\ (uf_key e.1 = (aid, pid) -> e.1 ∈ frags).

Lemma complete_mono S T : S ⊆ T -> complete S = true -> complete T = true.
Proof. rewrite !complete_spec. set_solver. Qed.

Lemma own_event K t0 t1 f now :
  event_ok K t0 t1 (f, now) -> uf_key f = (aid, pid) ->
  own_index (f, now) = Some (Z.to_nat (uf_index f)) /\ frags !! Z.to_nat (uf_index f) = Some f.
Proof.
  intros (_ & _ & _ & Hin) Hk. specialize (Hin Hk). cbn in Hin.
  apply list_elem_of_lookup in Hin as [i Hi]. pose proof Hfrags as (_ & _ & Hl).
  destruct (Hl i f Hi) as (_ & _ & Fi & _). unfold own_index. cbn. rewrite decide_True by done.
  rewrite Fi, Nat2Z.id. done.
Qed.

Lemma run_collecting (K : gset (Z * Z)) t0 evs r (S : gset nat) :
  table_ok r -> dom (ur_entries r) ⊆ K -> Z.of_nat (size K) <= ur_max_packets r ->
  Forall (event_ok K t0 (t0 + ur_timeout r)) evs ->
  collecting r t0 S -> complete (own_received evs ∪ S) = false ->
  table_ok (run r evs) /\ dom (ur_entries (run r evs)) ⊆ K
  /\ ur_max_packets (run r evs) = ur_max_packets r /\ ur_timeout (run r evs) = ur_timeout r
  /\ collecting (run r evs) t0 (own_received evs ∪ S).
Proof.
  revert r S. induction evs as [|[f now] evs IH]; intros r S Hr Hd Hsz Hev Hc Hinc.
  - cbn. unfold own_received. cbn. rewrite (left_id_L ∅ (∪)). by split_and!.
  - apply Forall_cons_1 in Hev as [He Hev]. pose proof He as (Hfo & Hk & Ht & _). cbn in Hfo, Hk, Ht.
    destruct (push_params r f now) as [Pm Pt].
    pose proof (push_preserves r f now Hr Hfo) as (Hr' & _). pose proof (push_dom r f now K Hr Hfo Hd Hk) as Hd'.
    change (run r ((f, now) :: evs)) with (run (push r f now).1 evs).
    pose proof (IH (push r f now).1) as IHr. rewrite Pm, Pt in IHr. clear IH.
    destruct (decide (uf_key f = (aid, pid))) as [Hown|Hne].
    + destruct (own_event _ _ _ _ _ He Hown) as [Hi Hlk]. set (i := Z.to_nat (uf_index f)) in *.
      assert (Hset : own_received ((f, now) :: evs) ∪ S = own_received evs ∪ ({[i]} ∪ S)).
      { unfold own_received. cbn [omap list_omap]. rewrite Hi. cbn. set_solver. }
      rewrite Hset in *. apply IHr; try done.
      apply (push_own r K t0 now Hr Hd); try done; try lia.
      destruct (complete ({[i]} ∪ S)) eqn:E; [|done].
        apply (complete_mono _ (own_received evs ∪ ({[i]} ∪ S))) in E; [congruence|set_solver].
    + assert (Hset : own_received ((f, now) :: evs) = own_received evs).
      { unfold own_received. cbn [omap list_omap]. unfold own_index at 1. cbn [fst]. by rewrite decide_False by done. }
      rewrite Hset in *. apply IHr; try done. apply (push_foreign r K t0 now Hr Hd); done.
Qed.
End Packet.
End Reassembler.

(** ** Claims *)
Section Claims.
Context `{HashIter} `{YoungCrypto}.

(** [ds] is what the sender put on the wire for one packet, and [decode] is what the
    receiver of that session runs on each datagram. *)
Definition sent_as (key : list Z) (aid pid : Z) (payload : list Z) (mx : Z) (ds : list (list Z))
    (decode : list Z -> outcome UdpFragment) : Prop :=
  (encode_udp_fragments key aid pid payload mx = Ok ds /\ decode = decode_udp_fragment key)
  \/ exists scheme direction, scheme_ok scheme
      /\ encode_udp_fragments_padded key scheme direction aid pid payload mx = Some (Ok ds)
      /\ decode = decode_udp_fragment_padded key scheme direction.

Lemma sent_as_fragments key aid pid payload mx ds decode :
  u64 aid -> u32 pid -> sent_as key aid pid payload mx ds decode ->
  exists frags, packet_fragments aid pid payload frags /\ Forall2 (fun d f => decode d = Ok f) ds frags.
Proof.
  intros Ha Hp [[He ->]|(scheme & direction & Hs & He & ->)].
  - destruct (encode_udp_fragments_spec key aid pid payload mx ds Ha Hp He) as (frags & F1 & F2).
    exists frags. split; [done|]. eapply Forall2_impl; [exact F2|]. naive_solver.
  - destruct (encode_udp_fragments_padded_spec key scheme direction aid pid payload mx Hs Ha Hp)
      as (r & Hr & [[-> _]|(ds' & frags & -> & F1 & F2)]); rewrite Hr in He; [done|].
    injection He as ->. exists frags. split; [done|]. eapply Forall2_impl; [exact F2|]. naive_solver.
Qed.

(** [C5] Reassembly in any order: datagrams of a packet arrive in any order, with
    duplicates and interleaved with well-formed fragments of other packets; as long
    as the packets in flight fit the table and everything arrives within the
    timeout, the datagram that completes the packet makes [push] return exactly the
    payload the sender fragmented, and every earlier one returns [None]. *)
Theorem udp_reassembly_any_order (key : list Z) (aid pid : Z) (payload : list Z) (mx : Z)
    (ds : list (list Z)) (decode : list Z -> outcome UdpFragment) (r : UdpReassembler)
    (K : gset (Z * Z)) (t0 : Z) (evs : list (UdpFragment * Z)) (d : list Z) (f : UdpFragment) (now : Z) :
  u64 aid -> u32 pid -> sent_as key aid pid payload mx ds decode ->
  table_ok r -> ur_entries r !! (aid, pid) = None ->
  dom (ur_entries r) ⊆ K -> Z.of_nat (size K) <= ur_max_packets r ->
  Forall (fun e => fragment_ok e.1 /\ uf_key e.1 ∈ K /\ t0 <= e.2 <= t0 + ur_timeout r
            /\ (uf_key e.1 = (aid, pid) -> exists d, d ∈ ds /\ decode d = Ok e.1)) evs ->
  d ∈ ds -> decode d = Ok f -> (aid, pid) ∈ K -> t0 <= now <= t0 + ur_timeout r ->
  ~ (forall i : nat, (i < length ds)%nat -> i ∈ own_received aid pid evs) ->
  (push (run r evs) f now).2
  = Ok (if decide (set_seq 0 (length ds) ⊆ own_received aid pid (evs ++ [(f, now)]))
        then Some payload else None).
Proof.
  intros Ha Hp Hsent Hr Hnone HdK Hsz Hev Hd Hdec HK Hnow Hinc.
  destruct (sent_as_fragments _ _ _ _ _ _ _ Ha Hp Hsent) as (frags & Hfr & H2).
  pose proof (Forall2_length _ _ _ H2) as Hlen.
  assert (Hin : forall d g, d ∈ ds -> decode d = Ok g -> g ∈ frags).
  { intros d' g Hd' Hg. apply list_elem_of_lookup in Hd' as [i Hi].
    destruct (Forall2_lookup_l _ _ _ _ _ H2 Hi) as (g' & Hg' & E).
    assert (g' = g) as -> by congruence. by eapply list_elem_of_lookup_2. }
  assert (Hev' : Forall (event_ok aid pid frags K t0 (t0 + ur_timeout r)) evs).
  { eapply List.Forall_impl; [|exact Hev]. intros e (E1 & E2 & E3 & E4). split_and!; try done; try lia.
    intros Hk. destruct (E4 Hk) as (d' & Hd' & Hg). by eapply Hin. }
  pose proof (Hin _ _ Hd Hdec) as Hf. apply list_elem_of_lookup in Hf as [i Hi].
  pose proof Hfr as (_ & _ & Hl). destruct (Hl i f Hi) as (Fa & Fp & Fi & _ & _ & Hfo).
  assert (Hkey : uf_key f = (aid, pid)) by (unfold uf_key; by rewrite Fa, Fp).
  destruct (run_collecting aid pid payload frags Hfr K t0 evs r ∅) as (R1 & R2 & R3 & R4 & R5); try done.
  { unfold collecting. by rewrite Hnone. }
  { apply not_true_iff_false. rewrite complete_spec, <- Hlen, (right_id_L ∅ (∪)). done. }
  rewrite (right_id_L ∅ (∪)) in R5. rewrite <- R3 in Hsz. rewrite <- R4 in Hnow.
  destruct (push_own aid pid payload frags Hfr (run r evs) K t0 now R1 R2 Hsz Hnow i f _ Hi
              ltac:(by rewrite Hkey) R5) as [-> _].
  assert (Hown : own_received aid pid (evs ++ [(f, now)]) = {[i]} ∪ own_received aid pid evs).
  { unfold own_received. rewrite omap_app. cbn [omap list_omap]. unfold own_index at 2. cbn [fst].
    rewrite decide_True, Fi, Nat2Z.id by done. rewrite list_to_set_app_L. cbn. set_solver. }
  rewrite Hown. f_equal. case_decide as Hc.
  - replace (complete frags ({[i]} ∪ own_received aid pid evs)) with true; [done|]. symmetry.
    apply complete_spec. intros j Hj. apply Hc, elem_of_set_seq. lia.
  - replace (complete frags ({[i]} ∪ own_received aid pid evs)) with false; [done|]. symmetry.
    apply not_true_iff_false. rewrite complete_spec. intros Hall. apply Hc. intros j Hj.
    apply elem_of_set_seq in Hj. apply Hall. lia.
Qed.

(** The reassembler is robust against any sequence of decoded fragments, from
    the initial table on: no panic, never more than 256 partial packets of at most
    256 slots, no complete packet left behind, and every packet it delivers has
    exactly the length its fragments announced. *)
Theorem udp_reassembler_robust evs f now :
  Forall (fun e => fragment_ok e.1) evs -> fragment_ok f ->
  let r := run UdpReassembler_default evs in
  table_ok r /\ ur_max_packets r = 256 /\ no_panic (push r f now).2
  /\ forall out, (push r f now).2 = Ok (Some out) -> len out = uf_total_len f.
Proof.
  intros Hev Hf r.
  assert (Hr : table_ok r /\ ur_max_packets r = 256).
  { unfold r. assert (Hd : table_ok UdpReassembler_default /\ ur_max_packets UdpReassembler_default = 256).
    { split; [|done]. split_and!; [done|done|]. apply map_Forall_empty. }
    clear r. revert Hd. generalize UdpReassembler_default as r.
    induction Hev as [|[g t] evs Hg Hev IH]; intros r [Hr Hm]; [done|]. cbn. apply IH.
    destruct (push_preserves r g t Hr Hg) as (Hr' & _). destruct (push_params r g t) as [-> _]. done. }
  destruct Hr as [Hr Hm]. destruct (push_preserves r f now Hr Hf) as (_ & Hp & Ho). by split_and!.
Qed.
End Claims.

(** ** Witnesses *)

Module ReassemblyWitness.
Import Concrete.

Definition key : list Z := small_range 32.
Definition payload : list Z := [1; 2; 3; 4; 5].
Definition datagrams : list (list Z) :=
  match encode_udp_fragments key 9 1 payload 40 with Ok ds => ds | _ => [] end.
Definition frag (i : nat) : UdpFragment :=
  match decode_udp_fragment key (nth i datagrams []) with
  | Ok f => f | _ => mkUdpFragment 0 0 0 0 0 0 [] end.
Definition other : UdpFragment := mkUdpFragment 7 7 0 2 9 0 [1].

Lemma frag_in i : (i < 3)%nat -> nth i datagrams [] ∈ datagrams /\ decode_udp_fragment key (nth i datagrams []) = Ok (frag i).
Proof.
  intros Hi. destruct i as [|[|[|i]]]; [..|lia];
    (split; [apply list_elem_of_In, nth_In; vm_compute; lia|vm_compute; reflexivity]).
Qed.

Lemma frag_is_ok i : (i < 3)%nat -> fragment_ok (frag i).
Proof.
  intros Hi. destruct i as [|[|[|i]]]; [..|lia]; vm_compute; repeat split; congruence || done.
Qed.

Definition event_pre (e : UdpFragment * Z) : Prop :=
  fragment_ok e.1 /\ uf_key e.1 ∈ ({[ (9, 1); (7, 7) ]} : gset (Z * Z))
  /\ 0 <= e.2 <= 0 + ur_timeout UdpReassembler_default
  /\ (uf_key e.1 = (9, 1) -> exists d, d ∈ datagrams /\ decode_udp_fragment key d = Ok e.1).

Lemma own_event_ok i t : (i < 3)%nat -> 0 <= t <= 10000 -> event_pre (frag i, t).
Proof.
  intros Hi Ht. split; [by apply frag_is_ok|]. split; [|split; [exact Ht|]].
  - assert (Hk : uf_key (frag i) = (9, 1)) by (destruct i as [|[|[|i]]]; [..|lia]; vm_compute; reflexivity).
    cbn [fst]. rewrite Hk. set_solver.
  - intros _. exists (nth i datagrams []). by apply frag_in.
Qed.

Lemma other_ok : fragment_ok other.
Proof. vm_compute; repeat split; congruence || done. Qed.

Lemma other_event_ok : event_pre (other, 6).
Proof.
  split; [exact other_ok|]. split; [cbn; set_solver|]. split; [|discriminate].
  cbn. lia.
Qed.

Lemma udp_reassembly_any_order_witness :
  (push (run UdpReassembler_default [(frag 2, 5); (other, 6); (frag 0, 7); (frag 2, 8)]) (frag 1) 9).2
  = Ok (Some payload).
Proof.
  rewrite (udp_reassembly_any_order key 9 1 payload 40 datagrams (decode_udp_fragment key)
    UdpReassembler_default {[ (9, 1); (7, 7) ]} 0
    [(frag 2, 5); (other, 6); (frag 0, 7); (frag 2, 8)] (nth 1 datagrams []) (frag 1) 9).
  - vm_compute. reflexivity.
  - unfold uint. lia.
  - unfold uint. lia.
  - left. split; [vm_compute; reflexivity|reflexivity].
  - split_and!; [done|done|]. apply map_Forall_empty.
  - reflexivity.
  - cbn. set_solver.
  - vm_compute. discriminate.
  - apply Forall_cons_2; [apply own_event_ok; lia|]. apply Forall_cons_2; [exact other_event_ok|].
    apply Forall_cons_2; [apply own_event_ok; lia|]. apply Forall_cons_2; [apply own_event_ok; lia|constructor].
  - apply frag_in. lia.
  - apply frag_in. lia.
  - set_solver.
  - change (0 + ur_timeout UdpReassembler_default) with 10000. lia.
  - intros Hall. specialize (Hall 1%nat ltac:(vm_compute; lia)). apply (bool_decide_eq_true_2 _) in Hall. vm_compute in Hall. discriminate Hall.
Defined.

Lemma udp_reassembler_robust_witness :
  no_panic (push (run UdpReassembler_default [(other, 1)]) (frag 0) 2).2.
Proof.
  apply (udp_reassembler_robust [(other, 1)] (frag 0) 2).
  - constructor; [exact other_ok|constructor].
  - apply frag_is_ok. lia.
Defined.
End ReassemblyWitness.
