(* ===== verification/YoungAuth.v ===== *)
(** * Young wire protocol, part 6: session authentication and padding negotiation

    Models the key ring, the replay cache, the authorization token, the server
    proof, the padding-scheme header and the derived values of
    [src/crates/core-young/src/codec.rs].  Times are seconds passed in by the
    caller, as in the code; randomness ([rand], [ChaCha8Rng]) is an argument.
    [check_and_insert] runs under the cache's mutex, so it is one atomic step on
    the map of seen tokens; the poisoned-lock error is not modelled. *)

From stdpp Require Import base list gmap strings numbers option.
From S2P Require Import Prelude Net YoungBase Instances.

(** ** Keys *)
Section Keys.
Context `{YoungCrypto}.

(** A [YoungKey] is its 32 secret bytes. *)
Definition key_id (key : list Z) : list Z := slice (sha256 key) 0 8.

Record KeyRing : Type := mkKeyRing { kr_keys : list (list Z) }.

Fixpoint distinct_ids (ids : gset (list Z)) (keys : list (list Z)) : bool :=
  match keys with
  | [] => true
  | key :: keys' =>
    if decide (key_id key ∈ ids) then false else distinct_ids ({[key_id key]} ∪ ids) keys'
  end.

Definition KeyRing_new (keys : list (list Z)) : outcome KeyRing :=
  if len keys =? 0 then Err InvalidInput else
  if negb (distinct_ids ∅ keys) then Err InvalidInput else
  Ok (mkKeyRing keys).

Definition KeyRing_find (ring : KeyRing) (id : list Z) : option (list Z) :=
  List.find (fun key => bool_decide (key_id key = id)) (kr_keys ring).

Lemma len_key_id key : len (key_id key) = 8.
Proof. unfold key_id. apply len_slice; [lia|]. unfold len. rewrite sha256_len. lia. Qed.

Lemma key_id_ok key : bytes_ok (key_id key).
Proof. apply slice_bytes_ok, sha256_ok. Qed.

Lemma distinct_ids_spec ids keys key :
  distinct_ids ids keys = true -> key ∈ keys ->
  key_id key ∉ ids /\ List.find (fun k => bool_decide (key_id k = key_id key)) keys = Some key.
Proof.
  revert ids. induction keys as [|k keys IH]; intros ids Hd Hin; [by apply elem_of_nil in Hin|].
  cbn in Hd. destruct (decide (key_id k ∈ ids)) as [|Hni]; [done|].
  apply elem_of_cons in Hin as [->|Hin]; cbn.
  - by rewrite bool_decide_true.
  - destruct (IH _ Hd Hin) as [I1 I2]. rewrite bool_decide_false by set_solver. set_solver.
Qed.

Lemma KeyRing_find_member keys ring key :
  KeyRing_new keys = Ok ring -> key ∈ keys -> KeyRing_find ring (key_id key) = Some key.
Proof.
  unfold KeyRing_new. intros Hn Hin. destruct (len keys =? 0); [done|].
  destruct (distinct_ids ∅ keys) eqn:E; [|done]. injection Hn as <-.
  by eapply distinct_ids_spec.
Qed.
End Keys.

(** ** Replay cache *)

Record ReplayCache : Type := mkReplayCache {
  rc_entries : gmap (list Z) Z;
  rc_max_entries : Z
}.

Definition ReplayCache_default : ReplayCache := mkReplayCache ∅ 65536.
Definition ReplayCache_with_capacity (max_entries : Z) : ReplayCache :=
  mkReplayCache ∅ (Z.max max_entries 1).

Section Replay.
Context `{HashIter}.

Definition check_and_insert (c : ReplayCache) (id nonce : list Z) (timestamp now window_secs : Z)
  : ReplayCache * outcome unit :=
  let with_entries m := mkReplayCache m (rc_max_entries c) in
  let replay_key := id ++ nonce in
  let cutoff := saturating_sub now (saturating_mul 64 window_secs 2) in
  let entries := filter (fun e => cutoff <= e.2) (rc_entries c) in
  match entries !! replay_key with
  | Some _ => (with_entries entries, Err PermissionDenied)
  | None =>
    let entries :=
      if rc_max_entries c <=? Z.of_nat (size entries) then
        match min_by_key (fun e => e.2) (hash_iter entries) with
        | Some (oldest, _) => delete oldest entries
        | None => entries
        end
      else entries in
    (with_entries (<[replay_key := timestamp]> entries), Ok tt)
  end.

(** The tokens in the cache that are at least as recent as [t] *)
Definition newer (m : gmap (list Z) Z) (t : Z) : Z := Z.of_nat (size (filter (fun e => t <= e.2) m)).

Lemma newer_mono (m m' : gmap (list Z) Z) t : m ⊆ m' -> newer m t <= newer m' t.
Proof.
  intros Hm. unfold newer. apply inj_le, map_subseteq_size. intros k. apply map_subseteq_spec. intros i x [Hi Hx]%map_lookup_filter_Some.
  apply map_lookup_filter_Some. split; [by eapply lookup_weaken|done].
Qed.

Lemma newer_insert m k ts t : newer (<[k := ts]> m) t <= newer m t + 1.
Proof.
  unfold newer. rewrite map_filter_insert. cbn. case_decide.
  - set (f := filter _ m). destruct (f !! k) eqn:E; [rewrite map_size_insert_Some by done|rewrite map_size_insert_None by done]; lia.
  - assert (filter (fun e => t <= e.2) (delete k m) ⊆ filter (fun e => t <= e.2) m) as Hs%map_subseteq_size; [|lia].
    apply map_filter_subseteq_mono, delete_subseteq.
Qed.

(** A token seen at [t] stays recorded through a call at a time not after
    [t + 2 * window], as long as there is room for another token as recent: only the oldest is evicted. *)
Lemma check_and_insert_keeps c id nonce ts now w k t :
  rc_entries c !! k = Some t -> 0 <= w < 2 ^ 63 -> now <= t + 2 * w -> 0 <= t ->
  let r := check_and_insert c id nonce ts now w in
  let new := match r.2 with Ok _ => 1 | _ => 0 end in
  newer (rc_entries c) t + new <= rc_max_entries c ->
  rc_entries r.1 !! k = Some t /\ newer (rc_entries r.1) t <= newer (rc_entries c) t + new.
Proof.
  intros Hk Hw Hnow Ht. unfold check_and_insert. set (m := filter _ _).
  assert (Hm : m !! k = Some t).
  { apply map_lookup_filter_Some. split; [done|]. cbn. unfold saturating_sub, saturating_mul.
    change (2 ^ 64) with (2 * 2 ^ 63). rewrite Z.min_l by lia. lia. }
  assert (Hmm : newer m t <= newer (rc_entries c) t) by (apply newer_mono, map_filter_subseteq).
  destruct (m !! (id ++ nonce)) as [q|] eqn:E; cbn; [intros _; split; [done|lia]|]. intros Hsz.
  set (m' := if _ <=? _ then _ else m). assert (Hm' : m' !! k = Some t /\ newer m' t <= newer m t).
  { subst m'. destruct (Z.leb_spec (rc_max_entries c) (Z.of_nat (size m))) as [Hfull|]; [|done].
    pose proof (hash_min_spec (fun e => e.2) m) as Hmin. destruct (min_by_key _ _) as [[o to]|]; [|done]. destruct Hmin as [Ho Hmin].
    split; [|apply newer_mono, delete_subseteq]. rewrite lookup_delete. case_decide as Eo; [|done]. exfalso. subst o. rewrite Hm in Ho. injection Ho as <-.
    assert (newer m t = Z.of_nat (size m)) as Hall; [|lia]. unfold newer. rewrite map_filter_id; [done|]. intros i x Hix. exact (Hmin i x Hix). }
  destruct Hm' as [Hk' Hn']. split; [by rewrite lookup_insert_ne by congruence|]. pose proof (newer_insert m' (id ++ nonce) ts t). lia.
Qed.

Lemma check_and_insert_size c id nonce ts now w :
  (size (rc_entries (check_and_insert c id nonce ts now w).1) <= S (size (rc_entries c)))%nat
  /\ rc_max_entries (check_and_insert c id nonce ts now w).1 = rc_max_entries c.
Proof.
  unfold check_and_insert. set (m := filter _ _).
  assert (size m <= size (rc_entries c))%nat as Hs by (apply map_subseteq_size, map_filter_subseteq).
  destruct (m !! (id ++ nonce)) as [q|] eqn:E; cbn; [split; [lia|done]|]. split; [|done].
  assert (forall m' : gmap (list Z) Z, (size (<[id ++ nonce := ts]> m') <= S (size m'))%nat) as Hi.
  { intros m'. destruct (m' !! (id ++ nonce)) eqn:E'.
    - rewrite map_size_insert_Some by done. lia.
    - rewrite map_size_insert_None by done. lia. }
  etransitivity; [apply Hi|]. destruct (_ <=? _); [|lia]. destruct (min_by_key _ _) as [[o t]|]; [|lia].
  pose proof (map_subseteq_size _ _ (delete_subseteq m o)). lia.
Qed.

Lemma check_and_insert_bounded c id nonce ts now w :
  1 <= rc_max_entries c -> Z.of_nat (size (rc_entries c)) <= rc_max_entries c ->
  Z.of_nat (size (rc_entries (check_and_insert c id nonce ts now w).1)) <= rc_max_entries c.
Proof.
  intros Hmax Hsz. unfold check_and_insert. set (m := filter _ _).
  assert (size m <= size (rc_entries c))%nat as Hs by (apply map_subseteq_size, map_filter_subseteq).
  destruct (m !! (id ++ nonce)) as [q|] eqn:E; cbn; [lia|].
  destruct (Z.leb_spec (rc_max_entries c) (Z.of_nat (size m))) as [Hf|Hf].
  - pose proof (hash_min_spec (fun e => e.2) m) as Hmin. destruct (min_by_key _ _) as [[o t]|].
    + destruct Hmin as [Ho _]. rewrite map_size_insert_None by (rewrite lookup_delete_None; by right).
      rewrite map_size_delete_Some by done.
      assert (size m <> 0)%nat by (intros E0%map_size_empty_inv; by rewrite E0 in Ho). lia.
    + rewrite Hmin, map_size_empty in Hf. lia.
  - rewrite map_size_insert_None by done. lia.
Qed.
End Replay.

(** ** Authorization tokens *)
Section Tokens.
Context `{YoungCrypto} `{HashIter}.

Definition create_authorization_at (key : list Z) (authority path : string)
    (capabilities timestamp : Z) (nonce : list Z) : string :=
  let token := [VERSION] ++ key_id key ++ be_bytes 8 timestamp ++ nonce ++ be_bytes 4 capabilities in
  let tag := hmac_tag key [str_bytes "young/session/v1"; str_bytes authority; str_bytes path; token] in
  b64_encode (token ++ tag).

(** [clock] is the reading of [unix_time_secs], [nonce] the random bytes drawn. *)
Definition create_authorization (clock : outcome Z) (nonce : list Z) (key : list Z)
    (authority path : string) (capabilities : Z) : outcome (string * list Z) :=
  timestamp ← clock;
  Ok (create_authorization_at key authority path capabilities timestamp nonce, nonce).

Definition verify_authorization (encoded authority path : string) (keys : KeyRing)
    (replay : ReplayCache) (now clock_skew_secs : Z)
  : ReplayCache * outcome (list Z * list Z * Z) :=
  match b64_decode encoded with
  | None => (replay, Err PermissionDenied)
  | Some token =>
    let parsed :=
      bad ← (if negb (len token =? AUTH_TOKEN_BYTES) then Ok true else
             v ← index token 0; Ok (negb (v =? VERSION)));
      if (bad : bool) then Err PermissionDenied else
      id ← get_slice token 1 9;
      ts ← get_slice token 9 17;
      let timestamp := be_val ts in
      nonce ← get_slice token 17 33;
      caps ← get_slice token 33 37;
      let capabilities := be_val caps in
      if clock_skew_secs <? abs_diff now timestamp then Err PermissionDenied else
      key ← ok_or (KeyRing_find keys id) PermissionDenied;
      signed ← get_slice token 0 37;
      tag ← get_slice token 37 (len token);
      _ ← verify_hmac key [str_bytes "young/session/v1"; str_bytes authority; str_bytes path; signed] tag;
      Ok (id, timestamp, key, nonce, capabilities) in
    match parsed with
    | Ok (id, timestamp, key, nonce, capabilities) =>
      let '(replay, r) := check_and_insert replay id nonce timestamp now clock_skew_secs in
      (replay, _ ← r; Ok (key, nonce, capabilities))
    | Err e => (replay, Err e)
    | Panic => (replay, Panic)
    end
  end.

Definition server_accept_proof (key client_nonce : list Z) : string :=
  b64_encode (hmac_tag key [str_bytes "young/server-accept/v1"; client_nonce]).

Definition verify_server_accept_proof (key client_nonce : list Z) (encoded : string) : outcome unit :=
  proof ← ok_or (b64_decode encoded) PermissionDenied;
  verify_hmac key [str_bytes "young/server-accept/v1"; client_nonce] proof.

Definition derive_session_key (key exporter client_nonce : list Z) : list Z :=
  hmac_tag key [str_bytes "young/exporter/v1"; exporter; client_nonce].

(** [str::trim_end_matches('/')] on the bytes of a string. *)
Fixpoint trim_end_slashes (l : list Z) : list Z :=
  match l with
  | [] => []
  | c :: l' => match trim_end_slashes l' with
               | [] => if c =? 47 then [] else [c]
               | r => c :: r
               end
  end.

Definition derive_rotating_path (key : list Z) (base_path : string) (unix_seconds : Z) : string :=
  let day := unix_seconds / 86400 in
  let suffix := hmac_tag key [str_bytes "young/path/v1"; be_bytes 8 day] in
  let token := b64_encode (slice suffix 0 9) in
  let base := match str_bytes base_path with
              | 47 :: _ => trim_end_slashes (str_bytes base_path)
              | _ => [47] ++ trim_end_slashes (str_bytes base_path)
              end in
  str_of_bytes (base ++ [47] ++ str_bytes token).

(** ** Lemmas *)

(** The parsed content of a decoded token that passes every check before the
    replay cache. *)
Definition token_valid (token : list Z) (authority path : string) (keys : KeyRing)
    (now skew : Z) (key nonce : list Z) (timestamp capabilities : Z) : Prop :=
  len token = 69 /\ index token 0 = Ok VERSION
  /\ KeyRing_find keys (slice token 1 9) = Some key
  /\ timestamp = be_val (slice token 9 17) /\ nonce = slice token 17 33
  /\ capabilities = be_val (slice token 33 37) /\ Z.abs (now - timestamp) <= skew
  /\ slice token 37 69
     = hmac_tag key [str_bytes "young/session/v1"; str_bytes authority; str_bytes path; slice token 0 37].

Lemma verify_authorization_spec encoded authority path keys replay now skew :
  (exists token key nonce timestamp capabilities,
     b64_decode encoded = Some token
     /\ token_valid token authority path keys now skew key nonce timestamp capabilities
     /\ verify_authorization encoded authority path keys replay now skew
        = let '(replay', r) := check_and_insert replay (slice token 1 9) nonce timestamp now skew in
          (replay', _ ← r; Ok (key, nonce, capabilities)))
  \/ (verify_authorization encoded authority path keys replay now skew = (replay, Err PermissionDenied)
      /\ forall token key nonce timestamp capabilities, b64_decode encoded = Some token ->
         ~ token_valid token authority path keys now skew key nonce timestamp capabilities).
Proof.
  unfold verify_authorization, token_valid. destruct (b64_decode encoded) as [token|]; [|right; naive_solver].
  change AUTH_TOKEN_BYTES with 69.
  destruct (Z.eqb_spec (len token) 69) as [Hl|Hl]; cbn [negb]; [|right; cbn; naive_solver].
  destruct (index_ok token 0) as (v & Hv & _); [lia|]. rewrite Hv. cbn [mbind outcome_bind].
  destruct (Z.eqb_spec v VERSION) as [->|Hne]; cbn [negb].
  2:{ right. split; [done|]. intros ????? [= <-] (_ & E & _). congruence. }
  rewrite Hl, !get_slice_ok by lia. cbn [mbind outcome_bind]. unfold abs_diff.
  destruct (Z.ltb_spec skew (Z.abs (now - be_val (slice token 9 17)))).
  { right. split; [done|]. intros ????? [= <-] (_ & _ & _ & -> & _ & _ & E & _). lia. }
  destruct (KeyRing_find keys (slice token 1 9)) as [key|] eqn:Ek; cbn [ok_or mbind outcome_bind].
  2:{ right. split; [done|]. intros ????? [= <-] (_ & _ & E & _). congruence. }
  unfold verify_hmac. case_bool_decide as Ht; cbn [mbind outcome_bind].
  - left. exists token, key. do 3 eexists. split; [done|]. split; [split_and!; try done|done].
  - right. split; [done|]. intros token' key' nonce' ts' caps' [= <-] (_ & _ & E & _ & _ & _ & _ & E2).
    by simplify_eq.
Qed.

(** The token [create_authorization_at] builds. *)
Lemma created_token_valid keys ring key authority path caps ts nonce now skew :
  KeyRing_new keys = Ok ring -> key ∈ keys -> len nonce = 16 -> bytes_ok nonce -> u64 ts -> u32 caps ->
  Z.abs (now - ts) <= skew ->
  exists token, b64_decode (create_authorization_at key authority path caps ts nonce) = Some token
    /\ token_valid token authority path ring now skew key nonce ts caps
    /\ slice token 1 9 = key_id key.
Proof.
  intros Hring Hin Hn Hnb Hts Hcaps Hskew. unfold create_authorization_at. set (body := [VERSION] ++ _).
  set (tag := hmac_tag _ _). assert (Htag : len tag = 32) by (unfold tag, len; by rewrite length_hmac_tag).
  pose proof (len_key_id key) as Hid.
  assert (Hbody : len body = 37) by (subst body; lens).
  exists (body ++ tag). split.
  { apply b64_roundtrip. apply Forall_app. split; [|apply hmac_sha256_ok].
    subst body. rewrite !Forall_app, Forall_singleton. split_and!; try done; auto using key_id_ok, be_bytes_ok. }
  assert (Hs : slice (body ++ tag) 0 37 = body /\ slice (body ++ tag) 37 69 = tag
             /\ slice (body ++ tag) 1 9 = key_id key /\ slice (body ++ tag) 17 33 = nonce
             /\ slice (body ++ tag) 9 17 = be_bytes 8 ts /\ slice (body ++ tag) 33 37 = be_bytes 4 caps
             /\ index (body ++ tag) 0 = Ok VERSION).
  { split_and!; try (repeat slice_step; done); subst body; rewrite <- !app_assoc; repeat slice_step; done. }
  destruct Hs as (S1 & S2 & S3 & S4 & S5 & S6 & S7). split; [|done]. unfold token_valid.
  rewrite S1, S2, S3, S4, S5, S6, S7.
  rewrite !be_val_be_bytes_small by (change (256 ^ Z.of_nat 8) with (2 ^ 64);
    change (256 ^ Z.of_nat 4) with (2 ^ 32); done).
  split_and!; try done; [lens|by eapply KeyRing_find_member].
Qed.

(** Later calls of the server, each with its own token and clock reading. *)
Definition run_verify (ring : KeyRing) (skew : Z) (c : ReplayCache)
    (ops : list (string * string * string * Z)) : ReplayCache :=
  foldl (fun c '(e, a, p, now) => (verify_authorization e a p ring c now skew).1) c ops.

Lemma verify_size ring skew e a p c now :
  (size (rc_entries (verify_authorization e a p ring c now skew).1) <= S (size (rc_entries c)))%nat
  /\ rc_max_entries (verify_authorization e a p ring c now skew).1 = rc_max_entries c.
Proof.
  destruct (verify_authorization_spec e a p ring c now skew)
    as [(tk & key & nonce & ts & caps & _ & _ & ->)|[-> _]]; [|split; [cbn; lia|done]].
  pose proof (check_and_insert_size c (slice tk 1 9) nonce ts now skew).
  by destruct (check_and_insert _ _ _ _ _ _).
Qed.

(** How many of the calls accept their token *)
Fixpoint accepted_count (ring : KeyRing) (skew : Z) (c : ReplayCache) (ops : list (string * string * string * Z)) : Z :=
  match ops with
  | [] => 0
  | (e, a, p, now) :: ops' =>
    let r := verify_authorization e a p ring c now skew in
    (match r.2 with Ok _ => 1 | _ => 0 end) + accepted_count ring skew r.1 ops'
  end.

Lemma accepted_count_nonneg ring skew c ops : 0 <= accepted_count ring skew c ops.
Proof. revert c. induction ops as [|[[[e a] p] now] ops IH]; intros c; [done|]. cbn. case_match; specialize (IH (verify_authorization e a p ring c now skew).1); lia. Qed.

Lemma verify_keeps ring skew e a p c now k t :
  rc_entries c !! k = Some t -> 0 <= skew < 2 ^ 63 -> now <= t + 2 * skew -> 0 <= t ->
  let r := verify_authorization e a p ring c now skew in
  let new := match r.2 with Ok _ => 1 | _ => 0 end in
  newer (rc_entries c) t + new <= rc_max_entries c ->
  rc_entries r.1 !! k = Some t /\ newer (rc_entries r.1) t <= newer (rc_entries c) t + new.
Proof.
  intros Hk Hw Hnow Ht. cbv zeta.
  destruct (verify_authorization_spec e a p ring c now skew)
    as [(tk & key & nonce & ts & caps & _ & _ & ->)|[-> _]]; [|cbn; split; [done|lia]].
  pose proof (check_and_insert_keeps c (slice tk 1 9) nonce ts now skew k t Hk Hw Hnow Ht) as Hkeep. cbv zeta in Hkeep.
  destruct (check_and_insert _ _ _ _ _ _) as [c' [[]|e'|]]; exact Hkeep.
Qed.

Lemma run_verify_keeps ring skew ops c k t :
  rc_entries c !! k = Some t -> 0 <= skew < 2 ^ 63 -> 0 <= t ->
  Forall (fun op => op.2 <= t + 2 * skew) ops ->
  newer (rc_entries c) t + accepted_count ring skew c ops <= rc_max_entries c ->
  rc_entries (run_verify ring skew c ops) !! k = Some t.
Proof.
  revert c. induction ops as [|[[[e a] p] now] ops IH]; intros c Hk Hw Ht Hops Hsz; [done|].
  apply Forall_cons_1 in Hops as [Hnow Hops]. cbn in Hnow. cbn [run_verify foldl accepted_count] in *. cbv zeta in Hsz.
  pose proof (accepted_count_nonneg ring skew (verify_authorization e a p ring c now skew).1 ops).
  destruct (verify_size ring skew e a p c now) as [_ Hm].
  destruct (verify_keeps ring skew e a p c now k t Hk Hw Hnow Ht) as [Hk' Hn]; [lia|]. apply IH; try done. rewrite Hm. lia.
Qed.

(** The time stamp in a token *)
Definition token_timestamp (encoded : string) : Z := match b64_decode encoded with Some token => be_val (slice token 9 17) | None => 0 end.

(** ** Claims *)

(** A token made by a client that holds a key of the server's ring, for the
    same authority and path, is accepted within the clock-skew window unless its
    nonce was already seen, and yields the client's key, nonce and capabilities. *)
Theorem authorization_accepts keys ring key authority path caps ts nonce now skew replay :
  KeyRing_new keys = Ok ring -> key ∈ keys -> len nonce = 16 -> bytes_ok nonce -> u64 ts -> u32 caps ->
  Z.abs (now - ts) <= skew -> rc_entries replay !! (key_id key ++ nonce) = None ->
  let r := verify_authorization (create_authorization_at key authority path caps ts nonce)
             authority path ring replay now skew in
  r.2 = Ok (key, nonce, caps) /\ rc_entries r.1 !! (key_id key ++ nonce) = Some ts.
Proof.
  intros Hring Hin Hn Hnb Hts Hcaps Hskew Hnew r.
  destruct (created_token_valid keys ring key authority path caps ts nonce now skew Hring Hin Hn Hnb Hts Hcaps Hskew)
    as (token & Hdec & Hvalid & Hid).
  destruct (verify_authorization_spec (create_authorization_at key authority path caps ts nonce) authority path
              ring replay now skew) as [(tk & k & n & t & c & Hdec' & Hv & E)|[_ Hno]].
  2:{ by destruct (Hno _ _ _ _ _ Hdec Hvalid). }
  rewrite Hdec in Hdec'. injection Hdec' as <-.
  destruct Hvalid as (_ & _ & V1 & V2 & V3 & V4 & _ & _), Hv as (_ & _ & W1 & W2 & W3 & W4 & _ & _).
  assert (k = key) as -> by congruence. assert (n = nonce) as -> by congruence.
  assert (t = ts) as -> by congruence. assert (c = caps) as -> by congruence.
  unfold r. rewrite E, Hid. unfold check_and_insert. set (m := filter _ _).
  assert (Hm : m !! (key_id key ++ nonce) = None) by (apply map_lookup_filter_None; by left).
  rewrite Hm. cbn. by rewrite lookup_insert_eq.
Qed.

(** No forgery, no panic: whatever string arrives, the server answers or rejects
    with [PermissionDenied]; it accepts only a 69-byte token whose HMAC under a ring
    key covers the domain, the authority, the path and the token's first 37 bytes, and
    whose timestamp is within the skew of its own clock. *)
Theorem authorization_sound encoded authority path ring replay now skew :
  let r := (verify_authorization encoded authority path ring replay now skew).2 in
  r = Err PermissionDenied
  \/ exists token key nonce timestamp capabilities,
       r = Ok (key, nonce, capabilities) /\ b64_decode encoded = Some token
       /\ token_valid token authority path ring now skew key nonce timestamp capabilities.
Proof.
  cbn zeta. destruct (verify_authorization_spec encoded authority path ring replay now skew)
    as [(tk & key & nonce & ts & caps & Hd & Hv & ->)|[-> _]]; [|by left].
  unfold check_and_insert. set (m := filter _ _).
  destruct (m !! _); cbn; [by left|right]. exists tk, key, nonce, ts, caps. by split_and!.
Qed.

End Tokens.

(** ** Padding-scheme negotiation *)
Section Schemes.
Context `{YoungCrypto}.

(** [draw i] is the [i]-th value [rng.random_range(padding_min..=padding_max)] yields. *)
Definition generate_padding_scheme (draw : nat -> Z) (padding_min padding_max scheme_length : Z)
  : outcome PaddingScheme :=
  if (padding_min =? 0) || (padding_max <? padding_min) || (MAX_PADDING_BYTES <? padding_max)
  then Err InvalidInput else
  if (scheme_length =? 0) || (MAX_PADDING_SCHEME_LENGTH <? scheme_length) then Err InvalidInput else
  let entry i := if padding_min =? padding_max then padding_min else draw i in
  let generate_direction k := entry <$> seq (k * Z.to_nat scheme_length) (Z.to_nat scheme_length) in
  PaddingScheme_bidirectional (generate_direction 0%nat) (generate_direction 1%nat).

Definition entry_bytes (l : list Z) : list Z := concat (be_bytes 2 <$> l).

Definition encode_padding_scheme (key client_nonce : list Z) (scheme : PaddingScheme) : string :=
  let payload := [BIDIRECTIONAL_PADDING_SCHEME_VERSION] ++ be_bytes 2 (scheme_len scheme mod 2 ^ 16)
                 ++ entry_bytes (scheme_entries scheme ClientToServer)
                 ++ entry_bytes (scheme_entries scheme ServerToClient) in
  b64_encode (payload ++ hmac_tag key [str_bytes "young/padding-scheme/v2"; client_nonce; payload]).

Definition encode_legacy_padding_scheme (key client_nonce : list Z) (scheme : PaddingScheme) : string :=
  let payload := [LEGACY_PADDING_SCHEME_VERSION] ++ be_bytes 2 (scheme_len scheme mod 2 ^ 16)
                 ++ entry_bytes (scheme_entries scheme ClientToServer) in
  b64_encode (payload ++ hmac_tag key [str_bytes "young/padding-scheme/v1"; client_nonce; payload]).

Definition decode_padding_scheme (key client_nonce : list Z) (encoded : string) : outcome PaddingScheme :=
  if PADDING_SCHEME_MAX_ENCODED_BYTES <? str_len encoded then Err PermissionDenied else
  payload ← ok_or (b64_decode encoded) PermissionDenied;
  if len payload <? 1 + 2 + 2 + PADDING_SCHEME_TAG_BYTES then Err PermissionDenied else
  version ← index payload 0;
  c ← get_slice payload 1 3;
  let count := be_val c in
  if (count =? 0) || (MAX_PADDING_SCHEME_LENGTH <? count) then Err PermissionDenied else
  directions ← (if version =? LEGACY_PADDING_SCHEME_VERSION then Ok 1
                else if version =? BIDIRECTIONAL_PADDING_SCHEME_VERSION then Ok 2
                else Err PermissionDenied);
  let authenticated_len := 1 + 2 + directions * count * 2 in
  if negb (len payload =? authenticated_len + PADDING_SCHEME_TAG_BYTES) then Err PermissionDenied else
  let domain := if version =? LEGACY_PADDING_SCHEME_VERSION
                then str_bytes "young/padding-scheme/v1" else str_bytes "young/padding-scheme/v2" in
  signed ← get_slice payload 0 authenticated_len;
  tag ← get_slice payload authenticated_len (len payload);
  _ ← verify_hmac key [domain; client_nonce; signed] tag;
  let decode_entries start :=
    e ← get_slice payload start (start + count * 2);
    Ok (be_val <$> chunks_exact 2 e) in
  map_err PermissionDenied
    (if version =? LEGACY_PADDING_SCHEME_VERSION
     then e ← decode_entries 3; PaddingScheme_new e
     else e1 ← decode_entries 3; e2 ← decode_entries (3 + count * 2); PaddingScheme_bidirectional e1 e2).

(** ** Lemmas *)

Lemma len_entry_bytes l : len (entry_bytes l) = 2 * len l.
Proof.
  unfold entry_bytes. induction l as [|x l IH]; [done|]. cbn. rewrite len_app, len_be_bytes, IH, len_cons. lia.
Qed.

Lemma entry_bytes_ok l : bytes_ok (entry_bytes l).
Proof. unfold entry_bytes. induction l; cbn; [constructor|]. apply Forall_app. split; [apply be_bytes_ok|done]. Qed.

Lemma decode_entry_bytes l :
  Forall (fun p => 0 <= p < 65536) l -> be_val <$> chunks_exact 2 (entry_bytes l) = l.
Proof.
  intros Hl. unfold chunks_exact, entry_bytes.
  assert (Hb : Forall (fun c => len c = 2) (be_bytes 2 <$> l)).
  { apply Forall_fmap, Forall_true. intros x. apply len_be_bytes. }
  rewrite chunks_concat_blocks by done. rewrite (filter_all_id (fun c => len c = 2)) by done.
  induction Hl as [|x l Hx Hl IH]; [done|]. cbn. apply Forall_cons_1 in Hb as [_ Hb].
  by rewrite be_val_be_bytes_small, IH by done.
Qed.

Lemma entries_ok_u16 l : entries_ok l -> Forall (fun p => 0 <= p < 65536) l /\ Forall (fun p => 0 <= p) l.
Proof. intros [_ Hl]. split; (eapply List.Forall_impl; [|exact Hl]); cbn; lia. Qed.

Lemma validate_ok l : entries_ok l -> validate_padding_entries l = Ok l.
Proof.
  intros Hl. destruct (validate_padding_entries_spec l) as [[-> _]|[_ Hn]]; [by apply entries_ok_u16|done|done].
Qed.

(** A header with well-formed entries passes every check up to the entries. *)
Lemma decode_scheme_header key nonce version directions dom count rest encoded :
  (version = 1 /\ directions = 1 /\ dom = str_bytes "young/padding-scheme/v1")
  \/ (version = 2 /\ directions = 2 /\ dom = str_bytes "young/padding-scheme/v2") ->
  1 <= count <= 256 -> bytes_ok rest -> len rest = directions * count * 2 ->
  let payload := [version] ++ be_bytes 2 count ++ rest in
  let full := payload ++ hmac_tag key [dom; nonce; payload] in
  encoded = b64_encode full ->
  decode_padding_scheme key nonce encoded
  = map_err PermissionDenied
      (let decode_entries start :=
         e ← get_slice full start (start + count * 2); Ok (be_val <$> chunks_exact 2 e) in
       if version =? 1 then e ← decode_entries 3; PaddingScheme_new e
       else e1 ← decode_entries 3; e2 ← decode_entries (3 + count * 2); PaddingScheme_bidirectional e1 e2).
Proof.
  intros Hv Hc Hrb Hrl payload full Henc. pose proof (length_hmac_tag key [dom; nonce; payload]) as Ht.
  assert (Htl : len (hmac_tag key [dom; nonce; payload]) = 32) by (unfold len; lia).
  assert (Hpl : len payload = 3 + directions * count * 2) by (subst payload; lens).
  assert (Hfl : len full = 35 + directions * count * 2) by (subst full; lens).
  assert (Hdir : 1 <= directions <= 2) by lia.
  assert (Hfb : bytes_ok full).
  { subst full payload. rewrite !Forall_app, Forall_singleton.
    split_and!; try done; [unfold uint; lia|apply be_bytes_ok|apply hmac_sha256_ok]. }
  assert (F1 : index full 0 = Ok version) by (subst full payload; by repeat slice_step).
  assert (F2 : slice full 1 3 = be_bytes 2 count).
  { subst full payload. rewrite <- !app_assoc. repeat slice_step. done. }
  assert (F3 : slice full 0 (3 + directions * count * 2) = payload) by (subst full; by repeat slice_step).
  assert (F4 : slice full (3 + directions * count * 2) (len full) = hmac_tag key [dom; nonce; payload]).
  { rewrite Hfl. subst full. repeat slice_step. done. }
  unfold decode_padding_scheme. rewrite Henc, b64_encode_len, Hfl, b64_roundtrip by done.
  change PADDING_SCHEME_MAX_ENCODED_BYTES with 1412. change PADDING_SCHEME_TAG_BYTES with 32.
  assert (Hsz : div_ceil (4 * (35 + directions * count * 2)) 3 <= 1412).
  { unfold div_ceil. enough ((4 * (35 + directions * count * 2) + 3 - 1) / 3 < 1413) by lia.
    apply Z.div_lt_upper_bound; nia. }
  rewrite (proj2 (Z.ltb_ge _ _)) by lia. cbn [ok_or mbind outcome_bind].
  rewrite Hfl, (proj2 (Z.ltb_ge _ _)) by nia. rewrite F1, get_slice_ok, F2 by lia. cbn [mbind outcome_bind].
  rewrite be_val_be_bytes_small by (change (256 ^ Z.of_nat 2) with 65536; lia).
  change MAX_PADDING_SCHEME_LENGTH with 256.
  rewrite (proj2 (Z.eqb_neq count 0)), (proj2 (Z.ltb_ge 256 count)) by lia. cbn [orb].
  change LEGACY_PADDING_SCHEME_VERSION with 1. change BIDIRECTIONAL_PADDING_SCHEME_VERSION with 2.
  assert (Hd : (if version =? 1 then Ok 1 else if version =? 2 then Ok 2 else Err PermissionDenied)
               = Ok directions) by (destruct Hv as [(-> & -> & _)|(-> & -> & _)]; done).
  rewrite Hd. cbn [mbind outcome_bind].
  replace (1 + 2 + directions * count * 2) with (3 + directions * count * 2) by lia.
  rewrite (proj2 (Z.eqb_eq _ _)) by lia. cbn [negb].
  rewrite (get_slice_ok full 0 (3 + directions * count * 2)), F3 by lia.
  rewrite (get_slice_ok full (3 + directions * count * 2)) by lia. rewrite <- Hfl, F4. cbn [mbind outcome_bind].
  assert (Hdm : (if version =? 1 then str_bytes "young/padding-scheme/v1" else str_bytes "young/padding-scheme/v2")
               = dom) by (destruct Hv as [(-> & _ & ->)|(-> & _ & ->)]; done).
  rewrite Hdm. unfold verify_hmac. fold (hmac_tag key [dom; nonce; payload]).
  rewrite bool_decide_true by done. reflexivity.
Qed.

Lemma scheme_ok_bidirectional s :
  scheme_ok s -> is_bidirectional s = true ->
  PaddingScheme_bidirectional (scheme_entries s ClientToServer) (scheme_entries s ServerToClient) = Ok s.
Proof.
  intros [H1 H2] Hb. destruct s as [c2s [s2c|]]; [|done]. cbn in *. destruct H2 as [H2 H3].
  unfold PaddingScheme_bidirectional. rewrite (validate_ok c2s), (validate_ok s2c) by done.
  cbn [mbind outcome_bind]. by rewrite H3, Z.eqb_refl.
Qed.

(** ** Claims *)

Lemma scheme_len_u16 s : scheme_ok s -> scheme_len s mod 2 ^ 16 = len (client_to_server s).
Proof. intros [[Hl _] _]. unfold scheme_len. apply Z.mod_small. change (2 ^ 16) with 65536. lia. Qed.

Lemma bidirectional_scheme_roundtrip key nonce s :
  scheme_ok s -> is_bidirectional s = true ->
  decode_padding_scheme key nonce (encode_padding_scheme key nonce s) = Ok s.
Proof.
  intros Hs Hb. pose proof (scheme_len_u16 s Hs) as Hmod.
  pose proof Hs as [[Hl Hall] Hs2].
  destruct (entries_ok_u16 (client_to_server s) (conj Hl Hall)) as [U1 _].
  unfold encode_padding_scheme. rewrite Hmod. change BIDIRECTIONAL_PADDING_SCHEME_VERSION with 2.
  destruct (server_to_client s) as [s2c|] eqn:E; [|unfold is_bidirectional in Hb; by rewrite E in Hb].
  destruct Hs2 as [Hs2 Hl2]. destruct (entries_ok_u16 s2c Hs2) as [U2 _].
  assert (Es2c : scheme_entries s ServerToClient = s2c) by (cbn; by rewrite E). rewrite Es2c.
  cbn [scheme_entries]. set (rest := entry_bytes (client_to_server s) ++ entry_bytes s2c).
  rewrite (decode_scheme_header key nonce 2 2 (str_bytes "young/padding-scheme/v2")
             (len (client_to_server s)) rest _ ltac:(by right)) ; [| lia | | |reflexivity].
  2:{ apply Forall_app. split; apply entry_bytes_ok. }
  2:{ subst rest. rewrite len_app, !len_entry_bytes. lia. }
  cbn [Z.eqb Pos.eqb]. set (full := _ ++ hmac_tag _ _).
  pose proof (len_entry_bytes (client_to_server s)) as L1. pose proof (len_entry_bytes s2c) as L2.
  assert (Htl : len (hmac_tag key [str_bytes "young/padding-scheme/v2"; nonce;
             [2] ++ be_bytes 2 (len (client_to_server s)) ++ rest]) = 32)
    by (unfold len; by rewrite length_hmac_tag).
  assert (F1 : slice full 3 (3 + len (client_to_server s) * 2) = entry_bytes (client_to_server s)).
  { subst full rest. rewrite <- !app_assoc. repeat slice_step. done. }
  assert (F2 : slice full (3 + len (client_to_server s) * 2)
            (3 + len (client_to_server s) * 2 + len (client_to_server s) * 2) = entry_bytes s2c).
  { subst full rest. rewrite <- !app_assoc. repeat slice_step. done. }
  rewrite !get_slice_ok, F1, F2 by (subst full rest; lens). cbn [mbind outcome_bind].
  rewrite !decode_entry_bytes by done.
  pose proof (scheme_ok_bidirectional s Hs Hb) as Hbi. rewrite Es2c in Hbi. cbn [scheme_entries] in Hbi.
  by rewrite Hbi.
Qed.

Lemma legacy_scheme_roundtrip key nonce s :
  scheme_ok s ->
  decode_padding_scheme key nonce (encode_legacy_padding_scheme key nonce s)
  = Ok (mkPaddingScheme (client_to_server s) None).
Proof.
  intros Hs. pose proof (scheme_len_u16 s Hs) as Hmod.
  pose proof Hs as [[Hl Hall] Hs2].
  destruct (entries_ok_u16 (client_to_server s) (conj Hl Hall)) as [U1 _].
  unfold encode_legacy_padding_scheme. rewrite Hmod. change LEGACY_PADDING_SCHEME_VERSION with 1.
  cbn [scheme_entries]. set (rest := entry_bytes (client_to_server s)).
  rewrite (decode_scheme_header key nonce 1 1 (str_bytes "young/padding-scheme/v1")
             (len (client_to_server s)) rest _ ltac:(by left)); [| lia | | |reflexivity].
  2:{ apply entry_bytes_ok. }
  2:{ subst rest. rewrite len_entry_bytes. lia. }
  cbn [Z.eqb Pos.eqb]. set (full := _ ++ hmac_tag _ _).
  pose proof (len_entry_bytes (client_to_server s)) as L1.
  assert (Htl : len (hmac_tag key [str_bytes "young/padding-scheme/v1"; nonce;
             [1] ++ be_bytes 2 (len (client_to_server s)) ++ rest]) = 32)
    by (unfold len; by rewrite length_hmac_tag).
  assert (F1 : slice full 3 (3 + len (client_to_server s) * 2) = entry_bytes (client_to_server s)).
  { subst full rest. rewrite <- !app_assoc. repeat slice_step. done. }
  rewrite get_slice_ok, F1 by (subst full rest; lens). cbn [mbind outcome_bind].
  rewrite decode_entry_bytes by done. unfold PaddingScheme_new.
  by rewrite validate_ok by done.
Qed.

(** Padding negotiation: a bidirectional scheme sent in the response header is
    recovered exactly by the client that shares the key and nonce; an older client
    that is sent the legacy header recovers the client-to-server table. *)
Theorem padding_scheme_roundtrip key nonce s :
  scheme_ok s ->
  (is_bidirectional s = true ->
   decode_padding_scheme key nonce (encode_padding_scheme key nonce s) = Ok s)
  /\ decode_padding_scheme key nonce (encode_legacy_padding_scheme key nonce s)
     = Ok (mkPaddingScheme (client_to_server s) None).
Proof. intros Hs. split; [by apply bidirectional_scheme_roundtrip|by apply legacy_scheme_roundtrip]. Qed.

Lemma PaddingScheme_new_ok l s :
  Forall (fun p => 0 <= p) l -> PaddingScheme_new l = Ok s -> scheme_ok s.
Proof.
  intros Hl. unfold PaddingScheme_new. destruct (validate_padding_entries_spec l Hl) as [[-> Hok]|[-> _]]; [|done].
  cbn. intros [= <-]. by split.
Qed.

Lemma PaddingScheme_bidirectional_ok l k s :
  Forall (fun p => 0 <= p) l -> Forall (fun p => 0 <= p) k ->
  PaddingScheme_bidirectional l k = Ok s -> scheme_ok s.
Proof.
  intros Hl Hk. unfold PaddingScheme_bidirectional.
  destruct (validate_padding_entries_spec l Hl) as [[-> H1]|[-> _]]; [|done].
  destruct (validate_padding_entries_spec k Hk) as [[-> H2]|[-> _]]; [|done]. cbn [mbind outcome_bind].
  destruct (Z.eqb_spec (len l) (len k)); cbn [negb]; [|done]. intros [= <-]. by split.
Qed.

Lemma validate_no_panic l : no_panic (validate_padding_entries l).
Proof. unfold validate_padding_entries. np. Qed.

Lemma decoded_entries_nonneg e : bytes_ok e -> Forall (fun p => 0 <= p) (be_val <$> chunks_exact 2 e).
Proof.
  intros He. apply Forall_fmap. apply List.Forall_forall. intros c Hc. apply list_elem_of_In in Hc.
  unfold chunks_exact in Hc. apply list_elem_of_filter in Hc as [_ Hc]. cbn.
  apply be_val_range. rewrite <- (concat_chunks 2 e) in He by lia.
  apply Forall_concat in He. rewrite List.Forall_forall in He. by apply He, list_elem_of_In.
Qed.

Lemma decode_padding_scheme_yields key nonce encoded :
  yields PermissionDenied scheme_ok (decode_padding_scheme key nonce encoded).
Proof.
  unfold decode_padding_scheme. change PADDING_SCHEME_TAG_BYTES with 32.
  repeat yields_step; try done.
  all: match goal with Hd : b64_decode _ = Some ?x |- _ => pose proof (b64_decode_ok _ _ Hd) as Hb end.
  all: unfold verify_hmac; repeat yields_step.
  all: be_facts.
  1, 3: unfold PaddingScheme_new, PaddingScheme_bidirectional; np; try apply validate_no_panic; lia.
  all: inv_ok.
  all: repeat match goal with Hg : get_slice _ 3 _ = Ok ?e |- _ =>
         apply (get_slice_bytes_ok _ _ _ _ Hb), proj1, decoded_entries_nonneg in Hg
       | Hg : get_slice _ (3 + _) _ = Ok ?e |- _ =>
         apply (get_slice_bytes_ok _ _ _ _ Hb), proj1, decoded_entries_nonneg in Hg end.
  all: first [done | by eapply PaddingScheme_new_ok | eapply PaddingScheme_bidirectional_ok; [| |eassumption]; assumption].
Qed.

(** The padding table a session runs with is always well formed: whatever
    header arrives, decoding does not panic, fails only with [PermissionDenied], and
    a table it accepts (as one the server generates) has 1 to 256 entries of 1 to 4096
    bytes per direction, so that table lookups never fault. *)
Theorem padding_scheme_safe key nonce encoded draw pmin pmax n :
  (forall i, pmin <= draw i <= pmax) -> 0 <= pmin -> 0 <= n ->
  (decode_padding_scheme key nonce encoded = Err PermissionDenied
   \/ exists s, decode_padding_scheme key nonce encoded = Ok s /\ scheme_ok s)
  /\ (if (1 <=? pmin) && (pmin <=? pmax) && (pmax <=? 4096) && (1 <=? n) && (n <=? 256)
      then exists s, generate_padding_scheme draw pmin pmax n = Ok s /\ scheme_ok s /\ is_bidirectional s = true
      else generate_padding_scheme draw pmin pmax n = Err InvalidInput).
Proof.
  intros Hdraw Hmin Hn. split.
  - pose proof (decode_padding_scheme_yields key nonce encoded) as Hy.
    destruct (decode_padding_scheme key nonce encoded) as [s|e|]; [right; by exists s|left; congruence|done].
  - unfold generate_padding_scheme. change MAX_PADDING_BYTES with 4096. change MAX_PADDING_SCHEME_LENGTH with 256.
    destruct ((pmin =? 0) || (pmax <? pmin) || (4096 <? pmax)) eqn:E1.
    { replace ((1 <=? pmin) && (pmin <=? pmax) && (pmax <=? 4096)) with false by lia. done. }
    replace ((1 <=? pmin) && (pmin <=? pmax) && (pmax <=? 4096)) with true by lia. cbn [andb].
    destruct ((n =? 0) || (256 <? n)) eqn:E2; [by replace ((1 <=? n) && (n <=? 256)) with false by lia|].
    replace ((1 <=? n) && (n <=? 256)) with true by lia.
    set (entry := fun i => if pmin =? pmax then pmin else draw i).
    assert (Hg : forall k, entries_ok (entry <$> seq k (Z.to_nat n)) /\ len (entry <$> seq k (Z.to_nat n)) = n).
    { intros k. assert (Hl : len (entry <$> seq k (Z.to_nat n)) = n)
        by (unfold len; rewrite length_fmap, length_seq; lia).
      split; [|done]. split; [lia|]. apply Forall_fmap, Forall_true. intros i. cbn. unfold entry.
      destruct (pmin =? pmax); specialize (Hdraw i); lia. }
    destruct (Hg (0 * Z.to_nat n)%nat) as [G1 L1], (Hg (1 * Z.to_nat n)%nat) as [G2 L2].
    unfold PaddingScheme_bidirectional. rewrite (validate_ok _ G1). cbn [mbind outcome_bind].
    rewrite (validate_ok _ G2). cbn [mbind outcome_bind]. rewrite L1, L2, Z.eqb_refl. cbn [negb].
    eexists. split; [done|]. split; [|done].
    unfold scheme_ok. cbn [server_to_client client_to_server]. rewrite L1, L2. by split_and!.
Qed.
End Schemes.

(** ** Witnesses *)

Module AuthWitness.
Import Concrete.

Definition key : list Z := small_range 32.
Definition key2 : list Z := List.rev key.
Definition nonce : list Z := small_range 16.
Definition token : string := create_authorization_at key "example.com" "/y" 3 1000 nonce.
Definition scheme : PaddingScheme := mkPaddingScheme [3; 9] (Some [70; 2]).

Lemma auth_scheme_is_ok : scheme_ok scheme.
Proof. unfold scheme_ok, entries_ok, scheme, len. cbn. repeat split; try lia; repeat constructor; lia. Qed.

Definition ring : KeyRing := mkKeyRing [key2; key].

Lemma ring_new : KeyRing_new [key2; key] = Ok ring.
Proof. vm_compute. reflexivity. Qed.

Lemma nonce_ok : bytes_ok nonce.
Proof.
  apply List.Forall_forall. intros x Hx. apply list_elem_of_In, list_elem_of_fmap in Hx as (i & -> & Hi).
  apply elem_of_seq in Hi. unfold uint. change (2 ^ 8) with 256. lia.
Qed.

Lemma authorization_accepts_witness :
  (verify_authorization token "example.com" "/y" ring ReplayCache_default 1100 120).2 = Ok (key, nonce, 3).
Proof.
  refine (proj1 (authorization_accepts [key2; key] ring key "example.com" "/y" 3 1000 nonce 1100 120
                   ReplayCache_default ring_new _ eq_refl nonce_ok _ _ _ eq_refl)).
  - right. left.
  - unfold uint. lia.
  - unfold uint. lia.
  - lia.
Defined.

Definition after_first : ReplayCache :=
  (verify_authorization token "example.com" "/y" ring ReplayCache_default 1100 120).1.


Lemma padding_scheme_roundtrip_witness :
  decode_padding_scheme key nonce (encode_padding_scheme key nonce scheme) = Ok scheme.
Proof. exact (proj1 (padding_scheme_roundtrip key nonce scheme auth_scheme_is_ok) eq_refl). Defined.

Lemma padding_scheme_safe_witness :
  exists s, generate_padding_scheme (fun i => 64 + Z.of_nat i mod 8) 64 512 64 = Ok s /\ scheme_ok s
    /\ is_bidirectional s = true.
Proof.
  apply (padding_scheme_safe key nonce token (fun i => 64 + Z.of_nat i mod 8) 64 512 64).
  - intros i. pose proof (Z.mod_pos_bound (Z.of_nat i) 8 ltac:(lia)). lia.
  - lia.
  - lia.
Defined.
End AuthWitness.
