(* ===== verification/FakeIp.v ===== *)
(** * The Fake-IP pool and its domain filter

    Models [src/crates/core-resolver/src/fake_ip.rs].  Instants and durations are
    integers; a method that reads the clock takes its readings as arguments, one per
    [Instant::now()] on the path.  The two concurrent maps are finite maps and each
    method is one step on the pool (the address cursor is behind a mutex, the maps
    are [DashMap]s): interleavings of two calls inside one method are not modelled. *)

From stdpp Require Import base list gmap strings numbers option.
From S2P Require Import Prelude Net Instances.

Inductive AddressFamily : Type := FamV4 | FamV6.

#[global] Instance AddressFamily_eq_dec : EqDecision AddressFamily.
Proof. solve_decision. Defined.
#[global] Instance AddressFamily_countable : Countable AddressFamily.
Proof.
  refine (inj_countable' (fun f => match f with FamV4 => true | FamV6 => false end)
                         (fun b => if b then FamV4 else FamV6) _).
  by intros [].
Defined.

Section Pool.
Context `{IpNetLib} `{StrCase}.

Record FakeIpConfig : Type := mkFakeIpConfig {
  fc_v4_cidr : Ipv4Net;
  fc_v6_cidr : Ipv6Net;
  fc_ttl : Z;
  fc_enable_v4 : bool;
  fc_enable_v6 : bool;
  fc_avoid : list IpNet
}.

Record FakeEntry : Type := mkFakeEntry { fe_ip : IpAddr; fe_expire : Z }.

Record FakeIpPool : Type := mkFakeIpPool {
  fp_cfg : FakeIpConfig;
  fp_forward : gmap (string * AddressFamily) FakeEntry;
  fp_reverse : gmap IpAddr (string * Z);
  fp_next_v4 : Z;
  fp_next_v6 : Z
}.

Definition FakeIpPool_new (cfg : FakeIpConfig) : FakeIpPool :=
  let v4_start := saturating_add 32 (net4_network (fc_v4_cidr cfg)) 1 in
  let v6_start := saturating_add 128 (net6_network (fc_v6_cidr cfg)) 1 in
  mkFakeIpPool cfg ∅ ∅ v4_start v6_start.

Definition enabled_for (p : FakeIpPool) (family : AddressFamily) : bool :=
  match family with
  | FamV4 => fc_enable_v4 (fp_cfg p)
  | FamV6 => fc_enable_v6 (fp_cfg p)
  end.

Definition is_acceptable (p : FakeIpPool) (ip : IpAddr) : bool :=
  match fp_reverse p !! ip with
  | Some _ => false
  | None => negb (existsb (fun n => net_contains n ip) (fc_avoid (fp_cfg p)))
  end.

(** The scan of [next_v4_addr]: [fuel] is [span + 1 - tries]. *)
Fixpoint next_v4_loop (fuel : nat) (p : FakeIpPool) (start end_ g : Z) : option IpAddr * Z :=
  match fuel with
  | O => (None, g)
  | S fuel' =>
    let g := if end_ <=? g then saturating_add 32 start 1 else g in
    let candidate := g in
    let g := saturating_add 32 g 1 in
    if candidate =? end_ then next_v4_loop fuel' p start end_ g else
    let ip := V4 candidate in
    if is_acceptable p ip then (Some ip, g) else next_v4_loop fuel' p start end_ g
  end.

Definition next_v4_addr (p : FakeIpPool) : option IpAddr * Z :=
  let net := fc_v4_cidr (fp_cfg p) in
  let start := net4_network net in
  let end_ := net4_broadcast net in
  let span := saturating_sub (end_ - start) 1 in
  next_v4_loop (Z.to_nat (span + 1)) p start end_ (fp_next_v4 p).

Fixpoint next_v6_loop (fuel : nat) (p : FakeIpPool) (start end_ g : Z) : option IpAddr * Z :=
  match fuel with
  | O => (None, g)
  | S fuel' =>
    let g := if end_ <=? g then saturating_add 128 start 1 else g in
    let candidate := g in
    let g := saturating_add 128 g 1 in
    let ip := V6 candidate in
    if is_acceptable p ip then (Some ip, g) else next_v6_loop fuel' p start end_ g
  end.

(** [tries < 1 << 16] *)
Definition next_v6_tries : nat := Z.to_nat (Z.shiftl 1 16).

Definition next_v6_addr (p : FakeIpPool) : option IpAddr * Z :=
  let start := net6_network (fc_v6_cidr (fp_cfg p)) in
  let end_ := saturating_add 128 start (Z.shiftl 1 32) in
  next_v6_loop next_v6_tries p start end_ (fp_next_v6 p).

Definition allocate_new (p : FakeIpPool) (family : AddressFamily) : option IpAddr * FakeIpPool :=
  match family with
  | FamV4 => let '(r, g) := next_v4_addr p in
             (r, mkFakeIpPool (fp_cfg p) (fp_forward p) (fp_reverse p) g (fp_next_v6 p))
  | FamV6 => let '(r, g) := next_v6_addr p in
             (r, mkFakeIpPool (fp_cfg p) (fp_forward p) (fp_reverse p) (fp_next_v4 p) g)
  end.

(** [now] is the reading that decides whether a hit is still valid, [now'] the later
    one that sets the new expiry on either path. *)
Definition alloc (p : FakeIpPool) (host : string) (family : AddressFamily) (now now' : Z)
  : option IpAddr * FakeIpPool :=
  if negb (enabled_for p family) then (None, p) else
  let key := (to_lowercase host, family) in
  let miss :=
    match allocate_new p family with
    | (None, p) => (None, p)
    | (Some ip, p) =>
      let expire := now' + fc_ttl (fp_cfg p) in
      (Some ip, mkFakeIpPool (fp_cfg p) (<[key := mkFakeEntry ip expire]> (fp_forward p))
                  (<[ip := (to_lowercase host, expire)]> (fp_reverse p)) (fp_next_v4 p) (fp_next_v6 p))
    end in
  match fp_forward p !! key with
  | Some entry =>
    if now <? fe_expire entry then
      (Some (fe_ip entry),
       mkFakeIpPool (fp_cfg p)
         (<[key := mkFakeEntry (fe_ip entry) (now' + fc_ttl (fp_cfg p))]> (fp_forward p))
         (fp_reverse p) (fp_next_v4 p) (fp_next_v6 p))
    else miss
  | None => miss
  end.

Definition fake_lookup (p : FakeIpPool) (ip : IpAddr) (now : Z) : option string :=
  match fp_reverse p !! ip with
  | Some (host, expire) => if now <? expire then Some host else None
  | None => None
  end.

(** Durations are in milliseconds; [Duration::from_secs(1)] is 1000. *)
Definition insert_mapping (p : FakeIpPool) (ip : IpAddr) (host : string) (ttl now : Z) : FakeIpPool :=
  let ttl := Z.max ttl 1000 in
  mkFakeIpPool (fp_cfg p) (fp_forward p) (<[ip := (to_lowercase host, now + ttl)]> (fp_reverse p))
    (fp_next_v4 p) (fp_next_v6 p).

Definition fake_contains (p : FakeIpPool) (ip : IpAddr) : bool :=
  match ip with
  | V4 a => net4_contains (fc_v4_cidr (fp_cfg p)) a
  | V6 a => net6_contains (fc_v6_cidr (fp_cfg p)) a
  end.

Definition purge_expired (p : FakeIpPool) (now : Z) : Z * FakeIpPool :=
  let forward := filter (fun e => now < fe_expire e.2) (fp_forward p) in
  let reverse := filter (fun e => now < e.2.2) (fp_reverse p) in
  (Z.of_nat (size (fp_forward p)) - Z.of_nat (size forward),
   mkFakeIpPool (fp_cfg p) forward reverse (fp_next_v4 p) (fp_next_v6 p)).

Definition fake_clear (p : FakeIpPool) : Z * FakeIpPool :=
  (Z.of_nat (size (fp_forward p)), mkFakeIpPool (fp_cfg p) ∅ ∅ (fp_next_v4 p) (fp_next_v6 p)).

(** ** Operations as steps, with the times they read *)

Inductive pool_op : Type :=
| OpAlloc (host : string) (family : AddressFamily) (now now' : Z)
| OpInsertMapping (ip : IpAddr) (host : string) (ttl now : Z)
| OpPurge (now : Z)
| OpClear.

Definition pool_step (p : FakeIpPool) (op : pool_op) : FakeIpPool :=
  match op with
  | OpAlloc host family now now' => (alloc p host family now now').2
  | OpInsertMapping ip host ttl now => insert_mapping p ip host ttl now
  | OpPurge now => (purge_expired p now).2
  | OpClear => (fake_clear p).2
  end.

Definition pool_run (p : FakeIpPool) (ops : list pool_op) : FakeIpPool := foldl pool_step p ops.
End Pool.

(** ** The domain filter *)

Inductive FilterMatcher : Type :=
| FmSuffix (s : list Z)
| FmKeyword (s : list Z)
| FmFull (s : list Z)
| FmWildcard (s : list Z).

Inductive FakeIpFilterMode : Type := Blacklist | Whitelist.

Record FakeIpFilter : Type := mkFakeIpFilter {
  ff_matchers : list FilterMatcher;
  ff_mode : FakeIpFilterMode
}.

Section Filter.
Context `{StrCase}.

(** [s.split_once(':')] and its second half *)
Fixpoint after_colon (l : list Z) : option (list Z) :=
  match l with
  | [] => None
  | c :: l' => if c =? 58 then Some l' else after_colon l'
  end.

Definition parse_filter_pattern (pattern : string) : FilterMatcher :=
  let p := str_bytes (to_lowercase (str_trim pattern)) in
  if starts_with p (str_bytes "+") || starts_with p (str_bytes "*.") then
    FmSuffix (trim_start_matches (str_bytes ".")
               (trim_start_matches (str_bytes "*") (trim_start_matches (str_bytes "+") p)))
  else if starts_with p (str_bytes "keyword:") then
    FmKeyword (trim_start_matches (str_bytes "keyword:") p)
  else if starts_with p (str_bytes "full:") then
    FmFull (trim_start_matches (str_bytes "full:") p)
  else if starts_with p (str_bytes "domain:") || starts_with p (str_bytes "suffix:") then
    FmSuffix (default p (after_colon p))
  else if contains_bytes p (str_bytes "*") then
    FmWildcard (trim_start_matches (str_bytes ".") (trim_start_matches (str_bytes "*") p))
  else FmSuffix p.

Definition FakeIpFilter_new (patterns : list string) (mode : FakeIpFilterMode) : FakeIpFilter :=
  mkFakeIpFilter (parse_filter_pattern <$> patterns) mode.

Definition matcher_matches (domain_lc : list Z) (m : FilterMatcher) : bool :=
  match m with
  | FmFull d => bool_decide (domain_lc = d)
  | FmSuffix suffix => bool_decide (domain_lc = suffix) || ends_with domain_lc ([46] ++ suffix)
  | FmKeyword kw => contains_bytes domain_lc kw
  | FmWildcard base => ends_with domain_lc base
  end.

Definition should_skip (f : FakeIpFilter) (domain : string) : bool :=
  let domain_lc := str_bytes (to_lowercase domain) in
  let matched := existsb (matcher_matches domain_lc) (ff_matchers f) in
  match ff_mode f with Blacklist => matched | Whitelist => negb matched end.
End Filter.

(** Keep the scan folded while its 65536 rounds are only compared. *)
#[global] Strategy 100 [next_v6_loop next_v6_tries next_v4_loop].

(** ** The address scan *)

Lemma shiftl_1_32 : Z.shiftl 1 32 = 2 ^ 32.
Proof. reflexivity. Qed.

Lemma saturating_add_small w a b : a + b < 2 ^ w -> saturating_add w a b = a + b.
Proof. unfold saturating_add. lia. Qed.

Section Scan.
Context `{IpNetLib}.

Lemma next_v4_loop_app f1 f2 p start end_ g :
  next_v4_loop (f1 + f2) p start end_ g
  = match next_v4_loop f1 p start end_ g with
    | (Some ip, g') => (Some ip, g')
    | (None, g') => next_v4_loop f2 p start end_ g'
    end.
Proof.
  revert g. induction f1 as [|f1 IH]; intros g; [done|]. cbn [Nat.add next_v4_loop].
  destruct (_ =? end_); [apply IH|]. destruct (is_acceptable p _); [done|apply IH].
Qed.

(** What the scan returns is an acceptable address strictly inside the network, and
    the cursor never falls back to the network address. *)
Lemma next_v4_loop_sound f p start end_ g r g' :
  0 <= start < end_ -> end_ < 2 ^ 32 -> start < g ->
  next_v4_loop f p start end_ g = (r, g') ->
  start < g'
  /\ match r with
     | Some ip => exists a, ip = V4 a /\ start < a < end_ /\ is_acceptable p ip = true
     | None => True
     end.
Proof.
  intros Hs He. revert g. induction f as [|f IH]; intros g Hg Hl; cbn [next_v4_loop] in Hl.
  - by injection Hl as <- <-.
  - unfold saturating_add in Hl.
    set (c := if end_ <=? g then Z.min (start + 1) (2 ^ 32 - 1) else g) in Hl.
    assert (Hc : start < c <= end_) by (subst c; destruct (Z.leb_spec end_ g); lia).
    clearbody c. destruct (Z.eqb_spec c end_) as [E|E]; [eapply IH; [|exact Hl]; lia|].
    destruct (is_acceptable p (V4 c)) eqn:Ea; [|eapply IH; [|exact Hl]; lia].
    injection Hl as <- <-. split; [lia|]. exists c. split_and!; done || lia.
Qed.

(** A stretch without wrap-around that finds nothing. *)
Lemma next_v4_loop_stretch f p start end_ g g' :
  end_ < 2 ^ 32 -> 0 <= g -> g + Z.of_nat f <= end_ ->
  next_v4_loop f p start end_ g = (None, g') ->
  g' = g + Z.of_nat f /\ forall a, g <= a < g + Z.of_nat f -> is_acceptable p (V4 a) = false.
Proof.
  intros He. revert g. induction f as [|f IH]; intros g H0 Hg Hl; cbn [next_v4_loop] in Hl.
  - injection Hl as <-. split; [lia|]. intros a Ha. lia.
  - rewrite (proj2 (Z.leb_gt end_ g)) in Hl by lia. rewrite (proj2 (Z.eqb_neq g end_)) in Hl by lia.
    unfold saturating_add in Hl. rewrite Z.min_l in Hl by lia.
    destruct (is_acceptable p (V4 g)) eqn:Ea; [done|].
    destruct (IH (g + 1) ltac:(lia) ltac:(lia) Hl) as [-> Hall]. split; [lia|].
    intros a Ha. destruct (decide (a = g)) as [->|]; [done|]. apply Hall. lia.
Qed.

(** The scan visits the whole network: when it finds nothing, no address is free. *)
Lemma next_v4_loop_complete p start end_ g g' :
  0 <= start < end_ -> end_ < 2 ^ 32 -> start < g ->
  next_v4_loop (Z.to_nat (saturating_sub (end_ - start) 1 + 1)) p start end_ g = (None, g') ->
  forall a, start < a < end_ -> is_acceptable p (V4 a) = false.
Proof.
  intros Hs He Hg Hl a Ha. unfold saturating_sub in Hl.
  set (c := if end_ <=? g then start + 1 else g).
  assert (Hc : start < c <= end_) by (subst c; destruct (Z.leb_spec end_ g); lia).
  assert (Hsame : forall f, next_v4_loop (S f) p start end_ g = next_v4_loop (S f) p start end_ c).
  { intros f. cbn [next_v4_loop]. unfold saturating_add. subst c.
    destruct (Z.leb_spec end_ g); [|by rewrite (proj2 (Z.leb_gt end_ g))].
    rewrite Z.min_l by lia. by destruct (Z.leb_spec end_ (start + 1)). }
  replace (Z.to_nat (Z.max 0 (end_ - start - 1) + 1))
    with (S (Z.to_nat (end_ - start - 1))) in Hl by lia.
  rewrite Hsame in Hl. clearbody c.
  replace (S (Z.to_nat (end_ - start - 1)))
    with (Z.to_nat (end_ - c) + (Z.to_nat (c - start - 1) + 1))%nat in Hl by lia.
  rewrite next_v4_loop_app in Hl.
  destruct (next_v4_loop (Z.to_nat (end_ - c)) p start end_ c) as [[ip|] g1] eqn:E1; [done|].
  apply next_v4_loop_stretch in E1 as [-> H1]; [|lia..].
  destruct (decide (c <= a)); [apply H1; lia|].
  replace (c + Z.of_nat (Z.to_nat (end_ - c))) with end_ in Hl by lia.
  assert (Hwrap : forall f, next_v4_loop (S f) p start end_ end_ = next_v4_loop (S f) p start end_ (start + 1)).
  { intros f. cbn [next_v4_loop]. unfold saturating_add. rewrite Z.leb_refl, Z.min_l by lia.
    by rewrite (proj2 (Z.leb_gt end_ (start + 1))) by lia. }
  replace (Z.to_nat (c - start - 1) + 1)%nat with (S (Z.to_nat (c - start - 1))) in Hl by lia.
  rewrite Hwrap in Hl. rewrite <- Nat.add_1_r, next_v4_loop_app in Hl.
  destruct (next_v4_loop (Z.to_nat (c - start - 1)) p start end_ (start + 1)) as [[ip|] g2] eqn:E2; [done|].
  apply next_v4_loop_stretch in E2 as [_ H2]; [|lia..]. apply H2. lia.
Qed.

Lemma next_v6_loop_sound f p start end_ g r g' :
  0 <= start -> start + 1 < end_ -> end_ < 2 ^ 128 -> start < g ->
  next_v6_loop f p start end_ g = (r, g') ->
  start < g'
  /\ match r with
     | Some ip => exists a, ip = V6 a /\ start < a < end_ /\ is_acceptable p ip = true
     | None => True
     end.
Proof.
  intros Hs He He2. revert g. induction f as [|f IH]; intros g Hg Hl; cbn [next_v6_loop] in Hl.
  - by injection Hl as <- <-.
  - unfold saturating_add in Hl.
    set (c := if end_ <=? g then Z.min (start + 1) (2 ^ 128 - 1) else g) in Hl.
    assert (Hc : start < c < end_) by (subst c; destruct (Z.leb_spec end_ g); lia).
    clearbody c. destruct (is_acceptable p (V6 c)) eqn:Ea; [|eapply IH; [|exact Hl]; lia].
    injection Hl as <- <-. split; [lia|]. exists c. split_and!; done || lia.
Qed.
End Scan.

(** ** Well-formed pools *)
Section Invariant.
Context `{IpNetLib} `{StrCase}.
Implicit Types (p : FakeIpPool) (op : pool_op) (ip : IpAddr).

(** A v4 network of at least two addresses and a v6 network of at least 2^32, which
    is the window [next_v6_addr] walks. *)
Definition cfg_ok (cfg : FakeIpConfig) : Prop :=
  net4_network (fc_v4_cidr cfg) < net4_broadcast (fc_v4_cidr cfg)
  /\ net6_network (fc_v6_cidr cfg) + 2 ^ 32 <= net6_broadcast (fc_v6_cidr cfg)
  /\ 0 < fc_ttl cfg.

Definition usable (cfg : FakeIpConfig) (family : AddressFamily) (ip : IpAddr) : Prop :=
  match family, ip with
  | FamV4, V4 a => net4_network (fc_v4_cidr cfg) < a < net4_broadcast (fc_v4_cidr cfg)
  | FamV6, V6 a => net6_network (fc_v6_cidr cfg) < a < net6_network (fc_v6_cidr cfg) + 2 ^ 32
  | _, _ => False
  end /\ forall n, n ∈ fc_avoid cfg -> net_contains n ip = false.

Definition pool_ok (p : FakeIpPool) : Prop :=
  cfg_ok (fp_cfg p)
  /\ net4_network (fc_v4_cidr (fp_cfg p)) < fp_next_v4 p
  /\ net6_network (fc_v6_cidr (fp_cfg p)) < fp_next_v6 p
  /\ map_Forall (fun k e => usable (fp_cfg p) k.2 (fe_ip e)) (fp_forward p).

Lemma acceptable_avoid p ip :
  is_acceptable p ip = true ->
  fp_reverse p !! ip = None /\ forall n, n ∈ fc_avoid (fp_cfg p) -> net_contains n ip = false.
Proof.
  unfold is_acceptable. destruct (fp_reverse p !! ip); [done|]. intros Hn%negb_true_iff. split; [done|].
  intros n Hin. apply not_true_iff_false. intros Hc.
  apply not_true_iff_false in Hn. apply Hn, existsb_exists. exists n. split; [by apply list_elem_of_In|done].
Qed.

Lemma allocate_new_spec p family r p' :
  pool_ok p -> allocate_new p family = (r, p') ->
  fp_cfg p' = fp_cfg p /\ fp_forward p' = fp_forward p /\ fp_reverse p' = fp_reverse p /\ pool_ok p'
  /\ match r with
     | Some ip => usable (fp_cfg p) family ip /\ fp_reverse p !! ip = None
     | None => family = FamV4 -> forall a,
         net4_network (fc_v4_cidr (fp_cfg p)) < a < net4_broadcast (fc_v4_cidr (fp_cfg p)) ->
         is_acceptable p (V4 a) = false
     end.
Proof.
  intros ((C1 & C2 & C3) & N4 & N6 & Hf) Ha.
  pose proof (net4_bounds (fc_v4_cidr (fp_cfg p))) as B4. pose proof (net6_bounds (fc_v6_cidr (fp_cfg p))) as B6.
  destruct family; cbn [allocate_new] in Ha.
  - destruct (next_v4_addr p) as [r0 g] eqn:E. injection Ha as <- <-. unfold next_v4_addr in E.
    destruct (next_v4_loop_sound _ _ _ _ _ _ _ (conj (proj1 (proj1 B4)) C1) (proj2 B4) N4 E) as [Hg Hr].
    cbn. split_and!; try done.
    destruct r0 as [ip|].
    + destruct Hr as (a & -> & Hin & Hacc). destruct (acceptable_avoid p _ Hacc). by split_and!.
    + intros _ a Hin. exact (next_v4_loop_complete p _ _ _ _ (conj (proj1 (proj1 B4)) C1) (proj2 B4) N4 E a Hin).
  - destruct (next_v6_addr p) as [r0 g] eqn:E. injection Ha as <- <-. unfold next_v6_addr in E.
    rewrite shiftl_1_32, saturating_add_small in E by lia.
    set (st := net6_network (fc_v6_cidr (fp_cfg p))) in *.
    destruct (next_v6_loop_sound _ p st (st + 2 ^ 32) _ _ _ (proj1 (proj1 B6)) ltac:(lia) ltac:(lia) N6 E) as [Hg Hr].
    cbn. split_and!; try done.
    destruct r0 as [ip|]; [|done].
    destruct Hr as (a & -> & Hin & Hacc). destruct (acceptable_avoid p _ Hacc). by split_and!.
Qed.

(** [alloc] by cases. *)
Lemma alloc_cases p host family now now' :
  pool_ok p ->
  let key := (to_lowercase host, family) in
  let res := alloc p host family now now' in
  (enabled_for p family = false /\ res = (None, p))
  \/ (exists e, enabled_for p family = true /\ fp_forward p !! key = Some e /\ now < fe_expire e
      /\ res = (Some (fe_ip e),
           mkFakeIpPool (fp_cfg p) (<[key := mkFakeEntry (fe_ip e) (now' + fc_ttl (fp_cfg p))]> (fp_forward p))
             (fp_reverse p) (fp_next_v4 p) (fp_next_v6 p)))
  \/ (enabled_for p family = true
      /\ (forall e, fp_forward p !! key = Some e -> fe_expire e <= now)
      /\ exists r p1, allocate_new p family = (r, p1) /\ pool_ok p1
      /\ match r with
         | None => res = (None, p1)
         | Some ip => usable (fp_cfg p) family ip /\ fp_reverse p !! ip = None
           /\ res = (Some ip,
                mkFakeIpPool (fp_cfg p)
                  (<[key := mkFakeEntry ip (now' + fc_ttl (fp_cfg p))]> (fp_forward p))
                  (<[ip := (to_lowercase host, now' + fc_ttl (fp_cfg p))]> (fp_reverse p))
                  (fp_next_v4 p1) (fp_next_v6 p1))
         end).
Proof.
  intros Hp key res. unfold res, alloc. destruct (enabled_for p family); cbn [negb]; [right|by left].
  fold key. destruct (allocate_new p family) as [r p1] eqn:Ea.
  destruct (allocate_new_spec p family r p1 Hp Ea) as (E1 & E2 & E3 & Hok & Hr).
  destruct (fp_forward p !! key) as [e|] eqn:Ef.
  - destruct (Z.ltb_spec now (fe_expire e)).
    + left. exists e. by split_and!.
    + right. split; [done|]. split; [intros e' [= <-]; lia|]. exists r, p1. split_and!; try done.
      destruct r as [ip|]; [|done]. destruct Hr as [Hu Hn]. rewrite E1, E2, E3. by split_and!.
  - right. split; [done|]. split; [done|]. exists r, p1. split_and!; try done.
    destruct r as [ip|]; [|done]. destruct Hr as [Hu Hn]. rewrite E1, E2, E3. by split_and!.
Qed.

Lemma FakeIpPool_new_ok cfg : cfg_ok cfg -> pool_ok (FakeIpPool_new cfg).
Proof.
  intros Hc. pose proof Hc as (C1 & C2 & C3).
  pose proof (net4_bounds (fc_v4_cidr cfg)). pose proof (net6_bounds (fc_v6_cidr cfg)).
  unfold pool_ok, FakeIpPool_new. cbn. rewrite !saturating_add_small by lia.
  split_and!; try done; lia.
Qed.

Lemma pool_step_ok p op : pool_ok p -> pool_ok (pool_step p op) /\ fp_cfg (pool_step p op) = fp_cfg p.
Proof.
  intros Hp. pose proof Hp as (C & N4 & N6 & Hf). destruct op as [host family now now'|ip host ttl now|now|]; cbn [pool_step].
  - pose proof (alloc_cases p host family now now' Hp) as Hc. cbn zeta in Hc.
    destruct Hc as [[_ ->]|[(e & _ & He & _ & ->)|(_ & _ & r & p1 & Ea & Hp1 & Hr)]].
    + done.
    + cbn. split; [|done]. unfold pool_ok. cbn. split_and!; try done.
      apply map_Forall_insert_2; [|done]. exact (Hf _ _ He).
    + destruct (allocate_new_spec p family r p1 Hp Ea) as (E1 & _ & _ & _ & _).
      destruct r as [ip|]; [|by rewrite Hr]. destruct Hr as (Hu & _ & ->). cbn. split; [|done].
      destruct Hp1 as (_ & P4 & P6 & _). rewrite E1 in P4, P6. unfold pool_ok. cbn. split_and!; try done.
      by apply map_Forall_insert_2.
  - done.
  - cbn. split; [|done]. unfold pool_ok. cbn. split_and!; try done.
    intros k e Hk. apply map_lookup_filter_Some in Hk as [Hk _]. exact (Hf _ _ Hk).
  - cbn. split; [|done]. unfold pool_ok. cbn. split_and!; done.
Qed.

Lemma pool_run_ok ops p : pool_ok p -> pool_ok (pool_run p ops) /\ fp_cfg (pool_run p ops) = fp_cfg p.
Proof.
  revert p. induction ops as [|op ops IH]; intros p Hp; [done|]. change (pool_run p (op :: ops)) with (pool_run (pool_step p op) ops).
  destruct (pool_step_ok p op Hp) as [Hp' Hc]. destruct (IH _ Hp') as [H1 H2]. split; [done|congruence].
Qed.

(** Operations that leave a binding alone: within the lifetime [t0, t1), no flush,
    and no foreign mapping written over its address. *)
Definition op_within (t0 t1 : Z) (ip : IpAddr) (op : pool_op) : Prop :=
  match op with
  | OpAlloc _ _ now now' => t0 <= now <= now' /\ now' < t1
  | OpInsertMapping ip' _ _ _ => ip' <> ip
  | OpPurge now => now < t1
  | OpClear => False
  end.

(** The binding of a host: its forward entry (possibly renewed since) and the
    reverse entry written when the address was given out. *)
Definition bound (p : FakeIpPool) (key : string * AddressFamily) (ip : IpAddr) (t1 : Z) : Prop :=
  (exists e, fp_forward p !! key = Some e /\ fe_ip e = ip /\ t1 <= fe_expire e)
  /\ fp_reverse p !! ip = Some (key.1, t1).

Lemma pool_step_bound p key ip t0 op :
  pool_ok p -> let t1 := t0 + fc_ttl (fp_cfg p) in
  bound p key ip t1 -> op_within t0 t1 ip op -> bound (pool_step p op) key ip t1.
Proof.
  intros Hp t1 [(e & He & Hip & Hexp) Hrev] Hop.
  destruct op as [host family now now'|ip' host ttl now|now|]; cbn [pool_step op_within] in *.
  - pose proof (alloc_cases p host family now now' Hp) as Hc. cbn zeta in Hc.
    destruct Hc as [[_ ->]|[(e' & _ & He' & _ & ->)|(_ & Hno & r & p1 & Ea & Hp1 & Hr)]].
    + split; [by exists e|done].
    + cbn. split; [|done]. cbn. destruct (decide (key = (to_lowercase host, family))) as [->|Hne].
      * rewrite lookup_insert_eq. eexists. split; [done|]. cbn. rewrite He in He'. injection He' as <-. split; [done|unfold t1; lia].
      * rewrite lookup_insert_ne by done. by exists e.
    + destruct (allocate_new_spec p family r p1 Hp Ea) as (E1 & E2 & E3 & _ & _).
      destruct r as [ip'|].
      * destruct Hr as (_ & Hfree & ->). cbn. split.
        -- cbn. destruct (decide (key = (to_lowercase host, family))) as [->|Hne].
           ++ specialize (Hno e He). lia.
           ++ rewrite lookup_insert_ne by done. by exists e.
        -- cbn. rewrite lookup_insert_ne by congruence. done.
      * rewrite Hr. cbn. unfold bound. rewrite E2, E3. split; [by exists e|done].
  - unfold bound, insert_mapping. cbn. rewrite lookup_insert_ne by done. split; [by exists e|done].
  - unfold bound. cbn. split.
    + exists e. split; [|done]. apply map_lookup_filter_Some. cbn. split; [done|lia].
    + apply map_lookup_filter_Some. cbn. split; [done|lia].
  - done.
Qed.

Lemma pool_run_bound ops p key ip t0 :
  pool_ok p -> let t1 := t0 + fc_ttl (fp_cfg p) in
  bound p key ip t1 -> Forall (op_within t0 t1 ip) ops -> bound (pool_run p ops) key ip t1.
Proof.
  intros Hp t1 Hb Hops. revert p Hp t1 Hb Hops. induction ops as [|op ops IH]; intros p Hp t1 Hb Hops; [done|].
  apply Forall_cons_1 in Hops as [Hop Hops]. change (pool_run p (op :: ops)) with (pool_run (pool_step p op) ops).
  destruct (pool_step_ok p op Hp) as [Hp' Hc].
  unfold t1 in *. rewrite <- Hc in Hops |- *. apply IH; [done| |done]. rewrite Hc. by apply pool_step_bound.
Qed.
End Invariant.

(** ** Claims *)
Section Claims.
Context `{IpNetLib} `{StrCase}.

(** A fresh allocation binds an address of the network to the host for the TTL. *)
Lemma alloc_then_bound p host family now now' ip ops :
  pool_ok p -> enabled_for p family = true ->
  (forall e, fp_forward p !! (to_lowercase host, family) = Some e -> fe_expire e <= now) ->
  (alloc p host family now now').1 = Some ip ->
  let t1 := now' + fc_ttl (fp_cfg p) in
  Forall (op_within now' t1 ip) ops ->
  let q := pool_run (alloc p host family now now').2 ops in
  bound q (to_lowercase host, family) ip t1 /\ usable (fp_cfg p) family ip /\ fp_cfg q = fp_cfg p.
Proof.
  intros Hp Hen Hno Halloc t1 Hops.
  pose proof (pool_step_ok p (OpAlloc host family now now') Hp) as [Hp' Hc']. cbn [pool_step] in Hp', Hc'.
  pose proof (alloc_cases p host family now now' Hp) as Hcase. cbn zeta in Hcase.
  destruct Hcase as [[Hd _]|[(e & _ & He & Hlt & _)|(_ & _ & r & p1 & _ & _ & Hr)]]; [congruence|specialize (Hno e He); lia|].
  destruct r as [ip'|]; [|by rewrite Hr in Halloc]. destruct Hr as (Hu & _ & Hr). rewrite Hr in Halloc. cbn [fst] in Halloc. injection Halloc as ->.
  assert (Hb : bound (alloc p host family now now').2 (to_lowercase host, family) ip t1).
  { rewrite Hr. cbn [snd]. split; cbn; [|apply lookup_insert_eq]. eexists. split; [apply lookup_insert_eq|]. by split. }
  unfold t1 in *. rewrite <- Hc' in *. pose proof (pool_run_bound ops _ _ _ now' Hp' Hb Hops) as Hb'. cbn zeta in Hb'.
  destruct (pool_run_ok ops _ Hp') as [_ Hc2]. split; [done|]. split; [done|]. by rewrite Hc2.
Qed.

(** Allocation is sound and complete in every reachable pool: an address handed
    out lies strictly inside the configured network of its family and in none of the
    avoided networks; and an enabled IPv4 family yields none only when every usable
    address of the network is taken or avoided. *)
Theorem fake_ip_alloc_sound cfg ops host family now now' :
  cfg_ok cfg ->
  let p := pool_run (FakeIpPool_new cfg) ops in
  match (alloc p host family now now').1 with
  | Some ip => usable cfg family ip /\ fake_contains p ip = true
  | None => enabled_for p family = true -> family = FamV4 ->
      forall a, net4_network (fc_v4_cidr cfg) < a < net4_broadcast (fc_v4_cidr cfg) ->
      fp_reverse p !! V4 a <> None \/ exists n, n ∈ fc_avoid cfg /\ net_contains n (V4 a) = true
  end.
Proof.
  intros Hc p. destruct (pool_run_ok ops _ (FakeIpPool_new_ok cfg Hc)) as [Hp Hcfg]. fold p in Hp, Hcfg.
  change (fp_cfg (FakeIpPool_new cfg)) with cfg in Hcfg.
  assert (Hin : forall ip, usable cfg family ip -> usable cfg family ip /\ fake_contains p ip = true).
  { intros ip Hu. split; [done|]. destruct Hu as [Hu _]. unfold fake_contains. rewrite Hcfg.
    destruct Hc as (C1 & C2 & _). destruct family, ip as [a|a]; try done.
    - apply net4_contains_spec. lia.
    - apply net6_contains_spec. lia. }
  pose proof Hp as (_ & _ & _ & Hf). rewrite Hcfg in Hf.
  pose proof (alloc_cases p host family now now' Hp) as Hcase. cbn zeta in Hcase. rewrite Hcfg in Hcase.
  destruct Hcase as [[Hen ->]|[(e & _ & He & _ & ->)|(Hen & _ & r & p1 & Ea & _ & Hr)]]; cbn [fst].
  - congruence.
  - apply Hin. exact (Hf _ _ He).
  - destruct r as [ip|]; [destruct Hr as (Hu & _ & ->); by apply Hin|]. rewrite Hr. cbn [fst].
    intros _ Hfam a Ha. destruct (allocate_new_spec p family None p1 Hp Ea) as (_ & _ & _ & _ & Hex).
    rewrite Hcfg in Hex. specialize (Hex Hfam a Ha). unfold is_acceptable in Hex. rewrite Hcfg in Hex.
    destruct (fp_reverse p !! V4 a); [by left|right]. apply negb_false_iff, existsb_exists in Hex as (n & Hn & Hc').
    exists n. split; [by apply list_elem_of_In|done].
Qed.

(** [C10] One host, one address, one owner: after a fresh allocation, during its TTL and
    under any interleaving of other allocations, real-DNS mappings of other addresses and
    purges, asking again (in any letter case) returns the same address, and the
    address resolves back to this host and to no other. *)
Theorem fake_ip_binding p host host' family now now' ip ops t t' :
  pool_ok p -> enabled_for p family = true ->
  (forall e, fp_forward p !! (to_lowercase host, family) = Some e -> fe_expire e <= now) ->
  (alloc p host family now now').1 = Some ip ->
  let p' := pool_run (alloc p host family now now').2 ops in
  let t1 := now' + fc_ttl (fp_cfg p) in
  Forall (op_within now' t1 ip) ops -> to_lowercase host' = to_lowercase host -> t < t1 ->
  (alloc p' host' family t t').1 = Some ip /\ fake_lookup p' ip t = Some (to_lowercase host).
Proof.
  intros Hp Hen Hno Halloc p' t1 Hops Hhost Ht.
  destruct (alloc_then_bound p host family now now' ip ops Hp Hen Hno Halloc Hops) as ([(e & He & Hip & Hexp) Hrev] & _ & Hc). fold p' in He, Hrev, Hc. fold t1 in Hexp, Hrev.
  cbn in Hrev. split; [|unfold fake_lookup; rewrite Hrev; by rewrite (proj2 (Z.ltb_lt _ _))].
  unfold alloc. replace (enabled_for p' family) with (enabled_for p family) by (unfold enabled_for; by rewrite Hc). rewrite Hen. cbn [negb].
  rewrite Hhost, He. rewrite (proj2 (Z.ltb_lt t (fe_expire e))) by lia. cbn. by rewrite Hip.
Qed.

(** The filter's suffix forms: [example.com], [+.example.com] and [*.example.com]
    all select the domain itself and its subdomains at label boundaries, no other name. *)
Theorem fake_ip_filter_suffix pattern domain base form :
  let p := str_bytes (to_lowercase (str_trim pattern)) in
  (form = [] /\ (forall c, c ∈ base -> c <> 42 /\ c <> 43 /\ c <> 58))
  \/ (form = str_bytes "+." \/ form = str_bytes "*.") ->
  p = form ++ base -> (forall c l, base = c :: l -> c <> 46 /\ c <> 42 /\ c <> 43) ->
  should_skip (FakeIpFilter_new [pattern] Blacklist) domain = true
  <-> str_bytes (to_lowercase domain) = base
      \/ exists k, str_bytes (to_lowercase domain) = k ++ [46] ++ base.
Proof.
  intros p Hform Hp Hhead. unfold should_skip, FakeIpFilter_new. cbn [ff_matchers ff_mode fmap list_fmap existsb].
  assert (Hparse : parse_filter_pattern pattern = FmSuffix base).
  { unfold parse_filter_pattern. fold p. rewrite Hp.
    assert (Hno : forall c, c = 46 \/ c = 42 \/ c = 43 -> trim_start_matches [c] base = base).
    { intros c Hc. unfold trim_start_matches. destruct base as [|x l]; [done|]. cbn.
      destruct (Hhead x l eq_refl) as (X1 & X2 & X3). by rewrite (proj2 (Z.eqb_neq x c)) by lia. }
    destruct Hform as [[-> Hplain]|[->| ->]].
    - cbn [app]. assert (Hsw : forall pre c, c ∈ pre -> (c = 42 \/ c = 43 \/ c = 58) -> starts_with base pre = false).
      { intros pre c Hin Hc. apply not_true_iff_false. rewrite starts_with_spec. intros [k Hk].
        assert (c ∈ base) by (rewrite Hk; apply elem_of_app; by left). specialize (Hplain c). naive_solver. }
      rewrite (Hsw (str_bytes "+") 43), (Hsw (str_bytes "*.") 42), (Hsw (str_bytes "keyword:") 58),
        (Hsw (str_bytes "full:") 58), (Hsw (str_bytes "domain:") 58), (Hsw (str_bytes "suffix:") 58)
        by (cbn; set_solver).
      cbn [orb]. destruct (contains_bytes base (str_bytes "*")) eqn:E; [|done]. exfalso.
      apply contains_bytes_spec in E as (a & b & E). specialize (Hplain 42). rewrite E in Hplain.
      assert (42 ∈ a ++ str_bytes "*" ++ b) by (cbn; set_solver). naive_solver.
    - cbn [starts_with str_bytes app]. change (str_bytes "+." ++ base) with (43 :: 46 :: base).
      cbn [starts_with str_bytes]. change (starts_with (43 :: 46 :: base) (str_bytes "+")) with true. cbn [orb].
      f_equal. change (trim_start_matches (str_bytes "+") (43 :: 46 :: base))
        with (trim_start_fuel (S (length base)) [43] (46 :: base)). cbn.
      change (trim_start_matches (str_bytes ".") (46 :: base)) with (trim_start_fuel (length base) [46] base).
      apply (Hno 46). lia.
    - change (str_bytes "*." ++ base) with (42 :: 46 :: base).
      change (starts_with (42 :: 46 :: base) (str_bytes "+")) with false.
      change (starts_with (42 :: 46 :: base) (str_bytes "*.")) with true. cbn [orb].
      f_equal. change (trim_start_matches (str_bytes "+") (42 :: 46 :: base)) with (42 :: 46 :: base).
      change (trim_start_matches (str_bytes "*") (42 :: 46 :: base))
        with (trim_start_fuel (S (length base)) [42] (46 :: base)). cbn.
      change (trim_start_matches (str_bytes ".") (46 :: base)) with (trim_start_fuel (length base) [46] base).
      apply (Hno 46). lia. }
  rewrite Hparse. cbn [matcher_matches]. rewrite orb_false_r, orb_true_iff, bool_decide_eq_true, ends_with_spec.
  done.
Qed.
End Claims.

(** ** Witnesses and deviations, on concrete pools *)

Module FakeIpWitness.
Import Concrete.

(** 198.18.0.0/30 and fc00:1::/64, TTL 600. *)
Definition v4_net : Cidr 32 := @mkCidr 32 830767104 2 eq_refl.
Definition v6_net : Cidr 128 := @mkCidr 128 18158513701852807168 64 eq_refl.
Definition v6_small : Cidr 128 := @mkCidr 128 (18158513701852807168 * 2 ^ 62) 2 eq_refl.
Definition cfg : FakeIpConfig := mkFakeIpConfig v4_net v6_net 600 true true [Net4 (@mkCidr 32 10 24 eq_refl : Ipv4Net)].
Definition ip_a : IpAddr := V4 3323068417.

Lemma cfg_is_ok : cfg_ok cfg.
Proof. unfold cfg_ok. vm_compute. by repeat split. Qed.

Lemma fake_ip_alloc_sound_witness :
  usable cfg FamV4 ip_a /\ fake_contains (pool_run (FakeIpPool_new cfg) []) ip_a = true.
Proof. exact (fake_ip_alloc_sound cfg [] "a.example" FamV4 0 0 cfg_is_ok). Defined.

Lemma fake_ip_binding_witness :
  (alloc (pool_run (alloc (FakeIpPool_new cfg) "A.example" FamV4 0 0).2
           [OpAlloc "b" FamV4 5 5; OpPurge 500]) "a.EXAMPLE" FamV4 599 599).1 = Some ip_a.
Proof.
  refine (proj1 (fake_ip_binding (FakeIpPool_new cfg) "A.example" "a.EXAMPLE" FamV4 0 0 ip_a
    [OpAlloc "b" FamV4 5 5; OpPurge 500] 599 599 (FakeIpPool_new_ok cfg cfg_is_ok) _ _ _ _ _ _)).
  - reflexivity.
  - intros e He. vm_compute in He. discriminate He.
  - vm_compute. reflexivity.
  - repeat constructor; cbn; lia.
  - vm_compute. reflexivity.
  - cbn. lia.
Defined.

Lemma fake_ip_filter_suffix_witness :
  should_skip (FakeIpFilter_new ["*.lan"] Blacklist) "Printer.LAN" = true.
Proof.
  apply (fake_ip_filter_suffix "*.lan" "Printer.LAN" (str_bytes "lan") (str_bytes "*.")).
  - right. by right.
  - vm_compute. reflexivity.
  - intros c l E. vm_compute in E. injection E as <- _. lia.
  - right. exists (str_bytes "printer"). vm_compute. reflexivity.
Defined.

(** A renewed allocation loses its reverse entry: host [a] keeps asking for its
    address and gets it, but from the end of the first TTL on the address no longer
    resolves back to [a]; after the next purge it is even handed to host [b] while
    [a] still holds it, and then resolves to [b]. *)
Theorem fake_ip_renewal_splits_binding :
  let p1 := pool_run (FakeIpPool_new cfg)
              [OpAlloc "a" FamV4 0 0; OpAlloc "x" FamV4 10 10; OpAlloc "a" FamV4 500 500] in
  let p2 := pool_run p1 [OpPurge 700; OpAlloc "b" FamV4 701 701] in
  (alloc p1 "a" FamV4 650 650).1 = Some ip_a /\ fake_lookup p1 ip_a 650 = None
  /\ (alloc p2 "a" FamV4 702 702).1 = Some ip_a /\ (alloc p2 "b" FamV4 702 702).1 = Some ip_a
  /\ fake_lookup p2 ip_a 702 = Some "b".
Proof. vm_compute. by repeat split. Qed.

(** An IPv6 network smaller than 2^32 addresses is overrun: with a /126 the fourth
    allocation is an address outside the configured pool,
    which [contains] does not recognise as fake. *)
Theorem fake_ip_v6_overruns_network :
  let small := mkFakeIpConfig v4_net v6_small 600 true true [] in
  let p := pool_run (FakeIpPool_new small)
             [OpAlloc "a" FamV6 0 0; OpAlloc "b" FamV6 0 0; OpAlloc "c" FamV6 0 0] in
  let ip := V6 (net6_network (fc_v6_cidr small) + 4) in
  (alloc p "d" FamV6 0 0).1 = Some ip /\ fake_contains p ip = false.
Proof. vm_compute. by repeat split. Qed.

(** A pattern with a star after its first label never matches: the official
    example's [time.*] and [ntp.*] exempt no domain from Fake-IP. *)
Theorem fake_ip_filter_inner_star_dead domain :
  42 ∉ str_bytes (to_lowercase domain) ->
  should_skip (FakeIpFilter_new ["time.*"; "ntp.*"] Blacklist) domain = false.
Proof.
  intros Hno. unfold should_skip. set (d := str_bytes (to_lowercase domain)) in *.
  assert (Hm : forall base, ends_with d (base ++ [42]) = false).
  { intros base. apply not_true_iff_false. rewrite ends_with_spec. intros [k Hk].
    apply Hno. rewrite Hk. rewrite !elem_of_app. right. right. by left. }
  change (ff_matchers (FakeIpFilter_new ["time.*"; "ntp.*"] Blacklist))
    with [parse_filter_pattern "time.*"; parse_filter_pattern "ntp.*"].
  replace (parse_filter_pattern "time.*") with (FmWildcard (str_bytes "time." ++ [42])) by (vm_compute; reflexivity).
  replace (parse_filter_pattern "ntp.*") with (FmWildcard (str_bytes "ntp." ++ [42])) by (vm_compute; reflexivity).
  cbn [existsb matcher_matches ff_mode FakeIpFilter_new]. by rewrite !Hm.
Qed.

Lemma fake_ip_filter_inner_star_dead_witness :
  should_skip (FakeIpFilter_new ["time.*"; "ntp.*"] Blacklist) "time.apple.com" = false.
Proof.
  apply (fake_ip_filter_inner_star_dead "time.apple.com").
  apply (bool_decide_eq_false_1 _). vm_compute. reflexivity.
Defined.
End FakeIpWitness.
