(* ===== verification/DnsCache.v ===== *)
(** * The optimistic DNS cache

    Models [src/crates/core-resolver/src/cache.rs].  The [Arc]s a slot shares with the
    tickets it issued ([prefetching], [last_refresh_failure]) are created together, so
    a cell of a store indexed by number stands for the pair; a slot and a ticket hold
    the cell's number, and a ticket that outlives its slot writes to the old cell.
    [get] holds the map's write guard of its key from lookup to return, so one call is
    one step.  Clock readings are arguments: [now] at entry, [now'] inside
    [refresh_allowed]. *)

From stdpp Require Import base list gmap strings numbers option sorting.
From S2P Require Import Prelude Net Instances.

Inductive QType : Type := QA | QAAAA | QBoth.

#[global] Instance QType_eq_dec : EqDecision QType.
Proof. solve_decision. Defined.
#[global] Instance QType_countable : Countable QType.
Proof.
  refine (inj_countable' (fun q => match q with QA => 0%nat | QAAAA => 1%nat | QBoth => 2%nat end)
                         (fun n => match n with 0%nat => QA | 1%nat => QAAAA | _ => QBoth end) _).
  by intros [].
Defined.

Record CacheEntry : Type := mkCacheEntry {
  ce_ips : list IpAddr;
  ce_expire : Z;
  ce_last_used : Z;
  ce_origin : string
}.

Inductive Hit : Type := Fresh | Stale | Miss.

Record CacheConfig : Type := mkCacheConfig {
  cc_max_entries : Z;
  cc_grace : Z;
  cc_prefetch_threshold : Z;
  cc_client_response_timeout : Z;
  cc_failure_recheck : Z;
  cc_stale_answer_ttl : Z;
  cc_negative_ttl : Z
}.

(** Shared by a slot and its tickets. *)
Record Cell : Type := mkCell { cl_prefetching : bool; cl_last_failure : option Z }.

Record CachedSlot : Type := mkCachedSlot { cs_entry : CacheEntry; cs_cell : nat }.

Record PrefetchTicket : Type := mkPrefetchTicket {
  pt_cell : nat;
  pt_host : string;
  pt_qtype : QType
}.

Record DnsCache : Type := mkDnsCache {
  dc_inner : gmap (string * QType) CachedSlot;
  dc_cells : gmap nat Cell;
  dc_next : nat;
  dc_cfg : CacheConfig
}.

Definition DnsCache_new (cfg : CacheConfig) : DnsCache := mkDnsCache ∅ ∅ 0 cfg.

Definition with_inner (c : DnsCache) (m : gmap (string * QType) CachedSlot) : DnsCache :=
  mkDnsCache m (dc_cells c) (dc_next c) (dc_cfg c).
Definition with_cells (c : DnsCache) (m : gmap nat Cell) : DnsCache :=
  mkDnsCache (dc_inner c) m (dc_next c) (dc_cfg c).

(** [slice.sort_by_key]: stable. *)
Fixpoint insert_by_key {A} (f : A -> Z) (x : A) (l : list A) : list A :=
  match l with
  | [] => [x]
  | y :: l' => if f y <=? f x then y :: insert_by_key f x l' else x :: l
  end.

Definition sort_by_key {A} (f : A -> Z) (l : list A) : list A :=
  foldl (fun acc x => insert_by_key f x acc) [] l.

Section Cache.
Context `{StrCase} `{HashIter}.

Definition refresh_allowed (cell : Cell) (cfg : CacheConfig) (now : Z) : bool :=
  if cl_prefetching cell then false else
  match cl_last_failure cell with
  | None => true
  | Some last_failure => cc_failure_recheck cfg <=? duration_since now last_failure
  end.

(** Set the flag and hand out the ticket. *)
Definition issue (c : DnsCache) (cell : nat) (st : Cell) (host : string) (qtype : QType)
  : DnsCache * PrefetchTicket :=
  (with_cells c (<[cell := mkCell true (cl_last_failure st)]> (dc_cells c)),
   mkPrefetchTicket cell host qtype).

Definition get (c : DnsCache) (host : string) (qtype : QType) (now now' : Z)
  : DnsCache * (option (list IpAddr) * Hit * option PrefetchTicket) :=
  let key := (to_lowercase host, qtype) in
  match dc_inner c !! key with
  | None => (c, (None, Miss, None))
  | Some slot =>
    let entry := mkCacheEntry (ce_ips (cs_entry slot)) (ce_expire (cs_entry slot)) now
                   (ce_origin (cs_entry slot)) in
    let c := with_inner c (<[key := mkCachedSlot entry (cs_cell slot)]> (dc_inner c)) in
    let cell := default (mkCell false None) (dc_cells c !! cs_cell slot) in
    if now <? ce_expire entry then
      let remaining := ce_expire entry - now in
      if (remaining <? cc_prefetch_threshold (dc_cfg c)) && refresh_allowed cell (dc_cfg c) now' then
        let '(c, t) := issue c (cs_cell slot) cell key.1 qtype in
        (c, (Some (ce_ips entry), Fresh, Some t))
      else (c, (Some (ce_ips entry), Fresh, None))
    else
    let stale_until := ce_expire entry + cc_grace (dc_cfg c) in
    if now <? stale_until then
      if refresh_allowed cell (dc_cfg c) now' then
        let '(c, t) := issue c (cs_cell slot) cell key.1 qtype in
        (c, (Some (ce_ips entry), Stale, Some t))
      else (c, (Some (ce_ips entry), Stale, None))
    else (with_inner c (delete key (dc_inner c)), (None, Miss, None))
  end.

(** [Drop for PrefetchTicket] and the two marks *)
Definition drop_ticket (c : DnsCache) (t : PrefetchTicket) : DnsCache :=
  match dc_cells c !! pt_cell t with
  | Some cell => with_cells c (<[pt_cell t := mkCell false (cl_last_failure cell)]> (dc_cells c))
  | None => c
  end.

Definition mark_success (c : DnsCache) (t : PrefetchTicket) : DnsCache :=
  match dc_cells c !! pt_cell t with
  | Some cell => with_cells c (<[pt_cell t := mkCell (cl_prefetching cell) None]> (dc_cells c))
  | None => c
  end.

Definition mark_failure (c : DnsCache) (t : PrefetchTicket) (now : Z) : DnsCache :=
  match dc_cells c !! pt_cell t with
  | Some cell => with_cells c (<[pt_cell t := mkCell (cl_prefetching cell) (Some now)]> (dc_cells c))
  | None => c
  end.

Definition get_with (c : DnsCache) (host : string) (qtype : QType) (disable_optimistic : bool)
    (now now' : Z) : DnsCache * (option (list IpAddr) * Hit * option PrefetchTicket) :=
  let '(c, (v, h, t)) := get c host qtype now now' in
  match h with
  | Stale =>
    if disable_optimistic then
      (match t with Some t => drop_ticket c t | None => c end, (None, Miss, None))
    else (c, (v, h, t))
  | _ => (c, (v, h, t))
  end.

Definition insert_slot (c : DnsCache) (key : string * QType) (entry : CacheEntry) : DnsCache :=
  mkDnsCache (<[key := mkCachedSlot entry (dc_next c)]> (dc_inner c))
    (<[dc_next c := mkCell false None]> (dc_cells c)) (S (dc_next c)) (dc_cfg c).

Definition evict_lru (c : DnsCache) : DnsCache :=
  let target := saturating_mul 64 (cc_max_entries (dc_cfg c)) 9 / 10 in
  let entries := (fun kv => (kv.1, ce_last_used (cs_entry kv.2))) <$> hash_iter (dc_inner c) in
  let entries := sort_by_key snd entries in
  let victims := take (Z.to_nat (saturating_sub (Z.of_nat (size (dc_inner c))) target)) entries in
  with_inner c (foldl (fun m kv => delete kv.1 m) (dc_inner c) victims).

Definition put (c : DnsCache) (host : string) (qtype : QType) (ips : list IpAddr) (ttl : Z)
    (origin : string) (now : Z) : DnsCache :=
  if len ips =? 0 then c else
  let c := insert_slot c (to_lowercase host, qtype) (mkCacheEntry ips (now + ttl) now origin) in
  if cc_max_entries (dc_cfg c) <? Z.of_nat (size (dc_inner c)) then evict_lru c else c.

Definition put_negative (c : DnsCache) (host : string) (qtype : QType) (now : Z) : DnsCache :=
  insert_slot c (to_lowercase host, qtype)
    (mkCacheEntry [] (now + cc_negative_ttl (dc_cfg c)) now "negative").

Definition invalidate (c : DnsCache) (host : string) (qtype : QType) : DnsCache :=
  with_inner c (delete (to_lowercase host, qtype) (dc_inner c)).

Definition cache_clear (c : DnsCache) : DnsCache := with_inner c ∅.

(** ** Persistence keys *)

Definition qtype_label (q : QType) : string :=
  match q with QA => "A" | QAAAA => "AAAA" | QBoth => "BOTH" end.

Definition dump_key (host : string) (q : QType) : string := host +:+ "|" +:+ qtype_label q.

(** [s.rsplit_once('|')] *)
Fixpoint rsplit_pipe (l : list Z) : option (list Z * list Z) :=
  match l with
  | [] => None
  | c :: l' =>
    match rsplit_pipe l' with
    | Some (a, b) => Some (c :: a, b)
    | None => if c =? 124 then Some ([], l') else None
    end
  end.

Definition parse_key (s : string) : option (string * QType) :=
  match rsplit_pipe (str_bytes s) with
  | None => None
  | Some (host, q) =>
    if decide (q = str_bytes "A") then Some (str_of_bytes host, QA)
    else if decide (q = str_bytes "AAAA") then Some (str_of_bytes host, QAAAA)
    else if decide (q = str_bytes "BOTH") then Some (str_of_bytes host, QBoth)
    else None
  end.

Record DnsCacheBlob : Type := mkDnsCacheBlob {
  db_ips : list string;
  db_expire_secs : Z;
  db_origin : string
}.

(** [now_sys] is the wall clock in milliseconds since the epoch; the additions stay
    far below the range of [SystemTime]. *)
Definition dump `{NetText} (c : DnsCache) (now_inst now_sys : Z) : list (string * DnsCacheBlob) :=
  (fun kv =>
     let entry := cs_entry kv.2 in
     let expire_secs := if now_inst <? ce_expire entry
                        then (now_sys + (ce_expire entry - now_inst)) / 1000 else 0 in
     (dump_key kv.1.1 kv.1.2, mkDnsCacheBlob (show_ip <$> ce_ips entry) expire_secs (ce_origin entry)))
  <$> hash_iter (dc_inner c).

(** [clock i] is the instant at which the [i]-th row is written by [put]. *)
Fixpoint load_from `{NetText} (clock : nat -> Z) (i : nat) (c : DnsCache) (now_secs : Z)
    (rows : list (string * DnsCacheBlob)) : DnsCache :=
  match rows with
  | [] => c
  | (key, blob) :: rows' =>
    let c :=
      if db_expire_secs blob <=? now_secs then c else
      match parse_key key with
      | None => c
      | Some (host, qtype) =>
        let ips := omap parse_ip (db_ips blob) in
        put c host qtype ips ((db_expire_secs blob - now_secs) * 1000) "persisted" (clock i)
      end in
    load_from clock (S i) c now_secs rows'
  end.

Definition load `{NetText} (c : DnsCache) (rows : list (string * DnsCacheBlob)) (now_sys : Z)
    (clock : nat -> Z) : DnsCache :=
  load_from clock 0 c (now_sys / 1000) rows.
End Cache.

(** ** Sorting and eviction *)
Section Evict.
Context `{StrCase} `{HashIter}.

Lemma insert_by_key_perm {A} (f : A -> Z) x l : insert_by_key f x l ≡ₚ x :: l.
Proof.
  induction l as [|y l IH]; [done|]. cbn. destruct (f y <=? f x); [|done].
  rewrite IH. by rewrite Permutation_swap.
Qed.

Lemma insert_by_key_sorted {A} (f : A -> Z) x l :
  StronglySorted (fun a b => f a <= f b) l -> StronglySorted (fun a b => f a <= f b) (insert_by_key f x l).
Proof.
  induction 1 as [|y l Hs IH Hall]; cbn; [by repeat constructor|].
  destruct (Z.leb_spec (f y) (f x)).
  - constructor; [done|]. rewrite insert_by_key_perm. by constructor.
  - constructor; [by constructor|]. constructor; [lia|].
    eapply List.Forall_impl; [|exact Hall]. simpl. lia.
Qed.

Lemma sort_by_key_spec {A} (f : A -> Z) l :
  sort_by_key f l ≡ₚ l /\ StronglySorted (fun a b => f a <= f b) (sort_by_key f l).
Proof.
  unfold sort_by_key.
  enough (forall acc, StronglySorted (fun a b => f a <= f b) acc ->
    foldl (fun acc x => insert_by_key f x acc) acc l ≡ₚ acc ++ l
    /\ StronglySorted (fun a b => f a <= f b) (foldl (fun acc x => insert_by_key f x acc) acc l)) as Hg.
  { apply (Hg []). constructor. }
  induction l as [|x l IH]; intros acc Hs; cbn [foldl]; [by rewrite app_nil_r|].
  destruct (IH (insert_by_key f x acc) (insert_by_key_sorted f x acc Hs)) as [I1 I2]. split; [|done].
  rewrite I1, insert_by_key_perm. cbn. by rewrite <- Permutation_middle.
Qed.

Lemma sorted_app_cross {A} (R : A -> A -> Prop) (l k : list A) :
  StronglySorted R (l ++ k) -> forall x y, x ∈ l -> y ∈ k -> R x y.
Proof.
  induction l as [|z l IH]; intros Hs x y Hx Hy; [by apply elem_of_nil in Hx|].
  cbn in Hs. apply StronglySorted_inv in Hs as [Hs Hall]. apply elem_of_cons in Hx as [->|Hx].
  - rewrite List.Forall_forall in Hall. apply Hall, list_elem_of_In, elem_of_app. by right.
  - by apply IH.
Qed.

Lemma delete_list_lookup {V} (ks : list ((string * QType) * V)) (m : gmap (string * QType) CachedSlot) k :
  foldl (fun m kv => delete kv.1 m) m ks !! k = if decide (k ∈ fst <$> ks) then None else m !! k.
Proof.
  revert m. induction ks as [|[k' v] ks IH]; intros m; cbn [foldl fmap list_fmap fst]; [by rewrite decide_False by apply not_elem_of_nil|].
  rewrite IH. destruct (decide (k ∈ fst <$> ks)) as [Hin|Hni].
  - by rewrite decide_True by (by right).
  - destruct (decide (k = k')) as [->|Hne].
    + rewrite decide_True by left. apply lookup_delete_eq.
    + rewrite decide_False by (rewrite elem_of_cons; naive_solver). by apply lookup_delete_ne.
Qed.

Lemma delete_list_size {V} (ks : list ((string * QType) * V)) (m : gmap (string * QType) CachedSlot) :
  NoDup (fst <$> ks) -> (forall k, k ∈ fst <$> ks -> is_Some (m !! k)) ->
  (size (foldl (fun m kv => delete kv.1 m) m ks) + length ks = size m)%nat.
Proof.
  revert m. induction ks as [|[k v] ks IH]; intros m Hnd Hin; cbn [foldl length fmap list_fmap fst] in *; [lia|].
  apply NoDup_cons in Hnd as [Hk Hnd]. destruct (Hin k ltac:(left)) as [s Hs].
  assert (size m <> 0)%nat by (intros E%map_size_empty_inv; by rewrite E in Hs).
  assert (Hd : size (delete k m) = pred (size m)) by (apply map_size_delete_Some; by exists s).
  rewrite <- (IH (delete k m)) in Hd; [lia|done|].
  intros k' Hk'. rewrite lookup_delete_ne by (intros ->; done). apply Hin. by right.
Qed.

(** The records in the order of eviction: each key once, with its time of last use. *)
Definition by_last_used (m : gmap (string * QType) CachedSlot) : list ((string * QType) * Z) :=
  sort_by_key snd ((fun kv => (kv.1, ce_last_used (cs_entry kv.2))) <$> hash_iter m).

Lemma by_last_used_spec m :
  NoDup (fst <$> by_last_used m) /\ length (by_last_used m) = size m
  /\ (forall k t, (k, t) ∈ by_last_used m <-> exists s, m !! k = Some s /\ t = ce_last_used (cs_entry s)).
Proof.
  unfold by_last_used. set (all := _ <$> hash_iter m).
  destruct (sort_by_key_spec snd all) as [Hperm _]. set (srt := sort_by_key snd all) in *.
  assert (Hkeys : fst <$> srt ≡ₚ fst <$> map_to_list m).
  { rewrite Hperm. unfold all. rewrite <- list_fmap_compose.
    rewrite (list_fmap_ext _ fst (hash_iter m)) by done. by rewrite hash_iter_perm. }
  split_and!.
  - rewrite Hkeys. apply NoDup_fst_map_to_list.
  - rewrite <- (length_fmap fst), Hkeys, length_fmap. apply length_map_to_list.
  - intros k t. rewrite Hperm. unfold all. rewrite list_elem_of_fmap. split.
    + intros ([k' s] & [= -> ->] & He). apply hash_iter_elem in He. by exists s.
    + intros (s & Hs & ->). exists (k, s). split; [done|]. by apply hash_iter_elem.
Qed.

(** [evict_lru] brings an over-full cache down to nine tenths of its limit, and
    what it removes was used no later than anything it keeps. *)
Lemma evict_lru_spec c :
  0 <= cc_max_entries (dc_cfg c) < 2 ^ 60 -> cc_max_entries (dc_cfg c) < Z.of_nat (size (dc_inner c)) ->
  let c' := evict_lru c in
  Z.of_nat (size (dc_inner c')) = cc_max_entries (dc_cfg c) * 9 / 10
  /\ dc_cells c' = dc_cells c /\ dc_next c' = dc_next c /\ dc_cfg c' = dc_cfg c
  /\ (forall k s, dc_inner c' !! k = Some s -> dc_inner c !! k = Some s)
  /\ (forall k s k' s', dc_inner c' !! k = Some s -> dc_inner c !! k' = Some s' -> dc_inner c' !! k' = None ->
        ce_last_used (cs_entry s') <= ce_last_used (cs_entry s)).
Proof.
  intros Hmax Hsz c'. unfold c', evict_lru, with_inner. cbn [dc_inner dc_cells dc_next dc_cfg].
  set (m := dc_inner c) in *. set (mx := cc_max_entries (dc_cfg c)) in *.
  unfold saturating_mul. rewrite Z.min_l by (change (2 ^ 64) with (16 * 2 ^ 60); lia).
  assert (Htgt : 0 <= mx * 9 / 10 <= mx) by (split; [apply Z.div_pos; lia|apply Z.div_le_upper_bound; lia]).
  fold (by_last_used m). destruct (by_last_used_spec m) as (Hnd & Hlen & Hin).
  pose proof (proj2 (sort_by_key_spec snd ((fun kv => (kv.1, ce_last_used (cs_entry kv.2))) <$> hash_iter m))) as Hsorted.
  fold (by_last_used m) in Hsorted. set (srt := by_last_used m) in *.
  set (n := Z.to_nat (saturating_sub (Z.of_nat (size m)) (mx * 9 / 10))).
  assert (Hnz : Z.of_nat n = Z.of_nat (size m) - mx * 9 / 10) by (unfold n, saturating_sub; lia).
  assert (Hn : (n <= length srt)%nat) by lia.
  assert (Hnd' : NoDup (fst <$> take n srt)).
  { rewrite <- (take_drop n srt), fmap_app in Hnd. by apply NoDup_app in Hnd as [? _]. }
  assert (Hsome : forall k, k ∈ fst <$> take n srt -> is_Some (m !! k)).
  { intros k Hk. apply list_elem_of_fmap in Hk as ([k' t] & -> & Hk).
    apply elem_of_take in Hk as (i & Hi & _). apply list_elem_of_lookup_2, Hin in Hi as (s & Hs & _). by exists s. }
  pose proof (delete_list_size (take n srt) m Hnd' Hsome) as Hsize.
  rewrite length_take in Hsize. split_and!; try done.
  - clearbody n. lia.
  - intros k s Hs. rewrite delete_list_lookup in Hs. by case_decide.
  - intros k s k' s' Hk Hk' Hnone. rewrite delete_list_lookup in Hk. rewrite delete_list_lookup in Hnone.
    destruct (decide (k ∈ fst <$> take n srt)) as [|D1]; [done|].
    destruct (decide (k' ∈ fst <$> take n srt)) as [D2|]; [|congruence].
    assert (K1 : (k, ce_last_used (cs_entry s)) ∈ drop n srt).
    { assert (Hk2 : (k, ce_last_used (cs_entry s)) ∈ srt) by (apply Hin; by exists s).
      rewrite <- (take_drop n srt), elem_of_app in Hk2. destruct Hk2 as [Hk2|]; [|done].
      exfalso. apply D1, list_elem_of_fmap. by exists (k, ce_last_used (cs_entry s)). }
    assert (K2 : (k', ce_last_used (cs_entry s')) ∈ take n srt).
    { apply list_elem_of_fmap in D2 as ([k2 t] & -> & D2). cbn in *.
      assert (D3 : (k2, t) ∈ srt) by (apply elem_of_take in D2 as (i & Hi & _); by eapply list_elem_of_lookup_2).
      apply Hin in D3 as (s2 & Hs2 & ->). replace s' with s2 by congruence. done. }
    rewrite <- (take_drop n srt) in Hsorted. exact (sorted_app_cross _ _ _ Hsorted _ _ K2 K1).
Qed.
End Evict.

(** ** The cache and its outstanding tickets as a transition system *)
Section Steps.
Context `{StrCase} `{HashIter}.

Record World : Type := mkWorld { w_cache : DnsCache; w_tickets : list PrefetchTicket }.

Definition opt_list {A} (o : option A) : list A := match o with Some x => [x] | None => [] end.

(** Which key a step writes a fresh record for. *)
Inductive cache_label : Type :=
| LRead
| LWrite (key : string * QType)
| LRemove
| LTicket.

Inductive cache_step : World -> cache_label -> World -> Prop :=
| step_get c ts host q now now' c' v h t :
    get c host q now now' = (c', (v, h, t)) ->
    cache_step (mkWorld c ts) LRead (mkWorld c' (opt_list t ++ ts))
| step_get_with c ts host q d now now' c' v h t :
    get_with c host q d now now' = (c', (v, h, t)) ->
    cache_step (mkWorld c ts) LRead (mkWorld c' (opt_list t ++ ts))
| step_put c ts host q ips ttl origin now :
    cache_step (mkWorld c ts) (LWrite (to_lowercase host, q)) (mkWorld (put c host q ips ttl origin now) ts)
| step_put_negative c ts host q now :
    cache_step (mkWorld c ts) (LWrite (to_lowercase host, q)) (mkWorld (put_negative c host q now) ts)
| step_invalidate c ts host q :
    cache_step (mkWorld c ts) LRemove (mkWorld (invalidate c host q) ts)
| step_clear c ts :
    cache_step (mkWorld c ts) LRemove (mkWorld (cache_clear c) ts)
| step_drop c ts1 t ts2 :
    cache_step (mkWorld c (ts1 ++ t :: ts2)) LTicket (mkWorld (drop_ticket c t) (ts1 ++ ts2))
| step_success c ts t :
    t ∈ ts -> cache_step (mkWorld c ts) LTicket (mkWorld (mark_success c t) ts)
| step_failure c ts t now :
    t ∈ ts -> cache_step (mkWorld c ts) LTicket (mkWorld (mark_failure c t now) ts).

Definition any_step (w w' : World) : Prop := exists l, cache_step w l w'.

Definition reachable (cfg : CacheConfig) (w : World) : Prop :=
  rtc any_step (mkWorld (DnsCache_new cfg) []) w.

(** The flag of a cell is up exactly while its one ticket is outstanding. *)
Definition world_ok (w : World) : Prop :=
  let c := w_cache w in
  (forall k s, dc_inner c !! k = Some s -> is_Some (dc_cells c !! cs_cell s))
  /\ (forall n, is_Some (dc_cells c !! n) -> (n < dc_next c)%nat)
  /\ NoDup (pt_cell <$> w_tickets w)
  /\ (forall t, t ∈ w_tickets w -> is_Some (dc_cells c !! pt_cell t))
  /\ (forall n st, dc_cells c !! n = Some st ->
        (cl_prefetching st = true <-> n ∈ pt_cell <$> w_tickets w)).

Lemma world_ok_inner c ts m :
  world_ok (mkWorld c ts) -> (forall k s, m !! k = Some s -> exists s', dc_inner c !! k = Some s' /\ cs_cell s' = cs_cell s) ->
  world_ok (mkWorld (with_inner c m) ts).
Proof.
  intros (W1 & W2 & W3 & W4 & W5) Hm. split_and!; try done. cbn. intros k s Hs.
  destruct (Hm k s Hs) as (s' & Hs' & <-). by eapply W1.
Qed.

Lemma world_ok_issue c ts cell st host q c' t :
  world_ok (mkWorld c ts) -> dc_cells c !! cell = Some st -> cl_prefetching st = false ->
  issue c cell st host q = (c', t) -> world_ok (mkWorld c' (t :: ts)).
Proof.
  intros (W1 & W2 & W3 & W4 & W5) Hst Hf [= <- <-]. cbn in *.
  assert (Hni : cell ∉ pt_cell <$> ts) by (rewrite <- (W5 cell st Hst); by rewrite Hf).
  split_and!; cbn.
  - intros k s Hs. rewrite lookup_insert_is_Some'. right. by eapply W1.
  - intros n. rewrite lookup_insert_is_Some'. intros [<-|Hn]; [apply W2; by rewrite Hst|by apply W2].
  - by constructor.
  - intros t [->|Ht]%elem_of_cons; rewrite lookup_insert_is_Some'; [by left|right; by apply W4].
  - intros n st' Hn. destruct (decide (n = cell)) as [->|Hne].
    + rewrite lookup_insert_eq in Hn. injection Hn as <-. cbn. split; [by left|done].
    + rewrite lookup_insert_ne in Hn by done. rewrite (W5 n st' Hn). cbn.
      rewrite elem_of_cons. naive_solver.
Qed.

Lemma world_ok_drop c ts1 t ts2 :
  world_ok (mkWorld c (ts1 ++ t :: ts2)) -> world_ok (mkWorld (drop_ticket c t) (ts1 ++ ts2)).
Proof.
  intros (W1 & W2 & W3 & W4 & W5). cbn in *. unfold drop_ticket.
  destruct (W4 t) as [st Hst]; [rewrite elem_of_app; right; by left|]. rewrite Hst.
  rewrite fmap_app, fmap_cons in W3.
  assert (Hnd : NoDup (pt_cell <$> ts1 ++ ts2) /\ pt_cell t ∉ pt_cell <$> ts1 ++ ts2).
  { rewrite fmap_app. rewrite <- Permutation_middle in W3. apply NoDup_cons in W3 as [? ?]. done. }
  destruct Hnd as [Hnd Hni]. split_and!; cbn.
  - intros k s Hs. rewrite lookup_insert_is_Some'. right. by eapply W1.
  - intros n. rewrite lookup_insert_is_Some'. intros [<-|Hn]; [apply W2; by rewrite Hst|by apply W2].
  - done.
  - intros t' Ht'. rewrite lookup_insert_is_Some'. right. apply W4. rewrite elem_of_app in *. rewrite elem_of_cons. naive_solver.
  - intros n st' Hn. destruct (decide (n = pt_cell t)) as [->|Hne].
    + rewrite lookup_insert_eq in Hn. injection Hn as <-. cbn. naive_solver.
    + rewrite lookup_insert_ne in Hn by done. rewrite (W5 n st' Hn).
      rewrite !fmap_app, fmap_cons, !elem_of_app, elem_of_cons. naive_solver.
Qed.

Lemma world_ok_mark c ts n st lf :
  world_ok (mkWorld c ts) -> dc_cells c !! n = Some st ->
  world_ok (mkWorld (with_cells c (<[n := mkCell (cl_prefetching st) lf]> (dc_cells c))) ts).
Proof.
  intros (W1 & W2 & W3 & W4 & W5) Hst. split_and!; cbn in *.
  - intros k s Hs. rewrite lookup_insert_is_Some'. right. by eapply W1.
  - intros m. rewrite lookup_insert_is_Some'. intros [<-|Hn]; [apply W2; by rewrite Hst|by apply W2].
  - done.
  - intros t Ht. rewrite lookup_insert_is_Some'. right. by apply W4.
  - intros m st' Hm. destruct (decide (m = n)) as [->|Hne].
    + rewrite lookup_insert_eq in Hm. injection Hm as <-. cbn. by apply W5.
    + rewrite lookup_insert_ne in Hm by done. by apply W5.
Qed.

Lemma world_ok_insert_slot c ts key e :
  world_ok (mkWorld c ts) -> world_ok (mkWorld (insert_slot c key e) ts).
Proof.
  intros (W1 & W2 & W3 & W4 & W5). cbn in *.
  assert (Hnew : dc_cells c !! dc_next c = None).
  { destruct (dc_cells c !! dc_next c) eqn:E; [|done]. specialize (W2 (dc_next c) ltac:(by rewrite E)). lia. }
  split_and!; cbn.
  - intros k s Hs. rewrite lookup_insert_is_Some'. destruct (decide (k = key)) as [->|Hne].
    + rewrite lookup_insert_eq in Hs. injection Hs as <-. by left.
    + rewrite lookup_insert_ne in Hs by done. right. by eapply W1.
  - intros n. rewrite lookup_insert_is_Some'. intros [<-|Hn]; [lia|]. specialize (W2 n Hn). lia.
  - done.
  - intros t Ht. rewrite lookup_insert_is_Some'. right. by apply W4.
  - intros n st Hn. destruct (decide (n = dc_next c)) as [->|Hne].
    + rewrite lookup_insert_eq in Hn. injection Hn as <-. cbn. split; [done|]. intros Hin.
      apply list_elem_of_fmap in Hin as (t & Et & Ht). destruct (W4 t Ht) as [? E]. congruence.
    + rewrite lookup_insert_ne in Hn by done. by apply W5.
Qed.

(** [get] by cases: nothing there, expired beyond grace, or an answer. *)
Lemma get_cases c host q now now' :
  let key := (to_lowercase host, q) in
  let res := get c host q now now' in
  match dc_inner c !! key with
  | None => res = (c, (None, Miss, None))
  | Some s =>
    let e := cs_entry s in
    let touched := mkCachedSlot (mkCacheEntry (ce_ips e) (ce_expire e) now (ce_origin e)) (cs_cell s) in
    let c1 := with_inner c (<[key := touched]> (dc_inner c)) in
    let st := default (mkCell false None) (dc_cells c !! cs_cell s) in
    let hit := if now <? ce_expire e then Fresh else Stale in
    if now <? ce_expire e + Z.max 0 (cc_grace (dc_cfg c)) then
      res = (c1, (Some (ce_ips e), hit, None))
      \/ (refresh_allowed st (dc_cfg c) now' = true
          /\ let '(c2, t) := issue c1 (cs_cell s) st key.1 q in
             res = (c2, (Some (ce_ips e), hit, Some t)))
    else res = (with_inner c (delete key (<[key := touched]> (dc_inner c))), (None, Miss, None))
  end.
Proof.
  cbn zeta. unfold get. cbn zeta. destruct (dc_inner c !! _) as [s|]; [|done].
  cbn [ce_expire ce_ips cs_entry cs_cell]. set (e := cs_entry s).
  destruct (Z.ltb_spec now (ce_expire e)) as [Hf|Hf].
  - rewrite (proj2 (Z.ltb_lt now _)) by lia.
    destruct (_ && refresh_allowed _ _ _) eqn:E; [right|left; reflexivity].
    apply andb_prop in E as [_ E]. split; [exact E|]. reflexivity.
  - destruct (Z.ltb_spec now (ce_expire e + cc_grace (dc_cfg c))) as [Hg|Hg].
    + rewrite (proj2 (Z.ltb_lt now _)) by lia.
      change (dc_cfg (with_inner c _)) with (dc_cfg c). change (dc_cells (with_inner c _)) with (dc_cells c).
      rewrite (proj2 (Z.ltb_lt now _)) by lia.
      destruct (refresh_allowed _ _ _) eqn:E; [right; split; reflexivity|left; reflexivity].
    + rewrite (proj2 (Z.ltb_ge now (_ + Z.max _ _))) by lia.
      change (dc_cfg (with_inner c _)) with (dc_cfg c). rewrite (proj2 (Z.ltb_ge now _)) by lia. reflexivity.
Qed.

Lemma refresh_allowed_flag st cfg now : refresh_allowed st cfg now = true -> cl_prefetching st = false.
Proof. unfold refresh_allowed. by destruct (cl_prefetching st). Qed.

Lemma world_ok_get c ts host q now now' c' v h t :
  world_ok (mkWorld c ts) -> get c host q now now' = (c', (v, h, t)) ->
  world_ok (mkWorld c' (opt_list t ++ ts)).
Proof.
  intros W Hg. pose proof (get_cases c host q now now') as Hc. cbn zeta in Hc. rewrite Hg in Hc.
  destruct (dc_inner c !! (to_lowercase host, q)) as [s|] eqn:Es; [|by simplify_eq].
  set (touched := mkCachedSlot _ _) in Hc.
  assert (Ht : forall k s0, <[(to_lowercase host, q) := touched]> (dc_inner c) !! k = Some s0 ->
    exists s', dc_inner c !! k = Some s' /\ cs_cell s' = cs_cell s0).
  { intros k s0 Hk. destruct (decide (k = (to_lowercase host, q))) as [->|Hne].
    - rewrite lookup_insert_eq in Hk. injection Hk as <-. exists s. by split.
    - rewrite lookup_insert_ne in Hk by done. by exists s0. }
  pose proof W as (W1 & _). destruct (W1 _ _ Es) as [st Hst]. cbn in Hst. rewrite Hst in Hc. cbn [default] in Hc.
  destruct (now <? _).
  - destruct Hc as [Hc|[Hr Hc]].
    + simplify_eq. cbn. by apply world_ok_inner.
    + destruct (issue _ _ _ _ _) as [c2 tk] eqn:Ei. simplify_eq. cbn [opt_list app].
      eapply world_ok_issue; [apply (world_ok_inner c ts _ W Ht)|exact Hst|by eapply refresh_allowed_flag|exact Ei].
  - simplify_eq. cbn. apply world_ok_inner; [done|]. intros k s0 Hk.
    apply lookup_delete_Some in Hk as [_ Hk]. by apply Ht.
Qed.

Lemma get_with_cases c host q d now now' :
  let '(c1, (v, h, t)) := get c host q now now' in
  get_with c host q d now now' = (c1, (v, h, t))
  \/ (h = Stale /\ d = true
      /\ get_with c host q d now now' = (match t with Some t => drop_ticket c1 t | None => c1 end, (None, Miss, None))).
Proof.
  unfold get_with. destruct (get c host q now now') as [c1 [[v h] t]].
  destruct h; [by left| |by left]. destruct d; [right|left]; done.
Qed.

Lemma world_ok_put c ts host q ips ttl origin now :
  0 <= cc_max_entries (dc_cfg c) < 2 ^ 60 ->
  world_ok (mkWorld c ts) -> world_ok (mkWorld (put c host q ips ttl origin now) ts).
Proof.
  intros Hmax W. unfold put. destruct (len ips =? 0); [done|]. cbn zeta.
  pose proof (world_ok_insert_slot c ts (to_lowercase host, q) (mkCacheEntry ips (now + ttl) now origin) W) as W'.
  set (c1 := insert_slot _ _ _) in *. destruct (Z.ltb_spec (cc_max_entries (dc_cfg c1)) (Z.of_nat (size (dc_inner c1)))); [|done].
  destruct (evict_lru_spec c1 Hmax ltac:(done)) as (_ & _ & _ & _ & Hsub & _).
  apply (world_ok_inner c1 ts (dc_inner (evict_lru c1)) W'). intros k s Hs. exists s. split; [by apply Hsub|done].
Qed.

Definition cfg_bounded (w : World) : Prop := 0 <= cc_max_entries (dc_cfg (w_cache w)) < 2 ^ 60.

Lemma get_cfg c host q now now' : dc_cfg (get c host q now now').1 = dc_cfg c.
Proof.
  unfold get. cbn zeta. destruct (dc_inner c !! _); [|done].
  destruct (_ <? _); [destruct (_ && _); done|]. destruct (_ <? _); [destruct (refresh_allowed _ _ _); done|done].
Qed.

Lemma drop_cfg c t : dc_cfg (drop_ticket c t) = dc_cfg c.
Proof. unfold drop_ticket. by destruct (dc_cells c !! pt_cell t). Qed.

Lemma step_cfg w l w' : cache_step w l w' -> dc_cfg (w_cache w') = dc_cfg (w_cache w).
Proof.
  destruct 1; cbn; try done.
  - pose proof (get_cfg c host q now now') as E. by rewrite H1 in E.
  - pose proof (get_with_cases c host q d now now') as Hc. pose proof (get_cfg c host q now now') as E.
    destruct (get c host q now now') as [c1 [[v1 h1] t1]]. cbn in E. rewrite H1 in Hc.
    destruct Hc as [Hc|(_ & _ & Hc)]; simplify_eq; [done|]. destruct t1; [by rewrite drop_cfg|done].
  - unfold put. destruct (_ =? 0); [done|]. cbn zeta. by destruct (_ <? _).
  - apply drop_cfg.
  - unfold mark_success. by destruct (dc_cells c !! _).
  - unfold mark_failure. by destruct (dc_cells c !! _).
Qed.

Lemma step_ok w l w' : cfg_bounded w -> cache_step w l w' -> world_ok w -> world_ok w'.
Proof.
  intros Hb Hstep W. destruct Hstep; cbn in Hb.
  - by eapply world_ok_get.
  - pose proof (get_with_cases c host q d now now') as Hc.
    destruct (get c host q now now') as [c1 [[v1 h1] t1]] eqn:Eg.
    pose proof (world_ok_get _ _ _ _ _ _ _ _ _ _ W Eg) as W1.
    rewrite H1 in Hc. destruct Hc as [Hc|(_ & _ & Hc)]; simplify_eq; [done|].
    destruct t1 as [t1|]; [|done]. by apply (world_ok_drop c1 [] t1 ts).
  - by apply world_ok_put.
  - by apply world_ok_insert_slot.
  - apply (world_ok_inner c ts); [done|]. intros k s Hk. apply lookup_delete_Some in Hk as [_ Hk]. by exists s.
  - apply (world_ok_inner c ts); [done|]. intros k s Hk. by rewrite lookup_empty in Hk.
  - by apply world_ok_drop.
  - unfold mark_success. destruct (dc_cells c !! pt_cell t) eqn:E; [|done]. by apply world_ok_mark.
  - unfold mark_failure. destruct (dc_cells c !! pt_cell t) eqn:E; [|done]. by apply world_ok_mark.
Qed.

Lemma reachable_ok cfg w :
  0 <= cc_max_entries cfg < 2 ^ 60 -> reachable cfg w -> world_ok w /\ dc_cfg (w_cache w) = cfg.
Proof.
  intros Hmax. unfold reachable.
  assert (Hinit : world_ok (mkWorld (DnsCache_new cfg) []) /\ dc_cfg (w_cache (mkWorld (DnsCache_new cfg) [])) = cfg).
  { split; [|done]. split_and!; cbn.
    - intros k s Hs. by rewrite lookup_empty in Hs.
    - intros n [s Hs]. by rewrite lookup_empty in Hs.
    - constructor.
    - intros t Ht. by apply elem_of_nil in Ht.
    - intros n st Hs. by rewrite lookup_empty in Hs. }
  revert Hinit. generalize (mkWorld (DnsCache_new cfg) []). intros w0 [W0 E0] Hr.
  induction Hr as [w|w1 w2 w3 [l Hs] Hr IH]; [done|]. apply IH.
  - eapply step_ok; [|exact Hs|done]. unfold cfg_bounded. by rewrite E0.
  - rewrite (step_cfg _ _ _ Hs). done.
Qed.

(** A record is only replaced by a write to its key; any other step keeps its
    answer and expiry or removes it. *)
Definition same_record (o o' : option CachedSlot) : Prop :=
  match o' with
  | None => True
  | Some s' => exists s, o = Some s /\ ce_ips (cs_entry s) = ce_ips (cs_entry s')
                 /\ ce_expire (cs_entry s) = ce_expire (cs_entry s')
  end.

Lemma same_record_refl o : same_record o o.
Proof. destruct o; [by eexists|done]. Qed.

Lemma same_record_trans o1 o2 o3 : same_record o1 o2 -> same_record o2 o3 -> same_record o1 o3.
Proof.
  destruct o3 as [s3|]; [|done]. intros H1 (s2 & -> & E1 & E2). destruct H1 as (s1 & -> & F1 & F2).
  exists s1. split_and!; congruence.
Qed.

Lemma same_record_get c host q now now' k :
  same_record (dc_inner c !! k) (dc_inner (get c host q now now').1 !! k).
Proof.
  pose proof (get_cases c host q now now') as Hc. cbn zeta in Hc.
  destruct (dc_inner c !! (to_lowercase host, q)) as [s|] eqn:Es.
  2:{ rewrite Hc. apply same_record_refl. }
  assert (Ht : forall e, ce_ips e = ce_ips (cs_entry s) -> ce_expire e = ce_expire (cs_entry s) ->
    same_record (dc_inner c !! k) (<[(to_lowercase host, q) := mkCachedSlot e (cs_cell s)]> (dc_inner c) !! k)).
  { intros e E1 E2. destruct (decide (k = (to_lowercase host, q))) as [->|Hne].
    - rewrite lookup_insert_eq, Es. exists s. by split_and!.
    - rewrite lookup_insert_ne by done. apply same_record_refl. }
  destruct (now <? _).
  - destruct Hc as [Hc|[_ Hc]]; [rewrite Hc; cbn; by apply Ht|].
    unfold issue in Hc. rewrite Hc. cbn. by apply Ht.
  - rewrite Hc. cbn. destruct (decide (k = (to_lowercase host, q))) as [->|Hne].
    + by rewrite lookup_delete_eq.
    + rewrite lookup_delete_ne, lookup_insert_ne by done. apply same_record_refl.
Qed.

Lemma step_same_record w l w' k :
  cfg_bounded w -> cache_step w l w' -> l <> LWrite k ->
  same_record (dc_inner (w_cache w) !! k) (dc_inner (w_cache w') !! k).
Proof.
  assert (Hdrop : forall c t, dc_inner (drop_ticket c t) = dc_inner c)
    by (intros c t; unfold drop_ticket; by destruct (dc_cells c !! pt_cell t)).
  intros Hb Hs Hl. destruct Hs; cbn in *.
  - pose proof (same_record_get c host q now now' k) as Hg. by rewrite H1 in Hg.
  - pose proof (get_with_cases c host q d now now') as Hc. pose proof (same_record_get c host q now now' k) as Hg.
    destruct (get c host q now now') as [c1 [[v1 h1] t1]]. rewrite H1 in Hc. cbn in Hg.
    destruct Hc as [Hc|(_ & _ & Hc)]; simplify_eq; [done|]. destruct t1; [by rewrite Hdrop|done].
  - unfold put. destruct (len ips =? 0); [apply same_record_refl|]. cbn zeta. set (c1 := insert_slot _ _ _).
    assert (Hk : dc_inner c1 !! k = dc_inner c !! k) by (apply lookup_insert_ne; congruence).
    destruct (Z.ltb_spec (cc_max_entries (dc_cfg c1)) (Z.of_nat (size (dc_inner c1)))); [|rewrite Hk; apply same_record_refl].
    destruct (evict_lru_spec c1 Hb ltac:(done)) as (_ & _ & _ & _ & Hsub & _).
    destruct (dc_inner (evict_lru c1) !! k) eqn:E; [|done]. apply Hsub in E. rewrite Hk in E. rewrite E.
    apply same_record_refl.
  - rewrite lookup_insert_ne by congruence. apply same_record_refl.
  - destruct (decide (k = (to_lowercase host, q))) as [->|Hne]; [by rewrite lookup_delete_eq|].
    rewrite lookup_delete_ne by done. apply same_record_refl.
  - by rewrite lookup_empty.
  - rewrite Hdrop. apply same_record_refl.
  - unfold mark_success. destruct (dc_cells c !! _); apply same_record_refl.
  - unfold mark_failure. destruct (dc_cells c !! _); apply same_record_refl.
Qed.

Lemma trace_same_record k w w' :
  cfg_bounded w -> rtc (fun w w' => exists l, cache_step w l w' /\ l <> LWrite k) w w' ->
  same_record (dc_inner (w_cache w) !! k) (dc_inner (w_cache w') !! k) /\ dc_cfg (w_cache w') = dc_cfg (w_cache w).
Proof.
  intros Hb Hr. induction Hr as [w|w1 w2 w3 (l & Hs & Hl) Hr IH]; [split; [apply same_record_refl|done]|].
  pose proof (step_cfg _ _ _ Hs) as Hc. destruct IH as [I1 I2]; [unfold cfg_bounded; by rewrite Hc|].
  split; [|congruence]. eapply same_record_trans; [|exact I1]. by eapply step_same_record.
Qed.

(** ** Claims *)

(** Answers are the ones last written and never outlive their grace: after a
    [put], whatever reads, removals, writes of other keys and ticket activity follow,
    a [get] of the key either misses or returns exactly the addresses put, as fresh
    before their expiry and as stale only within the grace period after it. *)
Theorem dns_cache_answers_latest c ts host q ips ttl origin t w' now now' :
  0 <= cc_max_entries (dc_cfg c) < 2 ^ 60 -> 0 <= cc_grace (dc_cfg c) -> ips <> [] ->
  rtc (fun w w' => exists l, cache_step w l w' /\ l <> LWrite (to_lowercase host, q))
    (mkWorld (put c host q ips ttl origin t) ts) w' ->
  let '(v, h, _) := (get (w_cache w') host q now now').2 in
  (v = None /\ h = Miss)
  \/ (v = Some ips /\ h = (if now <? t + ttl then Fresh else Stale)
      /\ now < t + ttl + cc_grace (dc_cfg c)).
Proof.
  intros Hmax Hgr Hips Hr. set (key := (to_lowercase host, q)).
  assert (Hne : len ips =? 0 = false) by (destruct ips; [done|]; rewrite len_cons; pose proof (len_nonneg ips); lia).
  assert (Hput : same_record (Some (mkCachedSlot (mkCacheEntry ips (t + ttl) t origin) (dc_next c)))
                   (dc_inner (put c host q ips ttl origin t) !! key)
                 /\ dc_cfg (put c host q ips ttl origin t) = dc_cfg c).
  { unfold put. rewrite Hne. cbn zeta. set (c1 := insert_slot _ _ _).
    assert (E : dc_inner c1 !! key = Some (mkCachedSlot (mkCacheEntry ips (t + ttl) t origin) (dc_next c)))
      by apply lookup_insert_eq.
    destruct (Z.ltb_spec (cc_max_entries (dc_cfg c1)) (Z.of_nat (size (dc_inner c1)))) as [Hlt|]; [|rewrite E; split; [apply same_record_refl|done]].
    destruct (evict_lru_spec c1 Hmax Hlt) as (_ & _ & _ & Ec & Hsub & _). split; [|by rewrite Ec].
    destruct (dc_inner (evict_lru c1) !! key) eqn:E2; [|done]. apply Hsub in E2. rewrite E in E2. rewrite E2.
    apply same_record_refl. }
  destruct Hput as [Hput Hcfg].
  destruct (trace_same_record key (mkWorld (put c host q ips ttl origin t) ts) w' ltac:(unfold cfg_bounded; cbn [w_cache]; by rewrite Hcfg) Hr) as [Htr Hcfg'].
  cbn [w_cache] in Htr, Hcfg'. pose proof (same_record_trans _ _ _ Hput Htr) as Hrec.
  pose proof (get_cases (w_cache w') host q now now') as Hc. cbn zeta in Hc. fold key in Hc.
  destruct (dc_inner (w_cache w') !! key) as [s|]; [|rewrite Hc; by left].
  destruct Hrec as (s0 & [= <-] & E1 & E2). cbn in E1, E2. rewrite <- E1, <- E2, Hcfg', Hcfg in Hc.
  rewrite Z.max_r in Hc by lia. destruct (Z.ltb_spec now (t + ttl + cc_grace (dc_cfg c))) as [Hlt|Hge].
  - destruct Hc as [Hc|[_ Hc]]; [rewrite Hc; right; by split_and!|].
    unfold issue in Hc. rewrite Hc. right. by split_and!.
  - rewrite Hc. by left.
Qed.

(** [C12] One refresh at a time: in every reachable state each slot has at most one
    prefetch ticket outstanding; [get] issues a new one only when none is, and not
    before [failure_recheck] has passed since the last failed refresh; while one is
    outstanding no further ticket is issued for that slot. *)
Theorem dns_cache_single_refresh cfg w host q now now' :
  0 <= cc_max_entries cfg < 2 ^ 60 -> reachable cfg w ->
  NoDup (pt_cell <$> w_tickets w)
  /\ match (get (w_cache w) host q now now').2.2 with
     | None => True
     | Some t => exists s st, dc_inner (w_cache w) !! (to_lowercase host, q) = Some s
         /\ pt_cell t = cs_cell s /\ dc_cells (w_cache w) !! cs_cell s = Some st
         /\ (forall t', t' ∈ w_tickets w -> pt_cell t' <> cs_cell s)
         /\ (forall f, cl_last_failure st = Some f -> cc_failure_recheck cfg <= duration_since now' f)
     end.
Proof.
  intros Hmax Hr. destruct (reachable_ok cfg w Hmax Hr) as [(W1 & W2 & W3 & W4 & W5) Hcfg]. split; [done|].
  pose proof (get_cases (w_cache w) host q now now') as Hc. cbn zeta in Hc.
  destruct (dc_inner (w_cache w) !! (to_lowercase host, q)) as [s|] eqn:Es; [|by rewrite Hc].
  destruct (W1 _ _ Es) as [st Hst]. rewrite Hst in Hc. change (default _ (Some st)) with st in Hc.
  destruct (now <? _); [|by rewrite Hc]. destruct Hc as [Hc|[Hra Hc]]; [by rewrite Hc|].
  unfold issue in Hc. rewrite Hc. cbn [snd pt_cell]. exists s, st. split_and!; try done.
  - intros t' Ht' E. pose proof (refresh_allowed_flag _ _ _ Hra) as Hf.
    assert (Hfl : cl_prefetching st = true); [|congruence]. apply (W5 _ _ Hst). rewrite <- E. by apply list_elem_of_fmap_2.
  - intros f Hf. unfold refresh_allowed in Hra. rewrite Hf, Hcfg in Hra. destruct (cl_prefetching st); [done|]. lia.
Qed.

(** The size limit: after storing a positive answer the cache holds at most
    [max_entries] records; an eviction brings it down to nine tenths of the limit and
    every record it removes was last used no later than every record it keeps. *)
Theorem dns_cache_put_bounded c host q ips ttl origin now :
  0 <= cc_max_entries (dc_cfg c) < 2 ^ 60 -> ips <> [] ->
  let c1 := insert_slot c (to_lowercase host, q) (mkCacheEntry ips (now + ttl) now origin) in
  let c' := put c host q ips ttl origin now in
  Z.of_nat (size (dc_inner c')) <= cc_max_entries (dc_cfg c)
  /\ Z.of_nat (size (dc_inner c'))
     = (if cc_max_entries (dc_cfg c) <? Z.of_nat (size (dc_inner c1))
        then cc_max_entries (dc_cfg c) * 9 / 10 else Z.of_nat (size (dc_inner c1)))
  /\ (forall k s k' s', dc_inner c' !! k = Some s -> dc_inner c1 !! k' = Some s' -> dc_inner c' !! k' = None ->
        ce_last_used (cs_entry s') <= ce_last_used (cs_entry s)).
Proof.
  intros Hmax Hips c1 c'. unfold c', put.
  replace (len ips =? 0) with false by (destruct ips; [done|]; rewrite len_cons; pose proof (len_nonneg ips); lia).
  cbn zeta. fold c1. destruct (Z.ltb_spec (cc_max_entries (dc_cfg c1)) (Z.of_nat (size (dc_inner c1)))) as [Hlt|Hge].
  - destruct (evict_lru_spec c1 Hmax Hlt) as (Hsz & _ & _ & _ & _ & Hlru).
    change (dc_cfg c1) with (dc_cfg c) in Hsz, Hlt. rewrite (proj2 (Z.ltb_lt _ _) Hlt).
    split; [|done]. rewrite Hsz. apply Z.div_le_upper_bound; lia.
  - change (dc_cfg c1) with (dc_cfg c) in Hge. rewrite (proj2 (Z.ltb_ge _ _) Hge).
    split; [done|]. split; [done|]. intros k s k' s' _ E1 E2. congruence.
Qed.

(** Persistence keys: a dumped key is read back as the same host and query type,
    whatever characters (a pipe included) the host contains. *)
Theorem dns_cache_key_roundtrip host q : parse_key (dump_key host q) = Some (host, q).
Proof.
  unfold parse_key, dump_key.
  rewrite !str_bytes_app.
  assert (Hr : forall l r, 124 ∉ r -> rsplit_pipe (l ++ [124] ++ r) = Some (l, r)).
  { assert (Hn : forall r, 124 ∉ r -> rsplit_pipe r = None).
    { induction r as [|x r IH]; intros Hx; [done|]. cbn. rewrite IH by set_solver.
      rewrite (proj2 (Z.eqb_neq x 124)) by set_solver. done. }
    induction l as [|x l IH]; intros r Hx; cbn; [by rewrite Hn|]. cbn in IH. by rewrite IH. }
  rewrite (Hr (str_bytes host)).
  - rewrite str_of_str_bytes. by destruct q.
  - apply (bool_decide_eq_false_1 _). by destruct q.
Qed.
End Steps.

(** ** Witnesses and the limit's gap *)

Module DnsCacheWitness.
Import Concrete.

Definition cfg : CacheConfig := mkCacheConfig 2 300 30 1800 30 30 60.
Definition ip1 : IpAddr := V4 16843009.

Lemma dns_cache_answers_latest_witness :
  let '(v, h, _) := (get (put (DnsCache_new cfg) "A.com" QA [ip1] 100 "system" 0) "A.com" QA 150 150).2 in
  (v = None /\ h = Miss)
  \/ (v = Some [ip1] /\ h = (if 150 <? 0 + 100 then Fresh else Stale) /\ 150 < 0 + 100 + 300).
Proof.
  apply (dns_cache_answers_latest (DnsCache_new cfg) [] "A.com" QA [ip1] 100 "system" 0
    (mkWorld (put (DnsCache_new cfg) "A.com" QA [ip1] 100 "system" 0) []) 150 150).
  - cbn. lia.
  - cbn. lia.
  - discriminate.
  - apply rtc_refl.
Defined.

(** A reachable state in which the stale record's only ticket is outstanding. *)
Definition c1 : DnsCache := put (DnsCache_new cfg) "a.com" QA [ip1] 100 "system" 0.
Definition c2 : DnsCache := (get c1 "a.com" QA 150 150).1.
Definition tk : PrefetchTicket := mkPrefetchTicket 0 "a.com" QA.

Lemma c2_reachable : reachable cfg (mkWorld c2 [tk]).
Proof.
  eapply rtc_l; [eexists; apply (step_put (DnsCache_new cfg) [] "a.com" QA [ip1] 100 "system" 0)|].
  eapply rtc_l; [|apply rtc_refl]. exists LRead.
  apply (step_get c1 [] "a.com" QA 150 150 c2 (Some [ip1]) Stale (Some tk)). vm_compute. reflexivity.
Qed.

Lemma dns_cache_single_refresh_witness :
  NoDup (pt_cell <$> [tk]) /\ (get c2 "A.com" QA 160 160).2.2 = None.
Proof.
  split; [|vm_compute; reflexivity].
  assert (Hmax : 0 <= cc_max_entries cfg < 2 ^ 60) by (cbn; lia).
  exact (proj1 (dns_cache_single_refresh cfg (mkWorld c2 [tk]) "A.com" QA 160 160 Hmax c2_reachable)).
Defined.

Definition two : DnsCache := put (put (DnsCache_new cfg) "a" QA [ip1] 9 "s" 0) "b" QA [ip1] 9 "s" 1.

Lemma dns_cache_put_bounded_witness :
  Z.of_nat (size (dc_inner (put two "c" QA [ip1] 9 "s" 2))) <= cc_max_entries (dc_cfg two).
Proof.
  assert (Hmax : 0 <= cc_max_entries (dc_cfg two) < 2 ^ 60) by (vm_compute; by split).
  assert (Hne : [ip1] <> []) by discriminate.
  exact (proj1 (dns_cache_put_bounded two "c" QA [ip1] 9 "s" 2 Hmax Hne)).
Defined.

(** The limit does not bound negative answers: each [put_negative] for a new
    name adds a record and none triggers an eviction, so a cache limited to two
    records holds any number of them. *)
Theorem dns_cache_negative_unbounded (names : list string) :
  NoDup (to_lowercase <$> names) ->
  let c := foldl (fun c name => put_negative c name QA 0) (DnsCache_new cfg) names in
  cc_max_entries (dc_cfg c) = 2 /\ Z.of_nat (size (dc_inner c)) = len names.
Proof.
  intros Hnd.
  enough (forall c, (forall n, n ∈ to_lowercase <$> names -> dc_inner c !! (n, QA) = None) ->
    let c' := foldl (fun c name => put_negative c name QA 0) c names in
    dc_cfg c' = dc_cfg c /\ size (dc_inner c') = (size (dc_inner c) + length names)%nat) as Hg.
  { cbn zeta. destruct (Hg (DnsCache_new cfg)) as [E1 E2]; [intros; apply lookup_empty|]. rewrite E1, E2.
    split; [done|]. cbn. rewrite map_size_empty. unfold len. lia. }
  induction names as [|n names IH]; intros c Hc; cbn [foldl].
  - split; [done|]. cbn. lia.
  - cbn in Hnd. apply NoDup_cons in Hnd as [Hn Hnd].
    destruct (IH Hnd (put_negative c n QA 0)) as [I1 I2].
    { intros m Hm. unfold put_negative, insert_slot. cbn [dc_inner].
      rewrite lookup_insert_ne; [apply Hc; by right|]. intros E. injection E as E. by rewrite E in Hn. }
    split; [by rewrite I1|]. rewrite I2. unfold put_negative, insert_slot. cbn [dc_inner length].
    rewrite map_size_insert_None by (apply Hc; by left). lia.
Qed.

Lemma dns_cache_negative_unbounded_witness :
  let c := foldl (fun c name => put_negative c name QA 0) (DnsCache_new cfg) ["a"; "b"; "c"; "d"] in
  cc_max_entries (dc_cfg c) = 2 /\ Z.of_nat (size (dc_inner c)) = len ["a"; "b"; "c"; "d"].
Proof.
  apply (dns_cache_negative_unbounded ["a"; "b"; "c"; "d"]).
  apply (bool_decide_eq_true_1 _). vm_compute. reflexivity.
Defined.
End DnsCacheWitness.
