(* ===== verification/TcpNat.v ===== *)
(** * The TCP NAT port table

    Models [src/crates/core-capture/src/tcp_nat.rs]: allocation of a NAT port per
    client flow and the way back from port to flow.  Each method is one step on the
    two maps and the port counter; [Instant::now] is an argument.  The port counter
    wraps at 2^16 like [AtomicU16::fetch_add]. *)

From stdpp Require Import base list gmap strings numbers option.
From S2P Require Import Prelude Net Instances.

Definition PORT_RANGE_START : Z := 30000.
Definition PORT_RANGE_END : Z := 65535.
Definition PORT_RANGE_SPAN : Z := PORT_RANGE_END - PORT_RANGE_START + 1.

Record NatSession : Type := mkNatSession {
  ns_source : SocketAddr;
  ns_destination : SocketAddr;
  ns_last_seen : Z
}.

Record NatKey : Type := mkNatKey { nk_source : SocketAddr; nk_destination : SocketAddr }.

#[global] Instance NatKey_eq_dec : EqDecision NatKey.
Proof. solve_decision. Defined.
#[global] Instance NatKey_countable : Countable NatKey.
Proof.
  refine (inj_countable' (fun k => (nk_source k, nk_destination k)) (fun p => mkNatKey p.1 p.2) _).
  by intros [].
Defined.

Record TcpNat : Type := mkTcpNat {
  tn_timeout : Z;
  tn_next_port : Z;
  tn_by_port : gmap Z NatSession;
  tn_by_5tuple : gmap NatKey Z
}.

Definition TcpNat_new (timeout : Z) : TcpNat := mkTcpNat timeout PORT_RANGE_START ∅ ∅.

Definition port_in_range (raw : Z) : Z :=
  PORT_RANGE_START + wrapping_sub 16 raw PORT_RANGE_START mod PORT_RANGE_SPAN.

Definition session_key (s : NatSession) : NatKey := mkNatKey (ns_source s) (ns_destination s).

Definition touch (s : NatSession) (now : Z) : NatSession :=
  mkNatSession (ns_source s) (ns_destination s) now.

(** [for _ in 0..PORT_RANGE_SPAN]: the first vacant port of the scan. *)
Fixpoint scan_ports (fuel : nat) (raw : Z) (by_port : gmap Z NatSession) : option Z * Z :=
  match fuel with
  | O => (None, raw)
  | S fuel' =>
    let port := port_in_range raw in
    let raw := wrapping_add 16 raw 1 in
    match by_port !! port with
    | Some _ => scan_ports fuel' raw by_port
    | None => (Some port, raw)
    end
  end.

Definition allocate (t : TcpNat) (key : NatKey) (now : Z) : TcpNat * option Z :=
  let '(r, raw) := scan_ports (Z.to_nat PORT_RANGE_SPAN) (tn_next_port t) (tn_by_port t) in
  match r with
  | None => (mkTcpNat (tn_timeout t) raw (tn_by_port t) (tn_by_5tuple t), None)
  | Some port =>
    (mkTcpNat (tn_timeout t) raw
       (<[port := mkNatSession (nk_source key) (nk_destination key) now]> (tn_by_port t))
       (<[key := port]> (tn_by_5tuple t)), Some port)
  end.

Definition lookup_port (t : TcpNat) (source destination : SocketAddr) (now : Z) : TcpNat * option Z :=
  let key := mkNatKey source destination in
  match tn_by_5tuple t !! key with
  | Some port =>
    match tn_by_port t !! port with
    | Some session =>
      (mkTcpNat (tn_timeout t) (tn_next_port t) (<[port := touch session now]> (tn_by_port t))
         (tn_by_5tuple t), Some port)
    | None =>
      allocate (mkTcpNat (tn_timeout t) (tn_next_port t) (tn_by_port t) (delete key (tn_by_5tuple t))) key now
    end
  | None => allocate t key now
  end.

Definition lookup_back (t : TcpNat) (port : Z) (now : Z) : TcpNat * option NatSession :=
  match tn_by_port t !! port with
  | None => (t, None)
  | Some session =>
    let session := touch session now in
    (mkTcpNat (tn_timeout t) (tn_next_port t) (<[port := session]> (tn_by_port t)) (tn_by_5tuple t),
     Some session)
  end.

Definition remove_port (t : TcpNat) (port : Z) (key : NatKey) : TcpNat :=
  mkTcpNat (tn_timeout t) (tn_next_port t) (delete port (tn_by_port t)) (delete key (tn_by_5tuple t)).

Definition remove_by_port (t : TcpNat) (port : Z) : TcpNat :=
  match tn_by_port t !! port with
  | Some session => remove_port t port (session_key session)
  | None => t
  end.

Definition tcp_purge_expired `{HashIter} (t : TcpNat) (now : Z) : TcpNat * Z :=
  let victims := filter (fun e => tn_timeout t < duration_since now (ns_last_seen e.2))
                   (hash_iter (tn_by_port t)) in
  (foldl (fun t e => remove_port t e.1 (session_key e.2)) t victims, len victims).

(** ** Invariant: the two maps are inverse to each other *)

Definition nat_ok (t : TcpNat) : Prop :=
  0 <= tn_next_port t < 65536
  /\ (forall port s, tn_by_port t !! port = Some s ->
        30000 <= port <= 65535 /\ tn_by_5tuple t !! session_key s = Some port)
  /\ (forall key port, tn_by_5tuple t !! key = Some port ->
        exists s, tn_by_port t !! port = Some s /\ session_key s = key).

Lemma port_in_range_bounds raw : 30000 <= port_in_range raw <= 65535.
Proof.
  unfold port_in_range. change PORT_RANGE_SPAN with 35536. change PORT_RANGE_START with 30000.
  pose proof (Z.mod_pos_bound (wrapping_sub 16 raw 30000) 35536). lia.
Qed.

Lemma port_in_range_high raw : 30000 <= raw < 65536 -> port_in_range raw = raw.
Proof.
  intros. unfold port_in_range, wrapping_sub. change PORT_RANGE_SPAN with 35536. change PORT_RANGE_START with 30000.
  change (2 ^ 16) with 65536. rewrite (Z.mod_small (raw - 30000)) by lia. rewrite Z.mod_small; lia.
Qed.

Lemma port_in_range_low raw : 0 <= raw < 30000 -> port_in_range raw = 30000 + raw.
Proof.
  intros. unfold port_in_range, wrapping_sub. change PORT_RANGE_SPAN with 35536. change PORT_RANGE_START with 30000.
  change (2 ^ 16) with 65536.
  replace (raw - 30000) with (raw + 35536 + (-1) * 65536) by lia. rewrite Z.mod_add by lia.
  rewrite (Z.mod_small (raw + 35536)) by lia.
  replace (raw + 35536) with (raw + 1 * 35536) by lia. rewrite Z.mod_add by lia. rewrite Z.mod_small; lia.
Qed.

Lemma scan_ports_spec fuel raw m r raw' :
  0 <= raw < 65536 -> scan_ports fuel raw m = (r, raw') ->
  0 <= raw' < 65536
  /\ match r with Some port => m !! port = None /\ 30000 <= port <= 65535 | None => True end.
Proof.
  revert raw. induction fuel as [|fuel IH]; intros raw Hr Hs; cbn [scan_ports] in Hs.
  - injection Hs as <- <-. done.
  - assert (Hw : 0 <= wrapping_add 16 raw 1 < 65536) by (apply Z.mod_pos_bound; lia).
    destruct (m !! port_in_range raw) eqn:E; [by apply (IH _ Hw)|].
    injection Hs as <- <-. split; [done|]. split; [done|]. apply port_in_range_bounds.
Qed.

Lemma nat_ok_remove t port s :
  nat_ok t -> tn_by_port t !! port = Some s -> nat_ok (remove_port t port (session_key s)).
Proof.
  intros (H1 & H2 & H3) Hs. destruct (H2 port s Hs) as [_ Hk]. split_and!; cbn; try lia.
  - intros p s' Hp. apply lookup_delete_Some in Hp as [Hne Hp]. destruct (H2 p s' Hp) as [Hr Hk'].
    split; [done|]. rewrite lookup_delete_ne; [done|]. intros E. rewrite <- E in Hk'. congruence.
  - intros k p Hk'. apply lookup_delete_Some in Hk' as [Hne Hk']. destruct (H3 k p Hk') as (s' & Hs' & Ek).
    exists s'. split; [|done]. rewrite lookup_delete_ne; [done|]. intros E. subst p. congruence.
Qed.

Lemma nat_ok_touch t port s now :
  nat_ok t -> tn_by_port t !! port = Some s ->
  nat_ok (mkTcpNat (tn_timeout t) (tn_next_port t) (<[port := touch s now]> (tn_by_port t)) (tn_by_5tuple t)).
Proof.
  intros (H1 & H2 & H3) Hs. split_and!; cbn; try lia.
  - intros p s' Hp. destruct (decide (p = port)) as [->|Hne].
    + rewrite lookup_insert_eq in Hp. injection Hp as <-. by apply (H2 port s).
    + rewrite lookup_insert_ne in Hp by done. by apply H2.
  - intros k p Hk. destruct (H3 k p Hk) as (s' & Hs' & Ek). destruct (decide (p = port)) as [->|Hne].
    + rewrite lookup_insert_eq. eexists. split; [done|]. replace s' with s in * by congruence. exact Ek.
    + rewrite lookup_insert_ne by done. by exists s'.
Qed.

Lemma allocate_spec t key now t' r :
  nat_ok t -> tn_by_5tuple t !! key = None -> allocate t key now = (t', r) ->
  nat_ok t'
  /\ match r with
     | None => tn_by_port t' = tn_by_port t /\ tn_by_5tuple t' = tn_by_5tuple t
     | Some port => tn_by_port t !! port = None /\ tn_by_5tuple t' = <[key := port]> (tn_by_5tuple t)
         /\ tn_by_port t' = <[port := mkNatSession (nk_source key) (nk_destination key) now]> (tn_by_port t)
     end.
Proof.
  intros (H1 & H2 & H3) Hnone Ha. unfold allocate in Ha.
  destruct (scan_ports _ _ _) as [r0 raw] eqn:E. apply scan_ports_spec in E as [Hraw Hp]; [|done].
  destruct r0 as [port|]; injection Ha as <- <-; [|split; [done|done]].
  destruct Hp as [Hfree Hrange]. split; [|done]. split_and!; cbn; try lia.
  - intros p s Hs. destruct (decide (p = port)) as [->|Hne].
    + rewrite lookup_insert_eq in Hs. injection Hs as <-. split; [done|].
      unfold session_key. cbn. destruct key. apply lookup_insert_eq.
    + rewrite lookup_insert_ne in Hs by done. destruct (H2 p s Hs) as [Hr Hk]. split; [done|].
      rewrite lookup_insert_ne; [done|]. intros E. rewrite <- E in Hk. congruence.
  - intros k p Hk. destruct (decide (k = key)) as [->|Hne].
    + rewrite lookup_insert_eq in Hk. injection Hk as <-. rewrite lookup_insert_eq. eexists. split; [done|].
      by destruct key.
    + rewrite lookup_insert_ne in Hk by done. destruct (H3 k p Hk) as (s & Hs & Ek). exists s. split; [|done].
      rewrite lookup_insert_ne; [done|]. intros ->. congruence.
Qed.

(** ** Traces *)

Inductive nat_op : Type :=
| TLookup (source destination : SocketAddr) (now : Z)
| TBack (port now : Z)
| TRemove (port : Z)
| TPurge (now : Z).

Section Trace.
Context `{HashIter}.

Definition nat_step (t : TcpNat) (op : nat_op) : TcpNat :=
  match op with
  | TLookup s d now => (lookup_port t s d now).1
  | TBack port now => (lookup_back t port now).1
  | TRemove port => remove_by_port t port
  | TPurge now => (tcp_purge_expired t now).1
  end.

Definition nat_run (t : TcpNat) (ops : list nat_op) : TcpNat := foldl nat_step t ops.

(** A flow holds its port, seen at [t0] or later. *)
Definition holds (t : TcpNat) (key : NatKey) (port t0 : Z) : Prop :=
  tn_by_5tuple t !! key = Some port
  /\ exists s, tn_by_port t !! port = Some s /\ session_key s = key /\ t0 <= ns_last_seen s.

Lemma nat_ok_new timeout : nat_ok (TcpNat_new timeout).
Proof.
  split_and!; cbn; try done.
  all: intros; by rewrite lookup_empty in *.
Qed.

Lemma purge_fold_ok t victims :
  nat_ok t -> NoDup (fst <$> victims) ->
  (forall e, e ∈ victims -> tn_by_port t !! e.1 = Some e.2) ->
  let t' := foldl (fun t e => remove_port t e.1 (session_key e.2)) t victims in
  nat_ok t'
  /\ (forall key port t0, holds t key port t0 -> port ∉ fst <$> victims -> holds t' key port t0).
Proof.
  revert t. induction victims as [|[p s] vs IH]; intros t Hok Hnd Hin; cbn [foldl]; [done|].
  cbn in Hnd. inversion_clear Hnd as [|? ? Hp Hnd']. pose proof (Hin (p, s) ltac:(left)) as Hs. cbn in Hs.
  destruct (IH (remove_port t p (session_key s))) as [I1 I2].
  - by apply nat_ok_remove.
  - exact Hnd'.
  - intros e He. cbn. rewrite lookup_delete_ne; [apply Hin; by right|].
    intros E. apply Hp. rewrite E. by apply list_elem_of_fmap_2.
  - split; [done|]. intros key port t0 [Hk (s' & Hs' & Ek & Hl)] Hni. apply I2; [|set_solver].
    assert (port <> p) by set_solver. split; cbn.
    + rewrite lookup_delete_ne; [done|]. intros E. destruct Hok as (_ & H2 & _).
      destruct (H2 p s Hs) as [_ Hk']. rewrite E in Hk'. congruence.
    + exists s'. rewrite lookup_delete_ne by congruence. done.
Qed.

Lemma purge_spec t now :
  nat_ok t ->
  nat_ok (tcp_purge_expired t now).1
  /\ (forall key port t0, holds t key port t0 -> now <= t0 + tn_timeout t -> 0 <= tn_timeout t ->
        holds (tcp_purge_expired t now).1 key port t0).
Proof.
  intros Hok. unfold tcp_purge_expired. set (vs := filter _ _). cbn [fst].
  assert (Hin : forall e, e ∈ vs -> tn_by_port t !! e.1 = Some e.2 /\ tn_timeout t < duration_since now (ns_last_seen e.2)).
  { intros [p s] He. unfold vs in He. apply list_elem_of_filter in He as [He1 He2]. split; [|done].
    by apply hash_iter_elem in He2. }
  assert (Hnd : NoDup (fst <$> vs)).
  { unfold vs. apply NoDup_fmap_filter. rewrite hash_iter_perm. apply NoDup_fst_map_to_list. }
  destruct (purge_fold_ok t vs Hok Hnd (fun e He => proj1 (Hin e He))) as [P1 P2]. split; [done|].
  intros key port t0 Hh Hnow Hto. apply P2; [done|]. intros Hv. apply list_elem_of_fmap in Hv as ([p s] & -> & Hv).
  destruct (Hin _ Hv) as [E1 E2]. cbn in *. destruct Hh as [_ (s' & Hs' & _ & Hl)].
  replace s' with s in * by congruence. unfold duration_since in E2. lia.
Qed.

Lemma lookup_port_spec t source destination now :
  nat_ok t ->
  let key := mkNatKey source destination in
  let '(t', r) := lookup_port t source destination now in
  nat_ok t' /\ tn_timeout t' = tn_timeout t
  /\ match r with Some port => holds t' key port now | None => tn_by_5tuple t !! key = None end
  /\ (forall k port t0, holds t k port t0 -> t0 <= now -> holds t' k port t0)
  /\ (forall port, tn_by_5tuple t !! key = Some port -> r = Some port).
Proof.
  intros Hok key. pose proof Hok as (H1 & H2 & H3). unfold lookup_port. fold key.
  destruct (tn_by_5tuple t !! key) as [port|] eqn:Ek.
  - destruct (H3 key port Ek) as (s & Hs & Esk). rewrite Hs.
    split; [by apply nat_ok_touch|]. split; [done|]. split; [|split].
    + split; [done|]. exists (touch s now). cbn. rewrite lookup_insert_eq. split_and!; try done; lia.
    + intros k p t0 [Hk (s' & Hs' & Ek' & Hl)] Ht. split; [done|]. cbn.
      destruct (decide (p = port)) as [->|Hne].
      * exists (touch s now). rewrite lookup_insert_eq. replace s' with s in * by congruence. by split_and!.
      * exists s'. by rewrite lookup_insert_ne.
    + by intros p [= ->].
  - destruct (allocate t key now) as [t' r] eqn:Ea.
    pose proof (allocate_spec t key now t' r Hok Ek Ea) as [Hok' Hr].
    assert (Hto : tn_timeout t' = tn_timeout t).
    { unfold allocate in Ea. destruct (scan_ports _ _ _) as [[p|] raw]; injection Ea as <- <-; done. }
    split; [done|]. split; [done|]. destruct r as [port|].
    + destruct Hr as (Hfree & E1 & E2). split; [|split; [|done]].
      * split; [by rewrite E1, lookup_insert_eq|]. rewrite E2, lookup_insert_eq. eexists. split; [done|].
        split; [by destruct key|cbn; lia].
      * intros k p t0 [Hk (s' & Hs' & Ek' & Hl)] Ht. split.
        -- rewrite E1, lookup_insert_ne; [done|]. intros E. subst k. congruence.
        -- exists s'. rewrite E2, lookup_insert_ne; [done|]. intros E. subst p. congruence.
    + destruct Hr as [E1 E2]. split; [done|]. split; [|done]. intros k p t0 [Hk Hs] Ht.
      split; [by rewrite E2|by rewrite E1].
Qed.

Lemma nat_step_ok t op : nat_ok t -> nat_ok (nat_step t op) /\ tn_timeout (nat_step t op) = tn_timeout t.
Proof.
  intros Hok. destruct op as [s d now|port now|port|now]; cbn [nat_step].
  - pose proof (lookup_port_spec t s d now Hok) as Hl. cbn zeta in Hl. destruct (lookup_port t s d now). naive_solver.
  - unfold lookup_back. destruct (tn_by_port t !! port) eqn:E; [|done]. cbn. split; [by apply nat_ok_touch|done].
  - unfold remove_by_port. destruct (tn_by_port t !! port) eqn:E; [|done]. split; [by apply nat_ok_remove|done].
  - split; [by apply purge_spec|]. unfold tcp_purge_expired. cbn.
    generalize (filter (fun e => tn_timeout t < duration_since now (ns_last_seen e.2)) (hash_iter (tn_by_port t))).
    intros vs. revert t Hok. induction vs as [|v vs IH]; intros t Hok; [done|]. cbn [foldl].
    assert (forall t1, tn_timeout (foldl (fun t e => remove_port t e.1 (session_key e.2)) t1 vs) = tn_timeout t1) as Hg.
    { clear. induction vs as [|v vs IH]; intros t1; [done|]. cbn. by rewrite IH. }
    by rewrite Hg.
Qed.

(** Operations within the session's lifetime that do not close it. *)
Definition nat_op_within (t0 t1 port : Z) (op : nat_op) : Prop :=
  match op with
  | TLookup _ _ now => t0 <= now
  | TBack _ now => t0 <= now
  | TRemove p => p <> port
  | TPurge now => now <= t1
  end.

Lemma nat_step_holds t op key port t0 :
  nat_ok t -> 0 <= tn_timeout t -> holds t key port t0 -> nat_op_within t0 (t0 + tn_timeout t) port op ->
  holds (nat_step t op) key port t0.
Proof.
  intros Hok Hto Hh Hop. destruct op as [s d now|p now|p|now]; cbn [nat_step nat_op_within] in *.
  - pose proof (lookup_port_spec t s d now Hok) as Hl. cbn zeta in Hl. destruct (lookup_port t s d now). naive_solver.
  - unfold lookup_back. destruct (tn_by_port t !! p) as [sp|] eqn:E; [|done]. cbn.
    destruct Hh as [Hk (s & Hs & Ek & Hl)]. split; [done|]. cbn. destruct (decide (p = port)) as [->|Hne].
    + exists (touch sp now). rewrite lookup_insert_eq. replace s with sp in * by congruence. by split_and!.
    + exists s. by rewrite lookup_insert_ne.
  - unfold remove_by_port. destruct (tn_by_port t !! p) as [sp|] eqn:E; [|done].
    destruct Hh as [Hk (s & Hs & Ek & Hl)]. split; cbn.
    + rewrite lookup_delete_ne; [done|]. intros E2. destruct Hok as (_ & H2 & _). destruct (H2 p sp E) as [_ Hk'].
      rewrite E2 in Hk'. congruence.
    + exists s. by rewrite lookup_delete_ne.
  - by apply purge_spec.
Qed.

Lemma nat_run_holds ops t key port t0 :
  nat_ok t -> 0 <= tn_timeout t -> holds t key port t0 ->
  Forall (nat_op_within t0 (t0 + tn_timeout t) port) ops ->
  nat_ok (nat_run t ops) /\ holds (nat_run t ops) key port t0.
Proof.
  revert t. induction ops as [|op ops IH]; intros t Hok Hto Hh Hops; [done|].
  apply Forall_cons_1 in Hops as [Hop Hops]. change (nat_run t (op :: ops)) with (nat_run (nat_step t op) ops).
  destruct (nat_step_ok t op Hok) as [Hok' Ht]. rewrite <- Ht in Hops.
  apply IH; [done|lia|by apply nat_step_holds|done].
Qed.

Lemma nat_run_ok ops t : nat_ok t -> nat_ok (nat_run t ops) /\ tn_timeout (nat_run t ops) = tn_timeout t.
Proof.
  revert t. induction ops as [|op ops IH]; intros t Hok; [done|].
  change (nat_run t (op :: ops)) with (nat_run (nat_step t op) ops).
  destruct (nat_step_ok t op Hok) as [Hok' Ht]. destruct (IH _ Hok'). split; [done|congruence].
Qed.

(** ** Claims *)

(** [C11] A flow keeps its port and the port leads back to the flow: in any reachable
    table, once [lookup] gave a flow a port (always within 30000..65535), then after
    any other lookups, reverse lookups, closes of other ports and purges within the
    idle timeout, [lookup] gives the same port, [lookup_back] returns exactly this
    flow's endpoints, and no other flow has that port. *)
Theorem tcp_nat_flow_roundtrip timeout ops0 source destination now t' port ops :
  0 <= timeout ->
  let t := nat_run (TcpNat_new timeout) ops0 in
  lookup_port t source destination now = (t', Some port) ->
  Forall (nat_op_within now (now + timeout) port) ops ->
  let u := nat_run t' ops in
  30000 <= port <= 65535
  /\ (forall now', (lookup_port u source destination now').2 = Some port
      /\ exists s, (lookup_back u port now').2 = Some s /\ ns_source s = source /\ ns_destination s = destination)
  /\ (forall s2 d2 now', (s2, d2) <> (source, destination) -> (lookup_port u s2 d2 now').2 <> Some port).
Proof.
  intros Hto t Hl Hops u. destruct (nat_run_ok ops0 _ (nat_ok_new timeout)) as [Hok Htm]. fold t in Hok, Htm.
  change (tn_timeout (TcpNat_new timeout)) with timeout in Htm.
  pose proof (lookup_port_spec t source destination now Hok) as Hs. cbn zeta in Hs. rewrite Hl in Hs.
  destruct Hs as (Hok' & Ht' & Hh & _ & _). rewrite <- Htm, <- Ht' in Hops.
  destruct (nat_run_holds ops t' _ port now Hok' ltac:(lia) Hh Hops) as [Hoku Hhu]. fold u in Hoku, Hhu.
  pose proof Hhu as [Hk (s & Hsp & Esk & _)]. pose proof Hoku as (_ & U2 & _).
  split; [by apply (U2 port s)|]. split.
  - intros now'. split.
    + pose proof (lookup_port_spec u source destination now' Hoku) as Hs. cbn zeta in Hs.
      destruct (lookup_port u source destination now') as [u' r]. cbn. naive_solver.
    + unfold lookup_back. rewrite Hsp. eexists. split; [done|]. cbn. unfold session_key in Esk. by simplify_eq.
  - intros s2 d2 now' Hne. pose proof (lookup_port_spec u s2 d2 now' Hoku) as Hs. cbn zeta in Hs.
    destruct (lookup_port u s2 d2 now') as [u' r]. cbn. destruct Hs as (Hoku' & _ & Hr & Hkeep & _).
    intros ->. destruct Hr as [_ (s' & Hs' & Es' & _)].
    pose proof Hoku as (_ & _ & U3).
    assert (Hnow : exists s'', tn_by_port u' !! port = Some s'' /\ session_key s'' = mkNatKey source destination).
    { destruct Hhu as [Hk2 (s3 & Hs3 & Es3 & Hl3)].
      destruct (Hkeep (mkNatKey source destination) port (Z.min now' (ns_last_seen s3))) as [_ (s4 & ? & ? & _)].
      - split; [done|]. exists s3. split_and!; try done. lia.
      - lia.
      - by exists s4. }
    destruct Hnow as (s'' & Hs'' & Es''). apply Hne. congruence.
Qed.
End Trace.

(** ** A full scan that misses free ports

    The raw counter wraps at 65536 but the range has 35536 ports, so a scan that
    starts just after the wrap maps raws 0..29999 to ports 30000..59999 and
    30000..35535 to themselves: ports 60000..65535 are not tried. *)

Lemma scan_occupied fuel raw m :
  0 <= raw -> raw + Z.of_nat fuel < 65536 ->
  (forall r, raw <= r < raw + Z.of_nat fuel -> is_Some (m !! port_in_range r)) ->
  (scan_ports fuel raw m).1 = None.
Proof.
  revert raw. induction fuel as [|fuel IH]; intros raw H0 H1 Hocc; [done|]. cbn [scan_ports].
  destruct (Hocc raw) as [s ->]; [lia|]. unfold wrapping_add. change (2 ^ 16) with 65536.
  rewrite Z.mod_small by lia. apply IH; [lia|lia|]. intros r Hr. apply Hocc. lia.
Qed.

(** Opening connections one after the other. *)
Definition open_flows (t : TcpNat) (flows : list NatKey) : TcpNat :=
  foldl (fun t k => (lookup_port t (nk_source k) (nk_destination k) 0).1) t flows.

Lemma open_flow_step t k n :
  nat_ok t -> 0 <= n < 35536 -> tn_next_port t = 30000 + n -> tn_by_5tuple t !! k = None ->
  (forall p, is_Some (tn_by_port t !! p) <-> 30000 <= p < 30000 + n) ->
  let t' := (lookup_port t (nk_source k) (nk_destination k) 0).1 in
  nat_ok t' /\ tn_next_port t' = (30000 + n + 1) mod 65536
  /\ (forall k', tn_by_5tuple t' !! k' = if decide (k' = k) then Some (30000 + n) else tn_by_5tuple t !! k')
  /\ (forall p, is_Some (tn_by_port t' !! p) <-> 30000 <= p < 30000 + (n + 1)).
Proof.
  intros Hok Hn Hnext Hk Hdom t'.
  pose proof (lookup_port_spec t (nk_source k) (nk_destination k) 0 Hok) as Hs. cbn zeta in Hs.
  assert (Hvac : tn_by_port t !! (30000 + n) = None).
  { destruct (tn_by_port t !! (30000 + n)) eqn:E; [|done].
    destruct (proj1 (Hdom (30000 + n)) ltac:(by rewrite E)). lia. }
  assert (Hl : lookup_port t (nk_source k) (nk_destination k) 0
    = (mkTcpNat (tn_timeout t) ((30000 + n + 1) mod 65536)
         (<[30000 + n := mkNatSession (nk_source k) (nk_destination k) 0]> (tn_by_port t))
         (<[k := 30000 + n]> (tn_by_5tuple t)), Some (30000 + n))).
  { unfold lookup_port. replace (mkNatKey (nk_source k) (nk_destination k)) with k by (by destruct k).
    rewrite Hk. unfold allocate. rewrite Hnext.
    replace (Z.to_nat PORT_RANGE_SPAN) with (S (Z.to_nat (PORT_RANGE_SPAN - 1))) by reflexivity.
    cbn [scan_ports]. rewrite port_in_range_high, Hvac by lia. reflexivity. }
  unfold t'. rewrite Hl in *. cbn [fst] in *. split; [apply Hs|]. split; [done|]. split.
  - intros k'. cbn. destruct (decide (k' = k)) as [->|Hne]; [apply lookup_insert_eq|by apply lookup_insert_ne].
  - intros p. cbn. rewrite lookup_insert_is_Some', Hdom. lia.
Qed.

Lemma open_flows_spec flows t n :
  nat_ok t -> 0 <= n -> n + len flows <= 35536 -> NoDup flows ->
  tn_next_port t = (30000 + n) mod 65536 -> (forall k, k ∈ flows -> tn_by_5tuple t !! k = None) ->
  (forall p, is_Some (tn_by_port t !! p) <-> 30000 <= p < 30000 + n) ->
  let t' := open_flows t flows in
  nat_ok t' /\ tn_next_port t' = (30000 + n + len flows) mod 65536
  /\ (forall p, is_Some (tn_by_port t' !! p) <-> 30000 <= p < 30000 + n + len flows)
  /\ (forall k, k ∉ flows -> tn_by_5tuple t' !! k = tn_by_5tuple t !! k).
Proof.
  revert t n. induction flows as [|k flows IH]; intros t n Hok Hn Hlen Hnd Hnext Hnew Hdom t'.
  - subst t'. cbn. rewrite len_nil, !Z.add_0_r. done.
  - rewrite len_cons in Hlen. pose proof (len_nonneg flows). inversion_clear Hnd as [|? ? Hk Hnd'].
    rewrite Z.mod_small in Hnext by lia.
    destruct (open_flow_step t k n Hok ltac:(lia) Hnext (Hnew k ltac:(left)) Hdom) as (S1 & S2 & S3 & S4).
    set (t1 := (lookup_port t (nk_source k) (nk_destination k) 0).1) in *.
    change t' with (open_flows t1 flows).
    destruct (IH t1 (n + 1)) as (I1 & I2 & I3 & I4); try done; try lia.
    + rewrite S2. f_equal. lia.
    + intros k' Hk'. rewrite S3, decide_False by congruence. apply Hnew. by right.
    + rewrite len_cons. split; [done|]. split; [rewrite I2; f_equal; lia|]. split.
      * intros p. rewrite I3. lia.
      * intros k' Hk'. rewrite I4 by set_solver. rewrite S3, decide_False by set_solver. done.
Qed.

(** False exhaustion: fill the port range once, close one connection whose port
    is in the top 5536, and the next new connection is refused although its port is
    free, because the scan of "the whole range" never tries it. *)
Theorem tcp_nat_false_exhaustion timeout flows k port :
  NoDup flows -> len flows = 35536 -> k ∉ flows -> 60000 <= port <= 65535 ->
  let t := remove_by_port (open_flows (TcpNat_new timeout) flows) port in
  tn_by_port t !! port = None /\ (lookup_port t (nk_source k) (nk_destination k) 0).2 = None.
Proof.
  intros Hnd Hlen Hk Hp t.
  destruct (open_flows_spec flows (TcpNat_new timeout) 0 (nat_ok_new timeout)) as (S1 & S2 & S3 & S4); try done; try lia.
  { intros p. cbn. rewrite lookup_empty. split; [intros []; done|lia]. }
  rewrite Hlen in *. change ((30000 + 0 + 35536) mod 65536) with 0 in S2.
  set (full := open_flows (TcpNat_new timeout) flows) in *. specialize (S4 k Hk).
  destruct (proj2 (S3 port) ltac:(lia)) as [s Hs].
  assert (Et : t = remove_port full port (session_key s)) by (unfold t, remove_by_port; by rewrite Hs).
  rewrite Et. split; [apply lookup_delete_eq|]. unfold lookup_port.
  replace (mkNatKey (nk_source k) (nk_destination k)) with k by (by destruct k).
  cbn [remove_port tn_by_5tuple].
  assert (Hkn : delete (session_key s) (tn_by_5tuple full) !! k = None)
    by (apply lookup_delete_None; right; by rewrite S4).
  rewrite Hkn. unfold allocate. cbn [tn_next_port remove_port tn_by_port]. rewrite S2.
  pose proof (scan_occupied (Z.to_nat PORT_RANGE_SPAN) 0 (delete port (tn_by_port full))) as Hscan.
  destruct (scan_ports _ 0 _) as [r raw]. cbn in Hscan. rewrite Hscan; [done|lia| |].
  - change PORT_RANGE_SPAN with 35536. lia.
  - change PORT_RANGE_SPAN with 35536. intros r0 Hr. rewrite Z2Nat.id in Hr by lia.
    destruct (decide (r0 < 30000)).
    + rewrite port_in_range_low by lia. rewrite lookup_delete_ne by lia. apply S3. lia.
    + rewrite port_in_range_high by lia. rewrite lookup_delete_ne by lia. apply S3. lia.
Qed.

(** ** Witnesses *)

Module TcpNatWitness.
Import Concrete.

Definition addr (n p : Z) : SocketAddr := mkSocketAddr (V4 n) p.

Lemma tcp_nat_flow_roundtrip_witness :
  let t := nat_run (TcpNat_new 300) [TLookup (addr 1 1) (addr 2 2) 0] in
  let t' := (lookup_port t (addr 1 5) (addr 9 443) 10).1 in
  (lookup_port (nat_run t' [TRemove 30000; TPurge 200]) (addr 1 5) (addr 9 443) 250).2 = Some 30001.
Proof.
  refine (proj1 (proj1 (proj2 (tcp_nat_flow_roundtrip 300 [TLookup (addr 1 1) (addr 2 2) 0]
    (addr 1 5) (addr 9 443) 10 (lookup_port (nat_run (TcpNat_new 300) [TLookup (addr 1 1) (addr 2 2) 0])
       (addr 1 5) (addr 9 443) 10).1 30001 [TRemove 30000; TPurge 200] _ _ _)) 250)).
  - lia.
  - vm_compute. reflexivity.
  - repeat constructor; cbn; lia.
Defined.

Definition many_flows : list NatKey :=
  (fun i => mkNatKey (addr 167772161 (Z.of_nat i)) (addr 16843009 443)) <$> seq 0 (Z.to_nat 35536).

Lemma tcp_nat_false_exhaustion_witness :
  let t := remove_by_port (open_flows (TcpNat_new 300) many_flows) 65535 in
  tn_by_port t !! 65535 = None /\ (lookup_port t (addr 1 1) (addr 2 2) 0).2 = None.
Proof.
  apply (tcp_nat_false_exhaustion 300 many_flows (mkNatKey (addr 1 1) (addr 2 2)) 65535).
  - apply NoDup_fmap_2; [|apply NoDup_seq]. intros i j E. injection E as E. lia.
  - unfold len, many_flows. rewrite length_fmap, length_seq. lia.
  - intros Hin. apply list_elem_of_fmap in Hin as (i & E & _). injection E as E. discriminate E.
  - lia.
Defined.
End TcpNatWitness.
