(* ===== verification/RouteModel.v ===== *)
(** * The routing engine: data model

    The compiled plan of [core-config] ([RouteMatcher], [RouteAction], [RouteStep],
    [RoutePlan] of runtime_plan.rs), the flow metadata and the decisions of
    [core-route/src/engine.rs], the text descriptions of rules, and the classes that
    stand for what the engine calls: the pattern libraries ([idna], [regex],
    [fancy_regex], [globset], [aho_corasick], the text form of [ipnet]) and the interface
    of the rule-set index of [core-ruleset]. *)

From stdpp Require Import base list gmap strings numbers option pretty.
From S2P Require Import Prelude Text Net.

(** ** Third-party pattern libraries *)

Class RouteLib `{IpNetLib} := {
  (** [idna::domain_to_ascii] *)
  domain_to_ascii : string -> option string;
  (** [regex]: case-insensitive builder, plain [Regex::new], [is_match] *)
  Regex : Type;
  regex_build_ci : string -> option Regex;
  regex_new : string -> option Regex;
  regex_is_match : Regex -> string -> bool;
  (** [fancy_regex] as configured by [compile_mihomo_domain_regex]; [is_match] may fail *)
  FancyRegex : Type;
  compile_mihomo_domain_regex : string -> option FancyRegex;
  fancy_is_match : FancyRegex -> string -> option bool;
  (** [globset], case-insensitive *)
  GlobMatcher : Type;
  glob_build : string -> option GlobMatcher;
  glob_is_match : GlobMatcher -> string -> bool;
  (** [str::parse::<IpNet>] *)
  parse_ipnet : string -> option IpNet;
  (** [aho_corasick] with [ascii_case_insensitive]: the pattern ids of all overlapping matches *)
  AhoCorasick : Type;
  ac_build : list string -> option AhoCorasick;
  find_overlapping : AhoCorasick -> string -> list nat;
  find_overlapping_spec : forall patterns ac text id,
    ac_build patterns = Some ac ->
    id ∈ find_overlapping ac text <->
    exists p, patterns !! id = Some p /\ str_contains (to_ascii_lowercase text) (to_ascii_lowercase p) = true
}.

(** ** The plan *)

Inductive RouteMatcher : Type :=
| MAny | MHome | MCn | MAds
| MService (name : string)
| MDomain (d : string) | MSuffix (s : string) | MKeyword (k : string)
| MDomainRegex (p : string) | MDomainWildcard (p : string)
| MGeoSite (code : string)
| MCidr (c : string) | MSrcCidr (c : string)
| MIpSuffix (s : string) | MSrcIpSuffix (s : string)
| MGeoIp (code : string) | MSrcGeoIp (code : string)
| MIpAsn (asn : Z) | MSrcIpAsn (asn : Z)
| MPort (p : Z) | MPortRange (lo hi : Z)
| MSrcPort (p : Z) | MSrcPortRange (lo hi : Z)
| MInPort (p : Z) | MInPortRange (lo hi : Z)
| MNetwork (n : string) | MDscp (d : Z)
| MInUser (u : string) | MInName (n : string) | MInType (t : string)
| MUid (u : Z) | MRematchName (n : string)
| MProcess (p : string) | MProcessPath (p : string)
| MProcessRegex (p : string) | MProcessPathRegex (p : string)
| MProcessWildcard (p : string) | MProcessPathWildcard (p : string)
| MSet (name : string) | MSrcSet (name : string)
| MProto (name : string)
| MAnd (parts : list RouteMatcher) | MOr (parts : list RouteMatcher)
| MNot (part : RouteMatcher) | MNoResolve (part : RouteMatcher).

Inductive RouteAction : Type :=
| ADirect | ABlock | AGroup (g : string) | APass | APassRule | ASubRule (name : string).

Record RouteRuleOptions : Type := mkOptions { no_resolve : bool; no_log : bool; no_track : bool }.

Record RouteStep : Type := mkStep {
  rs_matcher : RouteMatcher; rs_action : RouteAction; rs_source : string; rs_options : RouteRuleOptions
}.

(** [sub_rules] is a [BTreeMap]: the list of its entries in key order.  The fields
    [preset], [final] and [sets] are not read by the engine. *)
Record RoutePlan : Type := mkPlan {
  rp_steps : list RouteStep; rp_sub_rules : list (string * list RouteStep)
}.

(** [sub_rules.get(name)] *)
Fixpoint sub_rule (rules : list (string * list RouteStep)) (name : string) : option (list RouteStep) :=
  match rules with
  | [] => None
  | (k, steps) :: rules' => if String.eqb k name then Some steps else sub_rule rules' name
  end.

(** ** Flows and decisions *)

Inductive NetworkKind : Type := NkTcp | NkUdp.
Definition network_str (n : NetworkKind) : string := match n with NkTcp => "tcp" | NkUdp => "udp" end.

(** [sniff::L7Proto] *)
Inductive L7Proto : Type := Stun | Dtls | Quic | Tls | Sni (host : string) | Http | OtherProto.
Definition is_webrtc (p : L7Proto) : bool := match p with Stun | Dtls | Quic => true | _ => false end.

Definition proto_name_matches (name : string) (p : L7Proto) : bool :=
  let n := to_ascii_lowercase name in
  if String.eqb n "stun" then match p with Stun => true | _ => false end
  else if String.eqb n "dtls" then match p with Dtls => true | _ => false end
  else if String.eqb n "quic" then match p with Quic => true | _ => false end
  else if String.eqb n "tls" || String.eqb n "ssl" then match p with Tls | Sni _ => true | _ => false end
  else if String.eqb n "http" then match p with Http => true | _ => false end
  else if String.eqb n "sni" then match p with Sni _ => true | _ => false end
  else if String.eqb n "webrtc" || String.eqb n "rtc" then is_webrtc p
  else if String.eqb n "any" then match p with OtherProto => false | _ => true end
  else false.

Record RulesetInterfaceAddress `{IpNetLib} : Type := mkIfaceAddr {
  ia_interface_type : Z; ia_address : IpNet; ia_is_own : bool
}.
Arguments mkIfaceAddr {_}.

Record FlowRulesetMetadata `{IpNetLib} : Type := mkFlowMeta {
  source_ip : option IpAddr; source_port : option Z; inbound_port : option Z;
  inbound_type : option string; inbound_user : option string; inbound_name : option string;
  uid : option Z; dscp : option Z;
  source_geoip : list string; destination_geoip : list string; destination_geosite : list string;
  source_asn : option Z; destination_asn : option Z; rematch_names : list string;
  query_type : option Z; process_path : option string; package_names : list string;
  wifi_ssid : option string; wifi_bssid : option string; network_type : option Z;
  network_is_expensive : option bool; network_is_constrained : option bool;
  network_interface_addresses : list RulesetInterfaceAddress; default_interface_addresses : list IpNet
}.
Arguments mkFlowMeta {_}.

Definition FlowMeta_default `{IpNetLib} : FlowRulesetMetadata :=
  mkFlowMeta None None None None None None None None [] [] [] None None [] None None [] None None
             None None None [] [].

Record FlowContext `{IpNetLib} : Type := mkFlow {
  fc_host : string; fc_ip : option IpAddr; fc_port : Z; fc_network : NetworkKind;
  fc_process : option string; fc_ruleset : FlowRulesetMetadata; fc_protocol : option L7Proto
}.
Arguments mkFlow {_}.

Definition for_domain `{IpNetLib} (host : string) (port : Z) (network : NetworkKind) : FlowContext :=
  mkFlow host None port network None FlowMeta_default None.
Definition for_ip `{IpNetLib, NetText} (ip : IpAddr) (port : Z) (network : NetworkKind) : FlowContext :=
  mkFlow (show_ip ip) (Some ip) port network None FlowMeta_default None.

(** [with_protocol]: a sniffed SNI replaces a host that is an IP literal. *)
Definition with_protocol `{IpNetLib, NetText} (c : FlowContext) (p : L7Proto) : FlowContext :=
  let host :=
    match p with
    | Sni sni => if negb (String.eqb sni "") && bool_decide (is_Some (parse_ip (fc_host c))) then sni else fc_host c
    | _ => fc_host c
    end in
  mkFlow host (fc_ip c) (fc_port c) (fc_network c) (fc_process c) (fc_ruleset c) (Some p).

(** ** The interface of the rule-set index ([core-ruleset]) *)

Record RulesetMatchContext `{IpNetLib} : Type := mkRulesetCtx {
  rc_dst_host : string; rc_dst_ip : option IpAddr; rc_dst_port : option Z;
  rc_src_ip : option IpAddr; rc_src_port : option Z; rc_network : option string;
  rc_process_name : option string; rc_query_type : option Z; rc_process_path : option string;
  rc_inbound_port : option Z; rc_inbound_type : option string; rc_inbound_user : option string;
  rc_inbound_name : option string; rc_uid : option Z; rc_dscp : option Z;
  rc_destination_geoip : list string; rc_source_geoip : list string; rc_destination_geosite : list string;
  rc_destination_asn : option Z; rc_source_asn : option Z; rc_rematch_names : list string;
  rc_package_names : list string; rc_wifi_ssid : option string; rc_wifi_bssid : option string;
  rc_network_type : option Z; rc_network_is_expensive : option bool; rc_network_is_constrained : option bool;
  rc_network_interface_addresses : list RulesetInterfaceAddress; rc_default_interface_addresses : list IpNet
}.
Arguments mkRulesetCtx {_}.

Inductive RulesetMatchOutcome : Type :=
| RsMatched | RsNotMatched | RsNeedsProcess | RsNeedsDestinationIp | RsNeedsProcessAndDestinationIp.

(** [RulesetIndex::get(..).is_some()] and [RulesetIndex::matches_context_deferred] of one
    generation of the index. *)
Class RulesetIndexApi `{IpNetLib} := {
  RulesetIndex : Type;
  index_has : RulesetIndex -> string -> bool;
  matches_context_deferred : RulesetIndex -> string -> RulesetMatchContext -> bool -> bool -> RulesetMatchOutcome
}.

Definition ruleset_match_context `{IpNetLib} (c : FlowContext) : RulesetMatchContext :=
  let r := fc_ruleset c in
  mkRulesetCtx (fc_host c) (fc_ip c) (Some (fc_port c)) (source_ip r) (source_port r)
    (Some (network_str (fc_network c))) (fc_process c) (query_type r) (process_path r)
    (inbound_port r) (inbound_type r) (inbound_user r) (inbound_name r) (uid r) (dscp r)
    (destination_geoip r) (source_geoip r) (destination_geosite r) (destination_asn r) (source_asn r)
    (rematch_names r) (package_names r) (wifi_ssid r) (wifi_bssid r) (network_type r)
    (network_is_expensive r) (network_is_constrained r) (network_interface_addresses r)
    (default_interface_addresses r).

(** The source-side context: the source address takes the place of the destination. *)
Definition source_ruleset_context `{IpNetLib} (c : FlowContext) : RulesetMatchContext :=
  let b := ruleset_match_context c in
  mkRulesetCtx "" (rc_src_ip b) (rc_src_port b) (rc_src_ip b) (rc_src_port b)
    (rc_network b) (rc_process_name b) (rc_query_type b) (rc_process_path b)
    (rc_inbound_port b) (rc_inbound_type b) (rc_inbound_user b) (rc_inbound_name b) (rc_uid b) (rc_dscp b)
    (rc_destination_geoip b) (rc_source_geoip b) (rc_destination_geosite b) (rc_destination_asn b) (rc_source_asn b)
    (rc_rematch_names b) (rc_package_names b) (rc_wifi_ssid b) (rc_wifi_bssid b) (rc_network_type b)
    (rc_network_is_expensive b) (rc_network_is_constrained b) (rc_network_interface_addresses b)
    (rc_default_interface_addresses b).

(** ** Decisions and their descriptions *)

Inductive RouteDecision : Type := DDirect | DBlock | DGroup (g : string).

(** [from_action]: control-flow actions only reach it in a release build, as [Direct]. *)
Definition from_action (a : RouteAction) : RouteDecision :=
  match a with
  | ADirect => DDirect
  | ABlock => DBlock
  | AGroup g => DGroup g
  | APass | APassRule | ASubRule _ => DDirect
  end.

Record RouteRuleHit : Type := mkHit {
  rh_index : option nat; rh_rule : string; rh_payload : string; rh_source : string; rh_action : string;
  rh_no_resolve : bool; rh_no_log : bool; rh_no_track : bool
}.

Definition RouteRuleHit_fallback : RouteRuleHit :=
  mkHit None "MATCH" "" "implicit-direct" "DIRECT" false false false.

Record DetailedRouteDecision : Type := mkDetailed {
  dd_decision : RouteDecision; dd_matcher : string; dd_hit : RouteRuleHit
}.

Definition describe_action (a : RouteAction) : string :=
  match a with
  | ADirect => "DIRECT" | ABlock => "REJECT" | AGroup g => g
  | APass => "PASS" | APassRule => "PASS-RULE" | ASubRule name => name
  end.

Definition describe_matcher_with (rec : RouteMatcher -> string * string) (part : RouteMatcher) : string :=
  let '(rule, payload) := rec part in
  if String.eqb payload "" then "(" +:+ rule +:+ ")" else "(" +:+ rule +:+ "," +:+ payload +:+ ")".

Definition range_text (lo hi : Z) : string := pretty lo +:+ "-" +:+ pretty hi.

Fixpoint describe_matcher (m : RouteMatcher) : string * string :=
  match m with
  | MAny => ("MATCH", "")
  | MHome => ("HOME", "")
  | MCn => ("GEOIP", "CN")
  | MAds => ("ADS", "")
  | MService s => ("SERVICE", s)
  | MDomain d => ("DOMAIN", d)
  | MSuffix s => ("DOMAIN-SUFFIX", s)
  | MKeyword k => ("DOMAIN-KEYWORD", k)
  | MDomainRegex p => ("DOMAIN-REGEX", p)
  | MDomainWildcard p => ("DOMAIN-WILDCARD", p)
  | MGeoSite c => ("GEOSITE", c)
  | MCidr c => ("IP-CIDR", c)
  | MSrcCidr c => ("SRC-IP-CIDR", c)
  | MIpSuffix s => ("IP-SUFFIX", s)
  | MSrcIpSuffix s => ("SRC-IP-SUFFIX", s)
  | MGeoIp c => ("GEOIP", c)
  | MSrcGeoIp c => ("SRC-GEOIP", c)
  | MIpAsn a => ("IP-ASN", pretty a)
  | MSrcIpAsn a => ("SRC-IP-ASN", pretty a)
  | MPort p => ("DST-PORT", pretty p)
  | MPortRange lo hi => ("DST-PORT", range_text lo hi)
  | MSrcPort p => ("SRC-PORT", pretty p)
  | MSrcPortRange lo hi => ("SRC-PORT", range_text lo hi)
  | MInPort p => ("IN-PORT", pretty p)
  | MInPortRange lo hi => ("IN-PORT", range_text lo hi)
  | MNetwork n => ("NETWORK", n)
  | MDscp d => ("DSCP", pretty d)
  | MInUser u => ("IN-USER", u)
  | MInName n => ("IN-NAME", n)
  | MInType k => ("IN-TYPE", k)
  | MUid u => ("UID", pretty u)
  | MRematchName n => ("REMATCH-NAME", n)
  | MProcess p => ("PROCESS-NAME", p)
  | MProcessPath p => ("PROCESS-PATH", p)
  | MProcessRegex p => ("PROCESS-NAME-REGEX", p)
  | MProcessPathRegex p => ("PROCESS-PATH-REGEX", p)
  | MProcessWildcard p => ("PROCESS-NAME-WILDCARD", p)
  | MProcessPathWildcard p => ("PROCESS-PATH-WILDCARD", p)
  | MSet n => ("RULE-SET", n)
  | MSrcSet n => ("RULE-SET", n +:+ ",src")
  | MProto p => ("PROTOCOL", p)
  | MAnd parts => ("AND", join "," (map (describe_matcher_with describe_matcher) parts))
  | MOr parts => ("OR", join "," (map (describe_matcher_with describe_matcher) parts))
  | MNot part => ("NOT", describe_matcher_with describe_matcher part)
  | MNoResolve part =>
    let '(rule, payload) := describe_matcher part in
    (rule, (if String.eqb payload "" then "" else payload +:+ ",") +:+ "no-resolve")
  end.

Definition describe_compound (parts : list RouteMatcher) : string :=
  join "," (map (describe_matcher_with describe_matcher) parts).

Definition matcher_expression (m : RouteMatcher) : string :=
  let '(rule, payload) := describe_matcher m in
  if String.eqb payload "" then rule else rule +:+ "," +:+ payload.

Definition describe_route_step (index : option nat) (step : RouteStep) : RouteRuleHit :=
  let '(rule, payload) :=
    match rs_action step with
    | ASubRule _ => ("SUB-RULE", "(" +:+ matcher_expression (rs_matcher step) +:+ ")")
    | _ => describe_matcher (rs_matcher step)
    end in
  mkHit index rule payload (rs_source step) (describe_action (rs_action step))
        (no_resolve (rs_options step)) (no_log (rs_options step)) (no_track (rs_options step)).

Fixpoint matcher_kind (m : RouteMatcher) : string :=
  match m with
  | MAny => "any" | MHome => "home" | MCn => "cn" | MAds => "ads" | MService _ => "service"
  | MDomain _ => "domain" | MSuffix _ => "suffix" | MKeyword _ => "keyword"
  | MDomainRegex _ => "domain_regex" | MDomainWildcard _ => "domain_wildcard" | MGeoSite _ => "geosite"
  | MCidr _ => "ip" | MSrcCidr _ => "src_ip" | MIpSuffix _ => "ip_suffix" | MSrcIpSuffix _ => "src_ip_suffix"
  | MGeoIp _ => "geoip" | MSrcGeoIp _ => "src_geoip" | MIpAsn _ => "ip_asn" | MSrcIpAsn _ => "src_ip_asn"
  | MPort _ => "port" | MPortRange _ _ => "port_range" | MSrcPort _ => "src_port"
  | MSrcPortRange _ _ => "src_port_range" | MInPort _ => "in_port" | MInPortRange _ _ => "in_port_range"
  | MAnd _ => "and" | MOr _ => "or" | MNot _ => "not" | MNoResolve part => matcher_kind part
  | MNetwork _ => "network" | MDscp _ => "dscp" | MInUser _ => "in_user" | MInName _ => "in_name"
  | MInType _ => "in_type" | MUid _ => "uid" | MRematchName _ => "rematch_name"
  | MProcess _ => "process" | MProcessPath _ => "process_path" | MProcessRegex _ => "process_regex"
  | MProcessPathRegex _ => "process_path_regex" | MProcessWildcard _ => "process_wildcard"
  | MProcessPathWildcard _ => "process_path_wildcard" | MSet _ => "set" | MSrcSet _ => "src_set"
  | MProto _ => "proto"
  end.

(** A matcher without parts *)
Definition is_leaf (m : RouteMatcher) : bool :=
  match m with MAnd _ | MOr _ | MNot _ | MNoResolve _ => false | _ => true end.

(** ** Induction over matchers, through the lists of [MAnd] and [MOr] *)

Section matcher_induction.
  Variable P : RouteMatcher -> Prop.
  Hypothesis P_and : forall parts, Forall P parts -> P (MAnd parts).
  Hypothesis P_or : forall parts, Forall P parts -> P (MOr parts).
  Hypothesis P_not : forall part, P part -> P (MNot part).
  Hypothesis P_no_resolve : forall part, P part -> P (MNoResolve part).
  Hypothesis P_leaf : forall m, is_leaf m = true -> P m.

Lemma matcher_ind : forall m, P m.
Proof using All.
  fix IH 1. intros m. destruct m as [ | | | | | | | | | | | | | | | | | | | | | | | | | | | | | | | | | | | | | | | | |
    parts|parts|part|part]; try (apply P_leaf; reflexivity).
  - apply P_and. induction parts as [|x l IHl]; constructor; [apply IH|exact IHl].
  - apply P_or. induction parts as [|x l IHl]; constructor; [apply IH|exact IHl].
  - apply P_not, IH.
  - apply P_no_resolve, IH.
Qed.
End matcher_induction.

(** ** Text lemmas *)

Lemma string_eqb_spec a b : String.eqb a b = true <-> a = b.
Proof. apply String.eqb_eq. Qed.

Lemma sub_rule_elem rules name steps : sub_rule rules name = Some steps -> (name, steps) ∈ rules.
Proof.
  induction rules as [|[k s] rules IH]; cbn; [done|].
  destruct (String.eqb k name) eqn:E; [|intros; right; by apply IH].
  apply String.eqb_eq in E as ->. intros [= ->]. left.
Qed.
