(* ===== verification/RouteMatch.v ===== *)
(** * The routing engine: matching one rule

    [core-route/src/builtin.rs] and the matching half of [core-route/src/engine.rs]: the
    tables [PreparedMatchers::compile] builds from a plan, the lazily computed keyword
    hits of a [MatchInput], and the three-valued [step_match_state].

    [step_match_state] threads the [MatchInput] because a keyword rule fills its cache.
    [pure_state] is the same evaluation without the cache; [direct_state] of
    [RouteSpec.v] evaluates each pattern from its text, without any table. *)

From stdpp Require Import base list gmap strings numbers option.
From S2P Require Import Prelude Text Net RouteModel.

(** ** builtin.rs *)

Definition HOME_CIDR_TEXTS : list string :=
  ["127.0.0.0/8"; "10.0.0.0/8"; "172.16.0.0/12"; "192.168.0.0/16"; "169.254.0.0/16"; "100.64.0.0/10";
   "::1/128"; "fc00::/7"; "fe80::/10"; "fd7a:115c:a1e0::/48"].

Definition HOME_SUFFIXES : list string := ["local"; "lan"; "home"; "internal"].

Definition CN_SUFFIXES : list string :=
  ["cn"; "com.cn"; "org.cn"; "net.cn"; "edu.cn"; "gov.cn"; "qq.com"; "baidu.com"; "alipay.com"; "taobao.com";
   "tmall.com"; "jd.com"; "weibo.com"; "bilibili.com"; "163.com"; "126.com"; "iqiyi.com"; "youku.com";
   "douyin.com"; "tencent.com"; "aliyun.com"; "alicdn.com"; "tencentcs.com"; "wechat.com"].

Definition CN_CIDR_TEXTS : list string :=
  ["1.0.1.0/24"; "1.0.32.0/19"; "1.1.0.0/24"; "14.16.0.0/12"; "27.0.128.0/18"; "36.0.0.0/14"; "39.64.0.0/11";
   "42.48.0.0/12"; "58.16.0.0/13"; "60.0.0.0/13"; "61.128.0.0/10"; "101.0.0.0/12"; "106.0.0.0/13";
   "110.16.0.0/12"; "112.0.0.0/9"; "115.24.0.0/13"; "116.0.0.0/8"; "119.176.0.0/12"; "120.192.0.0/10";
   "121.16.0.0/12"; "180.96.0.0/11"; "203.79.0.0/16"; "210.16.0.0/13"; "218.0.0.0/10"; "219.128.0.0/11";
   "220.96.0.0/11"; "221.128.0.0/9"; "222.0.0.0/8"; "223.0.0.0/12"].

Definition ADS_SUFFIXES : list string :=
  ["doubleclick.net"; "googlesyndication.com"; "googletagservices.com"; "googletagmanager.com";
   "google-analytics.com"; "adservice.google.com"; "scorecardresearch.com"; "adsrvr.org"; "adnxs.com";
   "adsymptotic.com"; "adcolony.com"].

Definition service_suffixes (name : string) : list string :=
  if String.eqb name "telegram" then ["telegram.org"; "t.me"; "tdesktop.com"; "telegra.ph"]
  else if String.eqb name "youtube" then ["youtube.com"; "youtu.be"; "ytimg.com"; "googlevideo.com"]
  else if String.eqb name "netflix"
    then ["netflix.com"; "nflxvideo.net"; "nflxext.com"; "nflximg.net"; "nflxso.net"]
  else if String.eqb name "github" then ["github.com"; "githubusercontent.com"; "githubassets.com"; "ghcr.io"]
  else if String.eqb name "apple" then ["apple.com"; "icloud.com"; "mzstatic.com"; "cdn-apple.com"]
  else if String.eqb name "google"
    then ["google.com"; "gstatic.com"; "googleapis.com"; "googleusercontent.com"; "withgoogle.com"]
  else [].

(** ** Three-valued match states *)

Inductive MatchState : Type := Matched | NotMatched | Deferred (process destination_ip : bool).

#[global] Instance MatchState_eq_dec : EqDecision MatchState.
Proof. solve_decision. Defined.

(** [MatchState::deferred] *)
Definition deferred (process destination_ip : bool) : MatchState :=
  if process || destination_ip then Deferred process destination_ip else NotMatched.

Definition requirements (s : MatchState) : bool * bool :=
  match s with Deferred p d => (p, d) | _ => (false, false) end.

Definition bool_state (b : bool) : MatchState := if b then Matched else NotMatched.

Definition ruleset_outcome_to_state (o : RulesetMatchOutcome) : MatchState :=
  match o with
  | RsMatched => Matched
  | RsNotMatched => NotMatched
  | RsNeedsProcess => deferred true false
  | RsNeedsDestinationIp => deferred false true
  | RsNeedsProcessAndDestinationIp => deferred true true
  end.

(** ** IP suffixes *)

Record PreparedIpSuffix : Type := mkIpSuffix { is_address : IpAddr; is_bits : Z }.

Definition parse_ip_suffix `{NetText} (value : string) : option PreparedIpSuffix :=
  '(a, b) ← str_split_once 47 value;
  address ← parse_ip a;
  bits ← parse_u8 b;
  let maximum := if is_ipv4 address then 32 else 128 in
  if bits <=? maximum then Some (mkIpSuffix address bits) else None.

Definition suffix_bits_match (candidate expected : list Z) (bits : Z) : outcome bool :=
  if negb (len candidate =? len expected) then Ok false else
  let full_bytes := bits / 8 in
  let remaining_bits := bits mod 8 in
  x ← get_slice candidate (len candidate - full_bytes) (len candidate);
  y ← get_slice expected (len expected - full_bytes) (len expected);
  if (0 <? full_bytes) && negb (bool_decide (x = y)) then Ok false else
  if remaining_bits =? 0 then Ok true else
  let i := len candidate - full_bytes - 1 in
  let mask := Z.shiftl 1 remaining_bits - 1 in
  a ← index candidate i;
  b ← index expected i;
  Ok (Z.land a mask =? Z.land b mask).

Definition ip_suffix_matches (candidate : IpAddr) (suffix : PreparedIpSuffix) : outcome bool :=
  match candidate, is_address suffix with
  | V4 c, V4 e => suffix_bits_match (octets (V4 c)) (octets (V4 e)) (is_bits suffix)
  | V6 c, V6 e => suffix_bits_match (octets (V6 c)) (octets (V6 e)) (is_bits suffix)
  | _, _ => Ok false
  end.

(** ** Text rules *)

Definition metadata_code_matches (values : list string) (expected : string) : bool :=
  existsb (fun v => eq_ignore_ascii_case v expected) values.

Definition value_matches_list `{StrCase} (actual expected : string) : bool :=
  existsb (fun candidate => eq_ignore_ascii_case actual (str_trim candidate)) (str_split 47 expected).

Definition option_matches_list `{StrCase} (actual : option string) (expected : string) : bool :=
  match actual with Some a => value_matches_list a expected | None => false end.

Definition text_eq_ignore_case `{StrCase} (a b : string) : bool :=
  eq_ignore_ascii_case a b || String.eqb (to_lowercase a) (to_lowercase b).

(** [host.strip_suffix(suffix)] *)
Definition strip_suffix (l suffix : list Z) : option (list Z) :=
  if ends_with l suffix then Some (take (length l - length suffix) l) else None.

Definition host_suffix_normalized (host suffix : string) : bool :=
  let s := trim_start_matches [46] (str_bytes suffix) in
  bool_decide (str_bytes host = s)
  || match strip_suffix (str_bytes host) s with Some prefix => ends_with prefix [46] | None => false end.

Definition match_suffix_list (host : string) (l : list string) : bool :=
  existsb (host_suffix_normalized host) l.

(** The candidates are pushed when they are not empty and not yet present. *)
Definition push_candidate (l : list string) (c : string) : list string :=
  if negb (String.eqb c "") && negb (existsb (String.eqb c) l) then l ++ [c] else l.

Definition ruleset_name_candidates `{StrCase} (kind name : string) : list string :=
  let raw := to_ascii_lowercase (trim_start_char 58 (str_trim name)) in
  let l := push_candidate (push_candidate [] raw) (kind +:+ "-" +:+ raw) in
  if String.eqb kind "geosite" && String.eqb raw "cn" then push_candidate l "cn-domain"
  else if String.eqb kind "geoip" && String.eqb raw "cn" then push_candidate l "geoip-cn"
  else if String.eqb kind "geoip" && String.eqb raw "private" then push_candidate l "geoip-private"
  else l.

Section matching.
Context `{IpNetLib, !RouteLib, !RulesetIndexApi, NetText, StrCase}.

Definition HOME_CIDRS : list IpNet := omap parse_ipnet HOME_CIDR_TEXTS.
Definition CN_CIDRS : list IpNet := omap parse_ipnet CN_CIDR_TEXTS.

Definition normalize_route_domain (value : string) : string :=
  let trimmed := trim_end_char 46 (str_trim value) in
  to_ascii_lowercase (default (to_ascii_lowercase trimmed) (domain_to_ascii trimmed)).

Definition normalize_label (label : string) : string :=
  if str_contains label "*" || str_contains label "?" then to_lowercase label
  else to_lowercase (default (to_lowercase label) (domain_to_ascii label)).

Definition normalize_route_domain_pattern (pattern : string) : string :=
  join "." (normalize_label <$> str_split 46 (trim_end_char 46 (str_trim pattern))).

Definition compile_glob (pattern : string) : outcome GlobMatcher := expect (glob_build pattern).

(** ** [PreparedMatchers] *)

Inductive PreparedDomainRegex : Type := Fast (r : Regex) | Fancy (r : FancyRegex).

Record PreparedMatchers : Type := mkPrepared {
  normalized_values : gmap string string;
  destination_cidrs : gmap string IpNet;
  source_cidrs : gmap string IpNet;
  domain_regexes : gmap string PreparedDomainRegex;
  domain_wildcards : gmap string GlobMatcher;
  process_regexes : gmap string Regex;
  process_wildcards : gmap string GlobMatcher;
  destination_ip_suffixes : gmap string PreparedIpSuffix;
  source_ip_suffixes : gmap string PreparedIpSuffix;
  geosite_aliases : gmap string (list string);
  geoip_aliases : gmap string (list string);
  asn_aliases : gmap Z (list string);
  keyword_ids : gmap string nat;
  keyword_unique_ids : gmap string nat;
  keyword_patterns : list string;
  keyword_automaton : option AhoCorasick
}.

Definition PreparedMatchers_default : PreparedMatchers :=
  mkPrepared ∅ ∅ ∅ ∅ ∅ ∅ ∅ ∅ ∅ ∅ ∅ ∅ ∅ ∅ [] None.

(** [map.entry(k).or_insert_with(f)] *)
Definition or_insert {A} (m : gmap string A) (k : string) (v : A) : gmap string A :=
  match m !! k with Some _ => m | None => <[k := v]> m end.

(** [or_insert_with] whose closure may panic. *)
Definition or_insert_with {A} (m : gmap string A) (k : string) (f : outcome A) : outcome (gmap string A) :=
  match m !! k with Some _ => Ok m | None => v ← f; Ok (<[k := v]> m) end.

Definition compile_domain_regex (pattern : string) : outcome PreparedDomainRegex :=
  match regex_build_ci pattern with
  | Some r => Ok (Fast r)
  | None => r ← expect (compile_mihomo_domain_regex pattern); Ok (Fancy r)
  end.

(** Assignments to one field *)
Definition set_normalized (p : PreparedMatchers) t :=
  let '(mkPrepared _ b c d e f g h i j k l m n o q) := p in mkPrepared t b c d e f g h i j k l m n o q.
Definition set_destination_cidrs (p : PreparedMatchers) t :=
  let '(mkPrepared a _ c d e f g h i j k l m n o q) := p in mkPrepared a t c d e f g h i j k l m n o q.
Definition set_source_cidrs (p : PreparedMatchers) t :=
  let '(mkPrepared a b _ d e f g h i j k l m n o q) := p in mkPrepared a b t d e f g h i j k l m n o q.
Definition set_domain_regexes (p : PreparedMatchers) t :=
  let '(mkPrepared a b c _ e f g h i j k l m n o q) := p in mkPrepared a b c t e f g h i j k l m n o q.
Definition set_domain_wildcards (p : PreparedMatchers) t :=
  let '(mkPrepared a b c d _ f g h i j k l m n o q) := p in mkPrepared a b c d t f g h i j k l m n o q.
Definition set_process_regexes (p : PreparedMatchers) t :=
  let '(mkPrepared a b c d e _ g h i j k l m n o q) := p in mkPrepared a b c d e t g h i j k l m n o q.
Definition set_process_wildcards (p : PreparedMatchers) t :=
  let '(mkPrepared a b c d e f _ h i j k l m n o q) := p in mkPrepared a b c d e f t h i j k l m n o q.
Definition set_destination_ip_suffixes (p : PreparedMatchers) t :=
  let '(mkPrepared a b c d e f g _ i j k l m n o q) := p in mkPrepared a b c d e f g t i j k l m n o q.
Definition set_source_ip_suffixes (p : PreparedMatchers) t :=
  let '(mkPrepared a b c d e f g h _ j k l m n o q) := p in mkPrepared a b c d e f g h t j k l m n o q.
Definition set_geosite (p : PreparedMatchers) t :=
  let '(mkPrepared a b c d e f g h i _ k l m n o q) := p in mkPrepared a b c d e f g h i t k l m n o q.
Definition set_geoip (p : PreparedMatchers) t :=
  let '(mkPrepared a b c d e f g h i j _ l m n o q) := p in mkPrepared a b c d e f g h i j t l m n o q.
Definition set_asn (p : PreparedMatchers) t :=
  let '(mkPrepared a b c d e f g h i j k _ m n o q) := p in mkPrepared a b c d e f g h i j k t m n o q.
Definition set_keywords (p : PreparedMatchers) ids unique patterns :=
  let '(mkPrepared a b c d e f g h i j k l _ _ _ q) := p in mkPrepared a b c d e f g h i j k l ids unique patterns q.
Definition set_automaton (p : PreparedMatchers) ac :=
  let '(mkPrepared a b c d e f g h i j k l m n o _) := p in mkPrepared a b c d e f g h i j k l m n o ac.

(** The keyword arm of [collect]: equal keywords up to ASCII case share an id. *)
Definition collect_keyword (p : PreparedMatchers) (value : string) : PreparedMatchers :=
  let normalized := to_ascii_lowercase value in
  match keyword_unique_ids p !! normalized with
  | Some id => set_keywords p (<[value := id]> (keyword_ids p)) (keyword_unique_ids p) (keyword_patterns p)
  | None =>
    let id := length (keyword_patterns p) in
    set_keywords p (<[value := id]> (keyword_ids p)) (<[normalized := id]> (keyword_unique_ids p))
                 (keyword_patterns p ++ [normalized])
  end.

Definition insert_parsed {A} (m : gmap string A) (k : string) (o : option A) : gmap string A :=
  match o with Some v => <[k := v]> m | None => m end.

(** [collect] on a matcher without parts *)
Definition collect_leaf (m : RouteMatcher) (p : PreparedMatchers) : outcome PreparedMatchers :=
  match m with
  | MDomain v | MSuffix v => Ok (set_normalized p (or_insert (normalized_values p) v (normalize_route_domain v)))
  | MProcess v | MProcessPath v | MInUser v | MInName v | MInType v | MRematchName v =>
    Ok (set_normalized p (or_insert (normalized_values p) v (to_lowercase v)))
  | MKeyword v => Ok (collect_keyword p v)
  | MDomainRegex v => t ← or_insert_with (domain_regexes p) v (compile_domain_regex v); Ok (set_domain_regexes p t)
  | MDomainWildcard v =>
    t ← or_insert_with (domain_wildcards p) v (compile_glob (normalize_route_domain_pattern v));
    Ok (set_domain_wildcards p t)
  | MProcessRegex v | MProcessPathRegex v =>
    t ← or_insert_with (process_regexes p) v (expect (regex_new v)); Ok (set_process_regexes p t)
  | MProcessWildcard v | MProcessPathWildcard v =>
    t ← or_insert_with (process_wildcards p) v (compile_glob v); Ok (set_process_wildcards p t)
  | MCidr v => Ok (set_destination_cidrs p (insert_parsed (destination_cidrs p) v (parse_ipnet v)))
  | MSrcCidr v => Ok (set_source_cidrs p (insert_parsed (source_cidrs p) v (parse_ipnet v)))
  | MIpSuffix v => Ok (set_destination_ip_suffixes p (insert_parsed (destination_ip_suffixes p) v (parse_ip_suffix v)))
  | MSrcIpSuffix v => Ok (set_source_ip_suffixes p (insert_parsed (source_ip_suffixes p) v (parse_ip_suffix v)))
  | MGeoSite v => Ok (set_geosite p (<[v := ruleset_name_candidates "geosite" v]> (geosite_aliases p)))
  | MGeoIp v | MSrcGeoIp v => Ok (set_geoip p (<[v := ruleset_name_candidates "geoip" v]> (geoip_aliases p)))
  | MIpAsn a | MSrcIpAsn a => Ok (set_asn p (<[a := ruleset_name_candidates "asn" (pretty.pretty a)]> (asn_aliases p)))
  | _ => Ok p
  end.

(** [for x in l { p = f(x, p)?; }] *)
Fixpoint fold_outcome {A S} (f : A -> S -> outcome S) (l : list A) (s : S) : outcome S :=
  match l with
  | [] => Ok s
  | x :: l' => s' ← f x s; fold_outcome f l' s'
  end.

Fixpoint collect_matcher (m : RouteMatcher) (p : PreparedMatchers) {struct m} : outcome PreparedMatchers :=
  match m with
  | MAnd parts | MOr parts => fold_outcome collect_matcher parts p
  | MNot part | MNoResolve part => collect_matcher part p
  | _ => collect_leaf m p
  end.

(** [PreparedMatchers::compile] *)
Definition compile (plan : RoutePlan) : outcome PreparedMatchers :=
  p ← fold_outcome (fun step => collect_matcher (rs_matcher step)) (rp_steps plan) PreparedMatchers_default;
  p ← fold_outcome (fun e => fold_outcome (fun step => collect_matcher (rs_matcher step)) e.2) (rp_sub_rules plan) p;
  Ok (if bool_decide (keyword_patterns p = []) then p
      else set_automaton p (ac_build (keyword_patterns p))).

(** ** [MatchInput] *)

Record MatchInput : Type := mkInput {
  mi_context : FlowContext; mi_normalized_host : string; mi_unicode_host : string;
  mi_resolved_ip : option IpAddr; mi_keyword_hits : option (list bool)
}.

Definition MatchInput_new (c : FlowContext) : MatchInput :=
  let unicode_host := to_lowercase (trim_end_char 46 (str_trim (fc_host c))) in
  mkInput c (normalize_route_domain unicode_host) unicode_host
    (match fc_ip c with Some ip => Some ip | None => parse_ip (fc_host c) end) None.

Definition set_hits (i : MatchInput) (hits : list bool) : MatchInput :=
  mkInput (mi_context i) (mi_normalized_host i) (mi_unicode_host i) (mi_resolved_ip i) (Some hits).

(** [hits[id] = true] for every reported pattern *)
Definition mark_hits (ids : list nat) (hits : list bool) : list bool :=
  foldl (fun hits id => <[id := true]> hits) hits ids.

Definition compute_hits (p : PreparedMatchers) (i : MatchInput) : list bool :=
  let hits := replicate (length (keyword_patterns p)) false in
  match keyword_automaton p with
  | Some ac =>
    let hits := mark_hits (find_overlapping ac (mi_normalized_host i)) hits in
    if String.eqb (mi_unicode_host i) (mi_normalized_host i) then hits
    else mark_hits (find_overlapping ac (mi_unicode_host i)) hits
  | None => hits
  end.

Definition keyword_matches (p : PreparedMatchers) (i : MatchInput) (id : nat) : bool * MatchInput :=
  let i := match mi_keyword_hits i with None => set_hits i (compute_hits p i) | Some _ => i end in
  (default false (hits ← mi_keyword_hits i; hits !! id), i).

(** ** Matching one rule *)

(** The arguments [extra_cidrs], [rulesets] and [prepared] that every call passes on *)
Record MatchEnv : Type := mkEnv {
  me_extra_cidrs : list IpNet; me_rulesets : option RulesetIndex; me_prepared : PreparedMatchers
}.

Definition match_home_domain (i : MatchInput) : bool := match_suffix_list (mi_normalized_host i) HOME_SUFFIXES.

Definition in_nets (l : list IpNet) (ip : IpAddr) : bool := existsb (fun n => net_contains n ip) l.

Definition match_home (i : MatchInput) : bool :=
  if match_home_domain i then true
  else match mi_resolved_ip i with Some ip => in_nets HOME_CIDRS ip | None => false end.

Definition match_cn_domain (i : MatchInput) : bool := match_suffix_list (mi_normalized_host i) CN_SUFFIXES.

Definition match_cn (i : MatchInput) : bool :=
  if match_cn_domain i then true
  else match mi_resolved_ip i with Some ip => in_nets CN_CIDRS ip | None => false end.

Definition match_cidr (i : MatchInput) (network : option IpNet) (extra : list IpNet) : bool :=
  match network with
  | None => false
  | Some n => match mi_resolved_ip i with Some ip => net_contains n ip || in_nets extra ip | None => false end
  end.

Definition match_source_cidr (c : FlowContext) (network : option IpNet) : bool :=
  match network, source_ip (fc_ruleset c) with Some n, Some ip => net_contains n ip | _, _ => false end.

(** A suffix check: [ip_suffix_matches] does not panic on a parsed suffix. *)
Definition suffix_holds (ip : option IpAddr) (suffix : option PreparedIpSuffix) : bool :=
  match suffix, ip with
  | Some s, Some ip => bool_decide (ip_suffix_matches ip s = Ok true)
  | _, _ => false
  end.

(** The loop over the candidate names of a GEOSITE/GEOIP/ASN rule *)
Fixpoint alias_loop (ix : RulesetIndex) (ctx : RulesetMatchContext) (pr dr : bool) (l : list string)
    (np nd : bool) : MatchState :=
  match l with
  | [] => deferred np nd
  | c :: l' =>
    if negb (index_has ix c) then alias_loop ix ctx pr dr l' np nd
    else match ruleset_outcome_to_state (matches_context_deferred ix c ctx pr dr) with
         | Matched => Matched
         | NotMatched => alias_loop ix ctx pr dr l' np nd
         | Deferred p d => alias_loop ix ctx pr dr l' (np || p) (nd || d)
         end
  end.

Definition match_ruleset_alias (candidates : option (list string)) (i : MatchInput) (rulesets : option RulesetIndex)
    (pr dr source : bool) : MatchState :=
  match rulesets, candidates with
  | Some ix, Some l =>
    alias_loop ix (if source then source_ruleset_context (mi_context i) else ruleset_match_context (mi_context i))
      pr (dr || source) l false false
  | _, _ => NotMatched
  end.

Definition port_in (lo hi : Z) (port : option Z) : bool :=
  match port with Some p => (lo <=? p) && (p <=? hi) | None => false end.

Definition opt_is (o : option Z) (v : Z) : bool := match o with Some x => x =? v | None => false end.

(** A pattern tried on the normalized and, when different, on the Unicode form of the host *)
Definition either_host (i : MatchInput) (f : string -> bool) : bool :=
  f (mi_normalized_host i)
  || (negb (String.eqb (mi_unicode_host i) (mi_normalized_host i)) && f (mi_unicode_host i)).

Definition domain_regex_matches (r : PreparedDomainRegex) (s : string) : bool :=
  match r with
  | Fast r => regex_is_match r s
  | Fancy r => default false (fancy_is_match r s)
  end.

(** The process name or one of the package names *)
Definition process_or_package (c : FlowContext) (f : string -> bool) : bool :=
  match fc_process c with Some p => f p | None => false end || existsb f (package_names (fc_ruleset c)).

Definition on_process_path (c : FlowContext) (f : string -> bool) : bool :=
  match process_path (fc_ruleset c) with Some p => f p | None => false end.

Definition is_process_matcher (m : RouteMatcher) : bool :=
  match m with
  | MProcess _ | MProcessPath _ | MProcessRegex _ | MProcessPathRegex _ | MProcessWildcard _
  | MProcessPathWildcard _ => true
  | _ => false
  end.

(** [step_match_state] on the matchers without parts other than [Keyword] *)
Definition leaf_state (env : MatchEnv) (pr dr : bool) (i : MatchInput) (m : RouteMatcher) : MatchState :=
  let c := mi_context i in
  let r := fc_ruleset c in
  let p := me_prepared env in
  if is_process_matcher m && negb pr then deferred true false else
  match m with
  | MAny => Matched
  | MHome => if negb dr && negb (match_home_domain i) then deferred false true else bool_state (match_home i)
  | MCn => if negb dr && negb (match_cn_domain i) then deferred false true else bool_state (match_cn i)
  | MAds => bool_state (match_suffix_list (mi_normalized_host i) ADS_SUFFIXES)
  | MService name => bool_state (match_suffix_list (mi_normalized_host i) (service_suffixes name))
  | MDomain d => bool_state (String.eqb (mi_normalized_host i) (default d (normalized_values p !! d)))
  | MSuffix s => bool_state (host_suffix_normalized (mi_normalized_host i) (default s (normalized_values p !! s)))
  | MDomainRegex v =>
    bool_state (match domain_regexes p !! v with Some r => either_host i (domain_regex_matches r) | None => false end)
  | MDomainWildcard v =>
    bool_state (match domain_wildcards p !! v with Some g => either_host i (glob_is_match g) | None => false end)
  | MGeoSite code => match_ruleset_alias (geosite_aliases p !! code) i (me_rulesets env) pr dr false
  | MCidr v =>
    if negb dr then deferred false true
    else bool_state (match_cidr i (destination_cidrs p !! v) (me_extra_cidrs env))
  | MSrcCidr v => bool_state (match_source_cidr c (source_cidrs p !! v))
  | MIpSuffix v =>
    if negb dr then deferred false true
    else bool_state (suffix_holds (mi_resolved_ip i) (destination_ip_suffixes p !! v))
  | MSrcIpSuffix v => bool_state (suffix_holds (source_ip r) (source_ip_suffixes p !! v))
  | MGeoIp code =>
    if negb dr && negb (metadata_code_matches (destination_geoip r) code) then deferred false true
    else if metadata_code_matches (destination_geoip r) code then Matched
    else match_ruleset_alias (geoip_aliases p !! code) i (me_rulesets env) pr dr false
  | MSrcGeoIp code =>
    if metadata_code_matches (source_geoip r) code then Matched
    else match_ruleset_alias (geoip_aliases p !! code) i (me_rulesets env) pr true true
  | MIpAsn asn =>
    if negb dr && negb (opt_is (destination_asn r) asn) then deferred false true
    else if opt_is (destination_asn r) asn then Matched
    else match_ruleset_alias (asn_aliases p !! asn) i (me_rulesets env) pr dr false
  | MSrcIpAsn asn =>
    if opt_is (source_asn r) asn then Matched
    else match_ruleset_alias (asn_aliases p !! asn) i (me_rulesets env) pr true true
  | MPort v => bool_state (fc_port c =? v)
  | MPortRange lo hi => bool_state ((lo <=? fc_port c) && (fc_port c <=? hi))
  | MSrcPort v => bool_state (opt_is (source_port r) v)
  | MSrcPortRange lo hi => bool_state (port_in lo hi (source_port r))
  | MInPort v => bool_state (opt_is (inbound_port r) v)
  | MInPortRange lo hi => bool_state (port_in lo hi (inbound_port r))
  | MNetwork n => bool_state (eq_ignore_ascii_case n (network_str (fc_network c)))
  | MDscp v => bool_state (opt_is (dscp r) v)
  | MInUser users => bool_state (option_matches_list (inbound_user r) users)
  | MInName names => bool_state (option_matches_list (inbound_name r) names)
  | MInType types => bool_state (option_matches_list (inbound_type r) types)
  | MUid v => bool_state (opt_is (uid r) v)
  | MRematchName names => bool_state (existsb (fun a => value_matches_list a names) (rematch_names r))
  | MProcess name => bool_state (process_or_package c (fun p => text_eq_ignore_case p name))
  | MProcessPath path => bool_state (on_process_path c (fun p => text_eq_ignore_case p path))
  | MProcessRegex v =>
    bool_state (match process_regexes p !! v with
                | Some r => process_or_package c (regex_is_match r) | None => false end)
  | MProcessPathRegex v =>
    bool_state (match process_regexes p !! v with
                | Some r => on_process_path c (regex_is_match r) | None => false end)
  | MProcessWildcard v =>
    bool_state (match process_wildcards p !! v with
                | Some g => process_or_package c (glob_is_match g) | None => false end)
  | MProcessPathWildcard v =>
    bool_state (match process_wildcards p !! v with
                | Some g => on_process_path c (glob_is_match g) | None => false end)
  | MSet name =>
    match me_rulesets env with
    | Some ix => ruleset_outcome_to_state (matches_context_deferred ix name (ruleset_match_context c) pr dr)
    | None => NotMatched
    end
  | MSrcSet name =>
    match me_rulesets env with
    | Some ix => ruleset_outcome_to_state (matches_context_deferred ix name (source_ruleset_context c) pr true)
    | None => NotMatched
    end
  | MProto name => bool_state (match fc_protocol c with Some x => proto_name_matches name x | None => false end)
  | MKeyword _ | MAnd _ | MOr _ | MNot _ | MNoResolve _ => NotMatched
  end.

(** The keyword arm: through the automaton and its cached hits *)
Definition keyword_state (env : MatchEnv) (i : MatchInput) (k : string) : MatchState * MatchInput :=
  match keyword_ids (me_prepared env) !! k with
  | Some id => let '(b, i') := keyword_matches (me_prepared env) i id in (bool_state b, i')
  | None => (bool_state (str_contains (mi_normalized_host i) (to_ascii_lowercase k)), i)
  end.

(** The loops of the AND and OR arms, with the early returns of the code *)
Fixpoint and_loop {S} (f : RouteMatcher -> S -> MatchState * S) (l : list RouteMatcher) (np nd : bool) (i : S)
    : MatchState * S :=
  match l with
  | [] => (if np || nd then deferred np nd else Matched, i)
  | part :: l' =>
    match f part i with
    | (NotMatched, i') => (NotMatched, i')
    | (Matched, i') => and_loop f l' np nd i'
    | (Deferred p d, i') => and_loop f l' (np || p) (nd || d) i'
    end
  end.

Fixpoint or_loop {S} (f : RouteMatcher -> S -> MatchState * S) (l : list RouteMatcher) (np nd : bool) (i : S)
    : MatchState * S :=
  match l with
  | [] => (deferred np nd, i)
  | part :: l' =>
    match f part i with
    | (Matched, i') => (Matched, i')
    | (NotMatched, i') => or_loop f l' np nd i'
    | (Deferred p d, i') => or_loop f l' (np || p) (nd || d) i'
    end
  end.

Definition not_state (s : MatchState) : MatchState :=
  match s with Matched => NotMatched | NotMatched => Matched | Deferred p d => Deferred p d end.

Fixpoint step_match_state (env : MatchEnv) (pr dr : bool) (m : RouteMatcher) (i : MatchInput) {struct m}
    : MatchState * MatchInput :=
  match m with
  | MKeyword k => keyword_state env i k
  | MAnd parts => and_loop (step_match_state env pr dr) parts false false i
  | MOr parts => or_loop (step_match_state env pr dr) parts false false i
  | MNot part => let '(s, i') := step_match_state env pr dr part i in (not_state s, i')
  | MNoResolve part => step_match_state env pr true part i
  | _ => (leaf_state env pr dr i m, i)
  end.

Definition step_matches (env : MatchEnv) (pr dr : bool) (m : RouteMatcher) (i : MatchInput) : bool * MatchInput :=
  let '(s, i') := step_match_state env pr dr m i in (bool_decide (s = Matched), i').

(** ** The same evaluation without the keyword cache *)

Definition pure_keyword (env : MatchEnv) (i : MatchInput) (k : string) : MatchState :=
  bool_state (match keyword_ids (me_prepared env) !! k with
              | Some id => default false (compute_hits (me_prepared env) i !! id)
              | None => str_contains (mi_normalized_host i) (to_ascii_lowercase k)
              end).

Fixpoint and_states (l : list MatchState) (np nd : bool) : MatchState :=
  match l with
  | [] => if np || nd then deferred np nd else Matched
  | NotMatched :: _ => NotMatched
  | Matched :: l' => and_states l' np nd
  | Deferred p d :: l' => and_states l' (np || p) (nd || d)
  end.

Fixpoint or_states (l : list MatchState) (np nd : bool) : MatchState :=
  match l with
  | [] => deferred np nd
  | Matched :: _ => Matched
  | NotMatched :: l' => or_states l' np nd
  | Deferred p d :: l' => or_states l' (np || p) (nd || d)
  end.

Fixpoint tree_state (leaf : bool -> RouteMatcher -> MatchState) (dr : bool) (m : RouteMatcher) : MatchState :=
  match m with
  | MAnd parts => and_states (map (tree_state leaf dr) parts) false false
  | MOr parts => or_states (map (tree_state leaf dr) parts) false false
  | MNot part => not_state (tree_state leaf dr part)
  | MNoResolve part => tree_state leaf true part
  | _ => leaf dr m
  end.

Definition pure_leaf (env : MatchEnv) (pr : bool) (i : MatchInput) (dr : bool) (m : RouteMatcher) : MatchState :=
  match m with MKeyword k => pure_keyword env i k | _ => leaf_state env pr dr i m end.

Definition pure_state (env : MatchEnv) (pr dr : bool) (m : RouteMatcher) (i : MatchInput) : MatchState :=
  tree_state (pure_leaf env pr i) dr m.

(** What the cache of an input may hold for [pure_state] to be the meaning of the code. *)
Definition cache_ok (p : PreparedMatchers) (i : MatchInput) : Prop :=
  match mi_keyword_hits i with None => True | Some hits => hits = compute_hits p i end.

(** The input with its cache emptied *)
Definition uncached (i : MatchInput) : MatchInput :=
  mkInput (mi_context i) (mi_normalized_host i) (mi_unicode_host i) (mi_resolved_ip i) None.
End matching.
