(* ===== verification/RouteInstances.v ===== *)
(** * Concrete instances of the pattern libraries and of the rule-set interface

    Stand-ins with which the witnesses of the routing files evaluate: literal regular
    expressions, globs with [*] and [?], IPv4 CIDR texts, a naive multi-pattern search
    and an index of plain domain lists.  They satisfy the laws of [RouteLib]. *)

From stdpp Require Import base list gmap strings numbers option.
From S2P Require Import Prelude Text Net Instances RouteModel.
Import Concrete.

Fixpoint glob_bytes (fuel : nat) (p l : list Z) : bool :=
  match fuel with
  | O => false
  | S fuel' =>
    match p, l with
    | [], [] => true
    | [], _ :: _ => false
    | c :: p', [] => (c =? 42) && glob_bytes fuel' p' []
    | c :: p', x :: l' =>
      if c =? 42 then glob_bytes fuel' p' l || glob_bytes fuel' p l'
      else ((c =? 63) || (c =? x)) && glob_bytes fuel' p' l'
    end
  end.

Definition glob_text (p s : string) : bool :=
  let p := str_bytes (to_ascii_lowercase p) in
  let l := str_bytes (to_ascii_lowercase s) in
  glob_bytes (S (length p + length l)) p l.

(** A host label with non-ASCII bytes is replaced by a marked ASCII form. *)
Definition puny (s : string) : option string :=
  let l := str_bytes s in
  if forallb (fun c => c <? 128) l then Some (to_ascii_lowercase s)
  else Some (str_of_bytes (str_bytes "xn--" ++ flat_map (fun c => if c <? 128 then [ascii_lower_byte c] else hex_group c) l)).

Definition parse_cidr4 (s : string) : option IpNet :=
  '(a, b) ← str_split_once 47 s;
  addr ← parse_ipv4 a;
  bits ← parse_u8 b;
  (@Net4 cidr_nets) <$> mk_cidr 32 (addr / 2 ^ (32 - bits)) (32 - bits).

Definition overlapping (patterns : list string) (text : string) : list nat :=
  filter (fun id => default false ((fun p => str_contains (to_ascii_lowercase text) (to_ascii_lowercase p)) <$> patterns !! id) = true)
         (seq 0 (length patterns)).

Definition route_lib : RouteLib.
Proof.
  refine {| domain_to_ascii := puny;
            Regex := string; regex_build_ci p := Some p; regex_new p := Some p;
            regex_is_match r s := str_contains (to_ascii_lowercase s) (to_ascii_lowercase r);
            FancyRegex := string; compile_mihomo_domain_regex p := Some p;
            fancy_is_match r s := Some (str_contains s r);
            GlobMatcher := string; glob_build p := Some p; glob_is_match := glob_text;
            parse_ipnet := parse_cidr4;
            AhoCorasick := list string; ac_build ps := Some ps; find_overlapping := overlapping |}.
  intros patterns ac text id [= <-]. unfold overlapping. rewrite list_elem_of_filter, elem_of_seq.
  destruct (patterns !! id) as [p|] eqn:E; cbn.
  - apply lookup_lt_Some in E as Hl. split; [intros [Hp _]; by exists p|]. intros (q & [= <-] & Hq). split; [done|lia].
  - split; [by intros [? _]|]. by intros (q & ? & _).
Defined.

Definition domain_index : RulesetIndexApi :=
  {| RulesetIndex := list (string * list string);
     index_has ix name := existsb (fun e => String.eqb e.1 name) ix;
     matches_context_deferred ix name ctx _ _ :=
       if existsb (fun e => String.eqb e.1 name && existsb (String.eqb (rc_dst_host ctx)) e.2) ix
       then RsMatched else RsNotMatched |}.

Module RouteConcrete.
#[export] Existing Instances route_lib domain_index.
End RouteConcrete.
