(* ===== verification/RouteSpec.v ===== *)
(** * The routing engine: what the compiled tables mean

    [direct_state] evaluates a rule from the text of its patterns, without
    [PreparedMatchers], without the shared Aho-Corasick automaton and without the cached
    keyword hits.  The theorems relate [step_match_state] on the tables of a plan to it. *)

From stdpp Require Import base list gmap strings numbers option.
From S2P Require Import Prelude Text Net Instances RouteModel RouteMatch RouteInstances.

(** ** Generic: tables filled by a loop *)

(** [t] holds values of [f] only, and the value of [f] for every key that is used. *)
Definition table_of {K A} `{Countable K} (t : gmap K A) (f : K -> option A) (used : K -> Prop) : Prop :=
  (forall k a, t !! k = Some a -> f k = Some a) /\ (forall k, used k -> t !! k = f k).

Definition ok_value {A} (o : outcome A) : option A := match o with Ok a => Some a | _ => None end.

Section tables.
  Context {K A : Type} `{Countable K} (f : K -> option A) (used used' : K -> Prop).
  Implicit Types t : gmap K A.

Lemma table_of_same t : table_of t f used -> (forall k, used' k -> used k) -> table_of t f used'.
Proof. intros [Hs Hc] Hu. split; [done|]. intros k Hk. by apply Hc, Hu. Qed.

Lemma table_of_insert t k a :
  table_of t f used -> f k = Some a -> (forall k', used' k' -> used k' \/ k' = k) ->
  table_of (<[k := a]> t) f used'.
Proof.
  intros [Hs Hc] Hf Hu. split.
  - intros k' a'. rewrite lookup_insert_Some. intros [[<- <-]|[_ Hk']]; [done|by apply Hs].
  - intros k' Hk'. destruct (decide (k' = k)) as [->|Hne]; [by rewrite lookup_insert_eq|].
    rewrite lookup_insert_ne by done. apply Hc. destruct (Hu k' Hk'); done.
Qed.

Lemma table_of_skip t k :
  table_of t f used -> f k = None -> (forall k', used' k' -> used k' \/ k' = k) -> table_of t f used'.
Proof.
  intros [Hs Hc] Hf Hu. split; [done|]. intros k' Hk'. destruct (Hu k' Hk') as [?| ->]; [by apply Hc|].
  rewrite Hf. destruct (t !! k) eqn:E; [|done]. apply Hs in E. congruence.
Qed.

Lemma table_of_present t k a :
  table_of t f used -> t !! k = Some a -> (forall k', used' k' -> used k' \/ k' = k) -> table_of t f used'.
Proof.
  intros [Hs Hc] Hk Hu. split; [done|]. intros k' Hk'. destruct (Hu k' Hk') as [?| ->]; [by apply Hc|].
  rewrite Hk. symmetry. by apply Hs.
Qed.
End tables.

Lemma table_of_parsed {A} (f : string -> option A) used used' t k :
  table_of t f used -> (forall k', used' k' -> used k' \/ k' = k) ->
  table_of (insert_parsed t k (f k)) f used'.
Proof.
  intros Ht Hu. unfold insert_parsed. destruct (f k) as [a|] eqn:E.
  - by apply table_of_insert with used.
  - by apply table_of_skip with used k.
Qed.

Lemma table_of_or_insert_with {A} (g : string -> outcome A) used used' t t' k :
  table_of t (fun k => ok_value (g k)) used -> or_insert_with t k (g k) = Ok t' ->
  (forall k', used' k' -> used k' \/ k' = k) -> table_of t' (fun k => ok_value (g k)) used'.
Proof.
  intros Ht Ho Hu. unfold or_insert_with in Ho. destruct (t !! k) as [a|] eqn:E.
  - injection Ho as <-. by apply table_of_present with used k a.
  - destruct (g k) as [a| |] eqn:Eg; try done. injection Ho as <-.
    apply table_of_insert with used; [done| |done]. by rewrite Eg.
Qed.

Lemma fold_outcome_app {A S} (f : A -> S -> outcome S) l k s :
  fold_outcome f (l ++ k) s = (s' ← fold_outcome f l s; fold_outcome f k s').
Proof.
  revert s. induction l as [|x l IH]; intros s; [done|]. cbn. destruct (f x s); cbn; [apply IH|done|done].
Qed.

Lemma fold_outcome_concat {A B S} (f : A -> S -> outcome S) (g : B -> S -> outcome S) (h : A -> list B) l s :
  (forall x s, x ∈ l -> f x s = fold_outcome g (h x) s) ->
  fold_outcome f l s = fold_outcome g (concat (h <$> l)) s.
Proof.
  revert s. induction l as [|x l IH]; intros s Hf; [done|]. cbn. rewrite fold_outcome_app, Hf by left.
  destruct (fold_outcome g (h x) s); cbn; [|done|done]. apply IH. intros y s' Hy. apply Hf. by right.
Qed.

(** ** ASCII lower-casing *)

Lemma ascii_lower_byte_ok c : u8 c -> u8 (ascii_lower_byte c).
Proof. unfold uint, ascii_lower_byte, in_range. change (2 ^ 8) with 256. intros. case_match; lia. Qed.

Lemma str_bytes_ascii_lower s : str_bytes (to_ascii_lowercase s) = ascii_lower_byte <$> str_bytes s.
Proof.
  apply str_bytes_of_bytes. apply Forall_fmap. eapply List.Forall_impl; [|apply str_bytes_ok].
  intros c. apply ascii_lower_byte_ok.
Qed.

Lemma to_ascii_lowercase_idemp s : to_ascii_lowercase (to_ascii_lowercase s) = to_ascii_lowercase s.
Proof.
  unfold to_ascii_lowercase at 1. rewrite str_bytes_ascii_lower.
  rewrite <- list_fmap_compose. unfold to_ascii_lowercase. f_equal. apply list_fmap_ext. intros _ c _.
  unfold compose, ascii_lower_byte, in_range. repeat case_match; lia.
Qed.

(** ** The leaves of matchers and plans *)

Fixpoint leaves (m : RouteMatcher) : list RouteMatcher :=
  match m with
  | MAnd parts | MOr parts => concat (map leaves parts)
  | MNot part | MNoResolve part => leaves part
  | _ => [m]
  end.

Definition steps_leaves (steps : list RouteStep) : list RouteMatcher :=
  concat ((fun s => leaves (rs_matcher s)) <$> steps).

Definition plan_leaves (plan : RoutePlan) : list RouteMatcher :=
  steps_leaves (rp_steps plan) ++ concat ((fun e => steps_leaves e.2) <$> rp_sub_rules plan).

Lemma leaves_are_leaves m x : x ∈ leaves m -> is_leaf x = true.
Proof.
  revert m. apply (matcher_ind (fun m => x ∈ leaves m -> is_leaf x = true)).
  - intros parts Hp Hx. cbn in Hx. induction Hp as [|y l Hy Hl IH]; cbn in Hx; [by apply elem_of_nil in Hx|].
    apply elem_of_app in Hx as [Hx|Hx]; auto.
  - intros parts Hp Hx. cbn in Hx. induction Hp as [|y l Hy Hl IH]; cbn in Hx; [by apply elem_of_nil in Hx|].
    apply elem_of_app in Hx as [Hx|Hx]; auto.
  - intros part Hp Hx. by apply Hp.
  - intros part Hp Hx. by apply Hp.
  - intros m Hm Hx. destruct m; try discriminate Hm; cbn in Hx; apply list_elem_of_singleton in Hx as ->; done.
Qed.

Lemma tree_state_ext (f g : bool -> RouteMatcher -> MatchState) m dr :
  (forall dr x, x ∈ leaves m -> f dr x = g dr x) -> tree_state f dr m = tree_state g dr m.
Proof.
  revert m dr. apply (matcher_ind (fun m => forall dr, (forall dr x, x ∈ leaves m -> f dr x = g dr x) ->
                                          tree_state f dr m = tree_state g dr m)).
  1,2: intros parts Hp dr Hx; cbn in *; f_equal;
       (induction Hp as [|y l Hy Hl IH]; [done|]); cbn in *;
       (rewrite Hy by (intros d x Hin; apply Hx, elem_of_app; by left)); f_equal;
       apply IH; intros d x Hin; apply Hx, elem_of_app; by right.
  - intros part Hp dr Hx. cbn. by rewrite Hp.
  - intros part Hp dr Hx. cbn. by rewrite Hp.
  - intros m Hm dr Hx. destruct m; try discriminate Hm; apply Hx; left.
Qed.

Section spec.
Context `{IpNetLib, !RouteLib, !RulesetIndexApi, NetText, StrCase}.

(** ** Evaluation from the text of the patterns *)

Definition direct_leaf (env : MatchEnv) (pr : bool) (i : MatchInput) (dr : bool) (m : RouteMatcher) : MatchState :=
  let c := mi_context i in
  let r := fc_ruleset c in
  let sets := me_rulesets env in
  if is_process_matcher m && negb pr then deferred true false else
  match m with
  | MDomain d => bool_state (String.eqb (mi_normalized_host i) (normalize_route_domain d))
  | MSuffix s => bool_state (host_suffix_normalized (mi_normalized_host i) (normalize_route_domain s))
  | MKeyword k => bool_state (either_host i (fun h => str_contains (to_ascii_lowercase h) (to_ascii_lowercase k)))
  | MDomainRegex v =>
    bool_state (match compile_domain_regex v with Ok r => either_host i (domain_regex_matches r) | _ => false end)
  | MDomainWildcard v =>
    bool_state (match glob_build (normalize_route_domain_pattern v) with
                | Some g => either_host i (glob_is_match g) | None => false end)
  | MGeoSite code => match_ruleset_alias (Some (ruleset_name_candidates "geosite" code)) i sets pr dr false
  | MCidr v =>
    if negb dr then deferred false true else bool_state (match_cidr i (parse_ipnet v) (me_extra_cidrs env))
  | MSrcCidr v => bool_state (match_source_cidr c (parse_ipnet v))
  | MIpSuffix v =>
    if negb dr then deferred false true else bool_state (suffix_holds (mi_resolved_ip i) (parse_ip_suffix v))
  | MSrcIpSuffix v => bool_state (suffix_holds (source_ip r) (parse_ip_suffix v))
  | MGeoIp code =>
    if negb dr && negb (metadata_code_matches (destination_geoip r) code) then deferred false true
    else if metadata_code_matches (destination_geoip r) code then Matched
    else match_ruleset_alias (Some (ruleset_name_candidates "geoip" code)) i sets pr dr false
  | MSrcGeoIp code =>
    if metadata_code_matches (source_geoip r) code then Matched
    else match_ruleset_alias (Some (ruleset_name_candidates "geoip" code)) i sets pr true true
  | MIpAsn asn =>
    if negb dr && negb (opt_is (destination_asn r) asn) then deferred false true
    else if opt_is (destination_asn r) asn then Matched
    else match_ruleset_alias (Some (ruleset_name_candidates "asn" (pretty.pretty asn))) i sets pr dr false
  | MSrcIpAsn asn =>
    if opt_is (source_asn r) asn then Matched
    else match_ruleset_alias (Some (ruleset_name_candidates "asn" (pretty.pretty asn))) i sets pr true true
  | MProcessRegex v =>
    bool_state (match regex_new v with Some x => process_or_package c (regex_is_match x) | None => false end)
  | MProcessPathRegex v =>
    bool_state (match regex_new v with Some x => on_process_path c (regex_is_match x) | None => false end)
  | MProcessWildcard v =>
    bool_state (match glob_build v with Some g => process_or_package c (glob_is_match g) | None => false end)
  | MProcessPathWildcard v =>
    bool_state (match glob_build v with Some g => on_process_path c (glob_is_match g) | None => false end)
  | _ => leaf_state env pr dr i m
  end.

Definition direct_state (env : MatchEnv) (pr dr : bool) (m : RouteMatcher) (i : MatchInput) : MatchState :=
  tree_state (direct_leaf env pr i) dr m.

(** ** The keyword cache is transparent *)

Definition evaluates (p : PreparedMatchers) (i : MatchInput) (s : MatchState) (res : MatchState * MatchInput) : Prop :=
  res.1 = s /\ cache_ok p res.2 /\ uncached res.2 = uncached i.

Lemma pure_leaf_uncached env pr i i' dr m :
  uncached i' = uncached i -> pure_leaf env pr i' dr m = pure_leaf env pr i dr m.
Proof. destruct i, i'. unfold uncached. cbn. intros [=]. by subst. Qed.

Lemma pure_state_uncached env pr dr m i i' :
  uncached i' = uncached i -> pure_state env pr dr m i' = pure_state env pr dr m i.
Proof. intros Hi. apply tree_state_ext. intros. by apply pure_leaf_uncached. Qed.

Lemma keyword_state_pure env i k :
  cache_ok (me_prepared env) i ->
  evaluates (me_prepared env) i (pure_keyword env i k) (keyword_state env i k).
Proof.
  intros Hc. unfold keyword_state, pure_keyword. destruct (keyword_ids _ !! k) as [id|]; [|done].
  unfold keyword_matches, cache_ok in *. destruct (mi_keyword_hits i) as [hits|] eqn:E; cbn; rewrite ?E.
  - subst hits. split; [done|]. split; [unfold cache_ok; cbn; by rewrite E|done].
  - done.
Qed.

Lemma and_loop_pure env pr dr parts i np nd :
  cache_ok (me_prepared env) i ->
  Forall (fun m => forall i, cache_ok (me_prepared env) i ->
            evaluates (me_prepared env) i (pure_state env pr dr m i) (step_match_state env pr dr m i)) parts ->
  evaluates (me_prepared env) i
    (and_states (map (fun m => pure_state env pr dr m i) parts) np nd) (and_loop (step_match_state env pr dr) parts np nd i).
Proof.
  intros Hc Hp. revert i np nd Hc. induction Hp as [|m l Hm Hl IH]; intros i np nd Hc; [done|]. cbn.
  destruct (Hm i Hc) as (E & Hc' & Hu). destruct (step_match_state env pr dr m i) as [s i']. cbn in *. subst s.
  assert (Hrest : forall np nd, evaluates (me_prepared env) i
            (and_states (map (fun m => pure_state env pr dr m i) l) np nd)
            (and_loop (step_match_state env pr dr) l np nd i')).
  { intros np' nd'. destruct (IH i' np' nd' Hc') as (E & Hc2 & Hu2). split; [|split; [done|congruence]].
    rewrite E. f_equal. apply map_ext. intros x. by apply pure_state_uncached. }
  destruct (pure_state env pr dr m i); auto. done.
Qed.

Lemma or_loop_pure env pr dr parts i np nd :
  cache_ok (me_prepared env) i ->
  Forall (fun m => forall i, cache_ok (me_prepared env) i ->
            evaluates (me_prepared env) i (pure_state env pr dr m i) (step_match_state env pr dr m i)) parts ->
  evaluates (me_prepared env) i
    (or_states (map (fun m => pure_state env pr dr m i) parts) np nd) (or_loop (step_match_state env pr dr) parts np nd i).
Proof.
  intros Hc Hp. revert i np nd Hc. induction Hp as [|m l Hm Hl IH]; intros i np nd Hc; [done|]. cbn.
  destruct (Hm i Hc) as (E & Hc' & Hu). destruct (step_match_state env pr dr m i) as [s i']. cbn in *. subst s.
  assert (Hrest : forall np nd, evaluates (me_prepared env) i
            (or_states (map (fun m => pure_state env pr dr m i) l) np nd)
            (or_loop (step_match_state env pr dr) l np nd i')).
  { intros np' nd'. destruct (IH i' np' nd' Hc') as (E & Hc2 & Hu2). split; [|split; [done|congruence]].
    rewrite E. f_equal. apply map_ext. intros x. by apply pure_state_uncached. }
  destruct (pure_state env pr dr m i); auto. done.
Qed.

Lemma step_match_state_pure env pr m : forall dr i,
  cache_ok (me_prepared env) i ->
  evaluates (me_prepared env) i (pure_state env pr dr m i) (step_match_state env pr dr m i).
Proof.
  revert m. apply (matcher_ind (fun m => forall dr i, cache_ok (me_prepared env) i ->
    evaluates (me_prepared env) i (pure_state env pr dr m i) (step_match_state env pr dr m i))).
  - intros parts Hp dr i Hc. apply and_loop_pure; [done|]. eapply List.Forall_impl; [|exact Hp]. intros m Hm. apply Hm.
  - intros parts Hp dr i Hc. apply or_loop_pure; [done|]. eapply List.Forall_impl; [|exact Hp]. intros m Hm. apply Hm.
  - intros part Hp dr i Hc. destruct (Hp dr i Hc) as (E & Hc' & Hu). cbn [step_match_state].
    destruct (step_match_state env pr dr part i) as [s i']. cbn in *. by subst s.
  - intros part Hp dr i Hc. exact (Hp true i Hc).
  - intros m Hm dr i Hc. destruct m; try discriminate Hm; try (by split); by apply keyword_state_pure.
Qed.

Lemma cache_ok_new p c : cache_ok p (MatchInput_new c).
Proof. done. Qed.

(** ** The tables of a plan *)

(** The key [v] is used as a domain pattern, or as the value of a name rule, in [L]. *)
Definition domain_used (L : list RouteMatcher) (v : string) : Prop := MDomain v ∈ L \/ MSuffix v ∈ L.
Definition name_used (L : list RouteMatcher) (v : string) : Prop :=
  MProcess v ∈ L \/ MProcessPath v ∈ L \/ MInUser v ∈ L \/ MInName v ∈ L \/ MInType v ∈ L \/ MRematchName v ∈ L.

Definition normalized_ok (L : list RouteMatcher) (t : gmap string string) : Prop :=
  (forall v x, t !! v = Some x -> domain_used L v /\ x = normalize_route_domain v \/ name_used L v /\ x = to_lowercase v)
  /\ (forall v, domain_used L v -> is_Some (t !! v)).

Definition keywords_ok (L : list RouteMatcher) (p : PreparedMatchers) : Prop :=
  (forall k id, keyword_ids p !! k = Some id -> keyword_patterns p !! id = Some (to_ascii_lowercase k))
  /\ (forall n id, keyword_unique_ids p !! n = Some id -> keyword_patterns p !! id = Some n)
  /\ (forall k, MKeyword k ∈ L -> is_Some (keyword_ids p !! k)).

Record tables_ok (L : list RouteMatcher) (p : PreparedMatchers) : Prop := mkTablesOk {
  to_normalized : normalized_ok L (normalized_values p);
  to_keywords : keywords_ok L p;
  to_dcidr : table_of (destination_cidrs p) parse_ipnet (fun v => MCidr v ∈ L);
  to_scidr : table_of (source_cidrs p) parse_ipnet (fun v => MSrcCidr v ∈ L);
  to_dregex : table_of (domain_regexes p) (fun v => ok_value (compile_domain_regex v)) (fun v => MDomainRegex v ∈ L);
  to_dwild : table_of (domain_wildcards p)
               (fun v => ok_value (compile_glob (normalize_route_domain_pattern v))) (fun v => MDomainWildcard v ∈ L);
  to_pregex : table_of (process_regexes p) (fun v => ok_value (expect (regex_new v)))
               (fun v => MProcessRegex v ∈ L \/ MProcessPathRegex v ∈ L);
  to_pwild : table_of (process_wildcards p) (fun v => ok_value (compile_glob v))
               (fun v => MProcessWildcard v ∈ L \/ MProcessPathWildcard v ∈ L);
  to_dsuffix : table_of (destination_ip_suffixes p) parse_ip_suffix (fun v => MIpSuffix v ∈ L);
  to_ssuffix : table_of (source_ip_suffixes p) parse_ip_suffix (fun v => MSrcIpSuffix v ∈ L);
  to_geosite : table_of (geosite_aliases p) (fun v => Some (ruleset_name_candidates "geosite" v)) (fun v => MGeoSite v ∈ L);
  to_geoip : table_of (geoip_aliases p) (fun v => Some (ruleset_name_candidates "geoip" v))
               (fun v => MGeoIp v ∈ L \/ MSrcGeoIp v ∈ L);
  to_asn : table_of (asn_aliases p) (fun a => Some (ruleset_name_candidates "asn" (pretty.pretty a)))
               (fun a => MIpAsn a ∈ L \/ MSrcIpAsn a ∈ L)
}.

Lemma domain_used_snoc L m v : domain_used (L ++ [m]) v <-> domain_used L v \/ m = MDomain v \/ m = MSuffix v.
Proof. unfold domain_used. rewrite !elem_of_app, !list_elem_of_singleton. naive_solver. Qed.

Lemma name_used_mono L m v : name_used L v -> name_used (L ++ [m]) v.
Proof. unfold name_used. rewrite !elem_of_app. naive_solver. Qed.

Lemma normalized_ok_other L m t :
  normalized_ok L t -> (forall v, m <> MDomain v /\ m <> MSuffix v) -> normalized_ok (L ++ [m]) t.
Proof.
  intros [Hs Hc] Hm. split.
  - intros v x Hv. destruct (Hs v x Hv) as [[? ?]|[? ?]]; [left|right]; split; auto using name_used_mono.
    rewrite domain_used_snoc. by left.
  - intros v. rewrite domain_used_snoc. intros [Hv|Hv]; [by apply Hc|]. destruct (Hm v). naive_solver.
Qed.

Lemma normalized_ok_insert L m t v x :
  normalized_ok L t ->
  (domain_used (L ++ [m]) v /\ x = normalize_route_domain v \/ name_used (L ++ [m]) v /\ x = to_lowercase v) ->
  (forall v', m = MDomain v' \/ m = MSuffix v' -> v' = v) -> normalized_ok (L ++ [m]) (or_insert t v x).
Proof.
  intros [Hs Hc] Hx Hm. unfold or_insert.
  assert (Hold : forall v x, t !! v = Some x ->
    domain_used (L ++ [m]) v /\ x = normalize_route_domain v \/ name_used (L ++ [m]) v /\ x = to_lowercase v).
  { intros v' x' Hv. destruct (Hs v' x' Hv) as [[? ?]|[? ?]]; [left|right]; split; auto using name_used_mono.
    rewrite domain_used_snoc. by left. }
  destruct (t !! v) as [y|] eqn:E; split; auto.
  - intros v'. rewrite domain_used_snoc. intros [Hv|Hv]; [by apply Hc|]. by rewrite (Hm v' Hv), E.
  - intros v' x'. rewrite lookup_insert_Some. intros [[<- <-]|[_ Hv]]; auto.
  - intros v'. rewrite domain_used_snoc, lookup_insert_is_Some'. intros [Hv|Hv]; [by right; apply Hc|].
    left. symmetry. by apply Hm.
Qed.

Lemma keywords_ok_other L m p p' :
  keywords_ok L p -> (forall k, m <> MKeyword k) -> keyword_ids p' = keyword_ids p ->
  keyword_unique_ids p' = keyword_unique_ids p -> keyword_patterns p' = keyword_patterns p -> keywords_ok (L ++ [m]) p'.
Proof.
  intros (Hk1 & Hk2 & Hk3) Hm Ei Eu Ep. unfold keywords_ok. rewrite Ei, Eu, Ep. split; [done|]. split; [done|].
  intros k. rewrite elem_of_app, list_elem_of_singleton. intros [Hk|Hk]; [by apply Hk3|]. by destruct (Hm k).
Qed.

Lemma keywords_ok_collect L p k : keywords_ok L p -> keywords_ok (L ++ [MKeyword k]) (collect_keyword p k).
Proof.
  intros (Hk1 & Hk2 & Hk3).
  assert (Hnew : forall id, (forall k', MKeyword k' ∈ L ++ [MKeyword k] -> is_Some (<[k := id]> (keyword_ids p) !! k'))).
  { intros id k'. rewrite elem_of_app, list_elem_of_singleton, lookup_insert_is_Some'.
    intros [Hk|[= ->]]; [right; by apply Hk3|by left]. }
  unfold collect_keyword. destruct (keyword_unique_ids p !! to_ascii_lowercase k) as [id|] eqn:E;
    destruct p; cbn in *; (split; [|split; [|apply Hnew]]); cbn.
  - intros k' id'. rewrite lookup_insert_Some. intros [[<- <-]|[_ Hk]]; [by apply Hk2|by apply Hk1].
  - done.
  - intros k' id'. rewrite lookup_insert_Some. intros [[<- <-]|[_ Hk]].
    + rewrite lookup_app_r, Nat.sub_diag by lia. done.
    + apply lookup_app_l_Some. by apply Hk1.
  - intros n id'. rewrite lookup_insert_Some. intros [[<- <-]|[_ Hk]].
    + rewrite lookup_app_r, Nat.sub_diag by lia. done.
    + apply lookup_app_l_Some. by apply Hk2.
Qed.

Lemma collect_keyword_set p k : exists a b c, collect_keyword p k = set_keywords p a b c.
Proof. unfold collect_keyword. case_match; eauto. Qed.

#[local] Instance is_keyword_dec m : Decision (exists k, m = MKeyword k).
Proof. destruct m; try (right; intros [? [=]]; fail). left. eauto. Defined.

#[local] Arguments ruleset_name_candidates : simpl never.

Ltac used_tac :=
  let k := fresh in let Hu := fresh in
  intros k Hu; cbv beta in *; rewrite ?elem_of_app, ?list_elem_of_singleton in Hu;
  repeat match type of Hu with _ \/ _ => destruct Hu as [Hu|Hu] end;
  first [discriminate Hu | injection Hu as ->; auto | auto].

Ltac table_tac :=
  lazymatch goal with
  | |- normalized_ok _ (or_insert _ _ _) =>
    apply normalized_ok_insert; [assumption| |intros ? [[=]|[=]]; congruence];
    first [ left; split; [|reflexivity]; rewrite domain_used_snoc; tauto
          | right; split; [|reflexivity]; unfold name_used; rewrite !elem_of_app, !list_elem_of_singleton; tauto ]
  | |- normalized_ok _ _ => apply normalized_ok_other; [assumption|intros; split; congruence]
  | |- keywords_ok _ (collect_keyword _ _) => apply keywords_ok_collect; assumption
  | |- keywords_ok _ _ => eapply keywords_ok_other; [eassumption|congruence|reflexivity|reflexivity|reflexivity]
  | |- table_of (<[_ := _]> _) _ _ => eapply table_of_insert; [eassumption|reflexivity|used_tac]
  | |- table_of (insert_parsed _ ?v (?f ?v)) _ _ => eapply table_of_parsed; [eassumption|used_tac]
  | H : or_insert_with ?t ?k _ = Ok ?t' |- table_of ?t' _ _ =>
    eapply table_of_or_insert_with; [eassumption|exact H|used_tac]
  | |- table_of _ _ _ => eapply table_of_same; [eassumption|used_tac]
  end.

Lemma collect_leaf_tables L m p p' :
  tables_ok L p -> is_leaf m = true -> collect_leaf m p = Ok p' -> tables_ok (L ++ [m]) p'.
Proof.
  intros [] Hleaf Hc. destruct (decide (exists k, m = MKeyword k)) as [[k ->]|Hnk].
  { injection Hc as <-. pose proof (keywords_ok_collect L p k to_keywords0) as Hk.
    destruct (collect_keyword_set p k) as (a & b & c & E). rewrite E in *. clear E.
    destruct p; cbn in *. constructor; cbn; try table_tac. exact Hk. }
  destruct m; try discriminate Hleaf; cbn [collect_leaf] in Hc; clear Hleaf;
    repeat (apply bind_Ok in Hc as (? & ? & Hc)); injection Hc as <-; destruct p; cbn in *.
  all: try (exfalso; eauto; fail); clear Hnk; constructor; cbn; table_tac.
Qed.

Lemma collect_matcher_leaves m p : collect_matcher m p = fold_outcome collect_leaf (leaves m) p.
Proof.
  revert m p. apply (matcher_ind (fun m => forall p, collect_matcher m p = fold_outcome collect_leaf (leaves m) p)).
  1,2: intros parts Hp p; cbn; apply fold_outcome_concat; intros m p' Hm;
       rewrite List.Forall_forall in Hp; apply Hp; by apply list_elem_of_In.
  - intros part Hp p. apply Hp.
  - intros part Hp p. apply Hp.
  - intros m Hm p. destruct m; try discriminate Hm; cbn [collect_matcher leaves fold_outcome];
      match goal with |- ?x = _ => by destruct x end.
Qed.

Lemma collect_leaf_automaton m p p' :
  is_leaf m = true -> collect_leaf m p = Ok p' -> keyword_automaton p' = keyword_automaton p.
Proof.
  intros Hleaf Hc. destruct m; try discriminate Hleaf; cbn [collect_leaf] in Hc;
    repeat (apply bind_Ok in Hc as (? & ? & Hc)); injection Hc as <-; try (by destruct p).
  destruct (collect_keyword_set p k) as (a & b & c & ->). by destruct p.
Qed.

Lemma fold_tables l L p p' :
  tables_ok L p -> Forall (fun m => is_leaf m = true) l -> fold_outcome collect_leaf l p = Ok p' ->
  tables_ok (L ++ l) p' /\ keyword_automaton p' = keyword_automaton p.
Proof.
  intros Hp Hl. revert L p Hp. induction Hl as [|m l Hm Hl IH]; intros L p Hp Hf; cbn in Hf.
  - injection Hf as <-. by rewrite app_nil_r.
  - apply bind_Ok in Hf as (p1 & H1' & Hf). rewrite cons_middle, app_assoc.
    destruct (IH (L ++ [m]) p1) as [Ht Ha]; [by apply (collect_leaf_tables L m p)|done|].
    split; [done|]. by rewrite Ha, (collect_leaf_automaton m p).
Qed.

Lemma tables_ok_default : tables_ok [] PreparedMatchers_default.
Proof.
  constructor; cbn.
  1: split; [intros v x; by rewrite lookup_empty|intros v [Hv|Hv]; by apply elem_of_nil in Hv].
  1: split; [|split]; cbn; intros *; rewrite ?lookup_empty; try done; intros Hk; by apply elem_of_nil in Hk.
  all: split; intros k; rewrite lookup_empty; try done; intros Hk;
       repeat match type of Hk with _ \/ _ => destruct Hk as [Hk|Hk] end; by apply elem_of_nil in Hk.
Qed.

Lemma plan_leaves_are_leaves plan : Forall (fun m => is_leaf m = true) (plan_leaves plan).
Proof.
  assert (Hs : forall steps, Forall (fun m => is_leaf m = true) (steps_leaves steps)).
  { intros steps. induction steps as [|s steps IH]; [constructor|]. apply Forall_app_2; [|exact IH].
    apply List.Forall_forall. intros x Hx. by apply (leaves_are_leaves (rs_matcher s)), list_elem_of_In. }
  apply Forall_app_2; [apply Hs|]. induction (rp_sub_rules plan) as [|e l IH]; [constructor|].
  apply Forall_app_2; [apply Hs|exact IH].
Qed.

Lemma compile_tables plan p :
  compile plan = Ok p ->
  tables_ok (plan_leaves plan) p
  /\ (keyword_patterns p <> [] -> keyword_automaton p = ac_build (keyword_patterns p)).
Proof.
  intros Hc. unfold compile in Hc. apply bind_Ok in Hc as (p1 & H1' & Hc). apply bind_Ok in Hc as (p2 & H2' & Hc).
  injection Hc as <-.
  assert (Hall : fold_outcome collect_leaf (plan_leaves plan) PreparedMatchers_default = Ok p2).
  { assert (Hsteps : forall steps s, fold_outcome (fun step => collect_matcher (rs_matcher step)) steps s
                                   = fold_outcome collect_leaf (steps_leaves steps) s).
    { intros steps s. apply fold_outcome_concat. intros x s' _. apply collect_matcher_leaves. }
    unfold plan_leaves. rewrite fold_outcome_app, <- Hsteps, H1'. cbn.
    rewrite <- (fold_outcome_concat (fun e => fold_outcome (fun step => collect_matcher (rs_matcher step)) e.2));
      [done|]. intros e s _. apply Hsteps. }
  destruct (fold_tables (plan_leaves plan) [] _ p2 tables_ok_default (plan_leaves_are_leaves plan) Hall) as [Ht Ha].
  cbn in Ht. case_bool_decide as E; [by rewrite E|].
  destruct p2. destruct Ht. split; [by constructor|]. done.
Qed.

(** ** Reading the tables *)

Lemma mark_hits_lookup ids hits id b :
  hits !! id = Some b -> mark_hits ids hits !! id = Some (bool_decide (id ∈ ids) || b).
Proof.
  revert hits b. induction ids as [|x ids IH]; intros hits b Hb.
  - cbn. rewrite bool_decide_eq_false_2 by apply not_elem_of_nil. done.
  - change (mark_hits (x :: ids) hits) with (mark_hits ids (<[x := true]> hits)).
    destruct (decide (x = id)) as [->|Hne].
    + rewrite (IH _ true) by (apply list_lookup_insert_eq; by eapply lookup_lt_Some).
      rewrite (bool_decide_eq_true_2 (id ∈ id :: ids)) by left. by rewrite orb_true_r.
    + rewrite (IH _ b) by (by rewrite list_lookup_insert_ne). do 2 f_equal. apply bool_decide_ext.
      rewrite elem_of_cons. naive_solver.
Qed.

Lemma compute_hits_keyword L p i k id ac :
  keywords_ok L p -> keyword_automaton p = Some ac -> ac_build (keyword_patterns p) = Some ac ->
  keyword_ids p !! k = Some id ->
  default false (compute_hits p i !! id)
  = either_host i (fun h => str_contains (to_ascii_lowercase h) (to_ascii_lowercase k)).
Proof.
  intros (Hk1 & _ & _) Ha Hb Hid. specialize (Hk1 k id Hid).
  assert (Hrep : replicate (length (keyword_patterns p)) false !! id = Some false).
  { apply lookup_replicate_2. by eapply lookup_lt_Some. }
  assert (Hfind : forall text, bool_decide (id ∈ find_overlapping ac text)
                             = str_contains (to_ascii_lowercase text) (to_ascii_lowercase k)).
  { intros text. apply eq_true_iff_eq. rewrite bool_decide_eq_true.
    rewrite (find_overlapping_spec (keyword_patterns p) ac text id Hb), Hk1.
    split; [intros (q & [= <-] & Hq); by rewrite to_ascii_lowercase_idemp in Hq|].
    intros Hq. exists (to_ascii_lowercase k). by rewrite to_ascii_lowercase_idemp. }
  unfold compute_hits, either_host. rewrite Ha.
  pose proof (mark_hits_lookup (find_overlapping ac (mi_normalized_host i)) _ id false Hrep) as Hm.
  rewrite orb_false_r, Hfind in Hm.
  destruct (String.eqb (mi_unicode_host i) (mi_normalized_host i)); cbn [negb andb].
  - by rewrite Hm, orb_false_r.
  - by rewrite (mark_hits_lookup _ _ id _ Hm), Hfind, orb_comm.
Qed.

(** No value is both a domain pattern and the value of a name rule, unless both
    normalizations agree on it. *)
Definition no_collision (plan : RoutePlan) : Prop :=
  forall v, domain_used (plan_leaves plan) v -> name_used (plan_leaves plan) v ->
            normalize_route_domain v = to_lowercase v.

Definition automaton_built (p : PreparedMatchers) : Prop := keyword_patterns p <> [] -> keyword_automaton p <> None.

Lemma normalized_read plan p v :
  no_collision plan -> normalized_ok (plan_leaves plan) (normalized_values p) -> domain_used (plan_leaves plan) v ->
  default v (normalized_values p !! v) = normalize_route_domain v.
Proof.
  intros Hn [Hs Hc] Hv. destruct (Hc v Hv) as [x Hx]. rewrite Hx. cbn.
  destruct (Hs v x Hx) as [[_ ->]|[Hu ->]]; [done|]. symmetry. by apply Hn.
Qed.

(** ** Tables against text, leaf by leaf *)

Lemma leaf_direct plan extra rulesets p pr i dr m :
  compile plan = Ok p -> automaton_built p -> no_collision plan -> m ∈ plan_leaves plan ->
  pure_leaf (mkEnv extra rulesets p) pr i dr m
  = direct_leaf (mkEnv extra rulesets PreparedMatchers_default) pr i dr m.
Proof.
  intros Hc Hauto Hn Hm. destruct (compile_tables plan p Hc) as [[] Hac].
  assert (Hleaf : is_leaf m = true).
  { pose proof (plan_leaves_are_leaves plan) as Hl. rewrite List.Forall_forall in Hl. by apply Hl, list_elem_of_In. }
  destruct m; try discriminate Hleaf; try reflexivity; cbn [pure_leaf leaf_state direct_leaf is_process_matcher andb];
    cbn [me_prepared me_rulesets me_extra_cidrs].
  - rewrite (normalized_read plan) by (done || by left). done.
  - rewrite (normalized_read plan) by (done || by right). done.
  - unfold pure_keyword. cbn [me_prepared]. destruct to_keywords0 as (Hk1 & Hk2 & Hk3).
    destruct (Hk3 k Hm) as [id Hid]. rewrite Hid.
    assert (Hne : keyword_patterns p <> []) by (intros E; specialize (Hk1 k id Hid); by rewrite E in Hk1).
    specialize (Hac Hne). specialize (Hauto Hne). destruct (keyword_automaton p) as [ac|] eqn:Ea; [|done].
    by rewrite (compute_hits_keyword (plan_leaves plan) p i k id ac).
  - rewrite (proj2 to_dregex0) by done. by destruct (compile_domain_regex p0).
  - rewrite (proj2 to_dwild0) by done. unfold compile_glob. by destruct (glob_build _).
  - by rewrite (proj2 to_geosite0) by done.
  - by rewrite (proj2 to_dcidr0) by done.
  - by rewrite (proj2 to_scidr0) by done.
  - by rewrite (proj2 to_dsuffix0) by done.
  - by rewrite (proj2 to_ssuffix0) by done.
  - by rewrite (proj2 to_geoip0) by (by left).
  - by rewrite (proj2 to_geoip0) by (by right).
  - by rewrite (proj2 to_asn0) by (by left).
  - by rewrite (proj2 to_asn0) by (by right).
  - by destruct pr.
  - by destruct pr.
  - destruct pr; [|reflexivity]. cbn. rewrite (proj2 to_pregex0) by (by left). by destruct (regex_new _).
  - destruct pr; [|reflexivity]. cbn. rewrite (proj2 to_pregex0) by (by right). by destruct (regex_new _).
  - destruct pr; [|reflexivity]. cbn. rewrite (proj2 to_pwild0) by (by left). unfold compile_glob. by destruct (glob_build _).
  - destruct pr; [|reflexivity]. cbn. rewrite (proj2 to_pwild0) by (by right). unfold compile_glob. by destruct (glob_build _).
Qed.

(** The rules of a plan, of its main list and of its sub-rules *)
Definition in_plan (plan : RoutePlan) (step : RouteStep) : Prop :=
  step ∈ rp_steps plan \/ exists e, e ∈ rp_sub_rules plan /\ step ∈ e.2.

Lemma steps_leaves_elem steps step m : step ∈ steps -> m ∈ leaves (rs_matcher step) -> m ∈ steps_leaves steps.
Proof.
  intros Hs Hm. unfold steps_leaves. induction steps as [|s steps IH]; [by apply elem_of_nil in Hs|]. cbn.
  rewrite elem_of_app. apply elem_of_cons in Hs as [->|Hs]; [by left|]. right. by apply IH.
Qed.

Lemma in_plan_leaves plan step m : in_plan plan step -> m ∈ leaves (rs_matcher step) -> m ∈ plan_leaves plan.
Proof.
  unfold plan_leaves. rewrite elem_of_app. intros [Hs|(e & He & Hs)] Hm; [left; by eapply steps_leaves_elem|right].
  induction (rp_sub_rules plan) as [|e' l IH]; [by apply elem_of_nil in He|]. cbn. rewrite elem_of_app.
  apply elem_of_cons in He as [->|He]; [left; by eapply steps_leaves_elem|]. right. by apply IH.
Qed.

(** [C7] Compiled evaluation agrees with the text of the rules: for every rule of a
    compiled plan, [step_match_state] on the plan-wide tables, the shared keyword
    automaton and any valid state of the keyword cache gives the three-valued result of
    evaluating the rule's patterns directly, and leaves a valid cache; provided no value
    is both a domain pattern and a name value with different normal forms, and the keyword
    automaton was built if there are keywords. *)
Theorem route_tables_refine_text plan p extra rulesets step pr dr i :
  compile plan = Ok p -> automaton_built p -> no_collision plan -> in_plan plan step -> cache_ok p i ->
  let env := mkEnv extra rulesets p in
  let '(s, i') := step_match_state env pr dr (rs_matcher step) i in
  s = direct_state (mkEnv extra rulesets PreparedMatchers_default) pr dr (rs_matcher step) i
  /\ cache_ok p i' /\ uncached i' = uncached i.
Proof.
  intros Hc Hauto Hn Hstep Hcache env.
  destruct (step_match_state_pure env pr (rs_matcher step) dr i Hcache) as (E & Hc' & Hu).
  destruct (step_match_state env pr dr (rs_matcher step) i) as [s i']. cbn in *. subst s.
  split; [|done]. apply tree_state_ext. intros dr' m Hm. apply (leaf_direct plan); try done.
  by eapply in_plan_leaves.
Qed.
End spec.

(** ** IP suffix rules *)

Lemma be_bytes_drop n k z : (k <= n)%nat -> drop (n - k) (be_bytes n z) = be_bytes k z.
Proof.
  induction n as [|n IH]; intros Hk; [by replace k with O by lia|].
  destruct (decide (k = S n)) as [->|Hne]; [by rewrite Nat.sub_diag|].
  replace (S n - k)%nat with (S (n - k)) by lia. cbn [be_bytes drop]. apply IH. lia.
Qed.

Lemma be_bytes_eq k a b : be_bytes k a = be_bytes k b <-> a mod 256 ^ Z.of_nat k = b mod 256 ^ Z.of_nat k.
Proof.
  split; intros E.
  - by rewrite <- !be_val_be_bytes, E.
  - rewrite <- (be_bytes_be_val (be_bytes k a)), <- (be_bytes_be_val (be_bytes k b)) by apply be_bytes_ok.
    by rewrite !length_be_bytes, !be_val_be_bytes, E.
Qed.

Lemma be_bytes_index n k z :
  (k < n)%nat -> index (be_bytes n z) (Z.of_nat n - Z.of_nat k - 1) = Ok ((z / 256 ^ Z.of_nat k) mod 256).
Proof.
  intros Hk. pose proof (be_bytes_drop n (S k) z ltac:(lia)) as Hd. unfold index.
  rewrite (proj2 (Z.leb_le _ _)) by lia.
  replace (Z.to_nat (Z.of_nat n - Z.of_nat k - 1)) with (n - S k + 0)%nat by lia.
  by rewrite <- lookup_drop, Hd.
Qed.

Lemma mod_split a b m r : 0 < m -> 0 < r ->
  a mod (m * r) = b mod (m * r) <-> a mod m = b mod m /\ (a / m) mod r = (b / m) mod r.
Proof.
  intros Hm Hr. rewrite !Z.rem_mul_r by lia.
  pose proof (Z.mod_pos_bound a m Hm). pose proof (Z.mod_pos_bound b m Hm). split; [|intros [-> ->]; done].
  intros E. assert ((a / m) mod r = (b / m) mod r) by nia. split; [nia|done].
Qed.

Lemma land_mask_mod z r : 0 <= r < 8 -> Z.land (z mod 256) (Z.shiftl 1 r - 1) = z mod 2 ^ r.
Proof.
  intros Hr. rewrite Z.shiftl_mul_pow2, Z.mul_1_l by lia.
  replace (2 ^ r - 1) with (Z.ones r) by (rewrite Z.ones_equiv; lia).
  rewrite Z.land_ones by lia. symmetry. apply Znumtheory.Zmod_div_mod; [apply Z.pow_pos_nonneg; lia|lia|].
  exists (2 ^ (8 - r)). rewrite <- Z.pow_add_r by lia. by replace (8 - r + r) with 8 by lia.
Qed.

Lemma suffix_bits_match_spec n c e bits : 0 <= bits <= 8 * Z.of_nat n ->
  suffix_bits_match (be_bytes n c) (be_bytes n e) bits = Ok (bool_decide (c mod 2 ^ bits = e mod 2 ^ bits)).
Proof.
  intros Hb. unfold suffix_bits_match. rewrite !len_be_bytes, Z.eqb_refl. cbn [negb].
  set (k := Z.to_nat (bits / 8)). assert (Ek : bits / 8 = Z.of_nat k) by (unfold k; Z.div_mod_to_equations; lia).
  assert (Hkn : (k <= n)%nat) by (Z.div_mod_to_equations; lia).
  set (r := bits mod 8). assert (Hr : 0 <= r < 8) by (apply Z.mod_pos_bound; lia).
  assert (Ebits : bits = 8 * Z.of_nat k + r) by (unfold r; rewrite <- Ek; apply Z.div_mod; lia).
  rewrite Ek, !get_slice_ok by (rewrite ?len_be_bytes; lia). cbn [mbind outcome_bind].
  rewrite !slice_to_end by (by rewrite len_be_bytes).
  replace (Z.to_nat (Z.of_nat n - Z.of_nat k)) with (n - k)%nat by lia. rewrite !be_bytes_drop by done.
  assert (Epow : 2 ^ bits = 256 ^ Z.of_nat k * 2 ^ r).
  { rewrite Ebits, Z.pow_add_r, Z.pow_mul_r by lia. done. }
  assert (0 < 256 ^ Z.of_nat k) by (apply Z.pow_pos_nonneg; lia). assert (0 < 2 ^ r) by (apply Z.pow_pos_nonneg; lia).
  assert (Hsplit := mod_split c e (256 ^ Z.of_nat k) (2 ^ r) ltac:(done) ltac:(done)). rewrite <- Epow in Hsplit.
  rewrite <- be_bytes_eq in Hsplit. case_bool_decide as E1.
  - cbn [negb]. rewrite andb_false_r. destruct (Z.eqb_spec r 0) as [E0|Hne].
    + rewrite bool_decide_eq_true_2; [done|]. apply Hsplit. rewrite E0. by rewrite !Z.mod_1_r.
    + assert (Hlt : (k < n)%nat) by lia. rewrite !be_bytes_index by done. cbn [mbind outcome_bind].
      rewrite !land_mask_mod by done. f_equal. apply eq_true_iff_eq. rewrite Z.eqb_eq, bool_decide_eq_true. tauto.
  - replace (0 <? Z.of_nat k) with true.
    2:{ symmetry. apply Z.ltb_lt. destruct k; [by cbn in E1|lia]. }
    cbn [negb andb]. rewrite bool_decide_eq_false_2; [done|]. tauto.
Qed.

(** Same family, and equal in the low-order bits the suffix names *)
Definition same_low_bits (candidate : IpAddr) (suffix : PreparedIpSuffix) : bool :=
  match candidate, is_address suffix with
  | V4 c, V4 e | V6 c, V6 e => bool_decide (c mod 2 ^ is_bits suffix = e mod 2 ^ is_bits suffix)
  | _, _ => false
  end.

(** An IP-SUFFIX rule compares the low-order bits: a suffix that parses is checked
    without a panic, and an address matches it exactly when it is of the same family and
    equal to the suffix address modulo 2 to the number of bits. *)
Theorem route_ip_suffix_low_bits `{NetText} value suffix candidate :
  parse_ip_suffix value = Some suffix ->
  ip_suffix_matches candidate suffix = Ok (same_low_bits candidate suffix).
Proof.
  unfold parse_ip_suffix, same_low_bits. intros Hp. destruct (str_split_once 47 value) as [[a b]|]; [|done]. cbn in Hp.
  destruct (parse_ip a) as [address|]; [|done]. cbn in Hp.
  destruct (parse_u8 b) as [bits|] eqn:Eb; [|done]. cbn in Hp.
  assert (Hbits : 0 <= bits) by (by apply (parse_u8_range b)).
  destruct (bits <=? _) eqn:Emax; [|done]. injection Hp as <-. apply Z.leb_le in Emax.
  unfold ip_suffix_matches, octets. cbn [is_address is_bits].
  destruct candidate as [c|c], address as [e|e]; try done; cbn in Emax; apply suffix_bits_match_spec; lia.
Qed.

(** Rules are not independent: [PreparedMatchers] keys the normal forms of domain
    patterns and of name values by the raw text in one table, and the first rule of a
    plan wins.  A DOMAIN rule whose value was seen before in an IN-NAME rule is compared
    in the lower-cased instead of the IDNA form, and misses the very domain it names. *)
Theorem route_name_rule_shadows_domain `{IpNetLib, !RouteLib, !RulesetIndexApi, NetText, StrCase}
    v a b src1 src2 opts extra rulesets pr dr i :
  normalize_route_domain v <> to_lowercase v -> mi_normalized_host i = normalize_route_domain v ->
  let plan := mkPlan [mkStep (MInName v) a src1 opts; mkStep (MDomain v) b src2 opts] [] in
  exists p, compile plan = Ok p
    /\ (step_match_state (mkEnv extra rulesets p) pr dr (MDomain v) i).1 = NotMatched
    /\ direct_state (mkEnv extra rulesets p) pr dr (MDomain v) i = Matched.
Proof.
  intros Hv Hi plan. eexists. split; [reflexivity|]. split.
  - cbn [step_match_state fst leaf_state is_process_matcher andb me_prepared]. cbn [normalized_values set_normalized
      PreparedMatchers_default]. unfold or_insert at 2. rewrite lookup_empty. unfold or_insert.
    rewrite lookup_insert_eq, bool_decide_eq_true_2 by done. cbn [normalized_values].
    rewrite !lookup_empty. cbv beta iota. rewrite lookup_insert_eq. cbv beta iota. rewrite lookup_insert_eq.
    change (default v (Some (to_lowercase v))) with (to_lowercase v). rewrite Hi.
    destruct (String.eqb_spec (normalize_route_domain v) (to_lowercase v)); [congruence|done].
  - unfold direct_state. cbn [tree_state direct_leaf is_process_matcher andb]. by rewrite Hi, String.eqb_refl.
Qed.

(** ** Witnesses *)

Module RouteSpecWitness.
Import Concrete RouteConcrete.

Definition opts : RouteRuleOptions := mkOptions false false false.
Definition ctx : FlowContext := for_domain "Mail.Example.com." 443 NkTcp.

Definition small_plan : RoutePlan :=
  mkPlan [mkStep (MAnd [MKeyword "MAIL"; MNot (MCidr "10.0.0.0/8")]) (AGroup "a") "r0" opts;
          mkStep (MOr [MSuffix "example.com"; MKeyword "mail"]) (AGroup "b") "r1" opts]
         [("sub", [mkStep (MInName "lan") ADirect "r2" opts])].

Lemma route_tables_refine_text_witness :
  match compile small_plan with
  | Ok p =>
    (step_match_state (mkEnv [] None p) true false (MOr [MSuffix "example.com"; MKeyword "mail"]) (MatchInput_new ctx)).1
    = direct_state (mkEnv [] None PreparedMatchers_default) true false
        (MOr [MSuffix "example.com"; MKeyword "mail"]) (MatchInput_new ctx)
  | _ => False
  end.
Proof.
  assert (Hrun : match compile small_plan with
                 | Ok p => match keyword_automaton p with Some _ => true | None => false end
                 | _ => false end = true) by (vm_compute; reflexivity).
  destruct (compile small_plan) as [p| |] eqn:E; [|discriminate Hrun|discriminate Hrun].
  assert (Hauto : automaton_built p) by (intros _ Ea; rewrite Ea in Hrun; discriminate Hrun).
  assert (Hn : no_collision small_plan).
  { intros v Hd Hu. unfold domain_used, name_used in *.
    change (plan_leaves small_plan) with
      [MKeyword "MAIL"; MCidr "10.0.0.0/8"; MSuffix "example.com"; MKeyword "mail"; MInName "lan"] in *.
    set_solver. }
  pose proof (route_tables_refine_text small_plan p [] None
    (mkStep (MOr [MSuffix "example.com"; MKeyword "mail"]) (AGroup "b") "r1" opts) true false (MatchInput_new ctx)
    E Hauto Hn ltac:(left; right; left) (cache_ok_new p ctx)) as Ht.
  cbn [rs_matcher] in Ht. destruct (step_match_state _ _ _ _ _) as [s i']. apply Ht.
Defined.

Lemma route_ip_suffix_low_bits_witness :
  ip_suffix_matches (V4 3232235777) (mkIpSuffix (V4 257) 12) = Ok true.
Proof.
  rewrite (route_ip_suffix_low_bits "0.0.1.1/12" (mkIpSuffix (V4 257) 12) (V4 3232235777)); vm_compute; reflexivity.
Defined.

Definition shadowed : MatchInput := mkInput ctx (normalize_route_domain "mail.lan.") "mail.lan" None None.

Lemma route_name_rule_shadows_domain_witness :
  exists p, compile (mkPlan [mkStep (MInName "mail.lan.") ADirect "r0" opts; mkStep (MDomain "mail.lan.") ABlock "r1" opts] []) = Ok p
    /\ (step_match_state (mkEnv [] None p) true false (MDomain "mail.lan.") shadowed).1 = NotMatched
    /\ direct_state (mkEnv [] None p) true false (MDomain "mail.lan.") shadowed = Matched.
Proof.
  apply (route_name_rule_shadows_domain "mail.lan." ADirect ABlock "r0" "r1" opts [] None true false shadowed).
  - vm_compute. intros [=].
  - reflexivity.
Defined.
End RouteSpecWitness.
