(* ===== verification/RouteEngine.v ===== *)
(** * The routing engine: ordered evaluation of a plan

    [RouteEngine] of [core-route/src/engine.rs]: first-match evaluation of the rule list
    with SUB-RULE branches, PASS and PASS-RULE, the two "what is still missing" queries,
    run-time disabling of rules, and [validate_sub_rule_graph] of [core-config].

    [evaluate_steps] and [first_requirement] are the same walk over the rules and differ
    in what they do with a rule's three-valued state; [walk] is that walk, its [probe]
    argument the difference.  It threads the [MatchInput] and stops at the depth guard of
    the code.  [pwalk] is the walk without the keyword cache, [route_eval] a big-step
    semantics without a depth guard. *)

From stdpp Require Import base list gmap strings numbers option relations.
From S2P Require Import Prelude Text Net Instances RouteModel RouteMatch RouteInstances RouteSpec.

(** ** Walking a rule list *)

Inductive StepFlow (R : Type) : Type := SfResult (r : R) | SfContinueMain | SfExhausted.
Arguments SfResult {R} r.
Arguments SfContinueMain {R}.
Arguments SfExhausted {R}.

(** What a rule's state means for the walk: pass it over, apply its action, or stop. *)
Inductive verdict (R : Type) : Type := VSkip | VHit | VStop (r : R).
Arguments VSkip {R}.
Arguments VHit {R}.
Arguments VStop {R} r.

(** [disabled.is_some_and(|flags| flags.get(index).copied().unwrap_or(false))] *)
Definition is_disabled (disabled : option (list bool)) (index : nat) : bool :=
  match disabled with Some flags => default false (flags !! index) | None => false end.

(** [disabled.map(|_| index)]: only the main list reports an index. *)
Definition hit_index (disabled : option (list bool)) (index : nat) : option nat :=
  match disabled with Some _ => Some index | None => None end.

Section walk.
  Context {R S : Type} (rules : list (string * list RouteStep)).
  Context (probe : RouteStep -> S -> verdict R * S) (result : option nat -> RouteStep -> R).

(** The [for] loop; [call] evaluates a sub-rule branch. *)
Fixpoint walk_loop (call : list RouteStep -> S -> StepFlow R * S) (disabled : option (list bool)) (depth : nat)
    (steps : list RouteStep) (index : nat) (i : S) : StepFlow R * S :=
  match steps with
  | [] => (SfExhausted, i)
  | step :: steps' =>
    if is_disabled disabled index then walk_loop call disabled depth steps' (Datatypes.S index) i else
    match probe step i with
    | (VSkip, i) => walk_loop call disabled depth steps' (Datatypes.S index) i
    | (VStop r, i) => (SfResult r, i)
    | (VHit, i) =>
      match rs_action step with
      | ASubRule name =>
        match sub_rule rules name with
        | Some branch =>
          match call branch i with
          | (SfResult r, i) => (SfResult r, i)
          | (SfContinueMain, i) =>
            if (depth =? 0)%nat then walk_loop call disabled depth steps' (Datatypes.S index) i
            else (SfContinueMain, i)
          | (SfExhausted, i) => walk_loop call disabled depth steps' (Datatypes.S index) i
          end
        | None => walk_loop call disabled depth steps' (Datatypes.S index) i
        end
      | APass =>
        if (0 <? depth)%nat then (SfContinueMain, i)
        else walk_loop call disabled depth steps' (Datatypes.S index) i
      | APassRule => walk_loop call disabled depth steps' (Datatypes.S index) i
      | ADirect | ABlock | AGroup _ => (SfResult (result (hit_index disabled index) step), i)
      end
    end
  end.

(** The recursion: [if depth > self.plan.sub_rules.len() { return Exhausted }].  The fuel
    is [sub_rules.len() + 1 - depth], so it runs out exactly where the guard fires. *)
Fixpoint walk (fuel : nat) (steps : list RouteStep) (disabled : option (list bool)) (depth : nat) (i : S)
    : StepFlow R * S :=
  match fuel with
  | O => (SfExhausted, i)
  | Datatypes.S fuel' =>
    if (length rules <? depth)%nat then (SfExhausted, i)
    else walk_loop (fun branch i => walk fuel' branch None (Datatypes.S depth) i) disabled depth steps 0 i
  end.
End walk.

(** ** The engine *)

Section engine.
Context `{IpNetLib, !RouteLib, !RulesetIndexApi, NetText, StrCase}.

Record RouteEngine : Type := mkEngine {
  re_plan : RoutePlan; re_extra_cidrs : list IpNet; re_rulesets : option RulesetIndex;
  re_prepared : PreparedMatchers; re_disabled : list bool
}.

Definition RouteEngine_with (plan : RoutePlan) (rulesets : option RulesetIndex) : outcome RouteEngine :=
  prepared ← compile plan;
  Ok (mkEngine plan [] rulesets prepared (replicate (length (rp_steps plan)) false)).

Definition RouteEngine_new (plan : RoutePlan) : outcome RouteEngine := RouteEngine_with plan None.
Definition with_rulesets (plan : RoutePlan) (rulesets : RulesetIndex) : outcome RouteEngine :=
  RouteEngine_with plan (Some rulesets).

Definition set_rule_disabled (e : RouteEngine) (i : nat) (disabled : bool) : bool * RouteEngine :=
  if (length (rp_steps (re_plan e)) <=? i)%nat then (false, e)
  else (true, mkEngine (re_plan e) (re_extra_cidrs e) (re_rulesets e) (re_prepared e) (<[i := disabled]> (re_disabled e))).

Definition rule_disabled (e : RouteEngine) (i : nat) : bool := default false (re_disabled e !! i).

Definition rule_descriptions (e : RouteEngine) : list (RouteRuleHit * bool) :=
  imap (fun i step => (describe_route_step (Some i) step, rule_disabled e i)) (rp_steps (re_plan e)).

Definition engine_env (e : RouteEngine) : MatchEnv := mkEnv (re_extra_cidrs e) (re_rulesets e) (re_prepared e).

(** Evaluation takes a rule when [step_matches]; deferred rules are passed over. *)
Definition evaluate_probe (e : RouteEngine) (pr dr : bool) (step : RouteStep) (i : MatchInput)
    : verdict DetailedRouteDecision * MatchInput :=
  let '(b, i) := step_matches (engine_env e) pr (dr || no_resolve (rs_options step)) (rs_matcher step) i in
  (if b then VHit else VSkip, i).

Definition detailed_hit (index : option nat) (step : RouteStep) : DetailedRouteDecision :=
  mkDetailed (from_action (rs_action step)) (matcher_kind (rs_matcher step)) (describe_route_step index step).

Definition evaluate_steps (e : RouteEngine) (steps : list RouteStep) (i : MatchInput) (pr dr : bool)
    (disabled : option (list bool)) (depth : nat) : StepFlow DetailedRouteDecision * MatchInput :=
  let rules := rp_sub_rules (re_plan e) in
  walk rules (evaluate_probe e pr dr) detailed_hit (S (length rules) - depth) steps disabled depth i.

(** The query stops at the first rule whose state is deferred. *)
Definition requirement_probe (e : RouteEngine) (pr dr : bool) (step : RouteStep) (i : MatchInput)
    : verdict MatchState * MatchInput :=
  let '(s, i) := step_match_state (engine_env e) pr (dr || no_resolve (rs_options step)) (rs_matcher step) i in
  (match s with NotMatched => VSkip | Matched => VHit | Deferred _ _ => VStop s end, i).

Definition first_requirement (e : RouteEngine) (steps : list RouteStep) (i : MatchInput) (pr dr : bool)
    (disabled : option (list bool)) (depth : nat) : StepFlow MatchState * MatchInput :=
  let rules := rp_sub_rules (re_plan e) in
  walk rules (requirement_probe e pr dr) (fun _ _ => Matched) (S (length rules) - depth) steps disabled depth i.

Definition fallback_decision : DetailedRouteDecision := mkDetailed DDirect "fallback" RouteRuleHit_fallback.

Definition is_some {A} (o : option A) : bool := match o with Some _ => true | None => false end.

Definition decide_detailed (e : RouteEngine) (c : FlowContext) : DetailedRouteDecision :=
  let i := MatchInput_new c in
  match (evaluate_steps e (rp_steps (re_plan e)) i true (is_some (mi_resolved_ip i)) (Some (re_disabled e)) 0).1 with
  | SfResult d => d
  | _ => fallback_decision
  end.

Definition route_decide (e : RouteEngine) (c : FlowContext) : RouteDecision * string * string :=
  let d := decide_detailed e c in (dd_decision d, dd_matcher d, rh_source (dd_hit d)).

Definition needs_process (e : RouteEngine) (c : FlowContext) : bool :=
  let i := MatchInput_new c in
  match (first_requirement e (rp_steps (re_plan e)) i false (is_some (mi_resolved_ip i)) (Some (re_disabled e)) 0).1 with
  | SfResult (Deferred true _) => true
  | _ => false
  end.

Definition needs_destination_ip (e : RouteEngine) (c : FlowContext) : bool :=
  if is_some (fc_ip c) || is_some (parse_ip (fc_host c)) then false
  else
    match (first_requirement e (rp_steps (re_plan e)) (MatchInput_new c) true false (Some (re_disabled e)) 0).1 with
    | SfResult (Deferred _ true) => true
    | _ => false
    end.
End engine.

(** ** [validate_sub_rule_graph] (core-config/src/runtime_plan.rs)

    [visit] marks the names on the current path and the finished names.  The fuel bounds
    its recursion depth; [Panic] stands for running out of it, which does not happen. *)

Definition targets (steps : list RouteStep) : list string :=
  omap (fun s => match rs_action s with ASubRule t => Some t | _ => None end) steps.

Fixpoint visit_all (call : string -> gset string * gset string -> outcome (gset string * gset string))
    (steps : list RouteStep) (st : gset string * gset string) : outcome (gset string * gset string) :=
  match steps with
  | [] => Ok st
  | step :: steps' =>
    match rs_action step with
    | ASubRule target => st ← call target st; visit_all call steps' st
    | _ => visit_all call steps' st
    end
  end.

Fixpoint visit (rules : list (string * list RouteStep)) (fuel : nat) (name : string)
    (st : gset string * gset string) : outcome (gset string * gset string) :=
  match fuel with
  | O => Panic
  | S fuel' =>
    let '(visiting, visited) := st in
    if decide (name ∈ visited) then Ok (visiting, visited) else
    if decide (name ∈ visiting) then Err InvalidInput else
    let visiting := {[name]} ∪ visiting in
    st ← match sub_rule rules name with
         | Some steps => visit_all (visit rules fuel') steps (visiting, visited)
         | None => Ok (visiting, visited)
         end;
    let '(visiting, visited) := st in
    Ok (visiting ∖ {[name]}, {[name]} ∪ visited)
  end.

Fixpoint visit_names (rules : list (string * list RouteStep)) (names : list string)
    (st : gset string * gset string) : outcome (gset string * gset string) :=
  match names with
  | [] => Ok st
  | name :: names' => st ← visit rules (S (S (length rules))) name st; visit_names rules names' st
  end.

Definition validate_sub_rule_graph (rules : list (string * list RouteStep)) : outcome unit :=
  _ ← visit_names rules rules.*1 (∅, ∅); Ok tt.

(** ** The sub-rule graph *)

Definition edge (rules : list (string * list RouteStep)) (n t : string) : Prop :=
  exists steps, sub_rule rules n = Some steps /\ t ∈ targets steps.

Definition acyclic (rules : list (string * list RouteStep)) : Prop := forall n, ~ tc (edge rules) n n.

Section graph.
Variable rules : list (string * list RouteStep).
Notation names := (list_to_set rules.*1 : gset string).

(** Every path out of a finished name ends. *)
Definition finished (visited : gset string) : Prop := forall n, n ∈ visited -> Acc (flip (edge rules)) n.

Definition visit_post (visiting visited : gset string) (name : string) (o : outcome (gset string * gset string)) : Prop :=
  match o with
  | Ok (visiting', visited') => visiting' = visiting /\ visited ⊆ visited' /\ name ∈ visited' /\ finished visited'
  | Err e => e = InvalidInput /\ exists n, tc (edge rules) n n
  | Panic => False
  end.

Lemma sub_rule_name name steps : sub_rule rules name = Some steps -> name ∈ names.
Proof.
  intros Hs%sub_rule_elem. apply elem_of_list_to_set, list_elem_of_fmap. by exists (name, steps).
Qed.

Lemma size_names : (size names <= length rules)%nat.
Proof.
  rewrite <- (length_fmap fst rules). induction rules.*1 as [|x l IH]; [cbn; rewrite size_empty; lia|]. cbn.
  rewrite size_union_alt, size_singleton.
  assert (size (list_to_set l ∖ {[x]} : gset string) <= size (list_to_set l : gset string))%nat
    by (apply subseteq_size; set_solver). lia.
Qed.

(** The loop over the steps of [name], given the specification of the recursive call *)
Lemma visit_all_spec call name steps visiting visited :
  (forall t visited, finished visited -> edge rules name t -> visit_post visiting visited t (call t (visiting, visited))) ->
  finished visited -> (forall t, t ∈ targets steps -> edge rules name t) ->
  match visit_all call steps (visiting, visited) with
  | Ok (visiting', visited') =>
    visiting' = visiting /\ visited ⊆ visited' /\ (forall t, t ∈ targets steps -> t ∈ visited') /\ finished visited'
  | Err e => e = InvalidInput /\ exists n, tc (edge rules) n n
  | Panic => False
  end.
Proof.
  intros Hcall. revert visited. induction steps as [|s steps IH]; intros visited Hfin Hedge; cbn.
  - split_and!; try done. intros t Ht. by apply elem_of_nil in Ht.
  - unfold targets in *. cbn in Hedge. cbn [omap list_omap]. destruct (rs_action s) as [| | | | |t]; try by apply IH.
    pose proof (Hcall t visited Hfin ltac:(apply Hedge; left)) as Ht.
    destruct (call t (visiting, visited)) as [[v1 d1]| |]; cbn in *; [|done|done].
    destruct Ht as (-> & Hsub & Hin & Hfin').
    specialize (IH d1 Hfin' ltac:(intros t' Ht'; apply Hedge; by right)).
    destruct (visit_all call steps (visiting, d1)) as [[v2 d2]| |]; [|done|done].
    destruct IH as (-> & Hsub' & Hts & Hfin2). split_and!; [done|set_solver| |done].
    intros t' [->|Ht']%elem_of_cons; [set_solver|by apply Hts].
Qed.

Lemma visit_spec fuel name visiting visited :
  finished visited -> visiting ⊆ names -> (forall v, v ∈ visiting -> tc (edge rules) v name) ->
  (size names < fuel + size visiting)%nat ->
  visit_post visiting visited name (visit rules fuel name (visiting, visited)).
Proof.
  revert name visiting visited. induction fuel as [|fuel IH]; intros name visiting visited Hfin Hsub Hpath Hfuel.
  { apply subseteq_size in Hsub. cbn. lia. }
  cbn [visit]. destruct (decide (name ∈ visited)) as [Hv|Hv]; [done|].
  destruct (decide (name ∈ visiting)) as [Hp|Hp]; [split; eauto|].
  assert (Hrestore : ({[name]} ∪ visiting) ∖ {[name]} = visiting) by set_solver.
  destruct (sub_rule rules name) as [steps|] eqn:Es; cbn [mbind outcome_bind].
  - assert (Hcall : forall t d, finished d -> edge rules name t ->
              visit_post ({[name]} ∪ visiting) d t (visit rules fuel t ({[name]} ∪ visiting, d))).
    { intros t d Hd Ht. apply IH; [done| | |].
      - pose proof (sub_rule_name name steps Es). set_solver.
      - intros v [->%elem_of_singleton|Hvv]%elem_of_union; [by apply tc_once|]. eapply tc_r; [by apply Hpath|done].
      - rewrite size_union, size_singleton by set_solver. lia. }
    pose proof (visit_all_spec (visit rules fuel) name steps ({[name]} ∪ visiting) visited Hcall Hfin
                  ltac:(intros t Ht; by exists steps)) as Hall.
    destruct (visit_all _ _ _) as [[v1 d1]| |]; cbn [mbind outcome_bind]; [|done|done].
    destruct Hall as (-> & Hsub1 & Hts & Hfin1). split_and!; [done|set_solver|set_solver|].
    intros n [->%elem_of_singleton|Hn]%elem_of_union; [|by apply Hfin1].
    constructor. intros t (steps' & Hs' & Ht). apply Hfin1, Hts. congruence.
  - split_and!; [done|set_solver|set_solver|].
    intros n [->%elem_of_singleton|Hn]%elem_of_union; [|by apply Hfin].
    constructor. intros t (steps' & Hs' & Ht). congruence.
Qed.

Lemma visit_names_spec l visited : finished visited ->
  match visit_names rules l (∅, visited) with
  | Ok (visiting', visited') => finished visited' /\ visited ⊆ visited' /\ forall n, n ∈ l -> n ∈ visited'
  | Err e => e = InvalidInput /\ exists n, tc (edge rules) n n
  | Panic => False
  end.
Proof.
  revert visited. induction l as [|name l IH]; intros visited Hfin; cbn [visit_names].
  - split_and!; try done. intros n Hn. by apply elem_of_nil in Hn.
  - pose proof (visit_spec (S (S (length rules))) name ∅ visited Hfin ltac:(set_solver) ltac:(set_solver)) as Hv.
    rewrite size_empty in Hv. specialize (Hv ltac:(pose proof size_names; lia)).
    destruct (visit rules _ name (∅, visited)) as [[v1 d1]| |]; cbn [mbind outcome_bind]; [|done|done].
    destruct Hv as (-> & Hsub & Hin & Hfin1). specialize (IH d1 Hfin1).
    destruct (visit_names rules l (∅, d1)) as [[v2 d2]| |]; [|done|done].
    destruct IH as (Hf2 & Hs2 & Hl). split_and!; [done|set_solver|].
    intros n [->|Hn]%elem_of_cons; [set_solver|by apply Hl].
Qed.

Lemma acc_no_cycle n : Acc (flip (edge rules)) n -> ~ tc (edge rules) n n.
Proof.
  induction 1 as [n _ IH]. intros Hc. inversion Hc as [x y He|x y z He Hr]; subst.
  - exact (IH n He Hc).
  - apply (IH y He). eapply tc_r; [exact Hr|exact He].
Qed.
End graph.

Lemma sub_rule_graph_spec rules :
  match validate_sub_rule_graph rules with
  | Ok _ => acyclic rules
  | Err e => e = InvalidInput /\ ~ acyclic rules
  | Panic => False
  end.
Proof.
  unfold validate_sub_rule_graph.
  pose proof (visit_names_spec rules rules.*1 ∅ ltac:(intros n; set_solver)) as Hv.
  destruct (visit_names rules _ _) as [[v d]| |]; cbn [mbind outcome_bind]; [| |done].
  - destruct Hv as (Hfin & _ & Hall). intros n. apply acc_no_cycle.
    destruct (decide (n ∈ rules.*1)) as [Hn|Hn]; [by apply Hfin, Hall|].
    constructor. intros t (steps & Hs & _). destruct Hn. apply list_elem_of_fmap.
    exists (n, steps). split; [done|]. by apply sub_rule_elem.
  - destruct Hv as (-> & n & Hn). split; [done|]. intros Ha. by apply (Ha n).
Qed.

Lemma sub_rule_graph_acyclic rules : validate_sub_rule_graph rules = Ok tt -> acyclic rules.
Proof. intros Hv. pose proof (sub_rule_graph_spec rules) as Hs. by rewrite Hv in Hs. Qed.

(** [validate_sub_rule_graph] accepts a set of sub-rules exactly when no branch can
    reach itself through SUB-RULE references, rejects it otherwise, and its recursion
    always ends. *)
Theorem sub_rule_graph_validated rules :
  (validate_sub_rule_graph rules = Ok tt <-> acyclic rules)
  /\ (validate_sub_rule_graph rules = Err InvalidInput <-> ~ acyclic rules).
Proof.
  pose proof (sub_rule_graph_spec rules) as Hs. destruct (validate_sub_rule_graph rules) as [[]|err|]; [| |done].
  - split; [done|]. split; [done|tauto].
  - destruct Hs as [-> Hs]. split; [split; [done|tauto]|done].
Qed.

(** ** The walk without the keyword cache *)

Definition pure_probe {R} (judge : RouteStep -> verdict R) (step : RouteStep) (_ : unit) : verdict R * unit :=
  (judge step, tt).

Definition pwalk {R} rules (judge : RouteStep -> verdict R) result fuel steps disabled depth : StepFlow R :=
  (walk rules (pure_probe judge) result fuel steps disabled depth tt).1.

Definition branches_in (P : RouteStep -> Prop) (rules : list (string * list RouteStep)) : Prop :=
  forall e s, e ∈ rules -> s ∈ e.2 -> P s.

Section pure_walk.
  Context {R S : Type} (rules : list (string * list RouteStep)) (P : RouteStep -> Prop) (I : S -> Prop).
  Context (probe : RouteStep -> S -> verdict R * S) (judge : RouteStep -> verdict R) (result : option nat -> RouteStep -> R).
  Hypothesis probe_pure : forall step i, P step -> I i -> exists i', probe step i = (judge step, i') /\ I i'.
  Hypothesis branches_P : branches_in P rules.

Lemma walk_loop_pure call (pcall : list RouteStep -> unit -> StepFlow R * unit) disabled depth steps index i :
  (forall branch i, (forall s, s ∈ branch -> P s) -> I i -> exists i', call branch i = ((pcall branch tt).1, i') /\ I i') ->
  (forall s, s ∈ steps -> P s) -> I i ->
  exists i', walk_loop rules probe result call disabled depth steps index i
             = ((walk_loop rules (pure_probe judge) result pcall disabled depth steps index tt).1, i') /\ I i'.
Proof using probe_pure branches_P.
  intros Hcall. revert index i. induction steps as [|s steps IH]; intros index i HP HI; [by exists i|].
  assert (Hrest : forall i, I i -> exists i', walk_loop rules probe result call disabled depth steps (Datatypes.S index) i
      = ((walk_loop rules (pure_probe judge) result pcall disabled depth steps (Datatypes.S index) tt).1, i') /\ I i').
  { intros i' HI'. apply IH; [|done]. intros s' Hs'. apply HP. by right. }
  cbn [walk_loop]. destruct (is_disabled disabled index); [by apply Hrest|].
  destruct (probe_pure s i ltac:(apply HP; left) HI) as (i1 & E1 & HI1). rewrite E1. unfold pure_probe at 1.
  destruct (judge s) as [| |r]; [by apply Hrest| |by exists i1].
  destruct (rs_action s) as [| | | | |name]; try (by exists i1); try (by apply Hrest).
  - destruct (0 <? depth)%nat; [by exists i1|by apply Hrest].
  - destruct (sub_rule rules name) as [branch|] eqn:Eb; [|by apply Hrest].
    destruct (Hcall branch i1) as (i2 & E2 & HI2); [|done|].
    { intros s' Hs'. apply (branches_P (name, branch)); [by apply sub_rule_elem|done]. }
    rewrite E2. destruct (pcall branch tt) as [[r| |] []]; cbn [fst]; [by exists i2| |by apply Hrest].
    destruct (depth =? 0)%nat; [by apply Hrest|by exists i2].
Qed.

Lemma walk_pure fuel steps disabled depth i :
  (forall s, s ∈ steps -> P s) -> I i ->
  exists i', walk rules probe result fuel steps disabled depth i
             = (pwalk rules judge result fuel steps disabled depth, i') /\ I i'.
Proof using probe_pure branches_P.
  unfold pwalk. revert steps disabled depth i. induction fuel as [|fuel IH]; intros steps disabled depth i HP HI; cbn [walk].
  - by exists i.
  - destruct (length rules <? depth)%nat; [by exists i|]. apply walk_loop_pure; [|done|done].
    intros branch i' Hb Hi'. by apply IH.
Qed.
End pure_walk.

(** ** Ordered evaluation, as a relation without a depth bound *)

Section eval.
  Context {R : Type} (rules : list (string * list RouteStep)) (judge : RouteStep -> verdict R) (result : option nat -> RouteStep -> R).

(** [route_eval main disabled index steps flow]: evaluating [steps], numbered from
    [index], in the main list or in a branch, ends with [flow]. *)
Inductive route_eval : bool -> option (list bool) -> nat -> list RouteStep -> StepFlow R -> Prop :=
| ev_nil main dis n : route_eval main dis n [] SfExhausted
| ev_disabled main dis n s l f :
    is_disabled dis n = true -> route_eval main dis (S n) l f -> route_eval main dis n (s :: l) f
| ev_skip main dis n s l f :
    is_disabled dis n = false -> judge s = VSkip -> route_eval main dis (S n) l f -> route_eval main dis n (s :: l) f
| ev_stop main dis n s l r :
    is_disabled dis n = false -> judge s = VStop r -> route_eval main dis n (s :: l) (SfResult r)
| ev_final main dis n s l :
    is_disabled dis n = false -> judge s = VHit ->
    match rs_action s with ADirect | ABlock | AGroup _ => True | _ => False end ->
    route_eval main dis n (s :: l) (SfResult (result (hit_index dis n) s))
| ev_pass_rule main dis n s l f :
    is_disabled dis n = false -> judge s = VHit -> rs_action s = APassRule ->
    route_eval main dis (S n) l f -> route_eval main dis n (s :: l) f
| ev_pass_main dis n s l f :
    is_disabled dis n = false -> judge s = VHit -> rs_action s = APass ->
    route_eval true dis (S n) l f -> route_eval true dis n (s :: l) f
| ev_pass_branch dis n s l :
    is_disabled dis n = false -> judge s = VHit -> rs_action s = APass ->
    route_eval false dis n (s :: l) SfContinueMain
| ev_unknown main dis n s l f name :
    is_disabled dis n = false -> judge s = VHit -> rs_action s = ASubRule name -> sub_rule rules name = None ->
    route_eval main dis (S n) l f -> route_eval main dis n (s :: l) f
| ev_branch_result main dis n s l name branch r :
    is_disabled dis n = false -> judge s = VHit -> rs_action s = ASubRule name -> sub_rule rules name = Some branch ->
    route_eval false None 0 branch (SfResult r) -> route_eval main dis n (s :: l) (SfResult r)
| ev_branch_exhausted main dis n s l name branch f :
    is_disabled dis n = false -> judge s = VHit -> rs_action s = ASubRule name -> sub_rule rules name = Some branch ->
    route_eval false None 0 branch SfExhausted -> route_eval main dis (S n) l f -> route_eval main dis n (s :: l) f
| ev_branch_pass_main dis n s l name branch f :
    is_disabled dis n = false -> judge s = VHit -> rs_action s = ASubRule name -> sub_rule rules name = Some branch ->
    route_eval false None 0 branch SfContinueMain -> route_eval true dis (S n) l f -> route_eval true dis n (s :: l) f
| ev_branch_pass_branch dis n s l name branch :
    is_disabled dis n = false -> judge s = VHit -> rs_action s = ASubRule name -> sub_rule rules name = Some branch ->
    route_eval false None 0 branch SfContinueMain -> route_eval false dis n (s :: l) SfContinueMain.

Lemma route_eval_det main dis n l f : route_eval main dis n l f -> forall f', route_eval main dis n l f' -> f' = f.
Proof.
  induction 1; intros f' Hf'; inversion Hf'; subst;
    repeat match goal with
    | E : rs_action ?s = _, H : match rs_action ?s with _ => _ end |- _ => rewrite E in H; contradiction
    | E : ?x = ?y, E' : ?x = ?z |- _ => assert (y = z) by congruence; clear E'; simplify_eq
    | IH : forall f', route_eval _ _ _ ?b f' -> f' = _, Hb : route_eval _ _ _ ?b _ |- _ =>
      apply IH in Hb; first [discriminate Hb | injection Hb as ->]
    end; try done; eauto.
Qed.

Lemma walk_loop_eval (pcall : list RouteStep -> unit -> StepFlow R * unit) dis depth l n :
  (forall name branch, name ∈ targets l -> sub_rule rules name = Some branch ->
     route_eval false None 0 branch (pcall branch tt).1) ->
  route_eval (depth =? 0)%nat dis n l (walk_loop rules (pure_probe judge) result pcall dis depth l n tt).1.
Proof.
  revert n. induction l as [|s l IH]; intros n Hcall; [constructor|].
  assert (Hrest : forall n, route_eval (depth =? 0)%nat dis n l (walk_loop rules (pure_probe judge) result pcall dis depth l n tt).1).
  { intros n'. apply IH. intros name branch Hin. apply Hcall. unfold targets. cbn.
    by destruct (rs_action s); try (right). }
  cbn [walk_loop]. destruct (is_disabled dis n) eqn:Ed; [by apply ev_disabled|].
  unfold pure_probe at 1. destruct (judge s) as [| |r] eqn:Ej; [by apply ev_skip| |by apply ev_stop].
  destruct (rs_action s) as [| | | | |name] eqn:Ea; cbn [fst]; try (apply ev_final; [done|done|by rewrite Ea]).
  - destruct (Nat.eqb_spec depth 0) as [E0|E0]; destruct (Nat.ltb_spec 0 depth) as [E1|E1]; try lia.
    + by apply ev_pass_main.
    + by apply ev_pass_branch.
  - by apply ev_pass_rule.
  - destruct (sub_rule rules name) as [branch|] eqn:Eb; [|by eapply ev_unknown].
    assert (Hb : route_eval false None 0 branch (pcall branch tt).1).
    { apply (Hcall name); [|done]. unfold targets. cbn. rewrite Ea. left. }
    destruct (pcall branch tt) as [[r| |] []]; cbn [fst] in *.
    + by eapply ev_branch_result.
    + destruct (depth =? 0)%nat; [by eapply ev_branch_pass_main|by eapply ev_branch_pass_branch].
    + by eapply ev_branch_exhausted.
Qed.

(** The names on the call chain are distinct, so the depth guard never fires. *)
Lemma pwalk_eval (chain : gset string) fuel steps dis depth :
  acyclic rules -> size chain = depth -> chain ⊆ (list_to_set rules.*1 : gset string) ->
  (fuel + depth = S (length rules))%nat ->
  (forall v t, v ∈ chain -> t ∈ targets steps -> tc (edge rules) v t) ->
  route_eval (depth =? 0)%nat dis 0 steps (pwalk rules judge result fuel steps dis depth).
Proof.
  intros Hac. revert chain steps dis depth. induction fuel as [|fuel IH]; intros chain steps dis depth Hsize Hsub Hfuel Hreach.
  - apply subseteq_size in Hsub. pose proof (size_names rules). lia.
  - unfold pwalk. cbn [walk]. destruct (Nat.ltb_spec (length rules) depth); [lia|].
    apply walk_loop_eval. intros name branch Hin Hb.
    assert (Hnew : name ∉ chain) by (intros Hc; apply (Hac name), Hreach; done).
    apply (IH ({[name]} ∪ chain) branch None (S depth)); [|pose proof (sub_rule_name rules name branch Hb); set_solver|lia|].
    + rewrite size_union, size_singleton by set_solver. lia.
    + intros v t Hv Ht. assert (He : edge rules name t) by (by exists branch).
      apply elem_of_union in Hv as [->%elem_of_singleton|Hv]; [by apply tc_once|]. eapply tc_r; [by apply Hreach|done].
Qed.
End eval.

(** ** First-match semantics of an engine *)

Section first_match.
Context `{IpNetLib, !RouteLib, !RulesetIndexApi, NetText, StrCase}.

(** Runtime switches applied one after the other *)
Definition toggles (e : RouteEngine) (ops : list (nat * bool)) : RouteEngine :=
  foldl (fun e op => (set_rule_disabled e op.1 op.2).2) e ops.

(** A rule applies when its text matches the flow, as far as the flow is known. *)
Definition text_judge (e : RouteEngine) (c : FlowContext) (step : RouteStep) : verdict DetailedRouteDecision :=
  let i := MatchInput_new c in
  let env := mkEnv (re_extra_cidrs e) (re_rulesets e) PreparedMatchers_default in
  if decide (direct_state env true (is_some (mi_resolved_ip i) || no_resolve (rs_options step)) (rs_matcher step) i = Matched)
  then VHit else VSkip.

(** What [new]/[with_rulesets] establish and the switches keep *)
Definition engine_ok (plan : RoutePlan) (e : RouteEngine) : Prop :=
  re_plan e = plan /\ compile plan = Ok (re_prepared e) /\ length (re_disabled e) = length (rp_steps plan).

Lemma RouteEngine_with_ok plan rulesets e : RouteEngine_with plan rulesets = Ok e -> engine_ok plan e.
Proof.
  unfold RouteEngine_with. intros (p & Hp & He)%bind_Ok. injection He as <-.
  split; [done|]. split; [done|]. cbn. apply length_replicate.
Qed.

Lemma toggles_ok plan e ops :
  engine_ok plan e ->
  engine_ok plan (toggles e ops) /\ re_prepared (toggles e ops) = re_prepared e
  /\ re_rulesets (toggles e ops) = re_rulesets e /\ re_extra_cidrs (toggles e ops) = re_extra_cidrs e.
Proof.
  unfold toggles. revert e. induction ops as [|[k b] ops IH]; intros e He; [done|]. cbn [foldl].
  unfold set_rule_disabled. cbn [fst snd]. destruct (length _ <=? k)%nat; [by apply IH|]. cbn [snd].
  destruct He as (E1 & E2 & E3).
  destruct (IH (mkEngine (re_plan e) (re_extra_cidrs e) (re_rulesets e) (re_prepared e) (<[k := b]> (re_disabled e)))) as (I1 & I2 & I3 & I4);
    [|done]. split; [done|]. split; [done|]. cbn. by rewrite length_insert.
Qed.

Lemma in_plan_branches plan : branches_in (in_plan plan) (rp_sub_rules plan).
Proof. intros e s He Hs. right. by exists e. Qed.

(** Evaluation of the engine's main list is the cache-free walk. *)
Lemma evaluate_pwalk plan e c :
  engine_ok plan e ->
  let i := MatchInput_new c in
  let dr := is_some (mi_resolved_ip i) in
  (evaluate_steps e (rp_steps plan) i true dr (Some (re_disabled e)) 0).1
  = pwalk (rp_sub_rules plan)
      (fun s => if decide (pure_state (engine_env e) true (dr || no_resolve (rs_options s)) (rs_matcher s) i = Matched)
                then VHit else VSkip)
      detailed_hit (S (length (rp_sub_rules plan))) (rp_steps plan) (Some (re_disabled e)) 0.
Proof.
  intros (E1 & _) i dr. unfold evaluate_steps. rewrite E1, Nat.sub_0_r.
  destruct (walk_pure (rp_sub_rules plan) (in_plan plan)
    (fun i' => cache_ok (re_prepared e) i' /\ uncached i' = uncached i) (evaluate_probe e true dr)
    (fun s => if decide (pure_state (engine_env e) true (dr || no_resolve (rs_options s)) (rs_matcher s) i = Matched) then VHit else VSkip)
    detailed_hit) with (fuel := S (length (rp_sub_rules plan))) (steps := rp_steps plan)
    (disabled := Some (re_disabled e)) (depth := 0%nat) (i := i) as (i' & E & _).
  - intros step i1 _ [Hc Hu]. unfold evaluate_probe, step_matches.
    destruct (step_match_state_pure (engine_env e) true (rs_matcher step) (dr || no_resolve (rs_options step)) i1 Hc) as (Es & Hc' & Hu').
    destruct (step_match_state _ _ _ _ i1) as [s i2]. cbn in *. subst s. exists i2. split; [|split; [done|congruence]].
    rewrite (pure_state_uncached _ _ _ _ i i1 Hu). f_equal. by case_bool_decide; case_decide.
  - apply in_plan_branches.
  - intros s Hs. by left.
  - split; [apply cache_ok_new|done].
  - by rewrite E.
Qed.

Lemma pwalk_ext {R} rules (P : RouteStep -> Prop) (j j' : RouteStep -> verdict R) result fuel steps dis depth :
  (forall s, P s -> j s = j' s) -> branches_in P rules -> (forall s, s ∈ steps -> P s) ->
  pwalk rules j result fuel steps dis depth = pwalk rules j' result fuel steps dis depth.
Proof.
  intros Hj Hb Hs. unfold pwalk at 1.
  destruct (walk_pure rules P (fun _ : unit => True) (pure_probe j) j' result) with (fuel := fuel) (steps := steps)
    (disabled := dis) (depth := depth) (i := tt) as (i' & E & _); try done.
  - intros step [] Hp _. exists tt. unfold pure_probe. by rewrite Hj.
  - by rewrite E.
Qed.

(** [C1] Routing is ordered first-match evaluation of the rules' text.  For a validated
    plan, and whatever rules are switched off at run time, evaluating the main list under
    the big-step semantics (SUB-RULE branches, PASS and PASS-RULE, no depth bound, no
    tables, no keyword cache) has exactly one result, and [decide_detailed] returns it, or
    the implicit DIRECT when the list is exhausted: the engine always terminates and its
    depth guard never changes a decision. *)
Theorem route_decide_first_match plan rulesets e0 ops c :
  RouteEngine_with plan rulesets = Ok e0 -> validate_sub_rule_graph (rp_sub_rules plan) = Ok tt ->
  automaton_built (re_prepared e0) -> no_collision plan ->
  let e := toggles e0 ops in
  exists flow,
    (forall f, route_eval (rp_sub_rules plan) (text_judge e c) detailed_hit true (Some (re_disabled e)) 0 (rp_steps plan) f
               <-> f = flow)
    /\ decide_detailed e c = match flow with SfResult d => d | _ => fallback_decision end.
Proof.
  intros He0 Hv Hauto Hn e. pose proof (RouteEngine_with_ok plan rulesets e0 He0) as Hok0.
  destruct (toggles_ok plan e0 ops Hok0) as (Hok & Ep & Er & Ex). fold e in Hok, Ep, Er, Ex.
  pose proof (sub_rule_graph_acyclic (rp_sub_rules plan) Hv) as Hac.
  set (flow := pwalk (rp_sub_rules plan) (text_judge e c) detailed_hit (S (length (rp_sub_rules plan))) (rp_steps plan) (Some (re_disabled e)) 0).
  assert (Hflow : route_eval (rp_sub_rules plan) (text_judge e c) detailed_hit true (Some (re_disabled e)) 0 (rp_steps plan) flow).
  { apply (pwalk_eval _ _ _ ∅ _ _ _ 0%nat Hac); [apply size_empty|set_solver|lia|set_solver]. }
  exists flow. split.
  - intros f. split; [intros Hf; by eapply route_eval_det|by intros ->].
  - unfold decide_detailed. destruct Hok as (E1 & E2 & E3). rewrite E1, (evaluate_pwalk plan e c) by (by split).
    rewrite (pwalk_ext _ (in_plan plan) _ (text_judge e c)); [done| |apply in_plan_branches|by left].
    intros s Hs. unfold text_judge.
    assert (Eq : pure_state (engine_env e) true (is_some (mi_resolved_ip (MatchInput_new c)) || no_resolve (rs_options s)) (rs_matcher s) (MatchInput_new c)
      = direct_state (mkEnv (re_extra_cidrs e) (re_rulesets e) PreparedMatchers_default) true (is_some (mi_resolved_ip (MatchInput_new c)) || no_resolve (rs_options s)) (rs_matcher s) (MatchInput_new c)).
    { apply tree_state_ext. intros dr m Hm. apply (leaf_direct plan); try done; [by rewrite Ep|].
      by apply (in_plan_leaves plan s). }
    by rewrite Eq.
Qed.
End first_match.

(** ** Switching rules off *)

(** Two results that differ at most in the reported index *)
Definition same_flow {R} (eqr : R -> R -> Prop) (f g : StepFlow R) : Prop :=
  match f, g with
  | SfResult a, SfResult b => eqr a b
  | SfContinueMain, SfContinueMain | SfExhausted, SfExhausted => True
  | _, _ => False
  end.

Section disable.
  Context {R S : Type} (rules : list (string * list RouteStep)).
  Context (probe : RouteStep -> S -> verdict R * S) (result : option nat -> RouteStep -> R).
  Context (eqr : R -> R -> Prop) `{!Reflexive eqr}.
  Hypothesis result_index : forall i j s, eqr (result i s) (result j s).
  Variable call : list RouteStep -> S -> StepFlow R * S.
  Variable depth : nat.

#[local] Ltac flow_cases :=
  repeat first [ done | reflexivity | progress cbn [same_flow fst]
               | match goal with |- context [match ?x with _ => _ end] => destruct x end ]; eauto.

Lemma walk_loop_shift flags flags' l n i :
  (forall m, (n <= m)%nat -> flags !! Datatypes.S m = flags' !! m) ->
  same_flow eqr (walk_loop rules probe result call (Some flags) depth l (Datatypes.S n) i).1
                (walk_loop rules probe result call (Some flags') depth l n i).1.
Proof using All.
  revert n i. induction l as [|s l IH]; intros n i Hf; [done|]. cbn [walk_loop].
  assert (Hrest : forall i, same_flow eqr
    (walk_loop rules probe result call (Some flags) depth l (Datatypes.S (Datatypes.S n)) i).1
    (walk_loop rules probe result call (Some flags') depth l (Datatypes.S n) i).1).
  { intros i'. apply IH. intros m Hm. apply Hf. lia. }
  replace (is_disabled (Some flags) (Datatypes.S n)) with (is_disabled (Some flags') n)
    by (cbn; by rewrite Hf).
  flow_cases.
Qed.

Lemma walk_loop_delete flags l n k i :
  is_disabled (Some flags) (n + k) = true -> (k < length l)%nat -> (n + k < length flags)%nat ->
  same_flow eqr (walk_loop rules probe result call (Some flags) depth l n i).1
                (walk_loop rules probe result call (Some (delete (n + k)%nat flags)) depth (delete k l) n i).1.
Proof using All.
  revert n k i. induction l as [|s l IH]; intros n k i Hd Hk Hlen; cbn in Hk; [lia|].
  destruct k as [|k].
  - rewrite Nat.add_0_r in *. cbn [walk_loop delete list_delete]. rewrite Hd.
    apply walk_loop_shift. intros m Hm. by rewrite list_lookup_delete_ge.
  - replace (n + Datatypes.S k)%nat with (Datatypes.S n + k)%nat in * by lia.
    assert (Hrest : forall i, same_flow eqr (walk_loop rules probe result call (Some flags) depth l (Datatypes.S n) i).1
      (walk_loop rules probe result call (Some (delete (Datatypes.S n + k)%nat flags)) depth (delete k l) (Datatypes.S n) i).1).
    { intros i'. apply IH; [done|lia|done]. }
    cbn [walk_loop delete list_delete]. fold (delete k l).
    replace (is_disabled (Some (delete (Datatypes.S n + k)%nat flags)) n) with (is_disabled (Some flags) n)
      by (cbn [is_disabled]; by rewrite list_lookup_delete_lt by lia).
    flow_cases.
Qed.
End disable.

Section switches.
Context `{IpNetLib, !RouteLib, !RulesetIndexApi, NetText, StrCase}.

(** The engine without its [i]-th main rule *)
Definition remove_rule (e : RouteEngine) (i : nat) : RouteEngine :=
  mkEngine (mkPlan (delete i (rp_steps (re_plan e))) (rp_sub_rules (re_plan e))) (re_extra_cidrs e) (re_rulesets e)
           (re_prepared e) (delete i (re_disabled e)).

(** What [route_decide] reports of a decision *)
Definition same_report (a b : DetailedRouteDecision) : Prop :=
  dd_decision a = dd_decision b /\ dd_matcher a = dd_matcher b /\ rh_source (dd_hit a) = rh_source (dd_hit b).

#[local] Instance same_report_refl : Reflexive same_report.
Proof. by intros d. Qed.

Lemma rh_source_describe i step : rh_source (describe_route_step i step) = rs_source step.
Proof. unfold describe_route_step. destruct (match rs_action step with ASubRule _ => _ | _ => _ end). done. Qed.

(** Switching a rule off at run time is removing it: with rule [i] disabled, every
    flow is decided (same decision, matcher kind and source line) as by the engine whose
    rule list lacks rule [i]; switching it on again restores the engine, and an index
    beyond the list is refused without effect. *)
Theorem route_disable_removes plan rulesets e0 ops i :
  RouteEngine_with plan rulesets = Ok e0 ->
  let e := toggles e0 ops in
  match set_rule_disabled e i true with
  | (true, e') =>
    (i < length (rp_steps plan))%nat /\ rule_disabled e' i = true
    /\ (forall c, route_decide e' c = route_decide (remove_rule e' i) c)
    /\ (rule_disabled e i = false -> (set_rule_disabled e' i false).2 = e)
  | (false, e') => (length (rp_steps plan) <= i)%nat /\ e' = e
  end.
Proof.
  intros He0 e. destruct (toggles_ok plan e0 ops (RouteEngine_with_ok plan rulesets e0 He0)) as ((E1 & E2 & E3) & _).
  fold e in E1, E2, E3. unfold set_rule_disabled at 1. rewrite E1.
  destruct (Nat.leb_spec (length (rp_steps plan)) i) as [Hi|Hi]; [done|].
  set (e' := mkEngine _ _ _ _ _). assert (Hlen : length (re_disabled e') = length (rp_steps plan)) by (cbn; by rewrite length_insert).
  assert (Hdis : re_disabled e' !! i = Some true) by (cbn; apply list_lookup_insert_eq; lia).
  split; [done|]. split; [unfold rule_disabled; by rewrite Hdis|]. split.
  - intros c. unfold route_decide, decide_detailed. cbn [remove_rule re_plan rp_steps re_disabled].
    set (inp := MatchInput_new c). set (dr := is_some (mi_resolved_ip inp)).
    assert (Hw : same_flow same_report
      (evaluate_steps e' (rp_steps (re_plan e')) inp true dr (Some (re_disabled e')) 0).1
      (evaluate_steps (remove_rule e' i) (delete i (rp_steps (re_plan e'))) inp true dr (Some (delete i (re_disabled e'))) 0).1).
    { unfold evaluate_steps. cbn [remove_rule re_plan rp_sub_rules]. rewrite Nat.sub_0_r. cbn [walk].
      destruct (Nat.ltb_spec (length (rp_sub_rules (re_plan e'))) 0) as [|_]; [lia|].
      apply (walk_loop_delete (rp_sub_rules (re_plan e')) (evaluate_probe e' true dr) detailed_hit same_report)
        with (n := 0%nat) (k := i); [|by cbn [is_disabled Nat.add]; rewrite Hdis|done|cbn [Nat.add]; lia].
      intros i1 i2 s. unfold same_report. cbn. by rewrite !rh_source_describe. }
    revert Hw. generalize (evaluate_steps e' (rp_steps (re_plan e')) inp true dr (Some (re_disabled e')) 0).
    generalize (evaluate_steps (remove_rule e' i) (delete i (rp_steps (re_plan e'))) inp true dr (Some (delete i (re_disabled e'))) 0).
    intros [[d2| |] ?] [[d1| |] ?]; cbn; try done. by intros (-> & -> & ->).
  - intros Hon. unfold set_rule_disabled. cbn [e' re_plan re_disabled re_extra_cidrs re_rulesets re_prepared].
    destruct (Nat.leb_spec (length (rp_steps plan)) i) as [|_]; [lia|]. cbn [snd]. rewrite list_insert_insert_eq.
    destruct e as [pl ex rs pp dis]. cbn in *. subst pl. f_equal. apply list_insert_id.
    unfold rule_disabled in Hon. cbn in Hon. destruct (dis !! i) as [b|] eqn:Eb; [by cbn in Hon; subst b|].
    apply lookup_ge_None in Eb. lia.
Qed.
End switches.

(** ** The reported rule *)

Lemma rh_index_describe i step : rh_index (describe_route_step i step) = i.
Proof. unfold describe_route_step. destruct (match rs_action step with ASubRule _ => _ | _ => _ end). done. Qed.

(** A result names either no main rule or the enabled main rule it comes from. *)
Definition reported (dis : option (list bool)) (n : nat) (l : list RouteStep) (d : DetailedRouteDecision) : Prop :=
  rh_index (dd_hit d) = None
  \/ exists k s, dis <> None /\ l !! k = Some s /\ is_disabled dis (n + k) = false /\ d = detailed_hit (Some (n + k)%nat) s.

Section reported_rule.
  Context {S : Type} (rules : list (string * list RouteStep)) (probe : RouteStep -> S -> verdict DetailedRouteDecision * S).
  Hypothesis no_stop : forall s i r, (probe s i).1 <> VStop r.

Lemma reported_later dis n s l d : reported dis (Datatypes.S n) l d -> reported dis n (s :: l) d.
Proof using.
  intros [Hn|(k & x & Hdis & Hk & Hd & ->)]; [by left|]. right. exists (Datatypes.S k), x.
  replace (n + Datatypes.S k)%nat with (Datatypes.S n + k)%nat by lia. done.
Qed.

Lemma walk_loop_reported call dis depth l n i d :
  (forall branch i d, (call branch i).1 = SfResult d -> rh_index (dd_hit d) = None) ->
  (walk_loop rules probe detailed_hit call dis depth l n i).1 = SfResult d -> reported dis n l d.
Proof using no_stop.
  intros Hcall. revert n i. induction l as [|s l IH]; intros n i Hw; [done|]. cbn [walk_loop] in Hw.
  destruct (is_disabled dis n) eqn:Ed; [by eapply reported_later, IH|].
  pose proof (no_stop s i) as Hns. destruct (probe s i) as [[| |r] i1]; [by eapply reported_later, IH| |by destruct (Hns r)].
  assert (Hfin : (SfResult (detailed_hit (hit_index dis n) s) : StepFlow DetailedRouteDecision) = SfResult d -> reported dis n (s :: l) d).
  { intros [= <-]. destruct dis as [flags|]; cbn [hit_index].
    - right. exists 0%nat, s. rewrite Nat.add_0_r. done.
    - left. cbn. apply rh_index_describe. }
  destruct (rs_action s) as [| | | | |name]; try (by apply Hfin); try (by eapply reported_later, IH).
  - destruct (0 <? depth)%nat; [done|by eapply reported_later, IH].
  - destruct (sub_rule rules name) as [branch|]; [|by eapply reported_later, IH].
    pose proof (Hcall branch i1) as Hc. destruct (call branch i1) as [[r| |] i2]; [| |by eapply reported_later, IH].
    + left. apply Hc. done.
    + destruct (depth =? 0)%nat; [by eapply reported_later, IH|done].
Qed.

Lemma walk_reported fuel steps dis depth i d :
  (walk rules probe detailed_hit fuel steps dis depth i).1 = SfResult d -> reported dis 0 steps d.
Proof using no_stop.
  revert steps dis depth i d. induction fuel as [|fuel IH]; intros steps dis depth i d Hw; [done|].
  cbn [walk] in Hw. destruct (length rules <? depth)%nat; [done|]. eapply walk_loop_reported; [|exact Hw].
  intros branch i' d' Hb. destruct (IH branch None _ _ _ Hb) as [Hn|(k & s & Hd & _)]; [done|by destruct Hd].
Qed.
End reported_rule.

(** The rule a connection reports is the rule the API lists: when a decision carries
    an index, the descriptor it carries is the enabled entry of [rule_descriptions] at
    that index. *)
Theorem route_hit_is_listed `{IpNetLib, !RouteLib, !RulesetIndexApi, NetText, StrCase} e c i :
  rh_index (dd_hit (decide_detailed e c)) = Some i ->
  rule_descriptions e !! i = Some (dd_hit (decide_detailed e c), false).
Proof.
  unfold decide_detailed at 1 2. set (inp := MatchInput_new c).
  destruct (evaluate_steps e (rp_steps (re_plan e)) inp true (is_some (mi_resolved_ip inp)) (Some (re_disabled e)) 0) as [f i'] eqn:E.
  cbn [fst]. destruct f as [d| |]; [|done|done]. intros Hi.
  assert (Hw : reported (Some (re_disabled e)) 0 (rp_steps (re_plan e)) d).
  { eapply walk_reported; [|unfold evaluate_steps in E; by rewrite E].
    intros s i1 r. unfold evaluate_probe. destruct (step_matches _ _ _ _ i1) as [[] i2]; done. }
  destruct Hw as [Hn|(k & s & _ & Hk & Hd & ->)]; [congruence|]. cbn [Nat.add] in *.
  cbn [detailed_hit dd_hit] in *. rewrite rh_index_describe in Hi. injection Hi as <-.
  unfold rule_descriptions. rewrite list_lookup_imap, Hk. cbn. unfold rule_disabled. cbn in Hd. by rewrite Hd.
Qed.

(** ** Witnesses *)

Module RouteEngineWitness.
Import Concrete RouteConcrete.

Definition opts : RouteRuleOptions := mkOptions false false false.

(** A main list that branches into [apps], which passes mail on to the main list. *)
Definition branching_plan : RoutePlan :=
  mkPlan [mkStep (MNetwork "tcp") (ASubRule "apps") "r0" opts;
          mkStep (MSuffix "example.com") (AGroup "corp") "r1" opts;
          mkStep MAny (AGroup "proxy") "r2" opts]
         [("apps", [mkStep (MKeyword "mail") APass "s0" opts; mkStep (MPort 22) ADirect "s1" opts]);
          ("chat", [mkStep MAny (ASubRule "apps") "t0" opts])].

Definition mail : FlowContext := for_domain "Mail.Example.com" 25 NkTcp.

Lemma branching_validated : validate_sub_rule_graph (rp_sub_rules branching_plan) = Ok tt.
Proof. vm_compute. reflexivity. Qed.

Lemma branching_compiles :
  exists e, RouteEngine_with branching_plan None = Ok e /\ automaton_built (re_prepared e).
Proof.
  assert (Hrun : match RouteEngine_with branching_plan None with
                 | Ok e => is_some (keyword_automaton (re_prepared e)) | _ => false end = true) by (vm_compute; reflexivity).
  destruct (RouteEngine_with branching_plan None) as [e| |]; [|discriminate Hrun|discriminate Hrun].
  exists e. split; [done|]. intros _ E. rewrite E in Hrun. discriminate Hrun.
Qed.

Lemma branching_no_collision : no_collision branching_plan.
Proof.
  intros v Hd Hu. unfold domain_used, name_used in *.
  change (plan_leaves branching_plan) with
    [MNetwork "tcp"; MSuffix "example.com"; MAny; MKeyword "mail"; MPort 22; MAny] in *.
  set_solver.
Qed.

Lemma route_decide_first_match_witness :
  exists e, RouteEngine_with branching_plan None = Ok e
    /\ exists flow, route_eval (rp_sub_rules branching_plan) (text_judge (toggles e [(2%nat, true)]) mail) detailed_hit true
         (Some (re_disabled (toggles e [(2%nat, true)]))) 0 (rp_steps branching_plan) flow
       /\ decide_detailed (toggles e [(2%nat, true)]) mail = match flow with SfResult d => d | _ => fallback_decision end.
Proof.
  destruct branching_compiles as (e & He & Ha). exists e. split; [done|].
  destruct (route_decide_first_match branching_plan None e [(2%nat, true)] mail He branching_validated Ha branching_no_collision)
    as (flow & Hf & Hd).
  exists flow. split; [by apply Hf|exact Hd].
Defined.

Lemma route_disable_removes_witness :
  exists e, RouteEngine_with branching_plan None = Ok e
    /\ match set_rule_disabled e 1 true with
       | (true, e') => route_decide e' mail = route_decide (remove_rule e' 1) mail
       | (false, _) => False
       end.
Proof.
  destruct branching_compiles as (e & He & _). exists e. split; [done|].
  pose proof (route_disable_removes branching_plan None e [] 1 He) as Ht. cbn zeta in Ht.
  change (toggles e []) with e in Ht. destruct (set_rule_disabled e 1 true) as [[] e'].
  - exact (proj1 (proj2 (proj2 Ht)) mail).
  - destruct Ht as [Hl _]. cbn in Hl. lia.
Defined.

Definition branching_run : bool :=
  match RouteEngine_with branching_plan None with
  | Ok e => match rh_index (dd_hit (decide_detailed e mail)) with Some 1%nat => true | _ => false end
  | _ => false
  end.

Lemma route_hit_is_listed_witness :
  exists e, RouteEngine_with branching_plan None = Ok e
    /\ rule_descriptions e !! 1%nat = Some (dd_hit (decide_detailed e mail), false).
Proof.
  assert (Hrun : branching_run = true) by (vm_compute; reflexivity). unfold branching_run in Hrun.
  destruct (RouteEngine_with branching_plan None) as [e| |]; [|discriminate Hrun|discriminate Hrun].
  exists e. split; [done|]. apply (route_hit_is_listed e mail 1).
  destruct (rh_index (dd_hit (decide_detailed e mail))) as [[|[|n]]|]; [discriminate Hrun|reflexivity|discriminate Hrun|discriminate Hrun].
Defined.
End RouteEngineWitness.
