(* ===== verification/RouteDeferral.v ===== *)
(** * The routing engine: lazily resolved metadata

    [needs_destination_ip] and [needs_process] let the runtime skip the DNS lookup and the
    process lookup of a flow.  The theorems state when skipping them is harmless: the
    three-valued states are a Kleene logic in which a definite answer does not change
    when more of the flow becomes known. *)

From stdpp Require Import base list gmap strings numbers option.
From S2P Require Import Prelude Text Net Instances RouteModel RouteMatch RouteInstances RouteSpec RouteEngine.

(** ** Definite states *)

(** [s'] is what [s] becomes when more is known. *)
Definition refines (s s' : MatchState) : Prop := match s with Deferred _ _ => True | _ => s' = s end.

(** A deferred state names something that is really missing. *)
Definition honest (pr dr : bool) (s : MatchState) : Prop :=
  match s with
  | Deferred p d => p || d = true /\ (p = true -> pr = false) /\ (d = true -> dr = false)
  | _ => True
  end.

Lemma honest_deferred pr dr p d :
  (p = true -> pr = false) -> (d = true -> dr = false) -> honest pr dr (deferred p d).
Proof. unfold deferred. intros. destruct (p || d) eqn:E; [|done]. by cbn. Qed.

Lemma honest_mono pr dr s : honest pr true s -> honest pr dr s.
Proof. destruct s as [| |p d]; [done|done|]. intros (E & Hp & Hd). split; [done|]. split; [done|]. by intros ?%Hd. Qed.

Lemma honest_bool_state pr dr b : honest pr dr (bool_state b).
Proof. by destruct b. Qed.

Section states.
Context (pr dr : bool).

Lemma and_states_spec l np nd : Forall (honest pr dr) l ->
  (np = true -> pr = false) -> (nd = true -> dr = false) ->
  honest pr dr (and_states l np nd)
  /\ (and_states l np nd = NotMatched <-> NotMatched ∈ l)
  /\ (and_states l np nd = Matched <-> np || nd = false /\ Forall (fun s => s = Matched) l).
Proof.
  intros Hl. revert np nd. induction Hl as [|s l Hs Hl IH]; intros np nd Hp Hd.
  - cbn. destruct (np || nd) eqn:E.
    + unfold deferred. rewrite E. cbn. split_and!; try done; (split; [done|]).
      * intros Hn. by apply elem_of_nil in Hn.
      * by intros [? _].
    + split_and!; try done. split; [done|]. intros Hn. by apply elem_of_nil in Hn.
  - destruct s as [| |p d]; cbn [and_states].
    + destruct (IH np nd Hp Hd) as (I1 & I2 & I3). split_and!; [done| |].
      * rewrite I2, elem_of_cons. naive_solver.
      * rewrite I3, Forall_cons_iff. naive_solver.
    + split_and!; [done| |].
      * split; [left|done].
      * split; [done|]. intros [_ Ha]. by apply Forall_cons_iff in Ha as [? _].
    + destruct Hs as (E & Hp' & Hd').
      destruct (IH (np || p) (nd || d)) as (I1 & I2 & I3); [destruct np; auto|destruct nd; auto|]. split_and!; [done| |].
      * rewrite I2, elem_of_cons. naive_solver.
      * rewrite I3, Forall_cons_iff. split; [|naive_solver].
        intros [E2 _]. destruct np, nd, p, d; discriminate.
Qed.

Lemma or_states_spec l np nd : Forall (honest pr dr) l ->
  (np = true -> pr = false) -> (nd = true -> dr = false) ->
  honest pr dr (or_states l np nd)
  /\ (or_states l np nd = Matched <-> Matched ∈ l)
  /\ (or_states l np nd = NotMatched <-> np || nd = false /\ Forall (fun s => s = NotMatched) l).
Proof.
  intros Hl. revert np nd. induction Hl as [|s l Hs Hl IH]; intros np nd Hp Hd.
  - cbn. unfold deferred. destruct (np || nd) eqn:E.
    + split_and!; try done; (split; [done|]).
      * intros Hn. by apply elem_of_nil in Hn.
      * by intros [? _].
    + split_and!; try done. split; [done|]. intros Hn. by apply elem_of_nil in Hn.
  - destruct s as [| |p d]; cbn [or_states].
    + split_and!; [done| |].
      * split; [left|done].
      * split; [done|]. intros [_ Ha]. by apply Forall_cons_iff in Ha as [? _].
    + destruct (IH np nd Hp Hd) as (I1 & I2 & I3). split_and!; [done| |].
      * rewrite I2, elem_of_cons. naive_solver.
      * rewrite I3, Forall_cons_iff. naive_solver.
    + destruct Hs as (E & Hp' & Hd').
      destruct (IH (np || p) (nd || d)) as (I1 & I2 & I3); [destruct np; auto|destruct nd; auto|]. split_and!; [done| |].
      * rewrite I2, elem_of_cons. naive_solver.
      * rewrite I3, Forall_cons_iff. split; [|naive_solver].
        intros [E2 _]. destruct np, nd, p, d; discriminate.
Qed.
End states.

Lemma elem_refines s l l' : Forall2 refines l l' -> s ∈ l -> (forall p d, s <> Deferred p d) -> s ∈ l'.
Proof.
  intros Hr Hs Hd. induction Hr as [|x y l l' Hxy _ IH]; [by apply elem_of_nil in Hs|].
  apply elem_of_cons in Hs as [->|Hs]; [|right; by apply IH].
  destruct x as [| |p d]; cbn in Hxy; [subst; left|subst; left|by destruct (Hd p d)].
Qed.

Lemma all_refines s l l' : Forall2 refines l l' -> (forall p d, s <> Deferred p d) ->
  Forall (fun x => x = s) l -> Forall (fun x => x = s) l'.
Proof.
  intros Hr Hs. induction Hr as [|x y l l' Hxy _ IH]; intros Ha; [done|]. apply Forall_cons_iff in Ha as [-> Ha].
  constructor; [|by apply IH]. destruct s as [| |p d]; [done|done|by destruct (Hs p d)].
Qed.

Lemma and_states_refines pr dr pr' dr' l l' :
  Forall (honest pr dr) l -> Forall (honest pr' dr') l' -> Forall2 refines l l' ->
  refines (and_states l false false) (and_states l' false false).
Proof.
  intros Hl Hl' Hr. destruct (and_states_spec pr dr l false false Hl) as (_ & A1 & A2); [done|done|].
  destruct (and_states_spec pr' dr' l' false false Hl') as (_ & B1 & B2); [done|done|].
  destruct (and_states l false false) as [| |p d] eqn:E; cbn; [| |done].
  - apply B2. split; [done|]. apply (all_refines _ l); [done|done|]. by apply A2.
  - apply B1. apply (elem_refines _ l); [done| |done]. by apply A1.
Qed.

Lemma or_states_refines pr dr pr' dr' l l' :
  Forall (honest pr dr) l -> Forall (honest pr' dr') l' -> Forall2 refines l l' ->
  refines (or_states l false false) (or_states l' false false).
Proof.
  intros Hl Hl' Hr. destruct (or_states_spec pr dr l false false Hl) as (_ & A1 & A2); [done|done|].
  destruct (or_states_spec pr' dr' l' false false Hl') as (_ & B1 & B2); [done|done|].
  destruct (or_states l false false) as [| |p d] eqn:E; cbn; [| |done].
  - apply B1. apply (elem_refines _ l); [done| |done]. by apply A1.
  - apply B2. split; [done|]. apply (all_refines _ l); [done|done|]. by apply A2.
Qed.

(** ** Lifting from the leaves to the tree of AND, OR, NOT *)

Fixpoint has_no_resolve (m : RouteMatcher) : bool :=
  match m with
  | MNoResolve _ => true
  | MAnd parts | MOr parts => existsb has_no_resolve parts
  | MNot part => has_no_resolve part
  | _ => false
  end.

Lemma tree_honest pr (f : bool -> RouteMatcher -> MatchState) m :
  (forall dr x, honest pr dr (f dr x)) -> forall dr, honest pr dr (tree_state f dr m).
Proof.
  intros Hf. revert m. apply (matcher_ind (fun m => forall dr, honest pr dr (tree_state f dr m))).
  - intros parts Hp dr. cbn. apply and_states_spec; [|done|done]. apply List.Forall_map.
    eapply List.Forall_impl; [|exact Hp]. auto.
  - intros parts Hp dr. cbn. apply or_states_spec; [|done|done]. apply List.Forall_map.
    eapply List.Forall_impl; [|exact Hp]. auto.
  - intros part Hp dr. cbn. specialize (Hp dr). by destruct (tree_state f dr part).
  - intros part Hp dr. cbn. apply honest_mono, Hp.
  - intros m Hm dr. destruct m; try discriminate Hm; apply Hf.
Qed.

(** [g] knows more than [f]: at every leaf it refines it, with [f] evaluated at [dr] and
    [g] at [dr || up].  A NoResolve part is evaluated at [true] on both sides. *)
Lemma tree_refines pr pr' up (f g : bool -> RouteMatcher -> MatchState) m :
  (forall dr x, honest pr dr (f dr x)) -> (forall dr x, honest pr' dr (g dr x)) ->
  forall dr,
  (forall x, is_leaf x = true -> refines (f dr x) (g (dr || up) x)) ->
  (has_no_resolve m = false \/ forall x, is_leaf x = true -> refines (f true x) (g true x)) ->
  refines (tree_state f dr m) (tree_state g (dr || up) m).
Proof.
  intros Hf Hg. revert m. apply (matcher_ind (fun m => forall dr, _ -> _ -> refines (tree_state f dr m) (tree_state g (dr || up) m))).
  1,2: intros parts Hp dr Hx Hn; cbn;
    (assert (Hparts : Forall2 refines (map (tree_state f dr) parts) (map (tree_state g (dr || up)) parts));
     [ clear -Hp Hx Hn; cbn in Hn; induction Hp as [|m l Hm Hl IH]; cbn in *; constructor;
       [ apply Hm; [done|]; destruct Hn as [Hn|Hn]; [left; by apply orb_false_iff in Hn as [-> _]|by right]
       | apply IH; destruct Hn as [Hn|Hn]; [left; by apply orb_false_iff in Hn as [_ ->]|by right] ]
     | ]).
  - eapply (and_states_refines pr dr pr' (dr || up)); [| |done]; apply List.Forall_map; apply List.Forall_forall; intros;
      by apply tree_honest.
  - eapply (or_states_refines pr dr pr' (dr || up)); [| |done]; apply List.Forall_map; apply List.Forall_forall; intros;
      by apply tree_honest.
  - intros part Hp dr Hx Hn. cbn in *. specialize (Hp dr Hx Hn).
    destruct (tree_state f dr part); cbn in *; [by rewrite Hp|by rewrite Hp|done].
  - intros part Hp dr Hx Hn. cbn in *. destruct Hn as [Hn|Hn]; [done|]. apply (Hp true); [done|by right].
  - intros m Hm dr Hx Hn. destruct m; try discriminate Hm; by apply Hx.
Qed.

(** ** What the engine relies on of the rule-set index *)

Definition ctx_with_ip `{IpNetLib} (b : RulesetMatchContext) (ip : option IpAddr) : RulesetMatchContext :=
  mkRulesetCtx (rc_dst_host b) ip (rc_dst_port b) (rc_src_ip b) (rc_src_port b)
    (rc_network b) (rc_process_name b) (rc_query_type b) (rc_process_path b)
    (rc_inbound_port b) (rc_inbound_type b) (rc_inbound_user b) (rc_inbound_name b) (rc_uid b) (rc_dscp b)
    (rc_destination_geoip b) (rc_source_geoip b) (rc_destination_geosite b) (rc_destination_asn b) (rc_source_asn b)
    (rc_rematch_names b) (rc_package_names b) (rc_wifi_ssid b) (rc_wifi_bssid b) (rc_network_type b)
    (rc_network_is_expensive b) (rc_network_is_constrained b) (rc_network_interface_addresses b)
    (rc_default_interface_addresses b).

Definition ctx_with_process `{IpNetLib} (b : RulesetMatchContext) (name path : option string) (packages : list string)
    : RulesetMatchContext :=
  mkRulesetCtx (rc_dst_host b) (rc_dst_ip b) (rc_dst_port b) (rc_src_ip b) (rc_src_port b)
    (rc_network b) name (rc_query_type b) path
    (rc_inbound_port b) (rc_inbound_type b) (rc_inbound_user b) (rc_inbound_name b) (rc_uid b) (rc_dscp b)
    (rc_destination_geoip b) (rc_source_geoip b) (rc_destination_geosite b) (rc_destination_asn b) (rc_source_asn b)
    (rc_rematch_names b) packages (rc_wifi_ssid b) (rc_wifi_bssid b) (rc_network_type b)
    (rc_network_is_expensive b) (rc_network_is_constrained b) (rc_network_interface_addresses b)
    (rc_default_interface_addresses b).

(** The promises one generation of the index keeps, for flows whose missing parts are unknown *)
Record stable_index `{IpNetLib, api : !RulesetIndexApi, NetText} (ix : RulesetIndex) : Prop := {
  (** an outcome asks only for what is unresolved *)
  rs_honest : forall name ctx pr dr,
    honest pr dr (ruleset_outcome_to_state (matches_context_deferred ix name ctx pr dr));
  (** a definite outcome does not depend on the destination address *)
  rs_ip : forall name ctx ip pr, rc_dst_ip ctx = None -> parse_ip (rc_dst_host ctx) = None ->
    refines (ruleset_outcome_to_state (matches_context_deferred ix name ctx pr false))
            (ruleset_outcome_to_state (matches_context_deferred ix name (ctx_with_ip ctx (Some ip)) pr true));
  (** a definite outcome does not depend on the process metadata *)
  rs_process : forall name ctx pname path packages dr,
    rc_process_name ctx = None -> rc_process_path ctx = None -> rc_package_names ctx = [] ->
    refines (ruleset_outcome_to_state (matches_context_deferred ix name ctx false dr))
            (ruleset_outcome_to_state (matches_context_deferred ix name (ctx_with_process ctx pname path packages) true dr))
}.

Section leaves.
Context `{IpNetLib, !RouteLib, api : !RulesetIndexApi, NetText, StrCase}.

Definition stable_rulesets (rulesets : option RulesetIndex) : Prop := forall ix, rulesets = Some ix -> stable_index ix.

Lemma alias_loop_states ix ctx pr dr l np nd :
  alias_loop ix ctx pr dr l np nd
  = or_states (map (fun c => ruleset_outcome_to_state (matches_context_deferred ix c ctx pr dr))
                   (List.filter (index_has ix) l)) np nd.
Proof.
  revert np nd. induction l as [|c l IH]; intros np nd; [done|]. cbn. destruct (index_has ix c); cbn [negb]; [|apply IH].
  cbn. destruct (ruleset_outcome_to_state _); [done|apply IH|apply IH].
Qed.

Lemma alias_honest candidates i rulesets pr dr source :
  stable_rulesets rulesets -> (source = true -> dr = true) -> honest pr dr (match_ruleset_alias candidates i rulesets pr dr source).
Proof.
  intros Hst Hs. unfold match_ruleset_alias. destruct rulesets as [ix|]; [|done]. destruct candidates as [l|]; [|done].
  rewrite alias_loop_states. apply or_states_spec; [|done|done]. apply List.Forall_map, List.Forall_forall. intros c _.
  replace (dr || source) with dr by (destruct source; [by rewrite Hs|by rewrite orb_false_r]). by apply rs_honest, Hst.
Qed.

Lemma leaf_honest env pr i dr m : stable_rulesets (me_rulesets env) -> honest pr dr (pure_leaf env pr i dr m).
Proof.
  intros Hst.
  destruct m; cbn [pure_leaf]; unfold pure_keyword, leaf_state; cbn [is_process_matcher andb];
    try apply honest_bool_state; try done.
  all: try (destruct pr; cbn [negb]; [apply honest_bool_state|by apply honest_deferred]).
  all: try (destruct dr; cbn [negb andb]; [apply honest_bool_state|by apply honest_deferred]).
  - destruct (match_home_domain i), dr; cbn [negb andb]; first [apply honest_bool_state|by apply honest_deferred].
  - destruct (match_cn_domain i), dr; cbn [negb andb]; first [apply honest_bool_state|by apply honest_deferred].
  - by apply alias_honest.
  - destruct (metadata_code_matches _ _), dr; cbn [negb andb]; first [done|by apply alias_honest|by apply honest_deferred].
  - destruct (metadata_code_matches _ _); [done|]. apply honest_mono. by apply alias_honest.
  - destruct (opt_is _ _), dr; cbn [negb andb]; first [done|by apply alias_honest|by apply honest_deferred].
  - destruct (opt_is _ _); [done|]. apply honest_mono. by apply alias_honest.
  - destruct (me_rulesets env) as [ix|]; [by apply rs_honest, Hst|done].
  - destruct (me_rulesets env) as [ix|]; [by apply honest_mono, rs_honest, Hst|done].
Qed.

(** ** A destination address that becomes known *)

Definition with_ip (c : FlowContext) (ip : IpAddr) : FlowContext :=
  mkFlow (fc_host c) (Some ip) (fc_port c) (fc_network c) (fc_process c) (fc_ruleset c) (fc_protocol c).

Lemma refines_refl s : refines s s.
Proof. by destruct s. Qed.

Lemma alias_refines ix l ctx ctx' pr pr' dr dr' :
  stable_index ix -> (forall c, refines (ruleset_outcome_to_state (matches_context_deferred ix c ctx pr dr))
                     (ruleset_outcome_to_state (matches_context_deferred ix c ctx' pr' dr'))) ->
  refines (alias_loop ix ctx pr dr l false false) (alias_loop ix ctx' pr' dr' l false false).
Proof.
  intros Hst Hc. rewrite !alias_loop_states. apply (or_states_refines pr dr pr' dr').
  1,2: apply List.Forall_map, List.Forall_forall; intros; by apply rs_honest.
  induction (List.filter (index_has ix) l); cbn; by constructor.
Qed.

Lemma leaf_refines_ip env pr c ip m :
  stable_rulesets (me_rulesets env) -> fc_ip c = None -> parse_ip (fc_host c) = None -> is_leaf m = true ->
  refines (pure_leaf env pr (MatchInput_new c) false m) (pure_leaf env pr (MatchInput_new (with_ip c ip)) true m).
Proof.
  intros Hst Hip Hhost Hleaf. set (i := MatchInput_new c). set (i' := MatchInput_new (with_ip c ip)).
  assert (Hset : forall ix name, me_rulesets env = Some ix -> refines
    (ruleset_outcome_to_state (matches_context_deferred ix name (ruleset_match_context c) pr false))
    (ruleset_outcome_to_state (matches_context_deferred ix name (ruleset_match_context (with_ip c ip)) pr true))).
  { intros ix name Hix. by apply (rs_ip ix (Hst ix Hix) name (ruleset_match_context c) ip pr). }
  assert (Halias : forall o, refines (match_ruleset_alias o i (me_rulesets env) pr false false)
                                     (match_ruleset_alias o i' (me_rulesets env) pr true false)).
  { intros o. unfold match_ruleset_alias. destruct (me_rulesets env) as [ix|]; [|done]. destruct o as [l|]; [|done].
    apply alias_refines; [by apply Hst|]. intros. by apply Hset. }
  destruct m; try discriminate Hleaf; try (apply refines_refl); cbn [pure_leaf]; unfold leaf_state;
    cbn [is_process_matcher andb negb].
  - change (match_home_domain i') with (match_home_domain i). unfold match_home.
    change (match_home_domain i') with (match_home_domain i). by destruct (match_home_domain i).
  - change (match_cn_domain i') with (match_cn_domain i). unfold match_cn.
    change (match_cn_domain i') with (match_cn_domain i). by destruct (match_cn_domain i).
  - apply Halias.
  - done.
  - done.
  - change (fc_ruleset (mi_context i')) with (fc_ruleset (mi_context i)).
    by destruct (metadata_code_matches _ _).
  - change (fc_ruleset (mi_context i')) with (fc_ruleset (mi_context i)). by destruct (opt_is _ _).
  - destruct (me_rulesets env); [by apply Hset|done].
Qed.

(** ** Process metadata that becomes known *)

Definition with_process (c : FlowContext) (name path : option string) (packages : list string) : FlowContext :=
  let r := fc_ruleset c in
  mkFlow (fc_host c) (fc_ip c) (fc_port c) (fc_network c) name
    (mkFlowMeta (source_ip r) (source_port r) (inbound_port r) (inbound_type r) (inbound_user r) (inbound_name r)
       (uid r) (dscp r) (source_geoip r) (destination_geoip r) (destination_geosite r) (source_asn r) (destination_asn r)
       (rematch_names r) (query_type r) path packages (wifi_ssid r) (wifi_bssid r) (network_type r)
       (network_is_expensive r) (network_is_constrained r) (network_interface_addresses r) (default_interface_addresses r))
    (fc_protocol c).

(** Nothing is known of the process of the flow yet. *)
Definition process_unknown (c : FlowContext) : Prop :=
  fc_process c = None /\ process_path (fc_ruleset c) = None /\ package_names (fc_ruleset c) = [].

Lemma leaf_refines_process env c name path packages dr m :
  stable_rulesets (me_rulesets env) -> process_unknown c -> is_leaf m = true ->
  refines (pure_leaf env false (MatchInput_new c) dr m)
          (pure_leaf env true (MatchInput_new (with_process c name path packages)) dr m).
Proof.
  intros Hst (Hn & Hpath & Hpk) Hleaf. set (i := MatchInput_new c). set (c' := with_process c name path packages). set (i' := MatchInput_new c').
  assert (Hset : forall ix n d, me_rulesets env = Some ix -> refines
    (ruleset_outcome_to_state (matches_context_deferred ix n (ruleset_match_context c) false d))
    (ruleset_outcome_to_state (matches_context_deferred ix n (ruleset_match_context c') true d))).
  { intros ix n d Hix. by apply (rs_process ix (Hst ix Hix) n (ruleset_match_context c) name path packages d). }
  assert (Hsrc : forall ix n d, me_rulesets env = Some ix -> refines
    (ruleset_outcome_to_state (matches_context_deferred ix n (source_ruleset_context c) false d))
    (ruleset_outcome_to_state (matches_context_deferred ix n (source_ruleset_context c') true d))).
  { intros ix n d Hix. by apply (rs_process ix (Hst ix Hix) n (source_ruleset_context c) name path packages d). }
  assert (Halias : forall o d src, refines (match_ruleset_alias o i (me_rulesets env) false d src)
                                           (match_ruleset_alias o i' (me_rulesets env) true d src)).
  { intros o d src. unfold match_ruleset_alias. destruct (me_rulesets env) as [ix|]; [|done]. destruct o as [l|]; [|done].
    apply alias_refines; [by apply Hst|]. intros. destruct src; [by apply Hsrc|by apply Hset]. }
  destruct m; try discriminate Hleaf; try (apply refines_refl); cbn [pure_leaf]; unfold leaf_state;
    cbn [is_process_matcher andb negb]; try done.
  - change (destination_geoip (fc_ruleset (mi_context i'))) with (destination_geoip (fc_ruleset (mi_context i))).
    destruct (metadata_code_matches _ _), dr; cbn [negb andb]; try done; apply Halias.
  - change (source_geoip (fc_ruleset (mi_context i'))) with (source_geoip (fc_ruleset (mi_context i))).
    destruct (metadata_code_matches _ _); [done|]. apply Halias.
  - change (destination_asn (fc_ruleset (mi_context i'))) with (destination_asn (fc_ruleset (mi_context i))).
    destruct (opt_is _ _), dr; cbn [negb andb]; try done; apply Halias.
  - change (source_asn (fc_ruleset (mi_context i'))) with (source_asn (fc_ruleset (mi_context i))).
    destruct (opt_is _ _); [done|]. apply Halias.
  - destruct (me_rulesets env); [by apply Hset|done].
  - destruct (me_rulesets env); [by apply Hsrc|done].
Qed.
End leaves.

(** ** Runs that never had to defer *)

(** The query walk [qa] and two evaluations [qb], [qc] that follow it on definite rules:
    unless the query stops at a deferred rule, both evaluations end alike. *)
Section three_walks.
  Context {D : Type} (rules : list (string * list RouteStep)) (P : RouteStep -> Prop).
  Context (qa : RouteStep -> verdict MatchState) (qb qc : RouteStep -> verdict D) (result : option nat -> RouteStep -> D).
  Hypothesis follow : forall s, P s ->
    match qa s with
    | VSkip => qb s = VSkip /\ qc s = VSkip
    | VHit => qb s = VHit /\ qc s = VHit
    | VStop r => exists p d, r = Deferred p d
    end.
  Hypothesis branches : branches_in P rules.

Definition agree (a : StepFlow MatchState) (b c : StepFlow D) : Prop :=
  match a with
  | SfResult (Deferred _ _) => True
  | SfResult _ => b = c /\ exists r, b = SfResult r
  | SfContinueMain => b = SfContinueMain /\ c = SfContinueMain
  | SfExhausted => b = SfExhausted /\ c = SfExhausted
  end.

Lemma loop_agree ca cb cc dis depth l n :
  (forall branch, (forall s, s ∈ branch -> P s) ->
     agree (ca branch tt).1 (cb branch tt).1 (cc branch tt).1) ->
  (forall s, s ∈ l -> P s) ->
  agree (walk_loop rules (pure_probe qa) (fun _ _ => Matched) ca dis depth l n tt).1
        (walk_loop rules (pure_probe qb) result cb dis depth l n tt).1
        (walk_loop rules (pure_probe qc) result cc dis depth l n tt).1.
Proof using follow branches.
  intros Hcall. revert n. induction l as [|s l IH]; intros n Hl; [done|].
  assert (Hrest : agree (walk_loop rules (pure_probe qa) (fun _ _ => Matched) ca dis depth l (S n) tt).1
    (walk_loop rules (pure_probe qb) result cb dis depth l (S n) tt).1
    (walk_loop rules (pure_probe qc) result cc dis depth l (S n) tt).1).
  { apply IH. intros s' Hs'. apply Hl. by right. }
  cbn [walk_loop]. destruct (is_disabled dis n); [done|].
  change (pure_probe qa s tt) with (qa s, tt). change (pure_probe qb s tt) with (qb s, tt).
  change (pure_probe qc s tt) with (qc s, tt).
  pose proof (follow s ltac:(apply Hl; left)) as Hf.
  destruct (qa s) as [| |r]; [destruct Hf as [-> ->]; done| |destruct Hf as (p & d & ->); done].
  destruct Hf as [-> ->]. destruct (rs_action s) as [| | | | |name]; try done; try (by cbn; eauto).
  - by destruct (0 <? depth)%nat.
  - destruct (sub_rule rules name) as [branch|] eqn:Eb; [|done].
    assert (Hb : forall s, s ∈ branch -> P s).
    { intros s' Hs'. apply (branches (name, branch)); [by apply sub_rule_elem|done]. }
    specialize (Hcall branch Hb).
    destruct (ca branch tt) as [[[| |p d]| |] []], (cb branch tt) as [fb []], (cc branch tt) as [fc []]; cbn in Hcall; cbn [fst].
    + destruct Hcall as (-> & r & ->). cbn. eauto.
    + destruct Hcall as (-> & r & ->). cbn. eauto.
    + done.
    + destruct Hcall as [-> ->]. by destruct (depth =? 0)%nat.
    + by destruct Hcall as [-> ->].
Qed.

Lemma walk_agree fuel dis depth l :
  (forall s, s ∈ l -> P s) ->
  agree (pwalk rules qa (fun _ _ => Matched) fuel l dis depth)
        (pwalk rules qb result fuel l dis depth) (pwalk rules qc result fuel l dis depth).
Proof using follow branches.
  unfold pwalk. revert l dis depth. induction fuel as [|fuel IH]; intros l dis depth Hl; [done|]. cbn [walk].
  destruct (length rules <? depth)%nat; [done|]. apply loop_agree; [|done]. intros branch Hb. by apply IH.
Qed.
End three_walks.

Lemma pwalk_result {R} rules (q : RouteStep -> verdict R) result (Q : R -> Prop) fuel steps dis depth r :
  (forall s x, q s = VStop x -> Q x) -> (forall n s, Q (result n s)) ->
  pwalk rules q result fuel steps dis depth = SfResult r -> Q r.
Proof.
  intros Hq Hres. unfold pwalk. revert steps dis depth r. induction fuel as [|fuel IH]; intros steps dis depth r; [done|].
  cbn [walk]. destruct (length rules <? depth)%nat; [done|]. generalize 0%nat at 1 as n.
  induction steps as [|s steps IHs]; intros n; [done|]. cbn [walk_loop]. destruct (is_disabled dis n); [apply IHs|].
  unfold pure_probe at 1. destruct (q s) as [| |x] eqn:E; [apply IHs| |intros [= <-]; by eapply Hq].
  destruct (rs_action s) as [| | | | |name]; try (intros [= <-]; apply Hres); try apply IHs.
  - destruct (0 <? depth)%nat; [done|apply IHs].
  - destruct (sub_rule rules name) as [branch|]; [|apply IHs].
    pose proof (IH branch None (S depth)) as Hb. destruct (walk _ _ _ fuel branch _ _ tt) as [[x| |] []]; [|destruct (depth =? 0)%nat; [|done]|]; try apply IHs.
    intros [= <-]. by apply Hb.
Qed.

(** ** The engine *)

Section engine_deferral.
Context `{IpNetLib, !RouteLib, api : !RulesetIndexApi, NetText, StrCase}.

Definition requirement_judge (e : RouteEngine) (pr dr : bool) (i : MatchInput) (s : RouteStep) : verdict MatchState :=
  let st := pure_state (engine_env e) pr (dr || no_resolve (rs_options s)) (rs_matcher s) i in
  match st with NotMatched => VSkip | Matched => VHit | Deferred _ _ => VStop st end.

Definition evaluation_judge (e : RouteEngine) (dr : bool) (i : MatchInput) (s : RouteStep) : verdict DetailedRouteDecision :=
  if decide (pure_state (engine_env e) true (dr || no_resolve (rs_options s)) (rs_matcher s) i = Matched) then VHit else VSkip.

Lemma requirement_pwalk e c pr dr :
  (first_requirement e (rp_steps (re_plan e)) (MatchInput_new c) pr dr (Some (re_disabled e)) 0).1
  = pwalk (rp_sub_rules (re_plan e)) (requirement_judge e pr dr (MatchInput_new c)) (fun _ _ => Matched)
      (S (length (rp_sub_rules (re_plan e)))) (rp_steps (re_plan e)) (Some (re_disabled e)) 0.
Proof.
  set (i := MatchInput_new c). unfold first_requirement. rewrite Nat.sub_0_r.
  destruct (walk_pure (rp_sub_rules (re_plan e)) (fun _ => True)
    (fun i' => cache_ok (re_prepared e) i' /\ uncached i' = uncached i) (requirement_probe e pr dr)
    (requirement_judge e pr dr i) (fun _ _ => Matched)) with (fuel := S (length (rp_sub_rules (re_plan e))))
    (steps := rp_steps (re_plan e)) (disabled := Some (re_disabled e)) (depth := 0%nat) (i := i) as (i' & E & _); try done.
  - intros step i1 _ [Hc Hu]. unfold requirement_probe, requirement_judge.
    destruct (step_match_state_pure (engine_env e) pr (rs_matcher step) (dr || no_resolve (rs_options step)) i1 Hc) as (Es & Hc' & Hu').
    destruct (step_match_state _ _ _ _ i1) as [s i2]. cbn in *. subst s. exists i2. split; [|split; [done|congruence]].
    by rewrite (pure_state_uncached _ _ _ _ i i1 Hu).
  - by rewrite E.
Qed.

(** The evaluation walk, for engines that need not come from [new] *)
Lemma evaluation_pwalk e c dr :
  dr = is_some (mi_resolved_ip (MatchInput_new c)) ->
  decide_detailed e c
  = match pwalk (rp_sub_rules (re_plan e)) (evaluation_judge e dr (MatchInput_new c)) detailed_hit
            (S (length (rp_sub_rules (re_plan e)))) (rp_steps (re_plan e)) (Some (re_disabled e)) 0 with
    | SfResult d => d | _ => fallback_decision end.
Proof.
  intros ->. set (i := MatchInput_new c). unfold decide_detailed, evaluate_steps. fold i. rewrite Nat.sub_0_r.
  destruct (walk_pure (rp_sub_rules (re_plan e)) (fun _ => True)
    (fun i' => cache_ok (re_prepared e) i' /\ uncached i' = uncached i) (evaluate_probe e true (is_some (mi_resolved_ip i)))
    (evaluation_judge e (is_some (mi_resolved_ip i)) i) detailed_hit) with (fuel := S (length (rp_sub_rules (re_plan e))))
    (steps := rp_steps (re_plan e)) (disabled := Some (re_disabled e)) (depth := 0%nat) (i := i) as (i' & E & _); try done.
  - intros step i1 _ [Hc Hu]. unfold evaluate_probe, step_matches, evaluation_judge.
    destruct (step_match_state_pure (engine_env e) true (rs_matcher step) (is_some (mi_resolved_ip i) || no_resolve (rs_options step)) i1 Hc) as (Es & Hc' & Hu').
    destruct (step_match_state _ _ _ _ i1) as [s i2]. cbn in *. subst s. exists i2. split; [|split; [done|congruence]].
    rewrite (pure_state_uncached _ _ _ _ i i1 Hu). f_equal. by case_bool_decide; case_decide.
  - by rewrite E.
Qed.

Lemma state_honest e pr dr m i : stable_rulesets (re_rulesets e) -> honest pr dr (pure_state (engine_env e) pr dr m i).
Proof. intros Hst. apply tree_honest. intros. by apply leaf_honest. Qed.

(** What a query reports is really missing. *)
Lemma requirement_honest e c pr dr r :
  stable_rulesets (re_rulesets e) -> (first_requirement e (rp_steps (re_plan e)) (MatchInput_new c) pr dr (Some (re_disabled e)) 0).1 = SfResult r ->
  honest pr dr r.
Proof.
  intros Hst. rewrite requirement_pwalk. apply pwalk_result; [|done]. intros s st Hs. unfold requirement_judge in Hs.
  pose proof (state_honest e pr (dr || no_resolve (rs_options s)) (rs_matcher s) (MatchInput_new c) Hst) as Hh.
  destruct (pure_state _ _ _ _ _); [done|done|]. injection Hs as <-.
  destruct (no_resolve (rs_options s)); [rewrite orb_true_r in Hh; by apply honest_mono|by rewrite orb_false_r in Hh].
Qed.

(** Two flows that both know more than the queried one, and a query that did not defer *)
Lemma definite_query e c c1 c2 pr dr :
  (forall c', c' = c1 \/ c' = c2 -> forall s, in_plan (re_plan e) s ->
     refines (pure_state (engine_env e) pr (dr || no_resolve (rs_options s)) (rs_matcher s) (MatchInput_new c))
       (pure_state (engine_env e) true (is_some (mi_resolved_ip (MatchInput_new c')) || no_resolve (rs_options s))
          (rs_matcher s) (MatchInput_new c'))) ->
  (forall p d, (first_requirement e (rp_steps (re_plan e)) (MatchInput_new c) pr dr (Some (re_disabled e)) 0).1
               <> SfResult (Deferred p d)) ->
  decide_detailed e c1 = decide_detailed e c2.
Proof.
  intros Hr Hq. rewrite requirement_pwalk in Hq. rewrite !(evaluation_pwalk e _ _ eq_refl).
  set (i := MatchInput_new c) in *. set (i1 := MatchInput_new c1). set (i2 := MatchInput_new c2).
  pose proof (walk_agree (rp_sub_rules (re_plan e)) (in_plan (re_plan e)) (requirement_judge e pr dr i)
    (evaluation_judge e (is_some (mi_resolved_ip i1)) i1) (evaluation_judge e (is_some (mi_resolved_ip i2)) i2) detailed_hit) as Hw.
  assert (Hfollow : forall s, in_plan (re_plan e) s ->
    match requirement_judge e pr dr i s with
    | VSkip => evaluation_judge e (is_some (mi_resolved_ip i1)) i1 s = VSkip /\ evaluation_judge e (is_some (mi_resolved_ip i2)) i2 s = VSkip
    | VHit => evaluation_judge e (is_some (mi_resolved_ip i1)) i1 s = VHit /\ evaluation_judge e (is_some (mi_resolved_ip i2)) i2 s = VHit
    | VStop r => exists p d, r = Deferred p d
    end).
  { intros s Hs. pose proof (Hr c1 (or_introl eq_refl) s Hs) as R1. pose proof (Hr c2 (or_intror eq_refl) s Hs) as R2.
    fold i i1 in R1. fold i i2 in R2. unfold requirement_judge, evaluation_judge.
    destruct (pure_state (engine_env e) pr _ _ i) as [| |p d]; cbv [refines] in R1, R2; [| |by eauto]; by rewrite R1, R2. }
  specialize (Hw Hfollow (in_plan_branches _) (S (length (rp_sub_rules (re_plan e)))) (Some (re_disabled e)) 0%nat
    (rp_steps (re_plan e)) (fun s Hs => or_introl Hs)).
  destruct (pwalk _ (requirement_judge e pr dr i) _ _ _ _ _) as [[| |p d]| |]; cbv [agree] in Hw.
  - by destruct Hw as (-> & r & ->).
  - by destruct Hw as (-> & r & ->).
  - by destruct (Hq p d).
  - by destruct Hw as [-> ->].
  - by destruct Hw as [-> ->].
Qed.

(** Neither the step options nor a part of the matcher ask for no resolution. *)
Definition resolving (s : RouteStep) : Prop := no_resolve (rs_options s) = false /\ has_no_resolve (rs_matcher s) = false.

Definition resolving_plan (plan : RoutePlan) : Prop := forall s, in_plan plan s -> resolving s.

(** Skipping the DNS lookup is harmless, for an index that keeps its promises: when
    [needs_destination_ip] says no for a flow to an unresolved domain, the flow is decided the same
    whatever address the domain resolves to, for a plan without no-resolve rules. *)
Lemma skipped_dns_stable e c ip :
  stable_rulesets (re_rulesets e) -> fc_ip c = None -> parse_ip (fc_host c) = None -> resolving_plan (re_plan e) ->
  needs_destination_ip e c = false ->
  decide_detailed e (with_ip c ip) = decide_detailed e c.
Proof.
  intros Hst Hip Hhost Hres Hneeds. unfold needs_destination_ip in Hneeds. rewrite Hip, Hhost in Hneeds. cbn [is_some orb] in Hneeds.
  apply (definite_query e c _ _ true false).
  - intros c' Hc' s Hs. destruct (Hres s Hs) as [Hn1 Hn2]. rewrite Hn1. destruct Hc' as [->| ->].
    + apply (tree_refines true true true); try (intros; by apply leaf_honest); [|by left].
      intros x Hx. by apply leaf_refines_ip.
    + cbn. rewrite Hip, Hhost. apply refines_refl.
  - intros p d Hf. destruct (requirement_honest _ _ _ _ _ Hst Hf) as (E & Hp & _). rewrite Hf in Hneeds.
    destruct p; [by specialize (Hp eq_refl)|]. cbn in E. by subst d.
Qed.

(** Skipping the process lookup is harmless: when [needs_process] says no for a flow
    whose destination address is known, the flow is decided the same whatever process,
    process path and packages it turns out to belong to. *)
Lemma skipped_process_stable e c name path packages :
  stable_rulesets (re_rulesets e) -> process_unknown c -> is_some (mi_resolved_ip (MatchInput_new c)) = true -> needs_process e c = false ->
  decide_detailed e (with_process c name path packages) = decide_detailed e c.
Proof.
  intros Hst Hun Hres Hneeds. unfold needs_process in Hneeds. rewrite Hres in Hneeds.
  assert (Hself : with_process c (fc_process c) (process_path (fc_ruleset c)) (package_names (fc_ruleset c)) = c)
    by (by destruct c as [h ip p n pr []]).
  apply (definite_query e c _ _ false true).
  - intros c' Hc' s _.
    assert (Hex : exists n' p' k', c' = with_process c n' p' k') by (destruct Hc' as [->| ->]; [eauto|by rewrite <- Hself; eauto]).
    destruct Hex as (n' & p' & k' & ->). change (mi_resolved_ip (MatchInput_new (with_process c n' p' k')))
      with (mi_resolved_ip (MatchInput_new c)). rewrite Hres. cbn [orb].
    apply (tree_refines false true false); try (intros; by apply leaf_honest); try (right); intros x Hx; by apply leaf_refines_process.
  - intros p d Hf. destruct (requirement_honest _ _ _ _ _ Hst Hf) as (E & _ & Hd). rewrite Hf in Hneeds.
    destruct d; [by specialize (Hd eq_refl)|]. rewrite orb_false_r in E. by subst p.
Qed.
End engine_deferral.

(** ** The process lookup can be skipped when it matters *)

Module RouteDeferralWitness.
Import Concrete RouteConcrete.

Definition opts : RouteRuleOptions := mkOptions false false false.

Definition lookup_plan : RoutePlan :=
  mkPlan [mkStep (MCidr "10.0.0.0/8") ADirect "IP-CIDR,10.0.0.0/8,DIRECT" opts;
          mkStep (MProcess "curl") ABlock "PROCESS-NAME,curl,REJECT" opts;
          mkStep MAny (AGroup "proxy") "MATCH,proxy" opts] [].

Definition flow : FlowContext := for_domain "example.com" 443 NkTcp.
Definition public_ip : IpAddr := V4 134744072.

Definition lookup_run (e : RouteEngine) : bool :=
  negb (needs_process e flow) && needs_destination_ip e flow
  && match dd_decision (decide_detailed e (with_ip flow public_ip)),
           dd_decision (decide_detailed e (with_process (with_ip flow public_ip) (Some "curl") None [])) with
     | DGroup g, DBlock => String.eqb g "proxy"
     | _, _ => false
     end.

(** [needs_process] is asked before the domain is resolved, and an unresolved
    destination rule hides the process rules behind it: for this plan it answers that no
    process lookup is needed for a flow to a domain, [needs_destination_ip] asks for the
    address, and with the address known the flow of process [curl] is rejected by a
    PROCESS-NAME rule only if the process had been looked up; without it, it is proxied. *)
Theorem route_process_lookup_masked :
  exists e, RouteEngine_new lookup_plan = Ok e
    /\ needs_process e flow = false /\ needs_destination_ip e flow = true
    /\ dd_decision (decide_detailed e (with_ip flow public_ip)) = DGroup "proxy"
    /\ dd_decision (decide_detailed e (with_process (with_ip flow public_ip) (Some "curl") None [])) = DBlock.
Proof.
  assert (Hrun : match RouteEngine_new lookup_plan with Ok e => lookup_run e | _ => false end = true) by (vm_compute; reflexivity).
  destruct (RouteEngine_new lookup_plan) as [e| |]; [|discriminate Hrun|discriminate Hrun].
  exists e. split; [done|]. unfold lookup_run in Hrun. rewrite !andb_true_iff, negb_true_iff in Hrun.
  destruct Hrun as ((H1 & H2) & H3). do 2 (split; [done|]).
  destruct (dd_decision (decide_detailed e (with_ip flow public_ip))) as [| |g]; try discriminate H3.
  destruct (dd_decision (decide_detailed e (with_process _ _ _ _))); try discriminate H3.
  apply String.eqb_eq in H3 as ->. done.
Qed.
End RouteDeferralWitness.
