(* ===== verification/CompactSet.v ===== *)
(** * Succinct domain sets ([CompactDomainSet] of [core-ruleset/src/ir.rs])

    A trie over reversed domain names in level order: node [n] has the edges
    [child_offsets[n] .. child_offsets[n+1]], edge [e] carries the byte [labels[e]] and
    leads to node [e + 1].  [matches_domain] answers the domain queries of sing-box rule
    sets, [matches_adguard] those of AdGuard filters, with a depth and a work budget.
    Indexing out of range panics, as in the code. *)

From stdpp Require Import base list gmap strings numbers option.
From S2P Require Import Prelude.

Record CompactDomainSet : Type := mkCompactSet {
  cd_leaves : list Z; cd_child_offsets : list Z; cd_labels : list Z; cd_terminal_count : Z
}.

Definition node_is_leaf (s : CompactDomainSet) (node : Z) : bool :=
  match index (cd_leaves s) (node / 64) with Ok word => Z.testbit word (node mod 64) | _ => false end.

(** The edges [start..end] as a list; an inverted range is empty. *)
Definition edge_range (a b : Z) : list Z := (fun k => a + Z.of_nat k) <$> seq 0 (Z.to_nat (b - a)).

Definition children (s : CompactDomainSet) (node : Z) : outcome (list Z) :=
  a ← index (cd_child_offsets s) node;
  b ← index (cd_child_offsets s) (node + 1);
  Ok (edge_range a b).

(** [value.chars().rev().collect()]: a continuation byte stays with its character. *)
Fixpoint char_groups (l : list Z) : list (list Z) :=
  match l with
  | [] => []
  | b :: l' =>
    match char_groups l' with
    | (c :: g) :: gs => if continuation c then (b :: c :: g) :: gs else [b] :: (c :: g) :: gs
    | gs => [b] :: gs
    end
  end.
Definition reverse_domain (value : string) : list Z := concat (rev (char_groups (str_bytes value))).

(** ** Domain queries *)

(** What the edges of a node say about the next byte *)
Inductive edge_step : Type := StepMatch | StepTo (node : Z) | StepNone.

Fixpoint domain_edges (s : CompactDomainSet) (current : Z) (edges : list Z) : outcome edge_step :=
  match edges with
  | [] => Ok StepNone
  | e :: edges' =>
    label ← index (cd_labels s) e;
    if label =? 13 then Ok StepMatch
    else if (label =? 10) && (current =? 46) && node_is_leaf s (e + 1) then Ok StepMatch
    else if label =? current then Ok (StepTo (e + 1))
    else domain_edges s current edges'
  end.

(** [children(node).any(|edge| test(labels[edge]))] *)
Fixpoint any_label (s : CompactDomainSet) (test : Z -> bool) (edges : list Z) : outcome bool :=
  match edges with
  | [] => Ok false
  | e :: edges' => label ← index (cd_labels s) e; if test label then Ok true else any_label s test edges'
  end.

Fixpoint domain_walk (s : CompactDomainSet) (key : list Z) (node : Z) : outcome bool :=
  match key with
  | [] =>
    if node_is_leaf s node then Ok true
    else edges ← children s node; any_label s (fun l => (l =? 13) || (l =? 10)) edges
  | current :: key' =>
    edges ← children s node;
    step ← domain_edges s current edges;
    match step with
    | StepMatch => Ok true
    | StepTo next => domain_walk s key' next
    | StepNone => Ok false
    end
  end.

Definition matches_domain (s : CompactDomainSet) (domain : string) : outcome bool :=
  domain_walk s (reverse_domain domain) 0.

(** ** AdGuard queries *)

Section adguard.
  Variable s : CompactDomainSet.
  (** the recursive call: key, node, remaining budget *)
  Variable has : list Z -> Z -> Z -> outcome (bool * Z).

(** A wildcard edge tries every suffix [key[index..]], ..., [key[len..]]. *)
Fixpoint try_suffixes (rest : list Z) (child budget : Z) : outcome (bool * Z) :=
  r ← has rest child budget;
  if r.1 : bool then Ok (true, r.2)
  else match rest with [] => Ok (false, r.2) | _ :: rest' => try_suffixes rest' child r.2 end.

Fixpoint adguard_edges (current : Z) (rest edges : list Z) (budget : Z) : outcome (edge_step * Z) :=
  match edges with
  | [] => Ok (StepNone, budget)
  | e :: edges' =>
    label ← index (cd_labels s) e;
    if label =? 13 then Ok (StepMatch, budget)
    else if (label =? 10) && (current =? 46) && node_is_leaf s (e + 1) then Ok (StepMatch, budget)
    else if label =? current then Ok (StepTo (e + 1), budget)
    else if (label =? 42) || (label =? 8) then
      r ← try_suffixes rest (e + 1) budget;
      if r.1 : bool then Ok (StepMatch, r.2) else adguard_edges current rest edges' r.2
    else adguard_edges current rest edges' budget
  end.

Fixpoint adguard_tail (edges : list Z) (budget : Z) : outcome (bool * Z) :=
  match edges with
  | [] => Ok (false, budget)
  | e :: edges' =>
    label ← index (cd_labels s) e;
    if (label =? 13) || (label =? 10) || (label =? 8) then Ok (true, budget)
    else if label =? 42 then
      r ← has [] (e + 1) budget;
      if r.1 : bool then Ok (true, r.2) else adguard_tail edges' r.2
    else adguard_tail edges' budget
  end.

Fixpoint adguard_walk (key : list Z) (node budget : Z) : outcome (bool * Z) :=
  match key with
  | [] =>
    if node_is_leaf s node then Ok (true, budget)
    else edges ← children s node; adguard_tail edges budget
  | current :: key' =>
    edges ← children s node;
    r ← adguard_edges current key edges budget;
    match r.1 with
    | StepMatch => Ok (true, r.2)
    | StepTo next => adguard_walk key' next r.2
    | StepNone => Ok (false, r.2)
    end
  end.
End adguard.

Definition ADGUARD_MAX_DEPTH : nat := 100.

(** [adguard_has]; the fuel is [MAX_DEPTH + 1 - depth], so it is spent exactly when
    [depth > MAX_DEPTH]. *)
Fixpoint adguard_has (s : CompactDomainSet) (fuel : nat) (key : list Z) (node budget : Z) : outcome (bool * Z) :=
  match fuel with
  | O => Ok (false, budget)
  | S fuel' =>
    if budget =? 0 then Ok (false, budget)
    else adguard_walk s (adguard_has s fuel') key node (budget - 1)
  end.

(** The bytes after the first dot *)
Fixpoint after_dot (key : list Z) : option (list Z) :=
  match key with
  | [] => None
  | c :: key' => if c =? 46 then Some key' else after_dot key'
  end.

(** The loop of [matches_adguard] over the shorter and shorter keys; each round drops at
    least the dot, so the key's length is enough fuel. *)
Fixpoint adguard_rounds (s : CompactDomainSet) (fuel : nat) (key : list Z) (budget : Z) : outcome bool :=
  match fuel with
  | O => Panic
  | S fuel' =>
    r ← adguard_has s (S ADGUARD_MAX_DEPTH) (8 :: key) 0 budget;
    if r.1 : bool then Ok true
    else match after_dot key with
         | None => Ok false
         | Some key' => adguard_rounds s fuel' key' r.2
         end
  end.

Definition matches_adguard (s : CompactDomainSet) (domain : string) : outcome bool :=
  let key := reverse_domain domain in
  r ← adguard_has s (S ADGUARD_MAX_DEPTH) key 0 1000000;
  if r.1 : bool then Ok true else adguard_rounds s (S (length key)) key r.2.

(** ** Well-formed sets *)

(** One offset per node and one past the end, all of them within the labels; a set with
    [k] edges has the nodes [0..k]. *)
Definition compact_ok (s : CompactDomainSet) : Prop :=
  len (cd_child_offsets s) = len (cd_labels s) + 2
  /\ Forall (fun o => 0 <= o <= len (cd_labels s)) (cd_child_offsets s).

Definition is_ok {A} (o : outcome A) : Prop := exists a, o = Ok a.

Section total.
  Variable s : CompactDomainSet.
  Hypothesis s_ok : compact_ok s.

(** The nodes and the edges of the set *)
Definition node_in (n : Z) : Prop := 0 <= n <= len (cd_labels s).
Definition edges_in (l : list Z) : Prop := Forall (fun e => 0 <= e < len (cd_labels s)) l.

Lemma children_ok n : node_in n -> exists l, children s n = Ok l /\ edges_in l.
Proof using s_ok.
  destruct s_ok as [Hlen Ho]. intros Hn. unfold node_in in Hn. unfold children.
  destruct (index_ok (cd_child_offsets s) n ltac:(lia)) as (a & -> & Ha).
  destruct (index_ok (cd_child_offsets s) (n + 1) ltac:(lia)) as (b & -> & Hb).
  cbn. eexists. split; [done|]. rewrite List.Forall_forall in Ho.
  pose proof (Ho a ltac:(by apply list_elem_of_In)). pose proof (Ho b ltac:(by apply list_elem_of_In)).
  apply List.Forall_forall. intros e He. apply list_elem_of_In, list_elem_of_fmap in He as (k & -> & Hk).
  apply elem_of_seq in Hk. lia.
Qed.

Lemma label_ok e l : edges_in (e :: l) -> (exists x, index (cd_labels s) e = Ok x) /\ node_in (e + 1) /\ edges_in l.
Proof using.
  intros [He Hl]%Forall_cons_iff. destruct (index_ok (cd_labels s) e He) as (x & -> & _).
  split; [by eexists|]. split; [unfold node_in; lia|done].
Qed.

Definition step_in (st : edge_step) : Prop := match st with StepTo n => node_in n | _ => True end.

Lemma domain_edges_ok c l : edges_in l -> exists st, domain_edges s c l = Ok st /\ step_in st.
Proof using.
  induction l as [|e l IH]; intros Hl; [by exists StepNone|]. destruct (label_ok e l Hl) as ((x & Ex) & Hn & Hl').
  cbn. rewrite Ex. cbn. destruct (x =? 13); [by exists StepMatch|]. destruct (_ && _ && _); [by exists StepMatch|].
  destruct (x =? c); [by exists (StepTo (e + 1))|]. by apply IH.
Qed.

Lemma any_label_ok test l : edges_in l -> is_ok (any_label s test l).
Proof using.
  induction l as [|e l IH]; intros Hl; [by eexists|]. destruct (label_ok e l Hl) as ((x & Ex) & _ & Hl').
  cbn. rewrite Ex. cbn. destruct (test x); [by eexists|]. by apply IH.
Qed.

Lemma domain_walk_ok key n : node_in n -> is_ok (domain_walk s key n).
Proof using s_ok.
  revert n. induction key as [|c key IH]; intros n Hn; cbn; destruct (children_ok n Hn) as (l & El & Hl).
  - destruct (node_is_leaf s n); [by eexists|]. rewrite El. cbn. by apply any_label_ok.
  - rewrite El. cbn. destruct (domain_edges_ok c l Hl) as (st & -> & Hst). cbn.
    destruct st; [by eexists|by apply IH|by eexists].
Qed.

(** A call that returns, and never gives budget back *)
Definition returns (budget : Z) (o : outcome (bool * Z)) : Prop := exists b rest, o = Ok (b, rest) /\ rest <= budget.

Section with_has.
  Variable has : list Z -> Z -> Z -> outcome (bool * Z).
  Hypothesis has_ok : forall key n budget, node_in n -> returns budget (has key n budget).

Lemma try_suffixes_ok rest n budget : node_in n -> returns budget (try_suffixes has rest n budget).
Proof using has_ok.
  intros Hn. revert budget. induction rest as [|c rest IH]; intros budget; cbn [try_suffixes].
  - destruct (has_ok [] n budget Hn) as ([] & r & -> & Hr); [by exists true, r|by exists false, r].
  - destruct (has_ok (c :: rest) n budget Hn) as ([] & r & -> & Hr); [by exists true, r|].
    cbn [mbind outcome_bind fst snd]. destruct (IH r) as (b & r' & -> & Hr'). exists b, r'. split; [done|lia].
Qed.

Lemma adguard_edges_ok c rest l budget : edges_in l ->
  exists st r, adguard_edges s has c rest l budget = Ok (st, r) /\ step_in st /\ r <= budget.
Proof using has_ok.
  revert budget. induction l as [|e l IH]; intros budget Hl; [by exists StepNone, budget|].
  destruct (label_ok e l Hl) as ((x & Ex) & Hn & Hl'). cbn [adguard_edges]. rewrite Ex. cbn [mbind outcome_bind].
  destruct (x =? 13); [by exists StepMatch, budget|]. destruct (_ && _ && _); [by exists StepMatch, budget|].
  destruct (x =? c); [by exists (StepTo (e + 1)), budget|]. destruct (_ || _); [|by apply IH].
  destruct (try_suffixes_ok rest (e + 1) budget Hn) as (b & r & -> & Hr). cbn [mbind outcome_bind fst snd].
  destruct b; [by exists StepMatch, r|]. destruct (IH r Hl') as (st & r' & -> & Hst & Hr'). exists st, r'. split_and!; [done|done|lia].
Qed.

Lemma adguard_tail_ok l budget : edges_in l -> returns budget (adguard_tail s has l budget).
Proof using has_ok.
  revert budget. induction l as [|e l IH]; intros budget Hl; [by exists false, budget|].
  destruct (label_ok e l Hl) as ((x & Ex) & Hn & Hl'). cbn [adguard_tail]. rewrite Ex. cbn [mbind outcome_bind].
  destruct (_ || _); [by exists true, budget|]. destruct (x =? 42); [|by apply IH].
  destruct (has_ok [] (e + 1) budget Hn) as (b & r & -> & Hr). cbn [mbind outcome_bind fst snd].
  destruct b; [by exists true, r|]. destruct (IH r Hl') as (b & r' & -> & Hr'). exists b, r'. split; [done|lia].
Qed.

Lemma adguard_walk_ok key n budget : node_in n -> returns budget (adguard_walk s has key n budget).
Proof using s_ok has_ok.
  revert n budget. induction key as [|c key IH]; intros n budget Hn; cbn [adguard_walk];
    destruct (children_ok n Hn) as (l & El & Hl); rewrite ?El; cbn [mbind outcome_bind].
  - destruct (node_is_leaf s n); [by exists true, budget|]. by apply adguard_tail_ok.
  - destruct (adguard_edges_ok c (c :: key) l budget Hl) as (st & r & -> & Hst & Hr). cbn [mbind outcome_bind fst snd].
    destruct st as [|next|]; [by exists true, r| |by exists false, r].
    destruct (IH next r Hst) as (b & r' & -> & Hr'). exists b, r'. split; [done|lia].
Qed.
End with_has.

Lemma adguard_has_ok fuel key n budget : node_in n -> returns budget (adguard_has s fuel key n budget).
Proof using s_ok.
  revert key n budget. induction fuel as [|fuel IH]; intros key n budget Hn; cbn; [by exists false, budget|].
  destruct (budget =? 0); [by exists false, budget|].
  destruct (adguard_walk_ok (adguard_has s fuel) IH key n (budget - 1) Hn) as (b & r & -> & Hr).
  exists b, r. split; [done|lia].
Qed.

Lemma after_dot_shorter key key' : after_dot key = Some key' -> (length key' < length key)%nat.
Proof using. induction key as [|c key IH]; cbn; [done|]. destruct (c =? 46); [intros [= <-]; lia|]. intros ?%IH. lia. Qed.

Lemma adguard_rounds_ok fuel key budget : (length key < fuel)%nat -> is_ok (adguard_rounds s fuel key budget).
Proof using s_ok.
  revert key budget. induction fuel as [|fuel IH]; intros key budget Hf; [lia|]. cbn [adguard_rounds].
  destruct (adguard_has_ok (S ADGUARD_MAX_DEPTH) (8 :: key) 0 budget) as (b & r & -> & _).
  { split; [lia|apply len_nonneg]. }
  cbn [mbind outcome_bind fst snd]. destruct b; [by eexists|]. destruct (after_dot key) as [key'|] eqn:E; [|by eexists].
  apply after_dot_shorter in E. apply IH. lia.
Qed.
End total.

(** A query on a well-formed set always answers. *)
Lemma matches_domain_ok s domain : compact_ok s -> is_ok (matches_domain s domain).
Proof. intros Hs. apply domain_walk_ok; [done|]. split; [lia|apply len_nonneg]. Qed.

Lemma matches_adguard_ok s domain : compact_ok s -> is_ok (matches_adguard s domain).
Proof.
  intros Hs. unfold matches_adguard. destruct (adguard_has_ok s Hs (S ADGUARD_MAX_DEPTH) (reverse_domain domain) 0 1000000) as (b & r & -> & _).
  { split; [lia|apply len_nonneg]. }
  cbn [mbind outcome_bind fst snd]. destruct b; [by eexists|]. apply adguard_rounds_ok; [done|lia].
Qed.

(** ** An example set *)

Module CompactSetExample.

(** The domain [a] and everything below it *)
Definition suffix_a : CompactDomainSet := mkCompactSet [4] [0; 1; 2; 2] [97; 10] 1.

Example suffix_a_answers :
  matches_domain suffix_a "a" = Ok true /\ matches_domain suffix_a "x.a" = Ok true
  /\ matches_domain suffix_a "ba" = Ok false /\ matches_adguard suffix_a "x.a" = Ok true.
Proof. vm_compute. done. Qed.

End CompactSetExample.
