(* ===== verification/SrsDecode.v ===== *)
(** * Decoding succinct domain sets from SRS files
    ([core-ruleset/src/parser/srs.rs])

    The bounds-checked [Reader], the decoder-wide limits of [DecodeState] and
    [read_compact_domain_set], which turns the level-order bitmap of a domain set into the
    offsets of a [CompactDomainSet].  A failed read ends the decoding, so an error drops
    the reader and the counters.  [try_reserve_exact] is taken to succeed. *)

From stdpp Require Import base list gmap strings numbers option.
From S2P Require Import Prelude CompactSet.

Definition MAX_TOTAL_STRING_BYTES : Z := 64 * 1024 * 1024.
Definition MAX_SEMANTIC_ITEMS : Z := 2097152.
Definition MAX_DOMAIN_NODES : Z := 8 * 1024 * 1024.
Definition MAX_DOMAIN_DEPTH : Z := 1024.
Definition MAX_DOMAIN_BITMAP_WORDS : Z := div_ceil (2 * MAX_DOMAIN_NODES - 1) 64.

(** ** [Reader] *)

Record Reader : Type := mkReader { rd_bytes : list Z; rd_position : Z }.

Definition Reader_new (bytes : list Z) : Reader := mkReader bytes 0.

Definition take_bytes (r : Reader) (length : Z) : outcome (list Z * Reader) :=
  e ← ok_or (checked_add 64 (rd_position r) length) InvalidData;
  if (rd_position r <=? e) && (e <=? len (rd_bytes r))
  then Ok (slice (rd_bytes r) (rd_position r) e, mkReader (rd_bytes r) e)
  else Err InvalidData.

Definition read_u8 (r : Reader) : outcome (Z * Reader) :=
  '(b, r) ← take_bytes r 1; x ← index b 0; Ok (x, r).

Definition read_u64_be (r : Reader) : outcome (Z * Reader) :=
  '(b, r) ← take_bytes r 8; Ok (be_val b, r).

(** [((64 - value.leading_zeros()) as usize).div_ceil(7)], one byte for zero *)
Definition uvarint_length (value : Z) : Z :=
  if value =? 0 then 1 else div_ceil (Z.log2 value + 1) 7.

(** The [for index in 0..10] loop; [n] is the number of bytes left. *)
Fixpoint uvarint_loop (n : nat) (index value : Z) (r : Reader) : outcome (Z * Reader) :=
  match n with
  | O => Err InvalidData
  | S n' =>
    '(byte, r) ← read_u8 r;
    if (index =? 9) && (1 <? byte) then Err InvalidData else
    let value := Z.lor value (Z.shiftl (Z.land byte 127) (index * 7)) in
    if Z.land byte 128 =? 0 then
      if uvarint_length value =? index + 1 then Ok (value, r) else Err InvalidData
    else uvarint_loop n' (index + 1) value r
  end.

Definition read_uvarint (r : Reader) : outcome (Z * Reader) := uvarint_loop 10 0 0 r.

Definition read_len (r : Reader) (maximum : Z) : outcome (Z * Reader) :=
  '(value, r) ← read_uvarint r;
  if maximum <? value then Err InvalidData else Ok (value, r).

Fixpoint read_u64_list (n : nat) (r : Reader) : outcome (list Z * Reader) :=
  match n with
  | O => Ok ([], r)
  | S n' => '(x, r) ← read_u64_be r; '(xs, r) ← read_u64_list n' r; Ok (x :: xs, r)
  end.

Definition read_u64_slice (r : Reader) (maximum : Z) : outcome (list Z * Reader) :=
  '(count, r) ← read_len r maximum; read_u64_list (Z.to_nat count) r.

(** ** [DecodeState] *)

Record DecodeState : Type := mkDecodeState {
  ds_version : Z; ds_total_rule_nodes : Z; ds_total_list_items : Z;
  ds_total_string_bytes : Z; ds_total_regex_bytes : Z; ds_total_semantic_items : Z
}.

Definition DecodeState_new (version : Z) : DecodeState := mkDecodeState version 0 0 0 0 0.

Definition add_string_bytes (st : DecodeState) (count : Z) : outcome DecodeState :=
  let total := saturating_add 64 (ds_total_string_bytes st) count in
  if MAX_TOTAL_STRING_BYTES <? total then Err InvalidData
  else Ok (mkDecodeState (ds_version st) (ds_total_rule_nodes st) (ds_total_list_items st) total
             (ds_total_regex_bytes st) (ds_total_semantic_items st)).

Definition add_semantic_items (st : DecodeState) (count : Z) : outcome DecodeState :=
  let total := saturating_add 64 (ds_total_semantic_items st) count in
  if MAX_SEMANTIC_ITEMS <? total then Err InvalidData
  else Ok (mkDecodeState (ds_version st) (ds_total_rule_nodes st) (ds_total_list_items st)
             (ds_total_string_bytes st) (ds_total_regex_bytes st) total).

(** ** The level-order bitmap *)

Definition bitmap_bit (bitmap : list Z) (i : Z) : bool :=
  match index bitmap (i / 64) with Ok word => Z.testbit word (i mod 64) | _ => false end.

(** [label_index], [bit_index] and [depths] of the loops *)
Record Build : Type := mkBuild { bd_label : Z; bd_bit : Z; bd_depths : list Z }.

(** The inner [loop]: the children of one node, up to its terminating one bit *)
Fixpoint child_loop (fuel : nat) (bitmap : list Z) (effective_bits labels_length node : Z) (b : Build) : outcome Build :=
  match fuel with
  | O => Panic
  | S fuel' =>
    if effective_bits <=? bd_bit b then Err InvalidData else
    let bit := bitmap_bit bitmap (bd_bit b) in
    if bit then Ok (mkBuild (bd_label b) (bd_bit b + 1) (bd_depths b)) else
    if labels_length <=? bd_label b then Err InvalidData else
    d ← index (bd_depths b) node;
    if MAX_DOMAIN_DEPTH <? d + 1 then Err InvalidData else
    child_loop fuel' bitmap effective_bits labels_length node
      (mkBuild (bd_label b + 1) (bd_bit b + 1) (bd_depths b ++ [d + 1]))
  end.

(** The outer loop over [nodes] nodes from [node]; the offsets are pushed on the way. *)
Fixpoint node_loop (nodes : nat) (node : Z) (bitmap : list Z) (effective_bits labels_length : Z) (b : Build)
    : outcome (list Z * Build) :=
  match nodes with
  | O => Ok ([], b)
  | S nodes' =>
    offset ← try_from_u 32 (bd_label b) InvalidData;
    b ← child_loop (S (Z.to_nat (effective_bits - bd_bit b))) bitmap effective_bits labels_length node b;
    '(offsets, b) ← node_loop nodes' (node + 1) bitmap effective_bits labels_length b;
    Ok (offset :: offsets, b)
  end.

(** [leaves.last()] *)
Definition last_word (l : list Z) : option Z := head (rev l).

Definition above_mask (word bits : Z) : bool :=
  negb (Z.land word (Z.lnot (Z.shiftl 1 (bits mod 64) - 1)) =? 0).

Definition read_compact_domain_set (r : Reader) (st : DecodeState) : outcome (CompactDomainSet * Reader * DecodeState) :=
  '(set_version, r) ← read_u8 r;
  if negb (set_version =? 0) then Err InvalidData else
  '(leaves, r) ← read_u64_slice r MAX_DOMAIN_BITMAP_WORDS;
  '(label_bitmap, r) ← read_u64_slice r MAX_DOMAIN_BITMAP_WORDS;
  '(labels_length, r) ← read_len r (MAX_DOMAIN_NODES - 1);
  st ← add_string_bytes st labels_length;
  '(label_bytes, r) ← take_bytes r labels_length;
  node_count ← ok_or (checked_add 64 labels_length 1) InvalidData;
  let effective_bits := node_count * 2 - 1 in
  if negb (len label_bitmap =? div_ceil effective_bits 64) then Err InvalidData else
  if negb (effective_bits mod 64 =? 0) && above_mask (default 0 (last_word label_bitmap)) effective_bits then Err InvalidData else
  let allowed_leaf_words := div_ceil node_count 64 in
  if allowed_leaf_words <? len leaves then Err InvalidData else
  if bool_decide (last_word leaves = Some 0) then Err InvalidData else
  if negb (len leaves =? 0) && negb (node_count mod 64 =? 0) && (len leaves =? allowed_leaf_words)
     && above_mask (default 0 (last_word leaves)) node_count then Err InvalidData else
  '(offsets, b) ← node_loop (Z.to_nat node_count) 0 label_bitmap effective_bits labels_length (mkBuild 0 0 [0]);
  last_offset ← try_from_u 32 (bd_label b) InvalidData;
  if negb (bd_bit b =? effective_bits) || negb (bd_label b =? labels_length) then Err InvalidData else
  let terminal_count := foldr (fun w acc => count_ones w + acc) 0 leaves in
  if terminal_count =? 0 then Err InvalidData else
  st ← add_semantic_items st terminal_count;
  Ok (mkCompactSet leaves (offsets ++ [last_offset]) label_bytes terminal_count, r, st).

(** ** Decoded sets are well formed *)

Lemma take_bytes_inv r n b r' : take_bytes r n = Ok (b, r') -> 0 <= rd_position r -> 0 <= n -> len b = n.
Proof.
  unfold take_bytes. intros Ht Hp Hn. apply bind_Ok in Ht as (e & He & Ht). apply ok_or_Ok, checked_add_Some in He as [_ ->].
  destruct (_ && _) eqn:E; [|done]. injection Ht as <- _. apply andb_prop in E as [E1 E2]. rewrite len_slice; lia.
Qed.

(** Reading moves the position forward only, over the same bytes. *)
Definition forward (r r' : Reader) : Prop := rd_bytes r' = rd_bytes r /\ (0 <= rd_position r -> 0 <= rd_position r').

Lemma forward_trans r1 r2 r3 : forward r1 r2 -> forward r2 r3 -> forward r1 r3.
Proof. intros [E1 H1] [E2 H2]. split; [congruence|auto]. Qed.

Lemma take_bytes_forward r n b r' : take_bytes r n = Ok (b, r') -> forward r r'.
Proof.
  unfold take_bytes, forward. intros Ht. apply bind_Ok in Ht as (e & He & Ht).
  destruct (_ && _) eqn:E; [|done]. injection Ht as _ <-. apply andb_prop in E as [E1 _]. cbn. split; [done|lia].
Qed.

Lemma read_u8_forward r x r' : read_u8 r = Ok (x, r') -> forward r r'.
Proof.
  unfold read_u8. intros Hr. apply bind_Ok in Hr as ([b r1] & Ht & Hr). apply bind_Ok in Hr as (y & _ & Hr).
  injection Hr as _ <-. by eapply take_bytes_forward.
Qed.

Lemma uvarint_loop_inv n i v r x r' :
  0 <= i -> 0 <= v -> uvarint_loop n i v r = Ok (x, r') -> 0 <= x /\ forward r r'.
Proof.
  revert i v r. induction n as [|n IH]; intros i v r Hi Hv Hl; [done|]. cbn [uvarint_loop] in Hl.
  apply bind_Ok in Hl as ([byte r1] & Hb & Hl). apply read_u8_forward in Hb. destruct (_ && _); [done|].
  set (w := Z.lor v _) in Hl.
  assert (Hw : 0 <= w) by (apply Z.lor_nonneg; split; [done|]; apply Z.shiftl_nonneg, Z.land_nonneg; lia).
  destruct (Z.land byte 128 =? 0).
  - destruct (_ =? _); [|done]. injection Hl as <- <-. done.
  - destruct (IH (i + 1) w r1 ltac:(lia) Hw Hl) as [Hx Hf]. split; [done|]. by eapply forward_trans.
Qed.

Lemma read_len_inv r m x r' : read_len r m = Ok (x, r') -> 0 <= x <= m /\ forward r r'.
Proof.
  unfold read_len, read_uvarint. intros Hr. apply bind_Ok in Hr as ([v r1] & Hv & Hr).
  destruct (uvarint_loop_inv 10 0 0 r v r1 ltac:(lia) ltac:(lia) Hv) as [H0 Hf].
  destruct (Z.ltb_spec m v); [done|]. injection Hr as <- <-. split; [lia|done].
Qed.

Lemma read_u64_slice_forward r m l r' : read_u64_slice r m = Ok (l, r') -> forward r r'.
Proof.
  unfold read_u64_slice. intros Hr. apply bind_Ok in Hr as ([c r1] & Hc & Hr). apply read_len_inv in Hc as [_ Hc].
  revert l r1 Hc Hr. induction (Z.to_nat c) as [|n IH]; intros l r1 Hc Hr; cbn in Hr; [by injection Hr as _ <-|].
  unfold read_u64_be in Hr. apply bind_Ok in Hr as ([x r2] & Hx & Hr). apply bind_Ok in Hx as ([b r3] & Hb & Hx).
  injection Hx as _ <-. apply take_bytes_forward in Hb. apply bind_Ok in Hr as ([xs r4] & Hxs & Hr). injection Hr as _ <-.
  apply (IH xs r3); [|done]. by eapply forward_trans.
Qed.

Lemma child_loop_inv fuel bitmap eff k node b b' :
  bd_label b <= k -> child_loop fuel bitmap eff k node b = Ok b' -> bd_label b <= bd_label b' <= k.
Proof.
  revert b. induction fuel as [|fuel IH]; intros b Hb Hl; [done|]. cbn [child_loop] in Hl.
  destruct (eff <=? bd_bit b); [done|]. destruct (bitmap_bit _ _); [by injection Hl as <-|].
  destruct (Z.leb_spec k (bd_label b)); [done|]. apply bind_Ok in Hl as (d & _ & Hl).
  destruct (_ <? _); [done|]. apply IH in Hl; cbn in *; lia.
Qed.

Lemma node_loop_inv nodes node bitmap eff k b offs b' :
  0 <= bd_label b <= k -> node_loop nodes node bitmap eff k b = Ok (offs, b') ->
  length offs = nodes /\ Forall (fun o => 0 <= o <= k) offs /\ 0 <= bd_label b' <= k.
Proof.
  revert node b offs. induction nodes as [|nodes IH]; intros node b offs Hb Hl; cbn [node_loop] in Hl.
  - injection Hl as <- <-. done.
  - apply bind_Ok in Hl as (o & Ho & Hl). unfold try_from_u in Ho. case_match; [|done]. injection Ho as <-.
    apply bind_Ok in Hl as (b1 & Hb1 & Hl). apply bind_Ok in Hl as ([offs1 b2] & Hn & Hl). injection Hl as <- <-.
    apply child_loop_inv in Hb1; [|lia]. destruct (IH (node + 1) b1 offs1 ltac:(lia) Hn) as (Hlen & Hf & Hb2).
    split; [cbn; by rewrite Hlen|]. split; [|done]. by constructor.
Qed.

Lemma read_compact_domain_set_ok r st s r' st' :
  0 <= rd_position r -> read_compact_domain_set r st = Ok (s, r', st') -> compact_ok s /\ forward r r'.
Proof.
  intros Hp Hr.
  unfold read_compact_domain_set in Hr.
  apply bind_Ok in Hr as ([v r1] & H1 & Hr). apply read_u8_forward in H1. destruct (negb _); [done|].
  apply bind_Ok in Hr as ([leaves r2] & H2 & Hr). apply read_u64_slice_forward in H2.
  apply bind_Ok in Hr as ([bitmap r3] & H3 & Hr). apply read_u64_slice_forward in H3.
  apply bind_Ok in Hr as ([k r4] & H4 & Hr). apply read_len_inv in H4 as [Hk H4].
  apply bind_Ok in Hr as (st1 & _ & Hr). apply bind_Ok in Hr as ([labels r5] & H5 & Hr).
  pose proof (take_bytes_forward _ _ _ _ H5) as H6. pose proof (forward_trans _ _ _ H1 (forward_trans _ _ _ H2 (forward_trans _ _ _ H3 H4))) as H14. apply take_bytes_inv in H5; [|by apply H14|lia].
  apply bind_Ok in Hr as (n & Hn & Hr). apply ok_or_Ok, checked_add_Some in Hn as [_ ->].
  do 5 (match type of Hr with (if ?b then _ else _) = _ => destruct b eqn:?; [discriminate Hr|] end).
  apply bind_Ok in Hr as ([offs b] & Hl & Hr). apply node_loop_inv in Hl as (Hlen & Hf & Hb); [|cbn; lia].
  apply bind_Ok in Hr as (o & Ho & Hr). unfold try_from_u in Ho. destruct (bd_label b <? 2 ^ 32) in Ho; [|done]. injection Ho as <-.
  do 2 (match type of Hr with (if ?b then _ else _) = _ => destruct b eqn:?; [discriminate Hr|] end).
  apply bind_Ok in Hr as (st2 & _ & Hr). injection Hr as <- <- _. split; [|by eapply forward_trans].
  split; cbn [cd_child_offsets cd_labels]; rewrite H5.
  - rewrite len_app, len_cons, len_nil. unfold len at 1. rewrite Hlen. lia.
  - apply Forall_app_2; [done|]. by constructor.
Qed.

(** A domain set that the SRS decoder accepts, from whatever bytes, is well formed,
    so that every later query on it answers: no name makes [matches_domain] or
    [matches_adguard] index out of range, and the AdGuard search ends within its depth and
    work budget. *)
Theorem srs_decoded_set_answers r st s r' st' :
  0 <= rd_position r -> read_compact_domain_set r st = Ok (s, r', st') ->
  compact_ok s
  /\ forall domain, (exists b, matches_domain s domain = Ok b) /\ (exists b, matches_adguard s domain = Ok b).
Proof.
  intros Hp Hr. apply read_compact_domain_set_ok in Hr as [Hs _]; [|done].
  split; [done|]. intros d. split; [by apply matches_domain_ok|by apply matches_adguard_ok].
Qed.

(** ** A crash on a malformed set *)

(** The loop has fuel for all the bits that are left: it panics only at [depths[node]]. *)
Lemma child_loop_panic fuel bitmap eff k node b :
  (Z.to_nat (eff - bd_bit b) < fuel)%nat -> child_loop fuel bitmap eff k node b = Panic ->
  index (bd_depths b) node = Panic.
Proof.
  revert b. induction fuel as [|fuel IH]; intros b Hf Hl; [lia|]. cbn [child_loop] in Hl.
  destruct (Z.leb_spec eff (bd_bit b)); [done|]. destruct (bitmap_bit _ _); [done|]. destruct (_ <=? _); [done|].
  destruct (index (bd_depths b) node) as [d| |] eqn:Ed; [|done|done]. cbn in Hl. destruct (_ <? _); [done|].
  apply IH in Hl; [|cbn; lia]. cbn in Hl. unfold index in *. destruct (0 <=? node); [|done].
  destruct (bd_depths b !! Z.to_nat node) as [x|] eqn:Ex; [|done]. by rewrite (lookup_app_l_Some _ _ _ _ Ex) in Hl.
Qed.

Definition u64_bytes (z : Z) : list Z := be_bytes 8 z.

(** One label, two nodes: the bitmap 1, 0, 1 gives the root no child and node 1 one. *)
Definition orphan_set : list Z := [0; 1] ++ u64_bytes 1 ++ [1] ++ u64_bytes 5 ++ [1; 97].

(** The decoder crashes on untrusted input: a bitmap that gives children to a node
    which no earlier node has as a child makes [depths[node_index]] index out of range, so
    that 21 bytes of a downloaded rule set panic (release builds abort on panic).  The
    crash is in the loop over node 1, whose only depth so far is the root's. *)
Theorem srs_decode_panics_on_orphan_node :
  read_compact_domain_set (Reader_new orphan_set) (DecodeState_new 1) = Panic
  /\ child_loop 3 [5] 3 1 1 (mkBuild 0 1 [0]) = Panic
  /\ index (bd_depths (mkBuild 0 1 [0])) 1 = Panic.
Proof.
  assert (Hloop : child_loop 3 [5] 3 1 1 (mkBuild 0 1 [0]) = Panic) by (vm_compute; reflexivity).
  split; [vm_compute; reflexivity|]. split; [exact Hloop|].
  exact (child_loop_panic 3 [5] 3 1 1 (mkBuild 0 1 [0]) ltac:(cbn; lia) Hloop).
Qed.

(** ** Witnesses *)

Module SrsWitness.

(** The domain [a] and everything below it: bitmap 0, 1, 0, 1, 1 and node 2 a leaf *)
Definition encoded : list Z := [0; 1] ++ u64_bytes 4 ++ [1] ++ u64_bytes 26 ++ [2; 97; 10].

Definition decoded : outcome CompactDomainSet :=
  '(s, _, _) ← read_compact_domain_set (Reader_new encoded) (DecodeState_new 1); Ok s.

Example decoded_suffix_a : decoded = Ok (mkCompactSet [4] [0; 1; 2; 2] [97; 10] 1).
Proof. vm_compute. reflexivity. Qed.

Lemma srs_decoded_set_answers_witness :
  match read_compact_domain_set (Reader_new encoded) (DecodeState_new 1) with
  | Ok (s, _, _) => exists b, matches_domain s "x.a" = Ok b
  | _ => False
  end.
Proof.
  destruct (read_compact_domain_set (Reader_new encoded) (DecodeState_new 1)) as [[[s r'] st']| |] eqn:E;
    [|by vm_compute in E|by vm_compute in E].
  apply (srs_decoded_set_answers (Reader_new encoded) (DecodeState_new 1) s r' st'); [done|done].
Defined.
End SrsWitness.
