(* ===== verification/RulesetIr.v ===== *)
(** * Semantic rule sets ([core-ruleset/src/ir.rs])

    The boolean expression tree shared by the JSON and SRS front ends: its leaf
    predicates on a [RulesetMatchContext], eager evaluation ([matches]) and three-valued
    lazy evaluation ([matches_lazy]).  [RulesetMatcher.v] puts such programs and the flat
    matchers into the index the routing engine asks.

    [RegexSet] is the crate's; the succinct domain sets are those of [CompactSet.v], whose
    queries do not panic on a well-formed set. *)

From stdpp Require Import base list gmap strings numbers option.
From S2P Require Import Prelude Text Net Instances RouteModel RouteMatch RouteInstances RouteSpec RouteEngine RouteDeferral CompactSet.

Class RulesetLib := {
  RegexSet : Type;
  regex_set_is_match : RegexSet -> string -> bool;
  (** [cfg!(target_os = "android")] *)
  target_android : bool
}.

(** [PortRange] *)
Record PortRange : Type := mkPortRange { pg_start : Z; pg_end : Z }.

Definition PortRange_new (s e : Z) : option PortRange := if s <=? e then Some (mkPortRange s e) else None.
Definition port_range_contains (r : PortRange) (port : Z) : bool := (pg_start r <=? port) && (port <=? pg_end r).

Section ir.
Context `{IpNetLib, !RouteLib, NetText, StrCase, RulesetLib}.

Inductive RulesetPredicate : Type :=
| PDomain (l : list string) | PDomainSuffix (l : list string) | PDomainKeyword (l : list string)
| PDomainRegex (r : RegexSet)
| PDstIpCidr (l : list IpNet) | PSrcIpCidr (l : list IpNet)
| PDstPort (l : list PortRange) | PSrcPort (l : list PortRange)
| PProcessName (l : list string) | PNetwork (l : list string)
| PSingboxDomainMatcher (s : CompactDomainSet) | PSingboxDomainKeyword (l : list string)
| PSingboxDomainRegex (r : RegexSet) | PSingboxNetwork (l : list string)
| PQueryType (l : list Z)
| PProcessPath (l : list string) | PProcessPathRegex (r : RegexSet)
| PPackageName (l : list string) | PPackageNameRegex (r : RegexSet)
| PWifiSsid (l : list string) | PWifiBssid (l : list string)
| PNetworkType (l : list Z) | PNetworkIsExpensive | PNetworkIsConstrained
| PNetworkInterfaceAddress (l : list (Z * list IpNet))
| PDefaultInterfaceAddress (l : list IpNet)
| PAdGuardDomainMatcher (s : CompactDomainSet).

Inductive RulesetExpr : Type :=
| EAny (children : list RulesetExpr)
| EAll (children : list RulesetExpr)
| ENot (child : RulesetExpr)
| EPredicate (p : RulesetPredicate).

(** ** Text *)

Definition normalize_domain (value : string) : string :=
  let trimmed := trim_end_char 46 (str_trim value) in
  to_lowercase (default (to_lowercase trimmed) (domain_to_ascii trimmed)).

Definition singbox_domain (value : string) : string := to_lowercase value.

Definition domain_has_suffix (host suffix : string) : bool :=
  let h := str_bytes host in
  let s := str_bytes suffix in
  if starts_with s [46] then (1 <? len s) && (len s <? len h) && ends_with h s
  else bool_decide (h = s)
       || ((len s <? len h) && ends_with h s && bool_decide (index h (len h - len s - 1) = Ok 46)).

Definition is_hexdigit (c : Z) : bool := in_range 48 57 c || in_range 65 70 c || in_range 97 102 c.

Definition normalize_wifi_bssid (value : string) : string :=
  let trimmed := str_trim value in
  let compact := List.filter (fun c => negb ((c =? 58) || (c =? 45) || (c =? 46))) (str_bytes trimmed) in
  if (len compact =? 12) && forallb is_hexdigit compact
  then to_ascii_lowercase (join ":" (str_of_bytes <$> chunks_exact 2 compact))
  else trimmed.

Definition ip_networks_overlap (a b : IpNet) : bool :=
  match a, b with
  | Net4 x, Net4 y => net4_contains x (net4_network y) || net4_contains y (net4_network x)
  | Net6 x, Net6 y => net6_contains x (net6_network y) || net6_contains y (net6_network x)
  | _, _ => false
  end.

Definition destination_ip (ctx : RulesetMatchContext) : option IpAddr :=
  match rc_dst_ip ctx with Some ip => Some ip | None => parse_ip (rc_dst_host ctx) end.

(** [opt.map(f).unwrap_or(false)] *)
Definition opt_holds {A} (o : option A) (f : A -> bool) : bool := match o with Some a => f a | None => false end.

Definition mem (l : list string) (s : string) : bool := existsb (String.eqb s) l.
Definition memz (l : list Z) (z : Z) : bool := existsb (Z.eqb z) l.
Definition in_ranges (l : list PortRange) (port : Z) : bool := existsb (fun r => port_range_contains r port) l.

(** [let host = normal(ctx.dst_host); !host.is_empty() && f(&host)] *)
Definition on_host (host : string) (f : string -> bool) : bool := negb (String.eqb host "") && f host.

(** ** [RulesetPredicate::matches] *)
Definition predicate_matches (p : RulesetPredicate) (ctx : RulesetMatchContext) : bool :=
  match p with
  | PDomain l => on_host (normalize_domain (rc_dst_host ctx)) (mem l)
  | PDomainSuffix l => on_host (normalize_domain (rc_dst_host ctx)) (fun h => existsb (domain_has_suffix h) l)
  | PDomainKeyword l => on_host (normalize_domain (rc_dst_host ctx)) (fun h => existsb (str_contains h) l)
  | PDomainRegex r => on_host (normalize_domain (rc_dst_host ctx)) (regex_set_is_match r)
  | PDstIpCidr l => opt_holds (destination_ip ctx) (in_nets l)
  | PSrcIpCidr l => opt_holds (rc_src_ip ctx) (in_nets l)
  | PDstPort l => opt_holds (rc_dst_port ctx) (in_ranges l)
  | PSrcPort l => opt_holds (rc_src_port ctx) (in_ranges l)
  | PProcessName l => opt_holds (rc_process_name ctx) (mem l)
  | PNetwork l => opt_holds (rc_network ctx) (fun n => existsb (fun c => eq_ignore_ascii_case c n) l)
  | PSingboxDomainMatcher s => on_host (singbox_domain (rc_dst_host ctx)) (fun h => bool_decide (matches_domain s h = Ok true))
  | PSingboxDomainKeyword l => on_host (singbox_domain (rc_dst_host ctx)) (fun h => existsb (str_contains h) l)
  | PSingboxDomainRegex r => on_host (singbox_domain (rc_dst_host ctx)) (regex_set_is_match r)
  | PSingboxNetwork l => opt_holds (rc_network ctx) (mem l)
  | PQueryType l => opt_holds (rc_query_type ctx) (fun q => negb (q =? 0) && memz l q)
  | PProcessPath l =>
    opt_holds (rc_process_path ctx) (fun path => negb (String.eqb path "") && mem l path)
    || (target_android && existsb (mem l) (rc_package_names ctx))
  | PProcessPathRegex r => opt_holds (rc_process_path ctx) (fun path => negb (String.eqb path "") && regex_set_is_match r path)
  | PPackageName l => existsb (mem l) (rc_package_names ctx)
  | PPackageNameRegex r => existsb (regex_set_is_match r) (rc_package_names ctx)
  | PWifiSsid l => opt_holds (rc_wifi_ssid ctx) (mem l)
  | PWifiBssid l => opt_holds (rc_wifi_bssid ctx) (fun b => mem l (normalize_wifi_bssid b))
  | PNetworkType l => opt_holds (rc_network_type ctx) (memz l)
  | PNetworkIsExpensive => bool_decide (rc_network_is_expensive ctx = Some true)
  | PNetworkIsConstrained => bool_decide (rc_network_is_constrained ctx = Some true)
  | PNetworkInterfaceAddress reqs =>
    negb (len (rc_network_interface_addresses ctx) =? 0)
    && forallb (fun req =>
         existsb (fun ifc => negb (ia_is_own ifc) && (ia_interface_type ifc =? req.1)
                             && existsb (fun prefix => ip_networks_overlap prefix (ia_address ifc)) req.2)
                 (rc_network_interface_addresses ctx)) reqs
  | PDefaultInterfaceAddress prefixes =>
    negb (len (rc_default_interface_addresses ctx) =? 0)
    && forallb (fun prefix => existsb (ip_networks_overlap prefix) (rc_default_interface_addresses ctx)) prefixes
  | PAdGuardDomainMatcher s => on_host (singbox_domain (rc_dst_host ctx)) (fun h => bool_decide (matches_adguard s h = Ok true))
  end.

Definition requires_process_metadata (p : RulesetPredicate) : bool :=
  match p with
  | PProcessName _ | PProcessPath _ | PProcessPathRegex _ | PPackageName _ | PPackageNameRegex _ => true
  | _ => false
  end.

Definition requires_destination_ip (p : RulesetPredicate) : bool :=
  match p with PDstIpCidr _ => true | _ => false end.

(** ** [RulesetExpr] *)

Fixpoint expr_matches (e : RulesetExpr) (ctx : RulesetMatchContext) : bool :=
  match e with
  | EAny children => existsb (fun c => expr_matches c ctx) children
  | EAll children => forallb (fun c => expr_matches c ctx) children
  | ENot child => negb (expr_matches child ctx)
  | EPredicate p => predicate_matches p ctx
  end.

(** [RulesetMatchOutcome::deferred] and [requirements] *)
Definition outcome_deferred (process destination_ip : bool) : RulesetMatchOutcome :=
  match process, destination_ip with
  | false, false => RsNotMatched
  | true, false => RsNeedsProcess
  | false, true => RsNeedsDestinationIp
  | true, true => RsNeedsProcessAndDestinationIp
  end.

Definition outcome_requirements (o : RulesetMatchOutcome) : bool * bool :=
  match o with
  | RsNeedsProcess => (true, false)
  | RsNeedsDestinationIp => (false, true)
  | RsNeedsProcessAndDestinationIp => (true, true)
  | _ => (false, false)
  end.

Fixpoint any_loop (f : RulesetExpr -> RulesetMatchOutcome) (l : list RulesetExpr) (np nd : bool) : RulesetMatchOutcome :=
  match l with
  | [] => outcome_deferred np nd
  | child :: l' =>
    match f child with
    | RsMatched => RsMatched
    | RsNotMatched => any_loop f l' np nd
    | o => let '(p, d) := outcome_requirements o in any_loop f l' (np || p) (nd || d)
    end
  end.

Fixpoint all_loop (f : RulesetExpr -> RulesetMatchOutcome) (l : list RulesetExpr) (np nd : bool) : RulesetMatchOutcome :=
  match l with
  | [] => if np || nd then outcome_deferred np nd else RsMatched
  | child :: l' =>
    match f child with
    | RsNotMatched => RsNotMatched
    | RsMatched => all_loop f l' np nd
    | o => let '(p, d) := outcome_requirements o in all_loop f l' (np || p) (nd || d)
    end
  end.

Definition outcome_not (o : RulesetMatchOutcome) : RulesetMatchOutcome :=
  match o with RsMatched => RsNotMatched | RsNotMatched => RsMatched | deferred => deferred end.

Fixpoint matches_lazy (ctx : RulesetMatchContext) (pr dr : bool) (e : RulesetExpr) : RulesetMatchOutcome :=
  match e with
  | EAny children => any_loop (matches_lazy ctx pr dr) children false false
  | EAll children => all_loop (matches_lazy ctx pr dr) children false false
  | ENot child => outcome_not (matches_lazy ctx pr dr child)
  | EPredicate p =>
    let needs_process := negb pr && requires_process_metadata p in
    let needs_destination_ip := negb dr && requires_destination_ip p in
    if needs_process || needs_destination_ip then outcome_deferred needs_process needs_destination_ip
    else if predicate_matches p ctx then RsMatched else RsNotMatched
  end.

Record RulesetProgram : Type := mkProgram { rg_version : Z; rg_rule_count : Z; rg_root : RulesetExpr }.

Definition program_matches (p : RulesetProgram) (ctx : RulesetMatchContext) : bool := expr_matches (rg_root p) ctx.

Definition matches_deferred (p : RulesetProgram) (ctx : RulesetMatchContext) (pr dr : bool) : RulesetMatchOutcome :=
  matches_lazy ctx pr dr (rg_root p).

(** [visit_destination_ip_cidrs] with the collecting visitor, and [is_destination_ip_union] *)
Fixpoint expr_cidrs (e : RulesetExpr) : list IpNet :=
  match e with
  | EAny children | EAll children => concat (map expr_cidrs children)
  | ENot child => expr_cidrs child
  | EPredicate (PDstIpCidr l) => l
  | EPredicate _ => []
  end.

Fixpoint is_destination_ip_union (e : RulesetExpr) : bool :=
  match e with
  | EPredicate (PDstIpCidr _) => true
  | EAny children => forallb is_destination_ip_union children
  | EAll [child] => is_destination_ip_union child
  | EAll _ | ENot _ | EPredicate _ => false
  end.

Definition destination_ip_cidrs (p : RulesetProgram) : list IpNet := expr_cidrs (rg_root p).
Definition is_exact_destination_ip_set (p : RulesetProgram) : bool := is_destination_ip_union (rg_root p).

(** ** Induction over expressions *)

Section expr_induction.
  Variable P : RulesetExpr -> Prop.
  Hypothesis P_any : forall children, Forall P children -> P (EAny children).
  Hypothesis P_all : forall children, Forall P children -> P (EAll children).
  Hypothesis P_enot : forall child, P child -> P (ENot child).
  Hypothesis P_pred : forall p, P (EPredicate p).

Lemma expr_ind : forall e, P e.
Proof using All.
  fix IH 1. intros [children|children|child|p].
  - apply P_any. induction children as [|x l IHl]; constructor; [apply IH|exact IHl].
  - apply P_all. induction children as [|x l IHl]; constructor; [apply IH|exact IHl].
  - apply P_enot, IH.
  - apply P_pred.
Qed.
End expr_induction.

(** ** Lazy evaluation in terms of match states *)

Lemma outcome_deferred_state p d : ruleset_outcome_to_state (outcome_deferred p d) = deferred p d.
Proof. by destruct p, d. Qed.

Lemma any_loop_states f l np nd :
  ruleset_outcome_to_state (any_loop f l np nd) = or_states (map (fun e => ruleset_outcome_to_state (f e)) l) np nd.
Proof.
  revert np nd. induction l as [|e l IH]; intros np nd; cbn; [apply outcome_deferred_state|].
  destruct (f e); cbn; rewrite ?IH; done.
Qed.

Lemma all_loop_states f l np nd :
  ruleset_outcome_to_state (all_loop f l np nd) = and_states (map (fun e => ruleset_outcome_to_state (f e)) l) np nd.
Proof.
  revert np nd. induction l as [|e l IH]; intros np nd; cbn.
  - destruct (np || nd) eqn:E; [apply outcome_deferred_state|done].
  - destruct (f e); cbn; rewrite ?IH; done.
Qed.

Lemma not_outcome_state o :
  ruleset_outcome_to_state (outcome_not o) = not_state (ruleset_outcome_to_state o).
Proof. by destruct o. Qed.

Lemma predicate_state ctx pr dr p :
  ruleset_outcome_to_state (matches_lazy ctx pr dr (EPredicate p))
  = (let np := negb pr && requires_process_metadata p in
     let nd := negb dr && requires_destination_ip p in
     if np || nd then deferred np nd else bool_state (predicate_matches p ctx)).
Proof.
  cbn. destruct (_ || _); [apply outcome_deferred_state|]. by destruct (predicate_matches p ctx).
Qed.

Lemma matches_lazy_honest ctx pr dr e : honest pr dr (ruleset_outcome_to_state (matches_lazy ctx pr dr e)).
Proof.
  revert e. apply expr_ind.
  - intros l Hl. cbn [matches_lazy]. rewrite any_loop_states. apply or_states_spec; [|done|done]. by apply List.Forall_map.
  - intros l Hl. cbn [matches_lazy]. rewrite all_loop_states. apply and_states_spec; [|done|done]. by apply List.Forall_map.
  - intros e He. cbn [matches_lazy]. rewrite not_outcome_state. by destruct (ruleset_outcome_to_state _).
  - intros p. rewrite predicate_state. cbn zeta. destruct (_ || _); [|apply honest_bool_state].
    apply honest_deferred; intros [? _]%andb_prop; by apply negb_true_iff.
Qed.

(** A context that knows more: predicates that are not asked for agree on both. *)
Lemma matches_lazy_refines ctx ctx' pr dr pr' dr' e :
  (forall p, negb pr && requires_process_metadata p || negb dr && requires_destination_ip p = false ->
             negb pr' && requires_process_metadata p || negb dr' && requires_destination_ip p = false
             /\ predicate_matches p ctx' = predicate_matches p ctx) ->
  refines (ruleset_outcome_to_state (matches_lazy ctx pr dr e)) (ruleset_outcome_to_state (matches_lazy ctx' pr' dr' e)).
Proof.
  intros Hp. revert e. apply expr_ind.
  - intros l Hl. cbn [matches_lazy]. rewrite !any_loop_states.
    apply (or_states_refines pr dr pr' dr'); [| |induction Hl; by constructor];
      apply List.Forall_map, List.Forall_forall; intros; apply matches_lazy_honest.
  - intros l Hl. cbn [matches_lazy]. rewrite !all_loop_states.
    apply (and_states_refines pr dr pr' dr'); [| |induction Hl; by constructor];
      apply List.Forall_map, List.Forall_forall; intros; apply matches_lazy_honest.
  - intros e He. cbn [matches_lazy]. rewrite !not_outcome_state.
    destruct (ruleset_outcome_to_state (matches_lazy ctx pr dr e)); cbn in *; [by rewrite He|by rewrite He|done].
  - intros p. rewrite !predicate_state. cbn zeta. destruct (_ || _) eqn:E.
    + unfold deferred. by rewrite E.
    + destruct (Hp p E) as [-> ->]. apply refines_refl.
Qed.

(** Programs keep the promises the engine's deferral relies on. *)
Lemma program_refines_ip p ctx ip pr :
  refines (ruleset_outcome_to_state (matches_deferred p ctx pr false)) (ruleset_outcome_to_state (matches_deferred p (ctx_with_ip ctx (Some ip)) pr true)).
Proof. apply matches_lazy_refines. intros q Hq. cbn in *. destruct pr; cbn in *; destruct q; try done; cbn in Hq; discriminate Hq. Qed.

Lemma program_refines_process p ctx pname path packages dr :
  refines (ruleset_outcome_to_state (matches_deferred p ctx false dr)) (ruleset_outcome_to_state (matches_deferred p (ctx_with_process ctx pname path packages) true dr)).
Proof. apply matches_lazy_refines. intros q Hq. cbn in *. destruct dr; cbn in *; destruct q; try done; cbn in Hq; discriminate Hq. Qed.

(** [C29] Lazy and eager evaluation of a rule set agree: with everything resolved, lazy
    evaluation returns the boolean value of the expression; before that, a definite
    lazy answer is the value the expression has for every destination address (when the
    address is what is missing) and for every process metadata (when that is missing). *)
Theorem ruleset_lazy_agrees (prog : RulesetProgram) ctx :
  matches_deferred prog ctx true true = (if program_matches prog ctx then RsMatched else RsNotMatched)
  /\ (forall pr dr b ip pname path packages,
        matches_deferred prog ctx pr dr = (if b : bool then RsMatched else RsNotMatched) ->
        (dr = true -> ip = rc_dst_ip ctx) ->
        (pr = true -> pname = rc_process_name ctx /\ path = rc_process_path ctx /\ packages = rc_package_names ctx) ->
        program_matches prog (ctx_with_process (ctx_with_ip ctx ip) pname path packages) = b).
Proof.
  assert (Heager : forall e c, matches_lazy c true true e = (if expr_matches e c then RsMatched else RsNotMatched)).
  { intros e c. revert e. apply expr_ind.
    - intros l Hl. cbn. induction Hl as [|e l He Hl IH]; [done|]. cbn. rewrite He. by destruct (expr_matches e c).
    - intros l Hl. cbn. induction Hl as [|e l He Hl IH]; [done|]. cbn. rewrite He. by destruct (expr_matches e c).
    - intros e He. cbn. rewrite He. by destruct (expr_matches e c).
    - done. }
  split; [apply Heager|]. intros pr dr b ip pname path packages Hb Hdr Hpr. unfold program_matches, matches_deferred in *.
  set (ctx' := ctx_with_process _ _ _ _).
  assert (Hr : refines (ruleset_outcome_to_state (matches_lazy ctx pr dr (rg_root prog)))
                       (ruleset_outcome_to_state (matches_lazy ctx' true true (rg_root prog)))).
  { apply matches_lazy_refines. intros p Hp. split; [done|].
    destruct pr; [destruct (Hpr eq_refl) as (-> & -> & ->)|]; (destruct dr; [specialize (Hdr eq_refl); subst ip|]);
      subst ctx'; cbn in Hp; destruct p; try reflexivity; discriminate Hp. }
  rewrite Hb, Heager in Hr. destruct b, (expr_matches (rg_root prog) ctx'); cbn in Hr; congruence.
Qed.

(** A rule set flagged as an exact destination set is one: it matches a flow
    exactly when the extracted CIDRs contain the flow's destination address. *)
Theorem ruleset_exact_ip_set (prog : RulesetProgram) ctx :
  is_exact_destination_ip_set prog = true ->
  program_matches prog ctx = opt_holds (destination_ip ctx) (in_nets (destination_ip_cidrs prog)).
Proof.
  unfold is_exact_destination_ip_set, program_matches, destination_ip_cidrs.
  assert (Hnil : opt_holds (destination_ip ctx) (in_nets []) = false) by (by destruct (destination_ip ctx)).
  assert (Happ : forall a b, opt_holds (destination_ip ctx) (in_nets (a ++ b))
    = opt_holds (destination_ip ctx) (in_nets a) || opt_holds (destination_ip ctx) (in_nets b)).
  { intros a b. destruct (destination_ip ctx) as [ip|]; [|done]. apply existsb_app. }
  generalize (rg_root prog). apply (expr_ind (fun e => is_destination_ip_union e = true ->
    expr_matches e ctx = opt_holds (destination_ip ctx) (in_nets (expr_cidrs e)))).
  - intros l Hl He. cbn in He. induction Hl as [|e l Hm Hl IH]; [done|]. cbn in He |- *.
    apply andb_prop in He as [He Hrest]. rewrite Happ, Hm by done. f_equal. by apply IH.
  - intros l Hl He. destruct Hl as [|e l Hm Hl]; [done|]. destruct l as [|? ?]; [|done]. cbn in *.
    rewrite app_nil_r, andb_true_r. by apply Hm.
  - done.
  - intros p Hp. by destruct p.
Qed.
End ir.

(** ** Witnesses *)

Module RulesetWitness.
Import Concrete.
#[local] Existing Instance route_lib.

Definition plain_sets : RulesetLib :=
  {| RegexSet := list string; regex_set_is_match r s := existsb (str_contains s) r; target_android := false |}.
#[local] Existing Instance plain_sets.

Definition ten : IpNet := @Net4 cidr_nets (@mkCidr 32 10 24 eq_refl).

(** curl to the 10/8 network, or the domain [lan.example] *)
Definition prog : RulesetProgram :=
  mkProgram 2 2 (EAny [EAll [EPredicate (PDstIpCidr [ten]); EPredicate (PProcessName ["curl"])];
                       EPredicate (PDomain ["lan.example"])]).

Definition ctx : RulesetMatchContext := ruleset_match_context (for_domain "LAN.example" 80 NkTcp).

Lemma ruleset_lazy_agrees_witness :
  program_matches prog (ctx_with_process (ctx_with_ip ctx (Some (V4 1))) (Some "wget") None []) = true.
Proof.
  apply (proj2 (ruleset_lazy_agrees prog ctx) false false true); [vm_compute; reflexivity|done|done].
Defined.

Definition ten_prog : RulesetProgram := mkProgram 2 1 (EAny [EPredicate (PDstIpCidr [ten])]).

Lemma ruleset_exact_ip_set_witness :
  program_matches ten_prog (ctx_with_ip ctx (Some (V4 167772161))) = true.
Proof. rewrite (ruleset_exact_ip_set ten_prog _ eq_refl). vm_compute. reflexivity. Defined.

End RulesetWitness.
