(* ===== verification/SrsRule.v ===== *)
(** * Decoding SRS rule sets ([core-ruleset/src/parser/srs.rs])

    The rest of the decoder on top of [SrsDecode.v]: strings, port and prefix lists, IP sets,
    the items of a default rule, logical rules, the file envelope and the bounded
    decompression.  [dec] is the state and error monad of the code: every function takes
    [&mut Reader] and [&mut DecodeState] and may fail.

    Error messages are dropped: [ParseError::UnsupportedVersion] is [Unsupported], every other
    [ParseError] is [InvalidData], so that [add_context] is the identity.  Memory allocation
    is taken to succeed.  [flate2::Decompress] is the class [Inflater], [RegexSet::new] is
    [regex_set_new]. *)

From stdpp Require Import base list gmap strings numbers option.
From S2P Require Import Prelude Text Net Instances IpRange RouteModel RouteMatch RouteInstances CompactSet SrsDecode RulesetIr.

Definition MIN_VERSION : Z := 1.
Definition MAX_VERSION : Z := 5.
Definition MAX_COMPRESSED_BYTES : Z := 32 * 1024 * 1024.
Definition MAX_DECOMPRESSED_BYTES : Z := 128 * 1024 * 1024.
Definition MAX_RULES_PER_LIST : Z := 262144.
Definition MAX_TOTAL_RULE_NODES : Z := 524288.
Definition MAX_LOGICAL_DEPTH : Z := 64.
Definition MAX_LIST_ITEMS : Z := 1048576.
Definition MAX_TOTAL_LIST_ITEMS : Z := 2097152.
Definition MAX_STRING_BYTES : Z := 1024 * 1024.
Definition MAX_REGEX_PATTERNS : Z := 65536.
Definition MAX_REGEX_PATTERN_BYTES : Z := 64 * 1024.
Definition MAX_TOTAL_REGEX_BYTES : Z := 8 * 1024 * 1024.
Definition MAX_IP_RANGES : Z := 1048576.

(** ** The decoder monad *)

Definition dec (A : Type) : Type := Reader * DecodeState -> outcome (A * (Reader * DecodeState)).

#[global] Instance dec_ret : MRet dec := fun A a s => Ok (a, s).
#[global] Instance dec_bind : MBind dec := fun A B f m s => '(a, s) ← m s; f a s.

(** A read of the reader, a charge to the limits, a value that may be missing. *)
Definition rd {A} (f : Reader -> outcome (A * Reader)) : dec A :=
  fun s => '(a, r) ← f s.1; Ok (a, (r, s.2)).
Definition charge (f : DecodeState -> outcome DecodeState) : dec unit :=
  fun s => st ← f s.2; Ok (tt, (s.1, st)).
Definition lift {A} (o : outcome A) : dec A := fun s => a ← o; Ok (a, s).
Definition bad {A} : dec A := fun _ => Err InvalidData.
Definition version_of : dec Z := fun s => Ok (ds_version s.2, s).

(** [for _ in 0..n { values.push(d()?) }] *)
Fixpoint times {A} (n : nat) (d : dec A) : dec (list A) :=
  match n with
  | O => mret []
  | S n' => x ← d; xs ← times n' d; mret (x :: xs)
  end.

(** ** The remaining readers and limits *)

Definition read_bool (r : Reader) : outcome (bool * Reader) :=
  '(b, r) ← read_u8 r;
  if b =? 0 then Ok (false, r) else if b =? 1 then Ok (true, r) else Err InvalidData.

Definition read_u16_be (r : Reader) : outcome (Z * Reader) :=
  '(b, r) ← take_bytes r 2; Ok (be_val b, r).

Definition is_eof (r : Reader) : bool := rd_position r =? len (rd_bytes r).

Definition add_rule (st : DecodeState) (depth : Z) : outcome DecodeState :=
  if MAX_LOGICAL_DEPTH <? depth then Err InvalidData else
  let total := saturating_add 64 (ds_total_rule_nodes st) 1 in
  if MAX_TOTAL_RULE_NODES <? total then Err InvalidData
  else Ok (mkDecodeState (ds_version st) total (ds_total_list_items st) (ds_total_string_bytes st)
             (ds_total_regex_bytes st) (ds_total_semantic_items st)).

Definition add_list_items (st : DecodeState) (count : Z) : outcome DecodeState :=
  let total := saturating_add 64 (ds_total_list_items st) count in
  if MAX_TOTAL_LIST_ITEMS <? total then Err InvalidData
  else Ok (mkDecodeState (ds_version st) (ds_total_rule_nodes st) total (ds_total_string_bytes st)
             (ds_total_regex_bytes st) (ds_total_semantic_items st)).

Definition add_regex_bytes (st : DecodeState) (count : Z) : outcome DecodeState :=
  let total := saturating_add 64 (ds_total_regex_bytes st) count in
  if MAX_TOTAL_REGEX_BYTES <? total then Err InvalidData
  else Ok (mkDecodeState (ds_version st) (ds_total_rule_nodes st) (ds_total_list_items st)
             (ds_total_string_bytes st) total (ds_total_semantic_items st)).

(** ** Lists of strings, numbers and ports *)

Definition read_string_item (maximum_string_bytes : Z) : dec string :=
  length ← rd (fun r => read_len r maximum_string_bytes);
  _ ← charge (fun st => add_string_bytes st length);
  bytes ← rd (fun r => take_bytes r length);
  lift (ok_or (from_utf8 bytes) InvalidData).

Definition read_string_list (maximum_items maximum_string_bytes : Z) : dec (list string) :=
  count ← rd (fun r => read_len r maximum_items);
  _ ← charge (fun st => add_list_items st count);
  times (Z.to_nat count) (read_string_item maximum_string_bytes).

(** [try_fold] over the pattern lengths, then [add_regex_bytes] *)
Fixpoint regex_bytes (total : Z) (patterns : list string) : outcome Z :=
  match patterns with
  | [] => Ok total
  | p :: ps => t ← ok_or (checked_add 64 total (str_len p)) InvalidData; regex_bytes t ps
  end.

Definition check_regex_limits (patterns : list string) : dec unit :=
  bytes ← lift (regex_bytes 0 patterns); charge (fun st => add_regex_bytes st bytes).

(** The common head of the numeric lists *)
Definition read_count : dec Z :=
  count ← rd (fun r => read_len r MAX_LIST_ITEMS);
  _ ← charge (fun st => add_list_items st count);
  _ ← charge (fun st => add_semantic_items st count);
  mret count.

Definition read_u16_list : dec (list Z) :=
  count ← read_count; times (Z.to_nat count) (rd read_u16_be).

Definition read_u8_list : dec (list Z) :=
  count ← read_count; rd (fun r => take_bytes r count).

Definition read_port_list : dec (list PortRange) :=
  count ← read_count;
  times (Z.to_nat count) (port ← rd read_u16_be; lift (expect (PortRange_new port port))).

(** [parse_port_range]: an empty start is 0, an empty end 65535; the order is not checked. *)
Definition parse_port_range (value : string) : outcome PortRange :=
  '(s, e) ← ok_or (str_split_once 58 value) InvalidData;
  lo ← (if String.eqb s "" then Ok 0 else ok_or (parse_u16 s) InvalidData);
  hi ← (if String.eqb e "" then Ok 65535 else ok_or (parse_u16 e) InvalidData);
  Ok (mkPortRange lo hi).

Definition read_port_range_list : dec (list PortRange) :=
  values ← read_string_list MAX_LIST_ITEMS MAX_STRING_BYTES;
  _ ← charge (fun st => add_semantic_items st (len values));
  lift (collect parse_port_range values).

(** [RegexSet::new] *)
Class RegexSetNew `{RulesetLib} := { regex_set_new : list string -> option RegexSet }.

Section decoder.
Context `{IpNetLib, !IpNetNew, !RouteLib, NetText, StrCase, RulesetLib, !RegexSetNew}.

(** ** Prefixes and IP sets *)

Definition read_prefix (r : Reader) : outcome (IpNet * Reader) :=
  '(address_length, r) ← read_len r 16;
  '(address, r) ← take_bytes r address_length;
  '(prefix_bits, r) ← read_u8 r;
  if (len address =? 4) && (prefix_bits <=? 32) then
    n ← ok_or (net4_new (be_val address) prefix_bits) InvalidData; Ok (Net4 n, r)
  else if (len address =? 16) && (prefix_bits <=? 128) then
    n ← ok_or (net6_new (be_val address) prefix_bits) InvalidData; Ok (Net6 n, r)
  else Err InvalidData.

Definition read_prefix_list : dec (list IpNet) :=
  count ← read_count; times (Z.to_nat count) (rd read_prefix).

Fixpoint interface_loop (n : nat) (seen : list Z) : dec (list (Z * list IpNet)) :=
  match n with
  | O => mret []
  | S n' =>
    interface_type ← rd read_u8;
    if existsb (Z.eqb interface_type) seen then bad else
    prefixes ← read_prefix_list;
    if len prefixes =? 0 then bad else
    rest ← interface_loop n' (interface_type :: seen);
    mret ((interface_type, prefixes) :: rest)
  end.

Definition read_network_interface_addresses : dec (list (Z * list IpNet)) :=
  count ← rd (fun r => read_len r 256);
  _ ← charge (fun st => add_list_items st count);
  interface_loop (Z.to_nat count) [].

Definition read_ip_addr (r : Reader) : outcome (IpAddr * Reader) :=
  '(length, r) ← read_len r 16;
  '(bytes, r) ← take_bytes r length;
  if len bytes =? 4 then Ok (V4 (be_val bytes), r)
  else if len bytes =? 16 then Ok (V6 (be_val bytes), r)
  else Err InvalidData.

(** The order of two ranges of an IP set: IPv4 before IPv6, ascending, disjoint *)
Definition range_ordered (previous : IpAddr * IpAddr) (from : IpAddr) : bool :=
  match previous.1, previous.2, from with
  | V4 _, V4 previous_to, V4 from => previous_to <? from
  | V6 _, V6 previous_to, V6 from => previous_to <? from
  | V4 _, V4 _, V6 _ => true
  | _, _, _ => false
  end.

Fixpoint ip_set_loop (n : nat) (previous : option (IpAddr * IpAddr)) : dec (list IpNet) :=
  match n with
  | O => mret []
  | S n' =>
    from ← rd read_ip_addr;
    to ← rd read_ip_addr;
    if negb (eqb (is_ipv4 from) (is_ipv4 to)) then bad else
    if ip_value to <? ip_value from then bad else
    if match previous with Some p => negb (range_ordered p from) | None => false end then bad else
    networks ← lift (ip_range_to_networks from to);
    _ ← charge (fun st => add_semantic_items st (len networks));
    rest ← ip_set_loop n' (Some (from, to));
    mret (networks ++ rest)
  end.

Definition read_ip_set : dec (list IpNet) :=
  set_version ← rd read_u8;
  if negb (set_version =? 1) then bad else
  range_count ← rd read_u64_be;
  if MAX_IP_RANGES <? range_count then bad else
  _ ← charge (fun st => add_list_items st range_count);
  ip_set_loop (Z.to_nat range_count) None.

(** ** Default rules *)

Record DefaultRule : Type := mkDefaultRule {
  dr_query_types : list Z;
  dr_domain_matcher : option CompactDomainSet;
  dr_adguard_domain_matcher : option CompactDomainSet;
  dr_domain_keywords : list string;
  dr_domain_regexes : list string;
  dr_source_ip_cidrs : list IpNet;
  dr_ip_cidrs : list IpNet;
  dr_source_ports : list PortRange;
  dr_ports : list PortRange;
  dr_process_names : list string;
  dr_process_paths : list string;
  dr_process_path_regexes : list string;
  dr_package_names : list string;
  dr_package_name_regexes : list string;
  dr_networks : list string;
  dr_wifi_ssids : list string;
  dr_wifi_bssids : list string;
  dr_network_types : list Z;
  dr_network_is_expensive : bool;
  dr_network_is_constrained : bool;
  dr_network_interface_addresses : list (Z * list IpNet);
  dr_default_interface_addresses : list IpNet
}.

Definition DefaultRule_default : DefaultRule :=
  mkDefaultRule [] None None [] [] [] [] [] [] [] [] [] [] [] [] [] [] [] false false [] [].

(** [rule.field = v] *)
Definition set_query_types (v : list Z) (r : DefaultRule) : DefaultRule :=
  mkDefaultRule v (dr_domain_matcher r) (dr_adguard_domain_matcher r) (dr_domain_keywords r)
    (dr_domain_regexes r) (dr_source_ip_cidrs r) (dr_ip_cidrs r) (dr_source_ports r) (dr_ports r)
    (dr_process_names r) (dr_process_paths r) (dr_process_path_regexes r) (dr_package_names r)
    (dr_package_name_regexes r) (dr_networks r) (dr_wifi_ssids r) (dr_wifi_bssids r) (dr_network_types r)
    (dr_network_is_expensive r) (dr_network_is_constrained r) (dr_network_interface_addresses r)
    (dr_default_interface_addresses r).
Definition set_domain_matcher (v : option CompactDomainSet) (r : DefaultRule) : DefaultRule :=
  mkDefaultRule (dr_query_types r) v (dr_adguard_domain_matcher r) (dr_domain_keywords r) (dr_domain_regexes
    r) (dr_source_ip_cidrs r) (dr_ip_cidrs r) (dr_source_ports r) (dr_ports r) (dr_process_names r)
    (dr_process_paths r) (dr_process_path_regexes r) (dr_package_names r) (dr_package_name_regexes r)
    (dr_networks r) (dr_wifi_ssids r) (dr_wifi_bssids r) (dr_network_types r) (dr_network_is_expensive r)
    (dr_network_is_constrained r) (dr_network_interface_addresses r) (dr_default_interface_addresses r).
Definition set_adguard_domain_matcher (v : option CompactDomainSet) (r : DefaultRule) : DefaultRule :=
  mkDefaultRule (dr_query_types r) (dr_domain_matcher r) v (dr_domain_keywords r) (dr_domain_regexes r)
    (dr_source_ip_cidrs r) (dr_ip_cidrs r) (dr_source_ports r) (dr_ports r) (dr_process_names r)
    (dr_process_paths r) (dr_process_path_regexes r) (dr_package_names r) (dr_package_name_regexes r)
    (dr_networks r) (dr_wifi_ssids r) (dr_wifi_bssids r) (dr_network_types r) (dr_network_is_expensive r)
    (dr_network_is_constrained r) (dr_network_interface_addresses r) (dr_default_interface_addresses r).
Definition set_domain_keywords (v : list string) (r : DefaultRule) : DefaultRule :=
  mkDefaultRule (dr_query_types r) (dr_domain_matcher r) (dr_adguard_domain_matcher r) v (dr_domain_regexes
    r) (dr_source_ip_cidrs r) (dr_ip_cidrs r) (dr_source_ports r) (dr_ports r) (dr_process_names r)
    (dr_process_paths r) (dr_process_path_regexes r) (dr_package_names r) (dr_package_name_regexes r)
    (dr_networks r) (dr_wifi_ssids r) (dr_wifi_bssids r) (dr_network_types r) (dr_network_is_expensive r)
    (dr_network_is_constrained r) (dr_network_interface_addresses r) (dr_default_interface_addresses r).
Definition set_domain_regexes (v : list string) (r : DefaultRule) : DefaultRule :=
  mkDefaultRule (dr_query_types r) (dr_domain_matcher r) (dr_adguard_domain_matcher r) (dr_domain_keywords
    r) v (dr_source_ip_cidrs r) (dr_ip_cidrs r) (dr_source_ports r) (dr_ports r) (dr_process_names r)
    (dr_process_paths r) (dr_process_path_regexes r) (dr_package_names r) (dr_package_name_regexes r)
    (dr_networks r) (dr_wifi_ssids r) (dr_wifi_bssids r) (dr_network_types r) (dr_network_is_expensive r)
    (dr_network_is_constrained r) (dr_network_interface_addresses r) (dr_default_interface_addresses r).
Definition set_source_ip_cidrs (v : list IpNet) (r : DefaultRule) : DefaultRule :=
  mkDefaultRule (dr_query_types r) (dr_domain_matcher r) (dr_adguard_domain_matcher r) (dr_domain_keywords
    r) (dr_domain_regexes r) v (dr_ip_cidrs r) (dr_source_ports r) (dr_ports r) (dr_process_names r)
    (dr_process_paths r) (dr_process_path_regexes r) (dr_package_names r) (dr_package_name_regexes r)
    (dr_networks r) (dr_wifi_ssids r) (dr_wifi_bssids r) (dr_network_types r) (dr_network_is_expensive r)
    (dr_network_is_constrained r) (dr_network_interface_addresses r) (dr_default_interface_addresses r).
Definition set_ip_cidrs (v : list IpNet) (r : DefaultRule) : DefaultRule :=
  mkDefaultRule (dr_query_types r) (dr_domain_matcher r) (dr_adguard_domain_matcher r) (dr_domain_keywords
    r) (dr_domain_regexes r) (dr_source_ip_cidrs r) v (dr_source_ports r) (dr_ports r) (dr_process_names r)
    (dr_process_paths r) (dr_process_path_regexes r) (dr_package_names r) (dr_package_name_regexes r)
    (dr_networks r) (dr_wifi_ssids r) (dr_wifi_bssids r) (dr_network_types r) (dr_network_is_expensive r)
    (dr_network_is_constrained r) (dr_network_interface_addresses r) (dr_default_interface_addresses r).
Definition set_source_ports (v : list PortRange) (r : DefaultRule) : DefaultRule :=
  mkDefaultRule (dr_query_types r) (dr_domain_matcher r) (dr_adguard_domain_matcher r) (dr_domain_keywords
    r) (dr_domain_regexes r) (dr_source_ip_cidrs r) (dr_ip_cidrs r) v (dr_ports r) (dr_process_names r)
    (dr_process_paths r) (dr_process_path_regexes r) (dr_package_names r) (dr_package_name_regexes r)
    (dr_networks r) (dr_wifi_ssids r) (dr_wifi_bssids r) (dr_network_types r) (dr_network_is_expensive r)
    (dr_network_is_constrained r) (dr_network_interface_addresses r) (dr_default_interface_addresses r).
Definition set_ports (v : list PortRange) (r : DefaultRule) : DefaultRule :=
  mkDefaultRule (dr_query_types r) (dr_domain_matcher r) (dr_adguard_domain_matcher r) (dr_domain_keywords
    r) (dr_domain_regexes r) (dr_source_ip_cidrs r) (dr_ip_cidrs r) (dr_source_ports r) v (dr_process_names
    r) (dr_process_paths r) (dr_process_path_regexes r) (dr_package_names r) (dr_package_name_regexes r)
    (dr_networks r) (dr_wifi_ssids r) (dr_wifi_bssids r) (dr_network_types r) (dr_network_is_expensive r)
    (dr_network_is_constrained r) (dr_network_interface_addresses r) (dr_default_interface_addresses r).
Definition set_process_names (v : list string) (r : DefaultRule) : DefaultRule :=
  mkDefaultRule (dr_query_types r) (dr_domain_matcher r) (dr_adguard_domain_matcher r) (dr_domain_keywords
    r) (dr_domain_regexes r) (dr_source_ip_cidrs r) (dr_ip_cidrs r) (dr_source_ports r) (dr_ports r) v
    (dr_process_paths r) (dr_process_path_regexes r) (dr_package_names r) (dr_package_name_regexes r)
    (dr_networks r) (dr_wifi_ssids r) (dr_wifi_bssids r) (dr_network_types r) (dr_network_is_expensive r)
    (dr_network_is_constrained r) (dr_network_interface_addresses r) (dr_default_interface_addresses r).
Definition set_process_paths (v : list string) (r : DefaultRule) : DefaultRule :=
  mkDefaultRule (dr_query_types r) (dr_domain_matcher r) (dr_adguard_domain_matcher r) (dr_domain_keywords
    r) (dr_domain_regexes r) (dr_source_ip_cidrs r) (dr_ip_cidrs r) (dr_source_ports r) (dr_ports r)
    (dr_process_names r) v (dr_process_path_regexes r) (dr_package_names r) (dr_package_name_regexes r)
    (dr_networks r) (dr_wifi_ssids r) (dr_wifi_bssids r) (dr_network_types r) (dr_network_is_expensive r)
    (dr_network_is_constrained r) (dr_network_interface_addresses r) (dr_default_interface_addresses r).
Definition set_process_path_regexes (v : list string) (r : DefaultRule) : DefaultRule :=
  mkDefaultRule (dr_query_types r) (dr_domain_matcher r) (dr_adguard_domain_matcher r) (dr_domain_keywords
    r) (dr_domain_regexes r) (dr_source_ip_cidrs r) (dr_ip_cidrs r) (dr_source_ports r) (dr_ports r)
    (dr_process_names r) (dr_process_paths r) v (dr_package_names r) (dr_package_name_regexes r)
    (dr_networks r) (dr_wifi_ssids r) (dr_wifi_bssids r) (dr_network_types r) (dr_network_is_expensive r)
    (dr_network_is_constrained r) (dr_network_interface_addresses r) (dr_default_interface_addresses r).
Definition set_package_names (v : list string) (r : DefaultRule) : DefaultRule :=
  mkDefaultRule (dr_query_types r) (dr_domain_matcher r) (dr_adguard_domain_matcher r) (dr_domain_keywords
    r) (dr_domain_regexes r) (dr_source_ip_cidrs r) (dr_ip_cidrs r) (dr_source_ports r) (dr_ports r)
    (dr_process_names r) (dr_process_paths r) (dr_process_path_regexes r) v (dr_package_name_regexes r)
    (dr_networks r) (dr_wifi_ssids r) (dr_wifi_bssids r) (dr_network_types r) (dr_network_is_expensive r)
    (dr_network_is_constrained r) (dr_network_interface_addresses r) (dr_default_interface_addresses r).
Definition set_package_name_regexes (v : list string) (r : DefaultRule) : DefaultRule :=
  mkDefaultRule (dr_query_types r) (dr_domain_matcher r) (dr_adguard_domain_matcher r) (dr_domain_keywords
    r) (dr_domain_regexes r) (dr_source_ip_cidrs r) (dr_ip_cidrs r) (dr_source_ports r) (dr_ports r)
    (dr_process_names r) (dr_process_paths r) (dr_process_path_regexes r) (dr_package_names r) v
    (dr_networks r) (dr_wifi_ssids r) (dr_wifi_bssids r) (dr_network_types r) (dr_network_is_expensive r)
    (dr_network_is_constrained r) (dr_network_interface_addresses r) (dr_default_interface_addresses r).
Definition set_networks (v : list string) (r : DefaultRule) : DefaultRule :=
  mkDefaultRule (dr_query_types r) (dr_domain_matcher r) (dr_adguard_domain_matcher r) (dr_domain_keywords
    r) (dr_domain_regexes r) (dr_source_ip_cidrs r) (dr_ip_cidrs r) (dr_source_ports r) (dr_ports r)
    (dr_process_names r) (dr_process_paths r) (dr_process_path_regexes r) (dr_package_names r)
    (dr_package_name_regexes r) v (dr_wifi_ssids r) (dr_wifi_bssids r) (dr_network_types r)
    (dr_network_is_expensive r) (dr_network_is_constrained r) (dr_network_interface_addresses r)
    (dr_default_interface_addresses r).
Definition set_wifi_ssids (v : list string) (r : DefaultRule) : DefaultRule :=
  mkDefaultRule (dr_query_types r) (dr_domain_matcher r) (dr_adguard_domain_matcher r) (dr_domain_keywords
    r) (dr_domain_regexes r) (dr_source_ip_cidrs r) (dr_ip_cidrs r) (dr_source_ports r) (dr_ports r)
    (dr_process_names r) (dr_process_paths r) (dr_process_path_regexes r) (dr_package_names r)
    (dr_package_name_regexes r) (dr_networks r) v (dr_wifi_bssids r) (dr_network_types r)
    (dr_network_is_expensive r) (dr_network_is_constrained r) (dr_network_interface_addresses r)
    (dr_default_interface_addresses r).
Definition set_wifi_bssids (v : list string) (r : DefaultRule) : DefaultRule :=
  mkDefaultRule (dr_query_types r) (dr_domain_matcher r) (dr_adguard_domain_matcher r) (dr_domain_keywords
    r) (dr_domain_regexes r) (dr_source_ip_cidrs r) (dr_ip_cidrs r) (dr_source_ports r) (dr_ports r)
    (dr_process_names r) (dr_process_paths r) (dr_process_path_regexes r) (dr_package_names r)
    (dr_package_name_regexes r) (dr_networks r) (dr_wifi_ssids r) v (dr_network_types r)
    (dr_network_is_expensive r) (dr_network_is_constrained r) (dr_network_interface_addresses r)
    (dr_default_interface_addresses r).
Definition set_network_types (v : list Z) (r : DefaultRule) : DefaultRule :=
  mkDefaultRule (dr_query_types r) (dr_domain_matcher r) (dr_adguard_domain_matcher r) (dr_domain_keywords
    r) (dr_domain_regexes r) (dr_source_ip_cidrs r) (dr_ip_cidrs r) (dr_source_ports r) (dr_ports r)
    (dr_process_names r) (dr_process_paths r) (dr_process_path_regexes r) (dr_package_names r)
    (dr_package_name_regexes r) (dr_networks r) (dr_wifi_ssids r) (dr_wifi_bssids r) v
    (dr_network_is_expensive r) (dr_network_is_constrained r) (dr_network_interface_addresses r)
    (dr_default_interface_addresses r).
Definition set_network_is_expensive (v : bool) (r : DefaultRule) : DefaultRule :=
  mkDefaultRule (dr_query_types r) (dr_domain_matcher r) (dr_adguard_domain_matcher r) (dr_domain_keywords
    r) (dr_domain_regexes r) (dr_source_ip_cidrs r) (dr_ip_cidrs r) (dr_source_ports r) (dr_ports r)
    (dr_process_names r) (dr_process_paths r) (dr_process_path_regexes r) (dr_package_names r)
    (dr_package_name_regexes r) (dr_networks r) (dr_wifi_ssids r) (dr_wifi_bssids r) (dr_network_types r) v
    (dr_network_is_constrained r) (dr_network_interface_addresses r) (dr_default_interface_addresses r).
Definition set_network_is_constrained (v : bool) (r : DefaultRule) : DefaultRule :=
  mkDefaultRule (dr_query_types r) (dr_domain_matcher r) (dr_adguard_domain_matcher r) (dr_domain_keywords
    r) (dr_domain_regexes r) (dr_source_ip_cidrs r) (dr_ip_cidrs r) (dr_source_ports r) (dr_ports r)
    (dr_process_names r) (dr_process_paths r) (dr_process_path_regexes r) (dr_package_names r)
    (dr_package_name_regexes r) (dr_networks r) (dr_wifi_ssids r) (dr_wifi_bssids r) (dr_network_types r)
    (dr_network_is_expensive r) v (dr_network_interface_addresses r) (dr_default_interface_addresses r).
Definition set_network_interface_addresses (v : list (Z * list IpNet)) (r : DefaultRule) : DefaultRule :=
  mkDefaultRule (dr_query_types r) (dr_domain_matcher r) (dr_adguard_domain_matcher r) (dr_domain_keywords
    r) (dr_domain_regexes r) (dr_source_ip_cidrs r) (dr_ip_cidrs r) (dr_source_ports r) (dr_ports r)
    (dr_process_names r) (dr_process_paths r) (dr_process_path_regexes r) (dr_package_names r)
    (dr_package_name_regexes r) (dr_networks r) (dr_wifi_ssids r) (dr_wifi_bssids r) (dr_network_types r)
    (dr_network_is_expensive r) (dr_network_is_constrained r) v (dr_default_interface_addresses r).
Definition set_default_interface_addresses (v : list IpNet) (r : DefaultRule) : DefaultRule :=
  mkDefaultRule (dr_query_types r) (dr_domain_matcher r) (dr_adguard_domain_matcher r) (dr_domain_keywords
    r) (dr_domain_regexes r) (dr_source_ip_cidrs r) (dr_ip_cidrs r) (dr_source_ports r) (dr_ports r)
    (dr_process_names r) (dr_process_paths r) (dr_process_path_regexes r) (dr_package_names r)
    (dr_package_name_regexes r) (dr_networks r) (dr_wifi_ssids r) (dr_wifi_bssids r) (dr_network_types r)
    (dr_network_is_expensive r) (dr_network_is_constrained r) (dr_network_interface_addresses r) v.

(** The list item kinds that are charged as strings *)
Definition read_strings : dec (list string) :=
  l ← read_string_list MAX_LIST_ITEMS MAX_STRING_BYTES;
  _ ← charge (fun st => add_semantic_items st (len l));
  mret l.

Definition read_regexes : dec (list string) :=
  l ← read_string_list MAX_REGEX_PATTERNS MAX_REGEX_PATTERN_BYTES;
  _ ← check_regex_limits l;
  _ ← charge (fun st => add_semantic_items st (len l));
  mret l.

Definition read_domain_set : dec CompactDomainSet :=
  fun s => '(set, r, st) ← read_compact_domain_set s.1 s.2; Ok (set, (r, st)).

Definition check_item_version (version item_type : Z) : bool :=
  let minimum :=
    if item_type =? 16 then 2
    else if (item_type =? 18) || (item_type =? 19) || (item_type =? 20) then 3
    else if (item_type =? 21) || (item_type =? 22) then 4
    else if item_type =? 23 then 5
    else 1 in
  minimum <=? version.

(** The [match item_type] of [read_default_rule] *)
Definition read_item (item_type : Z) (rule : DefaultRule) : dec DefaultRule :=
  match item_type with
  | 0 => l ← read_u16_list; mret (set_query_types l rule)
  | 1 => l ← read_strings; mret (set_networks l rule)
  | 2 => s ← read_domain_set; mret (set_domain_matcher (Some s) rule)
  | 3 => l ← read_strings; mret (set_domain_keywords l rule)
  | 4 => l ← read_regexes; mret (set_domain_regexes l rule)
  | 5 => l ← read_ip_set; mret (set_source_ip_cidrs l rule)
  | 6 => l ← read_ip_set; mret (set_ip_cidrs l rule)
  | 7 => l ← read_port_list; mret (set_source_ports (dr_source_ports rule ++ l) rule)
  | 8 => l ← read_port_range_list; mret (set_source_ports (dr_source_ports rule ++ l) rule)
  | 9 => l ← read_port_list; mret (set_ports (dr_ports rule ++ l) rule)
  | 10 => l ← read_port_range_list; mret (set_ports (dr_ports rule ++ l) rule)
  | 11 => l ← read_strings; mret (set_process_names l rule)
  | 12 => l ← read_strings; mret (set_process_paths l rule)
  | 13 => l ← read_strings; mret (set_package_names l rule)
  | 14 => l ← read_strings; mret (set_wifi_ssids l rule)
  | 15 =>
    l ← read_string_list MAX_LIST_ITEMS MAX_STRING_BYTES;
    let l := normalize_wifi_bssid <$> l in
    _ ← charge (fun st => add_semantic_items st (len l));
    mret (set_wifi_bssids l rule)
  | 16 => s ← read_domain_set; mret (set_adguard_domain_matcher (Some s) rule)
  | 17 => l ← read_regexes; mret (set_process_path_regexes l rule)
  | 18 => l ← read_u8_list; mret (set_network_types l rule)
  | 19 => mret (set_network_is_expensive true rule)
  | 20 => mret (set_network_is_constrained true rule)
  | 21 => l ← read_network_interface_addresses; mret (set_network_interface_addresses l rule)
  | 22 => l ← read_prefix_list; mret (set_default_interface_addresses l rule)
  | 23 => l ← read_regexes; mret (set_package_name_regexes l rule)
  | _ => fun _ => Panic
  end.

(** The [loop]: every round but the last sets one of 24 bits of [seen] that was clear. *)
Fixpoint item_loop (fuel : nat) (rule : DefaultRule) (seen : Z) : dec (DefaultRule * bool) :=
  match fuel with
  | O => fun _ => Panic
  | S fuel' =>
    item_type ← rd read_u8;
    if item_type =? 255 then invert ← rd read_bool; mret (rule, invert) else
    if 23 <? item_type then bad else
    version ← version_of;
    if negb (check_item_version version item_type) then bad else
    let bit := Z.shiftl 1 item_type in
    if negb (Z.land seen bit =? 0) then bad else
    rule ← read_item item_type rule;
    item_loop fuel' rule (Z.lor seen bit)
  end.

Definition ITEM_FUEL : nat := 25.

(** [if !list.is_empty() { groups.push(Predicate(p(list))) }] *)
Definition group {A} (p : list A -> RulesetPredicate) (l : list A) : list RulesetExpr :=
  match l with [] => [] | _ => [EPredicate (p l)] end.

Definition regex_group (p : RegexSet -> RulesetPredicate) (l : list string) : outcome (list RulesetExpr) :=
  match l with [] => Ok [] | _ => r ← ok_or (regex_set_new l) InvalidData; Ok [EPredicate (p r)] end.

Definition set_group (p : CompactDomainSet -> RulesetPredicate) (o : option CompactDomainSet) : list RulesetExpr :=
  match o with Some s => [EPredicate (p s)] | None => [] end.

Definition flag_group (p : RulesetPredicate) (b : bool) : list RulesetExpr := if b then [EPredicate p] else [].

Definition apply_invert (e : RulesetExpr) (invert : bool) : RulesetExpr := if invert then ENot e else e.

(** The destination conditions, which are alternatives, and the others *)
Definition destination_exprs (rule : DefaultRule) (domain_regex : list RulesetExpr) : list RulesetExpr :=
  set_group PSingboxDomainMatcher (dr_domain_matcher rule)
  ++ group PSingboxDomainKeyword (dr_domain_keywords rule)
  ++ domain_regex
  ++ set_group PAdGuardDomainMatcher (dr_adguard_domain_matcher rule)
  ++ group PDstIpCidr (dr_ip_cidrs rule).

Definition other_exprs (rule : DefaultRule) (process_path_regex package_name_regex : list RulesetExpr) : list RulesetExpr :=
  group PSrcIpCidr (dr_source_ip_cidrs rule)
  ++ group PDstPort (dr_ports rule)
  ++ group PSrcPort (dr_source_ports rule)
  ++ group PProcessName (dr_process_names rule)
  ++ group PQueryType (dr_query_types rule)
  ++ group PProcessPath (dr_process_paths rule)
  ++ process_path_regex
  ++ group PPackageName (dr_package_names rule)
  ++ package_name_regex
  ++ group PSingboxNetwork (dr_networks rule)
  ++ group PWifiSsid (dr_wifi_ssids rule)
  ++ group PWifiBssid (dr_wifi_bssids rule)
  ++ group PNetworkType (dr_network_types rule)
  ++ flag_group PNetworkIsExpensive (dr_network_is_expensive rule)
  ++ flag_group PNetworkIsConstrained (dr_network_is_constrained rule)
  ++ group PNetworkInterfaceAddress (dr_network_interface_addresses rule)
  ++ group PDefaultInterfaceAddress (dr_default_interface_addresses rule).

Definition compile_default_rule (rule : DefaultRule) (invert : bool) : outcome RulesetExpr :=
  domain_regex ← regex_group PSingboxDomainRegex (dr_domain_regexes rule);
  let destination := destination_exprs rule domain_regex in
  process_path_regex ← regex_group PProcessPathRegex (dr_process_path_regexes rule);
  package_name_regex ← regex_group PPackageNameRegex (dr_package_name_regexes rule);
  let groups :=
    match destination with [] => [] | _ => [EAny destination] end
    ++ other_exprs rule process_path_regex package_name_regex in
  match groups with
  | [] => Err InvalidData
  | _ => Ok (apply_invert (EAll groups) invert)
  end.

Definition read_default_rule : dec RulesetExpr :=
  '(rule, invert) ← item_loop ITEM_FUEL DefaultRule_default 0;
  lift (compile_default_rule rule invert).

(** ** Logical rules and the file *)

(** [read_rule] and [read_logical_rule]; the fuel is [MAX_LOGICAL_DEPTH + 1 - depth], so that
    it runs out exactly where [add_rule] refuses the depth. *)
Fixpoint read_rule (fuel : nat) (depth : Z) : dec RulesetExpr :=
  match fuel with
  | O => bad
  | S fuel' =>
    _ ← charge (fun st => add_rule st depth);
    rule_type ← rd read_u8;
    if rule_type =? 0 then read_default_rule
    else if rule_type =? 1 then
      mode ← rd read_u8;
      if 1 <? mode then bad else
      length ← rd (fun r => read_len r MAX_RULES_PER_LIST);
      if length =? 0 then bad else
      _ ← charge (fun st => add_list_items st length);
      children ← times (Z.to_nat length) (read_rule fuel' (depth + 1));
      invert ← rd read_bool;
      mret (apply_invert (if mode =? 0 then EAll children else EAny children) invert)
    else bad
  end.

(** The decompressed body *)
Definition parse_rules (version : Z) (decoded : list Z) : outcome RulesetProgram :=
  '(rules, (r, _)) ←
    (rule_count ← rd (fun r => read_len r MAX_RULES_PER_LIST);
     _ ← charge (fun st => add_list_items st rule_count);
     times (Z.to_nat rule_count) (read_rule (Z.to_nat MAX_LOGICAL_DEPTH) 1) : dec (list RulesetExpr))
    (Reader_new decoded, DecodeState_new version);
  if negb (is_eof r) then Err InvalidData else
  Ok (mkProgram version (len rules) (EAny rules)).
End decoder.

(** ** Bounded decompression *)

Inductive ZStatus : Type := ZOk | ZBufError | ZStreamEnd.

(** [flate2::Decompress]: one call with [FlushDecompress::Finish] and a 16 KiB buffer reports
    how much of the input it consumed and what it produced, or fails. *)
Class Inflater := {
  Inflate : Type;
  inflate_new : Inflate;
  inflate : Inflate -> list Z -> option (Inflate * Z * list Z * ZStatus);
  inflate_consumed : forall d i d' consumed out s, inflate d i = Some (d', consumed, out, s) -> 0 <= consumed;
  inflate_bytes : forall d i d' consumed out s,
    bytes_ok i -> inflate d i = Some (d', consumed, out, s) -> bytes_ok out
}.

Section envelope.
Context `{Inflater}.

Record ZState : Type := mkZState { zs_inflate : Inflate; zs_remaining : list Z; zs_output : list Z }.

(** The body of the [loop] *)
Definition inflate_step (maximum : Z) (s : ZState) : ZState + outcome (list Z) :=
  match inflate (zs_inflate s) (zs_remaining s) with
  | None => inr (Err InvalidData)
  | Some (d, consumed, produced, status) =>
    if maximum <? saturating_add 64 (len (zs_output s)) (len produced) then inr (Err InvalidData) else
    let output := zs_output s ++ produced in
    if len (zs_remaining s) <? consumed then inr (Err InvalidData) else
    let remaining := drop (Z.to_nat consumed) (zs_remaining s) in
    match status with
    | ZStreamEnd => inr (if negb (len remaining =? 0) then Err InvalidData else Ok output)
    | ZOk | ZBufError =>
      if negb (consumed =? 0) || negb (len produced =? 0) then inl (mkZState d remaining output)
      else inr (Err InvalidData)
    end
  end.

Definition decompress_zlib_bounded (input : list Z) (maximum : Z) : outcome (list Z) :=
  match iter_until (Z.to_pos (len input + maximum + 1)) (inflate_step maximum) (mkZState inflate_new input []) with
  | inr r => r
  | inl _ => Panic
  end.

Context `{IpNetLib, !IpNetNew, !RouteLib, NetText, StrCase, RulesetLib, !RegexSetNew}.

(** [parse] *)
Definition srs_parse (body : list Z) : outcome RulesetProgram :=
  if len body <? 4 then Err InvalidData else
  magic ← get_slice body 0 3;
  if negb (bool_decide (magic = str_bytes "SRS")) then Err InvalidData else
  version ← index body 3;
  if (version <? MIN_VERSION) || (MAX_VERSION <? version) then Err Unsupported else
  compressed ← get_slice body 4 (len body);
  if len compressed =? 0 then Err InvalidData else
  if MAX_COMPRESSED_BYTES <? len compressed then Err InvalidData else
  decoded ← decompress_zlib_bounded compressed MAX_DECOMPRESSED_BYTES;
  parse_rules version decoded.

(** ** Decompression ends *)

Lemma inflate_step_decreases maximum s s' :
  len (zs_output s) <= maximum < 2 ^ 64 - 1 -> inflate_step maximum s = inl s' ->
  len (zs_output s') <= maximum < 2 ^ 64 - 1
  /\ 0 <= len (zs_remaining s') + (maximum - len (zs_output s')) < len (zs_remaining s) + (maximum - len (zs_output s)).
Proof.
  unfold inflate_step, saturating_add. intros Ho Hs.
  destruct (inflate _ _) as [[[[d consumed] produced] status]|] eqn:E; [|done].
  apply inflate_consumed in E. pose proof (len_nonneg produced). pose proof (len_nonneg (zs_remaining s)).
  destruct (Z.ltb_spec maximum (Z.min (len (zs_output s) + len produced) (2 ^ 64 - 1))) as [|Hm]; [done|].
  destruct (Z.ltb_spec (len (zs_remaining s)) consumed) as [|Hc]; [done|].
  assert (len (drop (Z.to_nat consumed) (zs_remaining s)) = len (zs_remaining s) - consumed) as Hd by (apply len_drop; lia).
  destruct status; [| |done]; (destruct (negb (consumed =? 0) || negb (len produced =? 0)) eqn:Hp; [|done]);
    injection Hs as <-; cbn [zs_output zs_remaining]; rewrite len_app, Hd;
    apply orb_prop in Hp; rewrite !negb_true_iff, !Z.eqb_neq in Hp; lia.
Qed.

Lemma decompress_ends input maximum :
  0 <= maximum < 2 ^ 64 - 1 -> no_panic (decompress_zlib_bounded input maximum)
  /\ forall out, decompress_zlib_bounded input maximum = Ok out -> len out <= maximum.
Proof.
  intros Hm. unfold decompress_zlib_bounded. pose proof (len_nonneg input).
  destruct (iter_until_leaves (inflate_step maximum) (fun s => len (zs_output s) <= maximum < 2 ^ 64 - 1)
    (fun s => len (zs_remaining s) + (maximum - len (zs_output s))) (inflate_step_decreases maximum)
    (Z.to_pos (len input + maximum + 1)) (mkZState inflate_new input [])) as [r Hr].
  - cbn. rewrite len_nil. lia.
  - cbn [zs_output zs_remaining]. rewrite len_nil. lia.
  - rewrite Hr.
    pose proof (iter_until_post (inflate_step maximum) (fun s => len (zs_output s) <= maximum < 2 ^ 64 - 1)
      (fun r => no_panic r /\ forall out, r = Ok out -> len out <= maximum)
      (Z.to_pos (len input + maximum + 1)) (mkZState inflate_new input [])) as Hpost.
    rewrite Hr in Hpost. apply Hpost; [|cbn; rewrite len_nil; lia].
    intros s Hs. destruct (inflate_step maximum s) as [s'|o] eqn:E.
    + by apply (inflate_step_decreases maximum s s').
    + unfold inflate_step, saturating_add in E. destruct (inflate _ _) as [[[[d consumed] produced] status]|]; [|by simplify_eq].
      destruct (Z.ltb_spec maximum (Z.min (len (zs_output s) + len produced) (2 ^ 64 - 1))) as [|Hle]; [by simplify_eq|].
      destruct (_ <? consumed); [by simplify_eq|].
      destruct status; [| |injection E as <-; destruct (negb _); split; [done|done|done|]].
      * destruct (_ || _); by simplify_eq.
      * destruct (_ || _); by simplify_eq.
      * intros out [= <-]. rewrite len_app. pose proof (len_nonneg produced). lia.
Qed.
End envelope.
