(* ===== verification/SrsSpec.v ===== *)
(** * SRS rule sets: what the decoder accepts

    Theorems about [SrsRule.v]: an accepted file is a well-formed program (every domain set
    answers its queries, no rule is vacuous), the decoder's loops end, a default rule means
    the conjunction of its item groups, and an IP set means exactly its address ranges. *)

From stdpp Require Import base list gmap strings numbers option.
From S2P Require Import Prelude Text Net Instances IpRange RouteModel RouteMatch RouteInstances CompactSet SrsDecode RulesetIr SrsRule.

(** ** Postconditions of decoder programs *)

Definition readable (r : Reader) : Prop := 0 <= rd_position r /\ bytes_ok (rd_bytes r).
Definition reader_ok (s : Reader * DecodeState) : Prop := readable s.1.

Lemma forward_readable r r' : forward r r' -> readable r -> readable r'.
Proof. intros [E Hp] [H1 H2]. split; [auto|by rewrite E]. Qed.

(** From a valid position, a result satisfies [Q] and the position stays valid. *)
Definition gives {A} (m : dec A) (Q : A -> Prop) : Prop :=
  forall s a s', reader_ok s -> m s = Ok (a, s') -> Q a /\ reader_ok s'.

Lemma gives_bind {A B} (m : dec A) (f : A -> dec B) P Q :
  gives m P -> (forall a, P a -> gives (f a) Q) -> gives (a ← m; f a) Q.
Proof.
  intros Hm Hf s b s' Hs E. unfold mbind, dec_bind in E. apply bind_Ok in E as ([a s1] & E1 & E2).
  destruct (Hm _ _ _ Hs E1) as [Ha H1]. by apply (Hf a Ha s1).
Qed.

Lemma gives_ret {A} (a : A) (Q : A -> Prop) : Q a -> gives (mret a) Q.
Proof. intros Ha s b s' Hs E. unfold mret, dec_ret in E. by simplify_eq. Qed.

Lemma gives_bad {A} (Q : A -> Prop) : gives bad Q.
Proof. done. Qed.

Lemma gives_panic {A} (Q : A -> Prop) : gives (fun _ => Panic) Q.
Proof. done. Qed.

Lemma gives_if {A} (b : bool) (m k : dec A) Q : gives m Q -> gives k Q -> gives (if b then m else k) Q.
Proof. by destruct b. Qed.

Lemma gives_weaken {A} (m : dec A) (P Q : A -> Prop) : gives m P -> (forall a, P a -> Q a) -> gives m Q.
Proof. intros Hm HPQ s a s' Hs E. destruct (Hm _ _ _ Hs E). auto. Qed.

Lemma gives_rd {A} (f : Reader -> outcome (A * Reader)) (Q : A -> Prop) :
  (forall r a r', f r = Ok (a, r') -> readable r -> Q a /\ forward r r') -> gives (rd f) Q.
Proof.
  intros Hf [r st] a s' Hs E. unfold rd in E. apply bind_Ok in E as ([b r'] & E & E2). injection E2 as <- <-.
  destruct (Hf _ _ _ E Hs) as [Hq Hfw]. split; [done|]. by eapply forward_readable.
Qed.

Lemma gives_charge f (Q : unit -> Prop) : Q tt -> gives (charge f) Q.
Proof. intros Hq [r st] [] s' Hs E. unfold charge in E. apply bind_Ok in E as (st' & _ & E). by injection E as <-. Qed.

Lemma gives_lift {A} (o : outcome A) (Q : A -> Prop) : (forall a, o = Ok a -> Q a) -> gives (lift o) Q.
Proof. intros Hq s a s' Hs E. unfold lift in E. apply bind_Ok in E as (b & Eb & E). injection E as <- <-. auto. Qed.

Lemma gives_version (Q : Z -> Prop) : (forall v, Q v) -> gives version_of Q.
Proof. intros Hq s a s' Hs [= <- <-]. auto. Qed.

Lemma gives_times {A} n (d : dec A) (Q : A -> Prop) :
  gives d Q -> gives (times n d) (fun l => length l = n /\ Forall Q l).
Proof.
  intros Hd. induction n as [|n IH]; cbn [times]; [by apply gives_ret|].
  eapply gives_bind; [exact Hd|]. intros a Ha. eapply gives_bind; [exact IH|]. intros l [Hl Hf].
  apply gives_ret. split; [by cbn; rewrite Hl|by constructor].
Qed.

Create HintDb gives_db.
#[export] Hint Resolve gives_bad gives_panic : gives_db.

Definition port_value (x : Z) : Prop := 0 <= x < 65536.
Definition byte_value (x : Z) : Prop := 0 <= x < 256.

Lemma take_reads n r x r' : take_bytes r n = Ok (x, r') -> readable r -> bytes_ok x /\ forward r r'.
Proof.
  intros E [_ Hb]. split; [|by eapply take_bytes_forward]. unfold take_bytes in E. apply bind_Ok in E as (e & _ & E). destruct (_ && _); [|done]. injection E as <- _.
  unfold slice. by apply Forall_take, Forall_drop.
Qed.

Lemma read_u8_reads r x r' : read_u8 r = Ok (x, r') -> readable r -> byte_value x /\ forward r r'.
Proof.
  unfold read_u8. intros E Hr. apply bind_Ok in E as ([b r1] & Et & E). apply bind_Ok in E as (y & Ey & E). injection E as <- <-.
  destruct (take_reads _ _ _ _ Et Hr) as [Hb Hf]. split; [|done]. by apply index_bytes_ok in Ey.
Qed.

Lemma read_bool_reads r x r' : read_bool r = Ok (x, r') -> readable r -> True /\ forward r r'.
Proof.
  unfold read_bool. intros E Hr. apply bind_Ok in E as ([b r1] & E1%read_u8_forward & E).
  repeat case_match; simplify_eq; auto.
Qed.

Lemma read_len_reads m r x r' : read_len r m = Ok (x, r') -> readable r -> 0 <= x <= m /\ forward r r'.
Proof. intros [? E]%read_len_inv. auto. Qed.

Lemma read_u16_reads r x r' : read_u16_be r = Ok (x, r') -> readable r -> port_value x /\ forward r r'.
Proof.
  unfold read_u16_be. intros E Hr. apply bind_Ok in E as ([b r1] & E1 & E). injection E as <- <-. destruct (take_reads _ _ _ _ E1 Hr) as [Hb Hf]. split; [|done].
  pose proof (be_val_range b Hb) as Hv. rewrite (take_bytes_inv _ _ _ _ E1 (proj1 Hr) ltac:(lia)) in Hv. exact Hv.
Qed.

Lemma read_u64_reads r x r' : read_u64_be r = Ok (x, r') -> readable r -> True /\ forward r r'.
Proof. unfold read_u64_be. intros E Hr. apply bind_Ok in E as ([b r1] & E1%take_bytes_forward & E). simplify_eq. auto. Qed.

(** Walks a decoder program whose result does not matter. *)
Ltac gives_any :=
  repeat match goal with
  | |- gives (if _ then _ else _) _ => apply gives_if
  | |- gives (match _ with _ => _ end) _ => case_match
  | |- gives bad _ => apply gives_bad
  | |- gives (fun _ => Panic) _ => apply gives_panic
  | |- gives (mret _) _ => apply gives_ret; done
  | |- gives (charge _) _ => apply gives_charge; done
  | |- gives version_of _ => apply gives_version; done
  | |- gives (lift _) _ => apply gives_lift; done
  | |- gives (rd read_u8) _ => eapply gives_weaken; [apply gives_rd, read_u8_reads|done]
  | |- gives (rd read_bool) _ => apply gives_rd, read_bool_reads
  | |- gives (rd read_u16_be) _ => eapply gives_weaken; [apply gives_rd, read_u16_reads|done]
  | |- gives (rd read_u64_be) _ => apply gives_rd, read_u64_reads
  | |- gives (rd (fun r => take_bytes r ?n)) _ => eapply gives_weaken; [apply gives_rd, (take_reads n)|done]
  | |- gives (rd (fun r => read_len r ?m)) _ =>
    eapply gives_weaken; [apply gives_rd, (read_len_reads m)|done]
  | |- gives (times _ _) _ => eapply gives_weaken; [apply (gives_times _ _ (fun _ => True))|done]
  | |- gives (_ ≫= _) _ => eapply (gives_bind _ _ (fun _ => True)); [|intros ? _]
  | |- gives _ (fun _ => True) => solve [eauto with gives_db]
  end.

Section accepted.
Context `{IpNetLib, !IpNetNew, !RouteLib, NetText, StrCase, RulesetLib, !RegexSetNew}.

Lemma gives_string_list a b : gives (read_string_list a b) (fun _ => True).
Proof. unfold read_string_list, read_string_item. gives_any. Qed.

Lemma gives_count : gives read_count (fun _ => True).
Proof. unfold read_count. gives_any. Qed.

Lemma gives_prefix : gives (rd read_prefix) (fun _ => True).
Proof.
  apply gives_rd. unfold read_prefix. intros r a r' E Hp.
  apply bind_Ok in E as ([al r1] & [_ E1]%read_len_inv & E). apply bind_Ok in E as ([ad r2] & E2%take_bytes_forward & E).
  apply bind_Ok in E as ([pb r3] & E3%read_u8_forward & E).
  assert (r3 = r') as <-; [|split; [done|]; exact (forward_trans _ _ _ E1 (forward_trans _ _ _ E2 E3))].
  repeat case_match; try done; apply bind_Ok in E as (n & _ & E); by simplify_eq.
Qed.
#[local] Hint Resolve gives_string_list gives_count gives_prefix : gives_db.

Lemma gives_prefix_list : gives read_prefix_list (fun _ => True).
Proof. unfold read_prefix_list. gives_any. Qed.
#[local] Hint Resolve gives_prefix_list : gives_db.

(** The interface types are bytes and distinct, and each one lists networks. *)
Definition interfaces_ok (l : list (Z * list IpNet)) : Prop := NoDup l.*1 /\ Forall (fun i => byte_value i.1 /\ i.2 <> []) l.

Lemma gives_interface_loop n seen : gives (interface_loop n seen) (fun l => interfaces_ok l /\ forall t, t ∈ l.*1 -> existsb (Z.eqb t) seen = false).
Proof.
  revert seen. induction n as [|n IH]; intros seen; cbn [interface_loop].
  { apply gives_ret. split; [split; constructor|]. by intros t Ht%elem_of_nil. }
  eapply gives_bind; [apply gives_rd, read_u8_reads|]. intros t Ht. destruct (existsb (Z.eqb t) seen) eqn:Es; [apply gives_bad|].
  eapply gives_bind; [exact gives_prefix_list|]. intros prefixes _. destruct (Z.eqb_spec (len prefixes) 0) as [|Hne]; [apply gives_bad|].
  eapply gives_bind; [apply IH|]. intros rest [[Hnd Hf] Hseen]. apply gives_ret. split.
  - split; [cbn; constructor; [|done]|constructor; [|done]].
    + intros Hin. specialize (Hseen t Hin). cbn in Hseen. by rewrite Z.eqb_refl in Hseen.
    + cbn. split; [done|]. intros ->. by rewrite len_nil in Hne.
  - intros x Hx. cbn in Hx. apply elem_of_cons in Hx as [->|Hx]; [done|]. specialize (Hseen x Hx). cbn in Hseen. by apply orb_false_iff in Hseen as [_ ->].
Qed.

Lemma gives_interfaces : gives read_network_interface_addresses interfaces_ok.
Proof.
  unfold read_network_interface_addresses. eapply (gives_bind _ _ (fun _ => True)); [gives_any|intros count _]. eapply (gives_bind _ _ (fun _ => True)); [gives_any|intros _ _].
  eapply gives_weaken; [apply gives_interface_loop|]. by intros l [Hl _].
Qed.

Lemma gives_ip_addr : gives (rd read_ip_addr) (fun _ => True).
Proof.
  apply gives_rd. unfold read_ip_addr. intros r a r' E Hp.
  apply bind_Ok in E as ([al r1] & [_ E1]%read_len_inv & E). apply bind_Ok in E as ([ad r2] & E2%take_bytes_forward & E).
  pose proof (forward_trans _ _ _ E1 E2). repeat case_match; simplify_eq; auto.
Qed.
#[local] Hint Resolve gives_ip_addr : gives_db.

Lemma gives_ip_set : gives read_ip_set (fun _ => True).
Proof.
  unfold read_ip_set. gives_any. generalize (@None (IpAddr * IpAddr)).
  induction (Z.to_nat _) as [|n IH]; intros previous; cbn [ip_set_loop]; gives_any.
Qed.
#[local] Hint Resolve gives_ip_set : gives_db.

Lemma gives_domain_set : gives read_domain_set compact_ok.
Proof.
  intros [r st] s s' Hs E. unfold read_domain_set in E. apply bind_Ok in E as ([[set r1] st1] & E & E2).
  injection E2 as <- <-. apply read_compact_domain_set_ok in E as [Hok Hf]; [|apply Hs]. split; [done|]. by eapply forward_readable.
Qed.

(** ** Default rules *)

Definition opt_ok (o : option CompactDomainSet) : Prop := match o with Some s => compact_ok s | None => True end.
Definition port_range_ok (r : PortRange) : Prop := port_value (pg_start r) /\ port_value (pg_end r).

Record rule_ok (rule : DefaultRule) : Prop := {
  ro_domains : opt_ok (dr_domain_matcher rule);
  ro_adguard : opt_ok (dr_adguard_domain_matcher rule);
  ro_query_types : Forall port_value (dr_query_types rule);
  ro_source_ports : Forall port_range_ok (dr_source_ports rule);
  ro_ports : Forall port_range_ok (dr_ports rule);
  ro_network_types : Forall byte_value (dr_network_types rule);
  ro_interfaces : interfaces_ok (dr_network_interface_addresses rule)
}.

Lemma gives_u16_list : gives read_u16_list (Forall port_value).
Proof.
  unfold read_u16_list. eapply gives_bind; [exact gives_count|]. intros n _. eapply gives_weaken; [apply gives_times, gives_rd, read_u16_reads|]. by intros l [_ Hl].
Qed.

Lemma gives_u8_list : gives read_u8_list (Forall byte_value).
Proof. unfold read_u8_list. eapply gives_bind; [exact gives_count|]. intros n _. apply gives_rd, (take_reads n). Qed.

Lemma gives_port_list : gives read_port_list (Forall port_range_ok).
Proof.
  unfold read_port_list. eapply gives_bind; [exact gives_count|]. intros n _. eapply gives_weaken; [apply gives_times|by intros l [_ Hl]; exact Hl].
  eapply gives_bind; [apply gives_rd, read_u16_reads|]. intros port Hp. apply gives_lift. intros r E. unfold PortRange_new in E. destruct (port <=? port); [|done]. by injection E as <-.
Qed.

Lemma collect_Forall {A B} (f : A -> outcome B) (P : B -> Prop) l m : (forall a b, f a = Ok b -> P b) -> collect f l = Ok m -> Forall P m.
Proof.
  intros Hf. revert m. induction l as [|a l IH]; intros m E; cbn in E; [by injection E as <-|]. apply bind_Ok in E as (b & Eb & E). apply bind_Ok in E as (m' & Em & E). injection E as <-.
  constructor; [by eapply Hf|by apply IH].
Qed.

Lemma gives_port_range_list : gives read_port_range_list (Forall port_range_ok).
Proof.
  unfold read_port_range_list. eapply (gives_bind _ _ (fun _ => True)); [gives_any|intros values _]. eapply (gives_bind _ _ (fun _ => True)); [gives_any|intros _ _].
  apply gives_lift. intros l. apply collect_Forall. intros v r E. unfold parse_port_range in E. apply bind_Ok in E as ([a b] & _ & E).
  assert (Hend : forall t d x, port_value d -> (if String.eqb t "" then Ok d else ok_or (parse_u16 t) InvalidData) = Ok x -> port_value x).
  { intros t d x Hd Ex. destruct (String.eqb t ""); [by injection Ex as <-|]. apply ok_or_Ok, parse_u16_range in Ex. unfold port_value. lia. }
  apply bind_Ok in E as (lo & El & E). apply bind_Ok in E as (hi & Eh & E). injection E as <-. split; cbn; (eapply Hend; [|eassumption]); done.
Qed.

Lemma rule_default_ok : rule_ok DefaultRule_default.
Proof. by repeat constructor. Qed.

Lemma gives_item t rule : rule_ok rule -> gives (read_item t rule) rule_ok.
Proof.
  intros [R1 R2 R3 R4 R5 R6 R7]. unfold read_item, read_strings, read_regexes, check_regex_limits.
  assert (Hset : forall {A} (d : dec A) (f : A -> DefaultRule) (P : A -> Prop), gives d P -> (forall a, P a -> rule_ok (f a)) -> gives (a ← d; mret (f a)) rule_ok).
  { intros A d f P Hd Hf. eapply gives_bind; [exact Hd|]. intros a Ha. by apply gives_ret, Hf. }
  repeat case_match; try apply gives_panic.
  all: try (apply gives_ret; by constructor).
  all: try (eapply Hset; [exact gives_domain_set|]; intros; by constructor).
  all: try (eapply Hset; [exact gives_u16_list|]; intros; by constructor).
  all: try (eapply Hset; [exact gives_u8_list|]; intros; by constructor).
  all: try (eapply Hset; [exact gives_interfaces|]; intros; by constructor).
  all: try (eapply Hset; [exact gives_port_list|]; intros; constructor; cbn; by try apply Forall_app_2).
  all: try (eapply Hset; [exact gives_port_range_list|]; intros; constructor; cbn; by try apply Forall_app_2).
  all: eapply (gives_bind _ _ (fun _ => True)); [gives_any|intros ? _].
  all: try (apply gives_ret; by constructor).
  eapply (gives_bind _ _ (fun _ => True)); [gives_any|intros ? _]. apply gives_ret. by constructor.
Qed.

Lemma gives_items fuel rule seen : rule_ok rule -> gives (item_loop fuel rule seen) (fun p => rule_ok p.1).
Proof.
  revert rule seen. induction fuel as [|fuel IH]; intros rule seen Hr; cbn [item_loop]; [apply gives_panic|].
  eapply (gives_bind _ _ (fun _ => True)); [gives_any|intros t _]. apply gives_if.
  { eapply (gives_bind _ _ (fun _ => True)); [gives_any|intros b _]. by apply gives_ret. }
  apply gives_if; [apply gives_bad|]. eapply (gives_bind _ _ (fun _ => True)); [gives_any|intros v _].
  apply gives_if; [apply gives_bad|]. apply gives_if; [apply gives_bad|].
  eapply gives_bind; [by apply gives_item|]. intros rule' Hr'. by apply IH.
Qed.

(** ** Well-formed programs

    Every domain set answers its queries, and no condition is vacuous: a conjunction over
    no conditions would match every flow, an empty disjunction or list none. *)

(** Every query on the set returns. *)
Definition set_answers (s : CompactDomainSet) : Prop :=
  forall domain, is_ok (matches_domain s domain) /\ is_ok (matches_adguard s domain).

Lemma compact_answers s : compact_ok s -> set_answers s.
Proof. intros Hs d. split; [by apply matches_domain_ok|by apply matches_adguard_ok]. Qed.

Definition predicate_ok (p : RulesetPredicate) : Prop :=
  match p with
  | PSingboxDomainMatcher s | PAdGuardDomainMatcher s => set_answers s
  | PDomain l | PDomainSuffix l | PDomainKeyword l | PProcessName l | PNetwork l | PSingboxDomainKeyword l
  | PSingboxNetwork l | PProcessPath l | PPackageName l | PWifiSsid l | PWifiBssid l => l <> []
  | PDstIpCidr l | PSrcIpCidr l | PDefaultInterfaceAddress l => l <> []
  | PDstPort l | PSrcPort l => l <> [] /\ Forall port_range_ok l
  | PQueryType l => l <> [] /\ Forall port_value l
  | PNetworkType l => l <> [] /\ Forall byte_value l
  | PNetworkInterfaceAddress l => l <> [] /\ interfaces_ok l
  | PDomainRegex _ | PSingboxDomainRegex _ | PProcessPathRegex _ | PPackageNameRegex _ | PNetworkIsExpensive | PNetworkIsConstrained => True
  end.

Inductive expr_ok : RulesetExpr -> Prop :=
| expr_ok_any l : l <> [] -> Forall expr_ok l -> expr_ok (EAny l)
| expr_ok_all l : l <> [] -> Forall expr_ok l -> expr_ok (EAll l)
| expr_ok_not e : expr_ok e -> expr_ok (ENot e)
| expr_ok_predicate p : predicate_ok p -> expr_ok (EPredicate p).

(** How deep the disjunctions and conjunctions of an expression are nested *)
Fixpoint expr_depth (e : RulesetExpr) : nat :=
  match e with
  | EAny l | EAll l => S (foldr (fun e n => Nat.max (expr_depth e) n) 0%nat l)
  | ENot e => expr_depth e
  | EPredicate _ => 0
  end.

Lemma depth_le (l : list RulesetExpr) n : Forall (fun e => (expr_depth e <= n)%nat) l -> (foldr (fun e n => Nat.max (expr_depth e) n) 0 l <= n)%nat.
Proof. induction 1 as [|e l He _ IH]; cbn; lia. Qed.

Definition leaf_ok (e : RulesetExpr) : Prop := exists p, e = EPredicate p /\ predicate_ok p.

Lemma leaf_expr_ok e : leaf_ok e -> expr_ok e /\ expr_depth e = 0%nat.
Proof. intros (p & -> & Hp). split; [by constructor|done]. Qed.

Lemma group_ok {A} (p : list A -> RulesetPredicate) (P : list A -> Prop) l :
  (forall l, l <> [] -> P l -> predicate_ok (p l)) -> P l -> Forall leaf_ok (group p l).
Proof. intros Hp Hl. destruct l; cbn; [constructor|]. constructor; [|constructor]. eexists. split; [done|]. by apply Hp. Qed.

Lemma list_group_ok {A} (p : list A -> RulesetPredicate) l : (forall l, l <> [] -> predicate_ok (p l)) -> Forall leaf_ok (group p l).
Proof. intros Hp. by apply (group_ok p (fun _ => True)); auto. Qed.

Lemma set_group_ok p o : (forall s, compact_ok s -> predicate_ok (p s)) -> opt_ok o -> Forall leaf_ok (set_group p o).
Proof. intros Hp Ho. destruct o; cbn; [|constructor]. constructor; [|constructor]. eexists. split; [done|]. by apply Hp. Qed.

Lemma flag_group_ok p b : predicate_ok p -> Forall leaf_ok (flag_group p b).
Proof. intros Hp. destruct b; cbn; [|constructor]. constructor; [by eexists|constructor]. Qed.

Lemma regex_group_ok p l es : (forall r, predicate_ok (p r)) -> regex_group p l = Ok es -> Forall leaf_ok es.
Proof.
  intros Hp E. unfold regex_group in E. destruct l; [injection E as <-; constructor|].
  apply bind_Ok in E as (r & _ & E). injection E as <-. constructor; [by eexists|constructor].
Qed.

Lemma apply_invert_ok e b n : expr_ok e /\ (expr_depth e <= n)%nat -> expr_ok (apply_invert e b) /\ (expr_depth (apply_invert e b) <= n)%nat.
Proof. intros [He Hd]. destruct b; [|done]. split; [by constructor|done]. Qed.

Lemma destination_exprs_ok rule dr : rule_ok rule -> Forall leaf_ok dr -> Forall leaf_ok (destination_exprs rule dr).
Proof.
  intros [Hd Ha _ _ _ _ _] Hr. unfold destination_exprs. rewrite !Forall_app.
  split_and!; [apply set_group_ok; [exact compact_answers|exact Hd]|by apply list_group_ok|exact Hr
    |apply set_group_ok; [exact compact_answers|exact Ha]|by apply list_group_ok].
Qed.

Lemma other_exprs_ok rule pr kr : rule_ok rule -> Forall leaf_ok pr -> Forall leaf_ok kr -> Forall leaf_ok (other_exprs rule pr kr).
Proof.
  intros [_ _ R3 R4 R5 R6 R7] Hp Hk. unfold other_exprs. rewrite !Forall_app.
  split_and!; first [exact Hp|exact Hk|by apply list_group_ok|by apply flag_group_ok|by eapply group_ok; [intros; by split|]].
Qed.

Lemma compile_default_rule_ok rule invert e :
  rule_ok rule -> compile_default_rule rule invert = Ok e -> expr_ok e /\ (expr_depth e <= 2)%nat.
Proof.
  intros Hr E. unfold compile_default_rule in E.
  apply bind_Ok in E as (dr & E1 & E). apply bind_Ok in E as (pr & E2 & E). apply bind_Ok in E as (kr & E3 & E).
  apply regex_group_ok in E1, E2, E3; [|done..].
  pose proof (destination_exprs_ok rule dr Hr E1) as Hd. pose proof (other_exprs_ok rule pr kr Hr E2 E3) as Ho.
  set (dest := destination_exprs rule dr) in *. set (others := other_exprs rule pr kr) in *. clearbody dest others.
  assert (Hleaves : forall l, Forall leaf_ok l -> Forall (fun e => expr_ok e /\ (expr_depth e <= 0)%nat) l).
  { intros l Hl. eapply list.Forall_impl; [exact Hl|]. intros x [Hx Hx0]%leaf_expr_ok. split; [done|lia]. }
  assert (Hg : Forall (fun e => expr_ok e /\ (expr_depth e <= 1)%nat) (match dest with [] => [] | _ => [EAny dest] end ++ others)).
  { apply Forall_app_2; [|eapply list.Forall_impl; [exact (Hleaves _ Ho)|]; cbn; intros; split; [tauto|lia]].
    apply Hleaves in Hd. destruct dest as [|d dest]; [constructor|]. constructor; [|constructor]. split.
    - constructor; [done|]. eapply list.Forall_impl; [exact Hd|]. by intros x [Hx _].
    - cbn [expr_depth]. apply le_n_S, depth_le. eapply list.Forall_impl; [exact Hd|]. by intros x [_ Hx]. }
  destruct (_ ++ others) as [|g groups]; [done|]. injection E as <-. apply apply_invert_ok. split.
  - constructor; [done|]. eapply list.Forall_impl; [exact Hg|]. by intros x [Hx _].
  - cbn [expr_depth]. apply le_n_S, depth_le. eapply list.Forall_impl; [exact Hg|]. by intros x [_ Hx].
Qed.

(** ** Rules and files *)

Lemma gives_rule fuel depth : gives (read_rule fuel depth) (fun e => expr_ok e /\ (expr_depth e <= fuel + 1)%nat).
Proof.
  revert depth. induction fuel as [|fuel IH]; intros depth; cbn [read_rule]; [apply gives_bad|].
  eapply (gives_bind _ _ (fun _ => True)); [gives_any|intros _ _].
  eapply (gives_bind _ _ (fun _ => True)); [gives_any|intros t _]. apply gives_if.
  - unfold read_default_rule. eapply gives_bind; [apply gives_items, rule_default_ok|]. intros [rule invert] Hr.
    apply gives_lift. intros e He. apply compile_default_rule_ok in He as [He Hd]; [|done]. split; [done|lia].
  - apply gives_if; [|apply gives_bad]. eapply (gives_bind _ _ (fun _ => True)); [gives_any|intros mode _].
    apply gives_if; [apply gives_bad|].
    eapply (gives_bind _ _ (fun n => 0 <= n)); [eapply gives_weaken; [apply gives_rd, (read_len_reads MAX_RULES_PER_LIST)|cbn; lia]|].
    intros n Hn. destruct (Z.eqb_spec n 0) as [|Hz]; [apply gives_bad|].
    eapply (gives_bind _ _ (fun _ => True)); [gives_any|intros _ _].
    eapply gives_bind; [by apply gives_times, IH|]. intros l [Hl Hf].
    eapply (gives_bind _ _ (fun _ => True)); [gives_any|intros invert _]. apply gives_ret, apply_invert_ok.
    assert (l <> []) by (intros ->; cbn in Hl; lia).
    assert (Hok : Forall expr_ok l) by (eapply list.Forall_impl; [exact Hf|]; by intros x [Hx _]).
    assert (Hd : (foldr (fun e n => Nat.max (expr_depth e) n) 0 l <= fuel + 1)%nat) by (apply depth_le; eapply list.Forall_impl; [exact Hf|]; by intros x [_ Hx]).
    destruct (mode =? 0); (split; [by constructor|cbn [expr_depth]; lia]).
Qed.

Lemma parse_rules_ok version decoded prog :
  bytes_ok decoded -> parse_rules version decoded = Ok prog ->
  exists rules, rg_root prog = EAny rules /\ Forall expr_ok rules /\ rg_rule_count prog = len rules /\ len rules <= MAX_RULES_PER_LIST /\ (expr_depth (EAny rules) <= 66)%nat.
Proof.
  unfold parse_rules. intros Hb E. apply bind_Ok in E as ([rules [r st]] & E & E2).
  destruct (negb (is_eof r)); [done|]. injection E2 as <-. exists rules. split; [done|].
  revert E. match goal with |- ?m ?s = _ -> _ => intros E; assert (Hg : gives m (fun l => len l <= MAX_RULES_PER_LIST /\ Forall (fun e => expr_ok e /\ (expr_depth e <= 65)%nat) l)) end.
  - eapply gives_bind; [apply gives_rd, (read_len_reads MAX_RULES_PER_LIST)|intros n Hn].
    eapply (gives_bind _ _ (fun _ => True)); [gives_any|intros _ _].
    eapply gives_weaken; [apply gives_times, gives_rule|]. intros l [Hl Hf]. split; [unfold len; rewrite Hl; cbn in Hn; lia|]. eapply list.Forall_impl; [exact Hf|]. cbn. intros x [Hx Hx']. split; [done|]. change (Z.to_nat MAX_LOGICAL_DEPTH) with 64%nat in Hx'. lia.
  - apply Hg in E as [[Hlen Hf] _]; [|by split; cbn; [lia|]]. split; [eapply list.Forall_impl; [exact Hf|]; by intros x [Hx _]|]. split; [done|]. split; [done|].
    cbn [expr_depth]. apply le_n_S, depth_le. eapply list.Forall_impl; [exact Hf|]. by intros x [_ Hx].
Qed.
End accepted.

(** ** The item loop ends

    Every round but the last sets a bit of [seen] that was clear, and there are 24 of them. *)

Definition unseen (seen : Z) : list Z := List.filter (fun i => negb (Z.testbit seen i)) (Z.of_nat <$> seq 0 24).

Lemma filter_length_lt {A} (f g : A -> bool) l x :
  (forall y, g y = true -> f y = true) -> x ∈ l -> f x = true -> g x = false ->
  (length (List.filter g l) < length (List.filter f l))%nat.
Proof.
  intros Hgf Hx Hf Hg.
  assert (Hle : forall l, (length (List.filter g l) <= length (List.filter f l))%nat).
  { clear -Hgf. induction l as [|y l IH]; [done|]. cbn. destruct (g y) eqn:E; [rewrite (Hgf y E); cbn; lia|].
    destruct (f y); cbn; lia. }
  induction Hx as [x l|x y l Hx IH]; cbn.
  - rewrite Hf, Hg. cbn. specialize (Hle l). lia.
  - specialize (IH Hf Hg). destruct (g y) eqn:E; [rewrite (Hgf y E); cbn; lia|]. destruct (f y); cbn; lia.
Qed.

Lemma unseen_set seen t :
  0 <= t <= 23 -> Z.land seen (Z.shiftl 1 t) = 0 ->
  (length (unseen (Z.lor seen (Z.shiftl 1 t))) < length (unseen seen))%nat.
Proof.
  intros Ht Hl. assert (Hbit : forall i, 0 <= i -> Z.testbit (Z.shiftl 1 t) i = (i =? t)).
  { intros i Hi. rewrite Z.shiftl_mul_pow2, Z.mul_1_l, Z.pow2_bits_eqb by lia. lia. }
  apply (filter_length_lt _ _ _ t).
  - intros y. rewrite Z.lor_spec, !negb_true_iff, orb_false_iff. tauto.
  - apply list_elem_of_fmap. exists (Z.to_nat t). rewrite elem_of_seq. lia.
  - rewrite negb_true_iff. pose proof (Z.bits_0 t) as Hz. rewrite <- Hl, Z.land_spec, Hbit, Z.eqb_refl, andb_true_r in Hz by lia. done.
  - rewrite Z.lor_spec, Hbit, Z.eqb_refl, orb_true_r by lia. done.
Qed.

Lemma unseen_0 : length (unseen 0) = 24%nat.
Proof. vm_compute. reflexivity. Qed.

Section termination.
Context `{IpNetLib, !IpNetNew, !RouteLib, NetText, StrCase, RulesetLib, !RegexSetNew}.

Lemma read_item_negative t rule s : t < 0 -> read_item t rule s = Panic.
Proof. by destruct t. Qed.

Lemma item_loop_fuel n m rule seen s :
  (length (unseen seen) < n)%nat -> (length (unseen seen) < m)%nat ->
  item_loop n rule seen s = item_loop m rule seen s.
Proof.
  revert m rule seen s. induction n as [|n IH]; intros [|m] rule seen s Hn Hm; [lia..|]. cbn [item_loop].
  unfold mbind, dec_bind. cbn [mbind outcome_bind].
  destruct (rd read_u8 s) as [[t s1]| |]; [|done|done]. cbn.
  destruct (t =? 255); [done|]. destruct (Z.ltb_spec 23 t) as [|Ht]; [done|]. cbn.
  destruct (negb (check_item_version _ _)); [done|]. destruct (Z.eqb_spec (Z.land seen (Z.shiftl 1 t)) 0) as [Hl|]; [|done]. cbn.
  destruct (Z.ltb_spec t 0) as [Hneg|Hpos]; [by rewrite read_item_negative|].
  destruct (read_item t rule s1) as [[rule' s2]| |]; [|done|done]. cbn.
  pose proof (unseen_set seen t ltac:(lia) Hl). apply IH; lia.
Qed.

(** Logical rules nest at most [MAX_LOGICAL_DEPTH] deep: [add_rule] refuses the next level,
    so more fuel than levels left makes no difference. *)
Lemma times_ext {A} n (d d' : dec A) s : (forall s, d s = d' s) -> times n d s = times n d' s.
Proof.
  intros Hd. revert s. induction n as [|n IH]; intros s; [done|]. cbn [times]. unfold mbind, dec_bind.
  rewrite Hd. destruct (d' s) as [[a s1]| |]; cbn; [|done..]. by rewrite IH.
Qed.

#[local] Arguments rd : simpl never.
#[local] Arguments charge : simpl never.
#[local] Arguments read_len : simpl never.

Lemma read_rule_deep k depth s : MAX_LOGICAL_DEPTH < depth -> read_rule k depth s = Err InvalidData.
Proof.
  intros Hd. destruct k; [done|]. cbn [read_rule]. unfold mbind, dec_bind, charge, add_rule.
  by rewrite (proj2 (Z.ltb_lt _ _) Hd).
Qed.

Lemma read_rule_fuel n m depth s :
  MAX_LOGICAL_DEPTH + 1 - depth <= Z.of_nat n -> MAX_LOGICAL_DEPTH + 1 - depth <= Z.of_nat m ->
  read_rule n depth s = read_rule m depth s.
Proof.
  revert m depth s. induction n as [|n IH]; intros m depth s Hn Hm; [by rewrite (read_rule_deep 0), (read_rule_deep m) by lia|].
  destruct m as [|m]; [by rewrite (read_rule_deep 0), (read_rule_deep (S n)) by lia|]. cbn [read_rule]. unfold mbind, dec_bind.
  destruct (charge _ s) as [[[] s1]| |]; cbn; [|done..]. destruct (rd read_u8 s1) as [[t s2]| |]; cbn; [|done..].
  destruct (t =? 0); [done|]. destruct (t =? 1); [|done]. destruct (rd read_u8 s2) as [[mode s3]| |]; cbn; [|done..].
  destruct (1 <? mode); [done|].
  destruct (rd (fun r => read_len r MAX_RULES_PER_LIST) s3) as [[k s4]| |]; cbn; [|done..].
  destruct (k =? 0); [done|]. destruct (charge _ s4) as [[[] s5]| |]; cbn; [|done..].
  rewrite (times_ext _ (read_rule n (depth + 1)) (read_rule m (depth + 1))); [done|].
  intros s'. apply IH; lia.
Qed.
End termination.

(** ** What a default rule means

    Each field of the rule is a condition that is absent when the field is empty.  The five
    destination fields are alternatives; every other field present must hold; [invert]
    negates the whole. *)

Section meaning.
Context `{IpNetLib, !IpNetNew, !RouteLib, NetText, StrCase, RulesetLib, !RegexSetNew}.

Definition field {A} (l : list A) (holds : bool) : option bool := match l with [] => None | _ => Some holds end.
Definition regex_field (l : list string) (holds : RegexSet -> bool) : option bool :=
  match l with [] => None | _ => Some (opt_holds (regex_set_new l) holds) end.
Definition flag_field (b holds : bool) : option bool := if b then Some holds else None.

Definition regexes_compile (l : list string) : bool :=
  match l with [] => true | _ => bool_decide (is_Some (regex_set_new l)) end.

(** The destination fields *)
Definition destination_fields (rule : DefaultRule) (ctx : RulesetMatchContext) : list (option bool) :=
  let host := singbox_domain (rc_dst_host ctx) in
  let on f := on_host host f in
  [ (fun s => on (fun h => bool_decide (matches_domain s h = Ok true))) <$> dr_domain_matcher rule;
    field (dr_domain_keywords rule) (on (fun h => existsb (str_contains h) (dr_domain_keywords rule)));
    regex_field (dr_domain_regexes rule) (fun r => on (regex_set_is_match r));
    (fun s => on (fun h => bool_decide (matches_adguard s h = Ok true))) <$> dr_adguard_domain_matcher rule;
    field (dr_ip_cidrs rule) (opt_holds (destination_ip ctx) (in_nets (dr_ip_cidrs rule))) ].

(** The other fields *)
Definition other_fields (rule : DefaultRule) (ctx : RulesetMatchContext) : list (option bool) :=
  let nonempty f path := negb (String.eqb path "") && f path in
  [ field (dr_source_ip_cidrs rule) (opt_holds (rc_src_ip ctx) (in_nets (dr_source_ip_cidrs rule)));
    field (dr_ports rule) (opt_holds (rc_dst_port ctx) (in_ranges (dr_ports rule)));
    field (dr_source_ports rule) (opt_holds (rc_src_port ctx) (in_ranges (dr_source_ports rule)));
    field (dr_process_names rule) (opt_holds (rc_process_name ctx) (mem (dr_process_names rule)));
    field (dr_query_types rule) (opt_holds (rc_query_type ctx) (fun q => negb (q =? 0) && memz (dr_query_types rule) q));
    field (dr_process_paths rule)
      (opt_holds (rc_process_path ctx) (nonempty (mem (dr_process_paths rule)))
       || (target_android && existsb (mem (dr_process_paths rule)) (rc_package_names ctx)));
    regex_field (dr_process_path_regexes rule) (fun r => opt_holds (rc_process_path ctx) (nonempty (regex_set_is_match r)));
    field (dr_package_names rule) (existsb (mem (dr_package_names rule)) (rc_package_names ctx));
    regex_field (dr_package_name_regexes rule) (fun r => existsb (regex_set_is_match r) (rc_package_names ctx));
    field (dr_networks rule) (opt_holds (rc_network ctx) (mem (dr_networks rule)));
    field (dr_wifi_ssids rule) (opt_holds (rc_wifi_ssid ctx) (mem (dr_wifi_ssids rule)));
    field (dr_wifi_bssids rule) (opt_holds (rc_wifi_bssid ctx) (fun b => mem (dr_wifi_bssids rule) (normalize_wifi_bssid b)));
    field (dr_network_types rule) (opt_holds (rc_network_type ctx) (memz (dr_network_types rule)));
    flag_field (dr_network_is_expensive rule) (bool_decide (rc_network_is_expensive ctx = Some true));
    flag_field (dr_network_is_constrained rule) (bool_decide (rc_network_is_constrained ctx = Some true));
    field (dr_network_interface_addresses rule)
      (predicate_matches (PNetworkInterfaceAddress (dr_network_interface_addresses rule)) ctx);
    field (dr_default_interface_addresses rule)
      (predicate_matches (PDefaultInterfaceAddress (dr_default_interface_addresses rule)) ctx) ].

Definition present (l : list (option bool)) : list bool := omap id l.

(** No destination field, or one of them holds; and all the others hold *)
Definition rule_holds (rule : DefaultRule) (ctx : RulesetMatchContext) : bool :=
  match present (destination_fields rule ctx) with [] => true | l => existsb id l end
  && forallb id (present (other_fields rule ctx)).

Definition rule_compiles (rule : DefaultRule) (ctx : RulesetMatchContext) : bool :=
  regexes_compile (dr_domain_regexes rule) && regexes_compile (dr_process_path_regexes rule)
  && regexes_compile (dr_package_name_regexes rule)
  && negb (len (present (destination_fields rule ctx) ++ present (other_fields rule ctx)) =? 0).

(** The values of a list of expressions *)
Definition values (ctx : RulesetMatchContext) (l : list RulesetExpr) : list bool := (fun e => expr_matches e ctx) <$> l.

Lemma present_app a b : present (a ++ b) = present a ++ present b.
Proof. unfold present. by rewrite omap_app. Qed.

Lemma values_group {A} ctx (p : list A -> RulesetPredicate) l v :
  predicate_matches (p l) ctx = v -> values ctx (group p l) = present [field l v].
Proof. intros <-. by destruct l. Qed.

Lemma values_set ctx p o f :
  (forall s, predicate_matches (p s) ctx = f s) -> values ctx (set_group p o) = present [f <$> o].
Proof. intros Hf. destruct o; cbn; [by rewrite Hf|done]. Qed.

Lemma values_flag ctx p b v : predicate_matches p ctx = v -> values ctx (flag_group p b) = present [flag_field b v].
Proof. intros <-. by destruct b. Qed.

Lemma regex_group_values ctx p l f :
  (forall r, predicate_matches (p r) ctx = f r) ->
  match regex_group p l with
  | Ok es => regexes_compile l = true /\ values ctx es = present [regex_field l f]
  | Err _ => regexes_compile l = false
  | Panic => False
  end.
Proof.
  intros Hf. unfold regex_group, regexes_compile, regex_field. destruct l as [|x l]; [done|].
  destruct (regex_set_new (x :: l)); cbn; [by rewrite Hf|done].
Qed.

Lemma regex_group_err p l k : regex_group p l = Err k -> k = InvalidData.
Proof. unfold regex_group. destruct l; [done|]. by destruct (regex_set_new _); intros [= <-]. Qed.

Lemma existsb_values ctx l : existsb (fun e => expr_matches e ctx) l = existsb id (values ctx l).
Proof. induction l as [|e l IH]; [done|]. cbn. by rewrite IH. Qed.

Lemma forallb_values ctx l : forallb (fun e => expr_matches e ctx) l = forallb id (values ctx l).
Proof. induction l as [|e l IH]; [done|]. cbn. by rewrite IH. Qed.

Lemma values_app ctx a b : values ctx (a ++ b) = values ctx a ++ values ctx b.
Proof. apply fmap_app. Qed.

Lemma present_cons o l : present (o :: l) = present [o] ++ present l.
Proof. by destruct o. Qed.

Ltac values_of :=
  rewrite !values_app; repeat (rewrite (present_cons _ (_ :: _)));
  repeat first [apply (f_equal2 app)|reflexivity|assumption|by apply values_group|by apply values_set|by apply values_flag].

Lemma rule_compiles_false rule ctx :
  regexes_compile (dr_domain_regexes rule) && regexes_compile (dr_process_path_regexes rule)
  && regexes_compile (dr_package_name_regexes rule) = false -> rule_compiles rule ctx = false.
Proof. intros E. unfold rule_compiles. rewrite E. reflexivity. Qed.

Lemma values_length ctx l : len (values ctx l) = len l.
Proof. unfold values, len. by rewrite length_fmap. Qed.

(** A default rule means what its items say: the compiled expression matches a flow
    exactly when one of the destination fields (domain set, keywords, regexes, AdGuard set,
    IP set) that are present holds, or none is present, and every other field that is present
    holds; [invert] negates the result.  Compilation fails exactly when a regex does not
    compile or the rule has no field at all, and never panics. *)
Theorem srs_default_rule_meaning rule invert ctx :
  match compile_default_rule rule invert with
  | Ok e => rule_compiles rule ctx = true /\ expr_matches e ctx = xorb invert (rule_holds rule ctx)
  | Err k => k = InvalidData /\ rule_compiles rule ctx = false
  | Panic => False
  end.
Proof.
  unfold compile_default_rule.
  pose proof (regex_group_values ctx PSingboxDomainRegex (dr_domain_regexes rule) _ (fun r => eq_refl)) as R1.
  pose proof (regex_group_values ctx PProcessPathRegex (dr_process_path_regexes rule) _ (fun r => eq_refl)) as R2.
  pose proof (regex_group_values ctx PPackageNameRegex (dr_package_name_regexes rule) _ (fun r => eq_refl)) as R3.
  destruct (regex_group PSingboxDomainRegex _) as [dr|k|] eqn:E1 in R1 |- *; [|cbn [mbind outcome_bind]|destruct R1].
  2:{ split; [exact (regex_group_err _ _ _ E1)|]. apply rule_compiles_false. rewrite R1. reflexivity. }
  destruct (regex_group PProcessPathRegex _) as [pr|k|] eqn:E2 in R2 |- *; [|cbn [mbind outcome_bind]|destruct R2].
  2:{ split; [exact (regex_group_err _ _ _ E2)|]. apply rule_compiles_false. rewrite R2, andb_false_r. reflexivity. }
  destruct (regex_group PPackageNameRegex _) as [kr|k|] eqn:E3 in R3 |- *; [|cbn [mbind outcome_bind]|destruct R3].
  2:{ split; [exact (regex_group_err _ _ _ E3)|]. apply rule_compiles_false. rewrite R3. apply andb_false_r. }
  destruct R1 as [C1 R1], R2 as [C2 R2], R3 as [C3 R3]. cbn [mbind outcome_bind].
  unfold rule_compiles. rewrite C1, C2, C3. cbn [andb].
  set (dest := destination_exprs rule dr). set (others := other_exprs rule pr kr).
  assert (Hd : values ctx dest = present (destination_fields rule ctx)) by (unfold dest, destination_exprs, destination_fields; values_of).
  assert (Ho : values ctx others = present (other_fields rule ctx)) by (unfold others, other_exprs, other_fields; values_of).
  clearbody dest others. unfold rule_holds. rewrite <- Hd, <- Ho, len_app, !values_length.
  destruct dest as [|e dest].
  - destruct others as [|o others]; [done|]. cbn [app]. split; [rewrite len_cons, len_nil; pose proof (len_nonneg others); lia|].
    destruct invert; cbn [apply_invert expr_matches xorb]; rewrite forallb_values; done.
  - cbn [app]. split; [rewrite len_cons; pose proof (len_nonneg dest); pose proof (len_nonneg others); lia|].
    destruct invert; cbn [apply_invert expr_matches xorb forallb]; rewrite existsb_values, forallb_values; done.
Qed.
End meaning.

(** ** Reading an encoding back

    [reader_at pre suf] has consumed [pre] and has [suf] left. *)

Definition reader_at (pre suf : list Z) : Reader := mkReader (pre ++ suf) (len pre).

Lemma take_at pre x suf :
  len (pre ++ x ++ suf) < 2 ^ 64 -> take_bytes (reader_at pre (x ++ suf)) (len x) = Ok (x, reader_at (pre ++ x) suf).
Proof.
  intros Hl. pose proof (len_nonneg pre). pose proof (len_nonneg x). pose proof (len_nonneg suf).
  rewrite !len_app in Hl. unfold take_bytes, checked_add, reader_at. cbn [rd_bytes rd_position].
  rewrite (proj2 (Z.ltb_lt _ _)) by lia. cbn. rewrite !len_app.
  rewrite (proj2 (Z.leb_le _ _)), (proj2 (Z.leb_le _ _)) by lia. cbn.
  rewrite slice_app_skip, slice_app_first, slice_exact, <- app_assoc by lia. done.
Qed.

Lemma read_u8_at pre b suf :
  len (pre ++ b :: suf) < 2 ^ 64 -> read_u8 (reader_at pre (b :: suf)) = Ok (b, reader_at (pre ++ [b]) suf).
Proof. intros Hl. unfold read_u8. pose proof (take_at pre [b] suf Hl) as E. cbn [app] in E. change (len [b]) with 1 in E. by rewrite E. Qed.

Lemma read_u64_at pre z suf :
  0 <= z < 2 ^ 64 -> len (pre ++ be_bytes 8 z ++ suf) < 2 ^ 64 ->
  read_u64_be (reader_at pre (be_bytes 8 z ++ suf)) = Ok (z, reader_at (pre ++ be_bytes 8 z) suf).
Proof.
  intros Hz Hl. unfold read_u64_be. pose proof (take_at _ _ _ Hl) as E. rewrite len_be_bytes in E. change (Z.of_nat 8) with 8 in E.
  rewrite E. cbn [mbind outcome_bind]. by rewrite be_val_be_bytes_small.
Qed.

(** A length below 128 is one byte. *)
Lemma read_len_at pre b suf m :
  0 <= b <= m -> m < 128 -> len (pre ++ b :: suf) < 2 ^ 64 ->
  read_len (reader_at pre (b :: suf)) m = Ok (b, reader_at (pre ++ [b]) suf).
Proof.
  intros Hb Hm Hl. unfold read_len, read_uvarint. cbn [uvarint_loop]. rewrite (read_u8_at _ _ _ Hl). cbn [mbind outcome_bind].
  assert (forall z, 0 <= z < 128 -> Z.land z 128 = 0 /\ Z.lor 0 (Z.shiftl (Z.land z 127) 0) = z /\ uvarint_length z = 1) as Hsmall.
  { intros z Hz. apply (Forall_forall (fun z => Z.land z 128 = 0 /\ Z.lor 0 (Z.shiftl (Z.land z 127) 0) = z /\ uvarint_length z = 1)
      (Z.of_nat <$> seq 0 128)); [by vm_compute; repeat constructor|].
    apply list_elem_of_In, list_elem_of_fmap. exists (Z.to_nat z). rewrite elem_of_seq. lia. }
  destruct (Hsmall b ltac:(lia)) as (E1 & E2 & E3). change (0 * 7) with 0. rewrite E1, E2, E3. change (1 =? 0 + 1) with true. cbn.
  by rewrite (proj2 (Z.ltb_ge _ _)) by lia.
Qed.

Lemma bind_rd {A B} (f : Reader -> outcome (A * Reader)) (k : A -> dec B) r st a r' :
  f r = Ok (a, r') -> (x ← rd f; k x) (r, st) = k a (r', st).
Proof. intros E. unfold mbind, dec_bind, rd. cbn. by rewrite E. Qed.

Lemma bind_lift {A B} (o : outcome A) (k : A -> dec B) s a : o = Ok a -> (x ← lift o; k x) s = k a s.
Proof. by intros ->. Qed.

Lemma bind_charge {B} f (k : unit -> dec B) r st st' : f st = Ok st' -> (x ← charge f; k x) (r, st) = k tt (r, st').
Proof. intros E. unfold mbind, dec_bind, charge. cbn. by rewrite E. Qed.

(** ** IP sets *)

Definition ip_len (ip : IpAddr) : nat := if is_ipv4 ip then 4 else 16.
Definition encode_addr (ip : IpAddr) : list Z := Z.of_nat (ip_len ip) :: be_bytes (ip_len ip) (ip_value ip).
Definition encode_range (r : IpAddr * IpAddr) : list Z := encode_addr r.1 ++ encode_addr r.2.
Definition encode_ip_set (ranges : list (IpAddr * IpAddr)) : list Z :=
  [1] ++ be_bytes 8 (len ranges) ++ concat (encode_range <$> ranges).

Definition range_ok (r : IpAddr * IpAddr) : Prop :=
  ip_ok r.1 /\ ip_ok r.2 /\ is_ipv4 r.1 = is_ipv4 r.2 /\ ip_value r.1 <= ip_value r.2.

(** IPv4 before IPv6, ascending and disjoint *)
Fixpoint ranges_ordered (previous : option (IpAddr * IpAddr)) (ranges : list (IpAddr * IpAddr)) : bool :=
  match ranges with
  | [] => true
  | r :: ranges' => match previous with Some p => range_ordered p r.1 | None => true end && ranges_ordered (Some r) ranges'
  end.

Lemma read_addr_at pre ip suf :
  ip_ok ip -> len (pre ++ encode_addr ip ++ suf) < 2 ^ 64 ->
  read_ip_addr (reader_at pre (encode_addr ip ++ suf)) = Ok (ip, reader_at (pre ++ encode_addr ip) suf).
Proof.
  intros Hip Hl. unfold read_ip_addr, encode_addr in *. cbn [app] in *.
  rewrite read_len_at; [|by unfold ip_len; destruct (is_ipv4 ip)|done|done]. cbn [mbind outcome_bind].
  assert (E : take_bytes (reader_at (pre ++ [Z.of_nat (ip_len ip)]) (be_bytes (ip_len ip) (ip_value ip) ++ suf)) (Z.of_nat (ip_len ip))
    = Ok (be_bytes (ip_len ip) (ip_value ip), reader_at (pre ++ encode_addr ip) suf)).
  { rewrite <- (len_be_bytes (ip_len ip) (ip_value ip)) at 2. rewrite take_at by (rewrite <- app_assoc; exact Hl). by rewrite <- app_assoc. }
  rewrite E. cbn [mbind outcome_bind]. rewrite !len_be_bytes. fold (encode_addr ip).
  destruct ip as [z|z]; unfold ip_len; cbn [is_ipv4 ip_value ip_ok] in *; cbn; rewrite be_val_be_bytes_small by done; done.
Qed.

Section ip_sets.
Context `{IpNetLib, !IpNetNew}.

(** One range: its two addresses, the checks, the networks and their charge *)
Lemma range_step_at n previous r pre suf st :
  range_ok r -> match previous with Some p => range_ordered p r.1 | None => true end = true ->
  len (pre ++ encode_range r ++ suf) < 2 ^ 64 -> ds_total_semantic_items st + 258 <= MAX_SEMANTIC_ITEMS ->
  exists nets st',
    ip_set_loop (S n) previous (reader_at pre (encode_range r ++ suf), st)
    = (rest ← ip_set_loop n (Some r); mret (nets ++ rest)) (reader_at (pre ++ encode_range r) suf, st')
    /\ ds_total_semantic_items st' <= ds_total_semantic_items st + 258
    /\ forall ip, existsb (fun n => net_contains n ip) nets = in_range_of ip r.
Proof.
  destruct r as [from to]. unfold range_ok, encode_range. cbn [fst snd]. intros (Hf & Ht & Hfam & Hle) Hprev Hl Hs.
  destruct (ip_range_to_networks_spec from to Hf Ht Hfam Hle) as (nets & Hn & Htile & Hv & Hlen).
  rewrite <- !app_assoc in *. cbn [ip_set_loop].
  erewrite (bind_rd _ _ (reader_at pre _)) by (apply (read_addr_at pre from (encode_addr to ++ suf) Hf Hl)).
  erewrite (bind_rd _ _ (reader_at (pre ++ encode_addr from) _))
    by (apply (read_addr_at (pre ++ encode_addr from) to suf Ht); rewrite <- app_assoc; exact Hl).
  rewrite Hfam, eqb_reflx. cbn [negb]. rewrite (proj2 (Z.ltb_ge _ _) Hle).
  replace (match previous with Some p => negb (range_ordered p from) | None => false end) with false
    by (destruct previous; [by rewrite Hprev|done]).
  erewrite bind_lift by exact Hn.
  assert (len nets <= 258) by (destruct (is_ipv4 from); lia). pose proof (len_nonneg nets).
  erewrite bind_charge by (unfold add_semantic_items, saturating_add;
    rewrite (proj2 (Z.ltb_ge _ _)) by (unfold MAX_SEMANTIC_ITEMS in *; lia); reflexivity).
  eexists nets, _. split; [rewrite <- app_assoc; reflexivity|]. cbn. split; [lia|].
  intros ip. rewrite (tile_contains _ _ _ _ ip Htile Hv). done.
Qed.

Lemma ip_set_loop_at ranges previous pre suf st :
  Forall range_ok ranges -> ranges_ordered previous ranges = true ->
  len (pre ++ concat (encode_range <$> ranges) ++ suf) < 2 ^ 64 ->
  ds_total_semantic_items st + 258 * len ranges <= MAX_SEMANTIC_ITEMS ->
  exists nets st',
    ip_set_loop (length ranges) previous (reader_at pre (concat (encode_range <$> ranges) ++ suf), st)
    = Ok (nets, (reader_at (pre ++ concat (encode_range <$> ranges)) suf, st'))
    /\ forall ip, existsb (fun n => net_contains n ip) nets = existsb (in_range_of ip) ranges.
Proof.
  intros Hr. revert previous pre st. induction Hr as [|r ranges Hr Hrs IH]; intros previous pre st Hord Hl Hs.
  - exists [], st. cbn. by rewrite app_nil_r.
  - cbn [fmap list_fmap concat] in *. cbn [ranges_ordered] in Hord. apply andb_prop in Hord as [Ho1 Ho2].
    rewrite <- !app_assoc in *. rewrite len_cons in Hs. pose proof (len_nonneg ranges).
    destruct (range_step_at (length ranges) previous r pre (concat (encode_range <$> ranges) ++ suf) st Hr Ho1)
      as (nets & st1 & E & Hst & Hn); [done|lia|].
    destruct (IH (Some r) (pre ++ encode_range r) st1 Ho2) as (rest & st2 & E2 & Hrest); [by rewrite <- app_assoc|lia|].
    exists (nets ++ rest), st2. split.
    + cbn [length]. rewrite E. unfold mbind, dec_bind. rewrite E2. cbn. by rewrite <- app_assoc.
    + intros ip. by rewrite existsb_app, Hn, Hrest.
Qed.
End ip_sets.

Section claims.
Context `{IpNetLib, !IpNetNew, !RouteLib, NetText, StrCase, RulesetLib, !RegexSetNew, Inflater}.

Lemma decompress_bytes input maximum out : bytes_ok input -> decompress_zlib_bounded input maximum = Ok out -> bytes_ok out.
Proof.
  intros Hb E. unfold decompress_zlib_bounded in E.
  pose proof (iter_until_post (inflate_step maximum) (fun s => bytes_ok (zs_remaining s) /\ bytes_ok (zs_output s)) (fun r => forall out, r = Ok out -> bytes_ok out)
    (Z.to_pos (len input + maximum + 1)) (mkZState inflate_new input [])) as Hpost.
  destruct (iter_until _ _ _) as [s|r]; [done|]. apply Hpost; [|by split; [|constructor]|done]. clear. intros s [Hr Ho]. unfold inflate_step.
  destruct (inflate (zs_inflate s) (zs_remaining s)) as [[[[d consumed] produced] status]|] eqn:Ei; [|done]. apply inflate_bytes in Ei; [|done].
  assert (Hout : bytes_ok (zs_output s ++ produced)) by (by apply Forall_app_2). assert (Hrest : bytes_ok (drop (Z.to_nat consumed) (zs_remaining s))) by (by apply Forall_drop).
  repeat (match goal with |- context [if ?b then _ else _] => destruct b end; try done); destruct status; try done; repeat (match goal with |- context [if ?b then _ else _] => destruct b end; try done); by intros ? [= <-].
Qed.


(** The decoder's unbounded loops end on every input.  The decompression loop ends
    after at most one round per compressed byte or byte of the limit, within the limit
    ([decompress_zlib_bounded] is never the out-of-fuel panic).  The item loop of a default
    rule ends within 25 rounds, since every round but the last marks one of 24 item kinds as
    seen: any larger bound gives the same result.  Nested rules stop at
    [MAX_LOGICAL_DEPTH]. *)
Theorem srs_loops_terminate :
  (forall input maximum, 0 <= maximum < 2 ^ 64 - 1 ->
     no_panic (decompress_zlib_bounded input maximum)
     /\ forall out, decompress_zlib_bounded input maximum = Ok out -> len out <= maximum)
  /\ (forall k rule s, item_loop (ITEM_FUEL + k) rule 0 s = item_loop ITEM_FUEL rule 0 s)
  /\ (forall k s, read_rule (Z.to_nat MAX_LOGICAL_DEPTH + k) 1 s = read_rule (Z.to_nat MAX_LOGICAL_DEPTH) 1 s)
  /\ (forall seen t, 0 <= t <= 23 -> Z.land seen (Z.shiftl 1 t) = 0 ->
        (length (unseen (Z.lor seen (Z.shiftl 1 t))) < length (unseen seen))%nat).
Proof.
  split_and!.
  - intros. by apply decompress_ends.
  - intros. apply item_loop_fuel; rewrite unseen_0; unfold ITEM_FUEL; lia.
  - intros. apply read_rule_fuel; unfold MAX_LOGICAL_DEPTH; lia.
  - apply unseen_set.
Qed.

(** Reading an IP set back: for any list of address ranges in the order the format
    demands (IPv4 before IPv6, ascending, disjoint), within the decoder's limits, the encoded
    set is read in full, and the resulting CIDR networks contain exactly the addresses of the
    ranges, for every range of either family, single addresses and the whole address space
    included. *)
Theorem srs_ip_set_exact ranges pre suf st :
  Forall range_ok ranges -> ranges_ordered None ranges = true ->
  len ranges <= MAX_IP_RANGES -> ds_total_list_items st + len ranges <= MAX_TOTAL_LIST_ITEMS ->
  ds_total_semantic_items st + 258 * len ranges <= MAX_SEMANTIC_ITEMS ->
  len (pre ++ encode_ip_set ranges ++ suf) < 2 ^ 64 ->
  exists nets st',
    read_ip_set (reader_at pre (encode_ip_set ranges ++ suf), st)
    = Ok (nets, (reader_at (pre ++ encode_ip_set ranges) suf, st'))
    /\ forall ip, existsb (fun n => net_contains n ip) nets = existsb (in_range_of ip) ranges.
Proof.
  intros Hr Hord Hn Hli Hse Hl. unfold encode_ip_set in *. cbn [app] in *. rewrite <- !app_assoc in *. cbn [app] in *.
  pose proof (len_nonneg ranges). unfold read_ip_set.
  erewrite bind_rd by (by apply read_u8_at). cbn [Z.eqb Pos.eqb negb].
  assert (Hl' : len ((pre ++ [1]) ++ be_bytes 8 (len ranges) ++ concat (encode_range <$> ranges) ++ suf) < 2 ^ 64)
    by (rewrite <- app_assoc; exact Hl).
  erewrite bind_rd by (apply read_u64_at; [unfold MAX_IP_RANGES in *; lia|exact Hl']).
  rewrite (proj2 (Z.ltb_ge _ _) Hn).
  erewrite bind_charge by (unfold add_list_items, saturating_add;
    rewrite (proj2 (Z.ltb_ge _ _)) by (unfold MAX_TOTAL_LIST_ITEMS in *; lia); reflexivity).
  unfold len at 1. rewrite Nat2Z.id.
  destruct (ip_set_loop_at ranges None ((pre ++ [1]) ++ be_bytes 8 (len ranges)) suf
    (mkDecodeState (ds_version st) (ds_total_rule_nodes st)
       (Z.min (ds_total_list_items st + len ranges) (2 ^ 64 - 1)) (ds_total_string_bytes st)
       (ds_total_regex_bytes st) (ds_total_semantic_items st)) Hr Hord) as (nets & st' & E & Hnets);
    [rewrite <- app_assoc; exact Hl'|done|].
  exists nets, st'. split; [|done]. rewrite E. by rewrite <- !app_assoc.
Qed.
End claims.

(** ** Witnesses *)

Module SrsSpecWitness.
Import Concrete IpRangeConcrete RulesetWitness.
#[local] Existing Instances route_lib plain_sets.

(** Regexes as lists of needles, and a compressor that stores its input *)
#[local] Instance needles : RegexSetNew := {| regex_set_new l := Some (l : @RegexSet plain_sets) |}.

#[local, program] Instance stored : Inflater :=
  {| Inflate := unit; inflate_new := tt; inflate _ i := Some (tt, len i, i, ZStreamEnd) |}.
Next Obligation. intros d i d' c o s [= <- <- <- <-]. apply len_nonneg. Qed.
Next Obligation. intros d i d' c o s Hi [= <- <- <- <-]. exact Hi. Qed.

(** One default rule: the set of domains below [a], inverted *)
Definition rule_bytes : list Z := [1; 0; 2] ++ SrsWitness.encoded ++ [255; 1].
Definition file : list Z := str_bytes "SRS" ++ [1] ++ rule_bytes.


(** 10.0.0.1 to 10.0.0.6, then ::1 *)
Definition ranges : list (IpAddr * IpAddr) := [(V4 167772161, V4 167772166); (V6 1, V6 1)].

Lemma srs_ip_set_exact_witness :
  exists nets st', read_ip_set (reader_at [] (encode_ip_set ranges ++ []), DecodeState_new 1)
    = Ok (nets, (reader_at ([] ++ encode_ip_set ranges) [], st'))
    /\ existsb (fun n => net_contains n (V4 167772163)) nets = true.
Proof.
  destruct (srs_ip_set_exact ranges [] [] (DecodeState_new 1)) as (nets & st' & E & Hn).
  - by repeat constructor.
  - reflexivity.
  - vm_compute; discriminate.
  - vm_compute; discriminate.
  - vm_compute; discriminate.
  - vm_compute; reflexivity.
  - exists nets, st'. split; [exact E|]. rewrite Hn. reflexivity.
Defined.

(** A rule with ports and a keyword, inverted *)
Definition keyword_rule : DefaultRule := set_ports [mkPortRange 80 443] (set_domain_keywords ["mail"] DefaultRule_default).

Example keyword_rule_inverted :
  (e ← compile_default_rule keyword_rule true; Ok (expr_matches e ctx)) = Ok true.
Proof. vm_compute. reflexivity. Qed.
End SrsSpecWitness.
