(* ===== verification/MrsBitmap.v ===== *)
(** * Rank and select on bitmaps ([core-ruleset/src/parser/mrs/bitmap.rs])

    The two indexes the succinct domain sets of MRS files are queried with: [ranks], the
    number of set bits before every word, and [selects], the position of every 64th set bit.
    Positions and counts are [i32] in the code, which the index construction checks. *)

From Stdlib Require Import Sorted.
From stdpp Require Import base list gmap strings numbers option.
From S2P Require Import Prelude IpRange.

Definition set_bit (bm : list Z) (i v : Z) : list Z :=
  let bm := bm ++ repeat 0 (Z.to_nat (Z.shiftr i 6 + 1 - len bm)) in
  alter (fun w => Z.lor w (Z.shiftl (Z.land v 1) (Z.land i 63))) (Z.to_nat (Z.shiftr i 6)) bm.

Definition get_bit (bm : list Z) (i : Z) : Z :=
  match bm !! Z.to_nat (Z.shiftr i 6) with
  | None => 0
  | Some w => Z.land (Z.shiftr w (Z.land i 63)) 1
  end.

(** [while idx > 0 { w &= w - 1; idx -= 1 }] *)
Fixpoint clear_lowest (idx : nat) (w : Z) : Z :=
  match idx with
  | O => w
  | S idx' => clear_lowest idx' (Z.land w (wrapping_sub 64 w 1))
  end.

Definition select_within_word (w idx : Z) : Z :=
  let w := clear_lowest (Z.to_nat idx) w in
  if w =? 0 then 0 else trailing_zeros 64 w.

(** [ranks]; [i32::try_from] *)
Fixpoint ranks_loop (acc : Z) (bm : list Z) : outcome (list Z) :=
  match bm with
  | [] => Ok []
  | w :: bm' =>
    acc ← ok_or (checked_add 64 acc (count_ones w)) InvalidData;
    r ← try_from_u 31 acc InvalidData;
    rs ← ranks_loop acc bm';
    Ok (r :: rs)
  end.

(** [while count + pop > next_target]: the samples of one word and the next target.  A word
    has at most one sample: the second round always leaves the loop. *)
Fixpoint sample_loop (fuel : nat) (wi w count next_target : Z) : outcome (list Z * Z) :=
  match fuel with
  | O => Panic
  | S fuel' =>
    if count + count_ones w <=? next_target then Ok ([], next_target) else
    let bit := select_within_word w (next_target - count) in
    position ← ok_or (checked_add 64 (wi * 64) bit) InvalidData;
    p ← try_from_u 31 position InvalidData;
    next_target ← ok_or (checked_add 64 next_target 64) InvalidData;
    '(ps, next_target) ← sample_loop fuel' wi w count next_target;
    Ok (p :: ps, next_target)
  end.

Fixpoint selects_loop (wi : Z) (bm : list Z) (count next_target : Z) : outcome (list Z) :=
  match bm with
  | [] => Ok []
  | w :: bm' =>
    '(ps, next_target) ← sample_loop 2 wi w count next_target;
    count ← ok_or (checked_add 64 count (count_ones w)) InvalidData;
    rest ← selects_loop (wi + 1) bm' count next_target;
    Ok (ps ++ rest)
  end.

Definition index_select32_r64 (bm : list Z) : outcome (list Z * list Z) :=
  _ ← ok_or (checked_add 64 (len bm) 1) InvalidData;
  ranks ← ranks_loop 0 bm;
  selects ← selects_loop 0 bm 0 0;
  Ok (selects, 0 :: ranks).

Definition rank64 (bm ranks : list Z) (i : Z) : Z :=
  if i <=? 0 then 0 else
  let word := Z.shiftr i 6 in
  let bit := Z.land i 63 in
  let base := match ranks !! Z.to_nat word with Some r => r | None => default 0 (head (rev ranks)) end in
  if bit =? 0 then base else
  match bm !! Z.to_nat word with
  | None => base
  | Some w => saturating_add 31 base (count_ones (Z.land w (Z.shiftl 1 bit - 1)))
  end.

Definition bitmap_end (bm : list Z) : Z := if len bm * 64 <? 2 ^ 31 then len bm * 64 else 2 ^ 31 - 1.
Definition bit_position_or_end (bm : list Z) (word bit : Z) : Z :=
  if word * 64 + bit <? 2 ^ 31 then word * 64 + bit else bitmap_end bm.

(** The loop over the words from [wi] on *)
Fixpoint select_words (bm : list Z) (wi : Z) (words : list Z) (remaining : Z) : Z :=
  match words with
  | [] => bitmap_end bm
  | w :: words' =>
    let pop := count_ones w in
    if remaining <? pop then bit_position_or_end bm wi (select_within_word w remaining)
    else select_words bm (wi + 1) words' (remaining - pop)
  end.

Definition scan_select (bm : list Z) (i : Z) : Z := if i <? 0 then 0 else select_words bm 0 bm i.

Definition select32_r64 (bm selects ranks : list Z) (i : Z) : Z :=
  if (i <? 0) || (len selects =? 0) then 0 else
  let bucket := i / 64 in
  match selects !! Z.to_nat bucket with
  | None => scan_select bm i
  | Some start_bit =>
    if start_bit <? 0 then scan_select bm i else
    let start_word := Z.shiftr start_bit 6 in
    match bm !! Z.to_nat start_word, ranks !! Z.to_nat start_word with
    | Some w, Some r =>
      let mask := Z.shiftl 1 (Z.land start_bit 63) - 1 in
      let pre := saturating_add 31 r (count_ones (Z.land w mask)) in
      let remaining := i - pre in
      if remaining <? 0 then scan_select bm i
      else select_words bm start_word (drop (Z.to_nat start_word) bm) remaining
    | _, _ => scan_select bm i
    end
  end.

(** ** The specification: the positions of the set bits, ascending *)

Definition ones (bm : list Z) : list Z := List.filter (fun i => get_bit bm i =? 1) (Z.of_nat <$> seq 0 (64 * length bm)).
Definition rank_spec (bm : list Z) (i : Z) : Z := len (List.filter (fun p => p <? i) (ones bm)).

Lemma get_bit_testbit bm i w :
  0 <= i -> bm !! Z.to_nat (i / 64) = Some w -> get_bit bm i = Z.b2z (Z.testbit w (i mod 64)).
Proof.
  intros Hi Hw. unfold get_bit. rewrite Z.shiftr_div_pow2 by lia. change (2 ^ 6) with 64. rewrite Hw.
  change 63 with (Z.ones 6). rewrite Z.land_ones by lia. change (2 ^ 6) with 64.
  pose proof (Z.mod_pos_bound i 64).
  apply Z.bits_inj'. intros j Hj. rewrite Z.land_spec, Z.shiftr_spec by lia.
  destruct (Z.eq_dec j 0) as [->|]; [rewrite Z.add_0_l, andb_true_r; by destruct (Z.testbit w _)|].
  rewrite Z.bits_above_log2 with (a := 1) by (cbn; lia). rewrite andb_false_r.
  destruct (Z.testbit w _); [rewrite Z.bits_above_log2|rewrite Z.bits_0]; cbn; lia || done.
Qed.

Lemma filter_fmap_list {A B} (f : A -> B) (p : B -> bool) l : List.filter p (f <$> l) = f <$> List.filter (fun x => p (f x)) l.
Proof. induction l as [|x l IH]; [done|]. cbn. rewrite IH. by destruct (p (f x)). Qed.

Lemma filter_ext_list {A} (p q : A -> bool) l : (forall x, x ∈ l -> p x = q x) -> List.filter p l = List.filter q l.
Proof. intros Hpq. apply List.filter_ext_in. intros x Hx. by apply Hpq, list_elem_of_In. Qed.

Lemma filter_none_list {A} (p : A -> bool) l : (forall x, x ∈ l -> p x = false) -> List.filter p l = [].
Proof. intros Hp. rewrite (filter_ext_list p (fun _ => false) l Hp). apply List.filter_false. Qed.

Lemma filter_all_list {A} (p : A -> bool) l : (forall x, x ∈ l -> p x = true) -> List.filter p l = l.
Proof. intros Hp. rewrite (filter_ext_list p (fun _ => true) l Hp). apply List.filter_true. Qed.

Lemma filter_filter_list {A} (p q : A -> bool) l : List.filter p (List.filter q l) = List.filter (fun x => q x && p x) l.
Proof. induction l as [|x l IH]; [done|]. cbn. destruct (q x); cbn; by rewrite IH. Qed.

Lemma ones_cons w bm : ones (w :: bm) = word_bits w ++ ((fun p => 64 + p) <$> ones bm).
Proof.
  unfold ones. cbn [length]. replace (64 * S (length bm))%nat with (64 + 64 * length bm)%nat by lia.
  rewrite seq_app, fmap_app, filter_app. f_equal.
  - apply filter_ext_list. intros x (k & -> & Hk%elem_of_seq)%list_elem_of_fmap.
    rewrite (get_bit_testbit _ _ w) by (rewrite ?Z.div_small by lia; done || lia).
    rewrite Z.mod_small by lia. by destruct (Z.testbit w _).
  - assert (E : Z.of_nat <$> seq (0 + 64) (64 * length bm) = (fun p => 64 + p) <$> (Z.of_nat <$> seq 0 (64 * length bm))).
    { rewrite <- (Nat.add_comm 64 0), <- fmap_add_seq, <- !list_fmap_compose. apply list_fmap_ext. intros i k _. cbn. lia. }
    rewrite E, filter_fmap_list. f_equal. apply filter_ext_list. intros x (k & -> & _)%list_elem_of_fmap.
    unfold get_bit. rewrite !Z.shiftr_div_pow2 by lia. change (2 ^ 6) with 64.
    replace (64 + Z.of_nat k) with (Z.of_nat k + 1 * 64) by lia.
    rewrite Z.div_add, Z2Nat.inj_add by (try apply Z.div_pos; lia).
    change 63 with (Z.ones 6). rewrite !Z.land_ones by lia. change (2 ^ 6) with 64. rewrite Z.mod_add by lia.
    rewrite Nat.add_comm. done.
Qed.

Lemma ones_nil : ones [] = [].
Proof. done. Qed.

Lemma ones_app a b : ones (a ++ b) = ones a ++ ((fun p => 64 * len a + p) <$> ones b).
Proof.
  induction a as [|w a IH].
  - cbn [app]. rewrite ones_nil. change (len (@nil Z)) with 0. cbn [app]. symmetry. rewrite <- (list_fmap_id (ones b)) at 2.
    apply list_fmap_ext. intros i x _. cbn. lia.
  - cbn [app]. rewrite !ones_cons, IH, fmap_app, <- app_assoc. do 2 f_equal. rewrite <- list_fmap_compose.
    apply list_fmap_ext. intros i x _. cbn [compose]. rewrite len_cons. lia.
Qed.

Lemma word_bits_range w p : p ∈ word_bits w -> 0 <= p < 64.
Proof. unfold word_bits. rewrite list_elem_of_In, filter_In, <- list_elem_of_In. intros [(k & -> & Hk%elem_of_seq)%list_elem_of_fmap _]. lia. Qed.

Lemma count_ones_range w : 0 <= count_ones w <= 64.
Proof. unfold count_ones, word_bits. pose proof (filter_length_le (Z.testbit w) (Z.of_nat <$> seq 0 64)) as Hl. rewrite length_fmap, length_seq in Hl. lia. Qed.

Lemma ones_range bm p : p ∈ ones bm -> 0 <= p < 64 * len bm.
Proof.
  unfold ones. rewrite list_elem_of_In, filter_In, <- list_elem_of_In.
  intros [(k & -> & Hk%elem_of_seq)%list_elem_of_fmap _]. unfold len. lia.
Qed.

(** The word at index [k] splits the positions in three. *)
Lemma ones_at bm k w :
  bm !! k = Some w ->
  ones bm = ones (take k bm) ++ ((fun p => 64 * Z.of_nat k + p) <$> word_bits w)
            ++ ((fun p => 64 * Z.of_nat (S k) + p) <$> ones (drop (S k) bm)).
Proof.
  intros Hk. pose proof (lookup_lt_Some _ _ _ Hk). rewrite <- (take_drop_middle bm k w Hk) at 1.
  rewrite ones_app, ones_cons. f_equal. unfold len. rewrite length_take, Nat.min_l, fmap_app by lia. f_equal.
  rewrite <- list_fmap_compose. apply list_fmap_ext. intros i x _. cbn [compose]. lia.
Qed.

(** ** Select within a word *)

Lemma clear_lowest_bits w i :
  0 < w < 2 ^ 64 -> 0 <= i ->
  Z.testbit (Z.land w (wrapping_sub 64 w 1)) i = Z.testbit w i && negb (i =? trailing_zeros 64 w)
  /\ Z.testbit w (trailing_zeros 64 w) = true /\ (i < trailing_zeros 64 w -> Z.testbit w i = false).
Proof.
  intros Hw Hi. unfold wrapping_sub. rewrite Z.mod_small by lia. destruct w as [|p|p]; [lia| |lia]. cbn [trailing_zeros].
  destruct (pos_trailing_zeros_spec p) as (Ht & q & Hq & Hq0). set (t := pos_trailing_zeros p) in *.
  assert (Hlow : forall j, 0 <= j < t -> Z.testbit (Zpos p) j = false)
    by (intros j Hj; rewrite Hq; apply Z.mul_pow2_bits_low; lia).
  assert (Hhigh : forall j, t <= j -> Z.testbit (Zpos p) j = Z.testbit (2 * q + 1) (j - t))
    by (intros j Hj; rewrite Hq; apply Z.mul_pow2_bits; lia).
  assert (Hpred : forall j, t <= j -> Z.testbit (Zpos p - 1) j = Z.testbit (2 * q) (j - t)).
  { intros j Hj. assert (0 < 2 ^ t) by (apply Z.pow_pos_nonneg; lia).
    replace (2 * q) with ((Zpos p - 1) / 2 ^ t).
    2:{ rewrite Hq. replace ((2 * q + 1) * 2 ^ t - 1) with ((2 ^ t - 1) + 2 * q * 2 ^ t) by lia.
        rewrite Z.div_add, Z.div_small by lia. lia. }
    rewrite Z.div_pow2_bits by lia. f_equal. lia. }
  split_and!.
  - rewrite Z.land_spec. destruct (Z.ltb_spec i t) as [Hlt|Hge]; [by rewrite (Hlow i ltac:(lia))|].
    rewrite (Hhigh i), (Hpred i) by lia. destruct (Z.eqb_spec i t) as [->|Hne].
    + rewrite Z.sub_diag, Z.testbit_odd_0, Z.testbit_even_0. done.
    + replace (i - t) with (Z.succ (i - t - 1)) by lia. rewrite Z.testbit_odd_succ, Z.testbit_even_succ by lia.
      by rewrite andb_diag, andb_true_r.
  - rewrite (Hhigh t), Z.sub_diag, Z.testbit_odd_0 by lia. done.
  - intros Hlt. apply Hlow. lia.
Qed.

Lemma word_bits_lowest w :
  0 < w < 2 ^ 64 ->
  word_bits w = trailing_zeros 64 w :: word_bits (Z.land w (wrapping_sub 64 w 1)).
Proof.
  intros Hw. pose proof (clear_lowest_bits w) as Hc. set (t := trailing_zeros 64 w) in *. set (w' := Z.land w _) in *.
  assert (Ht : 0 <= t < 64).
  { destruct (Hc 0 Hw ltac:(lia)) as (_ & Hbit & _). destruct (Z.ltb_spec t 0) as [Hneg|]; [by rewrite Z.testbit_neg_r in Hbit|].
    split; [lia|]. destruct (Z.ltb_spec t 64); [lia|]. rewrite Z.bits_above_log2 in Hbit; [done|lia|].
    apply Z.log2_lt_pow2; [lia|]. apply Z.lt_le_trans with (2 ^ 64); [lia|]. apply Z.pow_le_mono_r; lia. }
  unfold word_bits. replace (seq 0 64) with (seq 0 (Z.to_nat t) ++ Z.to_nat t :: seq (S (Z.to_nat t)) (63 - Z.to_nat t)).
  2:{ replace 64%nat with (Z.to_nat t + S (63 - Z.to_nat t))%nat by lia. rewrite seq_app. cbn [seq]. reflexivity. }
  rewrite !fmap_app, !filter_app. cbn [fmap list_fmap List.filter]. rewrite Z2Nat.id by lia.
  destruct (Hc t Hw ltac:(lia)) as (Hw't & -> & _). rewrite Hw't, Z.eqb_refl, andb_false_r.
  replace (List.filter (Z.testbit w) (Z.of_nat <$> seq 0 (Z.to_nat t))) with (@nil Z).
  2:{ symmetry. apply filter_none_list. intros x (k & -> & Hk%elem_of_seq)%list_elem_of_fmap.
      apply (Hc (Z.of_nat k) Hw); lia. }
  replace (List.filter (Z.testbit w') (Z.of_nat <$> seq 0 (Z.to_nat t))) with (@nil Z).
  2:{ symmetry. apply filter_none_list. intros x (k & -> & Hk%elem_of_seq)%list_elem_of_fmap.
      destruct (Hc (Z.of_nat k) Hw ltac:(lia)) as (-> & _ & ->); [done|lia]. }
  cbn [app]. f_equal. apply filter_ext_list. intros x (k & -> & Hk%elem_of_seq)%list_elem_of_fmap.
  destruct (Hc (Z.of_nat k) Hw ltac:(lia)) as (-> & _ & _). rewrite (proj2 (Z.eqb_neq _ _)) by lia. by rewrite andb_true_r.
Qed.

Lemma word_bits_0 : word_bits 0 = [].
Proof. reflexivity. Qed.

Lemma word_bits_mask w b : 0 <= b -> word_bits (Z.land w (Z.shiftl 1 b - 1)) = List.filter (fun p => p <? b) (word_bits w).
Proof.
  intros Hb. unfold word_bits.
  rewrite filter_filter_list. apply filter_ext_list. intros x (k & -> & _)%list_elem_of_fmap.
  replace (Z.shiftl 1 b - 1) with (Z.ones b) by (rewrite Z.ones_equiv, pow2_shiftl; lia). rewrite Z.land_spec. f_equal.
  destruct (Z.ltb_spec (Z.of_nat k) b); [apply Z.ones_spec_low|apply Z.ones_spec_high]; lia.
Qed.

#[local] Opaque word_bits.

Lemma clear_one w : 0 <= w < 2 ^ 64 -> 0 <= Z.land w (wrapping_sub 64 w 1) < 2 ^ 64.
Proof.
  intros Hw. split; [apply Z.land_nonneg; lia|].
  destruct (Z.eq_dec w 0) as [->|Hz]; [rewrite Z.land_0_l; lia|].
  unfold wrapping_sub. rewrite Z.mod_small by lia. pose proof (Z.land_nonneg w (w - 1)). pose proof (Z.log2_land w (w - 1)) as Hl.
  destruct (Z.eq_dec (Z.land w (w - 1)) 0) as [->|]; [lia|].
  apply Z.log2_lt_pow2; [lia|]. pose proof (Z.log2_lt_pow2 w 64). pose proof (Z.log2_nonneg (w - 1)). lia.
Qed.

Lemma word_bits_clear_one w : 0 <= w < 2 ^ 64 -> word_bits (Z.land w (wrapping_sub 64 w 1)) = drop 1 (word_bits w).
Proof.
  intros Hw. destruct (Z.eq_dec w 0) as [->|Hz]; [rewrite Z.land_0_l, word_bits_0; reflexivity|].
  rewrite (word_bits_lowest w) by lia. symmetry. apply skipn_cons.
Qed.

Lemma clear_lowest_word_bits idx w :
  0 <= w < 2 ^ 64 -> 0 <= clear_lowest idx w < 2 ^ 64 /\ word_bits (clear_lowest idx w) = drop idx (word_bits w).
Proof.
  revert w. induction idx as [|idx IH]; intros w Hw.
  - split; [exact Hw|]. symmetry. apply drop_0.
  - destruct (IH _ (clear_one w Hw)) as [H1 H2]. split; [exact H1|].
    rewrite (word_bits_clear_one w Hw), drop_drop in H2. exact H2.
Qed.

Lemma select_within_word_spec w idx p :
  0 <= w < 2 ^ 64 -> word_bits w !! Z.to_nat idx = Some p -> select_within_word w idx = p.
Proof.
  intros Hw Hp. unfold select_within_word. destruct (clear_lowest_word_bits (Z.to_nat idx) w Hw) as [Hc Hb].
  set (c := clear_lowest _ _) in *. destruct (Z.eqb_spec c 0) as [E|Hz].
  - rewrite E in Hb. rewrite word_bits_0 in Hb. apply (f_equal length) in Hb. rewrite length_drop in Hb.
    apply lookup_lt_Some in Hp. cbn in Hb. lia.
  - rewrite (word_bits_lowest c) in Hb by lia. rewrite (drop_S _ _ _ Hp) in Hb. by injection Hb as ->.
Qed.

(** ** The rank index *)

Lemma count_ones_len w : count_ones w = len (word_bits w).
Proof. reflexivity. Qed.

Lemma len_ones_cons w bm : len (ones (w :: bm)) = count_ones w + len (ones bm).
Proof. by rewrite ones_cons, len_app, count_ones_len, len_fmap. Qed.

Lemma len_ones_app a b : len (ones (a ++ b)) = len (ones a) + len (ones b).
Proof. by rewrite ones_app, len_app, len_fmap. Qed.

Lemma len_ones_bound bm : len (ones bm) <= 64 * len bm.
Proof.
  induction bm as [|w bm IH]; [rewrite ones_nil; unfold len; cbn [length]; lia|]. rewrite len_ones_cons, len_cons. pose proof (count_ones_range w). lia.
Qed.

Lemma ranks_loop_spec acc bm :
  0 <= acc -> acc + len (ones bm) < 2 ^ 31 ->
  exists rs, ranks_loop acc bm = Ok rs /\ length rs = length bm
    /\ forall k, (k < length bm)%nat -> rs !! k = Some (acc + len (ones (take (S k) bm))).
Proof.
  revert acc. induction bm as [|w bm IH]; intros acc Ha Hl.
  - exists []. split_and!; [done|done|]. cbn. lia.
  - rewrite len_ones_cons in Hl. pose proof (count_ones_range w). pose proof (len_nonneg (ones bm)).
    destruct (IH (acc + count_ones w)) as (rs & E & Hlen & Hk); [lia..|].
    exists ((acc + count_ones w) :: rs). cbn [ranks_loop]. unfold checked_add, try_from_u.
    rewrite (proj2 (Z.ltb_lt (acc + count_ones w) (2 ^ 64))) by lia. cbn [ok_or mbind outcome_bind].
    rewrite (proj2 (Z.ltb_lt (acc + count_ones w) (2 ^ 31))) by lia. cbn [mbind outcome_bind]. rewrite E.
    split_and!; [done|cbn; by rewrite Hlen|]. intros [|k] Hlt; cbn [length] in Hlt.
    + cbn [lookup list_lookup take]. rewrite take_0, len_ones_cons, ones_nil. change (len (@nil Z)) with 0. f_equal. lia.
    + cbn [lookup list_lookup]. rewrite Hk by lia. rewrite firstn_cons, len_ones_cons. f_equal. lia.
Qed.

(** [ranks[k]] counts the set bits of the first [k] words. *)
Definition ranks_ok (bm ranks : list Z) : Prop :=
  length ranks = S (length bm) /\ forall k, (k <= length bm)%nat -> ranks !! k = Some (len (ones (take k bm))).

Lemma ranks_ok_index bm : 64 * len bm < 2 ^ 31 -> exists rs, ranks_loop 0 bm = Ok rs /\ ranks_ok bm (0 :: rs).
Proof.
  intros Hl. pose proof (len_ones_bound bm). destruct (ranks_loop_spec 0 bm) as (rs & E & Hlen & Hk); [lia..|].
  exists rs. split; [done|]. split; [cbn; by rewrite Hlen|]. intros [|k] Hlt; [done|]. cbn [lookup list_lookup]. rewrite Hk by lia. done.
Qed.

(** ** Rank *)

Lemma rank_at bm k w i :
  bm !! k = Some w -> 64 * Z.of_nat k <= i <= 64 * Z.of_nat k + 64 ->
  rank_spec bm i = len (ones (take k bm)) + len (List.filter (fun p => p <? i - 64 * Z.of_nat k) (word_bits w)).
Proof.
  intros Hk Hi. pose proof (lookup_lt_Some _ _ _ Hk). unfold rank_spec. rewrite (ones_at bm k w Hk), !filter_app, !len_app.
  rewrite filter_all_list, !filter_fmap_list, (filter_none_list _ (ones (drop _ _))).
  - rewrite !len_fmap, (filter_ext_list _ (fun p => p <? i - 64 * Z.of_nat k)) by (intros; lia). change (len (@nil Z)) with 0. lia.
  - intros p Hp%ones_range. apply Z.ltb_ge. lia.
  - intros p Hp%ones_range. unfold len in Hp. rewrite length_take in Hp. apply Z.ltb_lt. lia.
Qed.

Lemma rank_past bm i : 64 * len bm <= i -> rank_spec bm i = len (ones bm).
Proof. intros Hi. unfold rank_spec. rewrite filter_all_list; [done|]. intros p Hp%ones_range. lia. Qed.

Lemma rank64_spec bm ranks i : 64 * len bm < 2 ^ 31 -> ranks_ok bm ranks -> rank64 bm ranks i = rank_spec bm i.
Proof.
  intros Hl [Hlen Hr]. unfold rank64. destruct (Z.leb_spec i 0) as [H0|H0].
  { unfold rank_spec. rewrite filter_none_list; [done|]. intros p Hp%ones_range. lia. }
  rewrite Z.shiftr_div_pow2 by lia. change 63 with (Z.ones 6). rewrite Z.land_ones by lia. change (2 ^ 6) with 64.
  pose proof (Z.mod_pos_bound i 64). pose proof (Z.div_mod i 64). assert (0 <= i / 64) by (apply Z.div_pos; lia).
  destruct (bm !! Z.to_nat (i / 64)) as [w|] eqn:Hw.
  - pose proof (lookup_lt_Some _ _ _ Hw). rewrite Hr by lia. rewrite (rank_at bm _ w i Hw) by lia.
    replace (i - 64 * Z.of_nat (Z.to_nat (i / 64))) with (i mod 64) by lia.
    destruct (Z.eqb_spec (i mod 64) 0) as [E|].
    + rewrite E, (filter_none_list _ (word_bits w)); [change (len (@nil Z)) with 0; lia|]. intros p Hp%word_bits_range. apply Z.ltb_ge. lia.
    + rewrite count_ones_len, word_bits_mask by lia. apply Z.min_l.
      pose proof (len_ones_bound (take (Z.to_nat (i / 64)) bm)) as Hb.
      assert (len (List.filter (fun p => p <? i mod 64) (word_bits w)) <= count_ones w)
        by (rewrite count_ones_len; unfold len; apply Nat2Z.inj_le, filter_length_le).
      pose proof (count_ones_range w). unfold len in *. rewrite length_take in Hb. lia.
  - apply lookup_ge_None in Hw. rewrite rank_past by (unfold len; lia).
    assert (Hbase : match ranks !! Z.to_nat (i / 64) with Some r => r | None => default 0 (head (rev ranks)) end = len (ones bm)).
    { destruct (ranks !! Z.to_nat (i / 64)) as [r|] eqn:Er.
      - pose proof (lookup_lt_Some _ _ _ Er). rewrite Hr in Er by lia. injection Er as <-. by rewrite take_ge by lia.
      - destruct ranks as [|r0 rs] using rev_ind; [done|]. rewrite rev_unit. cbn. rewrite length_app in Hlen. cbn in Hlen.
        specialize (Hr (length bm) ltac:(lia)). rewrite list_lookup_middle in Hr by lia. injection Hr as ->. by rewrite take_ge by lia. }
    rewrite Hbase. by destruct (_ =? 0).
Qed.

(** ** The select index: [selects[m]] is the position of set bit [64 m] *)

Definition words_ok (bm : list Z) : Prop := Forall u64 bm.

Lemma word_bits_lookup w k : 0 <= k < count_ones w -> exists p, word_bits w !! Z.to_nat k = Some p /\ 0 <= p < 64.
Proof.
  rewrite count_ones_len. intros Hk. destruct (lookup_lt_is_Some_2 (word_bits w) (Z.to_nat k)) as [p Hp]; [unfold len in Hk; lia|].
  exists p. split; [done|]. by apply (word_bits_range w), list_elem_of_lookup_2 with (Z.to_nat k).
Qed.

(** One word: a sample when the next target falls into it *)
Lemma sample_loop_spec wi w count k :
  u64 w -> 0 <= wi -> 64 * wi + 64 <= 2 ^ 31 -> 0 <= count < 2 ^ 32 -> 0 <= k < 64 ->
  sample_loop 2 wi w count (count + k)
  = match word_bits w !! Z.to_nat k with
    | Some p => Ok ([64 * wi + p], count + k + 64)
    | None => Ok ([], count + k)
    end.
Proof.
  intros Hw Hwi Hle Hc Hk. pose proof (count_ones_range w). cbn [sample_loop].
  replace (count + k - count) with k by lia. destruct (word_bits w !! Z.to_nat k) as [p|] eqn:E.
  - pose proof (lookup_lt_Some _ _ _ E) as Hlt. assert (Hp : 0 <= p < 64) by (apply (word_bits_range w), list_elem_of_lookup_2 with (Z.to_nat k); done).
    rewrite (proj2 (Z.leb_gt _ _)) by (rewrite count_ones_len; unfold len; lia).
    rewrite (select_within_word_spec w k p Hw E). unfold checked_add, try_from_u.
    rewrite (proj2 (Z.ltb_lt (wi * 64 + p) (2 ^ 64))) by lia. cbn [ok_or mbind outcome_bind].
    rewrite (proj2 (Z.ltb_lt (wi * 64 + p) (2 ^ 31))) by lia. cbn [ok_or mbind outcome_bind].
    rewrite (proj2 (Z.ltb_lt (count + k + 64) (2 ^ 64))) by lia. cbn [ok_or mbind outcome_bind].
    rewrite (proj2 (Z.leb_le _ _)) by lia. cbn. by rewrite Z.mul_comm.
  - apply lookup_ge_None in E. rewrite (proj2 (Z.leb_le _ _)) by (rewrite count_ones_len; unfold len; lia). done.
Qed.

Lemma selects_loop_spec wi bm count k :
  words_ok bm -> 0 <= wi -> 64 * (wi + len bm) < 2 ^ 31 -> 0 <= count -> count + 64 * len bm < 2 ^ 32 -> 0 <= k < 64 ->
  exists ss, selects_loop wi bm count (count + k) = Ok ss
    /\ forall m, ss !! m = (fun p => 64 * wi + p) <$> ones bm !! (Z.to_nat k + 64 * m)%nat.
Proof.
  intros Hbm. revert wi count k. induction Hbm as [|w bm Hw Hbm IH]; intros wi count k Hwi Hle Hc Hcl Hk.
  - exists []. split; [done|]. intros m. rewrite ones_nil, !lookup_nil. done.
  - rewrite len_cons in *. pose proof (len_nonneg bm). pose proof (count_ones_range w) as Hpop.
    cbn [selects_loop]. rewrite sample_loop_spec by (done || lia).
    set (k' := if k <? count_ones w then k + 64 - count_ones w else k - count_ones w).
    destruct (IH (wi + 1) (count + count_ones w) k') as (ss & E & Hss); [lia..|unfold k'; destruct (Z.ltb_spec k (count_ones w)); lia|].
    assert (Hadd : checked_add 64 count (count_ones w) = Some (count + count_ones w))
      by (unfold checked_add; by rewrite (proj2 (Z.ltb_lt _ _)) by lia).
    assert (Hlen : length (word_bits w) = Z.to_nat (count_ones w)) by (unfold count_ones; lia).
    assert (Hrest : forall m, ((fun p => 64 * wi + p) <$> ((fun p => 64 + p) <$> ones bm) !! m)
      = (fun p => 64 * (wi + 1) + p) <$> ones bm !! m).
    { intros m. rewrite list_lookup_fmap. destruct (ones bm !! m); cbn; [|done]. f_equal. lia. }
    destruct (word_bits w !! Z.to_nat k) as [p|] eqn:Ep; cbn [mbind outcome_bind]; rewrite Hadd; cbn [ok_or mbind outcome_bind].
    + apply lookup_lt_Some in Ep as Hlt. unfold k' in *. rewrite (proj2 (Z.ltb_lt _ _)) in * by lia.
      replace (count + k + 64) with (count + count_ones w + (k + 64 - count_ones w)) by lia. rewrite E. cbn [mbind outcome_bind app].
      eexists. split; [done|]. intros [|m]; rewrite ones_cons.
      * rewrite Nat.mul_0_r, Nat.add_0_r, lookup_app_l by lia. by rewrite Ep.
      * cbn [lookup list_lookup]. rewrite lookup_app_r, Hrest, Hss by lia. do 2 f_equal. lia.
    + apply lookup_ge_None in Ep. unfold k' in *. rewrite (proj2 (Z.ltb_ge _ _)) in * by lia.
      replace (count + k) with (count + count_ones w + (k - count_ones w)) by lia. rewrite E. cbn [mbind outcome_bind app].
      eexists. split; [done|]. intros m. rewrite ones_cons, lookup_app_r, Hrest, Hss by lia. do 2 f_equal. lia.
Qed.

(** ** Select *)

Lemma sorted_filter (p : Z -> bool) l : StronglySorted Z.lt l -> StronglySorted Z.lt (List.filter p l).
Proof.
  induction 1 as [|x l Hs IH Hx]; [constructor|]. cbn. destruct (p x); [|done]. constructor; [done|].
  rewrite Forall_forall in *. intros y [Hy _]%List.filter_In. by apply Hx.
Qed.

Lemma sorted_seq a n : StronglySorted Z.lt (Z.of_nat <$> seq a n).
Proof.
  revert a. induction n as [|n IH]; intros a; [constructor|]. cbn. constructor; [apply IH|].
  apply list.Forall_forall. intros x (k & -> & Hk%elem_of_seq)%list_elem_of_fmap. lia.
Qed.

(** The position of set bit [n] has [n] set bits before it. *)
Lemma rank_of_one bm n p : ones bm !! n = Some p -> rank_spec bm p = Z.of_nat n.
Proof.
  unfold rank_spec. assert (Hs : StronglySorted Z.lt (ones bm)) by apply sorted_filter, sorted_seq.
  revert n. induction Hs as [|x l Hs IH Hx]; intros n Hn; [done|]. rewrite list.Forall_forall in Hx. destruct n as [|n].
  - injection Hn as ->. rewrite filter_none_list; [done|]. intros y [->|Hy]%elem_of_cons; [|apply Hx in Hy]; lia.
  - cbn in Hn. cbn [List.filter]. rewrite (proj2 (Z.ltb_lt x p)) by (apply Hx, list_elem_of_lookup_2 with n; done).
    rewrite len_cons, (IH n Hn). lia.
Qed.

Lemma select_words_spec bm wi words r p :
  words_ok words -> 0 <= wi -> 64 * (wi + len words) < 2 ^ 31 -> 0 <= r -> ones words !! Z.to_nat r = Some p ->
  select_words bm wi words r = 64 * wi + p.
Proof.
  intros Hw. revert wi r p. induction Hw as [|w words Hw Hws IH]; intros wi r p Hwi Hle Hr Hp; [by rewrite ones_nil in Hp|].
  rewrite len_cons in Hle. pose proof (len_nonneg words). cbn [select_words].
  assert (Hlen : length (word_bits w) = Z.to_nat (count_ones w)) by (unfold count_ones; lia). pose proof (count_ones_range w).
  rewrite ones_cons in Hp. destruct (Z.ltb_spec r (count_ones w)) as [Hlt|Hge].
  - rewrite lookup_app_l in Hp by lia. rewrite (select_within_word_spec w r p Hw Hp). unfold bit_position_or_end.
    assert (0 <= p < 64) by (apply (word_bits_range w), list_elem_of_lookup_2 with (Z.to_nat r); done).
    rewrite (proj2 (Z.ltb_lt _ _)) by lia. lia.
  - rewrite lookup_app_r, list_lookup_fmap in Hp by lia. apply fmap_Some in Hp as (q & Hq & ->).
    rewrite (IH (wi + 1) (r - count_ones w) q); [lia..|]. rewrite <- Hq. f_equal. lia.
Qed.

(** How many set bits precede sample [b] within its word *)
Definition skew (bm : list Z) (b : Z) : Z :=
  match ones bm !! Z.to_nat (64 * b) with
  | Some s => 64 * b - rank_spec bm (64 * (s / 64))
  | None => 0
  end.

(** The word of set bit [n], and the set bits before it: in the earlier words and in its own *)
Lemma one_in_word bm n s :
  ones bm !! n = Some s ->
  0 <= s < 64 * len bm /\ 0 <= s / 64 /\ 0 <= s mod 64 < 64
  /\ exists w, bm !! Z.to_nat (s / 64) = Some w
    /\ rank_spec bm (64 * (s / 64)) = len (ones (take (Z.to_nat (s / 64)) bm))
    /\ len (ones (take (Z.to_nat (s / 64)) bm)) + len (List.filter (fun p => p <? s mod 64) (word_bits w)) = Z.of_nat n.
Proof.
  intros Hs. pose proof (rank_of_one bm n s Hs) as Hrank.
  assert (Hs0 : 0 <= s < 64 * len bm) by (apply ones_range, list_elem_of_lookup_2 with n; done).
  pose proof (Z.div_mod s 64). pose proof (Z.mod_pos_bound s 64). assert (0 <= s / 64) by (apply Z.div_pos; lia).
  split_and!; [lia..|]. set (sw := Z.to_nat (s / 64)).
  destruct (lookup_lt_is_Some_2 bm sw) as [w Hw]; [unfold len in Hs0; lia|]. exists w. split; [done|].
  rewrite (rank_at bm sw w s Hw) in Hrank by lia. rewrite (rank_at bm sw w (64 * (s / 64)) Hw) by lia.
  replace (64 * (s / 64) - 64 * Z.of_nat sw) with 0 by lia. replace (s - 64 * Z.of_nat sw) with (s mod 64) in Hrank by lia.
  rewrite (filter_none_list (fun p => p <? 0)) by (intros p Hp%word_bits_range; apply Z.ltb_ge; lia).
  change (len (@nil Z)) with 0. lia.
Qed.

Lemma select32_r64_spec bm selects ranks i :
  words_ok bm -> 64 * len bm < 2 ^ 31 -> ranks_ok bm ranks ->
  (forall m, selects !! m = ones bm !! (64 * m)%nat) -> 0 <= i < len (ones bm) ->
  0 <= skew bm (i / 64) <= i /\ Some (select32_r64 bm selects ranks i) = ones bm !! Z.to_nat (i - skew bm (i / 64)).
Proof.
  intros Hok Hl [Hrl Hr] Hsel Hi. pose proof (Z.div_mod i 64). pose proof (Z.mod_pos_bound i 64).
  assert (Hb : 0 <= i / 64) by (apply Z.div_pos; lia).
  destruct (lookup_lt_is_Some_2 (ones bm) (Z.to_nat (64 * (i / 64)))) as [s Hs]; [unfold len in Hi; lia|].
  destruct (one_in_word bm _ s Hs) as (Hs0 & Hd & Hm & w & Hw & Hr0 & Hpre). set (sw := Z.to_nat (s / 64)) in *.
  rewrite Z2Nat.id in Hpre by lia. pose proof (len_nonneg (ones (take sw bm))).
  pose proof (len_nonneg (List.filter (fun p => p <? s mod 64) (word_bits w))). pose proof (lookup_lt_Some _ _ _ Hw).
  unfold skew. rewrite Hs, Hr0. split; [lia|]. unfold select32_r64.
  assert (Hse : selects !! Z.to_nat (i / 64) = Some s) by (rewrite Hsel, <- Hs; f_equal; lia).
  rewrite (proj2 (Z.ltb_ge i 0)) by lia.
  replace (len selects =? 0) with false by (destruct selects; [done|rewrite len_cons; pose proof (len_nonneg selects); lia]).
  cbn [orb]. rewrite Hse, (proj2 (Z.ltb_ge s 0)), Z.shiftr_div_pow2 by lia. change (2 ^ 6) with 64. fold sw.
  rewrite Hw, (Hr sw) by lia. change 63 with (Z.ones 6). rewrite Z.land_ones by lia. change (2 ^ 6) with 64.
  rewrite count_ones_len, word_bits_mask by lia. unfold saturating_add at 1 2. rewrite Hpre. pose proof (len_ones_bound bm).
  rewrite Z.min_l, (proj2 (Z.ltb_ge (i - _) 0)) by lia.
  pose proof (len_ones_app (take sw bm) (drop sw bm)) as Hsum. rewrite take_drop in Hsum.
  assert (Hin : i - 64 * (i / 64) < len (ones (drop sw bm))) by lia.
  destruct (lookup_lt_is_Some_2 (ones (drop sw bm)) (Z.to_nat (i - 64 * (i / 64)))) as [p Hp]; [unfold len in Hin; lia|].
  rewrite (select_words_spec bm (s / 64) (drop sw bm) _ p); [|by apply Forall_drop|lia|unfold len in *; rewrite length_drop; lia|lia|done].
  rewrite <- (take_drop sw bm) at 2. rewrite ones_app, lookup_app_r, list_lookup_fmap by (unfold len in *; lia).
  replace (Z.to_nat _ - _)%nat with (Z.to_nat (i - 64 * (i / 64))) by (unfold len in *; lia).
  rewrite Hp. cbn. f_equal. unfold len. rewrite length_take. lia.
Qed.

(** ** Rank step by step *)

Lemma rank_seq bm i :
  0 <= i <= 64 * len bm -> rank_spec bm i = len (List.filter (fun p => get_bit bm p =? 1) (Z.of_nat <$> seq 0 (Z.to_nat i))).
Proof.
  intros Hi. unfold rank_spec, ones. rewrite filter_filter_list.
  replace (64 * length bm)%nat with (Z.to_nat i + (64 * length bm - Z.to_nat i))%nat by (unfold len in Hi; lia).
  rewrite seq_app, fmap_app, filter_app, len_app, (filter_none_list _ (_ <$> seq (0 + _) _)).
  - change (len (@nil Z)) with 0. rewrite Z.add_0_r. f_equal. apply filter_ext_list.
    intros x (k & -> & Hk%elem_of_seq)%list_elem_of_fmap. rewrite (proj2 (Z.ltb_lt _ _)) by lia. by rewrite andb_true_r.
  - intros x (k & -> & Hk%elem_of_seq)%list_elem_of_fmap. rewrite (proj2 (Z.ltb_ge _ _)) by lia. by rewrite andb_false_r.
Qed.

Lemma get_bit_01 bm i : get_bit bm i = 0 \/ get_bit bm i = 1.
Proof.
  unfold get_bit. destruct (bm !! _) as [w|]; [|by left]. set (x := Z.shiftr w _).
  assert (Z.land x 1 = x mod 2) as -> by (change 1 with (Z.ones 1) at 1; by rewrite Z.land_ones).
  pose proof (Z.mod_pos_bound x 2). lia.
Qed.

Lemma rank_succ bm i : 0 <= i < 64 * len bm -> rank_spec bm (i + 1) = rank_spec bm i + get_bit bm i.
Proof.
  intros Hi. rewrite !rank_seq by lia. replace (Z.to_nat (i + 1)) with (Z.to_nat i + 1)%nat by lia.
  rewrite seq_app, fmap_app, filter_app, len_app. f_equal. cbn [seq fmap list_fmap List.filter].
  rewrite Nat.add_0_l, Z2Nat.id by lia. destruct (get_bit_01 bm i) as [->| ->]; done.
Qed.

Lemma rank_mono bm i j : i <= j -> rank_spec bm i <= rank_spec bm j.
Proof.
  intros Hij. unfold rank_spec, len. apply Nat2Z.inj_le. induction (ones bm) as [|p l IH]; [done|]. cbn.
  destruct (Z.ltb_spec p i), (Z.ltb_spec p j); cbn; lia.
Qed.

Lemma rank_step bm i j : 0 <= i <= j -> j <= 64 * len bm -> rank_spec bm j - rank_spec bm i <= j - i.
Proof.
  intros Hi Hj. replace j with (i + Z.of_nat (Z.to_nat (j - i))) in * by lia. revert Hj. generalize (Z.to_nat (j - i)).
  induction n as [|n IH]; intros Hj; [rewrite Z.add_0_r; lia|].
  replace (i + Z.of_nat (S n)) with (i + Z.of_nat n + 1) in * by lia. rewrite rank_succ by lia.
  destruct (get_bit_01 bm (i + Z.of_nat n)); lia.
Qed.

Lemma rank_nonneg bm i : 0 <= rank_spec bm i.
Proof. apply len_nonneg. Qed.

Lemma rank_0 bm : rank_spec bm 0 = 0.
Proof. unfold rank_spec. rewrite filter_none_list; [done|]. intros p Hp%ones_range. apply Z.ltb_ge. lia. Qed.

(** A set position is below [i] exactly when its number is below the rank of [i]. *)
Lemma one_below_rank bm n p i : ones bm !! n = Some p -> p < i <-> Z.of_nat n < rank_spec bm i.
Proof.
  intros Hp. pose proof (rank_of_one bm n p Hp) as Hr. pose proof (list_elem_of_lookup_2 _ _ _ Hp) as Hin.
  pose proof (ones_range bm p Hin) as Hpr. split; intros Hlt.
  - pose proof (rank_mono bm (p + 1) i ltac:(lia)). rewrite (rank_succ bm p Hpr) in *.
    assert (get_bit bm p = 1); [|lia]. unfold ones in Hin. apply list_elem_of_In, List.filter_In in Hin as [_ E]. lia.
  - destruct (Z.ltb_spec p i); [done|]. pose proof (rank_mono bm i p ltac:(lia)). lia.
Qed.

Lemma one_bit bm n p : ones bm !! n = Some p -> get_bit bm p = 1.
Proof. intros Hp%list_elem_of_lookup_2. unfold ones in Hp. apply list_elem_of_In, List.filter_In in Hp as [_ E]. lia. Qed.

Lemma one_exists bm n i : 0 <= n < rank_spec bm i -> exists p, ones bm !! Z.to_nat n = Some p /\ 0 <= p < i.
Proof.
  intros Hn. destruct (ones bm !! Z.to_nat n) as [p|] eqn:E.
  - exists p. split; [done|]. pose proof (ones_range bm p (list_elem_of_lookup_2 _ _ _ E)).
    apply (one_below_rank bm _ _ i) in E. split; [lia|]. apply E. lia.
  - exfalso. apply lookup_ge_None in E. unfold rank_spec, len in Hn.
    pose proof (filter_length_le (fun p => p <? i) (ones bm)). lia.
Qed.

Lemma skew_0 bm : skew bm 0 = 0.
Proof.
  unfold skew. change (Z.to_nat (64 * 0)) with 0%nat. destruct (ones bm !! 0%nat) as [s|] eqn:Hs; [|done].
  destruct (one_in_word bm 0 s Hs) as (_ & _ & _ & w & _ & -> & Hsum).
  pose proof (len_nonneg (ones (take (Z.to_nat (s / 64)) bm))).
  pose proof (len_nonneg (List.filter (fun p => p <? s mod 64) (word_bits w))). lia.
Qed.

(** What the index of a bitmap promises the trie that is built on it *)
Record rank_select (bm selects ranks : list Z) : Prop := {
  rs_rank : forall i, rank64 bm ranks i = rank_spec bm i;
  rs_first : forall i, 0 <= i < Z.min 64 (len (ones bm)) -> Some (select32_r64 bm selects ranks i) = ones bm !! Z.to_nat i;
  rs_skewed : forall i, 0 <= i < len (ones bm) ->
    0 <= skew bm (i / 64) <= i /\ Some (select32_r64 bm selects ranks i) = ones bm !! Z.to_nat (i - skew bm (i / 64))
}.

Lemma index_select32_r64_ok bm :
  words_ok bm -> 64 * len bm < 2 ^ 31 ->
  exists selects ranks, index_select32_r64 bm = Ok (selects, ranks) /\ rank_select bm selects ranks.
Proof.
  intros Hok Hl. pose proof (len_nonneg bm). destruct (ranks_ok_index bm Hl) as (rs & Hrs & Hranks).
  destruct (selects_loop_spec 0 bm 0 0 Hok) as (ss & Hss & Hsel); [lia..|].
  assert (Hsel' : forall m, ss !! m = ones bm !! (64 * m)%nat).
  { intros m. rewrite Hsel, Nat.add_0_l. by destruct (ones bm !! (64 * m)%nat). }
  exists ss, (0 :: rs). split.
  - unfold index_select32_r64, checked_add. rewrite (proj2 (Z.ltb_lt _ _)) by lia. cbn [ok_or mbind outcome_bind].
    rewrite Hrs. cbn [mbind outcome_bind]. change (0 + 0) with 0 in Hss. by rewrite Hss.
  - split; [intros; by apply rank64_spec| |intros; by apply select32_r64_spec].
    intros i Hi. destruct (select32_r64_spec bm ss (0 :: rs) i Hok Hl Hranks Hsel') as [_ E]; [lia|].
    rewrite (Z.div_small i 64), skew_0, Z.sub_0_r in E by lia. done.
Qed.

(** The index of a bitmap against the list of its set positions.  Construction
    succeeds on every bitmap of fewer than 2^31 bits; [rank64] counts the set bits before any
    position; [select32_r64] returns the position of set bit [i] for the first 64 set bits.
    For a later one it is exact only when the sample of its group of 64 is the first set bit
    of its word: in general it returns the position of set bit [i - skew], where [skew] is
    the number of set bits that precede the sample in the sample's word. *)
Theorem mrs_rank_select bm :
  words_ok bm -> 64 * len bm < 2 ^ 31 ->
  exists selects ranks, index_select32_r64 bm = Ok (selects, ranks)
    /\ (forall i, rank64 bm ranks i = rank_spec bm i)
    /\ (forall i, 0 <= i < Z.min 64 (len (ones bm)) -> Some (select32_r64 bm selects ranks i) = ones bm !! Z.to_nat i)
    /\ (forall i, 0 <= i < len (ones bm) ->
          Some (select32_r64 bm selects ranks i) = ones bm !! Z.to_nat (i - skew bm (i / 64))).
Proof.
  intros Hok Hl. destruct (index_select32_r64_ok bm Hok Hl) as (ss & rs & E & [H1 H2 H3]).
  exists ss, rs. split_and!; [done..|]. intros i Hi. by apply H3.
Qed.

Module MrsBitmapWitness.

(** Set bit 0, then word 1 full: set bit 64 is the last one, but bit 64 is returned. *)
Definition skewed : list Z := [1; 2 ^ 64 - 1].

Lemma mrs_rank_select_witness :
  exists selects ranks, index_select32_r64 skewed = Ok (selects, ranks)
    /\ rank64 skewed ranks 100 = 37 /\ Some (select32_r64 skewed selects ranks 64) = Some 64.
Proof.
  destruct (mrs_rank_select skewed) as (ss & rs & E & H1 & _ & H3).
  - repeat constructor; lia.
  - reflexivity.
  - exists ss, rs. split; [exact E|]. split; [rewrite H1; vm_compute; reflexivity|].
    rewrite (H3 64) by (vm_compute; split; congruence). vm_compute. reflexivity.
Defined.

Example skewed_one_64 : ones skewed !! 64%nat = Some 127.
Proof. vm_compute. reflexivity. Qed.
End MrsBitmapWitness.
