(* ===== verification/MrsDomain.v ===== *)
(** * Succinct domain sets of MRS files ([core-ruleset/src/parser/mrs/domain_set.rs])

    A trie over reversed domain names in level order.  The bitmap holds, for each node, a
    zero per child and a closing one; the child of the edge at position [p] is the node whose
    number is the count of zeros up to [p], and its edges begin after the delimiter of the
    node before it, found with [select].  [read] validates an untrusted set, [has] walks it
    with a stack of wildcard positions to fall back to.

    The readers are those of the three files under [mrs/]: [read_exact] on a cursor, modelled
    by the bytes that are left.  Every [ParseError] is [InvalidData], except [UnsupportedBinary],
    which is [Unsupported].  Node numbers and positions are [i32] in the code, kept within
    range by the limits on the set; the checked additions are written out. *)

From stdpp Require Import base list gmap strings numbers option.
From S2P Require Import Prelude IpRange CompactSet MrsBitmap.

(** ** Readers *)

Definition read_full (n : Z) (l : list Z) : outcome (list Z * list Z) :=
  if n <=? len l then Ok (take (Z.to_nat n) l, drop (Z.to_nat n) l) else Err InvalidData.

Definition read_i64_be (l : list Z) : outcome (Z * list Z) :=
  '(b, l) ← read_full 8 l;
  let v := be_val b in
  Ok (if v <? 2 ^ 63 then v else v - 2 ^ 64, l).

Definition read_bounded_len (maximum : Z) (allow_zero : bool) (l : list Z) : outcome (Z * list Z) :=
  '(raw, l) ← read_i64_be l;
  if raw <? 0 then Err InvalidData else
  if (negb allow_zero && (raw =? 0)) || (maximum <? raw) then Err InvalidData else Ok (raw, l).

Fixpoint read_u64_vec_be (n : nat) (l : list Z) : outcome (list Z * list Z) :=
  match n with
  | O => Ok ([], l)
  | S n' => '(b, l) ← read_full 8 l; '(ws, l) ← read_u64_vec_be n' l; Ok (be_val b :: ws, l)
  end.

(** ** Validation *)

Definition MRS_MAX_DOMAIN_NODES : Z := 8 * 1024 * 1024.
Definition MRS_MAX_DOMAIN_DEPTH : Z := 1024.
Definition MAX_DOMAIN_LEAF_WORDS : Z := div_ceil MRS_MAX_DOMAIN_NODES 64.
Definition MRS_MAX_DOMAIN_BITMAP_WORDS : Z := div_ceil (2 * MRS_MAX_DOMAIN_NODES - 1) 64.

(** [used_mask] of the last word: a bit at or above [bits] is set *)
Definition padding_set (words : list Z) (bits : Z) : bool :=
  negb (bits mod 64 =? 0) && negb (Z.land (default 0 (head (rev words))) (Z.lnot (Z.shiftl 1 (bits mod 64) - 1)) =? 0).

(** [bit_index], [edge_index] and [depths] *)
Record Validation : Type := mkValidation { vl_bit : Z; vl_edge : Z; vl_depths : list Z }.

Section validate.
Variables (leaves label_bitmap labels : list Z) (effective_bits : Z).

(** The inner [loop]: the children of a node at depth [parent_depth], and their number *)
Fixpoint sibling_loop (fuel : nat) (parent_depth : Z) (previous_label : option Z) (child_count : Z) (v : Validation)
    : outcome (Z * Validation) :=
  match fuel with
  | O => Panic
  | S fuel' =>
    if effective_bits <=? vl_bit v then Err InvalidData else
    let bit := get_bit label_bitmap (vl_bit v) in
    let bit_index := vl_bit v + 1 in
    if negb (bit =? 0) then Ok (child_count, mkValidation bit_index (vl_edge v) (vl_depths v)) else
    if len labels <=? vl_edge v then Err InvalidData else
    label ← index labels (vl_edge v);
    if match previous_label with Some previous => label <=? previous | None => false end then Err InvalidData else
    let depth := parent_depth + 1 in
    if MRS_MAX_DOMAIN_DEPTH <? depth then Err InvalidData else
    sibling_loop fuel' parent_depth (Some label) (child_count + 1)
      (mkValidation bit_index (vl_edge v + 1) (vl_depths v ++ [depth]))
  end.

Fixpoint validate_nodes (nodes : nat) (node_index : Z) (v : Validation) : outcome Validation :=
  match nodes with
  | O => Ok v
  | S nodes' =>
    parent_depth ← ok_or (vl_depths v !! Z.to_nat node_index) InvalidData;
    '(child_count, v) ← sibling_loop (S (Z.to_nat (effective_bits - vl_bit v))) parent_depth None 0 v;
    if (child_count =? 0) && (get_bit leaves node_index =? 0) then Err InvalidData else
    validate_nodes nodes' (node_index + 1) v
  end.
End validate.

Definition validate_succinct_set (leaves label_bitmap labels : list Z) : outcome (Z * Z) :=
  node_count ← ok_or (checked_add 64 (len labels) 1) InvalidData;
  let effective_bits := node_count * 2 - 1 in
  if negb (len label_bitmap =? div_ceil effective_bits 64) then Err InvalidData else
  if padding_set label_bitmap effective_bits then Err InvalidData else
  if negb (len leaves =? div_ceil node_count 64) then Err InvalidData else
  if padding_set leaves node_count then Err InvalidData else
  if negb (get_bit leaves 0 =? 0) then Err InvalidData else
  if get_bit leaves (node_count - 1) =? 0 then Err InvalidData else
  v ← validate_nodes leaves label_bitmap labels effective_bits (Z.to_nat node_count) 0 (mkValidation 0 0 [0]);
  if negb (vl_bit v =? effective_bits) || negb (vl_edge v =? len labels) || negb (len (vl_depths v) =? node_count)
  then Err InvalidData
  else Ok (node_count, effective_bits).

Record MrsDomainSet : Type := mkDomainSet {
  md_leaves : list Z; md_label_bitmap : list Z; md_labels : list Z; md_ranks : list Z; md_selects : list Z;
  md_node_count : Z; md_effective_bitmap_bits : Z
}.

(** [MrsDomainSet::read] *)
Definition domain_set_read (l : list Z) : outcome (MrsDomainSet * list Z) :=
  '(byte, l) ← read_full 1 l;
  version ← index byte 0;
  if negb (version =? 1) then Err Unsupported else
  '(leaves_len, l) ← read_bounded_len MAX_DOMAIN_LEAF_WORDS false l;
  '(leaves, l) ← read_u64_vec_be (Z.to_nat leaves_len) l;
  '(labelmap_len, l) ← read_bounded_len MRS_MAX_DOMAIN_BITMAP_WORDS false l;
  '(label_bitmap, l) ← read_u64_vec_be (Z.to_nat labelmap_len) l;
  '(labels_len, l) ← read_bounded_len (MRS_MAX_DOMAIN_NODES - 1) false l;
  '(labels, l) ← read_full labels_len l;
  '(node_count, effective_bits) ← validate_succinct_set leaves label_bitmap labels;
  '(selects, ranks) ← index_select32_r64 label_bitmap;
  Ok (mkDomainSet leaves label_bitmap labels ranks selects node_count effective_bits, l).

(** ** Queries *)

(** [str::chars] and [String::push] *)
Definition char_value (g : list Z) : Z :=
  match g with
  | [a] => a
  | [a; b] => Z.land a 31 * 64 + Z.land b 63
  | [a; b; c] => (Z.land a 15 * 64 + Z.land b 63) * 64 + Z.land c 63
  | [a; b; c; d] => ((Z.land a 7 * 64 + Z.land b 63) * 64 + Z.land c 63) * 64 + Z.land d 63
  | _ => 0
  end.

Definition encode_utf8 (c : Z) : list Z :=
  if c <? 128 then [c]
  else if c <? 2048 then [192 + c / 64; 128 + c mod 64]
  else if c <? 65536 then [224 + c / 4096; 128 + (c / 64) mod 64; 128 + c mod 64]
  else [240 + c / 262144; 128 + (c / 4096) mod 64; 128 + (c / 64) mod 64; 128 + c mod 64].

(** [char::from_u32] *)
Definition is_char (c : Z) : bool := (c <? 55296) || in_range 57344 1114111 c.

(** [unicode_case_mapping::to_lowercase(c)[0]]: zero for a character that maps to itself *)
Class CaseMapping := { lowercase_first : Z -> Z }.

Section has.
Context `{CaseMapping}.

Definition unicode_simple_lower (value : Z) : Z :=
  if existsb (Z.eqb value) [7305; 42955; 42956; 42970; 42972] || in_range 68944 68965 value then value else
  let first := lowercase_first value in
  if first =? 0 then value else if is_char first then first else value.

Definition has_key (key : string) : list Z :=
  concat ((fun g => encode_utf8 (unicode_simple_lower (char_value g))) <$> rev (char_groups (str_bytes key))).

Variable s : MrsDomainSet.

Definition count_zeros (i : Z) : Z := i - rank64 (md_label_bitmap s) (md_ranks s) i.
Definition select_ith_one (i : Z) : Z := select32_r64 (md_label_bitmap s) (md_selects s) (md_ranks s) i.

Record WildcardCursor : Type := mkCursor { wc_bm_idx : Z; wc_index : Z }.
Record HasState : Type := mkHas { hs_node_id : Z; hs_bm_idx : Z; hs_i : Z; hs_stack : list WildcardCursor }.

(** How the inner [loop] over the edges of a node leaves: with an answer, with [break] at a
    matching edge, or at the delimiter *)
Inductive Scan : Type :=
| ScanReturn (b : bool)
| ScanEdge (bm_idx : Z) (stack : list WildcardCursor)
| ScanEnd (bm_idx : Z) (stack : list WildcardCursor).

Fixpoint scan_edges (fuel : nat) (c node_id i : Z) (bm_idx : Z) (stack : list WildcardCursor) : outcome Scan :=
  match fuel with
  | O => Panic
  | S fuel' =>
    if (bm_idx <? 0) || (md_effective_bitmap_bits s <=? bm_idx) then Ok (ScanReturn false) else
    if negb (get_bit (md_label_bitmap s) bm_idx =? 0) then Ok (ScanEnd bm_idx stack) else
    let local := bm_idx - node_id in
    if (local <? 0) || (len (md_labels s) <=? local) then Ok (ScanReturn false) else
    lab ← index (md_labels s) local;
    if lab =? 43 then Ok (ScanReturn true)
    else if lab =? 42 then scan_edges fuel' c node_id i (bm_idx + 1) (mkCursor bm_idx i :: stack)
    else if lab =? c then Ok (ScanEdge bm_idx stack)
    else scan_edges fuel' c node_id i (bm_idx + 1) stack
  end.

Definition SCAN_FUEL (bm_idx : Z) : nat := S (Z.to_nat (md_effective_bitmap_bits s - bm_idx)).

(** [while j < key.len() && key[j] != b'.'] *)
Fixpoint skip_label (key : list Z) : list Z :=
  match key with [] => [] | c :: key' => if c =? 46 then key else skip_label key' end.

(** The edge labelled [.] of a node, from position [bm_idx] on *)
Fixpoint dot_edge (fuel : nat) (node_id bm_idx : Z) : outcome (option Z) :=
  match fuel with
  | O => Panic
  | S fuel' =>
    if (bm_idx <? 0) || (md_effective_bitmap_bits s <=? bm_idx) || negb (get_bit (md_label_bitmap s) bm_idx =? 0) then Ok None else
    let local := bm_idx - node_id in
    if (local <? 0) || (len (md_labels s) <=? local) then Ok None else
    lab ← index (md_labels s) local;
    if lab =? 46 then Ok (Some bm_idx) else dot_edge fuel' node_id (bm_idx + 1)
  end.

(** The node behind the edge at [bm_idx] and the position of its edges *)
Definition node_after (bm_idx : Z) : option (Z * Z) :=
  after ← checked_add 31 bm_idx 1;
  let node_id := count_zeros after in
  if (node_id <=? 0) || (md_node_count s <=? node_id) then None else
  next ← checked_add 31 (select_ith_one (node_id - 1)) 1;
  Some (node_id, next).

(** The body of [loop 'outer] *)
Definition has_step (key : list Z) (st : HasState) : HasState + outcome bool :=
  if len key <=? hs_i st then inr (Ok (negb (get_bit (md_leaves s) (hs_node_id st) =? 0))) else
  match
    c ← index key (hs_i st);
    scan_edges (SCAN_FUEL (hs_bm_idx st)) c (hs_node_id st) (hs_i st) (hs_bm_idx st) (hs_stack st)
  with
  | Ok (ScanReturn b) => inr (Ok b)
  | Ok (ScanEdge bm_idx stack) =>
    match node_after bm_idx with
    | None => inr (Ok false)
    | Some (node_id, next) => inl (mkHas node_id next (hs_i st + 1) stack)
    end
  | Ok (ScanEnd bm_idx []) => inr (Ok false)
  | Ok (ScanEnd bm_idx (cursor :: stack)) =>
    match node_after (wc_bm_idx cursor) with
    | None => inr (Ok false)
    | Some (next_node_id, next_bm_idx) =>
      let again := mkHas (hs_node_id st) bm_idx (hs_i st) stack in
      let rest := skip_label (drop (Z.to_nat (wc_index cursor)) key) in
      let j := len key - len rest in
      if j =? len key then
        if negb (get_bit (md_leaves s) next_node_id =? 0) then inr (Ok true) else inl again
      else
        match dot_edge (SCAN_FUEL next_bm_idx) next_node_id next_bm_idx with
        | Ok None => inl again
        | Ok (Some p) => inl (mkHas next_node_id p j stack)
        | Err e => inr (Err e)
        | Panic => inr Panic
        end
    end
  | Err e => inr (Err e)
  | Panic => inr Panic
  end.

(** The rounds a query can take: a position of the key is scanned once per way to reach it. *)
Definition HAS_ROUNDS (key : list Z) : positive := Z.to_pos ((md_effective_bitmap_bits s + 2) ^ (len key + 2)).

Definition has (key : string) : outcome bool :=
  let key := has_key key in
  if len key =? 0 then Ok false else
  match iter_until (HAS_ROUNDS key) (has_step key) (mkHas 0 0 0 []) with
  | inr r => r
  | inl _ => Panic
  end.
End has.

(** ** Every query ends *)

Section termination.
Variable s : MrsDomainSet.
Variable key : list Z.
Hypothesis bits_positive : 0 <= md_effective_bitmap_bits s.
#[local] Abbreviation N := (md_effective_bitmap_bits s).
#[local] Abbreviation L := (len key).

(** The cost of scanning a node at index [i] of the key, and of a cursor taken there *)
Definition scan_cost (i : Z) : Z := (N + 2) ^ (L - i + 1).
Definition cursor_cost (c : WildcardCursor) : Z := scan_cost (wc_index c + 1) + 1.
Definition stack_cost (l : list WildcardCursor) : Z := foldr (fun c acc => cursor_cost c + acc) 0 l.

Definition label_at (node_id p : Z) : option Z :=
  if p <? node_id then None else md_labels s !! Z.to_nat (p - node_id).

(** At a delimiter or outside the bitmap the scan stops; at an edge that matches it leaves at once. *)
Definition here_cost (st : HasState) : Z :=
  if L <=? hs_i st then 1 else
  if (hs_bm_idx st <? 0) || (N <=? hs_bm_idx st) || negb (get_bit (md_label_bitmap s) (hs_bm_idx st) =? 0) then 1 else
  if bool_decide (label_at (hs_node_id st) (hs_bm_idx st) = Some 46) && bool_decide (key !! Z.to_nat (hs_i st) = Some 46)
  then scan_cost (hs_i st + 1) + 1
  else scan_cost (hs_i st).

Definition has_cost (st : HasState) : Z := here_cost st + stack_cost (hs_stack st).

Definition cursor_ok (c : WildcardCursor) : Prop := 0 <= wc_index c < L.
Definition has_ok (st : HasState) : Prop := 0 <= hs_i st /\ Forall cursor_ok (hs_stack st).

Lemma scan_cost_pos i : i <= L -> N + 2 <= scan_cost i.
Proof using bits_positive.
  intros Hi. unfold scan_cost. rewrite <- (Z.pow_1_r (N + 2)) at 1. apply Z.pow_le_mono_r; lia.
Qed.

Lemma scan_cost_succ i : i < L -> scan_cost i = (N + 2) * scan_cost (i + 1).
Proof using bits_positive. intros Hi. unfold scan_cost. rewrite <- Z.pow_succ_r by lia. f_equal. lia. Qed.

Lemma scan_cost_mono i j : i <= j -> j <= L -> scan_cost j <= scan_cost i.
Proof using bits_positive. intros Hij Hj. unfold scan_cost. apply Z.pow_le_mono_r; lia. Qed.

(** Up to [N] cursors and the next position cost less than the scan that found them. *)
Lemma scan_pays i m : i < L -> 0 <= m <= N -> m * (scan_cost (i + 1) + 1) + scan_cost (i + 1) + 1 < scan_cost i.
Proof using bits_positive. intros Hi Hm. rewrite (scan_cost_succ i Hi). pose proof (scan_cost_pos (i + 1) ltac:(lia)). nia. Qed.

Lemma here_cost_range st : has_ok st -> 1 <= here_cost st.
Proof using bits_positive.
  intros [Hi _]. unfold here_cost. destruct (Z.leb_spec L (hs_i st)); [lia|].
  pose proof (scan_cost_pos (hs_i st) ltac:(lia)). pose proof (scan_cost_pos (hs_i st + 1) ltac:(lia)).
  repeat case_match; lia.
Qed.

Lemma here_cost_le st : has_ok st -> hs_i st <= L -> here_cost st <= scan_cost (hs_i st).
Proof using bits_positive.
  intros [Hi _] Hl. unfold here_cost. pose proof (scan_cost_pos (hs_i st) Hl).
  destruct (Z.leb_spec L (hs_i st)); [lia|]. pose proof (scan_pays (hs_i st) 0 ltac:(lia) ltac:(lia)).
  repeat case_match; lia.
Qed.

Lemma stack_cost_nonneg l : Forall cursor_ok l -> 0 <= stack_cost l.
Proof using bits_positive.
  induction 1 as [|c l Hc Hl IH]; [done|]. change (0 <= cursor_cost c + stack_cost l). unfold cursor_ok, cursor_cost in *. pose proof (scan_cost_pos (wc_index c + 1) ltac:(lia)). lia.
Qed.

(** What a scan from a valid state leaves: [m] more cursors at the same index *)
Definition pushed (i p q : Z) (stack stack' : list WildcardCursor) : Prop :=
  Forall cursor_ok stack' /\ exists m, 0 <= m <= q - p /\ stack_cost stack' = m * (scan_cost (i + 1) + 1) + stack_cost stack.

Definition scan_post (c node_id i p : Z) (stack : list WildcardCursor) (r : outcome Scan) : Prop :=
  match r with
  | Ok (ScanReturn _) => True
  | Ok (ScanEdge q stack') => p <= q < N /\ pushed i p q stack stack'
  | Ok (ScanEnd q stack') => p <= q < N /\ get_bit (md_label_bitmap s) q <> 0 /\ pushed i p q stack stack'
  | _ => False
  end.

Lemma scan_post_mono c node_id i p stack1 stack r :
  (forall q st', pushed i (p + 1) q stack1 st' -> pushed i p q stack st') ->
  scan_post c node_id i (p + 1) stack1 r -> scan_post c node_id i p stack r.
Proof.
  intros Hp Hr. destruct r as [[|q st'|q st']| |]; cbn [scan_post] in *; [done| | |done|done].
  - destruct Hr as [? ?]. split; [lia|auto].
  - destruct Hr as (? & ? & ?). split_and!; [lia|lia|done|auto].
Qed.

Lemma scan_edges_post fuel c node_id i p stack :
  (Z.to_nat (N - p) < fuel)%nat -> 0 <= i < L -> Forall cursor_ok stack ->
  scan_post c node_id i p stack (scan_edges s fuel c node_id i p stack).
Proof using bits_positive.
  revert p stack. induction fuel as [|fuel IH]; intros p stack Hf Hi Hs; [lia|]. cbn [scan_edges].
  assert (Hstay : pushed i p p stack stack) by (split; [done|]; exists 0; lia).
  destruct (Z.ltb_spec p 0); [done|]. cbn [orb]. destruct (Z.leb_spec N p); [done|].
  destruct (Z.eqb_spec (get_bit (md_label_bitmap s) p) 0) as [Hb|Hb]; cbn [negb]; [|cbn [scan_post]; split_and!; done || lia].
  destruct (_ || _) eqn:Hloc; [done|]. apply orb_false_elim in Hloc as [H1%Z.ltb_ge H2%Z.leb_gt].
  destruct (index_ok (md_labels s) (p - node_id) ltac:(lia)) as (lab & -> & _). cbn [mbind outcome_bind].
  destruct (lab =? 43); [done|]. destruct (lab =? 42).
  - specialize (IH (p + 1) (mkCursor p i :: stack) ltac:(lia) Hi ltac:(by constructor)).
    assert (Hpush : forall q st', pushed i (p + 1) q (mkCursor p i :: stack) st' -> pushed i p q stack st').
    { intros q st' (Hst & m & Hm & E). split; [done|]. exists (m + 1). change (stack_cost (mkCursor p i :: stack)) with (scan_cost (i + 1) + 1 + stack_cost stack) in E. lia. }
    by apply (scan_post_mono c node_id i p (mkCursor p i :: stack)).
  - destruct (lab =? c); [cbn [scan_post]; split; [lia|done]|].
    specialize (IH (p + 1) stack ltac:(lia) Hi Hs).
    assert (Hpush : forall q st', pushed i (p + 1) q stack st' -> pushed i p q stack st').
    { intros q st' (Hst & m & Hm & E). split; [done|]. exists m. lia. }
    by apply (scan_post_mono c node_id i p stack).
Qed.

Lemma dot_edge_post fuel node_id p :
  (Z.to_nat (N - p) < fuel)%nat ->
  exists o, dot_edge s fuel node_id p = Ok o
    /\ forall q, o = Some q -> 0 <= q < N /\ get_bit (md_label_bitmap s) q = 0 /\ label_at node_id q = Some 46.
Proof.
  revert p. induction fuel as [|fuel IH]; intros p Hf; [lia|]. cbn [dot_edge].
  destruct (_ || negb _) eqn:E; [by exists None|]. apply orb_false_elim in E as [E Hb%negb_false_iff%Z.eqb_eq].
  apply orb_false_elim in E as [H0%Z.ltb_ge HN%Z.leb_gt].
  destruct (_ || _) eqn:E; [by exists None|]. apply orb_false_elim in E as [H1%Z.ltb_ge H2%Z.leb_gt].
  destruct (index_ok (md_labels s) (p - node_id) ltac:(lia)) as (lab & Hlab & _). rewrite Hlab. cbn [mbind outcome_bind].
  destruct (Z.eqb_spec lab 46) as [->|]; [|apply IH; lia].
  exists (Some p). split; [done|]. intros q [= <-]. split_and!; [lia|lia|done|].
  unfold label_at. rewrite (proj2 (Z.ltb_ge p node_id)) by lia. unfold index in Hlab.
  destruct (0 <=? p - node_id); [|done]. by destruct (md_labels s !! _) as [x|]; simplify_eq.
Qed.

(** The rest of the key after a label is empty or begins with a dot. *)
Lemma skip_label_spec k :
  skip_label k = [] \/ exists a r, skip_label k = 46 :: r /\ k = a ++ 46 :: r.
Proof.
  induction k as [|c k IH]; [by left|]. cbn. destruct (Z.eqb_spec c 46) as [->|]; [right; by exists [], k|].
  destruct IH as [E|(a & r & E & ->)]; [by left|]. right. by exists (c :: a), r.
Qed.

Lemma skip_label_at idx :
  0 <= idx < L ->
  let rest := skip_label (drop (Z.to_nat idx) key) in
  L - len rest = L \/ (idx <= L - len rest < L /\ key !! Z.to_nat (L - len rest) = Some 46).
Proof.
  intros Hi rest. destruct (skip_label_spec (drop (Z.to_nat idx) key)) as [E|(a & r & E & Hk)].
  - left. unfold rest. rewrite E. change (len (@nil Z)) with 0. lia.
  - right. assert (Hkey : key = (take (Z.to_nat idx) key ++ a) ++ 46 :: r) by (by rewrite <- app_assoc, <- Hk, take_drop).
    assert (Hlen : L = idx + len a + 1 + len r).
    { rewrite Hkey, !len_app, len_cons. rewrite len_take by lia. lia. }
    pose proof (len_nonneg a). pose proof (len_nonneg r). unfold rest. rewrite E, len_cons. split; [lia|].
    rewrite Hkey at 2. rewrite list_lookup_middle; [done|].
    rewrite length_app, length_take. unfold len in *. lia.
Qed.

(** A state whose scan begins at a delimiter, and one at a matching dot, cost less. *)
Lemma here_cost_end node_id q i stack :
  i < L -> 0 <= q < N -> get_bit (md_label_bitmap s) q <> 0 -> here_cost (mkHas node_id q i stack) = 1.
Proof.
  intros Hi Hq Hb. unfold here_cost. cbn [hs_i hs_bm_idx hs_node_id]. rewrite (proj2 (Z.leb_gt L i)) by lia.
  by rewrite (proj2 (Z.eqb_neq _ _) Hb), orb_true_r.
Qed.

Lemma here_cost_dot node_id q j stack :
  j < L -> 0 <= q < N -> get_bit (md_label_bitmap s) q = 0 -> label_at node_id q = Some 46 -> key !! Z.to_nat j = Some 46 ->
  here_cost (mkHas node_id q j stack) = scan_cost (j + 1) + 1.
Proof.
  intros Hj Hq Hb Hlab Hk. unfold here_cost. cbn [hs_i hs_bm_idx hs_node_id]. rewrite (proj2 (Z.leb_gt L j)) by lia.
  rewrite Hb, Hlab, Hk, (proj2 (Z.ltb_ge q 0)), (proj2 (Z.leb_gt N q)) by lia. done.
Qed.

(** The budget of a state covers what its scan leaves on the stack, and one more step. *)
Lemma scan_state st c :
  has_ok st -> hs_i st < L -> key !! Z.to_nat (hs_i st) = Some c ->
  match scan_edges s (SCAN_FUEL s (hs_bm_idx st)) c (hs_node_id st) (hs_i st) (hs_bm_idx st) (hs_stack st) with
  | Ok (ScanReturn _) => True
  | Ok (ScanEdge q stack) => Forall cursor_ok stack /\ scan_cost (hs_i st + 1) + stack_cost stack < has_cost st
  | Ok (ScanEnd q stack) =>
    0 <= q < N /\ get_bit (md_label_bitmap s) q <> 0 /\ Forall cursor_ok stack /\ 1 + stack_cost stack <= has_cost st
  | _ => False
  end.
Proof using bits_positive.
  destruct st as [node_id p i stack]. intros [Hi Hs] HL Hc. cbn [hs_i hs_bm_idx hs_node_id hs_stack] in *.
  pose proof (scan_edges_post (SCAN_FUEL s p) c node_id i p stack ltac:(unfold SCAN_FUEL; lia) ltac:(lia) Hs) as Hpost.
  unfold has_cost, here_cost. cbn [hs_i hs_bm_idx hs_node_id hs_stack]. rewrite (proj2 (Z.leb_gt L i)) by lia.
  destruct ((p <? 0) || (N <=? p)) eqn:Hout.
  { unfold SCAN_FUEL. cbn [scan_edges]. by rewrite Hout. }
  cbn [orb]. pose proof Hout as [H0%Z.ltb_ge HN%Z.leb_gt]%orb_false_elim.
  destruct (Z.eqb_spec (get_bit (md_label_bitmap s) p) 0) as [Hb|Hb]; cbn [negb].
  2:{ unfold SCAN_FUEL. cbn [scan_edges]. rewrite Hout, (proj2 (Z.eqb_neq _ _) Hb). cbn [negb]. split_and!; done || lia. }
  destruct (_ && _) eqn:Hdot.
  - apply andb_prop in Hdot as [Hlab%bool_decide_eq_true_1 Hk%bool_decide_eq_true_1]. simplify_eq.
    unfold SCAN_FUEL. cbn [scan_edges]. rewrite Hout, Hb. cbn [negb Z.eqb].
    unfold label_at in Hlab. destruct (Z.ltb_spec p node_id) as [|Hge]; [done|].
    pose proof (lookup_lt_Some _ _ _ Hlab). unfold index.
    rewrite (proj2 (Z.ltb_ge (p - node_id) 0)), (proj2 (Z.leb_gt (len (md_labels s)) _)) by (unfold len; lia). cbn [orb].
    rewrite (proj2 (Z.leb_le 0 (p - node_id))), Hlab by lia. cbn. split; [done|lia].
  - destruct (scan_edges _ _ _ _ _ _ _) as [[|q st'|q st']| |]; cbn [scan_post] in Hpost; try done.
    + destruct Hpost as (Hq & Hst & m & Hm & ->). split; [done|]. pose proof (scan_pays i m HL ltac:(lia)). lia.
    + destruct Hpost as (Hq & Hbit & Hst & m & Hm & ->). pose proof (scan_pays i m HL ltac:(lia)).
      pose proof (scan_cost_pos (i + 1) ltac:(lia)). split_and!; [lia|lia|done|done|lia].
Qed.

Lemma has_step_decreases st :
  has_ok st ->
  match has_step s key st with
  | inl st' => has_ok st' /\ 0 <= has_cost st' < has_cost st
  | inr r => exists b, r = Ok b
  end.
Proof using bits_positive.
  intros Hst. pose proof Hst as [Hi Hs]. unfold has_step. destruct (Z.leb_spec L (hs_i st)) as [|HL]; [eauto|].
  destruct (index_ok key (hs_i st) ltac:(lia)) as (c & Hc & _). rewrite Hc. cbn [mbind outcome_bind].
  assert (Hkey : key !! Z.to_nat (hs_i st) = Some c).
  { unfold index in Hc. rewrite (proj2 (Z.leb_le _ _)) in Hc by lia. by destruct (key !! _); simplify_eq. }
  pose proof (scan_state st c Hst HL Hkey) as Hscan.
  destruct (scan_edges _ _ _ _ _ _ _) as [[b|q stack|q [|cursor stack]]| |]; [eauto| |eauto| |done|done].
  - destruct Hscan as [Hok Hcost]. destruct (node_after s q) as [[node_id next]|]; [|eauto].
    assert (Hst' : has_ok (mkHas node_id next (hs_i st + 1) stack)) by (split; [cbn; lia|done]).
    split; [done|]. pose proof (here_cost_range _ Hst'). pose proof (here_cost_le _ Hst' ltac:(cbn; lia)) as Hle. cbn [hs_i] in Hle.
    pose proof (stack_cost_nonneg stack Hok). unfold has_cost. cbn [hs_stack]. unfold has_cost in Hcost. lia.
  - destruct Hscan as (Hq & Hbit & Hok & Hcost). apply Forall_cons_1 in Hok as [Hcur Hok]. unfold cursor_ok in Hcur.
    pose proof (stack_cost_nonneg stack Hok).
    change (stack_cost (cursor :: stack)) with (scan_cost (wc_index cursor + 1) + 1 + stack_cost stack) in Hcost.
    pose proof (scan_cost_pos (wc_index cursor + 1) ltac:(lia)) as Hpos.
    destruct (node_after s (wc_bm_idx cursor)) as [[next_id next]|]; [|eauto].
    assert (Hagain : has_ok (mkHas (hs_node_id st) q (hs_i st) stack)
      /\ 0 <= has_cost (mkHas (hs_node_id st) q (hs_i st) stack) < has_cost st).
    { split; [by split|]. unfold has_cost at 1 2. rewrite here_cost_end by done. cbn [hs_stack]. lia. }
    pose proof (skip_label_at (wc_index cursor) Hcur) as Hj. cbn zeta in Hj. set (j := L - len _) in *.
    destruct (Z.eqb_spec j L) as [|Hne]; [destruct (negb _); eauto|]. destruct Hj as [Hj|[Hj Hdot]]; [lia|].
    destruct (dot_edge_post (SCAN_FUEL s next) next_id next ltac:(unfold SCAN_FUEL; lia)) as (o & -> & Ho).
    destruct o as [p|]; [|done]. destruct (Ho p eq_refl) as (Hp & Hpb & Hplab).
    split; [split; [cbn; lia|done]|]. unfold has_cost at 1 2. rewrite here_cost_dot by (done || lia). cbn [hs_stack].
    pose proof (scan_cost_mono (wc_index cursor + 1) (j + 1) ltac:(lia) ltac:(lia)). pose proof (scan_cost_pos (j + 1) ltac:(lia)). lia.
Qed.
End termination.
