(* ===== verification/MrsTrie.v ===== *)
(** * MRS domain sets: queries against a reference trie

    What validation establishes of an accepted set ([louds]), the trie it denotes, read off
    the bitmap by counting, and the theorems about [MrsDomainSet::has]: every query ends, it
    answers as the trie does when the select samples are aligned, and a set of 22 domains for
    which it misses one of them. *)

From stdpp Require Import base list gmap strings numbers option.
From S2P Require Import Prelude IpRange CompactSet MrsBitmap MrsDomain.

(** ** Accepted sets *)

Record louds (s : MrsDomainSet) : Prop := {
  lo_index : rank_select (md_label_bitmap s) (md_selects s) (md_ranks s);
  lo_nodes : md_node_count s = len (md_labels s) + 1;
  lo_bits : md_effective_bitmap_bits s = 2 * md_node_count s - 1;
  lo_room : md_effective_bitmap_bits s <= 64 * len (md_label_bitmap s) < 2 ^ 31;
  lo_ones : rank_spec (md_label_bitmap s) (md_effective_bitmap_bits s) = md_node_count s
}.

(** A guard of a program that returned did not refuse. *)
Ltac passed E := match type of E with (if ?b then _ else _) = Ok _ => destruct b eqn:?; [discriminate E|] end.

Section validated.
Variables (leaves bm labels : list Z) (eff : Z).
Hypothesis room : eff <= 64 * len bm.

(** Edges read so far: the zeros before the current bit *)
Definition counted (v : Validation) : Prop := 0 <= vl_bit v /\ vl_edge v = vl_bit v - rank_spec bm (vl_bit v).

Lemma sibling_loop_inv fuel depth prev n v n' v' :
  counted v -> sibling_loop bm labels eff fuel depth prev n v = Ok (n', v') ->
  counted v' /\ vl_bit v' <= eff /\ rank_spec bm (vl_bit v') = rank_spec bm (vl_bit v) + 1.
Proof using room.
  revert prev n v. induction fuel as [|fuel IH]; intros prev n v [Hb He] E; [done|]. cbn [sibling_loop] in E.
  destruct (Z.leb_spec eff (vl_bit v)) as [|Hlt]; [done|]. pose proof (rank_succ bm (vl_bit v) ltac:(lia)) as Hs.
  destruct (Z.eqb_spec (get_bit bm (vl_bit v)) 0) as [H0|H0]; cbn [negb] in E.
  - passed E. apply bind_Ok in E as (label & _ & E). passed E. passed E. apply IH in E; [|unfold counted; cbn; lia]. cbn [vl_bit] in E. intuition lia.
  - injection E as _ <-. unfold counted. cbn. destruct (get_bit_01 bm (vl_bit v)); lia.
Qed.

Lemma validate_nodes_inv nodes k v v' :
  counted v -> vl_bit v <= eff -> validate_nodes leaves bm labels eff nodes k v = Ok v' ->
  counted v' /\ vl_bit v' <= eff /\ rank_spec bm (vl_bit v') = rank_spec bm (vl_bit v) + Z.of_nat nodes.
Proof using room.
  revert k v. induction nodes as [|nodes IH]; intros k v Hv Hle E; cbn [validate_nodes] in E.
  - injection E as <-. split_and!; [done|done|lia].
  - apply bind_Ok in E as (d & _ & E). apply bind_Ok in E as ([n v1] & Hs & E). destruct (_ && _); [done|].
    apply sibling_loop_inv in Hs as (H1 & H2 & H3); [|done]. apply IH in E as (H4 & H5 & H6); [|done..]. split_and!; [done|done|lia].
Qed.
End validated.

Lemma read_full_bytes n l b l' : bytes_ok l -> 0 <= n -> read_full n l = Ok (b, l') -> bytes_ok b /\ len b = n /\ bytes_ok l'.
Proof.
  unfold read_full. intros Hl Hn E. destruct (Z.leb_spec n (len l)); [|done]. injection E as <- <-.
  split_and!; [by apply Forall_take|rewrite len_take; lia|by apply Forall_drop].
Qed.

Lemma read_bounded_len_inv m z l x l' :
  bytes_ok l -> read_bounded_len m z l = Ok (x, l') -> 0 <= x <= m /\ bytes_ok l'.
Proof.
  unfold read_bounded_len, read_i64_be. intros Hl E. apply bind_Ok in E as ([raw l1] & E1 & E).
  apply bind_Ok in E1 as ([b l2] & E1 & E2). apply read_full_bytes in E1 as (_ & _ & Hl2); [|done|lia].
  injection E2 as <- <-. revert E. generalize (if be_val b <? 2 ^ 63 then be_val b else be_val b - 2 ^ 64). intros r E. destruct (Z.ltb_spec r 0); [done|].
  destruct (negb z && _ || _) eqn:Eb; [done|]. apply orb_false_elim in Eb as [_ Eb%Z.ltb_ge]. injection E as <- <-. done.
Qed.

Lemma read_u64_vec_inv n l ws l' : bytes_ok l -> read_u64_vec_be n l = Ok (ws, l') -> words_ok ws /\ length ws = n /\ bytes_ok l'.
Proof.
  revert l ws. induction n as [|n IH]; intros l ws Hl E; cbn [read_u64_vec_be] in E.
  - injection E as <- <-. split_and!; [constructor|done|done].
  - apply bind_Ok in E as ([b l1] & E1 & E). apply read_full_bytes in E1 as (Hb & Hlen & Hl1); [|done|lia].
    apply bind_Ok in E as ([ws1 l2] & E2 & E). injection E as <- <-. apply IH in E2 as (H1 & H2 & H3); [|done].
    split_and!; [|cbn; by rewrite H2|done]. constructor; [|done]. pose proof (be_val_range b Hb) as Hr. rewrite Hlen in Hr. exact Hr.
Qed.

(** The limit on the words of a bitmap keeps its positions within [i32]. *)
Lemma bitmap_words_room m (bm : list Z) : 0 <= m <= MRS_MAX_DOMAIN_BITMAP_WORDS -> length bm = Z.to_nat m -> 64 * len bm < 2 ^ 31.
Proof.
  intros Hm Hl. unfold len. rewrite Hl. unfold MRS_MAX_DOMAIN_BITMAP_WORDS, div_ceil, MRS_MAX_DOMAIN_NODES in Hm.
  change ((2 * (8 * 1024 * 1024) - 1 + 64 - 1) / 64) with 262144 in Hm. lia.
Qed.

Lemma domain_set_read_louds l s rest : bytes_ok l -> domain_set_read l = Ok (s, rest) -> louds s.
Proof.
  intros Hl E. unfold domain_set_read in E.
  apply bind_Ok in E as ([b l1] & E1 & E). apply read_full_bytes in E1 as (_ & _ & Hl1); [|done|lia].
  apply bind_Ok in E as (version & _ & E). passed E.
  apply bind_Ok in E as ([n l2] & E2 & E). apply read_bounded_len_inv in E2 as [_ Hl2]; [|done].
  apply bind_Ok in E as ([leaves l3] & E3 & E). apply read_u64_vec_inv in E3 as (_ & _ & Hl3); [|done].
  apply bind_Ok in E as ([m l4] & E4 & E). apply read_bounded_len_inv in E4 as [Hm Hl4]; [|done].
  apply bind_Ok in E as ([bm l5] & E5 & E). apply read_u64_vec_inv in E5 as (Hbm & Hbl & Hl5); [|done].
  apply bind_Ok in E as ([k l6] & E6 & E). apply read_bounded_len_inv in E6 as [Hk Hl6]; [|done].
  apply bind_Ok in E as ([labels l7] & E7 & E). apply read_full_bytes in E7 as (_ & Hlab & _); [|done|lia].
  apply bind_Ok in E as ([nodes eff] & Ev & E). apply bind_Ok in E as ([selects ranks] & Ei & E). injection E as <- <-.
  assert (Hbl' : 64 * len bm < 2 ^ 31) by by apply (bitmap_words_room m).
  unfold validate_succinct_set in Ev. apply bind_Ok in Ev as (nc & Hnc & Ev). apply ok_or_Ok, checked_add_Some in Hnc as [_ ->].
  destruct (Z.eqb_spec (len bm) (div_ceil ((len labels + 1) * 2 - 1) 64)) as [Hw|]; [|done]. cbn [negb] in Ev.
  do 5 passed Ev. apply bind_Ok in Ev as (v & Hv & Ev). passed Ev.
  match goal with H : _ || _ || _ = false |- _ => apply orb_false_elim in H as [[Hbit%negb_false_iff%Z.eqb_eq _]%orb_false_elim _] end.
  injection Ev as <- <-.
  assert (Hroom : (len labels + 1) * 2 - 1 <= 64 * len bm).
  { rewrite Hw. unfold div_ceil. pose proof (Z.mod_pos_bound ((len labels + 1) * 2 - 1 + 64 - 1) 64).
    pose proof (Z.div_mod ((len labels + 1) * 2 - 1 + 64 - 1) 64). lia. }
  pose proof (len_nonneg labels).
  apply validate_nodes_inv in Hv as (_ & _ & Hr); [|lia|split; [done|]; cbn; by rewrite rank_0|cbn; lia].
  destruct (index_select32_r64_ok bm Hbm Hbl') as (ss & rs & Ei' & Hrs). rewrite Ei in Ei'. injection Ei' as <- <-.
  split; cbn [md_label_bitmap md_selects md_ranks md_node_count md_labels md_effective_bitmap_bits]; [done|done|lia|lia|].
  rewrite Hbit in Hr. cbn in Hr. rewrite rank_0 in Hr. lia.
Qed.

(** ** The trie a set denotes

    The edge at position [p] belongs to the node whose number is the count of ones before
    [p], carries the label of its rank among the zeros, and leads to the next zero's node. *)

Section trie.
Variable s : MrsDomainSet.
#[local] Abbreviation bm := (md_label_bitmap s).
#[local] Abbreviation N := (md_effective_bitmap_bits s).

Definition edges_of (node : Z) : list Z :=
  List.filter (fun p => (get_bit bm p =? 0) && (rank_spec bm p =? node)) (Z.of_nat <$> seq 0 (Z.to_nat N)).
Definition edge_label (p : Z) : Z := default 0 (md_labels s !! Z.to_nat (p - rank_spec bm p)).
Definition edge_child (p : Z) : Z := p + 1 - rank_spec bm p.
Definition is_leaf (node : Z) : bool := get_bit (md_leaves s) node =? 1.

(** The first edge that is a [+] wildcard or carries the byte decides. *)
Definition decides (c p : Z) : bool := (edge_label p =? 43) || (edge_label p =? c).

Fixpoint trie_has (node : Z) (key : list Z) : bool :=
  match key with
  | [] => is_leaf node
  | c :: key' =>
    match List.find (decides c) (edges_of node) with
    | None => false
    | Some p => if edge_label p =? 43 then true else trie_has (edge_child p) key'
    end
  end.

Hypothesis Hs : louds s.
Hypothesis no_star : Forall (fun l => l <> 42) (md_labels s).
Hypothesis aligned : forall b, 0 <= b -> skew bm b = 0.

(** Where the edges of a node begin *)
Definition block_start (node : Z) : Z :=
  if node =? 0 then 0 else match ones bm !! Z.to_nat (node - 1) with Some p => p + 1 | None => 0 end.

Lemma block_end node : 0 <= node < md_node_count s -> exists e, ones bm !! Z.to_nat node = Some e /\ 0 <= e < N.
Proof using Hs. destruct Hs. intros Hn. apply one_exists. lia. Qed.

Lemma block_spec node e p :
  0 <= node < md_node_count s -> ones bm !! Z.to_nat node = Some e -> 0 <= p < N ->
  get_bit bm p = 0 /\ rank_spec bm p = node <-> block_start node <= p < e.
Proof using Hs.
  destruct Hs as [_ _ _ Hroom _]. intros Hn He Hp. pose proof (one_below_rank bm _ e (p + 1) He) as Hle. rewrite Z2Nat.id in Hle by lia.
  pose proof (one_below_rank bm _ e p He) as Hlt. rewrite Z2Nat.id in Hlt by lia.
  rewrite (rank_succ bm p ltac:(lia)) in Hle. pose proof (get_bit_01 bm p) as Hb. pose proof (rank_nonneg bm p).
  assert (Hst : block_start node <= p <-> node <= rank_spec bm p).
  { unfold block_start. destruct (Z.eqb_spec node 0); [lia|].
    destruct (ones bm !! Z.to_nat (node - 1)) as [a|] eqn:Ea.
    - pose proof (one_below_rank bm _ a p Ea) as Ha. rewrite Z2Nat.id in Ha by lia. lia.
    - apply lookup_ge_None in Ea. apply lookup_lt_Some in He. lia. }
  destruct (Z.eq_dec p e) as [->|Hne]; [|lia]. pose proof (one_bit bm _ e He). lia.
Qed.

Lemma block_start_le node e : 0 <= node < md_node_count s -> ones bm !! Z.to_nat node = Some e -> 0 <= block_start node <= e.
Proof using Hs.
  intros Hn He. unfold block_start. destruct (Z.eqb_spec node 0).
  - pose proof (ones_range bm e (list_elem_of_lookup_2 _ _ _ He)). lia.
  - destruct (ones bm !! Z.to_nat (node - 1)) as [a|] eqn:Ea; [|apply lookup_ge_None in Ea; apply lookup_lt_Some in He; lia].
    pose proof (ones_range bm a (list_elem_of_lookup_2 _ _ _ Ea)). pose proof (one_below_rank bm _ a e Ea) as Ha.
    rewrite (rank_of_one bm _ e He) in Ha. lia.
Qed.

(** The edges of a node are the positions of its block. *)
Lemma edges_of_block node e :
  0 <= node < md_node_count s -> ones bm !! Z.to_nat node = Some e ->
  edges_of node = Z.of_nat <$> seq (Z.to_nat (block_start node)) (Z.to_nat (e - block_start node)).
Proof using Hs.
  intros Hn He. pose proof (block_start_le node e Hn He) as Hst. destruct (block_end node Hn) as (e' & He' & HeN).
  rewrite He in He'. injection He' as <-. unfold edges_of.
  replace (seq 0 (Z.to_nat N)) with (seq 0 (Z.to_nat (block_start node)) ++ seq (Z.to_nat (block_start node)) (Z.to_nat (e - block_start node)) ++ seq (Z.to_nat e) (Z.to_nat (N - e))).
  2:{ replace (Z.to_nat N) with (Z.to_nat (block_start node) + (Z.to_nat (e - block_start node) + Z.to_nat (N - e)))%nat by lia.
      rewrite !seq_app. do 3 f_equal. lia. }
  assert (Hiff : forall k, 0 <= Z.of_nat k < N -> (get_bit bm (Z.of_nat k) =? 0) && (rank_spec bm (Z.of_nat k) =? node)
    = (block_start node <=? Z.of_nat k) && (Z.of_nat k <? e)).
  { intros k Hk. apply eq_true_iff_eq. rewrite !andb_true_iff, !Z.eqb_eq, Z.leb_le, Z.ltb_lt. by apply block_spec. }
  rewrite !fmap_app, !filter_app, filter_none_list, (filter_all_list _ (_ <$> seq (Z.to_nat (block_start node)) _)), (filter_none_list _ (_ <$> seq (Z.to_nat e) _)).
  - cbn. by rewrite app_nil_r.
  - intros x (k & -> & Hk%elem_of_seq)%list_elem_of_fmap. rewrite Hiff by lia. lia.
  - intros x (k & -> & Hk%elem_of_seq)%list_elem_of_fmap. rewrite Hiff by lia. lia.
  - intros x (k & -> & Hk%elem_of_seq)%list_elem_of_fmap. rewrite Hiff by lia. lia.
Qed.

(** An edge of a node: its label is in range and no star, and the code finds its child. *)
Lemma edge_facts node p :
  0 <= p < N -> get_bit bm p = 0 -> rank_spec bm p = node ->
  0 <= p - node < len (md_labels s) /\ index (md_labels s) (p - node) = Ok (edge_label p) /\ edge_label p <> 42
  /\ 0 <= edge_child p < md_node_count s
  /\ node_after s p = Some (edge_child p, block_start (edge_child p)).
Proof using Hs no_star aligned.
  destruct Hs as [Hidx Hnodes Hbits Hroom Hones]. intros Hp Hb Hr.
  pose proof (rank_succ bm p ltac:(lia)) as Hsucc. pose proof (rank_step bm (p + 1) N ltac:(lia) ltac:(lia)) as Hz.
  pose proof (rank_step bm 0 p ltac:(lia) ltac:(lia)) as Hz0. rewrite rank_0 in Hz0.
  assert (Hloc : 0 <= p - node < len (md_labels s)) by lia. split; [done|].
  destruct (index_ok (md_labels s) (p - node) Hloc) as (lab & Hlab & Hin).
  assert (Hl : edge_label p = lab).
  { unfold edge_label. rewrite Hr. unfold index in Hlab. rewrite (proj2 (Z.leb_le 0 (p - node))) in Hlab by lia.
    by destruct (md_labels s !! _); simplify_eq/=. }
  rewrite Hl. split; [done|]. split; [by apply (proj1 (list.Forall_forall _ _) no_star)|].
  unfold edge_child. rewrite Hr. split; [lia|]. unfold node_after, count_zeros, checked_add, select_ith_one.
  rewrite (proj2 (Z.ltb_lt (p + 1) (2 ^ 31))) by lia. cbn [mbind option_bind]. rewrite (rs_rank _ _ _ Hidx), Hsucc, Hb, Hr.
  replace (p + 1 - (node + 0)) with (p + 1 - node) by lia.
  rewrite (proj2 (Z.leb_gt (p + 1 - node) 0)), (proj2 (Z.leb_gt (md_node_count s) _)) by lia. cbn [orb].
  destruct (one_exists bm (p + 1 - node - 1) N ltac:(lia)) as (q & Hq & HqN). pose proof (lookup_lt_Some _ _ _ Hq).
  destruct (rs_skewed _ _ _ Hidx (p + 1 - node - 1)) as [_ Hsel]; [unfold len; lia|].
  rewrite aligned, Z.sub_0_r, Hq in Hsel by (apply Z.div_pos; lia). injection Hsel as ->. rewrite (proj2 (Z.ltb_lt (q + 1) (2 ^ 31))) by lia. cbn [mbind option_bind].
  unfold block_start. rewrite (proj2 (Z.eqb_neq (p + 1 - node) 0)), Hq by lia. done.
Qed.

Lemma scan_edges_find fuel c node i p e stack :
  0 <= node < md_node_count s -> ones bm !! Z.to_nat node = Some e -> block_start node <= p <= e ->
  (Z.to_nat (N - p) < fuel)%nat ->
  scan_edges s fuel c node i p stack
  = Ok (match List.find (decides c) (Z.of_nat <$> seq (Z.to_nat p) (Z.to_nat (e - p))) with
        | None => ScanEnd e stack
        | Some q => if edge_label q =? 43 then ScanReturn true else ScanEdge q stack
        end).
Proof using Hs no_star aligned.
  intros Hn He. pose proof (block_start_le node e Hn He). destruct (block_end node Hn) as (e' & He' & HeN).
  rewrite He in He'. injection He' as <-. revert p. induction fuel as [|fuel IH]; intros p Hp Hf; [lia|]. cbn [scan_edges].
  rewrite (proj2 (Z.ltb_ge p 0)), (proj2 (Z.leb_gt N p)) by lia. cbn [orb]. destruct (Z.eq_dec p e) as [->|Hne].
  - rewrite (one_bit bm _ e He), Z.sub_diag. done.
  - destruct (proj2 (block_spec node e p Hn He ltac:(lia))) as [Hb Hr]; [lia|]. rewrite Hb. cbn [negb Z.eqb].
    destruct (edge_facts node p ltac:(lia) Hb Hr) as (Hloc & Hlab & Hstar & _).
    rewrite (proj2 (Z.ltb_ge (p - node) 0)), (proj2 (Z.leb_gt (len (md_labels s)) _)), Hlab by lia. cbn [orb mbind outcome_bind].
    replace (Z.to_nat (e - p)) with (S (Z.to_nat (e - (p + 1)))) by lia. cbn [seq fmap list_fmap List.find].
    rewrite Z2Nat.id by lia. unfold decides at 1. destruct (edge_label p =? 43) eqn:H43; cbn [orb]; [by rewrite H43|].
    rewrite (proj2 (Z.eqb_neq _ _) Hstar). destruct (edge_label p =? c) eqn:Hc; [by rewrite H43|].
    rewrite IH by lia. replace (S (Z.to_nat p)) with (Z.to_nat (p + 1)) by lia. done.
Qed.

(** One round of the query is one step of the trie. *)
Lemma has_step_trie key node i :
  0 <= node < md_node_count s -> 0 <= i ->
  match has_step s key (mkHas node (block_start node) i []) with
  | inr r => r = Ok (trie_has node (drop (Z.to_nat i) key))
  | inl st => exists node', st = mkHas node' (block_start node') (i + 1) [] /\ 0 <= node' < md_node_count s
                /\ trie_has node (drop (Z.to_nat i) key) = trie_has node' (drop (Z.to_nat (i + 1)) key)
  end.
Proof using Hs no_star aligned.
  intros Hn Hi. unfold has_step. cbn [hs_i hs_bm_idx hs_node_id hs_stack]. destruct (Z.leb_spec (len key) i) as [Hl|Hl].
  - rewrite drop_ge by (unfold len in Hl; lia). cbn [trie_has]. unfold is_leaf. f_equal. destruct (get_bit_01 (md_leaves s) node) as [-> | ->]; done.
  - destruct (lookup_lt_is_Some_2 key (Z.to_nat i)) as [c Hc]; [unfold len in Hl; lia|]. unfold index.
    rewrite (proj2 (Z.leb_le 0 i)), Hc by lia. cbn [mbind outcome_bind]. destruct (block_end node Hn) as (e & He & HeN).
    pose proof (block_start_le node e Hn He). rewrite (scan_edges_find _ c node i _ e []) by (done || unfold SCAN_FUEL; lia).
    rewrite <- (edges_of_block node e Hn He). rewrite (drop_S _ _ _ Hc). cbn [trie_has].
    destruct (List.find _ _) as [p|] eqn:Hf; [|done]. destruct (edge_label p =? 43); [done|].
    apply List.find_some in Hf as [Hin _]. unfold edges_of in Hin. apply List.filter_In in Hin as [Hin Hbr].
    apply list_elem_of_In, list_elem_of_fmap in Hin as (k & -> & Hk%elem_of_seq).
    apply andb_prop in Hbr as [Hb%Z.eqb_eq Hr%Z.eqb_eq].
    destruct (edge_facts node (Z.of_nat k) ltac:(lia) Hb Hr) as (_ & _ & _ & Hch & ->).
    exists (edge_child (Z.of_nat k)). split_and!; [done|lia|lia|]. by replace (Z.to_nat (i + 1)) with (S (Z.to_nat i)) by lia.
Qed.
End trie.

(** ** What queries promise *)

Section claims.
Context `{CaseMapping}.

Lemma has_total s key : 0 <= md_effective_bitmap_bits s -> exists b, has s key = Ok b.
Proof.
  intros HN. unfold has. set (k := has_key key). destruct (len k =? 0); [eauto|]. pose proof (len_nonneg k).
  assert (Hok : has_ok k (mkHas 0 0 0 [])) by (split; [cbn; lia|constructor]).
  assert (Hstep : forall st, has_ok k st -> match has_step s k st with
    | inl st' => has_ok k st' /\ 0 <= has_cost s k st' < has_cost s k st | inr r => exists b, r = Ok b end)
    by (intros; by apply has_step_decreases).
  destruct (iter_until_leaves (has_step s k) (has_ok k) (has_cost s k)) with (p := HAS_ROUNDS s k) (s := mkHas 0 0 0 []) as [r Hr].
  - intros st st' Hst E. specialize (Hstep st Hst). by rewrite E in Hstep.
  - done.
  - pose proof (here_cost_le s k HN _ Hok ltac:(cbn; lia)) as Hle. cbn [hs_i] in Hle. unfold has_cost. cbn [hs_stack stack_cost foldr].
    unfold scan_cost in Hle. unfold HAS_ROUNDS.
    assert ((md_effective_bitmap_bits s + 2) ^ (len k - 0 + 1) < (md_effective_bitmap_bits s + 2) ^ (len k + 2)) by (apply Z.pow_lt_mono_r; lia).
    assert (0 < (md_effective_bitmap_bits s + 2) ^ (len k - 0 + 1)) by (apply Z.pow_pos_nonneg; lia).
    rewrite Z2Pos.id by lia. lia.
  - rewrite Hr.
    pose proof (iter_until_post (has_step s k) (has_ok k) (fun r => exists b, r = Ok b) (HAS_ROUNDS s k) (mkHas 0 0 0 [])) as Hp.
    rewrite Hr in Hp. apply Hp; [|done]. intros st Hst. specialize (Hstep st Hst). destruct (has_step s k st); [apply Hstep|done].
Qed.

(** A query on an accepted MRS domain set always returns an answer: for every name,
    with any wildcards in the set, the walk and its fallbacks end and no access is out of
    range.  The cost of a walk position bounds the cursors its scan can leave behind. *)
Theorem mrs_has_returns l s rest key :
  bytes_ok l -> domain_set_read l = Ok (s, rest) -> louds s /\ exists b, has s key = Ok b.
Proof.
  intros Hl E. apply domain_set_read_louds in E; [|done]. split; [done|]. apply has_total.
  destruct E as [_ Hn Hb _ _]. pose proof (len_nonneg (md_labels s)). lia.
Qed.

(** [C31] A query on an accepted MRS domain set answers as the trie the bitmap denotes:
    rank and select find the edges and children that counting gives.  It holds for a set
    without single-label wildcards whose select samples begin their words (in particular of
    at most 64 nodes), for every name. *)
Theorem mrs_has_is_trie l s rest key :
  bytes_ok l -> domain_set_read l = Ok (s, rest) ->
  Forall (fun x => x <> 42) (md_labels s) -> (forall b, 0 <= b -> skew (md_label_bitmap s) b = 0) ->
  has s key = Ok (negb (len (has_key key) =? 0) && trie_has s 0 (has_key key)).
Proof.
  intros Hl E Hstar Hal. apply domain_set_read_louds in E; [|done].
  assert (HN : 0 <= md_effective_bitmap_bits s) by (destruct E; pose proof (len_nonneg (md_labels s)); lia).
  assert (H0 : 0 <= 0 < md_node_count s) by (destruct E; pose proof (len_nonneg (md_labels s)); lia).
  destruct (has_total s key HN) as [b Hb]. rewrite Hb. revert Hb. unfold has. destruct (len (has_key key) =? 0); [by intros [= <-]|].
  cbn [negb andb]. set (k := has_key key).
  pose proof (iter_until_post (has_step s k)
    (fun st => exists node i, st = mkHas node (block_start s node) i [] /\ 0 <= node < md_node_count s /\ 0 <= i
       /\ trie_has s node (drop (Z.to_nat i) k) = trie_has s 0 k)
    (fun r => r = Ok (trie_has s 0 k)) (HAS_ROUNDS s k) (mkHas 0 0 0 [])) as Hpost.
  destruct (iter_until _ _ _) as [st|r]; [done|]. intros ->. apply Hpost.
  - intros st (node & i & -> & Hn & Hi & Ht). pose proof (has_step_trie s E Hstar Hal k node i Hn Hi) as Hs.
    destruct (has_step s k _) as [st|r']; [|by rewrite Hs, Ht].
    destruct Hs as (node' & -> & Hn' & Ht'). exists node', (i + 1). split_and!; [done|lia|lia|lia|congruence].
  - exists 0, 0. split_and!; done || lia.
Qed.
End claims.

(** ** A member that is missed *)

Definition i64_bytes (z : Z) : list Z := be_bytes 8 z.
Definition words_bytes (ws : list Z) : list Z := concat (be_bytes 8 <$> ws).
Definition encode_set (leaves bitmap labels : list Z) : list Z :=
  [1] ++ i64_bytes (len leaves) ++ words_bytes leaves ++ i64_bytes (len bitmap) ++ words_bytes bitmap
  ++ i64_bytes (len labels) ++ labels.

(** Lowercase of the ASCII letters *)
Definition ascii_mapping : CaseMapping := {| lowercase_first c := if in_range 65 90 c then c + 32 else 0 |}.

(** The 22 domains [cb.a] to [cb.v], as the converter of the format lays them out *)
Definition letters : list Z := Z.of_nat <$> seq 97 22.
Definition set22_labels : list Z := letters ++ replicate 22 46 ++ replicate 22 98 ++ replicate 22 99.
Definition set22 : list Z :=
  encode_set [0; 33554424] [6148914691235119104; 6148914691236517205; 562949908682069] set22_labels.

Definition set22_decoded : outcome MrsDomainSet := '(s, _) ← domain_set_read set22; Ok s.

(** The decoder accepts a set of 22 domains, all of which its trie holds, but the
    query misses two of them: their parent nodes come after the 64th, whose select sample
    is not the first set bit of its word, so [select32_r64] returns an earlier position. *)
Theorem mrs_has_misses_member :
  exists s, set22_decoded = Ok s
    /\ trie_has s 0 (str_bytes "u.bc") = true /\ trie_has s 0 (str_bytes "v.bc") = true
    /\ @has ascii_mapping s "cb.t" = Ok true
    /\ @has ascii_mapping s "cb.u" = Ok false /\ @has ascii_mapping s "cb.v" = Ok false
    /\ skew (md_label_bitmap s) 1 <> 0.
Proof.
  destruct set22_decoded as [s| |] eqn:E; [|by vm_compute in E|by vm_compute in E].
  vm_compute in E. injection E as <-. eexists. split; [reflexivity|]. vm_compute. repeat split; discriminate.
Qed.

(** The set of [*.x] and [abc.x] *)
Definition star_set : list Z := encode_set [72] [6858] (str_bytes "x.*cba").

(** A name that ends inside the trie is not tried against the wildcards passed on the way:
    [c.x] matches [*.x] and is not found, [d.x] is. *)
Theorem mrs_has_skips_wildcard :
  ('(s, _) ← domain_set_read star_set; a ← @has ascii_mapping s "abc.x"; b ← @has ascii_mapping s "d.x";
   c ← @has ascii_mapping s "c.x"; Ok (a, b, c)) = Ok (true, true, false).
Proof. vm_compute. reflexivity. Qed.

(** ** Witnesses *)

Module MrsTrieWitness.
#[local] Existing Instance ascii_mapping.

(** The set of [ab] *)
Definition small : list Z := encode_set [4] [26] (str_bytes "ba").
Definition small_set : outcome MrsDomainSet := '(s, _) ← domain_set_read small; Ok s.

Lemma mrs_has_returns_witness :
  match domain_set_read small with Ok (s, _) => exists b, has s "aB" = Ok b | _ => False end.
Proof.
  destruct (domain_set_read small) as [[s rest]| |] eqn:E; [|by vm_compute in E|by vm_compute in E].
  apply (mrs_has_returns small s rest "aB"); [|exact E]. vm_compute. repeat constructor; discriminate.
Defined.

Lemma mrs_has_is_trie_witness :
  match domain_set_read small with
  | Ok (s, _) => has s "aB" = Ok (negb (len (has_key "aB") =? 0) && trie_has s 0 (has_key "aB"))
  | _ => False
  end.
Proof.
  destruct (domain_set_read small) as [[s rest]| |] eqn:E; [|by vm_compute in E|by vm_compute in E].
  apply (mrs_has_is_trie small s rest "aB").
  - vm_compute. repeat constructor; discriminate.
  - exact E.
  - vm_compute in E. injection E as <- <-. repeat constructor; discriminate.
  - vm_compute in E. injection E as <- <-. intros b Hb. unfold skew. destruct (Z.eq_dec b 0) as [->|]; [reflexivity|].
    rewrite lookup_ge_None_2; [reflexivity|]. vm_compute (length _). lia.
Defined.
End MrsTrieWitness.
