(* ===== verification/MrsIpSet.v ===== *)
(** * IP sets of MRS files, and the MRS envelope
    ([core-ruleset/src/parser/mrs/ipcidr_set.rs], [mrs/mod.rs])

    A list of inclusive address ranges, IPv4 as IPv4-mapped IPv6, read into one sorted list
    per family and queried by binary search ([slice::binary_search_by] of the standard
    library, modelled as it is implemented).  The zstd decoder is the class [ZstdDecoder]. *)

From stdpp Require Import base list gmap strings numbers option.
From S2P Require Import Prelude Net CompactSet IpRange MrsBitmap MrsDomain MrsTrie.

Definition MRS_MAX_IP_RANGES : Z := 1024 * 1024.

Record MrsIpCidrSet : Type := mkIpCidrSet { mi_v4_ranges : list (Z * Z); mi_v6_ranges : list (Z * Z) }.

(** [Ipv6Addr::to_ipv4_mapped] *)
Definition unmap (b : list Z) : IpAddr :=
  let v := be_val b in if v / 2 ^ 32 =? 65535 then V4 (v mod 2 ^ 32) else V6 v.

Definition validate_range (from to : Z) (previous_end : option Z) : outcome unit :=
  if to <? from then Err InvalidData else
  match previous_end with
  | Some e =>
    if (from <=? e) || match checked_add 128 e 1 with Some next => from =? next | None => false end
    then Err InvalidData else Ok tt
  | None => Ok tt
  end.

Definition read_bounded_count (l : list Z) : outcome (Z * list Z) :=
  '(raw, l) ← read_i64_be l;
  if raw <=? 0 then Err InvalidData else
  if MRS_MAX_IP_RANGES <? raw then Err InvalidData else Ok (raw, l).

(** The variables of the loop of [read] *)
Record IpRead : Type := mkIpRead {
  ir_v4 : list (Z * Z); ir_v6 : list (Z * Z); ir_previous_v4_end : option Z; ir_previous_v6_end : option Z; ir_seen_v6 : bool
}.

Definition push_range (from to : IpAddr) (st : IpRead) : outcome IpRead :=
  match from, to with
  | V4 from, V4 to =>
    if ir_seen_v6 st then Err InvalidData else
    _ ← validate_range from to (ir_previous_v4_end st);
    Ok (mkIpRead (ir_v4 st ++ [(from, to)]) (ir_v6 st) (Some to) (ir_previous_v6_end st) (ir_seen_v6 st))
  | V6 from, V6 to =>
    _ ← validate_range from to (ir_previous_v6_end st);
    Ok (mkIpRead (ir_v4 st) (ir_v6 st ++ [(from, to)]) (ir_previous_v4_end st) (Some to) true)
  | _, _ => Err InvalidData
  end.

Fixpoint range_loop (n : nat) (l : list Z) (st : IpRead) : outcome (IpRead * list Z) :=
  match n with
  | O => Ok (st, l)
  | S n' =>
    '(b, l) ← read_full 16 l; let from := unmap b in
    '(b, l) ← read_full 16 l; let to := unmap b in
    st ← push_range from to st;
    range_loop n' l st
  end.

(** [MrsIpCidrSet::read] *)
Definition ipcidr_set_read (l : list Z) : outcome (MrsIpCidrSet * list Z) :=
  '(byte, l) ← read_full 1 l;
  version ← index byte 0;
  if negb (version =? 1) then Err Unsupported else
  '(count, l) ← read_bounded_count l;
  '(st, l) ← range_loop (Z.to_nat count) l (mkIpRead [] [] None None false);
  Ok (mkIpCidrSet (ir_v4 st) (ir_v6 st), l).

(** The closure of [contains_range] *)
Definition range_cmp (ip : Z) (r : Z * Z) : comparison :=
  if ip <? r.1 then Gt else if r.2 <? ip then Lt else Eq.

(** [slice::binary_search_by(..).is_ok()]: [while size > 1], then the last comparison *)
Fixpoint search_loop {A} (fuel : nat) (cmp : A -> comparison) (l : list A) (base size : Z) : outcome Z :=
  match fuel with
  | O => Panic
  | S fuel' =>
    if size <=? 1 then Ok base else
    let half := size / 2 in
    let mid := base + half in
    x ← index l mid;
    search_loop fuel' cmp l (match cmp x with Gt => base | _ => mid end) (size - half)
  end.

Definition binary_search_by {A} (cmp : A -> comparison) (l : list A) : outcome bool :=
  if len l =? 0 then Ok false else
  base ← search_loop (S (length l)) cmp l 0 (len l);
  x ← index l base;
  Ok (match cmp x with Eq => true | _ => false end).

Definition contains_range (ranges : list (Z * Z)) (ip : Z) : outcome bool := binary_search_by (range_cmp ip) ranges.

Definition mrs_contains (s : MrsIpCidrSet) (ip : IpAddr) : outcome bool :=
  match ip with
  | V4 a => contains_range (mi_v4_ranges s) a
  | V6 a => contains_range (mi_v6_ranges s) a
  end.

(** ** The file *)

Definition MRS_MAX_COMPRESSED_BYTES : Z := 64 * 1024 * 1024.
Definition MRS_MAX_DECOMPRESSED_BYTES : Z := 128 * 1024 * 1024.
Definition MAX_DECLARED_ITEMS : Z := 16 * 1024 * 1024.
Definition MAX_EXTRA_BYTES : Z := 4 * 1024 * 1024.

Inductive MrsPayload : Type :=
| PayloadDomain (set : MrsDomainSet) (count : Z)
| PayloadIpCidr (set : MrsIpCidrSet) (count : Z).

(** [discard_exact]: the chunks of 16 KiB add up to one read. *)
Definition discard_exact (length : Z) (l : list Z) : outcome (list Z) :=
  '(_, l) ← read_full length l; Ok l.

Definition parse_decompressed (decoded : list Z) : outcome MrsPayload :=
  '(magic, l) ← read_full 4 decoded;
  if negb (bool_decide (magic = [77; 82; 83; 1])) then Err Unsupported else
  '(bb, l) ← read_full 1 l;
  behavior ← index bb 0;
  '(count, l) ← read_bounded_len MAX_DECLARED_ITEMS true l;
  '(extra_len, l) ← read_bounded_len MAX_EXTRA_BYTES true l;
  l ← discard_exact extra_len l;
  '(payload, l) ←
    (if behavior =? 0 then '(set, l) ← domain_set_read l; Ok (PayloadDomain set count, l)
     else if behavior =? 1 then '(set, l) ← ipcidr_set_read l; Ok (PayloadIpCidr set count, l)
     else Err Unsupported);
  if negb (len l =? 0) then Err InvalidData else Ok payload.

(** [ruzstd]'s [StreamingDecoder]: the declared size, reads into a 16 KiB buffer (an empty
    one at the end of the frame), and the position in the source afterwards *)
Class ZstdDecoder := {
  Zstd : Type;
  zstd_new : list Z -> option Zstd;
  zstd_content_size : Zstd -> Z;
  zstd_read : Zstd -> option (list Z * Zstd);
  zstd_position : Zstd -> Z;
  zstd_read_bytes : forall d out d', zstd_read d = Some (out, d') -> bytes_ok out
}.

Section envelope.
Context `{ZstdDecoder}.

(** The body of the [loop]; leaving it keeps the decoder. *)
Definition zstd_step (maximum : Z) (st : Zstd * list Z) : (Zstd * list Z) + outcome (Zstd * list Z) :=
  match zstd_read st.1 with
  | None => inr (Err InvalidData)
  | Some (produced, d) =>
    if len produced =? 0 then inr (Ok (d, st.2)) else
    match checked_add 64 (len st.2) (len produced) with
    | None => inr (Err InvalidData)
    | Some new_length => if maximum <? new_length then inr (Err InvalidData) else inl (d, st.2 ++ produced)
    end
  end.

Definition decompress_zstd_bounded (body : list Z) (maximum : Z) : outcome (list Z) :=
  d ← ok_or (zstd_new body) InvalidData;
  if negb (zstd_content_size d =? 0) && (maximum <? zstd_content_size d) then Err InvalidData else
  '(d, output) ←
    match iter_until (Z.to_pos (maximum + 2)) (zstd_step maximum) (d, []) with inr r => r | inl _ => Panic end;
  if negb (zstd_position d =? len body) then Err InvalidData else Ok output.

Definition mrs_parse (body : list Z) : outcome MrsPayload :=
  if MRS_MAX_COMPRESSED_BYTES <? len body then Err InvalidData else
  decoded ← decompress_zstd_bounded body MRS_MAX_DECOMPRESSED_BYTES;
  parse_decompressed decoded.
End envelope.

(** ** Binary search *)

Section search.
Context {A : Type} (cmp : A -> comparison) (l : list A).

Definition hit (k : nat) : Prop := exists x, l !! k = Some x /\ cmp x = Eq.

(** The list is sorted with respect to the query: what is found lies below an element that
    compares greater, and at or above one that does not. *)
Hypothesis sorted : forall k m x, hit k -> l !! m = Some x -> match cmp x with Gt => (k < m)%nat | _ => (m <= k)%nat end.

Lemma search_loop_spec fuel base size :
  0 <= base -> 1 <= size -> base + size <= len l -> size <= Z.of_nat fuel ->
  (forall k, hit k -> base <= Z.of_nat k < base + size) ->
  exists b, search_loop fuel cmp l base size = Ok b /\ 0 <= b < len l /\ forall k, hit k -> Z.of_nat k = b.
Proof using sorted.
  revert base size. induction fuel as [|fuel IH]; intros base size Hb Hs Hl Hf Hk; [lia|]. cbn [search_loop].
  destruct (Z.leb_spec size 1) as [H1|H1].
  { exists base. split; [done|]. split; [lia|]. intros k Hh. specialize (Hk k Hh). lia. }
  pose proof (Z.div_mod size 2). pose proof (Z.mod_pos_bound size 2).
  destruct (lookup_lt_is_Some_2 l (Z.to_nat (base + size / 2))) as [x Hx]; [unfold len in Hl; lia|].
  unfold index. rewrite (proj2 (Z.leb_le 0 (base + size / 2))), Hx by lia. cbn [mbind outcome_bind].
  apply IH; [destruct (cmp x); lia|lia|destruct (cmp x); lia|lia|].
  intros k Hh. pose proof (Hk k Hh). pose proof (sorted k _ x Hh Hx) as Hord. destruct (cmp x); lia.
Qed.

Lemma binary_search_spec :
  binary_search_by cmp l = Ok (existsb (fun x => match cmp x with Eq => true | _ => false end) l).
Proof using sorted.
  unfold binary_search_by. destruct (Z.eqb_spec (len l) 0) as [E|E]; [by rewrite (len_zero_nil l E)|].
  pose proof (len_nonneg l).
  destruct (search_loop_spec (S (length l)) 0 (len l)) as (b & -> & Hb & Hk); [lia|lia|lia|unfold len; lia| |].
  { intros k (x & Hx%lookup_lt_Some & _). unfold len. lia. }
  cbn [mbind outcome_bind]. destruct (lookup_lt_is_Some_2 l (Z.to_nat b)) as [x Hx]; [unfold len in Hb; lia|].
  unfold index. rewrite (proj2 (Z.leb_le 0 b)), Hx by lia. cbn [mbind outcome_bind]. f_equal.
  apply eq_true_iff_eq. rewrite existsb_exists. split.
  - intros Hc. exists x. split; [by apply list_elem_of_In, list_elem_of_lookup_2 with (Z.to_nat b)|done].
  - intros (y & Hy & Hc). apply list_elem_of_In, list_elem_of_lookup_1 in Hy as [k Hy].
    assert (Hh : hit k) by (exists y; split; [done|by destruct (cmp y)]). specialize (Hk k Hh). subst b.
    rewrite Nat2Z.id, Hy in Hx. by injection Hx as ->.
Qed.
End search.

Lemma existsb_ext {A} (f g : A -> bool) l : (forall x, f x = g x) -> existsb f l = existsb g l.
Proof. intros Hfg. induction l as [|x l IH]; [done|]. cbn. by rewrite Hfg, IH. Qed.

(** Ascending, disjoint ranges *)
Definition ranges_sorted (l : list (Z * Z)) : Prop :=
  Forall (fun r => r.1 <= r.2) l /\ forall i j a b, l !! i = Some a -> l !! j = Some b -> (i < j)%nat -> a.2 < b.1.

Definition in_z_range (ip : Z) (r : Z * Z) : bool := (r.1 <=? ip) && (ip <=? r.2).

Lemma contains_range_spec l ip : ranges_sorted l -> contains_range l ip = Ok (existsb (in_z_range ip) l).
Proof.
  intros [Hle Hs]. unfold contains_range. rewrite binary_search_spec.
  - f_equal. apply existsb_ext. intros r. unfold range_cmp, in_z_range. destruct (Z.ltb_spec ip r.1), (Z.ltb_spec r.2 ip); lia.
  - intros k m x (y & Hy & Hc) Hx. unfold range_cmp in *. rewrite list.Forall_forall in Hle.
    pose proof (Hle x (list_elem_of_lookup_2 _ _ _ Hx)). pose proof (Hle y (list_elem_of_lookup_2 _ _ _ Hy)).
    destruct (Z.ltb_spec ip y.1); [done|]. destruct (Z.ltb_spec y.2 ip); [done|].
    destruct (Z.ltb_spec ip x.1); [|destruct (_ <? ip)]; destruct (decide (k = m)) as [->|];
      simplify_eq; try lia; destruct (decide (k < m)%nat); try lia;
      first [pose proof (Hs k m y x Hy Hx ltac:(lia)) | pose proof (Hs m k x y Hx Hy ltac:(lia))]; lia.
Qed.

(** ** Accepted sets are sorted *)

(** What the reader knows of a family: its ranges are sorted, and none ends after [previous]. *)
Definition chained (l : list (Z * Z)) (previous : option Z) : Prop :=
  ranges_sorted l /\ match previous with None => l = [] | Some e => Forall (fun r => r.2 <= e) l end.

Lemma chained_push l previous from to :
  chained l previous -> validate_range from to previous = Ok tt -> chained (l ++ [(from, to)]) (Some to).
Proof.
  intros [[Hle Hs] Hp] Hv. unfold validate_range in Hv. destruct (Z.ltb_spec to from) as [|Hft]; [done|].
  assert (Hlt : Forall (fun r => r.2 < from) l).
  { destruct previous as [e|]; [|rewrite Hp; constructor]. destruct (_ || _) eqn:E; [done|].
    apply orb_false_elim in E as [E%Z.leb_gt _]. eapply Forall_impl; [|exact Hp]. cbn. lia. }
  split; [split|].
  - apply Forall_app_2; [done|]. by constructor.
  - intros i j a b Hi Hj Hij. apply lookup_app_Some in Hj as [Hj|[Hlen Hj]].
    + rewrite lookup_app_l in Hi by (apply lookup_lt_Some in Hj; lia). by apply (Hs i j).
    + apply list_lookup_singleton_Some in Hj as [Hj <-]. rewrite lookup_app_l in Hi by lia.
      cbn. rewrite list.Forall_forall in Hlt. by apply Hlt, list_elem_of_lookup_2 with i.
  - apply Forall_app_2; [eapply Forall_impl; [|exact Hlt]; cbn; lia|]. constructor; [cbn; lia|constructor].
Qed.

Definition read_ok (st : IpRead) : Prop :=
  chained (ir_v4 st) (ir_previous_v4_end st) /\ chained (ir_v6 st) (ir_previous_v6_end st).

Lemma push_range_ok from to st st' : read_ok st -> push_range from to st = Ok st' -> read_ok st'.
Proof.
  intros [H4 H6] E. unfold push_range in E. destruct from as [f|f], to as [t|t]; [|done|done|].
  - destruct (ir_seen_v6 st); [done|]. apply bind_Ok in E as ([] & Hv & [= <-]). split; [|done]. by eapply chained_push.
  - apply bind_Ok in E as ([] & Hv & [= <-]). split; [done|]. by eapply chained_push.
Qed.

Lemma range_loop_ok n l st st' l' : read_ok st -> range_loop n l st = Ok (st', l') -> read_ok st'.
Proof.
  revert l st. induction n as [|n IH]; intros l st Hst E; cbn [range_loop] in E; [by injection E as <- _|].
  apply bind_Ok in E as ([b l1] & _ & E). apply bind_Ok in E as ([b2 l2] & _ & E). apply bind_Ok in E as (st1 & Hp & E).
  apply (IH l2 st1); [by eapply push_range_ok|done].
Qed.

Lemma ipcidr_set_read_sorted l s rest :
  ipcidr_set_read l = Ok (s, rest) -> ranges_sorted (mi_v4_ranges s) /\ ranges_sorted (mi_v6_ranges s).
Proof.
  unfold ipcidr_set_read. intros E. apply bind_Ok in E as ([b l1] & _ & E). apply bind_Ok in E as (v & _ & E).
  destruct (negb _); [done|]. apply bind_Ok in E as ([count l2] & _ & E). apply bind_Ok in E as ([st l3] & El & E).
  injection E as <- <-. apply range_loop_ok in El as [[H4 _] [H6 _]]; [done|].
  split; (split; [split; [constructor|by intros []]|done]).
Qed.

(** ** Reading an encoding back *)

(** An address as 16 bytes, IPv4 mapped *)
Definition map16 (ip : IpAddr) : list Z := be_bytes 16 (match ip with V4 a => 65535 * 2 ^ 32 + a | V6 a => a end).
Definition not_mapped (ip : IpAddr) : Prop := match ip with V4 _ => True | V6 a => a / 2 ^ 32 <> 65535 end.

Definition encode_ranges (ranges : list (IpAddr * IpAddr)) : list Z :=
  concat ((fun r => map16 r.1 ++ map16 r.2) <$> ranges).
Definition encode_ip_ranges (ranges : list (IpAddr * IpAddr)) : list Z :=
  [1] ++ be_bytes 8 (len ranges) ++ encode_ranges ranges.

Definition gap (previous : option Z) (from : Z) : bool := match previous with Some e => e + 1 <? from | None => true end.

(** IPv4 before IPv6; within a family ascending, disjoint and not adjacent *)
Fixpoint apart (seen_v6 : bool) (p4 p6 : option Z) (ranges : list (IpAddr * IpAddr)) : bool :=
  match ranges with
  | [] => true
  | (V4 f, V4 t) :: r => negb seen_v6 && (f <=? t) && gap p4 f && apart seen_v6 (Some t) p6 r
  | (V6 f, V6 t) :: r => (f <=? t) && gap p6 f && apart true p4 (Some t) r
  | _ => false
  end.

Definition family (v4 : bool) (ranges : list (IpAddr * IpAddr)) : list (Z * Z) :=
  (fun r => (ip_value r.1, ip_value r.2)) <$> List.filter (fun r => eqb (is_ipv4 r.1) v4) ranges.

Lemma unmap_map16 ip : ip_ok ip -> not_mapped ip -> unmap (map16 ip) = ip.
Proof.
  unfold unmap, map16. destruct ip as [a|a]; cbn [ip_ok not_mapped]; unfold uint; intros Ha Hm.
  - rewrite be_val_be_bytes_small, (Z.add_comm (65535 * 2 ^ 32) a), Z.div_add, (Z.div_small a), Z.mod_add, Z.mod_small by lia. done.
  - rewrite be_val_be_bytes_small by lia. by rewrite (proj2 (Z.eqb_neq _ _) Hm).
Qed.

Lemma read_full_app b l n : len b = n -> read_full n (b ++ l) = Ok (b, l).
Proof.
  intros <-. unfold read_full. rewrite (proj2 (Z.leb_le _ _)) by (rewrite len_app; pose proof (len_nonneg l); lia).
  unfold len. rewrite Nat2Z.id, take_app_length, drop_app_length. done.
Qed.

Lemma validate_range_ok f t p : f <= t -> gap p f = true -> (forall e, p = Some e -> 0 <= e) -> validate_range f t p = Ok tt.
Proof.
  intros Hft Hg He. unfold validate_range. rewrite (proj2 (Z.ltb_ge t f)) by lia. destruct p as [e|]; [|done]. cbn in Hg.
  unfold checked_add. rewrite (proj2 (Z.leb_gt f e)) by lia. cbn [orb]. destruct (_ <? 2 ^ 128); [|done].
  by rewrite (proj2 (Z.eqb_neq f (e + 1))) by lia.
Qed.

Lemma len_map16 ip : len (map16 ip) = 16.
Proof. apply len_be_bytes. Qed.

#[local] Opaque map16 read_full unmap.

Lemma outcome_bind_Ok {A B} (a : A) (f : A -> outcome B) : (x ← Ok a; f x) = f a.
Proof. reflexivity. Qed.

Definition addr_ok (ip : IpAddr) : Prop := ip_ok ip /\ not_mapped ip.

Lemma range_loop_cons from to n l st :
  addr_ok from -> addr_ok to ->
  range_loop (S n) (map16 from ++ map16 to ++ l) st = (st ← push_range from to st; range_loop n l st).
Proof.
  intros [Hf Hmf] [Ht Hmt]. cbn [range_loop].
  rewrite (read_full_app (map16 from)), outcome_bind_Ok by apply len_map16.
  rewrite (read_full_app (map16 to)), outcome_bind_Ok by apply len_map16.
  rewrite (unmap_map16 from), (unmap_map16 to) by assumption. reflexivity.
Qed.

Lemma encode_ranges_cons from to ranges : encode_ranges ((from, to) :: ranges) = map16 from ++ map16 to ++ encode_ranges ranges.
Proof. unfold encode_ranges. cbn [fmap list_fmap concat fst snd]. by rewrite <- app_assoc. Qed.

(** The bounds read so far are not negative. *)
Definition ends_ok (st : IpRead) : Prop :=
  (forall e, ir_previous_v4_end st = Some e -> 0 <= e) /\ (forall e, ir_previous_v6_end st = Some e -> 0 <= e).

Definition apart_from (st : IpRead) (ranges : list (IpAddr * IpAddr)) : bool :=
  apart (ir_seen_v6 st) (ir_previous_v4_end st) (ir_previous_v6_end st) ranges.

Lemma push_range_apart from to ranges st :
  addr_ok from -> addr_ok to -> ends_ok st -> apart_from st ((from, to) :: ranges) = true ->
  exists st', push_range from to st = Ok st' /\ ends_ok st' /\ apart_from st' ranges = true
    /\ ir_v4 st' = ir_v4 st ++ family true [(from, to)] /\ ir_v6 st' = ir_v6 st ++ family false [(from, to)].
Proof.
  intros [Hf _] [Ht _] [H4 H6] Ha. unfold apart_from in Ha. unfold push_range.
  destruct from as [f|f], to as [t|t]; cbn [apart] in Ha; try discriminate Ha; cbn [ip_ok] in Hf, Ht; unfold uint in Hf, Ht.
  - apply andb_prop in Ha as [Ha Hrest]. apply andb_prop in Ha as [Ha Hgap]. apply andb_prop in Ha as [Hseen%negb_true_iff Hft%Z.leb_le].
    rewrite Hseen, validate_range_ok by done. eexists. split; [reflexivity|].
    split; [split; cbn; [intros e [= <-]; lia|done]|]. split; [by rewrite Hseen in Hrest|]. split; [reflexivity|by rewrite app_nil_r].
  - apply andb_prop in Ha as [Ha Hrest]. apply andb_prop in Ha as [Hft%Z.leb_le Hgap].
    rewrite validate_range_ok by done. eexists. split; [reflexivity|].
    split; [split; cbn; [done|intros e [= <-]; lia]|]. split; [done|]. split; [by rewrite app_nil_r|reflexivity].
Qed.

Lemma family_cons v4 r ranges : family v4 (r :: ranges) = family v4 [r] ++ family v4 ranges.
Proof. unfold family. cbn [List.filter]. by destruct (eqb (is_ipv4 r.1) v4). Qed.

Lemma range_loop_encoded ranges l st :
  Forall (fun r => addr_ok r.1 /\ addr_ok r.2) ranges -> apart_from st ranges = true -> ends_ok st ->
  exists st', range_loop (length ranges) (encode_ranges ranges ++ l) st = Ok (st', l)
    /\ ir_v4 st' = ir_v4 st ++ family true ranges /\ ir_v6 st' = ir_v6 st ++ family false ranges.
Proof.
  intros Hr. revert st. induction Hr as [|[from to] ranges [Hf Ht] Hr IH]; intros st Ha He.
  - exists st. split; [done|]. unfold family. cbn. by rewrite !app_nil_r.
  - destruct (push_range_apart from to ranges st Hf Ht He Ha) as (st1 & Hp & He1 & Ha1 & E4 & E6).
    destruct (IH st1 Ha1 He1) as (st' & E & F4 & F6). exists st'. rewrite (family_cons true (from, to) ranges), (family_cons false (from, to) ranges), F4, F6, E4, E6, <- !app_assoc.
    split; [|done]. cbn [length]. rewrite encode_ranges_cons, <- !app_assoc, range_loop_cons, Hp by done. exact E.
Qed.

Lemma family_exists v4 ranges ip :
  Forall (fun r => is_ipv4 r.1 = is_ipv4 r.2) ranges -> is_ipv4 ip = v4 ->
  existsb (in_z_range (ip_value ip)) (family v4 ranges) = existsb (in_range_of ip) ranges.
Proof.
  intros Hf Hv. unfold family. induction Hf as [|r ranges Hr Hf IH]; [done|]. cbn. unfold in_range_of at 1. rewrite Hv.
  destruct (eqb (is_ipv4 r.1) v4); cbn; rewrite IH; done.
Qed.

Lemma apart_families seen p4 p6 ranges : apart seen p4 p6 ranges = true -> Forall (fun r => is_ipv4 r.1 = is_ipv4 r.2) ranges.
Proof.
  revert seen p4 p6. induction ranges as [|[from to] ranges IH]; intros seen p4 p6 Ha; [constructor|].
  destruct from, to; cbn [apart] in Ha; try discriminate Ha; apply andb_prop in Ha as [_ Ha];
    (constructor; [reflexivity|by eapply IH]).
Qed.

(** MRS IP sets are exact.  For every input the reader accepts, the binary search
    answers as a linear scan of the ranges does.  And any list of ranges in the order of the
    format, of either family, encoded with IPv4 mapped into IPv6, is accepted, read in full,
    and the set contains exactly the addresses of the ranges. *)
Theorem mrs_ip_set_exact :
  (forall l s rest ip, ipcidr_set_read l = Ok (s, rest) ->
     mrs_contains s ip = Ok (existsb (in_z_range (ip_value ip)) (if is_ipv4 ip then mi_v4_ranges s else mi_v6_ranges s)))
  /\ (forall ranges rest,
     Forall (fun r => addr_ok r.1 /\ addr_ok r.2) ranges ->
     apart false None None ranges = true -> 0 < len ranges <= MRS_MAX_IP_RANGES ->
     exists s, ipcidr_set_read (encode_ip_ranges ranges ++ rest) = Ok (s, rest)
       /\ forall ip, mrs_contains s ip = Ok (existsb (in_range_of ip) ranges)).
Proof.
  assert (Hlin : forall l s rest ip, ipcidr_set_read l = Ok (s, rest) ->
     mrs_contains s ip = Ok (existsb (in_z_range (ip_value ip)) (if is_ipv4 ip then mi_v4_ranges s else mi_v6_ranges s))).
  { intros l s rest ip [H4 H6]%ipcidr_set_read_sorted. destruct ip; by apply contains_range_spec. }
  split; [done|]. intros ranges rest Hr Ha Hn.
  destruct (range_loop_encoded ranges rest (mkIpRead [] [] None None false) Hr Ha ltac:(done)) as (st & E & E4 & E6).
  assert (Hread : ipcidr_set_read (encode_ip_ranges ranges ++ rest) = Ok (mkIpCidrSet (ir_v4 st) (ir_v6 st), rest)).
  { unfold ipcidr_set_read, encode_ip_ranges. rewrite <- !app_assoc, read_full_app by done. cbn [mbind outcome_bind].
    change (index [1] 0) with (Ok 1). cbn [mbind outcome_bind Z.eqb Pos.eqb negb]. unfold read_bounded_count, read_i64_be.
    rewrite read_full_app by apply len_be_bytes. cbn [mbind outcome_bind]. unfold MRS_MAX_IP_RANGES in *.
    rewrite be_val_be_bytes_small by lia. rewrite (proj2 (Z.ltb_lt (len ranges) (2 ^ 63))) by lia.
    rewrite (proj2 (Z.leb_gt _ _)), (proj2 (Z.ltb_ge _ _)) by lia. cbn [mbind outcome_bind]. unfold len. rewrite Nat2Z.id, E. done. }
  eexists. split; [exact Hread|]. intros ip. rewrite (Hlin _ _ _ ip Hread). f_equal. cbn in E4, E6. cbn [mi_v4_ranges mi_v6_ranges].
  rewrite E4, E6. pose proof (apart_families _ _ _ _ Ha) as Hf. destruct (is_ipv4 ip) eqn:Hv; by apply family_exists.
Qed.

(** ** Decoding never panics *)

Lemma no_panic_read_full n l : no_panic (read_full n l).
Proof. Transparent read_full. unfold read_full. by destruct (_ <=? _). Opaque read_full. Qed.

Lemma no_panic_read_i64 l : no_panic (read_i64_be l).
Proof. unfold read_i64_be. apply no_panic_bind; [apply no_panic_read_full|]. by intros [b l'] _. Qed.

Lemma no_panic_bounded_len m z l : no_panic (read_bounded_len m z l).
Proof. unfold read_bounded_len. apply no_panic_bind; [apply no_panic_read_i64|]. intros [raw l'] _. by repeat case_match. Qed.

Lemma no_panic_u64_vec n l : no_panic (read_u64_vec_be n l).
Proof.
  revert l. induction n as [|n IH]; intros l; [done|]. cbn [read_u64_vec_be].
  apply no_panic_bind; [apply no_panic_read_full|]. intros [b l'] _. apply no_panic_bind; [apply IH|]. by intros [ws l''] _.
Qed.
#[local] Hint Resolve no_panic_read_full no_panic_read_i64 no_panic_bounded_len no_panic_u64_vec : wuther.

(** The reads of one byte return one. *)
Lemma no_panic_version {B} l (k : Z -> list Z -> outcome B) :
  (forall v l', no_panic (k v l')) -> no_panic ('(byte, l) ← read_full 1 l; v ← index byte 0; k v l).
Proof.
  intros Hk. apply no_panic_bind; [apply no_panic_read_full|]. intros [b l'] E. apply no_panic_bind; [|intros; apply Hk].
  apply no_panic_index. Transparent read_full. unfold read_full in E. Opaque read_full.
  destruct (Z.leb_spec 1 (len l)); [|done]. injection E as <- <-. rewrite (len_take 1 l) by lia. lia.
Qed.

Section no_panic.
Variables (leaves bm labels : list Z) (eff : Z).

Lemma sibling_loop_np fuel depth prev n v :
  0 <= vl_edge v -> (Z.to_nat (eff - vl_bit v) < fuel)%nat ->
  no_panic (sibling_loop bm labels eff fuel depth prev n v)
  /\ forall n' v', sibling_loop bm labels eff fuel depth prev n v = Ok (n', v') -> 0 <= vl_edge v'.
Proof.
  revert prev n v. induction fuel as [|fuel IH]; intros prev n v He Hf; [lia|]. cbn [sibling_loop].
  destruct (Z.leb_spec eff (vl_bit v)); [done|]. destruct (negb _); [split; [done|]; by intros n' v' [= _ <-]|].
  destruct (Z.leb_spec (len labels) (vl_edge v)); [done|].
  destruct (index_ok labels (vl_edge v) ltac:(lia)) as (lab & -> & _). cbn [mbind outcome_bind].
  match goal with |- no_panic (if ?b then _ else _) /\ _ => destruct b; [done|] end. destruct (_ <? _); [done|].
  apply IH; cbn; lia.
Qed.

Lemma validate_nodes_np nodes k v : 0 <= vl_edge v -> no_panic (validate_nodes leaves bm labels eff nodes k v).
Proof.
  revert k v. induction nodes as [|nodes IH]; intros k v He; [done|]. cbn [validate_nodes].
  destruct (vl_depths v !! Z.to_nat k); [|done]. cbn [ok_or mbind outcome_bind].
  destruct (sibling_loop_np (S (Z.to_nat (eff - vl_bit v))) z None 0 v He ltac:(lia)) as [Hn Hv].
  apply no_panic_bind; [done|]. intros [n' v'] E. destruct (_ && _); [done|]. apply IH. by eapply Hv.
Qed.
End no_panic.

Lemma no_panic_validate leaves bm labels : no_panic (validate_succinct_set leaves bm labels).
Proof.
  unfold validate_succinct_set. apply no_panic_bind; [apply no_panic_ok_or|]. intros nc _.
  do 6 (apply no_panic_if; intros _; [done|]). apply no_panic_bind; [by apply validate_nodes_np|].
  intros v _. by apply no_panic_if.
Qed.

Lemma no_panic_domain_set l : bytes_ok l -> no_panic (domain_set_read l).
Proof.
  intros Hl. unfold domain_set_read. apply no_panic_bind; [apply no_panic_read_full|]. intros [b l1] E1.
  destruct (read_full_bytes 1 l b l1 Hl ltac:(lia) E1) as (_ & Hb & Hl1).
  apply no_panic_bind; [apply no_panic_index; lia|]. intros v _. apply no_panic_if; intros _; [done|].
  apply no_panic_bind; [apply no_panic_bounded_len|]. intros [n l2] E2. apply read_bounded_len_inv in E2 as [_ Hl2]; [|done].
  apply no_panic_bind; [apply no_panic_u64_vec|]. intros [leaves l3] E3. apply read_u64_vec_inv in E3 as (_ & _ & Hl3); [|done].
  apply no_panic_bind; [apply no_panic_bounded_len|]. intros [m l4] E4. apply read_bounded_len_inv in E4 as [Hm Hl4]; [|done].
  apply no_panic_bind; [apply no_panic_u64_vec|]. intros [bm l5] E5. apply read_u64_vec_inv in E5 as (Hbm & Hbl & Hl5); [|done].
  apply no_panic_bind; [apply no_panic_bounded_len|]. intros [k l6] _. apply no_panic_bind; [apply no_panic_read_full|]. intros [labels l7] _.
  apply no_panic_bind; [apply no_panic_validate|]. intros [nodes eff] _.
  destruct (index_select32_r64_ok bm Hbm) as (ss & rs & -> & _); [|done]. by apply (bitmap_words_room m).
Qed.

Lemma no_panic_ipcidr_set l : no_panic (ipcidr_set_read l).
Proof.
  unfold ipcidr_set_read. apply no_panic_version. intros v l1. apply no_panic_if; intros _; [done|].
  apply no_panic_bind.
  { unfold read_bounded_count. apply no_panic_bind; [apply no_panic_read_i64|]. intros [raw l'] _. by repeat case_match. }
  intros [count l2] _. apply no_panic_bind; [|by intros [st l3] _]. generalize (mkIpRead [] [] None None false). revert l2.
  induction (Z.to_nat count) as [|n IH]; intros l2 st; [done|]. cbn [range_loop].
  apply no_panic_bind; [apply no_panic_read_full|]. intros [b l3] _. apply no_panic_bind; [apply no_panic_read_full|]. intros [b' l4] _.
  apply no_panic_bind; [|intros; apply IH]. unfold push_range, validate_range. by repeat case_match.
Qed.

Lemma no_panic_parse_decompressed l : bytes_ok l -> no_panic (parse_decompressed l).
Proof.
  intros Hl. unfold parse_decompressed. apply no_panic_bind; [apply no_panic_read_full|]. intros [b l1] E1.
  destruct (read_full_bytes 4 l b l1 Hl ltac:(lia) E1) as (_ & _ & Hl1). apply no_panic_if; intros _; [done|].
  apply no_panic_bind; [apply no_panic_read_full|]. intros [bb l2] E2.
  destruct (read_full_bytes 1 l1 bb l2 Hl1 ltac:(lia) E2) as (_ & Hbb & Hl2).
  apply no_panic_bind; [apply no_panic_index; lia|]. intros behavior _.
  apply no_panic_bind; [apply no_panic_bounded_len|]. intros [count l3] E3. apply read_bounded_len_inv in E3 as [_ Hl3]; [|done].
  apply no_panic_bind; [apply no_panic_bounded_len|]. intros [extra l4] E4. apply read_bounded_len_inv in E4 as [He Hl4]; [|done].
  apply no_panic_bind.
  { unfold discard_exact. apply no_panic_bind; [apply no_panic_read_full|]. by intros [? ?] _. }
  intros l5 E5. unfold discard_exact in E5. apply bind_Ok in E5 as ([x l6] & E5 & [= <-]).
  destruct (read_full_bytes extra l4 x l6 Hl4 ltac:(lia) E5) as (_ & _ & Hl6).
  apply no_panic_bind; [|intros [p l7] _; by apply no_panic_if].
  apply no_panic_if; intros _; [|apply no_panic_if; intros _; [|done]].
  - apply no_panic_bind; [by apply no_panic_domain_set|]. by intros [? ?] _.
  - apply no_panic_bind; [by apply no_panic_ipcidr_set|]. by intros [? ?] _.
Qed.

Section envelope_safe.
Context `{ZstdDecoder}.

Lemma zstd_step_decreases maximum st st' :
  bytes_ok st.2 /\ len st.2 <= maximum -> zstd_step maximum st = inl st' ->
  (bytes_ok st'.2 /\ len st'.2 <= maximum) /\ 0 <= maximum - len st'.2 < maximum - len st.2.
Proof.
  intros [Hb Hm] E. unfold zstd_step in E. destruct (zstd_read st.1) as [[out d]|] eqn:Er; [|done].
  pose proof (len_nonneg out). destruct (Z.eqb_spec (len out) 0); [done|]. destruct (checked_add _ _ _) as [total|] eqn:Ec; [|done].
  apply checked_add_Some in Ec as [_ ->]. destruct (Z.ltb_spec maximum (len st.2 + len out)); [done|]. injection E as <-. cbn [snd].
  rewrite len_app. split; [split; [|lia]|lia]. apply Forall_app_2; [done|]. by eapply zstd_read_bytes.
Qed.

Lemma decompress_zstd_ok body maximum :
  0 <= maximum -> no_panic (decompress_zstd_bounded body maximum)
  /\ forall out, decompress_zstd_bounded body maximum = Ok out -> bytes_ok out /\ len out <= maximum.
Proof.
  intros Hm. unfold decompress_zstd_bounded. destruct (zstd_new body) as [d|]; [|done]. cbn [ok_or mbind outcome_bind].
  destruct (_ && _); [done|].
  destruct (iter_until_leaves (zstd_step maximum) _ (fun st => maximum - len st.2) (zstd_step_decreases maximum)
    (Z.to_pos (maximum + 2)) (d, [])) as [r Hr]; [split; [apply Forall_nil_2|cbn [snd]; change (len (@nil Z)) with 0; lia]|cbn [snd]; change (len (@nil Z)) with 0; lia|].
  pose proof (iter_until_post (zstd_step maximum) (fun st => bytes_ok st.2 /\ len st.2 <= maximum)
    (fun r => no_panic r /\ forall d out, r = Ok (d, out) -> bytes_ok out /\ len out <= maximum)
    (Z.to_pos (maximum + 2)) (d, [])) as Hpost. rewrite Hr in Hpost |- *. destruct Hpost as [Hn Hok].
  - intros st Hst. destruct (zstd_step maximum st) as [st'|r'] eqn:E; [by apply (zstd_step_decreases maximum st)|].
    unfold zstd_step in E. destruct (zstd_read st.1) as [[out d']|]; [|by injection E as <-].
    destruct (len out =? 0); [injection E as <-; split; [done|]; by intros ? ? [= <- <-]|].
    destruct (checked_add _ _ _); [|by injection E as <-]. destruct (_ <? _); by simplify_eq.
  - split; [apply Forall_nil_2|cbn [snd]; change (len (@nil Z)) with 0; lia].
  - destruct r as [[d' out]| |]; [|done|done]. cbn. destruct (negb _); [done|]. split; [done|]. intros ? [= <-]. by apply (Hok d').
Qed.

(** No MRS file crashes the decoder: whatever the bytes, decompression ends within
    its limit and decoding and validating the payload returns a set or an error, never an
    index out of range, an overflow or an unbounded loop. *)
Theorem mrs_parse_no_panic body :
  no_panic (mrs_parse body)
  /\ forall out, decompress_zstd_bounded body MRS_MAX_DECOMPRESSED_BYTES = Ok out -> len out <= MRS_MAX_DECOMPRESSED_BYTES.
Proof.
  destruct (decompress_zstd_ok body MRS_MAX_DECOMPRESSED_BYTES ltac:(unfold MRS_MAX_DECOMPRESSED_BYTES; lia)) as [Hn Hok].
  split; [|intros out E; by apply Hok]. unfold mrs_parse. apply no_panic_if; intros _; [done|].
  apply no_panic_bind; [done|]. intros out E. apply no_panic_parse_decompressed. by apply Hok.
Qed.
End envelope_safe.

(** ** Witnesses *)

Module MrsIpWitness.

(** A decoder that stores its input, up to 16 KiB *)
#[local, program] Instance stored_zstd : ZstdDecoder :=
  {| Zstd := list Z * Z; zstd_new body := if forallb (uintb 8) body then Some (body, len body) else None;
     zstd_content_size _ := 0;
     zstd_read d := if forallb (uintb 8) d.1 then Some (d.1, ([], d.2)) else None;
     zstd_position d := d.2 |}.
Next Obligation.
  intros d out d' E. cbn in *. destruct (forallb (uintb 8) _) eqn:Hb in E; [|discriminate E]. injection E as <- <-.
  apply list.Forall_forall. intros x Hx. rewrite forallb_forall in Hb. specialize (Hb x (proj1 (list_elem_of_In _ _) Hx)).
  unfold uintb in Hb. unfold uint. lia.
Qed.

(** 10.0.0.0 to 10.0.0.9, 10.0.0.20, and ::1 *)
Definition ranges : list (IpAddr * IpAddr) :=
  [(V4 167772160, V4 167772169); (V4 167772180, V4 167772180); (V6 1, V6 1)].
Definition file : list Z := [77; 82; 83; 1; 1] ++ be_bytes 8 3 ++ be_bytes 8 2 ++ [9; 9] ++ encode_ip_ranges ranges.

Lemma mrs_parse_no_panic_witness : no_panic (mrs_parse file).
Proof. apply (mrs_parse_no_panic file). Defined.

Example file_queries :
  match mrs_parse file with
  | Ok (PayloadIpCidr s 3) => (mrs_contains s (V4 167772165), mrs_contains s (V4 167772175), mrs_contains s (V6 1))
  | _ => (Panic, Panic, Panic)
  end = (Ok true, Ok false, Ok true).
Proof. vm_compute. reflexivity. Qed.

Lemma mrs_ip_set_exact_witness :
  exists s, ipcidr_set_read (encode_ip_ranges ranges ++ []) = Ok (s, []) /\ mrs_contains s (V4 167772180) = Ok true.
Proof.
  destruct (proj2 mrs_ip_set_exact ranges []) as (s & E & Hc).
  - repeat constructor; vm_compute; congruence.
  - reflexivity.
  - vm_compute. split; congruence.
  - exists s. split; [exact E|]. rewrite Hc. reflexivity.
Defined.
End MrsIpWitness.
