(* ===== verification/RulesetMatcher.v ===== *)
(** * The rule-set matcher and its index ([core-ruleset/src/matcher.rs])

    A compiled rule set is either a semantic program ([RulesetIr.v]) or a flat matcher: tables of
    domains, networks, ports and process names of which one has to match, and logical rules over
    such matchers.  [RulesetIndex] evaluates a named set together with the GEOSITE, GEOIP and ASN
    sets its entries refer to.  Both queries of the engine go here: this file is the instance of
    [RulesetIndexApi] the routing engine is written against, and shows for which rule sets it keeps
    the promises of [stable_index].

    Matchers are data: compiling the text of a provider into one is not modelled.  A search of
    an MRS set counts as a miss where it would panic, which sorted ranges exclude
    ([contains_range_spec]) and the trie theorem of [MrsTrie.v] for decoded domain sets.  A glob set is
    the list of its globs and a prefix table the list of its networks (crates [globset] and
    [ip_network_table]: a set matches when a member does). *)

From Stdlib Require Import Btauto.
From stdpp Require Import base list gmap strings numbers option.
From S2P Require Import Prelude Text Net Instances RouteModel RouteMatch RouteInstances RouteSpec RouteEngine RouteDeferral CompactSet RulesetIr MrsBitmap MrsDomain MrsTrie MrsIpSet.

(** ** The suffix trie *)

Inductive TrieNode : Type := mkTrieNode (children : list (string * TrieNode)) (terminal : bool).
Definition tn_terminal (n : TrieNode) : bool := let '(mkTrieNode _ t) := n in t.
Definition tn_child (n : TrieNode) (seg : string) : option TrieNode :=
  let '(mkTrieNode children _) := n in snd <$> find (fun c => String.eqb c.1 seg) children.

(** The loop of [SuffixTrie::matches] over the labels from the right *)
Fixpoint trie_walk (node : TrieNode) (segs : list string) : bool :=
  match segs with
  | [] => tn_terminal node
  | seg :: rest =>
    match tn_child node seg with
    | Some child => if tn_terminal child then true else trie_walk child rest
    | None => false
    end
  end.

Definition suffix_trie_matches (root : TrieNode) (host : string) : bool :=
  let host := trim_end_char 46 host in
  negb (String.eqb host "") && trie_walk root (rev (str_split 46 host)).

Section matcher.
Context `{IpNetLib, !RouteLib, NetText, StrCase, RulesetLib, CaseMapping}.

(** ** The tables *)

(** The fields of [RulesetMatcher] that matching reads, but for the logical rules *)
Record MatcherTables : Type := mkTables {
  mt_name : string;
  mt_domains : list string;
  mt_suffix_trie : TrieNode;
  mt_keyword_automaton : option AhoCorasick;
  mt_wildcard_set : option (list GlobMatcher);
  mt_regex_set : option RegexSet;
  mt_fancy_regexes : list FancyRegex;
  mt_destination_prefix_table : list IpNet;
  mt_source_prefix_table : list IpNet;
  mt_destination_ip_suffixes : list PreparedIpSuffix;
  mt_source_ip_suffixes : list PreparedIpSuffix;
  mt_destination_geoip : list string;
  mt_source_geoip : list string;
  mt_destination_geosite : list string;
  mt_destination_asn : list Z;
  mt_source_asn : list Z;
  mt_destination_geoip_aliases : list (list string);
  mt_source_geoip_aliases : list (list string);
  mt_destination_geosite_aliases : list (list string);
  mt_destination_asn_aliases : list (list string);
  mt_source_asn_aliases : list (list string);
  mt_destination_ip_requires_resolution : bool;
  mt_processes : list string;
  mt_process_paths : list string;
  mt_process_regex_set : option RegexSet;
  mt_process_path_regex_set : option RegexSet;
  mt_process_wildcard_set : option (list GlobMatcher);
  mt_process_path_wildcard_set : option (list GlobMatcher);
  mt_rematch_names : list string;
  mt_networks : list string;
  mt_ports : list (Z * Z);
  mt_src_ports : list (Z * Z);
  mt_inbound_ports : list (Z * Z);
  mt_inbound_types : list string;
  mt_inbound_users : list string;
  mt_inbound_names : list string;
  mt_dscp_values : list Z;
  mt_uid_values : list Z;
  mt_match_all : bool;
  mt_mrs_domain_set : option MrsDomainSet;
  mt_mrs_v4_ranges : list (Z * Z);
  mt_mrs_v6_ranges : list (Z * Z);
  mt_semantic_program : option RulesetProgram
}.

Inductive RulesetMatcher : Type := mkMatcher (tables : MatcherTables) (logical_rules : list LogicalRule)
with LogicalRule : Type :=
| LLeaf (m : RulesetMatcher) | LAnd (children : list LogicalRule) | LOr (children : list LogicalRule) | LNot (child : LogicalRule).

(** ** Matching *)

Definition ac_is_match (ac : AhoCorasick) (s : string) : bool := negb (bool_decide (find_overlapping ac s = [])).
Definition globs_match (set : list GlobMatcher) (s : string) : bool := existsb (fun g => glob_is_match g s) set.
Definition in_port_ranges (l : list (Z * Z)) (p : Z) : bool := existsb (fun r => (r.1 <=? p) && (p <=? r.2)) l.
Definition option_in_set (value : option string) (set : list string) : bool := opt_holds value (fun v => mem set (to_lowercase v)).
Definition is_nil {A} (l : list A) : bool := match l with [] => true | _ => false end.

(** [ip_suffix_matches], written as in the engine ([RouteMatch.v]): the octets are as many, so no index is out of range. *)
Definition table_suffix_matches (ip : IpAddr) (suffix : PreparedIpSuffix) : bool := bool_decide (ip_suffix_matches ip suffix = Ok true).

(** The block on the host name *)
Definition domain_part (t : MatcherTables) (ctx : RulesetMatchContext) : bool :=
  let host_unicode := to_lowercase (trim_end_char 46 (str_trim (rc_dst_host ctx))) in
  let host_lc := normalize_domain host_unicode in
  let either (f : string -> bool) := f host_lc || (negb (String.eqb host_lc host_unicode) && f host_unicode) in
  negb (String.eqb host_lc "")
  && (mem (mt_domains t) host_lc
      || suffix_trie_matches (mt_suffix_trie t) host_lc
      || opt_holds (mt_keyword_automaton t) (fun ac => either (ac_is_match ac))
      || opt_holds (mt_regex_set t) (fun rs => either (regex_set_is_match rs))
      || existsb (fun r => either (fun h => default false (fancy_is_match r h))) (mt_fancy_regexes t)
      || opt_holds (mt_wildcard_set t) (fun set => either (globs_match set))
      || opt_holds (mt_mrs_domain_set t) (fun set =>
           bool_decide (has set host_unicode = Ok true) || (negb (String.eqb host_lc host_unicode) && bool_decide (has set host_lc = Ok true)))
      || existsb (fun code => mem (mt_destination_geosite t) (to_ascii_lowercase code)) (rc_destination_geosite ctx)).

(** The tables that look at the destination address *)
Definition destination_part (t : MatcherTables) (ip : IpAddr) : bool :=
  existsb (table_suffix_matches ip) (mt_destination_ip_suffixes t)
  || in_nets (mt_destination_prefix_table t) ip
  || match ip with
     | V4 a => negb (is_nil (mt_mrs_v4_ranges t)) && bool_decide (contains_range (mt_mrs_v4_ranges t) a = Ok true)
     | V6 a => negb (is_nil (mt_mrs_v6_ranges t)) && bool_decide (contains_range (mt_mrs_v6_ranges t) a = Ok true)
     end.

(** The source address, the databases' codes, the ports and the inbound *)
Definition metadata_part (t : MatcherTables) (ctx : RulesetMatchContext) : bool :=
  opt_holds (rc_src_ip ctx) (fun ip => in_nets (mt_source_prefix_table t) ip || existsb (table_suffix_matches ip) (mt_source_ip_suffixes t))
  || existsb (fun code => mem (mt_destination_geoip t) (to_ascii_lowercase code)) (rc_destination_geoip ctx)
  || existsb (fun code => mem (mt_source_geoip t) (to_ascii_lowercase code)) (rc_source_geoip ctx)
  || opt_holds (rc_destination_asn ctx) (memz (mt_destination_asn t))
  || opt_holds (rc_source_asn ctx) (memz (mt_source_asn t))
  || opt_holds (rc_dst_port ctx) (in_port_ranges (mt_ports t))
  || opt_holds (rc_src_port ctx) (in_port_ranges (mt_src_ports t))
  || opt_holds (rc_inbound_port ctx) (in_port_ranges (mt_inbound_ports t))
  || option_in_set (rc_inbound_type ctx) (mt_inbound_types t)
  || option_in_set (rc_inbound_user ctx) (mt_inbound_users t)
  || option_in_set (rc_inbound_name ctx) (mt_inbound_names t)
  || opt_holds (rc_uid ctx) (memz (mt_uid_values t))
  || opt_holds (rc_dscp ctx) (memz (mt_dscp_values t))
  || option_in_set (rc_network ctx) (mt_networks t)
  || existsb (fun name => mem (mt_rematch_names t) (to_lowercase name)) (rc_rematch_names ctx).

(** The tables that look at the process *)
Definition process_name_matches (t : MatcherTables) (name : string) : bool :=
  mem (mt_processes t) (to_ascii_lowercase name)
  || opt_holds (mt_process_regex_set t) (fun set => regex_set_is_match set name)
  || opt_holds (mt_process_wildcard_set t) (fun set => globs_match set name).

Definition process_part (t : MatcherTables) (ctx : RulesetMatchContext) : bool :=
  opt_holds (rc_process_name ctx) (process_name_matches t)
  || existsb (process_name_matches t) (rc_package_names ctx)
  || opt_holds (rc_process_path ctx) (fun path =>
       mem (mt_process_paths t) (to_lowercase path)
       || opt_holds (mt_process_path_regex_set t) (fun set => regex_set_is_match set path)
       || opt_holds (mt_process_path_wildcard_set t) (fun set => globs_match set path)).

Definition tables_match (t : MatcherTables) (ctx : RulesetMatchContext) : bool :=
  mt_match_all t || domain_part t ctx || opt_holds (destination_ip ctx) (destination_part t) || metadata_part t ctx || process_part t ctx.

Definition has_aliases (t : MatcherTables) : bool :=
  negb (is_nil (mt_destination_geoip_aliases t)) || negb (is_nil (mt_source_geoip_aliases t)) || negb (is_nil (mt_destination_geosite_aliases t))
  || negb (is_nil (mt_destination_asn_aliases t)) || negb (is_nil (mt_source_asn_aliases t)).

Fixpoint has_external_refs (r : LogicalRule) : bool :=
  match r with
  | LLeaf (mkMatcher t rules) => has_aliases t || existsb has_external_refs rules
  | LAnd children | LOr children => existsb has_external_refs children
  | LNot child => has_external_refs child
  end.

(** [LogicalRule::matches], with [RulesetMatcher::matches_context] at the leaves *)
Fixpoint logical_matches (ctx : RulesetMatchContext) (r : LogicalRule) : bool :=
  match r with
  | LLeaf (mkMatcher t rules) =>
    match mt_semantic_program t with
    | Some program => program_matches program ctx
    | None => tables_match t ctx || existsb (fun r => negb (has_external_refs r) && logical_matches ctx r) rules
    end
  | LAnd children => forallb (logical_matches ctx) children
  | LOr children => existsb (logical_matches ctx) children
  | LNot child => negb (logical_matches ctx child)
  end.

Definition matches_context (m : RulesetMatcher) (ctx : RulesetMatchContext) : bool := logical_matches ctx (LLeaf m).

(** [has_process_predicates] and [has_destination_ip_predicates] on the tables *)
Definition process_tables (t : MatcherTables) : bool :=
  negb (is_nil (mt_processes t)) || negb (is_nil (mt_process_paths t)) || is_some (mt_process_regex_set t) || is_some (mt_process_path_regex_set t)
  || is_some (mt_process_wildcard_set t) || is_some (mt_process_path_wildcard_set t).

Definition destination_tables (t : MatcherTables) : bool :=
  mt_destination_ip_requires_resolution t || negb (is_nil (mt_mrs_v4_ranges t)) || negb (is_nil (mt_mrs_v6_ranges t)).

(** [LogicalRule::needs_process] and [LogicalRule::needs_destination_ip], which differ in the tables they ask *)
Fixpoint rule_needs (tables : MatcherTables -> bool) (r : LogicalRule) : bool :=
  match r with
  | LLeaf (mkMatcher t rules) => tables t || existsb (rule_needs tables) rules
  | LAnd children | LOr children => existsb (rule_needs tables) children
  | LNot child => rule_needs tables child
  end.

Definition has_process_predicates (m : RulesetMatcher) : bool := rule_needs process_tables (LLeaf m).
Definition has_destination_ip_predicates (m : RulesetMatcher) : bool := rule_needs destination_tables (LLeaf m).

Definition matcher_deferred (m : RulesetMatcher) (ctx : RulesetMatchContext) (pr dr : bool) : RulesetMatchOutcome :=
  let '(mkMatcher t _) := m in
  match mt_semantic_program t with
  | Some program => matches_deferred program ctx pr dr
  | None =>
    if matches_context m ctx then RsMatched
    else outcome_deferred (negb pr && has_process_predicates m) (negb dr && has_destination_ip_predicates m)
  end.

(** ** The index *)

Definition or_outcome (a b : RulesetMatchOutcome) : RulesetMatchOutcome :=
  match a, b with
  | RsMatched, _ | _, RsMatched => RsMatched
  | _, _ => outcome_deferred ((outcome_requirements a).1 || (outcome_requirements b).1) ((outcome_requirements a).2 || (outcome_requirements b).2)
  end.

Definition and_outcome (a b : RulesetMatchOutcome) : RulesetMatchOutcome :=
  match a, b with
  | RsNotMatched, _ | _, RsNotMatched => RsNotMatched
  | RsMatched, _ => b
  | _, RsMatched => a
  | _, _ => outcome_deferred ((outcome_requirements a).1 || (outcome_requirements b).1) ((outcome_requirements a).2 || (outcome_requirements b).2)
  end.

Definition is_matched (o : RulesetMatchOutcome) : bool := match o with RsMatched => true | _ => false end.
Definition is_not_matched (o : RulesetMatchOutcome) : bool := match o with RsNotMatched => true | _ => false end.

(** [RulesetIndexState::matchers] *)
Definition IndexState : Type := gmap string RulesetMatcher.

Definition source_context (ctx : RulesetMatchContext) : RulesetMatchContext :=
  mkRulesetCtx "" (rc_src_ip ctx) (rc_src_port ctx) (rc_src_ip ctx) (rc_src_port ctx)
    (rc_network ctx) (rc_process_name ctx) (rc_query_type ctx) (rc_process_path ctx)
    (rc_inbound_port ctx) (rc_inbound_type ctx) (rc_inbound_user ctx) (rc_inbound_name ctx) (rc_uid ctx) (rc_dscp ctx)
    (rc_destination_geoip ctx) (rc_source_geoip ctx) (rc_destination_geosite ctx) (rc_destination_asn ctx) (rc_source_asn ctx)
    (rc_rematch_names ctx) (rc_package_names ctx) (rc_wifi_ssid ctx) (rc_wifi_bssid ctx) (rc_network_type ctx)
    (rc_network_is_expensive ctx) (rc_network_is_constrained ctx) (rc_network_interface_addresses ctx)
    (rc_default_interface_addresses ctx).

Section evaluate.
Context (state : IndexState).

(** An evaluation of a named matcher: context, process and address resolved, the active names *)
Definition Evaluator : Type := string -> RulesetMatcher -> RulesetMatchContext -> bool -> bool -> list string -> RulesetMatchOutcome.

Fixpoint alias_outcome (eval : Evaluator) (aliases : list string) (ctx : RulesetMatchContext) (pr dr : bool) (stack : list string) (outcome : RulesetMatchOutcome) : RulesetMatchOutcome :=
  match aliases with
  | [] => outcome
  | alias :: rest =>
    match state !! alias with
    | None => alias_outcome eval rest ctx pr dr stack outcome
    | Some m =>
      let outcome := or_outcome outcome (eval alias m ctx pr dr stack) in
      if is_matched outcome then outcome else alias_outcome eval rest ctx pr dr stack outcome
    end
  end.

Definition evaluate_aliases (eval : Evaluator) (aliases : list string) (ctx : RulesetMatchContext) (pr dr : bool) (stack : list string) : RulesetMatchOutcome :=
  alias_outcome eval aliases ctx pr dr stack RsNotMatched.

(** [for aliases in .. { outcome = or_outcome(outcome, evaluate_aliases(..)) }] *)
Definition alias_sets (eval : Evaluator) (sets : list (list string)) (ctx : RulesetMatchContext) (pr dr : bool) (stack : list string) (outcome : RulesetMatchOutcome) : RulesetMatchOutcome :=
  fold_left (fun outcome aliases => or_outcome outcome (evaluate_aliases eval aliases ctx pr dr stack)) sets outcome.

(** The loops of [matches_indexed] over the children of AND and OR *)
Fixpoint and_children (f : LogicalRule -> RulesetMatchOutcome) (l : list LogicalRule) (outcome : RulesetMatchOutcome) : RulesetMatchOutcome :=
  match l with
  | [] => outcome
  | child :: rest => let outcome := and_outcome outcome (f child) in if is_not_matched outcome then outcome else and_children f rest outcome
  end.

Fixpoint or_children (f : LogicalRule -> RulesetMatchOutcome) (l : list LogicalRule) (outcome : RulesetMatchOutcome) : RulesetMatchOutcome :=
  match l with
  | [] => outcome
  | child :: rest => let outcome := or_outcome outcome (f child) in if is_matched outcome then outcome else or_children f rest outcome
  end.

Fixpoint matches_indexed (eval : Evaluator) (ctx : RulesetMatchContext) (pr dr : bool) (stack : list string) (r : LogicalRule) : RulesetMatchOutcome :=
  match r with
  | LLeaf (mkMatcher t rules) => eval (mt_name t) (mkMatcher t rules) ctx pr dr stack
  | LAnd children => and_children (matches_indexed eval ctx pr dr stack) children RsMatched
  | LOr children => or_children (matches_indexed eval ctx pr dr stack) children RsNotMatched
  | LNot child => outcome_not (matches_indexed eval ctx pr dr stack child)
  end.

(** The loops over the references of a matcher and over its logical rules with references *)
Definition evaluate_references (eval : Evaluator) (m : RulesetMatcher) (ctx : RulesetMatchContext) (pr dr : bool) (stack : list string) (outcome : RulesetMatchOutcome) : RulesetMatchOutcome :=
  let '(mkMatcher t rules) := m in
  let outcome := alias_sets eval (mt_destination_geosite_aliases t) ctx pr dr stack outcome in
  let outcome := alias_sets eval (mt_destination_geoip_aliases t ++ mt_destination_asn_aliases t) ctx pr dr stack outcome in
  let outcome := alias_sets eval (mt_source_geoip_aliases t ++ mt_source_asn_aliases t) (source_context ctx) pr true stack outcome in
  fold_left (fun outcome r => if has_external_refs r then or_outcome outcome (matches_indexed eval ctx pr dr stack r) else outcome) rules outcome.

(** Every call puts a name on the stack and none is made on more than 33 of them; [fuel] counts the calls left. *)
Fixpoint evaluate_indexed_matcher (fuel : nat) (name : string) (m : RulesetMatcher) (ctx : RulesetMatchContext) (pr dr : bool) (stack : list string) : RulesetMatchOutcome :=
  match fuel with
  | O => RsNotMatched
  | S fuel =>
    if mem stack name || (32 <? len stack) then RsNotMatched else
    let eval := evaluate_indexed_matcher fuel in
    let stack := name :: stack in
    let outcome := matcher_deferred m ctx pr dr in
    if is_matched outcome then outcome else evaluate_references eval m ctx pr dr stack outcome
  end.

Definition INDEX_FUEL : nat := 34.

Definition index_matches (name : string) (ctx : RulesetMatchContext) (pr dr : bool) : RulesetMatchOutcome :=
  match state !! name with
  | None => RsNotMatched
  | Some m => evaluate_indexed_matcher INDEX_FUEL name m ctx pr dr []
  end.
End evaluate.

#[local] Instance matcher_index : RulesetIndexApi :=
  {| RulesetIndex := IndexState; index_has ix name := bool_decide (is_Some (ix !! name)); matches_context_deferred := index_matches |}.

(** ** Which rule sets wait for what they need

    A flat matcher answers [Matched] as soon as its tables and logical rules say so with what is
    known.  That is safe when a table that looks at the destination address also asks for it (no
    entry is marked no-resolve), and when no negation evaluated on the spot stands over an address
    or process entry.  Logical rules with references are evaluated in three values, there a
    negation is harmless. *)

Definition tables_safe (t : MatcherTables) : bool :=
  (is_nil (mt_destination_ip_suffixes t) && is_nil (mt_destination_prefix_table t)) || destination_tables t.

Fixpoint rule_safe (indexed : bool) (r : LogicalRule) : bool :=
  match r with
  | LLeaf (mkMatcher t rules) => negb (is_some (mt_semantic_program t)) && tables_safe t && forallb (fun r => rule_safe (has_external_refs r) r) rules
  | LAnd children | LOr children => forallb (rule_safe indexed) children
  | LNot child => rule_safe indexed child && (indexed || negb (rule_needs process_tables child) && negb (rule_needs destination_tables child))
  end.

Definition matcher_safe (m : RulesetMatcher) : bool :=
  let '(mkMatcher t rules) := m in (is_some (mt_semantic_program t) || tables_safe t) && forallb (fun r => rule_safe (has_external_refs r) r) rules.

Definition index_safe (state : IndexState) : Prop := forall name m, state !! name = Some m -> matcher_safe m = true.

Section rule_induction.
  Variable P : LogicalRule -> Prop.
  Hypothesis P_leaf : forall t rules, Forall P rules -> P (LLeaf (mkMatcher t rules)).
  Hypothesis P_land : forall children, Forall P children -> P (LAnd children).
  Hypothesis P_lor : forall children, Forall P children -> P (LOr children).
  Hypothesis P_lnot : forall child, P child -> P (LNot child).

Lemma rule_ind : forall r, P r.
Proof using All.
  fix IH 1. intros [[t rules]|children|children|child].
  - apply P_leaf. induction rules as [|x l IHl]; constructor; [apply IH|exact IHl].
  - apply P_land. induction children as [|x l IHl]; constructor; [apply IH|exact IHl].
  - apply P_lor. induction children as [|x l IHl]; constructor; [apply IH|exact IHl].
  - apply P_lnot, IH.
Qed.
End rule_induction.

(** More of a flow becomes known: nothing, its address, or its process. *)
Inductive gain : RulesetMatchContext -> RulesetMatchContext -> bool -> bool -> bool -> bool -> Prop :=
| GainNothing ctx pr dr : gain ctx ctx pr dr pr dr
| GainIp ctx ip pr : rc_dst_ip ctx = None -> parse_ip (rc_dst_host ctx) = None -> gain ctx (ctx_with_ip ctx (Some ip)) pr false pr true
| GainProcess ctx name path packages dr :
    rc_process_name ctx = None -> rc_process_path ctx = None -> rc_package_names ctx = [] ->
    gain ctx (ctx_with_process ctx name path packages) false dr true dr.

Lemma gain_source ctx ctx' pr dr pr' dr' : gain ctx ctx' pr dr pr' dr' -> gain (source_context ctx) (source_context ctx') pr true pr' true.
Proof. intros [| |c n p k d Hn Hp Hk]; [apply GainNothing|apply GainNothing|]. exact (GainProcess (source_context c) n p k true Hn Hp Hk). Qed.

(** What a table or a rule would still wait for *)
Definition tables_wait (pr dr : bool) (t : MatcherTables) : bool := negb pr && process_tables t || negb dr && destination_tables t.
Definition rule_wait (pr dr : bool) (r : LogicalRule) : bool := negb pr && rule_needs process_tables r || negb dr && rule_needs destination_tables r.

(** [b'] is [b], or both wait: the value with more known *)
Definition settles (wait b b' : bool) : Prop := (b = true -> b' = true) /\ (wait = false -> b' = b).

Lemma existsb_false {A} (f : A -> bool) l : existsb f l = false <-> Forall (fun x => f x = false) l.
Proof. induction l as [|x l IH]; cbn; [by split|]. by rewrite orb_false_iff, IH, Forall_cons_iff. Qed.

Lemma forallb_Forall {A} (f : A -> bool) l : forallb f l = true <-> Forall (fun x => f x = true) l.
Proof. induction l as [|x l IH]; cbn; [by split|]. by rewrite andb_true_iff, IH, Forall_cons_iff. Qed.

Lemma settles_existsb {A} (w f f' : A -> bool) l : Forall (fun x => settles (w x) (f x) (f' x)) l -> settles (existsb w l) (existsb f l) (existsb f' l).
Proof.
  induction 1 as [|x l [Hx Hx'] _ [IH IH']]; [done|]. split; cbn.
  - intros [Hf|Hf]%orb_prop; apply orb_true_intro; auto.
  - intros [Hw Hws]%orb_false_iff. by rewrite Hx', IH'.
Qed.

Lemma settles_forallb {A} (w f f' : A -> bool) l : Forall (fun x => settles (w x) (f x) (f' x)) l -> settles (existsb w l) (forallb f l) (forallb f' l).
Proof.
  induction 1 as [|x l [Hx Hx'] _ [IH IH']]; [done|]. split; cbn.
  - intros [Hf Hl]%andb_prop. by rewrite Hx, IH.
  - intros [Hw Hws]%orb_false_iff. by rewrite Hx', IH'.
Qed.

Lemma settles_or w1 w2 a a' b b' : settles w1 a a' -> settles w2 b b' -> settles (w1 || w2) (a || b) (a' || b').
Proof.
  intros [Ha Ha'] [Hb Hb']. split.
  - intros [?|?]%orb_prop; apply orb_true_intro; auto.
  - intros [Hw Hw']%orb_false_iff. by rewrite Ha', Hb'.
Qed.

Lemma settles_same w b : settles w b b.
Proof. by split. Qed.

Lemma settles_weaken w w' b b' : (w' = false -> w = false) -> settles w b b' -> settles w' b b'.
Proof. intros Hw [H5 H6]. split; auto. Qed.

Lemma wait_existsb pr dr l :
  existsb (rule_wait pr dr) l = negb pr && existsb (rule_needs process_tables) l || negb dr && existsb (rule_needs destination_tables) l.
Proof. induction l as [|r l IH]; [by destruct pr, dr|]. cbn [existsb]. rewrite IH. unfold rule_wait. destruct pr, dr; cbn; btauto. Qed.

Lemma wait_leaf pr dr t rules : rule_wait pr dr (LLeaf (mkMatcher t rules)) = tables_wait pr dr t || existsb (rule_wait pr dr) rules.
Proof. rewrite wait_existsb. unfold rule_wait, tables_wait. cbn. destruct pr, dr; cbn; btauto. Qed.

Lemma tables_settle t ctx ctx' pr dr pr' dr' :
  gain ctx ctx' pr dr pr' dr' -> tables_safe t = true -> settles (tables_wait pr dr t) (tables_match t ctx) (tables_match t ctx').
Proof.
  intros Hg Hs. destruct Hg as [|ctx ip pr Hip Hhost|ctx name path packages dr Hn Hp Hk]; [apply settles_same|..]; unfold tables_match.
  - change (domain_part t (ctx_with_ip ctx (Some ip))) with (domain_part t ctx). change (metadata_part t (ctx_with_ip ctx (Some ip))) with (metadata_part t ctx).
    change (process_part t (ctx_with_ip ctx (Some ip))) with (process_part t ctx). unfold destination_ip at 1. rewrite Hip, Hhost. cbn [opt_holds destination_ip ctx_with_ip rc_dst_ip].
    rewrite orb_false_r. split.
    + by destruct (mt_match_all t), (domain_part t ctx), (destination_part t ip), (metadata_part t ctx), (process_part t ctx).
    + intros [_ Hd]%orb_false_iff. cbn in Hd. assert (Hpart : destination_part t ip = false); [|by rewrite Hpart, orb_false_r].
      unfold tables_safe in Hs. rewrite Hd, orb_false_r in Hs. apply andb_prop in Hs as [H5 H6]. unfold destination_tables in Hd. rewrite !orb_false_iff, !negb_false_iff in Hd.
      destruct Hd as ((_ & H7) & H8). unfold destination_part. destruct (mt_destination_ip_suffixes t), (mt_destination_prefix_table t); try done. cbn. by rewrite H7, H8; destruct ip.
  - change (domain_part t (ctx_with_process ctx name path packages)) with (domain_part t ctx). change (metadata_part t (ctx_with_process ctx name path packages)) with (metadata_part t ctx).
    change (destination_ip (ctx_with_process ctx name path packages)) with (destination_ip ctx). assert (Hpart : process_part t ctx = false) by (unfold process_part; by rewrite Hn, Hp, Hk). rewrite Hpart, orb_false_r. split.
    + intros ->. done.
    + intros [Hw _]%orb_false_iff. cbn in Hw. unfold process_tables in Hw. rewrite !orb_false_iff, !negb_false_iff in Hw. destruct Hw as (((((H5 & H6) & H7) & H8) & H9) & H10).
      assert (Hname : forall n, process_name_matches t n = false).
      { intros n. unfold process_name_matches. destruct (mt_processes t), (mt_process_regex_set t), (mt_process_wildcard_set t); done. }
      assert (Hnew : process_part t (ctx_with_process ctx name path packages) = false); [|by rewrite Hnew, orb_false_r]. unfold process_part. cbn.
      assert (Hks : existsb (process_name_matches t) packages = false) by (apply existsb_false; induction packages; constructor; auto). rewrite Hks.
      destruct (mt_process_paths t), (mt_process_path_regex_set t), (mt_process_path_wildcard_set t); try done. destruct name as [n|]; cbn; [rewrite Hname|]; by destruct path.
Qed.

(** A rule evaluated on the spot keeps its value when nothing it waits for is missing, and stays matched in any case. *)
Lemma rule_settles ctx ctx' pr dr pr' dr' r :
  gain ctx ctx' pr dr pr' dr' -> rule_safe false r = true -> has_external_refs r = false -> settles (rule_wait pr dr r) (logical_matches ctx r) (logical_matches ctx' r).
Proof.
  intros Hg. revert r. apply (rule_ind (fun r => rule_safe false r = true -> has_external_refs r = false -> settles (rule_wait pr dr r) (logical_matches ctx r) (logical_matches ctx' r))).
  - intros t rules IH Hs He. cbn in Hs, He. rewrite !andb_true_iff in Hs. destruct Hs as ((Hsem & Ht) & Hr). apply orb_false_iff in He as [_ He]. cbn [logical_matches].
    destruct (mt_semantic_program t); [done|]. rewrite wait_leaf. apply settles_or; [by eapply tables_settle|].
    apply existsb_false in He. apply forallb_Forall in Hr. apply settles_existsb. rewrite Forall_forall in *. intros x Hx. specialize (He x Hx). specialize (Hr x Hx). cbn in He, Hr. rewrite He in *. cbn. by apply IH.
  - intros l IH Hs He. cbn in Hs, He. change (rule_wait pr dr (LAnd l)) with (negb pr && existsb (rule_needs process_tables) l || negb dr && existsb (rule_needs destination_tables) l). rewrite <- wait_existsb.
    apply existsb_false in He. apply forallb_Forall in Hs. apply settles_forallb. rewrite Forall_forall in *. intros x Hx. apply IH; [done|by apply Hs|by apply He].
  - intros l IH Hs He. cbn in Hs, He. change (rule_wait pr dr (LOr l)) with (negb pr && existsb (rule_needs process_tables) l || negb dr && existsb (rule_needs destination_tables) l). rewrite <- wait_existsb.
    apply existsb_false in He. apply forallb_Forall in Hs. apply settles_existsb. rewrite Forall_forall in *. intros x Hx. apply IH; [done|by apply Hs|by apply He].
  - intros r IH Hs He. cbn in Hs, He |- *. apply andb_prop in Hs as [Hs Hw]. rewrite andb_true_iff, !negb_true_iff in Hw. destruct Hw as [Hp Hd].
    destruct (IH Hs He) as [_ Heq]. rewrite Heq; [apply settles_same|]. unfold rule_wait. rewrite Hp, Hd. by rewrite !andb_false_r.
Qed.

(** ** Outcomes with more known *)

Notation st := ruleset_outcome_to_state.

(** [o] and [o'] ask only for what is unresolved, and a definite [o] is [o']. *)
Definition follows (pr dr pr' dr' : bool) (o o' : RulesetMatchOutcome) : Prop := honest pr dr (st o) /\ honest pr' dr' (st o') /\ refines (st o) (st o').

Lemma or_outcome_states a b : st (or_outcome a b) = or_states [st a; st b] false false.
Proof. by destruct a, b. Qed.

Lemma and_outcome_states a b : st (and_outcome a b) = and_states [st a; st b] false false.
Proof. by destruct a, b. Qed.

Section follows.
Context (pr dr pr' dr' : bool).
Notation fol := (follows pr dr pr' dr').

Lemma follows_or a a' b b' : fol a a' -> fol b b' -> fol (or_outcome a b) (or_outcome a' b').
Proof.
  intros (Ha & Ha' & Hra) (Hb & Hb' & Hrb). unfold follows. rewrite !or_outcome_states. split_and!.
  - by apply or_states_spec; [repeat constructor|..].
  - by apply or_states_spec; [repeat constructor|..].
  - by apply (or_states_refines pr dr pr' dr'); repeat constructor.
Qed.

Lemma follows_and a a' b b' : fol a a' -> fol b b' -> fol (and_outcome a b) (and_outcome a' b').
Proof.
  intros (Ha & Ha' & Hra) (Hb & Hb' & Hrb). unfold follows. rewrite !and_outcome_states. split_and!.
  - by apply and_states_spec; [repeat constructor|..].
  - by apply and_states_spec; [repeat constructor|..].
  - by apply (and_states_refines pr dr pr' dr'); repeat constructor.
Qed.

Lemma follows_not o o' : fol o o' -> fol (outcome_not o) (outcome_not o').
Proof. unfold follows. rewrite !not_outcome_state. intros (Ho & Ho' & Hr). split; [by destruct (st o)|]. split; [by destruct (st o')|]. destruct (st o); cbn in *; [by rewrite Hr|by rewrite Hr|done]. Qed.

Lemma follows_definite : fol RsMatched RsMatched /\ fol RsNotMatched RsNotMatched.
Proof. by repeat split. Qed.

(** Stopping early at a decided outcome changes nothing. *)
Lemma or_children_fold f l o : or_children f l o = fold_left (fun o r => or_outcome o (f r)) l o.
Proof.
  revert o. induction l as [|r l IH]; intros o; [done|]. cbn. destruct (is_matched (or_outcome o (f r))) eqn:E; [|apply IH].
  destruct (or_outcome o (f r)); try done. clear. by induction l.
Qed.

Lemma and_children_fold f l o : and_children f l o = fold_left (fun o r => and_outcome o (f r)) l o.
Proof.
  revert o. induction l as [|r l IH]; intros o; [done|]. cbn. destruct (is_not_matched (and_outcome o (f r))) eqn:E; [|apply IH].
  destruct (and_outcome o (f r)); try done. clear. by induction l.
Qed.

Lemma follows_fold {A} (g g' : RulesetMatchOutcome -> A -> RulesetMatchOutcome) l o o' :
  Forall (fun x => forall o o', fol o o' -> fol (g o x) (g' o' x)) l -> fol o o' -> fol (fold_left g l o) (fold_left g' l o').
Proof. intros Hl. revert o o'. induction Hl as [|x l Hx _ IH]; intros o o' Ho; [done|]. cbn. by apply IH, Hx. Qed.
End follows.

Lemma follows_any_address pr dr pr' dr' o o' : follows pr true pr' true o o' -> follows pr dr pr' dr' o o'.
Proof. intros (Ho & Ho' & Hr). split; [by apply honest_mono|]. split; [by apply honest_mono|done]. Qed.

Lemma alias_outcome_fold state eval names ctx pr dr stack o :
  alias_outcome state eval names ctx pr dr stack o
  = fold_left (fun o alias => match state !! alias with Some m => or_outcome o (eval alias m ctx pr dr stack) | None => o end) names o.
Proof.
  revert o. induction names as [|a l IH]; intros o; [done|]. cbn. destruct (state !! a) as [m|]; [|apply IH].
  destruct (is_matched _) eqn:E; [|apply IH]. destruct (or_outcome o _); try done. clear -state. induction l as [|b l IH]; [done|]. cbn. by destruct (state !! b).
Qed.

Lemma matcher_follows m ctx ctx' pr dr pr' dr' :
  gain ctx ctx' pr dr pr' dr' -> matcher_safe m = true -> follows pr dr pr' dr' (matcher_deferred m ctx pr dr) (matcher_deferred m ctx' pr' dr').
Proof.
  intros Hg Hs. destruct m as [t rules]. cbn in Hs. apply andb_prop in Hs as [Ht Hr]. unfold matcher_deferred. destruct (mt_semantic_program t) as [p|] eqn:Ep.
  - split; [apply matches_lazy_honest|]. split; [apply matches_lazy_honest|]. destruct Hg; [apply refines_refl|apply program_refines_ip|apply program_refines_process].
  - cbn in Ht. unfold matches_context. cbn [logical_matches]. rewrite Ep.
    assert (Hset : settles (rule_wait pr dr (LLeaf (mkMatcher t rules))) (tables_match t ctx || existsb (fun r => negb (has_external_refs r) && logical_matches ctx r) rules) (tables_match t ctx' || existsb (fun r => negb (has_external_refs r) && logical_matches ctx' r) rules)).
    { rewrite wait_leaf. apply settles_or; [by eapply tables_settle|]. apply settles_existsb. apply forallb_Forall in Hr. rewrite Forall_forall in *. intros x Hx. specialize (Hr x Hx). cbn in Hr.
      destruct (has_external_refs x) eqn:Ex; [by split|]. cbn. by eapply rule_settles. }
    destruct Hset as [Hmono Hsame]. destruct (tables_match t ctx || _).
    + rewrite Hmono by done. apply follows_definite.
    + set (o := outcome_deferred (negb pr && _) (negb dr && _)). assert (Hh : honest pr dr (st o)) by (unfold o; rewrite outcome_deferred_state; apply honest_deferred; intros [? _]%andb_prop; by apply negb_true_iff).
      assert (Hh' : forall np nd, honest pr' dr' (st (outcome_deferred (negb pr' && np) (negb dr' && nd)))) by (intros; rewrite outcome_deferred_state; apply honest_deferred; intros [? _]%andb_prop; by apply negb_true_iff).
      split; [done|]. split; [destruct (tables_match t ctx' || _); [done|apply Hh']|]. unfold o. rewrite outcome_deferred_state. unfold deferred at 1.
      match goal with |- refines (if ?w then _ else _) _ => destruct w eqn:Ew end; [done|]. rewrite Hsame by exact Ew.
      rewrite outcome_deferred_state. unfold deferred. apply orb_false_iff in Ew as [E1 E2].
      assert (E1' : negb pr' && has_process_predicates (mkMatcher t rules) = false) by (destruct Hg; [exact E1|exact E1|done]).
      assert (E2' : negb dr' && has_destination_ip_predicates (mkMatcher t rules) = false) by (destruct Hg; [exact E2|done|exact E2]). by rewrite E1', E2'.
Qed.

Lemma alias_sets_follow state (eval eval' : Evaluator) sets ctx ctx' pr dr pr' dr' d d' stack o o' :
  (forall name m, state !! name = Some m -> follows pr dr pr' dr' (eval name m ctx pr d stack) (eval' name m ctx' pr' d' stack)) ->
  follows pr dr pr' dr' o o' -> follows pr dr pr' dr' (alias_sets state eval sets ctx pr d stack o) (alias_sets state eval' sets ctx' pr' d' stack o').
Proof.
  intros He Ho. apply follows_fold; [|done]. apply Forall_forall. intros names _ a a' Ha. apply follows_or; [done|]. unfold evaluate_aliases. rewrite !alias_outcome_fold.
  apply follows_fold; [|apply follows_definite]. apply Forall_forall. intros name _ b b' Hb. destruct (state !! name) as [m|] eqn:E; [|done]. apply follows_or; [done|]. by apply He.
Qed.

Lemma indexed_follows (eval eval' : Evaluator) ctx ctx' pr dr pr' dr' stack r :
  (forall name m, matcher_safe m = true -> follows pr dr pr' dr' (eval name m ctx pr dr stack) (eval' name m ctx' pr' dr' stack)) ->
  rule_safe true r = true -> follows pr dr pr' dr' (matches_indexed eval ctx pr dr stack r) (matches_indexed eval' ctx' pr' dr' stack r).
Proof.
  intros He. revert r. apply (rule_ind (fun r => rule_safe true r = true -> follows pr dr pr' dr' (matches_indexed eval ctx pr dr stack r) (matches_indexed eval' ctx' pr' dr' stack r))).
  - intros t rules _ Hs. apply He. cbn in Hs |- *. rewrite !andb_true_iff in Hs. destruct Hs as ((_ & ->) & ->). by rewrite orb_true_r.
  - intros l IH Hs. cbn in Hs |- *. rewrite !and_children_fold. apply forallb_Forall in Hs. apply follows_fold; [|apply follows_definite]. rewrite Forall_forall in *. intros x Hx o o' Ho. apply follows_and; [done|]. by apply IH, Hs.
  - intros l IH Hs. cbn in Hs |- *. rewrite !or_children_fold. apply forallb_Forall in Hs. apply follows_fold; [|apply follows_definite]. rewrite Forall_forall in *. intros x Hx o o' Ho. apply follows_or; [done|]. by apply IH, Hs.
  - intros r IH Hs. cbn in Hs |- *. rewrite andb_true_r in Hs. by apply follows_not, IH.
Qed.

Lemma references_follow state (eval eval' : Evaluator) m ctx ctx' pr dr pr' dr' stack o o' :
  (forall name m ctx ctx' dr dr', matcher_safe m = true -> gain ctx ctx' pr dr pr' dr' -> follows pr dr pr' dr' (eval name m ctx pr dr stack) (eval' name m ctx' pr' dr' stack)) ->
  index_safe state -> matcher_safe m = true -> gain ctx ctx' pr dr pr' dr' -> follows pr dr pr' dr' o o' ->
  follows pr dr pr' dr' (evaluate_references state eval m ctx pr dr stack o) (evaluate_references state eval' m ctx' pr' dr' stack o').
Proof.
  intros He Hix Hs Hg Ho. destruct m as [t rules]. cbn in Hs. apply andb_prop in Hs as [_ Hr]. apply forallb_Forall in Hr. unfold evaluate_references. apply follows_fold.
  - rewrite Forall_forall in *. intros r Hin b b' Hb. specialize (Hr r Hin). cbn in Hr. destruct (has_external_refs r); [|done]. apply follows_or; [done|]. apply indexed_follows; [|done]. intros. by apply He.
  - apply alias_sets_follow; [intros name m Hm; apply follows_any_address, He; [by eapply Hix|by eapply gain_source]|].
    apply alias_sets_follow; [intros name m Hm; apply He; [by eapply Hix|done]|]. apply alias_sets_follow; [intros name m Hm; apply He; [by eapply Hix|done]|done].
Qed.

Lemma references_matched state eval m ctx pr dr stack : evaluate_references state eval m ctx pr dr stack RsMatched = RsMatched.
Proof.
  assert (Hsets : forall sets c d, alias_sets state eval sets c pr d stack RsMatched = RsMatched) by (intros sets c d; unfold alias_sets; by induction sets).
  destruct m as [t rules]. unfold evaluate_references. rewrite !Hsets. induction rules as [|r l IH]; [done|]. cbn. by destruct (has_external_refs r).
Qed.

Lemma evaluate_follows state fuel name m ctx ctx' pr dr pr' dr' stack :
  index_safe state -> matcher_safe m = true -> gain ctx ctx' pr dr pr' dr' ->
  follows pr dr pr' dr' (evaluate_indexed_matcher state fuel name m ctx pr dr stack) (evaluate_indexed_matcher state fuel name m ctx' pr' dr' stack).
Proof.
  intros Hix. revert name m ctx ctx' pr dr pr' dr' stack. induction fuel as [|fuel IH]; intros name m ctx ctx' pr dr pr' dr' stack Hs Hg; [apply follows_definite|].
  cbn [evaluate_indexed_matcher]. destruct (_ || _); [apply follows_definite|]. pose proof (matcher_follows m ctx ctx' pr dr pr' dr' Hg Hs) as Hm.
  set (o := matcher_deferred m ctx pr dr) in *. set (o' := matcher_deferred m ctx' pr' dr') in *.
  pose proof (references_follow state (evaluate_indexed_matcher state fuel) (evaluate_indexed_matcher state fuel) m ctx ctx' pr dr pr' dr' (name :: stack) o o' ltac:(intros; by apply IH) Hix Hs Hg Hm) as Hr.
  destruct (is_matched o) eqn:Eo.
  - destruct o; try done. destruct Hm as (_ & _ & Hm). cbn in Hm. destruct (is_matched o') eqn:E'; destruct o'; done.
  - destruct (is_matched o') eqn:Eo'; [|exact Hr]. destruct o'; try done. by rewrite references_matched in Hr.
Qed.

(** The index keeps the engine's promises for rule sets that wait for what they need. *)
Lemma matcher_index_stable (ix : IndexState) : index_safe ix -> stable_index (ix : RulesetIndex).
Proof.
  intros Hix.
  assert (Hf : forall name ctx ctx' pr dr pr' dr', gain ctx ctx' pr dr pr' dr' -> follows pr dr pr' dr' (index_matches ix name ctx pr dr) (index_matches ix name ctx' pr' dr')).
  { intros name ctx ctx' pr dr pr' dr' Hg. unfold index_matches. destruct (ix !! name) as [m|] eqn:E; [|apply follows_definite]. apply evaluate_follows; [done|by eapply Hix|done]. }
  constructor.
  - intros name ctx pr dr. apply (Hf name ctx ctx pr dr pr dr). apply GainNothing.
  - intros name ctx ip pr Hip Hh. by apply (Hf name ctx _ pr false pr true), GainIp.
  - intros name ctx pname path packages dr Hn Hp Hk. by apply (Hf name ctx _ false dr true dr), GainProcess.
Qed.

Lemma fold_left_ext {A B} (f g : A -> B -> A) l a : Forall (fun x => forall a, f a x = g a x) l -> fold_left f l a = fold_left g l a.
Proof. intros Hl. revert a. induction Hl as [|x l Hx _ IH]; intros a; [done|]. cbn. by rewrite Hx. Qed.

Lemma indexed_ext (eval eval' : Evaluator) ctx pr dr stack r :
  (forall n m c d, eval n m c pr d stack = eval' n m c pr d stack) -> matches_indexed eval ctx pr dr stack r = matches_indexed eval' ctx pr dr stack r.
Proof.
  intros He. revert r. apply (rule_ind (fun r => matches_indexed eval ctx pr dr stack r = matches_indexed eval' ctx pr dr stack r)).
  - intros t rules _. apply He.
  - intros l IH. cbn. rewrite !and_children_fold. apply fold_left_ext. eapply list.Forall_impl; [exact IH|]. cbn. by intros x ->.
  - intros l IH. cbn. rewrite !or_children_fold. apply fold_left_ext. eapply list.Forall_impl; [exact IH|]. cbn. by intros x ->.
  - intros r IH. cbn. by rewrite IH.
Qed.

Lemma references_ext state (eval eval' : Evaluator) m ctx pr dr stack o :
  (forall n m c d, eval n m c pr d stack = eval' n m c pr d stack) -> evaluate_references state eval m ctx pr dr stack o = evaluate_references state eval' m ctx pr dr stack o.
Proof.
  intros He. destruct m as [t rules].
  assert (Hsets : forall sets c d a, alias_sets state eval sets c pr d stack a = alias_sets state eval' sets c pr d stack a).
  { intros sets c d a. apply fold_left_ext, Forall_forall. intros names _ b. f_equal. unfold evaluate_aliases. rewrite !alias_outcome_fold. apply fold_left_ext, Forall_forall. intros n _ b'. destruct (state !! n); [by rewrite He|done]. }
  unfold evaluate_references. rewrite !Hsets. apply fold_left_ext, Forall_forall. intros r _ a. by rewrite (indexed_ext eval eval').
Qed.

(** The fuel is never used up: a call is made with at most 33 names active, and the call made with
    33 returns at once. *)
Lemma evaluate_fuel state fuel fuel' name m ctx pr dr stack :
  Z.of_nat fuel + len stack >= 34 -> Z.of_nat fuel' + len stack >= 34 -> (0 < fuel)%nat -> (0 < fuel')%nat ->
  evaluate_indexed_matcher state fuel name m ctx pr dr stack = evaluate_indexed_matcher state fuel' name m ctx pr dr stack.
Proof.
  revert fuel' name m ctx pr dr stack. induction fuel as [|fuel IH]; intros [|fuel'] name m ctx pr dr stack H5 H6 H7 H8; [lia..|]. cbn [evaluate_indexed_matcher].
  destruct (mem stack name || (32 <? len stack)) eqn:Ec; [done|]. apply orb_false_iff in Ec as [_ Ec]. apply Z.ltb_ge in Ec.
  destruct (is_matched _); [done|]. assert (Heval : forall n m c d, evaluate_indexed_matcher state fuel n m c pr d (name :: stack) = evaluate_indexed_matcher state fuel' n m c pr d (name :: stack)).
  { intros n m' c d. apply IH; rewrite ?len_cons; lia. }
  by rewrite (references_ext state _ _ m ctx pr dr (name :: stack) _ Heval).
Qed.

(** [C8] Skipping the DNS lookup is harmless: when [needs_destination_ip] says no for a flow to an
    unresolved domain, the flow is decided the same whatever address the domain resolves to, for
    a plan without no-resolve rules and an index of semantic programs and flat rule sets that have
    no no-resolve entry and no negation evaluated on the spot over an address or process entry. *)
Theorem route_skipped_dns_is_harmless (e : RouteEngine) c ip :
  (forall ix : IndexState, re_rulesets e = Some ix -> index_safe ix) ->
  fc_ip c = None -> parse_ip (fc_host c) = None -> resolving_plan (re_plan e) ->
  needs_destination_ip e c = false ->
  decide_detailed e (with_ip c ip) = decide_detailed e c.
Proof. intros Hix. apply skipped_dns_stable. intros ix Hre. by apply matcher_index_stable, Hix. Qed.

(** Skipping the process lookup is harmless in the same sense: when [needs_process] says no for a
    flow whose destination address is known and whose process is not, the flow is decided the same
    whatever process, process path and packages it turns out to belong to. *)
Theorem route_skipped_process_is_harmless (e : RouteEngine) c name path packages :
  (forall ix : IndexState, re_rulesets e = Some ix -> index_safe ix) ->
  process_unknown c -> is_some (mi_resolved_ip (MatchInput_new c)) = true -> needs_process e c = false ->
  decide_detailed e (with_process c name path packages) = decide_detailed e c.
Proof. intros Hix. apply skipped_process_stable. intros ix Hre. by apply matcher_index_stable, Hix. Qed.
End matcher.

(** ** Witnesses *)

Module RulesetMatcherWitness.
Import Concrete.
#[local] Existing Instances route_lib RulesetWitness.plain_sets ascii_mapping matcher_index.

Definition no_tables (name : string) : MatcherTables :=
  mkTables name [] (mkTrieNode [] false) None None None [] [] [] [] [] [] [] [] [] [] [] [] [] [] [] false [] [] None None None None [] [] [] [] [] [] [] [] [] [] false None [] [] None.

(** IP-CIDR,10.0.0.0/8 as a provider entry, and the same below NOT *)
Definition cidr_tables (name : string) : MatcherTables :=
  mkTables name [] (mkTrieNode [] false) None None None [] [RulesetWitness.ten] [] [] [] [] [] [] [] [] [] [] [] [] [] true [] [] None None None None [] [] [] [] [] [] [] [] [] [] false None [] [] None.
Definition program_tables (name : string) (p : RulesetProgram) : MatcherTables :=
  mkTables name [] (mkTrieNode [] false) None None None [] [] [] [] [] [] [] [] [] [] [] [] [] [] [] false [] [] None None None None [] [] [] [] [] [] [] [] [] [] false None [] [] (Some p).

Definition private : RulesetMatcher := mkMatcher (cidr_tables "private") [].
Definition semantic : RulesetMatcher := mkMatcher (program_tables "internal" RulesetWitness.prog) [].
Definition negated : RulesetMatcher := mkMatcher (no_tables "public") [LNot (LLeaf (mkMatcher (cidr_tables "logical") []))].

Definition opts : RouteRuleOptions := mkOptions false false false.

(** The domain rule is decided before the rule sets that would need the address. *)
Definition set_plan : RoutePlan :=
  mkPlan [mkStep (MSuffix "example") (AGroup "corp") "r0" opts; mkStep (MSet "private") ADirect "r1" opts; mkStep (MSet "internal") ADirect "r2" opts] [].

Definition index : RulesetIndex := ({["private" := private; "internal" := semantic]} : IndexState).

Lemma index_is_safe : index_safe index.
Proof.
  intros name m Hm. unfold index in Hm. apply (lookup_insert_Some (M := gmap string)) in Hm as [[_ <-]|[_ Hm]]; [reflexivity|]. by apply (lookup_singleton_Some (M := gmap string)) in Hm as [_ <-].
Qed.

Lemma set_plan_resolving e : re_plan e = set_plan -> resolving_plan (re_plan e).
Proof.
  intros -> s [Hs|(x & Hx & _)]; [|by apply elem_of_nil in Hx].
  repeat (apply elem_of_cons in Hs as [->|Hs]; [done|]). by apply elem_of_nil in Hs.
Qed.

Lemma set_plan_rulesets e : RouteEngine_with set_plan (Some index) = Ok e -> forall ix : IndexState, re_rulesets e = Some ix -> index_safe ix.
Proof. unfold RouteEngine_with. destruct (RouteMatch.compile set_plan); cbn; try done. intros [= <-] ix [= <-]. exact index_is_safe. Qed.

Definition lan : FlowContext := for_domain "mail.example" 80 NkTcp.

Lemma route_skipped_dns_is_harmless_witness :
  exists e, RouteEngine_with set_plan (Some index) = Ok e
    /\ decide_detailed e (with_ip lan (V4 167772161)) = decide_detailed e lan.
Proof.
  assert (Hrun : match RouteEngine_with set_plan (Some index) with Ok e => negb (needs_destination_ip e lan) | _ => false end = true)
    by (vm_compute; reflexivity).
  destruct (RouteEngine_with set_plan (Some index)) as [e| |] eqn:E; [|discriminate Hrun|discriminate Hrun].
  exists e. split; [done|]. apply (route_skipped_dns_is_harmless e lan (V4 167772161)).
  - exact (set_plan_rulesets e E).
  - reflexivity.
  - vm_compute. reflexivity.
  - apply set_plan_resolving. by destruct (RouteEngine_with_ok _ _ _ E).
  - by apply negb_true_iff.
Defined.

Definition literal : FlowContext := for_ip (V4 134744072) 80 NkTcp.

Lemma route_skipped_process_is_harmless_witness :
  exists e, RouteEngine_with set_plan (Some index) = Ok e
    /\ decide_detailed e (with_process literal (Some "curl") None []) = decide_detailed e literal.
Proof.
  assert (Hrun : match RouteEngine_with set_plan (Some index) with Ok e => negb (needs_process e literal) | _ => false end = true)
    by (vm_compute; reflexivity).
  destruct (RouteEngine_with set_plan (Some index)) as [e| |] eqn:E; [|discriminate Hrun|discriminate Hrun].
  exists e. split; [done|]. apply (route_skipped_process_is_harmless e literal (Some "curl") None []).
  - exact (set_plan_rulesets e E).
  - done.
  - reflexivity.
  - by apply negb_true_iff.
Defined.

(** A negation over an address entry answers before the address is known: the rule set
    NOT,((IP-CIDR,10.0.0.0/8)) matches a flow to an unresolved domain and asks for nothing, so a
    plan that sends it to DIRECT decides without a lookup, and decides differently when the domain
    turns out to be in 10.0.0.0/8. *)
Definition public_plan : RoutePlan :=
  mkPlan [mkStep (MSet "public") ADirect "r0" opts; mkStep MAny (AGroup "corp") "r1" opts] [].
Definition public_index : RulesetIndex := ({["public" := negated]} : IndexState).

Theorem negated_address_set_does_not_wait :
  exists e, RouteEngine_with public_plan (Some public_index) = Ok e
    /\ needs_destination_ip e lan = false
    /\ dd_decision (decide_detailed e lan) = DDirect /\ dd_decision (decide_detailed e (with_ip lan (V4 167772161))) = DGroup "corp".
Proof.
  assert (Hrun : match RouteEngine_with public_plan (Some public_index) with
                 | Ok e => negb (needs_destination_ip e lan)
                           && match dd_decision (decide_detailed e lan), dd_decision (decide_detailed e (with_ip lan (V4 167772161))) with
                              | DDirect, DGroup g => String.eqb g "corp" | _, _ => false end
                 | _ => false end = true) by (vm_compute; reflexivity).
  destruct (RouteEngine_with public_plan (Some public_index)) as [e| |]; [|discriminate Hrun|discriminate Hrun]. exists e. rewrite andb_true_iff, negb_true_iff in Hrun. destruct Hrun as [H1 H2].
  destruct (dd_decision (decide_detailed e lan)); try done. destruct (dd_decision (decide_detailed e (with_ip lan _))); try done. by apply String.eqb_eq in H2 as ->.
Qed.
End RulesetMatcherWitness.
