(* ===== verification/Sniff.v ===== *)
(** * Protocol sniffing ([core-route/src/sniff.rs])

    What the first datagram or segment of a flow tells: STUN, DTLS, QUIC, TLS with its server
    name, HTTP, and the host name a TCP flow is for.  Indexing is [index] and [get_slice], so
    that an access out of range would be a panic of the model. *)

From stdpp Require Import base list gmap strings numbers option.
From S2P Require Import Prelude Text Net Instances RouteModel.

Definition bytes_eqb (a b : list Z) : bool := bool_decide (a = b).

(** ** Datagrams *)

Definition sniff_udp (buf : list Z) : outcome L7Proto :=
  if len buf <? 8 then Ok OtherProto else
  cookie ← get_slice buf 4 8;
  b0 ← index buf 0;
  if bytes_eqb cookie [33; 18; 164; 66] && (Z.land b0 192 =? 0) then Ok Stun else
  b1 ← index buf 1;
  b2 ← index buf 2;
  if in_range 20 25 b0 && (b1 =? 254) && ((b2 =? 255) || (b2 =? 253) || (b2 =? 252)) then Ok Dtls else
  if negb (Z.land b0 128 =? 0) && (5 <=? len buf) then
    version ← get_slice buf 1 5;
    if negb (be_val version =? 0) then Ok Quic else Ok OtherProto
  else Ok OtherProto.

(** ** TLS *)

(** [u16::from_be_bytes([buf[i], buf[i + 1]])] *)
Definition be16_at (buf : list Z) (i : Z) : outcome Z :=
  a ← index buf i; b ← index buf (i + 1); Ok (a * 256 + b).

(** The server_name extension at [i] *)
Definition read_server_name (buf : list Z) (i ext_len : Z) : outcome (option string) :=
  if ext_len <? 5 then Ok None else
  _ ← be16_at buf i;
  name_type ← index buf (i + 2);
  if negb (name_type =? 0) then Ok None else
  name_len ← be16_at buf (i + 3);
  if len buf <? i + 5 + name_len then Ok None else
  name ← get_slice buf (i + 5) (i + 5 + name_len);
  Ok (from_utf8 name).

(** The [while] over the extensions: each round moves [i] by at least four. *)
Fixpoint ext_loop (fuel : nat) (buf : list Z) (ext_end i : Z) : outcome (option string) :=
  match fuel with
  | O => Panic
  | S fuel' =>
    if negb ((i + 4 <=? len buf) && (i + 4 <=? ext_end)) then Ok None else
    ext_type ← be16_at buf i;
    ext_len ← be16_at buf (i + 2);
    let i := i + 4 in
    if len buf <? i + ext_len then Ok None else
    if ext_type =? 0 then read_server_name buf i ext_len
    else ext_loop fuel' buf ext_end (i + ext_len)
  end.

Definition parse_tls_sni (buf : list Z) : outcome (option string) :=
  if len buf <? 43 then Ok None else
  b0 ← index buf 0;
  if negb (b0 =? 22) then Ok None else
  b5 ← index buf 5;
  if negb (b5 =? 1) then Ok None else
  let i := 43 in
  if len buf <=? i then Ok None else
  sid_len ← index buf i;
  let i := i + (1 + sid_len) in
  if len buf <? i + 2 then Ok None else
  cs_len ← be16_at buf i;
  let i := i + (2 + cs_len) in
  if len buf <? i + 1 then Ok None else
  cm_len ← index buf i;
  let i := i + (1 + cm_len) in
  if len buf <? i + 2 then Ok None else
  ext_total ← be16_at buf i;
  let i := i + 2 in
  let ext_end := i + ext_total in
  ext_loop (S (length buf)) buf ext_end i.

Definition HTTP_METHODS : list (list Z) :=
  str_bytes <$> ["GET "; "POST "; "HEAD "; "PUT "; "DELETE "; "CONNECT "; "OPTIONS "; "PATCH "; "TRACE "].

Definition sniff_tcp (buf : list Z) : outcome L7Proto :=
  if len buf <? 5 then Ok OtherProto else
  b0 ← index buf 0; b1 ← index buf 1; b2 ← index buf 2;
  if (b0 =? 22) && (b1 =? 3) && (b2 <=? 4) then
    sni ← parse_tls_sni buf;
    Ok (match sni with Some sni => Sni sni | None => Tls end)
  else if existsb (starts_with buf) HTTP_METHODS then Ok Http else Ok OtherProto.

(** ** Host names *)

(** [buf.windows(4).position(|w| w == b"\r\n\r\n")] *)
Fixpoint find_blank_line (l : list Z) : option Z :=
  match l with
  | 13 :: 10 :: 13 :: 10 :: _ => Some 0
  | _ :: l' => (fun n => n + 1) <$> find_blank_line l'
  | [] => None
  end.

(** [s.split("\r\n")] *)
Fixpoint split_crlf (l : list Z) : list (list Z) :=
  match l with
  | [] => [[]]
  | 13 :: 10 :: l' => [] :: split_crlf l'
  | x :: l' => match split_crlf l' with p :: ps => (x :: p) :: ps | [] => [[x]] end
  end.

(** [s.split_ascii_whitespace()]: space, tab, line feed, form feed, carriage return *)
Definition ascii_whitespace (c : Z) : bool := existsb (Z.eqb c) [32; 9; 10; 12; 13].
Fixpoint ascii_words (l : list Z) : list (list Z) :=
  match l with
  | [] => []
  | c :: l' =>
    if ascii_whitespace c then ascii_words l'
    else match l' with
         | c' :: _ => if ascii_whitespace c' then [c] :: ascii_words l'
                      else match ascii_words l' with w :: ws => (c :: w) :: ws | [] => [[c]] end
         | [] => [[c]]
         end
  end.

(** [target.split_once("://")], then the part before the first slash *)
Fixpoint after_scheme (l : list Z) : option (list Z) :=
  match l with
  | 58 :: 47 :: 47 :: rest => Some rest
  | _ :: l' => after_scheme l'
  | [] => None
  end.
Definition http_absolute_form_authority (target : string) : option string :=
  rest ← after_scheme (str_bytes target);
  Some (str_of_bytes (default rest (head (split_bytes 47 rest)))).

(** [s.rsplit_once(c)] *)
Definition str_rsplit_once (c : Z) (s : string) : option (string * string) :=
  '(b, a) ← split_once_bytes c (rev (str_bytes s)); Some (str_of_bytes (rev a), str_of_bytes (rev b)).

(** A byte that keeps a host: letters, digits, dot, dash and underscore *)
Definition host_byte (c : Z) : bool :=
  negb (in_range 0 31 c || (c =? 127)) && negb (ascii_whitespace c)
  && (in_range 48 57 c || in_range 65 90 c || in_range 97 122 c || (c =? 46) || (c =? 45) || (c =? 95)).

Section host.
Context `{NetText, StrCase}.

Definition normalize_sniffed_host (value : string) : option string :=
  let value := str_trim value in
  host ←
    match str_bytes value with
    | 91 :: bracketed => '(a, _) ← split_once_bytes 93 bracketed; Some (str_of_bytes a)
    | _ =>
      match str_rsplit_once 58 value with
      | Some (candidate, port) => Some (if bool_decide (is_Some (parse_u16 port)) then candidate else value)
      | None => Some value
      end
    end;
  let host := to_ascii_lowercase (trim_end_char 46 (str_trim host)) in
  if String.eqb host "" || (253 <? str_len host) || bool_decide (is_Some (parse_ip host))
     || existsb (fun c => negb (host_byte c)) (str_bytes host)
  then None else Some host.

(** The [for line in lines] over the headers *)
Fixpoint host_header (lines : list (list Z)) : option string :=
  match lines with
  | [] => None
  | line :: lines' =>
    match split_once_bytes 58 line with
    | None => host_header lines'
    | Some (name, value) =>
      if eq_ignore_ascii_case (str_of_bytes name) "host" then normalize_sniffed_host (str_trim (str_of_bytes value))
      else host_header lines'
    end
  end.

(** The HTTP part of [sniff_tcp_host] *)
Definition http_host (headers : string) : option string :=
  match split_crlf (str_bytes headers) with
  | [] => None
  | request_line :: lines =>
    method ← head (ascii_words request_line);
    let target := str_of_bytes (default [] (ascii_words request_line !! 1%nat)) in
    let from_target :=
      if eq_ignore_ascii_case (str_of_bytes method) "CONNECT" then normalize_sniffed_host target
      else authority ← http_absolute_form_authority target; normalize_sniffed_host authority in
    match from_target with Some host => Some host | None => host_header lines end
  end.

(** [buf.len() >= 6 && buf[0] == 0x16 && buf[1] == 0x03 && buf[2] <= 0x04] *)
Definition is_tls_hello (buf : list Z) : outcome bool :=
  if 6 <=? len buf then
    b0 ← index buf 0; b1 ← index buf 1; b2 ← index buf 2;
    Ok ((b0 =? 22) && (b1 =? 3) && (b2 <=? 4))
  else Ok false.

Definition sniff_tcp_host (buf : list Z) : outcome (option string) :=
  tls ← is_tls_hello buf;
  if (tls : bool) then sni ← parse_tls_sni buf; Ok (sni ≫= normalize_sniffed_host) else
  let header_end := match find_blank_line buf with Some p => p + 4 | None => Z.min (len buf) (16 * 1024) end in
  if len buf <? header_end then Ok None else
  Ok (headers ← from_utf8 (take (Z.to_nat header_end) buf); http_host headers).
End host.

(** ** No input panics *)

Lemma no_panic_be16 buf i : 0 <= i -> i + 2 <= len buf -> no_panic (be16_at buf i).
Proof. intros. unfold be16_at. np. Qed.

Lemma be16_range buf i z : bytes_ok buf -> be16_at buf i = Ok z -> 0 <= z.
Proof.
  intros Hb E. unfold be16_at in E. apply bind_Ok in E as (a & Ha & E). apply bind_Ok in E as (b & Hc & [= <-]).
  apply index_bytes_ok in Ha, Hc; [|done..]. unfold uint in *. lia.
Qed.

Lemma no_panic_server_name buf i ext_len : bytes_ok buf -> 0 <= i -> i + ext_len <= len buf -> no_panic (read_server_name buf i ext_len).
Proof.
  intros Hb Hi Hl. unfold read_server_name. destruct (Z.ltb_spec ext_len 5); [done|].
  apply no_panic_bind; [apply no_panic_be16; lia|]. intros _ _. apply no_panic_bind; [apply no_panic_index; lia|]. intros t _.
  destruct (negb _); [done|]. apply no_panic_bind; [apply no_panic_be16; lia|]. intros n Hn%be16_range; [|done].
  destruct (Z.ltb_spec (len buf) (i + 5 + n)); [done|]. apply no_panic_bind; [apply no_panic_get_slice; lia|done].
Qed.

Lemma no_panic_ext_loop fuel buf e i : bytes_ok buf -> 0 <= i -> len buf - i < Z.of_nat fuel -> 0 < Z.of_nat fuel -> no_panic (ext_loop fuel buf e i).
Proof.
  intros Hb. revert i. induction fuel as [|fuel IH]; intros i Hi Hf Hf0; [lia|]. cbn [ext_loop].
  destruct (negb _) eqn:Hin; [done|]. apply negb_false_iff, andb_prop in Hin as [Hin%Z.leb_le _].
  apply no_panic_bind; [apply no_panic_be16; lia|]. intros t _. apply no_panic_bind; [apply no_panic_be16; lia|]. intros n Hn%be16_range; [|done].
  destruct (Z.ltb_spec (len buf) (i + 4 + n)); [done|]. destruct (t =? 0); [apply no_panic_server_name; done || lia|]. apply IH; lia.
Qed.

Lemma no_panic_parse_tls_sni buf : bytes_ok buf -> no_panic (parse_tls_sni buf).
Proof.
  intros Hb. unfold parse_tls_sni. destruct (Z.ltb_spec (len buf) 43); [done|].
  apply no_panic_bind; [apply no_panic_index; lia|]. intros b0 _. destruct (negb _); [done|].
  apply no_panic_bind; [apply no_panic_index; lia|]. intros b5 _. destruct (negb _); [done|].
  destruct (Z.leb_spec (len buf) 43); [done|].
  apply no_panic_bind; [apply no_panic_index; lia|]. intros sid Hsid%index_bytes_ok; [|done]. unfold uint in Hsid.
  destruct (Z.ltb_spec (len buf) (43 + (1 + sid) + 2)); [done|].
  apply no_panic_bind; [apply no_panic_be16; lia|]. intros cs Hcs%be16_range; [|done].
  destruct (Z.ltb_spec (len buf) (43 + (1 + sid) + (2 + cs) + 1)); [done|].
  apply no_panic_bind; [apply no_panic_index; lia|]. intros cm Hcm%index_bytes_ok; [|done]. unfold uint in Hcm.
  destruct (Z.ltb_spec (len buf) (43 + (1 + sid) + (2 + cs) + (1 + cm) + 2)); [done|].
  apply no_panic_bind; [apply no_panic_be16; lia|]. intros total Ht%be16_range; [|done].
  apply no_panic_ext_loop; [done|lia|unfold len; lia|lia].
Qed.

(** ** A ClientHello and its server name *)

Definition be16 (z : Z) : list Z := be_bytes 2 z.
Definition encode_ext (e : Z * list Z) : list Z := be16 e.1 ++ be16 (len e.2) ++ e.2.
Definition sni_body (host : list Z) : list Z := be16 (3 + len host) ++ [0] ++ be16 (len host) ++ host.

(** A record with a ClientHello: [head] is the record and handshake header, the version and
    the random; the server_name extension may stand anywhere among the others. *)
Definition client_hello (head sid suites methods : list Z) (before : list (Z * list Z)) (host : list Z) (after : list (Z * list Z)) : list Z :=
  let exts := concat (encode_ext <$> before) ++ encode_ext (0, sni_body host) ++ concat (encode_ext <$> after) in
  head ++ [len sid] ++ sid ++ be16 (len suites) ++ suites ++ [len methods] ++ methods ++ be16 (len exts) ++ exts.

Definition u16_len {A} (l : list A) : Prop := len l < 65536.

Lemma be16_at_app pre z suf i : i = len pre -> 0 <= z < 65536 -> be16_at (pre ++ be16 z ++ suf) i = Ok z.
Proof.
  intros -> Hz. pose proof (len_nonneg pre).
  assert (E : be16 z = [z / 256; z mod 256]).
  { unfold be16. change (be_bytes 2 z) with [(z / 256) mod 256; (z / 1) mod 256]. rewrite Z.div_1_r, (Z.mod_small (z / 256)); [done|].
    split; [apply Z.div_pos; lia|apply Z.div_lt_upper_bound; lia]. }
  unfold be16_at. rewrite E. cbn [app]. rewrite (index_app_skip pre _ (len pre)), (index_app_skip pre _ (len pre + 1)), Z.sub_diag by lia. replace (len pre + 1 - len pre) with 1 by lia.
  rewrite (index_cons_eq _ _ 0 eq_refl). cbn [mbind outcome_bind]. rewrite (index_cons_skip _ _ 1), (index_cons_eq _ _ (1 - 1)) by lia. cbn [mbind outcome_bind].
  f_equal. pose proof (Z.div_mod z 256). lia.
Qed.

Lemma index_at (pre : list Z) x suf i : i = len pre -> index (pre ++ x :: suf) i = Ok x.
Proof. intros ->. rewrite index_app_skip, Z.sub_diag by lia. by apply index_cons_eq. Qed.

Lemma len_be16 z : len (be16 z) = 2.
Proof. apply len_be_bytes. Qed.

Lemma len_encode_ext e : len (encode_ext e) = 4 + len e.2.
Proof. unfold encode_ext. rewrite !len_app, !len_be16. lia. Qed.

(** The extension before which [pre] has been read *)
Lemma ext_header pre e suf fuel ext_end :
  u16_len e.2 -> 0 <= e.1 < 65536 -> len pre + 4 + len e.2 <= ext_end ->
  ext_loop (S fuel) (pre ++ encode_ext e ++ suf) ext_end (len pre)
  = if e.1 =? 0 then read_server_name (pre ++ encode_ext e ++ suf) (len pre + 4) (len e.2)
    else ext_loop fuel (pre ++ encode_ext e ++ suf) ext_end (len (pre ++ encode_ext e)).
Proof.
  unfold u16_len. intros Hl Ht He. pose proof (len_nonneg pre). pose proof (len_nonneg e.2). pose proof (len_nonneg suf).
  pose proof (len_encode_ext e) as Hlen.
  cbn [ext_loop]. rewrite !(len_app pre), len_app, Hlen.
  rewrite (proj2 (Z.leb_le _ _)), (proj2 (Z.leb_le _ _)) by lia. cbn [andb negb].
  replace (be16_at (pre ++ encode_ext e ++ suf) (len pre)) with (Ok e.1).
  2:{ unfold encode_ext. rewrite <- !app_assoc. by rewrite be16_at_app. }
  replace (be16_at (pre ++ encode_ext e ++ suf) (len pre + 2)) with (Ok (len e.2)).
  2:{ unfold encode_ext. rewrite <- !app_assoc, (app_assoc pre). by rewrite be16_at_app by (rewrite ?len_app, ?len_be16; lia). }
  cbn [mbind outcome_bind]. rewrite (proj2 (Z.ltb_ge _ _)) by lia. destruct (e.1 =? 0); [done|]. f_equal. lia.
Qed.

Lemma server_name_at pre host suf :
  u16_len (sni_body host) -> utf8_valid host = true ->
  read_server_name (pre ++ sni_body host ++ suf) (len pre) (len (sni_body host)) = Ok (Some (str_of_bytes host)).
Proof.
  unfold u16_len. intros Hl Hu. pose proof (len_nonneg pre). pose proof (len_nonneg host). pose proof (len_nonneg suf).
  assert (Hlen : len (sni_body host) = 5 + len host) by (unfold sni_body; rewrite !len_app, !len_be16; change (len [0]) with 1; lia).
  unfold read_server_name. rewrite (proj2 (Z.ltb_ge _ _)) by lia.
  replace (be16_at (pre ++ sni_body host ++ suf) (len pre)) with (Ok (3 + len host)).
  2:{ unfold sni_body. rewrite <- !app_assoc. by rewrite be16_at_app by lia. }
  replace (index (pre ++ sni_body host ++ suf) (len pre + 2)) with (Ok 0).
  2:{ unfold sni_body. rewrite <- !app_assoc, (app_assoc pre). cbn [app]. by rewrite index_at by (rewrite len_app, len_be16; lia). }
  replace (be16_at (pre ++ sni_body host ++ suf) (len pre + 3)) with (Ok (len host)).
  2:{ unfold sni_body. rewrite <- !app_assoc, (app_assoc pre), (app_assoc (pre ++ _)).
      by rewrite be16_at_app by (rewrite ?len_app, ?len_be16; change (len [0]) with 1; lia). }
  cbn [mbind outcome_bind Z.eqb negb]. rewrite !len_app, Hlen, (proj2 (Z.ltb_ge _ _)) by lia.
  replace (get_slice (pre ++ sni_body host ++ suf) (len pre + 5) (len pre + 5 + len host)) with (Ok host).
  2:{ rewrite get_slice_ok by (rewrite ?len_app; lia). unfold sni_body. rewrite <- !app_assoc, slice_app_skip by lia.
      rewrite !slice_app_skip by (rewrite ?len_be16; change (len [0]) with 1; lia). rewrite !len_be16. change (len [0]) with 1.
      rewrite slice_app_first, slice_exact by lia. done. }
  cbn [mbind outcome_bind]. unfold from_utf8. by rewrite Hu.
Qed.

Lemma ext_loop_finds before host suf fuel pre ext_end :
  Forall (fun e => u16_len e.2 /\ 0 < e.1 < 65536) before -> u16_len (sni_body host) -> utf8_valid host = true ->
  (length before < fuel)%nat ->
  len pre + len (concat (encode_ext <$> before) ++ encode_ext (0, sni_body host)) <= ext_end ->
  ext_loop fuel (pre ++ concat (encode_ext <$> before) ++ encode_ext (0, sni_body host) ++ suf) ext_end (len pre)
  = Ok (Some (str_of_bytes host)).
Proof.
  intros Hb Hs Hu. revert fuel pre. induction Hb as [|e before [Hl Ht] Hb IH]; intros fuel pre Hf He; (destruct fuel as [|fuel]; [cbn in Hf; lia|]).
  - cbn [fmap list_fmap concat app] in *. rewrite len_encode_ext in He. cbn [snd] in He.
    rewrite ext_header; [|done|cbn; lia|cbn [snd]; lia]. cbn [fst snd Z.eqb].
    assert (E : forall l, pre ++ encode_ext (0, l) ++ suf = (pre ++ be16 0 ++ be16 (len l)) ++ l ++ suf) by (intros; unfold encode_ext; cbn [fst snd]; by rewrite <- !app_assoc).
    rewrite E. replace (len pre + 4) with (len (pre ++ be16 0 ++ be16 (len (sni_body host)))) by (rewrite !len_app, !len_be16; lia).
    by apply server_name_at.
  - cbn [fmap list_fmap concat length] in *. rewrite <- !app_assoc in *. rewrite len_app in He.
    pose proof (len_nonneg (concat (encode_ext <$> before) ++ encode_ext (0, sni_body host))).
    rewrite ext_header; [|done|lia|rewrite len_encode_ext in He; lia].
    rewrite (proj2 (Z.eqb_neq e.1 0)) by lia. rewrite (app_assoc pre (encode_ext e)). apply IH; [lia|]. rewrite len_app. lia.
Qed.

#[local] Hint Rewrite len_be16 : len_db.

Lemma be16_at_skip pre l i : len pre <= i -> be16_at (pre ++ l) i = be16_at l (i - len pre).
Proof.
  intros Hi. unfold be16_at. rewrite (index_app_skip pre l i), (index_app_skip pre l (i + 1)) by lia.
  by replace (i + 1 - len pre) with (i - len pre + 1) by lia.
Qed.

(** Skips the segments of a concatenation that lie before the position read. *)
Ltac skip_to := repeat first [rewrite be16_at_skip by lens|rewrite index_app_skip by lens].

(** There are fewer extensions than bytes of extensions. *)
Lemma exts_count exts : Z.of_nat (length exts) <= len (concat (encode_ext <$> exts)).
Proof.
  induction exts as [|e exts IH]; [done|]. cbn [fmap list_fmap concat length]. rewrite len_app, len_encode_ext.
  pose proof (len_nonneg e.2). lia.
Qed.

(** The 43 bytes up to the session id: a handshake record with a ClientHello *)
Definition hello_head (head : list Z) : Prop :=
  len head = 43 /\ index head 0 = Ok 22 /\ index head 1 = Ok 3 /\ (exists v, index head 2 = Ok v /\ v <= 4) /\ index head 5 = Ok 1.

Lemma parse_client_hello head sid suites methods before host after :
  hello_head head -> len sid < 256 -> u16_len suites -> len methods < 256 ->
  Forall (fun e => u16_len e.2 /\ 0 < e.1 < 65536) before -> utf8_valid host = true ->
  u16_len (concat (encode_ext <$> before) ++ encode_ext (0, sni_body host) ++ concat (encode_ext <$> after)) ->
  parse_tls_sni (client_hello head sid suites methods before host after) = Ok (Some (str_of_bytes host)).
Proof.
  unfold u16_len. intros (Hh & H0 & _ & _ & H5) Hsid Hcs Hcm Hb Hu Hx.
  unfold client_hello. set (exts := concat _ ++ _) in *.
  pose proof (len_nonneg sid). pose proof (len_nonneg suites). pose proof (len_nonneg methods). pose proof (len_nonneg exts).
  set (buf := head ++ _).
  assert (Hlen : len buf = 43 + 1 + len sid + 2 + len suites + 1 + len methods + 2 + len exts) by (unfold buf; lens).
  assert (E0 : index buf 0 = Ok 22) by (unfold buf; rewrite index_app_first by lia; done).
  assert (E5 : index buf 5 = Ok 1) by (unfold buf; rewrite index_app_first by lia; done).
  assert (E1 : index buf 43 = Ok (len sid)) by (unfold buf; skip_to; by apply index_cons_eq; lens).
  assert (E2 : be16_at buf (43 + (1 + len sid)) = Ok (len suites)) by (unfold buf; skip_to; apply (be16_at_app []); lens).
  assert (E3 : index buf (43 + (1 + len sid) + (2 + len suites)) = Ok (len methods)) by (unfold buf; skip_to; by apply index_cons_eq; lens).
  assert (E4 : be16_at buf (43 + (1 + len sid) + (2 + len suites) + (1 + len methods)) = Ok (len exts))
    by (unfold buf; skip_to; rewrite <- (app_nil_l (be16 (len exts) ++ exts)); apply be16_at_app; lens).
  unfold parse_tls_sni. rewrite (proj2 (Z.ltb_ge (len buf) 43)), E0 by lia. cbn [mbind outcome_bind Z.eqb Pos.eqb negb].
  rewrite E5. cbn [mbind outcome_bind Z.eqb Pos.eqb negb]. rewrite (proj2 (Z.leb_gt (len buf) 43)), E1 by lia. cbn [mbind outcome_bind].
  rewrite (proj2 (Z.ltb_ge _ _)), E2 by lia. cbn [mbind outcome_bind]. rewrite (proj2 (Z.ltb_ge _ _)), E3 by lia. cbn [mbind outcome_bind].
  rewrite (proj2 (Z.ltb_ge _ _)), E4 by lia. cbn [mbind outcome_bind].
  assert (Hsplit : buf = (head ++ [len sid] ++ sid ++ be16 (len suites) ++ suites ++ [len methods] ++ methods ++ be16 (len exts)) ++ exts)
    by (unfold buf; by rewrite <- !app_assoc).
  set (pre := head ++ _) in Hsplit. assert (Hpre : len pre = 43 + (1 + len sid) + (2 + len suites) + (1 + len methods) + 2) by (unfold pre; lens).
  assert (Hexts : len exts = len (concat (encode_ext <$> before)) + (4 + len (sni_body host)) + len (concat (encode_ext <$> after)))
    by (unfold exts; rewrite !len_app, len_encode_ext; cbn [snd]; lia).
  rewrite Hsplit at 2. rewrite <- Hpre. unfold exts at 1.
  pose proof (len_nonneg (concat (encode_ext <$> before))). pose proof (len_nonneg (concat (encode_ext <$> after))).
  pose proof (len_nonneg (sni_body host)).
  apply ext_loop_finds; [exact Hb|unfold u16_len; lia|done| |].
  - pose proof (exts_count before). assert (Z.of_nat (length before) <= len buf) as Hc by lia. unfold len in Hc. lia.
  - rewrite len_app, len_encode_ext. cbn [snd]. lia.
Qed.

(** ** What sniffing promises *)

Section claims.
Context `{NetText, StrCase}.

(** Sniffing never panics: for every first datagram or segment, of any length and
    content, the three entry points return, and every index and slice they take is in range. *)
Theorem sniff_no_panic buf :
  bytes_ok buf -> no_panic (sniff_udp buf) /\ no_panic (sniff_tcp buf) /\ no_panic (sniff_tcp_host buf).
Proof.
  intros Hb. pose proof (no_panic_parse_tls_sni buf Hb) as Hsni. split_and!.
  - unfold sniff_udp. destruct (Z.ltb_spec (len buf) 8); [done|]. np.
  - unfold sniff_tcp. destruct (Z.ltb_spec (len buf) 5); [done|]. np; done.
  - unfold sniff_tcp_host. apply no_panic_bind.
    { unfold is_tls_hello. destruct (Z.leb_spec 6 (len buf)); [|done]. np. }
    intros [] _; [|by destruct (_ <? _)]. apply no_panic_bind; [done|]. by intros.
Qed.

(** The server name of a TLS ClientHello is found: whatever the session id, cipher
    suites, compression methods and other extensions before and after it, the flow is
    reported as TLS with exactly that name, and the name routed on is its normal form. *)
Theorem sniff_client_hello head sid suites methods before host after :
  hello_head head -> len sid < 256 -> u16_len suites -> len methods < 256 ->
  Forall (fun e => u16_len e.2 /\ 0 < e.1 < 65536) before -> utf8_valid host = true ->
  u16_len (concat (encode_ext <$> before) ++ encode_ext (0, sni_body host) ++ concat (encode_ext <$> after)) ->
  let buf := client_hello head sid suites methods before host after in
  sniff_tcp buf = Ok (Sni (str_of_bytes host))
  /\ sniff_tcp_host buf = Ok (normalize_sniffed_host (str_of_bytes host)).
Proof.
  intros Hh Hsid Hcs Hcm Hb Hu Hx buf.
  pose proof (parse_client_hello head sid suites methods before host after Hh Hsid Hcs Hcm Hb Hu Hx) as Hp. fold buf in Hp.
  destruct Hh as (Hl & Hb0 & Hb1 & (v & Hb2 & Hv) & _).
  assert (Hbuf : 43 <= len buf) by (unfold buf, client_hello; rewrite len_app; match goal with |- _ <= _ + len ?l => pose proof (len_nonneg l) end; lia).
  assert (Hidx : forall i x, i < 43 -> index head i = Ok x -> index buf i = Ok x)
    by (intros i x Hi E; unfold buf, client_hello; by rewrite index_app_first by lia).
  unfold sniff_tcp, sniff_tcp_host, is_tls_hello.
  rewrite (proj2 (Z.ltb_ge (len buf) 5)), (proj2 (Z.leb_le 6 (len buf))) by lia.
  rewrite (Hidx 0 22 ltac:(lia) Hb0), (Hidx 1 3 ltac:(lia) Hb1), (Hidx 2 v ltac:(lia) Hb2). cbn [mbind outcome_bind Z.eqb Pos.eqb andb].
  rewrite (proj2 (Z.leb_le v 4) Hv), Hp. done.
Qed.

(** Nor does it fail: the sniffers have no error of their own. *)
Lemma no_error_get_slice (buf : list Z) a b : no_error (get_slice buf a b).
Proof. unfold get_slice. by destruct (_ && _). Qed.

Ltac no_error :=
  repeat lazymatch goal with
  | |- no_error (index _ _) => apply no_error_index
  | |- no_error (get_slice _ _ _) => apply no_error_get_slice
  | |- no_error (be16_at _ _) => unfold be16_at
  | |- no_error (_ ≫= _) => apply no_error_bind; [|intros ?]
  | |- no_error (if ?b then _ else _) => destruct b
  | |- no_error (Ok _) => exact I
  end.

Lemma no_error_ext_loop fuel buf e i : no_error (ext_loop fuel buf e i).
Proof. revert i. induction fuel as [|fuel IH]; intros i; [done|]. cbn [ext_loop]. unfold read_server_name. no_error. apply IH. Qed.

Lemma no_error_parse_tls_sni buf : no_error (parse_tls_sni buf).
Proof. unfold parse_tls_sni. cbv zeta. no_error. apply no_error_ext_loop. Qed.

Lemma sniff_returns buf : bytes_ok buf -> (exists p, sniff_tcp buf = Ok p) /\ exists h, sniff_tcp_host buf = Ok h.
Proof.
  intros Hb. destruct (sniff_no_panic buf Hb) as (_ & Hp & Hh).
  assert (He : no_error (sniff_tcp buf) /\ no_error (sniff_tcp_host buf)).
  { unfold sniff_tcp, sniff_tcp_host, is_tls_hello. split; no_error; apply no_error_parse_tls_sni. }
  destruct He as [He Ke]. split; [destruct (sniff_tcp buf) as [a| |]|destruct (sniff_tcp_host buf) as [a| |]]; try done; by exists a.
Qed.

(** What a name must be to be routed on *)
Definition host_valid (h : string) : Prop :=
  h <> "" /\ str_len h <= 253 /\ parse_ip h = None
  /\ Forall (fun c => in_range 48 57 c || in_range 97 122 c || (c =? 46) || (c =? 45) || (c =? 95) = true) (str_bytes h).

Lemma lower_bytes_ok s : bytes_ok (ascii_lower_byte <$> str_bytes s).
Proof.
  apply Forall_fmap. eapply Forall_impl; [|apply (str_bytes_ok s)]. intros c Hc. cbn. unfold ascii_lower_byte, in_range, uint in *.
  destruct ((65 <=? c) && (c <=? 90)) eqn:E; lia.
Qed.

Lemma lowercase_not_upper s c : c ∈ str_bytes (to_ascii_lowercase s) -> in_range 65 90 c = false.
Proof.
  unfold to_ascii_lowercase. rewrite str_bytes_of_bytes by apply lower_bytes_ok. intros (x & -> & Hx)%list_elem_of_fmap.
  unfold ascii_lower_byte, in_range. destruct ((65 <=? x) && (x <=? 90)) eqn:E; [|done]. apply andb_prop in E as [E1 E2]. lia.
Qed.

Lemma normalize_valid v h : normalize_sniffed_host v = Some h -> host_valid h.
Proof.
  unfold normalize_sniffed_host. intros E. apply bind_Some in E as (host & _ & E).
  set (l := to_ascii_lowercase _) in E. destruct (_ || _) eqn:Hg; [done|]. injection E as <-.
  apply orb_false_elim in Hg as [Hg Hbytes]. apply orb_false_elim in Hg as [Hg Hip]. apply orb_false_elim in Hg as [He Hlen].
  split_and!.
  - by apply String.eqb_neq.
  - by apply Z.ltb_ge.
  - apply bool_decide_eq_false_1 in Hip. by apply eq_None_not_Some.
  - apply list.Forall_forall. intros c Hc. pose proof (lowercase_not_upper _ c Hc) as Hup.
    assert (Hb : negb (host_byte c) = false).
    { destruct (negb (host_byte c)) eqn:E; [|done]. rewrite <- Hbytes. symmetry. apply existsb_exists. exists c. by rewrite <- list_elem_of_In. }
    apply negb_false_iff in Hb. unfold host_byte in Hb. apply andb_prop in Hb as [_ Hb]. by rewrite Hup, orb_false_r in Hb.
Qed.

Lemma host_header_valid lines h : host_header lines = Some h -> host_valid h.
Proof.
  induction lines as [|line lines IH]; [done|]. cbn. destruct (split_once_bytes 58 line) as [[name value]|]; [|done].
  destruct (eq_ignore_ascii_case _ _); [apply normalize_valid|done].
Qed.

(** A host name recovered from a flow is safe to match rules against: it is not empty,
    at most 253 bytes, no IP address, and consists of lowercase letters, digits, dots, dashes
    and underscores, whether it comes from a TLS server name, an absolute-form or CONNECT
    request target, or a Host header. *)
Theorem sniffed_host_valid buf h : sniff_tcp_host buf = Ok (Some h) -> host_valid h.
Proof.
  unfold sniff_tcp_host. intros E. apply bind_Ok in E as ([] & _ & E).
  - apply bind_Ok in E as (sni & _ & [= E]). apply bind_Some in E as (s & _ & E). by eapply normalize_valid.
  - destruct (_ <? _); [done|]. injection E as E. apply bind_Some in E as (headers & _ & E). unfold http_host in E.
    destruct (split_crlf _) as [|line lines]; [done|]. apply bind_Some in E as (method & _ & E).
    destruct (if eq_ignore_ascii_case _ _ then _ else _) as [x|] eqn:Et; [|by eapply host_header_valid].
    injection E as <-. destruct (eq_ignore_ascii_case _ _); [by eapply normalize_valid|].
    apply bind_Some in Et as (a & _ & Et). by eapply normalize_valid.
Qed.
End claims.

(** ** Witnesses *)

Module SniffWitness.
Import Concrete.

Definition head : list Z := [22; 3; 1; 0; 90; 1; 0; 0; 86; 3; 3] ++ repeat 7 32.
Definition hello : list Z := client_hello head [1; 2; 3] [19; 1] [0] [(43, [2; 3; 4])] (str_bytes "WWW.Example.com") [(16, [])].

Lemma sniff_client_hello_witness :
  sniff_tcp hello = Ok (Sni "WWW.Example.com") /\ sniff_tcp_host hello = Ok (Some "www.example.com").
Proof.
  destruct (sniff_client_hello head [1; 2; 3] [19; 1] [0] [(43, [2; 3; 4])] (str_bytes "WWW.Example.com") [(16, [])]) as [E1 E2].
  - split_and!; try reflexivity. exists 1. by split.
  - reflexivity.
  - reflexivity.
  - reflexivity.
  - by repeat constructor.
  - reflexivity.
  - reflexivity.
  - split; [exact E1|]. exact E2.
Defined.

Definition request : list Z :=
  str_bytes "GET /index HTTP/1.1" ++ [13; 10] ++ str_bytes "hOst: Example.COM.:8080" ++ [13; 10; 13; 10].

Lemma sniff_no_panic_witness : no_panic (sniff_udp request) /\ no_panic (sniff_tcp request) /\ no_panic (sniff_tcp_host request).
Proof. apply sniff_no_panic. vm_compute. repeat constructor; discriminate. Defined.

Lemma sniffed_host_valid_witness : sniff_tcp_host request = Ok (Some "example.com") /\ host_valid "example.com".
Proof.
  assert (E : sniff_tcp_host request = Ok (Some "example.com")) by (vm_compute; reflexivity).
  split; [exact E|exact (sniffed_host_valid request "example.com" E)].
Defined.

Example udp_examples :
  (sniff_udp ([0; 1; 0; 0; 33; 18; 164; 66] ++ repeat 0 12), sniff_udp [22; 254; 253; 0; 0; 0; 0; 0], sniff_udp [192; 0; 0; 0; 1; 0; 0; 0])
  = (Ok Stun, Ok Dtls, Ok Quic).
Proof. reflexivity. Qed.
End SniffWitness.
