(* ===== verification/Singleflight.v ===== *)
(** * Coalescing identical queries ([core-resolver/src/singleflight.rs])

    [Singleflight::do_once] as a step relation over any number of concurrent tasks: one step
    per point at which another task can run, that is per access to the shared map
    ([DashMap], whose operations are atomic per key), per message of the broadcast channel
    of a flight, and per drop that another task can observe.

    A [tokio::sync::broadcast] receiver gets what is sent after it subscribed; a channel all
    of whose senders are dropped reports that it is closed once the receiver has nothing
    left.  A flight sends once, so that its buffer of one never lags.  An owner that is
    cancelled drops its guard and its senders without sending. *)

From stdpp Require Import base list gmap numbers option relations.
From S2P Require Import Prelude.

Section singleflight.
Context {K : Type} `{Countable K} {R : Type}.

(** [FlightResult], or the error of a closed channel; a cancelled task has no reply *)
Inductive Reply : Type := Got (r : R) | SenderDropped | Cancelled.

(** The broadcast channel of a flight: what was sent, and whether a sender is left *)
Record Chan : Type := mkChan { ch_sent : option R; ch_open : bool }.

(** Where a task is in [do_once] *)
Inductive Pc : Type :=
| AtGet (k : K)                                (** before [self.flights.get] *)
| AtInsert (k : K)                             (** before [entry(..).or_insert(..)] *)
| AtRecv (k : K) (fl : nat) (late : bool)      (** in [rx.recv().await]; subscribed after the send? *)
| AtRun (k : K) (fl : nat)                     (** in [f().await], as owner of [fl] *)
| AtSent (k : K) (fl : nat) (r : R)            (** after [tx.send], before [_guard] is dropped *)
| AtClose (k : K) (fl : nat) (reply : Reply)   (** after [_guard], before [state] and [tx] are dropped *)
| Finished (fl : option nat) (reply : Reply).

Record State : Type := mkState { st_flights : gmap K nat; st_chans : list Chan; st_tasks : list Pc }.

Definition goto (t : nat) (p : Pc) (s : State) : State := mkState (st_flights s) (st_chans s) (<[t := p]> (st_tasks s)).
Definition set_flights (m : gmap K nat) (s : State) : State := mkState m (st_chans s) (st_tasks s).
Definition set_chans (c : list Chan) (s : State) : State := mkState (st_flights s) c (st_tasks s).

(** [tx.subscribe()]: late when the flight has already sent *)
Definition subscribe (k : K) (fl : nat) (c : Chan) : Pc := AtRecv k fl (bool_decide (is_Some (ch_sent c))).

(** One step of task [t], which is at [p] *)
Inductive task_step (s : State) (t : nat) : Pc -> State -> Prop :=
| step_join k fl c :                           (** fast path: a flight is in progress *)
  st_flights s !! k = Some fl -> st_chans s !! fl = Some c ->
  task_step s t (AtGet k) (goto t (subscribe k fl c) s)
| step_miss k :
  st_flights s !! k = None -> task_step s t (AtGet k) (goto t (AtInsert k) s)
| step_lost_race k fl c :                      (** another task inserted first *)
  st_flights s !! k = Some fl -> st_chans s !! fl = Some c ->
  task_step s t (AtInsert k) (goto t (subscribe k fl c) s)
| step_own k :                                 (** our entry: a new flight *)
  st_flights s !! k = None ->
  task_step s t (AtInsert k)
    (goto t (AtRun k (length (st_chans s)))
       (set_flights (<[k := length (st_chans s)]> (st_flights s)) (set_chans (st_chans s ++ [mkChan None true]) s)))
| step_send k fl r :                           (** [f] returned [r]; [tx.send] *)
  task_step s t (AtRun k fl) (goto t (AtSent k fl r) (set_chans (<[fl := mkChan (Some r) true]> (st_chans s)) s))
| step_guard k fl r :                          (** [FlightGuard::drop] *)
  task_step s t (AtSent k fl r) (goto t (AtClose k fl (Got r)) (set_flights (delete k (st_flights s)) s))
| step_cancel_owner k fl :
  task_step s t (AtRun k fl) (goto t (AtClose k fl Cancelled) (set_flights (delete k (st_flights s)) s))
| step_close k fl reply c :                    (** the last senders are dropped *)
  st_chans s !! fl = Some c ->
  task_step s t (AtClose k fl reply)
    (goto t (Finished (Some fl) reply) (set_chans (<[fl := mkChan (ch_sent c) false]> (st_chans s)) s))
| step_recv k fl c r :
  st_chans s !! fl = Some c -> ch_sent c = Some r ->
  task_step s t (AtRecv k fl false) (goto t (Finished (Some fl) (Got r)) s)
| step_recv_closed k fl late c :
  st_chans s !! fl = Some c -> ch_open c = false -> late = true \/ ch_sent c = None ->
  task_step s t (AtRecv k fl late) (goto t (Finished (Some fl) SenderDropped) s)
| step_cancel_waiter k fl late :
  task_step s t (AtRecv k fl late) (goto t (Finished None Cancelled) s).

Definition step (s s' : State) : Prop := exists t p, st_tasks s !! t = Some p /\ task_step s t p s'.

(** The tasks call [do_once] with their keys; no flight is in progress. *)
Definition initial (keys : list K) : State := mkState ∅ [] (AtGet <$> keys).
Definition reachable (keys : list K) (s : State) : Prop := rtc step (initial keys) s.

(** ** The invariant *)

(** The flight a task owns, with its key and whether its entry is still in the map *)
Definition owns (p : Pc) : option (K * nat * bool) :=
  match p with
  | AtRun k fl => Some (k, fl, true)
  | AtSent k fl _ => Some (k, fl, true)
  | AtClose k fl _ => Some (k, fl, false)
  | _ => None
  end.

(** What the channel of an owned flight holds *)
Definition owner_chan (p : Pc) : option (option R) :=
  match p with
  | AtRun _ _ => Some None
  | AtSent _ _ r => Some (Some r)
  | AtClose _ _ (Got r) => Some (Some r)
  | AtClose _ _ _ => Some None
  | _ => None
  end.

Record inv (s : State) : Prop := {
  inv_map : forall k fl, st_flights s !! k = Some fl ->
    exists t p, st_tasks s !! t = Some p /\ owns p = Some (k, fl, true);
  inv_owner : forall t p k fl b, st_tasks s !! t = Some p -> owns p = Some (k, fl, b) ->
    (b = true -> st_flights s !! k = Some fl)
    /\ exists sent, owner_chan p = Some sent /\ st_chans s !! fl = Some (mkChan sent true);
  inv_unique : forall t t' p p' k k' fl b b', st_tasks s !! t = Some p -> st_tasks s !! t' = Some p' ->
    owns p = Some (k, fl, b) -> owns p' = Some (k', fl, b') -> t = t';
  inv_open : forall fl c, st_chans s !! fl = Some c -> ch_open c = true ->
    exists t p k b, st_tasks s !! t = Some p /\ owns p = Some (k, fl, b);
  inv_waiter : forall t k fl late, st_tasks s !! t = Some (AtRecv k fl late) ->
    exists c, st_chans s !! fl = Some c /\ (late = true -> is_Some (ch_sent c));
  inv_reply : forall t fl r, st_tasks s !! t = Some (Finished (Some fl) (Got r)) ->
    exists c, st_chans s !! fl = Some c /\ ch_sent c = Some r
}.

Lemma goto_tasks t q s t0 p0 :
  (t < length (st_tasks s))%nat -> st_tasks (goto t q s) !! t0 = Some p0 <->
  (t0 = t /\ p0 = q) \/ (t0 <> t /\ st_tasks s !! t0 = Some p0).
Proof.
  intros Ht. cbn. destruct (decide (t0 = t)) as [->|Hne].
  - rewrite list_lookup_insert_eq by done. naive_solver.
  - rewrite list_lookup_insert_ne by done. naive_solver.
Qed.

(** The parts of the invariant a task must satisfy on its own *)
Definition task_ok (chans : list Chan) (p : Pc) : Prop :=
  match p with
  | AtRecv _ fl late => exists c, chans !! fl = Some c /\ (late = true -> is_Some (ch_sent c))
  | Finished (Some fl) (Got r) => exists c, chans !! fl = Some c /\ ch_sent c = Some r
  | _ => True
  end.

(** A task that owns nothing moves on: nothing shared changes. *)
Lemma inv_goto s t p q :
  inv s -> st_tasks s !! t = Some p -> owns p = None -> owns q = None -> task_ok (st_chans s) q -> inv (goto t q s).
Proof.
  intros Hi Hp Hop Hoq Hq. assert (Ht : (t < length (st_tasks s))%nat) by (by eapply lookup_lt_Some).
  assert (Hkeep : forall t0 p0 x, owns p0 = Some x -> st_tasks (goto t q s) !! t0 = Some p0 <-> st_tasks s !! t0 = Some p0).
  { intros t0 p0 x Ho. rewrite goto_tasks by done. split; [intros [[-> ->]|[_ E]]; [congruence|done]|].
    intros E. right. split; [|done]. intros ->. congruence. }
  split; cbn [goto st_flights st_chans].
  - intros k fl E. destruct (inv_map s Hi k fl E) as (t0 & p0 & E0 & Ho). exists t0, p0. by rewrite (Hkeep _ _ _ Ho).
  - intros t0 p0 k fl b E0 Ho. rewrite (Hkeep _ _ _ Ho) in E0. by apply (inv_owner s Hi t0).
  - intros t0 t1 p0 p1 k k' fl b b' E0 E1 Ho0 Ho1. rewrite (Hkeep _ _ _ Ho0) in E0. rewrite (Hkeep _ _ _ Ho1) in E1.
    by eapply (inv_unique s Hi).
  - intros fl c E Ho. destruct (inv_open s Hi fl c E Ho) as (t0 & p0 & k & b & E0 & Hw). exists t0, p0, k, b. by rewrite (Hkeep _ _ _ Hw).
  - intros t0 k fl late E. apply goto_tasks in E as [[-> <-]|[_ E]]; [exact Hq| |done]. by apply (inv_waiter s Hi t0 k).
  - intros t0 fl r E. apply goto_tasks in E as [[-> <-]|[_ E]]; [exact Hq| |done]. by apply (inv_reply s Hi t0).
Qed.

(** What an owner's move does to its flight: it keeps its entry, gives it up, or closes the
    channel *)
Definition owner_move (s : State) (p q : Pc) (k : K) (fl : nat) (b : bool) (fs : gmap K nat) (c : Chan) : Prop :=
  (owns q = Some (k, fl, true) /\ b = true /\ fs = st_flights s /\ owner_chan q = Some (ch_sent c) /\ ch_open c = true)
  \/ (owns q = Some (k, fl, false) /\ b = true /\ fs = delete k (st_flights s) /\ owner_chan q = Some (ch_sent c) /\ ch_open c = true)
  \/ (owns q = None /\ b = false /\ fs = st_flights s /\ ch_open c = false).

Lemma chan_eta c : mkChan (ch_sent c) (ch_open c) = c.
Proof. by destruct c. Qed.

Section owner_step.
Context (s : State) (t : nat) (p q : Pc) (k : K) (fl : nat) (b : bool) (fs : gmap K nat) (c : Chan).
Hypothesis Hi : inv s.
Hypothesis Hp : st_tasks s !! t = Some p.
Hypothesis Hop : owns p = Some (k, fl, b).
Hypothesis Hsent : forall r, owner_chan p = Some (Some r) -> ch_sent c = Some r.
Hypothesis Hmove : owner_move s p q k fl b fs c.
Hypothesis Hq : task_ok (<[fl := c]> (st_chans s)) q.

Let s' : State := goto t q (mkState fs (<[fl := c]> (st_chans s)) (st_tasks s)).

Lemma os_task t0 p0 : st_tasks s' !! t0 = Some p0 <-> (t0 = t /\ p0 = q) \/ (t0 <> t /\ st_tasks s !! t0 = Some p0).
Proof using Hp. unfold s'. rewrite goto_tasks; [done|]. cbn. exact (lookup_lt_Some _ _ _ Hp). Qed.

Lemma os_other t0 p0 k0 fl0 b0 : t0 <> t -> st_tasks s !! t0 = Some p0 -> owns p0 = Some (k0, fl0, b0) -> fl0 <> fl.
Proof using Hi Hp Hop. intros Hne E0 Ho ->. apply Hne. by eapply (inv_unique s Hi). Qed.

Lemma os_chan : st_chans s' !! fl = Some c.
Proof using Hi Hp Hop.
  destruct (inv_owner s Hi t p k fl b Hp Hop) as (_ & sent & _ & E). cbn. apply list_lookup_insert_eq. by eapply lookup_lt_Some.
Qed.

(** A channel keeps what was sent. *)
Lemma os_kept fl0 c0 r : st_chans s !! fl0 = Some c0 -> ch_sent c0 = Some r -> exists c1, st_chans s' !! fl0 = Some c1 /\ ch_sent c1 = Some r.
Proof using Hi Hp Hop Hsent.
  intros E Hr. destruct (decide (fl0 = fl)) as [->|Hne].
  - exists c. split; [apply os_chan|]. destruct (inv_owner s Hi t p k fl b Hp Hop) as (_ & sent & Hs & E1).
    rewrite E in E1. injection E1 as ->. cbn in Hr. subst sent. by apply Hsent.
  - exists c0. split; [|done]. cbn. by rewrite list_lookup_insert_ne.
Qed.

Lemma inv_owner_step : inv s'.
Proof using All.
  split.
  - intros k0 fl0 E. change (fs !! k0 = Some fl0) in E.
    assert (E0 : st_flights s !! k0 = Some fl0) 
      by (destruct Hmove as [(_ & _ & Hf & _)|[(_ & _ & Hf & _)|(_ & _ & Hf & _)]]; rewrite Hf in E; [done|by apply lookup_delete_Some in E as [_ E]|done]).
    destruct (inv_map s Hi k0 fl0 E0) as (t0 & p0 & Et & Ho). destruct (decide (t0 = t)) as [->|Hne].
    + rewrite Hp in Et. injection Et as <-. rewrite Hop in Ho. injection Ho as Hk0 Hfl0 Hb0.
      destruct Hmove as [(Hoq & _)|[(_ & _ & Hf & _)|(_ & ? & _)]]; [|by rewrite Hf, Hk0, lookup_delete_eq in E|congruence].
      exists t, q. rewrite os_task, <- Hk0, <- Hfl0. auto.
    + exists t0, p0. rewrite os_task. auto.
  - intros t0 p0 k0 fl0 b0 E Ho. apply os_task in E as [[-> ->]|[Hne E]].
    + destruct Hmove as [(Hoq & Hb & Hfs & Hc & Hopn)|[(Hoq & Hb & Hfs & Hc & Hopn)|(Hoq & _)]]; [| |congruence];
        rewrite Hoq in Ho; injection Ho as <- <- <-;
        (split; [|exists (ch_sent c); split; [done|]; rewrite os_chan; by rewrite <- Hopn, chan_eta]).
      * intros _. cbn. rewrite Hfs. by apply (inv_owner s Hi t p k fl b Hp Hop).
      * done.
    + pose proof (os_other t0 p0 k0 fl0 b0 Hne E Ho) as Hfl. destruct (inv_owner s Hi t0 p0 k0 fl0 b0 E Ho) as (Hm & sent & Hs & Hc). split.
      * intros Hb. specialize (Hm Hb). cbn. destruct Hmove as [(_ & _ & Hf & _)|[(_ & Hbt & Hf & _)|(_ & _ & Hf & _)]]; rewrite Hf; [done| |done].
        rewrite lookup_delete_ne; [done|]. intros Hk0. destruct (inv_owner s Hi t p k fl b Hp Hop) as [Hk _]. specialize (Hk Hbt). congruence.
      * exists sent. split; [done|]. cbn. by rewrite list_lookup_insert_ne.
  - intros t0 t1 p0 p1 k0 k1 fl0 b0 b1 E0 E1 Ho0 Ho1. apply os_task in E0 as [[-> ->]|[Hn0 E0]], E1 as [[-> ->]|[Hn1 E1]]; [done| | |].
    + exfalso. apply (os_other t1 p1 k1 fl0 b1 Hn1 E1 Ho1). destruct Hmove as [(Hoq & _)|[(Hoq & _)|(Hoq & _)]]; congruence.
    + exfalso. apply (os_other t0 p0 k0 fl0 b0 Hn0 E0 Ho0). destruct Hmove as [(Hoq & _)|[(Hoq & _)|(Hoq & _)]]; congruence.
    + by eapply (inv_unique s Hi).
  - intros fl0 c0 E Hopen. destruct (decide (fl0 = fl)) as [->|Hne].
    + rewrite os_chan in E. injection E as <-. destruct Hmove as [(Hoq & _)|[(Hoq & _)|(_ & _ & _ & Hcl)]]; [| |congruence];
        eexists t, q, k, _; (split; [rewrite os_task; auto|exact Hoq]).
    + cbn in E. rewrite list_lookup_insert_ne in E by done. destruct (inv_open s Hi fl0 c0 E Hopen) as (t0 & p0 & k0 & b0 & E0 & Ho).
      exists t0, p0, k0, b0. split; [|done]. rewrite os_task. right. split; [|done]. intros ->. rewrite Hp in E0. injection E0 as <-. congruence.
  - intros t0 k0 fl0 late E. apply os_task in E as [[-> <-]|[_ E]]; [exact Hq|].
    destruct (inv_waiter s Hi t0 k0 fl0 late E) as (c0 & Ec & Hl). destruct (decide (fl0 = fl)) as [->|Hne].
    + exists c. split; [apply os_chan|]. intros Hlate. destruct (Hl Hlate) as [r Hr]. destruct (os_kept fl c0 r Ec Hr) as (c1 & E1 & Hr1).
      rewrite os_chan in E1. injection E1 as <-. by exists r.
    + exists c0. split; [|done]. cbn. by rewrite list_lookup_insert_ne.
  - intros t0 fl0 r E. apply os_task in E as [[-> <-]|[_ E]]; [exact Hq|].
    destruct (inv_reply s Hi t0 fl0 r E) as (c0 & Ec & Hr). by apply (os_kept fl0 c0).
Qed.
End owner_step.

(** A task starts a flight of its own. *)
Lemma inv_own s t k :
  inv s -> st_tasks s !! t = Some (AtInsert k) -> st_flights s !! k = None ->
  inv (goto t (AtRun k (length (st_chans s)))
    (set_flights (<[k := length (st_chans s)]> (st_flights s)) (set_chans (st_chans s ++ [mkChan None true]) s))).
Proof.
  intros Hi Hp Hk. set (n := length (st_chans s)). set (s' := goto t _ _).
  assert (Htask : forall t0 p0, st_tasks s' !! t0 = Some p0 <-> (t0 = t /\ p0 = AtRun k n) \/ (t0 <> t /\ st_tasks s !! t0 = Some p0)).
  { intros. unfold s'. rewrite goto_tasks; [done|]. cbn. exact (lookup_lt_Some _ _ _ Hp). }
  assert (Hold : forall fl c, st_chans s !! fl = Some c -> st_chans s' !! fl = Some c) by (intros; cbn; by apply lookup_app_l_Some).
  assert (Hlt : forall t0 p0 k0 fl b, st_tasks s !! t0 = Some p0 -> owns p0 = Some (k0, fl, b) -> (fl < n)%nat).
  { intros t0 p0 k0 fl b E Ho. destruct (inv_owner s Hi t0 p0 k0 fl b E Ho) as (_ & sent & _ & E1). by eapply lookup_lt_Some. }
  split.
  - intros k0 fl E. cbn in E. apply lookup_insert_Some in E as [[<- <-]|[Hne E]]; [exists t, (AtRun k n); rewrite Htask; auto|].
    destruct (inv_map s Hi k0 fl E) as (t0 & p0 & E0 & Ho). exists t0, p0. split; [|done]. rewrite Htask. right.
    split; [|done]. intros ->. rewrite Hp in E0. by injection E0 as <-.
  - intros t0 p0 k0 fl b E Ho. apply Htask in E as [[-> ->]|[Hne E]].
    + injection Ho as <- <- <-. split; [intros _; cbn; by rewrite lookup_insert_eq|]. exists None. split; [done|]. cbn. by apply list_lookup_middle.
    + destruct (inv_owner s Hi t0 p0 k0 fl b E Ho) as (Hm & sent & Hs & Hc). split; [|by eauto].
      intros Hb. specialize (Hm Hb). cbn. rewrite lookup_insert_ne; [done|]. intros ->. congruence.
  - intros t0 t1 p0 p1 k0 k1 fl b0 b1 E0 E1 Ho0 Ho1. apply Htask in E0 as [[-> ->]|[Hn0 E0]], E1 as [[-> ->]|[Hn1 E1]]; [done| | |].
    + injection Ho0 as <- <- <-. pose proof (Hlt _ _ _ _ _ E1 Ho1). lia.
    + injection Ho1 as <- <- <-. pose proof (Hlt _ _ _ _ _ E0 Ho0). lia.
    + by eapply (inv_unique s Hi).
  - intros fl c E Hopen. cbn in E. apply lookup_app_Some in E as [E|[Hge E]].
    + destruct (inv_open s Hi fl c E Hopen) as (t0 & p0 & k0 & b & E0 & Ho). exists t0, p0, k0, b. split; [|done].
      rewrite Htask. right. split; [|done]. intros ->. rewrite Hp in E0. by injection E0 as <-.
    + apply list_lookup_singleton_Some in E as [E <-]. exists t, (AtRun k n), k, true. rewrite Htask. split; [auto|].
      fold n in Hge, E. assert (fl = n) as -> by lia. done.
  - intros t0 k0 fl late E. apply Htask in E as [[-> E]|[_ E]]; [done|]. destruct (inv_waiter s Hi t0 k0 fl late E) as (c & Ec & Hl). eauto.
  - intros t0 fl r E. apply Htask in E as [[-> E]|[_ E]]; [done|]. destruct (inv_reply s Hi t0 fl r E) as (c & Ec & Hl). eauto.
Qed.

Lemma subscribe_ok chans k fl c : chans !! fl = Some c -> task_ok chans (subscribe k fl c).
Proof. intros E. cbn. exists c. split; [done|]. by intros ?%bool_decide_eq_true_1. Qed.

Lemma goto_keep s t q fs fl c :
  st_chans s !! fl = Some c -> goto t q (set_flights fs s) = goto t q (mkState fs (<[fl := c]> (st_chans s)) (st_tasks s)).
Proof. intros E. unfold goto, set_flights. cbn. by rewrite (list_insert_id (st_chans s) fl c E). Qed.

(** An owner gives up its entry with what it has sent so far. *)
Lemma inv_release s t p k fl sent reply :
  inv s -> st_tasks s !! t = Some p -> owns p = Some (k, fl, true) -> owner_chan p = Some sent ->
  owner_chan (AtClose k fl reply) = Some sent -> inv (goto t (AtClose k fl reply) (set_flights (delete k (st_flights s)) s)).
Proof.
  intros Hi Hp Ho Hs Hq. destruct (inv_owner s Hi t p k fl true Hp Ho) as (_ & sent' & Hs' & Hc).
  rewrite Hs in Hs'. injection Hs' as <-. rewrite (goto_keep s t _ _ fl _ Hc).
  apply (inv_owner_step s t p (AtClose k fl reply) k fl true (delete k (st_flights s)) (mkChan sent true) Hi Hp Ho); [|right; left; by split_and!|done].
  intros r Hr. rewrite Hs in Hr. by injection Hr as ->.
Qed.

Lemma inv_step s s' : inv s -> step s s' -> inv s'.
Proof.
  intros Hi (t & p & Hp & Hs). destruct Hs as [| | | | k fl r | | | k fl reply c Hc| | |].
  - apply (inv_goto s t _ _ Hi Hp); [done|done|]. by apply subscribe_ok.
  - by apply (inv_goto s t _ _ Hi Hp).
  - apply (inv_goto s t _ _ Hi Hp); [done|done|]. by apply subscribe_ok.
  - by apply inv_own.
  - apply (inv_owner_step s t _ (AtSent k fl r) k fl true (st_flights s) (mkChan (Some r) true) Hi Hp eq_refl); [done| |done].
    left. by split_and!.
  - by eapply inv_release.
  - by eapply inv_release.
  - destruct (inv_owner s Hi t _ k fl false Hp eq_refl) as (_ & sent & Hs & Hc'). rewrite Hc in Hc'. injection Hc' as ->.
    apply (inv_owner_step s t _ (Finished (Some fl) reply) k fl false (st_flights s) (mkChan sent false) Hi Hp eq_refl).
    + intros r Hr. rewrite Hs in Hr. by injection Hr as ->.
    + right; right. by split_and!.
    + destruct reply as [r| |]; [|done|done]. injection Hs as <-. exists (mkChan (Some r) false). split; [|done].
      apply list_lookup_insert_eq. by eapply lookup_lt_Some.
  - apply (inv_goto s t _ _ Hi Hp); [done|done|]. cbn. eauto.
  - by apply (inv_goto s t _ _ Hi Hp).
  - by apply (inv_goto s t _ _ Hi Hp).
Qed.

Lemma inv_initial keys : inv (initial keys).
Proof.
  assert (Hget : forall t p, st_tasks (initial keys) !! t = Some p -> exists k, p = AtGet k).
  { intros t p E. cbn in E. rewrite list_lookup_fmap in E. apply fmap_Some in E as (k & _ & ->). by exists k. }
  split.
  - intros k fl E. cbn in E. by rewrite lookup_empty in E.
  - intros t p k fl b E Ho. by destruct (Hget t p E) as [k' ->].
  - intros t t' p p' k k' fl b b' E _ Ho _. by destruct (Hget t p E) as [k0 ->].
  - intros fl c E. by cbn in E.
  - intros t k fl late E. by destruct (Hget t _ E) as [k' ?].
  - intros t fl r E. by destruct (Hget t _ E) as [k' ?].
Qed.

Lemma reachable_inv keys s : reachable keys s -> inv s.
Proof.
  unfold reachable. intros Hr. apply rtc_ind_r with (P := inv) (x := initial keys) in Hr; [done|apply inv_initial|].
  intros y z _ Hstep Hy. by eapply inv_step.
Qed.

(** ** Progress *)

Definition work (p : Pc) : nat :=
  match p with
  | AtGet _ => 5 | AtInsert _ => 4 | AtRun _ _ => 3 | AtSent _ _ _ => 2 | AtClose _ _ _ => 1 | AtRecv _ _ _ => 1 | Finished _ _ => 0
  end.
Definition total_work (s : State) : nat := sum_list (work <$> st_tasks s).
Definition finished (p : Pc) : Prop := exists fl reply, p = Finished fl reply.

Lemma sum_insert (l : list nat) t x y : l !! t = Some x -> (sum_list (<[t := y]> l) + x = sum_list l + y)%nat.
Proof.
  revert t. induction l as [|z l IH]; intros [|t] E; [done|done|injection E as ->; cbn; lia|]. specialize (IH t E).
  change (<[S t := y]> (z :: l)) with (z :: <[t := y]> l). cbn [sum_list_with id] in *. lia.
Qed.

Lemma step_work s s' : step s s' -> (total_work s' < total_work s)%nat.
Proof.
  intros (t & p & Hp & Hs). unfold total_work.
  assert (Hsum : forall q fs cs, (work q < work p)%nat -> (sum_list (work <$> st_tasks (goto t q (mkState fs cs (st_tasks s)))) < sum_list (work <$> st_tasks s))%nat).
  { intros q fs cs Hq. cbn. rewrite list_fmap_insert. pose proof (sum_insert (work <$> st_tasks s) t (work p) (work q)) as E.
    rewrite list_lookup_fmap, Hp in E. specialize (E eq_refl). lia. }
  destruct Hs; apply Hsum; cbn; lia.
Qed.

Lemma stuck_finished s : inhabited R -> inv s -> (forall s', ~ step s s') -> Forall finished (st_tasks s).
Proof.
  intros [r] Hi Hstuck. apply list.Forall_forall. intros p (t & Hp)%list_elem_of_lookup_1.
  assert (Hno : forall t p s', st_tasks s !! t = Some p -> ~ task_step s t p s').
  { intros t0 p0 s' E Hs. apply (Hstuck s'). by exists t0, p0. }
  assert (Howner : forall t p k fl b, st_tasks s !! t = Some p -> owns p = Some (k, fl, b) -> False).
  { intros t0 p0 k fl b E Ho. destruct (inv_owner s Hi t0 p0 k fl b E Ho) as (_ & sent & _ & Hc).
    destruct p0; simplify_eq/=; eapply (Hno t0); try exact E.
    - by apply (step_send _ _ _ _ r).
    - by apply step_guard.
    - by eapply step_close. }
  destruct p as [k|k|k fl late|k fl|k fl r'|k fl reply|fl reply].
  - exfalso. destruct (st_flights s !! k) as [fl|] eqn:Hf; [|by eapply (Hno t), step_miss].
    destruct (inv_map s Hi k fl Hf) as (t0 & p0 & E0 & Ho). by eapply Howner.
  - exfalso. destruct (st_flights s !! k) as [fl|] eqn:Hf; [|by eapply (Hno t), step_own].
    destruct (inv_map s Hi k fl Hf) as (t0 & p0 & E0 & Ho). by eapply Howner.
  - exfalso. destruct (inv_waiter s Hi t k fl late Hp) as (c & Hc & Hl). destruct (ch_open c) eqn:Hopen.
    { destruct (inv_open s Hi fl c Hc Hopen) as (t0 & p0 & k0 & b & E0 & Ho). by eapply Howner. }
    destruct late; [eapply (Hno t); [exact Hp|]; eapply step_recv_closed; by eauto|].
    destruct (ch_sent c) as [r'|] eqn:Hsent; eapply (Hno t); try exact Hp; [by eapply step_recv|eapply step_recv_closed; by eauto].
  - exfalso. by eapply Howner.
  - exfalso. by eapply Howner.
  - exfalso. by eapply Howner.
  - by exists fl, reply.
Qed.

(** ** Keys

    Ghost list [kf]: the key each flight was started for.  A task only ever joins, runs or answers
    a flight of the key it was called with, and what a channel holds was returned by the query of
    a task with that key. *)

(** The query of a task that was called with [k] returned [r] in flight [fl], earlier in the run that led to [s]. *)
Definition queried (keys : list K) (s : State) (k : K) (fl : nat) (r : R) : Prop :=
  exists t s1, reachable keys s1 /\ keys !! t = Some k /\ st_tasks s1 !! t = Some (AtRun k fl)
    /\ rtc step (goto t (AtSent k fl r) (set_chans (<[fl := mkChan (Some r) true]> (st_chans s1)) s1)) s.

(** The key of a call, and the flight it takes part in *)
Definition pc_key (p : Pc) : option K :=
  match p with AtGet k | AtInsert k | AtRecv k _ _ | AtRun k _ | AtSent k _ _ | AtClose k _ _ => Some k | Finished _ _ => None end.
Definition pc_flight (p : Pc) : option nat :=
  match p with AtRecv _ fl _ | AtRun _ fl | AtSent _ fl _ | AtClose _ fl _ => Some fl | Finished fl _ => fl | AtGet _ | AtInsert _ => None end.

(** A task at [p] called with [key] *)
Definition keyed (kf : list K) (key : option K) (p : Pc) : Prop :=
  is_Some key /\ (forall k, pc_key p = Some k -> key = Some k) /\ (forall fl, pc_flight p = Some fl -> kf !! fl = key)
  /\ forall r, p <> Finished None (Got r).

Record key_inv (keys : list K) (s : State) (kf : list K) : Prop := {
  key_length : length kf = length (st_chans s);
  key_task : forall t p, st_tasks s !! t = Some p -> keyed kf (keys !! t) p;
  key_map : forall k fl, st_flights s !! k = Some fl -> kf !! fl = Some k;
  key_sent : forall fl c r, st_chans s !! fl = Some c -> ch_sent c = Some r -> exists k, kf !! fl = Some k /\ queried keys s k fl r
}.

(** A task moves on within its call, the map shrinks, and one channel changes without a new answer. *)
Lemma key_move keys s kf t p q fs chans :
  key_inv keys s kf -> st_tasks s !! t = Some p -> keyed kf (keys !! t) q -> step s (goto t q (mkState fs chans (st_tasks s))) ->
  (forall k fl, fs !! k = Some fl -> st_flights s !! k = Some fl) -> length chans = length (st_chans s) ->
  (forall fl c r, chans !! fl = Some c -> ch_sent c = Some r ->
     (exists c0, st_chans s !! fl = Some c0 /\ ch_sent c0 = Some r) \/ (exists k, kf !! fl = Some k /\ queried keys (goto t q (mkState fs chans (st_tasks s))) k fl r)) ->
  key_inv keys (goto t q (mkState fs chans (st_tasks s))) kf.
Proof.
  intros Hi Hp Hq Hstep Hfs Hlen Hsent. assert (Ht : (t < length (st_tasks s))%nat) by (by eapply lookup_lt_Some). split.
  - cbn. rewrite Hlen. apply (key_length _ _ _ Hi).
  - intros t0 p0 E. apply goto_tasks in E as [[-> ->]|[_ E]]; [done| |done]. by apply (key_task _ _ _ Hi).
  - intros k fl E. by apply (key_map _ _ _ Hi), Hfs.
  - intros fl c r E Hr. destruct (Hsent fl c r E Hr) as [(c0 & E0 & Hr0)|Hk]; [|done].
    destruct (key_sent _ _ _ Hi fl c0 r E0 Hr0) as (k & Hk & t1 & s1 & Hre & Hkey & Ht1 & Hrun). exists k. split; [done|]. exists t1, s1. split_and!; [done..|]. by eapply rtc_r.
Qed.

Lemma key_own keys s kf t k :
  key_inv keys s kf -> st_tasks s !! t = Some (AtInsert k) -> st_flights s !! k = None ->
  let s' := goto t (AtRun k (length (st_chans s))) (set_flights (<[k := length (st_chans s)]> (st_flights s)) (set_chans (st_chans s ++ [mkChan None true]) s)) in
  step s s' -> key_inv keys s' (kf ++ [k]).
Proof.
  intros Hi Hp Hk s' Hstep. assert (Ht : (t < length (st_tasks s))%nat) by (by eapply lookup_lt_Some). pose proof (key_length _ _ _ Hi) as Hlen.
  destruct (key_task _ _ _ Hi t _ Hp) as (_ & Hkey & _). specialize (Hkey k eq_refl).
  assert (Hold : forall fl k0, kf !! fl = Some k0 -> (kf ++ [k]) !! fl = Some k0) by (intros; by apply lookup_app_l_Some).
  split.
  - cbn. rewrite !length_app. cbn. lia.
  - intros t0 p0 E. apply goto_tasks in E as [[-> ->]|[_ E]]; [| |done].
    + rewrite Hkey. split; [by eexists|]. split; [by intros ? [= <-]|]. split; [|done]. intros fl [= <-]. rewrite <- Hlen. by apply list_lookup_middle.
    + destruct (key_task _ _ _ Hi t0 p0 E) as ([k0 Hk0] & H1 & H2 & H3). split; [by eexists|]. split; [done|]. split; [|done]. intros fl Hfl. specialize (H2 fl Hfl). rewrite Hk0 in H2 |- *. by apply Hold.
  - intros k0 fl E. cbn in E. apply lookup_insert_Some in E as [[<- <-]|[_ E]]; [rewrite <- Hlen; by apply list_lookup_middle|]. by apply Hold, (key_map _ _ _ Hi).
  - intros fl c r E Hr. cbn in E. apply lookup_app_Some in E as [E|[_ E]]; [|by apply list_lookup_singleton_Some in E as [_ <-]].
    destruct (key_sent _ _ _ Hi fl c r E Hr) as (k0 & Hk0 & t1 & s1 & Hre & Hkey1 & Ht1 & Hrun). exists k0. split; [by apply Hold|]. exists t1, s1. split_and!; [done..|]. by eapply rtc_r.
Qed.

Lemma keyed_goto kf key p q : keyed kf key p -> (forall k, pc_key q = Some k -> pc_key p = Some k) -> (forall fl, pc_flight q = Some fl -> pc_flight p = Some fl) -> (forall r, q <> Finished None (Got r)) -> keyed kf key q.
Proof. intros (H1 & H2 & H3 & _) Hk Hf Hn. split; [done|]. split; auto. Qed.

Lemma keyed_join keys s kf t p k fl c :
  key_inv keys s kf -> st_tasks s !! t = Some p -> pc_key p = Some k -> st_flights s !! k = Some fl -> keyed kf (keys !! t) (subscribe k fl c).
Proof.
  intros Hi Hp Hk Hf. destruct (key_task _ _ _ Hi t p Hp) as (H1 & H2 & _). split; [done|]. split; [by intros ? [= <-]; apply H2|]. split; [|done].
  intros ? [= <-]. rewrite (H2 k Hk). by apply (key_map _ _ _ Hi).
Qed.

Lemma key_step keys s kf s' : reachable keys s -> key_inv keys s kf -> step s s' -> exists kf', key_inv keys s' kf'.
Proof.
  intros Hre Hi Hstep. pose proof Hstep as (t & p & Hp & Hs). pose proof (key_task _ _ _ Hi t p Hp) as Hkp.
  assert (Hsame : forall q, keyed kf (keys !! t) q -> step s (goto t q s) -> exists kf', key_inv keys (goto t q s) kf').
  { intros q Hq Hst. exists kf. apply (key_move keys s kf t p q (st_flights s) (st_chans s) Hi Hp Hq Hst); [done|done|]. by eauto. }
  assert (Hdel : forall q k, keyed kf (keys !! t) q -> step s (goto t q (set_flights (delete k (st_flights s)) s)) -> exists kf', key_inv keys (goto t q (set_flights (delete k (st_flights s)) s)) kf').
  { intros q k Hq Hst. exists kf. apply (key_move keys s kf t p q (delete k (st_flights s)) (st_chans s) Hi Hp Hq Hst); [|done|by eauto]. by intros k0 fl [_ E]%lookup_delete_Some. }
  destruct Hs as [k fl c Hf Hc|k Hf|k fl c Hf Hc|k Hf|k fl r|k fl r|k fl|k fl reply c Hc|k fl c r Hc Hr|k fl late c Hc Ho Hl|k fl late].
  - apply Hsame; [|done]. by eapply keyed_join.
  - apply Hsame; [|done]. by apply (keyed_goto _ _ _ _ Hkp).
  - apply Hsame; [|done]. by eapply keyed_join.
  - exists (kf ++ [k]). by apply key_own.
  - exists kf. apply (key_move keys s kf t _ _ (st_flights s) _ Hi Hp); [by apply (keyed_goto _ _ _ _ Hkp)|done|done|by rewrite length_insert|].
    destruct Hkp as (_ & Hkk & Hkf & _). intros fl0 c0 r0 E Hr0. apply list_lookup_insert_Some in E as [(<- & <- & _)|[_ E]]; [|by eauto]. injection Hr0 as <-. right.
    exists k. split; [rewrite (Hkf fl eq_refl); by apply Hkk|]. exists t, s. split_and!; [done|by apply Hkk|done|reflexivity].
  - apply Hdel; [|done]. by apply (keyed_goto _ _ _ _ Hkp).
  - apply Hdel; [|done]. by apply (keyed_goto _ _ _ _ Hkp).
  - exists kf. apply (key_move keys s kf t _ _ (st_flights s) _ Hi Hp); [by apply (keyed_goto _ _ _ _ Hkp)|done|done|by rewrite length_insert|].
    intros fl0 c0 r0 E Hr0. apply list_lookup_insert_Some in E as [(<- & <- & _)|[_ E]]; by eauto.
  - apply Hsame; [|done]. by apply (keyed_goto _ _ _ _ Hkp).
  - apply Hsame; [|done]. by apply (keyed_goto _ _ _ _ Hkp).
  - apply Hsame; [|done]. by apply (keyed_goto _ _ _ _ Hkp).
Qed.

Lemma reachable_keys keys s : reachable keys s -> exists kf, key_inv keys s kf.
Proof.
  intros Hr. assert (Hboth : reachable keys s /\ exists kf, key_inv keys s kf); [|by destruct Hboth]. unfold reachable in Hr.
  apply rtc_ind_r with (P := fun s => reachable keys s /\ exists kf, key_inv keys s kf) (x := initial keys) in Hr; [done| |].
  - split; [apply rtc_refl|]. exists []. split; [done| |by intros k fl E; cbn in E; rewrite lookup_empty in E|done].
    intros t p E. cbn in E. rewrite list_lookup_fmap in E. apply fmap_Some in E as (k & -> & ->). split; [by eexists|]. by split_and!; [intros ? [= <-]|..].
  - intros y z _ Hstep (Hy & kf & Hi). split; [by eapply rtc_r|]. by eapply key_step.
Qed.

(** ** What coalescing promises *)

(** [C32] At any time, under every interleaving of any number of callers and with owners
    cancelled at any point, at most one task runs the query of a key; a caller that got an answer
    got what the query of some caller with the same key returned, in this run; the callers of one
    flight agree, all that got an answer from it got the same one; and a flight in the map has an
    owner. *)
Theorem singleflight_safe keys s :
  reachable keys s ->
  (forall t t' k fl fl', st_tasks s !! t = Some (AtRun k fl) -> st_tasks s !! t' = Some (AtRun k fl') -> t = t')
  /\ (forall t fl r, st_tasks s !! t = Some (Finished fl (Got r)) -> exists k fl0, keys !! t = Some k /\ fl = Some fl0 /\ queried keys s k fl0 r)
  /\ (forall t t' fl r r', st_tasks s !! t = Some (Finished (Some fl) (Got r)) ->
        st_tasks s !! t' = Some (Finished (Some fl) (Got r')) -> r = r')
  /\ (forall k fl, st_flights s !! k = Some fl -> exists t p, st_tasks s !! t = Some p /\ owns p = Some (k, fl, true)).
Proof.
  intros Hre. pose proof (reachable_inv keys s Hre) as Hr. split_and!.
  - intros t t' k fl fl' E E'. destruct (inv_owner s Hr t _ k fl true E eq_refl) as [Hf _].
    destruct (inv_owner s Hr t' _ k fl' true E' eq_refl) as [Hf' _]. specialize (Hf eq_refl). specialize (Hf' eq_refl).
    assert (fl' = fl) as -> by congruence. by eapply (inv_unique s Hr t t').
  - intros t fl r E. destruct (reachable_keys keys s Hre) as (kf & Hk). destruct (key_task _ _ _ Hk t _ E) as ([k Hkey] & _ & Hfl & Hnone).
    destruct fl as [fl|]; [|by destruct (Hnone r)]. specialize (Hfl fl eq_refl). destruct (inv_reply s Hr t fl r E) as (c & Hc & Hs).
    destruct (key_sent _ _ _ Hk fl c r Hc Hs) as (k' & Hk' & Hq). exists k, fl. assert (k' = k) as -> by congruence. done.
  - intros t t' fl r r' E E'. destruct (inv_reply s Hr t fl r E) as (c & Hc & Hs). destruct (inv_reply s Hr t' fl r' E') as (c' & Hc' & Hs'). congruence.
  - intros k fl. apply (inv_map s Hr).
Qed.

(** [C33] No caller waits forever: from every reachable state each run is finite, and a run
    that cannot go on has answered every caller (the query itself returning is a step that
    is always possible).  In particular there is no deadlock between the map's entries and
    the channels of cancelled or finished owners. *)
Theorem singleflight_live (r : R) keys s :
  reachable keys s ->
  (forall n s', nsteps step n s s' -> (n <= total_work s)%nat)
  /\ (forall s', rtc step s s' -> (forall s'', ~ step s' s'') -> Forall finished (st_tasks s')).
Proof.
  intros Hr. split.
  - intros n s' Hn. clear Hr. induction Hn as [s0|n s0 s1 s2 Hs Hn IH]; [lia|]. apply step_work in Hs. lia.
  - intros s' Hss Hstuck. apply (stuck_finished s' (inhabits r)); [|done].
    apply (reachable_inv keys). unfold reachable in *. by etrans.
Qed.
End singleflight.

Arguments Pc K R : clear implicits.
Arguments Reply R : clear implicits.
Arguments State K {_ _} R.

(** ** A successful query that a caller sees fail *)

Section late.
#[local] Abbreviation St := (State nat Z).

Lemma run_step (s s' : St) t p : st_tasks s !! t = Some p -> task_step s t p s' -> rtc step s s'.
Proof. intros Hp Hs. apply rtc_once. by exists t, p. Qed.

(** A caller that joins a flight after its owner has sent the answer but before the
    owner's guard has removed the entry gets the error of a closed channel, although the
    query succeeded, nobody was cancelled, and the owner returns the answer. *)
Theorem singleflight_late_subscriber_fails (k : nat) (r : Z) :
  exists s : St, reachable [k; k] s
    /\ st_tasks s = [Finished (Some 0%nat) (Got r); Finished (Some 0%nat) SenderDropped].
Proof.
  eexists. split; [unfold reachable|].
  - etrans; [by eapply (run_step _ _ 0), step_miss|]. etrans; [by eapply (run_step _ _ 0), step_own|].
    etrans; [by eapply (run_step _ _ 0), (step_send _ _ _ _ r)|].
    etrans; [eapply (run_step _ _ 1); [reflexivity|]; by eapply step_join; [apply lookup_insert_eq|]|].
    etrans; [by eapply (run_step _ _ 0), step_guard|]. etrans; [by eapply (run_step _ _ 0), step_close|].
    eapply (run_step _ _ 1); [reflexivity|]. eapply step_recv_closed; [reflexivity|reflexivity|by left].
  - reflexivity.
Qed.
End late.

(** ** Witnesses *)

Module SingleflightWitness.

(** Two callers of one key: the first runs the query, the second waits for it. *)
Lemma waiting_reachable : exists s : State nat Z, reachable [1%nat; 1%nat] s
  /\ st_tasks s = [AtRun 1%nat 0%nat; AtRecv 1%nat 0%nat false] /\ st_flights s !! 1%nat = Some 0%nat.
Proof.
  eexists. split; [unfold reachable|].
  - etrans; [by eapply (run_step _ _ 0), step_miss|]. etrans; [by eapply (run_step _ _ 0), step_own|].
    eapply (run_step _ _ 1); [reflexivity|]. by eapply step_join; [apply lookup_insert_eq|].
  - split; [reflexivity|]. apply lookup_insert_eq.
Qed.

Lemma singleflight_safe_witness :
  exists s : State nat Z, reachable [1%nat; 1%nat] s /\ exists t p, st_tasks s !! t = Some p /\ owns p = Some (1%nat, 0%nat, true).
Proof.
  destruct waiting_reachable as (s & Hr & _ & Hf). exists s. split; [exact Hr|].
  apply (singleflight_safe [1%nat; 1%nat] s Hr). exact Hf.
Defined.

Lemma singleflight_live_witness :
  exists s : State nat Z, reachable [1%nat; 1%nat] s /\ total_work s = 4%nat
    /\ forall n s', nsteps step n s s' -> (n <= total_work s)%nat.
Proof.
  destruct waiting_reachable as (s & Hr & Ht & _). exists s. split; [exact Hr|]. split; [unfold total_work; by rewrite Ht|].
  apply (singleflight_live 0 [1%nat; 1%nat] s Hr).
Defined.
End SingleflightWitness.
