(* ===== verification/IpFragment.v ===== *)
(** * IP fragmentation ([core-outbound/src/ip_fragment.rs])

    Splitting an IPv4 or IPv6 packet that exceeds the MTU of a tunnel.  A fragment is built
    as the code builds it: the base header, the options, the rewritten fields, the header
    checksum, the piece of the payload.  [IPV6_FRAGMENT_ID] is the argument
    [identification]. *)

From stdpp Require Import base list gmap numbers option.
From S2P Require Import Prelude.

Definition IPV4_MIN_HEADER : Z := 20.
Definition IPV6_HEADER : Z := 40.
Definition IPV6_FRAGMENT_HEADER : Z := 8.
Definition IPV6_FRAGMENT : Z := 44.
Definition IPV6_HOP_BY_HOP : Z := 0.
Definition IPV6_ROUTING : Z := 43.
Definition IPV6_DESTINATION_OPTIONS : Z := 60.

(** [l[i..i + b.len()].copy_from_slice(b)], in range *)
Definition write_at (i : Z) (b l : list Z) : list Z := take (Z.to_nat i) l ++ b ++ drop (Z.to_nat (i + len b)) l.

(** [u16::from_be_bytes([l[i], l[i + 1]])] *)
Definition word_at (l : list Z) (i : Z) : outcome Z := a ← index l i; b ← index l (i + 1); Ok (a * 256 + b).

(** ** IPv4 *)

(** [while sum > 0xffff { sum = (sum & 0xffff) + (sum >> 16) }] *)
Fixpoint fold_carry (fuel : nat) (sum : Z) : Z :=
  match fuel with
  | O => sum
  | S fuel' => if 65535 <? sum then fold_carry fuel' (Z.land sum 65535 + Z.shiftr sum 16) else sum
  end.

(** The loop over [header.chunks(2)]: a sum of two words needs one round of folding. *)
Fixpoint sum_words (sum : Z) (header : list Z) : Z :=
  match header with
  | a :: b :: header' => sum_words (fold_carry 2 (sum + (a * 256 + b))) header'
  | [a] => fold_carry 2 (sum + Z.shiftl a 8)
  | [] => sum
  end.

Definition ipv4_checksum (header : list Z) : Z := 65535 - sum_words 0 header.

(** The loop of [copied_ipv4_options] over what is left of the options: each round drops at
    least one byte. *)
Fixpoint copied_loop (fuel : nat) (options : list Z) : outcome (list Z) :=
  match fuel with
  | O => Panic
  | S fuel' =>
    match options with
    | [] => Ok []
    | kind :: rest =>
      if kind =? 0 then Ok []
      else if kind =? 1 then copied_loop fuel' rest
      else
        match rest with
        | [] => Err InvalidData
        | length :: _ =>
          if (length <? 2) || (len options <? length) then Err InvalidData else
          copied ← copied_loop fuel' (drop (Z.to_nat length) options);
          Ok ((if negb (Z.land kind 128 =? 0) then take (Z.to_nat length) options else []) ++ copied)
        end
    end
  end.

(** [while copied.len() % 4 != 0 { copied.push(0) }] *)
Definition pad4 (l : list Z) : list Z := l ++ repeat 0 (Z.to_nat ((- len l) mod 4)).

Definition copied_ipv4_options (options : list Z) : outcome (list Z) :=
  copied ← copied_loop (S (length options)) options; Ok (pad4 copied).

(** One fragment: [piece] at [offset] of the payload *)
Definition ipv4_fragment (packet options piece : list Z) (offset flags_offset : Z) (more : bool) : outcome (list Z) :=
  let fragment_header_len := IPV4_MIN_HEADER + len options in
  base ← get_slice packet 0 IPV4_MIN_HEADER;
  let header := base ++ options in
  ihl ← try_from_u 8 (fragment_header_len / 4) InvalidData;
  fragment_len ← try_from_u 16 (fragment_header_len + len piece) InvalidData;
  fragment_offset ← try_from_u 16 (offset / 8) InvalidData;
  let fragment_flags := Z.lor (Z.lor (Z.land flags_offset 32768) (if more then 8192 else 0)) fragment_offset in
  let header := write_at 0 [Z.lor 64 ihl] header in
  let header := write_at 2 (be_bytes 2 fragment_len) header in
  let header := write_at 6 (be_bytes 2 fragment_flags) header in
  let header := write_at 10 [0; 0] header in
  let checksum := ipv4_checksum header in
  Ok (write_at 10 (be_bytes 2 checksum) header ++ piece).

(** The [while offset < payload.len()] loop: each round takes at least one byte. *)
Fixpoint ipv4_loop (fuel : nat) (packet options copied payload : list Z) (flags_offset mtu offset : Z) : outcome (list (list Z)) :=
  match fuel with
  | O => Panic
  | S fuel' =>
    if len payload <=? offset then Ok [] else
    let opts := if offset =? 0 then options else copied in
    let fragment_header_len := IPV4_MIN_HEADER + len opts in
    if mtu <? fragment_header_len then Err InvalidData else
    let capacity := mtu - fragment_header_len in
    let remaining := len payload - offset in
    let take := if capacity <? remaining then capacity - capacity mod 8 else remaining in
    if take =? 0 then Err InvalidData else
    let more := offset + take <? len payload in
    piece ← get_slice payload offset (offset + take);
    fragment ← ipv4_fragment packet opts piece offset flags_offset more;
    fragments ← ipv4_loop fuel' packet options copied payload flags_offset mtu (offset + take);
    Ok (fragment :: fragments)
  end.

Definition fragment_ipv4 (packet : list Z) (mtu : Z) : outcome (list (list Z)) :=
  if len packet <? IPV4_MIN_HEADER then Err InvalidData else
  b0 ← index packet 0;
  let header_len := Z.land b0 15 * 4 in
  total_len ← word_at packet 2;
  if (header_len <? IPV4_MIN_HEADER) || (len packet <? header_len) || negb (total_len =? len packet) then Err InvalidData else
  flags_offset ← word_at packet 6;
  if negb (Z.land flags_offset 16383 =? 0) then Err InvalidInput else
  if negb (Z.land flags_offset 16384 =? 0) then Err InvalidInput else
  options ← get_slice packet IPV4_MIN_HEADER header_len;
  copied ← copied_ipv4_options options;
  payload ← get_slice packet header_len (len packet);
  ipv4_loop (S (length payload)) packet options copied payload flags_offset mtu 0.

(** ** IPv6 *)

Record Extension : Type := mkExtension { ex_kind : Z; ex_start : Z; ex_end : Z; ex_next : Z }.

Definition is_extension (kind : Z) : bool :=
  (kind =? IPV6_HOP_BY_HOP) || (kind =? IPV6_ROUTING) || (kind =? IPV6_DESTINATION_OPTIONS).

(** The [while] over the extension headers, each at least eight bytes; and the header after them *)
Fixpoint extension_loop (fuel : nat) (packet : list Z) (kind cursor : Z) : outcome (list Extension * Z) :=
  match fuel with
  | O => Panic
  | S fuel' =>
    if negb (is_extension kind) then Ok ([], kind) else
    if len packet <? cursor + 2 then Err InvalidData else
    n ← index packet (cursor + 1);
    let length := (n + 1) * 8 in
    if len packet <? cursor + length then Err InvalidData else
    next ← index packet cursor;
    '(exts, last) ← extension_loop fuel' packet next (cursor + length);
    Ok (mkExtension kind cursor (cursor + length) next :: exts, last)
  end.

(** The [for] over the extensions: up to where the fragment header goes *)
Fixpoint insertion_loop (exts : list Extension) (at_ : Z * Z * Z) : Z * Z * Z :=
  match exts with
  | [] => at_
  | e :: exts' =>
    let destination_precedes_routing :=
      (ex_kind e =? IPV6_DESTINATION_OPTIONS) && existsb (fun later => ex_kind later =? IPV6_ROUTING) exts' in
    if negb ((ex_kind e =? IPV6_HOP_BY_HOP) || (ex_kind e =? IPV6_ROUTING)) && negb destination_precedes_routing then at_
    else insertion_loop exts' (ex_end e, ex_start e, ex_next e)
  end.

Definition ipv6_fragment_insertion_point (packet : list Z) : outcome (Z * Z * Z) :=
  kind ← index packet 6;
  '(exts, last) ← extension_loop (S (length packet)) packet kind IPV6_HEADER;
  if last =? IPV6_FRAGMENT then Err InvalidInput else
  Ok (insertion_loop exts (IPV6_HEADER, 6, kind)).

(** One fragment *)
Definition ipv6_fragment (packet piece : list Z) (unfragmentable_end next_header_field fragment_next identification offset : Z) (more : bool)
    : outcome (list Z) :=
  head ← get_slice packet 0 unfragmentable_end;
  let head := write_at next_header_field [IPV6_FRAGMENT] head in
  off ← try_from_u 16 offset InvalidData;
  let offset_flags := Z.lor (Z.land off 65528) (if more then 1 else 0) in
  let fragment := head ++ [fragment_next; 0] ++ be_bytes 2 offset_flags ++ be_bytes 4 identification ++ piece in
  new_payload_len ← try_from_u 16 (len fragment - IPV6_HEADER) InvalidData;
  Ok (write_at 4 (be_bytes 2 new_payload_len) fragment).

Fixpoint ipv6_loop (fuel : nat) (packet fragmentable : list Z) (point : Z * Z * Z) (identification capacity offset : Z) : outcome (list (list Z)) :=
  match fuel with
  | O => Panic
  | S fuel' =>
    if len fragmentable <=? offset then Ok [] else
    let remaining := len fragmentable - offset in
    let take := if capacity <? remaining then capacity - capacity mod 8 else remaining in
    let more := offset + take <? len fragmentable in
    piece ← get_slice fragmentable offset (offset + take);
    let '(unfragmentable_end, next_header_field, fragment_next) := point in
    fragment ← ipv6_fragment packet piece unfragmentable_end next_header_field fragment_next identification offset more;
    fragments ← ipv6_loop fuel' packet fragmentable point identification capacity (offset + take);
    Ok (fragment :: fragments)
  end.

Definition fragment_ipv6 (identification : Z) (packet : list Z) (mtu : Z) : outcome (list (list Z)) :=
  if len packet <? IPV6_HEADER then Err InvalidData else
  payload_len ← word_at packet 4;
  if (payload_len =? 0) || negb (payload_len + IPV6_HEADER =? len packet) then Err InvalidData else
  point ← ipv6_fragment_insertion_point packet;
  let unfragmentable_end := point.1.1 in
  fragmentable ← get_slice packet unfragmentable_end (len packet);
  if mtu <? unfragmentable_end + IPV6_FRAGMENT_HEADER then Err InvalidData else
  let capacity := mtu - (unfragmentable_end + IPV6_FRAGMENT_HEADER) in
  if capacity - capacity mod 8 =? 0 then Err InvalidData else
  ipv6_loop (S (length fragmentable)) packet fragmentable point identification capacity 0.

Definition fragment_ip_packet (identification : Z) (packet : list Z) (mtu : Z) : outcome (list (list Z)) :=
  if len packet <=? mtu then Ok [packet] else
  match packet with
  | b :: _ =>
    if Z.shiftr b 4 =? 4 then fragment_ipv4 packet mtu
    else if Z.shiftr b 4 =? 6 then fragment_ipv6 identification packet mtu
    else Err InvalidData
  | [] => Err InvalidData
  end.

(** ** The checksum *)

(** The one's complement representative of a sum: zero only for zero *)
Definition norm (n : Z) : Z := if n =? 0 then 0 else (n - 1) mod 65535 + 1.

(** The 16-bit words of a header, added up *)
Fixpoint wsum (l : list Z) : Z :=
  match l with
  | a :: b :: l' => a * 256 + b + wsum l'
  | [a] => a * 256
  | [] => 0
  end.

Lemma norm_range n : 0 <= n -> 0 <= norm n <= 65535 /\ (n <> 0 -> norm n <> 0).
Proof. intros Hn. unfold norm. pose proof (Z.mod_pos_bound (n - 1) 65535). destruct (Z.eqb_spec n 0); lia. Qed.

Lemma norm_small n : 0 <= n <= 65535 -> norm n = n.
Proof. intros Hn. unfold norm. destruct (Z.eqb_spec n 0); [lia|]. rewrite Z.mod_small; lia. Qed.

Lemma fold_carry_norm x : 0 <= x <= 131070 -> fold_carry 2 x = norm x.
Proof.
  intros Hx. cbn [fold_carry]. destruct (Z.ltb_spec 65535 x) as [Hgt|]; [|by rewrite norm_small by lia].
  assert (E : Z.land x 65535 + Z.shiftr x 16 = x - 65535).
  { change 65535 with (Z.ones 16) at 1. rewrite Z.land_ones, Z.shiftr_div_pow2 by lia. change (2 ^ 16) with 65536.
    assert (x / 65536 = 1) as Hd by (symmetry; apply Z.div_unique_pos with (x - 65536); lia).
    pose proof (Z.div_mod x 65536). lia. }
  rewrite E. rewrite (proj2 (Z.ltb_ge 65535 (x - 65535))) by lia. unfold norm. rewrite (proj2 (Z.eqb_neq x 0)) by lia.
  replace (x - 1) with (x - 65536 + 1 * 65535) by lia. rewrite Z.mod_add, Z.mod_small by lia. lia.
Qed.

Lemma norm_add a b : 0 <= a -> 0 <= b -> norm (norm a + b) = norm (a + b).
Proof.
  intros Ha Hb. unfold norm at 2. destruct (Z.eqb_spec a 0) as [->|Hz]; [done|].
  pose proof (Z.mod_pos_bound (a - 1) 65535). unfold norm. rewrite !(proj2 (Z.eqb_neq _ 0)) by lia. f_equal.
  replace ((a - 1) mod 65535 + 1 + b - 1) with ((a - 1) mod 65535 + b) by lia. rewrite Z.add_mod_idemp_l by lia. f_equal. lia.
Qed.

Lemma wsum_nonneg l : bytes_ok l -> 0 <= wsum l.
Proof.
  revert l. fix IH 1. intros [|a [|b l]] Hl; [done| |].
  - apply Forall_cons_1 in Hl as [Ha _]. unfold uint in Ha. cbn. lia.
  - apply Forall_cons_1 in Hl as [Ha Hl]. apply Forall_cons_1 in Hl as [Hb Hl]. specialize (IH l Hl). unfold uint in Ha, Hb. cbn [wsum]. lia.
Qed.

Lemma sum_words_norm l s : bytes_ok l -> 0 <= s <= 65535 -> sum_words s l = norm (s + wsum l).
Proof.
  revert l s. fix IH 1. intros [|a [|b l]] s Hl Hs.
  - cbn. rewrite Z.add_0_r, norm_small; lia.
  - apply Forall_cons_1 in Hl as [Ha _]. unfold uint in Ha. cbn [sum_words wsum]. rewrite Z.shiftl_mul_pow2 by lia. change (2 ^ 8) with 256.
    apply fold_carry_norm. lia.
  - apply Forall_cons_1 in Hl as [Ha Hl]. apply Forall_cons_1 in Hl as [Hb Hl]. unfold uint in Ha, Hb. cbn [sum_words wsum].
    rewrite fold_carry_norm by lia. pose proof (norm_range (s + (a * 256 + b)) ltac:(lia)) as [Hn _].
    rewrite IH by done. pose proof (wsum_nonneg l Hl). rewrite norm_add by lia. f_equal. lia.
Qed.

(** ** One IPv4 fragment, field by field *)

Definition word_bytes (z : Z) : list Z := [(z / 256) mod 256; z mod 256].

Lemma be_bytes_word z : be_bytes 2 z = word_bytes z.
Proof. unfold word_bytes. change (be_bytes 2 z) with [(z / 256) mod 256; (z / 1) mod 256]. by rewrite Z.div_1_r. Qed.

(** The value of the flags and offset field *)
Definition flags_word (flags_offset offset : Z) (more : bool) : Z :=
  Z.lor (Z.lor (Z.land flags_offset 32768) (if more then 8192 else 0)) (offset / 8).

(** The first 20 bytes of a fragment with the given checksum bytes *)
Definition ipv4_base (p : nat -> Z) (ihl total flags : Z) (checksum : list Z) : list Z :=
  [Z.lor 64 ihl; p 1%nat] ++ word_bytes total ++ [p 4%nat; p 5%nat] ++ word_bytes flags ++ [p 8%nat; p 9%nat] ++ checksum
  ++ [p 12%nat; p 13%nat; p 14%nat; p 15%nat; p 16%nat; p 17%nat; p 18%nat; p 19%nat].

Lemma try_from_u_ok w n e : n < 2 ^ w -> try_from_u w n e = Ok n.
Proof. intros Hn. unfold try_from_u. by rewrite (proj2 (Z.ltb_lt _ _) Hn). Qed.

Lemma ipv4_fragment_eq (p : nat -> Z) rest options piece offset flags_offset more :
  (20 + len options) / 4 < 256 -> 20 + len options + len piece < 65536 -> offset / 8 < 65536 ->
  let base := ipv4_base p ((20 + len options) / 4) (20 + len options + len piece) (flags_word flags_offset offset more) in
  ipv4_fragment ((p <$> seq 0 20) ++ rest) options piece offset flags_offset more
  = Ok (base (word_bytes (ipv4_checksum (base [0; 0] ++ options))) ++ options ++ piece).
Proof.
  intros H1 H2 H3 base. unfold ipv4_fragment, IPV4_MIN_HEADER.
  assert (Hs : get_slice ((p <$> seq 0 20) ++ rest) 0 20 = Ok (p <$> seq 0 20)).
  { rewrite get_slice_ok by (rewrite ?len_app; pose proof (len_nonneg rest); change (len (p <$> seq 0 20)) with 20; lia).
    by rewrite slice_app_first, slice_exact by done. }
  rewrite Hs. cbn [mbind outcome_bind].
  pose proof (len_nonneg options). pose proof (len_nonneg piece).
  rewrite !try_from_u_ok by lia. cbn [mbind outcome_bind]. rewrite !be_bytes_word. fold (flags_word flags_offset offset more).
  unfold base, ipv4_base. set (i := (20 + len options) / 4). set (n := 20 + len options + len piece). set (f := flags_word _ _ _).
  clearbody i n f. change (p <$> seq 0 20) with [p 0%nat; p 1%nat; p 2%nat; p 3%nat; p 4%nat; p 5%nat; p 6%nat; p 7%nat; p 8%nat; p 9%nat; p 10%nat; p 11%nat; p 12%nat; p 13%nat; p 14%nat; p 15%nat; p 16%nat; p 17%nat; p 18%nat; p 19%nat].
  unfold write_at, word_bytes. cbn -[Z.div Z.modulo Z.lor ipv4_checksum]. rewrite ?drop_0. reflexivity.
Qed.

(** ** The receiver

    What a receiver reads off an IPv4 fragment, and the reassembly of a sequence of
    fragments that arrive in order. *)

Definition byte_at (f : list Z) (i : nat) : Z := nth i f 0.
Definition field (f : list Z) (i : nat) : Z := byte_at f i * 256 + byte_at f (S i).

Definition v4_header_len (f : list Z) : Z := Z.land (byte_at f 0) 15 * 4.
Definition v4_header (f : list Z) : list Z := take (Z.to_nat (v4_header_len f)) f.
Definition v4_payload (f : list Z) : list Z := drop (Z.to_nat (v4_header_len f)) f.

(** Offset, more-fragments flag, payload *)
Definition v4_view (f : list Z) : Z * bool * list Z := (field f 6 mod 8192 * 8, Z.testbit (field f 6) 13, v4_payload f).

(** The fields a fragment has in common with the packet: service, identification, time to
    live, protocol, addresses *)
Definition v4_common (f : list Z) : list Z := byte_at f <$> [1; 4; 5; 8; 9; 12; 13; 14; 15; 16; 17; 18; 19]%nat.

Fixpoint collect (view : list Z -> Z * bool * list Z) (offset : Z) (fragments : list (list Z)) : option (list Z) :=
  match fragments with
  | [] => None
  | f :: fragments' =>
    let '(o, more, piece) := view f in
    if negb (o =? offset) then None
    else if more then app piece <$> collect view (offset + len piece) fragments'
    else match fragments' with [] => Some piece | _ => None end
  end.

(** A fragment of [packet] a receiver accepts, within the MTU *)
Record v4_accepted (packet : list Z) (mtu : Z) (f : list Z) : Prop := mkAccepted {
  acc_len : len f <= mtu;
  acc_total : field f 2 = len f;
  acc_version : Z.shiftr (byte_at f 0) 4 = 4;
  acc_header : 20 <= v4_header_len f <= len f;
  acc_checksum : norm (wsum (v4_header f)) = 65535;
  acc_common : v4_common f = v4_common packet;
  acc_reserved : Z.land (field f 6) 32768 = Z.land (field packet 6) 32768;
}.

Lemma word_bytes_val z : 0 <= z < 65536 -> (z / 256) mod 256 * 256 + z mod 256 = z.
Proof.
  intros Hz. assert (0 <= z / 256 < 256) by (split; [apply Z.div_pos|apply Z.div_lt_upper_bound]; lia).
  rewrite (Z.mod_small (z / 256)) by lia. pose proof (Z.div_mod z 256). lia.
Qed.

Lemma flags_word_eq c offset (more : bool) :
  0 <= offset < 65536 -> flags_word (c * 32768) offset more = Z.land (c * 32768) 32768 + (if more then 8192 else 0) + offset / 8.
Proof.
  intros Ho. assert (0 <= offset / 8 < 8192) by (split; [apply Z.div_pos|apply Z.div_lt_upper_bound]; lia). unfold flags_word.
  assert (exists k, Z.land (c * 32768) 32768 = k * 2 ^ 15) as [k ->].
  { exists (Z.land c 1). change 32768 with (1 * 2 ^ 15) at 2. change 32768 with (2 ^ 15). rewrite <- !Z.shiftl_mul_pow2 by lia. by rewrite Z.shiftl_land. }
  rewrite lor_disjoint by (destruct more; lia).
  destruct more; [replace (k * 2 ^ 15 + 8192) with ((k * 4 + 1) * 2 ^ 13) by lia|replace (k * 2 ^ 15 + 0) with (k * 4 * 2 ^ 13) by lia];
    rewrite lor_disjoint by lia; lia.
Qed.

(** The flags word as a receiver reads it *)
Lemma flags_word_view c offset (more : bool) :
  0 <= c < 2 -> 0 <= offset < 65536 -> offset mod 8 = 0 ->
  let w := flags_word (c * 32768) offset more in
  0 <= w < 65536 /\ w mod 8192 * 8 = offset /\ Z.testbit w 13 = more /\ Z.land w 32768 = c * 32768.
Proof.
  intros Hc Ho Ha w. assert (0 <= offset / 8 < 8192) by (split; [apply Z.div_pos|apply Z.div_lt_upper_bound]; lia).
  assert (Hw : w = (c * 4 + (if more then 1 else 0)) * 8192 + offset / 8).
  { unfold w. rewrite flags_word_eq by lia. assert (Z.land (c * 32768) 32768 = c * 32768) as -> by (assert (c = 0 \/ c = 1) as [-> | ->] by lia; done).
    destruct more; lia. }
  clearbody w. assert (Hd : w / 8192 = c * 4 + (if more then 1 else 0)).
  { symmetry. apply Z.div_unique with (offset / 8); lia. }
  split; [|split; [|split]].
  - destruct more; lia.
  - assert (w mod 8192 = offset / 8) as ->; [symmetry; apply Z.mod_unique with (c * 4 + (if more then 1 else 0)); lia|].
    pose proof (Z.div_mod offset 8). lia.
  - rewrite Z.testbit_eqb by lia. change (2 ^ 13) with 8192. rewrite Hd. assert (c = 0 \/ c = 1) as [-> | ->] by lia; by destruct more.
  - change 32768 with (Z.shiftl 1 15) at 1. apply Z.bits_inj'. intros i Hi. rewrite Z.land_spec.
    assert (Hb : Z.testbit w 15 = (c =? 1)).
    { rewrite Z.testbit_eqb by lia. change (2 ^ 15) with (8192 * 4). rewrite <- Z.div_div by lia. rewrite Hd.
      assert (c = 0 \/ c = 1) as [-> | ->] by lia; by destruct more. }
    destruct (Z.eq_dec i 15) as [->|Hi15]; [rewrite Hb; assert (c = 0 \/ c = 1) as [-> | ->] by lia; done|].
    change (Z.shiftl 1 15) with (2 ^ 15). rewrite Z.pow2_bits_false by lia. rewrite andb_false_r.
    assert (c = 0 \/ c = 1) as [-> | ->] by lia; [by rewrite Z.bits_0|]. change (1 * 32768) with (2 ^ 15). by rewrite Z.pow2_bits_false by lia.
Qed.

(** The version and header length byte *)
Lemma ihl_byte n : 5 <= n < 16 -> Z.shiftr (Z.lor 64 n) 4 = 4 /\ Z.land (Z.lor 64 n) 15 = n /\ 64 <= Z.lor 64 n < 80.
Proof.
  intros Hn. change 64 with (4 * 2 ^ 4). rewrite lor_disjoint by lia. change 15 with (Z.ones 4). rewrite Z.land_ones, Z.shiftr_div_pow2 by lia.
  change (2 ^ 4) with 16. split; [|split; [|lia]].
  - symmetry. apply Z.div_unique with n; lia.
  - symmetry. apply Z.mod_unique with 4; lia.
Qed.

(** A header whose checksum field is the complement of the rest sums to all ones. *)
Lemma checksum_closes (header : list Z -> list Z) :
  (forall z, wsum (header (word_bytes z)) = wsum (header [0; 0]) + (z / 256) mod 256 * 256 + z mod 256) ->
  bytes_ok (header [0; 0]) -> wsum (header [0; 0]) <> 0 ->
  norm (wsum (header (word_bytes (ipv4_checksum (header [0; 0]))))) = 65535.
Proof.
  intros Hsum Hok Hz. pose proof (wsum_nonneg _ Hok). unfold ipv4_checksum. rewrite sum_words_norm by (done || lia).
  rewrite Z.add_0_l. pose proof (norm_range (wsum (header [0; 0])) ltac:(lia)) as [Hr Hnz].
  rewrite Hsum. rewrite <- Z.add_assoc, word_bytes_val by lia. rewrite <- norm_add by lia.
  replace (norm (wsum (header [0; 0])) + (65535 - norm (wsum (header [0; 0])))) with 65535 by lia. done.
Qed.

Lemma packet_bytes packet : 20 <= len packet -> packet = (byte_at packet <$> seq 0 20) ++ drop 20 packet.
Proof.
  intros Hl. unfold len in Hl. rewrite <- (take_drop 20 packet) at 1. f_equal. apply list_eq. intros i.
  destruct (decide (i < 20)%nat) as [Hi|Hi].
  - rewrite lookup_take_lt, list_lookup_fmap, lookup_seq_lt by done. cbn. unfold byte_at.
    destruct (lookup_lt_is_Some_2 packet i) as [x Hx]; [lia|]. rewrite Hx. cbn. f_equal. symmetry. rewrite nth_lookup, Hx. done.
  - rewrite lookup_take_ge by lia. symmetry. apply lookup_ge_None. rewrite length_fmap, length_seq. lia.
Qed.

Lemma byte_at_ok packet i : bytes_ok packet -> u8 (byte_at packet i).
Proof.
  intros Hp. unfold byte_at. rewrite nth_lookup. destruct (packet !! i) eqn:E; cbn; [|unfold uint; lia].
  by apply (Forall_lookup_1 _ _ _ _ Hp E).
Qed.

Section Fragment.
Context (packet options piece : list Z) (mtu c offset : Z) (more : bool).
Context (packet_ok : bytes_ok packet) (options_ok : bytes_ok options).
Context (packet_len : 20 <= len packet) (c_range : 0 <= c < 2) (flags : field packet 6 = c * 32768).
Context (options_len : len options <= 40) (options_aligned : len options mod 4 = 0).
Context (fits : 20 + len options + len piece <= mtu) (total : 20 + len options + len piece < 65536).
Context (offset_range : 0 <= offset < 65536) (offset_aligned : offset mod 8 = 0).

Let ihl : Z := (20 + len options) / 4.
Let w : Z := flags_word (c * 32768) offset more.
Let header (checksum : list Z) : list Z := ipv4_base (byte_at packet) ihl (20 + len options + len piece) w checksum ++ options.

#[local] Lemma ihl_eq : 5 <= ihl < 16 /\ ihl * 4 = 20 + len options.
Proof.
  pose proof (len_nonneg options). assert (ihl * 4 = 20 + len options); [|lia]. unfold ihl.
  pose proof (Z.div_mod (len options) 4). replace (20 + len options) with ((5 + len options / 4) * 4) at 1 by lia. rewrite Z.div_mul by lia. lia.
Qed.

#[local] Lemma header_sum z : wsum (header (word_bytes z)) = wsum (header [0; 0]) + (z / 256) mod 256 * 256 + z mod 256.
Proof. unfold header, ipv4_base, word_bytes. cbn [app wsum]. lia. Qed.

#[local] Lemma header_ok : bytes_ok (header [0; 0]) /\ wsum (header [0; 0]) <> 0.
Proof.
  destruct ihl_eq as [Hi _]. destruct (ihl_byte ihl Hi) as (_ & _ & Hb).
  assert (Hok : bytes_ok (header [0; 0])).
  { unfold header, ipv4_base, word_bytes. cbn [app].
    repeat (constructor; [first [by apply byte_at_ok|by apply Z.mod_pos_bound|unfold uint; lia]|]).
    done. }
  split; [done|]. revert Hok. unfold header, ipv4_base, word_bytes. cbn [app]. intros Hok.
  apply Forall_cons_1 in Hok as [_ Hok]. apply Forall_cons_1 in Hok as [Hok1 Hok]. apply wsum_nonneg in Hok. cbn [wsum].
  unfold uint in Hok1. cbn [wsum] in Hok. lia.
Qed.

(** A fragment as the code builds it is one the receiver accepts, and it reads what was put in. *)
Lemma ipv4_fragment_ok :
  exists f, ipv4_fragment packet options piece offset (c * 32768) more = Ok f /\ v4_accepted packet mtu f /\ v4_view f = (offset, more, piece).
Proof.
  destruct ihl_eq as [Hi He]. destruct (ihl_byte ihl Hi) as (Hb1 & Hb2 & _). destruct header_ok as [Hok Hnz].
  destruct (flags_word_view c offset more) as (Hw0 & Hw1 & Hw2 & Hw3); [done..|]. fold w in Hw0, Hw1, Hw2, Hw3.
  pose proof (len_nonneg options). pose proof (len_nonneg piece).
  pose proof (ipv4_fragment_eq (byte_at packet) (drop 20 packet) options piece offset (c * 32768) more) as E. cbv zeta in E.
  rewrite <- packet_bytes in E by done. fold ihl w in E. eexists. split; [apply E; [lia|lia|apply Z.div_lt_upper_bound; lia]|]. clear E.
  set (cs := word_bytes _).
  assert (Hf : ipv4_base (byte_at packet) ihl (20 + len options + len piece) w cs ++ options ++ piece = header cs ++ piece).
  { unfold header. by rewrite app_assoc. }
  rewrite Hf. assert (Hlh : len (header cs) = 20 + len options) by (unfold header, cs; rewrite len_app; done).
  set (f := header cs ++ piece).
  assert (H6 : field f 6 = w) by (transitivity ((w / 256) mod 256 * 256 + w mod 256); [done|by apply word_bytes_val]).
  assert (H2 : field f 2 = len f).
  { unfold f at 2. rewrite len_app, Hlh. transitivity (((20 + len options + len piece) / 256) mod 256 * 256 + (20 + len options + len piece) mod 256);
      [done|apply word_bytes_val; lia]. }
  assert (Hb0 : byte_at f 0 = Z.lor 64 ihl) by done.
  assert (Hh : v4_header_len f = 20 + len options) by (unfold v4_header_len; rewrite Hb0, Hb2; lia).
  assert (Htd : v4_header f = header cs /\ v4_payload f = piece).
  { unfold v4_header, v4_payload. rewrite Hh, <- Hlh. unfold len. rewrite Nat2Z.id. unfold f. by rewrite take_app_length, drop_app_length. }
  destruct Htd as [Hth Htp]. split; [constructor|].
  - unfold f. rewrite len_app, Hlh. lia.
  - done.
  - by rewrite Hb0.
  - rewrite Hh. unfold f. rewrite len_app, Hlh. lia.
  - rewrite Hth. apply (checksum_closes header header_sum Hok Hnz).
  - done.
  - rewrite H6, Hw3, flags. assert (c = 0 \/ c = 1) as [-> | ->] by lia; done.
  - unfold v4_view. by rewrite H6, Hw1, Hw2, Htp.
Qed.

End Fragment.

(** ** The whole packet *)

(** [m] does not panic, and a value it returns satisfies [Q]. *)
Definition gives {A} (Q : A -> Prop) (m : outcome A) : Prop :=
  match m with Ok a => Q a | Err _ => True | Panic => False end.

(** The size of the next piece: it makes progress, and only the last one is not aligned. *)
Lemma piece_size capacity n offset :
  8 <= capacity -> 0 <= offset < n -> offset mod 8 = 0 ->
  let t := if capacity <? n - offset then capacity - capacity mod 8 else n - offset in
  0 < t <= capacity /\ offset + t <= n /\ (offset + t < n -> (offset + t) mod 8 = 0).
Proof.
  intros Hc Ho Ha t. unfold t. pose proof (Z.div_mod capacity 8). pose proof (Z.mod_pos_bound capacity 8).
  destruct (Z.ltb_spec capacity (n - offset)); [|lia]. split; [lia|]. split; [lia|]. intros _. rewrite (Z.add_mod offset), Ha by lia.
  replace (capacity - capacity mod 8) with (capacity / 8 * 8) by lia. by rewrite Z.mod_mul.
Qed.

Lemma copied_loop_ok fuel options copied :
  bytes_ok options -> copied_loop fuel options = Ok copied -> bytes_ok copied /\ len copied <= len options.
Proof.
  revert options copied. induction fuel as [|fuel IH]; intros options copied Ho E; [done|]. cbn [copied_loop] in E.
  destruct options as [|kind rest]; [by injection E as <-|]. pose proof (len_nonneg rest) as Hn. rewrite len_cons.
  destruct (kind =? 0); [injection E as <-; split; [done|rewrite len_nil; lia]|].
  destruct (kind =? 1).
  { apply Forall_cons_1 in Ho as [_ Ho]. destruct (IH _ _ Ho E). split; [done|lia]. }
  destruct rest as [|n rest']; [done|]. set (options := kind :: n :: rest') in *.
  destruct ((n <? 2) || (len options <? n)) eqn:Eg; [done|]. apply orb_false_iff in Eg as [E1%Z.ltb_ge E2%Z.ltb_ge].
  destruct (copied_loop fuel (drop (Z.to_nat n) options)) as [k| |] eqn:Ek; cbn in E; [|done|done].
  injection E as <-. destruct (IH _ _ (Forall_drop _ _ _ Ho) Ek) as [H1 H2]. unfold len in H2. rewrite length_drop in H2.
  assert (len options = 1 + len (n :: rest')) as E3 by apply len_cons.
  split; [apply Forall_app; split; [|done]; case_match; [by apply Forall_take|done]|].
  rewrite len_app. case_match; unfold len in *; rewrite ?length_take; cbn [length] in *; lia.
Qed.

Lemma len_pad4 l : len (pad4 l) = len l + (- len l) mod 4 /\ len (pad4 l) mod 4 = 0.
Proof.
  assert (len (pad4 l) = len l + (- len l) mod 4) as E.
  { unfold pad4. rewrite len_app. unfold len at 2. rewrite repeat_length, Z2Nat.id; [done|]. apply Z.mod_pos_bound. lia. }
  split; [done|]. rewrite E. rewrite Z.add_mod_idemp_r by lia. by rewrite Z.add_opp_diag_r.
Qed.

(** The options of the later fragments: aligned, no longer than those of the packet *)
Lemma copied_ipv4_options_ok options copied :
  bytes_ok options -> len options mod 4 = 0 -> copied_ipv4_options options = Ok copied ->
  bytes_ok copied /\ len copied <= len options /\ len copied mod 4 = 0.
Proof.
  intros Ho Ha E. unfold copied_ipv4_options in E. destruct (copied_loop _ options) as [k| |] eqn:Ek; cbn in E; [|done|done].
  injection E as <-. destruct (copied_loop_ok _ _ _ Ho Ek) as [Hk Hl]. destruct (len_pad4 k) as [E1 E2].
  split; [|split; [|done]].
  - unfold pad4. apply Forall_app. split; [done|]. apply List.Forall_forall. intros x Hx%repeat_spec. subst. unfold uint. lia.
  - pose proof (Z.mod_pos_bound (- len k) 4). assert (len (pad4 k) <= len options); [|done].
    rewrite E1. pose proof (Z.div_mod (len options) 4). pose proof (Z.div_mod (- len k) 4). lia.
Qed.

Lemma ipv4_loop_ok packet options copied payload mtu c fuel offset :
  bytes_ok packet -> bytes_ok options -> bytes_ok copied -> 20 <= len packet -> 0 <= c < 2 -> field packet 6 = c * 32768 ->
  len options <= 40 -> len copied <= len options -> len options mod 4 = 0 -> len copied mod 4 = 0 ->
  20 + len options + len payload < 65536 -> 20 + len options + 8 <= mtu ->
  0 <= offset < len payload -> offset mod 8 = 0 -> (Z.to_nat (len payload - offset) < fuel)%nat ->
  exists fs, ipv4_loop fuel packet options copied payload (c * 32768) mtu offset = Ok fs /\ Forall (v4_accepted packet mtu) fs
             /\ collect v4_view offset fs = Some (drop (Z.to_nat offset) payload).
Proof.
  intros Hp Ho Hco Hl Hc Hfl Hol Hcl Hoa Hca Ht Hm. revert offset. induction fuel as [|fuel IH]; intros offset Hr Ha Hf; [lia|].
  cbn [ipv4_loop]. rewrite (proj2 (Z.leb_gt _ _)) by lia.
  set (opts := if offset =? 0 then options else copied). unfold IPV4_MIN_HEADER.
  assert (bytes_ok opts /\ len opts <= len options /\ len opts mod 4 = 0) as (Hop & Hopl & Hopa) by (unfold opts; case_match; done || lia).
  clearbody opts. rewrite (proj2 (Z.ltb_ge _ _)) by lia. set (capacity := mtu - (20 + len opts)).
  set (t := if _ <? _ then _ else _).
  assert (Htk : 0 < t <= capacity /\ offset + t <= len payload /\ (offset + t < len payload -> (offset + t) mod 8 = 0)) by (by apply piece_size; unfold capacity; lia).
  clearbody t. unfold capacity in Htk. destruct Htk as (Ht1 & Ht2 & Ht3). pose proof (len_nonneg options). rewrite (proj2 (Z.eqb_neq t 0)) by lia. rewrite get_slice_ok by lia. cbn [mbind outcome_bind].
  assert (Hsl : len (slice payload offset (offset + t)) = t) by (rewrite len_slice by lia; lia).
  destruct (ipv4_fragment_ok packet opts (slice payload offset (offset + t)) mtu c offset (offset + t <? len payload)) as (f & -> & Hf1 & Hf2); [done||lia..|].
  cbn [mbind outcome_bind]. destruct (Z.ltb_spec (offset + t) (len payload)) as [Hlt|Hge].
  - destruct (IH (offset + t)) as (fs & -> & Hfs & Hcol); [lia|auto|lia|]. exists (f :: fs). split; [done|]. split; [by constructor|].
    cbn [collect]. rewrite Hf2, Z.eqb_refl, Hsl, Hcol. cbn. f_equal. rewrite <- !slice_to_end with (b := len payload) by done. symmetry. apply slice_split; lia.
  - assert (offset + t = len payload) as E by lia. rewrite E in *. exists [f]. destruct fuel; [lia|]. cbn [ipv4_loop]. rewrite Z.leb_refl.
    split; [done|]. split; [by apply Forall_singleton|]. cbn [collect]. rewrite Hf2, Z.eqb_refl. cbn. by rewrite slice_to_end.
Qed.

(** An IPv4 packet that may be fragmented for [mtu] *)
Record v4_fragmentable (packet : list Z) (mtu : Z) : Prop := mkFragmentable {
  fr_bytes : bytes_ok packet;
  fr_version : Z.shiftr (byte_at packet 0) 4 = 4;
  fr_header : 20 <= v4_header_len packet <= len packet;
  fr_total : field packet 2 = len packet;
  fr_flags : Z.land (field packet 6) 32767 = 0;
  fr_options : exists copied, copied_ipv4_options (slice packet 20 (v4_header_len packet)) = Ok copied;
  fr_mtu : v4_header_len packet + 8 <= mtu;
}.

Lemma index_byte_at l i : 0 <= i < len l -> index l i = Ok (byte_at l (Z.to_nat i)).
Proof.
  intros Hi. unfold index, byte_at, len in *. rewrite (proj2 (Z.leb_le 0 i)) by lia. rewrite nth_lookup.
  by destruct (lookup_lt_is_Some_2 l (Z.to_nat i)) as [x ->]; [lia|].
Qed.

Lemma word_at_field l i : 0 <= i -> i + 1 < len l -> word_at l i = Ok (field l (Z.to_nat i)).
Proof.
  intros Hi Hl. unfold word_at, field. rewrite !index_byte_at by lia. cbn. do 2 f_equal. by replace (Z.to_nat (i + 1)) with (S (Z.to_nat i)) by lia.
Qed.

Lemma flags_bit w : 0 <= w < 65536 -> Z.land w 32767 = 0 -> exists c, 0 <= c < 2 /\ w = c * 32768.
Proof.
  intros Hw E. change 32767 with (Z.ones 15) in E. rewrite Z.land_ones in E by lia. change (2 ^ 15) with 32768 in E.
  exists (w / 32768). pose proof (Z.div_mod w 32768). split; [|lia]. split; [apply Z.div_pos; lia|apply Z.div_lt_upper_bound; lia].
Qed.

Lemma fragment_ip_packet_version identification packet mtu :
  mtu < len packet -> 0 < len packet ->
  fragment_ip_packet identification packet mtu
  = if Z.shiftr (byte_at packet 0) 4 =? 4 then fragment_ipv4 packet mtu
    else if Z.shiftr (byte_at packet 0) 4 =? 6 then fragment_ipv6 identification packet mtu else Err InvalidData.
Proof. intros Hm Hl. unfold fragment_ip_packet. rewrite (proj2 (Z.leb_gt _ _)) by lia. by destruct packet. Qed.

Lemma v4_header_len_bounds packet : v4_header_len packet <= 60 /\ v4_header_len packet mod 4 = 0.
Proof.
  unfold v4_header_len. rewrite Z.mod_mul by lia. change 15 with (Z.ones 4). rewrite Z.land_ones by lia.
  pose proof (Z.mod_pos_bound (byte_at packet 0) (2 ^ 4)). lia.
Qed.

Lemma field_range packet i : bytes_ok packet -> 0 <= field packet i < 65536.
Proof.
  intros Hb. pose proof (byte_at_ok packet i Hb) as H1. pose proof (byte_at_ok packet (S i) Hb) as H2. unfold uint in H1, H2. unfold field. lia.
Qed.

(** The guards of [fragment_ipv4] passed *)
Lemma fragment_ipv4_eq packet mtu c copied :
  20 <= v4_header_len packet <= len packet -> field packet 2 = len packet -> 0 <= c < 2 -> field packet 6 = c * 32768 ->
  copied_ipv4_options (slice packet 20 (v4_header_len packet)) = Ok copied ->
  fragment_ipv4 packet mtu
  = ipv4_loop (S (length (v4_payload packet))) packet (slice packet 20 (v4_header_len packet)) copied (v4_payload packet) (c * 32768) mtu 0.
Proof.
  intros Hh Ht Hcr Ec Hc. unfold fragment_ipv4, IPV4_MIN_HEADER. rewrite (proj2 (Z.ltb_ge (len packet) 20)) by lia.
  rewrite index_byte_at by lia. cbn [mbind outcome_bind]. rewrite (word_at_field packet 2), (word_at_field packet 6) by lia. cbn [mbind outcome_bind].
  change (Z.to_nat 2) with 2%nat. change (Z.to_nat 0) with 0%nat. fold (v4_header_len packet).
  rewrite !(proj2 (Z.ltb_ge _ _)) by lia. rewrite Ht, Z.eqb_refl. cbn [orb negb].
  change (Z.to_nat 6) with 6%nat. rewrite Ec. assert (Z.land (c * 32768) 16383 = 0 /\ Z.land (c * 32768) 16384 = 0) as [-> ->] by
    (assert (c = 0 \/ c = 1) as [-> | ->] by lia; done).
  cbn [Z.eqb negb]. rewrite !get_slice_ok by lia. cbn [mbind outcome_bind]. rewrite Hc. cbn [mbind outcome_bind].
  by rewrite slice_to_end.
Qed.

(** An IPv4 packet that exceeds the MTU, is well formed, has no fragment or
    don't-fragment bit and leaves room for eight bytes of payload is split, and a receiver
    gets the packet back: every fragment is within the MTU, has a correct total length and
    header checksum and the packet's addresses, identification, protocol, time to live and
    reserved bit; the fragments are contiguous, all but the last announce more, and their
    payloads joined are the payload of the packet.  *)
Theorem ipv4_fragments_reassemble identification packet mtu :
  v4_fragmentable packet mtu -> mtu < len packet ->
  exists fs, fragment_ip_packet identification packet mtu = Ok fs /\ Forall (v4_accepted packet mtu) fs
             /\ collect v4_view 0 fs = Some (v4_payload packet).
Proof.
  intros [Hb Hv Hh Ht Hfl [copied Hc] Hm] Hmtu. destruct (flags_bit (field packet 6)) as (c & Hcr & Ec); [by apply field_range|done|].
  destruct (v4_header_len_bounds packet) as [Hh1 Hh2]. pose proof (field_range packet 2 Hb).
  rewrite fragment_ip_packet_version, Hv by lia. cbn [Z.eqb Pos.eqb]. rewrite (fragment_ipv4_eq packet mtu c copied) by done.
  set (options := slice packet 20 _) in *. assert (Hol : len options = v4_header_len packet - 20) by (unfold options; rewrite len_slice; lia).
  assert (Hoa : len options mod 4 = 0).
  { rewrite Hol. pose proof (Z.div_mod (v4_header_len packet) 4). replace (v4_header_len packet - 20) with ((v4_header_len packet / 4 - 5) * 4) by lia.
    by apply Z.mod_mul. }
  assert (Hop : bytes_ok options) by (by apply slice_bytes_ok).
  destruct (copied_ipv4_options_ok options copied) as (Hk1 & Hk2 & Hk3); [done..|].
  assert (Hpl : len (v4_payload packet) = len packet - v4_header_len packet) by (unfold v4_payload, len in *; rewrite length_drop; lia).
  apply ipv4_loop_ok; done || lia || (unfold len; lia).
Qed.

(** ** IPv6: the receiver *)

(** With the fragment header at [u], announced by the byte at [nhf] *)
Definition v6_view (u : Z) (f : list Z) : Z * bool * list Z :=
  let w := field f (Z.to_nat (u + 2)) in (w - w mod 8, Z.testbit w 0, drop (Z.to_nat (u + 8)) f).

(** The packet a receiver rebuilds from the headers of a fragment and the joined payloads: the
    fragment header is taken out, its next header goes where it was announced. *)
Definition v6_original (u nhf : Z) (f payload : list Z) : list Z :=
  write_at 4 (be_bytes 2 (u - 40 + len payload)) (write_at nhf [byte_at f (Z.to_nat u)] (take (Z.to_nat u) f)) ++ payload.

Record v6_accepted (packet : list Z) (u nhf identification mtu : Z) (f : list Z) : Prop := mkAccepted6 {
  acc6_len : len f <= mtu;
  acc6_total : field f 4 = len f - 40;
  acc6_announced : byte_at f (Z.to_nat nhf) = 44;
  acc6_id : slice f (u + 4) (u + 8) = be_bytes 4 identification;
  acc6_original : v6_original u nhf f (drop (Z.to_nat u) packet) = packet;
}.

Lemma length_write_at i b l : 0 <= i -> i + len b <= len l -> len (write_at i b l) = len l.
Proof. intros Hi Hl. unfold write_at, len in *. rewrite !length_app, length_take, length_drop. lia. Qed.

Lemma lookup_write_at i b l j :
  0 <= i -> i + len b <= len l ->
  write_at i b l !! j = if decide (Z.to_nat i <= j < Z.to_nat (i + len b))%nat then b !! (j - Z.to_nat i)%nat else l !! j.
Proof.
  intros Hi Hl. unfold write_at, len in *. assert (length (take (Z.to_nat i) l) = Z.to_nat i) as Ht by (rewrite length_take; lia).
  case_decide as Hd.
  - rewrite lookup_app_r by lia. rewrite Ht. apply lookup_app_l. lia.
  - destruct (decide (j < Z.to_nat i)%nat) as [Hj|Hj].
    + rewrite lookup_app_l by lia. apply lookup_take_lt. lia.
    + rewrite lookup_app_r by lia. rewrite lookup_app_r by lia. rewrite Ht, lookup_drop. f_equal. lia.
Qed.

Lemma write_at_app_l i b l k : 0 <= i -> i + len b <= len l -> write_at i b (l ++ k) = write_at i b l ++ k.
Proof.
  intros Hi Hl. unfold write_at, len in *. rewrite take_app_le, drop_app_le by lia. by rewrite <- !app_assoc.
Qed.

Lemma byte_at_write_at_out i b l j :
  0 <= i -> i + len b <= len l -> (j < Z.to_nat i \/ Z.to_nat (i + len b) <= j)%nat -> byte_at (write_at i b l) j = byte_at l j.
Proof. intros Hi Hl Hj. unfold byte_at. rewrite !nth_lookup, lookup_write_at by done. by rewrite decide_False by lia. Qed.

Lemma byte_at_write_at_in i b l j :
  0 <= i -> i + len b <= len l -> (Z.to_nat i <= j < Z.to_nat (i + len b))%nat -> byte_at (write_at i b l) j = byte_at b (j - Z.to_nat i).
Proof. intros Hi Hl Hj. unfold byte_at. rewrite !nth_lookup, lookup_write_at by done. by rewrite decide_True by lia. Qed.

(** What was overwritten is what is put back. *)
Lemma write_at_back i b l a : 0 <= i -> i + len b <= len l -> len a = len b -> slice l i (i + len b) = a -> write_at i a (write_at i b l) = l.
Proof.
  intros Hi Hl Ha Hs. apply list_eq. intros j. rewrite lookup_write_at by (rewrite ?length_write_at; lia). rewrite lookup_write_at by lia.
  rewrite Ha. case_decide as Hd; [|done]. rewrite <- Hs. unfold slice. rewrite lookup_take_lt, lookup_drop by lia. f_equal. lia.
Qed.

Lemma write_at_comm i b j c l :
  0 <= i -> i + len b <= len l -> 0 <= j -> j + len c <= len l -> i + len b <= j \/ j + len c <= i ->
  write_at i b (write_at j c l) = write_at j c (write_at i b l).
Proof.
  intros Hi Hb Hj Hc Hd. apply list_eq. intros k. pose proof (len_nonneg b). pose proof (len_nonneg c).
  rewrite !lookup_write_at by (rewrite ?length_write_at; lia). repeat case_decide; done || lia.
Qed.

Lemma v6_flags_word offset (more : bool) :
  0 <= offset < 65536 -> offset mod 8 = 0 ->
  let w := Z.lor (Z.land offset 65528) (if more then 1 else 0) in
  0 <= w < 65536 /\ w - w mod 8 = offset /\ Z.testbit w 0 = more.
Proof.
  intros Ho Ha w. assert (Ek : offset = offset / 8 * 2 ^ 3) by (pose proof (Z.div_mod offset 8); lia).
  assert (0 <= offset / 8 < 8192) by (split; [apply Z.div_pos|apply Z.div_lt_upper_bound]; lia).
  assert (El : Z.land offset 65528 = offset).
  { rewrite Ek. change 65528 with (8191 * 2 ^ 3). rewrite <- !Z.shiftl_mul_pow2 by lia. rewrite <- Z.shiftl_land. f_equal.
    change 8191 with (Z.ones 13). rewrite Z.land_ones by lia. apply Z.mod_small. lia. }
  assert (Hw : w = offset + (if more then 1 else 0)) by (unfold w; rewrite El, Ek; apply lor_disjoint; destruct more; lia).
  clearbody w. clear El. assert (w mod 8 = if more then 1 else 0) as Em.
  { rewrite Hw, Z.add_mod, Ha by lia. by destruct more. }
  split; [destruct more; lia|]. split; [lia|]. rewrite Z.bit0_odd, Hw. rewrite Z.odd_add, Ek. change (2 ^ 3) with (2 * 4).
  replace (offset / 8 * (2 * 4)) with (2 * (offset / 8 * 4)) by lia. rewrite Z.odd_mul. by destruct more.
Qed.

Lemma field_word_bytes l z k i : i = length l -> 0 <= z < 65536 -> field (l ++ be_bytes 2 z ++ k) i = z.
Proof.
  intros -> Hz. rewrite be_bytes_word. unfold field, byte_at. rewrite (app_nth2 l), (app_nth2 l) by lia.
  replace (S (length l) - length l)%nat with 1%nat by lia. rewrite Nat.sub_diag.
  cbn [word_bytes app nth]. by apply word_bytes_val.
Qed.

Lemma slice_be_field l i : bytes_ok l -> 0 <= i -> i + 2 <= len l -> slice l i (i + 2) = be_bytes 2 (field l (Z.to_nat i)).
Proof.
  intros Hb Hi Hl. rewrite be_bytes_word. unfold slice, word_bytes, field, len in *. replace (Z.to_nat (i + 2 - i)) with 2%nat by lia.
  destruct (lookup_lt_is_Some_2 l (Z.to_nat i)) as [x Hx]; [lia|]. destruct (lookup_lt_is_Some_2 l (S (Z.to_nat i))) as [y Hy]; [lia|].
  pose proof (Forall_lookup_1 _ _ _ _ Hb Hx) as Ux. pose proof (Forall_lookup_1 _ _ _ _ Hb Hy) as Uy. unfold uint in Ux, Uy.
  rewrite (drop_S l x), (drop_S l y) by done. cbn [take]. rewrite take_0. unfold byte_at. rewrite !nth_lookup, Hx, Hy. cbn [from_option default id].
  rewrite Z.div_add_l by lia. rewrite (Z.div_small y), Z.add_0_r by lia. rewrite Z.mod_small by lia. rewrite Z.add_comm, Z.mod_add, Z.mod_small by lia. done.
Qed.

Section Fragment6.
Context (packet piece : list Z) (u nhf fragment_next identification mtu offset : Z) (more : bool).
Context (packet_ok : bytes_ok packet) (total : field packet 4 = len packet - 40).
Context (u_range : 40 <= u <= len packet) (nhf_range : nhf = 6 \/ 40 <= nhf < u) (next : fragment_next = byte_at packet (Z.to_nat nhf)).
Context (fits : u + 8 + len piece <= mtu) (mtu_range : mtu < len packet).
Context (offset_range : 0 <= offset < 65536) (offset_aligned : offset mod 8 = 0).

Let head : list Z := take (Z.to_nat u) packet.
Let n : Z := u + 8 + len piece - 40.
Let head' : list Z := write_at 4 (be_bytes 2 n) (write_at nhf [44] head).

#[local] Lemma len_head : len head = u /\ len head' = u.
Proof.
  assert (len head = u) as E by (unfold head, len in *; rewrite length_take; lia). split; [done|].
  unfold head'. rewrite length_write_at, length_write_at; rewrite ?length_write_at; rewrite ?len_be_bytes, ?E, ?len_cons, ?len_nil; lia.
Qed.

(** The header of the packet comes back. *)
#[local] Lemma head_back : write_at 4 (be_bytes 2 (len packet - 40)) (write_at nhf [fragment_next] head') = head.
Proof.
  destruct len_head as [E _]. unfold head'. rewrite (write_at_comm 4 (be_bytes 2 n) nhf [44] head) by (rewrite ?len_be_bytes, ?len_cons, ?len_nil, ?E; lia).
  assert (Hl : len (write_at 4 (be_bytes 2 n) head) = u) by (rewrite length_write_at; rewrite ?len_be_bytes, ?E; lia).
  rewrite write_at_back.
  - apply write_at_back; rewrite ?len_be_bytes, ?E; [lia..|done|]. rewrite <- total. unfold head. rewrite slice_take by lia. apply slice_be_field; [done|lia..].
  - lia.
  - rewrite Hl, len_cons, len_nil. lia.
  - done.
  - rewrite len_cons, len_nil. apply index_slice1. rewrite index_byte_at by lia. f_equal.
    rewrite byte_at_write_at_out by (rewrite ?len_be_bytes, ?E; lia). rewrite next. unfold head, byte_at. rewrite !nth_lookup. by rewrite lookup_take_lt by lia.
Qed.

Lemma ipv6_fragment_ok :
  exists f, ipv6_fragment packet piece u nhf fragment_next identification offset more = Ok f
            /\ v6_accepted packet u nhf identification mtu f /\ v6_view u f = (offset, more, piece).
Proof.
  destruct len_head as [E E']. destruct (v6_flags_word offset more) as (Hw0 & Hw1 & Hw2); [done..|]. set (w := Z.lor _ _) in *.
  pose proof (field_range packet 4 packet_ok). pose proof (len_nonneg piece).
  unfold ipv6_fragment. rewrite get_slice_ok by lia. cbn [mbind outcome_bind]. rewrite slice_from_0. fold head. rewrite try_from_u_ok by lia.
  cbn [mbind outcome_bind]. fold w. set (fh := [fragment_next; 0] ++ be_bytes 2 w ++ be_bytes 4 identification ++ piece).
  assert (Hfh : len fh = 8 + len piece) by (unfold fh; rewrite !len_app, !len_be_bytes, !len_cons, len_nil; lia).
  assert (Hl44 : len (write_at nhf [44] head) = u) by (rewrite length_write_at; [done|lia|rewrite len_cons, len_nil; lia]).
  unfold IPV6_FRAGMENT, IPV6_HEADER.
  rewrite len_app, Hl44, Hfh. rewrite try_from_u_ok by lia. cbn [mbind outcome_bind].
  replace (u + (8 + len piece) - 40) with n by (unfold n; lia). rewrite write_at_app_l by (rewrite ?len_be_bytes; lia). fold head'.
  eexists. split; [done|]. assert (Hlu : Z.to_nat u = length head') by (unfold len in E'; lia).
  assert (Hdrop : forall k, 0 <= k -> drop (Z.to_nat (u + k)) (head' ++ fh) = drop (Z.to_nat k) fh).
  { intros k Hk. rewrite Z2Nat.inj_add by lia. rewrite Hlu, drop_app_add. done. }
  split; [constructor|].
  - rewrite len_app, E', Hfh. lia.
  - rewrite len_app, E', Hfh. unfold field, byte_at. rewrite !app_nth1 by (unfold len in E'; lia). fold (byte_at head' 4). fold (byte_at head' 5).
    unfold head'. rewrite !byte_at_write_at_in by (rewrite ?len_be_bytes; lia). rewrite be_bytes_word. change (Z.to_nat 4) with 4%nat. cbn [Nat.sub byte_at nth word_bytes].
    rewrite word_bytes_val by (unfold n; lia). unfold n. lia.
  - unfold byte_at. rewrite app_nth1 by (unfold len in E'; lia). fold (byte_at head' (Z.to_nat nhf)). unfold head'.
    rewrite byte_at_write_at_out by (rewrite ?len_be_bytes; lia). rewrite byte_at_write_at_in by (rewrite ?len_cons, ?len_nil; lia). by rewrite Nat.sub_diag.
  - unfold slice. rewrite Hdrop by lia. replace (Z.to_nat (u + 8 - (u + 4))) with 4%nat by lia. done.
  - unfold v6_original. assert (byte_at (head' ++ fh) (Z.to_nat u) = fragment_next) as ->.
    { unfold byte_at. rewrite Hlu, app_nth2 by lia. by rewrite Nat.sub_diag. }
    replace (take (Z.to_nat u) (head' ++ fh)) with head' by (rewrite Hlu; by rewrite take_app_length).
    replace (u - 40 + len (drop (Z.to_nat u) packet)) with (len packet - 40).
    + rewrite head_back. apply take_drop.
    + unfold len in *. rewrite length_drop. lia.
  - unfold v6_view. rewrite Hdrop by lia. assert (field (head' ++ fh) (Z.to_nat (u + 2)) = w) as ->.
    { unfold fh. rewrite app_assoc. apply field_word_bytes; [rewrite length_app; cbn [length]; lia|done]. }
    rewrite Hw1, Hw2. done.
Qed.

End Fragment6.

(** An extension header inside the packet *)
Definition ext_ok (packet : list Z) (e : Extension) : Prop :=
  40 <= ex_start e < ex_end e /\ ex_end e <= len packet /\ ex_next e = byte_at packet (Z.to_nat (ex_start e)).

Lemma extension_loop_ok packet fuel kind cursor :
  bytes_ok packet -> 40 <= cursor -> (Z.to_nat (len packet - cursor) < fuel)%nat ->
  gives (fun r => Forall (ext_ok packet) r.1) (extension_loop fuel packet kind cursor).
Proof.
  intros Hb. revert kind cursor. induction fuel as [|fuel IH]; intros kind cursor Hc Hf; [lia|]. cbn [extension_loop].
  destruct (is_extension kind); cbn [negb]; [|by constructor]. destruct (Z.ltb_spec (len packet) (cursor + 2)) as [|Hl]; [done|].
  rewrite !index_byte_at by lia. cbn [mbind outcome_bind]. pose proof (byte_at_ok packet (Z.to_nat (cursor + 1)) Hb) as Hn. unfold uint in Hn.
  set (n := byte_at packet (Z.to_nat (cursor + 1))) in *. clearbody n.
  destruct (Z.ltb_spec (len packet) (cursor + (n + 1) * 8)) as [|Hl2]; [done|].
  specialize (IH (byte_at packet (Z.to_nat cursor)) (cursor + (n + 1) * 8) ltac:(lia) ltac:(lia)).
  destruct (extension_loop fuel packet _ _) as [[exts last]| |]; cbn in *; [|done|done].
  constructor; [|done]. split; cbn; [lia|]. split; [lia|done].
Qed.

Definition point_ok (packet : list Z) (point : Z * Z * Z) : Prop :=
  let '(u, nhf, next) := point in 40 <= u <= len packet /\ (nhf = 6 \/ 40 <= nhf < u) /\ next = byte_at packet (Z.to_nat nhf).

Lemma insertion_loop_ok packet exts point : Forall (ext_ok packet) exts -> point_ok packet point -> point_ok packet (insertion_loop exts point).
Proof.
  revert point. induction exts as [|e exts IH]; intros point He Hp; [done|]. apply Forall_cons_1 in He as [(H1 & H2 & H3) He].
  cbn [insertion_loop]. case_match; [done|]. apply IH; [done|]. cbn. split; [lia|]. split; [lia|done].
Qed.

Lemma insertion_point_ok packet : bytes_ok packet -> 40 <= len packet -> gives (point_ok packet) (ipv6_fragment_insertion_point packet).
Proof.
  intros Hb Hl. unfold ipv6_fragment_insertion_point, IPV6_HEADER. rewrite index_byte_at by lia. cbn [mbind outcome_bind].
  pose proof (extension_loop_ok packet (S (length packet)) (byte_at packet (Z.to_nat 6)) 40 Hb ltac:(lia) ltac:(unfold len; lia)) as H.
  destruct (extension_loop _ _ _ _) as [[exts last]| |]; cbn in *; [|done|done]. case_match; [done|]. cbn.
  apply insertion_loop_ok; [done|]. cbn. split; [lia|]. split; [by left|done].
Qed.

Lemma ipv6_loop_ok packet u nhf next identification mtu fuel offset :
  bytes_ok packet -> field packet 4 = len packet - 40 -> point_ok packet (u, nhf, next) -> mtu < len packet -> u + 16 <= mtu ->
  0 <= offset < len packet - u -> offset mod 8 = 0 -> (Z.to_nat (len packet - u - offset) < fuel)%nat ->
  exists fs, ipv6_loop fuel packet (drop (Z.to_nat u) packet) (u, nhf, next) identification (mtu - (u + 8)) offset = Ok fs
             /\ Forall (v6_accepted packet u nhf identification mtu) fs
             /\ collect (v6_view u) offset fs = Some (drop (Z.to_nat offset) (drop (Z.to_nat u) packet)).
Proof.
  intros Hb Ht (Hu & Hn & Hx) Hm Hm2. set (payload := drop (Z.to_nat u) packet).
  assert (Hpl : len payload = len packet - u) by (unfold payload, len in *; rewrite length_drop; lia).
  pose proof (field_range packet 4 Hb). rewrite <- Hpl. clearbody payload.
  revert offset. induction fuel as [|fuel IH]; intros offset Hr Ha Hf; [lia|].
  cbn [ipv6_loop]. rewrite (proj2 (Z.leb_gt _ _)) by lia. set (capacity := mtu - (u + 8)). set (t := if _ <? _ then _ else _).
  assert (Htk : 0 < t <= capacity /\ offset + t <= len payload /\ (offset + t < len payload -> (offset + t) mod 8 = 0)) by (by apply piece_size; unfold capacity; lia).
  clearbody t. unfold capacity in *. destruct Htk as (Ht1 & Ht2 & Ht3). rewrite get_slice_ok by lia. cbn [mbind outcome_bind].
  assert (Hsl : len (slice payload offset (offset + t)) = t) by (rewrite len_slice by lia; lia).
  destruct (ipv6_fragment_ok packet (slice payload offset (offset + t)) u nhf next identification mtu offset (offset + t <? len payload)) as (f & -> & Hf1 & Hf2);
    [done||lia..|].
  cbn [mbind outcome_bind]. destruct (Z.ltb_spec (offset + t) (len payload)) as [Hlt|Hge].
  - destruct (IH (offset + t)) as (fs & -> & Hfs & Hcol); [lia|auto|lia|]. exists (f :: fs). split; [done|]. split; [by constructor|].
    cbn [collect]. rewrite Hf2, Z.eqb_refl, Hsl, Hcol. cbn. f_equal. rewrite <- !slice_to_end with (b := len payload) by done. symmetry. apply slice_split; lia.
  - assert (offset + t = len payload) as E by lia. rewrite E in *. exists [f]. destruct fuel; [lia|]. cbn [ipv6_loop]. rewrite Z.leb_refl.
    split; [done|]. split; [by apply Forall_singleton|]. cbn [collect]. rewrite Hf2, Z.eqb_refl. cbn. by rewrite slice_to_end.
Qed.

Lemma fragment_ipv6_eq identification packet mtu u nhf next :
  40 < len packet -> field packet 4 = len packet - 40 -> ipv6_fragment_insertion_point packet = Ok (u, nhf, next) -> 40 <= u <= len packet -> u + 16 <= mtu ->
  fragment_ipv6 identification packet mtu
  = ipv6_loop (S (length (drop (Z.to_nat u) packet))) packet (drop (Z.to_nat u) packet) (u, nhf, next) identification (mtu - (u + 8)) 0.
Proof.
  intros Hl Ht E Hu Hm. unfold fragment_ipv6, IPV6_HEADER, IPV6_FRAGMENT_HEADER. rewrite (proj2 (Z.ltb_ge (len packet) 40)) by lia.
  rewrite word_at_field by lia. cbn [mbind outcome_bind]. change (Z.to_nat 4) with 4%nat. rewrite Ht, (proj2 (Z.eqb_neq _ 0)) by lia.
  rewrite (proj2 (Z.eqb_eq (len packet - 40 + 40) (len packet))) by lia. cbn [orb negb]. rewrite E. cbn [mbind outcome_bind fst]. rewrite get_slice_ok by lia.
  cbn [mbind outcome_bind]. rewrite slice_to_end by done. rewrite (proj2 (Z.ltb_ge mtu (u + 8))) by lia.
  pose proof (Z.mod_pos_bound (mtu - (u + 8)) 8). by rewrite (proj2 (Z.eqb_neq _ 0)) by lia.
Qed.

(** An IPv6 packet that exceeds the MTU, whose payload length is right and whose
    extension headers are readable and contain no fragment header, is split when the part
    before the insertion point leaves room for a fragment header and eight bytes: every
    fragment is within the MTU, has a correct payload length, announces the fragment header,
    carries the identification; the offsets are contiguous and all but the last say more
    follows; and from the headers of any of them and the joined payloads the receiver rebuilds
    exactly the packet. *)
Theorem ipv6_fragments_reassemble identification packet mtu u nhf next :
  bytes_ok packet -> Z.shiftr (byte_at packet 0) 4 = 6 -> 40 < len packet -> field packet 4 = len packet - 40 ->
  ipv6_fragment_insertion_point packet = Ok (u, nhf, next) -> u + 16 <= mtu < len packet ->
  exists fs payload, fragment_ip_packet identification packet mtu = Ok fs
             /\ collect (v6_view u) 0 fs = Some payload
             /\ Forall (fun f => len f <= mtu /\ field f 4 = len f - 40 /\ byte_at f (Z.to_nat nhf) = IPV6_FRAGMENT
                                 /\ slice f (u + 4) (u + 8) = be_bytes 4 identification /\ v6_original u nhf f payload = packet) fs.
Proof.
  intros Hb Hv Hl Ht E Hm. pose proof (insertion_point_ok packet Hb ltac:(lia)) as Hp. rewrite E in Hp. cbn [gives] in Hp.
  pose proof Hp as ((Hu1 & Hu2) & _). rewrite fragment_ip_packet_version, Hv by lia. cbn [Z.eqb Pos.eqb].
  rewrite (fragment_ipv6_eq identification packet mtu u nhf next) by (done || lia).
  assert (Hpl : len (drop (Z.to_nat u) packet) = len packet - u) by (unfold len in *; rewrite length_drop; lia).
  destruct (ipv6_loop_ok packet u nhf next identification mtu (S (length (drop (Z.to_nat u) packet))) 0) as (fs & H1 & H2 & H3);
    [done || lia || (unfold len in *; lia)..|].
  exists fs, (drop (Z.to_nat u) packet). split; [done|]. split; [by rewrite H3|]. eapply Forall_impl; [|exact H2]. by intros f [].
Qed.

(** ** No panic *)

Lemma copied_loop_gives fuel options : (length options < fuel)%nat -> bytes_ok options -> gives (fun _ => True) (copied_loop fuel options).
Proof.
  revert options. induction fuel as [|fuel IH]; intros options Hf Hb; [lia|]. cbn [copied_loop]. destruct options as [|kind rest]; [done|].
  case_match; [done|]. case_match; [apply IH; [cbn in Hf; lia|by apply Forall_cons_1 in Hb as [_ ?]]|]. destruct rest as [|n rest]; [done|].
  destruct ((n <? 2) || _) eqn:E; [done|]. apply orb_false_iff in E as [E1%Z.ltb_ge _]. specialize (IH (drop (Z.to_nat n) (kind :: n :: rest))).
  destruct (copied_loop fuel _); [done|done|]. apply IH; [rewrite length_drop; cbn [length] in *; lia|by apply Forall_drop].
Qed.

Lemma ipv4_fragment_gives packet options piece offset flags more :
  20 <= len packet -> gives (fun _ => True) (ipv4_fragment packet options piece offset flags more).
Proof. intros Hl. unfold ipv4_fragment, IPV4_MIN_HEADER, try_from_u. rewrite get_slice_ok by lia. cbn. repeat (case_match; cbn; try done). Qed.

Lemma ipv4_loop_gives packet options copied payload flags mtu fuel offset :
  20 <= len packet -> 0 <= offset <= len payload -> (Z.to_nat (len payload - offset) < fuel)%nat ->
  gives (fun _ => True) (ipv4_loop fuel packet options copied payload flags mtu offset).
Proof.
  intros Hl. revert offset. induction fuel as [|fuel IH]; intros offset Ho Hf; [lia|]. cbn [ipv4_loop].
  destruct (Z.leb_spec (len payload) offset) as [|Hlt]; [done|]. set (opts := if _ =? 0 then _ else _). clearbody opts.
  destruct (Z.ltb_spec mtu (IPV4_MIN_HEADER + len opts)) as [|Hm]; [done|]. set (capacity := mtu - _). set (t := if _ <? _ then _ else _).
  destruct (Z.eqb_spec t 0) as [|Ht0]; [done|]. assert (0 < t <= len payload - offset).
  { unfold t in *. pose proof (Z.mod_pos_bound capacity 8). pose proof (Z.mod_le capacity 8). unfold capacity in *.
    destruct (Z.ltb_spec (mtu - (IPV4_MIN_HEADER + len opts)) (len payload - offset)); lia. }
  clearbody t. rewrite get_slice_ok by lia. cbn [mbind outcome_bind]. pose proof (ipv4_fragment_gives packet opts (slice payload offset (offset + t)) offset flags (offset + t <? len payload) Hl) as Hg.
  destruct (ipv4_fragment _ _ _ _ _ _); cbn in *; [|done|done]. specialize (IH (offset + t) ltac:(lia) ltac:(lia)).
  by destruct (ipv4_loop _ _ _ _ _ _ _ _).
Qed.

Lemma ipv6_fragment_gives packet piece u nhf next identification offset more :
  0 <= u <= len packet -> gives (fun _ => True) (ipv6_fragment packet piece u nhf next identification offset more).
Proof.
  intros Hu. unfold ipv6_fragment, try_from_u. rewrite get_slice_ok by lia. cbn [mbind outcome_bind].
  destruct (offset <? 2 ^ 16); cbn [mbind outcome_bind]; [|done]. by destruct (_ - _ <? _).
Qed.

Lemma ipv6_loop_gives packet payload point identification capacity fuel offset :
  point_ok packet point -> capacity - capacity mod 8 <> 0 -> 0 <= capacity -> 0 <= offset <= len payload -> (Z.to_nat (len payload - offset) < fuel)%nat ->
  gives (fun _ => True) (ipv6_loop fuel packet payload point identification capacity offset).
Proof.
  intros Hp Hc Hc0. revert offset. induction fuel as [|fuel IH]; intros offset Ho Hf; [lia|]. cbn [ipv6_loop].
  destruct (Z.leb_spec (len payload) offset) as [|Hlt]; [done|]. set (t := if _ <? _ then _ else _). assert (0 < t <= len payload - offset).
  { unfold t in *. pose proof (Z.mod_pos_bound capacity 8). pose proof (Z.mod_le capacity 8). destruct (Z.ltb_spec capacity (len payload - offset)); lia. }
  clearbody t. rewrite get_slice_ok by lia. cbn [mbind outcome_bind]. destruct point as [[u nhf] next]. destruct Hp as (Hu & _ & _).
  pose proof (ipv6_fragment_gives packet (slice payload offset (offset + t)) u nhf next identification offset (offset + t <? len payload) ltac:(lia)) as Hg.
  destruct (ipv6_fragment _ _ _ _ _ _ _ _); cbn [mbind outcome_bind gives] in *; [|done|done].
  specialize (IH (offset + t) ltac:(lia) ltac:(lia)). by destruct (ipv6_loop _ _ _ _ _ _ _).
Qed.

Lemma fragment_ipv4_gives packet mtu : bytes_ok packet -> gives (fun _ => True) (fragment_ipv4 packet mtu).
Proof.
  intros Hb. unfold fragment_ipv4, IPV4_MIN_HEADER. destruct (Z.ltb_spec (len packet) 20) as [|Hl]; [done|].
  rewrite index_byte_at, (word_at_field packet 2), (word_at_field packet 6) by lia. cbn [mbind outcome_bind].
  change (Z.to_nat 0) with 0%nat. fold (v4_header_len packet). destruct (_ || _) eqn:E; [done|].
  apply orb_false_iff in E as [[E1%Z.ltb_ge E2%Z.ltb_ge]%orb_false_iff _]. case_match; [done|]. case_match; [done|].
  rewrite !get_slice_ok by lia. cbn [mbind outcome_bind]. unfold copied_ipv4_options.
  pose proof (copied_loop_gives (S (length (slice packet 20 (v4_header_len packet)))) (slice packet 20 (v4_header_len packet)) ltac:(lia)
    ltac:(by apply slice_bytes_ok)) as Hg.
  destruct (copied_loop _ _); cbn [gives mbind outcome_bind] in *; [|done|done]. apply ipv4_loop_gives; [lia|pose proof (len_nonneg (slice packet (v4_header_len packet) (len packet))); lia|unfold len; lia].
Qed.

Lemma fragment_ipv6_gives identification packet mtu : bytes_ok packet -> gives (fun _ => True) (fragment_ipv6 identification packet mtu).
Proof.
  intros Hb. unfold fragment_ipv6, IPV6_HEADER, IPV6_FRAGMENT_HEADER. destruct (Z.ltb_spec (len packet) 40) as [|Hl]; [done|].
  rewrite word_at_field by lia. cbn [mbind outcome_bind]. case_match; [done|]. pose proof (insertion_point_ok packet Hb Hl) as Hp.
  destruct (ipv6_fragment_insertion_point packet) as [[[u nhf] next]| |]; cbn [gives mbind outcome_bind] in *; [|done|done].
  pose proof Hp as (Hu & _ & _). cbn [fst]. rewrite get_slice_ok by lia. cbn [mbind outcome_bind].
  destruct (Z.ltb_spec mtu (u + 8)) as [|Hm]; [done|]. destruct (Z.eqb_spec (mtu - (u + 8) - (mtu - (u + 8)) mod 8) 0) as [|Hne]; [done|].
  pose proof (len_nonneg (slice packet u (len packet))). apply ipv6_loop_gives; [done|done|lia|lia|unfold len; lia].
Qed.

(** No packet makes the splitting panic, whatever its bytes and the MTU, and the loops
    end; a packet within the MTU is passed on as it is; an IPv4 packet over the MTU that is
    itself a fragment or must not be fragmented is refused as invalid input. *)
Theorem fragment_ip_packet_total identification packet mtu :
  bytes_ok packet ->
  no_panic (fragment_ip_packet identification packet mtu)
  /\ (len packet <= mtu -> fragment_ip_packet identification packet mtu = Ok [packet])
  /\ (mtu < len packet -> Z.shiftr (byte_at packet 0) 4 = 4 -> 20 <= v4_header_len packet <= len packet -> field packet 2 = len packet ->
      Z.land (field packet 6) 16383 <> 0 \/ Z.land (field packet 6) 16384 <> 0 -> fragment_ip_packet identification packet mtu = Err InvalidInput).
Proof.
  intros Hb. split; [|split].
  - destruct (Z.leb_spec (len packet) mtu) as [Hle|Hgt]; [unfold fragment_ip_packet; by rewrite (proj2 (Z.leb_le _ _) Hle)|].
    destruct packet as [|b packet'] eqn:Ep; [unfold fragment_ip_packet; by case_match|]. rewrite <- Ep in *.
    rewrite fragment_ip_packet_version; [|lia|rewrite Ep, len_cons; pose proof (len_nonneg packet'); lia].
    pose proof (fragment_ipv4_gives packet mtu Hb). pose proof (fragment_ipv6_gives identification packet mtu Hb).
    case_match; [by destruct (fragment_ipv4 packet mtu)|]. case_match; [by destruct (fragment_ipv6 identification packet mtu)|done].
  - intros Hle. unfold fragment_ip_packet. by rewrite (proj2 (Z.leb_le _ _) Hle).
  - intros Hm Hv Hh Ht Hf. rewrite fragment_ip_packet_version, Hv by lia. cbn [Z.eqb Pos.eqb]. unfold fragment_ipv4, IPV4_MIN_HEADER.
    rewrite (proj2 (Z.ltb_ge (len packet) 20)) by lia. rewrite index_byte_at, (word_at_field packet 2), (word_at_field packet 6) by lia. cbn [mbind outcome_bind].
    change (Z.to_nat 0) with 0%nat. change (Z.to_nat 2) with 2%nat. change (Z.to_nat 6) with 6%nat. fold (v4_header_len packet).
    rewrite !(proj2 (Z.ltb_ge _ _)) by lia. rewrite Ht, Z.eqb_refl. cbn [orb negb].
    destruct (Z.eqb_spec (Z.land (field packet 6) 16383) 0); cbn [negb]; [|done].
    destruct (Z.eqb_spec (Z.land (field packet 6) 16384) 0); cbn [negb]; [|done]. by destruct Hf.
Qed.

Module IpFragmentWitness.

(** A datagram of 50 bytes of payload with a security option *)
Definition v4_packet : list Z :=
  [70; 0; 0; 74; 1; 2; 0; 0; 64; 17; 0; 0; 10; 0; 0; 1; 10; 0; 0; 2; 130; 3; 7; 1] ++ (Z.of_nat <$> seq 0 50).

(** One with a hop-by-hop header *)
Definition v6_packet : list Z :=
  [96; 0; 0; 0; 0; 58; 0; 64] ++ repeat 1 32 ++ [17; 0; 1; 2; 3; 4; 5; 6] ++ (Z.of_nat <$> seq 0 50).

Lemma v4_packet_ok : v4_fragmentable v4_packet 48.
Proof.
  constructor; try (vm_compute; done); [|by eexists; vm_compute]. apply Forall_forall. intros x Hx. revert x Hx. rewrite <- Forall_forall.
  repeat (constructor; [unfold uint; lia|]). constructor.
Qed.

Lemma ipv4_fragments_reassemble_witness : exists fs, fragment_ip_packet 1 v4_packet 48 = Ok fs /\ len fs = 3 /\ collect v4_view 0 fs = Some (v4_payload v4_packet).
Proof.
  destruct (ipv4_fragments_reassemble 1 v4_packet 48) as (fs & E & _ & Hc); [exact v4_packet_ok|vm_compute; done|].
  exists fs. split; [done|]. split; [|done]. assert (Ok fs = fragment_ip_packet 1 v4_packet 48) as E' by done. vm_compute in E'. injection E' as ->. done.
Defined.

Lemma ipv6_fragments_reassemble_witness :
  exists fs payload, fragment_ip_packet 9 v6_packet 80 = Ok fs /\ len fs = 3 /\ Forall (fun f => v6_original 48 40 f payload = v6_packet) fs.
Proof.
  destruct (ipv6_fragments_reassemble 9 v6_packet 80 48 40 17) as (fs & payload & E & _ & Hf); [|done|done|done|done|vm_compute; done|].
  - repeat (constructor; [unfold uint; lia|]). constructor.
  - exists fs, payload. split; [done|]. split; [|eapply Forall_impl; [|exact Hf]; naive_solver].
    assert (Ok fs = fragment_ip_packet 9 v6_packet 80) as E' by done. vm_compute in E'. injection E' as ->. done.
Defined.

Lemma fragment_ip_packet_total_witness : no_panic (fragment_ip_packet 1 [69; 0] 1).
Proof. apply (fragment_ip_packet_total 1 [69; 0] 1). repeat (constructor; [unfold uint; lia|]). constructor. Defined.

End IpFragmentWitness.
