(* ===== verification/FlowNat.v ===== *)
(** * The flow table and the endpoint-independent table

    Models [src/crates/core-capture/src/nat.rs] and [eim_nat.rs].  A method that first reads
    the main table and then takes the lock of the flow's index shard is two definitions: the
    read, and the [_locked] part with what was read as its arguments; the method composes
    them, and the step relation lets other calls come between.  [Instant::now()] is an
    argument.  Sockets are an arbitrary type. *)

From stdpp Require Import base list gmap strings numbers option.
From S2P Require Import Prelude Net Instances.

(** ** [NatTable] *)

Record NatEntry : Type := mkNatEntry {
  ne_source : SocketAddr;
  ne_original_dst : SocketAddr;
  ne_fake_host : option string;
  ne_network : string;
  ne_created_at : Z;
  ne_last_seen : Z
}.

Record FlowKey : Type := mkFlowKey { fk_network : string; fk_src : SocketAddr; fk_dst : SocketAddr }.

#[global] Instance FlowKey_eq_dec : EqDecision FlowKey.
Proof. solve_decision. Defined.
#[global] Instance FlowKey_countable : Countable FlowKey.
Proof. by refine (inj_countable' (fun k => (fk_network k, fk_src k, fk_dst k)) (fun p => mkFlowKey p.1.1 p.1.2 p.2) _); intros []. Defined.

Definition from_entry (e : NatEntry) : FlowKey := mkFlowKey (ne_network e) (ne_source e) (ne_original_dst e).

Record HostPin : Type := mkHostPin { hp_outbound : string; hp_last_seen : Z }.

Record NatTable : Type := mkNatTable {
  nt_map : gmap Z NatEntry;
  nt_by_flow : gmap FlowKey Z;
  nt_host_pin : gmap string HostPin;
  nt_ttl : Z;
  nt_next_id : Z
}.

Definition NatTable_new (ttl : Z) : NatTable := mkNatTable ∅ ∅ ∅ ttl 1.

Definition with_maps (t : NatTable) (map : gmap Z NatEntry) (by_flow : gmap FlowKey Z) : NatTable :=
  mkNatTable map by_flow (nt_host_pin t) (nt_ttl t) (nt_next_id t).

Definition with_pins (t : NatTable) (pins : gmap string HostPin) : NatTable :=
  mkNatTable (nt_map t) (nt_by_flow t) pins (nt_ttl t) (nt_next_id t).

Definition seen_at (e : NatEntry) (now : Z) : NatEntry :=
  mkNatEntry (ne_source e) (ne_original_dst e) (ne_fake_host e) (ne_network e) (ne_created_at e) now.

Definition pin_host (t : NatTable) (host outbound : string) (now : Z) : NatTable :=
  with_pins t (<[host := mkHostPin outbound now]> (nt_host_pin t)).

Definition lookup_pin (t : NatTable) (host : string) (now : Z) : NatTable * option string :=
  match nt_host_pin t !! host with
  | None => (t, None)
  | Some e => (with_pins t (<[host := mkHostPin (hp_outbound e) now]> (nt_host_pin t)), Some (hp_outbound e))
  end.

(** The update of an existing entry *)
Definition merge_entry (current entry : NatEntry) : NatEntry :=
  mkNatEntry (ne_source current) (ne_original_dst current)
    (match ne_fake_host entry with Some h => Some h | None => ne_fake_host current end)
    (ne_network current)
    (if ne_created_at entry <? ne_created_at current then ne_created_at entry else ne_created_at current)
    (if ne_last_seen current <? ne_last_seen entry then ne_last_seen entry else ne_last_seen current).

Definition nat_insert (t : NatTable) (entry : NatEntry) : NatTable * Z :=
  let key := from_entry entry in
  match nt_by_flow t !! key with
  | Some id =>
    match nt_map t !! id with
    | Some current => (with_maps t (<[id := merge_entry current entry]> (nt_map t)) (nt_by_flow t), id)
    | None => (with_maps t (<[id := entry]> (nt_map t)) (nt_by_flow t), id)
    end
  | None =>
    let id := nt_next_id t in
    (mkNatTable (<[id := entry]> (nt_map t)) (<[key := id]> (nt_by_flow t)) (nt_host_pin t) (nt_ttl t) (wrapping_add 64 id 1), id)
  end.

Definition touch_locked (t : NatTable) (id : Z) (key : FlowKey) (now : Z) : NatTable :=
  match nt_by_flow t !! key with
  | Some i =>
    if i =? id then
      match nt_map t !! id with
      | Some entry => with_maps t (<[id := seen_at entry now]> (nt_map t)) (nt_by_flow t)
      | None => t
      end
    else t
  | None => t
  end.

Definition nat_touch (t : NatTable) (id now : Z) : NatTable :=
  match nt_map t !! id with
  | None => t
  | Some e => touch_locked t id (from_entry e) now
  end.

Definition lookup_flow (t : NatTable) (key : FlowKey) (now : Z) : NatTable * option NatEntry :=
  match nt_by_flow t !! key with
  | Some id =>
    match nt_map t !! id with
    | None => (with_maps t (nt_map t) (delete key (nt_by_flow t)), None)
    | Some entry =>
      let entry := seen_at entry now in
      (with_maps t (<[id := entry]> (nt_map t)) (nt_by_flow t), Some entry)
    end
  | None => (t, None)
  end.

Definition remove_locked (t : NatTable) (id : Z) (key : FlowKey) : NatTable * option NatEntry :=
  match nt_by_flow t !! key with
  | Some i =>
    let by_flow := if i =? id then delete key (nt_by_flow t) else nt_by_flow t in
    (with_maps t (delete id (nt_map t)) by_flow, nt_map t !! id)
  | None => (with_maps t (delete id (nt_map t)) (nt_by_flow t), nt_map t !! id)
  end.

Definition nat_remove (t : NatTable) (id : Z) : NatTable * option NatEntry :=
  match nt_map t !! id with
  | None => (t, None)
  | Some e => remove_locked t id (from_entry e)
  end.

Definition nat_get (t : NatTable) (id : Z) : option NatEntry := nt_map t !! id.

Definition expired (t : NatTable) (now last_seen : Z) : bool := nt_ttl t <=? duration_since now last_seen.

(** The body of the loop over the candidates, and whether the entry went *)
Definition purge_locked (t : NatTable) (now id : Z) (key : FlowKey) : NatTable * Z :=
  match nt_map t !! id with
  | Some entry =>
    if expired t now (ne_last_seen entry) then
      let by_flow :=
        match nt_by_flow t !! key with
        | Some i => if i =? id then delete key (nt_by_flow t) else nt_by_flow t
        | None => nt_by_flow t
        end in
      (with_maps t (delete id (nt_map t)) by_flow, 1)
    else (t, 0)
  | None => (t, 0)
  end.

Definition purge_candidates `{HashIter} (t : NatTable) (now : Z) : list (Z * FlowKey) :=
  omap (fun e => if expired t now (ne_last_seen e.2) then Some (e.1, from_entry e.2) else None) (hash_iter (nt_map t)).

Definition purge_flows (t : NatTable) (now : Z) (candidates : list (Z * FlowKey)) : NatTable * Z :=
  foldl (fun acc c => let '(t, n) := purge_locked acc.1 now c.1 c.2 in (t, acc.2 + n)) (t, 0) candidates.

Definition purge_pins (t : NatTable) (now : Z) : NatTable * Z :=
  let pins := filter (fun p => negb (expired t now (hp_last_seen p.2)) = true) (nt_host_pin t) in
  (with_pins t pins, Z.of_nat (size (nt_host_pin t)) - Z.of_nat (size pins)).

Definition nat_purge `{HashIter} (t : NatTable) (now : Z) : NatTable * Z :=
  let '(t, removed) := purge_flows t now (purge_candidates t now) in
  let '(t, pin_removed) := purge_pins t now in
  (t, removed + pin_removed).

(** ** [EimNatTable] *)

Record EimKey : Type := mkEimKey { ek_network : string; ek_inner_src : SocketAddr }.

#[global] Instance EimKey_eq_dec : EqDecision EimKey.
Proof. solve_decision. Defined.
#[global] Instance EimKey_countable : Countable EimKey.
Proof. by refine (inj_countable' (fun k => (ek_network k, ek_inner_src k)) (fun p => mkEimKey p.1 p.2) _); intros []. Defined.

Section Eim.
Context {Socket : Type}.

Record EimEntry : Type := mkEimEntry { ee_outbound : Socket; ee_last_seen : Z }.

Record EimNatTable : Type := mkEimNatTable { et_map : gmap EimKey EimEntry; et_ttl : Z }.

Definition EimNatTable_new (ttl : Z) : EimNatTable := mkEimNatTable ∅ ttl.

(** [build] is what the closure returns, if it is called *)
Definition get_or_insert_with (t : EimNatTable) (key : EimKey) (build : outcome Socket) (now : Z) : EimNatTable * outcome Socket :=
  match et_map t !! key with
  | Some e => (mkEimNatTable (<[key := mkEimEntry (ee_outbound e) now]> (et_map t)) (et_ttl t), Ok (ee_outbound e))
  | None =>
    match build with
    | Ok outbound => (mkEimNatTable (<[key := mkEimEntry outbound now]> (et_map t)) (et_ttl t), Ok outbound)
    | Err e => (t, Err e)
    | Panic => (t, Panic)
    end
  end.

Definition eim_touch (t : EimNatTable) (key : EimKey) (now : Z) : EimNatTable :=
  match et_map t !! key with
  | Some e => mkEimNatTable (<[key := mkEimEntry (ee_outbound e) now]> (et_map t)) (et_ttl t)
  | None => t
  end.

Definition eim_lookup (t : EimNatTable) (key : EimKey) : option Socket := ee_outbound <$> et_map t !! key.

Definition eim_remove (t : EimNatTable) (key : EimKey) : EimNatTable * option Socket :=
  (mkEimNatTable (delete key (et_map t)) (et_ttl t), ee_outbound <$> et_map t !! key).

Definition eim_purge (t : EimNatTable) (now : Z) : EimNatTable * Z :=
  let map := filter (fun p => duration_since now (ee_last_seen p.2) < et_ttl t) (et_map t) in
  (mkEimNatTable map (et_ttl t), Z.of_nat (size (et_map t)) - Z.of_nat (size map)).

End Eim.
Arguments EimEntry : clear implicits.
Arguments EimNatTable : clear implicits.

(** ** What the table promises: one entry per flow, under an id that stays

    The abstract table is a map from flows to an id and an entry. *)

Definition flow_view (t : NatTable) : gmap FlowKey (Z * NatEntry) := omap (fun id => (fun e => (id, e)) <$> nt_map t !! id) (nt_by_flow t).

(** The index and the table are inverse to each other, and the ids in use are below the next. *)
Record flow_ok (t : NatTable) : Prop := mkFlowOk {
  ok_index : forall k id, nt_by_flow t !! k = Some id -> exists e, nt_map t !! id = Some e /\ from_entry e = k;
  ok_table : forall id e, nt_map t !! id = Some e -> nt_by_flow t !! from_entry e = Some id;
  ok_ids : forall id e, nt_map t !! id = Some e -> 0 < id < nt_next_id t;
}.

Definition spec_insert (next : Z) (entry : NatEntry) (m : gmap FlowKey (Z * NatEntry)) : gmap FlowKey (Z * NatEntry) :=
  match m !! from_entry entry with
  | Some (id, current) => <[from_entry entry := (id, merge_entry current entry)]> m
  | None => <[from_entry entry := (next, entry)]> m
  end.

Lemma flow_view_lookup t k :
  flow_ok t -> flow_view t !! k = match nt_by_flow t !! k with Some id => (fun e => (id, e)) <$> nt_map t !! id | None => None end.
Proof. intros _. unfold flow_view. rewrite lookup_omap. by destruct (nt_by_flow t !! k). Qed.

Lemma flow_view_some t k id e : flow_ok t -> flow_view t !! k = Some (id, e) <-> nt_map t !! id = Some e /\ from_entry e = k.
Proof.
  intros Hok. rewrite flow_view_lookup by done. split.
  - destruct (nt_by_flow t !! k) as [i|] eqn:E; [|done]. destruct (ok_index _ Hok k i E) as (e' & He & <-). rewrite He. cbn. by intros [= <- <-].
  - intros [Hm <-]. rewrite (ok_table _ Hok id e Hm), Hm. done.
Qed.

Lemma flow_view_eq t m : flow_ok t -> (forall k id e, m !! k = Some (id, e) <-> nt_map t !! id = Some e /\ from_entry e = k) -> flow_view t = m.
Proof.
  intros Hok Hm. apply map_eq. intros k. apply option_eq. intros [id e]. by rewrite flow_view_some, Hm.
Qed.

(** Writing an entry of the same flow under the id it has *)
Lemma update_ok t id e e' :
  flow_ok t -> nt_map t !! id = Some e -> from_entry e' = from_entry e ->
  flow_ok (with_maps t (<[id := e']> (nt_map t)) (nt_by_flow t))
  /\ flow_view (with_maps t (<[id := e']> (nt_map t)) (nt_by_flow t)) = <[from_entry e := (id, e')]> (flow_view t).
Proof.
  intros Hok He Hf. assert (flow_ok (with_maps t (<[id := e']> (nt_map t)) (nt_by_flow t))) as Hok'.
  { constructor; cbn.
    - intros k i Hk. destruct (ok_index _ Hok k i Hk) as (x & Hx & <-). destruct (decide (i = id)) as [->|Hn].
      + rewrite lookup_insert_eq. exists e'. split; [done|]. congruence.
      + rewrite lookup_insert_ne by done. eauto.
    - intros i x [[<- <-]|[Hn Hx]]%lookup_insert_Some; [rewrite Hf; by apply (ok_table _ Hok)|by apply (ok_table _ Hok)].
    - intros i x [[<- <-]|[Hn Hx]]%lookup_insert_Some; eapply ok_ids; eauto. }
  split; [done|]. apply flow_view_eq; [done|]. intros k i x. cbn. rewrite !lookup_insert_Some, flow_view_some by done. split.
  - intros [[<- [= <- <-]]|[Hn [Hx Hk]]]; [by split; [left|]|]. split; [|done]. right. split; [|done]. intros ->. congruence.
  - intros [[[<- <-]|[Hn Hx]] Hk]; [by left; rewrite <- Hf|]. right. split; [|done]. intros Hk'. apply Hn.
    pose proof (ok_table _ Hok id e He) as H1. pose proof (ok_table _ Hok i x Hx) as H2. congruence.
Qed.

(** Taking an entry out *)
Lemma delete_ok t id e :
  flow_ok t -> nt_map t !! id = Some e ->
  flow_ok (with_maps t (delete id (nt_map t)) (delete (from_entry e) (nt_by_flow t)))
  /\ flow_view (with_maps t (delete id (nt_map t)) (delete (from_entry e) (nt_by_flow t))) = delete (from_entry e) (flow_view t).
Proof.
  intros Hok He. pose proof (ok_table _ Hok id e He) as Hi.
  assert (flow_ok (with_maps t (delete id (nt_map t)) (delete (from_entry e) (nt_by_flow t)))) as Hok'.
  { constructor; cbn.
    - intros k i [Hn Hk]%lookup_delete_Some. destruct (ok_index _ Hok k i Hk) as (x & Hx & <-). exists x. split; [|done].
      rewrite lookup_delete_ne; [done|]. intros <-. congruence.
    - intros i x [Hn Hx]%lookup_delete_Some. pose proof (ok_table _ Hok i x Hx) as H2. rewrite lookup_delete_ne; [done|]. intros E. rewrite <- E in H2. congruence.
    - intros i x [Hn Hx]%lookup_delete_Some. eapply ok_ids; eauto. }
  split; [done|]. apply flow_view_eq; [done|]. intros k i x. cbn. rewrite !lookup_delete_Some, flow_view_some by done.
  split; intros [H1 H2]; [destruct H2 as [H2 <-]|destruct H1 as [H1 H3]; subst k].
  - split; [|done]. split; [|done]. intros <-. congruence.
  - split; [|done]. intros E. pose proof (ok_table _ Hok i x H3) as H4. rewrite <- E in H4. congruence.
Qed.

Lemma nat_insert_ok t entry :
  flow_ok t -> 0 < nt_next_id t < 2 ^ 64 - 1 ->
  flow_ok (nat_insert t entry).1 /\ flow_view (nat_insert t entry).1 = spec_insert (nt_next_id t) entry (flow_view t)
  /\ (exists e, flow_view (nat_insert t entry).1 !! from_entry entry = Some ((nat_insert t entry).2, e)).
Proof.
  intros Hok Hid. unfold nat_insert, spec_insert. rewrite flow_view_lookup by done.
  destruct (nt_by_flow t !! from_entry entry) as [id|] eqn:E.
  - destruct (ok_index _ Hok _ _ E) as (e & He & Hk). rewrite He. cbn [fmap option_fmap option_map fst snd].
    destruct (update_ok t id e (merge_entry e entry) Hok He eq_refl) as [H1 H2]. split; [done|]. rewrite H2, Hk. split; [done|].
    eexists. by rewrite lookup_insert_eq.
  - set (t' := (mkNatTable _ _ _ _ _, nt_next_id t)).
    assert (Hn : nt_map t !! nt_next_id t = None).
    { destruct (nt_map t !! nt_next_id t) as [e|] eqn:He; [|done]. pose proof (ok_ids _ Hok _ _ He). lia. }
    assert (Hok' : flow_ok t'.1).
    { constructor; cbn.
      - intros k i [[<- <-]|[Hk Hi]]%lookup_insert_Some; [exists entry; by rewrite lookup_insert_eq|].
        destruct (ok_index _ Hok k i Hi) as (x & Hx & Hkx). exists x. split; [|done]. rewrite lookup_insert_ne; [done|]. congruence.
      - intros i x [[<- <-]|[Hi Hx]]%lookup_insert_Some; [by rewrite lookup_insert_eq|]. pose proof (ok_table _ Hok i x Hx).
        rewrite lookup_insert_ne; [done|]. congruence.
      - intros i x. unfold wrapping_add. rewrite Z.mod_small by lia. intros [[<- <-]|[Hi Hx]]%lookup_insert_Some; [lia|]. pose proof (ok_ids _ Hok _ _ Hx). lia. }
    assert (Hv : flow_view t'.1 = <[from_entry entry := (nt_next_id t, entry)]> (flow_view t)).
    { apply flow_view_eq; [done|]. intros k i x. cbn. rewrite !lookup_insert_Some, flow_view_some by done. split.
      - intros [[<- [= <- <-]]|[Hk [Hx Hkx]]]; [by split; [left|]|]. split; [|done]. right. split; [|done]. congruence.
      - intros [[[<- <-]|[Hi Hx]] Hk]; [by left|]. right. split; [|done]. intros <-. pose proof (ok_table _ Hok i x Hx). congruence. }
    split; [done|]. rewrite Hv. split; [done|]. exists entry. cbn. by rewrite lookup_insert_eq.
Qed.

(** [(id, key)] was read off the table at some time: as long as the id is in use it is the
    flow's. *)
Definition of_flow (t : NatTable) (id : Z) (key : FlowKey) : Prop := forall e, nt_map t !! id = Some e -> from_entry e = key.

Lemma touch_absent t id now :
  flow_ok t -> nt_map t !! id = None -> flow_view t = (fun p => (p.1, if p.1 =? id then seen_at p.2 now else p.2)) <$> flow_view t.
Proof.
  intros Hok Hn. rewrite <- map_fmap_id at 1. apply map_fmap_ext. intros k [i e] H%flow_view_some; [|done]. cbn. destruct (Z.eqb_spec i id); [|done].
  subst. by destruct H as [H _]; rewrite Hn in H.
Qed.

Lemma touch_locked_ok t id key now :
  flow_ok t -> of_flow t id key ->
  flow_ok (touch_locked t id key now)
  /\ flow_view (touch_locked t id key now) = (fun p => (p.1, if p.1 =? id then seen_at p.2 now else p.2)) <$> flow_view t.
Proof.
  intros Hok Hof. pose proof (touch_absent t id now Hok) as Hid.
  unfold touch_locked. destruct (nt_map t !! id) as [e|] eqn:He.
  - pose proof (ok_table _ Hok id e He) as Hi. rewrite (Hof e He) in Hi. rewrite Hi, Z.eqb_refl.
    destruct (update_ok t id e (seen_at e now) Hok He eq_refl) as [H1 H2]. split; [done|]. rewrite H2. apply map_eq. intros k.
    rewrite lookup_fmap. destruct (decide (k = from_entry e)) as [->|Hk].
    + rewrite lookup_insert_eq. rewrite (proj2 (flow_view_some t (from_entry e) id e Hok)) by done. cbn. by rewrite Z.eqb_refl.
    + rewrite lookup_insert_ne by done. destruct (flow_view t !! k) as [[i x]|] eqn:Ev; [|done]. cbn. apply flow_view_some in Ev as [Hx <-]; [|done].
      destruct (Z.eqb_spec i id) as [->|]; [|done]. congruence.
  - specialize (Hid eq_refl). repeat case_match; done.
Qed.

Lemma remove_locked_ok t id key :
  flow_ok t -> of_flow t id key ->
  flow_ok (remove_locked t id key).1 /\ flow_view (remove_locked t id key).1 = filter (fun p => p.2.1 <> id) (flow_view t)
  /\ (remove_locked t id key).2 = nt_map t !! id.
Proof.
  intros Hok Hof. unfold remove_locked. destruct (nt_map t !! id) as [e|] eqn:He.
  - pose proof (ok_table _ Hok id e He) as Hi. rewrite <- (Hof e He). rewrite Hi, Z.eqb_refl. cbn [fst snd].
    destruct (delete_ok t id e Hok He) as [H1 H2]. split; [done|]. split; [|done]. rewrite H2. apply map_eq. intros k. apply option_eq. intros [i x].
    rewrite lookup_delete_Some, map_lookup_filter_Some, flow_view_some by done. cbn. split; intros [H3 H4]; split; [|intros ->| |]; try done.
    + destruct H4 as [H4 <-]. congruence.
    + intros <-. destruct H3 as [H3 H5]. pose proof (ok_table _ Hok i x H3) as H6. congruence.
  - assert (Hd : with_maps t (delete id (nt_map t)) (nt_by_flow t) = t) by (rewrite delete_id by done; by destruct t).
    assert (Hf : flow_view t = filter (fun p => p.2.1 <> id) (flow_view t)).
    { symmetry. apply map_filter_id. intros k [i x] H%flow_view_some; [|done]. cbn. intros ->. destruct H. congruence. }
    assert (forall k, nt_by_flow t !! k <> Some id) as Hno.
    { intros k Hk. destruct (ok_index _ Hok _ _ Hk) as (x & Hx & _). congruence. }
    destruct (nt_by_flow t !! key) as [i|] eqn:E; [|by rewrite Hd].
    destruct (Z.eqb_spec i id) as [->|]; [by apply Hno in E|]. cbn [fst snd]. by rewrite Hd.
Qed.

Definition stale (t : NatTable) (now : Z) (p : Z * NatEntry) : Prop := expired t now (ne_last_seen p.2) = true.

#[global] Instance stale_dec t now p : Decision (stale t now p).
Proof. unfold stale. apply _. Defined.

Lemma purge_locked_ok t now id key :
  flow_ok t -> of_flow t id key ->
  let t' := (purge_locked t now id key).1 in
  flow_ok t' /\ flow_view t' = filter (fun p => ~ (p.2.1 = id /\ stale t now p.2)) (flow_view t)
  /\ (purge_locked t now id key).2 = Z.of_nat (size (nt_map t)) - Z.of_nat (size (nt_map t')).
Proof.
  intros Hok Hof t'. unfold t', purge_locked. destruct (nt_map t !! id) as [e|] eqn:He.
  - destruct (expired t now (ne_last_seen e)) eqn:Ex.
    + pose proof (ok_table _ Hok id e He) as Hi. rewrite <- (Hof e He). rewrite Hi, Z.eqb_refl. cbn [fst snd].
      destruct (delete_ok t id e Hok He) as [H1 H2]. split; [done|]. split.
      * rewrite H2. apply map_eq. intros k. apply option_eq. intros [i x]. rewrite lookup_delete_Some, map_lookup_filter_Some, flow_view_some by done. cbn.
        split; intros [H3 H4]; [split; [done|]|split; [|done]].
        { intros [-> _]. apply H3. destruct H4 as [H4 <-]. congruence. }
        intros <-. apply H4. destruct H3 as [H3 H5]. pose proof (ok_table _ Hok i x H3) as H6. assert (i = id) as -> by congruence.
        split; [done|]. unfold stale. cbn. congruence.
      * cbn. rewrite map_size_delete_Some by done. assert (size (nt_map t) <> 0%nat) by (apply map_size_non_empty_iff; intros E; rewrite E in He; done). lia.
    + cbn [fst snd]. split; [done|]. split; [|lia]. symmetry. apply map_filter_id. intros k [i x] H%flow_view_some; [|done].
      cbn. unfold stale. cbn. intros [-> Hs]. destruct H. congruence.
  - cbn [fst snd]. split; [done|]. split; [|lia]. symmetry. apply map_filter_id. intros k [i x] H%flow_view_some; [|done].
    cbn. intros [-> Hs]. destruct H. congruence.
Qed.

Lemma purge_locked_frame t now id key :
  let t' := (purge_locked t now id key).1 in
  nt_ttl t' = nt_ttl t /\ nt_next_id t' = nt_next_id t /\ nt_host_pin t' = nt_host_pin t /\ nt_map t' ⊆ nt_map t.
Proof. unfold purge_locked. repeat case_match; cbn; repeat split; try done; apply delete_subseteq. Qed.

Lemma purge_flows_ok t now candidates :
  flow_ok t -> (forall c, c ∈ candidates -> of_flow t c.1 c.2) ->
  let t' := (purge_flows t now candidates).1 in
  flow_ok t' /\ flow_view t' = filter (fun p => ~ (p.2.1 ∈ candidates.*1 /\ stale t now p.2)) (flow_view t)
  /\ (purge_flows t now candidates).2 = Z.of_nat (size (nt_map t)) - Z.of_nat (size (nt_map t'))
  /\ nt_ttl t' = nt_ttl t /\ nt_next_id t' = nt_next_id t /\ nt_host_pin t' = nt_host_pin t.
Proof.
  unfold purge_flows. intros Hok Hc.
  assert (forall n, let r := foldl (fun acc c => let '(t, n) := purge_locked acc.1 now c.1 c.2 in (t, acc.2 + n)) (t, n) candidates in
    flow_ok r.1 /\ flow_view r.1 = filter (fun p => ~ (p.2.1 ∈ candidates.*1 /\ stale t now p.2)) (flow_view t)
    /\ r.2 = n + (Z.of_nat (size (nt_map t)) - Z.of_nat (size (nt_map r.1)))
    /\ nt_ttl r.1 = nt_ttl t /\ nt_next_id r.1 = nt_next_id t /\ nt_host_pin r.1 = nt_host_pin t) as H.
  2:{ specialize (H 0). cbn zeta in *. by rewrite Z.add_0_l in H. }
  revert t Hok Hc. induction candidates as [|[id key] cs IH]; intros t Hok Hc n; cbn [foldl fst snd].
  { split; [done|]. split; [|split; [lia|done]]. symmetry. apply map_filter_id. intros k p _ [Hp _]. by apply elem_of_nil in Hp. }
  destruct (purge_locked_ok t now id key Hok (Hc (id, key) (list_elem_of_here _ _))) as (H1 & H2 & H3).
  destruct (purge_locked_frame t now id key) as (F1 & F2 & F3 & F4). destruct (purge_locked t now id key) as [t1 n1]. cbn [fst snd] in *.
  destruct (IH t1 H1) with (n := n + n1) as (I1 & I2 & I3 & I4 & I5 & I6).
  { intros c Hin e He. apply (Hc c); [by right|]. by apply (lookup_weaken _ _ _ _ He). }
  split; [done|]. split; [|split; [lia|split; [congruence|split; congruence]]]. rewrite I2, H2. rewrite map_filter_filter. apply map_filter_ext.
  intros k [i x] _. unfold stale, expired. cbn. rewrite F1. rewrite elem_of_cons. naive_solver.
Qed.

Lemma lookup_flow_ok t key now :
  flow_ok t ->
  flow_ok (lookup_flow t key now).1
  /\ flow_view (lookup_flow t key now).1 = alter (fun p => (p.1, seen_at p.2 now)) key (flow_view t)
  /\ (lookup_flow t key now).2 = (fun p => seen_at p.2 now) <$> flow_view t !! key.
Proof.
  intros Hok. unfold lookup_flow. rewrite flow_view_lookup by done. destruct (nt_by_flow t !! key) as [id|] eqn:E.
  - destruct (ok_index _ Hok _ _ E) as (e & He & <-). rewrite He. cbn [fst snd fmap option_fmap option_map].
    destruct (update_ok t id e (seen_at e now) Hok He eq_refl) as [H1 H2]. split; [done|]. split; [|done]. rewrite H2. apply map_eq. intros k.
    destruct (decide (k = from_entry e)) as [->|Hk].
    + rewrite lookup_insert_eq, lookup_alter_eq. by rewrite (proj2 (flow_view_some t (from_entry e) id e Hok)).
    + by rewrite lookup_insert_ne, lookup_alter_ne.
  - split; [done|]. split; [|done]. cbn [fst]. apply map_eq. intros k. destruct (decide (k = key)) as [->|Hk]; [|by rewrite lookup_alter_ne].
    rewrite lookup_alter_eq, flow_view_lookup by done. by rewrite E.
Qed.

Lemma purge_candidates_flow `{HashIter} t now c : c ∈ purge_candidates t now -> exists e, nt_map t !! c.1 = Some e /\ c.2 = from_entry e /\ stale t now (c.1, e).
Proof.
  intros ([id e] & Hin & Hc)%list_elem_of_omap. cbn in Hc. destruct (expired t now (ne_last_seen e)) eqn:Ex; [|done]. injection Hc as <-.
  apply hash_iter_elem in Hin. by exists e.
Qed.

Lemma nat_purge_ok `{HashIter} t now :
  flow_ok t ->
  let t' := (nat_purge t now).1 in
  flow_ok t' /\ flow_view t' = filter (fun p => ~ stale t now p.2) (flow_view t)
  /\ nt_host_pin t' = filter (fun p => negb (expired t now (hp_last_seen p.2)) = true) (nt_host_pin t)
  /\ (nat_purge t now).2 = Z.of_nat (size (nt_map t)) - Z.of_nat (size (nt_map t')) + (Z.of_nat (size (nt_host_pin t)) - Z.of_nat (size (nt_host_pin t'))).
Proof.
  intros Hok t'. destruct (purge_flows_ok t now (purge_candidates t now) Hok) as (H1 & H2 & H3 & H4 & H5 & H6).
  { intros c Hc e He. destruct (purge_candidates_flow t now c Hc) as (e' & He' & -> & _). congruence. }
  unfold t', nat_purge. destruct (purge_flows t now (purge_candidates t now)) as [t1 n1]. cbn [fst snd] in *. unfold purge_pins. cbn [fst snd].
  unfold expired in *. rewrite H6, H4. split; [by constructor; destruct H1|]. split.
  - transitivity (flow_view t1); [done|]. rewrite H2. apply map_filter_ext. intros k [id e] [Hm <-]%flow_view_some; [|done]. cbn.
    split; [|naive_solver]. intros Hn Hs. apply Hn. split; [|done]. apply list_elem_of_fmap. exists (id, from_entry e). split; [done|].
    apply list_elem_of_omap. exists (id, e). split; [by apply hash_iter_elem|]. cbn. unfold stale, expired in *. cbn in *. by rewrite Hs.
  - split; [done|]. cbn. lia.
Qed.

(** [C34] The flow table implements a map from flows to an id and an entry: from a
    consistent table, inserting merges into the entry of the flow under the id it already has
    (earliest creation, latest use, newest fake host) or opens one under the next id, and
    returns the id; looking a flow up finds exactly its entry and marks it used; touching and
    removing act on the flow of that id alone; purging drops exactly the flows and host pins
    idle for the time to live and returns how many; and the table is consistent again. *)
Theorem flow_nat_refines `{HashIter} (t : NatTable) (entry : NatEntry) (key : FlowKey) (id now : Z) :
  flow_ok t -> 0 < nt_next_id t < 2 ^ 64 - 1 ->
  (let r := nat_insert t entry in
   flow_ok r.1 /\ flow_view r.1 = spec_insert (nt_next_id t) entry (flow_view t) /\ exists e, flow_view r.1 !! from_entry entry = Some (r.2, e))
  /\ (let r := lookup_flow t key now in
      flow_ok r.1 /\ flow_view r.1 = alter (fun p => (p.1, seen_at p.2 now)) key (flow_view t) /\ r.2 = (fun p => seen_at p.2 now) <$> flow_view t !! key)
  /\ (let t' := nat_touch t id now in
      flow_ok t' /\ flow_view t' = (fun p => (p.1, if p.1 =? id then seen_at p.2 now else p.2)) <$> flow_view t)
  /\ (let r := nat_remove t id in
      flow_ok r.1 /\ flow_view r.1 = filter (fun p => p.2.1 <> id) (flow_view t) /\ r.2 = nat_get t id)
  /\ (let r := nat_purge t now in
      flow_ok r.1 /\ flow_view r.1 = filter (fun p => ~ stale t now p.2) (flow_view t)
      /\ nt_host_pin r.1 = filter (fun p => negb (expired t now (hp_last_seen p.2)) = true) (nt_host_pin t)
      /\ r.2 = Z.of_nat (size (nt_map t)) - Z.of_nat (size (nt_map r.1)) + (Z.of_nat (size (nt_host_pin t)) - Z.of_nat (size (nt_host_pin r.1)))).
Proof.
  intros Hok Hid. split; [by apply nat_insert_ok|]. split; [by apply lookup_flow_ok|].
  assert (Hof : forall e, nt_map t !! id = Some e -> of_flow t id (from_entry e)) by (intros e He e'; congruence).
  split; [|split; [|by apply nat_purge_ok]].
  - unfold nat_touch. destruct (nt_map t !! id) as [e|] eqn:He; [by apply touch_locked_ok, Hof|]. split; [done|].
    by apply touch_absent.
  - unfold nat_remove, nat_get. destruct (nt_map t !! id) as [e|] eqn:He; [rewrite <- He; by apply remove_locked_ok, Hof|]. split; [done|].
    split; [|done]. cbn [fst]. symmetry. apply map_filter_id. intros k [i x] [Hx _]%flow_view_some; [|done]. cbn. congruence.
Qed.

(** ** Concurrent calls

    A call of [touch], [remove] or [purge] reads ids and flows off the table ([Observe]) and
    acts on what it read later, when it has the lock of the flow's shard; any other calls may
    come between.  [purge]'s clock reading is as old as its first read. *)

Record Sys : Type := mkSys { sy_table : NatTable; sy_observed : gset (Z * FlowKey) }.

Inductive nat_step : Sys -> Sys -> Prop :=
| StepInsert t o entry : nat_step (mkSys t o) (mkSys (nat_insert t entry).1 o)
| StepLookup t o key now : nat_step (mkSys t o) (mkSys (lookup_flow t key now).1 o)
| StepObserve t o id e : nt_map t !! id = Some e -> nat_step (mkSys t o) (mkSys t ({[(id, from_entry e)]} ∪ o))
| StepTouch t o id key now : (id, key) ∈ o -> nat_step (mkSys t o) (mkSys (touch_locked t id key now) o)
| StepRemove t o id key : (id, key) ∈ o -> nat_step (mkSys t o) (mkSys (remove_locked t id key).1 o)
| StepPurge t o id key now : (id, key) ∈ o -> nat_step (mkSys t o) (mkSys (purge_locked t now id key).1 o)
| StepPurgePins t o now : nat_step (mkSys t o) (mkSys (purge_pins t now).1 o)
| StepPinHost t o host outbound now : nat_step (mkSys t o) (mkSys (pin_host t host outbound now) o)
| StepLookupPin t o host now : nat_step (mkSys t o) (mkSys (lookup_pin t host now).1 o).

Inductive nat_reach (ttl : Z) : nat -> Sys -> Prop :=
| ReachNew : nat_reach ttl 0 (mkSys (NatTable_new ttl) ∅)
| ReachStep n s s' : nat_reach ttl n s -> nat_step s s' -> nat_reach ttl (S n) s'.

(** Consistent; and what was observed stays true of the ids still in use *)
Record sys_ok (s : Sys) (n : Z) : Prop := mkSysOk {
  so_table : flow_ok (sy_table s);
  so_next : 0 < nt_next_id (sy_table s) <= n + 1;
  so_observed : forall id key, (id, key) ∈ sy_observed s -> id < nt_next_id (sy_table s) /\ of_flow (sy_table s) id key;
}.

(** The ids in use with their flows: what a step may take away but not change *)
Lemma observed_kept (t t' : NatTable) (o : gset (Z * FlowKey)) :
  nt_next_id t <= nt_next_id t' ->
  (forall id e', nt_map t' !! id = Some e' -> id < nt_next_id t -> exists e, nt_map t !! id = Some e /\ from_entry e = from_entry e') ->
  (forall id key, (id, key) ∈ o -> id < nt_next_id t /\ of_flow t id key) -> forall id key, (id, key) ∈ o -> id < nt_next_id t' /\ of_flow t' id key.
Proof.
  intros Hn Hm Ho id key Hin. destruct (Ho id key Hin) as [H1 H2]. split; [lia|]. intros e' He'. destruct (Hm id e' He' H1) as (e & He & <-). by apply H2.
Qed.

Lemma same_next (t t' : NatTable) :
  nt_next_id t' = nt_next_id t ->
  (forall id e', nt_map t' !! id = Some e' -> exists e, nt_map t !! id = Some e /\ from_entry e = from_entry e') ->
  flow_ok t' -> forall o n, sys_ok (mkSys t o) n -> sys_ok (mkSys t' o) (n + 1).
Proof.
  intros Hn Hm Hok o n [H1 H2 H3]. cbn in *. constructor; cbn; [done|lia|]. apply (observed_kept t t' o); [lia| |done]. eauto.
Qed.

Lemma update_from t (m : gmap Z NatEntry) (i : Z) e e1 :
  nt_map t !! i = Some e -> from_entry e1 = from_entry e -> m = <[i := e1]> (nt_map t) ->
  forall id e', m !! id = Some e' -> exists e, nt_map t !! id = Some e /\ from_entry e = from_entry e'.
Proof.
  intros He Hf -> id e' [[<- <-]|[_ H]]%lookup_insert_Some; eauto.
Qed.

Lemma insert_step t o entry n : n + 2 < 2 ^ 64 -> sys_ok (mkSys t o) n -> sys_ok (mkSys (nat_insert t entry).1 o) (n + 1).
Proof.
  intros Hn Hs. pose proof Hs as [H1 H2 H3]. cbn in *. destruct (nat_insert_ok t entry H1 ltac:(lia)) as [Hok _]. revert Hok. unfold nat_insert.
  destruct (nt_by_flow t !! from_entry entry) as [id|] eqn:E; intros Hok.
  - destruct (ok_index _ H1 _ _ E) as (e & He & Hk). rewrite He in *. cbn [fst] in *. apply (same_next t); [done| |done|done]. by apply (update_from t _ id e (merge_entry e entry)).
  - cbn [fst] in *. constructor; cbn; [done|unfold wrapping_add; rewrite Z.mod_small by lia; lia|].
    match goal with |- forall id key, _ -> _ /\ of_flow ?t' _ _ => refine (observed_kept t t' o _ _ H3) end; cbn; [unfold wrapping_add; rewrite Z.mod_small by lia; lia|].
    intros id e' [[<- <-]|[_ He]]%lookup_insert_Some Hlt; [lia|eauto].
Qed.

Lemma sys_step_ok s s' n : n + 2 < 2 ^ 64 -> sys_ok s n -> nat_step s s' -> sys_ok s' (n + 1).
Proof.
  intros Hn Hs Hstep. destruct Hstep as [t o entry|t o key now|t o id e He|t o id key now Hin|t o id key Hin|t o id key now Hin|t o now|t o host outbound now|t o host now];
    pose proof Hs as [H1 H2 H3]; cbn in *; try destruct (H3 _ _ Hin) as [_ Hof].
  - by apply insert_step.
  - apply (same_next t); [|..|by apply lookup_flow_ok|done]; unfold lookup_flow.
    + by repeat case_match.
    + repeat case_match; cbn; eauto. eapply update_from; [eassumption| |reflexivity]. done.
  - constructor; cbn; [done|lia|]. intros i k [[= -> ->]%elem_of_singleton|Hik]%elem_of_union; [|by apply H3].
    split; [by apply (ok_ids _ H1 _ _ He)|]. intros x Hx. congruence.
  - apply (same_next t); [|..|by apply touch_locked_ok|done]; unfold touch_locked.
    + by repeat case_match.
    + repeat case_match; cbn; eauto. eapply update_from; [eassumption| |reflexivity]. done.
  - apply (same_next t); [|..|by apply remove_locked_ok|done]; unfold remove_locked.
    + by repeat case_match.
    + repeat case_match; cbn; intros i x [_ Hx]%lookup_delete_Some; eauto.
  - apply (same_next t); [by apply purge_locked_frame| |by apply purge_locked_ok|done].
    intros i x Hx. exists x. split; [|done]. apply (lookup_weaken _ _ _ _ Hx). apply purge_locked_frame.
  - apply (same_next t); [done|cbn; eauto|by constructor; destruct H1|done].
  - apply (same_next t); [done|cbn; eauto|by constructor; destruct H1|done].
  - unfold lookup_pin. case_match; (apply (same_next t); [done|cbn; eauto|by constructor; destruct H1|done]).
Qed.

Lemma nat_reach_ok ttl n s : nat_reach ttl n s -> Z.of_nat n + 1 < 2 ^ 64 -> sys_ok s (Z.of_nat n).
Proof.
  induction 1 as [|n s s' Hr IH Hstep]; intros Hn.
  - constructor; cbn; [by constructor|lia|]. intros id key Hin. by apply elem_of_empty in Hin.
  - rewrite Nat2Z.inj_succ. apply (sys_step_ok s); [lia|apply IH; lia|done].
Qed.

(** However the calls of several threads interleave, the index and the table stay
    inverse to each other; and a purge that acts late, on what it read at any earlier time,
    changes nothing unless the flow it read is still the same entry and still idle for the
    time to live: a flow that was used or opened again in between is not dropped. *)
Theorem flow_nat_concurrent ttl n s :
  nat_reach ttl n s -> Z.of_nat n + 1 < 2 ^ 64 ->
  flow_ok (sy_table s)
  /\ forall now id key, (id, key) ∈ sy_observed s ->
     let t' := (purge_locked (sy_table s) now id key).1 in
     flow_view t' = flow_view (sy_table s)
     \/ exists e, flow_view (sy_table s) !! key = Some (id, e) /\ stale (sy_table s) now (id, e) /\ flow_view t' = delete key (flow_view (sy_table s)).
Proof.
  intros Hr Hn. destruct (nat_reach_ok ttl n s Hr Hn) as [H1 _ H3]. split; [done|]. intros now id key Hin. cbv zeta.
  destruct (H3 id key Hin) as [_ Hof]. set (t := sy_table s) in *. clearbody t. unfold purge_locked. destruct (nt_map t !! id) as [e|] eqn:He; [|by left].
  destruct (expired t now (ne_last_seen e)) eqn:Ex; [|by left]. right. exists e. rewrite <- (Hof e He). split; [by apply flow_view_some|]. split; [done|].
  rewrite (ok_table _ H1 id e He), Z.eqb_refl. by apply delete_ok.
Qed.

(** ** The endpoint-independent table *)

Section EimOps.
Context {Socket : Type}.

Inductive EimOp : Type :=
| EGet (key : EimKey) (build : outcome Socket) (now : Z)
| ETouch (key : EimKey) (now : Z)
| ERemove (key : EimKey)
| EPurge (now : Z).

(** One call; the socket it returns, if it is a request for one *)
Definition eim_run (t : EimNatTable Socket) (op : EimOp) : EimNatTable Socket * option (EimKey * outcome Socket) :=
  match op with
  | EGet key build now => let '(t, r) := get_or_insert_with t key build now in (t, Some (key, r))
  | ETouch key now => (eim_touch t key now, None)
  | ERemove key => ((eim_remove t key).1, None)
  | EPurge now => ((eim_purge t now).1, None)
  end.

Fixpoint eim_runs (t : EimNatTable Socket) (ops : list EimOp) : EimNatTable Socket * list (EimKey * outcome Socket) :=
  match ops with
  | [] => (t, [])
  | op :: ops' =>
    let '(t, r) := eim_run t op in
    let '(t, rs) := eim_runs t ops' in
    (t, match r with Some r => r :: rs | None => rs end)
  end.

(** The calls never remove [key], and purge it only within [ttl] of its last use, [seen] at first. *)
Fixpoint kept (ttl : Z) (key : EimKey) (seen : Z) (ops : list EimOp) : Prop :=
  match ops with
  | [] => True
  | EGet k _ now :: ops' | ETouch k now :: ops' => kept ttl key (if decide (k = key) then now else seen) ops'
  | ERemove k :: ops' => k <> key /\ kept ttl key seen ops'
  | EPurge now :: ops' => duration_since now seen < ttl /\ kept ttl key seen ops'
  end.

Lemma eim_run_kept t op ops key s seen :
  et_map t !! key = Some (mkEimEntry s seen) -> kept (et_ttl t) key seen (op :: ops) ->
  exists seen', et_map (eim_run t op).1 !! key = Some (mkEimEntry s seen') /\ et_ttl (eim_run t op).1 = et_ttl t /\ kept (et_ttl t) key seen' ops
                /\ (forall r, (eim_run t op).2 = Some (key, r) -> r = Ok s).
Proof.
  intros Hk Hops. destruct op as [k build now|k now|k|now]; cbn in *.
  - unfold get_or_insert_with. destruct (decide (k = key)) as [->|Hn].
    + rewrite Hk. cbn. exists now. rewrite lookup_insert_eq. repeat split; [done|]. by intros r [= <-].
    + exists seen. destruct (et_map t !! k); [|destruct build]; cbn; rewrite ?lookup_insert_ne by done; (repeat split; [done..|]); intros r [= ]; done.
  - unfold eim_touch. destruct (decide (k = key)) as [->|Hn].
    + rewrite Hk. cbn. exists now. by rewrite lookup_insert_eq.
    + exists seen. destruct (et_map t !! k); cbn; by rewrite ?lookup_insert_ne by done.
  - destruct Hops as [Hn Hops]. exists seen. by rewrite lookup_delete_ne.
  - destruct Hops as [Hd Hops]. exists seen. split; [|done]. apply map_lookup_filter_Some. done.
Qed.

Lemma eim_runs_kept ops t key s seen :
  et_map t !! key = Some (mkEimEntry s seen) -> kept (et_ttl t) key seen ops ->
  eim_lookup (eim_runs t ops).1 key = Some s /\ forall r, (key, r) ∈ (eim_runs t ops).2 -> r = Ok s.
Proof.
  revert t seen. induction ops as [|op ops IH]; intros t seen Hk Hops; cbn [eim_runs].
  - unfold eim_lookup. cbn. rewrite Hk. split; [done|]. intros r Hr. by apply elem_of_nil in Hr.
  - destruct (eim_run_kept t op ops key s seen Hk Hops) as (seen' & H1 & H2 & H3 & H4). destruct (eim_run t op) as [t1 r1]. cbn [fst snd] in *.
    rewrite <- H2 in H3. destruct (IH t1 seen' H1 H3) as [I1 I2]. destruct (eim_runs t1 ops) as [t2 rs]. cbn [fst snd] in *. split; [done|].
    destruct r1 as [[k r1]|]; [|done]. intros r [[= <- <-]|Hr]%elem_of_cons; [by apply H4|by apply I2].
Qed.

(** Endpoint-independent mapping: once a request for an inner address has been given a
    socket, every later request for that address gets the same socket whatever its
    destination and whatever is asked for other addresses, and the closure that would open
    another is not used, until the address is removed or is idle for the time to live at a
    purge; a request whose closure fails leaves the table as it was; and a purge drops
    exactly the addresses idle that long. *)
Theorem eim_endpoint_independent (t : EimNatTable Socket) key build now s ops :
  (get_or_insert_with t key build now).2 = Ok s -> kept (et_ttl t) key now ops ->
  let t1 := (get_or_insert_with t key build now).1 in
  eim_lookup (eim_runs t1 ops).1 key = Some s
  /\ (forall r, (key, r) ∈ (eim_runs t1 ops).2 -> r = Ok s)
  /\ (forall k e n, et_map t !! k = None -> get_or_insert_with t k (Err e) n = (t, Err e))
  /\ (forall n k, et_map (eim_purge t1 n).1 !! k = None <-> forall e, et_map t1 !! k = Some e -> et_ttl t1 <= duration_since n (ee_last_seen e)).
Proof.
  intros Hs Hops t1. assert (Hk : et_map t1 !! key = Some (mkEimEntry s now) /\ et_ttl t1 = et_ttl t).
  { unfold t1. revert Hs. unfold get_or_insert_with. destruct (et_map t !! key); [|destruct build]; cbn; intros [= ->]; by rewrite lookup_insert_eq. }
  destruct Hk as [Hk Ht]. rewrite <- Ht in Hops. destruct (eim_runs_kept ops t1 key s now Hk Hops) as [H1 H2]. split; [done|]. split; [done|]. split.
  - intros k e n Hn. unfold get_or_insert_with. by rewrite Hn.
  - intros n k. cbn. rewrite map_lookup_filter_None. split.
    + intros [Hn|Hn] e He; [congruence|]. specialize (Hn e He). cbn in Hn. lia.
    + intros Hn. right. intros e He. specialize (Hn e He). cbn. lia.
Qed.

End EimOps.

Module FlowNatWitness.

Definition ep (a p : Z) : SocketAddr := mkSocketAddr (V4 a) p.
Definition e1 : NatEntry := mkNatEntry (ep 1 1000) (ep 2 53) None "udp" 0 0.
Definition t1 : NatTable := (nat_insert (NatTable_new 120) e1).1.

Lemma t1_ok : flow_ok t1 /\ 0 < nt_next_id t1 < 2 ^ 64 - 1.
Proof. split; [apply (nat_insert_ok (NatTable_new 120) e1); [by constructor|cbn; lia]|vm_compute; done]. Qed.

Definition iter_hash : HashIter := Build_HashIter (fun K V _ _ m => map_to_list m) (fun K V _ _ m => reflexivity (map_to_list m)).

(** The flow is dropped by a purge when its time to live is over. *)
Lemma flow_nat_refines_witness :
  flow_view (nat_purge (H := iter_hash) t1 120).1 = filter (fun p => ~ stale t1 120 p.2) (flow_view t1) /\ (nat_purge (H := iter_hash) t1 120).2 = 1.
Proof.
  destruct (flow_nat_refines (H := iter_hash) t1 e1 (from_entry e1) 1 120 (proj1 t1_ok) (proj2 t1_ok)) as (_ & _ & _ & _ & _ & H & _).
  split; [exact H|vm_compute; reflexivity].
Defined.

(** A purge that read the flow while it was idle, after the flow was used again *)
Definition late : Sys := mkSys (lookup_flow t1 (from_entry e1) 100).1 {[(1, from_entry e1)]}.

Lemma late_reached : nat_reach 120 3 late.
Proof.
  apply (ReachStep _ _ (mkSys t1 {[(1, from_entry e1)]})); [|apply StepLookup].
  apply (ReachStep _ _ (mkSys t1 ∅)); [apply (ReachStep _ _ (mkSys (NatTable_new 120) ∅)); [apply ReachNew|apply StepInsert]|].
  rewrite <- (union_empty_r_L {[(1, from_entry e1)]}). apply StepObserve. done.
Qed.

Lemma flow_nat_concurrent_witness : flow_ok (sy_table late).
Proof. apply (flow_nat_concurrent 120 3 late); [exact late_reached|vm_compute; reflexivity]. Defined.

Lemma eim_endpoint_independent_witness :
  let key := mkEimKey "udp" (ep 1 1000) in
  eim_lookup (eim_runs (get_or_insert_with (EimNatTable_new 60) key (Ok 7) 0).1 [EGet key (Ok 8) 50; EPurge 100]).1 key = Some 7.
Proof.
  cbv zeta. apply (eim_endpoint_independent (EimNatTable_new 60) (mkEimKey "udp" (ep 1 1000)) (Ok 7) 0 7 [EGet (mkEimKey "udp" (ep 1 1000)) (Ok 8) 50; EPurge 100]);
    [vm_compute; reflexivity|].
  cbn. rewrite decide_True by done. done.
Defined.

End FlowNatWitness.
