(* ===== verification/RealityHello.v ===== *)
(** * The ClientHello parser of the REALITY server

    Models [src/crates/core-reality/src/framing.rs] from [parse_client_hello] on, and
    [buffer.rs].  A [SliceReader] is the bytes it has not read yet, [data[position..]]; a
    [SlideBuffer] keeps its vector and start index.  [HashSet]s of seen numbers are lists.
    Error messages are dropped, kinds are kept. *)

From stdpp Require Import base list gmap strings numbers option.
From S2P Require Import Prelude.

(** ** [SliceReader] *)

Definition read_slice (n : Z) (r : list Z) : outcome (list Z * list Z) :=
  if len r <? n then Err UnexpectedEof else Ok (take (Z.to_nat n) r, drop (Z.to_nat n) r).

Definition sr_read_u8 (r : list Z) : outcome (Z * list Z) := '(b, r) ← read_slice 1 r; x ← index b 0; Ok (x, r).

Definition sr_read_u16_be (r : list Z) : outcome (Z * list Z) :=
  '(b, r) ← read_slice 2 r; x ← index b 0; y ← index b 1; Ok (x * 256 + y, r).

Definition sr_read_u24_be (r : list Z) : outcome (Z * list Z) :=
  '(b, r) ← read_slice 3 r; x ← index b 0; y ← index b 1; z ← index b 2;
  Ok (Z.lor (Z.lor (Z.shiftl x 16) (Z.shiftl y 8)) z, r).

Definition skip (n : Z) (r : list Z) : outcome (list Z) := '(_, r) ← read_slice n r; Ok r.

(** ** The extensions *)

(** [while r.remaining() != 0] of [parse_server_name]; every round reads at least three bytes *)
Fixpoint server_name_loop (fuel : nat) (r : list Z) (host_name : option string) : outcome (option string) :=
  match fuel with
  | O => Panic
  | S fuel' =>
    if len r =? 0 then Ok host_name else
    '(kind, r) ← sr_read_u8 r;
    '(n, r) ← sr_read_u16_be r;
    '(name, r) ← read_slice n r;
    if kind =? 0 then
      match host_name with
      | Some _ => Err InvalidData
      | None => h ← ok_or (from_utf8 name) InvalidData; server_name_loop fuel' r (Some h)
      end
    else server_name_loop fuel' r host_name
  end.

Definition parse_server_name (data : list Z) : outcome string :=
  '(list_len, r) ← sr_read_u16_be data;
  if negb (list_len =? len r) then Err InvalidData else
  h ← server_name_loop (S (length r)) r None;
  ok_or h InvalidData.

Fixpoint versions_loop (fuel : nat) (r : list Z) : outcome (list Z) :=
  match fuel with
  | O => Panic
  | S fuel' => if len r =? 0 then Ok [] else '(v, r) ← sr_read_u16_be r; vs ← versions_loop fuel' r; Ok (v :: vs)
  end.

Definition parse_supported_versions (data : list Z) : outcome (list Z) :=
  '(n, r) ← sr_read_u8 data;
  if negb (n =? len r) || negb (n mod 2 =? 0) then Err InvalidData else versions_loop (S (length r)) r.

Fixpoint alpn_loop (fuel : nat) (r : list Z) : outcome (list (list Z)) :=
  match fuel with
  | O => Panic
  | S fuel' =>
    if len r =? 0 then Ok [] else
    '(n, r) ← sr_read_u8 r;
    if n =? 0 then Err InvalidData else
    '(item, r) ← read_slice n r;
    items ← alpn_loop fuel' r;
    Ok (item :: items)
  end.

Definition parse_alpn (data : list Z) : outcome (list (list Z)) :=
  '(n, r) ← sr_read_u16_be data;
  if negb (n =? len r) then Err InvalidData else alpn_loop (S (length r)) r.

Fixpoint key_shares_loop (fuel : nat) (r : list Z) (groups : list Z) : outcome (list (Z * list Z)) :=
  match fuel with
  | O => Panic
  | S fuel' =>
    if len r =? 0 then Ok [] else
    '(group, r) ← sr_read_u16_be r;
    '(key_len, r) ← sr_read_u16_be r;
    if key_len =? 0 then Err InvalidData else
    if existsb (Z.eqb group) groups then Err InvalidData else
    '(key, r) ← read_slice key_len r;
    shares ← key_shares_loop fuel' r (group :: groups);
    Ok ((group, key) :: shares)
  end.

Definition parse_key_shares (data : list Z) : outcome (list (Z * list Z)) :=
  '(n, r) ← sr_read_u16_be data;
  if negb (n =? len r) then Err InvalidData else key_shares_loop (S (length r)) r [].

(** ** The hello *)

Definition TLS_HEADER_LEN : Z := 5.
Definition TLS_HANDSHAKE : Z := 22.
Definition CLIENT_HELLO : Z := 1.
Definition TLS_1_3 : Z := 772.
Definition RFC8446_MAX_CIPHERTEXT : Z := 16640.

Record ClientHello : Type := mkClientHello {
  ch_wire : list Z;
  ch_handshake : list Z;
  ch_server_name : string;
  ch_supports_tls13 : bool;
  ch_alpn_protocols : list (list Z);
  ch_key_shares : list (Z * list Z)
}.

Definition key_share (h : ClientHello) (group : Z) : option (list Z) :=
  snd <$> find (fun p => p.1 =? group) (ch_key_shares h).

Definition canonical_record (h : ClientHello) : outcome (list Z) :=
  n ← try_from_u 16 (len (ch_handshake h)) InvalidData;
  Ok ([TLS_HANDSHAKE; 3; 1] ++ be_bytes 2 n ++ ch_handshake h).

(** The variables of the loop over the extensions *)
Record Found : Type := mkFound {
  fd_server_name : option string;
  fd_tls13 : bool;
  fd_alpn : list (list Z);
  fd_shares : list (Z * list Z);
  fd_seen : list Z
}.

(** The [match kind] *)
Definition on_extension (kind : Z) (value : list Z) (f : Found) : outcome Found :=
  let seen := kind :: fd_seen f in
  if kind =? 0 then n ← parse_server_name value; Ok (mkFound (Some n) (fd_tls13 f) (fd_alpn f) (fd_shares f) seen)
  else if kind =? 16 then a ← parse_alpn value; Ok (mkFound (fd_server_name f) (fd_tls13 f) a (fd_shares f) seen)
  else if kind =? 43 then
    v ← parse_supported_versions value; Ok (mkFound (fd_server_name f) (existsb (Z.eqb TLS_1_3) v) (fd_alpn f) (fd_shares f) seen)
  else if kind =? 51 then s ← parse_key_shares value; Ok (mkFound (fd_server_name f) (fd_tls13 f) (fd_alpn f) s seen)
  else Ok (mkFound (fd_server_name f) (fd_tls13 f) (fd_alpn f) (fd_shares f) seen).

Fixpoint extensions_loop (fuel : nat) (r : list Z) (f : Found) : outcome Found :=
  match fuel with
  | O => Panic
  | S fuel' =>
    if len r =? 0 then Ok f else
    if len r <? 4 then Err InvalidData else
    '(kind, r) ← sr_read_u16_be r;
    '(n, r) ← sr_read_u16_be r;
    '(value, r) ← read_slice n r;
    if existsb (Z.eqb kind) (fd_seen f) then Err InvalidData else
    f ← on_extension kind value f;
    extensions_loop fuel' r f
  end.

(** Up to the extensions *)
Definition parse_preamble (handshake : list Z) : outcome (list Z) :=
  '(kind, r) ← sr_read_u8 handshake;
  if negb (kind =? CLIENT_HELLO) then Err InvalidData else
  '(declared, r) ← sr_read_u24_be r;
  if negb (declared =? len r) then Err InvalidData else
  '(version, r) ← sr_read_u16_be r;
  if negb (version =? 771) then Err InvalidData else
  r ← skip 32 r;
  '(session_len, r) ← sr_read_u8 r;
  if 32 <? session_len then Err InvalidData else
  r ← skip session_len r;
  '(suites_len, r) ← sr_read_u16_be r;
  if (suites_len <? 2) || negb (suites_len mod 2 =? 0) then Err InvalidData else
  r ← skip suites_len r;
  '(compression_len, r) ← sr_read_u8 r;
  if negb (compression_len =? 1) then Err InvalidData else
  '(compression, r) ← sr_read_u8 r;
  if negb (compression =? 0) then Err InvalidData else
  '(extensions_len, r) ← sr_read_u16_be r;
  if negb (extensions_len =? len r) then Err InvalidData else
  '(extensions, _) ← read_slice extensions_len r;
  Ok extensions.

Definition sni_ok (name : string) : bool :=
  negb ((253 <? str_len name) || existsb (fun b => (b =? 0) || negb (b <? 128)) (str_bytes name)).

Definition parse_client_hello (wire handshake : list Z) : outcome ClientHello :=
  extensions ← parse_preamble handshake;
  f ← extensions_loop (S (length extensions)) extensions (mkFound None false [] [] []);
  server_name ← ok_or (fd_server_name f) InvalidData;
  if negb (sni_ok server_name) then Err InvalidData else
  Ok (mkClientHello wire handshake server_name (fd_tls13 f) (fd_alpn f) (fd_shares f)).

(** ** [SlideBuffer] *)

Record SlideBuffer : Type := mkSlideBuffer { sb_data : list Z; sb_start : Z; sb_capacity_limit : Z }.

Definition SlideBuffer_new (capacity : Z) : SlideBuffer := mkSlideBuffer [] 0 capacity.
Definition sb_len (b : SlideBuffer) : Z := len (sb_data b) - sb_start b.
Definition remaining_capacity (b : SlideBuffer) : Z := saturating_sub (sb_capacity_limit b) (sb_len b).

Definition compact (b : SlideBuffer) : SlideBuffer :=
  if 0 <? sb_start b then mkSlideBuffer (drop (Z.to_nat (sb_start b)) (sb_data b)) 0 (sb_capacity_limit b) else b.

Definition maybe_compact (b : SlideBuffer) (threshold : Z) : SlideBuffer := if threshold <? sb_start b then compact b else b.

Definition extend_from_slice (b : SlideBuffer) (data : list Z) : SlideBuffer :=
  let b := compact b in mkSlideBuffer (sb_data b ++ data) (sb_start b) (sb_capacity_limit b).

Definition sb_consume (b : SlideBuffer) (amount : Z) : SlideBuffer :=
  let start := Z.min (sb_start b + amount) (len (sb_data b)) in
  if start =? len (sb_data b) then mkSlideBuffer [] 0 (sb_capacity_limit b)
  else mkSlideBuffer (sb_data b) start (sb_capacity_limit b).

Definition as_slice (b : SlideBuffer) : outcome (list Z) := get_slice (sb_data b) (sb_start b) (len (sb_data b)).

Definition get_u16_be (b : SlideBuffer) (offset : Z) : outcome (option Z) :=
  s ← as_slice b;
  match checked_add 64 offset 2 with
  | None => Ok None
  | Some e => if e <=? len s then x ← index s offset; y ← index s (offset + 1); Ok (Some (x * 256 + y)) else Ok None
  end.

(** [Read::read] into a buffer of [n] bytes *)
Definition sb_read (b : SlideBuffer) (n : Z) : outcome (SlideBuffer * list Z) :=
  let n := Z.min n (sb_len b) in
  s ← as_slice b;
  out ← get_slice s 0 n;
  Ok (sb_consume b n, out).

(** ** Reading what was written *)

Lemma read_slice_app n a r : n = len a -> read_slice n (a ++ r) = Ok (a, r).
Proof.
  intros ->. unfold read_slice. rewrite len_app. pose proof (len_nonneg r). rewrite (proj2 (Z.ltb_ge _ _)) by lia.
  unfold len. by rewrite Nat2Z.id, take_app_length, drop_app_length.
Qed.

Lemma sr_read_u8_cons x r : sr_read_u8 (x :: r) = Ok (x, r).
Proof. unfold sr_read_u8. change (x :: r) with ([x] ++ r). by rewrite read_slice_app. Qed.

Lemma sr_read_u16_app n r : u16 n -> sr_read_u16_be (be_bytes 2 n ++ r) = Ok (n, r).
Proof.
  intros Hn. unfold uint in Hn. unfold sr_read_u16_be. rewrite read_slice_app by done. cbn [mbind outcome_bind].
  change (be_bytes 2 n) with [(n / 256) mod 256; (n / 1) mod 256]. rewrite Z.div_1_r.
  transitivity (@Ok (Z * list Z) ((n / 256) mod 256 * 256 + n mod 256, r)); [done|]. do 2 f_equal.
  pose proof (Z.div_mod n 256). rewrite (Z.mod_small (n / 256)); [lia|]. split; [apply Z.div_pos; lia|apply Z.div_lt_upper_bound; lia].
Qed.

(** The three bytes of a 24-bit length *)
Definition u24_bytes (n : Z) : list Z := be_bytes 3 n.

Lemma sr_read_u24_app n r : 0 <= n < 2 ^ 24 -> sr_read_u24_be (u24_bytes n ++ r) = Ok (n, r).
Proof.
  intros Hn. unfold sr_read_u24_be, u24_bytes. rewrite read_slice_app by done. cbn [mbind outcome_bind].
  change (be_bytes 3 n) with [(n / 65536) mod 256; (n / 256) mod 256; (n / 1) mod 256]. rewrite Z.div_1_r.
  transitivity (@Ok (Z * list Z) (Z.lor (Z.lor (Z.shiftl ((n / 65536) mod 256) 16) (Z.shiftl ((n / 256) mod 256) 8)) (n mod 256), r)); [done|].
  do 2 f_equal. rewrite !Z.shiftl_mul_pow2 by lia.
  pose proof (Z.mod_pos_bound n 256). pose proof (Z.mod_pos_bound (n / 256) 256). pose proof (Z.mod_pos_bound (n / 65536) 256).
  replace (n / 65536) with (n / 256 / 256) by (rewrite Z.div_div; done || lia).
  assert (0 <= n / 256 / 256 < 256) by (rewrite Z.div_div by lia; split; [apply Z.div_pos; lia|apply Z.div_lt_upper_bound; lia]).
  pose proof (Z.div_mod n 256). pose proof (Z.div_mod (n / 256) 256). rewrite (Z.mod_small (n / 256 / 256)) by lia.
  rewrite (lor_disjoint 16) by lia.
  replace (n / 256 / 256 * 2 ^ 16 + (n / 256) mod 256 * 2 ^ 8) with ((n / 256 / 256 * 2 ^ 8 + (n / 256) mod 256) * 2 ^ 8) by lia.
  rewrite lor_disjoint by lia. lia.
Qed.

(** ** The format a client writes *)

Definition vec16 (l : list Z) : list Z := be_bytes 2 (len l) ++ l.

Inductive Ext : Type :=
| ESni (names : list (Z * list Z)) (host : string)
| EAlpn (protocols : list (list Z))
| EVersions (versions : list Z)
| EShares (shares : list (Z * list Z))
| EOther (kind : Z) (value : list Z).

Definition ext_kind (e : Ext) : Z :=
  match e with ESni _ _ => 0 | EAlpn _ => 16 | EVersions _ => 43 | EShares _ => 51 | EOther k _ => k end.

Definition name_bytes (p : Z * list Z) : list Z := p.1 :: vec16 p.2.
Definition share_bytes (p : Z * list Z) : list Z := be_bytes 2 p.1 ++ vec16 p.2.

(** A host name after names of other types *)
Definition ext_value (e : Ext) : list Z :=
  match e with
  | ESni names host => vec16 (concat (name_bytes <$> names) ++ name_bytes (0, str_bytes host))
  | EAlpn ps => vec16 (concat ((fun p => len p :: p) <$> ps))
  | EVersions vs => len (concat (be_bytes 2 <$> vs)) :: concat (be_bytes 2 <$> vs)
  | EShares ss => vec16 (concat (share_bytes <$> ss))
  | EOther _ v => v
  end.

Definition ext_bytes (e : Ext) : list Z := be_bytes 2 (ext_kind e) ++ vec16 (ext_value e).

(** The lengths fit, the entries are ones the server accepts. *)
Definition ext_valid (e : Ext) : Prop :=
  u16 (ext_kind e) /\ len (ext_value e) < 65536 /\
  match e with
  | ESni names host => Forall (fun p => p.1 <> 0 /\ len p.2 < 65536) names /\ utf8_valid (str_bytes host) = true /\ sni_ok host = true
                       /\ len (concat (name_bytes <$> names) ++ name_bytes (0, str_bytes host)) < 65536
  | EAlpn ps => Forall (fun p => 0 < len p < 256) ps /\ len (concat ((fun p => len p :: p) <$> ps)) < 65536
  | EVersions vs => Forall u16 vs /\ 2 * len vs < 256
  | EShares ss => Forall (fun p => u16 p.1 /\ 0 < len p.2 < 65536) ss /\ NoDup ss.*1 /\ len (concat (share_bytes <$> ss)) < 65536
  | EOther k _ => k <> 0 /\ k <> 16 /\ k <> 43 /\ k <> 51
  end.

(** What an extension contributes *)
Definition apply_ext (f : Found) (e : Ext) : Found :=
  let seen := ext_kind e :: fd_seen f in
  match e with
  | ESni _ host => mkFound (Some host) (fd_tls13 f) (fd_alpn f) (fd_shares f) seen
  | EAlpn ps => mkFound (fd_server_name f) (fd_tls13 f) ps (fd_shares f) seen
  | EVersions vs => mkFound (fd_server_name f) (existsb (Z.eqb TLS_1_3) vs) (fd_alpn f) (fd_shares f) seen
  | EShares ss => mkFound (fd_server_name f) (fd_tls13 f) (fd_alpn f) ss seen
  | EOther _ _ => mkFound (fd_server_name f) (fd_tls13 f) (fd_alpn f) (fd_shares f) seen
  end.

Definition hello_body (random session suites : list Z) (exts : list Ext) : list Z :=
  be_bytes 2 771 ++ random ++ (len session :: session) ++ vec16 suites ++ [1; 0] ++ vec16 (concat (ext_bytes <$> exts)).

Definition encode_hello (random session suites : list Z) (exts : list Ext) : list Z :=
  let body := hello_body random session suites exts in CLIENT_HELLO :: u24_bytes (len body) ++ body.

Lemma len_vec16 l : len (vec16 l) = 2 + len l.
Proof. unfold vec16. by rewrite len_app, len_be_bytes. Qed.

Lemma read_vec16 l r : len l < 65536 -> ('(n, r) ← sr_read_u16_be (vec16 l ++ r); read_slice n r) = Ok (l, r).
Proof.
  intros Hl. unfold vec16. rewrite <- app_assoc. rewrite sr_read_u16_app by (pose proof (len_nonneg l); unfold uint; lia). cbn [mbind outcome_bind].
  by apply read_slice_app.
Qed.

(** A list parser on a whole value: the length is the rest. *)
Lemma whole_vec16 {A} l (k : list Z -> outcome A) :
  len l < 65536 -> ('(n, r) ← sr_read_u16_be (vec16 l); if negb (n =? len r) then Err InvalidData else k r) = k l.
Proof.
  intros Hl. unfold vec16. rewrite sr_read_u16_app by (pose proof (len_nonneg l); unfold uint; lia). cbn [mbind outcome_bind].
  by rewrite Z.eqb_refl.
Qed.

Lemma server_name_loop_encoded fuel names host :
  (length names < fuel)%nat -> Forall (fun p => p.1 <> 0 /\ len p.2 < 65536) names -> utf8_valid (str_bytes host) = true -> str_len host < 65536 ->
  server_name_loop (S fuel) (concat (name_bytes <$> names) ++ name_bytes (0, str_bytes host)) None = Ok (Some host).
Proof.
  revert fuel. induction names as [|[k name] names IH]; intros fuel Hf Hn Hu Hl.
  - cbn [fmap list_fmap concat app]. destruct fuel; [cbn in Hf; lia|]. cbn [server_name_loop]. unfold name_bytes. cbn [fst snd].
    rewrite len_cons, len_vec16. pose proof (len_nonneg (str_bytes host)). rewrite (proj2 (Z.eqb_neq _ 0)) by lia. rewrite sr_read_u8_cons.
    cbn [mbind outcome_bind]. unfold vec16. rewrite sr_read_u16_app by (unfold uint, str_len in *; lia). cbn [mbind outcome_bind].
    rewrite <- (app_nil_r (str_bytes host)) at 2. rewrite read_slice_app by done. cbn [mbind outcome_bind]. rewrite Z.eqb_refl.
    rewrite from_utf8_bytes by done. done.
  - cbn [fmap list_fmap concat]. apply Forall_cons_1 in Hn as [[Hk Hlen] Hn]. cbn [fst snd] in *. destruct fuel; [cbn in Hf; lia|].
    rewrite <- app_assoc. specialize (IH fuel ltac:(cbn in Hf; lia) Hn Hu Hl). set (t := concat _ ++ _) in *. clearbody t.
    unfold name_bytes, vec16. cbn [fst snd]. rewrite <- app_comm_cons, <- app_assoc. remember (S fuel) as fuel1. cbn [server_name_loop].
    rewrite len_cons, !len_app. pose proof (len_nonneg (be_bytes 2 (len name))). pose proof (len_nonneg name). pose proof (len_nonneg t).
    rewrite (proj2 (Z.eqb_neq _ 0)) by lia. rewrite sr_read_u8_cons. cbn [mbind outcome_bind]. rewrite sr_read_u16_app by (unfold uint; lia).
    cbn [mbind outcome_bind]. rewrite read_slice_app by done. cbn [mbind outcome_bind]. by rewrite (proj2 (Z.eqb_neq k 0)) by done.
Qed.

Lemma versions_loop_encoded fuel vs : (length vs < fuel)%nat -> Forall u16 vs -> versions_loop fuel (concat (be_bytes 2 <$> vs)) = Ok vs.
Proof.
  revert fuel. induction vs as [|v vs IH]; intros fuel Hf Hv; (destruct fuel; [cbn in Hf; lia|]); [done|]. apply Forall_cons_1 in Hv as [Hv Hvs].
  cbn [fmap list_fmap concat versions_loop]. rewrite len_app, len_be_bytes. pose proof (len_nonneg (concat (be_bytes 2 <$> vs))).
  rewrite (proj2 (Z.eqb_neq _ 0)) by lia. rewrite sr_read_u16_app by done. cbn [mbind outcome_bind]. by rewrite IH by (done || cbn in Hf; lia).
Qed.

Lemma alpn_loop_encoded fuel ps :
  (length ps < fuel)%nat -> Forall (fun p => 0 < len p < 256) ps -> alpn_loop fuel (concat ((fun p => len p :: p) <$> ps)) = Ok ps.
Proof.
  revert fuel. induction ps as [|p ps IH]; intros fuel Hf Hp; (destruct fuel; [cbn in Hf; lia|]); [done|]. apply Forall_cons_1 in Hp as [Hp Hps].
  cbn [fmap list_fmap concat alpn_loop]. rewrite <- app_comm_cons, len_cons. rewrite len_app. pose proof (len_nonneg (concat ((fun p => len p :: p) <$> ps))).
  rewrite (proj2 (Z.eqb_neq _ 0)) by lia. rewrite sr_read_u8_cons. cbn [mbind outcome_bind]. rewrite (proj2 (Z.eqb_neq _ 0)) by lia.
  rewrite read_slice_app by done. cbn [mbind outcome_bind]. by rewrite IH by (done || cbn in Hf; lia).
Qed.

Lemma existsb_eqb_false x l : x ∉ l -> existsb (Z.eqb x) l = false.
Proof. intros Hx. apply not_true_is_false. intros (y & Hy & E)%existsb_exists. apply Z.eqb_eq in E as ->. by apply Hx, list_elem_of_In. Qed.

Lemma key_shares_loop_encoded fuel ss groups :
  (length ss < fuel)%nat -> Forall (fun p => u16 p.1 /\ 0 < len p.2 < 65536) ss -> NoDup ss.*1 -> (forall g, g ∈ ss.*1 -> g ∉ groups) ->
  key_shares_loop fuel (concat (share_bytes <$> ss)) groups = Ok ss.
Proof.
  revert fuel groups. induction ss as [|[g key] ss IH]; intros fuel groups Hf Hs Hnd Hg; (destruct fuel; [cbn in Hf; lia|]); [done|].
  apply Forall_cons_1 in Hs as [[Hu Hk] Hs]. cbn [fst snd fmap list_fmap] in *. apply list.NoDup_cons in Hnd as [Hng Hnd].
  cbn [concat key_shares_loop]. set (t := concat _). assert (Et : len t >= 0) by (pose proof (len_nonneg t); lia).
  unfold share_bytes, vec16. cbn [fst snd]. rewrite <- !app_assoc, !len_app, !len_be_bytes. rewrite (proj2 (Z.eqb_neq _ 0)) by lia.
  rewrite sr_read_u16_app by done. cbn [mbind outcome_bind]. rewrite sr_read_u16_app by (unfold uint; lia). cbn [mbind outcome_bind].
  rewrite (proj2 (Z.eqb_neq _ 0)) by lia. rewrite existsb_eqb_false by (apply Hg; left). rewrite read_slice_app by done. cbn [mbind outcome_bind].
  unfold t. rewrite IH; [done|cbn in Hf; lia|done|done|]. intros g' Hg' [->|Hin]%elem_of_cons; [done|]. by apply (Hg g'); [right|].
Qed.

(** The sum of the lengths bounds the number of entries, so the loops have fuel. *)
Lemma concat_count {A} (f : A -> list Z) l : Forall (fun x => 0 < len (f x)) l -> (length l <= length (concat (f <$> l)))%nat.
Proof.
  induction 1 as [|x l Hx Hl IH]; [done|]. cbn. rewrite length_app. unfold len in Hx. lia.
Qed.

Lemma on_extension_encoded e f : ext_valid e -> on_extension (ext_kind e) (ext_value e) f = Ok (apply_ext f e).
Proof.
  intros (Hk & Hl & Hv). destruct e as [names host|ps|vs|ss|k v]; cbn [ext_kind ext_value] in *; unfold on_extension.
  - destruct Hv as (Hn & Hu & _ & Hlen). cbn [Z.eqb]. unfold parse_server_name. rewrite whole_vec16 by done.
    rewrite server_name_loop_encoded; [done| |done|done|].
    + rewrite length_app. unfold name_bytes at 2. cbn [length]. pose proof (concat_count name_bytes names). 
      assert (Forall (fun x => 0 < len (name_bytes x)) names) as Hp by (apply Forall_forall; intros x _; unfold name_bytes; rewrite len_cons; pose proof (len_nonneg (vec16 x.2)); lia).
      specialize (H Hp). lia.
    + rewrite len_app in Hlen. unfold name_bytes in Hlen. rewrite len_cons, len_vec16 in Hlen. cbn [snd] in Hlen.
      pose proof (len_nonneg (concat ((fun p => p.1 :: vec16 p.2) <$> names))). unfold str_len. lia.
  - destruct Hv as (Hp & Hlen). cbn [Z.eqb]. unfold parse_alpn. rewrite whole_vec16 by done. rewrite alpn_loop_encoded; [done| |done].
    pose proof (concat_count (fun p : list Z => len p :: p) ps). apply Nat.lt_succ_r, H. apply Forall_forall. intros x _. rewrite len_cons. pose proof (len_nonneg x). lia.
  - destruct Hv as (Hu & Hlen). cbn [Z.eqb]. unfold parse_supported_versions. rewrite sr_read_u8_cons. cbn [mbind outcome_bind]. rewrite Z.eqb_refl.
    assert (len (concat (be_bytes 2 <$> vs)) = 2 * len vs) as El.
    { clear. induction vs as [|v vs IH]; [done|]. cbn [fmap list_fmap concat]. rewrite len_app, len_be_bytes, len_cons. fold (fmap (M := list) (be_bytes 2) vs). rewrite IH. lia. }
    rewrite El. assert ((2 * len vs) mod 2 = 0) as -> by (rewrite Z.mul_comm; by apply Z.mod_mul). cbn [negb orb Z.eqb]. rewrite versions_loop_encoded; [done| |done].
    apply Nat.lt_succ_r, concat_count. apply Forall_forall. intros x _. by rewrite len_be_bytes.
  - destruct Hv as (Hs & Hnd & Hlen). cbn [Z.eqb]. unfold parse_key_shares. rewrite whole_vec16 by done.
    rewrite key_shares_loop_encoded; [done| |done|done|]; [|intros g _ Hin; by apply elem_of_nil in Hin].
    apply Nat.lt_succ_r, concat_count. apply Forall_forall. intros x _. unfold share_bytes. rewrite len_app, len_be_bytes. pose proof (len_nonneg (vec16 x.2)). lia.
  - destruct Hv as (H1 & H2 & H3 & H4). by rewrite !(proj2 (Z.eqb_neq _ _)) by done.
Qed.

Lemma apply_ext_seen f e : fd_seen (apply_ext f e) = ext_kind e :: fd_seen f.
Proof. by destruct e. Qed.

Lemma extensions_loop_encoded fuel exts f :
  (length exts < fuel)%nat -> Forall ext_valid exts -> NoDup (ext_kind <$> exts) -> (forall k, k ∈ ext_kind <$> exts -> k ∉ fd_seen f) ->
  extensions_loop fuel (concat (ext_bytes <$> exts)) f = Ok (foldl apply_ext f exts).
Proof.
  revert fuel f. induction exts as [|e exts IH]; intros fuel f Hf Hv Hnd Hs; (destruct fuel; [cbn in Hf; lia|]); [done|].
  apply Forall_cons_1 in Hv as [He Hv]. cbn [fmap list_fmap concat foldl] in *. apply list.NoDup_cons in Hnd as [Hne Hnd].
  cbn [extensions_loop]. set (t := concat _). pose proof (len_nonneg t). unfold ext_bytes, vec16. pose proof He as (Hk & Hl & _).
  pose proof (len_nonneg (ext_value e)). rewrite <- !app_assoc, !len_app, !len_be_bytes. rewrite (proj2 (Z.eqb_neq _ 0)), (proj2 (Z.ltb_ge _ 4)) by lia.
  rewrite sr_read_u16_app by done. cbn [mbind outcome_bind]. rewrite sr_read_u16_app by (unfold uint; lia). cbn [mbind outcome_bind].
  rewrite read_slice_app by done. cbn [mbind outcome_bind]. rewrite existsb_eqb_false by (apply Hs; left). rewrite on_extension_encoded by done.
  cbn [mbind outcome_bind]. apply IH; [cbn in Hf; lia|done|done|]. intros k Hin. rewrite apply_ext_seen. intros [->|Hk']%elem_of_cons; [done|]. by apply (Hs k); [right|].
Qed.

Lemma parse_preamble_encoded random session suites exts :
  len random = 32 -> len session <= 32 -> 2 <= len suites < 65536 -> len suites mod 2 = 0 -> len (concat (ext_bytes <$> exts)) < 65536 ->
  parse_preamble (encode_hello random session suites exts) = Ok (concat (ext_bytes <$> exts)).
Proof.
  intros Hr Hs Hc Hm He. set (es := concat (ext_bytes <$> exts)) in *.
  assert (Hb : 0 <= len (hello_body random session suites exts) < 2 ^ 24).
  { unfold hello_body. fold es. rewrite !len_app, len_cons, !len_vec16, len_be_bytes, Hr. cbn [len length]. pose proof (len_nonneg session).
    pose proof (len_nonneg es). change (len [1; 0]) with 2. lia. }
  unfold parse_preamble, encode_hello. rewrite sr_read_u8_cons. cbn [mbind outcome_bind]. rewrite Z.eqb_refl. cbn [negb].
  rewrite sr_read_u24_app by done. cbn [mbind outcome_bind]. rewrite Z.eqb_refl. cbn [negb]. unfold hello_body. fold es.
  rewrite sr_read_u16_app by done. cbn [mbind outcome_bind Z.eqb Pos.eqb negb]. unfold skip. rewrite read_slice_app by done. cbn [mbind outcome_bind].
  rewrite <- app_comm_cons, sr_read_u8_cons. cbn [mbind outcome_bind]. rewrite (proj2 (Z.ltb_ge 32 (len session))) by done.
  rewrite read_slice_app by done. cbn [mbind outcome_bind]. unfold vec16 at 1. rewrite <- app_assoc. rewrite sr_read_u16_app by (unfold uint; lia).
  cbn [mbind outcome_bind]. rewrite (proj2 (Z.ltb_ge (len suites) 2)), Hm by lia. cbn [orb negb Z.eqb]. rewrite read_slice_app by done.
  cbn [mbind outcome_bind app]. rewrite sr_read_u8_cons. cbn [mbind outcome_bind Z.eqb Pos.eqb negb]. rewrite sr_read_u8_cons.
  cbn [mbind outcome_bind Z.eqb Pos.eqb negb]. unfold vec16.
  rewrite sr_read_u16_app by (pose proof (len_nonneg es); unfold uint; lia). cbn [mbind outcome_bind]. rewrite Z.eqb_refl. cbn [negb].
  rewrite <- (app_nil_r es) at 2. by rewrite read_slice_app.
Qed.

(** The extensions of other kinds leave a field as it is. *)
Lemma foldl_other exts f :
  ((forall e, e ∈ exts -> ext_kind e <> 0) -> fd_server_name (foldl apply_ext f exts) = fd_server_name f)
  /\ ((forall e, e ∈ exts -> ext_kind e <> 16) -> fd_alpn (foldl apply_ext f exts) = fd_alpn f)
  /\ ((forall e, e ∈ exts -> ext_kind e <> 43) -> fd_tls13 (foldl apply_ext f exts) = fd_tls13 f)
  /\ ((forall e, e ∈ exts -> ext_kind e <> 51) -> fd_shares (foldl apply_ext f exts) = fd_shares f).
Proof.
  revert f. induction exts as [|e exts IH]; intros f; [done|]. cbn [foldl]. destruct (IH (apply_ext f e)) as (I1 & I2 & I3 & I4).
  repeat split; intros H; [rewrite I1|rewrite I2|rewrite I3|rewrite I4]; (try by intros e' He'; apply H; right);
    specialize (H e (list_elem_of_here _ _)); by destruct e.
Qed.

(** The extension of its kind decides a field. *)
Lemma foldl_decides exts e f :
  NoDup (ext_kind <$> exts) -> e ∈ exts ->
  match e with
  | ESni _ host => fd_server_name (foldl apply_ext f exts) = Some host
  | EAlpn ps => fd_alpn (foldl apply_ext f exts) = ps
  | EVersions vs => fd_tls13 (foldl apply_ext f exts) = existsb (Z.eqb TLS_1_3) vs
  | EShares ss => fd_shares (foldl apply_ext f exts) = ss
  | EOther _ _ => True
  end.
Proof.
  intros Hnd (l1 & l2 & ->)%list_elem_of_split. rewrite fmap_app, fmap_cons in Hnd. apply list.NoDup_app in Hnd as (_ & _ & Hnd).
  apply list.NoDup_cons in Hnd as [Hne _]. rewrite foldl_app. cbn [foldl].
  assert (forall e', e' ∈ l2 -> ext_kind e' <> ext_kind e) as Hk by (intros e' He' E; apply Hne; rewrite <- E; by apply list_elem_of_fmap_2).
  destruct (foldl_other l2 (apply_ext (foldl apply_ext f l1) e)) as (I1 & I2 & I3 & I4).
  destruct e; cbn [ext_kind] in Hk; [rewrite I1|rewrite I2|rewrite I3|rewrite I4|]; done.
Qed.

Lemma find_share ss g key : NoDup ss.*1 -> snd <$> find (fun p : Z * list Z => p.1 =? g) ss = Some key <-> (g, key) ∈ ss.
Proof.
  induction ss as [|[g' k'] ss IH]; intros Hnd; [split; [done|intros H; by apply elem_of_nil in H]|].
  cbn [fmap list_fmap] in Hnd. apply list.NoDup_cons in Hnd as [Hn Hnd]. cbn [find fst]. rewrite elem_of_cons. destruct (Z.eqb_spec g' g) as [->|Hne].
  - cbn. split; [intros [= ->]; by left|]. intros [[= ->]|Hin]; [done|]. exfalso. apply Hn. by apply (list_elem_of_fmap_2 fst) in Hin.
  - rewrite IH by done. split; [by right|]. intros [[= -> ->]|]; done.
Qed.

(** The parser reads back what a client writes: for any random, session id, cipher
    suites and extensions in any order with distinct kinds (server name after entries of
    other types, protocols, versions, key shares, unknown ones), the parsed hello has the
    host name, says whether TLS 1.3 is offered, and lists exactly the protocols and shares. *)
Theorem reality_hello_roundtrip wire random session suites exts names host :
  len random = 32 -> len session <= 32 -> 2 <= len suites < 65536 -> len suites mod 2 = 0 -> len (concat (ext_bytes <$> exts)) < 65536 ->
  Forall ext_valid exts -> NoDup (ext_kind <$> exts) -> ESni names host ∈ exts ->
  exists h, parse_client_hello wire (encode_hello random session suites exts) = Ok h
  /\ ch_wire h = wire /\ ch_handshake h = encode_hello random session suites exts /\ ch_server_name h = host
  /\ (forall ps, EAlpn ps ∈ exts -> ch_alpn_protocols h = ps)
  /\ (forall vs, EVersions vs ∈ exts -> ch_supports_tls13 h = bool_decide (TLS_1_3 ∈ vs))
  /\ (forall ss g key, EShares ss ∈ exts -> key_share h g = Some key <-> (g, key) ∈ ss).
Proof.
  intros Hr Hs Hc Hm He Hv Hnd Hsni. unfold parse_client_hello. rewrite parse_preamble_encoded by done. cbn [mbind outcome_bind].
  rewrite extensions_loop_encoded; [|apply Nat.lt_succ_r, concat_count, Forall_forall; intros e _; unfold ext_bytes; rewrite len_app, len_be_bytes;
    pose proof (len_nonneg (vec16 (ext_value e))); lia|done|done|intros k _ Hin; by apply elem_of_nil in Hin].
  cbn [mbind outcome_bind]. set (f := foldl _ _ _). rewrite (foldl_decides exts (ESni names host) _ Hnd Hsni : fd_server_name f = _). cbn [ok_or mbind outcome_bind].
  destruct (proj1 (list.Forall_forall _ _) Hv _ Hsni) as (_ & _ & _ & _ & Hok & _). rewrite Hok. cbn [negb]. eexists. split; [done|]. cbn.
  split; [done|]. split; [done|]. split; [done|]. split; [|split].
  - intros ps Hps. apply (foldl_decides exts (EAlpn ps) _ Hnd Hps).
  - intros vs Hvs. rewrite (foldl_decides exts (EVersions vs) _ Hnd Hvs : fd_tls13 f = _). apply eq_bool_prop_intro. rewrite bool_decide_spec.
    rewrite Is_true_true, existsb_exists. split.
    + intros (x & Hx & ->%Z.eqb_eq). by apply list_elem_of_In.
    + intros Hin. exists TLS_1_3. split; [by apply list_elem_of_In|apply Z.eqb_refl].
  - intros ss g key Hss. unfold key_share. cbn. rewrite (foldl_decides exts (EShares ss) _ Hnd Hss : fd_shares f = _). apply find_share.
    destruct (proj1 (list.Forall_forall _ _) Hv _ Hss) as (_ & _ & _ & Hn & _). done.
Qed.

(** ** Untrusted input *)

(** A read that succeeds shortens the rest. *)
Lemma read_slice_inv n r a r' : 0 <= n -> read_slice n r = Ok (a, r') -> len a = n /\ length r' = (length r - Z.to_nat n)%nat /\ (Z.to_nat n <= length r)%nat.
Proof.
  intros Hn. unfold read_slice, len. destruct (Z.ltb_spec (Z.of_nat (length r)) n); [done|]. intros [= <- <-]. rewrite length_take, length_drop. lia.
Qed.

Definition reads {A} (n : nat) (Q : A -> Prop) (r : list Z) (m : outcome (A * list Z)) : Prop :=
  match m with Ok (a, r') => Q a /\ length r' = (length r - n)%nat /\ (n <= length r)%nat /\ (bytes_ok r -> bytes_ok r') | Err _ => True | Panic => False end.

Lemma reads_slice n r : 0 <= n -> reads (Z.to_nat n) (fun a => len a = n /\ (bytes_ok r -> bytes_ok a)) r (read_slice n r).
Proof.
  intros Hn. unfold reads. destruct (read_slice n r) as [[a r']| |] eqn:E; [|done|unfold read_slice in E; by destruct (len r <? n)].
  destruct (read_slice_inv n r a r' Hn E) as (H1 & H2 & H3). unfold read_slice in E. destruct (len r <? n); [done|]. injection E as <- <-.
  split; [split; [done|by apply Forall_take]|]. split; [done|]. split; [done|by apply Forall_drop].
Qed.

Lemma reads_u8 r : reads 1 (fun x => bytes_ok r -> 0 <= x < 256) r (sr_read_u8 r).
Proof.
  unfold sr_read_u8. pose proof (reads_slice 1 r ltac:(lia)) as H. destruct (read_slice 1 r) as [[b r']| |]; cbn in *; [|done|done].
  destruct H as ((H1 & H1') & H2 & H3 & H4). destruct (index_ok b 0) as (x & -> & Hx); [lia|]. cbn. split; [|done]. intros Hr.
  apply (proj1 (list.Forall_forall _ _) (H1' Hr) _ Hx).
Qed.

Lemma reads_u16 r : reads 2 (fun x => bytes_ok r -> 0 <= x) r (sr_read_u16_be r).
Proof.
  unfold sr_read_u16_be. pose proof (reads_slice 2 r ltac:(lia)) as H. destruct (read_slice 2 r) as [[b r']| |]; cbn in *; [|done|done].
  destruct H as ((H1 & H1') & H2 & H3 & H4). destruct (index_ok b 0) as (x & -> & Hx); [lia|]. destruct (index_ok b 1) as (y & -> & Hy); [lia|]. cbn.
  split; [|done]. intros Hr. pose proof (proj1 (list.Forall_forall _ _) (H1' Hr) _ Hx) as Ux. pose proof (proj1 (list.Forall_forall _ _) (H1' Hr) _ Hy) as Uy.
  unfold uint in Ux, Uy. lia.
Qed.

Lemma reads_u24 r : reads 3 (fun _ => True) r (sr_read_u24_be r).
Proof.
  unfold sr_read_u24_be. pose proof (reads_slice 3 r ltac:(lia)) as H. destruct (read_slice 3 r) as [[b r']| |]; cbn in *; [|done|done].
  destruct H as ((H1 & H1') & H2 & H3 & H4). destruct (index_ok b 0) as (x & -> & _); [lia|]. destruct (index_ok b 1) as (y & -> & _); [lia|].
  destruct (index_ok b 2) as (z & -> & _); [lia|]. done.
Qed.

(** Going on after a read *)
Ltac next_read H :=
  match goal with
  | |- context [sr_read_u8 ?r] => pose proof (reads_u8 r) as H; destruct (sr_read_u8 r) as [[? ?]| |]
  | |- context [sr_read_u16_be ?r] => pose proof (reads_u16 r) as H; destruct (sr_read_u16_be r) as [[? ?]| |]
  | |- context [sr_read_u24_be ?r] => pose proof (reads_u24 r) as H; destruct (sr_read_u24_be r) as [[? ?]| |]
  | |- context [read_slice ?n ?r] => pose proof (reads_slice n r) as H; destruct (read_slice n r) as [[? ?]| |]
  end; cbn [mbind outcome_bind]; [|done|cbn in H; naive_solver lia].

Lemma server_name_loop_np fuel r h : bytes_ok r -> (length r < fuel)%nat -> no_panic (server_name_loop fuel r h).
Proof.
  revert r h. induction fuel as [|fuel IH]; intros r h Hr Hf; [lia|]. cbn [server_name_loop]. destruct (len r =? 0); [done|].
  next_read H1. destruct H1 as (_ & L1 & M1 & B1). specialize (B1 Hr). next_read H2. destruct H2 as (Hz & L2 & M2 & B2). specialize (B2 B1). specialize (Hz B1).
  next_read H3. destruct (H3 Hz) as (_ & L3 & M3 & B3). specialize (B3 B2).
  case_match; [|apply IH; [done|lia]]. case_match; [done|]. destruct (from_utf8 _); [|done]. cbn. apply IH; [done|lia].
Qed.

Lemma versions_loop_np fuel r : bytes_ok r -> (length r < fuel)%nat -> no_panic (versions_loop fuel r).
Proof.
  revert r. induction fuel as [|fuel IH]; intros r Hr Hf; [lia|]. cbn [versions_loop]. destruct (len r =? 0); [done|].
  next_read H1. destruct H1 as (_ & L1 & M1 & B1). apply no_panic_bind; [apply IH; [auto|lia]|done].
Qed.

Lemma alpn_loop_np fuel r : bytes_ok r -> (length r < fuel)%nat -> no_panic (alpn_loop fuel r).
Proof.
  revert r. induction fuel as [|fuel IH]; intros r Hr Hf; [lia|]. cbn [alpn_loop]. destruct (len r =? 0); [done|].
  next_read H1. destruct H1 as (Z1 & L1 & M1 & B1). specialize (B1 Hr). specialize (Z1 Hr). destruct (_ =? 0); [done|].
  next_read H2. destruct (H2 (proj1 Z1)) as (_ & L2 & M2 & B2). apply no_panic_bind; [apply IH; [auto|lia]|done].
Qed.

Lemma key_shares_loop_np fuel r groups : bytes_ok r -> (length r < fuel)%nat -> no_panic (key_shares_loop fuel r groups).
Proof.
  revert r groups. induction fuel as [|fuel IH]; intros r groups Hr Hf; [lia|]. cbn [key_shares_loop]. destruct (len r =? 0); [done|].
  next_read H1. destruct H1 as (_ & L1 & M1 & B1). specialize (B1 Hr). next_read H2. destruct H2 as (Z2 & L2 & M2 & B2). specialize (B2 B1). specialize (Z2 B1).
  destruct (_ =? 0); [done|]. destruct (existsb _ _); [done|]. next_read H3. destruct (H3 Z2) as (_ & L3 & M3 & B3).
  apply no_panic_bind; [apply IH; [auto|lia]|done].
Qed.

Lemma on_extension_np kind value f : bytes_ok value -> no_panic (on_extension kind value f).
Proof.
  intros Hv. unfold on_extension, parse_server_name, parse_alpn, parse_supported_versions, parse_key_shares.
  repeat (apply no_panic_if; intros _); [| | | |done].
  - next_read H1. destruct H1 as (_ & L1 & M1 & B1). destruct (negb _); [done|]. apply no_panic_bind; [|done].
    apply no_panic_bind; [apply server_name_loop_np; [auto|lia]|]. intros h _. by destruct h.
  - next_read H1. destruct H1 as (_ & L1 & M1 & B1). destruct (negb _); [done|]. apply no_panic_bind; [apply alpn_loop_np; [auto|lia]|done].
  - next_read H1. destruct H1 as (_ & L1 & M1 & B1). destruct (_ || _); [done|]. apply no_panic_bind; [apply versions_loop_np; [auto|lia]|done].
  - next_read H1. destruct H1 as (_ & L1 & M1 & B1). destruct (negb _); [done|]. apply no_panic_bind; [apply key_shares_loop_np; [auto|lia]|done].
Qed.

Lemma extensions_loop_np fuel r f : bytes_ok r -> (length r < fuel)%nat -> no_panic (extensions_loop fuel r f).
Proof.
  revert r f. induction fuel as [|fuel IH]; intros r f Hr Hf; [lia|]. cbn [extensions_loop]. destruct (len r =? 0); [done|].
  destruct (len r <? 4); [done|]. next_read H1. destruct H1 as (_ & L1 & M1 & B1). specialize (B1 Hr). next_read H2. destruct H2 as (Z2 & L2 & M2 & B2).
  specialize (B2 B1). specialize (Z2 B1). next_read H3. destruct (H3 Z2) as ((_ & V3) & L3 & M3 & B3). destruct (existsb _ _); [done|].
  apply no_panic_bind; [by apply on_extension_np, V3|]. intros f' _. apply IH; [auto|lia].
Qed.

Lemma parse_preamble_np handshake : bytes_ok handshake -> match parse_preamble handshake with Ok e => bytes_ok e | Err _ => True | Panic => False end.
Proof.
  intros Hb. unfold parse_preamble, skip. next_read H1. destruct H1 as (_ & _ & _ & B1). specialize (B1 Hb). destruct (negb _); [done|].
  next_read H2. destruct H2 as (_ & _ & _ & B2). specialize (B2 B1). destruct (negb _); [done|]. next_read H3. destruct H3 as (_ & _ & _ & B3). specialize (B3 B2).
  destruct (negb _); [done|]. next_read H4. destruct (H4 ltac:(lia)) as (_ & _ & _ & B4). specialize (B4 B3).
  next_read H5. destruct H5 as (Z5 & _ & _ & B5). specialize (B5 B4). specialize (Z5 B4). destruct (32 <? _); [done|]. next_read H6.
  destruct (H6 (proj1 Z5)) as (_ & _ & _ & B6). specialize (B6 B5). next_read H7. destruct H7 as (Z7 & _ & _ & B7). specialize (B7 B6). specialize (Z7 B6).
  destruct (_ || _); [done|]. next_read H8. destruct (H8 Z7) as (_ & _ & _ & B8). specialize (B8 B7). next_read H9. destruct H9 as (_ & _ & _ & B9).
  specialize (B9 B8). destruct (negb _); [done|]. next_read H10. destruct H10 as (_ & _ & _ & B10). specialize (B10 B9). destruct (negb _); [done|].
  next_read H11. destruct H11 as (Z11 & _ & _ & B11). specialize (B11 B10). specialize (Z11 B10). destruct (negb _); [done|].
  next_read H12. destruct (H12 Z11) as ((_ & V) & _). auto.
Qed.

(** No handshake bytes make the parser panic or run on; a hello it accepts keeps the
    bytes it was read from and has a host name of at most 253 bytes of ASCII without NUL. *)
Theorem reality_hello_untrusted wire handshake :
  bytes_ok handshake ->
  no_panic (parse_client_hello wire handshake)
  /\ forall h, parse_client_hello wire handshake = Ok h ->
     ch_wire h = wire /\ ch_handshake h = handshake /\ str_len (ch_server_name h) <= 253 /\ Forall (fun b => 0 < b < 128) (str_bytes (ch_server_name h)).
Proof.
  intros Hb. unfold parse_client_hello. pose proof (parse_preamble_np handshake Hb) as Hp. destruct (parse_preamble handshake) as [e| |]; cbn [mbind outcome_bind]; [|done|done].
  pose proof (extensions_loop_np (S (length e)) e (mkFound None false [] [] []) Hp ltac:(lia)) as Hn.
  destruct (extensions_loop _ _ _) as [f| |]; cbn [mbind outcome_bind]; [|done|done]. destruct (fd_server_name f) as [name|]; cbn [ok_or mbind outcome_bind]; [|done].
  destruct (sni_ok name) eqn:Es; cbn [negb]; [|done]. split; [done|]. intros h [= <-]. cbn. split; [done|]. split; [done|].
  unfold sni_ok in Es. apply negb_true_iff, orb_false_iff in Es as [E1%Z.ltb_ge E2]. split; [done|]. apply list.Forall_forall. intros b Hin.
  pose proof (proj1 (list.Forall_forall _ _) (str_bytes_ok name) b Hin) as Hu. unfold uint in Hu.
  destruct (decide (0 < b < 128)) as [|Hno]; [done|]. exfalso. apply not_true_iff_false in E2. apply E2, existsb_exists. exists b.
  split; [by apply list_elem_of_In|]. destruct (Z.eqb_spec b 0), (Z.ltb_spec b 128); cbn; done || lia.
Qed.

(** ** The buffer is a queue of bytes *)

Definition sb_ok (b : SlideBuffer) : Prop := 0 <= sb_start b <= len (sb_data b).
Definition contents (b : SlideBuffer) : list Z := drop (Z.to_nat (sb_start b)) (sb_data b).

Lemma len_contents b : sb_ok b -> len (contents b) = sb_len b.
Proof. unfold sb_ok, contents, sb_len, len. rewrite length_drop. lia. Qed.

Lemma compact_spec b : sb_ok b -> sb_ok (compact b) /\ contents (compact b) = contents b /\ sb_start (compact b) = 0 /\ sb_capacity_limit (compact b) = sb_capacity_limit b.
Proof.
  unfold sb_ok, compact, contents. intros Hb. destruct (Z.ltb_spec 0 (sb_start b)); cbn; [pose proof (len_nonneg (drop (Z.to_nat (sb_start b)) (sb_data b))); split; [lia|done]|].
  repeat split; lia.
Qed.

Lemma consume_spec b n : sb_ok b -> 0 <= n -> sb_ok (sb_consume b n) /\ contents (sb_consume b n) = drop (Z.to_nat n) (contents b).
Proof.
  unfold sb_ok, sb_consume, contents. intros Hb Hn. destruct (Z.eqb_spec (Z.min (sb_start b + n) (len (sb_data b))) (len (sb_data b))) as [E|E]; cbn.
  - split; [done|]. rewrite drop_drop. symmetry. apply drop_ge. unfold len in *. lia.
  - split; [lia|]. rewrite drop_drop. f_equal. unfold len in *. lia.
Qed.

Lemma as_slice_spec b : sb_ok b -> as_slice b = Ok (contents b).
Proof. intros Hb. unfold sb_ok in Hb. unfold as_slice. rewrite get_slice_ok by lia. by rewrite slice_to_end. Qed.

(** The sliding buffer is a queue of bytes, whatever its start index and whether it
    was compacted: a new one is empty, extending appends, consuming drops from the front (all
    of it at most), compacting changes nothing that can be seen, reading returns the front
    and removes it, the length and the free capacity are those of the queue, and no operation
    indexes out of range. *)
Theorem slide_buffer_is_queue b data n threshold capacity :
  sb_ok b -> 0 <= n < 2 ^ 63 ->
  sb_ok (SlideBuffer_new capacity) /\ contents (SlideBuffer_new capacity) = []
  /\ as_slice b = Ok (contents b) /\ sb_len b = len (contents b) /\ remaining_capacity b = saturating_sub (sb_capacity_limit b) (len (contents b))
  /\ (sb_ok (extend_from_slice b data) /\ contents (extend_from_slice b data) = contents b ++ data)
  /\ (sb_ok (sb_consume b n) /\ contents (sb_consume b n) = drop (Z.to_nat n) (contents b))
  /\ (sb_ok (maybe_compact b threshold) /\ contents (maybe_compact b threshold) = contents b)
  /\ (exists b', sb_read b n = Ok (b', take (Z.to_nat n) (contents b)) /\ sb_ok b' /\ contents b' = drop (Z.to_nat n) (contents b))
  /\ get_u16_be b n = Ok (match drop (Z.to_nat n) (contents b) with x :: y :: _ => Some (x * 256 + y) | _ => None end).
Proof.
  intros Hb Hn. pose proof (len_contents b Hb) as Hl. pose proof (as_slice_spec b Hb) as Hs. destruct (compact_spec b Hb) as (C1 & C2 & C3 & C4).
  split; [done|]. split; [done|]. split; [done|]. split; [done|]. split; [unfold remaining_capacity; by rewrite Hl|]. split; [|split; [|split; [|split]]].
  - unfold extend_from_slice, sb_ok, contents in *. cbn. rewrite C3 in *. rewrite !drop_0 in *. rewrite len_app. pose proof (len_nonneg data).
    split; [lia|]. by rewrite C2.
  - by apply consume_spec; [|lia].
  - unfold maybe_compact. by case_match.
  - unfold sb_read. rewrite Hs. cbn [mbind outcome_bind]. pose proof (len_nonneg (contents b)). rewrite get_slice_ok by lia. cbn [mbind outcome_bind].
    rewrite slice_from_0. destruct (consume_spec b (Z.min n (sb_len b)) Hb ltac:(lia)) as [D1 D2]. exists (sb_consume b (Z.min n (sb_len b))).
    rewrite D2. unfold len in Hl. destruct (Z.le_ge_cases n (sb_len b)).
    + by rewrite !Z.min_l in * by lia.
    + rewrite !Z.min_r in * by lia. rewrite !take_ge, !drop_ge by lia. done.
  - unfold get_u16_be. rewrite Hs. cbn [mbind outcome_bind]. unfold checked_add. rewrite (proj2 (Z.ltb_lt _ _)) by lia.
    destruct (Z.leb_spec (n + 2) (len (contents b))) as [Hle|Hgt].
    + destruct (lookup_lt_is_Some_2 (contents b) (Z.to_nat n)) as [x Hx]; [unfold len in Hle; lia|].
      destruct (lookup_lt_is_Some_2 (contents b) (S (Z.to_nat n))) as [y Hy]; [unfold len in Hle; lia|].
      rewrite (drop_S _ x), (drop_S _ y) by done. unfold index. rewrite !(proj2 (Z.leb_le 0 _)) by lia. rewrite Hx.
      replace (Z.to_nat (n + 1)) with (S (Z.to_nat n)) by lia. by rewrite Hy.
    + assert (length (drop (Z.to_nat n) (contents b)) < 2)%nat as Hd by (rewrite length_drop; unfold len in Hgt; lia).
      by destruct (drop (Z.to_nat n) (contents b)) as [|x [|y l]]; cbn in Hd; [done|done|lia].
Qed.

Module RealityHelloWitness.

Definition exts : list Ext := [EOther 23 []; EVersions [771; 772]; ESni [(7, [1; 2])] "example.com"; EShares [(29, [5; 6]); (23, [7])]; EAlpn [[104; 50]]].
Definition hello : list Z := encode_hello (repeat 9 32) [1; 2; 3] [19; 1] exts.

Lemma exts_valid : Forall ext_valid exts.
Proof.
  unfold exts. repeat (apply Forall_cons; [split; [done|split; [done|]]|]); cbn; try done.
  - repeat constructor; done.
  - split; [|done]. by repeat constructor.
  - split; [by repeat constructor|]. split; [|done]. repeat (apply list.NoDup_cons; split; [set_solver|]). apply NoDup_nil_2.
  - split; [|done]. by repeat constructor.
Qed.

Lemma reality_hello_roundtrip_witness : exists h, parse_client_hello [] hello = Ok h /\ ch_server_name h = "example.com" /\ key_share h 29 = Some [5; 6].
Proof.
  destruct (reality_hello_roundtrip [] (repeat 9 32) [1; 2; 3] [19; 1] exts [(7, [1; 2])] "example.com") as (h & E & _ & _ & H & _ & _ & Hs);
    [done..|exact exts_valid|by vm_compute; repeat (apply list.NoDup_cons; split; [set_solver|]); apply NoDup_nil_2|set_solver|].
  exists h. split; [done|]. split; [done|]. apply (Hs [(29, [5; 6]); (23, [7])]); set_solver.
Defined.

Lemma reality_hello_untrusted_witness : no_panic (parse_client_hello [] (take 60 hello)).
Proof. apply reality_hello_untrusted. vm_compute. repeat (constructor; [done|]). constructor. Defined.

Lemma slide_buffer_is_queue_witness : contents (sb_consume (extend_from_slice (mkSlideBuffer [1; 2; 3] 1 10) [4]) 1) = [3; 4].
Proof.
  pose proof (slide_buffer_is_queue (extend_from_slice (mkSlideBuffer [1; 2; 3] 1 10) [4]) [] 1 0 10) as H.
  destruct H as (_ & _ & _ & _ & _ & _ & (_ & ->) & _); [done|done|reflexivity].
Defined.

End RealityHelloWitness.
