(* ===== verification/RealityForward.v ===== *)
(** * Relaying the ClientHello to the camouflage target

    Models [read_client_hello_forwarded], [write_forwarded] ([core-reality/src/framing.rs])
    and [RecordingRead], [forward_recorded_suffix] ([core-reality/src/server.rs]).  The
    asynchronous function is a state machine: its program counter is the read or write it
    waits for, an event is one completed read or write of any size, and a timeout is a run
    that stops in between.  [recorded] is what [RecordingRead] kept, [target] what the target
    has accepted. *)

From stdpp Require Import base list gmap strings numbers option.
From S2P Require Import Prelude RealityHello.

Record ClientHelloLimits : Type := mkLimits {
  max_record_payload : Z;
  max_handshake_bytes : Z;
  max_wire_bytes : Z;
  max_records : Z
}.

Definition ClientHelloLimits_default : ClientHelloLimits := mkLimits RFC8446_MAX_CIPHERTEXT 65535 (96 * 1024) 16.

(** What the function waits for *)
Inductive FwdPc : Type :=
| PcHeader (got : list Z)
| PcRelayHeader (header rest : list Z)
| PcPayload (header : list Z) (payload_len : Z) (got : list Z)
| PcRelayPayload (header payload rest : list Z)
| PcDone (r : outcome ClientHello).

Record Fwd : Type := mkFwd {
  fw_pc : FwdPc;
  fw_wire : list Z;
  fw_handshake : list Z;
  fw_expected : option Z;
  fw_left : Z;
  fw_recorded : list Z;
  fw_target : list Z;
  fw_forwarded : Z
}.

Definition set_pc (s : Fwd) (pc : FwdPc) : Fwd :=
  mkFwd pc (fw_wire s) (fw_handshake s) (fw_expected s) (fw_left s) (fw_recorded s) (fw_target s) (fw_forwarded s).

Inductive Event : Type :=
| EvRead (chunk : list Z)
| EvEof
| EvReadError (e : ErrorKind)
| EvWrite (written : Z)
| EvWriteError (e : ErrorKind).

Section machine.
Context (limits : ClientHelloLimits).

(** The head of the [for _ in 0..limits.max_records] loop *)
Definition next_record (s : Fwd) : Fwd := set_pc s (if fw_left s <=? 0 then PcDone (Err InvalidData) else PcHeader []).

Definition fwd_start : Fwd :=
  let s := mkFwd (PcHeader []) [] [] None (max_records limits) [] [] 0 in
  if (max_records limits =? 0) || (max_record_payload limits =? 0) || (max_handshake_bytes limits <? 4) || (max_wire_bytes limits <? TLS_HEADER_LEN)
  then set_pc s (PcDone (Err InvalidInput))
  else next_record s.

(** The checks on a header that was read and relayed *)
Definition after_header (s : Fwd) (header : list Z) : outcome FwdPc :=
  kind ← index header 0;
  if negb (kind =? TLS_HANDSHAKE) then Ok (PcDone (Err InvalidData)) else
  hi ← index header 3;
  lo ← index header 4;
  let payload_len := hi * 256 + lo in
  if (payload_len =? 0) || (max_record_payload limits <? payload_len) || (RFC8446_MAX_CIPHERTEXT <? payload_len) then Ok (PcDone (Err InvalidData)) else
  if max_wire_bytes limits <? saturating_add 64 (len (fw_wire s)) (TLS_HEADER_LEN + payload_len) then Ok (PcDone (Err InvalidData)) else
  Ok (PcPayload header payload_len []).

(** The length of the handshake message, once four bytes of it are there *)
Definition expect_len (handshake : list Z) (expected : option Z) : outcome (option Z) :=
  if (4 <=? len handshake) && negb (if expected then true else false) then
    kind ← index handshake 0;
    if negb (kind =? CLIENT_HELLO) then Err InvalidData else
    a ← index handshake 1;
    b ← index handshake 2;
    c ← index handshake 3;
    let body_len := Z.lor (Z.lor (Z.shiftl a 16) (Z.shiftl b 8)) c in
    total ← ok_or (checked_add 64 body_len 4) InvalidData;
    if max_handshake_bytes limits <? total then Err InvalidData else Ok (Some total)
  else Ok expected.

(** A record is complete *)
Definition after_payload (s : Fwd) (header payload : list Z) : Fwd :=
  let wire := fw_wire s ++ header ++ payload in
  let handshake := fw_handshake s ++ payload in
  let s' := mkFwd (fw_pc s) wire handshake (fw_expected s) (fw_left s - 1) (fw_recorded s) (fw_target s) (fw_forwarded s) in
  match expect_len handshake (fw_expected s) with
  | Err e => set_pc s' (PcDone (Err e))
  | Panic => set_pc s' (PcDone Panic)
  | Ok expected =>
    let s'' := mkFwd (fw_pc s) wire handshake expected (fw_left s - 1) (fw_recorded s) (fw_target s) (fw_forwarded s) in
    match expected with
    | Some total =>
      if total <=? len handshake then set_pc s'' (PcDone (parse_client_hello wire (take (Z.to_nat total) handshake)))
      else next_record s''
    | None => if max_handshake_bytes limits <? len handshake then set_pc s'' (PcDone (Err InvalidData)) else next_record s''
    end
  end.

(** [RecordingRead::poll_read] gave [chunk] *)
Definition record (s : Fwd) (pc : FwdPc) (chunk : list Z) : Fwd :=
  mkFwd pc (fw_wire s) (fw_handshake s) (fw_expected s) (fw_left s) (fw_recorded s ++ chunk) (fw_target s) (fw_forwarded s).

(** [target.write(bytes)] took [written] bytes *)
Definition relay (s : Fwd) (pc : FwdPc) (rest : list Z) (written : Z) : Fwd :=
  mkFwd pc (fw_wire s) (fw_handshake s) (fw_expected s) (fw_left s) (fw_recorded s)
    (fw_target s ++ take (Z.to_nat written) rest) (saturating_add 64 (fw_forwarded s) written).

(** One event; [None] when it cannot happen in this state *)
Definition fwd_step (s : Fwd) (ev : Event) : option Fwd :=
  match fw_pc s, ev with
  | PcHeader got, EvRead chunk =>
    if (0 <? len chunk) && (len got + len chunk <=? TLS_HEADER_LEN) then
      let got := got ++ chunk in
      Some (record s (if len got =? TLS_HEADER_LEN then PcRelayHeader got got else PcHeader got) chunk)
    else None
  | PcPayload header n got, EvRead chunk =>
    if (0 <? len chunk) && (len got + len chunk <=? n) then
      let got := got ++ chunk in
      Some (record s (if len got =? n then PcRelayPayload header got got else PcPayload header n got) chunk)
    else None
  | PcHeader _, EvEof | PcPayload _ _ _, EvEof => Some (set_pc s (PcDone (Err UnexpectedEof)))
  | PcHeader _, EvReadError e | PcPayload _ _ _, EvReadError e => Some (set_pc s (PcDone (Err e)))
  | PcRelayHeader header rest, EvWrite n =>
    if (0 <=? n) && (n <=? len rest) then
      if n =? 0 then Some (set_pc s (PcDone (Err WriteZero))) else
      let rest' := drop (Z.to_nat n) rest in
      if len rest' =? 0 then
        let s := relay s (fw_pc s) rest n in
        Some (set_pc s (match after_header s header with Ok pc => pc | Err e => PcDone (Err e) | Panic => PcDone Panic end))
      else Some (relay s (PcRelayHeader header rest') rest n)
    else None
  | PcRelayPayload header payload rest, EvWrite n =>
    if (0 <=? n) && (n <=? len rest) then
      if n =? 0 then Some (set_pc s (PcDone (Err WriteZero))) else
      let rest' := drop (Z.to_nat n) rest in
      if len rest' =? 0 then Some (after_payload (relay s (fw_pc s) rest n) header payload)
      else Some (relay s (PcRelayPayload header payload rest') rest n)
    else None
  | PcRelayHeader _ _, EvWriteError e | PcRelayPayload _ _ _, EvWriteError e => Some (set_pc s (PcDone (Err e)))
  | _, _ => None
  end.

Fixpoint fwd_run (s : Fwd) (evs : list Event) : option Fwd :=
  match evs with
  | [] => Some s
  | ev :: evs' => s' ← fwd_step s ev; fwd_run s' evs'
  end.

End machine.

(** What is left goes to the target when the function failed or timed out; the target takes it. *)
Definition forward_recorded_suffix (target recorded : list Z) (forwarded : Z) : outcome (list Z) :=
  if len recorded <? forwarded then Err InvalidData else Ok (target ++ drop (Z.to_nat forwarded) recorded).

(** ** Nothing is lost, repeated or reordered *)

(** The bytes read and not yet accepted by the target *)
Definition unsent (pc : FwdPc) : list Z :=
  match pc with
  | PcHeader got | PcPayload _ _ got => got
  | PcRelayHeader _ rest | PcRelayPayload _ _ rest => rest
  | PcDone _ => []
  end.

(** The bytes read since the last complete record *)
Definition current (pc : FwdPc) : list Z :=
  match pc with
  | PcHeader got => got
  | PcRelayHeader header _ => header
  | PcPayload header _ got => header ++ got
  | PcRelayPayload header payload _ => header ++ payload
  | PcDone _ => []
  end.

Definition pc_sized (limits : ClientHelloLimits) (wire : list Z) (pc : FwdPc) : Prop :=
  match pc with
  | PcHeader got => len got < 5
  | PcRelayHeader header rest => len header = 5 /\ 0 < len rest
  | PcPayload header n got => len header = 5 /\ len got < n /\ len wire + 5 + n <= max_wire_bytes limits
  | PcRelayPayload header payload rest => len header = 5 /\ 0 < len rest /\ len wire + 5 + len payload <= max_wire_bytes limits
  | PcDone _ => True
  end.

Record fwd_inv (limits : ClientHelloLimits) (s : Fwd) : Prop := mkFwdInv {
  fi_count : fw_forwarded s = len (fw_target s);
  fi_prefix : fw_target s `prefix_of` fw_recorded s;
  fi_unsent : (forall r, fw_pc s <> PcDone r) -> fw_recorded s = fw_target s ++ unsent (fw_pc s) /\ fw_recorded s = fw_wire s ++ current (fw_pc s);
  fi_sized : pc_sized limits (fw_wire s) (fw_pc s);
  fi_wire : len (fw_wire s) <= max_wire_bytes limits;
  fi_bytes : bytes_ok (fw_recorded s);
  fi_bound : len (fw_recorded s) <= max_wire_bytes limits + 5;
  fi_done : forall h, fw_pc s = PcDone (Ok h) -> ch_wire h = fw_recorded s /\ fw_target s = fw_recorded s;
}.

Ltac between_inv := constructor; cbn; try done; try congruence; try lia.

Section inv.
Context (limits : ClientHelloLimits) (wire_range : 0 <= max_wire_bytes limits < 2 ^ 63).

(** A run ends with an error: the target has a prefix. *)
Lemma fwd_inv_fail s e : fwd_inv limits s -> fwd_inv limits (set_pc s (PcDone (Err e))).
Proof. intros []. constructor; try done; cbn. intros Hd. by destruct (Hd (Err e)). Qed.

(** Between two records everything read has been relayed. *)
Definition between (s : Fwd) : Prop :=
  fw_forwarded s = len (fw_target s) /\ fw_target s = fw_recorded s /\ fw_recorded s = fw_wire s /\ len (fw_wire s) <= max_wire_bytes limits /\ bytes_ok (fw_recorded s).

Lemma fwd_inv_next s : between s -> fwd_inv limits (next_record s).
Proof.
  intros (H1 & H2 & H3 & H4 & H5). unfold next_record. case_match; between_inv; rewrite ?H2, ?H3, ?app_nil_r; try done; lia.
Qed.

Lemma fwd_inv_end s r : between s -> (forall h, r = Ok h -> ch_wire h = fw_recorded s) -> fwd_inv limits (set_pc s (PcDone r)).
Proof.
  intros (H1 & H2 & H3 & H4 & H5) Hw. between_inv; rewrite ?H2, ?H3, ?app_nil_r; try done; try lia. intros h [= ->]. rewrite <- H3. auto.
Qed.

Lemma parse_wire wire handshake h : parse_client_hello wire handshake = Ok h -> ch_wire h = wire.
Proof.
  unfold parse_client_hello. destruct (parse_preamble handshake) as [e| |]; cbn [mbind outcome_bind]; [|done|done].
  destruct (extensions_loop _ _ _) as [f| |]; cbn [mbind outcome_bind]; [|done|done]. destruct (fd_server_name f); cbn [ok_or mbind outcome_bind]; [|done].
  destruct (negb _); [done|]. by intros [= <-].
Qed.

Lemma inv_after_payload s header payload :
  fw_forwarded s = len (fw_target s) -> fw_target s = fw_recorded s -> fw_recorded s = fw_wire s ++ header ++ payload ->
  len (fw_wire s ++ header ++ payload) <= max_wire_bytes limits -> bytes_ok (fw_recorded s) -> fwd_inv limits (after_payload limits s header payload).
Proof.
  intros H1 H2 H3 H4 H5. unfold after_payload. destruct (expect_len limits _ (fw_expected s)) as [[total|]|e|]; cbn -[app];
    [case_match; [|by apply fwd_inv_next]|case_match; [|by apply fwd_inv_next]|..]; (apply fwd_inv_end; [done|]); try done.
  intros h Hh. rewrite (parse_wire _ _ _ Hh). done.
Qed.

Lemma inv_after_header s header :
  fw_forwarded s = len (fw_target s) -> fw_target s = fw_recorded s -> fw_recorded s = fw_wire s ++ header -> len header = 5 ->
  len (fw_wire s) <= max_wire_bytes limits -> bytes_ok (fw_recorded s) ->
  fwd_inv limits (set_pc s (match after_header limits s header with Ok pc => pc | Err e => PcDone (Err e) | Panic => PcDone Panic end)).
Proof.
  intros H1 H2 H3 H4 H5 H6. assert (Hb : bytes_ok header) by (rewrite H3 in H6; by apply list.Forall_app in H6 as [_ H6]). assert (Hrec : len (fw_recorded s) <= max_wire_bytes limits + 5) by (rewrite H3, len_app; lia).
  assert (Hend : forall r, (forall h, r <> Ok h) -> fwd_inv limits (set_pc s (PcDone r))).
  { intros r Hr. between_inv.
    - by rewrite H2.
    - intros Hd. by destruct (Hd r). }
  unfold after_header. destruct (index_ok header 0) as (kind & -> & _); [lia|]. cbn [mbind outcome_bind]. destruct (negb _); [by apply Hend|].
  destruct (index_ok header 3) as (hi & -> & Hhi); [lia|]. destruct (index_ok header 4) as (lo & -> & Hlo); [lia|]. cbn [mbind outcome_bind].
  destruct (_ || _) eqn:E; [by apply Hend|]. apply orb_false_iff in E as [[E1%Z.eqb_neq _]%orb_false_iff E3%Z.ltb_ge].
  unfold saturating_add, TLS_HEADER_LEN. destruct (Z.ltb_spec (max_wire_bytes limits) (Z.min (len (fw_wire s) + (5 + (hi * 256 + lo))) (2 ^ 64 - 1))) as [|Hle]; [by apply Hend|].
  pose proof (proj1 (list.Forall_forall _ _) Hb _ Hhi) as Uh. pose proof (proj1 (list.Forall_forall _ _) Hb _ Hlo) as Ul. unfold uint in Uh, Ul.
  assert (RFC8446_MAX_CIPHERTEXT = 16640) as Er by done.
  between_inv; rewrite ?H2, ?app_nil_r; try done. split; [done|]. rewrite len_nil. lia.
Qed.

(** Reading and relaying keep the invariant. *)
Lemma inv_record s pc chunk :
  fwd_inv limits s -> bytes_ok chunk -> (forall r, fw_pc s <> PcDone r) -> (forall r, pc <> PcDone r) ->
  unsent pc = unsent (fw_pc s) ++ chunk -> current pc = current (fw_pc s) ++ chunk ->
  pc_sized limits (fw_wire s) pc -> len (current pc) <= 5 \/ len (fw_wire s) + len (current pc) <= max_wire_bytes limits ->
  fwd_inv limits (record s pc chunk).
Proof.
  intros [] Hb Hd Hd' Hu Hc Hs Hl. destruct (fi_unsent0 Hd) as [Eu Ec]. constructor; cbn; try done.
  - by apply prefix_app_r.
  - intros _. rewrite Hu, Hc, Eu at 1. rewrite Ec. by rewrite !app_assoc.
  - by apply list.Forall_app.
  - rewrite Ec, <- app_assoc, <- Hc, len_app. lia.
  - intros h ->. by destruct (Hd' (Ok h)).
Qed.

Lemma inv_relay s pc rest n :
  fwd_inv limits s -> (forall r, fw_pc s <> PcDone r) -> unsent (fw_pc s) = rest -> 0 < n <= len rest ->
  unsent pc = drop (Z.to_nat n) rest -> current pc = current (fw_pc s) -> (forall r, pc <> PcDone r) -> pc_sized limits (fw_wire s) pc ->
  fwd_inv limits (relay s pc rest n).
Proof.
  intros [] Hd Hu Hn Hu' Hc Hd' Hs. destruct (fi_unsent0 Hd) as [Eu Ec]. rewrite Hu in Eu.
  assert (Et : fw_recorded s = (fw_target s ++ take (Z.to_nat n) rest) ++ drop (Z.to_nat n) rest) by (by rewrite <- app_assoc, take_drop).
  assert (Hlen : len (fw_target s) + len rest <= max_wire_bytes limits + 5) by (rewrite <- len_app, <- Eu; done).
  constructor; cbn; try done.
  - rewrite fi_count0, len_app, len_take by lia. unfold saturating_add. lia.
  - rewrite Et. by apply prefix_app_r.
  - intros _. by rewrite Hu', Hc.
  - intros h ->. by destruct (Hd' (Ok h)).
Qed.


(** The state once everything read is with the target *)
Lemma relayed s rest n :
  fwd_inv limits s -> (forall r, fw_pc s <> PcDone r) -> unsent (fw_pc s) = rest -> 0 < n <= len rest -> len (drop (Z.to_nat n) rest) = 0 ->
  let s' := relay s (fw_pc s) rest n in
  fw_forwarded s' = len (fw_target s') /\ fw_target s' = fw_recorded s' /\ fw_recorded s' = fw_wire s' ++ current (fw_pc s').
Proof.
  intros [] Hd Hu Hn Hz. rewrite len_drop in Hz by lia. destruct (fi_unsent0 Hd) as [Eu Ec]. cbn.
  assert (Hlen : len (fw_target s) + len rest <= max_wire_bytes limits + 5) by (rewrite <- len_app, <- Hu, <- Eu; done).
  split; [|split; [|done]].
  - rewrite fi_count0, len_app, len_take by lia. unfold saturating_add. lia.
  - rewrite Eu, Hu. f_equal. apply take_ge. unfold len in *. lia.
Qed.

Lemma fwd_inv_step s ev s' :
  fwd_inv limits s -> (forall chunk, ev = EvRead chunk -> bytes_ok chunk) -> fwd_step limits s ev = Some s' -> fwd_inv limits s'.
Proof.
  intros Hinv Hb. unfold fwd_step. pose proof (fi_sized _ _ Hinv) as Hs. pose proof (fi_wire _ _ Hinv) as Hw. pose proof (relayed s) as Hr.
  destruct (fw_pc s) as [got|header rest|header m got|header payload rest|r] eqn:Epc; destruct ev as [chunk| |e|n|e]; cbn [pc_sized] in Hs; try done;
    try (intros [= <-]; by apply fwd_inv_fail).
  - destruct (Z.ltb_spec 0 (len chunk)); [|done]. unfold TLS_HEADER_LEN. destruct (Z.leb_spec (len got + len chunk) 5); [|done]. intros [= <-].
    destruct (Z.eqb_spec (len (got ++ chunk)) 5) as [E|E]; rewrite len_app in E;
      (apply inv_record; rewrite ?Epc; cbn; auto; rewrite ?len_app; try done; lia).
  - destruct (Z.leb_spec 0 n); [|done]. destruct (Z.leb_spec n (len rest)); [|done]. cbn [andb]. destruct (Z.eqb_spec n 0); [intros [= <-]; by apply fwd_inv_fail|].
    destruct (Z.eqb_spec (len (drop (Z.to_nat n) rest)) 0) as [E|E]; intros [= <-].
    + destruct (Hr rest n) as (R1 & R2 & R3); [done|done|done|lia|done|]. cbn [fw_pc relay current] in R3. apply inv_after_header; try done; [tauto|].
      apply (fi_bytes _ _ Hinv).
    + apply inv_relay; rewrite ?Epc; try done; [lia|]. split; [tauto|]. pose proof (len_nonneg (drop (Z.to_nat n) rest)). lia.
  - destruct (Z.ltb_spec 0 (len chunk)); [|done]. destruct (Z.leb_spec (len got + len chunk) m); [|done]. intros [= <-].
    destruct Hs as (Hh & Hg & Hm). destruct (Z.eqb_spec (len (got ++ chunk)) m) as [E|E]; rewrite len_app in E;
      (apply inv_record; rewrite ?Epc; cbn; rewrite ?app_assoc; auto; rewrite ?len_app; try done; try split_and!; try done; pose proof (len_nonneg got); lia).
  - destruct (Z.leb_spec 0 n); [|done]. destruct (Z.leb_spec n (len rest)); [|done]. cbn [andb]. destruct (Z.eqb_spec n 0); [intros [= <-]; by apply fwd_inv_fail|].
    destruct (Z.eqb_spec (len (drop (Z.to_nat n) rest)) 0) as [E|E]; intros [= <-].
    + destruct (Hr rest n) as (R1 & R2 & R3); [done|done|done|lia|done|]. cbn [fw_pc relay current] in R3.
      apply inv_after_payload; try done; [|apply (fi_bytes _ _ Hinv)]. cbn [relay fw_wire]. rewrite !len_app. lia.
    + apply inv_relay; rewrite ?Epc; try done; [lia|]. split_and!; try tauto. pose proof (len_nonneg (drop (Z.to_nat n) rest)). lia.
Qed.

End inv.

Definition read_bytes (evs : list Event) : list Z := concat (map (fun ev => match ev with EvRead chunk => chunk | _ => [] end) evs).

Lemma step_recorded limits s ev s' : fwd_step limits s ev = Some s' -> fw_recorded s' = fw_recorded s ++ read_bytes [ev].
Proof.
  unfold fwd_step, read_bytes. intros H. cbn. rewrite app_nil_r.
  destruct (fw_pc s); destruct ev; try done; repeat (case_match; try done); injection H as <-; cbn; rewrite ?app_nil_r; try done.
  unfold after_payload, next_record. by repeat case_match.
Qed.

Lemma run_recorded limits evs : forall s s', fwd_run limits s evs = Some s' -> fw_recorded s' = fw_recorded s ++ read_bytes evs.
Proof.
  induction evs as [|ev evs IH]; intros s s'; cbn; [intros [= <-]; by rewrite app_nil_r|].
  destruct (fwd_step limits s ev) as [s1|] eqn:E; cbn; [|done]. intros H. rewrite (IH _ _ H), (step_recorded _ _ _ _ E), <- app_assoc. f_equal.
  unfold read_bytes. cbn. by rewrite app_nil_r.
Qed.

Lemma fwd_inv_start limits : 0 <= max_wire_bytes limits < 2 ^ 63 -> fwd_inv limits (fwd_start limits).
Proof.
  intros Hw. unfold fwd_start, next_record. repeat case_match; constructor; cbn; rewrite ?len_nil; try done; try lia; try (by constructor); intros Hd; try (by destruct (Hd (Err InvalidInput))); by destruct (Hd (Err InvalidData)).
Qed.

Lemma fwd_inv_run limits evs : 0 <= max_wire_bytes limits < 2 ^ 63 ->
  forall s s', fwd_inv limits s -> bytes_ok (read_bytes evs) -> fwd_run limits s evs = Some s' -> fwd_inv limits s'.
Proof.
  intros Hw. induction evs as [|ev evs IH]; intros s s' Hs Hb; cbn; [by intros [= <-]|].
  unfold read_bytes in Hb. cbn in Hb. apply list.Forall_app in Hb as [Hb1 Hb2].
  destruct (fwd_step limits s ev) as [s1|] eqn:E; cbn; [|done]. apply IH; [|done]. apply (fwd_inv_step limits Hw s ev); [done| |done]. by intros chunk ->.
Qed.

(** ** Any fragmentation gives the same ClientHello *)

(** A TLS record: its header and its payload *)
Definition wire_of (recs : list (list Z * list Z)) : list Z := concat (map (fun r => r.1 ++ r.2) recs).
Definition payloads (recs : list (list Z * list Z)) : list Z := concat (map snd recs).

Definition record_ok (limits : ClientHelloLimits) (r : list Z * list Z) : Prop :=
  exists a b, r.1 = [TLS_HANDSHAKE; a; b; len r.2 / 256; len r.2 mod 256] /\ 0 < len r.2 <= Z.min (max_record_payload limits) RFC8446_MAX_CIPHERTEXT.

(** [recs] carries the handshake message [h] within the limits, and ends with the record that completes it. *)
Record carries (limits : ClientHelloLimits) (recs : list (list Z * list Z)) (h : list Z) : Prop := mkCarries {
  ca_records : Forall (record_ok limits) recs;
  ca_bytes : bytes_ok (wire_of recs);
  ca_count : Z.of_nat (length recs) <= max_records limits;
  ca_wire : len (wire_of recs) <= max_wire_bytes limits < 2 ^ 63;
  ca_head : exists a b c body, h = CLIENT_HELLO :: a :: b :: c :: body /\ bytes_ok h /\ len body = (a * 256 + b) * 256 + c;
  ca_handshake : len h <= max_handshake_bytes limits;
  ca_message : h `prefix_of` payloads recs;
  ca_minimal : forall ds r rs, recs = ds ++ r :: rs -> len (payloads ds) < len h
}.

(** Progress: bytes arrive and are accepted, in pieces of any size *)
Definition fine (ev : Event) : bool := match ev with EvRead _ => true | EvWrite n => 0 <? n | _ => false end.

Definition pc_at (limits : ClientHelloLimits) (recs : list (list Z * list Z)) (h : list Z) (rs : list (list Z * list Z)) (pc : FwdPc) : Prop :=
  match rs with
  | [] => pc = PcDone (parse_client_hello (wire_of recs) h)
  | (header, payload) :: _ =>
    match pc with
    | PcHeader got => got `prefix_of` header
    | PcRelayHeader header' _ => header' = header
    | PcPayload header' n got => header' = header /\ n = len payload /\ got `prefix_of` payload
    | PcRelayPayload header' payload' _ => header' = header /\ payload' = payload
    | PcDone _ => False
    end
  end.

Record at_rec (limits : ClientHelloLimits) (recs : list (list Z * list Z)) (h : list Z) (ds rs : list (list Z * list Z)) (s : Fwd) : Prop := mkAtRec {
  ar_split : recs = ds ++ rs;
  ar_wire : fw_wire s = wire_of ds;
  ar_handshake : fw_handshake s = payloads ds;
  ar_expected : fw_expected s = if 4 <=? len (payloads ds) then Some (len h) else None;
  ar_left : fw_left s = max_records limits - Z.of_nat (length ds);
  ar_pc : pc_at limits recs h rs (fw_pc s)
}.

Section fragmentation.
Context (limits : ClientHelloLimits) (recs : list (list Z * list Z)) (h : list Z) (Hc : carries limits recs h).

Lemma wire_of_app a b : wire_of (a ++ b) = wire_of a ++ wire_of b.
Proof. unfold wire_of. by rewrite map_app, concat_app. Qed.
Lemma payloads_app a b : payloads (a ++ b) = payloads a ++ payloads b.
Proof. unfold payloads. by rewrite map_app, concat_app. Qed.

Lemma len_h : 4 <= len h.
Proof. destruct (ca_head _ _ _ Hc) as (a & b & c & body & -> & _ & Hl). rewrite !len_cons. pose proof (len_nonneg body). lia. Qed.

(** The announced length is the message's, however much of the stream is there. *)
Lemma expect_len_ok hs : 4 <= len hs -> (h `prefix_of` hs \/ hs `prefix_of` h) -> expect_len limits hs None = Ok (Some (len h)).
Proof.
  intros Hl Hp. destruct (ca_head _ _ _ Hc) as (a & b & c & body & Eh & Hb & Hlb). unfold expect_len. rewrite (proj2 (Z.leb_le _ _) Hl). cbn [andb negb].
  assert (exists l, hs = CLIENT_HELLO :: a :: b :: c :: l) as [l ->].
  { rewrite Eh in Hp. destruct Hp as [[l ->]|[l El]]; [by eexists (body ++ l)|].
    destruct hs as [|x1 [|x2 [|x3 [|x4 hs]]]]; rewrite ?len_cons, ?len_nil in Hl; try lia. injection El as -> -> -> -> _. by exists hs. }
  set (hs := CLIENT_HELLO :: _). change (index hs 0) with (Ok CLIENT_HELLO). change (index hs 1) with (Ok a). change (index hs 2) with (Ok b). change (index hs 3) with (Ok c).
  cbn [mbind outcome_bind]. change (CLIENT_HELLO =? CLIENT_HELLO) with true. cbn [negb]. rewrite Eh in Hb. repeat (apply list.Forall_cons in Hb as [? Hb]). unfold uint in *.
  rewrite !Z.shiftl_mul_pow2 by lia. replace (a * 2 ^ 16) with (a * 2 ^ 8 * 2 ^ 8) by lia.
  rewrite <- Z.lor_assoc, (lor_disjoint 8 b c) by lia. replace (a * 2 ^ 8 * 2 ^ 8) with (a * 2 ^ 16) by lia. rewrite lor_disjoint by lia.
  unfold checked_add. pose proof (ca_handshake _ _ _ Hc) as Hm. rewrite Eh, !len_cons in Hm. rewrite Eh, !len_cons, Hlb in *.
  destruct (Z.ltb_spec (a * 2 ^ 16 + (b * 2 ^ 8 + c) + 4) (2 ^ 64)); [|lia]. cbn. destruct (Z.ltb_spec (max_handshake_bytes limits) (a * 2 ^ 16 + (b * 2 ^ 8 + c) + 4)); [lia|].
  do 2 f_equal. lia.
Qed.
Lemma expected_next ds pl rs header :
  recs = ds ++ (header, pl) :: rs ->
  expect_len limits (payloads ds ++ pl) (if 4 <=? len (payloads ds) then Some (len h) else None) = Ok (if 4 <=? len (payloads ds ++ pl) then Some (len h) else None).
Proof.
  intros E. destruct (Z.leb_spec 4 (len (payloads ds))) as [Hge|Hlt].
  - unfold expect_len. rewrite andb_false_r. rewrite len_app. pose proof (len_nonneg pl). by destruct (Z.leb_spec 4 (len (payloads ds) + len pl)); [|lia].
  - destruct (Z.leb_spec 4 (len (payloads ds ++ pl))) as [Hge'|Hlt']; [|unfold expect_len; by rewrite (proj2 (Z.leb_gt _ _) Hlt')].
    apply expect_len_ok; [done|]. apply (prefix_weak_total _ _ (payloads recs)); [apply (ca_message _ _ _ Hc)|].
    rewrite E, payloads_app. rewrite (payloads_app [(header, pl)] rs : payloads ((header, pl) :: rs) = _). unfold payloads at 3. cbn. rewrite app_nil_r, app_assoc. by apply prefix_app_r.
Qed.

Lemma at_next ds r rs s :
  recs = ds ++ r :: rs -> fw_wire s = wire_of ds -> fw_handshake s = payloads ds ->
  fw_expected s = (if 4 <=? len (payloads ds) then Some (len h) else None) -> fw_left s = max_records limits - Z.of_nat (length ds) ->
  at_rec limits recs h (ds ++ [r]) rs (after_payload limits s r.1 r.2).
Proof.
  intros E Hw Hh He Hl. pose proof (ca_count _ _ _ Hc) as Hn. pose proof len_h as H4. pose proof (ca_handshake _ _ _ Hc) as Hm.
  assert (E' : recs = (ds ++ [r]) ++ rs) by by rewrite E, <- app_assoc.
  assert (Ew : wire_of (ds ++ [r]) = wire_of ds ++ r.1 ++ r.2) by (rewrite wire_of_app; unfold wire_of at 2; cbn; by rewrite app_nil_r).
  assert (Ep : payloads (ds ++ [r]) = payloads ds ++ r.2) by (rewrite payloads_app; unfold payloads at 2; cbn; by rewrite app_nil_r).
  unfold after_payload. rewrite Hh, He. rewrite (expected_next ds r.2 rs r.1) by by destruct r. rewrite <- Ep, Hw, <- Ew, Hl.
  destruct rs as [|r' rs].
  - assert (Er : recs = ds ++ [r]) by done. pose proof (ca_message _ _ _ Hc) as Hp. rewrite Er in Hp. pose proof (prefix_length _ _ Hp) as Hlen.
    assert (len h <= len (payloads (ds ++ [r]))) by (unfold len; lia). destruct (Z.leb_spec 4 (len (payloads (ds ++ [r])))) as [G|]; [|lia].
    destruct (Z.leb_spec (len h) (len (payloads (ds ++ [r])))); [|lia]. constructor; cbn; try done; [by rewrite (proj2 (Z.leb_le _ _) G)|rewrite length_app; cbn; lia|].
    destruct Hp as [k ->]. unfold len. by rewrite Nat2Z.id, take_app_length, <- Er.
  - pose proof (ca_minimal _ _ _ Hc (ds ++ [r]) r' rs E') as Hmin.
    assert (Hnr : forall hs ex, next_record (mkFwd (fw_pc s) (wire_of (ds ++ [r])) hs ex (max_records limits - Z.of_nat (length ds) - 1) (fw_recorded s) (fw_target s) (fw_forwarded s))
      = mkFwd (PcHeader []) (wire_of (ds ++ [r])) hs ex (max_records limits - Z.of_nat (length (ds ++ [r]))) (fw_recorded s) (fw_target s) (fw_forwarded s)).
    { intros hs ex. unfold next_record, set_pc. cbn. rewrite E' in Hn. rewrite length_app in *. cbn [length] in *. rewrite length_app in Hn. cbn [length] in Hn.
      destruct (Z.leb_spec (max_records limits - Z.of_nat (length ds) - 1) 0); [lia|]. f_equal. lia. }
    destruct (Z.leb_spec 4 (len (payloads (ds ++ [r])))) as [G|G]; [destruct (Z.leb_spec (len h) (len (payloads (ds ++ [r])))); [lia|]|destruct (Z.ltb_spec (max_handshake_bytes limits) (len (payloads (ds ++ [r])))); [lia|]];
      rewrite Hnr; (constructor; cbn; try done; [|destruct r'; apply prefix_nil]); [by rewrite (proj2 (Z.leb_le _ _) G)|by rewrite (proj2 (Z.leb_gt _ _) G)].
Qed.

Lemma header_at ds header payload rs s :
  recs = ds ++ (header, payload) :: rs -> fw_wire s = wire_of ds -> after_header limits s header = Ok (PcPayload header (len payload) []) /\ len header = 5 /\ 0 < len payload.
Proof.
  intros E Hw. pose proof (ca_records _ _ _ Hc) as Hr. rewrite E in Hr. apply list.Forall_app in Hr as [_ Hr]. apply list.Forall_cons in Hr as [(a & b & Eh & Hp) _]. cbn in Eh, Hp.
  pose proof (ca_wire _ _ _ Hc) as Hm. rewrite E, wire_of_app in Hm. unfold wire_of at 2 in Hm. cbn in Hm. rewrite !len_app in Hm.
  assert (len header = 5) by by rewrite Eh. split; [|lia]. rewrite Eh at 1. set (hd := TLS_HANDSHAKE :: _). unfold after_header.
  change (index hd 0) with (Ok TLS_HANDSHAKE). change (index hd 3) with (Ok (len payload / 256)). change (index hd 4) with (Ok (len payload mod 256)).
  cbn [mbind outcome_bind]. change (TLS_HANDSHAKE =? TLS_HANDSHAKE) with true. cbn [negb]. pose proof (Z.div_mod (len payload) 256).
  replace (len payload / 256 * 256 + len payload mod 256) with (len payload) by lia.
  destruct (Z.eqb_spec (len payload) 0); [lia|]. destruct (Z.ltb_spec (max_record_payload limits) (len payload)); [lia|].
  destruct (Z.ltb_spec RFC8446_MAX_CIPHERTEXT (len payload)); [lia|]. cbn [orb]. unfold saturating_add, TLS_HEADER_LEN. rewrite Hw.
  pose proof (len_nonneg (concat (map (fun r => r.1 ++ r.2) rs))).
  destruct (Z.ltb_spec (max_wire_bytes limits) (Z.min (len (wire_of ds) + (5 + len payload)) (2 ^ 64 - 1))); [lia|]. unfold hd. by rewrite <- Eh.
Qed.

Lemma prefix_short (l a b : list Z) : l `prefix_of` a ++ b -> len l <= len a -> l `prefix_of` a.
Proof.
  intros Hp Hl. destruct (prefix_weak_total l a (a ++ b)) as [|Ha]; [done|by apply prefix_app_r|done|]. rewrite (prefix_length_eq a l); [done|done|]. unfold len in Hl. lia.
Qed.

Lemma prefix_full (l a : list Z) : l `prefix_of` a -> len l = len a -> l = a.
Proof. intros Hp Hl. apply prefix_length_eq; [done|]. unfold len in Hl. lia. Qed.

(** What has been read of the current record is a prefix of it. *)
Lemma current_prefix ds header payload rs s l :
  recs = ds ++ (header, payload) :: rs -> fw_wire s = wire_of ds -> fw_wire s ++ l `prefix_of` wire_of recs -> len l <= len (header ++ payload) -> l `prefix_of` header ++ payload.
Proof.
  intros E Hw Hp Hl. rewrite Hw, E, wire_of_app in Hp. apply prefix_app_inv in Hp. unfold wire_of in Hp. cbn in Hp. by apply prefix_short in Hp.
Qed.

Lemma at_move ds rs s s' :
  at_rec limits recs h ds rs s -> fw_wire s' = fw_wire s -> fw_handshake s' = fw_handshake s -> fw_expected s' = fw_expected s -> fw_left s' = fw_left s ->
  pc_at limits recs h rs (fw_pc s') -> at_rec limits recs h ds rs s'.
Proof. intros [] H1 H2 H3 H4 H5. by constructor; rewrite ?H1, ?H2, ?H3, ?H4. Qed.

Lemma at_step ds rs s ev s' :
  at_rec limits recs h ds rs s -> fwd_inv limits s -> fine ev = true -> fwd_step limits s ev = Some s' -> fw_recorded s' `prefix_of` wire_of recs ->
  exists ds' rs', at_rec limits recs h ds' rs' s'.
Proof.
  intros Ha Hinv Hf Hstep Hp. pose proof (step_recorded _ _ _ _ Hstep) as Hrec. unfold fwd_step in Hstep. destruct rs as [|[header payload] rs].
  { pose proof (ar_pc _ _ _ _ _ _ Ha) as Hd. cbn in Hd. by rewrite Hd in Hstep. }
  pose proof (ar_pc _ _ _ _ _ _ Ha) as Hpc. pose proof (ar_wire _ _ _ _ _ _ Ha) as Hw. pose proof (ar_split _ _ _ _ _ _ Ha) as E.
  pose proof (header_at _ _ _ _ _ E Hw) as (_ & Hh5 & Hpl). pose proof (fi_unsent _ _ Hinv) as Hu.
  destruct (fw_pc s) as [got|hd rest|hd n got|hd pl rest|r] eqn:Epc; cbn in Hpc; destruct ev as [chunk| |e|m|e]; try done.
  - destruct (Hu ltac:(done)) as [_ Ec]. cbn in Ec. unfold read_bytes in Hrec. cbn in Hrec. rewrite app_nil_r in Hrec. rewrite Hrec, Ec, <- app_assoc in Hp.
    destruct (Z.ltb_spec 0 (len chunk)); [|done]. unfold TLS_HEADER_LEN in Hstep. destruct (Z.leb_spec (len got + len chunk) 5); [|done]. injection Hstep as <-.
    assert (Hgc : got ++ chunk `prefix_of` header).
    { apply (prefix_short _ _ payload); [|rewrite len_app; lia]. eapply current_prefix; [done|done|done|]. rewrite !len_app. lia. }
    exists ds, ((header, payload) :: rs). eapply at_move; [exact Ha|done..|]. cbn. destruct (Z.eqb_spec (len (got ++ chunk)) 5); [|done]. cbn. apply prefix_full; [done|lia].
  - subst hd. destruct (_ && _); [|done]. cbn in Hf. destruct (Z.eqb_spec m 0); [lia|]. exists ds, ((header, payload) :: rs).
    destruct (_ =? 0); injection Hstep as <-; (eapply at_move; [exact Ha|done..|]); [|done]. cbn [set_pc fw_pc].
    by destruct (header_at ds header payload rs (relay s (PcRelayHeader header rest) rest m)) as (-> & _); [| |cbn; split_and!; [done|done|apply prefix_nil]].
  - destruct Hpc as (-> & -> & Hg). destruct (Hu ltac:(done)) as [_ Ec]. cbn in Ec. unfold read_bytes in Hrec. cbn in Hrec. rewrite app_nil_r in Hrec. rewrite Hrec, Ec, <- !app_assoc in Hp.
    destruct (Z.ltb_spec 0 (len chunk)); [|done]. destruct (Z.leb_spec (len got + len chunk) (len payload)); [|done]. injection Hstep as <-.
    assert (Hgc : got ++ chunk `prefix_of` payload).
    { apply (prefix_app_inv header). eapply current_prefix; [done|done|done|]. rewrite !len_app. lia. }
    exists ds, ((header, payload) :: rs). eapply at_move; [exact Ha|done..|]. cbn. destruct (Z.eqb_spec (len (got ++ chunk)) (len payload)); [|done]. cbn. split; [done|]. by apply prefix_full.
  - destruct Hpc as [-> ->]. destruct (_ && _); [|done]. cbn in Hf. destruct (Z.eqb_spec m 0); [lia|]. destruct (_ =? 0); injection Hstep as <-.
    + exists (ds ++ [(header, payload)]), rs. destruct Ha. by apply at_next.
    + exists ds, ((header, payload) :: rs). by eapply at_move.
Qed.

Lemma at_start : at_rec limits recs h [] recs (fwd_start limits).
Proof.
  pose proof len_h as H4. pose proof (ca_handshake _ _ _ Hc) as Hm. pose proof (ca_wire _ _ _ Hc) as Hw. pose proof (ca_count _ _ _ Hc) as Hn.
  pose proof (ca_message _ _ _ Hc) as [k Hk]. pose proof (ca_records _ _ _ Hc) as Hr.
  destruct recs as [|[header payload] rs] eqn:Er; [cbn in Hk; symmetry in Hk; apply app_nil in Hk as [-> _]; rewrite len_nil in H4; lia|].
  apply list.Forall_cons in Hr as [(a & b & Eh & Hp) _]. cbn in Eh, Hp. unfold wire_of in Hw. cbn in Hw. rewrite Eh, !len_app in Hw.
  pose proof (len_nonneg (concat (map (fun r => r.1 ++ r.2) rs))). assert (5 <= max_wire_bytes limits) by (rewrite !len_cons, len_nil in Hw; lia).
  cbn [length] in Hn. unfold fwd_start, next_record, TLS_HEADER_LEN. destruct (Z.eqb_spec (max_records limits) 0); [lia|]. destruct (Z.eqb_spec (max_record_payload limits) 0); [lia|].
  destruct (Z.ltb_spec (max_handshake_bytes limits) 4); [lia|]. destruct (Z.ltb_spec (max_wire_bytes limits) 5); [lia|]. cbn [orb fw_left].
  destruct (Z.leb_spec (max_records limits) 0); [lia|]. constructor; cbn; try done; [lia|apply prefix_nil].
Qed.

(** Until the result is there, some byte can be read or relayed. *)
Lemma at_progress ds rs s :
  at_rec limits recs h ds rs s -> fwd_inv limits s ->
  fw_pc s = PcDone (parse_client_hello (wire_of recs) h) \/ exists ev s', fine ev = true /\ fwd_step limits s ev = Some s' /\ fw_recorded s' `prefix_of` wire_of recs.
Proof.
  intros Ha Hinv. destruct rs as [|[header payload] rs]; [left; apply (ar_pc _ _ _ _ _ _ Ha)|right].
  pose proof (ar_pc _ _ _ _ _ _ Ha) as Hpc. pose proof (ar_wire _ _ _ _ _ _ Ha) as Hw. pose proof (ar_split _ _ _ _ _ _ Ha) as E.
  pose proof (header_at _ _ _ _ _ E Hw) as (_ & Hh5 & Hpl). pose proof (fi_unsent _ _ Hinv) as Hu. pose proof (fi_sized _ _ Hinv) as Hs.
  assert (Hpre : wire_of ds ++ header ++ payload `prefix_of` wire_of recs) by (rewrite E, wire_of_app; apply prefix_app; unfold wire_of; cbn; by apply prefix_app_r).
  assert (Hgo : forall ev s', fwd_step limits s ev = Some s' -> fine ev = true -> fw_recorded s ++ read_bytes [ev] `prefix_of` wire_of ds ++ header ++ payload ->
    exists ev s', fine ev = true /\ fwd_step limits s ev = Some s' /\ fw_recorded s' `prefix_of` wire_of recs).
  { intros ev s' H1 H2 H3. exists ev, s'. split_and!; [done|done|]. rewrite (step_recorded _ _ _ _ H1). by etrans. }
  destruct (fw_pc s) as [got|hd rest|hd n got|hd pl rest|r] eqn:Epc; cbn in Hpc, Hs; [..|done]; destruct (Hu ltac:(done)) as [_ Ec]; cbn in Ec; rewrite Hw in Ec.
  - destruct Hpc as [k ->]. rewrite len_app in Hh5. eapply (Hgo (EvRead k)); [|done|].
    + unfold fwd_step. rewrite Epc. destruct (Z.ltb_spec 0 (len k)); [|lia]. unfold TLS_HEADER_LEN. by destruct (Z.leb_spec (len got + len k) 5); [|lia].
    + unfold read_bytes. cbn. rewrite Ec, app_nil_r, <- !app_assoc. do 2 apply prefix_app. by apply prefix_app_r.
  - eapply (Hgo (EvWrite (len rest))); [|cbn; lia|].
    + unfold fwd_step. rewrite Epc. rewrite Z.leb_refl. destruct (Z.leb_spec 0 (len rest)); [|lia]. cbn [andb]. destruct (Z.eqb_spec (len rest) 0); [lia|].
      by rewrite len_drop, Z.sub_diag by lia.
    + subst hd. rewrite Ec. cbn. rewrite app_nil_r. apply prefix_app. by apply prefix_app_r.
  - destruct Hpc as (-> & -> & k & ->). rewrite len_app in Hs. eapply (Hgo (EvRead k)); [|done|].
    + unfold fwd_step. rewrite Epc. destruct (Z.ltb_spec 0 (len k)); [|lia]. rewrite (len_app got k). by destruct (Z.leb_spec (len got + len k) (len got + len k)); [|lia].
    + unfold read_bytes. cbn. by rewrite Ec, app_nil_r, <- !app_assoc.
  - destruct Hpc as (-> & ->). eapply (Hgo (EvWrite (len rest))); [|cbn; lia|].
    + unfold fwd_step. rewrite Epc. rewrite Z.leb_refl. destruct (Z.leb_spec 0 (len rest)); [|lia]. cbn [andb]. destruct (Z.eqb_spec (len rest) 0); [lia|].
      by rewrite len_drop, Z.sub_diag by lia.
    + rewrite Ec. cbn. by rewrite app_nil_r.
Qed.

Lemma at_run evs : forall ds rs s s',
  at_rec limits recs h ds rs s -> fwd_inv limits s -> forallb fine evs = true -> fwd_run limits s evs = Some s' -> fw_recorded s' `prefix_of` wire_of recs ->
  (exists ds' rs', at_rec limits recs h ds' rs' s') /\ fwd_inv limits s'.
Proof.
  pose proof (ca_wire _ _ _ Hc) as Hw. pose proof (len_nonneg (wire_of recs)).
  induction evs as [|ev evs IH]; intros ds rs s s' Ha Hinv Hf; cbn; [intros [= <-]; eauto|]. cbn in Hf. apply andb_true_iff in Hf as [Hf1 Hf2].
  destruct (fwd_step limits s ev) as [s1|] eqn:E; cbn; [|done]. intros Hrun Hp.
  assert (Hp1 : fw_recorded s1 `prefix_of` wire_of recs) by (rewrite (run_recorded _ _ _ _ Hrun) in Hp; etrans; [|done]; by apply prefix_app_r).
  destruct (at_step _ _ _ _ _ Ha Hinv Hf1 E Hp1) as (ds1 & rs1 & Ha1). apply (IH ds1 rs1 s1); try done.
  apply (fwd_inv_step limits ltac:(lia) s ev); [done| |done]. intros chunk ->. rewrite (step_recorded _ _ _ _ E) in Hp1. destruct Hp1 as [k Hk].
  pose proof (ca_bytes _ _ _ Hc) as Hb. rewrite Hk, <- app_assoc in Hb. apply list.Forall_app in Hb as [_ Hb]. unfold read_bytes in Hb. cbn in Hb. rewrite app_nil_r in Hb.
  by apply list.Forall_app in Hb as [Hb _].
Qed.

End fragmentation.

(** Every piece counts. *)
Lemma step_grows limits s ev s' :
  fine ev = true -> fwd_step limits s ev = Some s' -> len (fw_recorded s) + len (fw_target s) + 1 <= len (fw_recorded s') + len (fw_target s').
Proof.
  intros Hf H. pose proof (len_nonneg (fw_target s)). unfold fwd_step in H.
  assert (Ha : forall s hd pl, fw_target (after_payload limits s hd pl) = fw_target s /\ fw_recorded (after_payload limits s hd pl) = fw_recorded s)
    by (intros; unfold after_payload, next_record; by repeat case_match).
  destruct (fw_pc s); destruct ev; try done; cbn in Hf; repeat (case_match; try done); injection H as <-; rewrite ?(proj1 (Ha _ _ _)), ?(proj2 (Ha _ _ _)); cbn;
    rewrite ?len_app, ?len_take_min by lia; lia.
Qed.

Lemma run_grows limits evs : forall s s',
  forallb fine evs = true -> fwd_run limits s evs = Some s' -> len (fw_recorded s) + len (fw_target s) + Z.of_nat (length evs) <= len (fw_recorded s') + len (fw_target s').
Proof.
  induction evs as [|ev evs IH]; intros s s' Hf; cbn -[Z.of_nat]; [intros [= <-]; lia|]. cbn in Hf. apply andb_true_iff in Hf as [Hf1 Hf2].
  destruct (fwd_step limits s ev) as [s1|] eqn:E; cbn -[Z.of_nat]; [|done]. intros Hrun. pose proof (step_grows _ _ _ _ Hf1 E). pose proof (IH _ _ Hf2 Hrun). lia.
Qed.

(** ** Theorems *)

(** [C40] Whatever the client sends, however the reads and writes are cut, and wherever the run ends
    (a result, an error, a timeout): the target has accepted exactly the first [forwarded]
    bytes the client sent, relaying the recorded suffix gives it all of them once and in order,
    the peer cannot make the server hold more than the wire limit and one header, and a
    ClientHello that is returned carries exactly those bytes. *)
Theorem reality_relay_transparent limits evs s :
  0 <= max_wire_bytes limits < 2 ^ 63 -> bytes_ok (read_bytes evs) -> fwd_run limits (fwd_start limits) evs = Some s ->
  fw_recorded s = read_bytes evs /\ fw_target s = take (Z.to_nat (fw_forwarded s)) (read_bytes evs)
  /\ forward_recorded_suffix (fw_target s) (fw_recorded s) (fw_forwarded s) = Ok (read_bytes evs)
  /\ len (read_bytes evs) <= max_wire_bytes limits + TLS_HEADER_LEN
  /\ (forall h, fw_pc s = PcDone (Ok h) -> ch_wire h = read_bytes evs /\ fw_target s = read_bytes evs).
Proof.
  intros Hw Hb Hrun. pose proof (fwd_inv_run limits evs Hw _ _ (fwd_inv_start limits Hw) Hb Hrun) as Hi.
  pose proof (run_recorded _ _ _ _ Hrun) as Er. assert (Es : fw_recorded (fwd_start limits) = []) by (unfold fwd_start, next_record; by repeat case_match).
  rewrite Es in Er. cbn in Er. destruct (fi_prefix _ _ Hi) as [k Hk]. pose proof (fi_count _ _ Hi) as Hn. pose proof (fi_bound _ _ Hi) as Hl. rewrite <- Er.
  assert (Et : Z.to_nat (fw_forwarded s) = length (fw_target s)) by (rewrite Hn; unfold len; lia).
  split; [done|]. split; [by rewrite Et, Hk, take_app_length|]. split; [|split; [done|]].
  - unfold forward_recorded_suffix. destruct (Z.ltb_spec (len (fw_recorded s)) (fw_forwarded s)) as [Hlt|_]; [rewrite Hk, len_app, Hn in Hlt; pose proof (len_nonneg k); lia|].
    by rewrite Et, Hk, drop_app_length.
  - intros h Hd. by apply (fi_done _ _ Hi).
Qed.

(** A ClientHello within the limits is read whatever the records, segments and partial writes
    it travels in: while the client's bytes arrive and the target takes them, no run is longer
    than two events per byte, and a run can always go on until the function has returned what
    the parser makes of the whole message. *)
Theorem reality_hello_any_fragmentation limits recs h evs s :
  carries limits recs h -> forallb fine evs = true -> fwd_run limits (fwd_start limits) evs = Some s -> fw_recorded s `prefix_of` wire_of recs ->
  Z.of_nat (length evs) <= 2 * len (wire_of recs)
  /\ (fw_pc s = PcDone (parse_client_hello (wire_of recs) h)
      \/ exists ev s', fine ev = true /\ fwd_step limits s ev = Some s' /\ fw_recorded s' `prefix_of` wire_of recs).
Proof.
  intros Hc Hf Hrun Hp. pose proof (ca_wire _ _ _ Hc) as Hw. pose proof (len_nonneg (wire_of recs)).
  destruct (at_run limits recs h Hc evs _ _ _ _ (at_start _ _ _ Hc) (fwd_inv_start limits ltac:(lia)) Hf Hrun Hp) as [(ds & rs & Ha) Hi].
  split; [|by apply (at_progress limits recs h Hc ds rs)]. pose proof (run_grows _ _ _ _ Hf Hrun) as Hg.
  pose proof (len_nonneg (fw_recorded (fwd_start limits))). pose proof (len_nonneg (fw_target (fwd_start limits))).
  pose proof (prefix_length _ _ Hp). pose proof (prefix_length _ _ (fi_prefix _ _ Hi)). unfold len in *. lia.
Qed.

Module RealityForwardWitness.

Definition hello : list Z := [1; 0; 0; 3; 3; 3; 9].
Definition recs : list (list Z * list Z) := [([22; 3; 1; 0; 3], [1; 0; 0]); ([22; 3; 3; 0; 4], [3; 3; 3; 9])].

Lemma recs_carry : carries ClientHelloLimits_default recs hello.
Proof.
  constructor; try (by vm_compute).
  - by repeat (constructor; [eexists _, _; split; [reflexivity|by vm_compute]|]); constructor.
  - repeat (constructor; [done|]). constructor.
  - exists 0, 0, 3, [3; 3; 9]. split; [done|]. split; [|done]. repeat (constructor; [done|]). constructor.
  - by exists [].
  - intros [|r1 [|r2 [|r3 ds]]] r rs E; [done|injection E as <- _ _; done|injection E as _ _ E; by destruct rs|injection E as _ _ E; by destruct ds].
Qed.

Definition evs : list Event := [EvRead [22; 3]; EvRead [1; 0; 3]; EvWrite 4; EvWrite 1; EvRead [1; 0]; EvRead [0]; EvWrite 3; EvRead [22]].

Lemma reality_hello_any_fragmentation_witness :
  exists s ev s', fwd_run ClientHelloLimits_default (fwd_start ClientHelloLimits_default) evs = Some s /\ fine ev = true /\ fwd_step ClientHelloLimits_default s ev = Some s'.
Proof.
  eexists. destruct (reality_hello_any_fragmentation ClientHelloLimits_default recs hello evs _ recs_carry eq_refl eq_refl) as (_ & [Hd|(ev & s' & H1 & H2 & _)]); [|done|].
  - by exists (drop 9 (wire_of recs)).
  - by exists ev, s'.
Defined.

Lemma reality_relay_transparent_witness :
  exists s, fwd_run ClientHelloLimits_default (fwd_start ClientHelloLimits_default) evs = Some s /\ forward_recorded_suffix (fw_target s) (fw_recorded s) (fw_forwarded s) = Ok (read_bytes evs).
Proof.
  eexists. split; [reflexivity|]. apply (reality_relay_transparent ClientHelloLimits_default evs); [done| |reflexivity]. repeat (constructor; [done|]). constructor.
Defined.

End RealityForwardWitness.
