(* ===== verification/XhttpQueue.v ===== *)
(** * XHTTP packet uploads: reassembly, retries and wake-ups

    Models [UploadQueue] ([core-outbound/src/proto/xhttp/upload_queue.rs]) and
    [Session::push_packet] with its retry history ([core-inbound/src/xhttp.rs]).  What runs
    under the queue's lock is one definition; the concurrent system is a step relation with
    one step per lock section, per [AtomicWaker] operation and per poll of the reader, so that
    a producer can be between its update and its [wake].  A queue has one reader, the source
    of its session.  [BTreeMap] and [HashMap] are finite maps: only lookups, insertions,
    removals and the size are used. *)

From stdpp Require Import base list gmap numbers option relations.
From S2P Require Import Prelude.

(** ** The queue *)

Record Inner : Type := mkInner {
  q_packets : gmap Z (list Z);
  q_next_seq : Z;
  q_current : list Z;
  q_current_offset : Z;
  q_closed : bool;
  q_error : option ErrorKind
}.

Definition Inner_default : Inner := mkInner ∅ 0 [] 0 false None.

(** [UploadQueue::new] *)
Definition queue_limit (max_packets : Z) : Z := Z.max max_packets 1.

Definition clear_payloads (q : Inner) : Inner := mkInner ∅ (q_next_seq q) [] 0 (q_closed q) (q_error q).

(** The third component: whether the reader is woken after the lock is released *)
Definition queue_push (max_packets : Z) (q : Inner) (seq : Z) (payload : list Z) : Inner * outcome unit * bool :=
  match q_error q with
  | Some e => (q, Err e, false)
  | None =>
    if q_closed q then (q, Err BrokenPipe, false) else
    if (seq <? q_next_seq q) || bool_decide (is_Some (q_packets q !! seq)) then (q, Err AlreadyExists, false) else
    if (max_packets <=? Z.of_nat (size (q_packets q))) && negb (seq =? q_next_seq q) then
      (clear_payloads (mkInner (q_packets q) (q_next_seq q) (q_current q) (q_current_offset q) (q_closed q) (Some OutOfMemory)), Err OutOfMemory, true)
    else (mkInner (<[seq := payload]> (q_packets q)) (q_next_seq q) (q_current q) (q_current_offset q) (q_closed q) (q_error q), Ok tt, true)
  end.

Definition queue_close (q : Inner) : Inner :=
  mkInner (q_packets q) (q_next_seq q) (q_current q) (q_current_offset q) true (q_error q).

Definition queue_fail (q : Inner) (kind : ErrorKind) : Inner :=
  clear_payloads (mkInner (q_packets q) (q_next_seq q) (q_current q) (q_current_offset q) true (match q_error q with None => Some kind | e => e end)).

Inductive SequencePosition : Type := Past | Next | Future.

Definition sequence_position (q : Inner) (sequence : Z) : SequencePosition :=
  if sequence <? q_next_seq q then Past else if sequence =? q_next_seq q then Next else Future.

(** What the first lock section of [poll_read_slice] decides *)
Inductive Look : Type :=
| LookReady (r : outcome (list Z))
| LookAgain
| LookNothing.

Definition observe (q : Inner) (n : Z) : Inner * Look :=
  match q_error q with
  | Some e => (q, LookReady (Err e))
  | None =>
    if q_current_offset q <? len (q_current q) then
      let remaining := drop (Z.to_nat (q_current_offset q)) (q_current q) in
      let k := Z.min (len remaining) n in
      let offset := q_current_offset q + k in
      let q' := if offset =? len (q_current q) then mkInner (q_packets q) (q_next_seq q) [] 0 (q_closed q) (q_error q)
                else mkInner (q_packets q) (q_next_seq q) (q_current q) offset (q_closed q) (q_error q) in
      (q', LookReady (Ok (take (Z.to_nat k) remaining)))
    else match q_packets q !! q_next_seq q with
    | Some payload =>
      (mkInner (delete (q_next_seq q) (q_packets q)) (saturating_add 64 (q_next_seq q) 1) payload 0 (q_closed q) (q_error q), LookAgain)
    | None => if q_closed q then (clear_payloads q, LookReady (Ok [])) else (q, LookNothing)
    end
  end.

(** The second observation, after the waker is registered *)
Definition queue_ready (q : Inner) : bool :=
  (if q_error q then true else false) || q_closed q || bool_decide (is_Some (q_packets q !! q_next_seq q)).

(** [poll_read_slice] with nobody else running; [None] is [Poll::Pending]. *)
Fixpoint poll_read_loop (fuel : nat) (q : Inner) (n : Z) : outcome (Inner * option (list Z)) :=
  match fuel with
  | O => Panic
  | S fuel =>
    match observe q n with
    | (q', LookReady (Ok bytes)) => Ok (q', Some bytes)
    | (_, LookReady (Err e)) => Err e
    | (_, LookReady Panic) => Panic
    | (q', LookAgain) => poll_read_loop fuel q' n
    | (q', LookNothing) => if queue_ready q' then poll_read_loop fuel q' n else Ok (q', None)
    end
  end.

Definition poll_read_slice (q : Inner) (n : Z) : outcome (Inner * option (list Z)) :=
  if n =? 0 then Ok (q, Some []) else poll_read_loop (S (S (size (q_packets q)))) q n.

(** ** The session: retried POSTs *)

(** The two keyed hashes of a payload ([RandomState]) *)
Class PacketHash : Type := { packet_hash1 : list Z -> Z; packet_hash2 : list Z -> Z }.

Record PacketFingerprint : Type := mkFingerprint { fp_len : Z; fp_hashes : Z * Z }.

#[global] Instance PacketFingerprint_eq_dec : EqDecision PacketFingerprint.
Proof. solve_decision. Defined.

Record PacketRetryHistory : Type := mkHistory {
  h_fingerprints : gmap Z PacketFingerprint;
  h_order : list Z;
  h_capacity : Z
}.

Definition new_history (max_buffered_posts : Z) : PacketRetryHistory :=
  mkHistory ∅ [] (Z.max (saturating_mul 64 max_buffered_posts 4) 64).

Section session.
Context `{PacketHash}.

Definition fingerprint (payload : list Z) : PacketFingerprint := mkFingerprint (len payload) (packet_hash1 payload, packet_hash2 payload).

(** The loop that forgets the oldest sequence numbers *)
Fixpoint trim_history (fingerprints : gmap Z PacketFingerprint) (order : list Z) (capacity : Z) : PacketRetryHistory :=
  if capacity <? Z.of_nat (length order) then
    match order with
    | expired :: order' => trim_history (delete expired fingerprints) order' capacity
    | [] => mkHistory fingerprints [] capacity
    end
  else mkHistory fingerprints order capacity.

Definition push_packet (max_packets : Z) (hist : PacketRetryHistory) (q : Inner) (seq : Z) (payload : list Z)
  : PacketRetryHistory * Inner * outcome unit * bool :=
  match h_fingerprints hist !! seq with
  | Some previous => (hist, q, if decide (previous = fingerprint payload) then Ok tt else Err AlreadyExists, false)
  | None =>
    match queue_push max_packets q seq payload with
    | (q', Ok _, wake) => (trim_history (<[seq := fingerprint payload]> (h_fingerprints hist)) (h_order hist ++ [seq]) (h_capacity hist), q', Ok tt, wake)
    | (q', r, wake) => (hist, q', r, wake)
    end
  end.

(** ** The concurrent system *)

(** Where the reader is in [poll_read_slice] with a buffer of [n] bytes *)
Inductive ReaderPc : Type :=
| RIdle                  (** no read in progress *)
| RObserve (n : Z)       (** before the first lock *)
| RRegister (n : Z)      (** before [register] *)
| RRecheck (n : Z)       (** before the second lock *)
| RParked (n : Z).       (** [Poll::Pending] was returned *)

(** [g_accepted], [g_delivered] and [g_eof] are ghost state: the packets accepted, the bytes
    handed out, and whether a read has reported the end. *)
Record Sys : Type := mkSys {
  s_inner : Inner;
  s_history : PacketRetryHistory;
  s_registered : bool;
  s_woken : bool;
  s_wakes : nat;
  s_pc : ReaderPc;
  g_accepted : gmap Z (list Z);
  g_delivered : list Z;
  g_eof : bool
}.

Definition sys_start (max_buffered_posts : Z) : Sys :=
  mkSys Inner_default (new_history max_buffered_posts) false false 0 RIdle ∅ [] false.

Definition set_reader (s : Sys) (q : Inner) (pc : ReaderPc) : Sys :=
  mkSys q (s_history s) (s_registered s) (s_woken s) (s_wakes s) pc (g_accepted s) (g_delivered s) (g_eof s).

(** A producer updated the queue; it has still to call [wake] when [wake] says so. *)
Definition produced (s : Sys) (q : Inner) (hist : PacketRetryHistory) (accepted : gmap Z (list Z)) (wake : bool) : Sys :=
  mkSys q hist (s_registered s) (s_woken s) (if wake then S (s_wakes s) else s_wakes s) (s_pc s) accepted (g_delivered s) (g_eof s).

Definition deliver_read (s : Sys) (q : Inner) (r : outcome (list Z)) : Sys :=
  mkSys q (s_history s) (s_registered s) (s_woken s) (s_wakes s) RIdle (g_accepted s)
    (match r with Ok bytes => g_delivered s ++ bytes | _ => g_delivered s end)
    (match r with Ok [] => true | _ => g_eof s end).

(** [AtomicWaker::wake]: take the registered waker and schedule the task *)
Definition call_wake (s : Sys) (wakes : nat) : Sys :=
  mkSys (s_inner s) (s_history s) false (s_registered s || s_woken s) wakes (s_pc s) (g_accepted s) (g_delivered s) (g_eof s).

(** What the queue does by itself *)
Inductive work (s : Sys) : Sys -> Prop :=
| work_observe n q look :
  s_pc s = RObserve n -> observe (s_inner s) n = (q, look) ->
  work s (match look with LookReady r => deliver_read s q r | LookAgain => set_reader s q (RObserve n) | LookNothing => set_reader s q (RRegister n) end)
| work_register n :
  s_pc s = RRegister n ->
  work s (mkSys (s_inner s) (s_history s) true (s_woken s) (s_wakes s) (RRecheck n) (g_accepted s) (g_delivered s) (g_eof s))
| work_recheck n :
  s_pc s = RRecheck n -> work s (set_reader s (s_inner s) (if queue_ready (s_inner s) then RObserve n else RParked n))
| work_wake k : s_wakes s = S k -> work s (call_wake s k)
| work_repoll n :
  s_pc s = RParked n -> s_woken s = true ->
  work s (mkSys (s_inner s) (s_history s) (s_registered s) false (s_wakes s) (RObserve n) (g_accepted s) (g_delivered s) (g_eof s)).

(** What its users do: POSTs, the end of the session, reads begun and dropped *)
Inductive use (max_packets : Z) (s : Sys) : Sys -> Prop :=
| use_push seq payload hist q r wake :
  0 <= seq < 2 ^ 64 -> push_packet max_packets (s_history s) (s_inner s) seq payload = (hist, q, r, wake) ->
  use max_packets s (produced s q hist (match h_fingerprints (s_history s) !! seq, r with None, Ok _ => <[seq := payload]> (g_accepted s) | _, _ => g_accepted s end) wake)
| use_close : use max_packets s (produced s (queue_close (s_inner s)) (s_history s) (g_accepted s) true)
| use_fail kind : use max_packets s (produced s (queue_fail (s_inner s) kind) (s_history s) (g_accepted s) true)
| use_read n : s_pc s = RIdle -> 0 < n -> use max_packets s (set_reader s (s_inner s) (RObserve n))
| use_drop n : s_pc s = RParked n -> use max_packets s (set_reader s (s_inner s) RIdle).

Definition sys_step (max_packets : Z) (s s' : Sys) : Prop := work s s' \/ use max_packets s s'.

Definition sys_reachable (max_buffered_posts : Z) : Sys -> Prop := rtc (sys_step (queue_limit max_buffered_posts)) (sys_start max_buffered_posts).

(** ** The byte stream *)

(** The payloads [0 .. k-1] *)
Definition stream (accepted : gmap Z (list Z)) (k : Z) : list Z := concat (map (fun i => default [] (accepted !! i)) (seqZ 0 k)).

Lemma stream_next accepted k : 0 <= k -> stream accepted (k + 1) = stream accepted k ++ default [] (accepted !! k).
Proof. intros Hk. unfold stream. rewrite seqZ_app, map_app, concat_app by lia. rewrite (seqZ_cons (0 + k) 1), (seqZ_nil (Z.succ (0 + k)) (Z.pred 1)), Z.add_0_l by lia. cbn. by rewrite app_nil_r. Qed.

Lemma stream_insert accepted k i v : k <= i -> stream (<[i := v]> accepted) k = stream accepted k.
Proof.
  intros Hi. unfold stream. f_equal. apply map_ext_in. intros j Hj. apply list_elem_of_In, elem_of_seqZ in Hj. by rewrite lookup_insert_ne by lia.
Qed.

Definition rest_of_current (q : Inner) : list Z := drop (Z.to_nat (q_current_offset q)) (q_current q).

Record queue_inv (max_packets : Z) (q : Inner) (accepted : gmap Z (list Z)) (delivered : list Z) (eof : bool) : Prop := mkQueueInv {
  i_next : 0 <= q_next_seq q;
  i_offset : 0 <= q_current_offset q <= len (q_current q);
  i_stream : q_error q = None -> delivered ++ rest_of_current q = stream accepted (q_next_seq q);
  i_prefix : delivered `prefix_of` stream accepted (q_next_seq q);
  i_accepted : forall i, 0 <= i < q_next_seq q -> is_Some (accepted !! i);
  i_low : forall i, is_Some (q_packets q !! i) -> q_next_seq q <= i;
  i_packets : q_error q = None ->
    (forall i, q_next_seq q <= i -> q_packets q !! i = accepted !! i) \/ (q_closed q = true /\ q_packets q = ∅ /\ accepted !! q_next_seq q = None);
  i_size : Z.of_nat (size (q_packets q)) <= max_packets + (if q_packets q !! q_next_seq q then 1 else 0);
  i_eof : eof = true -> q_closed q = true /\ delivered = stream accepted (q_next_seq q) /\ accepted !! q_next_seq q = None
}.

Lemma queue_inv_clear max_packets q accepted delivered eof e :
  0 <= max_packets -> queue_inv max_packets q accepted delivered eof -> (q_closed q = false -> eof = false) ->
  forall closed, (q_closed q = true -> closed = true) -> queue_inv max_packets (mkInner ∅ (q_next_seq q) [] 0 closed (Some e)) accepted delivered eof.
Proof.
  intros Hm [] He closed Hcl. constructor; cbn; try done; rewrite ?lookup_empty; try done; [intros i [? Hi]; by rewrite lookup_empty in Hi|rewrite map_size_empty; lia|].
  intros Heof. destruct (i_eof0 Heof) as (? & ? & ?). auto.
Qed.

Lemma queue_inv_close max_packets q accepted delivered eof :
  queue_inv max_packets q accepted delivered eof -> queue_inv max_packets (queue_close q) accepted delivered eof.
Proof.
  intros []. constructor; cbn; try done; [|tauto]. intros He. destruct (i_packets0 He) as [?|(? & ? & ?)]; auto.
Qed.

Lemma eof_closed max_packets q accepted delivered eof : queue_inv max_packets q accepted delivered eof -> q_closed q = false -> eof = false.
Proof. intros [] Hc. destruct eof; [|done]. destruct (i_eof0 eq_refl) as (? & _). congruence. Qed.

Lemma queue_inv_fail max_packets q accepted delivered eof kind :
  0 <= max_packets -> queue_inv max_packets q accepted delivered eof -> queue_inv max_packets (queue_fail q kind) accepted delivered eof.
Proof.
  intros Hm Hi. unfold queue_fail, clear_payloads. cbn.
  destruct (q_error q); (apply queue_inv_clear; [done|done|by apply (eof_closed max_packets q accepted delivered)|done]).
Qed.

(** A packet that is accepted was not there before. *)
Lemma queue_inv_push max_packets q accepted delivered eof seq payload q' r wake :
  0 <= max_packets -> 0 <= seq -> queue_inv max_packets q accepted delivered eof -> queue_push max_packets q seq payload = (q', r, wake) ->
  queue_inv max_packets q' (match r with Ok _ => <[seq := payload]> accepted | _ => accepted end) delivered eof
  /\ (forall u, r = Ok u -> accepted !! seq = None /\ q_error q = None).
Proof.
  intros Hm Hs Hi E. unfold queue_push in E. destruct (q_error q) as [e|] eqn:Eerr; [by simplify_eq|]. destruct (q_closed q) eqn:Ecl; [by simplify_eq|].
  destruct (_ || _) eqn:Edup; [by simplify_eq|]. apply orb_false_iff in Edup as [Hge%Z.ltb_ge Hnew%bool_decide_eq_false].
  pose proof (eof_closed _ _ _ _ _ Hi Ecl) as Heof. destruct (_ && _) eqn:Ewin; simplify_eq.
  { split; [|done]. unfold clear_payloads. cbn. apply (queue_inv_clear max_packets q); [done|done|done|]. by rewrite Ecl. }
  destruct Hi. destruct (i_packets0 Eerr) as [Heq|(? & _)]; [|congruence]. rewrite Heq in Hnew by done. apply eq_None_not_Some in Hnew. split; [|done].
  constructor; cbn; try done.
  - intros _. rewrite stream_insert by done. by apply i_stream0.
  - by rewrite stream_insert by done.
  - intros i Hi. rewrite lookup_insert_ne by lia. by apply i_accepted0.
  - intros i. rewrite lookup_insert_is_Some. intros [<-|[_ Hi]]; [done|by apply i_low0].
  - intros _. left. intros i Hi. destruct (decide (i = seq)) as [->|]; [by rewrite !lookup_insert_eq|]. rewrite !lookup_insert_ne by done. by apply Heq.
  - rewrite map_size_insert_None by (by rewrite Heq). apply andb_false_iff in Ewin as [Hw%Z.leb_gt|Hw%negb_false_iff%Z.eqb_eq].
    + destruct (<[seq:=payload]> (q_packets q) !! q_next_seq q); lia.
    + subst seq. rewrite lookup_insert_eq. rewrite Heq, Hnew in i_size0 by lia. lia.
Qed.

(** A lock section of the reader *)
Lemma queue_inv_observe max_packets q accepted delivered eof n q' look :
  0 <= max_packets -> 0 < n -> queue_inv max_packets q accepted delivered eof -> observe q n = (q', look) -> q_next_seq q' < 2 ^ 64 - 1 ->
  match look with
  | LookReady (Ok bytes) => queue_inv max_packets q' accepted (delivered ++ bytes) (match bytes with [] => true | _ => eof end)
  | _ => queue_inv max_packets q' accepted delivered eof
  end.
Proof.
  intros Hm Hn Hi E Hb. unfold observe in E. destruct (q_error q) as [e|] eqn:Eerr; [by simplify_eq|]. pose proof (i_stream _ _ _ _ _ Hi Eerr) as Hst.
  destruct (Z.ltb_spec (q_current_offset q) (len (q_current q))) as [Hlt|Hge].
  - fold (rest_of_current q) in E. set (k := Z.min (len (rest_of_current q)) n) in E. destruct Hi.
    assert (Hlr : len (rest_of_current q) = len (q_current q) - q_current_offset q) by (unfold rest_of_current; rewrite len_drop; lia).
    assert (Hpre : delivered ++ take (Z.to_nat k) (rest_of_current q) `prefix_of` stream accepted (q_next_seq q)).
    { exists (drop (Z.to_nat k) (rest_of_current q)). by rewrite <- app_assoc, take_drop. }
    assert (Hne : eof = true -> False).
    { intros He. destruct (i_eof0 He) as (_ & Hd & _). rewrite <- Hst in Hd. apply (f_equal len) in Hd. rewrite len_app in Hd. lia. }
    assert (exists b bs, take (Z.to_nat k) (rest_of_current q) = b :: bs) as (b & bs & Eb).
    { destruct (take (Z.to_nat k) (rest_of_current q)) as [|b bs] eqn:Et; [|eauto]. apply (f_equal len) in Et. rewrite len_take, len_nil in Et; lia. }
    destruct (Z.eqb_spec (q_current_offset q + k) (len (q_current q))) as [Ek|Ek]; simplify_eq; rewrite Eb; rewrite <- Eb; constructor; cbn; try done; try lia; try (intros _; by apply i_packets0).
    + intros _. rewrite app_nil_r, take_ge; [done|]. unfold len in *. lia.
    + intros _. rewrite <- Hst, <- app_assoc. f_equal. unfold rest_of_current. cbn. rewrite Z2Nat.inj_add, <- drop_drop by lia. apply take_drop.
  - assert (Hrest : rest_of_current q = []) by (apply drop_ge; unfold len in *; lia). rewrite Hrest, app_nil_r in Hst.
    destruct (q_packets q !! q_next_seq q) as [payload|] eqn:Ep; [injection E as <- <-|].
    + cbn in Hb. unfold saturating_add in *. destruct Hi. assert (Hn' : Z.min (q_next_seq q + 1) (2 ^ 64 - 1) = q_next_seq q + 1) by lia. rewrite Hn' in *.
      destruct (i_packets0 Eerr) as [Heq|(_ & Hz & _)]; [|by rewrite Hz, lookup_empty in Ep]. pose proof (Heq _ ltac:(reflexivity)) as Hacc. rewrite Ep in Hacc.
      assert (Hs1 : stream accepted (q_next_seq q + 1) = delivered ++ payload) by (by rewrite stream_next, <- Hacc, <- Hst).
      constructor; cbn; rewrite ?Hn'; try lia.
      * split; [done|]. apply len_nonneg.
      * intros _. unfold rest_of_current. cbn. by rewrite drop_0.
      * rewrite Hs1. by apply prefix_app_r.
      * intros i Hi. destruct (decide (i = q_next_seq q)) as [->|]; [by rewrite <- Hacc|]. apply i_accepted0. lia.
      * intros i. rewrite lookup_delete_is_Some. intros [Hne Hi]. apply i_low0 in Hi. lia.
      * intros _. left. intros i Hi. rewrite lookup_delete_ne by lia. apply Heq. lia.
      * rewrite map_size_delete_Some by (by rewrite Ep). assert (size (q_packets q) <> 0)%nat by (apply map_size_non_empty_iff; intros Hz; by rewrite Hz, lookup_empty in Ep).
        rewrite Ep in i_size0. destruct (delete _ _ !! _); lia.
      * intros He. destruct (i_eof0 He) as (_ & _ & Hnone). congruence.
    + destruct (q_closed q) eqn:Ecl; injection E as <- <-; [|done]. destruct Hi. constructor; cbn; try done; rewrite ?app_nil_r, ?lookup_empty; try done.
      * intros i [? Hi]. by rewrite lookup_empty in Hi.
      * intros _. right. split_and!; [done|done|]. destruct (i_packets0 Eerr) as [Heq|(_ & _ & ?)]; [|done]. rewrite <- Heq by lia. done.
      * rewrite map_size_empty. lia.
      * intros _. split_and!; [done|done|]. destruct (i_packets0 Eerr) as [Heq|(_ & _ & ?)]; [|done]. rewrite <- Heq by lia. done.
Qed.

(** The retry history remembers the last accepted packets. *)
Record history_inv (hist : PacketRetryHistory) (accepted : gmap Z (list Z)) : Prop := mkHistoryInv {
  hi_nodup : NoDup (h_order hist);
  hi_order : forall seq, is_Some (h_fingerprints hist !! seq) <-> seq ∈ h_order hist;
  hi_capacity : Z.of_nat (length (h_order hist)) <= h_capacity hist;
  hi_accepted : forall seq f, h_fingerprints hist !! seq = Some f -> exists payload, accepted !! seq = Some payload /\ f = fingerprint payload
}.

Lemma trim_inv capacity accepted : 0 <= capacity -> forall order fps,
  NoDup order -> (forall seq, is_Some (fps !! seq) <-> seq ∈ order) ->
  (forall seq f, fps !! seq = Some f -> exists payload, accepted !! seq = Some payload /\ f = fingerprint payload) ->
  history_inv (trim_history fps order capacity) accepted.
Proof.
  intros Hc. induction order as [|x order IH]; intros fps Hn Ho Ha; cbn [trim_history]; destruct (Z.ltb_spec capacity (Z.of_nat (length (A := Z) []))) as [|]; try (cbn in *; lia).
  - by constructor.
  - destruct (Z.ltb_spec capacity (Z.of_nat (length (x :: order)))); [|by constructor]. apply list.NoDup_cons in Hn as [Hx Hn]. apply IH; [done| |].
    + intros seq. rewrite lookup_delete_is_Some, Ho, elem_of_cons. split; [by intros [? [->|]]|]. intros Hi. split; [by intros ->|by right].
    + intros seq f. rewrite lookup_delete_Some. intros [_ Hf]. by apply Ha.
Qed.

Lemma history_push max_packets hist q accepted delivered eof seq payload hist' q' r wake :
  0 <= max_packets -> 0 <= seq -> queue_inv max_packets q accepted delivered eof -> history_inv hist accepted -> 0 <= h_capacity hist ->
  push_packet max_packets hist q seq payload = (hist', q', r, wake) ->
  let accepted' := match h_fingerprints hist !! seq, r with None, Ok _ => <[seq := payload]> accepted | _, _ => accepted end in
  queue_inv max_packets q' accepted' delivered eof /\ history_inv hist' accepted' /\ h_capacity hist' = h_capacity hist.
Proof.
  intros Hm Hs Hq Hh Hc E. unfold push_packet in E. destruct (h_fingerprints hist !! seq) as [f|] eqn:Ef; [by simplify_eq|].
  destruct (queue_push max_packets q seq payload) as [[q1 r1] w1] eqn:Ep. destruct (queue_inv_push _ _ _ _ _ _ _ _ _ _ Hm Hs Hq Ep) as [Hq' Hnew].
  destruct r1 as [[]|e|]; simplify_eq; cbn; [|by split_and!..]. destruct (Hnew tt eq_refl) as [Hnone _]. split_and!; [done| |].
  - destruct Hh. assert (seq ∉ h_order hist) by (rewrite <- hi_order0, Ef; by intros []). apply trim_inv; [done| | |].
    + apply list.NoDup_app. split_and!; [done|by intros x Hx ->%list_elem_of_singleton|apply list.NoDup_singleton].
    + intros i. rewrite lookup_insert_is_Some, elem_of_app, list_elem_of_singleton, hi_order0. destruct (decide (seq = i)) as [->|]; naive_solver.
    + intros i f. rewrite lookup_insert_Some. intros [[<- <-]|[Hne Hf]]; [exists payload; by rewrite lookup_insert_eq|]. rewrite lookup_insert_ne by done. by apply hi_accepted0.
  - assert (forall order fps, h_capacity (trim_history fps order (h_capacity hist)) = h_capacity hist) as ->; [|done].
    induction order as [|x order IH]; intros fps; cbn; case_match; done || apply IH.
Qed.

(** No wake-up is lost: a parked reader that could go on is scheduled, or some producer is about to wake it. *)
Definition waits (pc : ReaderPc) : bool := match pc with RRegister _ | RRecheck _ | RParked _ => true | _ => false end.
Definition buffer_of (pc : ReaderPc) : Z := match pc with RIdle => 1 | RObserve n | RRegister n | RRecheck n | RParked n => n end.

Record wake_inv (s : Sys) : Prop := mkWakeInv {
  wi_registered : forall n, s_pc s = RRecheck n \/ s_pc s = RParked n -> s_registered s = true \/ s_woken s = true;
  wi_parked : forall n, s_pc s = RParked n -> queue_ready (s_inner s) = true -> s_woken s = true \/ s_wakes s <> O;
  wi_exhausted : waits (s_pc s) = true -> rest_of_current (s_inner s) = [];
  wi_buffer : 0 < buffer_of (s_pc s)
}.

Lemma push_silent max_packets hist q seq payload hist' q' r : push_packet max_packets hist q seq payload = (hist', q', r, false) -> q' = q.
Proof. unfold push_packet, queue_push. intros E. by repeat (case_match; simplify_eq). Qed.

Lemma push_rest max_packets hist q seq payload hist' q' r wake :
  push_packet max_packets hist q seq payload = (hist', q', r, wake) -> rest_of_current q = [] -> rest_of_current q' = [].
Proof. unfold push_packet, queue_push. intros E Hr. by repeat (case_match; simplify_eq). Qed.

Lemma observe_rest q n q' : observe q n = (q', LookNothing) -> q' = q /\ q_error q = None /\ rest_of_current q = [] /\ queue_ready q = false.
Proof.
  unfold observe, queue_ready. intros E. destruct (q_error q); [done|]. destruct (Z.ltb_spec (q_current_offset q) (len (q_current q))); [done|].
  destruct (q_packets q !! q_next_seq q) eqn:Ep; [done|]. destruct (q_closed q); simplify_eq. split_and!; try done. apply drop_ge. unfold len in *. lia.
Qed.

Lemma wake_work s s' : wake_inv s -> work s s' -> wake_inv s'.
Proof.
  intros [] Hw. destruct Hw as [n q look Hpc E|n Hpc|n Hpc|k Hk|n Hpc Hwk].
  - destruct look as [r| |]; constructor; cbn; try done; try (by intros ? []); try (rewrite Hpc in wi_buffer0; done). intros _.
    by apply observe_rest in E as (-> & _ & Hr & _).
  - rewrite Hpc in *. constructor; cbn; auto; done.
  - rewrite Hpc in *. destruct (queue_ready (s_inner s)) eqn:Er; constructor; cbn; try done; try (by intros ? []).
    + intros _ _. apply (wi_registered0 n). by left.
    + intros ? _. by rewrite Er.
  - constructor; cbn; try done.
    + intros n Hpc. right. destruct (wi_registered0 n Hpc) as [->| ->]; [done|by rewrite orb_true_r].
    + intros n Hpc Hr. left. destruct (wi_registered0 n (or_intror Hpc)) as [->| ->]; [done|by rewrite orb_true_r].
  - rewrite Hpc in *. constructor; cbn; try done; by intros ? [].
Qed.

Lemma wake_use max_packets s s' : wake_inv s -> use max_packets s s' -> wake_inv s'.
Proof.
  intros [] Hu. destruct Hu as [seq payload hist q r wake _ E| | kind |n Hpc Hn|n Hpc].
  - constructor; cbn; try done.
    + intros n Hpc Hr. destruct wake; [by right|]. apply push_silent in E as ->. by apply (wi_parked0 n).
    + intros Hw. eapply push_rest; [done|]. by apply wi_exhausted0.
  - constructor; cbn; try done; by right.
  - constructor; cbn; try done; by right.
  - constructor; cbn; try done; by intros ? [].
  - constructor; cbn; try done; by intros ? [].
Qed.

Lemma next_mono max_packets s s' : sys_step max_packets s s' -> q_next_seq (s_inner s) < 2 ^ 64 -> q_next_seq (s_inner s) <= q_next_seq (s_inner s').
Proof.
  intros [Hw|Hu] Hb.
  - destruct Hw as [n q look _ E| | | |]; cbn; try lia. unfold observe in E. repeat (case_match; simplify_eq; cbn); unfold saturating_add; lia.
  - destruct Hu as [seq payload hist q r wake _ E| | | |]; cbn; try lia. unfold push_packet, queue_push in E. repeat (case_match; simplify_eq; cbn); lia.
Qed.

Record sys_inv (max_packets : Z) (s : Sys) : Prop := mkSysInv {
  si_queue : q_next_seq (s_inner s) < 2 ^ 64 - 1 -> queue_inv max_packets (s_inner s) (g_accepted s) (g_delivered s) (g_eof s) /\ history_inv (s_history s) (g_accepted s);
  si_wake : wake_inv s;
  si_capacity : 0 <= h_capacity (s_history s);
  si_next : q_next_seq (s_inner s) < 2 ^ 64
}.

Lemma sys_inv_start max_buffered_posts : sys_inv (queue_limit max_buffered_posts) (sys_start max_buffered_posts).
Proof.
  constructor; cbn; try lia.
  - intros _. split; constructor; cbn; try done; rewrite ?lookup_empty; try lia.
    + intros i [? Hi]. by rewrite lookup_empty in Hi.
    + by left.
    + rewrite map_size_empty. unfold queue_limit. lia.
    + apply NoDup_nil_2.
    + intros seq. rewrite lookup_empty. split; [by intros []|by intros Hs%not_elem_of_nil].
  - constructor; cbn; try done. by intros n [].
Qed.

Lemma sys_inv_work max_packets s s' : 0 <= max_packets -> sys_inv max_packets s -> work s s' -> sys_inv max_packets s'.
Proof.
  intros Hm [Hq Hw Hc Hn] Hs. pose proof (wake_work _ _ Hw Hs) as Hw'. pose proof (next_mono max_packets s s' (or_introl Hs) Hn) as Hmono.
  assert (Hn' : q_next_seq (s_inner s') < 2 ^ 64).
  { destruct Hs as [n q look _ E| | | |]; cbn; try done. unfold observe in E. repeat (case_match; simplify_eq; cbn; try done); unfold saturating_add; lia. }
  constructor; [|done| |done].
  - intros Hb. destruct (Hq ltac:(lia)) as [Hqi Hh]. destruct Hs as [n q look Hpc E| | | |]; try done.
    pose proof (wi_buffer _ Hw) as Hbuf. rewrite Hpc in Hbuf. cbn in Hbuf.
    assert (Hb' : q_next_seq q < 2 ^ 64 - 1) by (by destruct look).
    pose proof (queue_inv_observe _ _ _ _ _ _ _ _ Hm Hbuf Hqi E Hb') as Ho. destruct look as [[bytes|e|]| |]; cbn in *; done.
  - by destruct Hs as [n q [] _ E| | | |].
Qed.

Lemma sys_inv_use max_packets s s' : 0 <= max_packets -> sys_inv max_packets s -> use max_packets s s' -> sys_inv max_packets s'.
Proof.
  intros Hm [Hq Hw Hc Hn] Hs. pose proof (wake_use _ _ _ Hw Hs) as Hw'. pose proof (next_mono max_packets s s' (or_intror Hs) Hn) as Hmono.
  destruct Hs as [seq payload hist q r wake Hsq E| |kind| |]; cbn in *; (constructor; [|done|done|done]) || idtac; try (intros Hb; destruct (Hq Hb) as [Hqi Hh]; split; [|done]).
  - assert (Hnq : q_next_seq q = q_next_seq (s_inner s)) by (unfold push_packet, queue_push in E; by repeat (case_match; simplify_eq)).
    constructor; cbn; [|done| |lia].
    + intros Hb. destruct (Hq ltac:(lia)) as [Hqi Hh]. destruct (history_push _ _ _ _ _ _ _ _ _ _ _ _ Hm (proj1 Hsq) Hqi Hh Hc E) as (? & ? & _). done.
    + unfold push_packet in E. repeat (case_match; simplify_eq; try done). clear Hw'. generalize (<[seq:=fingerprint payload]> (h_fingerprints (s_history s))).
      induction (h_order (s_history s) ++ [seq]) as [|x l IH]; intros g; cbn; case_match; done || apply IH.
  - by apply queue_inv_close.
  - by apply queue_inv_fail.
  - done.
  - done.
Qed.

Lemma sys_inv_reachable max_buffered_posts s : sys_reachable max_buffered_posts s -> sys_inv (queue_limit max_buffered_posts) s.
Proof.
  assert (0 <= queue_limit max_buffered_posts) by (unfold queue_limit; lia). intros Hr.
  apply rtc_ind_r with (P := sys_inv (queue_limit max_buffered_posts)) (x := sys_start max_buffered_posts) in Hr; [done|apply sys_inv_start|].
  intros s1 s2 _ [Hw|Hu] Hi; [by apply (sys_inv_work _ s1 s2)|by apply (sys_inv_use _ s1 s2)].
Qed.

(** ** Termination of a read *)

Definition rank (pc : ReaderPc) (q : Inner) : nat :=
  match pc with RIdle => 0 | RParked _ => 1 | RRecheck _ => 3 | RRegister _ => 4 | RObserve _ => if queue_ready q then 2 else 5 end.

Definition work_left (s : Sys) : nat :=
  16 * size (q_packets (s_inner s)) + 8 * (2 * s_wakes s + (if s_woken s then 1 else 0)) + rank (s_pc s) (s_inner s).

Lemma work_decreases s s' : work s s' -> (work_left s' < work_left s)%nat.
Proof.
  intros Hw. unfold work_left. destruct Hw as [n q look Hpc E|n Hpc|n Hpc|k Hk|n Hpc Hwk]; cbn -[Nat.mul].
  - rewrite Hpc. cbn -[Nat.mul]. destruct look as [r| |]; cbn -[Nat.mul].
    + assert (size (q_packets q) <= size (q_packets (s_inner s)))%nat by (unfold observe in E; repeat (case_match; simplify_eq; cbn; try lia); rewrite map_size_empty; lia).
      destruct (queue_ready (s_inner s)); lia.
    + assert (S (size (q_packets q)) = size (q_packets (s_inner s))).
      { unfold observe in E. repeat (case_match; simplify_eq; cbn; try done). rewrite map_size_delete_Some by eauto.
        assert (size (q_packets (s_inner s)) <> 0)%nat; [|lia]. apply map_size_non_empty_iff. intros Hz. by rewrite Hz, lookup_empty in *. }
      destruct (queue_ready (s_inner s)), (queue_ready q); lia.
    + apply observe_rest in E as (-> & _ & _ & ->). lia.
  - rewrite Hpc. cbn -[Nat.mul]. lia.
  - rewrite Hpc. cbn -[Nat.mul]. destruct (queue_ready (s_inner s)) eqn:Er; cbn -[Nat.mul]; rewrite ?Er; lia.
  - rewrite Hk. destruct (s_registered s), (s_woken s); cbn -[Nat.mul]; lia.
  - rewrite Hpc, Hwk. cbn -[Nat.mul]. destruct (queue_ready (s_inner s)); lia.
Qed.

Lemma work_bounded s k s' : nsteps work k s s' -> (k + work_left s' <= work_left s)%nat.
Proof. induction 1 as [s|k s s1 s' Hw _ IH]; [lia|]. pose proof (work_decreases _ _ Hw). lia. Qed.

(** When nothing moves, no read is in progress or there is nothing to read. *)
Lemma work_stuck s : wake_inv s -> (forall s', ~ work s s') ->
  s_pc s = RIdle \/ exists n, s_pc s = RParked n /\ queue_ready (s_inner s) = false /\ rest_of_current (s_inner s) = [].
Proof.
  intros [] Hs. destruct (s_pc s) as [|n|n|n|n] eqn:Hpc; [by left|exfalso..|right].
  - destruct (observe (s_inner s) n) as [q look] eqn:E. eapply Hs. by apply (work_observe s n q look).
  - eapply Hs. by apply (work_register s n).
  - eapply Hs. by apply (work_recheck s n).
  - exists n. split; [done|]. split; [|by apply wi_exhausted0]. destruct (queue_ready (s_inner s)) eqn:Er; [|done]. exfalso.
    destruct (wi_parked0 n eq_refl eq_refl) as [Hk|Hk].
    + eapply Hs. by apply (work_repoll s n).
    + destruct (s_wakes s) as [|k] eqn:Ek; [done|]. eapply Hs. by apply (work_wake s k).
Qed.

(** The fuel of [poll_read_slice] is enough. *)
Lemma poll_read_total n : forall fuel q, (size (q_packets q) < fuel)%nat -> no_panic (poll_read_loop fuel q n).
Proof.
  induction fuel as [|fuel IH]; intros q Hf; [lia|]. cbn. destruct (observe q n) as [q' look] eqn:E. destruct look as [r| |].
  - unfold observe in E. repeat (case_match; simplify_eq; try done).
  - apply IH. unfold observe in E. repeat (case_match; simplify_eq; try done). cbn. rewrite map_size_delete_Some by eauto.
    assert (size (q_packets q) <> 0)%nat; [|lia]. apply map_size_non_empty_iff. intros Hz. by rewrite Hz, lookup_empty in *.
  - apply observe_rest in E as (-> & _ & _ & Hr). by rewrite Hr.
Qed.

(** ** Theorems *)

(** [C38] Whatever the order in which the POSTs of a session arrive, with retries, interleaved with
    reads of any size and wake-ups: the bytes handed out are the consecutive payloads in the
    order of their sequence numbers, none missing, none twice; without an error what is not yet
    handed out is only the rest of the current packet; the end is reported only when the session
    is closed and every byte before the first gap has been handed out; the window holds at most
    one packet more than the configured limit. *)
Theorem xhttp_upload_in_order max_buffered_posts s :
  sys_reachable max_buffered_posts s -> q_next_seq (s_inner s) < 2 ^ 64 - 1 ->
  g_delivered s `prefix_of` stream (g_accepted s) (q_next_seq (s_inner s))
  /\ (forall i, 0 <= i < q_next_seq (s_inner s) -> is_Some (g_accepted s !! i))
  /\ (q_error (s_inner s) = None -> g_delivered s ++ rest_of_current (s_inner s) = stream (g_accepted s) (q_next_seq (s_inner s)))
  /\ (g_eof s = true -> q_closed (s_inner s) = true /\ g_delivered s = stream (g_accepted s) (q_next_seq (s_inner s)) /\ g_accepted s !! q_next_seq (s_inner s) = None)
  /\ Z.of_nat (size (q_packets (s_inner s))) <= queue_limit max_buffered_posts + 1.
Proof.
  intros Hr Hb. destruct (si_queue _ _ (sys_inv_reachable _ _ Hr) Hb) as [[] _]. split_and!; try done. case_match; lia.
Qed.

(** A POST for a sequence number that was accepted before never changes the stream: the queue
    and the history stay as they are; it is answered with success only if its fingerprint is
    that of the accepted payload, and then as long as the history remembers it; and the packet
    the reader waits for is never turned away, however full the window is. *)
Theorem xhttp_retry_safe max_buffered_posts s seq payload hist q r wake :
  sys_reachable max_buffered_posts s -> q_next_seq (s_inner s) < 2 ^ 64 - 1 -> 0 <= seq ->
  push_packet (queue_limit max_buffered_posts) (s_history s) (s_inner s) seq payload = (hist, q, r, wake) ->
  (forall first, g_accepted s !! seq = Some first ->
    q = s_inner s /\ hist = s_history s /\ (r = Ok tt -> fingerprint payload = fingerprint first)
    /\ (seq ∈ h_order (s_history s) -> fingerprint payload = fingerprint first -> r = Ok tt))
  /\ (g_accepted s !! seq = None -> seq = q_next_seq (s_inner s) -> q_error (s_inner s) = None -> q_closed (s_inner s) = false -> r = Ok tt).
Proof.
  intros Hr Hb Hs E. destruct (si_queue _ _ (sys_inv_reachable _ _ Hr) Hb) as [[] []]. unfold push_packet in E.
  destruct (h_fingerprints (s_history s) !! seq) as [f|] eqn:Ef.
  - destruct (hi_accepted0 _ _ Ef) as (first & Hf & ->). simplify_eq. split; [|by rewrite Hf]. intros p Hp. rewrite Hp in Hf. injection Hf as ->.
    split_and!; [done|done|by case_decide|]. intros _ Heq. by rewrite decide_True.
  - unfold queue_push in E. split.
    + intros first Hf. assert (Hno : seq ∉ h_order (s_history s)) by (rewrite <- hi_order0, Ef; by intros []).
      destruct (q_error (s_inner s)) eqn:Ee; [by simplify_eq|]. destruct (q_closed (s_inner s)) eqn:Ec; [by simplify_eq|].
      destruct ((seq <? _) || _) eqn:Ed; [by simplify_eq|]. apply orb_false_iff in Ed as [Hge%Z.ltb_ge Hn%bool_decide_eq_false].
      destruct (i_packets0 eq_refl) as [Heq|(? & _)]; [|done]. destruct Hn. rewrite Heq by done. eauto.
    + intros Hn -> Ee Ec. rewrite Ee, Ec, Z.ltb_irrefl, Z.eqb_refl, andb_false_r in E. destruct (i_packets0 Ee) as [Heq|(? & _)]; [|congruence].
      rewrite bool_decide_eq_false_2 in E by (rewrite Heq, Hn by lia; by intros []). cbn in E. by simplify_eq.
Qed.

(** [C39] A read ends: under every interleaving at most [work_left] steps of the reader and of pending
    wake-ups are possible, and when none is left the read has returned, or the reader is parked
    and there is nothing for it (no byte, no next packet, no end, no error).  No wake-up is lost. *)
Theorem xhttp_reader_live max_buffered_posts s :
  sys_reachable max_buffered_posts s ->
  (forall k s', nsteps work k s s' -> (k <= work_left s)%nat)
  /\ (forall s', rtc work s s' -> (forall s'', ~ work s' s'') ->
      s_pc s' = RIdle \/ exists n, s_pc s' = RParked n /\ queue_ready (s_inner s') = false /\ rest_of_current (s_inner s') = [])
  /\ (forall n, no_panic (poll_read_slice (s_inner s) n)).
Proof.
  intros Hr. split_and!.
  - intros k s' Hk. pose proof (work_bounded _ _ _ Hk). lia.
  - intros s' Hw Hs. apply work_stuck; [|done]. assert (Hr' : sys_reachable max_buffered_posts s') by (unfold sys_reachable in *; etrans; [done|]; eapply rtc_subrel; [|done]; by left).
    apply (si_wake _ _ (sys_inv_reachable _ _ Hr')).
  - intros n. unfold poll_read_slice. destruct (n =? 0); [done|]. apply poll_read_total. lia.
Qed.

End session.

Module XhttpQueueWitness.

#[local] Instance toy_hash : PacketHash := {| packet_hash1 := foldr Z.add 0; packet_hash2 := fun l => default 0 (head l) |}.

(** The packet 1 before the packet 0, then a read that takes the first bytes *)
Lemma reached : exists s, sys_reachable 4 s /\ g_delivered s = [5; 6] /\ q_next_seq (s_inner s) = 1 /\ g_accepted s !! 1 = Some [7] /\ s_pc s = RIdle
  /\ push_packet (queue_limit 4) (s_history s) (s_inner s) 1 [7] = (s_history s, s_inner s, Ok tt, false).
Proof.
  eexists. split; [|split; [|split; [|split; [|split]]]].
  - eapply rtc_l; [right; apply (use_push _ _ 1 [7]); [lia|reflexivity]|]. eapply rtc_l; [right; apply (use_push _ _ 0 [5; 6]); [lia|reflexivity]|].
    eapply rtc_l; [right; apply (use_read _ _ 8); [reflexivity|lia]|]. eapply rtc_l; [left; eapply work_observe; reflexivity|].
    eapply rtc_l; [left; eapply work_observe; reflexivity|]. apply rtc_refl.
  - reflexivity.
  - reflexivity.
  - reflexivity.
  - reflexivity.
  - reflexivity.
Qed.

Lemma xhttp_upload_in_order_witness : exists s, sys_reachable 4 s /\ [5; 6] `prefix_of` stream (g_accepted s) (q_next_seq (s_inner s)).
Proof.
  destruct reached as (s & Hr & Hd & Hn & _). exists s. split; [exact Hr|]. rewrite <- Hd. apply (xhttp_upload_in_order 4 s Hr). rewrite Hn. lia.
Defined.

Lemma xhttp_retry_safe_witness : exists s, sys_reachable 4 s /\ fingerprint [7] = fingerprint [7] /\ s_inner s = s_inner s.
Proof.
  destruct reached as (s & Hr & Hd & Hn & Ha & _ & E). exists s. split; [exact Hr|].
  destruct (xhttp_retry_safe 4 s 1 [7] _ _ _ _ Hr ltac:(rewrite Hn; lia) ltac:(lia) E) as [H _]. destruct (H [7] Ha) as (Hq & _ & Hf & _). split; [exact (Hf eq_refl)|exact Hq].
Defined.

Lemma xhttp_reader_live_witness : exists s, sys_reachable 4 s /\ no_panic (poll_read_slice (s_inner s) 1).
Proof. destruct reached as (s & Hr & _). exists s. split; [exact Hr|]. apply (xhttp_reader_live 4 s Hr). Defined.

End XhttpQueueWitness.
