(* ===== verification/Health.v ===== *)
(** * Node health: probe statistics, schedules and the fast pick

    Models the state of [UrlTester] ([core-runtime/src/health.rs]): the statistics per node and
    probe URL, the failure back-off, the schedules of active groups, and [pick_fast], which a
    latency-tested group uses.  The probe itself (dial, TLS, HTTP) is network I/O; its outcome
    is the argument of [record_timing].  A method is one step: the order of its accesses to the
    concurrent maps is not modelled.  Durations are nanoseconds and clocks are arguments. *)

From stdpp Require Import base list gmap strings numbers option.
From S2P Require Import Prelude.

Definition DEAD_DELAY : Z := 2 ^ 32 - 1.
Definition HISTORY_CAP : Z := 10.
Definition MAX_URLS_PER_NODE : Z := 16.

Definition from_secs (n : Z) : Z := n * 10 ^ 9.
Definition from_millis (n : Z) : Z := n * 10 ^ 6.
Definition as_millis_u64 (d : Z) : Z := Z.min (d / 10 ^ 6) (2 ^ 64 - 1).

Definition FAST_PICK_TTL : Z := from_secs 10.
Definition FAILURE_RETRY_MIN : Z := from_secs 5.
Definition FAILURE_RETRY_MAX : Z := from_secs (5 * 60).
Definition SCHEDULER_TICK : Z := from_secs 1.

Inductive DelayError : Type :=
| UnknownNode (name : string)
| BadUrl (url : string)
| Dial (reason : string)
| Http (reason : string)
| Tls (reason : string)
| StatusMismatch (status : Z)
| Timeout
| Closed.

Record HistoryEntry : Type := mkHistoryEntry {
  he_time_ms : Z; he_delay_ms : Z; he_connect_ms : Z; he_handshake_ms : Z; he_response_ms : Z; he_unified : bool
}.

Record ProbeTiming : Type := mkProbeTiming {
  pt_delay_ms : Z; pt_connect_ms : Z; pt_handshake_ms : Z; pt_response_ms : Z; pt_unified : bool
}.

Definition ProbeTiming_default : ProbeTiming := mkProbeTiming 0 0 0 0 false.

(** [probe_lock] only orders probes and is left out. *)
Record NodeUrlStats : Type := mkStats {
  ns_alive : bool;
  ns_last_delay_ms : Z;
  ns_last_seen_ms : Z;
  ns_next_due_ms : Z;
  ns_consecutive_failures : Z;
  ns_requested_interval_ms : Z;
  ns_probe_generation : Z;
  ns_probe_signature : Z;
  ns_last_error : option DelayError;
  ns_history : list HistoryEntry
}.

Definition NodeUrlStats_default : NodeUrlStats := mkStats true 0 0 0 0 (2 ^ 64 - 1) 0 0 None [].

Definition failure_retry_delay (failures configured_interval : Z) : Z :=
  let shift := Z.min (saturating_sub failures 1) 16 in
  let multiplier := Z.shiftl 1 shift in
  Z.min (Z.min (FAILURE_RETRY_MIN * multiplier) (Z.max configured_interval FAILURE_RETRY_MIN)) FAILURE_RETRY_MAX.

(** [while g.len() > HISTORY_CAP { g.pop_front(); }] *)
Fixpoint trim_front {A} (l : list A) (cap : Z) : list A :=
  match l with
  | _ :: l' => if cap <? Z.of_nat (length l) then trim_front l' cap else l
  | [] => []
  end.

Definition record_timing (st : NodeUrlStats) (timing : ProbeTiming) (alive : bool) (interval : Z) (error : option DelayError)
  (probe_signature now : Z) : NodeUrlStats :=
  let failures := if alive then 0 else wrapping_add 32 (ns_consecutive_failures st) 1 in
  let interval := if ns_requested_interval_ms st =? 2 ^ 64 - 1 then interval else Z.min interval (from_millis (ns_requested_interval_ms st)) in
  let retry := if alive then Z.max interval SCHEDULER_TICK else failure_retry_delay failures interval in
  mkStats alive (if alive then pt_delay_ms timing else DEAD_DELAY) now (saturating_add 64 now (as_millis_u64 retry)) failures
    (ns_requested_interval_ms st) (wrapping_add 64 (ns_probe_generation st) 1) probe_signature error
    (trim_front (ns_history st ++ [mkHistoryEntry now (if alive then pt_delay_ms timing else 0) (pt_connect_ms timing) (pt_handshake_ms timing) (pt_response_ms timing) (pt_unified timing)]) HISTORY_CAP).

(** [NodeUrlStats::record] *)
Definition record_probe (st : NodeUrlStats) (delay_ms : Z) (alive : bool) (now : Z) : NodeUrlStats :=
  record_timing st (mkProbeTiming delay_ms 0 0 0 false) alive (from_secs 60) None 0 now.

Definition request_interval (st : NodeUrlStats) (interval now_ms : Z) : NodeUrlStats :=
  let interval_ms := as_millis_u64 (Z.max interval SCHEDULER_TICK) in
  mkStats (ns_alive st) (ns_last_delay_ms st) (ns_last_seen_ms st)
    (if ns_next_due_ms st =? 0 then ns_next_due_ms st else Z.min (ns_next_due_ms st) (saturating_add 64 now_ms interval_ms))
    (ns_consecutive_failures st) (Z.min (ns_requested_interval_ms st) interval_ms) (ns_probe_generation st) (ns_probe_signature st) (ns_last_error st) (ns_history st).

Definition last_delay (st : NodeUrlStats) : Z := if ns_alive st then ns_last_delay_ms st else DEAD_DELAY.
Definition is_due (st : NodeUrlStats) (now : Z) : bool := ns_next_due_ms st <=? now.

Definition cached_result (st : NodeUrlStats) : Z + DelayError :=
  if ns_alive st && negb (ns_last_delay_ms st =? 0) && negb (ns_last_delay_ms st =? DEAD_DELAY) then inl (ns_last_delay_ms st)
  else inr (default Timeout (ns_last_error st)).

Record GroupSchedule : Type := mkSchedule {
  gs_revision : Z;
  gs_members : list string;
  gs_url : string;
  gs_expected_raw : string;
  gs_unified_delay : option bool;
  gs_interval : Z;
  gs_idle_timeout : Z;
  gs_active_until_ms : Z;
  gs_next_run_ms : Z
}.

Definition schedule_touch (s : GroupSchedule) (now : Z) : GroupSchedule :=
  mkSchedule (gs_revision s) (gs_members s) (gs_url s) (gs_expected_raw s) (gs_unified_delay s) (gs_interval s) (gs_idle_timeout s)
    (saturating_add 64 now (as_millis_u64 (gs_idle_timeout s))) (gs_next_run_ms s).

Record FastPickResult : Type := mkFastPick { fp_node : string; fp_delay : Z }.

(** [fast_pick] holds the [FastPickEntry] of a group: [last], or nothing yet *)
Record UrlTester : Type := mkTester {
  ut_default_url : string;
  ut_stats : gmap string (gmap string NodeUrlStats);
  ut_fast_pick : gmap string (option (Z * FastPickResult));
  ut_schedules : gmap string GroupSchedule
}.

Definition set_stats (t : UrlTester) (stats : gmap string (gmap string NodeUrlStats)) : UrlTester :=
  mkTester (ut_default_url t) stats (ut_fast_pick t) (ut_schedules t).

Definition stats_of (t : UrlTester) (node url : string) : option NodeUrlStats :=
  match ut_stats t !! node with Some urls => urls !! url | None => None end.

(** [ensure_stats] followed by an update of the cell it returns *)
Definition update_stats (t : UrlTester) (node url : string) (f : NodeUrlStats -> NodeUrlStats) : UrlTester :=
  let urls := default ∅ (ut_stats t !! node) in
  set_stats t (<[node := <[url := f (default NodeUrlStats_default (urls !! url))]> urls]> (ut_stats t)).

Definition ensure_stats (t : UrlTester) (node url : string) : UrlTester := update_stats t node url (fun st => st).

Definition last_delay_for_url (t : UrlTester) (node url : string) : Z :=
  match stats_of t node url with Some st => last_delay st | None => DEAD_DELAY end.

Definition alive_for_url (t : UrlTester) (node url : string) : bool :=
  match stats_of t node url with Some st => ns_alive st | None => true end.

Definition mark_runtime_failure (t : UrlTester) (node url reason : string) (now : Z) : UrlTester :=
  update_stats t node url (fun st => record_timing st ProbeTiming_default false FAILURE_RETRY_MIN (Some (Dial reason)) 0 now).

Definition activate_group (t : UrlTester) (group : string) (revision : Z) (members : list string) (url expected_status : string)
  (unified_delay : option bool) (interval idle_timeout now : Z) : UrlTester :=
  let renew :=
    let t := foldl (fun t member => update_stats t member url (fun st => request_interval st interval now)) t members in
    let schedule := schedule_touch (mkSchedule revision members url expected_status unified_delay (Z.max interval SCHEDULER_TICK)
      (Z.max (Z.max idle_timeout interval) SCHEDULER_TICK) 0 now) now in
    mkTester (ut_default_url t) (ut_stats t) (ut_fast_pick t) (<[group := schedule]> (ut_schedules t)) in
  match ut_schedules t !! group with
  | Some schedule =>
    if gs_revision schedule =? revision then mkTester (ut_default_url t) (ut_stats t) (ut_fast_pick t) (<[group := schedule_touch schedule now]> (ut_schedules t))
    else renew
  | None => renew
  end.

(** [AHasher] of the group name *)
Class JitterHash : Type := { jitter_hash : string -> Z }.

Definition deterministic_jitter_ms `{JitterHash} (key : string) (max : Z) : Z :=
  if max =? 0 then 0 else jitter_hash key mod saturating_add 64 max 1.

(** One schedule in a round of [test_due_schedules]: dropped, left alone, or due and moved on *)
Definition schedule_round `{JitterHash} (now : Z) (key : string) (s : GroupSchedule) : option (GroupSchedule * bool) :=
  if gs_active_until_ms s <? now then None else
  if now <? gs_next_run_ms s then Some (s, false) else
  let interval_ms := as_millis_u64 (gs_interval s) in
  let jitter := deterministic_jitter_ms key (interval_ms / 10) in
  Some (mkSchedule (gs_revision s) (gs_members s) (gs_url s) (gs_expected_raw s) (gs_unified_delay s) (gs_interval s) (gs_idle_timeout s)
          (gs_active_until_ms s) (saturating_add 64 (saturating_add 64 now interval_ms) jitter), true).

Definition due_nodes (t : UrlTester) (s : GroupSchedule) (now : Z) : list string :=
  filter (fun node => is_due (default NodeUrlStats_default (stats_of t node (gs_url s))) now = true) (gs_members s).

(** ** [pick_fast] *)

(** The scan for the first least delay *)
Fixpoint scan_best (t : UrlTester) (url : string) (members : list string) (best : option (string * Z)) : option (string * Z) :=
  match members with
  | [] => best
  | m :: members' =>
    let d := last_delay_for_url t m url in
    scan_best t url members'
      (if d =? DEAD_DELAY then best else
       match best with None => Some (m, d) | Some (_, bd) => if d <? bd then Some (m, d) else best end)
  end.

Definition set_fast_pick (t : UrlTester) (group : string) (e : option (Z * FastPickResult)) : UrlTester :=
  mkTester (ut_default_url t) (ut_stats t) (<[group := e]> (ut_fast_pick t)) (ut_schedules t).

(** The cached choice, while it is young and still a candidate *)
Definition fast_pick_hit (t : UrlTester) (group : string) (members : list string) (now : Z) : option string :=
  match ut_fast_pick t !! group with
  | Some (Some (picked, result)) =>
    if (saturating_sub now picked <? FAST_PICK_TTL) && bool_decide (fp_node result ∈ members) then Some (fp_node result) else None
  | _ => None
  end.

Definition pick_fast (t : UrlTester) (group : string) (members : list string) (url : string) (tolerance now : Z) : UrlTester * option string :=
  match fast_pick_hit t group members now with
  | Some node => (t, Some node)
  | None =>
    let best := scan_best t url members None in
    let entry := default None (ut_fast_pick t !! group) in
    let keep (node : string) (delay : Z) := (set_fast_pick t group (Some (now, mkFastPick node delay)), Some node) in
    match entry, best with
    | Some (_, prev), Some (nb, nd) =>
      if bool_decide (fp_node prev ∈ members) && alive_for_url t (fp_node prev) url && (fp_delay prev <=? saturating_add 32 nd tolerance)
      then keep (fp_node prev) (fp_delay prev)
      else keep nb nd
    | None, Some (nb, nd) => keep nb nd
    | Some (_, prev), None => (set_fast_pick t group entry, Some (fp_node prev))
    | None, None => (set_fast_pick t group None, None)
    end
  end.

Definition invalidate_fast_pick (t : UrlTester) (group : string) : UrlTester :=
  mkTester (ut_default_url t) (ut_stats t) (delete group (ut_fast_pick t)) (ut_schedules t).

Definition remove_group_schedule (t : UrlTester) (group : string) : UrlTester :=
  mkTester (ut_default_url t) (ut_stats t) (delete group (ut_fast_pick t)) (delete group (ut_schedules t)).

Definition remove_nodes (t : UrlTester) (nodes : list string) : UrlTester :=
  set_stats t (foldl (fun m node => delete node m) (ut_stats t) nodes).

(** ** Lemmas *)

Lemma trim_front_suffix {A} (l : list A) cap : 0 <= cap -> trim_front l cap `suffix_of` l /\ Z.of_nat (length (trim_front l cap)) = Z.min (Z.of_nat (length l)) cap.
Proof.
  intros Hc. induction l as [|x l IH]; cbn [trim_front]; [cbn; split; [done|lia]|].
  destruct (Z.ltb_spec cap (Z.of_nat (length (x :: l)))) as [Hlt|Hge]; [|split; [done|cbn [length] in *; lia]].
  destruct IH as [IH1 IH2]. split; [by apply suffix_cons_r|]. cbn [length] in *. lia.
Qed.

Definition measured (t : UrlTester) (url node : string) : bool := negb (last_delay_for_url t node url =? DEAD_DELAY).

(** The node with the least delay among [best] and [members], the first on ties *)
Definition least (t : UrlTester) (url : string) (seen : list string) (best : option (string * Z)) : Prop :=
  match best with
  | None => forall m, m ∈ seen -> measured t url m = false
  | Some (n, d) => exists pre post, seen = pre ++ n :: post /\ d = last_delay_for_url t n url /\ d <> DEAD_DELAY
      /\ (forall m, m ∈ pre -> measured t url m = true -> d < last_delay_for_url t m url)
      /\ (forall m, m ∈ post -> measured t url m = true -> d <= last_delay_for_url t m url)
  end.

Lemma scan_best_least t url members : forall seen best, least t url seen best -> least t url (seen ++ members) (scan_best t url members best).
Proof.
  induction members as [|m members IH]; intros seen best Hl; cbn [scan_best]; [by rewrite app_nil_r|].
  replace (seen ++ m :: members) with ((seen ++ [m]) ++ members) by (by rewrite <- app_assoc). apply IH.
  destruct (Z.eqb_spec (last_delay_for_url t m url) DEAD_DELAY) as [Hd|Hd].
  - assert (Hm : measured t url m = false) by (unfold measured; by rewrite Hd). destruct best as [[n d]|]; cbn in *.
    + destruct Hl as (pre & post & -> & Hn & Hne & H1 & H2). exists pre, (post ++ [m]). rewrite <- app_assoc. split_and!; try done.
      intros x Hx Hmx. apply elem_of_app in Hx as [Hx|Hx%list_elem_of_singleton]; [by apply H2|]. subst x. congruence.
    + intros x [Hx|Hx%list_elem_of_singleton]%elem_of_app; [by apply Hl|by subst x].
  - destruct best as [[n d]|]; cbn in *.
    + destruct Hl as (pre & post & -> & Hn & Hne & H1 & H2). destruct (Z.ltb_spec (last_delay_for_url t m url) d) as [Hlt|Hge].
      * exists (pre ++ n :: post), []. split_and!; try done; [|by intros x Hx%not_elem_of_nil]. intros x Hx Hmx.
        apply elem_of_app in Hx as [Hx|[->|Hx]%elem_of_cons]; [specialize (H1 x Hx Hmx)|..|specialize (H2 x Hx Hmx)]; lia.
      * exists pre, (post ++ [m]). rewrite <- app_assoc. split_and!; try done. intros x Hx Hmx.
        apply elem_of_app in Hx as [Hx|Hx%list_elem_of_singleton]; [by apply H2|]. by subst x.
    + exists seen, []. split_and!; try done; [|by intros x Hx%not_elem_of_nil]. intros x Hx Hmx. by rewrite (Hl x Hx) in Hmx.
Qed.

Lemma scan_least t url members : least t url members (scan_best t url members None).
Proof. apply (scan_best_least t url members [] None). by intros m Hm%not_elem_of_nil. Qed.

Lemma least_member t url members n d : least t url members (Some (n, d)) -> n ∈ members /\ measured t url n = true.
Proof.
  intros (pre & post & -> & -> & Hd & _). split; [set_solver|]. unfold measured. by rewrite (proj2 (Z.eqb_neq _ _) Hd).
Qed.

Lemma measured_alive t url n : measured t url n = true -> alive_for_url t n url = true.
Proof. unfold measured, last_delay_for_url, alive_for_url, last_delay. destruct (stats_of t n url) as [st|]; [|done]. by destruct (ns_alive st). Qed.

(** Whom [pick_fast] can return *)
Lemma pick_fast_member t group members url tolerance now t' n :
  pick_fast t group members url tolerance now = (t', Some n) ->
  n ∈ members \/ (existsb (measured t url) members = false /\ exists w r, ut_fast_pick t !! group = Some (Some (w, r)) /\ fp_node r = n).
Proof.
  unfold pick_fast. destruct (fast_pick_hit t group members now) as [hit|] eqn:Eh.
  { intros [= <- <-]. left. unfold fast_pick_hit in Eh. destruct (ut_fast_pick t !! group) as [[[w r]|]|]; [|done|done].
    destruct (_ <? _); [|done]. cbn in Eh. case_bool_decide; by simplify_eq. }
  pose proof (scan_least t url members) as Hl. destruct (scan_best t url members None) as [[nb nd]|].
  - apply least_member in Hl as [Hm _]. destruct (default None _) as [[w prev]|]; [|intros [= _ <-]; by left].
    case_bool_decide; cbn; [|intros [= _ <-]; by left]. destruct (_ && _); intros [= _ <-]; by left.
  - destruct (ut_fast_pick t !! group) as [[[w prev]|]|]; cbn; [|done|done]. intros [= _ <-]. right. split; [|eauto].
    destruct (existsb (measured t url) members) eqn:Ex; [|done]. apply existsb_exists in Ex as (m & Hm%list_elem_of_In & Hms). by rewrite (Hl m Hm) in Hms.
Qed.

Lemma jitter_le `{JitterHash} key max : 0 <= max < 2 ^ 63 -> 0 <= deterministic_jitter_ms key max <= max.
Proof.
  intros Hm. unfold deterministic_jitter_ms. destruct (Z.eqb_spec max 0); [lia|]. unfold saturating_add. rewrite Z.min_l by lia.
  pose proof (Z.mod_pos_bound (jitter_hash key) (max + 1)). lia.
Qed.

Lemma round_next `{JitterHash} now key s s' interval :
  0 <= now < 2 ^ 63 -> 0 <= interval < 2 ^ 62 -> gs_interval s = interval -> schedule_round now key s = Some (s', true) ->
  now + interval / 10 ^ 6 <= gs_next_run_ms s' <= now + interval / 10 ^ 6 + interval / 10 ^ 6 / 10 /\ gs_next_run_ms s <= now <= gs_active_until_ms s.
Proof.
  intros Hn Hi Eg E. unfold schedule_round in E. destruct (Z.ltb_spec (gs_active_until_ms s) now); [done|]. destruct (Z.ltb_spec now (gs_next_run_ms s)); [done|].
  injection E as <-. cbn [gs_next_run_ms]. rewrite Eg. split; [|lia]. assert (Hms : 0 <= interval / 10 ^ 6 <= interval) by (split; [apply Z.div_pos; lia|apply Z.div_le_upper_bound; lia]).
  assert (Em : as_millis_u64 interval = interval / 10 ^ 6) by (unfold as_millis_u64; lia). rewrite Em.
  assert (0 <= interval / 10 ^ 6 / 10 <= interval / 10 ^ 6) by (split; [apply Z.div_pos; lia|apply Z.div_le_upper_bound; lia]).
  pose proof (jitter_le key (interval / 10 ^ 6 / 10) ltac:(lia)). unfold saturating_add. lia.
Qed.

(** Probes and picks, in any order; the picks of one group on one URL *)
Inductive HealthOp : Type :=
| OpProbe (node url : string) (timing : ProbeTiming) (alive : bool) (interval : Z) (error : option DelayError) (signature now : Z)
| OpPick (members : list string) (tolerance now : Z).

Fixpoint run_ops (t : UrlTester) (group url : string) (ops : list HealthOp) : list (option string) :=
  match ops with
  | [] => []
  | OpProbe node u timing alive interval error signature now :: ops =>
    run_ops (update_stats t node u (fun st => record_timing st timing alive interval error signature now)) group url ops
  | OpPick members tolerance now :: ops =>
    let '(t', r) := pick_fast t group members url tolerance now in r :: run_ops t' group url ops
  end.

(** [n] stays a candidate, and its own probes on the URL succeed; delays and tolerances are unsigned *)
Definition stays_up (n url : string) (op : HealthOp) : bool :=
  match op with
  | OpProbe node u timing alive _ _ _ _ => (alive || negb (bool_decide (node = n /\ u = url))) && (0 <=? pt_delay_ms timing)
  | OpPick members tolerance _ => bool_decide (n ∈ members) && (0 <=? tolerance)
  end.

Lemma stats_update t node u f n url :
  stats_of (update_stats t node u f) n url =
  if decide (node = n /\ u = url) then Some (f (default NodeUrlStats_default (stats_of t node u))) else
  stats_of t n url.
Proof.
  unfold update_stats, stats_of. cbn. destruct (decide (node = n /\ u = url)) as [[-> ->]|Hne].
  - rewrite lookup_insert_eq. rewrite lookup_insert_eq. by destruct (ut_stats t !! n); cbn; rewrite ?lookup_empty.
  - destruct (decide (node = n)) as [->|]; [|by rewrite lookup_insert_ne]. rewrite lookup_insert_eq, lookup_insert_ne by tauto.
    by destruct (ut_stats t !! n); cbn; rewrite ?lookup_empty.
Qed.

Lemma pick_fast_stats t group members url tolerance now : ut_stats (pick_fast t group members url tolerance now).1 = ut_stats t.
Proof. unfold pick_fast. by repeat case_match. Qed.

Lemma pick_fast_sticks t group members url tolerance now n w :
  0 <= tolerance -> ut_fast_pick t !! group = Some (Some (w, mkFastPick n 0)) -> n ∈ members -> alive_for_url t n url = true ->
  (forall m u st, stats_of t m u = Some st -> 0 <= ns_last_delay_ms st) ->
  (pick_fast t group members url tolerance now).2 = Some n
  /\ exists w', ut_fast_pick (pick_fast t group members url tolerance now).1 !! group = Some (Some (w', mkFastPick n 0)).
Proof.
  intros Ht He Hn Ha Hd. unfold pick_fast, fast_pick_hit. rewrite He. cbn. rewrite bool_decide_eq_true_2 by done.
  destruct (_ <? FAST_PICK_TTL); cbn; [split; [done|eauto]|]. destruct (scan_best t url members None) as [[nb nd]|] eqn:Es.
  - rewrite Ha. cbn. assert (0 <= nd).
    { pose proof (scan_least t url members) as Hl. rewrite Es in Hl. destruct Hl as (_ & _ & _ & -> & _). unfold last_delay_for_url, last_delay.
      destruct (stats_of t nb url) as [st|] eqn:Est; [|unfold DEAD_DELAY; lia]. destruct (ns_alive st); [by apply (Hd nb url)|unfold DEAD_DELAY; lia]. }
    destruct (Z.leb_spec 0 (saturating_add 32 nd tolerance)) as [|Hlt]; [|unfold saturating_add in Hlt; lia]. cbn. rewrite lookup_insert_eq. split; [done|eauto].
  - cbn. rewrite lookup_insert_eq. split; [done|eauto].
Qed.

(** ** Theorems *)

(** [pick_fast] without an earlier choice takes the first of the members with the least measured
    delay; whenever some member is measured it returns a member, alive unless the answer comes
    from the ten-second cache; and a fresh choice is repeated for ten seconds, whatever is
    measured meanwhile, as long as it is a candidate. *)
Theorem fast_pick_correct t group members url tolerance now t' r :
  pick_fast t group members url tolerance now = (t', r) ->
  (default None (ut_fast_pick t !! group) = None -> match r with None => forall m, m ∈ members -> measured t url m = false | Some n => least t url members (Some (n, last_delay_for_url t n url)) end)
  /\ (existsb (measured t url) members = true -> exists n, r = Some n /\ n ∈ members
      /\ (fast_pick_hit t group members now = None -> alive_for_url t n url = true
          /\ forall t2 members2 tolerance2 now2, ut_fast_pick t2 !! group = ut_fast_pick t' !! group -> n ∈ members2 -> now <= now2 < now + FAST_PICK_TTL ->
             (pick_fast t2 group members2 url tolerance2 now2).2 = Some n)).
Proof.
  intros E. split.
  - intros Hnone. unfold pick_fast in E. replace (fast_pick_hit t group members now) with (@None string) in E by (unfold fast_pick_hit; destruct (ut_fast_pick t !! group) as [[]|]; done).
    rewrite Hnone in E. pose proof (scan_least t url members) as Hl. destruct (scan_best t url members None) as [[nb nd]|]; simplify_eq; [|done].
    assert (nd = last_delay_for_url t nb url) as -> by (by destruct Hl as (_ & _ & _ & -> & _)). done.
  - intros Hex. assert (exists n, r = Some n) as [n ->].
    { destruct r as [n|]; [by exists n|]. exfalso. unfold pick_fast in E. destruct (fast_pick_hit _ _ _ _); [done|]. pose proof (scan_least t url members) as Hl.
      apply existsb_exists in Hex as (m & Hm%list_elem_of_In & Hms). destruct (scan_best t url members None) as [[nb nd]|]; [|by rewrite (Hl m Hm) in Hms].
      destruct (default None _) as [[w prev]|]; [|done]. by destruct (_ && _). }
    exists n. split; [done|]. split; [destruct (pick_fast_member _ _ _ _ _ _ _ _ E) as [|[? _]]; [done|congruence]|]. intros Hh. unfold pick_fast in E. rewrite Hh in E.
    pose proof (scan_least t url members) as Hl. destruct (scan_best t url members None) as [[nb nd]|].
    2:{ apply existsb_exists in Hex as (m & Hm%list_elem_of_In & Hms). by rewrite (Hl m Hm) in Hms. }
    apply least_member in Hl as [_ Hms%measured_alive].
    assert (Hc : alive_for_url t n url = true /\ exists d, ut_fast_pick t' !! group = Some (Some (now, mkFastPick n d))).
    { destruct (default None _) as [[w prev]|]; [destruct (bool_decide _ && alive_for_url t (fp_node prev) url && _) eqn:Ec|]; simplify_eq; cbn; rewrite lookup_insert_eq; split; eauto.
      apply andb_true_iff in Ec as [[_ Ha]%andb_true_iff _]. done. }
    destruct Hc as [Ha (d & Hd)]. split; [done|]. intros t2 members2 tolerance2 now2 Heq Hm2 Hn2. unfold pick_fast, fast_pick_hit. rewrite Heq, Hd. cbn.
    rewrite bool_decide_eq_true_2 by done. unfold saturating_sub. destruct (Z.ltb_spec (Z.max 0 (now2 - now)) FAST_PICK_TTL); [done|lia].
Qed.

(** A node that was picked before it was ever measured (its delay counts as zero) is never
    left again while it is a candidate and its probes succeed, however slow they show it to be
    and however fast the others are: the choice keeps the delay of the moment it was made. *)
Theorem fast_pick_untested_sticks t group url n w ops :
  ut_fast_pick t !! group = Some (Some (w, mkFastPick n 0)) -> alive_for_url t n url = true ->
  (forall m u st, stats_of t m u = Some st -> 0 <= ns_last_delay_ms st) ->
  forallb (stays_up n url) ops = true ->
  Forall (fun r => r = Some n) (run_ops t group url ops).
Proof.
  revert t w. induction ops as [|op ops IH]; intros t w He Ha Hd Hs; cbn; [constructor|]. cbn in Hs. apply andb_true_iff in Hs as [Hop Hs]. destruct op as [node u timing alive i e sig now|members tolerance now]; cbn in Hop.
  - apply andb_true_iff in Hop as [Hop Ht%Z.leb_le]. eapply (IH _ w); try done.
    + unfold alive_for_url. rewrite stats_update. destruct (decide (node = n /\ u = url)) as [[-> ->]|]; [|done]. cbn. rewrite bool_decide_eq_true_2 in Hop by done. by destruct alive.
    + intros m u' st. rewrite stats_update. destruct (decide (node = m /\ u = u')); [|apply Hd]. intros [= <-]. cbn. destruct alive; [done|unfold DEAD_DELAY; lia].
  - apply andb_true_iff in Hop as [Hm%bool_decide_eq_true Ht%Z.leb_le]. destruct (pick_fast_sticks t group members url tolerance now n w Ht He Hm Ha Hd) as (Hr & w' & He').
    pose proof (pick_fast_stats t group members url tolerance now) as Hst. destruct (pick_fast t group members url tolerance now) as [t' r]. cbn in *. subst r. constructor; [done|].
    assert (Heq : forall m u, stats_of t' m u = stats_of t m u) by (intros; unfold stats_of; by rewrite Hst).
    apply (IH t' w'); try done; [unfold alive_for_url; by rewrite Heq|intros m u st; rewrite Heq; apply Hd].
Qed.

(** ** A run of probes of one node and URL *)

(** A probe that came back: its time, what was measured, whether it succeeded, the interval of its
    group, its error and its signature *)
Record Probe : Type := mkProbe { pb_now : Z; pb_timing : ProbeTiming; pb_alive : bool; pb_interval : Z; pb_error : option DelayError; pb_signature : Z }.

Definition record (st : NodeUrlStats) (p : Probe) : NodeUrlStats := record_timing st (pb_timing p) (pb_alive p) (pb_interval p) (pb_error p) (pb_signature p) (pb_now p).
Definition run_probes (st : NodeUrlStats) (ps : list Probe) : NodeUrlStats := foldl record st ps.

(** What is expected of a run: the entries, the failures since the last success, the interval in
    milliseconds (the least one requested for the node), and the wait *)
Definition probe_entry (p : Probe) : HistoryEntry :=
  mkHistoryEntry (pb_now p) (if pb_alive p then pt_delay_ms (pb_timing p) else 0) (pt_connect_ms (pb_timing p)) (pt_handshake_ms (pb_timing p)) (pt_response_ms (pb_timing p)) (pt_unified (pb_timing p)).
Definition last_ten {A} (l : list A) : list A := drop (length l - 10) l.
Definition failure_run (failures : Z) (ps : list Probe) : Z := foldl (fun f p => if pb_alive p then 0 else f + 1) failures ps.
Definition interval_ms (st : NodeUrlStats) (p : Probe) : Z :=
  if ns_requested_interval_ms st =? 2 ^ 64 - 1 then pb_interval p / 10 ^ 6 else Z.min (pb_interval p / 10 ^ 6) (ns_requested_interval_ms st).
Definition wait_ms (failures every : Z) : Z :=
  if failures =? 0 then Z.max every 1000 else Z.min (Z.min (5000 * 2 ^ (failures - 1)) (Z.max every 5000)) 300000.

Lemma trim_front_last {A} (l : list A) : trim_front l HISTORY_CAP = last_ten l.
Proof.
  unfold last_ten, HISTORY_CAP. induction l as [|x l IH]; [done|]. cbn [trim_front]. destruct (Z.ltb_spec 10 (Z.of_nat (length (x :: l)))) as [Hl|Hl]; cbn [length] in *.
  - rewrite IH. replace (S (length l) - 10)%nat with (S (length l - 10)) by lia. done.
  - by replace (S (length l) - 10)%nat with 0%nat by lia.
Qed.

Lemma last_ten_app {A} (l : list A) x : last_ten (last_ten l ++ [x]) = last_ten (l ++ [x]).
Proof.
  unfold last_ten. rewrite !length_app, length_drop. cbn [length]. destruct (decide (length l <= 10)%nat) as [Hl|Hl].
  - replace (length l - 10)%nat with 0%nat by lia. by rewrite drop_0, Nat.sub_0_r.
  - rewrite !drop_app, drop_drop, length_drop. f_equal; f_equal; lia.
Qed.

Lemma div_max a b c : 0 < c -> Z.max a b / c = Z.max (a / c) (b / c).
Proof. intros Hc. destruct (Z.max_spec a b) as [[Hab ->]|[Hab ->]]; [rewrite Z.max_r|rewrite Z.max_l]; try done; apply Z.div_le_mono; lia. Qed.
Lemma div_min a b c : 0 < c -> Z.min a b / c = Z.min (a / c) (b / c).
Proof. intros Hc. destruct (Z.min_spec a b) as [[Hab ->]|[Hab ->]]; [rewrite Z.min_l|rewrite Z.min_r]; try done; apply Z.div_le_mono; lia. Qed.

(** The back-off in milliseconds: the bound on the exponent never decides. *)
Lemma retry_ms failures interval : 0 < failures -> 0 <= interval -> as_millis_u64 (failure_retry_delay failures interval) = wait_ms failures (interval / 10 ^ 6).
Proof.
  intros Hf Hi. unfold failure_retry_delay, wait_ms, saturating_sub. rewrite Z.max_r, Z.shiftl_mul_pow2 by lia. destruct (Z.eqb_spec failures 0); [lia|]. rewrite Z.mul_1_l.
  unfold as_millis_u64, FAILURE_RETRY_MIN, FAILURE_RETRY_MAX, from_secs. rewrite !div_min, div_max by lia.
  replace (5 * 10 ^ 9 * 2 ^ Z.min (failures - 1) 16 / 10 ^ 6) with (5000 * 2 ^ Z.min (failures - 1) 16) by (rewrite <- (Z.div_mul (5000 * _) (10 ^ 6)) by lia; f_equal; lia).
  change (5 * 10 ^ 9 / 10 ^ 6) with 5000. change (5 * 60 * 10 ^ 9 / 10 ^ 6) with 300000.
  destruct (Z.le_gt_cases (failures - 1) 16) as [Hle|Hgt]; [rewrite (Z.min_l (failures - 1) 16) by lia; lia|]. rewrite (Z.min_r (failures - 1) 16) by lia.
  pose proof (Z.pow_le_mono_r 2 16 (failures - 1) ltac:(lia) ltac:(lia)). change (2 ^ 16) with 65536 in *. lia.
Qed.

Lemma run_keeps st ps : ns_requested_interval_ms (run_probes st ps) = ns_requested_interval_ms st.
Proof. revert st. induction ps as [|p ps IH]; intros st; [done|]. cbn. unfold run_probes in IH. by rewrite IH. Qed.

Lemma failure_run_bounds f ps : 0 <= f -> 0 <= failure_run f ps <= f + Z.of_nat (length ps).
Proof.
  unfold failure_run. revert f. induction ps as [|p ps IH]; intros f Hf; [cbn; lia|]. cbn [foldl length]. specialize (IH (if pb_alive p then 0 else f + 1)). destruct (pb_alive p); lia.
Qed.

Lemma run_failures st ps : 0 <= ns_consecutive_failures st -> ns_consecutive_failures st + Z.of_nat (length ps) < 2 ^ 32 ->
  ns_consecutive_failures (run_probes st ps) = failure_run (ns_consecutive_failures st) ps.
Proof.
  unfold run_probes, failure_run. revert st. induction ps as [|p ps IH]; intros st H0 Hb; [done|]. cbn [foldl length] in *.
  assert (E : ns_consecutive_failures (record st p) = if pb_alive p then 0 else ns_consecutive_failures st + 1).
  { cbn. destruct (pb_alive p); [done|]. unfold wrapping_add. rewrite Z.mod_small; lia. }
  rewrite IH; [by rewrite E|rewrite E; destruct (pb_alive p); lia..].
Qed.

Lemma run_history st ps p : ns_history (run_probes st (ps ++ [p])) = last_ten (ns_history st ++ (probe_entry <$> ps ++ [p])).
Proof.
  assert (Hgen : forall ps st p, ns_history (run_probes st (ps ++ [p])) = last_ten (ns_history st ++ (probe_entry <$> ps ++ [p]))); [|by apply Hgen].
  clear. intros ps. induction ps as [|q ps IH] using rev_ind; intros st p; unfold run_probes in *; rewrite foldl_app; cbn [foldl record record_timing ns_history]; rewrite trim_front_last; [done|].
  rewrite IH, last_ten_app. f_equal. by rewrite (fmap_app _ (ps ++ [q])), (assoc_L (++)).
Qed.

(** [C35] Probing a node: after any run of probes the history holds the last ten entries, oldest
    first and the latest one last, and the delay reported is that of the last probe (none if it
    failed).  The failures are counted since the last success.  After a success the next probe is
    due after the interval, and at least a second; after [n] failures in a row it is due after
    5 s doubled [n - 1] times, but no longer than the interval (at least 5 s) and five minutes.
    The interval is the least one requested for the node.  The next round of an active group's
    schedule lies one to one and a tenth intervals ahead. *)
Theorem probe_schedule_exact `{JitterHash} st ps p :
  0 <= pb_now p < 2 ^ 63 -> 0 <= pb_interval p < 2 ^ 62 -> 0 <= ns_requested_interval_ms st < 2 ^ 64 ->
  0 <= ns_consecutive_failures st -> ns_consecutive_failures st + Z.of_nat (length ps) + 1 < 2 ^ 32 ->
  let st' := run_probes st (ps ++ [p]) in
  let failures := failure_run (ns_consecutive_failures st) (ps ++ [p]) in
  ns_history st' = last_ten (ns_history st ++ (probe_entry <$> ps ++ [p]))
  /\ last_delay st' = (if pb_alive p then pt_delay_ms (pb_timing p) else DEAD_DELAY)
  /\ ns_consecutive_failures st' = failures
  /\ ns_next_due_ms st' = pb_now p + wait_ms failures (interval_ms st p)
  /\ (forall key s s', gs_interval s = pb_interval p -> schedule_round (pb_now p) key s = Some (s', true) ->
      pb_now p + pb_interval p / 10 ^ 6 <= gs_next_run_ms s' <= pb_now p + pb_interval p / 10 ^ 6 + pb_interval p / 10 ^ 6 / 10 /\ gs_next_run_ms s <= pb_now p <= gs_active_until_ms s).
Proof.
  intros Hn Hi Hr Hf0 Hfb st' failures. pose proof (failure_run_bounds (ns_consecutive_failures st) ps Hf0) as Hfr.
  assert (Hfails : ns_consecutive_failures st' = failures) by (apply run_failures; rewrite ?length_app; cbn [length]; lia).
  split; [apply run_history|]. assert (E : st' = record (run_probes st ps) p) by (unfold st', run_probes; by rewrite foldl_app).
  split; [rewrite E; unfold last_delay; cbn; by destruct (pb_alive p)|]. split; [done|]. split; [|intros key s s'; by apply round_next].
  assert (Hd : 0 <= pb_interval p / 10 ^ 6 <= pb_interval p) by (split; [apply Z.div_pos; lia|apply Z.div_le_upper_bound; lia]).
  set (i := if ns_requested_interval_ms st =? 2 ^ 64 - 1 then pb_interval p else Z.min (pb_interval p) (from_millis (ns_requested_interval_ms st))).
  assert (Hi0 : 0 <= i) by (unfold i, from_millis; destruct (_ =? _); lia).
  assert (Hims : i / 10 ^ 6 = interval_ms st p).
  { unfold i, interval_ms. destruct (_ =? _); [done|]. rewrite div_min by lia. unfold from_millis. by rewrite Z.div_mul. }
  assert (Hile : 0 <= interval_ms st p <= pb_interval p / 10 ^ 6) by (rewrite <- Hims; split; [apply Z.div_pos; lia|unfold i; destruct (_ =? _); [lia|apply Z.div_le_mono; lia]]).
  assert (Hdue : ns_next_due_ms st' = saturating_add 64 (pb_now p) (as_millis_u64 (if pb_alive p then Z.max i SCHEDULER_TICK else failure_retry_delay failures i))).
  { rewrite <- Hfails, E. cbn [record record_timing ns_next_due_ms ns_consecutive_failures]. rewrite run_keeps. by destruct (pb_alive p). }
  rewrite Hdue. unfold failures, failure_run in *. rewrite foldl_app in *. cbn [foldl] in *. destruct (pb_alive p).
  - unfold wait_ms. cbn [Z.eqb]. unfold as_millis_u64, SCHEDULER_TICK, from_secs. rewrite div_max, Hims by lia. change (1 * 10 ^ 9 / 10 ^ 6) with 1000. unfold saturating_add. lia.
  - rewrite retry_ms, Hims by lia. unfold wait_ms, saturating_add. destruct (Z.eqb_spec (foldl (fun f p => if pb_alive p then 0 else f + 1) (ns_consecutive_failures st) ps + 1) 0); lia.
Qed.

Module HealthWitness.

#[local] Instance toy_jitter : JitterHash := {| jitter_hash := fun key => Z.of_nat (String.length key) |}.

Definition empty_tester : UrlTester := mkTester "http://t/" ∅ ∅ ∅.
Definition url : string := "http://t/".

(** Group [g] becomes active, and [a] is picked before any probe. *)
Definition activated : UrlTester := activate_group empty_tester "g" 1 ["a"; "b"] url "" None (from_secs 60) (from_secs 600) 1000.
Definition picked : UrlTester := (pick_fast activated "g" ["a"; "b"] url 50 0).1.
Definition probe (node : string) (delay now : Z) : HealthOp := OpProbe node url (mkProbeTiming delay 0 0 0 false) true (from_secs 60) None 0 now.
Definition slow_ops : list HealthOp := [probe "a" 4000 2000; probe "b" 20 2000; OpPick ["a"; "b"] 50 (from_secs 3600)].

Lemma fast_pick_correct_witness : (pick_fast activated "g" ["a"; "b"] url 50 0).2 = Some "a" /\ least activated url ["a"; "b"] (Some ("a", 0)).
Proof.
  pose proof (fast_pick_correct activated "g" ["a"; "b"] url 50 0 picked (Some "a") eq_refl) as [H _]. split; [reflexivity|]. exact (H eq_refl).
Defined.

(** [a] answers in four seconds, [b] in 20 ms, and [a] is still picked an hour later. *)
Lemma fast_pick_untested_sticks_witness : Forall (fun r => r = Some "a") (run_ops picked "g" url slow_ops) /\ run_ops picked "g" url slow_ops = [Some "a"].
Proof.
  split; [|vm_compute; reflexivity]. apply (fast_pick_untested_sticks picked "g" url "a" 0 slow_ops); [reflexivity|reflexivity| |vm_compute; reflexivity].
  intros m u st. set (f := fun st => request_interval st (from_secs 60) 1000).
  change (stats_of picked m u) with (stats_of (update_stats (update_stats empty_tester "a" url f) "b" url f) m u). rewrite !stats_update.
  repeat destruct (decide _); intros E; try discriminate E; injection E as <-; vm_compute; discriminate.
Defined.

(** A success and three failures: the next probe is due 20 seconds after the last one. *)
Definition failed (now : Z) : Probe := mkProbe now ProbeTiming_default false (from_secs 60) (Some Timeout) 0.

Lemma probe_schedule_exact_witness :
  ns_next_due_ms (run_probes NodeUrlStats_default ([mkProbe 1000 (mkProbeTiming 40 10 20 10 true) true (from_secs 60) None 0; failed 61000; failed 66000] ++ [failed 76000])) = 76000 + 20000.
Proof.
  apply (probe_schedule_exact NodeUrlStats_default [mkProbe 1000 (mkProbeTiming 40 10 20 10 true) true (from_secs 60) None 0; failed 61000; failed 66000] (failed 76000)); done.
Defined.

End HealthWitness.
