(* ===== verification/GroupSelect.v ===== *)
(** * Group selection

    Models [GroupSelector] ([core-runtime/src/group_selector.rs]): member filtering, the pin and
    its probe tokens, the strategies (manual, latency, fallback, load balancing, random,
    weighted, smart, chain), the failure window.  The regular expressions, globs, hashes and the
    public suffix list are the class [GroupLib], the [lru] cache the class [StickyCache], random
    numbers the class [GroupRandom], the scoring selector of [core-smart] the interface
    [SmartApi].  Each method is one step; the tester is passed along.  [to_clash_json] and
    [reselect_after_manual_probe] are left out. *)

From stdpp Require Import base list gmap strings numbers option relations pretty.
From S2P Require Import Prelude Net Text Instances Health.

(** ** Jump consistent hash *)

(** The quotient of two positive integers as [f64] (round to nearest, ties to even), cut to an
    integer by [as i64].  Both operands are exact: [(b + 1) * 2^31] has at most 31 significant
    bits and the divisor is at most [2^31]. *)
Definition round_half_even (n d : Z) : Z :=
  let q := n / d in let r := n mod d in
  if 2 * r <? d then q else if d <? 2 * r then q + 1 else if Z.even q then q else q + 1.

Definition f64_div_trunc (a b : Z) : Z :=
  let s := 52 - Z.log2 (a / b) in
  if 0 <=? s then round_half_even (a * 2 ^ s) b / 2 ^ s else round_half_even a (b * 2 ^ (- s)) * 2 ^ (- s).

Definition wrapping_mul (w a b : Z) : Z := (a * b) mod 2 ^ w.

Definition next_key (key : Z) : Z := wrapping_add 64 (wrapping_mul 64 key 2862933555777941757) 1.
Definition next_bucket (key b : Z) : Z := f64_div_trunc ((b + 1) * 2 ^ 31) (Z.shiftr key 33 + 1).

Fixpoint jump_loop (fuel : nat) (key b j buckets : Z) : Z :=
  if j <? buckets then
    match fuel with
    | O => b
    | S fuel => let key := next_key key in jump_loop fuel key j (next_bucket key j) buckets
    end
  else b.

Definition jump_hash (key buckets : Z) : Z := jump_loop (Z.to_nat buckets) key (-1) 0 buckets.

(** The double quotient of a number and a smaller divisor is at least what the integers say. *)
Lemma round_ge n d k : 0 < d -> k * d <= n -> k <= round_half_even n d.
Proof.
  intros Hd Hk. assert (k <= n / d) by (apply Z.div_le_lower_bound; lia). unfold round_half_even. repeat case_match; lia.
Qed.

Lemma div_trunc_ge a b k : 0 < b -> 0 < k <= 2 ^ 52 -> k * b <= a -> k <= f64_div_trunc a b.
Proof.
  intros Hb Hk Ha. unfold f64_div_trunc. set (s := 52 - Z.log2 (a / b)). assert (Hq : k <= a / b) by (apply Z.div_le_lower_bound; lia). destruct (Z.leb_spec 0 s).
  - pose proof (Z.pow_pos_nonneg 2 s ltac:(lia) ltac:(lia)). apply Z.div_le_lower_bound; [lia|]. apply round_ge; [done|]. nia.
  - set (e := - s). pose proof (Z.pow_pos_nonneg 2 e ltac:(lia) ltac:(lia)). pose proof (Z.log2_spec (a / b) ltac:(lia)) as [Hl _].
    replace (Z.log2 (a / b)) with (52 + e) in Hl by (unfold e, s; lia). rewrite Z.pow_add_r in Hl by lia. pose proof (Z.mul_div_le a b Hb).
    assert (2 ^ 52 <= round_half_even a (b * 2 ^ e)) by (apply round_ge; nia). nia.
Qed.

Lemma next_bucket_grows key b : 0 <= key < 2 ^ 64 -> 0 <= b < 2 ^ 51 -> b + 1 <= next_bucket key b.
Proof.
  intros Hk Hb. unfold next_bucket. rewrite Z.shiftr_div_pow2 by lia. assert (0 <= key / 2 ^ 33 < 2 ^ 31) by (split; [apply Z.div_pos; lia|apply Z.div_lt_upper_bound; lia]).
  apply div_trunc_ge; [lia|lia|nia].
Qed.

Lemma next_key_range key : 0 <= next_key key < 2 ^ 64.
Proof. unfold next_key, wrapping_add. apply Z.mod_pos_bound. lia. Qed.

(** The loop ends: every bucket is beyond the one before. *)
Lemma jump_loop_range fuel : forall key b j n, -1 <= b < j -> b < n -> n < 2 ^ 51 -> 0 <= j -> n <= j + Z.of_nat fuel -> b <= jump_loop fuel key b j n < n /\ (j < n -> j <= jump_loop fuel key b j n).
Proof.
  induction fuel as [|fuel IH]; intros key b j n Hb Hbn Hn Hj Hf; cbn [jump_loop]; (destruct (Z.ltb_spec j n); [|lia]); [lia|].
  pose proof (next_bucket_grows (next_key key) j (next_key_range key) ltac:(lia)).
  destruct (IH (next_key key) j (next_bucket (next_key key) j) n); lia.
Qed.

(** More fuel changes nothing, and one bucket more moves a key to the new bucket or not at all. *)
Lemma jump_loop_grow fuel fuel' : forall key b j n,
  -1 <= b < j -> n < 2 ^ 51 - 1 -> 0 <= j -> n <= j + Z.of_nat fuel -> n + 1 <= j + Z.of_nat fuel' ->
  jump_loop fuel' key b j (n + 1) = jump_loop fuel key b j n \/ jump_loop fuel' key b j (n + 1) = n.
Proof.
  revert fuel'. induction fuel as [|fuel IH]; intros fuel' key b j n Hb Hn Hj Hf Hf'.
  - cbn [jump_loop]. destruct (Z.ltb_spec j n); [lia|]. destruct (decide (j = n)) as [->|]; [right|left].
    + destruct (jump_loop_range fuel' key b n (n + 1)) as [H1 H2]; lia.
    + destruct fuel'; cbn [jump_loop]; (destruct (Z.ltb_spec j (n + 1)); [lia|done]).
  - cbn [jump_loop]. destruct (Z.ltb_spec j n) as [Hlt|Hge].
    + destruct fuel' as [|fuel']; [lia|]. cbn [jump_loop]. destruct (Z.ltb_spec j (n + 1)); [|lia].
      pose proof (next_bucket_grows (next_key key) j (next_key_range key) ltac:(lia)). apply IH; lia.
    + destruct (decide (j = n)) as [->|]; [right|left].
      * destruct (jump_loop_range fuel' key b n (n + 1)) as [H1 H2]; lia.
      * destruct fuel'; cbn [jump_loop]; (destruct (Z.ltb_spec j (n + 1)); [lia|done]).
Qed.

Lemma jump_hash_lt key n : 0 < n < 2 ^ 31 -> 0 <= jump_hash key n < n.
Proof. intros Hn. unfold jump_hash. destruct (jump_loop_range (Z.to_nat n) key (-1) 0 n) as [H1 H2]; lia. Qed.

(** [x as i32] of a length *)
Definition as_i32 (n : Z) : Z := let m := n mod 2 ^ 32 in if m <? 2 ^ 31 then m else m - 2 ^ 32.

(** ** Libraries *)

Class GroupLib : Type := {
  group_regex : string -> option (string -> bool);
  group_glob : string -> option (string -> bool);
  ahash_str : string -> Z;
  psl_domain : string -> option string
}.

(** [random_range(0..n)], and a sample of [WeightedIndex] ([None] when it cannot be built) *)
Class GroupRandom : Type := {
  random_range : Z -> Z;
  random_range_lt : forall n, 0 < n -> 0 <= random_range n < n;
  weighted_index : list Z -> option Z;
  weighted_index_lt : forall ws i, weighted_index ws = Some i -> 0 <= i < Z.of_nat (length ws)
}.

(** [LruCache] of member indices and times: a lookup refreshes the entry, an insertion may evict another key. *)
Class StickyCache : Type := {
  Lru : Type;
  lru_get : Lru -> Z -> option (nat * Z) * Lru;
  lru_put : Lru -> Z -> nat * Z -> Lru;
  lru_pop : Lru -> Z -> Lru;
  lru_get_put : forall c k v, (lru_get (lru_put c k v) k).1 = Some v
}.

Inductive SmartSticky : Type := StickyOff | StickySite | StickySession.

Record SmartContext : Type := mkSmartContext {
  sc_group : string; sc_host : string; sc_prefer : list string; sc_avoid : list string;
  sc_current : option string; sc_sticky : option SmartSticky; sc_session_key : option string
}.

(** The first argument stands for the state of the smart selector, which successes and failures of dials change. *)
Class SmartApi : Type := {
  choose_node : Z -> SmartContext -> list string -> string;
  choose_node_member : forall state ctx members, members <> [] -> choose_node state ctx members ∈ members
}.

(** ** Data *)

Inductive ChooseStrategy : Type := Manual | Smart | Fast | Stable | Spread | Random | Weighted | Chain.
Inductive LbStrategy : Type := ConsistentHashing | RoundRobin | StickySessions.

#[global] Instance ChooseStrategy_eq_dec : EqDecision ChooseStrategy.
Proof. solve_decision. Defined.

Definition LbStrategy_parse (s : string) : option LbStrategy :=
  if bool_decide (s = "consistent-hashing" \/ s = "consistent_hashing") then Some ConsistentHashing
  else if bool_decide (s = "round-robin" \/ s = "round_robin") then Some RoundRobin
  else if bool_decide (s = "sticky-sessions" \/ s = "sticky_sessions") then Some StickySessions
  else None.

Inductive PinSource : Type := ClashApi | NativeApi | Restored.

Record GroupPin : Type := mkPin { pin_node : string; pin_generation_of : Z; pin_created_at_ms : Z; pin_source : PinSource }.
Record ManualProbeToken : Type := mkToken { tok_generation : option Z; tok_release_after_success : bool }.

(** [GroupPlan] of [core-config]; [gp_weights] is a [BTreeMap], as a list in key order. *)
Record GroupPlan : Type := mkGroupPlan {
  gp_name : string;
  gp_choose : ChooseStrategy;
  gp_members : list string;
  gp_min_members : Z;
  gp_max_members : Z;
  gp_default_selected : string;
  gp_empty_fallback : string;
  gp_lazy : bool;
  gp_weights : list (string * Z);
  gp_prefer : list string;
  gp_avoid : list string;
  gp_check : option string;
  gp_expected_status : string;
  gp_interval : Z;
  gp_idle_timeout : Z;
  gp_tolerance : Z;
  gp_unified_delay : option bool;
  gp_strategy : string;
  gp_filter : string;
  gp_exclude_filter : string;
  gp_exclude_type : string;
  gp_max_failed_times : Z;
  gp_test_timeout : Z;
  gp_disable_udp : bool;
  gp_sticky : option string;
  gp_path : list string;
  gp_hidden : bool;
  gp_icon : string
}.

(** The fields of [GroupOptions] but for [hidden] and [icon] *)
Record GroupOptions : Type := mkGroupOptions {
  go_url : option string;
  go_expected_status : string;
  go_lb_strategy : LbStrategy;
  go_tolerance : Z;
  go_interval : Z;
  go_idle_timeout : Z;
  go_unified_delay : option bool;
  go_filter : string;
  go_exclude_filter : string;
  go_exclude_type : string;
  go_max_failed_times : Z;
  go_test_timeout_ms : Z;
  go_disable_udp : bool;
  go_lazy : bool
}.

Record GroupMeta : Type := mkGroupMeta { gm_host : string; gm_dst_ip : option IpAddr; gm_src_ip : option IpAddr; gm_port : Z; gm_network : string }.

(** Clock readings of a call: Unix milliseconds, the monotonic clock, Unix nanoseconds, and the state of the smart selector at that moment *)
Record Clock : Type := mkClock { cl_now_ms : Z; cl_instant : Z; cl_now_nanos : Z; cl_smart : Z }.

Definition sticky_ttl : Z := from_secs 600.

Section group.
Context `{GroupLib, GroupRandom, StickyCache, SmartApi, NetText, StrCase}.

Record GroupSelector : Type := mkSelector {
  sel_plan : GroupPlan;
  sel_opts : GroupOptions;
  sel_filter_regs : list (string -> bool);
  sel_exclude_regs : list (string -> bool);
  sel_exclude_types : list string;
  sel_health_revision : Z;
  sel_pin : option GroupPin;
  sel_pin_generation : Z;
  sel_fail_times : Z;
  sel_fail_first : option Z;
  sel_rr : Z;
  sel_sticky : Lru;
  sel_last_pick : option string
}.

Definition with_pin (g : GroupSelector) (pin : option GroupPin) (generation : Z) (last : option string) : GroupSelector :=
  mkSelector (sel_plan g) (sel_opts g) (sel_filter_regs g) (sel_exclude_regs g) (sel_exclude_types g) (sel_health_revision g) pin generation
    (sel_fail_times g) (sel_fail_first g) (sel_rr g) (sel_sticky g) last.

Definition with_lb (g : GroupSelector) (rr : Z) (sticky : Lru) : GroupSelector :=
  mkSelector (sel_plan g) (sel_opts g) (sel_filter_regs g) (sel_exclude_regs g) (sel_exclude_types g) (sel_health_revision g) (sel_pin g) (sel_pin_generation g)
    (sel_fail_times g) (sel_fail_first g) rr sticky (sel_last_pick g).

Definition with_failures (g : GroupSelector) (times : Z) (first : option Z) : GroupSelector :=
  mkSelector (sel_plan g) (sel_opts g) (sel_filter_regs g) (sel_exclude_regs g) (sel_exclude_types g) (sel_health_revision g) (sel_pin g) (sel_pin_generation g)
    times first (sel_rr g) (sel_sticky g) (sel_last_pick g).

(** ** Members *)

Definition compile_regs_backtick (s : string) : list (string -> bool) :=
  omap group_regex (filter (fun p => p <> "") (str_split 96 s)).

Definition exclude_types (s : string) : list string :=
  if bool_decide (s = "") then [] else filter (fun x => x <> "") ((fun x => to_lowercase (str_trim x)) <$> str_split 124 s).

(** [revision] is the hash of [group_health_revision]. *)
Definition set_options (g : GroupSelector) (opts : GroupOptions) (revision : Z) : GroupSelector :=
  mkSelector (sel_plan g) opts (compile_regs_backtick (go_filter opts)) (compile_regs_backtick (go_exclude_filter opts)) (exclude_types (go_exclude_type opts)) revision
    (sel_pin g) (sel_pin_generation g) (sel_fail_times g) (sel_fail_first g) (sel_rr g) (sel_sticky g) (sel_last_pick g).

Definition GroupOptions_default : GroupOptions :=
  mkGroupOptions None "" ConsistentHashing 50 (from_secs 60) (from_secs (10 * 60)) None "" "" "" 5 5000 false true.

(** [sticky] is the new cache of [LbState]. *)
Definition with_options (plan : GroupPlan) (opts : GroupOptions) (revision : Z) (sticky : Lru) : GroupSelector :=
  set_options (mkSelector plan GroupOptions_default [] [] [] 0 None 0 0 None 0 sticky None) opts revision.

Definition plan_options (plan : GroupPlan) : GroupOptions :=
  mkGroupOptions (gp_check plan) (gp_expected_status plan) (default ConsistentHashing (LbStrategy_parse (gp_strategy plan))) (gp_tolerance plan)
    (gp_interval plan) (gp_idle_timeout plan) (gp_unified_delay plan) (gp_filter plan) (gp_exclude_filter plan) (gp_exclude_type plan)
    (gp_max_failed_times plan) (as_millis_u64 (gp_test_timeout plan)) (gp_disable_udp plan) (gp_lazy plan).

Definition GroupSelector_new (plan : GroupPlan) (revision : Z) (sticky : Lru) : GroupSelector := with_options plan (plan_options plan) revision sticky.

Definition member_kept (g : GroupSelector) (protocol_of : string -> string) (n : string) : bool :=
  negb (negb (bool_decide (sel_exclude_types g = [])) && bool_decide (to_lowercase (protocol_of n) ∈ sel_exclude_types g))
  && negb (negb (Nat.eqb (length (sel_filter_regs g)) 0) && negb (existsb (fun r => r n) (sel_filter_regs g)))
  && negb (negb (Nat.eqb (length (sel_exclude_regs g)) 0) && existsb (fun r => r n) (sel_exclude_regs g)).

Definition filtered_members (g : GroupSelector) (protocol_of : string -> string) : list string :=
  filter (fun n => member_kept g protocol_of n = true) (gp_members (sel_plan g)).

Definition is_feed_placeholder (name : string) : bool :=
  if String.prefix "feed:" name then negb (bool_decide (str_trim (String.substring 5 (String.length name - 5) name) = "")) else false.

(** The candidates of [pick_eligible_with_protocol], cut to [max_members] *)
Definition selectable (g : GroupSelector) (eligible : string -> bool) (protocol_of : string -> string) : list string :=
  let members := filter (fun m => is_feed_placeholder m = false) (filtered_members g protocol_of) in
  let members := filter (fun m => eligible m = true) members in
  if (0 <? gp_max_members (sel_plan g)) && (gp_max_members (sel_plan g) <? Z.of_nat (length members))
  then take (Z.to_nat (gp_max_members (sel_plan g))) members else members.

(** ** Pins *)

Definition set_pin (g : GroupSelector) (node : string) (source : PinSource) (now_ms : Z) : GroupSelector * GroupPin :=
  let generation := wrapping_add 64 (sel_pin_generation g) 1 in
  let pin := mkPin node generation now_ms source in
  (with_pin g (Some pin) generation (Some node), pin).

Definition restore_pin (g : GroupSelector) (pin : GroupPin) : GroupSelector :=
  let pin := mkPin (pin_node pin) (pin_generation_of pin) (pin_created_at_ms pin) Restored in
  with_pin g (Some pin) (Z.max (sel_pin_generation g) (pin_generation_of pin)) (Some (pin_node pin)).

Definition clear_pin (g : GroupSelector) : GroupSelector * option GroupPin :=
  (with_pin g None (sel_pin_generation g) (sel_last_pick g), sel_pin g).

Definition restore_pin_after_failed_commit (g : GroupSelector) (pin : option GroupPin) (last_pick : option string) : GroupSelector :=
  with_pin g pin (sel_pin_generation g) last_pick.

Definition begin_manual_probe (g : GroupSelector) : ManualProbeToken :=
  mkToken (pin_generation_of <$> sel_pin g) (negb (bool_decide (gp_choose (sel_plan g) = Manual))).

Definition complete_manual_probe (g : GroupSelector) (token : ManualProbeToken) (any_success : bool) : GroupSelector * bool :=
  if negb any_success || negb (tok_release_after_success token) then (g, false) else
  match tok_generation token with
  | None => (g, false)
  | Some generation =>
    if bool_decide (pin_generation_of <$> sel_pin g = Some generation) then ((clear_pin g).1, true) else (g, false)
  end.

(** ** Strategies *)

Definition alive (tester : option UrlTester) (url node : string) : bool :=
  match tester with Some t => alive_for_url t node url | None => true end.

Definition first_member (members : list string) : option string := head members.

Definition is_preferred (g : GroupSelector) (node : string) : bool :=
  existsb (fun pattern => negb (bool_decide (pattern = "")) && str_contains node pattern) (gp_prefer (sel_plan g)).
Definition is_avoided (g : GroupSelector) (node : string) : bool :=
  existsb (fun pattern => negb (bool_decide (pattern = "")) && str_contains node pattern) (gp_avoid (sel_plan g)).

Definition non_avoided_members (g : GroupSelector) (members : list string) (url : string) (tester : option UrlTester) : list string :=
  if bool_decide (gp_avoid (sel_plan g) = []) then members else
  let primary := filter (fun m => alive tester url m = true) (filter (fun m => is_avoided g m = false) members) in
  if bool_decide (primary = []) then members else primary.

Definition pick_pin (g : GroupSelector) (members : list string) (url : string) (tester : option UrlTester) : option string :=
  match sel_pin g with
  | None => None
  | Some pin =>
    if negb (bool_decide (pin_node pin ∈ members)) then None else
    if bool_decide (gp_choose (sel_plan g) = Manual) || alive tester url (pin_node pin) then Some (pin_node pin) else None
  end.

Definition pick_manual (g : GroupSelector) (members : list string) : option string :=
  match find (fun m => bool_decide (m = gp_default_selected (sel_plan g))) members with
  | Some m => Some m
  | None => first_member members
  end.

Definition pick_random (g : GroupSelector) (members : list string) (url : string) (tester : option UrlTester) : outcome (option string) :=
  let available := filter (fun m => alive tester url m = true) (non_avoided_members g members url tester) in
  if bool_decide (available = []) then Ok (first_member members) else
  m ← index available (random_range (Z.of_nat (length available)));
  Ok (Some m).

Definition weight_for (g : GroupSelector) (member : string) : Z :=
  let ws := omap (fun pw => match group_glob pw.1 with Some glob => if glob member then Some pw.2 else None | None => None end) (gp_weights (sel_plan g)) in
  match ws with [] => 1 | w :: ws => foldl Z.max w ws end.

Definition pick_weighted (g : GroupSelector) (members : list string) (url : string) (tester : option UrlTester) : outcome (option string) :=
  let available := filter (fun m => alive tester url m = true) (non_avoided_members g members url tester) in
  if bool_decide (available = []) then Ok (first_member members) else
  let i := default 0 (weighted_index (weight_for g <$> available)) in
  m ← index available i;
  Ok (Some m).

(** The least delay that is not dead *)
Definition fastest (t : UrlTester) (url : string) (nodes : list string) : option Z :=
  foldl (fun acc d => Some (match acc with Some a => Z.min a d | None => d end)) None
    (filter (fun d => d <> DEAD_DELAY) ((fun n => last_delay_for_url t n url) <$> nodes)).

Definition url_test_candidates (g : GroupSelector) (t : UrlTester) (members : list string) (url : string) : list string :=
  let primary := non_avoided_members g members url (Some t) in
  if bool_decide (gp_prefer (sel_plan g) = []) then primary else
  let preferred := filter (fun n => is_preferred g n = true) primary in
  match fastest t url primary, fastest t url preferred with
  | Some f, Some p => if p <=? saturating_add 32 f (go_tolerance (sel_opts g)) then preferred else primary
  | _, _ => primary
  end.

Definition pick_url_test (g : GroupSelector) (members : list string) (url : string) (tester : option UrlTester) (clock : Clock) : option UrlTester * option string :=
  match tester with
  | None => (None, first_member members)
  | Some t =>
    let '(t', r) := pick_fast t (gp_name (sel_plan g)) (url_test_candidates g t members url) url (go_tolerance (sel_opts g)) (cl_instant clock) in
    (Some t', match r with Some p => Some p | None => first_member members end)
  end.

Definition in_tier (g : GroupSelector) (tier : Z) (member : string) : bool :=
  let preferred := is_preferred g member in let avoided := is_avoided g member in
  if tier =? 0 then preferred && negb avoided else if tier =? 1 then negb preferred && negb avoided else avoided.

Definition pick_fallback (g : GroupSelector) (members : list string) (url : string) (tester : option UrlTester) : option string :=
  let tier k := find (fun m => in_tier g k m && alive tester url m) members in
  match tier 0, tier 1, tier 2 with
  | Some m, _, _ => Some m
  | None, Some m, _ => Some m
  | None, None, Some m => Some m
  | None, None, None => first_member members
  end.

Definition etld_plus_one (host : string) : string :=
  let host := to_ascii_lowercase (trim_end_char 46 host) in
  match parse_ip host with Some _ => host | None => default host (psl_domain host) end.

Definition lb_key (meta : GroupMeta) : string :=
  if bool_decide (gm_host meta = "") then match gm_dst_ip meta with Some ip => show_ip ip | None => "" end else
  match parse_ip (gm_host meta) with Some _ => gm_host meta | None => etld_plus_one (gm_host meta) end.

Definition lb_key_sticky (meta : GroupMeta) : string :=
  (match gm_src_ip meta with Some ip => show_ip ip | None => "" end) +:+ lb_key meta.

(** Up to [tries] probes of the jump hash from [k] on: the index of an alive member *)
Fixpoint jump_tries (tries : nat) (k : Z) (members : list string) (url : string) (tester : option UrlTester) : outcome (option Z) :=
  match tries with
  | O => Ok None
  | S tries =>
    let i := jump_hash k (as_i32 (Z.of_nat (length members))) in
    m ← index members i;
    if alive tester url m then Ok (Some i) else jump_tries tries (wrapping_add 64 k 1) members url tester
  end.

Definition lb_consistent_hashing (meta : GroupMeta) (members : list string) (url : string) (tester : option UrlTester) : outcome (option string) :=
  if as_i32 (Z.of_nat (length members)) <=? 0 then Ok None else
  hit ← jump_tries 5 (ahash_str (lb_key meta)) members url tester;
  match hit with
  | Some i => m ← index members i; Ok (Some m)
  | None => match find (alive tester url) members with Some m => Ok (Some m) | None => Ok (first_member members) end
  end.

(** The scan [for off in 0..n] from [start] *)
Fixpoint rr_scan (offs : nat) (start : Z) (members : list string) (url : string) (tester : option UrlTester) : outcome (option string) :=
  match offs with
  | O => Ok None
  | S offs =>
    m ← index members (start mod Z.of_nat (length members));
    if alive tester url m then Ok (Some m) else rr_scan offs (start + 1) members url tester
  end.

Definition lb_round_robin (g : GroupSelector) (members : list string) (url : string) (tester : option UrlTester) : outcome (GroupSelector * option string) :=
  let n := Z.of_nat (length members) in
  if n =? 0 then Ok (g, None) else
  let start := sel_rr g mod n in
  let g := with_lb g (wrapping_add 64 (sel_rr g) 1) (sel_sticky g) in
  hit ← rr_scan (length members) start members url tester;
  Ok (g, match hit with Some m => Some m | None => first_member members end).

(** [StickyLru::get] *)
Definition sticky_get (c : Lru) (k now : Z) : option nat * Lru :=
  let '(r, c) := lru_get c k in
  match r with
  | Some (idx, stored) =>
    if saturating_sub now stored <? sticky_ttl then (Some idx, lru_put c k (idx, now)) else (None, lru_pop c k)
  | None => (None, c)
  end.

Definition lb_sticky (g : GroupSelector) (meta : GroupMeta) (members : list string) (url : string) (tester : option UrlTester) (clock : Clock)
  : outcome (GroupSelector * option string) :=
  let key := ahash_str (lb_key_sticky meta) in
  if Nat.eqb (length members) 0 then Ok (g, None) else
  let '(hit, c) := sticky_get (sel_sticky g) key (cl_instant clock) in
  let done c := with_lb g (sel_rr g) c in
  let rehash :=
    found ← jump_tries 5 (wrapping_add 64 key (cl_now_nanos clock)) members url tester;
    match found with
    | Some i => m ← index members i; Ok (done (lru_put c key (Z.to_nat i, cl_instant clock)), Some m)
    | None => Ok (done (lru_put c key (0%nat, cl_instant clock)), first_member members)
    end in
  match hit with
  | Some idx =>
    if Nat.ltb idx (length members) then
      m ← index members (Z.of_nat idx);
      if alive tester url m then Ok (done c, Some m) else rehash
    else rehash
  | None => rehash
  end.

Definition pick_load_balance (g : GroupSelector) (meta : GroupMeta) (members : list string) (url : string) (tester : option UrlTester) (clock : Clock)
  : outcome (GroupSelector * option string) :=
  let candidates := non_avoided_members g members url tester in
  match go_lb_strategy (sel_opts g) with
  | ConsistentHashing => r ← lb_consistent_hashing meta candidates url tester; Ok (g, r)
  | RoundRobin => lb_round_robin g candidates url tester
  | StickySessions => lb_sticky g meta candidates url tester clock
  end.

Definition pick_smart (g : GroupSelector) (meta : GroupMeta) (members : list string) (clock : Clock) : option string :=
  let sticky := match gp_sticky (sel_plan g) with
    | Some s => if bool_decide (s = "off") then Some StickyOff else if bool_decide (s = "site") then Some StickySite else if bool_decide (s = "session") then Some StickySession else None
    | None => None end in
  let session_key := match sticky with
    | Some StickySession =>
      Some ((match gm_src_ip meta with Some ip => show_ip ip | None => "" end) +:+ "|" +:+ gm_host meta +:+ "|" +:+ pretty (gm_port meta) +:+ "|" +:+ gm_network meta)
    | _ => None end in
  Some (choose_node (cl_smart clock) (mkSmartContext (gp_name (sel_plan g)) (gm_host meta) (gp_prefer (sel_plan g)) (gp_avoid (sel_plan g)) (sel_last_pick g) sticky session_key) members).

Definition pick_chain (g : GroupSelector) (members : list string) : option string :=
  match gp_path (sel_plan g) with p :: _ => Some p | [] => first_member members end.

(** The strategy of the group: the selector and tester afterwards, and the choice *)
Definition pick_strategy (g : GroupSelector) (meta : GroupMeta) (members : list string) (url : string) (tester : option UrlTester) (clock : Clock)
  : outcome (GroupSelector * option UrlTester * option string) :=
  match gp_choose (sel_plan g) with
  | Manual => Ok (g, tester, pick_manual g members)
  | Smart => Ok (g, tester, pick_smart g meta members clock)
  | Fast => let '(t, r) := pick_url_test g members url tester clock in Ok (g, t, r)
  | Stable => Ok (g, tester, pick_fallback g members url tester)
  | Spread => '(g, r) ← pick_load_balance g meta members url tester clock; Ok (g, tester, r)
  | Random => r ← pick_random g members url tester; Ok (g, tester, r)
  | Weighted => r ← pick_weighted g members url tester; Ok (g, tester, r)
  | Chain => Ok (g, tester, pick_chain g members)
  end.

Definition probe_url (g : GroupSelector) (tester : option UrlTester) : string :=
  match go_url (sel_opts g) with Some url => url | None => match tester with Some t => ut_default_url t | None => "" end end.

(** The health plan of an automatic group is (re)activated by traffic. *)
Definition activate_health (g : GroupSelector) (members : list string) (url : string) (t : UrlTester) (clock : Clock) : UrlTester :=
  let opts := sel_opts g in
  activate_group t (gp_name (sel_plan g)) (sel_health_revision g) members url (go_expected_status opts) (go_unified_delay opts) (go_interval opts)
    (if go_lazy opts then go_idle_timeout opts else from_secs (10 * 365 * 24 * 60 * 60)) (cl_now_ms clock).

Definition prepare_tester (g : GroupSelector) (members : list string) (url : string) (tester : option UrlTester) (clock : Clock) : option UrlTester :=
  if bool_decide (gp_choose (sel_plan g) = Manual) then tester else (fun t => activate_health g members url t clock) <$> tester.

Definition note_pick (g : GroupSelector) (chosen : option string) : GroupSelector :=
  match chosen with Some n => with_pin g (sel_pin g) (sel_pin_generation g) (Some n) | None => g end.

Definition pick_eligible_with_protocol (g : GroupSelector) (meta : GroupMeta) (tester : option UrlTester) (eligible : string -> bool) (protocol_of : string -> string) (clock : Clock)
  : outcome (GroupSelector * option UrlTester * option string) :=
  if bool_decide (gm_network meta = "udp") && go_disable_udp (sel_opts g) then Ok (g, tester, None) else
  let members := selectable g eligible protocol_of in
  if Z.of_nat (length members) <? Z.max (gp_min_members (sel_plan g)) 1 then Ok (g, tester, None) else
  let url := probe_url g tester in
  let tester := prepare_tester g members url tester clock in
  match pick_pin g members url tester with
  | Some n => Ok (note_pick g (Some n), tester, Some n)
  | None => '(g, tester, chosen) ← pick_strategy g meta members url tester clock; Ok (note_pick g chosen, tester, chosen)
  end.

(** ** The failure window *)

Definition on_dial_success (g : GroupSelector) : GroupSelector := with_failures g 0 None.

(** The health check, when it is triggered, runs inside the call; the second component says so. *)
Definition on_dial_failed (g : GroupSelector) (now : Z) : GroupSelector * bool :=
  let max := Z.max (go_max_failed_times (sel_opts g)) 1 in
  let window := from_millis (Z.max (go_test_timeout_ms (sel_opts g)) 1) in
  let prev := sel_fail_times g in
  let times := prev + 1 in
  let go first := if max <=? prev + 1 then (with_failures g 0 None, true) else (with_failures g times first, false) in
  if prev =? 0 then go (Some now) else
  match sel_fail_first g with
  | Some first => if window <? saturating_sub now first then (with_failures g 1 (Some now), false) else go (Some first)
  | None => go None
  end.

Definition mark_member_failed (g : GroupSelector) (node : string) (t : UrlTester) (error : string) (now_ms : Z) : UrlTester :=
  let url := match go_url (sel_opts g) with Some url => url | None => ut_default_url t end in
  invalidate_fast_pick (mark_runtime_failure t node url error now_ms) (gp_name (sel_plan g)).

(** ** What the strategies return *)

Definition some_alive (tester : option UrlTester) (url : string) (members : list string) : Prop := exists m, m ∈ members /\ alive tester url m = true.

(** A member, and an alive one if there is any *)
Definition good_pick (tester : option UrlTester) (url : string) (members : list string) (n : string) : Prop :=
  n ∈ members /\ (some_alive tester url members -> alive tester url n = true).

Lemma index_elem {A} (l : list A) i m : index l i = Ok m -> m ∈ l.
Proof. unfold index. destruct (0 <=? i); [|done]. destruct (l !! Z.to_nat i) eqn:E; [|done]. intros [= <-]. by apply list_elem_of_lookup_2 in E. Qed.

Lemma index_some {A} (l : list A) i : 0 <= i < Z.of_nat (length l) -> exists m, index l i = Ok m /\ m ∈ l.
Proof.
  intros Hi. unfold index. rewrite (proj2 (Z.leb_le _ _)) by lia. destruct (lookup_lt_is_Some_2 l (Z.to_nat i)) as [m Hm]; [lia|]. rewrite Hm. exists m. split; [done|]. by apply list_elem_of_lookup_2 in Hm.
Qed.

Lemma first_member_some members : members <> [] -> exists m, first_member members = Some m /\ m ∈ members.
Proof. destruct members as [|m members]; [done|]. intros _. exists m. split; [done|]. apply list_elem_of_here. Qed.

Lemma first_good tester url members : members <> [] -> ~ some_alive tester url members -> exists n, first_member members = Some n /\ good_pick tester url members n.
Proof. intros Hne Hno. destruct (first_member_some members Hne) as (m & Hm & Hin). exists m. split; [done|]. by split. Qed.

Lemma find_alive tester url members : match find (alive tester url) members with Some m => m ∈ members /\ alive tester url m = true | None => ~ some_alive tester url members end.
Proof.
  destruct (find _ members) as [m|] eqn:E; [apply find_some in E as [Hm%list_elem_of_In Ha]; done|]. intros (m & Hm%list_elem_of_In & Ha). by rewrite (find_none _ _ E m Hm) in Ha.
Qed.

Lemma non_avoided_ok g members url tester :
  (forall m, m ∈ non_avoided_members g members url tester -> m ∈ members) /\ (members <> [] -> non_avoided_members g members url tester <> [])
  /\ (some_alive tester url members -> some_alive tester url (non_avoided_members g members url tester)).
Proof.
  unfold non_avoided_members. case_bool_decide; [done|]. case_bool_decide as Hp; [done|]. set (primary := filter _ _) in *. split_and!.
  - intros m. unfold primary. rewrite !list_elem_of_filter. tauto.
  - done.
  - intros _. destruct primary as [|m p] eqn:E; [done|]. exists m. split; [apply list_elem_of_here|]. assert (Hm : m ∈ primary) by (rewrite E; apply list_elem_of_here).
    unfold primary in Hm. apply list_elem_of_filter in Hm. tauto.
Qed.

Lemma non_avoided_length g members url tester : (length (non_avoided_members g members url tester) <= length members)%nat.
Proof.
  unfold non_avoided_members. case_bool_decide; [done|]. case_bool_decide; [done|]. etrans; [apply length_filter|]. apply length_filter.
Qed.

(** A good pick among the candidates is a good pick among the members. *)
Lemma good_candidates g members url tester n : good_pick tester url (non_avoided_members g members url tester) n -> good_pick tester url members n.
Proof. destruct (non_avoided_ok g members url tester) as (Hsub & _ & Hsome). intros [Hn Ha]. split; [by apply Hsub|]. auto. Qed.

Lemma available_good g members url tester i :
  let available := filter (fun m => alive tester url m = true) (non_avoided_members g members url tester) in
  members <> [] -> (available <> [] -> 0 <= i < Z.of_nat (length available)) ->
  exists n, (if bool_decide (available = []) then Ok (first_member members) else m ← index available i; Ok (Some m)) = Ok (Some n) /\ good_pick tester url members n.
Proof.
  intros available Hne Hi. destruct (non_avoided_ok g members url tester) as (Hsub & _ & Hsome). case_bool_decide as Ha.
  - destruct (first_good tester url members Hne) as (n & -> & Hg); [|by exists n]. intros (m & Hm & Hal)%Hsome. assert (m ∈ available) as Hin by by apply list_elem_of_filter.
    rewrite Ha in Hin. by apply not_elem_of_nil in Hin.
  - destruct (index_some available i (Hi Ha)) as (m & -> & Hm). cbn. exists m. split; [done|]. apply list_elem_of_filter in Hm as [Hal Hm]. split; [by apply Hsub|done].
Qed.

Lemma random_good g members url tester : members <> [] -> exists n, pick_random g members url tester = Ok (Some n) /\ good_pick tester url members n.
Proof.
  intros Hne. apply available_good; [done|]. intros Ha. apply random_range_lt. destruct (filter _ _); [done|]. cbn. lia.
Qed.

Lemma weighted_good g members url tester : members <> [] -> exists n, pick_weighted g members url tester = Ok (Some n) /\ good_pick tester url members n.
Proof.
  intros Hne. apply available_good; [done|]. intros Ha. destruct (weighted_index _) as [i|] eqn:E; cbn.
  - apply weighted_index_lt in E. by rewrite length_fmap in E.
  - destruct (filter _ _); [done|]. cbn. lia.
Qed.

Lemma fallback_good g members url tester : members <> [] -> exists n, pick_fallback g members url tester = Some n /\ good_pick tester url members n.
Proof.
  intros Hne. unfold pick_fallback. assert (Ht : forall k m, find (fun m => in_tier g k m && alive tester url m) members = Some m -> good_pick tester url members m).
  { intros k m E. apply find_some in E as [Hm%list_elem_of_In [_ Ha]%andb_true_iff]. by split. }
  destruct (find _ members) as [m|] eqn:E0; [by exists m; eauto|]. destruct (find (fun m => in_tier g 1 m && _) members) as [m|] eqn:E1; [by exists m; eauto|].
  destruct (find (fun m => in_tier g 2 m && _) members) as [m|] eqn:E2; [by exists m; eauto|]. apply first_good; [done|]. intros (m & Hm%list_elem_of_In & Ha).
  pose proof (find_none _ _ E0 m Hm) as N0. pose proof (find_none _ _ E1 m Hm) as N1. pose proof (find_none _ _ E2 m Hm) as N2. cbn in N0, N1, N2. rewrite Ha, !andb_true_r in *.
  unfold in_tier in *. cbn in *. by destruct (is_preferred g m), (is_avoided g m).
Qed.

Lemma as_i32_small n : 0 <= n < 2 ^ 31 -> as_i32 n = n.
Proof. intros Hn. unfold as_i32. rewrite Z.mod_small by lia. by destruct (Z.ltb_spec n (2 ^ 31)); [|lia]. Qed.

Lemma jump_tries_ok members url tester : members <> [] -> Z.of_nat (length members) < 2 ^ 31 -> forall tries k,
  exists r, jump_tries tries k members url tester = Ok r /\ forall i, r = Some i -> exists m, index members i = Ok m /\ m ∈ members /\ alive tester url m = true.
Proof.
  intros Hne Hl. assert (0 < Z.of_nat (length members)) by (destruct members; [done|cbn; lia]).
  induction tries as [|tries IH]; intros k; cbn [jump_tries]; [by exists None|]. rewrite as_i32_small by lia.
  destruct (index_some members (jump_hash k (Z.of_nat (length members)))) as (m & Em & Hm); [by apply jump_hash_lt|]. rewrite Em. cbn [mbind outcome_bind].
  destruct (alive tester url m) eqn:Ha; [|apply IH]. eexists. split; [done|]. intros i [= <-]. by exists m.
Qed.

Lemma consistent_good meta members url tester : members <> [] -> Z.of_nat (length members) < 2 ^ 31 ->
  exists n, lb_consistent_hashing meta members url tester = Ok (Some n) /\ good_pick tester url members n.
Proof.
  intros Hne Hl. unfold lb_consistent_hashing. rewrite as_i32_small by lia. destruct (Z.leb_spec (Z.of_nat (length members)) 0) as [Hz|]; [destruct members; [done|cbn in Hz; lia]|].
  destruct (jump_tries_ok members url tester Hne Hl 5 (ahash_str (lb_key meta))) as (r & -> & Hr). cbn [mbind outcome_bind]. destruct r as [i|].
  - destruct (Hr i eq_refl) as (m & -> & Hm & Ha). cbn. exists m. by repeat split.
  - pose proof (find_alive tester url members) as Hf. destruct (find _ members) as [m|]; [exists m; split; [done|]; destruct Hf; by split|].
    destruct (first_good tester url members Hne Hf) as (n & -> & Hg). by exists n.
Qed.

Lemma rr_scan_ok members url tester : members <> [] -> forall offs start,
  exists r, rr_scan offs start members url tester = Ok r
  /\ match r with
     | Some m => m ∈ members /\ alive tester url m = true
     | None => forall k m, 0 <= k < Z.of_nat offs -> index members ((start + k) mod Z.of_nat (length members)) = Ok m -> alive tester url m = false
     end.
Proof.
  intros Hne. assert (0 < Z.of_nat (length members)) by (destruct members; [done|cbn; lia]). induction offs as [|offs IH]; intros start; cbn [rr_scan]; [exists None; split; [done|]; lia|].
  destruct (index_some members (start mod Z.of_nat (length members))) as (m & Em & Hm); [by apply Z.mod_pos_bound|]. rewrite Em. cbn [mbind outcome_bind].
  destruct (alive tester url m) eqn:Ha; [by exists (Some m)|]. destruct (IH (start + 1)) as (r & -> & Hr). exists r. split; [done|]. destruct r as [x|]; [done|].
  intros k x Hk. destruct (decide (k = 0)) as [->|]; [rewrite Z.add_0_r, Em; congruence|]. intros Hx. apply (Hr (k - 1)); [lia|]. by replace (start + 1 + (k - 1)) with (start + k) by lia.
Qed.

Lemma round_robin_good g members url tester : members <> [] ->
  exists n, lb_round_robin g members url tester = Ok (with_lb g (wrapping_add 64 (sel_rr g) 1) (sel_sticky g), Some n) /\ good_pick tester url members n.
Proof.
  intros Hne. unfold lb_round_robin. set (len := Z.of_nat (length members)). assert (0 < len) by (unfold len; destruct members; [done|cbn; lia]). destruct (Z.eqb_spec len 0); [lia|].
  destruct (rr_scan_ok members url tester Hne (length members) (sel_rr g mod len)) as (r & -> & Hr). cbn [mbind outcome_bind]. destruct r as [m|]; [exists m; split; [done|]; destruct Hr; by split|].
  destruct (first_good tester url members Hne) as (x & -> & Hg); [|by exists x]. intros (m & Hm & Ha). apply list_elem_of_lookup in Hm as [i Hi].
  pose proof (lookup_lt_Some _ _ _ Hi). pose proof (Z.mod_pos_bound (sel_rr g) len ltac:(lia)). pose proof (Z.mod_pos_bound (Z.of_nat i - sel_rr g) len ltac:(lia)).
  rewrite (Hr ((Z.of_nat i - sel_rr g) mod len) m) in Ha; [done|lia|]. fold len. rewrite <- Zplus_mod. replace (sel_rr g + (Z.of_nat i - sel_rr g)) with (Z.of_nat i) by lia.
  rewrite Z.mod_small by (unfold len; lia). unfold index. rewrite (proj2 (Z.leb_le _ _)) by lia. by rewrite Nat2Z.id, Hi.
Qed.

Lemma sticky_member g meta members url tester clock : members <> [] -> Z.of_nat (length members) < 2 ^ 31 ->
  exists g' n, lb_sticky g meta members url tester clock = Ok (g', Some n) /\ n ∈ members.
Proof.
  intros Hne Hl. unfold lb_sticky. destruct (Nat.eqb_spec (length members) 0) as [Hz|]; [by destruct members|]. destruct (sticky_get _ _ _) as [hit c]. cbv zeta.
  set (rehash := mbind _ _). assert (Hre : exists g' n, rehash = Ok (g', Some n) /\ n ∈ members).
  { unfold rehash. destruct (jump_tries_ok members url tester Hne Hl 5 (wrapping_add 64 (ahash_str (lb_key_sticky meta)) (cl_now_nanos clock))) as (r & -> & Hr). cbn [mbind outcome_bind].
    destruct r as [i|]; [destruct (Hr i eq_refl) as (m & -> & Hm & _); cbn; eauto|]. destruct (first_member_some members Hne) as (m & -> & Hm). eauto. }
  destruct hit as [idx|]; [|done]. destruct (Nat.ltb_spec idx (length members)); [|done]. destruct (index_some members (Z.of_nat idx)) as (m & -> & Hm); [lia|]. cbn [mbind outcome_bind].
  destruct (alive tester url m); [eauto|done].
Qed.

Lemma url_test_candidates_sub g t members url m : m ∈ url_test_candidates g t members url -> m ∈ members.
Proof.
  unfold url_test_candidates. destruct (non_avoided_ok g members url (Some t)) as (Hsub & _ & _). case_bool_decide; [apply Hsub|].
  assert (m ∈ filter (fun n => is_preferred g n = true) (non_avoided_members g members url (Some t)) -> m ∈ members) by (intros [_ Hm]%list_elem_of_filter; by apply Hsub).
  repeat case_match; auto.
Qed.

(** The fast pick is a member, unless every candidate is dead: then the last choice is kept, member or not. *)
Lemma url_test_member g members url tester clock : members <> [] ->
  exists t' n, pick_url_test g members url tester clock = (t', Some n)
  /\ (n ∈ members \/ exists t w r, tester = Some t /\ ut_fast_pick t !! gp_name (sel_plan g) = Some (Some (w, r)) /\ fp_node r = n
       /\ existsb (measured t url) (url_test_candidates g t members url) = false).
Proof.
  intros Hne. unfold pick_url_test. destruct tester as [t|]; [|destruct (first_member_some members Hne) as (m & -> & Hm); eauto].
  destruct (pick_fast _ _ _ _ _ _) as [t' r] eqn:E. destruct r as [p|]; [|destruct (first_member_some members Hne) as (m & -> & Hm); eauto].
  exists (Some t'), p. split; [done|]. destruct (pick_fast_member _ _ _ _ _ _ _ _ E) as [Hm|(Hd & w & r & Hr & <-)]; [left; by apply url_test_candidates_sub in Hm|right].
  by exists t, w, r.
Qed.

Lemma manual_member g members : members <> [] -> exists n, pick_manual g members = Some n /\ n ∈ members.
Proof.
  intros Hne. unfold pick_manual. destruct (find _ members) as [m|] eqn:E; [|by apply first_member_some]. apply find_some in E as [Hm%list_elem_of_In _]. eauto.
Qed.

(** When a group returns a node that is not among its candidates *)
Definition outside (g : GroupSelector) (members : list string) (url : string) (tester : option UrlTester) (n : string) : Prop :=
  (gp_choose (sel_plan g) = Chain /\ head (gp_path (sel_plan g)) = Some n)
  \/ (gp_choose (sel_plan g) = Fast /\ exists t w r, tester = Some t /\ ut_fast_pick t !! gp_name (sel_plan g) = Some (Some (w, r)) /\ fp_node r = n
      /\ existsb (measured t url) (url_test_candidates g t members url) = false).

Definition automatic (g : GroupSelector) : bool :=
  match gp_choose (sel_plan g) with
  | Stable | Random | Weighted => true
  | Spread => match go_lb_strategy (sel_opts g) with StickySessions => false | _ => true end
  | _ => false
  end.

Lemma spread_spec g meta members url tester clock : members <> [] -> Z.of_nat (length members) < 2 ^ 31 ->
  exists g' n, pick_load_balance g meta members url tester clock = Ok (g', Some n) /\ n ∈ members
  /\ (go_lb_strategy (sel_opts g) <> StickySessions -> good_pick tester url members n).
Proof.
  intros Hne Hl. unfold pick_load_balance. destruct (non_avoided_ok g members url tester) as (Hsub & Hnn & _). pose proof (non_avoided_length g members url tester) as Hlen.
  specialize (Hnn Hne). destruct (go_lb_strategy (sel_opts g)).
  - destruct (consistent_good meta _ url tester Hnn) as (n & -> & Hg); [lia|]. exists g, n. apply good_candidates in Hg. split; [done|]. split; [apply Hg|done].
  - destruct (round_robin_good g _ url tester Hnn) as (n & -> & Hg). apply good_candidates in Hg. eexists _, n. split; [done|]. split; [apply Hg|done].
  - destruct (sticky_member g meta _ url tester clock Hnn) as (g' & n & -> & Hn); [lia|]. exists g', n. split; [done|]. split; [by apply Hsub|done].
Qed.

Lemma strategy_spec g meta members url tester clock : members <> [] -> Z.of_nat (length members) < 2 ^ 31 ->
  exists g' t' n, pick_strategy g meta members url tester clock = Ok (g', t', Some n)
  /\ (n ∈ members \/ outside g members url tester n) /\ (automatic g = true -> t' = tester /\ good_pick tester url members n).
Proof.
  intros Hne Hl. unfold pick_strategy, outside, automatic. destruct (gp_choose (sel_plan g)) eqn:Ec.
  - destruct (manual_member g members Hne) as (n & -> & Hn). eexists _, _, n. split; [done|]. by split; [left|].
  - eexists _, _, _. split; [done|]. split; [left; by apply choose_node_member|done].
  - destruct (url_test_member g members url tester clock Hne) as (t' & n & -> & Hn). eexists _, _, n. split; [done|]. split; [destruct Hn; auto|done].
  - destruct (fallback_good g members url tester Hne) as (n & -> & Hg). eexists _, _, n. split; [done|]. split; [left; apply Hg|done].
  - destruct (spread_spec g meta members url tester clock Hne Hl) as (g' & n & -> & Hn & Hg). cbn. eexists _, _, n. split; [done|]. split; [by left|].
    destruct (go_lb_strategy (sel_opts g)); [..|done]; intros _; split; [done|by apply Hg|done|by apply Hg].
  - destruct (random_good g members url tester Hne) as (n & -> & Hg). cbn. eexists _, _, n. split; [done|]. split; [left; apply Hg|done].
  - destruct (weighted_good g members url tester Hne) as (n & -> & Hg). cbn. eexists _, _, n. split; [done|]. split; [left; apply Hg|done].
  - unfold pick_chain. destruct (gp_path (sel_plan g)) as [|p path] eqn:Ep.
    + destruct (first_member_some members Hne) as (n & -> & Hn). eexists _, _, n. split; [done|]. by split; [left|].
    + eexists _, _, p. split; [done|]. split; [right; left; done|done].
Qed.

Lemma pin_member g members url tester n : pick_pin g members url tester = Some n -> n ∈ members /\ (gp_choose (sel_plan g) <> Manual -> alive tester url n = true).
Proof.
  unfold pick_pin. destruct (sel_pin g) as [pin|]; [|done]. case_bool_decide as Hm; [|done]. cbn. case_bool_decide; cbn; [by intros [= <-]|].
  destruct (alive tester url (pin_node pin)) eqn:Ha; [|done]. by intros [= <-].
Qed.

Lemma selectable_spec g eligible protocol_of m : m ∈ selectable g eligible protocol_of ->
  m ∈ gp_members (sel_plan g) /\ eligible m = true /\ is_feed_placeholder m = false /\ member_kept g protocol_of m = true.
Proof.
  unfold selectable. intros Hm. assert (Hf : m ∈ filter (fun m => eligible m = true) (filter (fun m => is_feed_placeholder m = false) (filtered_members g protocol_of))).
  { case_match; [|done]. erewrite <- take_drop. apply elem_of_app. by left. }
  unfold filtered_members in Hf. rewrite !list_elem_of_filter in Hf. tauto.
Qed.

Lemma selectable_length g eligible protocol_of : (length (selectable g eligible protocol_of) <= length (gp_members (sel_plan g)))%nat.
Proof.
  unfold selectable, filtered_members. set (l := filter _ (filter _ _)). assert (length l <= length (gp_members (sel_plan g)))%nat by (unfold l; do 3 (etrans; [apply length_filter|]); done).
  case_match; [rewrite length_take|]; lia.
Qed.

Ltac lb_keeps := repeat match goal with
  | E : mbind _ ?e = Ok _ |- _ => destruct e as [?| |] eqn:?; cbn [mbind outcome_bind] in E; try discriminate E
  | E : (match ?e with _ => _ end) = Ok _ |- _ => destruct e eqn:?; try discriminate E
  | E : (let '(_, _) := ?e in _) = Ok _ |- _ => destruct e
  | E : Ok _ = Ok _ |- _ => injection E as <- <-
  end.

Lemma load_balance_keeps g meta members url tester clock g' r : pick_load_balance g meta members url tester clock = Ok (g', r) -> sel_pin g' = sel_pin g /\ sel_plan g' = sel_plan g.
Proof. unfold pick_load_balance, lb_round_robin, lb_sticky. intros E. lb_keeps; try done. Qed.

Lemma strategy_keeps g meta members url tester clock g' t' r : pick_strategy g meta members url tester clock = Ok (g', t', r) -> sel_pin g' = sel_pin g /\ sel_plan g' = sel_plan g.
Proof.
  unfold pick_strategy. intros E. destruct (gp_choose (sel_plan g)); try by (simplify_eq); try (by destruct (pick_url_test _ _ _ _ _); simplify_eq).
  - destruct (pick_load_balance g meta members url tester clock) as [[g1 r1]| |] eqn:El; cbn in E; simplify_eq. by apply load_balance_keeps in El.
  - destruct (pick_random _ _ _ _); cbn in E; by simplify_eq.
  - destruct (pick_weighted _ _ _ _); cbn in E; by simplify_eq.
Qed.

(** ** Pins under concurrent probes *)

(** What can happen between the start and the end of a manual probe: a new pin, its removal,
    the end of another probe, and the return to a pin seen earlier when it could not be stored *)
Inductive pin_step (seen : list (option GroupPin)) (g : GroupSelector) : GroupSelector -> Prop :=
| pin_step_set node source now : sel_pin_generation g + 1 < 2 ^ 64 -> pin_step seen g (set_pin g node source now).1
| pin_step_clear : pin_step seen g (clear_pin g).1
| pin_step_probe token ok : pin_step seen g (complete_manual_probe g token ok).1
| pin_step_failed_commit pin last : pin ∈ seen -> pin_step seen g (restore_pin_after_failed_commit g pin last).

(** Runs, with the pins seen so far *)
Inductive pin_run (g0 : GroupSelector) : list (option GroupPin) -> GroupSelector -> Prop :=
| pin_run_start : pin_run g0 [sel_pin g0] g0
| pin_run_step seen g g' : pin_run g0 seen g -> pin_step seen g g' -> pin_run g0 (sel_pin g' :: seen) g'.

(** A generation belongs to one pin. *)
Record pins_inv (seen : list (option GroupPin)) (g : GroupSelector) : Prop := mkPinsInv {
  pv_here : sel_pin g ∈ seen;
  pv_bound : forall p, Some p ∈ seen -> pin_generation_of p <= sel_pin_generation g;
  pv_unique : forall p q, Some p ∈ seen -> Some q ∈ seen -> pin_generation_of p = pin_generation_of q -> p = q
}.

Lemma pins_inv_step seen g g' : pins_inv seen g -> 0 <= sel_pin_generation g -> pin_step seen g g' -> pins_inv (sel_pin g' :: seen) g' /\ sel_pin_generation g <= sel_pin_generation g'.
Proof.
  intros [Ph Pb Pu] Hge Hs.
  assert (Hold : forall x, (x = None \/ x ∈ seen) -> sel_pin_generation g' = sel_pin_generation g -> sel_pin g' = x -> pins_inv (sel_pin g' :: seen) g' /\ sel_pin_generation g <= sel_pin_generation g').
  { intros x Hx Hg Hp. rewrite Hp. assert (Hin : forall p, Some p ∈ x :: seen -> Some p ∈ seen) by (intros p [Heq|?]%elem_of_cons; [|done]; destruct Hx as [Hx|Hx]; [by rewrite Hx in Heq|by rewrite Heq]).
    split; [|lia]. constructor; [rewrite Hp; apply list_elem_of_here|intros p Hp'%Hin; rewrite Hg; by apply Pb|intros p q Hp'%Hin Hq%Hin; by apply Pu]. }
  destruct Hs as [node source now Hb| |token ok|pin last Hpin].
  - cbn. unfold wrapping_add. rewrite Z.mod_small by lia. split; [|cbn; lia]. constructor; cbn; [apply list_elem_of_here| |].
    + intros p [[= ->]|Hp]%elem_of_cons; [done|]. specialize (Pb p Hp). lia.
    + intros p q [[= ->]|Hp]%elem_of_cons [[= ->]|Hq]%elem_of_cons; [done|specialize (Pb q Hq)|specialize (Pb p Hp)|by apply Pu]; cbn; lia.
  - apply (Hold None); auto.
  - unfold complete_manual_probe in *. destruct (_ || _); [by apply (Hold (sel_pin g)); auto|]. destruct (tok_generation token); [|by apply (Hold (sel_pin g)); auto].
    case_bool_decide; [apply (Hold None); auto|by apply (Hold (sel_pin g)); auto].
  - apply (Hold pin); auto.
Qed.

Lemma pins_inv_run g0 seen g : (forall p, sel_pin g0 = Some p -> pin_generation_of p <= sel_pin_generation g0) -> 0 <= sel_pin_generation g0 ->
  pin_run g0 seen g -> pins_inv seen g /\ sel_pin g0 ∈ seen /\ 0 <= sel_pin_generation g /\ sel_plan g = sel_plan g0.
Proof.
  intros Hp Hg. induction 1 as [|seen g g' Hrun (IH & Hin & Hge & Hpl) Hs].
  - split_and!; [constructor|..]; try done; [apply list_elem_of_here|intros p Hq%list_elem_of_singleton; by apply Hp| |apply list_elem_of_here].
    intros p q Hp'%list_elem_of_singleton Hq%list_elem_of_singleton _. congruence.
  - destruct (pins_inv_step _ _ _ IH Hge Hs) as [IH' Hge']. split_and!; [done|by apply list_elem_of_further|lia|].
    destruct Hs; try done. unfold complete_manual_probe. by repeat case_match.
Qed.

(** ** Theorems *)

(** Selecting a node never fails to answer: nothing is chosen exactly when the group refuses UDP
    or has too few candidates, and otherwise a node that passed the filters, the eligibility test
    and is no placeholder, or (chain) the first hop, or (latency groups whose candidates are all
    dead) the last choice; the choice is noted and the user's pin is kept. *)
Theorem group_pick_sound g meta tester eligible protocol_of clock :
  Z.of_nat (length (gp_members (sel_plan g))) < 2 ^ 31 ->
  let members := selectable g eligible protocol_of in
  let url := probe_url g tester in
  (forall m, m ∈ members -> m ∈ gp_members (sel_plan g) /\ eligible m = true /\ is_feed_placeholder m = false /\ member_kept g protocol_of m = true)
  /\ exists g' t' r, pick_eligible_with_protocol g meta tester eligible protocol_of clock = Ok (g', t', r)
    /\ sel_pin g' = sel_pin g
    /\ match r with
       | None => (gm_network meta = "udp" /\ go_disable_udp (sel_opts g) = true) \/ Z.of_nat (length members) < Z.max (gp_min_members (sel_plan g)) 1
       | Some n => (n ∈ members \/ outside g members url (prepare_tester g members url tester clock) n) /\ sel_last_pick g' = Some n
       end.
Proof.
  intros Hl members url. split; [intros m; apply selectable_spec|]. unfold pick_eligible_with_protocol. fold members. fold url.
  destruct (bool_decide _ && _) eqn:Eu; [apply andb_true_iff in Eu as [?%bool_decide_eq_true ?]; eexists _, _, _; eauto 10|].
  destruct (Z.ltb_spec (Z.of_nat (length members)) (Z.max (gp_min_members (sel_plan g)) 1)) as [Hlt|Hge]; [eexists _, _, _; eauto 10|].
  assert (Hne : members <> []) by (intros Hz; rewrite Hz in Hge; cbn in Hge; lia). pose proof (selectable_length g eligible protocol_of) as Hs. fold members in Hs.
  set (t0 := prepare_tester g members url tester clock). destruct (pick_pin g members url t0) as [n|] eqn:Ep.
  - apply pin_member in Ep as [Hn _]. eexists _, _, _. split; [done|]. split; [done|]. split; [by left|done].
  - destruct (strategy_spec g meta members url t0 clock Hne ltac:(lia)) as (g1 & t1 & n & E & Hn & _). destruct (strategy_keeps _ _ _ _ _ _ _ _ _ E) as [Hk _].
    rewrite E. cbn. eexists _, _, _. split; [done|]. split; [done|]. by split.
Qed.

(** Fallback, random, weighted and load-balanced groups (sticky sessions apart) pick a candidate
    that is alive whenever any candidate is. *)
Theorem group_pick_alive g meta tester eligible protocol_of clock :
  let members := selectable g eligible protocol_of in
  let url := probe_url g tester in
  Z.of_nat (length (gp_members (sel_plan g))) < 2 ^ 31 -> automatic g = true ->
  gm_network meta <> "udp" \/ go_disable_udp (sel_opts g) = false -> Z.max (gp_min_members (sel_plan g)) 1 <= Z.of_nat (length members) ->
  exists g' t' n, pick_eligible_with_protocol g meta tester eligible protocol_of clock = Ok (g', t', Some n) /\ good_pick t' url members n.
Proof.
  intros members url Hl Ha Hu Hm. unfold pick_eligible_with_protocol. fold members. fold url.
  replace (bool_decide (gm_network meta = "udp") && go_disable_udp (sel_opts g)) with false by (destruct Hu as [Hu| ->]; [by rewrite bool_decide_eq_false_2|by rewrite andb_false_r]).
  destruct (Z.ltb_spec (Z.of_nat (length members)) (Z.max (gp_min_members (sel_plan g)) 1)); [lia|].
  assert (Hne : members <> []) by (intros Hz; rewrite Hz in Hm; cbn in Hm; lia). pose proof (selectable_length g eligible protocol_of) as Hs. fold members in Hs.
  assert (Hnm : gp_choose (sel_plan g) <> Manual) by (unfold automatic in Ha; by destruct (gp_choose (sel_plan g))).
  set (t0 := prepare_tester g members url tester clock). destruct (pick_pin g members url t0) as [n|] eqn:Ep.
  - apply pin_member in Ep as [Hn Hal]. eexists _, _, n. split; [done|]. split; [done|]. intros _. by apply Hal.
  - destruct (strategy_spec g meta members url t0 clock Hne ltac:(lia)) as (g1 & t1 & n & E & _ & Hg). destruct (Hg Ha) as [-> Hgood]. rewrite E. cbn. eexists _, _, n. by split.
Qed.

(** A manual probe releases only the pin that was there when it started: whatever happens
    meanwhile, a pin the user sets during the probe stays, and a manual group or a probe
    without a success releases nothing. *)
Theorem manual_probe_releases_own_pin g0 seen g any_success g' :
  (forall p, sel_pin g0 = Some p -> pin_generation_of p <= sel_pin_generation g0) -> 0 <= sel_pin_generation g0 -> pin_run g0 seen g ->
  complete_manual_probe g (begin_manual_probe g0) any_success = (g', true) ->
  sel_pin g = sel_pin g0 /\ sel_pin g' = None /\ any_success = true /\ gp_choose (sel_plan g) <> Manual.
Proof.
  intros Hp Hg Hrun E. destruct (pins_inv_run g0 seen g Hp Hg Hrun) as ([Ph Pb Pu] & Hin & _ & Hpl). unfold complete_manual_probe, begin_manual_probe in E. cbn in E.
  destruct any_success; [|done]. cbn in E. case_bool_decide as Hm; [done|]. cbn in E. destruct (sel_pin g0) as [p0|] eqn:E0; [|done]. cbn in E.
  case_bool_decide as Heq; [|done]. injection E as <-. destruct (sel_pin g) as [p|] eqn:Ep; [|done]. cbn in Heq. injection Heq as Heq. split_and!; try done; [|by rewrite Hpl].
  f_equal. by apply Pu.
Qed.

End group.

(** The jump hash stays in range, and when a bucket is added a key stays in its bucket or moves
    to the new one. *)
Theorem jump_hash_consistent key n :
  0 < n < 2 ^ 31 - 1 -> 0 <= jump_hash key n < n /\ (jump_hash key (n + 1) = jump_hash key n \/ jump_hash key (n + 1) = n).
Proof. intros Hn. split; [apply jump_hash_lt; lia|]. unfold jump_hash. apply jump_loop_grow; lia. Qed.

Module GroupSelectWitness.
Import Concrete.

#[local] Instance toy_lib : GroupLib := {|
  group_regex := fun p => Some (fun s => str_contains s p); group_glob := fun p => Some (fun s => bool_decide (s = p));
  ahash_str := fun s => Z.of_nat (String.length s); psl_domain := fun _ => None |}.

Lemma toy_range n : 0 < n -> 0 <= n - 1 < n.
Proof. lia. Qed.

Definition toy_weighted (ws : list Z) : option Z := match ws with [] => None | _ => Some 0 end.
Lemma toy_weighted_lt ws i : toy_weighted ws = Some i -> 0 <= i < Z.of_nat (length ws).
Proof. destruct ws as [|w ws]; [done|]. intros E. injection E as <-. cbn. lia. Qed.

#[local] Instance toy_random : GroupRandom := {| random_range := fun n => n - 1; random_range_lt := toy_range; weighted_index := toy_weighted; weighted_index_lt := toy_weighted_lt |}.

Definition toy_get (c : list (Z * (nat * Z))) (k : Z) : option (nat * Z) * list (Z * (nat * Z)) := (snd <$> find (fun e => e.1 =? k) c, c).
Lemma toy_get_put c k v : (toy_get ((k, v) :: c) k).1 = Some v.
Proof. cbn. by rewrite Z.eqb_refl. Qed.

#[local] Instance toy_lru : StickyCache := {|
  Lru := list (Z * (nat * Z)); lru_get := toy_get; lru_put := fun c k v => (k, v) :: c;
  lru_pop := fun c k => List.filter (fun e => negb (e.1 =? k)) c; lru_get_put := toy_get_put |}.

Lemma toy_choose (ctx : SmartContext) members : members <> [] -> default "" (head members) ∈ members.
Proof. destruct members as [|m members]; [done|]. intros _. apply list_elem_of_here. Qed.

#[local] Instance toy_smart : SmartApi := {| choose_node := fun _ _ members => default "" (head members); choose_node_member := fun _ => toy_choose |}.

Definition url : string := "http://t/".
Definition plan (choose : ChooseStrategy) (members : list string) : GroupPlan := 
  mkGroupPlan "g" choose members 0 0 "" "BLOCK" true [] [] [] (Some url) "" (from_secs 60) (from_secs 600) 50 None "round-robin" "" "" "" 5 (from_secs 5) false None [] false "".
Definition opts (lb : LbStrategy) : GroupOptions := mkGroupOptions (Some url) "" lb 50 (from_secs 60) (from_secs 600) None "" "" "" 5 5000 false true.
Definition selector (choose : ChooseStrategy) (members : list string) (lb : LbStrategy) : GroupSelector :=
  mkSelector (plan choose members) (opts lb) [] [] [] 1 None 0 0 None 0 [] None.
Definition clock : Clock := mkClock 1000 1000 1000 0.
Definition flow : GroupMeta := mkGroupMeta "example.com" None None 443 "tcp".

Definition tester0 : UrlTester := mkTester url ∅ ∅ ∅.
Definition down (t : UrlTester) (node : string) : UrlTester := mark_runtime_failure t node url "refused" 1000.

Lemma group_pick_sound_witness : exists g' t' r, pick_eligible_with_protocol (selector Stable ["a"; "b"] RoundRobin) flow None (fun _ => true) (fun _ => "") clock = Ok (g', t', r) /\ r = Some "a".
Proof.
  destruct (group_pick_sound (selector Stable ["a"; "b"] RoundRobin) flow None (fun _ => true) (fun _ => "") clock) as (_ & g' & t' & r & E & _); [reflexivity|].
  exists g', t', r. split; [exact E|]. vm_compute in E. congruence.
Defined.

Lemma group_pick_alive_witness : exists g' t' n,
  pick_eligible_with_protocol (selector Spread ["a"; "b"] ConsistentHashing) flow (Some (down tester0 "a")) (fun _ => true) (fun _ => "") clock = Ok (g', t', Some n) /\ n = "b".
Proof.
  destruct (group_pick_alive (selector Spread ["a"; "b"] ConsistentHashing) flow (Some (down tester0 "a")) (fun _ => true) (fun _ => "") clock) as (g' & t' & n & E & _);
    [reflexivity|reflexivity|right; reflexivity|vm_compute; discriminate|].
  exists g', t', n. split; [exact E|]. vm_compute in E. congruence.
Defined.

(** The user pins [b] while a probe that saw the pin [a] runs: the probe releases nothing. *)
Definition pinned : GroupSelector := (set_pin (selector Fast ["a"; "b"] RoundRobin) "a" ClashApi 1).1.

Lemma manual_probe_releases_own_pin_witness : exists g', complete_manual_probe pinned (begin_manual_probe pinned) true = (g', true) /\ sel_pin g' = None.
Proof.
  eexists. split; [reflexivity|]. refine (proj1 (proj2 (manual_probe_releases_own_pin pinned [sel_pin pinned] pinned true _ _ _ (pin_run_start pinned) eq_refl))).
  - intros p Hp. injection Hp as <-. vm_compute. discriminate.
  - vm_compute. discriminate.
Defined.

Lemma jump_hash_consistent_witness : 0 <= jump_hash 12345 10 < 10 /\ (jump_hash 12345 11 = jump_hash 12345 10 \/ jump_hash 12345 11 = 10).
Proof. apply (jump_hash_consistent 12345 10). lia. Defined.

(** ** Two departures *)

(** Sticky sessions give up after five probes of the hash: [c] is alive, and the dead [a] is chosen. *)
Theorem sticky_gives_up : exists g' t',
  pick_eligible_with_protocol (selector Spread ["a"; "b"; "c"] StickySessions) flow (Some (down (down tester0 "a") "b")) (fun _ => true) (fun _ => "") (mkClock 1000 1000 32 0) = Ok (g', t', Some "a")
  /\ alive t' url "a" = false /\ alive t' url "c" = true.
Proof. eexists _, _. split; [vm_compute; reflexivity|]. split; vm_compute; reflexivity. Qed.

(** [a] was picked for TCP and cannot relay UDP; the probe of [b] fails; a UDP flow is then sent
    to [a], which the caller ruled out. *)
Definition tester1 : UrlTester :=
  update_stats (set_fast_pick tester0 "g" (Some (0, mkFastPick "a" 10))) "b" url (fun st => record_timing st ProbeTiming_default false (from_secs 60) (Some Timeout) 0 2000).

Theorem fast_pick_leaves_candidates : exists g' t',
  pick_eligible_with_protocol (selector Fast ["a"; "b"] RoundRobin) (mkGroupMeta "example.com" None None 443 "udp") (Some tester1) (fun n => bool_decide (n = "b")) (fun _ => "")
    (mkClock 20000 (from_secs 20) 0 0) = Ok (g', t', Some "a")
  /\ "a" ∉ selectable (selector Fast ["a"; "b"] RoundRobin) (fun n => bool_decide (n = "b")) (fun _ => "").
Proof. eexists _, _. split; [vm_compute; reflexivity|]. apply (bool_decide_unpack _). vm_compute. exact I. Qed.

End GroupSelectWitness.
