(* ===== verification/Loopback.v ===== *)
(** * Detecting captured outbound sockets ([core-outbound/src/loopback.rs])

    Every outbound socket registers its local endpoint and holds a guard; a flow whose source
    is a registered endpoint is WutherCore's own traffic, captured again.  The detector counts
    references under one lock; the guards are the other half of the state.  A step is one lock
    section, so that the drop of a UDP guard, which takes the lock once per address, can be
    interleaved with anything. *)

From stdpp Require Import base list gmap numbers option relations.
From S2P Require Import Prelude Net.

Record LoopbackState : Type := mkLoopback {
  lb_tcp : gmap SocketAddr nat;
  lb_udp_ports : gmap Z nat;
  lb_udp_local_addrs : gmap SocketAddr nat
}.

Definition LoopbackState_default : LoopbackState := mkLoopback ∅ ∅ ∅.

Definition incr {K} `{Countable K} (m : gmap K nat) (key : K) : gmap K nat := <[key := S (default 0%nat (m !! key))]> m.

Definition decr {K} `{Countable K} (m : gmap K nat) (key : K) : gmap K nat :=
  match m !! key with
  | None => m
  | Some count => let count := (count - 1)%nat in if Nat.eqb count 0 then delete key m else <[key := count]> m
  end.

(** [is_loopback] and [is_unspecified] of an address *)
Definition ip_is_loopback (ip : IpAddr) : bool := match ip with V4 a => Z.shiftr a 24 =? 127 | V6 a => a =? 1 end.
Definition ip_is_unspecified (ip : IpAddr) : bool := match ip with V4 a => a =? 0 | V6 a => a =? 0 end.

Definition contains_tcp (s : LoopbackState) (source : SocketAddr) : bool := bool_decide (is_Some (lb_tcp s !! source)).

Definition contains_udp_source (s : LoopbackState) (source : SocketAddr) : bool :=
  if negb (bool_decide (is_Some (lb_udp_ports s !! sa_port source))) then false
  else ip_is_loopback (sa_ip source) || bool_decide (is_Some (lb_udp_local_addrs s !! source)).

Record LoopbackUdpGuard : Type := mkUdpGuard { ug_port : Z; ug_observed : list IpAddr }.

(** [observe_local_addr]: the guard and the detector afterwards *)
Definition observe_local_addr (s : LoopbackState) (g : LoopbackUdpGuard) (local : SocketAddr) : LoopbackState * LoopbackUdpGuard :=
  let ip := sa_ip local in
  if negb (sa_port local =? ug_port g) || ip_is_unspecified ip then (s, g) else
  if bool_decide (ip ∈ ug_observed g) then (s, g) else
  (mkLoopback (lb_tcp s) (lb_udp_ports s) (incr (lb_udp_local_addrs s) (mkSocketAddr ip (ug_port g))), mkUdpGuard (ug_port g) (ug_observed g ++ [ip])).

(** The detector with the guards that are alive, and the addresses that guards being dropped
    have still to give back *)
Record LbSystem : Type := mkLbSystem {
  ls_state : LoopbackState;
  ls_tcp : list SocketAddr;
  ls_udp : list LoopbackUdpGuard;
  ls_dropping : list SocketAddr
}.

Definition observed_addrs (g : LoopbackUdpGuard) : list SocketAddr := (fun ip => mkSocketAddr ip (ug_port g)) <$> ug_observed g.

Definition with_tcp (s : LoopbackState) (m : gmap SocketAddr nat) : LoopbackState := mkLoopback m (lb_udp_ports s) (lb_udp_local_addrs s).
Definition with_ports (s : LoopbackState) (m : gmap Z nat) : LoopbackState := mkLoopback (lb_tcp s) m (lb_udp_local_addrs s).
Definition with_addrs (s : LoopbackState) (m : gmap SocketAddr nat) : LoopbackState := mkLoopback (lb_tcp s) (lb_udp_ports s) m.

Inductive lb_step : LbSystem -> LbSystem -> Prop :=
| lb_register_tcp s tcp udp dr addr :
  lb_step (mkLbSystem s tcp udp dr) (mkLbSystem (with_tcp s (incr (lb_tcp s) addr)) (addr :: tcp) udp dr)
| lb_drop_tcp s tcp1 tcp2 udp dr addr :
  lb_step (mkLbSystem s (tcp1 ++ addr :: tcp2) udp dr) (mkLbSystem (with_tcp s (decr (lb_tcp s) addr)) (tcp1 ++ tcp2) udp dr)
| lb_register_udp s tcp udp dr port :                 (** [incr_udp_port] of [register_udp] *)
  lb_step (mkLbSystem s tcp udp dr) (mkLbSystem (with_ports s (incr (lb_udp_ports s) port)) tcp (mkUdpGuard port [] :: udp) dr)
| lb_observe s tcp udp1 g udp2 dr local s' g' :       (** at registration, or later *)
  observe_local_addr s g local = (s', g') ->
  lb_step (mkLbSystem s tcp (udp1 ++ g :: udp2) dr) (mkLbSystem s' tcp (udp1 ++ g' :: udp2) dr)
| lb_drop_udp s tcp udp1 g udp2 dr :                  (** [decr_udp_port] of the drop *)
  lb_step (mkLbSystem s tcp (udp1 ++ g :: udp2) dr) (mkLbSystem (with_ports s (decr (lb_udp_ports s) (ug_port g))) tcp (udp1 ++ udp2) (observed_addrs g ++ dr))
| lb_drop_addr s tcp udp dr1 addr dr2 :               (** one [decr_udp_local_addr] *)
  lb_step (mkLbSystem s tcp udp (dr1 ++ addr :: dr2)) (mkLbSystem (with_addrs s (decr (lb_udp_local_addrs s) addr)) tcp udp (dr1 ++ dr2)).

Definition lb_reachable : LbSystem -> Prop := rtc lb_step (mkLbSystem LoopbackState_default [] [] []).

(** ** Reference counts *)

Section counts.
Context {K : Type} `{Countable K}.

Definition occurrences (k : K) (l : list K) : nat := length (filter (fun x => x = k) l).

(** The map counts the references in the list. *)
Definition counts (m : gmap K nat) (l : list K) : Prop :=
  forall k, m !! k = if Nat.eqb (occurrences k l) 0 then None else Some (occurrences k l).

Lemma occurrences_perm k l l' : l ≡ₚ l' -> occurrences k l = occurrences k l'.
Proof. intros Hp. unfold occurrences. by rewrite Hp. Qed.

Lemma occurrences_cons k x l : occurrences k (x :: l) = if decide (x = k) then S (occurrences k l) else occurrences k l.
Proof. unfold occurrences. rewrite filter_cons. by destruct (decide (x = k)). Qed.

#[global] Instance counts_proper : Proper (eq ==> Permutation ==> iff) counts.
Proof. intros m ? <- l l' Hp. unfold counts. split; intros Hc k; rewrite (Hc k); by rewrite (occurrences_perm k _ _ Hp). Qed.

Lemma counts_nil : counts ∅ [].
Proof. intros k. by rewrite lookup_empty. Qed.

Lemma counts_incr m l k : counts m l -> counts (incr m k) (k :: l).
Proof.
  intros Hc k'. rewrite occurrences_cons. unfold incr. destruct (decide (k = k')) as [->|]; [|by rewrite lookup_insert_ne].
  rewrite lookup_insert_eq, (Hc k'). cbn. by destruct (Nat.eqb_spec (occurrences k' l) 0) as [->|].
Qed.

Lemma counts_decr m l k : counts m (k :: l) -> counts (decr m k) l.
Proof.
  intros Hc k'. pose proof (Hc k) as Hk. rewrite occurrences_cons, decide_True in Hk by done. cbn in Hk. unfold decr. rewrite Hk. cbn. rewrite Nat.sub_0_r.
  specialize (Hc k'). rewrite occurrences_cons in Hc. destruct (decide (k = k')) as [<-|Hne].
  - destruct (Nat.eqb_spec (occurrences k l) 0); [apply lookup_delete_eq|apply lookup_insert_eq].
  - destruct (Nat.eqb_spec (occurrences k l) 0); [by rewrite lookup_delete_ne|by rewrite lookup_insert_ne].
Qed.

Lemma counts_elem m l k : counts m l -> bool_decide (is_Some (m !! k)) = bool_decide (k ∈ l).
Proof.
  intros Hc. apply bool_decide_ext. rewrite (Hc k). destruct (Nat.eqb_spec (occurrences k l) 0) as [Hz|Hz].
  - split; [by intros []|]. intros Hk. unfold occurrences in Hz. apply nil_length_inv in Hz. assert (k ∈ filter (fun x => x = k) l) as Hf by by apply list_elem_of_filter.
    rewrite Hz in Hf. by apply not_elem_of_nil in Hf.
  - split; [|done]. intros _. unfold occurrences in Hz. destruct (filter (fun x => x = k) l) as [|x f] eqn:E; [done|]. assert (x ∈ filter (fun x => x = k) l) as Hx by (rewrite E; apply list_elem_of_here).
    apply list_elem_of_filter in Hx as [-> Hx]. done.
Qed.
End counts.

(** ** The invariant *)

Record lb_inv (s : LbSystem) : Prop := mkLbInv {
  li_tcp : counts (lb_tcp (ls_state s)) (ls_tcp s);
  li_ports : counts (lb_udp_ports (ls_state s)) (ug_port <$> ls_udp s);
  li_addrs : counts (lb_udp_local_addrs (ls_state s)) (concat (map observed_addrs (ls_udp s)) ++ ls_dropping s)
}.

Lemma lb_inv_step s s' : lb_inv s -> lb_step s s' -> lb_inv s'.
Proof.
  intros Hi Hs. destruct Hs as [s tcp udp dr addr|s tcp1 tcp2 udp dr addr|s tcp udp dr port|s tcp udp1 g udp2 dr local s' g' E|s tcp udp1 g udp2 dr|s tcp udp dr1 addr dr2];
    destruct Hi as [H1 H2 H3]; cbn in *.
  - constructor; cbn; try done. by apply counts_incr.
  - constructor; cbn; try done. apply counts_decr. by rewrite Permutation_middle.
  - constructor; cbn; try done. by apply counts_incr.
  - unfold observe_local_addr in E. destruct (_ || _); [by simplify_eq|]. case_bool_decide; simplify_eq; [done|]. constructor; cbn; [done| |].
    + by rewrite fmap_app in *.
    + rewrite map_app, concat_app in *. cbn in *. unfold observed_addrs at 2. cbn. rewrite fmap_app. cbn. fold (observed_addrs g).
      eapply counts_proper; [reflexivity| |apply counts_incr, H3]. rewrite <- !app_assoc. cbn. by rewrite <- !Permutation_middle.
  - constructor; cbn; [done| |].
    + rewrite fmap_app in *. cbn in *. apply counts_decr. by rewrite Permutation_middle.
    + eapply counts_proper; [reflexivity| |exact H3]. rewrite !map_app, !concat_app. cbn. by rewrite <- !app_assoc, (app_assoc (concat (map observed_addrs udp2))), (Permutation_app_comm (concat (map observed_addrs udp2))), <- !app_assoc.
  - constructor; cbn; try done. apply counts_decr. eapply counts_proper; [reflexivity| |exact H3]. by rewrite !app_assoc, Permutation_middle.
Qed.

(** The detector knows exactly the sockets that are open: under every interleaving a TCP source
    is refused exactly when a live guard holds its endpoint, and a UDP source exactly when a live
    guard holds its port and the source is a loopback address or an endpoint that some guard,
    alive or still being dropped, has observed.  No reference is lost or left behind. *)
Theorem loopback_exact s source :
  lb_reachable s ->
  (contains_tcp (ls_state s) source = true <-> source ∈ ls_tcp s)
  /\ (contains_udp_source (ls_state s) source = true <->
      (exists g, g ∈ ls_udp s /\ ug_port g = sa_port source)
      /\ (ip_is_loopback (sa_ip source) = true \/ (exists g, g ∈ ls_udp s /\ source ∈ observed_addrs g) \/ source ∈ ls_dropping s))
  /\ (ls_tcp s = [] -> ls_udp s = [] -> ls_dropping s = [] -> ls_state s = LoopbackState_default).
Proof.
  intros Hr. assert (Hi : lb_inv s).
  { apply rtc_ind_r with (P := lb_inv) (x := mkLbSystem LoopbackState_default [] [] []) in Hr; [done|constructor; apply counts_nil|]. intros x y _ Hxy Hx. by apply (lb_inv_step x). }
  destruct Hi as [H1 H2 H3]. unfold contains_tcp, contains_udp_source. rewrite (counts_elem _ _ _ H1), (counts_elem _ _ _ H2), (counts_elem _ _ _ H3). split_and!.
  - by rewrite bool_decide_eq_true.
  - assert (Hp : sa_port source ∈ ug_port <$> ls_udp s <-> exists g, g ∈ ls_udp s /\ ug_port g = sa_port source).
    { rewrite list_elem_of_fmap. split; intros (g & Hg & Hg'); exists g; auto. }
    assert (Ha : source ∈ concat (map observed_addrs (ls_udp s)) ++ ls_dropping s <-> (exists g, g ∈ ls_udp s /\ source ∈ observed_addrs g) \/ source ∈ ls_dropping s).
    { rewrite elem_of_app, list_elem_of_In, in_concat. split; (intros [Hx|Hx]; [left|by right]).
      - destruct Hx as (l & Hl & Hs). apply in_map_iff in Hl as (g & <- & Hg). exists g. split; by apply list_elem_of_In.
      - destruct Hx as (g & Hg & Hs). exists (observed_addrs g). split; [|by apply list_elem_of_In]. apply in_map_iff. exists g. split; [done|]. by apply list_elem_of_In. }
    rewrite <- Hp. case_bool_decide as Hd; cbn; [|split; [done|by intros [? _]]]. rewrite orb_true_iff, bool_decide_eq_true, Ha. tauto.
  - intros Ht Hu Hd. rewrite Ht, Hu, Hd in *. cbn in *. destruct (ls_state s) as [a b c]. cbn in *. unfold LoopbackState_default.
    f_equal; apply map_eq; intros k; rewrite lookup_empty; [apply (H1 k)|apply (H2 k)|apply (H3 k)].
Qed.

Module LoopbackWitness.

Definition addr : SocketAddr := mkSocketAddr (V4 167772161) 4000.

Lemma loopback_exact_witness : exists s, lb_reachable s /\ contains_udp_source (ls_state s) addr = true.
Proof.
  eexists. assert (Hr : lb_reachable (mkLbSystem (mkLoopback ∅ (incr ∅ 4000) (incr ∅ addr)) [] ([] ++ mkUdpGuard 4000 [V4 167772161] :: []) [])).
  { eapply rtc_l; [apply (lb_register_udp _ _ _ _ 4000)|]. eapply rtc_l; [apply (lb_observe _ _ [] (mkUdpGuard 4000 []) [] _ addr); reflexivity|]. apply rtc_refl. }
  split; [exact Hr|]. apply (proj1 (proj2 (loopback_exact _ addr Hr))). split.
  - exists (mkUdpGuard 4000 [V4 167772161]). split; [apply list_elem_of_here|reflexivity].
  - right. left. exists (mkUdpGuard 4000 [V4 167772161]). split; apply list_elem_of_here.
Defined.

End LoopbackWitness.
