(* ===== verification/DnsPacket.v ===== *)
(** * DNS packets of the hijack and fake-IP paths ([core-resolver/src/packet.rs])

    The question is read from the request as received; a response is the request cut after its
    question with a rewritten header and the answers appended.  Slices and index expressions
    panic out of range, so that the functions return an [outcome]; [None] of the source is
    [Ok None].  The wire form of a record of crate [hickory] is a parameter of
    [build_record_response]: the bytes [Record::emit] wrote, or [None] when it failed. *)

From stdpp Require Import base list gmap strings numbers option.
From S2P Require Import Prelude Net Text RouteSpec.

Definition TYPE_A : Z := 1.
Definition TYPE_AAAA : Z := 28.
Definition TYPE_SVCB : Z := 64.
Definition TYPE_HTTPS : Z := 65.
Definition CLASS_IN : Z := 1.

Record DnsQuestion : Type := mkQuestion { dq_name : string; dq_qtype : Z; dq_qclass : Z; dq_end : Z }.

(** [read_name]: [fuel] counts the 128 rounds of its loop. *)
Fixpoint read_name_loop (fuel : nat) (pkt : list Z) (i : Z) (labels : list string) (end_after_pointer : option Z)
    : outcome (option (string * Z)) :=
  match fuel with
  | O => Ok None
  | S fuel' =>
    match pkt !! Z.to_nat i with
    | None => Ok None
    | Some n =>
      if Z.land n 192 =? 192 then
        match pkt !! Z.to_nat (i + 1) with
        | None => Ok None
        | Some b2 =>
          let ptr := Z.lor (Z.shiftl (Z.land n 63) 8) b2 in
          if len pkt <=? ptr then Ok None
          else read_name_loop fuel' pkt ptr labels (Some (default (i + 2) end_after_pointer))
        end
      else if negb (Z.land n 192 =? 0) then Ok None
      else if n =? 0 then Ok (Some (join "." labels, default (i + 1) end_after_pointer))
      else
        let next := i + 1 + n in
        if len pkt <? next then Ok None else
        raw ← get_slice pkt (i + 1) next;
        match from_utf8 raw with
        | None => Ok None
        | Some label => read_name_loop fuel' pkt next (labels ++ [to_ascii_lowercase label]) end_after_pointer
        end
    end
  end.

Definition read_name (pkt : list Z) (start : Z) : outcome (option (string * Z)) := read_name_loop 128 pkt start [] None.

(** [u16::from_be_bytes([pkt[i], pkt[i + 1]])] *)
Definition be16_at (pkt : list Z) (i : Z) : outcome Z := a ← index pkt i; b ← index pkt (i + 1); Ok (be_val [a; b]).

Definition parse_first_question (pkt : list Z) : outcome (option DnsQuestion) :=
  if len pkt <? 12 then Ok None else
  qdcount ← be16_at pkt 4;
  if qdcount =? 0 then Ok None else
  r ← read_name pkt 12;
  match r with
  | None => Ok None
  | Some (name, name_end) =>
    if len pkt <? name_end + 4 then Ok None else
    qtype ← be16_at pkt name_end;
    qclass ← be16_at pkt (name_end + 2);
    Ok (Some (mkQuestion name qtype qclass (name_end + 4)))
  end.

Definition set_response_header (resp : list Z) (question_count answer_count : Z) : outcome (list Z) :=
  if len resp <? 12 then Ok resp else
  b2 ← index resp 2;
  Ok (take 2 resp ++ [Z.lor 128 (Z.land b2 1); 128] ++ be_bytes 2 question_count ++ be_bytes 2 answer_count
      ++ be_bytes 2 0 ++ be_bytes 2 0 ++ drop 12 resp).

Definition build_empty_response (req : list Z) (question : option DnsQuestion) : outcome (list Z) :=
  if len req <? 12 then Ok [] else
  let end_ := match question with Some q => Z.min (dq_end q) (len req) | None => len req end in
  resp ← get_slice req 0 end_;
  qdcount ← (match question with Some _ => Ok 1 | None => be16_at req 4 end);
  set_response_header resp qdcount 0.

Definition ip_matches_qtype (ip : IpAddr) (qtype : Z) : bool :=
  match ip with V4 _ => qtype =? TYPE_A | V6 _ => qtype =? TYPE_AAAA end.

(** One answer: the name is a pointer to offset 12, the question. *)
Definition answer_bytes (ttl_secs : Z) (ip : IpAddr) : list Z :=
  [192; 12] ++
  match ip with
  | V4 _ => be_bytes 2 TYPE_A ++ be_bytes 2 CLASS_IN ++ be_bytes 4 ttl_secs ++ be_bytes 2 4 ++ octets ip
  | V6 _ => be_bytes 2 TYPE_AAAA ++ be_bytes 2 CLASS_IN ++ be_bytes 4 ttl_secs ++ be_bytes 2 16 ++ octets ip
  end.

Definition build_ip_response (req : list Z) (question : DnsQuestion) (ips : list IpAddr) (ttl_secs : Z) : outcome (list Z) :=
  if len req <? 12 then Ok [] else
  let answers := List.filter (fun ip => ip_matches_qtype ip (dq_qtype question)) ips in
  if len answers =? 0 then build_empty_response req (Some question) else
  resp ← get_slice req 0 (Z.min (dq_end question) (len req));
  resp ← set_response_header resp 1 (len answers mod 2 ^ 16);
  Ok (resp ++ concat (answer_bytes ttl_secs <$> answers)).

Definition build_record_response (req : list Z) (question : DnsQuestion) (records : list (option (list Z))) : outcome (list Z) :=
  if len req <? 12 then Ok [] else
  let encoded := concat (omap id records) in
  let answer_count := foldl (fun n (_ : list Z) => saturating_add 16 n 1) 0 (omap id records) in
  if answer_count =? 0 then build_empty_response req (Some question) else
  resp ← get_slice req 0 (Z.min (dq_end question) (len req));
  resp ← set_response_header resp 1 answer_count;
  Ok (resp ++ encoded).

(** ** Reference: the wire form of a name, of a query, and a reader of address answers *)

Definition encode_name (labels : list (list Z)) : list Z := concat ((fun l => len l :: l) <$> labels) ++ [0].

Definition label_ok (l : list Z) : Prop := bytes_ok l /\ 1 <= len l <= 63 /\ utf8_valid l = true.

(** The name a reader sees: the labels in lower case, with dots. *)
Definition name_text (labels : list (list Z)) : string := join "." ((fun l => to_ascii_lowercase (str_of_bytes l)) <$> labels).

(** A request: identifier, flags, a question count that is not zero, the other counts, the
    question and whatever follows it. *)
Record Query : Type := mkQuery {
  qy_id : list Z; qy_flags : list Z; qy_qdcount : Z; qy_counts : list Z;
  qy_labels : list (list Z); qy_type : Z; qy_class : Z; qy_rest : list Z
}.

Definition query_bytes (q : Query) : list Z :=
  qy_id q ++ qy_flags q ++ be_bytes 2 (qy_qdcount q) ++ qy_counts q ++ encode_name (qy_labels q)
  ++ be_bytes 2 (qy_type q) ++ be_bytes 2 (qy_class q) ++ qy_rest q.

Record query_ok (q : Query) : Prop := mkQueryOk {
  qo_id : len (qy_id q) = 2; qo_flags : len (qy_flags q) = 2; qo_qdcount : 1 <= qy_qdcount q < 65536;
  qo_counts : len (qy_counts q) = 6; qo_labels : Forall label_ok (qy_labels q); qo_number : (length (qy_labels q) <= 126)%nat;
  qo_type : u16 (qy_type q); qo_class : u16 (qy_class q)
}.

Definition query_question (q : Query) : DnsQuestion :=
  mkQuestion (name_text (qy_labels q)) (qy_type q) (qy_class q) (12 + len (encode_name (qy_labels q)) + 4).

Fixpoint read_answers (n : nat) (pkt : list Z) (i : Z) : outcome (list (string * IpAddr * Z)) :=
  match n with
  | O => Ok []
  | S n' =>
    r ← read_name pkt i;
    '(name, i) ← ok_or r InvalidData;
    ty ← be16_at pkt i;
    ttl ← get_slice pkt (i + 4) (i + 8);
    size ← be16_at pkt (i + 8);
    data ← get_slice pkt (i + 10) (i + 10 + size);
    l ← read_answers n' pkt (i + 10 + size);
    Ok ((name, if ty =? TYPE_A then V4 (be_val data) else V6 (be_val data), be_val ttl) :: l)
  end.

(** ** Reading *)

Lemma land_label n : 0 <= n <= 63 -> Z.land n 192 = 0.
Proof.
  intros Hn. assert (Hf : forallb (fun k => Z.land (Z.of_nat k) 192 =? 0) (seq 0 64) = true) by reflexivity.
  rewrite forallb_forall in Hf. specialize (Hf (Z.to_nat n)). rewrite Z2Nat.id in Hf by lia. apply Z.eqb_eq, Hf, in_seq. lia.
Qed.

Lemma lookup_at {A} (pre : list A) x post i : i = len pre -> (pre ++ x :: post) !! Z.to_nat i = Some x.
Proof. intros ->. apply list_lookup_middle. unfold len. lia. Qed.

Lemma be16_at_mid pre v post i : i = len pre -> u16 v -> be16_at (pre ++ be_bytes 2 v ++ post) i = Ok v.
Proof.
  intros -> Hv. unfold be16_at. assert (Hb : be_val (be_bytes 2 v) = v) by by apply be_val_be_bytes_small.
  destruct (be_bytes 2 v) as [|a [|b [|]]] eqn:E; try (apply (f_equal length) in E; by rewrite length_be_bytes in E).
  cbn [app]. repeat (slice_step; cbn [mbind outcome_bind]). by rewrite Hb.
Qed.

Lemma encode_name_cons l labels : encode_name (l :: labels) = (len l :: l) ++ encode_name labels.
Proof. unfold encode_name. cbn. by rewrite app_assoc. Qed.

Lemma read_name_encoded labels fuel pre post i acc eap :
  Forall label_ok labels -> (length labels < fuel)%nat -> i = len pre ->
  read_name_loop fuel (pre ++ encode_name labels ++ post) i acc eap =
    Ok (Some (join "." (acc ++ ((fun l => to_ascii_lowercase (str_of_bytes l)) <$> labels)), default (i + len (encode_name labels)) eap)).
Proof.
  intros Hl. revert fuel pre i acc. induction Hl as [|l labels (Hb & Hlen & Hu) Hl IH]; intros [|fuel] pre i acc Hf Hi; cbn in Hf; try lia.
  - cbn. rewrite (lookup_at pre 0 post i Hi). cbn. by rewrite app_nil_r.
  - cbn [read_name_loop]. rewrite encode_name_cons, <- app_assoc. cbn [app]. pose proof (len_nonneg (encode_name labels)) as Hn1. pose proof (len_nonneg post) as Hn2. pose proof (len_nonneg pre) as Hn3.
    rewrite (lookup_at pre (len l) _ i Hi), land_label by lia. cbn [negb Z.eqb]. rewrite (proj2 (Z.eqb_neq (len l) 0)) by lia.
    guard_step.
    rewrite get_slice_ok by lens. cbn [mbind outcome_bind].
    rewrite (slice_app_skip pre), slice_cons_skip, slice_app_first, slice_exact by lens. unfold from_utf8. rewrite Hu.
    specialize (IH fuel (pre ++ len l :: l) (i + 1 + len l) (acc ++ [to_ascii_lowercase (str_of_bytes l)])).
    rewrite <- !app_assoc in IH. cbn [app] in IH. rewrite IH by (try lia; lens). cbn [fmap list_fmap].
    do 3 f_equal. destruct eap; cbn; [done|]. lens.
Qed.

(** The reader never leaves the packet, whatever its bytes are. *)
Lemma read_name_loop_safe fuel pkt i labels eap :
  bytes_ok pkt -> 0 <= i -> (forall e, eap = Some e -> 0 <= e) ->
  match read_name_loop fuel pkt i labels eap with
  | Ok None => True
  | Ok (Some (_, e)) => 0 <= e
  | _ => False
  end.
Proof.
  intros Hb. revert i labels eap. induction fuel as [|fuel IH]; intros i labels eap Hi He; [done|]. cbn.
  destruct (pkt !! Z.to_nat i) as [n|] eqn:En; [|done]. pose proof (Forall_lookup_1 _ _ _ _ Hb En) as Hn. unfold uint in Hn.
  destruct (_ =? 192).
  - destruct (pkt !! Z.to_nat (i + 1)) as [b2|] eqn:E2; [|done]. pose proof (Forall_lookup_1 _ _ _ _ Hb E2) as Hb2. unfold uint in Hb2.
    destruct (_ <=? _); [done|]. apply IH.
    + apply Z.lor_nonneg. split; [|lia]. apply Z.shiftl_nonneg, Z.land_nonneg. lia.
    + intros e [= <-]. destruct eap as [e|]; cbn; [by apply He|lia].
  - destruct (negb _); [done|]. destruct (n =? 0); [destruct eap as [e|]; cbn; [by apply He|lia]|].
    destruct (Z.ltb_spec (len pkt) (i + 1 + n)); [done|]. rewrite get_slice_ok by lia. cbn.
    destruct (from_utf8 _); [|done]. apply IH; [lia|done].
Qed.

Lemma be16_at_ok pkt i : 0 <= i -> i + 1 < len pkt -> exists v, be16_at pkt i = Ok v.
Proof.
  intros H1 H2. unfold be16_at. destruct (index_ok pkt i) as (a & -> & _); [lia|]. destruct (index_ok pkt (i + 1)) as (b & E & _); [lia|].
  cbn. rewrite E. by eexists.
Qed.

Lemma parse_first_question_total pkt : bytes_ok pkt -> exists r, parse_first_question pkt = Ok r /\ forall q, r = Some q -> 4 <= dq_end q <= len pkt.
Proof.
  intros Hb. unfold parse_first_question. destruct (Z.ltb_spec (len pkt) 12); [by eexists|].
  destruct (be16_at_ok pkt 4) as (qd & ->); [lia|lia|]. cbn [mbind outcome_bind]. destruct (qd =? 0); [by eexists|]. unfold read_name.
  pose proof (read_name_loop_safe 128 pkt 12 [] None Hb ltac:(lia) ltac:(done)) as Hs. destruct (read_name_loop _ _ _ _ _) as [[[name e]|]| |]; try done; cbn [mbind outcome_bind]; [|by eexists].
  destruct (Z.ltb_spec (len pkt) (e + 4)); [by eexists|]. destruct (be16_at_ok pkt e) as (qt & ->); [lia|lia|].
  destruct (be16_at_ok pkt (e + 2)) as (qc & ->); [lia|lia|]. cbn. eexists. split; [done|]. intros q [= <-]. cbn. lia.
Qed.

(** ** Writing *)

Lemma set_response_header_total resp qc ac : exists r, set_response_header resp qc ac = Ok r.
Proof. unfold set_response_header. destruct (Z.ltb_spec (len resp) 12); [by eexists|]. destruct (index_ok resp 2) as (b & -> & _); [lia|]. by eexists. Qed.

Lemma build_empty_response_total req q : (forall x, q = Some x -> 0 <= dq_end x) -> exists r, build_empty_response req q = Ok r.
Proof.
  intros Hq. unfold build_empty_response. destruct (Z.ltb_spec (len req) 12); [by eexists|].
  rewrite get_slice_ok; cycle 1. { destruct q as [x|]; [specialize (Hq x eq_refl)|]; lia. } { destruct q as [x|]; lia. }
  cbn. destruct q as [x|]; cbn; [apply set_response_header_total|]. destruct (be16_at_ok req 4) as (v & ->); [lia|lia|]. apply set_response_header_total.
Qed.

Lemma build_ip_response_total req q ips ttl : 0 <= dq_end q -> exists r, build_ip_response req q ips ttl = Ok r.
Proof.
  intros Hq. unfold build_ip_response. destruct (Z.ltb_spec (len req) 12); [by eexists|]. destruct (_ =? 0); [apply build_empty_response_total; by intros ? [= <-]|].
  rewrite get_slice_ok by lia. cbn. destruct (set_response_header_total (slice req 0 (Z.min (dq_end q) (len req))) 1 (len (List.filter (fun ip => ip_matches_qtype ip (dq_qtype q)) ips) mod 2 ^ 16)) as (r & ->). by eexists.
Qed.

Lemma build_record_response_total req q records : 0 <= dq_end q -> exists r, build_record_response req q records = Ok r.
Proof.
  intros Hq. unfold build_record_response. destruct (Z.ltb_spec (len req) 12); [by eexists|]. destruct (_ =? 0); [apply build_empty_response_total; by intros ? [= <-]|].
  rewrite get_slice_ok by lia. cbn. match goal with |- context [set_response_header ?a ?b ?c] => destruct (set_response_header_total a b c) as (r & ->) end. by eexists.
Qed.

(** ** Round trips *)

Definition response_head (q : Query) (answers : Z) : list Z :=
  qy_id q ++ [Z.lor 128 (Z.land (default 0 (head (qy_flags q))) 1); 128] ++ be_bytes 2 1 ++ be_bytes 2 answers ++ be_bytes 2 0 ++ be_bytes 2 0
  ++ encode_name (qy_labels q) ++ be_bytes 2 (qy_type q) ++ be_bytes 2 (qy_class q).

Lemma response_head_correct q n :
  query_ok q ->
  (resp ← get_slice (query_bytes q) 0 (Z.min (dq_end (query_question q)) (len (query_bytes q))); set_response_header resp 1 n) = Ok (response_head q n)
  /\ 12 <= len (query_bytes q).
Proof.
  intros [H1 H2 H3 H4 _ _ _ _]. pose proof (len_nonneg (encode_name (qy_labels q))) as Hn. pose proof (len_nonneg (qy_rest q)) as Hr.
  assert (Hl : len (query_bytes q) = 12 + len (encode_name (qy_labels q)) + 4 + len (qy_rest q)) by (unfold query_bytes; lens).
  split; [|lia]. rewrite get_slice_ok by (unfold query_question; cbn; lia). cbn [mbind outcome_bind].
  replace (slice (query_bytes q) 0 _) with ((qy_id q ++ qy_flags q ++ be_bytes 2 (qy_qdcount q) ++ qy_counts q) ++ encode_name (qy_labels q) ++ be_bytes 2 (qy_type q) ++ be_bytes 2 (qy_class q)).
  2: { unfold query_bytes. rewrite !app_assoc. symmetry. rewrite slice_app_first by (unfold query_question; cbn; lens). apply slice_exact; [done|]. rewrite <- !app_assoc. unfold query_question. cbn [dq_end]. lens. }
  unfold set_response_header. guard_step. destruct (qy_flags q) as [|f0 [|f1 [|]]] eqn:Ef; try (exfalso; unfold len in H2; cbn in H2; lia).
  rewrite index_app_first by lens. rewrite index_app_skip by lens. cbn [app]. rewrite index_cons_eq by lia. cbn [mbind outcome_bind]. f_equal. unfold response_head. rewrite Ef. cbn [head default option_fmap option_map from_option].
  rewrite drop_app_length' by (rewrite !length_app; cbn [length]; rewrite length_app, length_be_bytes; unfold len in *; lia).
  rewrite <- !app_assoc, take_app_length' by (unfold len in H1; lia). reflexivity.
Qed.

Lemma read_name_loop_pointer fuel pkt a b i :
  pkt = a ++ [192; 12] ++ b -> i = len a -> 12 < len pkt -> read_name_loop (S fuel) pkt i [] None = read_name_loop fuel pkt 12 [] (Some (i + 2)).
Proof.
  intros Hp Hi Hl. cbn [read_name_loop]. assert (E1 : pkt !! Z.to_nat i = Some 192) by (rewrite Hp; cbn; by apply lookup_at).
  assert (E2 : pkt !! Z.to_nat (i + 1) = Some 12). { rewrite Hp. change (a ++ [192; 12] ++ b) with (a ++ [192] ++ 12 :: b). rewrite app_assoc. apply lookup_at. lens. }
  rewrite E1, E2. change (Z.land 192 192 =? 192) with true. cbn [from_option default id]. change (Z.lor _ 12) with 12. by rewrite (proj2 (Z.leb_gt _ _) Hl).
Qed.

(** An answer that points to offset 12 carries the name of the question. *)
Lemma read_name_pointer head labels rest a b pkt i :
  len head = 12 -> Forall label_ok labels -> (length labels <= 126)%nat ->
  pkt = head ++ encode_name labels ++ rest -> pkt = a ++ [192; 12] ++ b -> i = len a ->
  read_name pkt i = Ok (Some (name_text labels, i + 2)).
Proof.
  intros Hh Hl Hn Hp Ha Hi. unfold read_name. rewrite (read_name_loop_pointer 127 pkt a b i Ha Hi).
  - rewrite Hp, read_name_encoded by (try done; lia). done.
  - rewrite Hp. unfold encode_name. pose proof (len_nonneg rest). pose proof (len_nonneg (concat ((fun l => len l :: l) <$> labels))). lens.
Qed.

Lemma answer_bytes_form ttl ip :
  ip_ok ip -> exists ty, u16 ty /\ u16 (len (octets ip)) /\ (if ty =? TYPE_A then V4 (be_val (octets ip)) else V6 (be_val (octets ip))) = ip
    /\ answer_bytes ttl ip = [192; 12] ++ be_bytes 2 ty ++ be_bytes 2 CLASS_IN ++ be_bytes 4 ttl ++ be_bytes 2 (len (octets ip)) ++ octets ip.
Proof.
  intros Hi. destruct ip as [a|a]; [exists TYPE_A|exists TYPE_AAAA]; unfold octets; rewrite len_be_bytes, be_val_be_bytes_small by done;
    (split; [by unfold uint, TYPE_A, TYPE_AAAA|]); (split; [by unfold uint|]); done.
Qed.

Lemma be_read_mid pre n v post : 0 <= v < 256 ^ Z.of_nat n -> get_slice (pre ++ be_bytes n v ++ post) (len pre) (len pre + Z.of_nat n) = Ok (be_bytes n v) /\ be_val (be_bytes n v) = v.
Proof.
  intros Hv. pose proof (len_nonneg pre). pose proof (len_nonneg post). split; [|by apply be_val_be_bytes_small]. rewrite get_slice_ok by lens. rewrite slice_app_skip, slice_app_first, slice_exact by lens. done.
Qed.

Section answers.
Context (head : list Z) (labels : list (list Z)) (mid : list Z) (ttl : Z).
Context (Hhead : len head = 12) (Hlabels : Forall label_ok labels) (Hnumber : (length labels <= 126)%nat) (Httl : u32 ttl).

Lemma read_answers_encoded answers : forall before i,
  Forall ip_ok answers -> i = len (head ++ encode_name labels ++ mid ++ before) ->
  read_answers (length answers) (head ++ encode_name labels ++ mid ++ before ++ concat (answer_bytes ttl <$> answers)) i
    = Ok ((fun ip => (name_text labels, ip, ttl)) <$> answers).
Proof using All.
  induction answers as [|ip answers IH]; intros before i Hok Hi; [done|]. apply Forall_cons_1 in Hok as [Hip Hok].
  destruct (answer_bytes_form ttl ip Hip) as (ty & Hty & Hsize & Hdec & Hform). cbn [fmap list_fmap concat length read_answers].
  set (tail := concat (answer_bytes ttl <$> answers)) in *. set (P := head ++ encode_name labels ++ mid ++ before) in *.
  set (pkt := head ++ encode_name labels ++ mid ++ before ++ answer_bytes ttl ip ++ tail).
  assert (Hpkt : pkt = P ++ [192; 12] ++ be_bytes 2 ty ++ be_bytes 2 CLASS_IN ++ be_bytes 4 ttl ++ be_bytes 2 (len (octets ip)) ++ octets ip ++ tail).
  { unfold pkt, P. rewrite Hform. by rewrite <- !app_assoc. }
  rewrite (read_name_pointer head labels (mid ++ before ++ answer_bytes ttl ip ++ tail) P _ pkt i Hhead Hlabels Hnumber eq_refl Hpkt Hi). cbn [mbind outcome_bind ok_or].
  assert (E1 : be16_at pkt (i + 2) = Ok ty). { rewrite Hpkt, (app_assoc P). apply be16_at_mid; [lens|done]. }
  assert (E2 : get_slice pkt (i + 2 + 4) (i + 2 + 8) = Ok (be_bytes 4 ttl) /\ be_val (be_bytes 4 ttl) = ttl).
  { rewrite Hpkt, !app_assoc. rewrite <- !(app_assoc _ _ tail), <- (app_assoc _ _ (octets ip ++ tail)), <- (app_assoc _ (be_bytes 4 ttl)).
    replace (i + 2 + 4) with (len (((P ++ [192; 12]) ++ be_bytes 2 ty) ++ be_bytes 2 CLASS_IN)) by lens.
    replace (i + 2 + 8) with (len (((P ++ [192; 12]) ++ be_bytes 2 ty) ++ be_bytes 2 CLASS_IN) + Z.of_nat 4) by lens. by apply be_read_mid. }
  assert (E3 : be16_at pkt (i + 2 + 8) = Ok (len (octets ip))).
  { rewrite Hpkt, !app_assoc. rewrite <- (app_assoc _ _ tail), <- (app_assoc _ _ (octets ip ++ tail)). apply be16_at_mid; [lens|done]. }
  pose proof (len_nonneg (octets ip)). pose proof (len_nonneg tail). pose proof (len_nonneg P).
  assert (E4 : get_slice pkt (i + 2 + 10) (i + 2 + 10 + len (octets ip)) = Ok (octets ip)).
  { rewrite get_slice_ok by (rewrite ?Hpkt; lens). rewrite Hpkt. f_equal. repeat slice_step. done. }
  rewrite E1. cbn [mbind outcome_bind]. rewrite (proj1 E2). cbn [mbind outcome_bind]. rewrite E3. cbn [mbind outcome_bind]. rewrite E4. cbn [mbind outcome_bind].
  replace pkt with (head ++ encode_name labels ++ mid ++ (before ++ answer_bytes ttl ip) ++ tail) by (unfold pkt; by rewrite <- !app_assoc).
  rewrite IH; [|done|rewrite Hform; unfold P in *; lens]. cbn [mbind outcome_bind]. by rewrite Hdec, (proj2 E2).
Qed.
End answers.

(** A well-formed query is read back: the question is the one the client encoded, in lower case. *)
Lemma parse_query q : query_ok q -> parse_first_question (query_bytes q) = Ok (Some (query_question q)).
Proof.
  intros Hq. pose proof Hq as [H1 H2 H3 H4 H5 H6 H7 H8]. pose proof (proj2 (response_head_correct q 0 Hq)) as Hl. pose proof (len_nonneg (encode_name (qy_labels q))) as Hn. pose proof (len_nonneg (qy_rest q)) as Hr.
  unfold parse_first_question. rewrite (proj2 (Z.ltb_ge _ _) Hl).
  assert (E1 : be16_at (query_bytes q) 4 = Ok (qy_qdcount q)). { unfold query_bytes. rewrite (app_assoc (qy_id q)). apply be16_at_mid; [lens|unfold uint; lia]. }
  rewrite E1. cbn [mbind outcome_bind]. rewrite (proj2 (Z.eqb_neq _ _)) by lia.
  assert (E2 : read_name (query_bytes q) 12 = Ok (Some (name_text (qy_labels q), 12 + len (encode_name (qy_labels q))))).
  { unfold read_name, query_bytes. rewrite !(app_assoc (qy_id q)), (app_assoc _ (be_bytes 2 _)), (app_assoc _ (qy_counts q)). rewrite read_name_encoded; [done|done|lia|lens]. }
  rewrite E2. cbn [mbind outcome_bind]. rewrite (proj2 (Z.ltb_ge _ _)) by (unfold query_bytes; lens).
  assert (E3 : be16_at (query_bytes q) (12 + len (encode_name (qy_labels q))) = Ok (qy_type q)).
  { unfold query_bytes. rewrite !(app_assoc (qy_id q)), (app_assoc _ (be_bytes 2 (qy_qdcount q))), (app_assoc _ (qy_counts q)), (app_assoc _ (encode_name _)). apply be16_at_mid; [lens|done]. }
  assert (E4 : be16_at (query_bytes q) (12 + len (encode_name (qy_labels q)) + 2) = Ok (qy_class q)).
  { unfold query_bytes. rewrite !(app_assoc (qy_id q)), (app_assoc _ (be_bytes 2 (qy_qdcount q))), (app_assoc _ (qy_counts q)), (app_assoc _ (encode_name _)), (app_assoc _ (be_bytes 2 (qy_type q))). apply be16_at_mid; [lens|done]. }
  rewrite E3, E4. reflexivity.
Qed.

(** What a client reads in a response: the identifier, the recursion-desired bit, the counts and
    the answers. *)
Definition response_reads (q : Query) (resp : list Z) (answers : list (string * IpAddr * Z)) : Prop :=
  slice resp 0 2 = qy_id q
  /\ index resp 2 = Ok (Z.lor 128 (Z.land (default 0 (head (qy_flags q))) 1)) /\ index resp 3 = Ok 128
  /\ be16_at resp 4 = Ok 1 /\ be16_at resp 6 = Ok (len answers)
  /\ parse_first_question resp = Ok (Some (query_question q))
  /\ read_answers (length answers) resp (dq_end (query_question q)) = Ok answers.

Lemma response_reads_intro q ttl answers :
  query_ok q -> u32 ttl -> Forall ip_ok answers -> len answers < 65536 ->
  response_reads q (response_head q (len answers) ++ concat (answer_bytes ttl <$> answers)) ((fun ip => (name_text (qy_labels q), ip, ttl)) <$> answers).
Proof.
  intros Hq Ht Hips Hcount. pose proof Hq as [H1 H2 H3 H4 H5 H6 H7 H8]. pose proof (len_nonneg answers) as Hn.
  set (b2 := Z.lor 128 (Z.land (default 0 (head (qy_flags q))) 1)). set (tail := concat (answer_bytes ttl <$> answers)).
  assert (Hform : response_head q (len answers) ++ tail = query_bytes (mkQuery (qy_id q) [b2; 128] 1 (be_bytes 2 (len answers) ++ be_bytes 2 0 ++ be_bytes 2 0) (qy_labels q) (qy_type q) (qy_class q) tail)).
  { unfold response_head, query_bytes. cbn [qy_id qy_flags qy_qdcount qy_counts qy_labels qy_type qy_class qy_rest]. by rewrite <- !app_assoc. }
  unfold response_reads. rewrite len_fmap, length_fmap. split_and!.
  - unfold response_head. rewrite <- app_assoc, slice_app_first by lens. apply slice_exact; lens.
  - unfold response_head. rewrite <- !app_assoc. by repeat slice_step.
  - unfold response_head. rewrite <- !app_assoc. by repeat slice_step.
  - unfold response_head. rewrite <- !app_assoc, (app_assoc (qy_id q)). apply be16_at_mid; [lens|done].
  - unfold response_head. rewrite <- !app_assoc, (app_assoc (qy_id q)), (app_assoc _ (be_bytes 2 1)). apply be16_at_mid; [lens|unfold uint; lia].
  - rewrite Hform, parse_query; [done|]. constructor; cbn; try done; lens.
  - pose proof (read_answers_encoded (qy_id q ++ [b2; 128] ++ be_bytes 2 1 ++ be_bytes 2 (len answers) ++ be_bytes 2 0 ++ be_bytes 2 0) (qy_labels q) (be_bytes 2 (qy_type q) ++ be_bytes 2 (qy_class q)) ttl ltac:(lens) H5 H6 Ht answers [] (dq_end (query_question q)) Hips) as Hr.
    cbn [app] in Hr. unfold response_head. fold b2. rewrite <- !app_assoc in *. apply Hr. unfold query_question. cbn [dq_end]. lens.
Qed.

Lemma matching_answers ips ty :
  Forall ip_ok ips -> len ips < 65536 ->
  Forall ip_ok (List.filter (fun ip => ip_matches_qtype ip ty) ips) /\ len (List.filter (fun ip => ip_matches_qtype ip ty) ips) < 65536.
Proof.
  intros Hok Hlen. split.
  - apply list.Forall_forall. intros ip Hip. rewrite list_elem_of_In, filter_In, <- list_elem_of_In in Hip. destruct Hip as [Hip _]. by apply (proj1 (list.Forall_forall _ _) Hok).
  - eapply Z.le_lt_trans; [|exact Hlen]. unfold len. pose proof (List.filter_length_le (fun ip => ip_matches_qtype ip ty) ips). lia.
Qed.

Lemma build_ip_response_reads q ips ttl :
  query_ok q -> u32 ttl -> Forall ip_ok ips -> len ips < 65536 ->
  let answers := List.filter (fun ip => ip_matches_qtype ip (qy_type q)) ips in
  build_ip_response (query_bytes q) (query_question q) ips ttl = Ok (response_head q (len answers) ++ concat (answer_bytes ttl <$> answers)).
Proof.
  intros Hq Ht Hips Hc answers. destruct (response_head_correct q (len answers) Hq) as [Hh Hl]. unfold build_ip_response. rewrite (proj2 (Z.ltb_ge _ _) Hl).
  change (dq_qtype (query_question q)) with (qy_type q). fold answers.
  pose proof (proj2 (matching_answers ips (qy_type q) Hips Hc)) as Hsmall. fold answers in Hsmall.
  destruct (Z.eqb_spec (len answers) 0) as [Hz|Hz].
  - rewrite (len_zero_nil _ Hz) in *. cbn [fmap list_fmap concat]. rewrite app_nil_r. unfold build_empty_response. rewrite (proj2 (Z.ltb_ge _ _) Hl). apply bind_Ok in Hh as (r & -> & Hh). exact Hh.
  - apply bind_Ok in Hh as (r & -> & Hh). cbn [mbind outcome_bind]. rewrite Z.mod_small by (pose proof (len_nonneg answers); lia). by rewrite Hh.
Qed.

(** [C37] The response to a well-formed query, read back by a client: the identifier and the
    recursion-desired bit are the query's, the question is repeated (in the query's own
    spelling on the wire, so the client's reader gives the same question), and the answers are
    exactly the addresses of the family asked for, in their order, each under the question's
    name and with the given time to live. *)
Theorem dns_answer_roundtrip q ips ttl :
  query_ok q -> u32 ttl -> Forall ip_ok ips -> len ips < 65536 ->
  parse_first_question (query_bytes q) = Ok (Some (query_question q))
  /\ exists resp, build_ip_response (query_bytes q) (query_question q) ips ttl = Ok resp
     /\ response_reads q resp ((fun ip => (name_text (qy_labels q), ip, ttl)) <$> List.filter (fun ip => ip_matches_qtype ip (qy_type q)) ips).
Proof.
  intros Hq Ht Hips Hc. split; [by apply parse_query|]. eexists. split; [by apply build_ip_response_reads|]. by apply response_reads_intro; try apply matching_answers.
Qed.

Module DnsPacketWitness.

(** [www.Example.com], type A, with one additional record after the question. *)
Definition query : Query :=
  mkQuery [18; 52] [1; 0] 1 [0; 0; 0; 0; 0; 1] [str_bytes "www"; str_bytes "Example"; str_bytes "com"] TYPE_A CLASS_IN [0; 0; 41; 4; 208; 0; 0; 0; 0; 0; 0].

Lemma query_is_ok : query_ok query.
Proof.
  assert (Hl : forall s, 1 <= str_len s <= 63 -> utf8_valid (str_bytes s) = true -> label_ok (str_bytes s)) by (intros s H1 H2; split; [apply str_bytes_ok|by split]).
  constructor; try reflexivity; try (cbn; unfold uint, TYPE_A, CLASS_IN; lia). repeat apply Forall_cons_2; try apply Forall_nil_2; apply Hl; try reflexivity; vm_compute; split; discriminate.
Qed.

Lemma dns_answer_roundtrip_witness :
  exists resp, build_ip_response (query_bytes query) (query_question query) [V4 16909060; V6 1] 60 = Ok resp
  /\ response_reads query resp [("www.example.com", V4 16909060, 60)].
Proof.
  destruct (dns_answer_roundtrip query [V4 16909060; V6 1] 60 query_is_ok) as [_ (resp & H1 & H2)]; [by unfold uint|repeat constructor; cbn; by unfold uint|done|].
  exists resp. split; [exact H1|exact H2].
Defined.

End DnsPacketWitness.
