(* ===== verification/DnsService.v ===== *)
(** * The DNS service and the reverse mapping

    Models [core-resolver/src/service.rs], [core-resolver/src/mapping.rs] and
    [Resolver::find_host_by_ip] of [core-resolver/src/resolver.rs].  The pool and the mapping are
    shared state, passed explicitly; what the resolver answers, what other tasks do to the pool
    while it is being asked, and the readings of the clock are the environment of a request,
    over which every theorem quantifies.  Times are in milliseconds. *)

From stdpp Require Import base list gmap strings numbers option.
From S2P Require Import Prelude Net Instances Text FakeIp DnsPacket Loopback.

(** ** [IpHostMapping] *)

Record MappingEntry : Type := mkMappingEntry { me_host : string; me_expires : Z }.
Record IpHostMapping : Type := mkIpHostMapping { im_inner : gmap IpAddr MappingEntry; im_max_entries : Z }.

Definition IpHostMapping_new (max_entries : Z) : IpHostMapping := mkIpHostMapping ∅ max_entries.

Definition evict_expired (m : IpHostMapping) (now : Z) : IpHostMapping :=
  mkIpHostMapping (filter (fun e => now < me_expires e.2) (im_inner m)) (im_max_entries m).

(** [now] dates the entry, [now'] is read by the eviction. *)
Definition mapping_insert (m : IpHostMapping) (ip : IpAddr) (host : string) (ttl now now' : Z) : IpHostMapping :=
  let m := mkIpHostMapping (<[ip := mkMappingEntry host (now + ttl)]> (im_inner m)) (im_max_entries m) in
  if im_max_entries m <? Z.of_nat (size (im_inner m)) then evict_expired m now' else m.

Definition mapping_find_host (m : IpHostMapping) (ip : IpAddr) (now : Z) : option string * IpHostMapping :=
  match im_inner m !! ip with
  | None => (None, m)
  | Some entry =>
    if me_expires entry <? now then (None, mkIpHostMapping (delete ip (im_inner m)) (im_max_entries m))
    else (Some (me_host entry), m)
  end.

Definition mapping_purge_expired (m : IpHostMapping) (now : Z) : Z * IpHostMapping :=
  let m' := evict_expired m now in (Z.of_nat (size (im_inner m)) - Z.of_nat (size (im_inner m')), m').

(** ** [is_global_unicast] of the service: the predicates of [std::net] on the number *)

Definition v4_octet (a i : Z) : Z := Z.land (Z.shiftr a (24 - 8 * i)) 255.
Definition v6_segment (a i : Z) : Z := Z.land (Z.shiftr a (112 - 16 * i)) 65535.

Definition ip_is_multicast (ip : IpAddr) : bool :=
  match ip with V4 a => in_range 224 239 (v4_octet a 0) | V6 a => Z.land (v6_segment a 0) 65280 =? 65280 end.
Definition v4_is_link_local (a : Z) : bool := (v4_octet a 0 =? 169) && (v4_octet a 1 =? 254).
Definition v4_is_broadcast (a : Z) : bool := a =? 4294967295.
Definition v4_is_private (a : Z) : bool :=
  (v4_octet a 0 =? 10) || ((v4_octet a 0 =? 172) && in_range 16 31 (v4_octet a 1)) || ((v4_octet a 0 =? 192) && (v4_octet a 1 =? 168)).
Definition v4_is_documentation (a : Z) : bool :=
  let net := Z.shiftr a 8 in (net =? 12582914) || (net =? 12989284) || (net =? 13303921).
Definition v6_is_unique_local (a : Z) : bool := Z.land (v6_segment a 0) 65024 =? 64512.
Definition v6_is_unicast_link_local (a : Z) : bool := Z.land (v6_segment a 0) 65472 =? 65152.

Definition dns_is_global_unicast (ip : IpAddr) : bool :=
  match ip with
  | V4 a => negb (ip_is_unspecified ip || ip_is_loopback ip || v4_is_private a || v4_is_link_local a || ip_is_multicast ip
                  || v4_is_broadcast a || v4_is_documentation a || (v4_octet a 0 =? 0)
                  || ((v4_octet a 0 =? 100) && in_range 64 127 (v4_octet a 1)) || (240 <=? v4_octet a 0))
  | V6 a => negb (ip_is_unspecified ip || ip_is_loopback ip || ip_is_multicast ip || v6_is_unique_local a || v6_is_unicast_link_local a
                  || ((v6_segment a 0 =? 8193) && (v6_segment a 1 =? 3512)))
  end.

(** ** The service *)

Record ResolveAnswer : Type := mkResolveAnswer { ra_ips : list IpAddr; ra_stale : bool }.

(** What the service reads of the resolver: whether its fake mode is [Off], and the TTL of stale answers *)
Record ResolverView : Type := mkResolverView { rv_fake_off : bool; rv_stale_answer_ttl : Z }.

Section Service.
Context `{IpNetLib} `{StrCase}.

Record DnsService : Type := mkDnsService {
  ds_resolver : option ResolverView; ds_fake_filter : option FakeIpFilter; ds_ipv6_enabled : bool; ds_ttl : Z
}.

(** The shared state the service holds: the pool and the mapping, where it was given them *)
Record DnsState : Type := mkDnsState { dn_pool : option FakeIpPool; dn_mapping : option IpHostMapping }.

(** [new], [fake_only] and [with_fake_pool] *)
Definition DnsService_new (resolver : ResolverView) (cache_ttl : Z) (filter : option FakeIpFilter) (ipv6 : bool) (mapping : IpHostMapping) : DnsService * DnsState :=
  (mkDnsService (Some resolver) filter ipv6 cache_ttl, mkDnsState None (Some mapping)).
Definition DnsService_fake_only (pool : FakeIpPool) : DnsService * DnsState := (mkDnsService None None true 60000, mkDnsState (Some pool) None).
Definition with_fake_pool (s : DnsService * DnsState) (pool : FakeIpPool) : DnsService * DnsState := (s.1, mkDnsState (Some pool) (dn_mapping s.2)).

Definition fake_enabled (s : DnsService) (st : DnsState) : bool :=
  bool_decide (is_Some (dn_pool st)) && match ds_resolver s with Some r => negb (rv_fake_off r) | None => true end.

(** The environment of a request *)
Record DnsEnv : Type := mkDnsEnv {
  ev_alloc : Z * Z;                       (** the two readings of [alloc] *)
  ev_during : list pool_op;               (** what happens to the pool while the resolver is asked *)
  ev_answer : option ResolveAnswer;       (** [resolve_qtype_answer] *)
  ev_records : option (list (option (list Z)));  (** [resolve_records_answer], each record as it is emitted *)
  ev_clock : nat -> Z                     (** later readings, in order *)
}.

(** [ttl.as_secs().min(u32::MAX as u64) as u32] *)
Definition ttl_secs (ttl : Z) : Z := Z.min (ttl / 1000) (2 ^ 32 - 1).

(** One round of the loop that writes the mappings; three readings of the clock *)
Definition record_mapping (ev : DnsEnv) (host : string) (ttl : Z) (acc : nat * DnsState) (ip : IpAddr) : nat * DnsState :=
  let '(k, st) := acc in
  (k + 3, mkDnsState ((fun p => insert_mapping p ip host ttl (ev_clock ev (k + 2))) <$> dn_pool st)
            ((fun m => mapping_insert m ip host ttl (ev_clock ev k) (ev_clock ev (k + 1))) <$> dn_mapping st))%nat.

(** [serve_packet]: the response and the state afterwards *)
Definition serve_packet (s : DnsService) (st : DnsState) (ev : DnsEnv) (req : list Z) : outcome (list Z * DnsState) :=
  q ← parse_first_question req;
  match q with
  | None => r ← build_empty_response req None; Ok (r, st)
  | Some question =>
    if (dq_qtype question =? TYPE_A) || (dq_qtype question =? TYPE_AAAA) then
      if negb (ds_ipv6_enabled s) && (dq_qtype question =? TYPE_AAAA) then r ← build_empty_response req (Some question); Ok (r, st) else
      let skip_fake := match ds_fake_filter s with Some f => should_skip f (dq_name question) | None => false end in
      if fake_enabled s st && negb skip_fake then
        pool ← expect (dn_pool st);
        let family := if dq_qtype question =? TYPE_A then FamV4 else FamV6 in
        let '(ip, pool') := alloc pool (dq_name question) family (ev_alloc ev).1 (ev_alloc ev).2 in
        let ttl := Z.min (ds_ttl s) (fc_ttl (fp_cfg pool')) in
        r ← build_ip_response req question (option_list ip) (ttl_secs ttl);
        Ok (r, mkDnsState (Some pool') (dn_mapping st))
      else
      match ds_resolver s with
      | None => r ← build_empty_response req (Some question); Ok (r, st)
      | Some resolver =>
        let st := mkDnsState ((fun p => pool_run p (ev_during ev)) <$> dn_pool st) (dn_mapping st) in
        match ev_answer ev with
        | Some answer =>
          let ttl := if ra_stale answer then rv_stale_answer_ttl resolver else ds_ttl s in
          let mapping_ttl := Z.max ttl 1000 in
          let '(_, st) := foldl (record_mapping ev (dq_name question) mapping_ttl) (0%nat, st) (List.filter dns_is_global_unicast (ra_ips answer)) in
          r ← build_ip_response req question (ra_ips answer) (ttl_secs ttl);
          Ok (r, st)
        | None => r ← build_empty_response req (Some question); Ok (r, st)
        end
      end
    else if ((dq_qtype question =? TYPE_SVCB) || (dq_qtype question =? TYPE_HTTPS)) && fake_enabled s st then
      r ← build_empty_response req (Some question); Ok (r, st)
    else
      match ds_resolver s with
      | None => r ← build_empty_response req (Some question); Ok (r, st)
      | Some _ =>
        let st := mkDnsState ((fun p => pool_run p (ev_during ev)) <$> dn_pool st) (dn_mapping st) in
        match ev_records ev with
        | Some records => r ← build_record_response req question records; Ok (r, st)
        | None => r ← build_empty_response req (Some question); Ok (r, st)
        end
      end
  end.

(** [Resolver::find_host_by_ip]: the pool first, then the mapping *)
Definition find_host_by_ip (pool : option FakeIpPool) (m : IpHostMapping) (ip : IpAddr) (now now' : Z) : option string * IpHostMapping :=
  match pool with
  | Some p => match fake_lookup p ip now with Some h => (Some h, m) | None => mapping_find_host m ip now' end
  | None => mapping_find_host m ip now'
  end.
End Service.

(** ** Lemmas *)
Section Lemmas.
Context `{IpNetLib} `{StrCase}.

(** The service answers every request, whatever its bytes, the pool, the mapping, the resolver's
    answer and the clock are. *)
Lemma serve_packet_total s st ev req : bytes_ok req -> exists r, serve_packet s st ev req = Ok r.
Proof.
  intros Hb. unfold serve_packet. destruct (parse_first_question_total req Hb) as (q & -> & Hq). cbn [mbind outcome_bind].
  assert (Hempty : forall st' : DnsState, exists r, (r ← build_empty_response req q; Ok (r, st')) = Ok r).
  { intros st'. destruct (build_empty_response_total req q) as (r & ->); [|by eexists]. intros x ->. specialize (Hq x eq_refl). lia. }
  destruct q as [q|]; [|apply Hempty]. specialize (Hq q eq_refl).
  assert (Hip : forall ips ttl (st' : DnsState), exists r, (r ← build_ip_response req q ips ttl; Ok (r, st')) = Ok r).
  { intros ips ttl st'. destruct (build_ip_response_total req q ips ttl) as (r & ->); [lia|by eexists]. }
  assert (Hrec : forall rs (st' : DnsState), exists r, (r ← build_record_response req q rs; Ok (r, st')) = Ok r).
  { intros rs st'. destruct (build_record_response_total req q rs) as (r & ->); [lia|by eexists]. }
  repeat case_match; try apply Hempty; try apply Hrec; try apply Hip.
  all: unfold fake_enabled in *; destruct (dn_pool st) as [p|]; [|done]; cbn [expect mbind outcome_bind]; destruct (alloc _ _ _ _ _); apply Hip.
Qed.

Lemma ttl_secs_ok ttl : 0 <= ttl -> u32 (ttl_secs ttl) /\ 1000 * ttl_secs ttl <= ttl.
Proof. intros Ht. unfold uint, ttl_secs. pose proof (Z.div_pos ttl 1000 Ht ltac:(lia)). pose proof (Z.mul_div_le ttl 1000). lia. Qed.

Definition family_type (family : AddressFamily) : Z := match family with FamV4 => TYPE_A | FamV6 => TYPE_AAAA end.

(** What a client reads when the service answers from the pool. *)
Lemma serve_fake q s pool m ev family ip :
  query_ok q -> qy_type q = family_type family -> (ds_ipv6_enabled s = true \/ family = FamV4) ->
  fake_enabled s (mkDnsState (Some pool) m) = true ->
  match ds_fake_filter s with Some f => should_skip f (name_text (qy_labels q)) | None => false end = false ->
  0 <= ds_ttl s -> pool_ok pool ->
  (alloc pool (name_text (qy_labels q)) family (ev_alloc ev).1 (ev_alloc ev).2).1 = Some ip -> usable (fp_cfg pool) family ip ->
  exists resp, serve_packet s (mkDnsState (Some pool) m) ev (query_bytes q)
    = Ok (resp, mkDnsState (Some (alloc pool (name_text (qy_labels q)) family (ev_alloc ev).1 (ev_alloc ev).2).2) m)
  /\ response_reads q resp [(name_text (qy_labels q), ip, ttl_secs (Z.min (ds_ttl s) (fc_ttl (fp_cfg pool))))].
Proof.
  intros Hq Hty H6 Hen Hskip Ht1 Hp Ha Hu. pose proof Hp as ((_ & Hc6 & Ht2) & _). unfold serve_packet. rewrite parse_query by done. cbn [mbind outcome_bind].
  change (dq_qtype (query_question q)) with (qy_type q). change (dq_name (query_question q)) with (name_text (qy_labels q)). cbn [dn_pool dn_mapping].
  assert (E1 : (qy_type q =? TYPE_A) || (qy_type q =? TYPE_AAAA) = true) by (rewrite Hty; by destruct family).
  assert (E2 : negb (ds_ipv6_enabled s) && (qy_type q =? TYPE_AAAA) = false) by (rewrite Hty; destruct H6 as [->| ->]; [done|apply andb_false_r]).
  assert (E3 : (if qy_type q =? TYPE_A then FamV4 else FamV6) = family) by (rewrite Hty; by destruct family).
  rewrite E1, E2, Hskip, Hen, E3. cbn [andb negb expect mbind outcome_bind].
  pose proof (proj2 (pool_step_ok pool (OpAlloc (name_text (qy_labels q)) family (ev_alloc ev).1 (ev_alloc ev).2) Hp)) as Hc. cbn [pool_step] in Hc.
  destruct (alloc _ _ _ _ _) as [r pool']. cbn [fst snd] in *. subst r. rewrite Hc.
  assert (Hips : Forall ip_ok (option_list (Some ip)) /\ List.filter (fun ip => ip_matches_qtype ip (qy_type q)) (option_list (Some ip)) = [ip]).
  { rewrite Hty. destruct Hu as [Hu _]. pose proof (net4_bounds (fc_v4_cidr (fp_cfg pool))). pose proof (net6_bounds (fc_v6_cidr (fp_cfg pool))).
    destruct family, ip as [a|a]; try done; (split; [constructor; [unfold ip_ok, uint; lia|constructor]|done]). }
  destruct Hips as [Hok Hf]. rewrite build_ip_response_reads by (try done; apply ttl_secs_ok; lia). rewrite Hf. cbn [mbind outcome_bind].
  eexists. split; [done|]. apply (response_reads_intro q _ [ip]); [done|apply ttl_secs_ok; lia|done|done].
Qed.

(** ** The reverse mapping *)

Definition mapped (m : IpHostMapping) (ip : IpAddr) (host : string) (t : Z) : Prop :=
  exists e, im_inner m !! ip = Some e /\ me_host e = host /\ t < me_expires e.

Lemma mapping_insert_mapped m ip host ttl now now' t :
  now' <= t -> t < now + ttl -> mapped (mapping_insert m ip host ttl now now') ip host t.
Proof.
  intros H1 H2. unfold mapping_insert, evict_expired, mapped. cbn. destruct (_ <? _); cbn; exists (mkMappingEntry host (now + ttl)); (split; [|done]).
  - apply map_lookup_filter_Some. split; [apply lookup_insert_eq|cbn; lia].
  - apply lookup_insert_eq.
Qed.

Lemma mapping_insert_keeps m ip ip' host host' ttl now now' t :
  ip' <> ip -> now' <= t -> mapped m ip host t -> mapped (mapping_insert m ip' host' ttl now now') ip host t.
Proof.
  intros Hne Ht (e & He & Hh & Hx). exists e. split; [|done]. unfold mapping_insert, evict_expired. cbn. destruct (_ <? _); cbn; [|by rewrite lookup_insert_ne].
  apply map_lookup_filter_Some. rewrite lookup_insert_ne by done. split; [done|cbn; lia].
Qed.

(** The loop of the service writes a mapping for every address it goes through. *)
Lemma record_mappings_mapped ev host ttl t ips : forall k st m,
  dn_mapping st = Some m -> (forall j, ev_clock ev j <= t < ev_clock ev j + ttl) ->
  exists m', dn_mapping (foldl (record_mapping ev host ttl) (k, st) ips).2 = Some m'
  /\ forall ip, (ip ∈ ips \/ mapped m ip host t) -> mapped m' ip host t.
Proof.
  induction ips as [|i ips IH]; intros k st m Hm Hc.
  - exists m. split; [done|]. intros ip [Hip|Hip]; [by apply not_elem_of_nil in Hip|done].
  - pose proof (Hc k). pose proof (Hc (k + 1)%nat). destruct (IH (k + 3)%nat (record_mapping ev host ttl (k, st) i).2 (mapping_insert m i host ttl (ev_clock ev k) (ev_clock ev (k + 1)))) as (m' & E & Hm'); [cbn; by rewrite Hm|done|].
    exists m'. split; [exact E|]. intros ip Hip. apply Hm'. destruct (decide (ip = i)) as [->|Hne]; [right; apply mapping_insert_mapped; lia|].
    destruct Hip as [[->|Hip]%elem_of_cons|Hip]; [done|by left|]. right. apply mapping_insert_keeps; [congruence|lia|done].
Qed.

(** What a client reads when the service passes on the resolver's answer. *)
Lemma serve_resolved q s r st ev ips :
  query_ok q -> (qy_type q = TYPE_A \/ qy_type q = TYPE_AAAA /\ ds_ipv6_enabled s = true) ->
  fake_enabled s st = false -> ds_resolver s = Some r -> ev_answer ev = Some (mkResolveAnswer ips false) ->
  0 <= ds_ttl s -> Forall ip_ok ips -> len ips < 65536 ->
  exists resp, serve_packet s st ev (query_bytes q) =
    Ok (resp, (foldl (record_mapping ev (name_text (qy_labels q)) (Z.max (ds_ttl s) 1000)) (0%nat, mkDnsState ((fun p => pool_run p (ev_during ev)) <$> dn_pool st) (dn_mapping st))
                 (List.filter dns_is_global_unicast ips)).2)
  /\ response_reads q resp ((fun ip => (name_text (qy_labels q), ip, ttl_secs (ds_ttl s))) <$> List.filter (fun ip => ip_matches_qtype ip (qy_type q)) ips).
Proof.
  intros Hq Hty Hen Hr Ha Ht Hok Hlen. unfold serve_packet. rewrite parse_query by done. cbn [mbind outcome_bind].
  change (dq_qtype (query_question q)) with (qy_type q). change (dq_name (query_question q)) with (name_text (qy_labels q)).
  assert (E1 : (qy_type q =? TYPE_A) || (qy_type q =? TYPE_AAAA) = true) by (destruct Hty as [->|[-> _]]; done).
  assert (E2 : negb (ds_ipv6_enabled s) && (qy_type q =? TYPE_AAAA) = false) by (destruct Hty as [->|[-> ->]]; [apply andb_false_r|done]).
  rewrite E1, E2, Hen, Hr, Ha. cbn [andb ra_stale ra_ips]. rewrite build_ip_response_reads by (try done; by apply ttl_secs_ok).
  destruct (foldl _ _ _) as [k st']. cbn [mbind outcome_bind snd]. eexists. split; [done|]. by apply response_reads_intro; try apply ttl_secs_ok; try apply matching_answers.
Qed.
End Lemmas.

(** ** Claims *)
Section Claims.
Context `{IpNetLib} `{StrCase}.

(** The service never panics: every datagram gets a response, and one shorter than a DNS header
    gets the empty one, whatever the request's bytes, the state, the resolver's answer and the
    clock are. *)
Theorem dns_service_total s st ev req :
  bytes_ok req -> exists resp st', serve_packet s st ev req = Ok (resp, st') /\ (len req < 12 -> resp = [] /\ st' = st).
Proof.
  intros Hb. destruct (serve_packet_total s st ev req Hb) as ([resp st'] & E). exists resp, st'. split; [done|]. intros Hl.
  unfold serve_packet, parse_first_question, build_empty_response in E. rewrite (proj2 (Z.ltb_lt _ _) Hl) in E. by injection E as <- <-.
Qed.

(** The service made by [DnsService::new] passes on the resolver's addresses of the family asked
    for, also when the resolver's fake mode is on, and for as long as an answer may be used each
    of its public addresses leads back to the name that was asked. *)
Theorem redir_host_recovered resolver ttl filter ipv6 mapping q ev ips t :
  let '(s, st) := DnsService_new resolver ttl filter ipv6 mapping in
  query_ok q -> (qy_type q = TYPE_A \/ qy_type q = TYPE_AAAA /\ ipv6 = true) ->
  ev_answer ev = Some (mkResolveAnswer ips false) -> Forall ip_ok ips -> len ips < 65536 ->
  0 <= ttl -> (forall j, ev_clock ev j <= t < ev_clock ev j + ttl) ->
  exists resp m', serve_packet s st ev (query_bytes q) = Ok (resp, mkDnsState None (Some m'))
  /\ response_reads q resp ((fun ip => (name_text (qy_labels q), ip, ttl_secs ttl)) <$> List.filter (fun ip => ip_matches_qtype ip (qy_type q)) ips)
  /\ forall ip, ip ∈ ips -> dns_is_global_unicast ip = true -> find_host_by_ip None m' ip t t = (Some (name_text (qy_labels q)), m').
Proof.
  cbn [DnsService_new]. intros Hq Hty Ha Hok Hlen Ht Hc. set (s := mkDnsService _ _ _ _). set (st := mkDnsState None (Some mapping)).
  destruct (serve_resolved q s resolver st ev ips Hq Hty eq_refl eq_refl Ha Ht Hok Hlen) as (resp & E & Hr).
  destruct (record_mappings_mapped ev (name_text (qy_labels q)) (Z.max ttl 1000) t (List.filter dns_is_global_unicast ips) 0%nat st mapping eq_refl) as (m' & Em & Hm').
  { intros j. specialize (Hc j). lia. }
  assert (Hnone : forall l a, dn_pool a.2 = None -> dn_pool (foldl (record_mapping ev (name_text (qy_labels q)) (Z.max ttl 1000)) a l).2 = None).
  { induction l as [|x l IH]; intros [k a] Hp; [done|]. apply IH. cbn in *. by rewrite Hp. }
  exists resp, m'. split; [|split; [done|]].
  - rewrite E. cbn [dn_pool dn_mapping st fmap option_fmap option_map]. fold st. specialize (Hnone (List.filter dns_is_global_unicast ips) (0%nat, st) eq_refl).
    destruct (foldl _ _ _).2 as [dp dm] eqn:Ef. cbn in *. by subst.
  - intros ip Hip Hg. destruct (Hm' ip) as (e & He & Hh & Hx). { left. apply list_elem_of_In, filter_In. split; [by apply list_elem_of_In|done]. }
    unfold find_host_by_ip, mapping_find_host. rewrite He, (proj2 (Z.ltb_ge _ _)) by lia. by rewrite Hh.
Qed.
End Claims.

Module DnsServiceWitness.
Import Concrete.

Lemma dns_service_total_witness :
  exists resp st', serve_packet (DnsService_fake_only (FakeIpPool_new FakeIpWitness.cfg)).1 (mkDnsState None None) (mkDnsEnv (0, 0) [] None None (fun _ => 0)) [1; 2; 3] = Ok (resp, st') /\ resp = [].
Proof.
  destruct (dns_service_total (DnsService_fake_only (FakeIpPool_new FakeIpWitness.cfg)).1 (mkDnsState None None) (mkDnsEnv (0, 0) [] None None (fun _ => 0)) [1; 2; 3]) as (resp & st' & E & Hr).
  { repeat apply Forall_cons_2; try apply Forall_nil_2; unfold uint; lia. }
  exists resp, st'. split; [exact E|]. apply Hr. vm_compute. reflexivity.
Defined.

(** The fake mode is on, and yet the address of the resolver is passed on. *)
Lemma redir_host_recovered_witness :
  exists resp m', (let '(s, st) := DnsService_new (mkResolverView false 10000) 60000 None true (IpHostMapping_new 4096) in
    serve_packet s st (mkDnsEnv (0, 0) [] (Some (mkResolveAnswer [V4 151587081] false)) None (fun _ => 5)) (query_bytes DnsPacketWitness.query) = Ok (resp, mkDnsState None (Some m')))
  /\ (find_host_by_ip None m' (V4 151587081) 100 100).1 = Some "www.example.com".
Proof.
  destruct (redir_host_recovered (mkResolverView false 10000) 60000 None true (IpHostMapping_new 4096) DnsPacketWitness.query
    (mkDnsEnv (0, 0) [] (Some (mkResolveAnswer [V4 151587081] false)) None (fun _ => 5)) [V4 151587081] 100) as (resp & m' & E & _ & Hf).
  - exact DnsPacketWitness.query_is_ok.
  - by left.
  - reflexivity.
  - apply Forall_cons_2; [vm_compute; split; [discriminate|reflexivity]|apply Forall_nil_2].
  - vm_compute. reflexivity.
  - lia.
  - intros j. cbn. lia.
  - exists resp, m'. split; [exact E|]. rewrite (Hf (V4 151587081)); [vm_compute; reflexivity|apply list_elem_of_here|vm_compute; reflexivity].
Defined.

End DnsServiceWitness.
