(* ===== verification/Listener.v ===== *)
(** * The unified inbound handoff ([core-runtime/src/listener_handler.rs])

    Every inbound normalises what it knows of a flow into an [InboundMetadata]; the handler
    refuses WutherCore's own captured traffic, recovers the domain behind a fake or mapped
    address, looks the process up if the rules need it, and hands the flow to the direct dialler
    or to the router.  The state of the other components is passed in: the loopback detector
    ([Loopback.v]), the fake-IP pool ([FakeIp.v]), the reverse mapping ([DnsService.v]) and the
    route engine ([RouteEngine.v]); the process finder of crate [core-process] is a function.
    Dialling itself, the connection table and the relay are not modelled. *)

From stdpp Require Import base list gmap strings numbers option.
From S2P Require Import Prelude Net Instances Text FakeIp Loopback DnsPacket DnsService RouteModel RouteMatch RouteEngine RouteInstances.

Record InboundMetadata : Type := mkInbound {
  md_network : NetworkKind;
  md_inbound_name : string;
  md_kind : string;
  md_source : SocketAddr;
  md_inbound : option SocketAddr;
  md_destination_ip : option IpAddr;
  md_route_ip : option IpAddr;
  md_destination_port : Z;
  md_host : string;
  md_dns_mode : string;
  md_sniff_host : string;
  md_process : option string;
  md_process_path : option string;
  md_package_names : list string;
  md_uid : option Z;
  md_dscp : option Z;
  md_inbound_user : string;
  md_protocol : option L7Proto;
  md_force_direct : bool;
  md_force_direct_reason : string;
  md_is_inner : bool
}.

Section Listener.
Context `{IpNetLib} `{NetText} `{StrCase}.

(** [InboundMetadata::new]; [tcp] and [udp] fix the network *)
Definition InboundMetadata_new (network : NetworkKind) (inbound_name kind : string) (source : SocketAddr) (inbound : option SocketAddr) (host : string) (port : Z) : InboundMetadata :=
  let ip := parse_ip host in
  mkInbound network inbound_name kind source inbound ip ip port host "normal" "" None None [] None None "" None false "" false.
Definition InboundMetadata_tcp (inbound_name kind : string) (source inbound : SocketAddr) (host : string) (port : Z) : InboundMetadata :=
  InboundMetadata_new NkTcp inbound_name kind source (Some inbound) host port.
Definition InboundMetadata_udp (inbound_name kind : string) (source : SocketAddr) (inbound : option SocketAddr) (host : string) (port : Z) : InboundMetadata :=
  InboundMetadata_new NkUdp inbound_name kind source inbound host port.

Definition with_destination_ip (m : InboundMetadata) (ip : option IpAddr) : InboundMetadata :=
  mkInbound (md_network m) (md_inbound_name m) (md_kind m) (md_source m) (md_inbound m) ip (md_route_ip m) (md_destination_port m) (md_host m) (md_dns_mode m) (md_sniff_host m) (md_process m) (md_process_path m) (md_package_names m) (md_uid m) (md_dscp m) (md_inbound_user m) (md_protocol m) (md_force_direct m) (md_force_direct_reason m) (md_is_inner m).
Definition with_route_ip (m : InboundMetadata) (ip : option IpAddr) : InboundMetadata :=
  mkInbound (md_network m) (md_inbound_name m) (md_kind m) (md_source m) (md_inbound m) (md_destination_ip m) ip (md_destination_port m) (md_host m) (md_dns_mode m) (md_sniff_host m) (md_process m) (md_process_path m) (md_package_names m) (md_uid m) (md_dscp m) (md_inbound_user m) (md_protocol m) (md_force_direct m) (md_force_direct_reason m) (md_is_inner m).
Definition with_dns_mode (m : InboundMetadata) (dns_mode : string) : InboundMetadata :=
  mkInbound (md_network m) (md_inbound_name m) (md_kind m) (md_source m) (md_inbound m) (md_destination_ip m) (md_route_ip m) (md_destination_port m) (md_host m) dns_mode (md_sniff_host m) (md_process m) (md_process_path m) (md_package_names m) (md_uid m) (md_dscp m) (md_inbound_user m) (md_protocol m) (md_force_direct m) (md_force_direct_reason m) (md_is_inner m).
Definition with_sniff_host (m : InboundMetadata) (sniff_host : string) : InboundMetadata :=
  mkInbound (md_network m) (md_inbound_name m) (md_kind m) (md_source m) (md_inbound m) (md_destination_ip m) (md_route_ip m) (md_destination_port m) (md_host m) (md_dns_mode m) sniff_host (md_process m) (md_process_path m) (md_package_names m) (md_uid m) (md_dscp m) (md_inbound_user m) (md_protocol m) (md_force_direct m) (md_force_direct_reason m) (md_is_inner m).
Definition with_md_process (m : InboundMetadata) (process process_path : option string) : InboundMetadata :=
  mkInbound (md_network m) (md_inbound_name m) (md_kind m) (md_source m) (md_inbound m) (md_destination_ip m) (md_route_ip m) (md_destination_port m) (md_host m) (md_dns_mode m) (md_sniff_host m) process process_path (md_package_names m) (md_uid m) (md_dscp m) (md_inbound_user m) (md_protocol m) (md_force_direct m) (md_force_direct_reason m) (md_is_inner m).
Definition with_package_names (m : InboundMetadata) (names : list string) : InboundMetadata :=
  mkInbound (md_network m) (md_inbound_name m) (md_kind m) (md_source m) (md_inbound m) (md_destination_ip m) (md_route_ip m) (md_destination_port m) (md_host m) (md_dns_mode m) (md_sniff_host m) (md_process m) (md_process_path m) names (md_uid m) (md_dscp m) (md_inbound_user m) (md_protocol m) (md_force_direct m) (md_force_direct_reason m) (md_is_inner m).
Definition with_uid (m : InboundMetadata) (uid : option Z) : InboundMetadata :=
  mkInbound (md_network m) (md_inbound_name m) (md_kind m) (md_source m) (md_inbound m) (md_destination_ip m) (md_route_ip m) (md_destination_port m) (md_host m) (md_dns_mode m) (md_sniff_host m) (md_process m) (md_process_path m) (md_package_names m) uid (md_dscp m) (md_inbound_user m) (md_protocol m) (md_force_direct m) (md_force_direct_reason m) (md_is_inner m).
Definition with_dscp (m : InboundMetadata) (dscp : option Z) : InboundMetadata :=
  mkInbound (md_network m) (md_inbound_name m) (md_kind m) (md_source m) (md_inbound m) (md_destination_ip m) (md_route_ip m) (md_destination_port m) (md_host m) (md_dns_mode m) (md_sniff_host m) (md_process m) (md_process_path m) (md_package_names m) (md_uid m) dscp (md_inbound_user m) (md_protocol m) (md_force_direct m) (md_force_direct_reason m) (md_is_inner m).
Definition with_inbound_user (m : InboundMetadata) (user : string) : InboundMetadata :=
  mkInbound (md_network m) (md_inbound_name m) (md_kind m) (md_source m) (md_inbound m) (md_destination_ip m) (md_route_ip m) (md_destination_port m) (md_host m) (md_dns_mode m) (md_sniff_host m) (md_process m) (md_process_path m) (md_package_names m) (md_uid m) (md_dscp m) user (md_protocol m) (md_force_direct m) (md_force_direct_reason m) (md_is_inner m).
Definition with_md_protocol (m : InboundMetadata) (protocol : option L7Proto) : InboundMetadata :=
  mkInbound (md_network m) (md_inbound_name m) (md_kind m) (md_source m) (md_inbound m) (md_destination_ip m) (md_route_ip m) (md_destination_port m) (md_host m) (md_dns_mode m) (md_sniff_host m) (md_process m) (md_process_path m) (md_package_names m) (md_uid m) (md_dscp m) (md_inbound_user m) protocol (md_force_direct m) (md_force_direct_reason m) (md_is_inner m).
Definition with_force_direct (m : InboundMetadata) (reason : string) : InboundMetadata :=
  mkInbound (md_network m) (md_inbound_name m) (md_kind m) (md_source m) (md_inbound m) (md_destination_ip m) (md_route_ip m) (md_destination_port m) (md_host m) (md_dns_mode m) (md_sniff_host m) (md_process m) (md_process_path m) (md_package_names m) (md_uid m) (md_dscp m) (md_inbound_user m) (md_protocol m) true reason (md_is_inner m).
Definition with_inner (m : InboundMetadata)  : InboundMetadata :=
  mkInbound (md_network m) (md_inbound_name m) (md_kind m) (md_source m) (md_inbound m) (md_destination_ip m) (md_route_ip m) (md_destination_port m) (md_host m) (md_dns_mode m) (md_sniff_host m) (md_process m) (md_process_path m) (md_package_names m) (md_uid m) (md_dscp m) (md_inbound_user m) (md_protocol m) (md_force_direct m) (md_force_direct_reason m) true.
Definition with_inbound_addr (m : InboundMetadata) (inbound : option SocketAddr) : InboundMetadata :=
  mkInbound (md_network m) (md_inbound_name m) (md_kind m) (md_source m) inbound (md_destination_ip m) (md_route_ip m) (md_destination_port m) (md_host m) (md_dns_mode m) (md_sniff_host m) (md_process m) (md_process_path m) (md_package_names m) (md_uid m) (md_dscp m) (md_inbound_user m) (md_protocol m) (md_force_direct m) (md_force_direct_reason m) (md_is_inner m).
(** [metadata.host = host] *)
Definition with_host (m : InboundMetadata) (host : string) : InboundMetadata :=
  mkInbound (md_network m) (md_inbound_name m) (md_kind m) (md_source m) (md_inbound m) (md_destination_ip m) (md_route_ip m) (md_destination_port m) host (md_dns_mode m) (md_sniff_host m) (md_process m) (md_process_path m) (md_package_names m) (md_uid m) (md_dscp m) (md_inbound_user m) (md_protocol m) (md_force_direct m) (md_force_direct_reason m) (md_is_inner m).

Definition target_host (m : InboundMetadata) : string :=
  if negb (String.eqb (str_trim (md_host m)) "") then str_trim (md_host m)
  else if negb (String.eqb (str_trim (md_sniff_host m)) "") then str_trim (md_sniff_host m)
  else default "" (show_ip <$> md_destination_ip m).

Definition route_host (m : InboundMetadata) : string :=
  if negb (String.eqb (str_trim (md_sniff_host m)) "") then str_trim (md_sniff_host m) else target_host m.

(** [(!s.is_empty()).then(|| s.clone())] *)
Definition non_empty (s : string) : option string := if String.eqb s "" then None else Some s.

Definition flow_context (m : InboundMetadata) : FlowContext :=
  let host := route_host m in
  let ip := match md_route_ip m with Some ip => Some ip | None => parse_ip host end in
  mkFlow host ip (md_destination_port m) (md_network m) (md_process m)
    (mkFlowMeta (Some (sa_ip (md_source m))) (Some (sa_port (md_source m))) (sa_port <$> md_inbound m)
       (Some (md_kind m)) (non_empty (md_inbound_user m)) (non_empty (md_inbound_name m)) (md_uid m) (md_dscp m)
       [] [] [] None None [] None (md_process_path m) (md_package_names m) None None None None None [] [])
    (md_protocol m).

(** ** The handler *)

(** Which dialler the flow goes to: the direct one, with the rule it is recorded under, or the router *)
Inductive DialChoice : Type :=
| DialDirect (c : FlowContext) (reason : string)
| DialRouted (c : FlowContext).

Definition set_network (c : FlowContext) (n : NetworkKind) : FlowContext :=
  mkFlow (fc_host c) (fc_ip c) (fc_port c) n (fc_process c) (fc_ruleset c) (fc_protocol c).

Definition dial_tcp (m : InboundMetadata) : DialChoice :=
  if md_is_inner m then DialDirect (flow_context m) "inner-connection"
  else if md_force_direct m then DialDirect (flow_context m) (md_force_direct_reason m)
  else DialRouted (flow_context m).

Definition dial_udp (m : InboundMetadata) : DialChoice :=
  let ctx := set_network (flow_context m) NkUdp in
  if md_is_inner m then DialDirect ctx "inner-connection"
  else if md_force_direct m then DialDirect ctx (md_force_direct_reason m)
  else DialRouted ctx.

(** [reject_loopback_self_capture]: [true] is the [ConnectionRefused] error *)
Definition reject_loopback_self_capture (lb : LoopbackState) (m : InboundMetadata) : bool :=
  if md_is_inner m then false else
  match md_network m with
  | NkTcp => contains_tcp lb (md_source m)
  | NkUdp => contains_udp_source lb (md_source m)
  end.

Definition enrich_destination_host (pool : option FakeIpPool) (mapping : IpHostMapping) (m : InboundMetadata) (now now' : Z) : InboundMetadata * IpHostMapping :=
  if negb (String.eqb (str_trim (md_sniff_host m)) "") || negb (bool_decide (is_Some (parse_ip (str_trim (md_host m))))) then (m, mapping) else
  match (match md_destination_ip m with Some ip => Some ip | None => parse_ip (str_trim (md_host m)) end) with
  | None => (m, mapping)
  | Some ip =>
    let '(host, mapping) := find_host_by_ip pool mapping ip now now' in
    match host with
    | None => (m, mapping)
    | Some host =>
      let m := with_host m host in
      let is_fake_ip := match pool with Some p => fake_contains p ip | None => false end in
      let m := if is_fake_ip then with_route_ip m None else m in
      let m := if String.eqb (md_dns_mode m) "normal" then with_dns_mode m (if is_fake_ip then "fake-ip" else "redir-host") else m in
      (m, mapping)
    end
  end.

Inductive FindProcessMode : Type := FpOff | FpAlways | FpStrict.
Record ProcessInfo : Type := mkProcessInfo { pi_name : string; pi_path : string; pi_package_names : list string; pi_uid : Z }.

(** [find_with_dst] and [find] of the process finder, by whether there is a remote end *)
Definition ProcessFinder : Type := NetworkKind -> IpAddr -> Z -> option (IpAddr * Z) -> option ProcessInfo.

(** The remote end the platform is asked for *)
Definition process_dst (m : InboundMetadata) : option (IpAddr * Z) :=
  let dst := (fun ip => (ip, md_destination_port m)) <$> md_destination_ip m in
  if String.eqb (md_kind m) "Tun" || String.eqb (md_kind m) "TPROXY" || String.eqb (md_kind m) "Redirect" then dst
  else match md_inbound m with Some a => Some (sa_ip a, sa_port a) | None => dst end.
End Listener.

Section Handler.
Context `{IpNetLib, !RouteLib, !RulesetIndexApi, NetText, StrCase}.

(** What the handler reads of the runtime *)
Record Runtime : Type := mkRuntime {
  rt_loopback : LoopbackState; rt_pool : option FakeIpPool; rt_route : RouteEngine;
  rt_find_process_mode : FindProcessMode; rt_process_finder : option ProcessFinder; rt_windows : bool
}.

Definition enrich_with_process (rt : Runtime) (m : InboundMetadata) : InboundMetadata :=
  if bool_decide (is_Some (md_process m)) then m
  else if md_is_inner m then m
  else
    let should_lookup :=
      match rt_find_process_mode rt with
      | FpOff => false | FpAlways => true | FpStrict => needs_process (rt_route rt) (flow_context m)
      end in
    if negb should_lookup then m else
    match rt_process_finder rt with
    | None => m
    | Some finder =>
      match finder (md_network m) (sa_ip (md_source m)) (sa_port (md_source m)) (process_dst m) with
      | None => m
      | Some info =>
        let m := with_md_process m (Some (pi_name info)) (Some (pi_path info)) in
        let m := with_package_names m (pi_package_names info) in
        with_uid m (if rt_windows rt then None else Some (pi_uid info))
      end
    end.

(** [prepare_tcp] and [prepare_udp], up to the dialler that gets the flow: refused, or handed on *)
Definition prepare (dial : InboundMetadata -> DialChoice) (rt : Runtime) (mapping : IpHostMapping) (m : InboundMetadata) (now now' : Z) : option DialChoice * IpHostMapping :=
  if reject_loopback_self_capture (rt_loopback rt) m then (None, mapping) else
  let '(m, mapping) := enrich_destination_host (rt_pool rt) mapping m now now' in
  let m := enrich_with_process rt m in
  (Some (dial m), mapping).

Definition prepare_tcp : Runtime -> IpHostMapping -> InboundMetadata -> Z -> Z -> option DialChoice * IpHostMapping := prepare dial_tcp.
Definition prepare_udp : Runtime -> IpHostMapping -> InboundMetadata -> Z -> Z -> option DialChoice * IpHostMapping := prepare dial_udp.

(** ** What the handler keeps *)

(** Texts that are host names: not empty, not an address, and without surrounding white space *)
Definition domain_text (s : string) : Prop := s <> "" /\ str_trim s = s /\ parse_ip s = None.

Lemma str_nonempty s : s <> "" -> String.eqb s "" = false.
Proof. intros Hs. by destruct (String.eqb_spec s ""). Qed.

Lemma route_host_domain m : str_trim (md_sniff_host m) = "" -> domain_text (md_host m) -> route_host m = md_host m.
Proof. intros Hs (Hne & Htr & _). unfold route_host, target_host. by rewrite Hs, Htr, (str_nonempty _ Hne). Qed.

Lemma enrich_domain_unchanged pool mapping m now now' : domain_text (md_host m) -> enrich_destination_host pool mapping m now now' = (m, mapping).
Proof. intros (_ & Htr & Hp). unfold enrich_destination_host. rewrite Htr, Hp. by rewrite orb_true_r. Qed.

(** The process lookup changes nothing but the identity of the process. *)
Lemma enrich_with_process_keeps rt m :
  exists process path packages uid, enrich_with_process rt m = with_uid (with_package_names (with_md_process m process path) packages) uid.
Proof.
  assert (Hid : exists process path packages uid, m = with_uid (with_package_names (with_md_process m process path) packages) uid).
  { exists (md_process m), (md_process_path m), (md_package_names m), (md_uid m). by destruct m. }
  unfold enrich_with_process. repeat case_match; try exact Hid. all: by do 4 eexists.
Qed.

Definition with_identity (c : FlowContext) (process path : option string) (packages : list string) (id : option Z) : FlowContext :=
  let r := fc_ruleset c in
  mkFlow (fc_host c) (fc_ip c) (fc_port c) (fc_network c) process
    (mkFlowMeta (source_ip r) (source_port r) (inbound_port r) (inbound_type r) (inbound_user r) (inbound_name r) id (dscp r)
       (source_geoip r) (destination_geoip r) (destination_geosite r) (source_asn r) (destination_asn r) (rematch_names r) (query_type r)
       path packages (wifi_ssid r) (wifi_bssid r) (network_type r) (network_is_expensive r) (network_is_constrained r)
       (network_interface_addresses r) (default_interface_addresses r)) (fc_protocol c).

Lemma flow_context_identity m process path packages id :
  flow_context (with_uid (with_package_names (with_md_process m process path) packages) id) = with_identity (flow_context m) process path packages id.
Proof. reflexivity. Qed.

(** The destination address and the DNS mode of a flow to a domain are only reported: the dialler
    and its context do not depend on them, but for the remote end given to the process finder. *)
Lemma dial_same_flow dial rt m ip dns :
  (dial = dial_tcp \/ dial = dial_udp) -> domain_text (md_host m) ->
  let m' := with_dns_mode (with_destination_ip m ip) dns in
  process_dst m' = process_dst m -> dial (enrich_with_process rt m') = dial (enrich_with_process rt m).
Proof.
  intros Hdial (Hne & Htr & _) m' Hdst.
  assert (Hflow : flow_context m' = flow_context m).
  { assert (Hh : route_host m' = route_host m) by (unfold route_host, target_host; cbn; by rewrite Htr, (str_nonempty _ Hne)). unfold flow_context. by rewrite Hh. }
  assert (Hd : dial m' = dial m) by (destruct Hdial as [-> | ->]; unfold dial_tcp, dial_udp; cbn -[flow_context]; by rewrite Hflow).
  unfold enrich_with_process. rewrite Hdst, Hflow. cbn [m' with_dns_mode with_destination_ip md_process md_is_inner md_network md_source].
  destruct (bool_decide _); [done|]. destruct (md_is_inner m); [done|]. destruct (negb _); [done|]. destruct (rt_process_finder rt) as [f|]; [|done].
  destruct (f _ _ _ _) as [info|]; [|done]. destruct Hdial as [-> | ->]; unfold dial_tcp, dial_udp; rewrite !flow_context_identity; fold m'; by rewrite Hflow.
Qed.
End Handler.

(** ** Claims *)
Section Claims.
Context `{IpNetLib, !RouteLib, !RulesetIndexApi, NetText, StrCase}.

(** A client of a SOCKS or HTTP listener that connects to a fake address, within the life of its
    binding, is treated as if it had connected to the domain: it is refused in the same cases and
    otherwise given to the same dialler with the same routing context, the rules being applied to
    the domain and never to the fake address.  A client that connects to an address the reverse
    mapping knows is routed by the domain too, with the real address kept for the address rules. *)
Theorem recovered_host_routes_as_domain dial rt mapping pool name kind source inbound ip host port now now' :
  (dial = dial_tcp \/ dial = dial_udp) -> rt_pool rt = Some pool -> ip_ok ip -> str_trim (show_ip ip) = show_ip ip -> domain_text host -> str_trim "" = "" ->
  kind <> "Tun" -> kind <> "TPROXY" -> kind <> "Redirect" ->
  (find_host_by_ip (rt_pool rt) mapping ip now now').1 = Some host ->
  let by_address := InboundMetadata_tcp name kind source inbound (show_ip ip) port in
  let by_domain := InboundMetadata_tcp name kind source inbound host port in
  (prepare dial rt mapping by_address now now').1
    = (prepare dial rt mapping (if fake_contains pool ip then by_domain else with_route_ip by_domain (Some ip)) now now').1.
Proof.
  intros Hdial Hpool Hok Htrim Hdom Hemp Hk1 Hk2 Hk3 Hfind by_address by_domain. unfold prepare.
  assert (Hrej : forall i, reject_loopback_self_capture (rt_loopback rt) (if fake_contains pool ip then by_domain else with_route_ip by_domain i) = reject_loopback_self_capture (rt_loopback rt) by_address)
    by (intros i; by destruct (fake_contains pool ip)).
  rewrite Hrej. destruct (reject_loopback_self_capture _ by_address); [done|].
  rewrite (enrich_domain_unchanged _ _ (if fake_contains pool ip then _ else _)) by (destruct (fake_contains pool ip); exact Hdom).
  assert (E : exists dns mapping', enrich_destination_host (rt_pool rt) mapping by_address now now'
              = (with_dns_mode (with_destination_ip (if fake_contains pool ip then by_domain else with_route_ip by_domain (Some ip)) (Some ip)) dns, mapping')).
  { unfold enrich_destination_host. cbn [by_address InboundMetadata_tcp InboundMetadata_new md_sniff_host md_host md_destination_ip]. rewrite Hemp, Htrim, parse_show_ip by done.
    cbn [negb orb String.eqb bool_decide]. destruct (find_host_by_ip _ _ _ _ _) as [[h|] mapping'] eqn:Ef; [|done]. cbn in Hfind. injection Hfind as ->. rewrite Hpool.
    unfold by_address, by_domain, InboundMetadata_tcp, InboundMetadata_new. rewrite parse_show_ip by done. rewrite (proj2 (proj2 Hdom)). destruct (fake_contains pool ip); by do 2 eexists. }
  destruct E as (dns & mapping' & ->). cbn [fst]. f_equal. set (m := if fake_contains pool ip then _ else _).
  assert (Hdst : process_dst (with_dns_mode (with_destination_ip m (Some ip)) dns) = process_dst m).
  { unfold process_dst, m. destruct (String.eqb_spec kind "Tun"), (String.eqb_spec kind "TPROXY"), (String.eqb_spec kind "Redirect"); try done.
    destruct (fake_contains pool ip); cbn; rewrite !(proj2 (String.eqb_neq _ _)) by done; done. }
  apply dial_same_flow; [done| |done]. unfold m. destruct (fake_contains pool ip); exact Hdom.
Qed.
End Claims.

Module ListenerWitness.
Import Concrete RouteConcrete.

Definition pool : FakeIpPool := (alloc (FakeIpPool_new FakeIpWitness.cfg) "www.example.com" FamV4 0 0).2.
Definition client : SocketAddr := mkSocketAddr (V4 2130706433) 40000.
Definition listener : SocketAddr := mkSocketAddr (V4 2130706433) 7890.

Lemma domain_is_text : domain_text "www.example.com".
Proof. split; [discriminate|]. split; vm_compute; reflexivity. Qed.

Lemma recovered_host_routes_as_domain_witness :
  exists rt : Runtime, rt_pool rt = Some pool /\
  (prepare dial_tcp rt (IpHostMapping_new 4096) (InboundMetadata_tcp "socks" "Socks5" client listener (show_ip FakeIpWitness.ip_a) 443) 1 1).1
  = (prepare dial_tcp rt (IpHostMapping_new 4096) (InboundMetadata_tcp "socks" "Socks5" client listener "www.example.com" 443) 1 1).1.
Proof.
  destruct RouteEngineWitness.branching_compiles as (e & _). exists (mkRuntime LoopbackState_default (Some pool) e FpStrict None false). split; [reflexivity|].
  refine (recovered_host_routes_as_domain dial_tcp (mkRuntime LoopbackState_default (Some pool) e FpStrict None false) (IpHostMapping_new 4096) pool "socks" "Socks5" client listener FakeIpWitness.ip_a "www.example.com" 443 1 1
    _ eq_refl _ _ domain_is_text _ _ _ _ _).
  - by left.
  - vm_compute. split; [discriminate|reflexivity].
  - vm_compute. reflexivity.
  - vm_compute. reflexivity.
  - discriminate.
  - discriminate.
  - discriminate.
  - vm_compute. reflexivity.
Defined.

End ListenerWitness.
