(* ===== verification/TunInbound.v ===== *)
(** * TUN sessions: from a captured packet to a routed flow

    Models [core-capture/src/dial_meta.rs] and [core-capture/src/tun_inbound.rs]: which packets
    are kept, dropped or sent directly, the domain behind a fake or mapped address, and the
    metadata the listener gets.  Parsed packets are data (the header parser is crate
    [smoltcp]); the address sets and the per-application filter are functions.  The last part
    composes the DNS service, the pool, the session and the listener. *)

From stdpp Require Import base list gmap strings numbers option.
From S2P Require Import Prelude Net Instances Text FakeIp Loopback DnsPacket DnsService RouteModel RouteMatch RouteEngine RouteInstances Listener.

Inductive DnsMode : Type := DmNormal | DmFakeIp | DmDnsMapping.
Definition dns_mode_str (m : DnsMode) : string := match m with DmNormal => "normal" | DmFakeIp => "fake-ip" | DmDnsMapping => "redir-host" end.

Record DialTarget : Type := mkDialTarget {
  dt_host : string; dt_original_dst_ip : IpAddr; dt_original_dst_port : Z; dt_dns_mode : DnsMode; dt_fake_ip_missing : bool
}.

Inductive TunDropReason : Type :=
| DropLoopback | DropRouteExcluded | DropRouteNotAllowed | DropMissingEndpoint | DropFakeDnsMissing | DropIpv6Disabled | DropNotGlobalUnicast.

Inductive TunBypassReason : Type :=
| ByRouteExcluded | ByRouteNotAllowed | ByUidExcluded | ByUidNotIncluded | ByGidExcluded | ByGidNotIncluded | ByPackageExcluded | ByPackageNotIncluded.

Definition as_rule_payload (r : TunBypassReason) : string :=
  match r with
  | ByRouteExcluded => "route-exclude-address" | ByRouteNotAllowed => "route-address-not-allowed"
  | ByUidExcluded => "exclude-uid" | ByUidNotIncluded => "include-uid-miss"
  | ByGidExcluded => "exclude-gid" | ByGidNotIncluded => "include-gid-miss"
  | ByPackageExcluded => "exclude-package" | ByPackageNotIncluded => "include-package-miss"
  end.

(** [Result<_, TunDropReason>] *)
Inductive tun_result (A : Type) : Type := Keep (a : A) | DropPacket (r : TunDropReason).
Arguments Keep {A} a.
Arguments DropPacket {A} r.

Definition tun_bind {A B} (f : A -> tun_result B) (m : tun_result A) : tun_result B := match m with Keep a => f a | DropPacket r => DropPacket r end.
Notation "x <-- m ; k" := (tun_bind (fun x => k) m) (at level 100, m at next level, right associativity).

(** Parsed packets: [ParsedPacket] of [packet.rs] *)
Inductive L4 : Type :=
| L4Tcp (src_port dst_port : Z)
| L4Udp (src_port dst_port payload_offset payload_len : Z)
| L4Other (protocol : Z).
Inductive IpVersion : Type := Ipv4 | Ipv6.
Record ParsedPacket : Type := mkParsed { pp_version : IpVersion; pp_src : IpAddr; pp_dst : IpAddr; pp_l4 : L4 }.

Definition src_socket (p : ParsedPacket) : option SocketAddr :=
  match pp_l4 p with L4Tcp s _ | L4Udp s _ _ _ => Some (mkSocketAddr (pp_src p) s) | L4Other _ => None end.
Definition dst_socket (p : ParsedPacket) : option SocketAddr :=
  match pp_l4 p with L4Tcp _ d | L4Udp _ d _ _ => Some (mkSocketAddr (pp_dst p) d) | L4Other _ => None end.

Inductive TunPacket : Type :=
| TpTcp (source destination : SocketAddr) (dst_port : Z) (bypass : option TunBypassReason)
| TpUdp (source destination : SocketAddr) (payload_offset payload_len : Z) (bypass : option TunBypassReason)
| TpOther.

Definition tun_is_global_unicast (ip : IpAddr) : bool :=
  match ip with
  | V4 a => negb (ip_is_loopback ip) && negb (ip_is_multicast ip) && negb (v4_is_broadcast a) && negb (v4_is_link_local a)
            && negb (v4_octet a 0 =? 0) && (v4_octet a 0 <? 240)
  | V6 a => negb (ip_is_unspecified ip) && negb (ip_is_loopback ip) && negb (ip_is_multicast ip) && negb (Z.land (v6_segment a 0) 65472 =? 65152)
  end.

Section Tun.
Context `{IpNetLib} `{NetText} `{StrCase}.

(** The fields of [CapturePlan] the session layer reads *)
Record CapturePlan : Type := mkCapturePlan {
  cp_tag : string; cp_hijack_dns : bool; cp_tun_v4_cidr : Ipv4Net;
  cp_route_addresses : list IpNet; cp_route_exclude_addresses : list IpNet;
  cp_route_address_set : list string; cp_route_exclude_address_set : list string;
  cp_loopback_addresses : list IpAddr; cp_allow_loopback_destination : bool; cp_ipv6_enabled : bool
}.

Definition is_loopback_ip (plan : CapturePlan) (ip : IpAddr) : bool := ip_is_loopback ip || bool_decide (ip ∈ cp_loopback_addresses plan).
Definition is_tun_subnet_broadcast (plan : CapturePlan) (ip : IpAddr) : bool := match ip with V4 a => net4_broadcast (cp_tun_v4_cidr plan) =? a | V6 _ => false end.

(** [TunInbound]: [ti_ipset] is the provider of dynamic sets, [ti_uid_filter] the decision of the
    per-application filter (a bypass, or proxied) when there is one *)
Record TunInbound : Type := mkTunInbound {
  ti_plan : CapturePlan; ti_pool : FakeIpPool; ti_ipset : string -> IpAddr -> bool;
  ti_uid_filter : option (SocketAddr -> bool -> option TunBypassReason)
}.

Definition build_dial_target (pool : FakeIpPool) (original_dst : SocketAddr) (fake_host : option string) (now : Z) : DialTarget :=
  let ip := sa_ip original_dst in
  let port := sa_port original_dst in
  match fake_host ≫= non_empty with
  | Some h => mkDialTarget h ip port DmDnsMapping false
  | None =>
    match fake_lookup pool ip now with
    | Some domain => mkDialTarget domain ip port (if fake_contains pool ip then DmFakeIp else DmDnsMapping) false
    | None => if fake_contains pool ip then mkDialTarget (show_ip ip) ip port DmFakeIp true else mkDialTarget (show_ip ip) ip port DmNormal false
    end
  end.

Definition route_policy (ti : TunInbound) (ip : IpAddr) : tun_result (option TunBypassReason) :=
  let plan := ti_plan ti in
  if is_loopback_ip plan ip then (if cp_allow_loopback_destination plan then Keep None else DropPacket DropLoopback)
  else if negb (tun_is_global_unicast ip) || is_tun_subnet_broadcast plan ip then DropPacket DropNotGlobalUnicast
  else if existsb (fun n => net_contains n ip) (cp_route_exclude_addresses plan) then Keep (Some ByRouteExcluded)
  else if existsb (fun set => ti_ipset ti set ip) (cp_route_exclude_address_set plan) then Keep (Some ByRouteExcluded)
  else if fake_contains (ti_pool ti) ip then Keep None
  else if (len (cp_route_addresses plan) =? 0) && (len (cp_route_address_set plan) =? 0) then Keep None
  else if existsb (fun n => net_contains n ip) (cp_route_addresses plan) then Keep None
  else if existsb (fun set => ti_ipset ti set ip) (cp_route_address_set plan) then Keep None
  else Keep (Some ByRouteNotAllowed).

Definition allow_ip (ti : TunInbound) (ip : IpAddr) : tun_result unit :=
  r <-- route_policy ti ip;
  match r with
  | Some ByRouteExcluded => DropPacket DropRouteExcluded
  | Some ByRouteNotAllowed => DropPacket DropRouteNotAllowed
  | _ => Keep tt
  end.

Definition check_uid_bypass (ti : TunInbound) (source : SocketAddr) (is_tcp : bool) : option TunBypassReason :=
  match ti_uid_filter ti with Some f => f source is_tcp | None => None end.

Definition should_hijack_dns (ti : TunInbound) (destination : SocketAddr) : bool := cp_hijack_dns (ti_plan ti) && (sa_port destination =? 53).

Definition reject_loopback_endpoints (ti : TunInbound) (source destination : SocketAddr) : tun_result unit :=
  if is_loopback_ip (ti_plan ti) (sa_ip source)
     || (negb (cp_allow_loopback_destination (ti_plan ti)) && is_loopback_ip (ti_plan ti) (sa_ip destination))
  then DropPacket DropLoopback else Keep tt.

Definition ok_or_drop {A} (o : option A) (r : TunDropReason) : tun_result A := match o with Some a => Keep a | None => DropPacket r end.

Definition classify_packet (ti : TunInbound) (p : ParsedPacket) : tun_result TunPacket :=
  if negb (cp_ipv6_enabled (ti_plan ti)) && match pp_version p with Ipv6 => true | Ipv4 => false end then DropPacket DropIpv6Disabled else
  match pp_l4 p with
  | L4Tcp _ dst_port =>
    source <-- ok_or_drop (src_socket p) DropMissingEndpoint;
    destination <-- ok_or_drop (dst_socket p) DropMissingEndpoint;
    _ <-- reject_loopback_endpoints ti source destination;
    let uid_bypass := check_uid_bypass ti source true in
    policy <-- route_policy ti (sa_ip destination);
    Keep (TpTcp source destination dst_port (match uid_bypass with Some r => Some r | None => policy end))
  | L4Udp _ _ payload_offset payload_len =>
    source <-- ok_or_drop (src_socket p) DropMissingEndpoint;
    destination <-- ok_or_drop (dst_socket p) DropMissingEndpoint;
    _ <-- reject_loopback_endpoints ti source destination;
    let uid_bypass := check_uid_bypass ti source false in
    bypass <-- (match uid_bypass with
                | Some r => Keep (Some r)
                | None => if should_hijack_dns ti destination then Keep None else route_policy ti (sa_ip destination)
                end);
    Keep (TpUdp source destination payload_offset payload_len bypass)
  | L4Other _ => Keep TpOther
  end.

(** The source keeps the network as ["tcp"] or ["udp"]. *)
Record TunSession : Type := mkTunSession {
  ts_inbound_tag : string; ts_network : NetworkKind; ts_source : SocketAddr; ts_original_dst : SocketAddr;
  ts_target : DialTarget; ts_sniff_host : option string; ts_bypass : option TunBypassReason
}.

Definition resolve_session (ti : TunInbound) (network : NetworkKind) (source original_dst : SocketAddr) (fake_host : option string) (now : Z) : tun_result TunSession :=
  _ <-- reject_loopback_endpoints ti source original_dst;
  let target := build_dial_target (ti_pool ti) original_dst fake_host now in
  if dt_fake_ip_missing target then DropPacket DropFakeDnsMissing else
  bypass <-- route_policy ti (sa_ip original_dst);
  Keep (mkTunSession (cp_tag (ti_plan ti)) network source original_dst target fake_host bypass).

Definition build_inbound_metadata (s : TunSession) : InboundMetadata :=
  let route_ip := parse_ip (dt_host (ts_target s)) in
  let m := InboundMetadata_new (ts_network s) (ts_inbound_tag s) "Tun" (ts_source s) None (dt_host (ts_target s)) (dt_original_dst_port (ts_target s)) in
  let m := with_destination_ip m (Some (dt_original_dst_ip (ts_target s))) in
  let m := with_route_ip m route_ip in
  let m := with_dns_mode m (dns_mode_str (dt_dns_mode (ts_target s))) in
  let m := with_sniff_host m (default "" (ts_sniff_host s)) in
  match ts_bypass s with Some reason => with_force_direct m (as_rule_payload reason) | None => m end.
End Tun.

(** ** Sessions *)
Section Sessions.
Context `{IpNetLib, !RouteLib, !RulesetIndexApi, NetText, StrCase}.

(** The routing context of a TUN flow to a domain: no address, no listener *)
Definition domain_flow (tag : string) (n : NetworkKind) (source : SocketAddr) (name : string) (port : Z) : FlowContext :=
  mkFlow name None port n None
    (mkFlowMeta (Some (sa_ip source)) (Some (sa_port source)) None (Some "Tun") None (non_empty tag) None None
       [] [] [] None None [] None None [] None None None None None [] []) None.

Definition dial_for (n : NetworkKind) : InboundMetadata -> DialChoice := match n with NkTcp => dial_tcp | NkUdp => dial_udp end.

Definition choice_for (bypass : option TunBypassReason) (c : FlowContext) : DialChoice :=
  match bypass with Some r => DialDirect c (as_rule_payload r) | None => DialRouted c end.

(** The host a session gives to the rules is the name it carries, whether the pool or the sniffed
    first bytes gave it. *)
Definition session_named (s : TunSession) (name : string) : Prop :=
  dt_host (ts_target s) = name /\ (ts_sniff_host s = None \/ ts_sniff_host s = Some name).

Lemma session_flow s name port :
  session_named s name -> dt_original_dst_port (ts_target s) = port -> domain_text name -> str_trim "" = "" ->
  flow_context (build_inbound_metadata s) = domain_flow (ts_inbound_tag s) (ts_network s) (ts_source s) name port.
Proof.
  intros (Hh & Hs) Hp (Hne & Htr & Hip) Hemp. assert (Hr : route_host (build_inbound_metadata s) = name).
  { unfold build_inbound_metadata, route_host, target_host. destruct Hs as [-> | ->], (ts_bypass s); cbn; by rewrite ?Hh, ?Hemp, ?Htr, ?(str_nonempty _ Hne). }
  unfold flow_context. rewrite Hr. unfold build_inbound_metadata, domain_flow. rewrite Hh, Hp, Hip. by destruct (ts_bypass s).
Qed.

Lemma set_network_same c n : fc_network c = n -> set_network c n = c.
Proof. intros <-. by destruct c. Qed.

Lemma dial_for_identity m process path packages id :
  md_is_inner m = false ->
  dial_for (md_network m) (with_uid (with_package_names (with_md_process m process path) packages) id)
    = if md_force_direct m then DialDirect (with_identity (flow_context m) process path packages id) (md_force_direct_reason m)
      else DialRouted (with_identity (flow_context m) process path packages id).
Proof.
  intros Hin. unfold dial_for. destruct (md_network m) eqn:En; unfold dial_tcp, dial_udp; rewrite flow_context_identity.
  - cbn [with_uid with_package_names with_md_process md_is_inner md_force_direct md_force_direct_reason]. by rewrite Hin.
  - rewrite set_network_same by exact En. cbn [with_uid with_package_names with_md_process md_is_inner md_force_direct md_force_direct_reason]. by rewrite Hin.
Qed.

(** What the listener does with a flow whose host is a domain: it refuses WutherCore's own
    traffic, and otherwise gives it, with the identity of its process, to the router or to the
    direct dialler. *)
Lemma domain_prepared rt mapping m now now' :
  domain_text (md_host m) -> md_is_inner m = false ->
  if reject_loopback_self_capture (rt_loopback rt) m
  then (prepare (dial_for (md_network m)) rt mapping m now now').1 = None
  else exists process path packages id,
    (prepare (dial_for (md_network m)) rt mapping m now now').1
      = Some (let c := with_identity (flow_context m) process path packages id in if md_force_direct m then DialDirect c (md_force_direct_reason m) else DialRouted c).
Proof.
  intros Hd Hin. unfold prepare. destruct (reject_loopback_self_capture _ _); [done|]. rewrite enrich_domain_unchanged by done.
  destruct (enrich_with_process_keeps rt m) as (pr & pa & pk & id & ->). exists pr, pa, pk, id. cbn [fst]. f_equal. by rewrite dial_for_identity.
Qed.

(** The metadata of a session after its first bytes were looked at: [with_protocol], or nothing *)
Definition set_protocol (c : FlowContext) (p : option L7Proto) : FlowContext :=
  mkFlow (fc_host c) (fc_ip c) (fc_port c) (fc_network c) (fc_process c) (fc_ruleset c) p.

Lemma session_metadata s :
  with_md_protocol (build_inbound_metadata s) None = build_inbound_metadata s /\ md_network (build_inbound_metadata s) = ts_network s
  /\ md_host (build_inbound_metadata s) = dt_host (ts_target s) /\ md_is_inner (build_inbound_metadata s) = false
  /\ forall c, (if md_force_direct (build_inbound_metadata s) then DialDirect c (md_force_direct_reason (build_inbound_metadata s)) else DialRouted c) = choice_for (ts_bypass s) c.
Proof. unfold build_inbound_metadata. by destruct (ts_bypass s). Qed.

Lemma session_prepared s name port rt mapping now now' protocol :
  session_named s name -> dt_original_dst_port (ts_target s) = port -> domain_text name -> str_trim "" = "" ->
  let flow := domain_flow (ts_inbound_tag s) (ts_network s) (ts_source s) name port in
  let m := with_md_protocol (build_inbound_metadata s) protocol in
  if reject_loopback_self_capture (rt_loopback rt) m then (prepare (dial_for (ts_network s)) rt mapping m now now').1 = None
  else exists process path packages id,
    (prepare (dial_for (ts_network s)) rt mapping m now now').1 = Some (choice_for (ts_bypass s) (with_identity (set_protocol flow protocol) process path packages id)).
Proof.
  intros Hs Hp Hd Hemp flow m. destruct (session_metadata s) as (_ & Hn & Hh & Hin & Hc).
  assert (Hf : flow_context m = set_protocol flow protocol) by (unfold flow; rewrite <- (session_flow s name port Hs Hp Hd Hemp); reflexivity).
  pose proof (domain_prepared rt mapping m now now' (eq_ind_r domain_text Hd (eq_trans Hh (proj1 Hs))) Hin) as H5. change (md_network m) with (md_network (build_inbound_metadata s)) in H5. rewrite Hn, Hf in H5.
  destruct (reject_loopback_self_capture _ m); [done|]. destruct H5 as (pr & pa & pk & id & ->). exists pr, pa, pk, id. cbn zeta. f_equal. apply Hc.
Qed.

(** A fake address never reaches the router: a session to an address of the fake network is
    either dropped or carries the name the pool has for it at that moment. *)
Lemma session_of_fake ti n source ip port now s :
  fake_contains (ti_pool ti) ip = true -> resolve_session ti n source (mkSocketAddr ip port) None now = Keep s ->
  fake_lookup (ti_pool ti) ip now = Some (dt_host (ts_target s)) /\ ts_sniff_host s = None /\ dt_original_dst_port (ts_target s) = port /\ dt_original_dst_ip (ts_target s) = ip
  /\ ts_network s = n /\ ts_source s = source /\ ts_inbound_tag s = cp_tag (ti_plan ti) /\ route_policy ti ip = Keep (ts_bypass s).
Proof.
  intros Hc Hs. unfold resolve_session, build_dial_target in Hs. cbn in Hs. destruct (reject_loopback_endpoints _ _ _); [|done]. cbn in Hs.
  destruct (fake_lookup (ti_pool ti) ip now) as [name|]; rewrite ?Hc in Hs; cbn in Hs; [|done]. destruct (route_policy ti ip) as [b|]; [|done]. cbn in Hs. by injection Hs as <-.
Qed.
End Sessions.

(** ** Claims *)
Section Claims.
Context `{IpNetLib, !RouteLib, !RulesetIndexApi, NetText, StrCase}.

(** A packet is lost only for what it is, never for where the user does not want it proxied: the
    classifier drops for disabled IPv6, a loopback endpoint or a destination that is no global
    unicast address; an excluded or not listed destination is kept and sent directly.  A TCP
    packet kept for the router is to an address outside every exclusion that is fake or within the
    allow lists, and a DNS query to be hijacked is kept whatever the lists say. *)
Theorem tun_classify_sound ti p :
  match classify_packet ti p with
  | DropPacket r => r = DropIpv6Disabled \/ r = DropLoopback \/ r = DropNotGlobalUnicast
  | Keep (TpTcp source destination _ None) =>
    is_loopback_ip (ti_plan ti) (sa_ip source) = false
    /\ (is_loopback_ip (ti_plan ti) (sa_ip destination) = true /\ cp_allow_loopback_destination (ti_plan ti) = true
        \/ (forall n, n ∈ cp_route_exclude_addresses (ti_plan ti) -> net_contains n (sa_ip destination) = false)
           /\ (forall n, n ∈ cp_route_exclude_address_set (ti_plan ti) -> ti_ipset ti n (sa_ip destination) = false)
           /\ (fake_contains (ti_pool ti) (sa_ip destination) = true
               \/ (cp_route_addresses (ti_plan ti) = [] /\ cp_route_address_set (ti_plan ti) = [])
               \/ (exists n, n ∈ cp_route_addresses (ti_plan ti) /\ net_contains n (sa_ip destination) = true)
               \/ (exists n, n ∈ cp_route_address_set (ti_plan ti) /\ ti_ipset ti n (sa_ip destination) = true)))
  | Keep (TpUdp source destination _ _ bypass) =>
    is_loopback_ip (ti_plan ti) (sa_ip source) = false
    /\ (should_hijack_dns ti destination = true -> bypass = check_uid_bypass ti source false)
  | Keep _ => True
  end.
Proof.
  assert (Hpol : forall ip, match route_policy ti ip with DropPacket r => r = DropLoopback \/ r = DropNotGlobalUnicast | Keep _ => True end) by (intros ip; unfold route_policy; repeat match goal with |- context [if ?b then _ else _] => destruct b end; auto).
  assert (Hnot : forall {A} (f : A -> bool) l, existsb f l = false -> forall x, x ∈ l -> f x = false).
  { intros A f l Hf x Hx. apply not_true_iff_false. intros Ht. apply not_true_iff_false in Hf. apply Hf, existsb_exists. exists x. split; [by apply list_elem_of_In|done]. }
  assert (Hyes : forall {A} (f : A -> bool) l, existsb f l = true -> exists x, x ∈ l /\ f x = true).
  { intros A f l Hf. apply existsb_exists in Hf as (x & Hx & Hf). exists x. by rewrite list_elem_of_In. }
  assert (Hends : forall a b, match reject_loopback_endpoints ti a b with DropPacket r => r = DropLoopback | Keep _ => is_loopback_ip (ti_plan ti) (sa_ip a) = false end).
  { intros a b. unfold reject_loopback_endpoints. by destruct (is_loopback_ip _ (sa_ip a)); [|destruct (_ && _)]. }
  unfold classify_packet. destruct (_ && _); [by left|]. destruct (pp_l4 p) as [sp dp|sp dp off n|] eqn:El; [| |done]; unfold src_socket, dst_socket; rewrite El; cbn [ok_or_drop tun_bind];
    set (a := mkSocketAddr (pp_src p) sp); set (b := mkSocketAddr (pp_dst p) dp); specialize (Hends a b); destruct (reject_loopback_endpoints ti a b); [|by right; left| |by right; left]; cbn [tun_bind].
  - specialize (Hpol (sa_ip b)). destruct (route_policy ti (sa_ip b)) as [o|r] eqn:Ep; [|cbn [tun_bind]; tauto]. cbn [tun_bind].
    destruct (check_uid_bypass ti a true); [done|]. destruct o as [|]; [done|]. split; [done|]. unfold route_policy in Ep.
    destruct (is_loopback_ip _ (sa_ip b)); [destruct (cp_allow_loopback_destination _); [by left|done]|]. right. repeat (case_match; try done); (split; [by apply Hnot|split; [by apply Hnot|]]); auto.
    right. left. rewrite andb_true_iff, !Z.eqb_eq in *. split; apply len_zero_nil; tauto.
  - specialize (Hpol (sa_ip b)). destruct (check_uid_bypass ti a false) eqn:Eu; cbn [tun_bind]; [by rewrite Eu|]. destruct (should_hijack_dns ti b) eqn:Eh; cbn [tun_bind]; [by rewrite Eu|]. destruct (route_policy ti (sa_ip b)); cbn [tun_bind]; [by rewrite Eh|tauto].
Qed.

End Claims.

Module TunInboundWitness.
Import Concrete RouteConcrete.

(** 198.18.0.0/30, a binding lives ten minutes. *)
Definition cfg : FakeIpConfig := mkFakeIpConfig FakeIpWitness.v4_net FakeIpWitness.v6_net 600000 true true [].
Definition pool : FakeIpPool := FakeIpPool_new cfg.
Definition served : FakeIpPool := pool_run (alloc pool "www.example.com" FamV4 0 0).2 [OpAlloc "b.example" FamV4 5 5; OpPurge 500].
Definition ip_a : IpAddr := FakeIpWitness.ip_a.
Definition plan : CapturePlan := mkCapturePlan "tun-in" true FakeIpWitness.v4_net [Net4 (@mkCidr 32 10 24 eq_refl : Ipv4Net)] [] [] [] [] false true.
Definition tun : TunInbound := mkTunInbound plan served (fun _ _ => false) None.
Definition app : SocketAddr := mkSocketAddr (V4 167772162) 50000.

Lemma tun_cfg_ok : cfg_ok cfg.
Proof. unfold cfg_ok. vm_compute. by repeat split. Qed.


End TunInboundWitness.
