(* ===== verification/TunFrame.v ===== *)
(** * Outer frames of packet devices ([core-capture/src/packet.rs])

    Where the IP packet of a frame starts, by the prefixes different platforms put before it, and
    the inverse for packets written back.  The parser of the IP packet itself is crate
    [smoltcp] and is not modelled. *)

From stdpp Require Import base list gmap strings numbers option.
From S2P Require Import Prelude TunInbound.

Inductive FrameFormat : Type :=
| RawIp | LinuxTunPi | Utun | Ethernet | EthernetVlan | LinuxCooked | VirtioNetHeader | VirtioNetHeaderMrgRxbuf.

Inductive ParseError : Type :=
| PeTruncated (actual needed : Z)
| PeUnsupportedVersion (v : Z).

(** [Result<_, ParseError>] of code that could also panic *)
Definition parse_result (A : Type) : Type := outcome (A + ParseError).

Definition is_ip_version_byte (b : Z) : bool := (Z.shiftr b 4 =? 4) || (Z.shiftr b 4 =? 6).

Definition ip_packet_version (buf : list Z) : parse_result IpVersion :=
  if len buf =? 0 then Ok (inr (PeTruncated 0 1)) else
  b ← index buf 0;
  Ok (if Z.shiftr b 4 =? 4 then inl Ipv4 else if Z.shiftr b 4 =? 6 then inl Ipv6 else inr (PeUnsupportedVersion (Z.shiftr b 4))).

Definition ip_ethertype (v : IpVersion) : Z := match v with Ipv4 => 2048 | Ipv6 => 34525 end.

Definition encode_tun_ip_frame (format : FrameFormat) (ip_packet : list Z) : parse_result (list Z) :=
  version ← ip_packet_version ip_packet;
  match version with
  | inr e => Ok (inr e)
  | inl version =>
    Ok (inl match format with
            | RawIp | Ethernet | EthernetVlan | LinuxCooked => ip_packet
            | LinuxTunPi => let proto := ip_ethertype version in [0; 0; Z.shiftr proto 8; Z.land proto 255] ++ ip_packet
            | Utun => be_bytes 4 (match version with Ipv4 => 2 | Ipv6 => 30 end) ++ ip_packet
            | VirtioNetHeader => replicate 10 0 ++ ip_packet
            | VirtioNetHeaderMrgRxbuf => replicate 12 0 ++ ip_packet
            end)
  end.

Definition looks_like_virtio_net_header (buf : list Z) (header_len : Z) : outcome bool :=
  if len buf <=? header_len then Ok false else
  b ← index buf header_len;
  if negb (is_ip_version_byte b) then Ok false else
  flags ← index buf 0;
  if negb (Z.land flags 252 =? 0) then Ok false else
  g ← index buf 1;
  let gso_type := Z.land g 127 in
  Ok ((gso_type =? 0) || (gso_type =? 1) || (gso_type =? 3) || (gso_type =? 4) || (gso_type =? 5)).

Definition is_ethertype (v : Z) : bool := (v =? 2048) || (v =? 34525).

Definition be16 (buf : list Z) (i : Z) : outcome Z := a ← index buf i; b ← index buf (i + 1); Ok (be_val [a; b]).

(** The prefix of four bytes: Linux packet information, or the address family of utun *)
Definition locate_prefix4 (buf : list Z) : outcome (option FrameFormat) :=
  if len buf <? 5 then Ok None else
  b4 ← index buf 4;
  if negb (is_ip_version_byte b4) then Ok None else
  proto ← be16 buf 2;
  family ← (x ← be16 buf 0; Ok (x * 65536 + proto));
  Ok (if is_ethertype proto then Some LinuxTunPi
      else if (family =? 2) || (family =? 10) || (family =? 23) || (family =? 24) || (family =? 30) then Some Utun else None).

Definition locate_ethernet (buf : list Z) : outcome (option (Z * FrameFormat)) :=
  if len buf <? 15 then Ok None else
  ethertype ← be16 buf 12;
  b14 ← index buf 14;
  if is_ethertype ethertype && is_ip_version_byte b14 then Ok (Some (14, Ethernet)) else
  if ((ethertype =? 33024) || (ethertype =? 34984)) && (19 <=? len buf) then
    inner ← be16 buf 16;
    b18 ← index buf 18;
    Ok (if is_ethertype inner && is_ip_version_byte b18 then Some (18, EthernetVlan) else None)
  else Ok None.

Definition locate_cooked (buf : list Z) : outcome (option (Z * FrameFormat)) :=
  if len buf <? 17 then Ok None else
  proto ← be16 buf 14;
  b16 ← index buf 16;
  Ok (if is_ethertype proto && is_ip_version_byte b16 then Some (16, LinuxCooked) else None).

Definition locate_ip_packet (buf : list Z) : parse_result (Z * FrameFormat) :=
  if len buf =? 0 then Ok (inr (PeTruncated 0 1)) else
  b0 ← index buf 0;
  if is_ip_version_byte b0 then Ok (inl (0, RawIp)) else
  p4 ← locate_prefix4 buf;
  match p4 with
  | Some f => Ok (inl (4, f))
  | None =>
    v10 ← looks_like_virtio_net_header buf 10;
    if v10 : bool then Ok (inl (10, VirtioNetHeader)) else
    v12 ← looks_like_virtio_net_header buf 12;
    if v12 : bool then Ok (inl (12, VirtioNetHeaderMrgRxbuf)) else
    e ← locate_ethernet buf;
    match e with
    | Some r => Ok (inl r)
    | None =>
      c ← locate_cooked buf;
      match c with Some r => Ok (inl r) | None => Ok (inr (PeUnsupportedVersion (Z.shiftr b0 4))) end
    end
  end.

(** The packet within the frame; [total_len] is the length field of its header. *)
Definition ip_packet (frame : list Z) (ip_offset total_len : Z) : outcome (list Z) :=
  get_slice frame ip_offset (Z.min (ip_offset + total_len) (len frame)).

(** ** Locating is total, and points at a packet *)

Definition locates (buf : list Z) (r : Z * FrameFormat) : Prop :=
  0 <= r.1 < len buf /\ exists b, index buf r.1 = Ok b /\ is_ip_version_byte b = true.

Lemma be16_total buf i : 0 <= i -> i + 1 < len buf -> exists v, be16 buf i = Ok v.
Proof.
  intros H1 H2. unfold be16. destruct (index_ok buf i) as (a & -> & _); [lia|]. destruct (index_ok buf (i + 1)) as (b & E & _); [lia|]. cbn. rewrite E. by eexists.
Qed.

Lemma locate_prefix4_total buf : exists r, locate_prefix4 buf = Ok r /\ forall f, r = Some f -> locates buf (4, f).
Proof.
  unfold locate_prefix4. destruct (Z.ltb_spec (len buf) 5); [by eexists|]. destruct (index_ok buf 4) as (b & E & _); [lia|]. rewrite E. cbn [mbind outcome_bind].
  destruct (is_ip_version_byte b) eqn:Eb; [|by eexists]. cbn [negb]. destruct (be16_total buf 2) as (v & ->); [lia|lia|]. destruct (be16_total buf 0) as (w & ->); [lia|lia|].
  cbn [mbind outcome_bind]. eexists. split; [done|]. intros f _. split; cbn; [lia|by exists b].
Qed.

Lemma virtio_total buf n : 2 <= n -> exists r, looks_like_virtio_net_header buf n = Ok r /\ (r = true -> forall f, locates buf (n, f)).
Proof.
  intros Hn. unfold looks_like_virtio_net_header. destruct (Z.leb_spec (len buf) n); [by eexists|]. destruct (index_ok buf n) as (b & E & _); [lia|]. rewrite E. cbn [mbind outcome_bind].
  destruct (is_ip_version_byte b) eqn:Eb; [|by eexists]. destruct (index_ok buf 0) as (x & -> & _); [lia|]. destruct (index_ok buf 1) as (y & -> & _); [lia|]. cbn [mbind outcome_bind negb].
  destruct (negb _); [by eexists|]. eexists. split; [done|]. intros _ f. split; cbn; [lia|by exists b].
Qed.

Lemma locate_ethernet_total buf : exists r, locate_ethernet buf = Ok r /\ forall x, r = Some x -> locates buf x.
Proof.
  unfold locate_ethernet. destruct (Z.ltb_spec (len buf) 15); [by eexists|]. destruct (be16_total buf 12) as (t & ->); [lia|lia|]. destruct (index_ok buf 14) as (b & E & _); [lia|]. rewrite E. cbn [mbind outcome_bind].
  destruct (_ && is_ip_version_byte b) eqn:Eb; [eexists; split; [done|]; intros x [= <-]; split; cbn; [lia|exists b; split; [done|exact (proj2 (andb_prop _ _ Eb))]]|].
  destruct (_ && (19 <=? len buf)) eqn:E19; [|by eexists]. destruct (be16_total buf 16) as (i & ->); [lia|lia|]. destruct (index_ok buf 18) as (b' & E' & _); [lia|]. rewrite E'. cbn [mbind outcome_bind].
  eexists. split; [done|]. intros x Hx. destruct (_ && is_ip_version_byte b') eqn:Eb'; [|done]. injection Hx as <-. split; cbn; [lia|exists b'; split; [done|exact (proj2 (andb_prop _ _ Eb'))]].
Qed.

Lemma locate_cooked_total buf : exists r, locate_cooked buf = Ok r /\ forall x, r = Some x -> locates buf x.
Proof.
  unfold locate_cooked. destruct (Z.ltb_spec (len buf) 17); [by eexists|]. destruct (be16_total buf 14) as (t & ->); [lia|lia|]. destruct (index_ok buf 16) as (b & E & _); [lia|]. rewrite E. cbn [mbind outcome_bind].
  eexists. split; [done|]. intros x Hx. destruct (_ && is_ip_version_byte b) eqn:Eb; [|done]. injection Hx as <-. split; cbn; [lia|exists b; split; [done|exact (proj2 (andb_prop _ _ Eb))]].
Qed.

Lemma locate_total buf : exists r, locate_ip_packet buf = Ok r /\ forall x, r = inl x -> locates buf x.
Proof.
  unfold locate_ip_packet. destruct (Z.eqb_spec (len buf) 0); [by eexists|]. pose proof (len_nonneg buf). destruct (index_ok buf 0) as (b & E & _); [lia|]. rewrite E. cbn [mbind outcome_bind].
  destruct (is_ip_version_byte b) eqn:Eb; [eexists; split; [done|]; intros x [= <-]; split; cbn; [lia|by exists b]|].
  destruct (locate_prefix4_total buf) as (p4 & -> & H4). cbn [mbind outcome_bind]. destruct p4 as [f|]; [eexists; split; [done|]; intros x [= <-]; by apply H4|].
  destruct (virtio_total buf 10) as ([] & -> & H10); [lia|eexists; split; [done|]; intros x [= <-]; by apply H10|]. cbn [mbind outcome_bind].
  destruct (virtio_total buf 12) as ([] & -> & H12); [lia|eexists; split; [done|]; intros x [= <-]; by apply H12|]. cbn [mbind outcome_bind].
  destruct (locate_ethernet_total buf) as ([r|] & -> & He); [eexists; split; [done|]; intros x [= <-]; by apply He|]. cbn [mbind outcome_bind].
  destruct (locate_cooked_total buf) as ([r|] & -> & Hc); [eexists; split; [done|]; intros x [= <-]; by apply Hc|]. by eexists.
Qed.

(** Reads a byte of a list whose first elements are known. *)
Ltac eval_index :=
  match goal with |- context [index ?l ?i] => let v := eval cbv in (index l i) in progress change (index l i) with v end; cbn [mbind outcome_bind].

(** ** Claims *)

(** What a frame of the format is read back as: layer-2 captures are written as raw packets. *)
Definition written_as (f : FrameFormat) : FrameFormat := match f with Ethernet | EthernetVlan | LinuxCooked => RawIp | f => f end.
Definition prefix_len (f : FrameFormat) : Z :=
  match f with RawIp => 0 | LinuxTunPi | Utun => 4 | VirtioNetHeader => 10 | VirtioNetHeaderMrgRxbuf => 12 | Ethernet => 14 | LinuxCooked => 16 | EthernetVlan => 18 end.

Lemma ip_packet_version_inv p v : ip_packet_version p = Ok (inl v) -> exists b r, p = b :: r /\ is_ip_version_byte b = true.
Proof.
  unfold ip_packet_version. destruct p as [|b r]; [done|]. rewrite len_cons. destruct (_ =? 0); [done|]. rewrite index_cons_eq by done. cbn [mbind outcome_bind]. intros E. exists b, r. split; [done|]. unfold is_ip_version_byte.
  destruct (Z.shiftr b 4 =? 4); [done|]. by destruct (Z.shiftr b 4 =? 6).
Qed.

(** The locator never panics and points at a byte with an IP version, whatever the frame; and a
    packet written in a format is found again: at the length of that format's prefix, in that
    format, byte for byte. *)
Theorem tun_frame_roundtrip :
  (forall buf, exists r, locate_ip_packet buf = Ok r /\ forall x, r = inl x -> locates buf x)
  /\ (forall format p frame, encode_tun_ip_frame format p = Ok (inl frame) ->
      locate_ip_packet frame = Ok (inl (prefix_len (written_as format), written_as format))
      /\ ip_packet frame (prefix_len (written_as format)) (len p) = Ok p).
Proof.
  split; [exact locate_total|]. intros format p frame. unfold encode_tun_ip_frame. destruct (ip_packet_version p) as [[v|]| |] eqn:Ev; try done. cbn [mbind outcome_bind].
  destruct (ip_packet_version_inv p v Ev) as (b & r & -> & Hb). pose proof (len_nonneg r) as Hr. intros [= <-].
  assert (Hsplit : forall pre n, n = len pre -> ip_packet (pre ++ b :: r) n (len (b :: r)) = Ok (b :: r)).
  { intros pre n ->. pose proof (len_nonneg pre). unfold ip_packet. rewrite get_slice_ok by lens. rewrite slice_app_skip, slice_exact by lens. done. }
  split; cycle 1.
  { destruct format; cbn [written_as prefix_len]; first [exact (Hsplit [] 0 eq_refl)|exact (Hsplit [_; _; _; _] 4 eq_refl)|exact (Hsplit (replicate 10 0) 10 eq_refl)|exact (Hsplit (replicate 12 0) 12 eq_refl)]. }
  destruct format; unfold locate_ip_packet; cbn [written_as prefix_len]; destruct v; cbn [ip_ethertype be_bytes replicate app];
    rewrite (proj2 (Z.eqb_neq _ 0)) by lens; eval_index; try (rewrite Hb; done); try change (is_ip_version_byte 0) with false;
    try change (is_ip_version_byte _) with false; unfold locate_prefix4, looks_like_virtio_net_header, be16;
    repeat first [guard_step|eval_index]; rewrite ?Hb; try done; change (is_ip_version_byte 0) with false; cbn [negb mbind outcome_bind];
    rewrite (proj2 (Z.leb_gt (len _) 10)) by lens; try done; rewrite (proj2 (Z.leb_gt (len _) 12)) by lens; done.
Qed.
