(* ===== verification/F64.v ===== *)
(** * Double-precision floating point

    [f64] of the language: the binary64 numbers of the Standard Library's [SpecFloat], with the
    operations the source uses.  They compute, so the scoring of [core-smart] can be run on
    concrete numbers.  The functions of the C mathematical library, whose results the language
    leaves open, are the class [Libm]. *)

From Stdlib Require Import SpecFloat.
From stdpp Require Import base numbers option.
From S2P Require Import Prelude.

Definition f64 : Type := spec_float.

Definition f64_of (z : Z) : f64 := binary_normalize 53 1024 z 0 false.
Definition f64_add : f64 -> f64 -> f64 := SFadd 53 1024.
Definition f64_sub : f64 -> f64 -> f64 := SFsub 53 1024.
Definition f64_mul : f64 -> f64 -> f64 := SFmul 53 1024.
Definition f64_div : f64 -> f64 -> f64 := SFdiv 53 1024.
Definition f64_lt : f64 -> f64 -> bool := SFltb.
Definition f64_le : f64 -> f64 -> bool := SFleb.
Definition f64_eq : f64 -> f64 -> bool := SFeqb.
Definition f64_abs : f64 -> f64 := SFabs.

(** A decimal literal: the quotient of two integers that are exact, rounded once *)
Definition f64_lit (num den : Z) : f64 := f64_div (f64_of num) (f64_of den).

Definition is_nan (x : f64) : bool := match x with S754_nan => true | _ => false end.

(** [f64::min] and [f64::max]: a NaN loses. *)
Definition f64_min (x y : f64) : f64 := if is_nan x then y else if is_nan y then x else if f64_lt y x then y else x.
Definition f64_max (x y : f64) : f64 := if is_nan x then y else if is_nan y then x else if f64_lt x y then y else x.

(** [x.floor() as usize]: the cast saturates, NaN becomes 0. *)
Definition f64_floor_usize (x : f64) : Z :=
  match x with
  | S754_finite false m e => Z.min (if (0 <=? e)%Z then Z.pos m * 2 ^ e else Z.pos m / 2 ^ (- e)) (2 ^ 64 - 1)
  | S754_infinity false => 2 ^ 64 - 1
  | _ => 0
  end.

(** [x.round().min(u64::MAX as f64) as u64]: halves away from zero *)
Definition f64_round_u64 (x : f64) : Z :=
  match x with
  | S754_finite false m e => Z.min (if (0 <=? e)%Z then Z.pos m * 2 ^ e else (Z.pos m + 2 ^ (- e - 1)) / 2 ^ (- e)) (2 ^ 64 - 1)
  | S754_infinity false => 2 ^ 64 - 1
  | S754_nan => 2 ^ 64 - 1
  | _ => 0
  end.

Declare Scope f64_scope.
Delimit Scope f64_scope with f64.
Bind Scope f64_scope with f64.
Infix "+" := f64_add : f64_scope.
Infix "-" := f64_sub : f64_scope.
Infix "*" := f64_mul : f64_scope.
Infix "/" := f64_div : f64_scope.
Infix "<?" := f64_lt : f64_scope.
Infix "<=?" := f64_le : f64_scope.
Infix "=?" := f64_eq : f64_scope.
Notation "# z" := (f64_of z) (at level 1, format "# z") : f64_scope.
Notation "n ./ d" := (f64_lit n d) (at level 30) : f64_scope.

Class Libm : Type := {
  ln : f64 -> f64;
  ln_1p : f64 -> f64;
  log2 : f64 -> f64;
  powf : f64 -> f64 -> f64
}.

(** ** Order *)

Lemma f64_lt_trans x y z : f64_lt x y = true -> f64_lt y z = true -> f64_lt x z = true.
Proof.
  unfold f64_lt, SFltb. destruct x as [sx|sx| |sx mx ex], y as [sy|sy| |sy my ey], z as [sz|sz| |sz mz ez]; cbn; try done;
    repeat match goal with s : bool |- _ => destruct s end; cbn; try done.
  all: destruct (Z.compare_spec ex ey), (Z.compare_spec ey ez), (Z.compare_spec ex ez); subst; cbn; try done; try lia;
    intros Hxy Hyz; fold (Pos.compare mx my) (Pos.compare my mz) (Pos.compare mx mz) in *.
  all: destruct (Pos.compare_spec mx my), (Pos.compare_spec my mz), (Pos.compare_spec mx mz); cbn in *; try done; lia.
Qed.

Lemma f64_lt_irrefl x : f64_lt x x = false.
Proof. unfold f64_lt, SFltb. destruct x as [s|s| |s m e]; cbn; [done|by destruct s|done|]. rewrite Z.compare_refl. change (Pos.compare_cont Eq m m) with (Pos.compare m m). rewrite Pos.compare_refl. by destruct s. Qed.

Lemma f64_max_either x y : f64_max x y = x \/ f64_max x y = y.
Proof. unfold f64_max. repeat case_match; auto. Qed.

Lemma f64_min_either x y : f64_min x y = x \/ f64_min x y = y.
Proof. unfold f64_min. repeat case_match; auto. Qed.

Lemma f64_le_lt_trans x y z : f64_le x y = true -> f64_lt y z = true -> f64_lt x z = true.
Proof.
  intros Hle Hlt. destruct (f64_lt x y) eqn:Exy; [by eapply f64_lt_trans|]. revert Hle Hlt Exy. unfold f64_le, f64_lt, SFleb, SFltb.
  destruct x as [sx|sx| |sx mx ex], y as [sy|sy| |sy my ey], z as [sz|sz| |sz mz ez]; cbn; try done;
    repeat match goal with s : bool |- _ => destruct s end; cbn; try done.
  all: destruct (Z.compare_spec ex ey); subst; cbn; try done; fold (Pos.compare mx my); destruct (Pos.compare_spec mx my); subst; cbn; done.
Qed.
