(* ===== verification/DnsGroup.v ===== *)
(** * Resolver groups: the order in which members are asked and how answers are gathered

    Models [src/crates/core-resolver/src/group.rs].  A member is a [dyn DnsUpstream]: what
    it does with one question is the argument [ask] of the operations, by index of the
    member, [None] when the group's timeout ends the wait first.  A group is a
    [DnsUpstream] itself (its [query_a] is [resolve]), so [ask] of an outer group is
    [resolve_with_strategy] of an inner one.  [run_sequential] is a function;
    [run_parallel] is a step relation in which any member in flight may answer next,
    which contains every order in which [buffer_unordered] can hand out results.  The
    draws of crate [rand] are the class [DnsGroupLib]. *)

From stdpp Require Import base list gmap strings numbers option relations.
From S2P Require Import Prelude Text Net F64.

(** ** Strategies and errors *)
Inductive GroupStrategy : Type :=
| GsRoundRobin | GsRandom | GsParallel | GsAdaptive | GsSequential | GsAll | GsFastest | GsFallback.

#[global] Instance GroupStrategy_eq_dec : EqDecision GroupStrategy.
Proof. solve_decision. Defined.

(** [s.replace('_', '-')] *)
Definition dashes (s : string) : string :=
  str_of_bytes ((fun c => if c =? 95 then 45 else c) <$> str_bytes s).

Definition GroupStrategy_parse `{StrCase} (value : string) : option GroupStrategy :=
  let s := dashes (to_ascii_lowercase (str_trim value)) in
  if decide (s ∈ ["round-robin"; "roundrobin"; "rr"]) then Some GsRoundRobin
  else if decide (s = "random") then Some GsRandom
  else if decide (s ∈ ["parallel"; "fastest"]) then Some GsParallel
  else if decide (s ∈ ["adaptive"; "load-balance"; "load-balance-adaptive"]) then Some GsAdaptive
  else if decide (s ∈ ["sequential"; "fallback"]) then Some GsSequential
  else if decide (s = "all") then Some GsAll
  else None.

Inductive DnsError : Type :=
| DeFailed (msg : string)
| DeTimeout
| DeEmpty
| DeRejected (msg : string).

(** [Result<A, DnsError>]: [inl] is [Ok]. *)
Notation dns_result A := (A + DnsError)%type.

(** ** Crate [rand] *)
Class DnsGroupLib := {
  (** [slice.shuffle(rng)], by the state of the generator *)
  shuffle : nat -> list nat -> list nat;
  shuffle_perm : forall r l, shuffle r l ≡ₚ l;
  (** [WeightedIndex::new(ws)] and one [sample]: an index of [ws], an error when no weight
      is usable *)
  weighted_sample : nat -> list f64 -> option nat;
  weighted_sample_lt : forall r ws i, weighted_sample r ws = Some i -> (i < length ws)%nat
}.

Section Group.
Context `{DnsGroupLib}.

(** ** Statistics of the members *)
Record RawMemberStats : Type := mkRawMemberStats {
  rm_requests : Z;
  rm_failures : Z;
  rm_rtt_sum_micros : f64
}.

Definition stats_default : RawMemberStats := mkRawMemberStats 0 0 (f64_of 0).

(** [elapsed] in microseconds *)
Definition stats_record (s : RawMemberStats) (elapsed : Z) (success : bool) : RawMemberStats :=
  mkRawMemberStats (saturating_add 64 (rm_requests s) 1)
    (if success then rm_failures s else saturating_add 64 (rm_failures s) 1)
    (f64_add (rm_rtt_sum_micros s) (f64_of (Z.max elapsed 1))).

Definition weight (s : RawMemberStats) : f64 :=
  if (rm_requests s =? 0) || f64_eq (rm_rtt_sum_micros s) (f64_of 0) then f64_of 1
  else f64_div (f64_of 1) (f64_div (rm_rtt_sum_micros s) (f64_of (rm_requests s))).

Record MemberStats : Type := mkMemberStats { ms_requests : Z; ms_failures : Z; ms_average_rtt : Z }.

Definition stats_public (s : RawMemberStats) : MemberStats :=
  mkMemberStats (rm_requests s) (rm_failures s)
    (if rm_requests s =? 0 then 0
     else f64_round_u64 (f64_div (rm_rtt_sum_micros s) (f64_of (rm_requests s)))).

(** ** The group: [dg_members] is [members.len()] *)
Record DnsGroup : Type := mkDnsGroup {
  dg_name : string;
  dg_strategy : GroupStrategy;
  dg_members : nat;
  dg_timeout : Z;
  dg_max_parallel : nat
}.

Record GroupState : Type := mkGroupState { gs_cursor : Z; gs_stats : list RawMemberStats }.

Definition DnsGroup_new (name : string) (strategy : GroupStrategy) (members : nat)
  : DnsGroup * GroupState :=
  (mkDnsGroup name strategy members 5000000 2, mkGroupState 0 (replicate members stats_default)).

Definition with_timeout (g : DnsGroup) (timeout : Z) : DnsGroup :=
  mkDnsGroup (dg_name g) (dg_strategy g) (dg_members g) (Z.max timeout 1000) (dg_max_parallel g).
Definition with_max_parallel (g : DnsGroup) (n : nat) : DnsGroup :=
  mkDnsGroup (dg_name g) (dg_strategy g) (dg_members g) (dg_timeout g) (n `max` 1).

Definition member_stats (st : GroupState) : list MemberStats := stats_public <$> gs_stats st.

(** ** The order of the members *)
Definition rotate_left {A} (l : list A) (k : nat) : list A := drop k l ++ take k l.

(** [rng k] is the state of the generator at the [k]-th draw.  [Vec::remove] panics
    outside the vector. *)
Fixpoint weighted_order (fuel : nat) (rng : nat -> nat) (remaining : list nat) (weights : list f64)
  : outcome (list nat) :=
  match fuel, remaining with
  | _, [] => Ok []
  | O, _ => Panic
  | S fuel', _ =>
    let selected := default 0%nat (weighted_sample (rng 0%nat) weights) in
    match remaining !! selected with
    | None => Panic
    | Some i =>
      if (selected <? length weights)%nat then
        rest ← weighted_order fuel' (fun k => rng (S k)) (delete selected remaining) (delete selected weights);
        Ok (i :: rest)
      else Panic
    end
  end.

Definition selection_weights (st : GroupState) : list f64 := weight <$> gs_stats st.

Definition ordered_indices (g : DnsGroup) (st : GroupState) (rng : nat -> nat)
    (strategy : GroupStrategy) : outcome (list nat * GroupState) :=
  let n := dg_members g in
  let indices := seq 0 n in
  match strategy with
  | GsRoundRobin =>
    if (n =? 0)%nat then Panic else
    let start := Z.to_nat (gs_cursor st mod Z.of_nat n) in
    Ok (rotate_left indices start, mkGroupState (wrapping_add 64 (gs_cursor st) 1) (gs_stats st))
  | GsRandom => Ok (shuffle (rng 0%nat) indices, st)
  | GsAdaptive | GsParallel | GsFastest | GsAll =>
    l ← weighted_order n rng indices (selection_weights st);
    Ok (l, st)
  | GsSequential | GsFallback => Ok (indices, st)
  end.

Definition record_result (g : DnsGroup) (st : GroupState) (i : nat) (elapsed : Z) (success : bool)
  : GroupState :=
  mkGroupState (gs_cursor st)
    (alter (fun s => stats_record s (if success then elapsed else dg_timeout g) success) i (gs_stats st)).

(** ** Asking one member *)
Section Query.
Context {A : Type}.

(** What a member does with the question, and for how long: [None] is the timeout. *)
Definition Member : Type := nat -> option (dns_result (list A)) * Z.

Definition member_answer (ask : Member) (i : nat) : dns_result (list A) :=
  match (ask i).1 with
  | Some (inl values) => if (length values =? 0)%nat then inr DeEmpty else inl values
  | Some (inr e) => inr e
  | None => inr DeTimeout
  end.

Definition answered (r : dns_result (list A)) : bool := match r with inl _ => true | inr _ => false end.

Definition query_member (g : DnsGroup) (st : GroupState) (ask : Member) (i : nat)
  : dns_result (list A) * GroupState :=
  let result := member_answer ask i in
  (result, record_result g st i (ask i).2 (answered result)).

(** ** One after the other *)
Fixpoint sequential_loop (g : DnsGroup) (st : GroupState) (ask : Member) (indices : list nat)
    (last_error : DnsError) : dns_result (list A) * GroupState :=
  match indices with
  | [] => (inr last_error, st)
  | i :: rest =>
    match query_member g st ask i with
    | (inl values, st) => (inl values, st)
    | (inr error, st) => sequential_loop g st ask rest error
    end
  end.

Definition run_sequential (g : DnsGroup) (st : GroupState) (rng : nat -> nat) (ask : Member)
    (strategy : GroupStrategy) : outcome (dns_result (list A) * GroupState) :=
  '(indices, st) ← ordered_indices g st rng strategy;
  Ok (sequential_loop g st ask indices DeEmpty).

(** ** Several at a time *)
Record Pending : Type := mkPending {
  pe_queue : list nat;
  pe_flight : list nat;
  pe_answers : list A;
  pe_last_error : DnsError;
  pe_state : GroupState;
  pe_result : option (dns_result (list A))
}.

Definition fan_out (g : DnsGroup) : nat := (dg_max_parallel g `min` dg_members g) `max` 1.

(** The next result out of the stream, the member [i] leaving the flight. *)
Definition absorb (g : DnsGroup) (ask : Member) (collect_all : bool) (p : Pending) (flight : list nat)
    (i : nat) : Pending :=
  match query_member g (pe_state p) ask i with
  | (inl values, st) =>
    if collect_all then mkPending (pe_queue p) flight (pe_answers p ++ values) (pe_last_error p) st None
    else mkPending (pe_queue p) flight (pe_answers p) (pe_last_error p) st (Some (inl values))
  | (inr error, st) => mkPending (pe_queue p) flight (pe_answers p) error st None
  end.

(** [gather answers out]: what the collected answers may be returned as ([HashSet] for
    addresses, the vector itself for records). *)
Inductive parallel_step (g : DnsGroup) (ask : Member) (collect_all : bool)
    (gather : list A -> list A -> Prop) : Pending -> Pending -> Prop :=
| step_launch i queue flight answers e st :
    (length flight < fan_out g)%nat ->
    parallel_step g ask collect_all gather
      (mkPending (i :: queue) flight answers e st None)
      (mkPending queue (flight ++ [i]) answers e st None)
| step_result p i f1 f2 :
    pe_result p = None -> pe_flight p = f1 ++ i :: f2 ->
    parallel_step g ask collect_all gather p (absorb g ask collect_all p (f1 ++ f2) i)
| step_none e st :
    parallel_step g ask collect_all gather
      (mkPending [] [] [] e st None) (mkPending [] [] [] e st (Some (inr e)))
| step_all answers out e st :
    answers <> [] -> gather answers out ->
    parallel_step g ask collect_all gather
      (mkPending [] [] answers e st None) (mkPending [] [] answers e st (Some (inl out))).

Definition pending_start (indices : list nat) (st : GroupState) : Pending :=
  mkPending indices [] [] DeEmpty st None.

(** [run_parallel] may end with [r] and leave the group in [st']. *)
Definition run_parallel (g : DnsGroup) (st : GroupState) (rng : nat -> nat) (ask : Member)
    (collect_all : bool) (gather : list A -> list A -> Prop)
    (r : dns_result (list A)) (st' : GroupState) : Prop :=
  exists indices st0 p, ordered_indices g st rng GsAdaptive = Ok (indices, st0)
  /\ rtc (parallel_step g ask collect_all gather) (pending_start indices st0) p
  /\ pe_result p = Some r /\ pe_state p = st'.

Definition resolve_with_strategy (g : DnsGroup) (st : GroupState) (rng : nat -> nat) (ask : Member)
    (gather : list A -> list A -> Prop) (strategy : option GroupStrategy)
    (r : dns_result (list A)) (st' : GroupState) : Prop :=
  if (dg_members g =? 0)%nat then r = inr (DeFailed ("group " +:+ dg_name g +:+ " 无成员")) /\ st' = st else
  let strategy := default (dg_strategy g) strategy in
  match strategy with
  | GsParallel | GsFastest => run_parallel g st rng ask false gather r st'
  | GsAll => run_parallel g st rng ask true gather r st'
  | _ => run_sequential g st rng ask strategy = Ok (r, st')
  end.
End Query.

(** [HashSet<IpAddr>]: each address once, in any order. *)
Definition hash_set_gather {A} (answers out : list A) : Prop :=
  NoDup out /\ forall x, x ∈ out <-> x ∈ answers.
End Group.

(** ** The order is a permutation of the members *)
Section GroupProofs.
Context `{DnsGroupLib}.

Definition group_ok (g : DnsGroup) (st : GroupState) : Prop :=
  dg_members g <> 0%nat /\ length (gs_stats st) = dg_members g.

Lemma rotate_left_perm {A} (l : list A) k : rotate_left l k ≡ₚ l.
Proof. unfold rotate_left. rewrite Permutation_app_comm. by rewrite take_drop. Qed.

Lemma delete_perm (l : list nat) k x : l !! k = Some x -> x :: delete k l ≡ₚ l.
Proof. intros Hk. symmetry. by apply delete_Permutation. Qed.

Lemma weighted_order_perm fuel : forall rng remaining weights,
  length remaining = length weights -> (length remaining <= fuel)%nat ->
  exists l, weighted_order fuel rng remaining weights = Ok l /\ l ≡ₚ remaining.
Proof.
  induction fuel as [|fuel IH]; intros rng remaining weights Hlen Hfuel.
  { destruct remaining; [by exists []|cbn in Hfuel; lia]. }
  destruct remaining as [|x rem]; [by exists []|].
  cbn [weighted_order]. set (sel := default 0%nat (weighted_sample (rng 0%nat) weights)).
  assert (Hsel : (sel < length weights)%nat).
  { unfold sel. destruct (weighted_sample (rng 0%nat) weights) eqn:E; [by apply weighted_sample_lt in E|].
    rewrite <- Hlen. cbn. lia. }
  destruct (lookup_lt_is_Some_2 (x :: rem) sel ltac:(lia)) as [i Hi]. rewrite Hi.
  replace (sel <? length weights)%nat with true by (symmetry; by apply Nat.ltb_lt).
  pose proof (length_delete (x :: rem) sel ltac:(by exists i)) as L1.
  pose proof (length_delete weights sel (lookup_lt_is_Some_2 _ _ Hsel)) as L2.
  destruct (IH (fun k => rng (S k)) (delete sel (x :: rem)) (delete sel weights)) as (l & E & Hp).
  { lia. }
  { rewrite L1. cbn in *. lia. }
  rewrite E. exists (i :: l). split; [done|]. rewrite Hp. by apply delete_perm.
Qed.

Lemma ordered_indices_perm g st rng strategy : group_ok g st ->
  exists l st', ordered_indices g st rng strategy = Ok (l, st')
  /\ l ≡ₚ seq 0 (dg_members g) /\ gs_stats st' = gs_stats st.
Proof.
  intros [Hn Hlen]. unfold ordered_indices.
  assert (Hw : exists l, weighted_order (dg_members g) rng (seq 0 (dg_members g)) (selection_weights st) = Ok l
                         /\ l ≡ₚ seq 0 (dg_members g)).
  { apply weighted_order_perm; unfold selection_weights; rewrite ?length_fmap, length_seq; lia. }
  destruct Hw as (lw & Ew & Hpw).
  destruct strategy; try rewrite Ew; cbn [mbind outcome_bind]; eauto 8 using shuffle_perm.
  replace (dg_members g =? 0)%nat with false by (symmetry; by apply Nat.eqb_neq).
  eexists _, _. split_and!; [done|apply rotate_left_perm|done].
Qed.

(** The [k]-th of consecutive rounds starts at the [k]-th member after the cursor. *)
Lemma round_robin_first g st rng l st' : dg_members g <> 0%nat ->
  ordered_indices g st rng GsRoundRobin = Ok (l, st') ->
  head l = Some (Z.to_nat (gs_cursor st mod Z.of_nat (dg_members g)))
  /\ gs_cursor st' = wrapping_add 64 (gs_cursor st) 1.
Proof.
  intros Hn. unfold ordered_indices. destruct (dg_members g =? 0)%nat eqn:E; [by apply Nat.eqb_eq in E|].
  intros [= <- <-]. split; [|done]. unfold rotate_left. set (k := Z.to_nat _).
  assert (Hk : (k < dg_members g)%nat) by (unfold k; pose proof (Z.mod_pos_bound (gs_cursor st) (Z.of_nat (dg_members g))); lia).
  rewrite head_lookup, lookup_app_l by (rewrite length_drop, length_seq; lia).
  rewrite lookup_drop. apply lookup_seq. lia.
Qed.

(** ** Gathering answers *)
Section Answers.
Context {A : Type} (g : DnsGroup) (ask : Member (A := A)) (gather : list A -> list A -> Prop).
Hypothesis gather_elem : forall answers out, gather answers out -> forall x, x ∈ out <-> x ∈ answers.
Hypothesis gather_total : forall answers, exists out, gather answers out.

Definition fails (i : nat) : Prop := answered (member_answer ask i) = false.
Definition ok_values (i : nat) : list A := match member_answer ask i with inl v => v | inr _ => [] end.

(** The group after the members [l] were asked. *)
Definition recorded (st : GroupState) (l : list nat) : GroupState :=
  foldl (fun st i => record_result g st i (ask i).2 (answered (member_answer ask i))) st l.

Lemma member_answer_cases i :
  (exists v, member_answer ask i = inl v /\ v <> [] /\ ~ fails i /\ ok_values i = v)
  \/ (exists e, member_answer ask i = inr e /\ fails i /\ ok_values i = []).
Proof.
  unfold fails, ok_values. destruct (member_answer ask i) as [v|e] eqn:E; [left|right; eauto].
  exists v. split_and!; try done. intros ->. unfold member_answer in E.
  destruct (ask i).1 as [[w|?]|]; try done. destruct w; cbn in E; congruence.
Qed.

Lemma sequential_loop_spec l : forall st e0,
  (exists l1 i l2 v, l = l1 ++ i :: l2 /\ Forall fails l1 /\ member_answer ask i = inl v
     /\ sequential_loop g st ask l e0 = (inl v, recorded st (l1 ++ [i])))
  \/ (Forall fails l
     /\ exists e, sequential_loop g st ask l e0 = (inr e, recorded st l)
     /\ (match last l with None => e = e0 | Some i => member_answer ask i = inr e end)).
Proof.
  induction l as [|i l IH]; intros st e0; [right; split; [done|]; by exists e0|].
  cbn [sequential_loop]. unfold query_member.
  destruct (member_answer_cases i) as [(v & E & _)|(e & E & Hf & _)]; rewrite E.
  - left. exists [], i, l, v. split_and!; try done. cbn. by rewrite E.
  - destruct (IH (record_result g st i (ask i).2 (answered (A := A) (inr e))) e)
      as [(l1 & j & l2 & v & -> & Hl1 & Ej & Hs)|(Hl & e' & Hs & Hlast)].
    + left. exists (i :: l1), j, l2, v. split_and!; [done|by constructor|done|].
      rewrite Hs. cbn. by rewrite E.
    + right. split; [by constructor|]. exists e'. split.
      * rewrite Hs. cbn. by rewrite E.
      * destruct l as [|j l]; [cbn in Hlast |- *; congruence|]. rewrite last_cons_cons. destruct (last (j :: l)) eqn:El; [done|by apply last_None in El].
Qed.

(** ** Invariant of the parallel run

    [dn] are the members whose result was taken, in that order. *)
Definition taken_ok (collect_all : bool) (p : Pending (A := A)) (dn : list nat) : Prop :=
  match pe_result p with
  | None =>
    if collect_all then pe_answers p = concat (ok_values <$> dn)
    else pe_answers p = [] /\ Forall fails dn
  | Some (inl v) =>
    if collect_all then pe_queue p = [] /\ pe_flight p = [] /\ gather (concat (ok_values <$> dn)) v
      /\ concat (ok_values <$> dn) <> []
    else exists i, i ∈ dn /\ member_answer ask i = inl v
  | Some (inr e) => pe_queue p = [] /\ pe_flight p = [] /\ e = pe_last_error p /\ Forall fails dn
  end.

Definition last_error_ok (p : Pending (A := A)) (dn : list nat) : Prop :=
  (pe_last_error p = DeEmpty /\ Forall (fun i => ~ fails i) dn)
  \/ exists i, i ∈ dn /\ member_answer ask i = inr (pe_last_error p).

Record pending_inv (collect_all : bool) (indices : list nat) (st0 : GroupState) (p : Pending (A := A))
    (dn : list nat) : Prop := {
  pi_perm : indices ≡ₚ dn ++ pe_flight p ++ pe_queue p;
  pi_fan_out : (length (pe_flight p) <= fan_out g)%nat;
  pi_state : pe_state p = recorded st0 dn;
  pi_taken : taken_ok collect_all p dn;
  pi_last : last_error_ok p dn
}.

Lemma recorded_snoc st l i :
  recorded st (l ++ [i])
  = record_result g (recorded st l) i (ask i).2 (answered (member_answer ask i)).
Proof. unfold recorded. by rewrite foldl_app. Qed.

Lemma ok_values_snoc l i : concat (ok_values <$> l ++ [i]) = concat (ok_values <$> l) ++ ok_values i.
Proof. rewrite fmap_app, concat_app. cbn. by rewrite app_nil_r. Qed.

Lemma ok_values_fail l : Forall fails l <-> concat (ok_values <$> l) = [].
Proof.
  induction l as [|i l IH]; [by split|]. cbn [fmap list_fmap concat]. rewrite Forall_cons, IH, app_nil.
  destruct (member_answer_cases i) as [(v & _ & Hv & Hf & ->)|(e & _ & Hf & ->)]; naive_solver.
Qed.

Lemma last_error_ok_snoc (p p' : Pending (A := A)) dn i :
  pe_last_error p' = match member_answer ask i with inl _ => pe_last_error p | inr e => e end ->
  last_error_ok p dn -> last_error_ok p' (dn ++ [i]).
Proof.
  intros Hp' Hp. unfold last_error_ok. rewrite Hp'.
  destruct (member_answer_cases i) as [(v & E & _ & Hf & _)|(e & E & _)]; rewrite E.
  - destruct Hp as [[He Hall]|(j & Hj & Ej)]; [left|right].
    + split; [done|]. rewrite Forall_app, Forall_singleton. by split.
    + exists j. rewrite elem_of_app. auto.
  - right. exists i. rewrite elem_of_app, list_elem_of_singleton. auto.
Qed.

Lemma absorb_inv collect_all indices st0 p dn f1 i f2 :
  pe_result p = None -> pe_flight p = f1 ++ i :: f2 ->
  pending_inv collect_all indices st0 p dn ->
  pending_inv collect_all indices st0 (absorb g ask collect_all p (f1 ++ f2) i) (dn ++ [i]).
Proof.
  intros Hr Hfl [Hperm Hfan Hst Htk Hle]. unfold taken_ok in Htk. rewrite Hr in Htk.
  assert (Hperm' : indices ≡ₚ (dn ++ [i]) ++ (f1 ++ f2) ++ pe_queue p).
  { rewrite Hperm, Hfl. rewrite <- !app_assoc. apply Permutation_app_head. cbn.
    symmetry. apply Permutation_middle. }
  assert (Hfan' : (length (f1 ++ f2) <= fan_out g)%nat).
  { rewrite Hfl in Hfan. rewrite length_app in *. cbn in Hfan. lia. }
  unfold absorb, query_member.
  destruct (member_answer_cases i) as [(v & E & Hv & Hf & Hok)|(e & E & Hf & Hok)]; rewrite E.
  - destruct collect_all.
    + split; cbn; [done|done|by rewrite recorded_snoc, E, Hst| |].
      * unfold taken_ok; cbn. by rewrite ok_values_snoc, Hok, Htk.
      * eapply last_error_ok_snoc; [|exact Hle]. by rewrite E.
    + split; cbn; [done|done|by rewrite recorded_snoc, E, Hst| |].
      * unfold taken_ok; cbn. exists i. rewrite elem_of_app, list_elem_of_singleton. auto.
      * eapply last_error_ok_snoc; [|exact Hle]. by rewrite E.
  - split; cbn; [done|done|by rewrite recorded_snoc, E, Hst| |].
    + unfold taken_ok; cbn. destruct collect_all.
      * by rewrite ok_values_snoc, Hok, app_nil_r.
      * destruct Htk as [-> Hall]. split; [done|]. rewrite Forall_app, Forall_singleton. by split.
    + eapply last_error_ok_snoc; [|exact Hle]. by rewrite E.
Qed.

Lemma parallel_step_inv collect_all indices st0 p p' dn :
  parallel_step g ask collect_all gather p p' -> pending_inv collect_all indices st0 p dn ->
  exists dn', pending_inv collect_all indices st0 p' dn'.
Proof.
  intros Hs Hi. destruct Hs as [i queue flight answers e st Hfl|p i f1 f2 Hr Hfl|e st|answers out e st Ha Hg].
  - exists dn. destruct Hi as [Hperm Hfan Hst Htk Hle]. cbn in *. split; cbn; try done.
    + rewrite Hperm. by rewrite <- (app_assoc flight).
    + rewrite length_app. cbn. lia.
  - exists (dn ++ [i]). by apply absorb_inv.
  - exists dn. destruct Hi as [Hperm Hfan Hst Htk Hle]. split; try done. unfold taken_ok in *. cbn in *.
    split_and!; try done. destruct collect_all; [by apply ok_values_fail|by destruct Htk].
  - exists dn. destruct Hi as [Hperm Hfan Hst Htk Hle]. split; try done. unfold taken_ok in *. cbn in *.
    destruct collect_all; [by subst|]. by destruct Htk.
Qed.

Lemma parallel_run_inv collect_all indices st0 p :
  rtc (parallel_step g ask collect_all gather) (pending_start indices st0) p ->
  exists dn, pending_inv collect_all indices st0 p dn.
Proof.
  apply (rtc_ind_r (fun p => exists dn, pending_inv collect_all indices st0 p dn)).
  - exists []. split; cbn; try done; [lia|unfold taken_ok; cbn; by destruct collect_all|].
    left. by split.
  - intros p1 p2 _ Hs (dn & Hi). by eapply parallel_step_inv.
Qed.

(** ** Every run ends *)
Definition pending_work (p : Pending (A := A)) : nat :=
  match pe_result p with
  | Some _ => 0
  | None => 1 + 2 * length (pe_queue p) + length (pe_flight p)
  end.

Lemma parallel_step_work collect_all p p' :
  parallel_step g ask collect_all gather p p' -> (pending_work p' < pending_work p)%nat.
Proof.
  intros Hs. destruct Hs as [i queue flight answers e st Hfl|p i f1 f2 Hr Hfl|e st|answers out e st Ha Hg];
    unfold pending_work; cbn.
  - rewrite length_app. cbn. lia.
  - rewrite Hr, Hfl. destruct (member_answer ask i); [destruct collect_all|]; cbn; rewrite ?length_app; cbn; lia.
  - lia.
  - lia.
Qed.

Lemma parallel_progress collect_all p :
  pe_result p = None -> exists p', parallel_step g ask collect_all gather p p'.
Proof.
  destruct p as [queue flight answers e st r]. cbn. intros ->.
  destruct flight as [|i flight].
  - destruct queue as [|i queue].
    + destruct answers as [|a answers]; [eexists; apply step_none|].
      destruct (gather_total (a :: answers)) as [out Hout]. eexists. by apply (step_all _ _ _ _ _ out).
    + eexists. apply step_launch. cbn. unfold fan_out. lia.
  - eexists. by apply (step_result _ _ _ _ _ i [] flight).
Qed.

Lemma parallel_ends collect_all p :
  exists p' r, rtc (parallel_step g ask collect_all gather) p p' /\ pe_result p' = Some r.
Proof.
  remember (pending_work p) as n eqn:Hn. revert p Hn.
  induction n as [n IH] using lt_wf_ind. intros p ->.
  destruct (pe_result p) as [r|] eqn:Hr; [by exists p, r|].
  destruct (parallel_progress collect_all p Hr) as [p1 Hs].
  destruct (IH _ (parallel_step_work _ _ _ Hs) p1 eq_refl) as (p' & r & Hrun & Hres).
  exists p', r. split; [by eapply rtc_l|done].
Qed.

(** What the group promises of one question put to the members [0 .. n-1]. *)
Definition group_answer_ok (union : bool) (r : dns_result (list A)) : Prop :=
  match r with
  | inl v => v <> []
    /\ (if union then forall x, x ∈ v <-> exists i w, (i < dg_members g)%nat /\ member_answer ask i = inl w /\ x ∈ w
        else exists i, (i < dg_members g)%nat /\ member_answer ask i = inl v)
  | inr e => (forall i, (i < dg_members g)%nat -> fails i)
    /\ exists i, (i < dg_members g)%nat /\ member_answer ask i = inr e
  end.

Lemma perm_seq_elem l n i : l ≡ₚ seq 0 n -> i ∈ l <-> (i < n)%nat.
Proof. intros ->. rewrite elem_of_seq. lia. Qed.

Lemma sequential_answer_ok st l e0 : dg_members g <> 0%nat -> l ≡ₚ seq 0 (dg_members g) ->
  group_answer_ok false (sequential_loop g st ask l e0).1.
Proof.
  intros Hn Hp. pose proof (fun i => perm_seq_elem l _ i Hp) as Hel.
  destruct (sequential_loop_spec l st e0) as [(l1 & i & l2 & v & -> & _ & E & ->)|(Hall & e & -> & Hlast)]; cbn.
  - split; [by destruct (member_answer_cases i) as [(?&?&?&?)|(?&?&?)]; congruence|].
    exists i. split; [|done]. apply Hel. set_solver.
  - split; [intros i Hi; by apply (proj1 (list.Forall_forall _ _) Hall), Hel|].
    destruct (last l) as [i|] eqn:El.
    + exists i. split; [apply Hel, last_Some_elem_of; done|done].
    + apply last_None in El as ->. apply Permutation_nil_l in Hp. destruct (dg_members g); [done|discriminate Hp].
Qed.

Lemma concat_ok_elem dn x : x ∈ concat (ok_values <$> dn) <-> exists i w, i ∈ dn /\ member_answer ask i = inl w /\ x ∈ w.
Proof.
  rewrite list_elem_of_In, in_concat. split.
  - intros (w & Hw & Hx). apply list_elem_of_In, list_elem_of_fmap in Hw as (i & -> & Hi).
    unfold ok_values in Hx. destruct (member_answer ask i) as [w|e] eqn:E; [|done].
    exists i, w. split_and!; [done|done|by apply list_elem_of_In].
  - intros (i & w & Hi & E & Hx). exists w. split; [|by apply list_elem_of_In].
    apply list_elem_of_In, list_elem_of_fmap. exists i. split; [unfold ok_values; by rewrite E|done].
Qed.

Lemma parallel_answer_ok collect_all l st0 p r : dg_members g <> 0%nat -> l ≡ₚ seq 0 (dg_members g) ->
  rtc (parallel_step g ask collect_all gather) (pending_start l st0) p -> pe_result p = Some r ->
  group_answer_ok collect_all r.
Proof.
  intros Hn Hp Hrun Hr. pose proof (fun i => perm_seq_elem l _ i Hp) as Hel.
  destruct (parallel_run_inv _ _ _ _ Hrun) as (dn & [Hperm _ _ Htk Hle]).
  unfold taken_ok in Htk. rewrite Hr in Htk.
  assert (Hdn : forall i, i ∈ dn -> (i < dg_members g)%nat) by (intros i Hi; apply Hel; rewrite Hperm; set_solver).
  destruct r as [v|e].
  - destruct collect_all; cbn.
    + destruct Htk as (Hq & Hf & Hg & Hne). rewrite Hq, Hf, !app_nil_r in Hperm.
      split; [|intros x; rewrite (gather_elem _ _ Hg), concat_ok_elem; setoid_rewrite <- Hel; by setoid_rewrite Hperm].
      intros ->. destruct (concat (ok_values <$> dn)) as [|x ?]; [done|].
      by apply (not_elem_of_nil x), (gather_elem _ _ Hg), list_elem_of_here.
    + destruct Htk as (i & Hi & E). split; [|exists i; auto].
      destruct (member_answer_cases i) as [(?&?&?&?)|(?&?&?)]; congruence.
  - destruct Htk as (Hq & Hf & -> & Hall). rewrite Hq, Hf, !app_nil_r in Hperm. cbn.
    split; [intros i Hi; apply (proj1 (list.Forall_forall _ _) Hall); rewrite <- Hperm; by apply Hel|].
    destruct Hle as [[_ Hnone]|(i & Hi & E)]; [|exists i; auto].
    destruct dn as [|i dn].
    + rewrite Hperm in Hp. apply Permutation_nil_l in Hp. destruct (dg_members g); [done|discriminate Hp].
    + apply Forall_cons in Hall as [? _], Hnone as [? _]. done.
Qed.

(** The strategies whose answer is the union of the members' answers. *)
Definition is_union (strategy : GroupStrategy) : bool := match strategy with GsAll => true | _ => false end.

Lemma group_resolve_ends st rng strategy : group_ok g st ->
  exists r st', resolve_with_strategy g st rng ask gather strategy r st'.
Proof.
  intros Hok. unfold resolve_with_strategy.
  destruct (dg_members g =? 0)%nat; [eauto|].
  assert (Hpar : forall b, exists r st', run_parallel g st rng ask b gather r st').
  { intros b. destruct (ordered_indices_perm g st rng GsAdaptive Hok) as (l & st0 & E & _ & _).
    destruct (parallel_ends b (pending_start l st0)) as (p & r & Hrun & Hr).
    exists r, (pe_state p), l, st0, p. done. }
  assert (Hseq : forall s, exists r st', run_sequential g st rng ask s = Ok (r, st')).
  { intros s. destruct (ordered_indices_perm g st rng s Hok) as (l & st0 & E & _ & _).
    unfold run_sequential. rewrite E. cbn [mbind outcome_bind].
    destruct (sequential_loop g st0 ask l DeEmpty) as [r st']. eauto. }
  destruct (default (dg_strategy g) strategy); auto.
Qed.

Lemma group_resolve_sound st rng strategy r st' : group_ok g st ->
  resolve_with_strategy g st rng ask gather strategy r st' ->
  group_answer_ok (is_union (default (dg_strategy g) strategy)) r.
Proof.
  intros Hok. unfold resolve_with_strategy. destruct Hok as [Hn Hlen].
  replace (dg_members g =? 0)%nat with false by (symmetry; by apply Nat.eqb_neq).
  assert (Hpar : forall b, run_parallel g st rng ask b gather r st' -> group_answer_ok b r).
  { intros b (l & st0 & p & E & Hrun & Hr & _).
    destruct (ordered_indices_perm g st rng GsAdaptive (conj Hn Hlen)) as (l' & st1 & E' & Hp & _).
    rewrite E in E'. injection E' as <- <-. by eapply parallel_answer_ok. }
  assert (Hseq : forall s, run_sequential g st rng ask s = Ok (r, st') -> group_answer_ok false r).
  { intros s Hs. destruct (ordered_indices_perm g st rng s (conj Hn Hlen)) as (l & st0 & E & Hp & _).
    unfold run_sequential in Hs. rewrite E in Hs. cbn [mbind outcome_bind] in Hs. injection Hs as Hs.
    pose proof (sequential_answer_ok st0 l DeEmpty Hn Hp) as Hg. by rewrite Hs in Hg. }
  destruct (default (dg_strategy g) strategy); eauto.
Qed.
End Answers.

(** [C26] A resolver group, whatever its strategy and whatever order its members answer in,
    ends with an answer exactly when some member has one: a query with [all] returns the
    union of the members' answers, any other strategy the answer of one of them, and an
    error is an error of a member after every member failed.  The run always ends, never
    with an empty answer. *)
Theorem group_answers_iff_member_does {A} (g : DnsGroup) (ask : Member (A := A))
    (gather : list A -> list A -> Prop) st rng strategy :
  (forall answers out, gather answers out -> forall x, x ∈ out <-> x ∈ answers) ->
  (forall answers, exists out, gather answers out) ->
  group_ok g st ->
  (exists r st', resolve_with_strategy g st rng ask gather strategy r st')
  /\ (forall r st', resolve_with_strategy g st rng ask gather strategy r st' ->
      group_answer_ok g ask (is_union (default (dg_strategy g) strategy)) r).
Proof.
  intros Hel Htot Hok. split; [by apply group_resolve_ends|]. intros r st'. by eapply group_resolve_sound.
Qed.

(** Asked one after the other, the members are tried in the order of the strategy, a
    permutation of them all: the first that has an answer gives it and the rest are not
    asked; the statistics change exactly for those asked. *)
Theorem group_sequential_order {A} (g : DnsGroup) (ask : Member (A := A)) st rng strategy :
  group_ok g st ->
  exists order st0 asked r, ordered_indices g st rng strategy = Ok (order, st0)
  /\ order ≡ₚ seq 0 (dg_members g)
  /\ run_sequential g st rng ask strategy = Ok (r, recorded g ask st0 asked)
  /\ match r with
     | inl v => exists failed i rest, order = failed ++ i :: rest /\ asked = failed ++ [i]
         /\ Forall (fails ask) failed /\ member_answer ask i = inl v
     | inr e => asked = order /\ Forall (fails ask) order /\ exists i, last order = Some i /\ member_answer ask i = inr e
     end.
Proof.
  intros Hok. destruct (ordered_indices_perm g st rng strategy Hok) as (l & st0 & E & Hp & _).
  unfold run_sequential. rewrite E. cbn [mbind outcome_bind].
  destruct (sequential_loop_spec g ask l st0 DeEmpty) as [(l1 & i & l2 & v & Hl & Hf & Ei & ->)|(Hall & e & -> & Hlast)].
  - exists l, st0, (l1 ++ [i]), (inl v). split_and!; try done. by exists l1, i, l2.
  - exists l, st0, l, (inr e). split_and!; try done. destruct (last l) as [i|] eqn:El; [by exists i|].
    apply last_None in El as ->. apply Permutation_nil_l in Hp. destruct Hok as [Hn _].
    destruct (dg_members g); [done|discriminate Hp].
Qed.
End GroupProofs.

(** ** Witnesses *)
Module DnsGroupWitness.

(** A generator that always draws the first index. *)
#[local] Instance lib : DnsGroupLib := {|
  shuffle _ l := rev l;
  shuffle_perm _ l := symmetry (Permutation_rev l);
  weighted_sample _ ws := match ws with [] => None | _ => Some 0%nat end;
  weighted_sample_lt := ltac:(intros _ [|w ws] i Hi; [discriminate|injection Hi as <-; cbn; lia])
|}.

Definition pair : DnsGroup * GroupState := DnsGroup_new "g" GsSequential 3.
(** The first member times out, the second answers. *)
Definition ask : Member (A := Z) := fun i =>
  match i with 0%nat => (None, 5000000) | 1%nat => (Some (inl [7]), 20) | _ => (Some (inl [8; 9]), 3) end.

Lemma ok : group_ok pair.1 pair.2.
Proof. split; [discriminate|reflexivity]. Qed.

Lemma group_sequential_order_witness :
  run_sequential pair.1 pair.2 id ask GsSequential = Ok (inl [7], recorded pair.1 ask pair.2 [0%nat; 1%nat])
  /\ exists order st0 asked r, ordered_indices pair.1 pair.2 id GsRandom = Ok (order, st0)
  /\ order ≡ₚ seq 0 3 /\ run_sequential pair.1 pair.2 id ask GsRandom = Ok (r, recorded pair.1 ask st0 asked).
Proof.
  split; [vm_compute; reflexivity|].
  destruct (group_sequential_order pair.1 ask pair.2 id GsRandom ok) as (o & st0 & a & r & ? & ? & ? & _).
  by exists o, st0, a, r.
Defined.

Lemma group_answers_iff_member_does_witness :
  (exists r st', resolve_with_strategy pair.1 pair.2 id ask hash_set_gather (Some GsAll) r st')
  /\ (forall r st', resolve_with_strategy pair.1 pair.2 id ask hash_set_gather (Some GsAll) r st' ->
       group_answer_ok pair.1 ask true r).
Proof.
  apply (group_answers_iff_member_does pair.1 ask hash_set_gather pair.2 id (Some GsAll)); [| |exact ok].
  - intros answers out [_ Hx]. exact Hx.
  - intros answers. exists (remove_dups answers). split; [apply NoDup_remove_dups|].
    intros x. apply elem_of_remove_dups.
Defined.
End DnsGroupWitness.
