(* ===== verification/DnsPolicy.v ===== *)
(** * DNS policy: actions, host matching, the reject throttle, the rule language

    Models [src/crates/core-resolver/src/policy.rs].  A rule set looked up by name is the
    function [RulesetView] (the index belongs to [core-ruleset]); text of CIDR networks is
    crate [ipnet]'s, the class [IpNetText].  A YAML value is [serde_yaml]'s data type, its
    debug text the class [YamlText].  Clock readings are arguments. *)

From stdpp Require Import base list gmap strings numbers option.
From S2P Require Import Prelude Text TextSplit Net DnsGroup.

(** ** Text of networks *)
Class IpNetText `{IpNetLib, NetText} := {
  net_parse : string -> option IpNet;
  (** an address with the full prefix length is a network *)
  net_parse_host : forall ip, ip_ok ip ->
    is_Some (net_parse (show_ip ip +:+ (if is_ipv4 ip then "/32" else "/128")))
}.

(** ** Actions *)
Inductive RejectMethod : Type := RejDefault | RejDrop.
#[global] Instance RejectMethod_eq_dec : EqDecision RejectMethod.
Proof. solve_decision. Defined.

Record RejectOptions : Type := mkRejectOptions { ro_method : RejectMethod; ro_no_drop : bool }.
Definition RejectOptions_default : RejectOptions := mkRejectOptions RejDefault false.

Inductive PreRcode : Type := NOERROR | FORMERR | SERVFAIL | NXDOMAIN | NOTIMP | REFUSED.

Definition PreRcode_parse (s : string) : option PreRcode :=
  let u := to_ascii_uppercase s in
  if decide (u ∈ ["NOERROR"; "SUCCESS"]) then Some NOERROR
  else if decide (u ∈ ["FORMERR"; "FORMAT_ERROR"]) then Some FORMERR
  else if decide (u ∈ ["SERVFAIL"; "SERVER_FAILURE"]) then Some SERVFAIL
  else if decide (u ∈ ["NXDOMAIN"; "NAME_ERROR"]) then Some NXDOMAIN
  else if decide (u ∈ ["NOTIMP"; "NOT_IMPLEMENTED"]) then Some NOTIMP
  else if decide (u = "REFUSED") then Some REFUSED
  else None.

Definition PreRcode_as_str (r : PreRcode) : string :=
  match r with
  | NOERROR => "NOERROR" | FORMERR => "FORMERR" | SERVFAIL => "SERVFAIL"
  | NXDOMAIN => "NXDOMAIN" | NOTIMP => "NOTIMP" | REFUSED => "REFUSED"
  end.

Record DnsRR : Type := mkDnsRR {
  rr_name : string;
  rr_class : string;
  rr_rtype : string;
  rr_data : string;
  rr_ttl : option Z
}.

Definition known_types : list string := ["A"; "AAAA"; "CNAME"; "TXT"; "PTR"; "MX"; "NS"; "SOA"].
Definition parse_u32 (s : string) : option Z := parse_uint 4294967295 s.

Section Text.
Context `{StrCase}.

Definition DnsRR_parse (s : string) : option DnsRR :=
  let line := str_trim s in
  if String.eqb line "" then None else
  let toks := List.filter nonempty (splitn_whitespace 5 line) in
  match toks with
  | t0 :: t1 :: t2 :: rest =>
    let upper0 := to_ascii_uppercase t0 in
    if decide (upper0 ∈ known_types) then
      Some (mkDnsRR (trim_end_char 46 t1) "IN" upper0 (join " " (t2 :: rest)) None)
    else
    let '(ttl, idx) := match parse_u32 t1 with Some n => (Some n, 2%nat) | None => (None, 1%nat) end in
    let idx := match toks !! idx with
               | Some t => if eq_ignore_ascii_case t "IN" then S idx else idx
               | None => idx
               end in
    if (length toks <=? idx + 1)%nat then None else
    Some (mkDnsRR (trim_end_char 46 t0) "IN" (to_ascii_uppercase (default "" (toks !! idx)))
            (join " " (drop (idx + 1) toks)) ttl)
  | _ => None
  end.
End Text.

Record PredefinedResponse : Type := mkPredefinedResponse {
  pr_rcode : option PreRcode;
  pr_answer : list DnsRR;
  pr_ns : list DnsRR;
  pr_extra : list DnsRR
}.
Definition PredefinedResponse_default : PredefinedResponse := mkPredefinedResponse None [] [] [].

Definition answer_ips `{StrCase, NetText} (p : PredefinedResponse) : list IpAddr :=
  omap (fun r => if decide (rr_rtype r ∈ ["A"; "AAAA"]) then parse_ip (str_trim (rr_data r)) else None)
    (pr_answer p).

Section Policy.
Context `{IpNetLib}.

Record QueryOptions : Type := mkQueryOptions {
  qo_disable_cache : bool;
  qo_disable_optimistic_cache : bool;
  qo_rewrite_ttl : option Z;
  qo_client_subnet : option IpNet;
  qo_strategy : option GroupStrategy
}.
Definition QueryOptions_default : QueryOptions := mkQueryOptions false false None None None.

Inductive DnsAction : Type :=
| DReject (o : RejectOptions)
| DAccept (ips : list IpAddr)
| DDirect (group : string)
| DProxy (group : string)
| DFake
| DRoute (server : string) (opts : QueryOptions)
| DEvaluate (server : string) (opts : QueryOptions)
| DRespond
| DPredefined (p : PredefinedResponse).

Definition is_terminal (a : DnsAction) : bool := match a with DEvaluate _ _ => false | _ => true end.

Inductive HostMatch : Type :=
| HDomain (d : string)
| HSuffix (s : string)
| HKeyword (k : string)
| HAny
| HSet (name : string)
| HResponseIpCidr (cidr : IpNet)
| HNot (m : HostMatch)
| HOr (l : list HostMatch)
| HAnd (l : list HostMatch).

Record PolicyRule : Type := mkPolicyRule {
  pl_matcher : HostMatch;
  pl_action : DnsAction;
  pl_source : string
}.

Record EvalContext : Type := mkEvalContext {
  ec_saved_response : option (list IpAddr);
  ec_saved_opts : option QueryOptions
}.
Definition EvalContext_default : EvalContext := mkEvalContext None None.

(** [RulesetIndex::get(name)] and [RulesetMatcher::matches(host, ip, None, None)] *)
Definition RulesetView : Type := string -> option (string -> option IpAddr -> bool).

(** ** Matching a host *)
Section Match.
Context `{StrCase}.

Definition matches_suffix (s host : string) : bool :=
  let s := to_lowercase (trim_start_char 46 s) in
  String.eqb host s || ends_with (str_bytes host) (str_bytes ("." +:+ s)).

Fixpoint matches (m : HostMatch) (host : string) (ctx : EvalContext) (idx : option RulesetView) : bool :=
  match m with
  | HAny => true
  | HDomain d => String.eqb host (to_lowercase d)
  | HSuffix s => matches_suffix s host
  | HKeyword k => str_contains host (to_lowercase k)
  | HSet name =>
    match idx with
    | Some i => match i name with Some rs => rs host None | None => false end
    | None => false
    end
  | HResponseIpCidr cidr =>
    match ec_saved_response ctx with
    | Some ips => existsb (net_contains cidr) ips
    | None => false
    end
  | HNot inner => negb (matches inner host ctx idx)
  | HOr list => existsb (fun m => matches m host ctx idx) list
  | HAnd list => forallb (fun m => matches m host ctx idx) list
  end.
End Match.

(** ** The reject throttle: per rule, the start of the window and the count *)
Record RejectThrottle : Type := mkRejectThrottle {
  rt_counts : gmap string (Z * Z);
  rt_window : Z;
  rt_threshold : Z
}.
Definition RejectThrottle_new (window threshold : Z) : RejectThrottle := mkRejectThrottle ∅ window threshold.
Definition RejectThrottle_default : RejectThrottle := RejectThrottle_new 30000 50.

Definition with_counts (t : RejectThrottle) (m : gmap string (Z * Z)) : RejectThrottle :=
  mkRejectThrottle m (rt_window t) (rt_threshold t).

Definition record_should_drop (t : RejectThrottle) (rule_source : string) (now : Z) : bool * RejectThrottle :=
  let '(start, count) := default (now, 0) (rt_counts t !! rule_source) in
  if rt_window t <? duration_since now start then
    (false, with_counts t (<[rule_source := (now, 1)]> (rt_counts t)))
  else
    let count := saturating_add 32 count 1 in
    (rt_threshold t <=? count, with_counts t (<[rule_source := (start, count)]> (rt_counts t))).

Definition throttle_reset (t : RejectThrottle) (rule_source : string) : RejectThrottle :=
  with_counts t (delete rule_source (rt_counts t)).

Definition apply_reject_throttle (t : RejectThrottle) (opts : RejectOptions) (rule_source : string) (now : Z)
  : RejectMethod * RejectThrottle :=
  if bool_decide (ro_method opts = RejDrop) || ro_no_drop opts then (ro_method opts, t) else
  let '(drop, t) := record_should_drop t rule_source now in
  (if drop then RejDrop else RejDefault, t).

(** ** The engine; its throttle is state and passed separately *)
Record PolicyEngine : Type := mkPolicyEngine {
  pe_rules : list PolicyRule;
  pe_ruleset_index : option RulesetView;
  pe_default_action : option DnsAction
}.
Definition PolicyEngine_new : PolicyEngine := mkPolicyEngine [] None None.
Definition with_default (e : PolicyEngine) (a : DnsAction) : PolicyEngine :=
  mkPolicyEngine (pe_rules e) (pe_ruleset_index e) (Some a).
Definition with_rulesets (e : PolicyEngine) (idx : RulesetView) : PolicyEngine :=
  mkPolicyEngine (pe_rules e) (Some idx) (pe_default_action e).
Definition policy_push (e : PolicyEngine) (r : PolicyRule) : PolicyEngine :=
  mkPolicyEngine (pe_rules e ++ [r]) (pe_ruleset_index e) (pe_default_action e).

Definition default_action (e : PolicyEngine) : DnsAction := default (DDirect "default") (pe_default_action e).

Fixpoint decide_rules `{StrCase} (rules : list PolicyRule) (host_lc : string) (idx : option RulesetView)
  : option DnsAction :=
  match rules with
  | [] => None
  | r :: rest =>
    if matches (pl_matcher r) host_lc EvalContext_default idx && is_terminal (pl_action r)
    then Some (pl_action r) else decide_rules rest host_lc idx
  end.

Definition policy_decide `{StrCase} (e : PolicyEngine) (host : string) : DnsAction :=
  let host_lc := to_lowercase (trim_end_char 46 host) in
  default (default_action e) (decide_rules (pe_rules e) host_lc (pe_ruleset_index e)).
End Policy.

(** ** The rule language [lhs -> rhs] *)
Section Dsl.
Context `{IpNetText} `{StrCase}.

Fixpoint parse_lhs_fuel (fuel : nat) (lhs : string) : option HostMatch :=
  let s := str_trim lhs in
  if decide (s ∈ ["any"; "*"; "final"; ""]) then Some HAny
  else if str_starts_with s "=" then Some (HDomain (str_from 1 s))
  else if str_starts_with s "*." then Some (HSuffix (str_from 2 s))
  else if str_starts_with s "~" then Some (HKeyword (str_from 1 s))
  else if str_starts_with s "domain:" then Some (HDomain (str_from 7 s))
  else if str_starts_with s "suffix:" then Some (HSuffix (str_from 7 s))
  else if str_starts_with s "keyword:" then Some (HKeyword (str_from 8 s))
  else if str_starts_with s "set:" then Some (HSet (str_from 4 s))
  else if str_starts_with s "geosite:" then Some (HSet (str_from 8 s))
  else if str_starts_with s "geoip:" then Some (HSet (str_from 6 s))
  else if str_starts_with s "ruleset:" then Some (HSet (str_from 8 s))
  else if str_starts_with s "match_response:" then HResponseIpCidr <$> net_parse (str_from 15 s)
  else if str_starts_with s "response:" then HResponseIpCidr <$> net_parse (str_from 9 s)
  else if str_starts_with s "not:" then
    match fuel with
    | O => None
    | S fuel' => HNot <$> parse_lhs_fuel fuel' (str_from 4 s)
    end
  else Some (HSuffix s).

(** Each [not:] takes four bytes of the trimmed text. *)
Definition parse_lhs (lhs : string) : option HostMatch := parse_lhs_fuel (length (str_bytes lhs)) lhs.

Definition host_net_text (ip : IpAddr) : string := show_ip ip +:+ (if is_ipv4 ip then "/32" else "/128").

Definition opts_with_cache (o : QueryOptions) : QueryOptions :=
  mkQueryOptions true (qo_disable_optimistic_cache o) (qo_rewrite_ttl o) (qo_client_subnet o) (qo_strategy o).
Definition opts_with_optimistic (o : QueryOptions) : QueryOptions :=
  mkQueryOptions (qo_disable_cache o) true (qo_rewrite_ttl o) (qo_client_subnet o) (qo_strategy o).
Definition opts_with_ttl (o : QueryOptions) (t : Z) : QueryOptions :=
  mkQueryOptions (qo_disable_cache o) (qo_disable_optimistic_cache o) (Some t) (qo_client_subnet o) (qo_strategy o).
Definition opts_with_subnet (o : QueryOptions) (n : IpNet) : QueryOptions :=
  mkQueryOptions (qo_disable_cache o) (qo_disable_optimistic_cache o) (qo_rewrite_ttl o) (Some n) (qo_strategy o).
Definition opts_with_strategy (o : QueryOptions) (s : option GroupStrategy) : QueryOptions :=
  mkQueryOptions (qo_disable_cache o) (qo_disable_optimistic_cache o) (qo_rewrite_ttl o) (qo_client_subnet o) s.

Definition parse_opt (o : QueryOptions) (part : string) : QueryOptions :=
  let part := str_trim part in
  if decide (part = "") then o
  else if decide (part ∈ ["nocache"; "no-cache"; "disable_cache"]) then opts_with_cache o
  else if decide (part ∈ ["nooptcache"; "no-optimistic"; "disable_optimistic_cache"]) then opts_with_optimistic o
  else if str_starts_with part "ttl=" then
    match parse_u32 (str_from 4 part) with Some t => opts_with_ttl o t | None => o end
  else if str_starts_with part "ecs=" || str_starts_with part "client_subnet=" then
    let v := match str_split_once 61 part with Some (_, b) => b | None => "" end in
    match net_parse v with
    | Some n => opts_with_subnet o n
    | None =>
      match parse_ip v with
      | Some ip => match net_parse (host_net_text ip) with Some n => opts_with_subnet o n | None => o end
      | None => o
      end
    end
  else if str_starts_with part "strategy=" then
    opts_with_strategy o ('(_, value) ← str_split_once 61 part; GroupStrategy_parse value)
  else o.

Definition parse_opts (s : string) : QueryOptions := foldl parse_opt QueryOptions_default (str_split 44 s).

Definition parse_reject_part (ro : RejectOptions) (kv : string) : RejectOptions :=
  let kv := str_trim kv in
  if decide (kv ∈ ["no_drop"; "no-drop"]) then mkRejectOptions (ro_method ro) true
  else match str_strip_prefix "method=" kv with
       | Some v =>
         let v := to_ascii_lowercase v in
         if decide (v = "drop") then mkRejectOptions RejDrop (ro_no_drop ro)
         else if decide (v ∈ ["default"; ""]) then mkRejectOptions RejDefault (ro_no_drop ro)
         else ro
       | None => ro
       end.

Definition is_reject_sep (c : Z) : bool := (c =? 63) || (c =? 44) || (c =? 38).

Definition parse_predefined_first (f : string) : PredefinedResponse :=
  let f := str_trim f in
  if String.eqb f "" then PredefinedResponse_default else
  match PreRcode_parse f with
  | Some c => mkPredefinedResponse (Some c) [] [] []
  | None => match DnsRR_parse f with
            | Some rr => mkPredefinedResponse None [rr] [] []
            | None => PredefinedResponse_default
            end
  end.

Definition parse_predefined_part (pre : PredefinedResponse) (p : string) : PredefinedResponse :=
  let p := str_trim p in
  if String.eqb p "" then pre else
  match str_strip_prefix "ns:" p with
  | Some s => match DnsRR_parse (str_trim s) with
              | Some rr => mkPredefinedResponse (pr_rcode pre) (pr_answer pre) (pr_ns pre ++ [rr]) (pr_extra pre)
              | None => pre
              end
  | None =>
    match str_strip_prefix "extra:" p with
    | Some s => match DnsRR_parse (str_trim s) with
                | Some rr => mkPredefinedResponse (pr_rcode pre) (pr_answer pre) (pr_ns pre) (pr_extra pre ++ [rr])
                | None => pre
                end
    | None => match DnsRR_parse p with
              | Some rr => mkPredefinedResponse (pr_rcode pre) (pr_answer pre ++ [rr]) (pr_ns pre) (pr_extra pre)
              | None => pre
              end
    end
  end.

Definition parse_predefined (rest : string) : PredefinedResponse :=
  match str_split 59 (trim_start_char 58 rest) with
  | [] => PredefinedResponse_default
  | first :: parts => foldl parse_predefined_part (parse_predefined_first first) parts
  end.

Definition predefined_rcode (c : PreRcode) : DnsAction := DPredefined (mkPredefinedResponse (Some c) [] [] []).

Definition short_action (head : string) : option DnsAction :=
  if decide (head = "fake") then Some DFake
  else if decide (head = "respond") then Some DRespond
  else if decide (head = "drop") then Some (DReject (mkRejectOptions RejDrop false))
  else if decide (head ∈ ["refuse"; "refused"]) then Some (DReject RejectOptions_default)
  else if decide (head = "nxdomain") then Some (predefined_rcode NXDOMAIN)
  else if decide (head ∈ ["noerror"; "empty"; "null"]) then Some (predefined_rcode NOERROR)
  else if decide (head = "servfail") then Some (predefined_rcode SERVFAIL)
  else if decide (head = "formerr") then Some (predefined_rcode FORMERR)
  else if decide (head = "notimp") then Some (predefined_rcode NOTIMP)
  else None.

Definition parse_ips (s : string) : list IpAddr := omap (fun p => parse_ip (str_trim p)) (str_split 44 s).

Definition parse_group_action (head : string) (opts : QueryOptions) : option DnsAction :=
  if str_starts_with head "accept:" then
    match parse_ips (str_from 7 head) with [] => None | ips => Some (DAccept ips) end
  else if str_starts_with head "direct:" then Some (DDirect (str_from 7 head))
  else if str_starts_with head "proxy:" then Some (DProxy (str_from 6 head))
  else if str_starts_with head "evaluate:" then Some (DEvaluate (str_from 9 head) opts)
  else if str_starts_with head "route:" then Some (DRoute (str_from 6 head) opts)
  else if decide (head = "direct") then Some (DDirect "default")
  else if decide (head = "proxy") then Some (DProxy "default")
  else Some (DProxy head).

Definition parse_rhs (rhs : string) : option DnsAction :=
  let '(head, opts) := match str_split_once 63 rhs with
                       | Some (a, b) => (a, parse_opts b)
                       | None => (rhs, QueryOptions_default)
                       end in
  let head := str_trim head in
  if decide (head ∈ ["reject"; "block"]) then
    Some (DReject (foldl parse_reject_part RejectOptions_default (drop 1 (str_split_any is_reject_sep rhs))))
  else
  match str_strip_prefix "predefined" head with
  | Some rest => Some (DPredefined (parse_predefined rest))
  | None =>
    match short_action head with
    | Some a => Some a
    | None =>
      let hosts := match str_strip_prefix "hosts:" head with
                   | Some rest => Some rest
                   | None => str_strip_prefix "ip:" head
                   end in
      match hosts with
      | Some rest => match parse_ips rest with
                     | [] => parse_group_action head opts
                     | ips => Some (DAccept ips)
                     end
      | None => parse_group_action head opts
      end
    end
  end.

Definition parse_rule_line (line : string) : option PolicyRule :=
  let s := str_trim line in
  if String.eqb s "" || str_starts_with s "#" then None else
  '(lhs, rhs) ← str_split_once_str "->" s;
  matcher ← parse_lhs (str_trim lhs);
  action ← parse_rhs (str_trim rhs);
  Some (mkPolicyRule matcher action line).
End Dsl.

(** ** Rules as YAML: a string in the rule language or a mapping *)
Inductive Yaml : Type :=
| YNull
| YBool (b : bool)
| YNumber (as_u64 : option Z)
| YString (s : string)
| YSequence (l : list Yaml)
| YMapping (l : list (Yaml * Yaml))
| YTagged (tag : string) (v : Yaml).

(** [Value::as_str] and the like look through tags. *)
Fixpoint untag (v : Yaml) : Yaml := match v with YTagged _ v => untag v | _ => v end.
Definition as_str (v : Yaml) : option string := match untag v with YString s => Some s | _ => None end.
Definition as_bool (v : Yaml) : option bool := match untag v with YBool b => Some b | _ => None end.
Definition as_u64 (v : Yaml) : option Z := match untag v with YNumber n => n | _ => None end.
Definition as_sequence (v : Yaml) : option (list Yaml) := match untag v with YSequence l => Some l | _ => None end.
Definition as_mapping (v : Yaml) : option (list (Yaml * Yaml)) := match untag v with YMapping l => Some l | _ => None end.

(** [mapping.get(Value::String(k))] *)
Fixpoint mapping_get (m : list (Yaml * Yaml)) (k : string) : option Yaml :=
  match m with
  | [] => None
  | (YString k', v) :: rest => if String.eqb k' k then Some v else mapping_get rest k
  | _ :: rest => mapping_get rest k
  end.

(** [format!("{v:?}")] *)
Class YamlText := { yaml_debug : Yaml -> string }.

Section YamlRules.
Context `{IpNetText} `{StrCase} `{YamlText}.

Definition get_str (m : list (Yaml * Yaml)) (k : string) : option string := v ← mapping_get m k; as_str v.
Definition get_bool (m : list (Yaml * Yaml)) (k : string) : bool := default false (v ← mapping_get m k; as_bool v).
Definition get_u64 (m : list (Yaml * Yaml)) (k : string) : option Z := v ← mapping_get m k; as_u64 v.
Definition get_seq (m : list (Yaml * Yaml)) (k : string) : option (list string) :=
  match mapping_get m k with
  | Some v => (fun l : list Yaml => omap as_str l) <$> as_sequence v
  | None => None
  end.

(** [a.or_else(|| b)] over keys *)
Fixpoint get_first_str (m : list (Yaml * Yaml)) (ks : list string) : option string :=
  match ks with
  | [] => None
  | k :: rest => match get_str m k with Some s => Some s | None => get_first_str m rest end
  end.

Definition parse_value_matcher (m : list (Yaml * Yaml)) : option HostMatch :=
  match get_str m "match" with
  | Some s => parse_lhs s
  | None =>
    match get_str m "domain" with
    | Some s => Some (HDomain s)
    | None =>
      match get_first_str m ["suffix"; "host"] with
      | Some s => Some (HSuffix s)
      | None =>
        match get_str m "keyword" with
        | Some s => Some (HKeyword s)
        | None =>
          match get_first_str m ["set"; "geosite"; "geoip"; "ruleset"] with
          | Some s => Some (HSet s)
          | None =>
            match get_first_str m ["match_response"; "response"] with
            | Some s => HResponseIpCidr <$> net_parse s
            | None => Some HAny
            end
          end
        end
      end
    end
  end.

(** The inner [None] is a value that is no network; the outer [Panic] the [unwrap]. *)
Definition value_subnet (s : string) : outcome (option IpNet) :=
  match net_parse s with
  | Some n => Ok (Some n)
  | None =>
    match parse_ip s with
    | Some ip => n ← expect (net_parse (host_net_text ip)); Ok (Some n)
    | None => Ok None
    end
  end.

Definition value_opts_subnet (m : list (Yaml * Yaml)) : outcome (option IpNet) :=
  match get_first_str m ["client_subnet"; "ecs"] with
  | Some s => value_subnet s
  | None => Ok None
  end.

(** [n as u32] wraps. *)
Definition value_opts (m : list (Yaml * Yaml)) (subnet : option IpNet) (strategy : option GroupStrategy)
  : QueryOptions :=
  mkQueryOptions
    (get_bool m "no_cache" || get_bool m "disable_cache" || get_bool m "nocache")
    (get_bool m "no_optimistic_cache" || get_bool m "disable_optimistic_cache" || get_bool m "nooptcache")
    ((fun n => n mod 2 ^ 32) <$> get_u64 m "ttl")
    subnet strategy.

(** The first of [accept], [hosts], [ips] that holds an address. *)
Fixpoint value_accept (m : list (Yaml * Yaml)) (ks : list string) : option (list IpAddr) :=
  match ks with
  | [] => None
  | k :: rest =>
    let from_seq := match get_seq m k with Some l => omap parse_ip l | None => [] end in
    match from_seq with
    | _ :: _ => Some from_seq
    | [] =>
      match (match get_str m k with Some s => parse_ips s | None => [] end) with
      | [] => value_accept m rest
      | ips => Some ips
      end
    end
  end.

Definition rcode_keys : list (string * PreRcode) :=
  [("nxdomain", NXDOMAIN); ("noerror", NOERROR); ("servfail", SERVFAIL); ("formerr", FORMERR); ("notimp", NOTIMP)].

Definition value_group (m : list (Yaml * Yaml)) (opts : QueryOptions) : option DnsAction :=
  match get_str m "evaluate" with
  | Some g => Some (DEvaluate g opts)
  | None => (fun g => DRoute g opts) <$> get_first_str m ["route"; "direct"; "proxy"]
  end.

Definition value_action (m : list (Yaml * Yaml)) (opts : QueryOptions) : option DnsAction :=
  if get_bool m "drop" then Some (DReject (mkRejectOptions RejDrop (get_bool m "no_drop")))
  else if get_bool m "reject" || get_bool m "refuse" then
    Some (DReject (mkRejectOptions (if decide (get_str m "method" = Some "drop") then RejDrop else RejDefault)
                     (get_bool m "no_drop")))
  else
  match List.find (fun kc => get_bool m kc.1) rcode_keys with
  | Some (_, c) => Some (predefined_rcode c)
  | None =>
    match value_accept m ["accept"; "hosts"; "ips"] with
    | Some ips => Some (DAccept ips)
    | None =>
      if get_bool m "fake" then Some DFake
      else if get_bool m "respond" then Some DRespond
      else value_group m opts
    end
  end.

Definition parse_rule_value (v : Yaml) : outcome (option PolicyRule) :=
  match as_str v with
  | Some s => Ok (parse_rule_line s)
  | None =>
    match as_mapping v with
    | None => Ok None
    | Some m =>
      match parse_value_matcher m with
      | None => Ok None
      | Some matcher =>
        match (match get_str m "strategy" with
               | Some value => Some <$> GroupStrategy_parse value
               | None => Some None
               end) with
        | None => Ok None
        | Some strategy =>
          subnet ← value_opts_subnet m;
          Ok ((fun a => mkPolicyRule matcher a (yaml_debug v)) <$> value_action m (value_opts m subnet strategy))
        end
      end
    end
  end.

Definition push_value (e : PolicyEngine) (v : Yaml) : outcome (option PolicyEngine) :=
  r ← parse_rule_value v;
  Ok (option_map (policy_push e) r).
End YamlRules.

(** ** The throttle counts the rejects of a window *)
Definition throttle_run (t : RejectThrottle) (evs : list (string * Z)) : RejectThrottle :=
  foldl (fun t ev => (record_should_drop t ev.1 ev.2).2) t evs.

(** The instants at which the rule [src] rejected. *)
Definition rejects_of (src : string) (evs : list (string * Z)) : list Z :=
  snd <$> List.filter (fun ev => String.eqb ev.1 src) evs.

Lemma throttle_params t src now :
  rt_window (record_should_drop t src now).2 = rt_window t
  /\ rt_threshold (record_should_drop t src now).2 = rt_threshold t.
Proof.
  unfold record_should_drop. destruct (default (now, 0) (rt_counts t !! src)) as [start count].
  by destruct (rt_window t <? duration_since now start).
Qed.

Lemma throttle_other t src src' now : src' <> src ->
  rt_counts (record_should_drop t src' now).2 !! src = rt_counts t !! src.
Proof.
  intros Hne. unfold record_should_drop. destruct (default (now, 0) (rt_counts t !! src')) as [start count].
  destruct (rt_window t <? duration_since now start); cbn; by rewrite lookup_insert_ne.
Qed.

Lemma rejects_of_cons src src' now evs :
  rejects_of src ((src', now) :: evs) = if String.eqb src' src then now :: rejects_of src evs else rejects_of src evs.
Proof. unfold rejects_of. cbn. by destruct (String.eqb src' src). Qed.

Lemma throttle_run_params evs : forall t,
  rt_window (throttle_run t evs) = rt_window t /\ rt_threshold (throttle_run t evs) = rt_threshold t.
Proof.
  induction evs as [|ev evs IH]; intros t; [done|].
  change (throttle_run t (ev :: evs)) with (throttle_run (record_should_drop t ev.1 ev.2).2 evs).
  destruct (IH (record_should_drop t ev.1 ev.2).2) as [-> ->]. apply throttle_params.
Qed.

Lemma throttle_run_quiet src evs : forall t,
  rejects_of src evs = [] -> rt_counts (throttle_run t evs) !! src = rt_counts t !! src.
Proof.
  induction evs as [|[src' now] evs IH]; intros t Hq; [done|].
  change (throttle_run t ((src', now) :: evs)) with (throttle_run (record_should_drop t src' now).2 evs).
  rewrite rejects_of_cons in Hq. destruct (String.eqb_spec src' src) as [->|Hne]; [discriminate Hq|].
  rewrite IH by done. by apply throttle_other.
Qed.

(** A further reject inside the window that began at [t0]. *)
Lemma throttle_within t src t0 count now :
  rt_counts t !! src = Some (t0, count) \/ (rt_counts t !! src = None /\ t0 = now /\ count = 0) ->
  duration_since now t0 <= rt_window t -> count + 1 < 2 ^ 32 ->
  (record_should_drop t src now).1 = (rt_threshold t <=? count + 1)
  /\ rt_counts (record_should_drop t src now).2 !! src = Some (t0, count + 1).
Proof.
  intros Hentry Hw Hc. unfold record_should_drop.
  assert (default (now, 0) (rt_counts t !! src) = (t0, count)) as ->
    by (destruct Hentry as [->|(-> & -> & ->)]; done).
  rewrite (proj2 (Z.ltb_ge _ _)) by lia. cbn. rewrite lookup_insert_eq.
  unfold saturating_add. rewrite Z.min_l by lia. done.
Qed.

Lemma throttle_run_entry src t0 evs : forall t count,
  (rt_counts t !! src = Some (t0, count) \/ (rt_counts t !! src = None /\ count = 0 /\ head (rejects_of src evs) = Some t0)) ->
  Forall (fun now => duration_since now t0 <= rt_window t) (rejects_of src evs) ->
  0 <= count -> count + len (rejects_of src evs) < 2 ^ 32 ->
  rt_counts (throttle_run t evs) !! src = Some (t0, count + len (rejects_of src evs)).
Proof.
  induction evs as [|[src' now] evs IH]; intros t count He Hw Hc0 Hc.
  { destruct He as [He|(_ & _ & He)]; [|done]. cbn. unfold len. cbn. by rewrite Z.add_0_r. }
  change (throttle_run t ((src', now) :: evs)) with (throttle_run (record_should_drop t src' now).2 evs).
  rewrite rejects_of_cons in *. pose proof (throttle_params t src' now) as [Pw Pt].
  pose proof (Zle_0_nat (length (rejects_of src evs))). unfold len in *.
  destruct (String.eqb_spec src' src) as [->|Hne].
  - pose proof (Forall_inv Hw) as Hw0. apply Forall_inv_tail in Hw. cbn [length head] in *.
    destruct (throttle_within t src t0 count now) as [_ Hnext]; [naive_solver|done|lia|].
    rewrite (IH (record_should_drop t src now).2 (count + 1)); [do 2 f_equal; lia|by left|by rewrite Pw|lia|lia].
  - apply IH; [by rewrite throttle_other|by rewrite Pw|done|done].
Qed.

(** The reject throttle: whatever other rules do in between, the next reject of a rule
    is dropped exactly when it is at least the [threshold]-th since the window of that rule
    began; a reject after the window is answered and opens a new window at one. *)
Theorem reject_throttle_counts t src evs t0 now :
  rt_counts t !! src = None -> head (rejects_of src (evs ++ [(src, now)])) = Some t0 ->
  Forall (fun now => duration_since now t0 <= rt_window t) (rejects_of src evs) ->
  len (rejects_of src evs) + 1 < 2 ^ 32 -> 0 <= rt_window t ->
  let '(drop, t') := record_should_drop (throttle_run t evs) src now in
  if duration_since now t0 <=? rt_window t
  then drop = (rt_threshold t <=? len (rejects_of src evs) + 1)
       /\ rt_counts t' !! src = Some (t0, len (rejects_of src evs) + 1)
  else drop = false /\ rt_counts t' !! src = Some (now, 1).
Proof.
  intros Hn Hh Hw Hc Hw0. pose proof (Zle_0_nat (length (rejects_of src evs))).
  destruct (throttle_run_params evs t) as [Pw Pt].
  assert (Hst : rt_counts (throttle_run t evs) !! src = Some (t0, len (rejects_of src evs))
                \/ (rt_counts (throttle_run t evs) !! src = None /\ t0 = now /\ len (rejects_of src evs) = 0)).
  { assert (Ha : rejects_of src (evs ++ [(src, now)]) = rejects_of src evs ++ [now]).
    { unfold rejects_of. rewrite filter_app, fmap_app. cbn. by rewrite String.eqb_refl. }
    rewrite Ha in Hh. destruct (rejects_of src evs) as [|t1 ts] eqn:Er.
    - right. injection Hh as <-. by rewrite throttle_run_quiet.
    - left. rewrite (throttle_run_entry src t0 evs t 0), Er; [done| |by rewrite Er|lia|rewrite Er; lia].
      right. rewrite Er. done. }
  destruct (Z.leb_spec (duration_since now t0) (rt_window t)) as [Hin|Hout].
  - destruct (throttle_within (throttle_run t evs) src t0 (len (rejects_of src evs)) now Hst) as [E1 E2];
      [by rewrite Pw|done|].
    rewrite Pt in E1. by destruct (record_should_drop (throttle_run t evs) src now) as [d t'].
  - destruct Hst as [Hst|(_ & -> & _)]; [|unfold duration_since in Hout; lia].
    unfold record_should_drop. rewrite Hst. cbn. rewrite Pw, (proj2 (Z.ltb_lt _ _)) by lia.
    cbn. by rewrite lookup_insert_eq.
Qed.

(** ** The rule language *)
Section DslProofs.
Context `{IpNetText} `{StrCase}.

Lemma str_split_once_app s s' : 63 ∉ str_bytes s -> str_split_once 63 (s +:+ "?" +:+ s') = Some (s, s').
Proof. by apply str_split_once_sep. Qed.

Lemma starts_with_prefix p l : starts_with (p ++ l) p = true.
Proof. apply starts_with_spec. by exists l. Qed.

Lemma str_starts_with_app p s : str_starts_with (p +:+ s) p = true.
Proof. unfold str_starts_with. rewrite str_bytes_app. apply starts_with_prefix. Qed.

Lemma str_from_app p s : str_from (length (str_bytes p)) (p +:+ s) = s.
Proof. unfold str_from. rewrite str_bytes_app, drop_app_length. apply str_of_str_bytes. Qed.

(** [parse_lhs] is the recursion of the source: the bound on its depth is never reached,
    since trimming does not lengthen a text. *)
Lemma parse_lhs_fuel_mono : (forall s, (length (str_bytes (str_trim s)) <= length (str_bytes s))%nat) ->
  forall f1 f2 s, (length (str_bytes s) <= f1)%nat -> (length (str_bytes s) <= f2)%nat ->
  parse_lhs_fuel f1 s = parse_lhs_fuel f2 s.
Proof.
  intros Htrim f1. induction f1 as [|f1 IH]; intros f2 s L1 L2; pose proof (Htrim s) as Hs.
  - assert (str_bytes (str_trim s) = []) as Hb by (apply length_zero_iff_nil; lia).
    assert (str_trim s = "") as Ht by (rewrite <- (str_of_str_bytes (str_trim s)), Hb; done).
    destruct f2; cbn; rewrite Ht; done.
  - destruct f2 as [|f2].
    { assert (str_bytes (str_trim s) = []) as Hb by (apply length_zero_iff_nil; lia).
      assert (str_trim s = "") as Ht by (rewrite <- (str_of_str_bytes (str_trim s)), Hb; done).
      cbn; rewrite Ht; done. }
    cbn [parse_lhs_fuel]. destruct (decide (str_trim s ∈ _)); [reflexivity|].
    do 12 (destruct (str_starts_with (str_trim s) _); [reflexivity|]).
    destruct (str_starts_with (str_trim s) "not:") eqn:En; [|reflexivity].
    f_equal. assert (str_bytes (str_trim s) <> []) by (intros Hb; unfold str_starts_with in En; by rewrite Hb in En).
    assert (Hl : (length (str_bytes (str_from 4 (str_trim s))) <= length (str_bytes (str_trim s)) - 4)%nat).
    { unfold str_from. rewrite str_bytes_of_bytes; [by rewrite length_drop|]. apply Forall_drop, str_bytes_ok. }
    destruct (str_bytes (str_trim s)); [done|]. cbn in *. apply IH; lia.
Qed.

(** The options written after a [direct:GROUP] action have no effect: every such text is
    the plain action, while the same options after [route:GROUP] and in a mapping with the
    key [direct] are kept. *)
Theorem direct_action_drops_options group o :
  63 ∉ str_bytes group -> (forall pre, pre ∈ ["direct:"; "route:"] -> str_trim (pre +:+ group) = pre +:+ group) ->
  parse_rhs ("direct:" +:+ group +:+ "?" +:+ o) = Some (DDirect group)
  /\ parse_rhs ("route:" +:+ group +:+ "?" +:+ o) = Some (DRoute group (parse_opts o)).
Proof.
  intros Hg Htrim.
  assert (Hsplit : forall pre, 63 ∉ str_bytes pre ->
    str_split_once 63 (pre +:+ group +:+ "?" +:+ o) = Some (pre +:+ group, o)).
  { intros pre Hpre. rewrite str_app_assoc. apply str_split_once_app. rewrite str_bytes_app, elem_of_app. tauto. }
  split; unfold parse_rhs; rewrite Hsplit by (vm_compute; set_solver); rewrite Htrim by set_solver;
    generalize (parse_opts o); intros opts.
  - change (Some (DDirect (str_from 7 ("direct:" +:+ group))) = Some (DDirect group)).
    by rewrite (str_from_app "direct:").
  - change (Some (DRoute (str_from 6 ("route:" +:+ group)) opts) = Some (DRoute group opts)).
    by rewrite (str_from_app "route:").
Qed.

(** Reading a rule from YAML never panics: the [unwrap] on the network of a single
    address is reached only with the text of an address. *)
Theorem dns_rule_value_no_panic `{YamlText} v : no_panic (parse_rule_value v).
Proof.
  assert (Hip : forall s ip, parse_ip s = Some ip -> ip_ok ip).
  { intros s ip. unfold parse_ip. destruct (parse_ipv4 s) as [a|] eqn:E4.
    - intros [= <-]. by apply parse_ipv4_range in E4.
    - destruct (parse_ipv6 s) as [a|] eqn:E6; [|done]. intros [= <-]. by apply parse_ipv6_range in E6. }
  assert (Hsub : forall m, exists n, value_opts_subnet m = Ok n).
  { intros m. unfold value_opts_subnet. destruct (get_first_str m _) as [s|]; [|by exists None].
    unfold value_subnet. destruct (net_parse s) as [n|]; [by exists (Some n)|].
    destruct (parse_ip s) as [ip|] eqn:E; [|by exists None].
    destruct (net_parse_host ip (Hip s ip E)) as [n Hn]. unfold host_net_text. rewrite Hn. by exists (Some n). }
  unfold no_panic, parse_rule_value. destruct (as_str v); [done|]. destruct (as_mapping v) as [m|]; [|done].
  destruct (parse_value_matcher m); [|done].
  destruct (match get_str m "strategy" with Some _ => _ | None => _ end); [|done].
  destruct (Hsub m) as [n ->]. done.
Qed.
End DslProofs.
