(* ===== verification/DnsInstances.v ===== *)
(** * Concrete instances for the resolver files

    CIDR texts of both families and a debug text of YAML values, with which the witnesses
    of the resolver's files evaluate; they satisfy the laws of [IpNetText]. *)

From stdpp Require Import base list gmap strings numbers option.
From S2P Require Import Prelude Text Net Instances DnsGroup DnsPolicy.
Import Concrete.

(** The text before and after the last slash. *)
Fixpoint split_last (c : Z) (l : list Z) : option (list Z * list Z) :=
  match l with
  | [] => None
  | x :: l' =>
    match split_last c l' with
    | Some (a, b) => Some (x :: a, b)
    | None => if x =? c then Some ([], l') else None
    end
  end.

Lemma split_last_none c l : c ∉ l -> split_last c l = None.
Proof.
  induction l as [|x l IH]; intros Hn; [done|]. cbn. rewrite IH by (intros ?; apply Hn; by right).
  by rewrite (proj2 (Z.eqb_neq x c)) by (intros ->; apply Hn; left).
Qed.

Lemma split_last_app c a b : c ∉ b -> split_last c (a ++ c :: b) = Some (a, b).
Proof.
  intros Hb. induction a as [|x a IH]; cbn; [by rewrite split_last_none, Z.eqb_refl|]. by rewrite IH.
Qed.

Definition cidr_of (ip : IpAddr) (bits : Z) : option IpNet :=
  match ip with
  | V4 a => (@Net4 cidr_nets) <$> mk_cidr 32 (a / 2 ^ (32 - bits)) (32 - bits)
  | V6 a => (@Net6 cidr_nets) <$> mk_cidr 128 (a / 2 ^ (128 - bits)) (128 - bits)
  end.

Definition parse_net (s : string) : option IpNet :=
  '(a, b) ← split_last 47 (str_bytes s);
  ip ← parse_ip (str_of_bytes a);
  bits ← parse_u8 (str_of_bytes b);
  cidr_of ip bits.

Lemma mk_cidr_host w a : 0 <= a < 2 ^ w -> is_Some (mk_cidr w a 0).
Proof.
  intros Ha. unfold mk_cidr. destruct (Sumbool.sumbool_of_bool _) as [E|E]; [by eexists|].
  exfalso. rewrite Z.pow_0_r, Z.mul_1_r in E.
  rewrite !andb_false_iff in E. lia.
Qed.

#[export] Instance ip_net_text : IpNetText.
Proof.
  refine {| net_parse := parse_net |}. intros ip Hip. unfold parse_net.
  assert (Hs : forall suffix, 47 ∉ str_bytes suffix ->
    split_last 47 (str_bytes (show_ip ip +:+ ("/" +:+ suffix))) = Some (str_bytes (show_ip ip), str_bytes suffix)).
  { intros suffix Hn. rewrite str_bytes_app, (str_bytes_app "/"). by apply split_last_app. }
  destruct ip as [a|a].
  - change (if is_ipv4 (V4 a) then "/32" else "/128") with ("/" +:+ "32"). rewrite (Hs "32") by (apply (bool_decide_unpack _); vm_compute; exact I). cbn [mbind option_bind].
    rewrite !str_of_str_bytes, parse_show_ip by done.
    change (parse_u8 "32") with (Some 32). cbn [mbind option_bind].
    unfold cidr_of. change (32 - 32) with 0. rewrite Z.pow_0_r, Z.div_1_r.
    destruct (mk_cidr_host 32 a Hip) as [n ->]. by eexists.
  - change (if is_ipv4 (V6 a) then "/32" else "/128") with ("/" +:+ "128"). rewrite (Hs "128") by (apply (bool_decide_unpack _); vm_compute; exact I). cbn [mbind option_bind].
    rewrite !str_of_str_bytes, parse_show_ip by done.
    change (parse_u8 "128") with (Some 128). cbn [mbind option_bind].
    unfold cidr_of. change (128 - 128) with 0. rewrite Z.pow_0_r, Z.div_1_r.
    destruct (mk_cidr_host 128 a Hip) as [n ->]. by eexists.
Defined.

#[export] Instance yaml_text : YamlText := {| yaml_debug _ := "yaml" |}.

Lemma ascii_lower_idem s : to_lowercase (to_lowercase s) = to_lowercase s.
Proof.
  cbn [to_lowercase ascii_case]. f_equal. rewrite str_bytes_of_bytes.
  - rewrite <- list_fmap_compose. apply list_fmap_ext. intros i c _. cbn. unfold in_range.
    destruct ((65 <=? c) && (c <=? 90)) eqn:E; [|by rewrite E].
    replace ((65 <=? c + 32) && (c + 32 <=? 90)) with false; [done|]. symmetry. apply andb_false_iff. lia.
  - apply list.Forall_forall. intros x Hx. apply list_elem_of_fmap in Hx as (c & -> & Hc).
    pose proof (str_bytes_ok s) as Hok. rewrite list.Forall_forall in Hok. specialize (Hok c Hc).
    unfold in_range, uint in *. destruct ((65 <=? c) && (c <=? 90)) eqn:E; [|done].
    apply andb_prop in E. change (2 ^ 8) with 256 in *. lia.
Qed.

(** ** Witnesses of the policy theorems *)
Module DnsPolicyWitness.

Definition throttle : RejectThrottle := RejectThrottle_new 30000 3.
Definition before : list (string * Z) := [("r", 100); ("other", 150); ("r", 200)].

Lemma reject_throttle_counts_witness :
  (record_should_drop (throttle_run throttle before) "r" 300).1 = true
  /\ let '(drop, t') := record_should_drop (throttle_run throttle before) "r" 300 in
     if duration_since 300 100 <=? rt_window throttle
     then drop = (rt_threshold throttle <=? len (rejects_of "r" before) + 1)
          /\ rt_counts t' !! "r" = Some (100, len (rejects_of "r" before) + 1)
     else drop = false /\ rt_counts t' !! "r" = Some (300, 1).
Proof.
  split; [vm_compute; reflexivity|].
  apply (reject_throttle_counts throttle "r" before 100 300); try (vm_compute; reflexivity).
  - repeat constructor; vm_compute; discriminate.
  - vm_compute. discriminate.
Defined.

Lemma direct_action_drops_options_witness :
  parse_rhs ("direct:" +:+ "cn-dns" +:+ "?" +:+ "ecs=1.2.3.0/24,ttl=60") = Some (DDirect "cn-dns")
  /\ parse_rhs ("route:" +:+ "cn-dns" +:+ "?" +:+ "ecs=1.2.3.0/24,ttl=60")
     = Some (DRoute "cn-dns" (parse_opts "ecs=1.2.3.0/24,ttl=60")).
Proof.
  apply (direct_action_drops_options "cn-dns" "ecs=1.2.3.0/24,ttl=60").
  - apply (bool_decide_unpack _). vm_compute. exact I.
  - intros pre Hpre. repeat (apply elem_of_cons in Hpre as [->|Hpre]; [vm_compute; reflexivity|]). by apply elem_of_nil in Hpre.
Defined.

Lemma parsed_rule :
  parse_rule_line "set:cn -> direct:cn-dns?ecs=1.2.3.0/24"
  = Some (mkPolicyRule (HSet "cn") (DDirect "cn-dns") "set:cn -> direct:cn-dns?ecs=1.2.3.0/24").
Proof. vm_compute. reflexivity. Qed.

(** The answer records of a predefined response. *)
Lemma parsed_predefined :
  (fun r => match pl_action r with DPredefined p => answer_ips p | _ => [] end)
    <$> parse_rule_line "foo.com -> predefined:NOERROR;A foo.com 1.2.3.4;foo.com. 60 IN A 1.2.3.5"
  = Some [V4 16909060; V4 16909061].
Proof. vm_compute. reflexivity. Qed.
End DnsPolicyWitness.
