(* ===== verification/DnsHosts.v ===== *)
(** * Hosts tables

    Models [src/crates/core-resolver/src/hosts.rs]: the text of a hosts file, mappings of
    the configuration, merging, lookup.  Reading the file from disk is not modelled:
    [hosts_parse] takes its text. *)

From stdpp Require Import base list gmap strings numbers option.
From S2P Require Import Prelude Text TextSplit Net DnsCache DnsPolicy.

Record HostsEntry : Type := mkHostsEntry { he_ipv4 : list Z; he_ipv6 : list Z }.
Definition HostsEntry_default : HostsEntry := mkHostsEntry [] [].

Notation HostsTable := (gmap string HostsEntry).
Definition HostsTable_new : HostsTable := ∅.

(** [table.entries.entry(domain).or_default()] *)
Definition entry_of (t : HostsTable) (domain : string) : HostsEntry := default HostsEntry_default (t !! domain).

Definition entry_push (e : HostsEntry) (ip : IpAddr) : HostsEntry :=
  match ip with
  | V4 a => mkHostsEntry (he_ipv4 e ++ [a]) (he_ipv6 e)
  | V6 a => mkHostsEntry (he_ipv4 e) (he_ipv6 e ++ [a])
  end.

(** The push of [parse], which skips an address the entry has. *)
Definition entry_push_new (e : HostsEntry) (ip : IpAddr) : HostsEntry :=
  match ip with
  | V4 a => if decide (a ∈ he_ipv4 e) then e else mkHostsEntry (he_ipv4 e ++ [a]) (he_ipv6 e)
  | V6 a => if decide (a ∈ he_ipv6 e) then e else mkHostsEntry (he_ipv4 e) (he_ipv6 e ++ [a])
  end.

Section Hosts.
Context `{StrCase} `{NetText} `{HashIter}.

Definition hosts_key (domain : string) : string := to_lowercase (trim_end_char 46 domain).

Definition load_row (t : HostsTable) (row : Yaml * Yaml) : HostsTable :=
  match as_str row.1 with
  | None => t
  | Some domain =>
    let texts := match row.2 with
                 | YString s => Some [s]
                 | YSequence seq => Some (omap as_str seq)
                 | _ => None
                 end in
    match texts with
    | None => t
    | Some texts =>
      let key := hosts_key domain in
      <[key := foldl entry_push (entry_of t key) (omap parse_ip texts)]> t
    end
  end.

Definition load_mapping (map : list (Yaml * Yaml)) : HostsTable := foldl load_row HostsTable_new map.

Definition merge_entry (t : HostsTable) (kv : string * HostsEntry) : HostsTable :=
  let e := entry_of t kv.1 in
  <[kv.1 := mkHostsEntry (he_ipv4 e ++ he_ipv4 kv.2) (he_ipv6 e ++ he_ipv6 kv.2)]> t.

Definition hosts_merge (t other : HostsTable) : HostsTable := foldl merge_entry t (hash_iter other).

Definition hosts_lookup (t : HostsTable) (host : string) (qtype : QType) : option (list IpAddr) :=
  match t !! host with
  | None => None
  | Some entry =>
    let ips := match qtype with
               | QA => V4 <$> he_ipv4 entry
               | QAAAA => V6 <$> he_ipv6 entry
               | QBoth => (V4 <$> he_ipv4 entry) ++ (V6 <$> he_ipv6 entry)
               end in
    if len ips =? 0 then None else Some ips
  end.

(** The text before the first [#]. *)
Definition strip_comment (line : string) : string :=
  match str_split_once 35 line with Some (a, _) => a | None => line end.

(** The address and the names of a line. *)
Definition host_line (line : string) : option (IpAddr * list string) :=
  let line := str_trim (strip_comment (str_trim line)) in
  if String.eqb line "" then None else
  match split_whitespace line with
  | [] => None
  | ip_str :: names => ip ← parse_ip ip_str; Some (ip, names)
  end.

Definition add_name (ip : IpAddr) (t : HostsTable) (hostname : string) : HostsTable :=
  let key := hosts_key hostname in <[key := entry_push_new (entry_of t key) ip]> t.

Definition add_line (t : HostsTable) (line : string) : HostsTable :=
  match host_line line with Some (ip, names) => foldl (add_name ip) t names | None => t end.

Definition hosts_parse (content : string) : HostsTable := foldl add_line HostsTable_new (str_lines content).

(** ** Theorems *)

(** The addresses a table has for a name. *)
Definition entry_ips (e : HostsEntry) : list IpAddr := (V4 <$> he_ipv4 e) ++ (V6 <$> he_ipv6 e).
Definition host_ips (t : HostsTable) (host : string) : list IpAddr := entry_ips (entry_of t host).

Lemma entry_push_new_elem e ip x : x ∈ entry_ips (entry_push_new e ip) <-> x = ip \/ x ∈ entry_ips e.
Proof.
  unfold entry_ips, entry_push_new.
  destruct ip as [a|a]; destruct (decide (a ∈ _)) as [Hin|Hin]; cbn; rewrite ?fmap_app, ?elem_of_app; cbn;
    rewrite ?list_elem_of_singleton; try tauto.
  - split; [auto|]. intros [->|]; [left; by apply list_elem_of_fmap_2|done].
  - split; [auto|]. intros [->|]; [right; by apply list_elem_of_fmap_2|done].
Qed.

Lemma entry_of_insert t k e k' : entry_of (<[k := e]> t) k' = if decide (k = k') then e else entry_of t k'.
Proof.
  unfold entry_of. destruct (decide (k = k')) as [->|Hne]; [by rewrite lookup_insert_eq|by rewrite lookup_insert_ne].
Qed.

Lemma add_names_elem ip names host x : forall t,
  x ∈ host_ips (foldl (add_name ip) t names) host
  <-> x ∈ host_ips t host \/ (x = ip /\ host ∈ hosts_key <$> names).
Proof.
  induction names as [|n names IH]; intros t; cbn [foldl fmap list_fmap].
  { rewrite elem_of_nil. tauto. }
  rewrite IH. unfold add_name at 1. unfold host_ips at 1. rewrite entry_of_insert, elem_of_cons.
  destruct (decide (hosts_key n = host)) as [<-|Hne].
  - rewrite entry_push_new_elem. unfold host_ips. tauto.
  - unfold host_ips. naive_solver.
Qed.

(** Reading a hosts file: a name has exactly the addresses of the lines that list it
    (names compared in lower case without trailing dots), and a lookup of both families
    returns these. *)
Theorem hosts_parse_lookup content host x :
  x ∈ default [] (hosts_lookup (hosts_parse content) host QBoth)
  <-> exists line ip names, line ∈ str_lines content /\ host_line line = Some (ip, names)
      /\ x = ip /\ host ∈ hosts_key <$> names.
Proof.
  assert (Hl : forall t, default [] (hosts_lookup t host QBoth) = host_ips t host).
  { intros t. unfold hosts_lookup, host_ips, entry_of, entry_ips. destruct (t !! host) as [e|]; [|done].
    cbn. destruct (_ ++ _) as [|y l]; done. }
  rewrite Hl. unfold hosts_parse. clear Hl.
  assert (Hg : forall lines t, x ∈ host_ips (foldl add_line t lines) host <->
    x ∈ host_ips t host \/ exists line ip names, line ∈ lines /\ host_line line = Some (ip, names)
      /\ x = ip /\ host ∈ hosts_key <$> names).
  { induction lines as [|l lines IH]; intros t; cbn [foldl]; [set_solver|]. rewrite IH. unfold add_line at 1.
    setoid_rewrite elem_of_cons. destruct (host_line l) as [[ip names]|] eqn:E; [rewrite add_names_elem|]; naive_solver. }
  rewrite Hg. split; [intros [Hn|]; [|done]|auto]. exfalso. by apply elem_of_nil in Hn.
Qed.

(** Merging appends, entry by entry, in whatever order the other table is iterated. *)
Theorem hosts_merge_lookup t other host :
  host_ips (hosts_merge t other) host
  = (V4 <$> he_ipv4 (entry_of t host) ++ he_ipv4 (entry_of other host))
    ++ (V6 <$> he_ipv6 (entry_of t host) ++ he_ipv6 (entry_of other host)).
Proof.
  unfold hosts_merge.
  assert (Hg : forall l t, NoDup (fst <$> l) ->
    entry_of (foldl merge_entry t l) host
    = mkHostsEntry (he_ipv4 (entry_of t host) ++ he_ipv4 (default HostsEntry_default (snd <$> List.find (fun kv => String.eqb kv.1 host) l)))
        (he_ipv6 (entry_of t host) ++ he_ipv6 (default HostsEntry_default (snd <$> List.find (fun kv => String.eqb kv.1 host) l)))).
  { induction l as [|[k e] l IH]; intros t0 Hnd; cbn.
    - rewrite !app_nil_r. by destruct (entry_of t0 host).
    - apply list.NoDup_cons in Hnd as [Hk Hnd]. rewrite IH by done. unfold merge_entry. cbn. rewrite entry_of_insert.
      destruct (String.eqb_spec k host) as [->|Hne]; [|by rewrite decide_False].
      rewrite decide_True by done. cbn.
      destruct (List.find _ l) as [[k' e']|] eqn:Ef; cbn; [|by rewrite !app_nil_r].
      apply find_some in Ef as [Hin Heq]. apply String.eqb_eq in Heq. cbn in Heq. subst k'.
      destruct Hk. apply list_elem_of_fmap. exists (host, e'). split; [done|by apply list_elem_of_In]. }
  unfold host_ips. rewrite Hg.
  2: { rewrite hash_iter_perm. apply NoDup_fst_map_to_list. }
  assert (Hf : snd <$> List.find (fun kv => String.eqb kv.1 host) (hash_iter other) = other !! host).
  { destruct (List.find _ _) as [[k e]|] eqn:Ef; cbn.
    - apply find_some in Ef as [Hin Heq]. apply String.eqb_eq in Heq. cbn in Heq. subst k.
      symmetry. apply hash_iter_elem. by apply list_elem_of_In.
    - destruct (other !! host) as [e|] eqn:E; [|done]. apply hash_iter_elem, list_elem_of_In in E.
      apply (find_none _ _ Ef) in E. cbn in E. by rewrite String.eqb_refl in E. }
  by rewrite Hf.
Qed.
End Hosts.
