(* ===== verification/DnsResolve.v ===== *)
(** * The resolver: policy evaluation, cache, fallback, refresh

    Models [src/crates/core-resolver/src/resolver.rs] from [resolve] down to the questions
    put to the groups.  One call is a computation in the state monad [M]: the world holds
    the cache, the fake-IP pool, the throttles, the refresh tasks that were spawned and have
    not run yet, the rows handed to the store and the questions asked so far.  What comes
    from outside is the environment [REnv], read by position: clock readings, the answers
    of the groups ([DnsGroup.v] says what these can be), whether a flight of the same key
    was already under way and how it ended ([Singleflight.v]), and whether a refresh
    answered in time.  A spawned task runs as one step, [run_refresh]. *)

From stdpp Require Import base list gmap strings numbers option.
From S2P Require Import Prelude Text Net FakeIp DnsCache Loopback DnsService DnsGroup DnsPolicy DnsHosts.

(** ** Errors *)
Inductive ResolveError : Type :=
| ReFailed (msg : string)
| ReEmpty (msg : string)
| ReRejected (msg : string)
| ReDropped (msg : string).

(** [Result<A, ResolveError>] *)
Notation re_result A := (A + ResolveError)%type.

(** The texts of [#[error(..)]] *)
Definition dns_error_text (e : DnsError) : string :=
  match e with
  | DeFailed s => "解析失败: " +:+ s
  | DeTimeout => "查询超时"
  | DeEmpty => "空响应"
  | DeRejected s => "被策略拒绝: " +:+ s
  end.
Definition resolve_error_text (e : ResolveError) : string :=
  match e with
  | ReFailed s => "解析失败: " +:+ s
  | ReEmpty s => "空响应: " +:+ s
  | ReRejected s => "被拒绝: " +:+ s
  | ReDropped s => "已丢弃 (drop): " +:+ s
  end.

(** [From<DnsError> for ResolveError] *)
Definition of_dns_error (e : DnsError) : ResolveError :=
  match e with
  | DeEmpty => ReEmpty ""
  | DeRejected s => ReRejected s
  | other => ReFailed (dns_error_text other)
  end.

(** How the shared flight carries an error of the default path. *)
Definition flight_error (e : ResolveError) : DnsError :=
  match e with
  | ReFailed s | ReEmpty s => DeFailed s
  | ReRejected s | ReDropped s => DeRejected s
  end.

Definition live (ips : list IpAddr) : ResolveAnswer := mkResolveAnswer ips false.
Definition stale (ips : list IpAddr) : ResolveAnswer := mkResolveAnswer ips true.

Definition lift_err {A} (r : dns_result A) : re_result A :=
  match r with inl a => inl a | inr e => inr (of_dns_error e) end.

(** ** Address families *)
Definition qtype_matches_ip (qtype : QType) (ip : IpAddr) : bool :=
  match qtype with QA => is_ipv4 ip | QAAAA => negb (is_ipv4 ip) | QBoth => true end.
Definition filter_ips_for_qtype (ips : list IpAddr) (qtype : QType) : list IpAddr :=
  List.filter (qtype_matches_ip qtype) ips.
Definition family_for_qtype (qtype : QType) : AddressFamily :=
  match qtype with QAAAA => FamV6 | QA | QBoth => FamV4 end.

Definition is_lan_or_special_ip (ip : IpAddr) : bool :=
  match ip with
  | V4 a => v4_is_private a || ip_is_loopback ip || v4_is_link_local a || ip_is_multicast ip
            || v4_is_broadcast a || v4_is_documentation a || ip_is_unspecified ip
  | V6 a => ip_is_loopback ip || ip_is_unspecified ip || ip_is_multicast ip || v6_is_unique_local a
            || v6_is_unicast_link_local a || ((v6_segment a 0 =? 8193) && (v6_segment a 1 =? 3512))
  end.

Section Resolve.
Context `{IpNetLib} `{NetText} `{StrCase} `{HashIter}.

(** ** The fallback filter *)
Record RuntimeGeoIpFilter : Type := mkRuntimeGeoIpFilter {
  gf_code : string;
  gf_ruleset_candidates : list string
}.
Record RuntimeFallbackFilter : Type := mkRuntimeFallbackFilter {
  fb_ip_cidrs : list IpNet;
  fb_domain_matchers : list HostMatch;
  fb_geoip : option RuntimeGeoIpFilter
}.

Definition matches_domain (f : RuntimeFallbackFilter) (host : string) (rulesets : option RulesetView) : bool :=
  existsb (fun m => matches m host EvalContext_default rulesets) (fb_domain_matchers f).

(** The first candidate that is loaded decides. *)
Fixpoint geoip_outside (names : list string) (idx : RulesetView) (ip : IpAddr) : bool :=
  match names with
  | [] => false
  | name :: rest =>
    match idx name with
    | Some rs => negb (rs "" (Some ip))
    | None => geoip_outside rest idx ip
    end
  end.

Definition should_ip_fallback (f : RuntimeFallbackFilter) (ip : IpAddr) (rulesets : option RulesetView) : bool :=
  if is_lan_or_special_ip ip then false
  else if existsb (fun cidr => net_contains cidr ip) (fb_ip_cidrs f) then true
  else match fb_geoip f with
       | None => false
       | Some geoip =>
         if String.eqb (gf_code geoip) "lan" then negb (is_lan_or_special_ip ip)
         else match rulesets with
              | None => false
              | Some idx => geoip_outside (gf_ruleset_candidates geoip) idx ip
              end
       end.

(** ** The resolver: [rs_groups] has, by name, the default subnets of the group's members *)
Record Resolver : Type := mkResolver {
  rs_groups : gmap string (list (option IpNet));
  rs_policy : PolicyEngine;
  rs_bootstrap_name : string;
  rs_bootstrap_policy : PolicyEngine;
  rs_fallback_group : option string;
  rs_fallback_filter : RuntimeFallbackFilter;
  rs_fake_filter : option FakeIpFilter;
  rs_hosts : option (gmap string HostsEntry);
  rs_ipv6_enabled : bool;
  rs_optimistic : bool;
  rs_default_ttl : Z;
  rs_global_client_subnet : option IpNet
}.

(** One question put to a group. *)
Record Question : Type := mkQuestion {
  qs_group : string;
  qs_host : string;
  qs_v6 : bool;
  qs_strategy : option GroupStrategy
}.

Record RefreshTask : Type := mkRefreshTask {
  tk_group : string;
  tk_opts : QueryOptions;
  tk_ticket : PrefetchTicket
}.

Record RWorld : Type := mkRWorld {
  rw_cache : DnsCache;
  rw_pool : option FakeIpPool;
  rw_throttle : RejectThrottle;
  rw_bootstrap_throttle : RejectThrottle;
  rw_pending : list RefreshTask;
  rw_store : option (list (string * DnsCacheBlob));
  rw_asked : list Question;
  rw_ticks : nat
}.

Record REnv : Type := mkREnv {
  re_clock : nat -> Z;                (** [Instant::now()], in milliseconds *)
  re_unix_secs : nat -> Z;            (** the wall clock in seconds *)
  re_answer : nat -> Question -> dns_result (list IpAddr);
  re_joined : nat -> string * QType -> option (dns_result (list IpAddr));
  re_in_time : nat -> bool            (** a stale answer's refresh ends before the timeout *)
}.

(** ** The state monad *)
Definition M (A : Type) : Type := RWorld -> A * RWorld.
#[global] Instance M_ret : MRet M := fun A a w => (a, w).
#[global] Instance M_bind : MBind M := fun A B f m w => let '(a, w) := m w in f a w.

Definition set_cache (c : DnsCache) : M unit := fun w =>
  (tt, mkRWorld c (rw_pool w) (rw_throttle w) (rw_bootstrap_throttle w) (rw_pending w) (rw_store w) (rw_asked w) (rw_ticks w)).
Definition set_pool (p : option FakeIpPool) : M unit := fun w =>
  (tt, mkRWorld (rw_cache w) p (rw_throttle w) (rw_bootstrap_throttle w) (rw_pending w) (rw_store w) (rw_asked w) (rw_ticks w)).
Definition set_throttle (t : RejectThrottle) : M unit := fun w =>
  (tt, mkRWorld (rw_cache w) (rw_pool w) t (rw_bootstrap_throttle w) (rw_pending w) (rw_store w) (rw_asked w) (rw_ticks w)).
Definition set_bootstrap_throttle (t : RejectThrottle) : M unit := fun w =>
  (tt, mkRWorld (rw_cache w) (rw_pool w) (rw_throttle w) t (rw_pending w) (rw_store w) (rw_asked w) (rw_ticks w)).
Definition spawn (t : RefreshTask) : M unit := fun w =>
  (tt, mkRWorld (rw_cache w) (rw_pool w) (rw_throttle w) (rw_bootstrap_throttle w) (rw_pending w ++ [t]) (rw_store w) (rw_asked w) (rw_ticks w)).
Definition enqueue (row : string * DnsCacheBlob) : M unit := fun w =>
  (tt, mkRWorld (rw_cache w) (rw_pool w) (rw_throttle w) (rw_bootstrap_throttle w) (rw_pending w)
         ((fun rows => rows ++ [row]) <$> rw_store w) (rw_asked w) (rw_ticks w)).
Definition get_cache : M DnsCache := fun w => (rw_cache w, w).
Definition get_pool : M (option FakeIpPool) := fun w => (rw_pool w, w).
Definition get_throttle : M RejectThrottle := fun w => (rw_throttle w, w).
Definition get_bootstrap_throttle : M RejectThrottle := fun w => (rw_bootstrap_throttle w, w).
Definition tick : M nat := fun w =>
  (rw_ticks w, mkRWorld (rw_cache w) (rw_pool w) (rw_throttle w) (rw_bootstrap_throttle w) (rw_pending w) (rw_store w)
                 (rw_asked w) (S (rw_ticks w))).
Definition log_question (q : Question) : M unit := fun w =>
  (tt, mkRWorld (rw_cache w) (rw_pool w) (rw_throttle w) (rw_bootstrap_throttle w) (rw_pending w) (rw_store w)
         (rw_asked w ++ [q]) (rw_ticks w)).

Context (rs : Resolver) (ev : REnv).

Definition instant : M Z := n ← tick; mret (re_clock ev n).

(** [group.resolve_with_strategy(host, want_v6, strategy)] *)
Definition ask (q : Question) : M (dns_result (list IpAddr)) :=
  n ← tick;
  _ ← log_question q;
  mret (re_answer ev n q).

Definition resolve_group_qtype (group host : string) (qtype : QType) (strategy : option GroupStrategy)
  : M (dns_result (list IpAddr)) :=
  match qtype with
  | QA => ask (mkQuestion group host false strategy)
  | QAAAA => ask (mkQuestion group host true strategy)
  | QBoth =>
    r4 ← ask (mkQuestion group host false strategy);
    r6 ← ask (mkQuestion group host true strategy);
    let out := (match r4 with inl v => v | inr _ => [] end) ++ (match r6 with inl v => v | inr _ => [] end) in
    let last_err := match r6 with inr e => Some e | inl _ => match r4 with inr e => Some e | inl _ => None end end in
    mret (if len out =? 0 then inr (default DeEmpty last_err) else inl out)
  end.

(** [resolve_default_qtype_uncached_parts] *)
Definition resolve_default (host : string) (qtype : QType) (strategy : option GroupStrategy)
  : M (re_result (list IpAddr)) :=
  match rs_groups rs !! "default" with
  | None => mret (inr (ReFailed "unknown resolver server/group: default"))
  | Some _ =>
    match rs_fallback_group rs with
    | None => r ← resolve_group_qtype "default" host qtype strategy; mret (lift_err r)
    | Some fallback =>
      match rs_groups rs !! fallback with
      | None => mret (inr (ReFailed ("unknown resolver fallback group: " +:+ fallback)))
      | Some _ =>
        let idx := pe_ruleset_index (rs_policy rs) in
        if matches_domain (rs_fallback_filter rs) host idx then
          r ← resolve_group_qtype fallback host qtype strategy; mret (lift_err r)
        else
        main ← resolve_group_qtype "default" host qtype strategy;
        match main with
        | inl (ip :: ips) =>
          if existsb (fun ip => should_ip_fallback (rs_fallback_filter rs) ip idx) (ip :: ips) then
            r ← resolve_group_qtype fallback host qtype strategy; mret (lift_err r)
          else mret (inl (ip :: ips))
        | _ => r ← resolve_group_qtype fallback host qtype strategy; mret (lift_err r)
        end
      end
    end
  end.

(** [opts.rewrite_ttl] in seconds, the default in milliseconds *)
Definition effective_ttl (opts : QueryOptions) : Z :=
  match qo_rewrite_ttl opts with Some s => 1000 * s | None => rs_default_ttl rs end.

(** [self.cache.put(..)] and the row for the store *)
Definition cache_answer (host : string) (qtype : QType) (ips : list IpAddr) (ttl : Z) (origin : string) : M unit :=
  now ← instant;
  c ← get_cache;
  _ ← set_cache (put c host qtype ips ttl origin now);
  n ← tick;
  enqueue (dump_key host qtype, mkDnsCacheBlob (show_ip <$> ips) (re_unix_secs ev n + ttl / 1000) origin).

(** ** The body of a spawned refresh *)
Definition run_refresh (t : RefreshTask) : M (dns_result (list IpAddr)) :=
  let host := pt_host (tk_ticket t) in
  let qtype := pt_qtype (tk_ticket t) in
  result ← (if String.eqb (tk_group t) "default" then
              r ← resolve_default host qtype (qo_strategy (tk_opts t));
              mret (match r with inl v => inl v | inr e => inr (DeFailed (resolve_error_text e)) end)
            else
              match rs_groups rs !! tk_group t with
              | None => mret (inr (DeFailed ("unknown resolver group: " +:+ tk_group t)))
              | Some _ => resolve_group_qtype (tk_group t) host qtype (qo_strategy (tk_opts t))
              end : M (dns_result (list IpAddr)));
  _ ← (match result with
       | inl (ip :: ips) =>
         c ← get_cache;
         _ ← set_cache (mark_success c (tk_ticket t));
         cache_answer host qtype (ip :: ips) (effective_ttl (tk_opts t)) "prefetch"
       | _ =>
         now ← instant;
         c ← get_cache;
         set_cache (mark_failure c (tk_ticket t) now)
       end : M unit);
  c ← get_cache;
  _ ← set_cache (drop_ticket c (tk_ticket t));
  mret result.

(** ** One lookup in a group, through the cache *)

(** What a cached entry gives, the refresh it is due included. *)
Definition serve_cached (host group : string) (opts : QueryOptions) (ips : list IpAddr) (hit : Hit)
    (ticket : option PrefetchTicket) : M (re_result ResolveAnswer) :=
  fresh ← (match hit, ticket with
           | Stale, Some t =>
             n ← tick;
             if re_in_time ev n then
               r ← run_refresh (mkRefreshTask group opts t);
               mret (match r with inl (ip :: rest) => Some (ip :: rest) | _ => None end)
             else
               _ ← spawn (mkRefreshTask group opts t);
               mret None
           | _, Some t => _ ← spawn (mkRefreshTask group opts t); mret None
           | _, None => mret None
           end : M (option (list IpAddr)));
  mret (match fresh with
        | Some fresh => inl (live fresh)
        | None =>
          if len ips =? 0 then inr (ReRejected (host +:+ " (negative cache)"))
          else inl (match hit with Stale => stale ips | _ => live ips end)
        end).

(** The closure of the flight. *)
Definition lookup_uncached (host group : string) (qtype : QType) (strategy : option GroupStrategy)
  : M (dns_result (list IpAddr)) :=
  if String.eqb group "default" then
    r ← resolve_default host qtype strategy;
    mret (match r with inl v => inl v | inr e => inr (flight_error e) end)
  else
    match rs_groups rs !! group with
    | None => mret (inr (DeFailed ("unknown resolver server/group: " +:+ group)))
    | Some _ => resolve_group_qtype group host qtype strategy
    end.

Definition lookup_flight (host group : string) (opts : QueryOptions) (qtype : QType)
  : M (re_result ResolveAnswer) :=
  n ← tick;
  r ← (match re_joined ev n (host, qtype) with
       | Some r => mret r
       | None => lookup_uncached host group qtype (qo_strategy opts)
       end : M (dns_result (list IpAddr)));
  match r with
  | inr e => mret (inr (of_dns_error e))
  | inl ips =>
    _ ← (if negb (qo_disable_cache opts) && negb (len ips =? 0)
         then cache_answer host qtype ips (effective_ttl opts) "live" else mret tt : M unit);
    mret (inl (live ips))
  end.

Definition lookup_via_qtype (host group : string) (opts : QueryOptions) (qtype : QType)
  : M (re_result ResolveAnswer) :=
  if qo_disable_cache opts then lookup_flight host group opts qtype else
  let disable_optimistic := qo_disable_optimistic_cache opts || negb (rs_optimistic rs) in
  now ← instant;
  now' ← instant;
  c ← get_cache;
  let '(c, (cached, hit, ticket)) := get_with c host qtype disable_optimistic now now' in
  _ ← set_cache c;
  match cached with
  | Some ips => serve_cached host group opts ips hit ticket
  | None => lookup_flight host group opts qtype
  end.

(** ** Policy evaluation *)
Definition reject_action (host : string) (qtype : QType) (opts : RejectOptions) (source : string)
  : M (re_result ResolveAnswer) :=
  now ← instant;
  t ← get_throttle;
  let '(method, t) := apply_reject_throttle t opts source now in
  _ ← set_throttle t;
  match method with
  | RejDefault =>
    now ← instant;
    c ← get_cache;
    _ ← set_cache (put_negative c host qtype now);
    mret (inr (ReRejected host))
  | RejDrop => mret (inr (ReDropped host))
  end.

Definition fake_unavailable : string := "fake-ip pool 不可用".

Definition fake_action (host : string) (qtype : QType) : M (re_result ResolveAnswer) :=
  if match rs_fake_filter rs with Some f => should_skip f host | None => false end then
    lookup_via_qtype host "default" QueryOptions_default qtype
  else
    pool ← get_pool;
    match pool with
    | None => mret (inr (ReFailed fake_unavailable))
    | Some p =>
      now ← instant;
      now' ← instant;
      let '(ip, p) := alloc p host (family_for_qtype qtype) now now' in
      _ ← set_pool (Some p);
      mret (match ip with Some ip => inl (live [ip]) | None => inr (ReFailed fake_unavailable) end)
    end.

(** A predefined response without addresses, by its rcode. *)
Definition predefined_empty (host : string) (rcode : option PreRcode) : re_result ResolveAnswer :=
  match default NOERROR rcode with
  | NOERROR => inl (live [])
  | _ => inr (ReRejected host)
  end.

Definition respond_missing : string := "respond 命中但无前序 evaluate 保存的响应".
Definition default_not_terminal : string := "default action 不可为 evaluate/respond".

Definition default_qtype (host : string) (qtype : QType) : M (re_result ResolveAnswer) :=
  match default_action (rs_policy rs) with
  | DReject opts => reject_action host qtype opts "<default>"
  | DAccept ips => mret (inl (live (filter_ips_for_qtype ips qtype)))
  | DPredefined pre =>
    match answer_ips pre with
    | [] => mret (inr (ReRejected host))
    | ips => mret (inl (live (filter_ips_for_qtype ips qtype)))
    end
  | DDirect g | DProxy g | DRoute g _ => lookup_via_qtype host g QueryOptions_default qtype
  | DFake => fake_action host qtype
  | DEvaluate _ _ | DRespond => mret (inr (ReFailed default_not_terminal))
  end.

(** What a terminal action of a rule answers. *)
Definition terminal_action (host : string) (qtype : QType) (ctx : EvalContext) (rule : PolicyRule)
  : M (re_result ResolveAnswer) :=
  match pl_action rule with
  | DReject opts => reject_action host qtype opts (pl_source rule)
  | DAccept ips => mret (inl (live (filter_ips_for_qtype ips qtype)))
  | DPredefined pre =>
    match answer_ips pre with
    | [] => mret (predefined_empty host (pr_rcode pre))
    | ips => mret (inl (live (filter_ips_for_qtype ips qtype)))
    end
  | DFake => fake_action host qtype
  | DDirect g | DProxy g => lookup_via_qtype host g QueryOptions_default qtype
  | DRoute server opts => lookup_via_qtype host server opts qtype
  | DRespond =>
    mret (match ec_saved_response ctx with
          | Some ips => inl (live ips)
          | None => inr (ReFailed respond_missing)
          end)
  | DEvaluate _ _ => mret (inr (ReFailed ""))
  end.

(** [evaluate] keeps the answer for the rules after it. *)
Definition evaluate_action (host : string) (qtype : QType) (ctx : EvalContext) (server : string)
    (opts : QueryOptions) : M EvalContext :=
  r ← lookup_via_qtype host server opts qtype;
  mret (match r with
        | inl answer => mkEvalContext (Some (ra_ips answer)) (Some opts)
        | inr _ => ctx
        end).

Fixpoint policy_rules (rules : list PolicyRule) (host : string) (qtype : QType) (ctx : EvalContext)
  : M (re_result ResolveAnswer) :=
  match rules with
  | [] => default_qtype host qtype
  | rule :: rest =>
    if matches (pl_matcher rule) host ctx (pe_ruleset_index (rs_policy rs)) then
      match pl_action rule with
      | DEvaluate server opts =>
        ctx ← evaluate_action host qtype ctx server opts;
        policy_rules rest host qtype ctx
      | _ => terminal_action host qtype ctx rule
      end
    else policy_rules rest host qtype ctx
  end.

Definition resolve_policy_qtype (host_lc : string) (qtype : QType) : M (re_result ResolveAnswer) :=
  if negb (rs_ipv6_enabled rs) && bool_decide (qtype = QAAAA) then mret (inl (live [])) else
  match (t ← rs_hosts rs; hosts_lookup t host_lc qtype) with
  | Some ips => mret (inl (live ips))
  | None => policy_rules (pe_rules (rs_policy rs)) host_lc qtype EvalContext_default
  end.

Definition resolve_qtype_answer (host : string) (qtype : QType) : M (re_result ResolveAnswer) :=
  match parse_ip host with
  | Some ip => mret (inl (live (if qtype_matches_ip qtype ip then [ip] else [])))
  | None => resolve_policy_qtype (hosts_key host) qtype
  end.

Definition resolve_qtype (host : string) (qtype : QType) : M (re_result (list IpAddr)) :=
  r ← resolve_qtype_answer host qtype;
  mret (match r with inl a => inl (ra_ips a) | inr e => inr e end).

(** How [resolve_dual_with_timeout] joins the two families; [v6] is empty when the second
    did not answer in time. *)
Definition dual_answer (host : string) (v4 : re_result (list IpAddr)) (v6 : list IpAddr) : re_result (list IpAddr) :=
  match v4 with
  | inl ips => if len (ips ++ v6) =? 0 then inr (ReEmpty host) else inl (ips ++ v6)
  | inr e => if len v6 =? 0 then inr e else inl v6
  end.

(** The two queries run one after the other here; the keys they use in the cache differ. *)
Definition resolve (host : string) : M (re_result (list IpAddr)) :=
  if negb (rs_ipv6_enabled rs) then resolve_qtype host QA else
  v4 ← resolve_qtype host QA;
  v6 ← resolve_qtype host QAAAA;
  n ← tick;
  mret (dual_answer host v4 (match v6 with inl ips => if re_in_time ev n then ips else [] | inr _ => [] end)).

(** ** Entry points that pass the policy by *)
Definition effective_client_subnet (opts : option QueryOptions) (group : string) : option IpNet :=
  match (o ← opts; qo_client_subnet o) with
  | Some n => Some n
  | None =>
    match (members ← rs_groups rs !! group; head (omap id members)) with
    | Some n => Some n
    | None => rs_global_client_subnet rs
    end
  end.

Definition resolve_with_opts (host : string) (opts : QueryOptions) : M (re_result (list IpAddr)) :=
  match parse_ip host with
  | Some ip => mret (inl [ip])
  | None =>
    let group := match pe_default_action (rs_policy rs) with
                 | Some (DDirect g) | Some (DProxy g) | Some (DRoute g _) => g
                 | _ => "default"
                 end in
    r ← lookup_via_qtype (hosts_key host) group opts QA;
    mret (match r with inl a => inl (ra_ips a) | inr e => inr e end)
  end.

Definition resolve_via_group_dual (host group : string) : M (re_result (list IpAddr)) :=
  r4 ← ask (mkQuestion group host false None);
  match r4 with
  | inl (ip :: ips) => mret (inl (ip :: ips))
  | inl [] =>
    if rs_ipv6_enabled rs then r6 ← ask (mkQuestion group host true None); mret (lift_err r6) else mret (inl [])
  | inr e =>
    if rs_ipv6_enabled rs then
      r6 ← ask (mkQuestion group host true None);
      mret (match r6 with inl ips => inl ips | inr _ => inr (of_dns_error e) end)
    else mret (inr (of_dns_error e))
  end.

Definition no_direct_group : string := "no direct-nameserver or default resolver group available".

Definition resolve_via_direct (host : string) : M (re_result (list IpAddr)) :=
  match parse_ip host with
  | Some ip => mret (inl [ip])
  | None =>
    let qtype := if rs_ipv6_enabled rs then QBoth else QA in
    match (t ← rs_hosts rs; hosts_lookup t (hosts_key host) qtype) with
    | Some (ip :: ips) => mret (inl (ip :: ips))
    | _ =>
      match rs_groups rs !! "direct-nameserver" with
      | Some _ => resolve_via_group_dual host "direct-nameserver"
      | None =>
        match rs_groups rs !! "default" with
        | Some _ => resolve_via_group_dual host "default"
        | None => mret (inr (ReFailed no_direct_group))
        end
      end
    end
  end.

(** The action of the first matching rule of the bootstrap policy. *)
Fixpoint bootstrap_action (rules : list PolicyRule) (host : string) : DnsAction :=
  match rules with
  | [] => default (DDirect (rs_bootstrap_name rs)) (pe_default_action (rs_bootstrap_policy rs))
  | rule :: rest =>
    if matches (pl_matcher rule) host EvalContext_default (pe_ruleset_index (rs_bootstrap_policy rs))
    then pl_action rule else bootstrap_action rest host
  end.

Definition bootstrap_not_group : string := "proxy-server-nameserver-policy action must route to a resolver group".

Definition bootstrap_group (host group : string) : M (re_result (list IpAddr)) :=
  match rs_groups rs !! group with
  | None => mret (inr (ReFailed ("unknown bootstrap resolver group: " +:+ group)))
  | Some _ =>
    r4 ← ask (mkQuestion group host false None);
    match r4 with
    | inl (ip :: ips) => mret (inl (ip :: ips))
    | _ => r6 ← ask (mkQuestion group host true None); mret (lift_err r6)
    end
  end.

Definition resolve_via_bootstrap (host : string) : M (re_result (list IpAddr)) :=
  match parse_ip host with
  | Some ip => mret (inl [ip])
  | None =>
    let host_lc := hosts_key host in
    match bootstrap_action (pe_rules (rs_bootstrap_policy rs)) host_lc with
    | DDirect g | DProxy g | DRoute g _ => bootstrap_group host g
    | DAccept ips => mret (inl ips)
    | DReject opts =>
      now ← instant;
      t ← get_bootstrap_throttle;
      let '(method, t) := apply_reject_throttle t opts "bootstrap" now in
      _ ← set_bootstrap_throttle t;
      mret (match method with RejDefault => inr (ReRejected host_lc) | RejDrop => inr (ReDropped host_lc) end)
    | DFake | DPredefined _ | DEvaluate _ _ | DRespond => mret (inr (ReFailed bootstrap_not_group))
    end
  end.
End Resolve.
