(* ===== verification/DnsResolveInv.v ===== *)
(** * Where the resolver's answers come from

    Invariants of [DnsResolve.v] over any sequence of queries, refreshes and resets: the
    cache holds, under a name and a family, only addresses that some group gave for that
    name and family; so no answer crosses from one name to another, none has the wrong
    family, and a fake address is never cached.  Proved with a small program logic for the
    monad [M]: [triple Q m] says that [m] keeps the invariant and returns a value in [Q]. *)

From stdpp Require Import base list gmap strings numbers option relations.
From S2P Require Import Prelude Text Net FakeIp DnsCache Loopback DnsService DnsGroup DnsPolicy DnsHosts DnsResolve.

Create HintDb triple.

Section Triples.
Context `{IpNetLib} `{NetText} `{StrCase} `{HashIter}.

(** ** The logic, for any invariant *)
Section Logic.
Context (I : RWorld -> Prop).

Definition triple {A} (Q : A -> Prop) (m : M A) : Prop := forall w, I w -> I (m w).2 /\ Q (m w).1.

Lemma triple_ret {A} (Q : A -> Prop) a : Q a -> triple Q (mret a).
Proof. intros Ha w Hw. done. Qed.

Lemma triple_bind {A B} (P : A -> Prop) (Q : B -> Prop) (m : M A) (f : A -> M B) :
  triple P m -> (forall a, P a -> triple Q (f a)) -> triple Q (m ≫= f).
Proof.
  intros Hm Hf w Hw. destruct (Hm w Hw) as [Hw' Ha]. unfold mbind, M_bind.
  destruct (m w) as [a w']. cbn in *. exact (Hf a Ha w' Hw').
Qed.

Lemma triple_weaken {A} (P Q : A -> Prop) m : (forall a, P a -> Q a) -> triple P m -> triple Q m.
Proof. intros Hpq Hm w Hw. destruct (Hm w Hw). auto. Qed.
End Logic.

(** ** The invariant

    [good host qtype ip], for a name in lower case: the property of the addresses that the
    cache may hold; [fakes] is the configuration of the pool, if there is one. *)
Context (rs : Resolver) (ev : REnv) (good : string -> QType -> IpAddr -> Prop) (fakes : option FakeIpConfig).

Definition family_type (v6 : bool) : QType := if v6 then QAAAA else QA.

Class AnswersGood : Prop := {
  lower_idem : forall s, to_lowercase (to_lowercase s) = to_lowercase s;
  good_both : forall host q ip, good host q ip -> good host QBoth ip;
  answers_good : forall n q v, re_answer ev n q = inl v ->
    Forall (good (to_lowercase (qs_host q)) (family_type (qs_v6 q))) v;
  joined_good : forall n host q v, re_joined ev n (host, q) = Some (inl v) -> Forall (good (to_lowercase host) q) v
}.
Context `{AnswersGood}.

Definition cache_good (c : DnsCache) : Prop :=
  map_Forall (fun k s => Forall (good k.1 k.2) (ce_ips (cs_entry s))) (dc_inner c).
Definition pool_fine (p : option FakeIpPool) : Prop :=
  match p with Some p => pool_ok p /\ fakes = Some (fp_cfg p) | None => True end.
Definition ticket_fine (t : PrefetchTicket) : Prop := to_lowercase (pt_host t) = pt_host t.

Record world_good (w : RWorld) : Prop := {
  wg_cache : cache_good (rw_cache w);
  wg_pool : pool_fine (rw_pool w);
  wg_pending : Forall (fun t => ticket_fine (tk_ticket t)) (rw_pending w)
}.

Notation trip := (triple world_good).

(** ** The cache keeps it *)
Lemma cache_good_with_cells c m : cache_good c -> cache_good (with_cells c m).
Proof. done. Qed.

Lemma cache_good_drop c t : cache_good c -> cache_good (drop_ticket c t).
Proof. intros Hc. unfold drop_ticket. by destruct (dc_cells c !! pt_cell t). Qed.
Lemma cache_good_success c t : cache_good c -> cache_good (mark_success c t).
Proof. intros Hc. unfold mark_success. by destruct (dc_cells c !! pt_cell t). Qed.
Lemma cache_good_failure c t now : cache_good c -> cache_good (mark_failure c t now).
Proof. intros Hc. unfold mark_failure. by destruct (dc_cells c !! pt_cell t). Qed.

Lemma cache_good_evict c : cache_good c -> cache_good (evict_lru c).
Proof.
  intros Hc k s Hs. unfold evict_lru in Hs. cbn in Hs. rewrite delete_list_lookup in Hs.
  destruct (decide _); [done|]. by apply Hc.
Qed.

Lemma cache_good_insert c k e : cache_good c -> Forall (good k.1 k.2) (ce_ips e) -> cache_good (insert_slot c k e).
Proof. intros Hc He. unfold cache_good, insert_slot. cbn. by apply map_Forall_insert_2. Qed.

Lemma cache_good_put c host q ips ttl origin now :
  cache_good c -> Forall (good (to_lowercase host) q) ips -> cache_good (put c host q ips ttl origin now).
Proof.
  intros Hc Hips. unfold put. destruct (len ips =? 0); [done|].
  destruct (_ <? _); [apply cache_good_evict|]; by apply cache_good_insert.
Qed.

Lemma cache_good_put_negative c host q now : cache_good c -> cache_good (put_negative c host q now).
Proof. intros Hc. by apply cache_good_insert. Qed.

(** What a lookup in the cache gives. *)
Definition hit_good (host : string) (q : QType) (r : option (list IpAddr) * Hit * option PrefetchTicket) : Prop :=
  (forall ips, r.1.1 = Some ips -> Forall (good (to_lowercase host) q) ips)
  /\ (forall t, r.2 = Some t -> pt_host t = to_lowercase host /\ pt_qtype t = q).

Lemma cache_good_get c host q now now' : cache_good c ->
  cache_good (get c host q now now').1 /\ hit_good host q (get c host q now now').2.
Proof.
  intros Hc. unfold get, hit_good. destruct (dc_inner c !! (to_lowercase host, q)) as [s|] eqn:Es; [|done].
  pose proof (Hc _ _ Es) as Hips. cbn in Hips.
  assert (Hc' : cache_good (with_inner c (<[(to_lowercase host, q) :=
    mkCachedSlot (mkCacheEntry (ce_ips (cs_entry s)) (ce_expire (cs_entry s)) now (ce_origin (cs_entry s))) (cs_cell s)]> (dc_inner c)))).
  { unfold cache_good. cbn. apply map_Forall_insert_2; [exact Hips|exact Hc]. }
  cbn -[refresh_allowed].
  repeat match goal with |- context [if ?b then _ else _] => destruct b end; cbn; split_and!; try done;
    try (intros ? [= <-]; done); try (intros ? ?; simplify_eq; done).
  intros k s' Hk. cbn in Hk. apply lookup_delete_Some in Hk as [_ Hk]. by apply Hc'.
Qed.

Lemma cache_good_get_with c host q d now now' : cache_good c ->
  cache_good (get_with c host q d now now').1 /\ hit_good host q (get_with c host q d now now').2.
Proof.
  intros Hc. destruct (cache_good_get c host q now now' Hc) as [Hg Hh]. unfold get_with.
  destruct (get c host q now now') as [c' [[v h] t]]. cbn in Hg, Hh.
  destruct h; [done| |done]. destruct d; [|done]. cbn. split; [|done].
  destruct t; [by apply cache_good_drop|done].
Qed.

(** ** Primitive steps *)
Lemma trip_get_cache : trip cache_good get_cache.
Proof. intros w Hw. split; [done|apply Hw]. Qed.
Lemma trip_set_cache c : cache_good c -> trip (fun _ => True) (set_cache c).
Proof. intros Hc w [? ? ?]. by repeat split. Qed.
Lemma trip_get_pool : trip pool_fine get_pool.
Proof. intros w Hw. split; [done|apply Hw]. Qed.
Lemma trip_set_pool p : pool_fine p -> trip (fun _ => True) (set_pool p).
Proof. intros Hp w [? ? ?]. by repeat split. Qed.
Lemma trip_get_throttle : trip (fun _ => True) get_throttle.
Proof. intros w Hw. done. Qed.
Lemma trip_set_throttle t : trip (fun _ => True) (set_throttle t).
Proof. intros w [? ? ?]. by repeat split. Qed.
Lemma trip_tick : trip (fun _ => True) tick.
Proof. intros w [? ? ?]. by repeat split. Qed.
Lemma trip_enqueue row : trip (fun _ => True) (enqueue row).
Proof. intros w [? ? ?]. by repeat split. Qed.
Lemma trip_log q : trip (fun _ => True) (log_question q).
Proof. intros w [? ? ?]. by repeat split. Qed.
Lemma trip_spawn t : ticket_fine (tk_ticket t) -> trip (fun _ => True) (spawn t).
Proof.
  intros Ht w [? ? ?]. split; [|done]. split; try done. cbn. rewrite Forall_app, Forall_singleton. done.
Qed.

Lemma trip_instant : trip (fun _ => True) (instant ev).
Proof. eapply triple_bind; [apply trip_tick|]. intros n _. by apply triple_ret. Qed.

(** ** Answers of the groups *)
Definition dns_good (host : string) (q : QType) (r : dns_result (list IpAddr)) : Prop :=
  match r with inl v => Forall (good (to_lowercase host) q) v | inr _ => True end.
Definition ips_good (host : string) (q : QType) (r : re_result (list IpAddr)) : Prop :=
  match r with inl v => Forall (good (to_lowercase host) q) v | inr _ => True end.
Definition answer_good (host : string) (q : QType) (r : re_result ResolveAnswer) : Prop :=
  match r with inl a => Forall (good (to_lowercase host) q) (ra_ips a) | inr _ => True end.

Lemma trip_ask q : trip (dns_good (qs_host q) (family_type (qs_v6 q))) (ask ev q).
Proof.
  eapply triple_bind; [apply trip_tick|]. intros n _. eapply triple_bind; [apply trip_log|]. intros _ _.
  apply triple_ret. unfold dns_good. destruct (re_answer ev n q) eqn:E; [|done]. by eapply answers_good.
Qed.

Lemma trip_group group host q strategy : trip (dns_good host q) (resolve_group_qtype ev group host q strategy).
Proof.
  destruct q; [apply (trip_ask (mkQuestion group host false strategy))|apply (trip_ask (mkQuestion group host true strategy))|].
  cbn. eapply triple_bind; [apply trip_ask|]. intros r4 G4. eapply triple_bind; [apply trip_ask|]. intros r6 G6.
  apply triple_ret. destruct (_ =? 0); [done|]. cbn. rewrite Forall_app.
  split; [destruct r4|destruct r6]; try done; (eapply Forall_impl; [done|]; intros ip; apply good_both).
Qed.

Lemma trip_group_lift group host q strategy :
  trip (ips_good host q) (r ← resolve_group_qtype ev group host q strategy; mret (lift_err r)).
Proof. eapply triple_bind; [apply trip_group|]. intros [v|e] Hr; by apply triple_ret. Qed.

Lemma trip_default host q strategy : trip (ips_good host q) (resolve_default rs ev host q strategy).
Proof.
  unfold resolve_default. destruct (rs_groups rs !! "default"); [|by apply triple_ret].
  destruct (rs_fallback_group rs) as [fb|]; [|apply trip_group_lift].
  destruct (rs_groups rs !! fb); [|by apply triple_ret].
  destruct (matches_domain _ _ _); [apply trip_group_lift|].
  eapply triple_bind; [apply trip_group|]. intros [[|ip ips]|e] Hr; try apply trip_group_lift.
  destruct (existsb _ _); [apply trip_group_lift|by apply triple_ret].
Qed.

Lemma trip_cache_answer host q ips ttl origin :
  Forall (good (to_lowercase host) q) ips -> trip (fun _ => True) (cache_answer ev host q ips ttl origin).
Proof.
  intros Hips. eapply triple_bind; [apply trip_instant|]. intros now _.
  eapply triple_bind; [apply trip_get_cache|]. intros c Hc.
  eapply triple_bind; [apply trip_set_cache; by apply cache_good_put|]. intros _ _.
  eapply triple_bind; [apply trip_tick|]. intros n _. apply trip_enqueue.
Qed.

Lemma trip_run_refresh t host q :
  pt_host (tk_ticket t) = to_lowercase host -> pt_qtype (tk_ticket t) = q -> trip (dns_good host q) (run_refresh rs ev t).
Proof.
  intros Hh <-. unfold run_refresh.
  eapply (triple_bind _ (dns_good (pt_host (tk_ticket t)) (pt_qtype (tk_ticket t)))).
  { destruct (String.eqb _ _).
    - eapply triple_bind; [apply trip_default|]. intros [v|e] Hr; by apply triple_ret.
    - destruct (rs_groups rs !! _); [apply trip_group|by apply triple_ret]. }
  intros result Hres.
  eapply (triple_bind _ (fun _ => True)).
  { destruct result as [[|ip ips]|e].
    - eapply triple_bind; [apply trip_instant|]. intros now _. eapply triple_bind; [apply trip_get_cache|].
      intros c Hc. by apply trip_set_cache, cache_good_failure.
    - eapply triple_bind; [apply trip_get_cache|]. intros c Hc.
      eapply triple_bind; [by apply trip_set_cache, cache_good_success|]. intros _ _. by apply trip_cache_answer.
    - eapply triple_bind; [apply trip_instant|]. intros now _. eapply triple_bind; [apply trip_get_cache|].
      intros c Hc. by apply trip_set_cache, cache_good_failure. }
  intros _ _. eapply triple_bind; [apply trip_get_cache|]. intros c Hc.
  eapply triple_bind; [by apply trip_set_cache, cache_good_drop|]. intros _ _. apply triple_ret.
  unfold dns_good in *. rewrite Hh, lower_idem in Hres. exact Hres.
Qed.

(** ** Lookups *)
Lemma trip_serve_cached host group opts q ips hit ticket :
  Forall (good (to_lowercase host) q) ips ->
  (forall t, ticket = Some t -> pt_host t = to_lowercase host /\ pt_qtype t = q) ->
  trip (answer_good host q) (serve_cached rs ev host group opts ips hit ticket).
Proof.
  intros Hips Ht. unfold serve_cached.
  assert (Hspawn : forall t, ticket = Some t ->
    trip (fun o => match o with Some v => Forall (good (to_lowercase host) q) v | None => True end)
      (_ ← spawn (mkRefreshTask group opts t); mret None : M (option (list IpAddr)))).
  { intros t Hs. eapply triple_bind; [apply trip_spawn|by intros; apply triple_ret].
    unfold ticket_fine. cbn. destruct (Ht t Hs) as [-> _]. apply lower_idem. }
  eapply (triple_bind _ (fun o => match o with Some v => Forall (good (to_lowercase host) q) v | None => True end)).
  { destruct ticket as [t|]; [|destruct hit; by apply triple_ret]. destruct hit; [by apply Hspawn| |by apply Hspawn].
    eapply triple_bind; [apply trip_tick|]. intros n _. destruct (re_in_time ev n); [|by apply Hspawn].
    destruct (Ht t eq_refl) as [Hh Hq].
    eapply triple_bind; [by apply (trip_run_refresh (mkRefreshTask group opts t) host q)|].
    intros [[|ip rest]|e] Hr; by apply triple_ret. }
  intros [fresh|] Hf; apply triple_ret; [done|]. destruct (_ =? 0); [done|]. by destruct hit.
Qed.

Lemma trip_lookup_flight host group opts q : trip (answer_good host q) (lookup_flight rs ev host group opts q).
Proof.
  unfold lookup_flight. eapply triple_bind; [apply trip_tick|]. intros n _.
  eapply (triple_bind _ (dns_good host q)).
  { destruct (re_joined ev n (host, q)) as [[v|e]|] eqn:Ej; [apply triple_ret; by eapply joined_good|by apply triple_ret|].
    unfold lookup_uncached. destruct (String.eqb group "default").
    - eapply triple_bind; [apply trip_default|]. intros [v|e] Hr; by apply triple_ret.
    - destruct (rs_groups rs !! group); [apply trip_group|by apply triple_ret]. }
  intros [v|e] Hr; [|by apply triple_ret].
  eapply (triple_bind _ (fun _ => True)); [|by intros; apply triple_ret].
  destruct (_ && _); [by apply trip_cache_answer|by apply triple_ret].
Qed.

Lemma trip_lookup host group opts q : trip (answer_good host q) (lookup_via_qtype rs ev host group opts q).
Proof.
  unfold lookup_via_qtype. destruct (qo_disable_cache opts); [apply trip_lookup_flight|].
  eapply triple_bind; [apply trip_instant|]. intros now _. eapply triple_bind; [apply trip_instant|]. intros now' _.
  eapply triple_bind; [apply trip_get_cache|]. intros c Hc.
  pose proof (cache_good_get_with c host q (qo_disable_optimistic_cache opts || negb (rs_optimistic rs)) now now' Hc) as [Hg Hh].
  destruct (get_with _ _ _ _ _ _) as [c' [[cached hit] ticket]]. cbn in Hg, Hh. destruct Hh as [H1' H2'].
  eapply triple_bind; [by apply trip_set_cache|]. intros _ _.
  destruct cached as [ips|]; [|apply trip_lookup_flight]. apply trip_serve_cached; auto.
Qed.

(** ** Policy evaluation *)

(** The addresses that the configuration itself names in an action. *)
Definition action_ips (a : DnsAction) : list IpAddr :=
  match a with DAccept ips => ips | DPredefined p => answer_ips p | _ => [] end.
Definition policy_actions : list DnsAction :=
  (pl_action <$> pe_rules (rs_policy rs)) ++ [default_action (rs_policy rs)].

Inductive allowed (host : string) (q : QType) (ip : IpAddr) : Prop :=
| from_group : good (to_lowercase host) q ip -> allowed host q ip
| from_hosts t ips : rs_hosts rs = Some t -> hosts_lookup t host q = Some ips -> ip ∈ ips -> allowed host q ip
| from_action a : a ∈ policy_actions -> ip ∈ action_ips a -> qtype_matches_ip q ip = true -> allowed host q ip
| from_pool cfg : fakes = Some cfg -> usable cfg (family_for_qtype q) ip -> allowed host q ip.

Definition answer_allowed (host : string) (q : QType) (r : re_result ResolveAnswer) : Prop :=
  match r with inl a => Forall (allowed host q) (ra_ips a) | inr _ => True end.

Lemma answer_good_allowed host q r : answer_good host q r -> answer_allowed host q r.
Proof.
  destruct r as [a|e]; [|done]. cbn. intros Ha. eapply Forall_impl; [exact Ha|]. intros ip. apply from_group.
Qed.

Lemma trip_lookup_allowed host group opts q : trip (answer_allowed host q) (lookup_via_qtype rs ev host group opts q).
Proof. eapply triple_weaken; [apply answer_good_allowed|apply trip_lookup]. Qed.

Lemma trip_reject host q opts source : trip (answer_allowed host q) (reject_action ev host q opts source).
Proof.
  unfold reject_action. eapply triple_bind; [apply trip_instant|]. intros now _.
  eapply triple_bind; [apply trip_get_throttle|]. intros t _. destruct (apply_reject_throttle _ _ _ _) as [method t'].
  eapply triple_bind; [apply trip_set_throttle|]. intros _ _. destruct method; [|by apply triple_ret].
  eapply triple_bind; [apply trip_instant|]. intros now' _. eapply triple_bind; [apply trip_get_cache|]. intros c Hc.
  eapply triple_bind; [by apply trip_set_cache, cache_good_put_negative|]. intros _ _. by apply triple_ret.
Qed.

Lemma alloc_fine p host family now now' : pool_ok p ->
  pool_ok (alloc p host family now now').2 /\ fp_cfg (alloc p host family now now').2 = fp_cfg p
  /\ forall ip, (alloc p host family now now').1 = Some ip -> usable (fp_cfg p) family ip.
Proof.
  intros Hp. destruct (pool_step_ok p (OpAlloc host family now now') Hp) as [Hok Hcfg]. cbn in Hok, Hcfg.
  split_and!; [done|done|]. intros ip Hip. pose proof (alloc_cases p host family now now' Hp) as Hc. cbn zeta in Hc.
  destruct Hc as [[_ E]|[(e & _ & He & _ & E)|(_ & _ & r & p1 & _ & _ & E)]].
  - by rewrite E in Hip.
  - rewrite E in Hip. injection Hip as <-. destruct Hp as (_ & _ & _ & Hf). exact (Hf _ _ He).
  - destruct r as [ip'|]; [destruct E as (Hu & _ & E)|]; rewrite E in Hip; [by injection Hip as <-|done].
Qed.

Lemma trip_fake host q : trip (answer_allowed host q) (fake_action rs ev host q).
Proof.
  unfold fake_action. destruct (match rs_fake_filter rs with Some _ => _ | None => _ end); [apply trip_lookup_allowed|].
  eapply triple_bind; [apply trip_get_pool|]. intros [p|] Hp; [|by apply triple_ret].
  eapply triple_bind; [apply trip_instant|]. intros now _. eapply triple_bind; [apply trip_instant|]. intros now' _.
  destruct Hp as [Hp Hcfg]. destruct (alloc_fine p host (family_for_qtype q) now now' Hp) as (Hok & Hsame & Huse).
  destruct (alloc _ _ _ _ _) as [ip p']. cbn in *.
  eapply triple_bind; [apply trip_set_pool; cbn; by rewrite Hsame|]. intros _ _. apply triple_ret.
  destruct ip as [ip|]; [|done]. cbn. apply Forall_singleton. eapply from_pool; [done|by apply Huse].
Qed.

Lemma filtered_allowed host q a : a ∈ policy_actions ->
  answer_allowed host q (inl (live (filter_ips_for_qtype (action_ips a) q))).
Proof.
  intros Ha. cbn. apply list.Forall_forall. intros ip Hip. unfold filter_ips_for_qtype in Hip.
  apply list_elem_of_In, List.filter_In in Hip as [Hip Hq]. apply list_elem_of_In in Hip. by apply (from_action _ _ _ a).
Qed.

Lemma trip_default_qtype host q : trip (answer_allowed host q) (default_qtype rs ev host q).
Proof.
  unfold default_qtype. assert (Hin : default_action (rs_policy rs) ∈ policy_actions) by (unfold policy_actions; set_solver).
  destruct (default_action (rs_policy rs)) as [o|ips|g|g| |g o|g o| |pre] eqn:Ed;
    try apply trip_lookup_allowed; try (by apply triple_ret); [apply trip_reject|apply triple_ret, (filtered_allowed _ _ _ Hin)|apply trip_fake|].
  pose proof (filtered_allowed host q _ Hin) as Hf. cbn [action_ips] in Hf.
  destruct (answer_ips pre); apply triple_ret; done.
Qed.

Definition ctx_good (host : string) (q : QType) (ctx : EvalContext) : Prop :=
  match ec_saved_response ctx with Some ips => Forall (good (to_lowercase host) q) ips | None => True end.

Lemma trip_terminal host q ctx rule : ctx_good host q ctx -> pl_action rule ∈ policy_actions ->
  trip (answer_allowed host q) (terminal_action rs ev host q ctx rule).
Proof.
  intros Hctx Hin. unfold terminal_action. pose proof (filtered_allowed host q _ Hin) as Hf.
  destruct (pl_action rule) as [o|ips|g|g| |g o|g o| |pre]; cbn [action_ips] in Hf;
    try apply trip_lookup_allowed; [apply trip_reject|by apply triple_ret|apply trip_fake|by apply triple_ret| |].
  - apply triple_ret. unfold ctx_good in Hctx. destruct (ec_saved_response ctx); [|done].
    by apply answer_good_allowed.
  - destruct (answer_ips pre); apply triple_ret; [|done]. unfold predefined_empty. by destruct (default _ _).
Qed.

Lemma trip_rules host q rules : (forall r, r ∈ rules -> pl_action r ∈ policy_actions) -> forall ctx, ctx_good host q ctx ->
  trip (answer_allowed host q) (policy_rules rs ev rules host q ctx).
Proof.
  induction rules as [|rule rules IH]; intros Hin ctx Hctx; [apply trip_default_qtype|]. cbn [policy_rules].
  assert (Hrest : forall ctx, ctx_good host q ctx -> trip (answer_allowed host q) (policy_rules rs ev rules host q ctx))
    by (apply IH; intros r Hr; apply Hin; by right).
  destruct (matches _ _ _ _); [|by apply Hrest].
  pose proof (trip_terminal host q ctx rule Hctx (Hin rule ltac:(left))) as Ht.
  destruct (pl_action rule) as [o|ips|g|g| |g o|server opts| |pre]; try exact Ht.
  eapply (triple_bind _ (ctx_good host q)); [|by intros; apply Hrest].
  unfold evaluate_action. eapply triple_bind; [apply trip_lookup|]. intros [a|e] Hr; by apply triple_ret.
Qed.

Lemma trip_resolve host q : parse_ip host = None ->
  trip (answer_allowed (hosts_key host) q) (resolve_qtype_answer rs ev host q).
Proof.
  intros Hip. unfold resolve_qtype_answer. rewrite Hip. unfold resolve_policy_qtype.
  destruct (_ && _); [apply triple_ret; by apply Forall_nil|].
  destruct (rs_hosts rs) as [t|] eqn:Et; cbn [mbind option_bind].
  - destruct (hosts_lookup t (hosts_key host) q) as [ips|] eqn:El.
    + apply triple_ret. cbn. apply list.Forall_forall. intros ip Hin. by eapply from_hosts.
    + apply trip_rules; [|done]. intros r Hr. unfold policy_actions. apply elem_of_app. left. by apply list_elem_of_fmap_2.
  - apply trip_rules; [|done]. intros r Hr. unfold policy_actions. apply elem_of_app. left. by apply list_elem_of_fmap_2.
Qed.

(** ** Any sequence of operations *)
Inductive resolver_op : Type :=
| OpQuery (host : string) (q : QType)
| OpTask (i : nat)        (** a spawned refresh runs *)
| OpReset.                (** [reset_connections] clears the cache *)

(** Take the [i]-th pending task. *)
Definition take_task (i : nat) : M (option RefreshTask) := fun w =>
  (rw_pending w !! i,
   mkRWorld (rw_cache w) (rw_pool w) (rw_throttle w) (rw_bootstrap_throttle w) (delete i (rw_pending w)) (rw_store w)
     (rw_asked w) (rw_ticks w)).

Definition resolver_step (op : resolver_op) : M unit :=
  match op with
  | OpQuery host q => _ ← resolve_qtype_answer rs ev host q; mret tt
  | OpTask i =>
    t ← take_task i;
    match t with Some t => _ ← run_refresh rs ev t; mret tt | None => mret tt end
  | OpReset => c ← get_cache; set_cache (cache_clear c)
  end.

Definition resolver_run (ops : list resolver_op) (w : RWorld) : RWorld :=
  foldl (fun w op => (resolver_step op w).2) w ops.

Lemma step_good op w : world_good w -> world_good (resolver_step op w).2.
Proof.
  intros Hw. destruct op as [host q|i|].
  - cbn. unfold mbind, M_bind.
    assert (Hq : world_good (resolve_qtype_answer rs ev host q w).2).
    { destruct (parse_ip host) as [ip|] eqn:Hip; [unfold resolve_qtype_answer; by rewrite Hip|].
      by apply (trip_resolve host q Hip w Hw). }
    by destruct (resolve_qtype_answer rs ev host q w) as [r w'].
  - destruct Hw as [Hc Hp Hpend]. cbn. unfold mbind, M_bind, take_task.
    destruct (rw_pending w !! i) as [t|] eqn:Et.
    + set (w1 := mkRWorld _ _ _ _ _ _ _ _).
      assert (Hw1 : world_good w1) by (split; [done|done|by apply Forall_delete]).
      assert (Hf : ticket_fine (tk_ticket t)) by (eapply Forall_lookup_1 in Hpend; [|done]; done).
      destruct (trip_run_refresh t (pt_host (tk_ticket t)) (pt_qtype (tk_ticket t)) ltac:(by rewrite Hf) eq_refl w1 Hw1) as [Hr _].
      by destruct (run_refresh rs ev t w1) as [r w'].
    + split; [done|done|by apply Forall_delete].
  - destruct Hw as [Hc Hp Hpend]. by split.
Qed.

Lemma run_good ops : forall w, world_good w -> world_good (resolver_run ops w).
Proof.
  induction ops as [|op ops IH]; intros w Hw; [done|].
  change (resolver_run (op :: ops) w) with (resolver_run ops (resolver_step op w).2). by apply IH, step_good.
Qed.

Lemma query_allowed ops w host q a : world_good w -> parse_ip host = None ->
  (resolve_qtype_answer rs ev host q (resolver_run ops w)).1 = inl a ->
  Forall (allowed (hosts_key host) q) (ra_ips a).
Proof.
  intros Hw Hip Ha. destruct (trip_resolve host q Hip _ (run_good ops w Hw)) as [_ Hall]. by rewrite Ha in Hall.
Qed.
End Triples.

(** ** Theorems *)
Section Provenance.
Context `{IpNetLib} `{NetText} `{StrCase} `{HashIter}.

(** Some group answered a question for this name and family with this address. *)
Definition answered_for (ev : REnv) (host_lc : string) (q : QType) (ip : IpAddr) : Prop :=
  exists n qs v, re_answer ev n qs = inl v /\ ip ∈ v /\ to_lowercase (qs_host qs) = host_lc
  /\ (q = QBoth \/ q = family_type (qs_v6 qs)).

(** A flight that another caller leads for the same key gives that caller's answer. *)
Definition flights_honest (ev : REnv) : Prop := forall n host q v,
  re_joined ev n (host, q) = Some (inl v) -> Forall (answered_for ev (to_lowercase host) q) v.

(** The resolver as it starts: nothing cached or pending, a well-formed pool. *)
Record fresh_world (fakes : option FakeIpConfig) (w : RWorld) : Prop := {
  fw_cache : dc_inner (rw_cache w) = ∅;
  fw_pool : match rw_pool w with Some p => pool_ok p /\ fakes = Some (fp_cfg p) | None => True end;
  fw_pending : rw_pending w = []
}.

Lemma fresh_world_good good fakes w : fresh_world fakes w -> world_good good fakes w.
Proof.
  intros [Hc Hp Hpe]. split; [|exact Hp|by rewrite Hpe]. unfold cache_good. rewrite Hc. apply map_Forall_empty.
Qed.

(** [C21] Every address the resolver returns for a name, after any queries, refreshes and
    cache resets, was given by a group that was asked for this very name and family, or is
    of the hosts table under this name, or is written in an action of the policy, or comes
    from the fake-IP range: what was cached for one name is never answered for another. *)
Theorem resolver_answer_provenance rs ev fakes w ops host q a :
  (forall s, to_lowercase (to_lowercase s) = to_lowercase s) -> flights_honest ev -> fresh_world fakes w ->
  parse_ip host = None ->
  (resolve_qtype_answer rs ev host q (resolver_run rs ev ops w)).1 = inl a ->
  Forall (allowed rs (answered_for ev) fakes (hosts_key host) q) (ra_ips a).
Proof.
  intros Hlow Hfl Hw Hip Ha.
  assert (AnswersGood ev (answered_for ev)).
  { split; [done| | |done].
    - intros h q' ip (n & qs & v & ? & ? & ? & _). exists n, qs, v. auto.
    - intros n qs v Hv. apply list.Forall_forall. intros ip Hin. exists n, qs, v. auto. }
  by eapply (query_allowed rs ev (answered_for ev) fakes ops w); [apply fresh_world_good| |exact Ha].
Qed.

Definition of_family (_ : string) (q : QType) (ip : IpAddr) : Prop := qtype_matches_ip q ip = true.

Lemma usable_family cfg q ip : usable cfg (family_for_qtype q) ip -> qtype_matches_ip q ip = true.
Proof. intros [Hu _]. destruct q, ip; done. Qed.

Lemma hosts_lookup_family t host q ips ip : hosts_lookup t host q = Some ips -> ip ∈ ips -> qtype_matches_ip q ip = true.
Proof.
  unfold hosts_lookup. destruct (t !! host) as [e|]; [|done]. destruct (_ =? 0); [done|]. intros [= <-] Hip.
  destruct q; [| |done]; apply list_elem_of_fmap in Hip as (x & -> & _); done.
Qed.

(** The family of the answer: as long as the groups answer [A] questions with IPv4 and
    [AAAA] questions with IPv6 addresses, so does the resolver, whichever path the answer
    takes (literal address, hosts, policy action, fake address, cache, refresh, upstream),
    after any sequence of operations. *)
Theorem resolver_answer_family rs ev fakes w ops host q a :
  (forall s, to_lowercase (to_lowercase s) = to_lowercase s) ->
  (forall n qs v, re_answer ev n qs = inl v -> Forall (of_family "" (family_type (qs_v6 qs))) v) ->
  (forall n h q v, re_joined ev n (h, q) = Some (inl v) -> Forall (of_family "" q) v) ->
  fresh_world fakes w ->
  (resolve_qtype_answer rs ev host q (resolver_run rs ev ops w)).1 = inl a ->
  Forall (fun ip => qtype_matches_ip q ip = true) (ra_ips a).
Proof.
  intros Hlow Hans Hfl Hw Ha. assert (AnswersGood ev of_family).
  { split; [done| | |]; [by intros h [] ip|exact Hans|exact Hfl]. }
  destruct (parse_ip host) as [ip|] eqn:Hip.
  - unfold resolve_qtype_answer in Ha. rewrite Hip in Ha. injection Ha as <-. cbn.
    destruct (qtype_matches_ip q ip) eqn:E; [by apply Forall_singleton|by apply Forall_nil].
  - eapply Forall_impl; [eapply (query_allowed rs ev of_family fakes); [by apply fresh_world_good|done|exact Ha]|].
    intros ip [Hg|t ips Ht Hl Hin|act Hact Hin Hq|cfg Hf Hu]; [done|by eapply hosts_lookup_family|done|by eapply usable_family].
Qed.
End Provenance.
