(* ===== verification/DnsResolveSpec.v ===== *)
(** * What the policy means, and where the cache changes it

    The documented reading of a policy (module doc of [resolver.rs]) is a function of the
    groups' answers alone: rules in order, [evaluate] keeps an answer for the rules after
    it, every other action ends.  [policy_choice] and [spec_action] write it down; [DnsResolve.v] computes it
    when no action goes through the cache, and does not when one does, because the cache
    key has no group.  Also here: the fallback decision and the path for direct traffic. *)

From stdpp Require Import base list gmap strings numbers option.
From S2P Require Import Prelude Text Net FakeIp DnsCache Loopback DnsService DnsGroup DnsPolicy DnsHosts DnsResolve DnsResolveInv Instances DnsInstances.

Section Worlds.
Context `{IpNetLib} `{NetText} `{StrCase} `{HashIter}.

(** The world but for the questions and the position. *)
Definition same_state (w w' : RWorld) : Prop :=
  rw_cache w = rw_cache w' /\ rw_pool w = rw_pool w' /\ rw_throttle w = rw_throttle w'
  /\ rw_bootstrap_throttle w = rw_bootstrap_throttle w' /\ rw_pending w = rw_pending w' /\ rw_store w = rw_store w'.

Lemma same_state_refl w : same_state w w.
Proof. by split_and!. Qed.

Lemma same_state_trans w1 w2 w3 : same_state w1 w2 -> same_state w2 w3 -> same_state w1 w3.
Proof. unfold same_state. intuition congruence. Qed.

(** A step that only asks *)
Definition keeps_state {A} (m : M A) : Prop := forall w, same_state (m w).2 w.

Lemma keeps_ret {A} (a : A) : keeps_state (mret a).
Proof. intros w. apply same_state_refl. Qed.

Lemma keeps_bind {A B} (m : M A) (f : A -> M B) : keeps_state m -> (forall a, keeps_state (f a)) -> keeps_state (m ≫= f).
Proof.
  intros Hm Hf w. unfold mbind, M_bind. specialize (Hm w). destruct (m w) as [a w1]. cbn in Hm. eapply same_state_trans; [apply Hf|done].
Qed.

Lemma keeps_ask ev qs : keeps_state (ask ev qs).
Proof. intros w. by split_and!. Qed.

Lemma keeps_group ev group host q strategy : keeps_state (resolve_group_qtype ev group host q strategy).
Proof. destruct q; cbn; [apply keeps_ask..|]. repeat (apply keeps_bind; [apply keeps_ask|intros]). apply keeps_ret. Qed.

Lemma keeps_default rs ev host q strategy : keeps_state (resolve_default rs ev host q strategy).
Proof. unfold resolve_default. repeat (case_match || (apply keeps_bind; [apply keeps_group|intros])); apply keeps_ret. Qed.

Lemma keeps_flight rs ev host group opts q : qo_disable_cache opts = true -> keeps_state (lookup_flight rs ev host group opts q).
Proof.
  intros Hc. unfold lookup_flight, lookup_uncached. rewrite Hc. apply keeps_bind; [intros w; by split_and!|]. intros n. apply keeps_bind.
  - destruct (re_joined ev n (host, q)); [apply keeps_ret|]. destruct (String.eqb group "default"); [apply keeps_bind; [apply keeps_default|]; intros; apply keeps_ret|].
    destruct (rs_groups rs !! group); [apply keeps_group|apply keeps_ret].
  - intros [ips|e]; [|apply keeps_ret]. cbn [negb andb]. apply keeps_bind; intros; apply keeps_ret.
Qed.
End Worlds.

Section Spec.
Context `{IpNetLib} `{NetText} `{StrCase} `{HashIter}.
Context (rs : Resolver).

(** ** The reading of the policy

    [L server opts] is what the group answers, [None] an error. *)
Section Reading.
Context (L : string -> QueryOptions -> option (list IpAddr)) (host : string) (q : QType).

Definition spec_action (saved : option (list IpAddr)) (a : DnsAction) : option (list IpAddr) :=
  match a with
  | DRoute server opts => L server opts
  | DDirect g | DProxy g => L g QueryOptions_default
  | DAccept ips => Some (filter_ips_for_qtype ips q)
  | DPredefined pre =>
    match answer_ips pre, default NOERROR (pr_rcode pre) with
    | [], NOERROR => Some []
    | [], _ => None
    | ips, _ => Some (filter_ips_for_qtype ips q)
    end
  | DRespond => saved
  | DReject _ | DFake | DEvaluate _ _ => None
  end.

(** The rule that decides, with what the [evaluate] rules before it kept; [None] is the default. *)
Fixpoint policy_choice (rules : list PolicyRule) (ctx : EvalContext) : option (PolicyRule * EvalContext) :=
  match rules with
  | [] => None
  | rule :: rest =>
    if matches (pl_matcher rule) host ctx (pe_ruleset_index (rs_policy rs)) then
      match pl_action rule with
      | DEvaluate server opts => policy_choice rest (match L server opts with Some v => mkEvalContext (Some v) (Some opts) | None => ctx end)
      | _ => Some (rule, ctx)
      end
    else policy_choice rest ctx
  end.
End Reading.

(** ** Groups whose answers do not depend on when they are asked *)
Definition stationary (ev : REnv) : Prop :=
  (forall n m q, re_answer ev n q = re_answer ev m q) /\ (forall n k, re_joined ev n k = None).

Section Const.
Context (ev : REnv).

(** The value does not depend on the world. *)
Definition const_result {A} (m : M A) : Prop := forall w w', (m w).1 = (m w').1.

Lemma const_ret {A} (a : A) : const_result (mret a).
Proof. done. Qed.

Lemma const_bind {A B} (m : M A) (f : A -> M B) :
  const_result m -> (forall a, const_result (f a)) -> const_result (m ≫= f).
Proof.
  intros Hm Hf w w'. unfold mbind, M_bind. specialize (Hm w w').
  destruct (m w) as [a w1], (m w') as [a' w1']. cbn in Hm. subst. apply Hf.
Qed.

(** The value of the first step may depend on the world when the second does not. *)
Lemma const_any {A B} (m : M A) (f : A -> M B) :
  (forall a a' w w', (f a w).1 = (f a' w').1) -> const_result (m ≫= f).
Proof. intros Hf w w'. unfold mbind, M_bind. destruct (m w) as [a w1], (m w') as [a' w1']. apply Hf. Qed.

Hypothesis Hst : stationary ev.

Lemma const_ask qs : const_result (ask ev qs).
Proof. intros w w'. unfold ask, tick, log_question, mbind, M_bind. cbn. apply Hst. Qed.

Lemma const_group group host q strategy : const_result (resolve_group_qtype ev group host q strategy).
Proof.
  destruct q; [apply const_ask|apply const_ask|]. cbn.
  apply const_bind; [apply const_ask|]. intros r4. apply const_bind; [apply const_ask|]. intros r6. apply const_ret.
Qed.

Lemma const_group_lift group host q strategy :
  const_result (r ← resolve_group_qtype ev group host q strategy; mret (lift_err r)).
Proof. apply const_bind; [apply const_group|]. intros r. apply const_ret. Qed.

Lemma const_default host q strategy : const_result (resolve_default rs ev host q strategy).
Proof.
  unfold resolve_default. destruct (rs_groups rs !! "default"); [|apply const_ret].
  destruct (rs_fallback_group rs) as [fb|]; [|apply const_group_lift].
  destruct (rs_groups rs !! fb); [|apply const_ret]. destruct (matches_domain _ _ _); [apply const_group_lift|].
  apply const_bind; [apply const_group|]. intros [[|ip ips]|e]; try apply const_group_lift.
  destruct (existsb _ _); [apply const_group_lift|apply const_ret].
Qed.

Lemma const_flight host group opts q : const_result (lookup_flight rs ev host group opts q).
Proof.
  assert (Hu : const_result (lookup_uncached rs ev host group q (qo_strategy opts))).
  { unfold lookup_uncached. destruct (String.eqb group "default").
    - apply const_bind; [apply const_default|]. intros r. apply const_ret.
    - destruct (rs_groups rs !! group); [apply const_group|apply const_ret]. }
  apply const_any. intros n n' w w'. rewrite !(proj2 Hst). revert w w'.
  apply const_bind; [exact Hu|]. intros [v|e]; [|apply const_ret]. apply const_any. done.
Qed.
End Const.

(** ** The code computes the reading when no [evaluate] goes through the cache *)
Definition answer_ips_of (r : re_result ResolveAnswer) : option (list IpAddr) :=
  match r with inl a => Some (ra_ips a) | inr _ => None end.

Definition bypasses_cache (a : DnsAction) : Prop :=
  match a with
  | DRoute _ opts | DEvaluate _ opts => qo_disable_cache opts = true
  | DDirect _ | DProxy _ | DFake => False
  | _ => True
  end.

Definition evaluate_bypasses (a : DnsAction) : Prop := match a with DEvaluate _ opts => qo_disable_cache opts = true | _ => True end.

Lemma spec_terminal ev host q ctx rule w w0 :
  stationary ev -> bypasses_cache (pl_action rule) -> is_terminal (pl_action rule) = true ->
  answer_ips_of (terminal_action rs ev host q ctx rule w).1
  = spec_action (fun s o => answer_ips_of (lookup_flight rs ev host s o q w0).1) q (ec_saved_response ctx) (pl_action rule).
Proof.
  intros Hst Hby Hterm. unfold terminal_action, spec_action.
  destruct (pl_action rule) as [o|ips|g|g| |server opts|server opts| |pre]; try done.
  - unfold reject_action, mbind, M_bind. destruct (instant ev w) as [now w1], (get_throttle w1) as [t w2].
    destruct (apply_reject_throttle t o (pl_source rule) now) as [[] t']; done.
  - cbn in Hby. unfold lookup_via_qtype. rewrite Hby. f_equal. by apply const_flight.
  - cbn. by destruct (ec_saved_response ctx).
  - destruct (answer_ips pre); [|done]. cbn. unfold predefined_empty. by destruct (default NOERROR (pr_rcode pre)).
Qed.

Lemma choice_terminal L host rules ctx rule ctx' : policy_choice L host rules ctx = Some (rule, ctx') -> is_terminal (pl_action rule) = true.
Proof.
  revert ctx. induction rules as [|r rules IH]; intros ctx E; [done|]. cbn in E. destruct (matches _ _ _ _); [|by eapply IH].
  destruct (pl_action r) eqn:Ea; try (by injection E as <- _; rewrite Ea). by eapply IH.
Qed.

Lemma policy_rules_choice ev host q w0 rules : stationary ev -> Forall (fun r => evaluate_bypasses (pl_action r)) rules ->
  forall ctx w, exists w', same_state w' w /\
    (policy_rules rs ev rules host q ctx w).1
    = match policy_choice (fun s o => answer_ips_of (lookup_flight rs ev host s o q w0).1) host rules ctx with
      | Some (rule, ctx') => (terminal_action rs ev host q ctx' rule w').1
      | None => (default_qtype rs ev host q w').1
      end.
Proof.
  intros Hst Hall. induction Hall as [|rule rules Hby Hall IH]; intros ctx w; [exists w; split; [apply same_state_refl|done]|].
  cbn [policy_rules policy_choice]. destruct (matches _ _ _ _); [|apply IH].
  destruct (pl_action rule) as [o|ips|g|g| |server opts|server opts| |pre]; try (exists w; split; [apply same_state_refl|done]).
  cbn in Hby. unfold evaluate_action, lookup_via_qtype. rewrite Hby. unfold mbind, M_bind.
  pose proof (const_flight ev Hst host server opts q w w0) as Hc. pose proof (keeps_flight rs ev host server opts q Hby w) as Hk.
  destruct (lookup_flight rs ev host server opts q w) as [r w1]. cbn in Hc, Hk. rewrite <- Hc. cbn.
  destruct r as [a|e]; cbn; (edestruct IH as (w' & Hw & E); exists w'; split; [by eapply same_state_trans|exact E]).
Qed.

(** [C22] What a query is answered.  An address is itself, for its own family.  AAAA queries are
    empty with IPv6 off.  A hosts entry is taken as it is.  Otherwise the policy is read in order:
    the first matching rule that is not [evaluate] decides, or the default does, and it sees the
    answer kept by the last [evaluate] before it that got one; its answer is computed in the
    cache, pool and throttle the query found.  A rule whose action does not go through the cache
    (and is no fake-IP rule) answers what its group answers, its own addresses or an error.  For
    groups that give the same answer whenever they are asked, no query joined, and a policy whose
    [evaluate] rules have the cache disabled. *)
Theorem policy_refines_reading ev host q w w0 :
  let L s o := answer_ips_of (lookup_flight rs ev (hosts_key host) s o q w0).1 in
  let result := (resolve_qtype_answer rs ev host q w).1 in
  stationary ev -> Forall (fun r => evaluate_bypasses (pl_action r)) (pe_rules (rs_policy rs)) ->
  match parse_ip host with
  | Some ip => answer_ips_of result = Some (if qtype_matches_ip q ip then [ip] else [])
  | None =>
    if negb (rs_ipv6_enabled rs) && bool_decide (q = QAAAA) then answer_ips_of result = Some [] else
    match (t ← rs_hosts rs; hosts_lookup t (hosts_key host) q) with
    | Some ips => answer_ips_of result = Some ips
    | None => exists w', same_state w' w /\
      match policy_choice L (hosts_key host) (pe_rules (rs_policy rs)) EvalContext_default with
      | Some (rule, ctx) =>
        result = (terminal_action rs ev (hosts_key host) q ctx rule w').1
        /\ (bypasses_cache (pl_action rule) -> answer_ips_of result = spec_action L q (ec_saved_response ctx) (pl_action rule))
      | None => result = (default_qtype rs ev (hosts_key host) q w').1
      end
    end
  end.
Proof.
  intros L result Hst Hall. unfold result, resolve_qtype_answer. destruct (parse_ip host) as [ip|]; [done|]. unfold resolve_policy_qtype.
  destruct (negb (rs_ipv6_enabled rs) && bool_decide (q = QAAAA)); [done|]. destruct (t ← rs_hosts rs; hosts_lookup t (hosts_key host) q) as [ips|]; [done|].
  destruct (policy_rules_choice ev (hosts_key host) q w0 _ Hst Hall EvalContext_default w) as (w' & Hw & E). exists w'. split; [done|]. fold L in E.
  destruct (policy_choice L (hosts_key host) _ _) as [[rule ctx]|] eqn:Ec; [|done]. split; [done|]. intros Hby. rewrite E. apply spec_terminal; [done|done|]. by eapply choice_terminal.
Qed.

(** ** The fallback decision *)

(** [C25] The fallback filter, for a query of one family: with [domain] matched only the
    fallback group is asked; otherwise the main group is, and its answer is returned
    exactly when it is an answer none of whose addresses the filter rejects; else the
    fallback group is asked and its result returned.  The questions asked are these and no
    others. *)
Theorem fallback_filter_decides ev fb host v6 strategy w :
  is_Some (rs_groups rs !! "default") -> rs_fallback_group rs = Some fb -> is_Some (rs_groups rs !! fb) ->
  let n := rw_ticks w in
  let main := mkQuestion "default" host v6 strategy in
  let other := mkQuestion fb host v6 strategy in
  let idx := pe_ruleset_index (rs_policy rs) in
  let '(r, w') := resolve_default rs ev host (family_type v6) strategy w in
  if matches_domain (rs_fallback_filter rs) host idx then
    r = lift_err (re_answer ev n other) /\ rw_asked w' = rw_asked w ++ [other]
  else if match re_answer ev n main with
          | inl ips => negb (len ips =? 0) && negb (existsb (fun ip => should_ip_fallback (rs_fallback_filter rs) ip idx) ips)
          | inr _ => false
          end
  then r = lift_err (re_answer ev n main) /\ rw_asked w' = rw_asked w ++ [main]
  else r = lift_err (re_answer ev (S n) other) /\ rw_asked w' = rw_asked w ++ [main; other].
Proof.
  intros [d Hd] Hfb [f Hf]. cbn zeta. unfold resolve_default. rewrite Hd, Hfb, Hf.
  set (fbf := rs_fallback_filter rs). set (idx := pe_ruleset_index (rs_policy rs)).
  destruct v6; cbn [family_type resolve_group_qtype]; unfold mbind, M_bind, ask, tick, log_question, mbind, M_bind;
    (destruct (matches_domain fbf host idx); [done|]);
    cbn -[existsb len]; (destruct (re_answer ev (rw_ticks w) _) as [[|ip ips]|e]; cbn -[existsb len]);
    try (by rewrite <- app_assoc);
    (replace (len (ip :: ips) =? 0) with false by (symmetry; apply Z.eqb_neq; unfold len; cbn; lia));
    cbn -[existsb]; (destruct (existsb _ (ip :: ips)); cbn; [by rewrite <- app_assoc|done]).
Qed.
End Spec.

(** ** The path for direct traffic *)
Section Direct.
Context `{IpNetLib} `{NetText} `{StrCase} `{HashIter}.

Definition direct_group (rs : Resolver) : string :=
  match rs_groups rs !! "direct-nameserver" with Some _ => "direct-nameserver" | None => "default" end.

(** What the direct path reads of a resolver. *)
Definition same_direct (rs rs' : Resolver) : Prop :=
  rs_hosts rs = rs_hosts rs' /\ rs_ipv6_enabled rs = rs_ipv6_enabled rs'
  /\ (forall g, g ∈ ["direct-nameserver"; "default"] -> is_Some (rs_groups rs !! g) <-> is_Some (rs_groups rs' !! g)).

Lemma dual_isolated rs rs' ev host group w w' :
  rs_ipv6_enabled rs = rs_ipv6_enabled rs' -> rw_ticks w = rw_ticks w' ->
  (resolve_via_group_dual rs ev host group w).1 = (resolve_via_group_dual rs' ev host group w').1
  /\ same_state (resolve_via_group_dual rs ev host group w).2 w
  /\ exists asked, rw_asked (resolve_via_group_dual rs ev host group w).2 = rw_asked w ++ asked
     /\ Forall (fun qn => qs_group qn = group) asked.
Proof.
  intros H6 Ht. unfold resolve_via_group_dual, ask, tick, log_question, mbind, M_bind. cbn. rewrite <- H6, <- Ht.
  destruct (re_answer ev (rw_ticks w) _) as [[|ip ips]|e]; [|by split_and!; [| |eexists; split; [done|repeat constructor]]|];
    (destruct (rs_ipv6_enabled rs); [|by split_and!; [| |eexists; split; [done|repeat constructor]]]);
    cbn; (split; [done|]); (split; [done|]); eexists; rewrite <- app_assoc; (split; [done|by repeat constructor]).
Qed.

(** [C24] Resolving for direct traffic is independent of the policy, the fake-IP pool, the
    cache and the groups for proxies: two resolvers that agree on hosts, IPv6 and on which
    of [direct-nameserver] and [default] exist give the same result, every question goes
    to [direct-nameserver] where it is configured and to [default] otherwise, and nothing
    else changes. *)
Theorem direct_path_isolated rs rs' ev host w w' :
  same_direct rs rs' -> rw_ticks w = rw_ticks w' ->
  (resolve_via_direct rs ev host w).1 = (resolve_via_direct rs' ev host w').1
  /\ same_state (resolve_via_direct rs ev host w).2 w
  /\ exists asked, rw_asked (resolve_via_direct rs ev host w).2 = rw_asked w ++ asked
     /\ Forall (fun qn => qs_group qn = direct_group rs) asked.
Proof.
  intros (Hh & H6 & Hg) Ht. unfold resolve_via_direct.
  destruct (parse_ip host) as [ip|]; [by split_and!; [| |exists []; rewrite app_nil_r]|].
  rewrite <- Hh, <- H6. destruct (t ← rs_hosts rs; _) as [[|ip ips]|];
    [|by split_and!; [| |exists []; rewrite app_nil_r]|].
  all: pose proof (Hg "direct-nameserver" ltac:(set_solver)) as [G1 G2]; pose proof (Hg "default" ltac:(set_solver)) as [G3 G4];
    unfold direct_group; destruct (rs_groups rs !! "direct-nameserver") as [m|].
  all: try (destruct (G1 ltac:(by eexists)) as [m' ->]; by apply dual_isolated).
  all: destruct (rs_groups rs' !! "direct-nameserver") as [m'|]; [by destruct (G2 ltac:(by eexists))|].
  all: destruct (rs_groups rs !! "default") as [m|].
  all: try (destruct (G3 ltac:(by eexists)) as [m' ->]; by apply dual_isolated).
  all: destruct (rs_groups rs' !! "default") as [m'|]; [by destruct (G4 ltac:(by eexists))|].
  all: by split_and!; [| |exists []; rewrite app_nil_r].
Qed.
End Direct.

(** ** Where the cache changes the policy *)
Section Shadow.
Context `{IpNetLib} `{NetText} `{StrCase} `{HashIter}.
Context (rs : Resolver).

(** A lookup of a name that is not cached asks the group and stores the answer... *)
Lemma lookup_miss ev A host w ip ips : let n := rw_ticks w in
  rs_optimistic rs = true -> A <> "default" -> is_Some (rs_groups rs !! A) ->
  dc_inner (rw_cache w) !! (to_lowercase host, QA) = None ->
  re_joined ev (n + 2) (host, QA) = None ->
  re_answer ev (n + 3) (mkQuestion A host false None) = inl (ip :: ips) ->
  exists w1, lookup_via_qtype rs ev host A QueryOptions_default QA w = (inl (live (ip :: ips)), w1)
  /\ rw_cache w1 = put (rw_cache w) host QA (ip :: ips) (rs_default_ttl rs) "live" (re_clock ev (n + 4))
  /\ rw_asked w1 = rw_asked w ++ [mkQuestion A host false None] /\ rw_ticks w1 = (n + 6)%nat.
Proof.
  cbn zeta. intros Hopt HA [mA HgA] Hmiss Hj Hans. rewrite !Nat.add_succ_r, Nat.add_0_r in *.
  unfold lookup_via_qtype, mbind, M_bind, instant, tick, get_cache, mbind, M_bind. cbn -[get_with].
  rewrite Hopt. unfold get_with at 1, get at 1. cbn [negb orb]. rewrite Hmiss. cbn -[put String.eqb].
  unfold lookup_flight, mbind, M_bind, tick. cbn -[put String.eqb]. rewrite Hj. unfold lookup_uncached.
  rewrite (proj2 (String.eqb_neq A "default") HA), HgA. cbn -[put]. unfold log_question, mbind, M_bind, ask, tick. cbn -[put].
  unfold log_question, mbind, M_bind. cbn -[put]. rewrite Hans. cbn -[put]. eexists. split_and!; [reflexivity|done|done|done].
Qed.

(** ... and a lookup in any group finds a fresh entry. *)
Lemma lookup_hit ev B host w c2 ips : rs_optimistic rs = true -> ips <> [] ->
  get_with (rw_cache w) host QA false (re_clock ev (rw_ticks w)) (re_clock ev (S (rw_ticks w)))
    = (c2, (Some ips, Fresh, None)) ->
  let '(r, w') := lookup_via_qtype rs ev host B QueryOptions_default QA w in
  r = inl (live ips) /\ rw_asked w' = rw_asked w.
Proof.
  intros Hopt Hne Hget. unfold lookup_via_qtype, mbind, M_bind, instant, tick, get_cache, mbind, M_bind. cbn -[get_with].
  rewrite Hopt. cbn [negb orb]. rewrite Hget. cbn. destruct ips; [done|]. done.
Qed.

Lemma put_then_get c host ips ttl now0 now now' : ips <> [] -> dc_inner c !! (to_lowercase host, QA) = None ->
  Z.of_nat (size (dc_inner c)) < cc_max_entries (dc_cfg c) ->
  now < now0 + ttl -> cc_prefetch_threshold (dc_cfg c) <= now0 + ttl - now ->
  exists c2, get_with (put c host QA ips ttl "live" now0) host QA false now now' = (c2, (Some ips, Fresh, None)).
Proof.
  intros Hne Hmiss Hsize Hlive Hpre. unfold put.
  replace (len ips =? 0) with false by (symmetry; apply Z.eqb_neq; destruct ips; [done|unfold len; cbn; lia]).
  cbn [insert_slot dc_cfg dc_inner].
  rewrite map_size_insert_None by done. rewrite (proj2 (Z.ltb_ge _ _)) by lia.
  unfold get_with, get. cbn [dc_inner insert_slot]. rewrite lookup_insert_eq. cbn -[Z.ltb].
  rewrite (proj2 (Z.ltb_lt _ _)) by lia. rewrite (proj2 (Z.ltb_ge (_ - _) _)) by lia. cbn. by eexists.
Qed.

(** [C23] An answer kept by [evaluate] takes the place of the answer of the group that a later
    rule names: with the rules [any -> evaluate:A] and [any -> direct:B], a name that is not
    cached gets the answer of [A], and [B] is never asked.  The first lookup stores the
    answer under the name and the query type, without the group, and the second finds it. *)
Theorem evaluate_answer_shadows_group ev A B s1 s2 host w ip ips :
  let n := rw_ticks w in
  pe_rules (rs_policy rs) = [mkPolicyRule HAny (DEvaluate A QueryOptions_default) s1; mkPolicyRule HAny (DDirect B) s2] ->
  rs_hosts rs = None -> rs_optimistic rs = true -> A <> "default" -> is_Some (rs_groups rs !! A) ->
  dc_inner (rw_cache w) !! (to_lowercase host, QA) = None ->
  Z.of_nat (size (dc_inner (rw_cache w))) < cc_max_entries (dc_cfg (rw_cache w)) ->
  re_joined ev (n + 2) (host, QA) = None ->
  re_answer ev (n + 3) (mkQuestion A host false None) = inl (ip :: ips) ->
  re_clock ev (n + 6) < re_clock ev (n + 4) + rs_default_ttl rs ->
  cc_prefetch_threshold (dc_cfg (rw_cache w)) <= re_clock ev (n + 4) + rs_default_ttl rs - re_clock ev (n + 6) ->
  let '(r, w') := resolve_policy_qtype rs ev host QA w in
  r = inl (live (ip :: ips)) /\ rw_asked w' = rw_asked w ++ [mkQuestion A host false None].
Proof.
  cbn zeta. intros Hr Hh Hopt HA Hg Hmiss Hsize Hj Hans Hlive Hpre.
  unfold resolve_policy_qtype. rewrite bool_decide_eq_false_2 by done. rewrite andb_false_r, Hh, Hr.
  cbn [mbind option_bind policy_rules matches pl_matcher pl_action].
  unfold evaluate_action, terminal_action, mbind, M_bind. cbn [pl_action].
  destruct (lookup_miss ev A host w ip ips Hopt HA Hg Hmiss Hj Hans) as (w1 & -> & Hc & Ha & Ht).
  cbn -[lookup_via_qtype].
  destruct (put_then_get (rw_cache w) host (ip :: ips) (rs_default_ttl rs) (re_clock ev (rw_ticks w + 4))
              (re_clock ev (rw_ticks w1)) (re_clock ev (S (rw_ticks w1)))) as [c2 Hget]; try done.
  { by rewrite Ht. }
  { by rewrite Ht. }
  rewrite <- Hc in Hget. pose proof (lookup_hit ev B host w1 c2 (ip :: ips) Hopt ltac:(done) Hget) as Hhit.
  destruct (lookup_via_qtype rs ev host B QueryOptions_default QA w1) as [r w2]. destruct Hhit as [-> E].
  split; [done|by rewrite E].
Qed.

(** A predefined [NOERROR] response without records is an empty answer as the action of
    a rule, and a rejection as the default action. *)
Theorem default_predefined_rejects ev host q ctx w pre src :
  answer_ips pre = [] -> default NOERROR (pr_rcode pre) = NOERROR ->
  pe_default_action (rs_policy rs) = Some (DPredefined pre) ->
  (terminal_action rs ev host q ctx (mkPolicyRule HAny (DPredefined pre) src) w).1 = inl (live [])
  /\ (default_qtype rs ev host q w).1 = inr (ReRejected host).
Proof.
  intros Hips Hrc Hd. unfold terminal_action, default_qtype, default_action, predefined_empty. cbn. rewrite Hd. cbn.
  rewrite Hips. cbn. by rewrite Hrc.
Qed.
End Shadow.

(** ** Witnesses, and a policy that changes its mind *)
Module DnsResolveWitness.
Import Concrete.

Definition ip_a : IpAddr := V4 167772161.   (* 10.0.0.1 *)
Definition ip_b : IpAddr := V4 134744072.   (* 8.8.8.8 *)
Definition ten : IpNet := Net4 (@mkCidr 32 10 24 eq_refl : Ipv4Net).

(** Group [a] answers 10.0.0.1, the others 8.8.8.8; time passes in steps of a second. *)
Definition ev : REnv :=
  mkREnv (fun n => 1000 * Z.of_nat n) (fun n => Z.of_nat n)
    (fun _ qs => if qs_v6 qs then inr DeEmpty else if String.eqb (qs_group qs) "a" then inl [ip_a] else inl [ip_b])
    (fun _ _ => None) (fun _ => true).

Definition no_filter : RuntimeFallbackFilter := mkRuntimeFallbackFilter [] [] None.
Definition policy_of (rules : list PolicyRule) (dflt : DnsAction) : PolicyEngine := mkPolicyEngine rules None (Some dflt).
Definition resolver_of (rules : list PolicyRule) (dflt : DnsAction) (fb : option string) (f : RuntimeFallbackFilter) : Resolver :=
  mkResolver {["default" := []; "a" := []; "b" := []]} (policy_of rules dflt) "default" (policy_of [] (DDirect "default"))
    fb f None None true true 300000 None.

Definition cache_cfg : CacheConfig := mkCacheConfig 100 86400000 30000 1800 30000 30 60000.
Definition w0 : RWorld :=
  mkRWorld (DnsCache_new cache_cfg) None RejectThrottle_default RejectThrottle_default [] None [] 0.

Definition nocache : QueryOptions := mkQueryOptions true false None None None.

Lemma w0_fresh : fresh_world None w0.
Proof. split; [done|exact I|done]. Qed.

Definition two_rules : Resolver :=
  resolver_of [mkPolicyRule HAny (DEvaluate "a" QueryOptions_default) "r1"; mkPolicyRule HAny (DDirect "b") "r2"] (DDirect "default") None no_filter.

Lemma evaluate_answer_shadows_group_witness :
  let '(r, w') := resolve_policy_qtype two_rules ev "x.test" QA w0 in
  r = inl (live [ip_a]) /\ rw_asked w' = [] ++ [mkQuestion "a" "x.test" false None].
Proof.
  apply (evaluate_answer_shadows_group two_rules ev "a" "b" "r1" "r2" "x.test" w0 ip_a []); try (vm_compute; reflexivity).
  - discriminate.
  - vm_compute. by eexists.
  - vm_compute. discriminate.
Defined.

Lemma resolver_answer_provenance_witness :
  Forall (allowed two_rules (answered_for ev) None (hosts_key "X.test.") QA) [ip_a].
Proof.
  apply (resolver_answer_provenance two_rules ev None w0 [OpQuery "x.test" QA; OpReset] "X.test." QA (live [ip_a])).
  - exact ascii_lower_idem.
  - intros n h q v Hv. discriminate Hv.
  - exact w0_fresh.
  - vm_compute. reflexivity.
  - vm_compute. reflexivity.
Defined.

Lemma resolver_answer_family_witness : Forall (fun ip => qtype_matches_ip QA ip = true) [ip_a].
Proof.
  apply (resolver_answer_family two_rules ev None w0 [OpQuery "x.test" QA; OpQuery "x.test" QAAAA; OpTask 0] "x.test" QA (live [ip_a])).
  - exact ascii_lower_idem.
  - intros n qs v. cbn. destruct (qs_v6 qs); [discriminate|]. destruct (String.eqb _ _); intros [= <-]; by repeat constructor.
  - intros n h q v Hv. discriminate Hv.
  - exact w0_fresh.
  - vm_compute. reflexivity.
Defined.

(** [evaluate] with the cache disabled, then a rule on the answer. *)
Definition by_response : list PolicyRule :=
  [mkPolicyRule HAny (DEvaluate "a" nocache) "r1"; mkPolicyRule (HResponseIpCidr ten) (DRoute "b" nocache) "r2"].

Lemma policy_refines_reading_witness :
  answer_ips_of (resolve_qtype_answer (resolver_of by_response (DAccept []) None no_filter) ev "x.test" QA w0).1
  = spec_action (fun s o => answer_ips_of (lookup_flight (resolver_of by_response (DAccept []) None no_filter) ev (hosts_key "x.test") s o QA w0).1)
      QA (Some [ip_a]) (DRoute "b" nocache).
Proof.
  destruct (policy_refines_reading (resolver_of by_response (DAccept []) None no_filter) ev "x.test" QA w0 w0) as (w' & _ & _ & Hspec).
  - split; [|done]. intros n m qs. cbn. by destruct (qs_v6 qs).
  - repeat constructor.
  - apply Hspec. reflexivity.
Defined.

(** The main group's private answer is kept, one of a listed network is not. *)
Definition filter_eight : RuntimeFallbackFilter :=
  mkRuntimeFallbackFilter [Net4 (@mkCidr 32 8 24 eq_refl : Ipv4Net)] [] None.

Lemma fallback_filter_decides_witness :
  let '(r, w') := resolve_default (resolver_of [] (DDirect "default") (Some "a") filter_eight) ev "x.test" QA None w0 in
  r = inl [ip_a] /\ rw_asked w' = [] ++ [mkQuestion "default" "x.test" false None; mkQuestion "a" "x.test" false None].
Proof.
  refine (fallback_filter_decides (resolver_of [] (DDirect "default") (Some "a") filter_eight) ev "a" "x.test" false None w0 _ _ _).
  - vm_compute. by eexists.
  - reflexivity.
  - vm_compute. by eexists.
Defined.

Lemma direct_path_isolated_witness :
  (resolve_via_direct two_rules ev "x.test" w0).1
  = (resolve_via_direct (resolver_of [] DFake (Some "a") filter_eight) ev "x.test" w0).1
  /\ same_state (resolve_via_direct two_rules ev "x.test" w0).2 w0
  /\ exists asked, rw_asked (resolve_via_direct two_rules ev "x.test" w0).2 = [] ++ asked
     /\ Forall (fun qn => qs_group qn = direct_group two_rules) asked.
Proof. apply (direct_path_isolated two_rules (resolver_of [] DFake (Some "a") filter_eight) ev "x.test" w0 w0); [by split_and!|reflexivity]. Defined.

Definition empty_noerror : PredefinedResponse := mkPredefinedResponse (Some NOERROR) [] [] [].

Lemma default_predefined_rejects_witness :
  let rs := resolver_of [] (DPredefined empty_noerror) None no_filter in
  (terminal_action rs ev "x.test" QA EvalContext_default (mkPolicyRule HAny (DPredefined empty_noerror) "r") w0).1 = inl (live [])
  /\ (default_qtype rs ev "x.test" QA w0).1 = inr (ReRejected "x.test").
Proof.
  apply (default_predefined_rejects (resolver_of [] (DPredefined empty_noerror) None no_filter) ev "x.test" QA EvalContext_default
    w0 empty_noerror "r"); reflexivity.
Defined.

(** A name rejected for what its address is, is resolved when it is asked again. *)
Definition reject_ten : Resolver :=
  resolver_of [mkPolicyRule HAny (DEvaluate "a" QueryOptions_default) "r1";
               mkPolicyRule (HResponseIpCidr ten) (DReject RejectOptions_default) "r2";
               mkPolicyRule HAny (DRoute "b" nocache) "r3"] (DDirect "default") None no_filter.

(** With the rules [any -> evaluate:a], [match_response:10.0.0.0/8 -> reject] and
    [any -> route:b?nocache], a name that [a] places in 10.0.0.0/8 is rejected the first
    time and answered by [b] the second time: the rejection stored a negative entry, which
    makes the [evaluate] of the second query fail, so the rule on its answer no longer
    applies. *)
Theorem rejected_name_answered_again :
  let '(r1, w1) := resolve_qtype_answer reject_ten ev "x.test" QA w0 in
  r1 = inr (ReRejected "x.test") /\ (resolve_qtype_answer reject_ten ev "x.test" QA w1).1 = inl (live [ip_b]).
Proof. vm_compute. split; reflexivity. Qed.
End DnsResolveWitness.
