(* ===== verification/DnsBuild.v ===== *)
(** * Building the resolver from its configuration

    Models the construction half of [src/crates/core-resolver/src/resolver.rs]
    ([try_new_with_rulesets] and what it calls: endpoints, servers, groups with cycle
    detection, nameserver policies, validation) with [UpstreamParams] of
    [upstream/mod.rs].  A built group is a tree: the source shares its nodes through
    [Arc], but a group does not change after it is built (its statistics apart).
    [BTreeMap]s are lists of rows in key order.  The constructors of [hickory], the
    system's name lookup and the text of socket addresses are the class [UpstreamLib]. *)

From stdpp Require Import base list gmap strings numbers option pretty.
From S2P Require Import Prelude Text TextSplit Net FakeIp DnsCache DnsGroup DnsPolicy DnsHosts DnsResolve.

(** ** Configuration *)
Inductive ResolverMode : Type := ModeSystem | ModeNormal | ModeFake.
Inductive FakeMode : Type := FakeOff | FakeAuto | FakeForce.
#[global] Instance ResolverMode_eq_dec : EqDecision ResolverMode.
Proof. solve_decision. Defined.
#[global] Instance FakeMode_eq_dec : EqDecision FakeMode.
Proof. solve_decision. Defined.

Inductive ResolverStrategy : Type := StRoundRobin | StRandom | StParallel | StAdaptive | StSequential | StAll.

(** [ResolverServer] and [ResolverGroup], the simple and the advanced form; times in microseconds. *)
Inductive ResolverServer : Type :=
| ServerSimple (endpoint : string)
| ServerAdvanced (endpoint : string) (exits : list string) (strategy : ResolverStrategy) (timeout : Z) (max_parallel : nat).
Inductive ResolverGroup : Type :=
| GroupSimple (members : list string)
| GroupAdvanced (members : list string) (strategy : ResolverStrategy) (timeout : Z) (max_parallel : nat).

Definition server_endpoint (s : ResolverServer) : string :=
  match s with ServerSimple e => e | ServerAdvanced e _ _ _ _ => e end.
Definition server_exits (s : ResolverServer) : list string :=
  match s with ServerSimple _ => [] | ServerAdvanced _ x _ _ _ => x end.
Definition server_strategy (s : ResolverServer) : ResolverStrategy :=
  match s with ServerSimple _ => StSequential | ServerAdvanced _ _ st _ _ => st end.
Definition server_timeout (s : ResolverServer) : Z :=
  match s with ServerSimple _ => 5000000 | ServerAdvanced _ _ _ t _ => t end.
Definition server_max_parallel (s : ResolverServer) : nat :=
  match s with ServerSimple _ => 1 | ServerAdvanced _ _ _ _ n => n `max` 1 end.
Definition group_members (g : ResolverGroup) : list string :=
  match g with GroupSimple m => m | GroupAdvanced m _ _ _ => m end.
Definition group_strategy (g : ResolverGroup) : ResolverStrategy :=
  match g with GroupSimple _ => StAdaptive | GroupAdvanced _ st _ _ => st end.
Definition group_timeout (g : ResolverGroup) : Z :=
  match g with GroupSimple _ => 5000000 | GroupAdvanced _ _ t _ => t end.
Definition group_max_parallel (g : ResolverGroup) : nat :=
  match g with GroupSimple _ => 2 | GroupAdvanced _ _ _ n => n `max` 1 end.

Definition runtime_strategy (s : ResolverStrategy) : GroupStrategy :=
  match s with
  | StRoundRobin => GsRoundRobin | StRandom => GsRandom | StParallel => GsParallel
  | StAdaptive => GsAdaptive | StSequential => GsSequential | StAll => GsAll
  end.

(** ** Library code *)
Class UpstreamLib := {
  (** [str::parse::<SocketAddr>] *)
  parse_socket_addr : string -> option SocketAddr;
  (** the first result of [to_socket_addrs] for a name *)
  system_lookup : string -> Z -> option SocketAddr;
  (** whether [HickoryUpstream::doh(name, host, port, sni)] can be built *)
  doh_accepts : string -> Z -> string -> bool;
  (** whether [OutboundDnsUpstream::new(name, endpoint, outbound)] accepts the endpoint *)
  outbound_accepts : string -> string -> bool
}.

Section Build.
Context `{IpNetText} `{StrCase} `{YamlText} `{HashIter} `{UpstreamLib}.

(** ** Parameters of an upstream *)
Record UpstreamParams : Type := mkUpstreamParams {
  up_skip_cert_verify : bool;
  up_disable_ipv4 : bool;
  up_disable_ipv6 : bool;
  up_prefer_h3 : bool;
  up_disable_reuse : bool;
  up_ecs : option IpNet
}.
Definition UpstreamParams_default : UpstreamParams := mkUpstreamParams false false false false false None.

Definition parse_param (p : UpstreamParams) (pair : string) : UpstreamParams :=
  let pair := str_trim pair in
  if String.eqb pair "" then p else
  let '(key, value) := match str_split_once 61 pair with
                       | Some (k, v) => (str_trim k, str_trim v)
                       | None => (pair, "true")
                       end in
  let on := String.eqb value "true" || String.eqb value "1" in
  let '(mkUpstreamParams skip d4 d6 h3 reuse ecs) := p in
  if decide (key ∈ ["skip-cert-verify"; "skip_cert_verify"]) then mkUpstreamParams on d4 d6 h3 reuse ecs
  else if decide (key ∈ ["disable-ipv4"; "disable_ipv4"]) then mkUpstreamParams skip on d6 h3 reuse ecs
  else if decide (key ∈ ["disable-ipv6"; "disable_ipv6"]) then mkUpstreamParams skip d4 on h3 reuse ecs
  else if decide (key ∈ ["h3"; "prefer-h3"; "prefer_h3"]) then mkUpstreamParams skip d4 d6 on reuse ecs
  else if decide (key ∈ ["disable-reuse"; "disable_reuse"]) then mkUpstreamParams skip d4 d6 h3 on ecs
  else if decide (key = "ecs") then mkUpstreamParams skip d4 d6 h3 reuse (net_parse value)
  else p.

Definition UpstreamParams_parse (query : string) : UpstreamParams :=
  foldl parse_param UpstreamParams_default (str_split 38 query).

Definition has_filters (p : UpstreamParams) : bool :=
  up_disable_ipv4 p || up_disable_ipv6 p || bool_decide (is_Some (up_ecs p)).

(** The parts around a separator, the whole when there is none. *)
Definition before_sep (c : Z) (s : string) : string := match str_split_once c s with Some (a, _) => a | None => s end.
Definition after_sep (c : Z) (s : string) : string := match str_split_once c s with Some (_, b) => b | None => "" end.

Definition extract_upstream_params (spec : string) : UpstreamParams :=
  let after_q := before_sep 35 (after_sep 63 spec) in
  let after_h := after_sep 35 spec in
  let combined := if String.eqb after_h "" then after_q
                  else if String.eqb after_q "" then after_h
                  else after_q +:+ "&" +:+ after_h in
  UpstreamParams_parse combined.

(** ** Endpoints *)
Fixpoint last_piece (l : list string) (d : string) : string :=
  match l with [] => d | [x] => x | _ :: rest => last_piece rest d end.

(** [authority.rsplit_once(':')] *)
Definition host_port (authority : string) : option (string * string) :=
  match str_split_once 58 (str_of_bytes (rev (str_bytes authority))) with
  | Some (b, a) => Some (str_of_bytes (rev (str_bytes a)), str_of_bytes (rev (str_bytes b)))
  | None => None
  end.

Definition extract_sni (s : string) : option string :=
  head (omap (fun part =>
    match str_split_once 61 part with
    | Some (k, v) => if eq_ignore_ascii_case k "sni" || eq_ignore_ascii_case k "host" then Some v else None
    | None => None
    end) (str_split 38 s)).

Definition parse_server_endpoint (spec scheme : string) (default_port : Z)
  : option (string * Z * option string) :=
  if negb (str_starts_with (to_ascii_lowercase spec) scheme) then None else
  let rest := str_from (length (str_bytes scheme)) spec in
  let fragment := match str_split_once 35 rest with Some (_, b) => Some b | None => None end in
  let rest := before_sep 35 rest in
  let query := match str_split_once 63 rest with Some (_, b) => Some b | None => None end in
  let without_query := before_sep 63 rest in
  let authority := default without_query (head (str_split 47 without_query)) in
  let authority := last_piece (str_split 64 authority) authority in
  if String.eqb authority "" then None else
  let sni := match (q ← query; extract_sni q) with
             | Some s => Some s
             | None => f ← fragment; extract_sni f
             end in
  match str_strip_prefix "[" authority with
  | Some after_bracket =>
    '(host, rest) ← str_split_once 93 after_bracket;
    let port := default default_port (p ← str_strip_prefix ":" rest; parse_u16 p) in
    Some (host, port, sni)
  | None =>
    match host_port authority with
    | Some (host, port) =>
      match parse_u16 port with
      | Some port => Some (host, port, sni)
      | None => Some (authority, default_port, sni)
      end
    | None => Some (authority, default_port, sni)
    end
  end.

Definition resolve_host_to_socket (host : string) (port : Z) : option SocketAddr :=
  match parse_ip host with
  | Some ip => Some (mkSocketAddr ip port)
  | None => system_lookup host port
  end.

(** ** Upstreams and groups *)
Inductive UpKind : Type :=
| KSystem
| KDoh (host : string) (port : Z) (sni : string)
| KDot (addr : SocketAddr) (sni : string) (pooled : bool)
| KDoq (addr : SocketAddr) (sni : string) (skip_cert_verify : bool)
| KUdp (addr : SocketAddr)                             (** [MarkedDnsUpstream] *)
| KOutbound (endpoint outbound : string).

Inductive Upstream : Type :=
| ULeaf (name : string) (kind : UpKind) (filter : option UpstreamParams)
| UGroup (name : string) (strategy : GroupStrategy) (timeout : Z) (max_parallel : nat) (members : list Upstream).

(** [FilteredUpstream::wrap_if_needed] *)
Definition wrap_if_needed (p : UpstreamParams) : option UpstreamParams := if has_filters p then Some p else None.

Definition sni_or_host (sni : option string) (host : string) : string :=
  match sni with Some s => if String.eqb s "" then host else s | None => host end.

Definition configured_upstream (name spec : string) : option Upstream :=
  let spec := str_trim spec in
  let lower := to_ascii_lowercase spec in
  let params := extract_upstream_params spec in
  if decide (lower ∈ ["system"; "system://"]) then Some (ULeaf name KSystem None)
  else if str_starts_with lower "https://" then
    '(host, port, sni) ← parse_server_endpoint spec "https://" 443;
    let sni := sni_or_host sni host in
    if doh_accepts host port sni then Some (ULeaf name (KDoh host port sni) (wrap_if_needed params)) else None
  else if str_starts_with lower "tls://" then
    '(host, port, sni) ← parse_server_endpoint spec "tls://" 853;
    addr ← resolve_host_to_socket host port;
    Some (ULeaf name (KDot addr (sni_or_host sni host) (negb (up_disable_reuse params))) (wrap_if_needed params))
  else if str_starts_with lower "quic://" then
    '(host, port, sni) ← parse_server_endpoint spec "quic://" 853;
    addr ← resolve_host_to_socket host port;
    Some (ULeaf name (KDoq addr (sni_or_host sni host) (up_skip_cert_verify params)) (wrap_if_needed params))
  else if str_starts_with lower "udp://" then
    '(host, port, _) ← parse_server_endpoint spec "udp://" 53;
    addr ← resolve_host_to_socket host port;
    Some (ULeaf name (KUdp addr) None)
  else if str_starts_with lower "tcp://" then
    '(host, port, _) ← parse_server_endpoint spec "tcp://" 53;
    addr ← resolve_host_to_socket host port;
    Some (ULeaf name (KUdp addr) None)
  else
    match parse_socket_addr spec with
    | Some addr => Some (ULeaf name (KUdp addr) None)
    | None => ip ← parse_ip spec; Some (ULeaf name (KUdp (mkSocketAddr ip 53)) None)
    end.

(** [usize] printed in decimal *)
Definition show_usize (n : nat) : string := pretty n.

(** [iter.map(f).collect::<Result<Vec<_>, _>>()] *)
Fixpoint collect_opt {A B} (f : A -> option B) (l : list A) : option (list B) :=
  match l with
  | [] => Some []
  | x :: l' => y ← f x; ys ← collect_opt f l'; Some (y :: ys)
  end.

Definition with_bounds (name : string) (strategy : ResolverStrategy) (timeout : Z) (max_parallel : nat)
    (members : list Upstream) : Upstream :=
  UGroup name (runtime_strategy strategy) (Z.max timeout 1000) (max_parallel `max` 1) members.

Definition configured_exit (name endpoint : string) (params : UpstreamParams) (outbound : string) : option Upstream :=
  let outbound := str_trim outbound in
  if String.eqb outbound "" then None
  else if outbound_accepts endpoint outbound then
    Some (ULeaf (name +:+ "@" +:+ outbound) (KOutbound endpoint outbound) (wrap_if_needed params))
  else None.

Definition configured_server (name : string) (spec : ResolverServer) : option Upstream :=
  let endpoint := str_trim (server_endpoint spec) in
  if String.eqb endpoint "" then None else
  let params := extract_upstream_params endpoint in
  members ← (match server_exits spec with
             | [] => u ← configured_upstream (name +:+ "@direct") endpoint; Some [u]
             | exits => collect_opt (configured_exit name endpoint params) exits
             end);
  Some (with_bounds name (server_strategy spec) (server_timeout spec) (server_max_parallel spec) members).

Definition system_group : Upstream := UGroup "system" GsSequential 5000000 2 [ULeaf "system" KSystem None].

Notation groups := (gmap string Upstream).

(** The members of a composite group: a known group by name, else an endpoint. *)
Fixpoint composite_members (gs : groups) (name : string) (i : nat) (specs : list string) : option (list Upstream) :=
  match specs with
  | [] => Some []
  | spec :: rest =>
    let spec := str_trim spec in
    if String.eqb spec "" then composite_members gs name (S i) rest else
    u ← (match gs !! spec with
         | Some g => Some g
         | None => configured_upstream (name +:+ "#" +:+ show_usize i) spec
         end);
    us ← composite_members gs name (S i) rest;
    Some (u :: us)
  end.

Definition register_composite_group (gs : groups) (name : string) (specs : list string) (strategy : GroupStrategy)
  : option groups :=
  members ← composite_members gs name 0 specs;
  match members with
  | [] => None
  | _ => Some (<[name := UGroup name strategy 5000000 2 members]> gs)
  end.

(** ** Groups that refer to groups *)
Notation configs := (list (string * ResolverGroup)).

Fixpoint config_get (cs : configs) (name : string) : option ResolverGroup :=
  match cs with
  | [] => None
  | (n, g) :: rest => if String.eqb n name then Some g else config_get rest name
  end.

(** Why a build fails; [BeDepth] is the model's bound on the recursion. *)
Inductive BuildError : Type := BeUnknown | BeCycle | BeMember | BeNoMembers | BeDepth.

(** The members of a group, [build] being the call for another configured group. *)
Fixpoint build_members (build : groups -> string -> (Upstream * groups) + BuildError) (cs : configs) (name : string)
    (i : nat) (gs : groups) (ms : list string) : (list Upstream * groups) + BuildError :=
  match ms with
  | [] => inl ([], gs)
  | m :: rest =>
    let m := str_trim m in
    if String.eqb m "" then build_members build cs name (S i) gs rest else
    let one : (Upstream * groups) + BuildError :=
      match gs !! m with
      | Some g => inl (g, gs)
      | None =>
        match config_get cs m with
        | Some _ => build gs m
        | None => match configured_upstream (name +:+ "#" +:+ show_usize i) m with
                  | Some u => inl (u, gs)
                  | None => inr BeMember
                  end
        end
      end in
    match one with
    | inr e => inr e
    | inl (u, gs) =>
      match build_members build cs name (S i) gs rest with
      | inr e => inr e
      | inl (us, gs) => inl (u :: us, gs)
      end
    end
  end.

Definition finish_group (name : string) (config : ResolverGroup) (r : (list Upstream * groups) + BuildError)
  : (Upstream * groups) + BuildError :=
  match r with
  | inr e => inr e
  | inl ([], _) => inr BeNoMembers
  | inl (us, gs) =>
    let g := with_bounds name (group_strategy config) (group_timeout config) (group_max_parallel config) us in
    inl (g, <[name := g]> gs)
  end.

(** [build_configured_group]: returns the group and the table it is now in.  [visiting] has
    the names on the way down; it is restored on the way up. *)
Fixpoint build_configured_group (fuel : nat) (cs : configs) (visiting : gset string) (gs : groups) (name : string)
  : (Upstream * groups) + BuildError :=
  match gs !! name with
  | Some g => inl (g, gs)
  | None =>
    match config_get cs name with
    | None => inr BeUnknown
    | Some config =>
      if decide (name ∈ visiting) then inr BeCycle else
      match fuel with
      | O => inr BeDepth
      | S fuel' =>
        finish_group name config
          (build_members (build_configured_group fuel' cs ({[name]} ∪ visiting)) cs name 0 gs (group_members config))
      end
    end
  end.

Definition build_depth (cs : configs) : nat := S (length cs).

Fixpoint build_all (cs : configs) (gs : groups) (names : list string) : groups + BuildError :=
  match names with
  | [] => inl gs
  | name :: rest =>
    match build_configured_group (build_depth cs) cs ∅ gs name with
    | inl (_, gs) => build_all cs gs rest
    | inr e => inr e
    end
  end.

Definition register_configured_groups (cs : configs) (gs : groups) : option groups :=
  if existsb (fun row => bool_decide (is_Some (gs !! row.1))) cs then None else
  match build_all cs gs (fst <$> cs) with inl gs => Some gs | inr _ => None end.

(** ** Facts about the build *)

(** [n] names [m] among its members, and [m] is a configured group. *)
Definition depends (cs : configs) (n m : string) : Prop :=
  exists config raw, config_get cs n = Some config /\ raw ∈ group_members config /\ m = str_trim raw /\ m <> ""
  /\ is_Some (config_get cs m).

Fixpoint height (u : Upstream) : nat :=
  match u with
  | ULeaf _ _ _ => 0
  | UGroup _ _ _ _ ms => S (foldr (fun m acc => height m `max` acc)%nat 0%nat ms)
  end.

Lemma height_member name st t k us u : u ∈ us -> (height u < height (UGroup name st t k us))%nat.
Proof. cbn. induction us as [|x us IH]; [by intros ?%elem_of_nil|]. intros [->|Hu]%elem_of_cons; cbn; [lia|]. specialize (IH Hu). lia. Qed.

(** What [n]'s entry of the table is, if it was built: a group one of whose members is the
    table's entry of every group it names. *)
Definition entry_built (cs : configs) (gs : groups) (n : string) (g : Upstream) : Prop :=
  exists st t k us, g = UGroup n st t k us /\ forall m, depends cs n m -> exists u, u ∈ us /\ gs !! m = Some u.

Definition table_built (cs : configs) (gs0 gs : groups) : Prop :=
  gs0 ⊆ gs /\ forall n g, gs !! n = Some g -> gs0 !! n = Some g \/ entry_built cs gs n g.

Lemma entry_built_mono cs gs gs' n g : gs ⊆ gs' -> entry_built cs gs n g -> entry_built cs gs' n g.
Proof.
  intros Hsub (st & t & k & us & -> & Hm). exists st, t, k, us. split; [done|]. intros m Hd.
  destruct (Hm m Hd) as (u & Hu & Hl). exists u. split; [done|]. by eapply lookup_weaken.
Qed.

(** The names on the way down are not added. *)
Definition unvisited (visiting : gset string) (gs gs' : groups) : Prop :=
  forall v, v ∈ visiting -> gs !! v = None -> gs' !! v = None.

(** What one call gives: a table that has the group and is built as the one before. *)
Definition build_result (cs : configs) (visiting : gset string) (gs0 gs : groups) (name : string)
    (r : (Upstream * groups) + BuildError) : Prop :=
  match r with
  | inl (g, gs') => gs ⊆ gs' /\ gs' !! name = Some g /\ table_built cs gs0 gs' /\ unvisited visiting gs gs'
  | inr BeDepth => False
  | inr BeCycle => exists n, tc (depends cs) n n
  | inr _ => True
  end.

Definition members_result (cs : configs) (visiting : gset string) (gs0 gs : groups) (ms : list string)
    (r : (list Upstream * groups) + BuildError) : Prop :=
  match r with
  | inl (us, gs') => gs ⊆ gs' /\ table_built cs gs0 gs' /\ unvisited visiting gs gs'
    /\ forall raw, raw ∈ ms -> str_trim raw <> "" -> is_Some (config_get cs (str_trim raw)) ->
          exists u, u ∈ us /\ gs' !! str_trim raw = Some u
  | inr BeDepth => False
  | inr BeCycle => exists n, tc (depends cs) n n
  | inr _ => True
  end.

Lemma unvisited_refl visiting gs : unvisited visiting gs gs.
Proof. by intros v. Qed.

Lemma unvisited_trans visiting gs gs1 gs2 : unvisited visiting gs gs1 -> unvisited visiting gs1 gs2 -> unvisited visiting gs gs2.
Proof. intros H12 H23 v Hv Hn. by apply H23, H12. Qed.

Lemma build_members_ok build cs visiting gs0 name ms : forall i gs,
  (forall gs m, m ∈ (str_trim <$> ms) -> m <> "" -> is_Some (config_get cs m) -> table_built cs gs0 gs ->
     build_result cs visiting gs0 gs m (build gs m)) ->
  table_built cs gs0 gs ->
  members_result cs visiting gs0 gs ms (build_members build cs name i gs ms).
Proof.
  induction ms as [|m ms IH]; intros i gs Hb Hgs; cbn [build_members].
  { split_and!; [done|done|by intros ?|]. by intros raw ?%elem_of_nil. }
  assert (Hb' : forall gs m0, m0 ∈ (str_trim <$> ms) -> m0 <> "" -> is_Some (config_get cs m0) -> table_built cs gs0 gs ->
     build_result cs visiting gs0 gs m0 (build gs m0)) by (intros ? ? ?; apply Hb; by right).
  destruct (String.eqb_spec (str_trim m) "") as [He|Hne].
  { specialize (IH (S i) gs Hb' Hgs). destruct (build_members build cs name (S i) gs ms) as [[us gs']|[]]; try done.
    destruct IH as (Hsub & Ht & Hv & Hm). split_and!; [done|done|done|]. intros raw [->|Hr]%elem_of_cons; [done|by apply Hm]. }
  set (one := match gs !! str_trim m with Some _ => _ | None => _ end).
  assert (Hone : match one with
    | inl (u, gs1) => gs ⊆ gs1 /\ table_built cs gs0 gs1 /\ unvisited visiting gs gs1
        /\ (is_Some (config_get cs (str_trim m)) -> gs1 !! str_trim m = Some u)
    | inr BeDepth => False | inr BeCycle => exists n, tc (depends cs) n n | inr _ => True end).
  { unfold one. destruct (gs !! str_trim m) as [g|] eqn:Eg; [split_and!; auto using unvisited_refl|].
    destruct (config_get cs (str_trim m)) as [c|] eqn:Ec.
    - pose proof (Hb gs (str_trim m) ltac:(left) Hne ltac:(by eexists) Hgs) as Hr.
      destruct (build gs (str_trim m)) as [[g gs1]|[]]; try done. by destruct Hr as (? & ? & ? & ?).
    - destruct (configured_upstream _ _) as [u|]; [|done]. split_and!; [done|done|by intros ?|]. by intros [? ?]. }
  destruct one as [[u gs1]|e]; [|by destruct e]. destruct Hone as (Hsub1 & Ht1 & Hv1 & Hu).
  specialize (IH (S i) gs1 Hb' Ht1). destruct (build_members build cs name (S i) gs1 ms) as [[us gs']|[]]; try done.
  destruct IH as (Hsub & Ht & Hv & Hm). split_and!; [by etrans|done|by eapply unvisited_trans|].
  intros raw [->|Hr]%elem_of_cons Hr1 Hr2.
  - exists u. split; [left|]. eapply lookup_weaken; [by apply Hu|done].
  - destruct (Hm raw Hr Hr1 Hr2) as (v & Hv' & ?). exists v. split; [by right|done].
Qed.

Definition config_names (cs : configs) : gset string := list_to_set (fst <$> cs).

Lemma config_get_name cs n c : config_get cs n = Some c -> n ∈ config_names cs.
Proof.
  unfold config_names. induction cs as [|[k g] cs IH]; [done|]. cbn. destruct (String.eqb_spec k n) as [->|]; [set_solver|].
  intros Hn. specialize (IH Hn). set_solver.
Qed.

Lemma config_names_size cs : (size (config_names cs) <= length cs)%nat.
Proof.
  unfold config_names. induction cs as [|row cs IH]; [done|]. cbn [fmap list_fmap list_to_set length].
  rewrite size_union_alt, size_singleton.
  pose proof (subseteq_size (list_to_set (fst <$> cs) ∖ {[row.1]}) (list_to_set (fst <$> cs) : gset string) ltac:(set_solver)). lia.
Qed.

Lemma finish_group_ok cs visiting gs0 gs name config r :
  config_get cs name = Some config -> gs !! name = None -> name ∉ visiting -> gs0 ⊆ gs ->
  members_result cs ({[name]} ∪ visiting) gs0 gs (group_members config) r ->
  build_result cs visiting gs0 gs name (finish_group name config r).
Proof.
  intros Hc Hn Hv Hgs0. destruct r as [[us gs']|e]; [|by destruct e]. intros (Hsub & [Hsub0 Ht] & Hunv & Hm).
  assert (Hn' : gs' !! name = None) by (apply Hunv; [set_solver|done]).
  destruct us as [|u us]; [done|]. cbn [finish_group build_result].
  set (g := with_bounds name _ _ _ _).
  assert (Hins : gs' ⊆ <[name := g]> gs') by (by apply insert_subseteq).
  split_and!; [by etrans|by rewrite lookup_insert_eq| |].
  - split; [by etrans|]. intros n x Hx. destruct (decide (n = name)) as [->|Hne].
    + rewrite lookup_insert_eq in Hx. injection Hx as <-. right.
      unfold g, with_bounds. eexists _, _, _, (u :: us). split; [done|].
      intros m (config' & raw & Hc' & Hraw & -> & Hne & Hs). rewrite Hc in Hc'. injection Hc' as <-.
      destruct (Hm raw Hraw Hne Hs) as (v & Hv' & Hl). exists v. split; [done|]. by eapply lookup_weaken.
    + rewrite lookup_insert_ne in Hx by done. destruct (Ht n x Hx) as [?|He]; [by left|right].
      by eapply entry_built_mono.
  - intros v Hvv Hvn. rewrite lookup_insert_ne by (intros ->; done). apply Hunv; [set_solver|done].
Qed.

Lemma build_ok cs gs0 fuel : forall visiting gs name,
  table_built cs gs0 gs -> (forall v, v ∈ visiting -> tc (depends cs) v name) -> visiting ⊆ config_names cs ->
  (length cs < fuel + size visiting)%nat ->
  build_result cs visiting gs0 gs name (build_configured_group fuel cs visiting gs name).
Proof.
  induction fuel as [|fuel IH]; intros visiting gs name Hgs Hvis Hsub Hsize; cbn [build_configured_group];
    (destruct (gs !! name) as [g|] eqn:Eg; [split_and!; auto using unvisited_refl|]);
    (destruct (config_get cs name) as [config|] eqn:Ec; [|done]);
    (destruct (decide (name ∈ visiting)) as [Hin|Hnin]; [exists name; by apply Hvis|]).
  - pose proof (config_get_name cs name config Ec) as Hk.
    assert (Hle : (size ({[name]} ∪ visiting) <= length cs)%nat).
    { etrans; [apply (subseteq_size _ (config_names cs)); set_solver|apply config_names_size]. }
    rewrite size_union in Hle by set_solver. rewrite size_singleton in Hle. lia.
  - apply finish_group_ok; [done|done|done|by destruct Hgs|].
    apply build_members_ok; [|done]. intros gs1 m Hm Hne Hs Hgs1. apply IH; [done| | |].
    + assert (Hd : depends cs name m).
      { apply list_elem_of_fmap in Hm as (raw & -> & Hraw). exists config, raw. done. }
      intros v [->%elem_of_singleton|Hv]%elem_of_union; [by apply tc_once|]. eapply tc_r; [by apply Hvis|done].
    + pose proof (config_get_name cs name config Ec). set_solver.
    + rewrite size_union by set_solver. rewrite size_singleton. lia.
Qed.

Lemma build_all_ok cs gs0 names : forall gs, table_built cs gs0 gs ->
  match build_all cs gs names with
  | inl gs' => gs ⊆ gs' /\ table_built cs gs0 gs' /\ forall n, n ∈ names -> is_Some (gs' !! n)
  | inr BeDepth => False
  | inr BeCycle => exists n, tc (depends cs) n n
  | inr _ => True
  end.
Proof.
  induction names as [|n names IH]; intros gs Hgs; cbn [build_all].
  { split_and!; [done|done|]. by intros n ?%elem_of_nil. }
  pose proof (build_ok cs gs0 (build_depth cs) ∅ gs n Hgs ltac:(set_solver) ltac:(set_solver)) as Hb.
  rewrite size_empty in Hb. specialize (Hb ltac:(unfold build_depth; lia)).
  destruct (build_configured_group (build_depth cs) cs ∅ gs n) as [[g gs1]|[]]; try done.
  destruct Hb as (Hsub & Hl & Ht & _). specialize (IH gs1 Ht). destruct (build_all cs gs1 names) as [gs'|[]]; try done.
  destruct IH as (Hsub' & Ht' & Hn). split_and!; [by etrans|done|]. intros x [->|Hx]%elem_of_cons; [|by apply Hn].
  exists g. by eapply lookup_weaken.
Qed.

(** Groups that refer to groups: the build always ends (its depth never passes the
    number of configured groups); it reports a cycle only when the configuration has one;
    and when it succeeds the configuration has none, every configured group is in the
    table, its tree holding the trees of the groups it names. *)
Theorem resolver_groups_build cs gs0 :
  (forall row, row ∈ cs -> gs0 !! row.1 = None) ->
  match build_all cs gs0 (fst <$> cs) with
  | inl gs => (forall n, ~ tc (depends cs) n n)
      /\ forall n, n ∈ config_names cs -> exists g, gs !! n = Some g /\ entry_built cs gs n g
  | inr BeCycle => exists n, tc (depends cs) n n
  | inr BeDepth => False
  | inr _ => True
  end.
Proof.
  intros Hnew. assert (Ht0 : table_built cs gs0 gs0) by (split; [done|]; intros n g Hg; by left).
  pose proof (build_all_ok cs gs0 (fst <$> cs) gs0 Ht0) as Hb. destruct (build_all cs gs0 (fst <$> cs)) as [gs|[]]; try done.
  destruct Hb as (Hsub & [_ Ht] & Hin).
  assert (Hall : forall n, n ∈ config_names cs -> exists g, gs !! n = Some g /\ entry_built cs gs n g).
  { intros n Hn. unfold config_names in Hn. apply elem_of_list_to_set in Hn. destruct (Hin n Hn) as [g Hg]. exists g.
    split; [done|]. destruct (Ht n g Hg) as [Hg0|]; [|done]. apply list_elem_of_fmap in Hn as (row & -> & Hrow).
    by rewrite Hnew in Hg0. }
  split; [|done].
  assert (Hlt : forall n m, tc (depends cs) n m -> exists g g', gs !! n = Some g /\ gs !! m = Some g' /\ (height g' < height g)%nat).
  { assert (Hone : forall n m, depends cs n m -> exists g g', gs !! n = Some g /\ gs !! m = Some g' /\ (height g' < height g)%nat).
    { intros n m Hd. pose proof Hd as (config & raw & Hc & _). apply config_get_name in Hc.
      destruct (Hall n Hc) as (g & Hg & st & t & k & us & -> & Hus). destruct (Hus m Hd) as (u & Hu & Hm).
      exists (UGroup n st t k us), u. split_and!; [done|done|by apply height_member]. }
    intros n m Htc. induction Htc as [n m Hd|n m p Hd _ IH]; [by apply Hone|].
    destruct (Hone n m Hd) as (g & g1 & Hg & Hg1 & L1), IH as (g1' & g2 & Hg1' & Hg2 & L2).
    rewrite Hg1 in Hg1'. injection Hg1' as <-. exists g, g2. split_and!; [done|done|lia]. }
  intros n Hcyc. destruct (Hlt n n Hcyc) as (g & g' & Hg & Hg' & L). rewrite Hg in Hg'. injection Hg' as <-. lia.
Qed.
End Build.
