(* ===== verification/DnsConfigure.v ===== *)
(** * From the resolver's configuration to a resolver

    Models the rest of [try_new_with_rulesets] of [src/crates/core-resolver/src/resolver.rs]:
    the keys of nameserver policies, the fallback filter, the default action, validation.
    Errors are [None].  A rule that cannot be read is an error; that reading one never
    panics is [dns_rule_value_no_panic]. *)

From stdpp Require Import base list gmap strings numbers option.
From S2P Require Import Prelude Text TextSplit Net FakeIp DnsCache DnsGroup DnsPolicy DnsHosts DnsResolve DnsBuild Instances DnsInstances.

Section Configure.
Context `{IpNetText} `{StrCase} `{YamlText} `{HashIter} `{UpstreamLib}.

Notation groups := (gmap string Upstream).

(** ** Keys of nameserver policies *)
Definition push_name (out : list string) (s : string) : list string :=
  if String.eqb s "" || bool_decide (s ∈ out) then out else out ++ [s].

Definition ruleset_name_candidates (kind name : string) : list string :=
  let raw := to_ascii_lowercase (trim_start_char 58 (str_trim name)) in
  let out := push_name (push_name [] raw) (kind +:+ "-" +:+ raw) in
  if decide ((kind, raw) = ("geosite", "cn")) then push_name out "cn-domain"
  else if decide ((kind, raw) = ("geoip", "cn")) then push_name out "geoip-cn"
  else if decide ((kind, raw) = ("geoip", "private")) then push_name out "geoip-private"
  else out.

Definition set_alias_matcher (kind name : string) : HostMatch :=
  match ruleset_name_candidates kind name with
  | [c] => HSet c
  | candidates => HOr (HSet <$> candidates)
  end.

Definition policy_key_to_matcher (key : string) : option HostMatch :=
  let key := str_trim key in
  if String.eqb key "" then None else
  let lower := to_ascii_lowercase key in
  if str_starts_with lower "geosite:" then Some (set_alias_matcher "geosite" (str_from 8 key))
  else if str_starts_with lower "rule-set:" then Some (HSet (str_trim (str_from 9 key)))
  else if str_starts_with lower "ruleset:" then Some (HSet (str_trim (str_from 8 key)))
  else match str_strip_prefix "+." key with
  | Some rest => Some (HSuffix (trim_start_char 46 rest))
  | None =>
    match str_strip_prefix "*." key with
    | Some rest => Some (HSuffix (trim_start_char 46 rest))
    | None =>
      match str_strip_prefix "." key with
      | Some rest => Some (HSuffix (trim_start_char 46 rest))
      | None =>
        match str_strip_prefix "=" key with
        | Some rest => Some (HDomain (trim_end_char 46 rest))
        | None =>
          if str_contains key "*" then
            let stripped := trim_start_char 46 (trim_start_char 42 key) in
            if String.eqb stripped "" then None else Some (HSuffix stripped)
          else Some (HDomain (trim_end_char 46 key))
        end
      end
    end
  end.

Definition strip_ruleset_prefix (s : string) : string :=
  match str_strip_prefix "rule-set:" s with
  | Some r => r
  | None => default s (str_strip_prefix "ruleset:" s)
  end.

Definition ruleset_parts (text : string) : list HostMatch :=
  omap (fun part => let part := strip_ruleset_prefix (str_trim part) in
                    if String.eqb part "" then None else Some (HSet part)) (str_split 44 text).

Definition expand_policy_key_matchers (key : string) : option (list HostMatch) :=
  let trimmed := str_trim key in
  let lower := to_ascii_lowercase trimmed in
  out ← (if str_starts_with lower "geosite:" then
           Some (omap (fun part => let part := default (str_trim part) (str_strip_prefix "geosite:" (str_trim part)) in
                                   if String.eqb part "" then None else Some (set_alias_matcher "geosite" part))
                   (str_split 44 (str_from 8 trimmed)))
         else if str_starts_with lower "rule-set:" then Some (ruleset_parts (str_from 9 trimmed))
         else if str_starts_with lower "ruleset:" then Some (ruleset_parts (str_from 8 trimmed))
         else collect_opt policy_key_to_matcher (List.filter nonempty (str_trim <$> str_split 44 trimmed)));
  match out with [] => None | _ => Some out end.

Definition nameserver_policy_value_to_vec (value : Yaml) : option (list string) :=
  match as_str value with
  | Some s => Some [s]
  | None =>
    match as_sequence value with
    | Some seq => collect_opt as_str seq
    | None => None
    end
  end.

(** The table and the policy, row by row. *)
Fixpoint apply_policy_rows (label : string) (i : nat) (rows : list (Yaml * Yaml)) (gs : groups) (policy : PolicyEngine)
  : option (groups * PolicyEngine) :=
  match rows with
  | [] => Some (gs, policy)
  | (k, v) :: rest =>
    key ← as_str k;
    specs ← nameserver_policy_value_to_vec v;
    let group_name := label +:+ "-" +:+ show_usize i in
    gs ← register_composite_group gs group_name specs GsFastest;
    ms ← expand_policy_key_matchers key;
    let policy := foldl (fun p m => policy_push p (mkPolicyRule m (DRoute group_name QueryOptions_default)
                                                     (label +:+ ":" +:+ key))) policy ms in
    apply_policy_rows label (S i) rest gs policy
  end.

(** ** The fallback filter *)
Record ResolverFallbackFilterCfg : Type := mkResolverFallbackFilterCfg {
  fc_geoip : bool;
  fc_geoip_code : string;
  fc_ipcidr : list string;
  fc_domain : list string;
  fc_geosite : list string
}.

Definition fallback_try_from_config (cfg : ResolverFallbackFilterCfg) : option RuntimeFallbackFilter :=
  cidrs ← collect_opt net_parse (fc_ipcidr cfg);
  domains ← collect_opt policy_key_to_matcher (fc_domain cfg);
  Some (mkRuntimeFallbackFilter cidrs (domains ++ (set_alias_matcher "geosite" <$> fc_geosite cfg))
          (if fc_geoip cfg
           then Some (mkRuntimeGeoIpFilter (to_ascii_lowercase (str_trim (fc_geoip_code cfg)))
                        (ruleset_name_candidates "geoip" (fc_geoip_code cfg)))
           else None)).

(** ** Default action and validation *)
Definition default_dns_action (fake : FakeMode) (mode : ResolverMode) : DnsAction :=
  if bool_decide (fake = FakeForce) || bool_decide (mode = ModeFake) then DFake else
  match mode with
  | ModeSystem => DDirect "system"
  | ModeNormal => DDirect "default"
  | ModeFake => DFake
  end.

(** The group an action sends to. *)
Definition action_group (a : DnsAction) : option string :=
  match a with
  | DDirect g | DProxy g | DRoute g _ | DEvaluate g _ => Some g
  | _ => None
  end.

Definition validate_action (gs : groups) (fake_available : bool) (a : DnsAction) : bool :=
  match action_group a with Some g => bool_decide (is_Some (gs !! g)) | None => true end
  && match a with DFake => fake_available | _ => true end.

Definition validate_policy (gs : groups) (fake_available : bool) (p : PolicyEngine) : bool :=
  match pe_default_action p with Some a => validate_action gs fake_available a | None => true end
  && forallb (fun r => validate_action gs fake_available (pl_action r)) (pe_rules p).

(** ** The whole *)
Record ResolverCfg : Type := mkResolverCfg {
  rc_mode : ResolverMode;
  rc_fake : FakeMode;
  rc_cache : Z;
  rc_ipv6 : bool;
  rc_use_hosts : bool;
  rc_use_system_hosts : bool;
  rc_hosts : list (Yaml * Yaml);
  rc_fake_ip_filter : list string;
  rc_fake_ip_filter_mode : FakeIpFilterMode;
  rc_nameserver : list string;
  rc_fallback : list string;
  rc_fallback_filter : ResolverFallbackFilterCfg;
  rc_default_nameserver : list string;
  rc_nameserver_policy : list (Yaml * Yaml);
  rc_proxy_server_nameserver : list string;
  rc_proxy_server_nameserver_policy : list (Yaml * Yaml);
  rc_direct_nameserver : list string;
  rc_servers : list (string * ResolverServer);
  rc_groups : list (string * ResolverGroup);
  rc_rules : list Yaml
}.

Fixpoint register_servers (rows : list (string * ResolverServer)) (gs : groups) : option groups :=
  match rows with
  | [] => Some gs
  | (name, spec) :: rest => g ← configured_server name spec; register_servers rest (<[name := g]> gs)
  end.

(** A composite group where the list is not empty. *)
Definition register_optional (name : string) (specs : list string) (gs : groups) : option groups :=
  match specs with [] => Some gs | _ => register_composite_group gs name specs GsParallel end.

Definition register_default (mode : ResolverMode) (nameserver : list string) (gs : groups) : option groups :=
  match nameserver with
  | [] => if bool_decide (mode = ModeSystem) then Some (<["default" := system_group]> gs) else None
  | _ => register_composite_group gs "default" nameserver GsParallel
  end.

Definition parse_rules (rules : list Yaml) : option (list PolicyRule) :=
  collect_opt (fun v => match parse_rule_value v with Ok (Some r) => Some r | _ => None end) rules.

(** [DnsUpstream::default_client_subnet] of a member; a group keeps the default [None]. *)
Definition member_subnet (u : Upstream) : option IpNet :=
  match u with ULeaf _ _ (Some p) => up_ecs p | _ => None end.
Definition subnets_of (u : Upstream) : list (option IpNet) :=
  match u with UGroup _ _ _ _ ms => member_subnet <$> ms | ULeaf _ _ _ => [] end.

Definition bootstrap_group_name (gs : groups) : string :=
  if bool_decide (is_Some (gs !! "proxy-server-nameserver")) then "proxy-server-nameserver"
  else if bool_decide (is_Some (gs !! "default-nameserver")) then "default-nameserver"
  else "default".

Definition upstream_name (u : Upstream) : string := match u with ULeaf n _ _ | UGroup n _ _ _ _ => n end.

(** The name the group itself carries. *)
Definition bootstrap_name (gs : groups) : string :=
  match gs !! bootstrap_group_name gs with
  | Some g => upstream_name g
  | None => match gs !! "default" with Some g => upstream_name g | None => "" end
  end.

Definition build_hosts (cfg : ResolverCfg) (system_hosts : string) : option (gmap string HostsEntry) :=
  let t := if rc_use_system_hosts cfg then hosts_merge HostsTable_new (hosts_parse system_hosts) else HostsTable_new in
  let t := if rc_use_hosts cfg && negb (len (rc_hosts cfg) =? 0) then hosts_merge t (load_mapping (rc_hosts cfg)) else t in
  if bool_decide (t = ∅) then None else Some t.

(** The tables after the groups that do not come from policies, in the order of the source. *)
Definition build_groups (cfg : ResolverCfg) : option groups :=
  gs ← register_servers (rc_servers cfg) {["system" := system_group]};
  gs ← register_configured_groups (rc_groups cfg) gs;
  if bool_decide (rc_mode cfg = ModeFake) && bool_decide (rc_fake cfg = FakeOff) then None else
  gs ← register_default (rc_mode cfg) (rc_nameserver cfg) gs;
  gs ← register_optional "fallback" (rc_fallback cfg) gs;
  gs ← register_optional "direct-nameserver" (rc_direct_nameserver cfg) gs;
  gs ← register_optional "default-nameserver" (rc_default_nameserver cfg) gs;
  register_optional "proxy-server-nameserver" (rc_proxy_server_nameserver cfg) gs.

(** [system_hosts] is the text of the system's hosts file; the second result says whether
    there is a fake-IP pool. *)
Definition try_new (cfg : ResolverCfg) (rulesets : option RulesetView) (system_hosts : string)
  : option (Resolver * bool) :=
  gs ← build_groups cfg;
  let bootstrap := bootstrap_group_name gs in
  let name := bootstrap_name gs in
  let fake_available := negb (bool_decide (rc_fake cfg = FakeOff)) in
  let policy := mkPolicyEngine [] rulesets (Some (default_dns_action (rc_fake cfg) (rc_mode cfg))) in
  '(gs, policy) ← apply_policy_rows "nameserver-policy" 0 (rc_nameserver_policy cfg) gs policy;
  let bootstrap_policy := mkPolicyEngine [] rulesets (Some (DDirect bootstrap)) in
  '(gs, bootstrap_policy) ←
    apply_policy_rows "proxy-server-nameserver-policy" 0 (rc_proxy_server_nameserver_policy cfg) gs bootstrap_policy;
  rules ← parse_rules (rc_rules cfg);
  let policy := foldl policy_push policy rules in
  filter ← fallback_try_from_config (rc_fallback_filter cfg);
  if negb (validate_policy gs fake_available policy && validate_policy gs fake_available bootstrap_policy) then None else
  Some (mkResolver (subnets_of <$> gs) policy name bootstrap_policy
          (match rc_fallback cfg with [] => None | _ => Some "fallback" end) filter
          (match rc_fake_ip_filter cfg with [] => None | ps => Some (FakeIpFilter_new ps (rc_fake_ip_filter_mode cfg)) end)
          (build_hosts cfg system_hosts) (rc_ipv6 cfg) true (rc_cache cfg) None,
        fake_available).

(** ** What a configuration that is accepted gives *)

(** Only insertions. *)
Lemma register_composite_mono gs name specs st gs' :
  register_composite_group gs name specs st = Some gs' -> is_Some (gs' !! name) /\ forall g, is_Some (gs !! g) -> is_Some (gs' !! g).
Proof.
  unfold register_composite_group. destruct (composite_members gs name 0 specs) as [[|u us]|]; cbn; try done.
  intros [= <-]. split; [by rewrite lookup_insert_eq|]. intros g Hg. rewrite lookup_insert_is_Some'. by right.
Qed.

Lemma register_optional_mono name specs gs gs' :
  register_optional name specs gs = Some gs' ->
  (specs <> [] -> is_Some (gs' !! name)) /\ forall g, is_Some (gs !! g) -> is_Some (gs' !! g).
Proof.
  unfold register_optional. destruct specs as [|s specs]; [intros [= <-]; split; [by intros []|auto]|].
  intros Hr. apply register_composite_mono in Hr as [Hn Hm]. auto.
Qed.

Lemma register_default_mono mode ns gs gs' :
  register_default mode ns gs = Some gs' -> is_Some (gs' !! "default").
Proof.
  unfold register_default. destruct ns as [|n ns].
  - destruct (bool_decide _); [|done]. intros [= <-]. by rewrite lookup_insert_eq.
  - intros Hr. by apply register_composite_mono in Hr as [? _].
Qed.

Lemma apply_rows_mono label rows : forall i gs p gs' p',
  apply_policy_rows label i rows gs p = Some (gs', p') -> forall g, is_Some (gs !! g) -> is_Some (gs' !! g).
Proof.
  induction rows as [|[k v] rows IH]; intros i gs p gs' p'; cbn [apply_policy_rows]; [by intros [= <- <-]|].
  destruct (as_str k) as [key|]; [cbn [mbind option_bind]|done]. destruct (nameserver_policy_value_to_vec v) as [specs|]; [cbn [mbind option_bind]|done].
  destruct (register_composite_group _ _ _ _) as [gs1|] eqn:Er; [cbn [mbind option_bind]|done].
  destruct (expand_policy_key_matchers key) as [ms|]; [cbn [mbind option_bind]|done]. intros Ha g Hg.
  eapply IH; [exact Ha|]. by apply register_composite_mono in Er as [_ Hm]; apply Hm.
Qed.

Lemma build_groups_default cfg gs : build_groups cfg = Some gs ->
  is_Some (gs !! "default") /\ (rc_fallback cfg <> [] -> is_Some (gs !! "fallback")).
Proof.
  unfold build_groups.
  destruct (register_servers _ _) as [g1|]; [cbn [mbind option_bind]|done]. destruct (register_configured_groups _ _) as [g2|]; [cbn [mbind option_bind]|done].
  destruct (_ && _); [done|]. destruct (register_default _ _ _) as [g3|] eqn:E3; [cbn [mbind option_bind]|done].
  destruct (register_optional "fallback" _ _) as [g4|] eqn:E4; [cbn [mbind option_bind]|done].
  destruct (register_optional "direct-nameserver" _ _) as [g5|] eqn:E5; [cbn [mbind option_bind]|done].
  destruct (register_optional "default-nameserver" _ _) as [g6|] eqn:E6; [cbn [mbind option_bind]|done]. intros E7.
  apply register_default_mono in E3. apply register_optional_mono in E4 as [F4 M4], E5 as [_ M5], E6 as [_ M6], E7 as [_ M7].
  split; [by apply M7, M6, M5, M4|]. intros Hf. by apply M7, M6, M5, F4.
Qed.

(** The actions of a policy, the default included. *)
Definition actions_of (p : PolicyEngine) : list DnsAction :=
  (pl_action <$> pe_rules p) ++ match pe_default_action p with Some a => [a] | None => [] end.

Lemma validate_policy_spec gs fake p : validate_policy gs fake p = true ->
  forall a, a ∈ actions_of p ->
  (forall g, action_group a = Some g -> is_Some (gs !! g)) /\ (a = DFake -> fake = true).
Proof.
  unfold validate_policy. rewrite andb_true_iff, forallb_forall. intros [Hd Hr] a Ha.
  assert (Hv : validate_action gs fake a = true).
  { unfold actions_of in Ha. apply elem_of_app in Ha as [Ha|Ha].
    - apply list_elem_of_fmap in Ha as (r & -> & Hin). by apply Hr, list_elem_of_In.
    - destruct (pe_default_action p) as [d|]; [|by apply elem_of_nil in Ha].
      apply list_elem_of_singleton in Ha as ->. done. }
  unfold validate_action in Hv. apply andb_true_iff in Hv as [Hg Hf]. split.
  - intros g Eg. rewrite Eg in Hg. by apply bool_decide_eq_true in Hg.
  - by intros ->.
Qed.

Lemma try_new_closed cfg rulesets system_hosts rs fake :
  try_new cfg rulesets system_hosts = Some (rs, fake) ->
  (forall a, a ∈ actions_of (rs_policy rs) ++ actions_of (rs_bootstrap_policy rs) ->
     (forall g, action_group a = Some g -> is_Some (rs_groups rs !! g)) /\ (a = DFake -> fake = true))
  /\ is_Some (rs_groups rs !! "default")
  /\ (forall fb, rs_fallback_group rs = Some fb -> is_Some (rs_groups rs !! fb)).
Proof.
  unfold try_new. destruct (build_groups cfg) as [gs|] eqn:Eg; [cbn [mbind option_bind]|done].
  destruct (apply_policy_rows "nameserver-policy" _ _ _ _) as [[gs1 p1]|] eqn:E1; [cbn [mbind option_bind]|done].
  destruct (apply_policy_rows "proxy-server-nameserver-policy" _ _ _ _) as [[gs2 p2]|] eqn:E2; [cbn [mbind option_bind]|done].
  destruct (parse_rules _) as [rules|]; [cbn [mbind option_bind]|done]. destruct (fallback_try_from_config _) as [f|]; [cbn [mbind option_bind]|done].
  destruct (negb _) eqn:Ev; [done|]. apply negb_false_iff, andb_true_iff in Ev as [V1 V2]. intros [= <- <-]. cbn.
  assert (Hs : forall g, is_Some (gs2 !! g) -> is_Some ((subnets_of <$> gs2) !! g))
    by (intros g [u Hu]; rewrite lookup_fmap, Hu; by eexists).
  assert (Hm : forall g, is_Some (gs !! g) -> is_Some ((subnets_of <$> gs2) !! g)).
  { intros g Hg. apply Hs. eapply apply_rows_mono; [exact E2|]. by eapply apply_rows_mono. }
  destruct (build_groups_default cfg gs Eg) as [Hd Hf]. split_and!.
  - intros a [Ha|Ha]%elem_of_app.
    + destruct (validate_policy_spec _ _ _ V1 a Ha) as [A1 A2]. split; [|done]. intros g Hg. by apply Hs, A1.
    + destruct (validate_policy_spec _ _ _ V2 a Ha) as [A1 A2]. split; [|done]. intros g Hg. by apply Hs, A1.
  - by apply Hm.
  - intros fb Hfb. destruct (rc_fallback cfg) as [|x l] eqn:E; [done|]. injection Hfb as <-. apply Hm, Hf. discriminate.
Qed.

(** *** Questions asked *)

(** [m] asks at least one question, each to a group of the table. *)
Definition asks (rs : Resolver) {A} (m : M A) : Prop := forall w, exists qs, qs <> [] /\ rw_asked (m w).2 = rw_asked w ++ qs
  /\ Forall (fun qn => is_Some (rs_groups rs !! qs_group qn)) qs.
(** ... any number. *)
Definition may_ask (rs : Resolver) {A} (m : M A) : Prop := forall w, exists qs, rw_asked (m w).2 = rw_asked w ++ qs
  /\ Forall (fun qn => is_Some (rs_groups rs !! qs_group qn)) qs.

Lemma may_ask_ret rs {A} (a : A) : may_ask rs (mret a).
Proof. intros w. exists []. by rewrite app_nil_r. Qed.
Lemma asks_may rs {A} (m : M A) : asks rs m -> may_ask rs m.
Proof. intros Hm w. destruct (Hm w) as (qs & _ & ?). by exists qs. Qed.

Lemma asks_bind rs {A B} (m : M A) (f : A -> M B) : asks rs m -> (forall a, may_ask rs (f a)) -> asks rs (m ≫= f).
Proof.
  intros Hm Hf w. destruct (Hm w) as (qs & Hne & Hq & Hall). unfold mbind, M_bind. destruct (m w) as [a w1]. cbn in Hq.
  destruct (Hf a w1) as (qs' & Hq' & Hall'). exists (qs ++ qs'). split_and!; [by destruct qs| |by apply Forall_app].
  by rewrite Hq', Hq, app_assoc.
Qed.

Lemma asks_ask rs ev q : is_Some (rs_groups rs !! qs_group q) -> asks rs (ask ev q).
Proof. intros Hg w. exists [q]. split_and!; [done|done|by apply Forall_singleton]. Qed.

Lemma asks_group rs ev g host q st : is_Some (rs_groups rs !! g) -> asks rs (resolve_group_qtype ev g host q st).
Proof.
  intros Hg. destruct q; [by apply asks_ask|by apply asks_ask|]. cbn. apply asks_bind; [by apply asks_ask|]. intros r4.
  apply asks_may, asks_bind; [by apply asks_ask|]. intros r6. apply may_ask_ret.
Qed.

Lemma asks_lookup rs ev g host q st : is_Some (rs_groups rs !! "default") ->
  (forall fb, rs_fallback_group rs = Some fb -> is_Some (rs_groups rs !! fb)) ->
  is_Some (rs_groups rs !! g) -> asks rs (lookup_uncached rs ev host g q st).
Proof.
  intros [d Hd] Hfb Hg. unfold lookup_uncached. destruct (String.eqb g "default").
  2: { destruct Hg as [m Hm]. rewrite Hm. apply asks_group. by eexists. }
  assert (Hlift : forall g, is_Some (rs_groups rs !! g) -> asks rs (r ← resolve_group_qtype ev g host q st; mret (lift_err r)))
    by (intros g' Hg'; apply asks_bind; [by apply asks_group|intros; apply may_ask_ret]).
  apply asks_bind; [|intros; apply may_ask_ret]. unfold resolve_default. rewrite Hd.
  destruct (rs_fallback_group rs) as [fb|]; [|apply Hlift; by eexists].
  specialize (Hfb fb eq_refl). destruct (rs_groups rs !! fb) as [m|] eqn:Ef; [|by destruct Hfb].
  destruct (matches_domain _ _ _); [apply Hlift; by eexists|].
  apply asks_bind; [apply asks_group; by eexists|]. intros [[|ip ips]|e]; try (apply asks_may, Hlift; by eexists).
  destruct (existsb _ _); [apply asks_may, Hlift; by eexists|apply may_ask_ret].
Qed.

(** [C27] A configuration that is accepted gives a resolver all of whose parts exist: every
    group named by an action of either policy, the default group, and the fallback group
    if one is set; where an action answers with a fake address there is a pool; and a
    lookup that an action sends to a group always reaches a group of the table, so that the
    failures for unknown groups do not occur. *)
Theorem resolver_config_closed cfg rulesets system_hosts rs fake :
  try_new cfg rulesets system_hosts = Some (rs, fake) ->
  (forall a, a ∈ actions_of (rs_policy rs) ++ actions_of (rs_bootstrap_policy rs) ->
     (forall g, action_group a = Some g -> is_Some (rs_groups rs !! g)) /\ (a = DFake -> fake = true))
  /\ is_Some (rs_groups rs !! "default")
  /\ (forall fb, rs_fallback_group rs = Some fb -> is_Some (rs_groups rs !! fb))
  /\ (forall a g ev host q st, a ∈ actions_of (rs_policy rs) -> action_group a = Some g ->
       asks rs (lookup_uncached rs ev host g q st)).
Proof.
  intros Hnew. destruct (try_new_closed _ _ _ _ _ Hnew) as (Ha & Hd & Hf). split_and!; [done|done|done|]. intros a g ev host q st Hin Hg.
  apply asks_lookup; [done|done|]. apply (Ha a); [|done]. apply elem_of_app. by left.
Qed.

(** The scheme [tcp://] is not kept: an endpoint written with it is built as the UDP
    upstream that the same endpoint gives with [udp://]. *)
Theorem tcp_endpoint_is_udp name rest :
  (forall scheme, scheme ∈ ["udp://"; "tcp://"] -> str_trim (scheme +:+ rest) = scheme +:+ rest) ->
  configured_upstream name ("tcp://" +:+ rest) = configured_upstream name ("udp://" +:+ rest)
  /\ forall u, configured_upstream name ("tcp://" +:+ rest) = Some u -> exists addr, u = ULeaf name (KUdp addr) None.
Proof.
  intros Htrim.
  assert (Hp : parse_server_endpoint ("tcp://" +:+ rest) "tcp://" 53 = parse_server_endpoint ("udp://" +:+ rest) "udp://" 53).
  { unfold parse_server_endpoint.
    change (str_starts_with (to_ascii_lowercase ("tcp://" +:+ rest)) "tcp://") with true.
    change (str_starts_with (to_ascii_lowercase ("udp://" +:+ rest)) "udp://") with true.
    by rewrite (str_from_app "tcp://"), (str_from_app "udp://"). }
  assert (Ht : configured_upstream name ("tcp://" +:+ rest)
    = ('(host, port, _) ← parse_server_endpoint ("tcp://" +:+ rest) "tcp://" 53;
       addr ← resolve_host_to_socket host port; Some (ULeaf name (KUdp addr) None))).
  { unfold configured_upstream. cbv zeta. rewrite (Htrim "tcp://" ltac:(right; left)).
    change (to_ascii_lowercase ("tcp://" +:+ rest)) with ("tcp://" +:+ to_ascii_lowercase rest).
    rewrite decide_False by (intros Hin; repeat (apply elem_of_cons in Hin as [Hin|Hin]; [discriminate Hin|]); by apply elem_of_nil in Hin).
    change (str_starts_with ("tcp://" +:+ to_ascii_lowercase rest) "https://") with false.
    change (str_starts_with ("tcp://" +:+ to_ascii_lowercase rest) "tls://") with false.
    change (str_starts_with ("tcp://" +:+ to_ascii_lowercase rest) "quic://") with false.
    change (str_starts_with ("tcp://" +:+ to_ascii_lowercase rest) "udp://") with false.
    change (str_starts_with ("tcp://" +:+ to_ascii_lowercase rest) "tcp://") with true. reflexivity. }
  assert (Hu : configured_upstream name ("udp://" +:+ rest)
    = ('(host, port, _) ← parse_server_endpoint ("udp://" +:+ rest) "udp://" 53;
       addr ← resolve_host_to_socket host port; Some (ULeaf name (KUdp addr) None))).
  { unfold configured_upstream. cbv zeta. rewrite (Htrim "udp://" ltac:(left)).
    change (to_ascii_lowercase ("udp://" +:+ rest)) with ("udp://" +:+ to_ascii_lowercase rest).
    rewrite decide_False by (intros Hin; repeat (apply elem_of_cons in Hin as [Hin|Hin]; [discriminate Hin|]); by apply elem_of_nil in Hin).
    change (str_starts_with ("udp://" +:+ to_ascii_lowercase rest) "https://") with false.
    change (str_starts_with ("udp://" +:+ to_ascii_lowercase rest) "tls://") with false.
    change (str_starts_with ("udp://" +:+ to_ascii_lowercase rest) "quic://") with false.
    change (str_starts_with ("udp://" +:+ to_ascii_lowercase rest) "udp://") with true. reflexivity. }
  rewrite Ht, Hu, Hp. split; [done|]. intros u.
  destruct (parse_server_endpoint _ _ _) as [[[h p] sni]|]; [cbn [mbind option_bind]|done].
  destruct (resolve_host_to_socket h p) as [addr|]; [cbn|done]. intros [= <-]. by exists addr.
Qed.
End Configure.

(** ** Witnesses *)
Module DnsConfigureWitness.
Import Concrete.

#[local] Instance lib : UpstreamLib := {|
  parse_socket_addr _ := None; system_lookup _ _ := None; doh_accepts _ _ _ := true; outbound_accepts _ _ := true
|}.

Lemma tcp_endpoint_is_udp_witness :
  configured_upstream "s" ("tcp://" +:+ "1.1.1.1:54") = configured_upstream "s" ("udp://" +:+ "1.1.1.1:54")
  /\ forall u, configured_upstream "s" ("tcp://" +:+ "1.1.1.1:54") = Some u -> exists addr, u = ULeaf "s" (KUdp addr) None.
Proof.
  apply (tcp_endpoint_is_udp "s" "1.1.1.1:54"). intros scheme Hs.
  repeat (apply elem_of_cons in Hs as [->|Hs]; [vm_compute; reflexivity|]). by apply elem_of_nil in Hs.
Defined.

Lemma endpoint_sni :
  parse_server_endpoint "https://u@dns.test:8443/dns-query?host=a.test#sni=b.test" "https://" 443
  = Some ("dns.test", 8443, Some "a.test").
Proof. vm_compute. reflexivity. Qed.

Definition cfg : ResolverCfg :=
  mkResolverCfg ModeNormal FakeAuto 300000 true true true [] [] Blacklist ["g"] ["https://1.1.1.1/dns-query"]
    (mkResolverFallbackFilterCfg true "CN" ["240.0.0.0/4"] ["+.example.com"] ["gfw"]) [] [(YString "+.lan", YString "8.8.8.8")]
    [] [] ["ali"] [("ali", ServerSimple "223.5.5.5")] [("g", GroupSimple ["ali"; "h"]); ("h", GroupSimple ["1.1.1.1"])]
    [YString "domain:x.test -> evaluate:g"; YMapping [(YString "suffix", YString "bad.test"); (YString "reject", YBool true)]].

Definition built : option (Resolver * bool) := try_new cfg None "127.0.0.1 localhost".
Lemma built_some : match built with Some _ => true | None => false end = true.
Proof. vm_compute. reflexivity. Qed.

Lemma resolver_config_closed_witness :
  match built with
  | Some (rs, fake) =>
    (forall a, a ∈ actions_of (rs_policy rs) ++ actions_of (rs_bootstrap_policy rs) ->
       (forall g, action_group a = Some g -> is_Some (rs_groups rs !! g)) /\ (a = DFake -> fake = true))
    /\ is_Some (rs_groups rs !! "default")
    /\ (forall fb, rs_fallback_group rs = Some fb -> is_Some (rs_groups rs !! fb))
    /\ (forall a g ev host q st, a ∈ actions_of (rs_policy rs) -> action_group a = Some g ->
         asks rs (lookup_uncached rs ev host g q st))
  | None => False
  end.
Proof.
  pose proof built_some as Hb. destruct built as [[rs fake]|] eqn:E; [|discriminate Hb].
  exact (resolver_config_closed cfg None "127.0.0.1 localhost" rs fake E).
Defined.

Lemma resolver_groups_build_witness :
  build_all [("a", GroupSimple ["b"]); ("b", GroupSimple ["a"])] ∅ ["a"; "b"] = inr BeCycle
  /\ exists n, tc (depends [("a", GroupSimple ["b"]); ("b", GroupSimple ["a"])]) n n.
Proof.
  split; [vm_compute; reflexivity|].
  refine (resolver_groups_build [("a", GroupSimple ["b"]); ("b", GroupSimple ["a"])] ∅ _).
  intros row Hrow. apply lookup_empty.
Defined.
End DnsConfigureWitness.
