(* ===== verification/RouteCompile.v ===== *)
(** * The compiler of route rules

    The part of [core-config/src/runtime_plan.rs] that turns the rules of a configuration
    into the plan of the engine ([RouteModel.v]): [compile_route], the rule languages
    ([parse_step_line]: arrow lines and the classical lines [TYPE,VALUE,POLICY];
    [compile_object]: mappings), the classical conditions with their nested [AND], [OR],
    [NOT] and [SUB-RULE], and the checks of every pattern.  An error is [None]: the texts of
    the errors are left out.  A set of groups is the set of their names, all the compiler
    looks at; the data types are those of [core-config/src/model.rs]. *)

From stdpp Require Import base list gmap strings numbers option pretty.
From S2P Require Import Prelude Text Net TextSplit RouteModel RouteMatch RouteEngine.

(** ** The configuration *)

Inductive MatcherValue : Type := Single (s : string) | MList (l : list string).
Definition to_vec (v : MatcherValue) : list string := match v with Single s => [s] | MList l => l end.

Record RouteStepObject : Type := mkObject {
  ob_match : option string;
  ob_domain : option MatcherValue; ob_suffix : option MatcherValue; ob_keyword : option MatcherValue;
  ob_regex : option MatcherValue; ob_ip : option MatcherValue; ob_source_ip : option MatcherValue;
  ob_port : option MatcherValue; ob_source_port : option MatcherValue;
  ob_process : option MatcherValue; ob_process_path : option MatcherValue; ob_set : option MatcherValue;
  ob_network : option string; ob_proto : option string;
  ob_no_resolve : bool; ob_no_log : bool; ob_no_track : bool;
  ob_outbound : string
}.

Inductive RouteStepEntry : Type := ELine (line : string) | EObject (o : RouteStepObject).

(** [sub_rules] is a [BTreeMap]: its entries in key order. *)
Record Route : Type := mkRoute {
  ro_preset : string; ro_final : string; ro_steps : list RouteStepEntry;
  ro_sub_rules : list (string * list RouteStepEntry)
}.

(** [IpNet::to_string] and what the printed addresses look like. *)
Class RouteText `{IpNetLib, !RouteLib, NetText} := {
  net_show : IpNet -> string;
  (** a printed network is read back *)
  parse_net_show : forall n, parse_ipnet (net_show n) = Some n;
  (** an address with the full prefix length is a network *)
  parse_host_net : forall ip, ip_ok ip -> is_Some (parse_ipnet (show_ip ip +:+ (if is_ipv4 ip then "/32" else "/128")));
  (** a printed address has no slash *)
  show_ip_no_slash : forall ip, ip_ok ip -> 47 ∉ str_bytes (show_ip ip)
}.

(** ** Splitting classical text *)

Definition cons_head (c : Z) (pieces : list (list Z)) : list (list Z) :=
  match pieces with p :: ps => (c :: p) :: ps | [] => [[c]] end.

(** Commas outside parentheses; a backslash takes the next character with it. *)
Fixpoint split_top (escaped : bool) (depth : nat) (l : list Z) : list (list Z) :=
  match l with
  | [] => [[]]
  | c :: l' =>
    if escaped then cons_head c (split_top false depth l')
    else if c =? 92 then cons_head c (split_top true depth l')
    else if c =? 40 then cons_head c (split_top false (S depth) l')
    else if c =? 41 then cons_head c (split_top false (pred depth) l')
    else if (c =? 44) && (depth =? 0)%nat then [] :: split_top false depth l'
    else cons_head c (split_top false depth l')
  end.

(** The depth of parentheses at the end; [None] when the outermost pair closes too early. *)
Fixpoint pair_depth (escaped : bool) (depth : nat) (l : list Z) : option nat :=
  match l with
  | [] => Some depth
  | c :: l' =>
    if escaped then pair_depth false depth l'
    else if c =? 92 then pair_depth true depth l'
    else if c =? 40 then pair_depth false (S depth) l'
    else if c =? 41 then
      match depth with
      | O => None
      | S d => if (d =? 0)%nat && negb (len l' =? 0) then None else pair_depth false d l'
      end
    else pair_depth false depth l'
  end.

(** [s.trim_start_matches(|ch| ch == a || ch == b)] *)
Fixpoint drop_set (a b : Z) (l : list Z) : list Z :=
  match l with c :: l' => if (c =? a) || (c =? b) then drop_set a b l' else l | [] => [] end.

Definition parse_u32_text (s : string) : option Z := parse_uint (2 ^ 32 - 1) s.

Definition CLASSICAL_TYPES : list string :=
  ["DOMAIN"; "DOMAIN-SUFFIX"; "DOMAIN-KEYWORD"; "DOMAIN-REGEX"; "DOMAIN-WILDCARD"; "GEOSITE"; "GEOIP"; "SRC-GEOIP";
   "IP-ASN"; "SRC-IP-ASN"; "IP-CIDR"; "IP-CIDR6"; "SRC-IP-CIDR"; "IP-SUFFIX"; "SRC-IP-SUFFIX"; "SRC-PORT"; "DST-PORT";
   "IN-PORT"; "IN-TYPE"; "IN-USER"; "IN-NAME"; "DSCP"; "UID"; "PROCESS-NAME"; "PROCESS-PATH"; "PROCESS-NAME-REGEX";
   "PROCESS-PATH-REGEX"; "PROCESS-NAME-WILDCARD"; "PROCESS-PATH-WILDCARD"; "REMATCH-NAME"; "NETWORK"; "RULE-SET";
   "AND"; "OR"; "NOT"; "SUB-RULE"; "MATCH"].

(** The types that take the modifiers [src] and [no-resolve]. *)
Definition target_kind (kind_uc : string) : bool :=
  bool_decide (kind_uc ∈ ["IP-CIDR"; "IP-CIDR6"; "IP-SUFFIX"; "GEOIP"; "IP-ASN"; "RULE-SET"]).

Definition is_kind (s : string) : bool := existsb (fun t => eq_ignore_ascii_case s t) CLASSICAL_TYPES.

Definition RouteRuleOptions_default : RouteRuleOptions := mkOptions false false false.
Definition set_no_resolve (o : RouteRuleOptions) : RouteRuleOptions := mkOptions true (no_log o) (no_track o).
Definition set_no_log (o : RouteRuleOptions) : RouteRuleOptions := mkOptions (no_resolve o) true (no_track o).
Definition set_no_track (o : RouteRuleOptions) : RouteRuleOptions := mkOptions (no_resolve o) (no_log o) true.

Definition rs (matcher : RouteMatcher) (action : RouteAction) (src : string) : RouteStep :=
  mkStep matcher action src RouteRuleOptions_default.

Fixpoint map_port_matcher (m : RouteMatcher) : RouteMatcher :=
  match m with
  | MPort p => MSrcPort p
  | MPortRange lo hi => MSrcPortRange lo hi
  | MOr parts => MOr (map map_port_matcher parts)
  | m => m
  end.

Fixpoint map_in_port_matcher (m : RouteMatcher) : RouteMatcher :=
  match m with
  | MPort p => MInPort p
  | MPortRange lo hi => MInPortRange lo hi
  | MOr parts => MOr (map map_in_port_matcher parts)
  | m => m
  end.

Section Compile.
Context `{IpNetLib, !RouteLib, NetText, StrCase, !RouteText}.

Definition split_top_level_commas (value : string) : list string :=
  (fun p => str_trim (str_of_bytes p)) <$> split_top false 0 (str_bytes value).

(** [&value[1..value.len() - 1]] between the two parentheses *)
Definition strip_one_parenthesis_pair (value : string) : option string :=
  let l := str_bytes (str_trim value) in
  if bool_decide (head l = Some 40) && bool_decide (last l = Some 41) then
    match pair_depth false 0 l with
    | Some O => Some (str_of_bytes (take (length l - 2) (drop 1 l)))
    | _ => None
    end
  else None.

Definition split_values (raw : string) : list string :=
  List.filter nonempty (str_trim <$> str_split 44 raw).

(** ** The checks of the values *)

Definition is_bracket (c : Z) : bool := bool_decide (c ∈ [91; 93; 123; 125]).

Definition validate_wildcard (pattern : string) : option unit :=
  if String.eqb pattern "" then None
  else if existsb is_bracket (str_bytes pattern) then None
  else _ ← glob_build pattern; Some tt.

Definition validate_regex (pattern : string) : option unit := _ ← regex_new pattern; Some tt.
Definition validate_mihomo_domain_regex (pattern : string) : option unit :=
  _ ← compile_mihomo_domain_regex pattern; Some tt.

Definition parse_asn (value : string) : option Z :=
  parse_u32_text (str_of_bytes (drop_set 83 115 (drop_set 65 97 (str_bytes (str_trim value))))).

Definition normalize_classical_cidr (value : string) : option string :=
  let value := str_trim value in
  match parse_ipnet value with
  | Some net => Some (net_show net)
  | None => ip ← parse_ip value; Some (show_ip ip +:+ (if is_ipv4 ip then "/32" else "/128"))
  end.

Definition normalize_classical_ip_suffix (value : string) : option string :=
  '(a, b) ← str_split_once 47 (str_trim value);
  address ← parse_ip a;
  bits ← parse_u8 b;
  if (if is_ipv4 address then 32 else 128) <? bits then None
  else Some (show_ip address +:+ "/" +:+ pretty bits).

Definition is_port_sep (c : Z) : bool := (c =? 47) || (c =? 44).
Definition port_parts (value : string) : list string :=
  List.filter nonempty (str_trim <$> str_split_any is_port_sep value).

(** One port or a closed range. *)
Definition parse_one_port (value : string) : option RouteMatcher :=
  match str_split_once 45 value with
  | Some (lo, hi) =>
    lo ← parse_u16 (str_trim lo);
    hi ← parse_u16 (str_trim hi);
    if hi <? lo then None else Some (MPortRange lo hi)
  | None => MPort <$> parse_u16 value
  end.

(** [parse_classical_port], its recursive calls going to [parse]. *)
Definition parse_port_body (parse : string -> option RouteMatcher) (value : string) : option RouteMatcher :=
  let parts := port_parts value in
  if (1 <? length parts)%nat then MOr <$> mapM parse parts else parse_one_port value.

(** A part has no separator, so the recursion is one level deep. *)
Fixpoint parse_port_fuel (fuel : nat) : string -> option RouteMatcher :=
  parse_port_body (fun part => match fuel with O => None | S fuel' => parse_port_fuel fuel' part end).
Definition parse_classical_port (value : string) : option RouteMatcher := parse_port_fuel 1 value.

Definition parse_classical_source_port (value : string) : option RouteMatcher :=
  map_port_matcher <$> parse_classical_port value.
Definition parse_classical_in_port (value : string) : option RouteMatcher :=
  map_in_port_matcher <$> parse_classical_port value.

(** ** Classical conditions [TYPE,VALUE[,OPTION..]] *)

Definition is_classical_lhs (s : string) : bool :=
  eq_ignore_ascii_case s "MATCH" || is_kind (str_trim (default "" (head (str_split 44 s)))).

Definition guarded {A} (check : option unit) (x : A) : option A := _ ← check; Some x.

Definition classical_matcher (kind_uc : string) (source : bool) (value : string) : option RouteMatcher :=
  if decide (kind_uc = "DOMAIN") then Some (MDomain value)
  else if decide (kind_uc = "DOMAIN-SUFFIX") then Some (MSuffix value)
  else if decide (kind_uc = "DOMAIN-KEYWORD") then Some (MKeyword value)
  else if decide (kind_uc = "DOMAIN-REGEX") then guarded (validate_mihomo_domain_regex value) (MDomainRegex value)
  else if decide (kind_uc = "DOMAIN-WILDCARD") then guarded (validate_wildcard value) (MDomainWildcard value)
  else if decide (kind_uc = "GEOSITE") then Some (MGeoSite value)
  else if decide (kind_uc = "GEOIP") then Some (if source then MSrcGeoIp value else MGeoIp value)
  else if decide (kind_uc = "SRC-GEOIP") then Some (MSrcGeoIp value)
  else if decide (kind_uc = "IP-ASN") then (if source then MSrcIpAsn else MIpAsn) <$> parse_asn value
  else if decide (kind_uc = "SRC-IP-ASN") then MSrcIpAsn <$> parse_asn value
  else if decide (kind_uc ∈ ["IP-CIDR"; "IP-CIDR6"]) then
    (if source then MSrcCidr else MCidr) <$> normalize_classical_cidr value
  else if decide (kind_uc = "SRC-IP-CIDR") then MSrcCidr <$> normalize_classical_cidr value
  else if decide (kind_uc = "IP-SUFFIX") then
    (if source then MSrcIpSuffix else MIpSuffix) <$> normalize_classical_ip_suffix value
  else if decide (kind_uc = "SRC-IP-SUFFIX") then MSrcIpSuffix <$> normalize_classical_ip_suffix value
  else if decide (kind_uc = "SRC-PORT") then parse_classical_source_port value
  else if decide (kind_uc = "DST-PORT") then parse_classical_port value
  else if decide (kind_uc = "IN-PORT") then parse_classical_in_port value
  else if decide (kind_uc = "IN-TYPE") then Some (MInType value)
  else if decide (kind_uc = "IN-USER") then Some (MInUser value)
  else if decide (kind_uc = "IN-NAME") then Some (MInName value)
  else if decide (kind_uc = "DSCP") then MDscp <$> parse_u8 value
  else if decide (kind_uc = "UID") then MUid <$> parse_u32_text value
  else if decide (kind_uc = "PROCESS-NAME") then Some (MProcess value)
  else if decide (kind_uc = "PROCESS-PATH") then Some (MProcessPath value)
  else if decide (kind_uc = "PROCESS-NAME-REGEX") then guarded (validate_regex value) (MProcessRegex value)
  else if decide (kind_uc = "PROCESS-PATH-REGEX") then guarded (validate_regex value) (MProcessPathRegex value)
  else if decide (kind_uc = "PROCESS-NAME-WILDCARD") then guarded (validate_wildcard value) (MProcessWildcard value)
  else if decide (kind_uc = "PROCESS-PATH-WILDCARD") then guarded (validate_wildcard value) (MProcessPathWildcard value)
  else if decide (kind_uc = "REMATCH-NAME") then Some (MRematchName value)
  else if decide (kind_uc = "NETWORK") then Some (MNetwork value)
  else if decide (kind_uc = "RULE-SET") then Some (if source then MSrcSet value else MSet value)
  else None.

(** The options at the end, read backwards from the last field: whether [src] and
    [no-resolve] are among them, and the fields that stay. *)
Fixpoint strip_options (kind_uc : string) (fields : list string) : bool * bool * list string :=
  match fields with
  | [] => (false, false, [])
  | option :: fields' =>
    if eq_ignore_ascii_case option "no-resolve" then
      let '(s, _, rest) := strip_options kind_uc fields' in (s, true, rest)
    else if eq_ignore_ascii_case option "no-log" || eq_ignore_ascii_case option "no-track" then
      strip_options kind_uc fields'
    else if eq_ignore_ascii_case option "src" && target_kind kind_uc then
      let '(_, n, rest) := strip_options kind_uc fields' in (true, n, rest)
    else (false, false, fields)
  end.

(** A type with a value.  The fields that were stripped are known options, so the second
    loop of the source over them never fails. *)
Definition parse_classical_leaf (kind_uc : string) (parts : list string) (preserve_no_resolve : bool)
  : option (list RouteMatcher) :=
  match parts with
  | _ :: first :: fields =>
    let '(source, no_resolve, rest) := strip_options kind_uc (rev fields) in
    let value := join "," (first :: rev rest) in
    if String.eqb value "" then None
    else if no_resolve && negb (target_kind kind_uc) then None
    else
      m ← classical_matcher kind_uc source value;
      Some [if preserve_no_resolve && no_resolve then MNoResolve m else m]
  | _ => None
  end.

Definition only_one (ms : list RouteMatcher) : option RouteMatcher := match ms with [m] => Some m | _ => None end.

Definition logical_children (parse : string -> option (list RouteMatcher)) (value : string)
  : option (list RouteMatcher) :=
  inner ← strip_one_parenthesis_pair value;
  mapM (fun raw => child ← strip_one_parenthesis_pair raw; ms ← parse child; only_one ms)
    (split_top_level_commas inner).

Definition logical_matcher (kind_uc : string) (children : list RouteMatcher) : option RouteMatcher :=
  if decide (kind_uc = "AND") then if (2 <=? length children)%nat then Some (MAnd children) else None
  else if decide (kind_uc = "OR") then if (2 <=? length children)%nat then Some (MOr children) else None
  else match children with [m] => Some (MNot m) | _ => None end.

(** [parse_classical_lhs_inner], its recursive calls going to [parse]. *)
Definition parse_classical_body (parse : string -> bool -> option (list RouteMatcher)) (lhs : string)
  (preserve_no_resolve : bool) : option (list RouteMatcher) :=
  if eq_ignore_ascii_case lhs "MATCH" then Some [MAny] else
  let parts := split_top_level_commas lhs in
  let kind_uc := to_ascii_uppercase (default "" (head parts)) in
  if decide (kind_uc = "SUB-RULE") then
    match parts with
    | [_; condition] =>
      payload ← strip_one_parenthesis_pair condition;
      ms ← parse payload false;
      m ← only_one ms;
      Some [m]
    | _ => None
    end
  else if decide (kind_uc ∈ ["AND"; "OR"; "NOT"]) then
    match parts with
    | [_; value] =>
      if String.eqb value "" then None else
      children ← logical_children (fun text => parse text true) value;
      m ← logical_matcher kind_uc children;
      Some [m]
    | _ => None
    end
  else parse_classical_leaf kind_uc parts preserve_no_resolve.

(** The recursion, as deep as the fuel; the text of a nested condition is shorter. *)
Fixpoint parse_classical_fuel (fuel : nat) : string -> bool -> option (list RouteMatcher) :=
  parse_classical_body (fun text preserve =>
    match fuel with O => None | S fuel' => parse_classical_fuel fuel' text preserve end).

Definition parse_classical_lhs_inner (lhs : string) (preserve_no_resolve : bool) : option (list RouteMatcher) :=
  parse_classical_fuel (length (str_bytes lhs)) lhs preserve_no_resolve.

Definition parse_classical_lhs (lhs : string) : option (list RouteMatcher) :=
  parse_classical_lhs_inner lhs false.

(** ** The left side of a rule *)

Definition each (build : string -> option RouteMatcher) (raw : string) : option (list RouteMatcher) :=
  mapM build (split_values raw).
Definition plain (c : string -> RouteMatcher) (v : string) : option RouteMatcher := Some (c v).
Definition one (m : option RouteMatcher) : option (list RouteMatcher) := (fun m => [m]) <$> m.

Definition build_domain_regex (v : string) : option RouteMatcher :=
  guarded (validate_mihomo_domain_regex v) (MDomainRegex v).
Definition build_domain_wildcard (v : string) : option RouteMatcher :=
  guarded (validate_wildcard v) (MDomainWildcard v).
Definition build_cidr (v : string) : option RouteMatcher := MCidr <$> normalize_classical_cidr v.
Definition build_src_cidr (v : string) : option RouteMatcher := MSrcCidr <$> normalize_classical_cidr v.

Definition parse_match_lhs (lhs : string) : option (list RouteMatcher) :=
  if decide (lhs = "home") then Some [MHome]
  else if decide (lhs = "cn") then Some [MCn]
  else if decide (lhs = "ads") then Some [MAds]
  else if decide (lhs ∈ ["any"; "*"; "final"; "default"]) then Some [MAny]
  else if str_starts_with lhs "domain:" then each (plain MDomain) (str_from 7 lhs)
  else if str_starts_with lhs "domain-suffix:" then each (plain MSuffix) (str_from 14 lhs)
  else if str_starts_with lhs "domain-regex:" then each build_domain_regex (str_from 13 lhs)
  else if str_starts_with lhs "domain-keyword:" then each (plain MKeyword) (str_from 15 lhs)
  else if str_starts_with lhs "keyword:" then each (plain MKeyword) (str_from 8 lhs)
  else if str_starts_with lhs "domain-wildcard:" then each build_domain_wildcard (str_from 16 lhs)
  else if str_starts_with lhs "suffix:" then each (plain MSuffix) (str_from 7 lhs)
  else if str_starts_with lhs "ip:" then each build_cidr (str_from 3 lhs)
  else if str_starts_with lhs "source-ip:" then each build_src_cidr (str_from 10 lhs)
  else if str_starts_with lhs "src-ip:" then each build_src_cidr (str_from 7 lhs)
  else if str_starts_with lhs "src-ip-cidr:" then each build_src_cidr (str_from 12 lhs)
  else if str_starts_with lhs "port:" then one (parse_classical_port (str_trim (str_from 5 lhs)))
  else if str_starts_with lhs "source-port:" then one (parse_classical_source_port (str_trim (str_from 12 lhs)))
  else if str_starts_with lhs "src-port:" then one (parse_classical_source_port (str_trim (str_from 9 lhs)))
  else if str_starts_with lhs "network:" then each (plain MNetwork) (str_from 8 lhs)
  else if str_starts_with lhs "process:" then each (plain MProcess) (str_from 8 lhs)
  else if str_starts_with lhs "process-path:" then each (plain MProcessPath) (str_from 13 lhs)
  else if str_starts_with lhs "set:" then each (plain MSet) (str_from 4 lhs)
  else if str_starts_with lhs "proto:" then each (plain MProto) (str_from 6 lhs)
  else if str_starts_with lhs "sni:" then each (plain MSuffix) (str_from 4 lhs)
  else if is_classical_lhs lhs then parse_classical_lhs lhs
  else Some [MService lhs].

Definition add_option (o : RouteRuleOptions) (option : string) : RouteRuleOptions :=
  if eq_ignore_ascii_case option "no-resolve" then set_no_resolve o
  else if eq_ignore_ascii_case option "no-log" then set_no_log o
  else if eq_ignore_ascii_case option "no-track" then set_no_track o
  else o.

Definition classical_rule_options (lhs : string) : RouteRuleOptions :=
  foldl add_option RouteRuleOptions_default (drop 2 (split_top_level_commas lhs)).

(** ** Classical lines [TYPE,VALUE,POLICY[,OPTION..]] *)

(** The options behind the policy of [MATCH]. *)
Definition match_option (o : option RouteRuleOptions) (text : string) : option RouteRuleOptions :=
  o ← o;
  if eq_ignore_ascii_case text "no-log" then Some (set_no_log o)
  else if eq_ignore_ascii_case text "no-track" then Some (set_no_track o)
  else None.

(** The options behind the policy of the other types, read backwards; the first field that
    is none is the policy.  The fields are those after the type, the first being the value. *)
Fixpoint policy_field (fields : list string) (o : RouteRuleOptions) (source : bool)
  : RouteRuleOptions * bool * list string :=
  match fields with
  | [] => (o, source, [])
  | [value] => (o, source, [value])
  | option :: fields' =>
    if eq_ignore_ascii_case option "no-resolve" then policy_field fields' (set_no_resolve o) source
    else if eq_ignore_ascii_case option "no-log" then policy_field fields' (set_no_log o) source
    else if eq_ignore_ascii_case option "no-track" then policy_field fields' (set_no_track o) source
    else if eq_ignore_ascii_case option "src" then policy_field fields' o true
    else (o, source, fields)
  end.

Definition try_classical_to_dsl (line : string) : option (string * RouteRuleOptions) :=
  let trimmed := str_trim line in
  if String.eqb trimmed "" then None else
  let kind := str_trim (default "" (head (str_split 44 trimmed))) in
  if negb (eq_ignore_ascii_case kind "MATCH" || is_kind kind) then None else
  match split_top_level_commas trimmed with
  | first :: fields =>
    if eq_ignore_ascii_case kind "MATCH" then
      match fields with
      | policy :: rest =>
        options ← foldl match_option (Some RouteRuleOptions_default) rest;
        Some ("MATCH -> " +:+ policy, options)
      | [] => None
      end
    else if (length fields <? 2)%nat then None
    else
      let '(options, source, rest) := policy_field (rev fields) RouteRuleOptions_default false in
      match rest with
      | policy :: before =>
        let lhs := first :: rev before ++ (if source then ["src"] else []) in
        Some (join "," lhs +:+ " -> " +:+ policy, options)
      | [] => None
      end
  | [] => None
  end.

(** ** Rules *)

Definition resolve_action (groups : gset string) (final_target rhs : string) : option RouteAction :=
  if eq_ignore_ascii_case rhs "direct" then Some ADirect
  else if eq_ignore_ascii_case rhs "block" || eq_ignore_ascii_case rhs "reject"
          || eq_ignore_ascii_case rhs "reject-drop" then Some ABlock
  else if eq_ignore_ascii_case rhs "pass" then Some APass
  else if eq_ignore_ascii_case rhs "pass-rule" then Some APassRule
  else if bool_decide (rhs = "main") && negb (bool_decide ("main" ∈ groups)) && bool_decide (final_target = "main")
       then Some (AGroup "main")
  else if decide (rhs ∈ groups) then Some (AGroup rhs)
  else None.

Definition is_sub_rule (lhs : string) : bool :=
  eq_ignore_ascii_case (str_trim (default "" (head (str_split 44 lhs)))) "SUB-RULE".

(** A line with an arrow. *)
Definition parse_arrow_line (groups : gset string) (sub_rules : list string) (final_target line : string)
  : option (list RouteStep) :=
  '(lhs, rhs) ← str_split_once_str "->" line;
  let lhs := str_trim lhs in
  let rhs := str_trim rhs in
  matchers ← parse_match_lhs lhs;
  action ← (if is_sub_rule lhs then if decide (rhs ∈ sub_rules) then Some (ASubRule rhs) else None
            else resolve_action groups final_target rhs);
  Some (map (fun m => mkStep m action line (classical_rule_options lhs)) matchers).

Definition parse_step_line (groups : gset string) (sub_rules : list string) (final_target line : string)
  : option (list RouteStep) :=
  if str_contains line "->" then parse_arrow_line groups sub_rules final_target line else
  '(rewritten, options) ← try_classical_to_dsl line;
  steps ← parse_arrow_line groups sub_rules final_target rewritten;
  Some (map (fun s => mkStep (rs_matcher s) (rs_action s) line options) steps).

Definition matcher_from_values (v : MatcherValue) (build : string -> option RouteMatcher) : option RouteMatcher :=
  built ← mapM (fun raw => build (str_trim raw)) (to_vec v);
  match built with
  | [] => None
  | [m] => Some m
  | _ => Some (MOr built)
  end.

(** The clauses of a field that may be absent. *)
Definition field (v : option MatcherValue) (build : string -> option RouteMatcher) : option (list RouteMatcher) :=
  match v with Some v => one (matcher_from_values v build) | None => Some [] end.
Definition text_field (v : option string) (c : string -> RouteMatcher) : list RouteMatcher :=
  match v with Some s => [c s] | None => [] end.

Definition object_clauses (o : RouteStepObject) : option (list RouteMatcher) :=
  inline ← (match ob_match o with Some s => parse_match_lhs (str_trim s) | None => Some [] end);
  domain ← field (ob_domain o) (plain MDomain);
  suffix ← field (ob_suffix o) (plain MSuffix);
  keyword ← field (ob_keyword o) (plain MKeyword);
  regex ← field (ob_regex o) build_domain_regex;
  ip ← field (ob_ip o) build_cidr;
  source_ip ← field (ob_source_ip o) build_src_cidr;
  port ← field (ob_port o) parse_classical_port;
  source_port ← field (ob_source_port o) parse_classical_source_port;
  process ← field (ob_process o) (plain MProcess);
  process_path ← field (ob_process_path o) (plain MProcessPath);
  set ← field (ob_set o) (plain MSet);
  Some (inline ++ domain ++ suffix ++ keyword ++ regex ++ ip ++ source_ip ++ port ++ source_port ++ process
        ++ process_path ++ set ++ text_field (ob_network o) MNetwork ++ text_field (ob_proto o) MProto).

Definition present {A} (name : string) (v : option A) : list string := match v with Some _ => [name] | None => [] end.

Definition format_object_source (o : RouteStepObject) : string :=
  "object[" +:+ join "+"
    (present "match" (ob_match o) ++ present "domain" (ob_domain o) ++ present "suffix" (ob_suffix o)
     ++ present "keyword" (ob_keyword o) ++ present "regex" (ob_regex o) ++ present "ip" (ob_ip o)
     ++ present "source-ip" (ob_source_ip o) ++ present "port" (ob_port o) ++ present "source-port" (ob_source_port o)
     ++ present "process" (ob_process o) ++ present "process-path" (ob_process_path o) ++ present "set" (ob_set o)
     ++ present "network" (ob_network o) ++ present "proto" (ob_proto o)) +:+ "] -> " +:+ ob_outbound o.

Definition compile_object (groups : gset string) (final_target : string) (o : RouteStepObject)
  : option (list RouteStep) :=
  action ← resolve_action groups final_target (str_trim (ob_outbound o));
  clauses ← object_clauses o;
  let inline := match ob_match o with Some s => classical_rule_options s | None => RouteRuleOptions_default end in
  let options := mkOptions (ob_no_resolve o || no_resolve inline) (ob_no_log o || no_log inline)
                   (ob_no_track o || no_track inline) in
  match clauses with
  | [] => None
  | [m] => Some [mkStep m action (format_object_source o) options]
  | _ => Some [mkStep (MAnd clauses) action (format_object_source o) options]
  end.

Definition compile_entry (groups : gset string) (sub_rules : list string) (final_target : string)
    (entry : RouteStepEntry) : option (list RouteStep) :=
  match entry with
  | ELine s => parse_step_line groups sub_rules final_target s
  | EObject o => compile_object groups final_target o
  end.

Definition compile_entries (groups : gset string) (sub_rules : list string) (final_target : string)
    (entries : list RouteStepEntry) : option (list RouteStep) :=
  (fun l => List.concat l) <$> mapM (compile_entry groups sub_rules final_target) entries.

(** The steps a preset begins with, and the one it may end with. *)
Definition preset_steps (preset final_target : string) : option (list RouteStep * option RouteStep) :=
  if decide (preset = "cn_smart") then
    Some ([rs MHome ADirect "preset:cn_smart home"; rs MCn ADirect "preset:cn_smart cn"],
          Some (rs MAny (AGroup final_target) "preset:cn_smart any"))
  else if decide (preset = "global") then
    Some ([rs MHome ADirect "preset:global home"], Some (rs MAny (AGroup final_target) "preset:global any"))
  else if decide (preset = "direct") then Some ([], Some (rs MAny ADirect "preset:direct any"))
  else if decide (preset = "privacy") then
    Some ([rs MHome ADirect "preset:privacy home"], Some (rs MAny (AGroup final_target) "preset:privacy any"))
  else if decide (preset = "custom") then Some ([], None)
  else None.

Definition is_any (m : RouteMatcher) : bool := match m with MAny => true | _ => false end.

Definition compile_sub_rule (groups : gset string) (sub_rules : list string) (final_target : string)
    (row : string * list RouteStepEntry) : option (string * list RouteStep) :=
  if String.eqb (str_trim row.1) "" then None else
  steps ← compile_entries groups sub_rules final_target row.2;
  Some (row.1, steps).

Definition compile_route (route : Route) (groups : gset string) : option RoutePlan :=
  let preset := if String.eqb (ro_preset route) "" then "cn_smart" else ro_preset route in
  let names := fst <$> ro_sub_rules route in
  let final_target := ro_final route in
  if negb (bool_decide (final_target ∈ groups)) && negb (String.eqb final_target "direct")
     && negb (String.eqb final_target "block") then None else
  '(before, fallback) ← preset_steps preset final_target;
  own ← compile_entries groups names final_target (ro_steps route);
  let steps := before ++ own in
  sub_rules ← mapM (compile_sub_rule groups names final_target) (ro_sub_rules route);
  match validate_sub_rule_graph sub_rules with
  | Ok _ =>
    Some (mkPlan
      (if existsb (fun s => is_any (rs_matcher s)) steps then steps
       else steps ++ [default (rs MAny (AGroup final_target) "auto-fallback") fallback])
      sub_rules)
  | _ => None
  end.
End Compile.
