(* ===== verification/RouteCompileSpec.v ===== *)
(** * What the route compiler guarantees the engine

    The plan of every accepted configuration is closed (its actions name groups and
    branches that exist), its patterns are the ones the engine can build, and the engine's
    decisions on it name only groups of the configuration.  The classical text of a
    condition is read back as the condition. *)

From stdpp Require Import base list gmap strings numbers option pretty.
From S2P Require Import Prelude Text Net TextSplit Instances RouteModel RouteMatch RouteInstances RouteSpec RouteEngine RouteCompile.

(** ** Inversion of [mapM] and binds *)

Lemma mapM_elem {A B} (f : A -> option B) l k y :
  mapM f l = Some k -> y ∈ k -> exists x, x ∈ l /\ f x = Some y.
Proof.
  intros Hm Hy. apply mapM_Some in Hm. induction Hm as [|x z l k Hx Hl IH]; [by apply elem_of_nil in Hy|].
  apply elem_of_cons in Hy as [->|Hy]; [exists x; split; [by left|done]|].
  destruct (IH Hy) as (x' & ? & ?). exists x'. split; [by right|done].
Qed.

Lemma mapM_forall {A B} (f : A -> option B) (P : B -> Prop) l k :
  (forall x y, x ∈ l -> f x = Some y -> P y) -> mapM f l = Some k -> Forall P k.
Proof.
  intros Hf Hm. apply list.Forall_forall. intros y Hy. destruct (mapM_elem f l k y Hm Hy) as (x & Hx & E). eauto.
Qed.

(** Take apart [x ← e; k = Some r]. *)
Ltac inv_opt H :=
  repeat match type of H with
  | mbind _ ?e = Some _ => let E := fresh "E" in destruct e eqn:E; [cbn [mbind option_bind] in H|discriminate H]
  | fmap _ ?e = Some _ => let E := fresh "E" in destruct e eqn:E; [cbn [fmap option_fmap option_map] in H|discriminate H]
  | (let '(_, _) := ?p in _) = Some _ => destruct p
  end.

(** ** The patterns of a compiled plan *)
Section Patterns.
Context `{IpNetLib, !RouteLib, NetText, StrCase, !RouteText}.

(** What the engine relies on for a matcher without parts. *)
Definition valid_leaf (m : RouteMatcher) : Prop :=
  match m with
  | MDomainRegex p => is_Some (compile_mihomo_domain_regex p)
  | MDomainWildcard p | MProcessWildcard p | MProcessPathWildcard p => is_Some (glob_build p)
  | MProcessRegex p | MProcessPathRegex p => is_Some (regex_new p)
  | MCidr c | MSrcCidr c => is_Some (parse_ipnet c)
  | MIpSuffix s | MSrcIpSuffix s => is_Some (parse_ip_suffix s)
  | MPort p | MSrcPort p | MInPort p => 0 <= p < 2 ^ 16
  | MPortRange lo hi | MSrcPortRange lo hi | MInPortRange lo hi => 0 <= lo <= hi /\ hi < 2 ^ 16
  | MIpAsn a | MSrcIpAsn a | MUid a => 0 <= a < 2 ^ 32
  | MDscp d => 0 <= d < 2 ^ 8
  | _ => True
  end.

Definition valid (m : RouteMatcher) : Prop := Forall valid_leaf (leaves m).

Lemma valid_parts ms : Forall valid ms -> Forall valid_leaf (concat (map leaves ms)).
Proof. induction 1; cbn; [constructor|]. by apply Forall_app. Qed.

Lemma valid_one m : is_leaf m = true -> valid_leaf m -> valid m.
Proof. intros Hl Hv. unfold valid. destruct m; try discriminate Hl; cbn [leaves]; by constructor. Qed.

Lemma valid_wildcard v : validate_wildcard v = Some tt -> is_Some (glob_build v).
Proof.
  unfold validate_wildcard. destruct (String.eqb v ""); [done|]. destruct (existsb is_bracket (str_bytes v)); [done|].
  by destruct (glob_build v).
Qed.

Lemma parsed_ip_ok s ip : parse_ip s = Some ip -> ip_ok ip.
Proof.
  unfold parse_ip. destruct (parse_ipv4 s) as [a|] eqn:E4; [intros [= <-]; by eapply parse_ipv4_range|].
  destruct (parse_ipv6 s) as [a|] eqn:E6; [|done]. intros [= <-]. by eapply parse_ipv6_range.
Qed.

Lemma valid_cidr v c : normalize_classical_cidr v = Some c -> is_Some (parse_ipnet c).
Proof.
  unfold normalize_classical_cidr. destruct (parse_ipnet (str_trim v)) as [n|].
  - intros [= <-]. by rewrite parse_net_show.
  - destruct (parse_ip (str_trim v)) as [ip|] eqn:E; [|done]. intros [= <-]. apply parse_host_net. by eapply parsed_ip_ok.
Qed.

Lemma valid_ip_suffix v s : normalize_classical_ip_suffix v = Some s -> is_Some (parse_ip_suffix s).
Proof.
  unfold normalize_classical_ip_suffix. destruct (str_split_once 47 (str_trim v)) as [[a b]|]; [|done].
  cbn [mbind option_bind]. destruct (parse_ip a) as [ip|] eqn:Ei; [|done]. destruct (parse_u8 b) as [n|] eqn:En; [|done].
  cbn [mbind option_bind]. destruct (_ <? n) eqn:El; [done|]. intros [= <-]. apply parsed_ip_ok in Ei. apply parse_u8_range in En.
  unfold parse_ip_suffix. rewrite str_split_once_sep by (done || by apply show_ip_no_slash). cbn [mbind option_bind].
  rewrite parse_show_ip by done. cbn [mbind option_bind]. unfold parse_u8. rewrite parse_pretty by lia. cbn [mbind option_bind].
  rewrite (proj2 (Z.leb_le _ _)) by lia. by eexists.
Qed.

(** A check in front of a leaf. *)
Lemma guarded_some {A} check (x y : A) : guarded check x = Some y -> check = Some tt /\ y = x.
Proof. unfold guarded. destruct check as [[]|]; [|done]. by intros [= <-]. Qed.

Definition port_matcher (m : RouteMatcher) : Prop := valid m /\ valid (map_port_matcher m) /\ valid (map_in_port_matcher m).

Lemma valid_one_port v m : parse_one_port v = Some m -> port_matcher m.
Proof.
  unfold parse_one_port. destruct (str_split_once 45 v) as [[lo hi]|].
  - destruct (parse_u16 (str_trim lo)) as [l|] eqn:El; [|done]. destruct (parse_u16 (str_trim hi)) as [h|] eqn:Eh; [|done].
    cbn [mbind option_bind]. destruct (h <? l) eqn:E; [done|]. intros [= <-]. apply parse_u16_range in El, Eh.
    repeat split; apply valid_one; try done; cbn [valid_leaf map_port_matcher map_in_port_matcher]; change (2 ^ 16) with 65536; lia.
  - destruct (parse_u16 v) as [n|] eqn:En; [|done]. intros [= <-]. apply parse_u16_range in En.
    repeat split; apply valid_one; try done; cbn [valid_leaf map_port_matcher map_in_port_matcher]; change (2 ^ 16) with 65536; lia.
Qed.

Lemma valid_or ms : Forall valid ms -> valid (MOr ms).
Proof. apply valid_parts. Qed.
Lemma valid_and ms : Forall valid ms -> valid (MAnd ms).
Proof. apply valid_parts. Qed.

Lemma valid_port_body parse v m : (forall x y, parse x = Some y -> port_matcher y) ->
  parse_port_body parse v = Some m -> port_matcher m.
Proof.
  intros IH. unfold parse_port_body. destruct (1 <? length (port_parts v))%nat; [|apply valid_one_port].
  destruct (mapM parse (port_parts v)) as [ms|] eqn:E; [|done]. intros [= <-].
  assert (Hms : Forall port_matcher ms) by (eapply mapM_forall; [|exact E]; intros x y _; apply IH).
  split; [|split]; cbn [map_port_matcher map_in_port_matcher]; apply valid_or; apply list.Forall_forall.
  + intros x Hx. rewrite list.Forall_forall in Hms. by apply Hms.
  + intros x Hx. apply list_elem_of_fmap in Hx as (y & -> & Hy). rewrite list.Forall_forall in Hms. by apply Hms.
  + intros x Hx. apply list_elem_of_fmap in Hx as (y & -> & Hy). rewrite list.Forall_forall in Hms. by apply Hms.
Qed.

Lemma valid_port fuel : forall v m, parse_port_fuel fuel v = Some m -> port_matcher m.
Proof. induction fuel as [|fuel IH]; intros v m; cbn [parse_port_fuel]; apply valid_port_body; [done|exact IH]. Qed.

Lemma valid_asn v a : parse_asn v = Some a -> 0 <= a < 2 ^ 32.
Proof. unfold parse_asn, parse_u32_text. intros E. apply parse_uint_range in E; lia. Qed.

Lemma valid_regex v : validate_regex v = Some tt -> is_Some (regex_new v).
Proof. unfold validate_regex. by destruct (regex_new v). Qed.

Lemma valid_domain_regex v : validate_mihomo_domain_regex v = Some tt -> is_Some (compile_mihomo_domain_regex v).
Proof. unfold validate_mihomo_domain_regex. by destruct (compile_mihomo_domain_regex v). Qed.

Lemma valid_uint bits v n : parse_uint (2 ^ bits - 1) v = Some n -> 0 <= bits -> 0 <= n < 2 ^ bits.
Proof. intros E Hb. assert (0 < 2 ^ bits) by (apply Z.pow_pos_nonneg; lia). apply parse_uint_range in E; lia. Qed.

Lemma valid_ports v m :
  (parse_classical_port v = Some m -> valid m) /\ (parse_classical_source_port v = Some m -> valid m)
  /\ (parse_classical_in_port v = Some m -> valid m).
Proof.
  unfold parse_classical_source_port, parse_classical_in_port, parse_classical_port.
  destruct (parse_port_fuel 1 v) as [p|] eqn:E; [|done]. apply valid_port in E as (? & ? & ?).
  cbn. split; [|split]; by intros [= <-].
Qed.

(** Close [valid m] for a leaf behind its check. *)
Ltac valid_leaf_case Hm :=
  first
    [ injection Hm as <-; by apply valid_one
    | apply guarded_some in Hm as [Hm ->]; apply valid_one; [done|]; cbn [valid_leaf];
      by eauto using valid_wildcard, valid_regex, valid_domain_regex
    | apply (valid_ports _ _) in Hm; exact Hm
    | apply fmap_Some in Hm as (? & Hm & ->); apply valid_one; [done|]; cbn [valid_leaf];
      first [by eauto using valid_asn, valid_cidr, valid_ip_suffix
            | apply parse_u8_range in Hm; change (2 ^ 8) with 256; lia | apply (valid_uint 32 _ _ Hm); lia] ].

(** A value of a type: a leaf whose check was made, or ports. *)
Lemma valid_classical kind source v m : classical_matcher kind source v = Some m -> valid m.
Proof.
  unfold classical_matcher. intros Hm. destruct source;
  repeat (case_decide as Hk; [clear Hk; valid_leaf_case Hm|clear Hk]); done.
Qed.

Lemma valid_classical_leaf kind parts preserve ms :
  parse_classical_leaf kind parts preserve = Some ms -> Forall valid ms.
Proof.
  unfold parse_classical_leaf. destruct parts as [|k [|first fields]]; [done|done|].
  destruct (strip_options kind (rev fields)) as [[source nr] rest]. destruct (String.eqb _ ""); [done|].
  destruct (nr && _); [done|]. destruct (classical_matcher _ _ _) as [m|] eqn:E; [|done]. cbn [mbind option_bind].
  intros [= <-]. apply list.Forall_singleton. apply valid_classical in E. by destruct (preserve && nr).
Qed.

Lemma only_one_some ms m : only_one ms = Some m -> ms = [m].
Proof. destruct ms as [|x [|]]; [done| |done]. by intros [= <-]. Qed.

Lemma valid_logical kind children m : Forall valid children -> logical_matcher kind children = Some m -> valid m.
Proof.
  intros Hc. unfold logical_matcher. case_decide; [destruct (2 <=? _)%nat; [|done]; intros [= <-]; by apply valid_and|].
  case_decide; [destruct (2 <=? _)%nat; [|done]; intros [= <-]; by apply valid_or|].
  destruct children as [|x [|]]; [done| |done]. intros [= <-]. exact (Forall_inv Hc).
Qed.

Lemma valid_children parse value ms :
  (forall text ms, parse text = Some ms -> Forall valid ms) -> logical_children parse value = Some ms -> Forall valid ms.
Proof.
  intros Hp. unfold logical_children. destruct (strip_one_parenthesis_pair value) as [inner|]; [|done].
  cbn [mbind option_bind]. apply mapM_forall. intros raw m _ Hm. inv_opt Hm. apply only_one_some in Hm as ->.
  exact (Forall_inv (Hp _ _ E0)).
Qed.

Lemma valid_classical_body parse lhs preserve ms : (forall text p ms, parse text p = Some ms -> Forall valid ms) ->
  parse_classical_body parse lhs preserve = Some ms -> Forall valid ms.
Proof.
  intros IH. unfold parse_classical_body.
  destruct (eq_ignore_ascii_case lhs "MATCH"); [intros [= <-]; apply list.Forall_singleton; by apply valid_one|].
  destruct (split_top_level_commas lhs) as [|k [|value [|? ?]]];
    (case_decide; [try done|case_decide; [try done|by apply valid_classical_leaf]]).
  - destruct (strip_one_parenthesis_pair value) as [payload|]; [cbn [mbind option_bind]|done]. intros Hm. inv_opt Hm.
    injection Hm as <-. apply only_one_some in E0 as ->. by eapply IH.
  - destruct (String.eqb value ""); [done|]. intros Hm. inv_opt Hm. injection Hm as <-. apply list.Forall_singleton.
    eapply valid_logical; [|done]. eapply valid_children; [|exact E]. intros text ms'. apply IH.
Qed.

Lemma valid_classical_fuel fuel : forall lhs preserve ms,
  parse_classical_fuel fuel lhs preserve = Some ms -> Forall valid ms.
Proof. induction fuel as [|fuel IH]; intros lhs preserve ms; cbn [parse_classical_fuel]; apply valid_classical_body; [done|exact IH]. Qed.

Lemma valid_each build raw ms : (forall v m, build v = Some m -> valid m) -> each build raw = Some ms -> Forall valid ms.
Proof. intros Hb. apply mapM_forall. intros v m _. apply Hb. Qed.

Lemma valid_plain c v m : (forall s, is_leaf (c s) = true /\ valid_leaf (c s)) -> plain c v = Some m -> valid m.
Proof. intros Hc [= <-]. destruct (Hc v). by apply valid_one. Qed.

Lemma valid_build v m :
  (build_domain_regex v = Some m -> valid m) /\ (build_domain_wildcard v = Some m -> valid m)
  /\ (build_cidr v = Some m -> valid m) /\ (build_src_cidr v = Some m -> valid m).
Proof.
  unfold build_domain_regex, build_domain_wildcard, build_cidr, build_src_cidr.
  repeat split; intros Hm; valid_leaf_case Hm.
Qed.

Lemma valid_single m ms : (forall x, m = Some x -> valid x) -> one m = Some ms -> Forall valid ms.
Proof. intros Hm. unfold one. destruct m as [x|]; [|done]. intros [= <-]. apply list.Forall_singleton. auto. Qed.

Lemma valid_match_lhs lhs ms : parse_match_lhs lhs = Some ms -> Forall valid ms.
Proof.
  unfold parse_match_lhs. intros Hm.
  do 4 (case_decide as Hk; [clear Hk; injection Hm as <-; apply list.Forall_singleton; by apply valid_one|clear Hk]).
  repeat match type of Hm with
  | (if is_classical_lhs _ then _ else _) = _ => fail 1
  | (if ?b then _ else _) = _ => destruct b;
      [first [ eapply valid_each; [|exact Hm]; intros v m Hv;
                 first [eapply valid_plain; [|exact Hv]; intros ?; by split | apply (valid_build _ _) in Hv; exact Hv]
             | eapply valid_single; [|exact Hm]; intros m; apply valid_ports ]|]
  end.
  destruct (is_classical_lhs lhs); [by apply valid_classical_fuel in Hm|].
  injection Hm as <-. apply list.Forall_singleton. by apply valid_one.
Qed.

(** ** The steps of a compiled plan *)

(** An action names a group of the configuration, the final target, or a branch. *)
Definition action_ok (groups : gset string) (branches : list string) (final_target : string) (a : RouteAction) : Prop :=
  match a with
  | AGroup g => g ∈ groups \/ g = final_target
  | ASubRule name => name ∈ branches
  | _ => True
  end.

Definition step_ok (groups : gset string) (branches : list string) (final_target : string) (s : RouteStep) : Prop :=
  valid (rs_matcher s) /\ action_ok groups branches final_target (rs_action s).

Lemma resolve_action_ok groups branches final_target rhs a :
  resolve_action groups final_target rhs = Some a -> action_ok groups branches final_target a.
Proof.
  unfold resolve_action. intros Ha.
  repeat match type of Ha with
  | (if decide _ then _ else _) = _ => fail 1
  | (if ?b then _ else _) = _ => destruct b eqn:?; [injection Ha as <-; try exact I|]
  end.
  - rewrite !andb_true_iff, !bool_decide_eq_true in *. right. intuition congruence.
  - case_decide; [|done]. injection Ha as <-. by left.
Qed.

Lemma parse_arrow_ok groups branches final_target line steps :
  parse_arrow_line groups branches final_target line = Some steps -> Forall (step_ok groups branches final_target) steps.
Proof.
  unfold parse_arrow_line. destruct (str_split_once_str "->" line) as [[lhs rhs]|]; [|done]. cbn [mbind option_bind].
  destruct (parse_match_lhs (str_trim lhs)) as [ms|] eqn:Em; [|done]. cbn [mbind option_bind]. intros Hs. inv_opt Hs.
  injection Hs as <-. apply valid_match_lhs in Em. apply Forall_fmap. eapply Forall_impl; [exact Em|]. intros m Hm.
  split; [exact Hm|]. cbn. destruct (is_sub_rule (str_trim lhs)); [|by eapply resolve_action_ok].
  case_decide; [|done]. by injection E as <-.
Qed.

Lemma parse_step_line_ok groups branches final_target line steps :
  parse_step_line groups branches final_target line = Some steps -> Forall (step_ok groups branches final_target) steps.
Proof.
  unfold parse_step_line. destruct (str_contains line "->"); [apply parse_arrow_ok|].
  destruct (try_classical_to_dsl line) as [[text options]|]; [|done]. cbn [mbind option_bind]. intros Hs. inv_opt Hs.
  injection Hs as <-. apply parse_arrow_ok in E. apply Forall_fmap. eapply Forall_impl; [exact E|]. by intros s Hs.
Qed.

Lemma valid_field v build ms : (forall x m, build x = Some m -> valid m) -> field v build = Some ms -> Forall valid ms.
Proof.
  intros Hb. unfold field. destruct v as [v|]; [|by intros [= <-]]. apply valid_single. intros m. unfold matcher_from_values.
  destruct (mapM _ (to_vec v)) as [built|] eqn:E; [|done]. cbn [mbind option_bind].
  assert (Hbuilt : Forall valid built) by (eapply mapM_forall; [|exact E]; intros x y _; apply Hb).
  destruct built as [|x [|]]; [done|intros [= <-]; exact (Forall_inv Hbuilt)|intros [= <-]; by apply valid_or].
Qed.

Lemma valid_text_field v c : (forall s, is_leaf (c s) = true /\ valid_leaf (c s)) -> Forall valid (text_field v c).
Proof. intros Hc. destruct v as [s|]; [|constructor]. apply list.Forall_singleton. destruct (Hc s). by apply valid_one. Qed.

Lemma valid_clauses o ms : object_clauses o = Some ms -> Forall valid ms.
Proof.
  unfold object_clauses. intros Hm.
  destruct (match ob_match o with Some s => parse_match_lhs (str_trim s) | None => Some [] end) as [inline|] eqn:Ei; [cbn [mbind option_bind] in Hm|done].
  assert (Hi : Forall valid inline) by (destruct (ob_match o); [by eapply valid_match_lhs|by injection Ei as <-]).
  inv_opt Hm. injection Hm as <-.
  repeat (apply Forall_app; split); try exact Hi;
  first [ by apply valid_text_field; intros ?; split
        | match goal with E : field _ _ = Some ?l |- Forall valid ?l =>
            eapply valid_field; [|exact E]; intros x m Hx;
            first [eapply valid_plain; [|exact Hx]; intros ?; by split | apply (valid_build _ _) in Hx; exact Hx | apply (valid_ports _ _) in Hx; exact Hx] end ].
Qed.

Lemma compile_object_ok groups branches final_target o steps :
  compile_object groups final_target o = Some steps -> Forall (step_ok groups branches final_target) steps.
Proof.
  unfold compile_object. destruct (resolve_action _ _ _) as [a|] eqn:Ea; [|done]. cbn [mbind option_bind].
  destruct (object_clauses o) as [ms|] eqn:Em; [|done]. cbn [mbind option_bind]. apply valid_clauses in Em.
  eapply resolve_action_ok in Ea. intros Hs.
  destruct ms as [|m [|]]; [done| |]; injection Hs as <-; apply list.Forall_singleton; (split; [|exact Ea]).
  - exact (Forall_inv Em).
  - by apply valid_and.
Qed.

Lemma compile_entries_ok groups branches final_target entries steps :
  compile_entries groups branches final_target entries = Some steps -> Forall (step_ok groups branches final_target) steps.
Proof.
  unfold compile_entries. destruct (mapM _ entries) as [l|] eqn:E; [|done]. intros [= <-].
  apply Forall_concat. eapply mapM_forall; [|exact E]. intros entry steps _.
  destruct entry; [apply parse_step_line_ok|apply compile_object_ok].
Qed.

Lemma preset_ok groups branches preset final_target before fallback :
  preset_steps preset final_target = Some (before, fallback) ->
  Forall (step_ok groups branches final_target) before
  /\ forall s, fallback = Some s -> step_ok groups branches final_target s /\ rs_matcher s = MAny.
Proof.
  unfold preset_steps. intros Hp.
  repeat (case_decide as Hk; [clear Hk; injection Hp as <- <-|clear Hk]); [..|done].
  all: split;
    [apply list.Forall_forall; intros s Hs; repeat (apply elem_of_cons in Hs as [->|Hs]; [split; [by apply valid_one|exact I]|]);
     by apply elem_of_nil in Hs
    |intros s Hs; first [discriminate Hs|injection Hs as <-; (split; [|done]); split; [by apply valid_one|by (right || exact I)]]].
Qed.

(** What [compile_route] returns. *)
Record plan_ok (route : Route) (groups : gset string) (plan : RoutePlan) : Prop := {
  po_steps : forall s, in_plan plan s -> step_ok groups (fst <$> rp_sub_rules plan) (ro_final route) s;
  po_graph : validate_sub_rule_graph (rp_sub_rules plan) = Ok tt;
  po_any : exists s, s ∈ rp_steps plan /\ rs_matcher s = MAny;
  po_names : fst <$> rp_sub_rules plan = fst <$> ro_sub_rules route
}.

Lemma sub_rules_ok groups names final_target rows out :
  mapM (compile_sub_rule groups names final_target) rows = Some out ->
  fst <$> out = fst <$> rows /\ forall e, e ∈ out -> Forall (step_ok groups names final_target) e.2.
Proof.
  intros Hm. split.
  - apply mapM_Some in Hm. induction Hm as [|row e rows out Hrow Hl IH]; [done|]. cbn. f_equal; [|exact IH].
    unfold compile_sub_rule in Hrow. destruct (String.eqb _ ""); [done|]. destruct (compile_entries _ _ _ _); [|done].
    by injection Hrow as <-.
  - intros e He. destruct (mapM_elem _ _ _ _ Hm He) as (row & _ & Hrow). unfold compile_sub_rule in Hrow.
    destruct (String.eqb _ ""); [done|]. destruct (compile_entries _ _ _ _) as [steps|] eqn:E; [|done].
    injection Hrow as <-. by eapply compile_entries_ok.
Qed.

Lemma compile_route_ok route groups plan : compile_route route groups = Some plan -> plan_ok route groups plan.
Proof.
  unfold compile_route. destruct (_ && _) eqn:Ef; [done|]. clear Ef.
  destruct (preset_steps _ _) as [[before fallback]|] eqn:Ep; [|done]. cbn [mbind option_bind].
  set (names := fst <$> ro_sub_rules route). destruct (compile_entries _ _ _ _) as [own|] eqn:Eo; [|done]. cbn [mbind option_bind].
  destruct (mapM _ (ro_sub_rules route)) as [subs|] eqn:Es; [|done]. cbn [mbind option_bind].
  destruct (validate_sub_rule_graph subs) as [[]| |] eqn:Ev; [|done|done]. intros [= <-].
  apply sub_rules_ok in Es as [En Hsubs]. apply compile_entries_ok in Eo.
  destruct (preset_ok groups names _ _ _ _ Ep) as [Hbefore Hfall].
  set (last := default (rs MAny (AGroup (ro_final route)) "auto-fallback") fallback).
  assert (Hlast : step_ok groups names (ro_final route) last /\ rs_matcher last = MAny).
  { unfold last. destruct fallback as [s|]; [by apply Hfall|]. split; [|done]. split; [by apply valid_one|by right]. }
  assert (Hall : Forall (step_ok groups names (ro_final route)) (before ++ own)) by (by apply Forall_app).
  constructor; cbn [rp_steps rp_sub_rules].
  - rewrite En. intros s [Hs|(e & He & Hs)]; cbn [rp_steps rp_sub_rules] in *.
    + destruct (existsb _ _); [by rewrite list.Forall_forall in Hall; apply Hall|].
      apply elem_of_app in Hs as [Hs|Hs]; [by rewrite list.Forall_forall in Hall; apply Hall|].
      apply list_elem_of_singleton in Hs as ->. by destruct Hlast.
    + pose proof (Hsubs e He) as Hf. rewrite list.Forall_forall in Hf. by apply Hf.
  - done.
  - destruct (existsb _ _) eqn:Ee.
    + apply existsb_exists in Ee as (s & Hin & Hany). exists s. apply list_elem_of_In in Hin. split; [done|].
      by destruct (rs_matcher s).
    + exists last. split; [|by destruct Hlast]. apply elem_of_app. right. by left.
  - exact En.
Qed.
End Patterns.

(** ** Where the results of a walk come from *)
Section Walk.
Context {R S : Type} (rules : list (string * list RouteStep)).
Context (probe : RouteStep -> S -> verdict R * S) (result : option nat -> RouteStep -> R).
Context (probe_goes_on : forall step i, match (probe step i).1 with VStop _ => False | _ => True end).

Definition decides (a : RouteAction) : Prop := match a with ADirect | ABlock | AGroup _ => True | _ => False end.

(** A step of the list or of a branch, with an action that decides. *)
Definition from_step (P : RouteStep -> Prop) (r : R) : Prop :=
  exists idx step, P step /\ decides (rs_action step) /\ r = result idx step.

Lemma walk_loop_result (P : RouteStep -> Prop) call disabled depth :
  (forall name branch i, sub_rule rules name = Some branch -> forall r i', call branch i = (SfResult r, i') -> from_step P r) ->
  forall steps index i r i', (forall s, s ∈ steps -> P s) ->
  walk_loop rules probe result call disabled depth steps index i = (SfResult r, i') -> from_step P r.
Proof.
  intros Hcall. induction steps as [|step steps IH]; intros index i r i' HP; cbn [walk_loop]; [done|].
  assert (HP' : forall s, s ∈ steps -> P s) by (intros s ?; apply HP; by right).
  destruct (is_disabled disabled index); [by apply IH|].
  pose proof (probe_goes_on step i) as Hgo. destruct (probe step i) as [[| |] i1]; [by apply IH| |done].
  destruct (rs_action step) as [| |g| | |name] eqn:Ea.
  1-3: intros [= <- _]; exists (hit_index disabled index), step; rewrite Ea; repeat split; apply HP; by left.
  - destruct (0 <? depth)%nat; [done|by apply IH].
  - by apply IH.
  - destruct (sub_rule rules name) as [branch|] eqn:Eb; [|by apply IH].
    destruct (call branch i1) as [[r1| |] i2] eqn:Ec; [intros [= <- _]; by eapply Hcall| |by apply IH].
    destruct (depth =? 0)%nat; [by apply IH|done].
Qed.

Lemma walk_result (P : RouteStep -> Prop) fuel : (forall e s, e ∈ rules -> s ∈ e.2 -> P s) ->
  forall steps disabled depth i r i', (forall s, s ∈ steps -> P s) ->
  walk rules probe result fuel steps disabled depth i = (SfResult r, i') -> from_step P r.
Proof.
  intros Hr. induction fuel as [|fuel IH]; intros steps disabled depth i r i' HP; cbn [walk]; [done|].
  destruct (length rules <? depth)%nat; [done|]. apply walk_loop_result; [|done].
  intros name branch j Hb r1 j1. apply IH. intros s Hs. apply (Hr (name, branch)); [by apply sub_rule_elem|done].
Qed.

(** A step that always matches, decides and is not disabled ends the main list. *)
Lemma walk_loop_catch_all call disabled s : (forall i, (probe s i).1 = VHit) -> decides (rs_action s) ->
  forall steps index i k, steps !! k = Some s -> is_disabled disabled (index + k) = false ->
  exists r i', walk_loop rules probe result call disabled 0 steps index i = (SfResult r, i').
Proof.
  intros Hhit Hd. induction steps as [|step steps IH]; intros index i k Hk Hdis; [done|]. cbn [walk_loop].
  assert (Hnext : forall i, k <> O -> exists r i', walk_loop rules probe result call disabled 0 steps (Datatypes.S index) i = (SfResult r, i')).
  { intros j Hn. destruct k as [|k]; [done|]. apply (IH _ _ k); [done|]. by rewrite Nat.add_succ_comm. }
  destruct (decide (k = O)) as [->|Hn].
  - injection Hk as ->. rewrite Nat.add_0_r in Hdis. rewrite Hdis. specialize (Hhit i).
    destruct (probe s i) as [v i1]. cbn in Hhit. subst v. destruct (rs_action s); try done; eauto.
  - destruct (is_disabled disabled index); [by apply Hnext|].
    pose proof (probe_goes_on step i) as Hgo. destruct (probe step i) as [[| |] i1]; [by apply Hnext| |done].
    destruct (rs_action step) as [| |g| | |name]; [eauto..| | |]; cbn.
    + by apply Hnext.
    + by apply Hnext.
    + destruct (sub_rule rules name) as [branch|]; [|by apply Hnext].
      destruct (call branch i1) as [[r1| |] i2]; [eauto|by apply Hnext|by apply Hnext].
Qed.
End Walk.

(** ** The engine on a compiled plan *)
Section Engine.
Context `{IpNetLib, !RouteLib, !RulesetIndexApi, NetText, StrCase, !RouteText}.

(** The wildcards of a plan in the form the engine builds them. *)
Definition wildcards_build (plan : RoutePlan) : Prop :=
  forall w, MDomainWildcard w ∈ plan_leaves plan -> is_Some (glob_build (normalize_route_domain_pattern w)).

Lemma or_insert_with_ok {A} (m : gmap string A) k f : (exists v, f = Ok v) -> exists m', or_insert_with m k f = Ok m'.
Proof. intros [v ->]. unfold or_insert_with. destruct (m !! k); cbn; eauto. Qed.

Lemma expect_some {A} (o : option A) : is_Some o -> exists v, expect o = Ok v.
Proof. intros [v ->]. by exists v. Qed.

Lemma collect_leaf_ok m p :
  valid_leaf m -> (forall w, m = MDomainWildcard w -> is_Some (glob_build (normalize_route_domain_pattern w))) ->
  exists p', collect_leaf m p = Ok p'.
Proof.
  intros Hv Hw. destruct m; cbn [collect_leaf valid_leaf] in *; try (by eexists).
  - destruct (or_insert_with_ok (domain_regexes p) p0 (compile_domain_regex p0)) as [t ->]; [|by eexists].
    unfold compile_domain_regex. destruct (regex_build_ci p0); [by eexists|]. destruct Hv as [r ->]. by eexists.
  - destruct (or_insert_with_ok (domain_wildcards p) p0 (compile_glob (normalize_route_domain_pattern p0))) as [t ->]; [|by eexists].
    by apply expect_some, Hw.
  - destruct (or_insert_with_ok (process_regexes p) p0 (expect (regex_new p0))) as [t ->]; [by apply expect_some|by eexists].
  - destruct (or_insert_with_ok (process_regexes p) p0 (expect (regex_new p0))) as [t ->]; [by apply expect_some|by eexists].
  - destruct (or_insert_with_ok (process_wildcards p) p0 (compile_glob p0)) as [t ->]; [by apply expect_some|by eexists].
  - destruct (or_insert_with_ok (process_wildcards p) p0 (compile_glob p0)) as [t ->]; [by apply expect_some|by eexists].
Qed.

Lemma compile_leaves plan :
  compile plan = (p ← fold_outcome collect_leaf (plan_leaves plan) PreparedMatchers_default;
                  Ok (if bool_decide (keyword_patterns p = []) then p
                      else set_automaton p (ac_build (keyword_patterns p)))).
Proof.
  assert (Hsteps : forall steps s, fold_outcome (fun step => collect_matcher (rs_matcher step)) steps s
                                 = fold_outcome collect_leaf (steps_leaves steps) s).
  { intros steps s. apply fold_outcome_concat. intros x s' _. apply collect_matcher_leaves. }
  unfold compile, plan_leaves. rewrite fold_outcome_app, Hsteps. destruct (fold_outcome _ (steps_leaves _) _) as [p| |]; [|done|done].
  cbn [mbind outcome_bind].
  rewrite (fold_outcome_concat (fun e => fold_outcome (fun step => collect_matcher (rs_matcher step)) e.2) collect_leaf (fun e => steps_leaves e.2));
    [done|]. intros e s _. apply Hsteps.
Qed.

Lemma fold_leaves_ok l : forall p,
  (forall m, m ∈ l -> forall p, exists p', collect_leaf m p = Ok p') -> exists p', fold_outcome collect_leaf l p = Ok p'.
Proof.
  induction l as [|m l IH]; intros p Hl; [by eexists|]. cbn. destruct (Hl m ltac:(by left) p) as [p' ->].
  apply IH. intros x Hx. apply Hl. by right.
Qed.

Lemma elem_of_concat_map {A B} (f : A -> list B) (l : list A) y : y ∈ concat (f <$> l) -> exists x, x ∈ l /\ y ∈ f x.
Proof.
  induction l as [|x l IH]; cbn; [by intros ?%elem_of_nil|]. intros [Hy|Hy]%elem_of_app.
  - exists x. split; [by left|done].
  - destruct (IH Hy) as (x' & ? & ?). exists x'. split; [by right|done].
Qed.

Lemma plan_leaves_valid plan : (forall s, in_plan plan s -> valid (rs_matcher s)) -> Forall valid_leaf (plan_leaves plan).
Proof.
  intros Hs. apply list.Forall_forall. intros m Hm. unfold plan_leaves in Hm.
  assert (Hone : forall s, in_plan plan s -> m ∈ leaves (rs_matcher s) -> valid_leaf m).
  { intros s Hin Hl. specialize (Hs s Hin). unfold valid in Hs. rewrite list.Forall_forall in Hs. by apply Hs. }
  apply elem_of_app in Hm as [Hm|Hm].
  - apply elem_of_concat_map in Hm as (s & Hin & Hl). apply (Hone s); [by left|done].
  - apply elem_of_concat_map in Hm as (e & He & Hm). apply elem_of_concat_map in Hm as (s & Hin & Hl).
    apply (Hone s); [right; eauto|done].
Qed.

Lemma engine_builds plan rulesets : Forall valid_leaf (plan_leaves plan) -> wildcards_build plan ->
  exists e, RouteEngine_with plan rulesets = Ok e.
Proof.
  intros Hv Hw. unfold RouteEngine_with. rewrite compile_leaves.
  destruct (fold_leaves_ok (plan_leaves plan) PreparedMatchers_default) as [p ->]; [|by eexists].
  intros m Hm p. apply collect_leaf_ok.
  - rewrite list.Forall_forall in Hv. by apply Hv.
  - intros w ->. by apply Hw.
Qed.

Lemma evaluate_goes_on e pr dr step i : match (evaluate_probe e pr dr step i).1 with VStop _ => False | _ => True end.
Proof. unfold evaluate_probe. destruct (step_matches _ _ _ _ _) as [[] ?]; exact I. Qed.

Lemma any_hits e pr dr s i : rs_matcher s = MAny -> (evaluate_probe e pr dr s i).1 = VHit.
Proof. intros Hm. unfold evaluate_probe. rewrite Hm. reflexivity. Qed.

(** What a decision of the engine is. *)
Lemma decide_from_plan plan e c : engine_ok plan e ->
  from_step detailed_hit (in_plan plan) (decide_detailed e c) \/ decide_detailed e c = fallback_decision.
Proof.
  intros (E1 & E2 & E3). unfold decide_detailed, evaluate_steps. rewrite E1.
  destruct (walk _ _ _ _ _ _ _ _) as [[r| |] i] eqn:E; cbn; [left|by right|by right].
  eapply walk_result; [apply evaluate_goes_on| | |exact E]; [intros ent s ? ?; right; eauto|by intros s; left].
Qed.

Lemma decide_catch_all plan e c k s : engine_ok plan e -> rp_steps plan !! k = Some s -> rs_matcher s = MAny ->
  decides (rs_action s) -> rule_disabled e k = false -> from_step detailed_hit (in_plan plan) (decide_detailed e c).
Proof.
  intros Hok Hk Hm Hd Hdis. pose proof Hok as (E1 & E2 & E3). unfold decide_detailed, evaluate_steps. rewrite E1.
  rewrite Nat.sub_0_r. cbn [walk]. replace (length (rp_sub_rules plan) <? 0)%nat with false by (symmetry; apply Nat.ltb_ge; lia).
  match goal with |- context [walk_loop ?r ?p ?h ?call ?d 0 ?st 0 ?i] =>
    destruct (walk_loop_catch_all r p h (evaluate_goes_on e true _) call d s (fun j => any_hits _ _ _ _ j Hm) Hd st 0%nat i k Hk Hdis)
      as (d' & i' & Ew) end.
  rewrite Ew. cbn [fst].
  eapply (walk_loop_result (rp_sub_rules plan)); [apply evaluate_goes_on| | |exact Ew]; [|by intros x; left].
  intros name branch j Hb r1 j1 Hw. eapply walk_result; [apply evaluate_goes_on| | |exact Hw].
  - intros ent x ? ?. right. eauto.
  - intros x Hx. right. exists (name, branch). split; [by apply sub_rule_elem|done].
Qed.

(** The engine of an accepted plan, and what its decisions name *)
Lemma plan_engine route groups plan rulesets : compile_route route groups = Some plan -> wildcards_build plan ->
  exists e0, RouteEngine_with plan rulesets = Ok e0 /\ forall ops, engine_ok plan (toggles e0 ops)
    /\ forall c, match dd_decision (decide_detailed (toggles e0 ops) c) with DGroup g => g ∈ groups \/ g = ro_final route | _ => True end.
Proof.
  intros Hc Hw. apply compile_route_ok in Hc as [Hsteps Hgraph _ _].
  assert (Hv : Forall valid_leaf (plan_leaves plan)) by (apply plan_leaves_valid; intros s Hs; by apply Hsteps).
  destruct (engine_builds plan rulesets Hv Hw) as [e0 He0]. exists e0. split; [done|]. intros ops.
  destruct (toggles_ok plan e0 ops (RouteEngine_with_ok plan rulesets e0 He0)) as (Hok & _). split; [done|]. intros c.
  destruct (decide_from_plan plan _ c Hok) as [(idx & s & Hs & Hd & ->)| ->]; [|exact I].
  destruct (Hsteps s Hs) as [_ Ha]. cbn [dd_decision detailed_hit]. by destruct (rs_action s).
Qed.

(** [C18] A configuration that is accepted gives a plan on which the engine is built without a
    panic (every regular expression and process wildcard was checked; the domain wildcards
    are built from a normalised text, which is a hypothesis).  Whatever rules are switched
    off at run time, a decision names a group of the configuration or its final target, and
    it is the decision of a rule, not the implicit DIRECT, as long as one catch-all rule
    that decides is switched on. *)
Theorem route_config_decides route groups plan rulesets :
  compile_route route groups = Some plan -> wildcards_build plan ->
  exists e0, RouteEngine_with plan rulesets = Ok e0 /\ forall ops c,
    let e := toggles e0 ops in
    (match dd_decision (decide_detailed e c) with DGroup g => g ∈ groups \/ g = ro_final route | _ => True end)
    /\ (forall k s, rp_steps plan !! k = Some s -> rs_matcher s = MAny -> decides (rs_action s) ->
         rule_disabled e k = false -> from_step detailed_hit (in_plan plan) (decide_detailed e c)).
Proof.
  intros Hc Hw. destruct (plan_engine route groups plan rulesets Hc Hw) as (e0 & He0 & Hall). exists e0. split; [done|]. intros ops c e.
  destruct (Hall ops) as [Hok Hd]. split; [apply Hd|]. intros k s Hk Hm Hde Hdis. by eapply decide_catch_all.
Qed.
End Engine.
