(* ===== verification/RouteRoundtrip.v ===== *)
(** * Classical rule text: printing and reading back

    [rule_text] writes a matcher in the classical syntax; for a matcher without parts it is
    the engine's own description ([matcher_expression] of [core-route]).  Reading it with
    the compiler gives the matcher back, whatever the nesting of [AND], [OR] and [NOT] and
    with the escapes, the parentheses and the commas a value may have.  The recursion of the
    reader is well founded: every recursive call is on a shorter text. *)

From stdpp Require Import base list gmap strings numbers option pretty.
From S2P Require Import Prelude Text Net TextSplit RouteModel RouteMatch RouteSpec RouteCompile.

(** ** Texts with matching parentheses *)

Definition special (c : Z) : Prop := c = 40 \/ c = 41 \/ c = 92.

Inductive balanced : list Z -> Prop :=
| bal_nil : balanced []
| bal_plain c l : ~ special c -> balanced l -> balanced (c :: l)
| bal_escape c l : balanced l -> balanced (92 :: c :: l)
| bal_group x l : balanced x -> balanced l -> balanced (40 :: x ++ 41 :: l).

Lemma balanced_app a b : balanced a -> balanced b -> balanced (a ++ b).
Proof.
  induction 1 as [|c l Hc Hl IH|c l Hl IH|x l Hx IHx Hl IH]; intros Hb; cbn; [done|apply bal_plain; auto|apply bal_escape; auto|].
  rewrite <- app_assoc. cbn. apply bal_group; auto.
Qed.

Lemma balanced_plain l : (forall c, c ∈ l -> ~ special c) -> balanced l.
Proof.
  induction l as [|c l IH]; intros Hl; [constructor|]. apply bal_plain; [apply Hl; by left|]. apply IH. intros x ?. apply Hl. by right.
Qed.

(** The same, computed: an escaped character counts for nothing, the parentheses that remain
    match and the text does not end in an escape. *)
Fixpoint nests (escaped : bool) (depth : nat) (l : list Z) : bool :=
  match l with
  | [] => negb escaped && (depth =? 0)%nat
  | c :: l' =>
    if escaped then nests false depth l'
    else if c =? 92 then nests true depth l'
    else if c =? 40 then nests false (S depth) l'
    else if c =? 41 then match depth with O => false | S d => nests false d l' end
    else nests false depth l'
  end.

(** At depth 0 the text is balanced; deeper, a balanced text ends at the next parenthesis. *)
Lemma nests_spec n : forall l, (length l <= n)%nat ->
  (nests false 0 l = true -> balanced l)
  /\ (forall d, nests false (S d) l = true ->
      exists x r, l = x ++ 41 :: r /\ balanced x /\ nests false d r = true /\ (length r < length l)%nat).
Proof.
  induction n as [|n IH]; intros l Hn; (destruct l as [|c l]; [split; [constructor|done]|]); cbn [length] in Hn; [lia|].
  assert (Hl : (length l <= n)%nat) by lia. cbn [nests].
  destruct (Z.eqb_spec c 92) as [->|H92].
  { destruct l as [|c' l]; [split; [done|]; by intros d|]. cbn [nests length] in *. destruct (IH l ltac:(lia)) as [H0 HS]. split.
    - intros Hl0. by apply bal_escape, H0.
    - intros d Hd. destruct (HS d Hd) as (x & r & -> & Hx & Hr & Hlen). exists (92 :: c' :: x), r. cbn in *. split; [done|].
      split; [by apply bal_escape|]. split; [done|lia]. }
  destruct (Z.eqb_spec c 40) as [->|H40].
  { assert (Hopen : forall d, nests false (S d) l = true -> exists x r, l = x ++ 41 :: r /\ balanced x /\ nests false d r = true /\ (length r < length l)%nat)
      by apply (IH l Hl). split.
    - intros H0. destruct (Hopen 0%nat H0) as (x & r & -> & Hx & Hr & Hlen). apply bal_group; [done|]. apply (IH r); [lia|done].
    - intros d Hd. destruct (Hopen (S d) Hd) as (x & r & -> & Hx & Hr & Hlen). destruct (IH r ltac:(lia)) as [_ HS].
      destruct (HS d Hr) as (y & q & -> & Hy & Hq & Hlen'). exists (40 :: x ++ 41 :: y), q. cbn [app length] in *.
      split; [by rewrite <- app_assoc|]. split; [by apply bal_group|]. split; [done|lia]. }
  destruct (Z.eqb_spec c 41) as [->|H41].
  { split; [done|]. intros d Hd. exists [], l. split; [done|]. split; [constructor|]. split; [done|cbn; lia]. }
  assert (Hc : ~ special c) by (unfold special; lia). destruct (IH l Hl) as [H0 HS]. split.
  - intros Hl0. by apply bal_plain, H0.
  - intros d Hd. destruct (HS d Hd) as (x & r & -> & Hx & Hr & Hlen). exists (c :: x), r. cbn in *. split; [done|].
    split; [by apply bal_plain|]. split; [done|lia].
Qed.

Lemma nests_balanced l : nests false 0 l = true -> balanced l.
Proof. by apply (nests_spec (length l)). Qed.

(** Prepend a text to the first piece. *)
Definition prepend (l : list Z) (pieces : list (list Z)) : list (list Z) := foldr cons_head pieces l.

Lemma prepend_cons l p ps : prepend l (p :: ps) = (l ++ p) :: ps.
Proof. induction l as [|c l IH]; cbn; [done|]. fold (prepend l (p :: ps)). by rewrite IH. Qed.

Lemma prepend_first l ps qs : ps <> [] -> prepend l (ps ++ qs) = prepend l ps ++ qs.
Proof. destruct ps as [|p ps]; [done|]. intros _. cbn [app]. by rewrite !prepend_cons. Qed.

Lemma split_top_nonempty l : forall esc d, split_top esc d l <> [].
Proof.
  induction l as [|c l IH]; intros esc d; [done|]. cbn [split_top].
  assert (Hc : forall ps, cons_head c ps <> []) by (by intros [|]).
  destruct esc; [apply Hc|]. destruct (c =? 92); [apply Hc|]. destruct (c =? 40); [apply Hc|]. destruct (c =? 41); [apply Hc|].
  destruct ((c =? 44) && (d =? 0)%nat); [done|apply Hc].
Qed.

Lemma prepend_app a b ps : prepend (a ++ b) ps = prepend a (prepend b ps).
Proof. apply foldr_app. Qed.

Ltac not_special Hc := rewrite ?(proj2 (Z.eqb_neq _ 92)), ?(proj2 (Z.eqb_neq _ 40)), ?(proj2 (Z.eqb_neq _ 41))
  by (intros ->; apply Hc; unfold special; lia).

(** Inside parentheses every balanced text stays together. *)
Lemma split_inner l : balanced l -> forall d r, split_top false (S d) (l ++ r) = prepend l (split_top false (S d) r).
Proof.
  induction 1 as [|c l Hc Hl IH|c l Hl IH|x l Hx IHx Hl IH]; intros d r; [done| |cbn [app split_top]; change (92 =? 92) with true; cbn iota; by rewrite IH|].
  - cbn [app split_top]. not_special Hc. replace ((c =? 44) && (S d =? 0)%nat) with false by (by rewrite andb_false_r).
    by rewrite IH.
  - rewrite <- app_comm_cons, <- app_assoc. cbn [app split_top Z.eqb]. change (40 =? 92) with false. change (40 =? 40) with true. cbn iota.
    rewrite IHx. cbn [split_top]. change (41 =? 92) with false. change (41 =? 40) with false. change (41 =? 41) with true. cbn iota.
    cbn [Nat.pred]. rewrite IH. unfold prepend. cbn [foldr]. by rewrite foldr_app.
Qed.

(** A group at the top level, and a text without special characters and commas. *)
Lemma split_group d x r : balanced x -> split_top false d (40 :: x ++ 41 :: r) = prepend (40 :: x ++ [41]) (split_top false d r).
Proof.
  intros Hx. cbn [app split_top Z.eqb]. change (40 =? 92) with false. change (40 =? 40) with true. cbn iota.
  rewrite split_inner by done. cbn [split_top]. change (41 =? 92) with false. change (41 =? 40) with false. change (41 =? 41) with true.
  cbn iota. cbn [Nat.pred]. unfold prepend. cbn [foldr]. by rewrite foldr_app.
Qed.

Lemma split_flat l r : (forall c, c ∈ l -> ~ special c /\ c <> 44) -> split_top false 0 (l ++ r) = prepend l (split_top false 0 r).
Proof.
  induction l as [|c l IH]; intros Hl; [done|]. destruct (Hl c ltac:(by left)) as [Hc H44]. cbn [app split_top]. not_special Hc.
  rewrite (proj2 (Z.eqb_neq c 44)) by done. cbn [andb]. cbn iota. rewrite IH; [done|]. intros x ?. apply Hl. by right.
Qed.

Lemma split_comma r : split_top false 0 (44 :: r) = [] :: split_top false 0 r.
Proof. reflexivity. Qed.

(** A comma behind a balanced text separates, whatever the text has inside. *)
Lemma split_balanced a r : balanced a -> split_top false 0 (a ++ 44 :: r) = split_top false 0 a ++ split_top false 0 r.
Proof.
  assert (Hone : forall c ps qs, ps <> [] -> cons_head c (ps ++ qs) = cons_head c ps ++ qs) by (by intros c [|p ps] qs Hps).
  induction 1 as [|c l Hc Hl IH|c l Hl IH|x l Hx _ Hl IH]; [done| | |].
  - cbn [app split_top]. not_special Hc. destruct ((c =? 44) && _); rewrite IH; [done|]. apply Hone, split_top_nonempty.
  - cbn [app split_top]. change (92 =? 92) with true. cbn iota. rewrite IH. pose proof (split_top_nonempty l false 0%nat) as Hne.
    rewrite (Hone c) by done. apply Hone. by destruct (split_top false 0 l).
  - rewrite <- app_comm_cons, <- app_assoc, <- app_comm_cons. rewrite !split_group by done. rewrite IH. apply prepend_first, split_top_nonempty.
Qed.

(** The depth of a balanced text inside a pair. *)
Lemma pair_inner l : balanced l -> forall d r, pair_depth false (S d) (l ++ r) = pair_depth false (S d) r.
Proof.
  induction 1 as [|c l Hc Hl IH|c l Hl IH|x l Hx IHx Hl IH]; intros d r; [done| |cbn [app pair_depth]; change (92 =? 92) with true; cbn iota; apply IH|].
  - cbn [app pair_depth]. not_special Hc. apply IH.
  - rewrite <- app_comm_cons, <- app_assoc. cbn [app pair_depth Z.eqb]. change (40 =? 92) with false. change (40 =? 40) with true. cbn iota.
    rewrite IHx. cbn [pair_depth]. change (41 =? 92) with false. change (41 =? 40) with false. change (41 =? 41) with true. cbn iota.
    cbn [Nat.eqb andb]. apply IH.
Qed.

(** ** Values *)

Definition graphicb (c : Z) : bool := (33 <=? c) && (c <=? 126).
Definition flatb (c : Z) : bool := negb ((c =? 40) || (c =? 41) || (c =? 92) || (c =? 44)).

(** A plain text: no parenthesis, backslash or comma, no white space or control character
    at an end.  The names of the types and the numbers are plain. *)
Definition cleanb (v : string) : bool :=
  match str_bytes v with
  | [] => false
  | c :: l => graphicb c && graphicb (List.last (c :: l) 0) && forallb flatb (c :: l)
  end.

Lemma flatb_spec c : flatb c = true <-> ~ special c /\ c <> 44.
Proof. unfold flatb, special. rewrite negb_true_iff, !orb_false_iff, !Z.eqb_neq. lia. Qed.

Lemma last_default {A} (l : list A) d x : l <> [] -> last l = Some x <-> List.last l d = x.
Proof.
  induction l as [|a l IH]; [done|]. intros _. destruct l as [|b l]; [cbn; naive_solver|].
  rewrite last_cons_cons. change (List.last (a :: b :: l) d) with (List.last (b :: l) d). by apply IH.
Qed.

Lemma clean_spec v : cleanb v = true <->
  exists c d, head (str_bytes v) = Some c /\ last (str_bytes v) = Some d /\ 33 <= c <= 126 /\ 33 <= d <= 126
  /\ forall x, x ∈ str_bytes v -> ~ special x /\ x <> 44.
Proof.
  unfold cleanb. destruct (str_bytes v) as [|c l]; [split; [done|by intros (? & ? & ? & _)]|].
  rewrite !andb_true_iff, forallb_forall. unfold graphicb. rewrite !andb_true_iff, !Z.leb_le. split.
  - intros ((Hc & Hd) & Hall). exists c, (List.last (c :: l) 0). split; [done|]. split; [by apply (last_default _ 0)|].
    split; [lia|]. split; [lia|]. intros x Hx. apply flatb_spec, Hall. by apply list_elem_of_In.
  - intros (c' & d & [= ->] & Hd & Hc & Hg & Hall). apply (last_default _ 0) in Hd; [|done]. rewrite Hd.
    repeat split; try lia. intros x Hx. apply flatb_spec, Hall. by apply list_elem_of_In.
Qed.

(** Texts of digits and dashes. *)
Lemma clean_numeric v : v <> "" -> (forall c, c ∈ str_bytes v -> is_digit c \/ c = 45) -> cleanb v = true.
Proof.
  intros Hv Hall. unfold cleanb. destruct (str_bytes v) as [|c l] eqn:E.
  { destruct Hv. rewrite <- (str_of_str_bytes v), E. done. }
  assert (Hg : forall x, x ∈ c :: l -> graphicb x = true /\ flatb x = true).
  { intros x Hx. apply Hall in Hx. unfold graphicb, is_digit in *. rewrite flatb_spec, andb_true_iff, !Z.leb_le. unfold special. lia. }
  rewrite !andb_true_iff, forallb_forall. split; [split|].
  - apply Hg. by left.
  - destruct (last (c :: l)) as [d|] eqn:El; [|by apply last_None in El].
    rewrite (proj1 (last_default (c :: l) 0 d ltac:(done)) El). apply Hg. by apply last_Some_elem_of.
  - intros x Hx. apply Hg. by apply list_elem_of_In.
Qed.

Lemma pretty_digit_bytes n : 0 <= n -> pretty n <> "" /\ forall c, c ∈ str_bytes (pretty n) -> is_digit c.
Proof.
  intros Hn. destruct (pretty_digits n Hn) as (c & ds & E & Hd & _). split; [intros Hp; by rewrite Hp in E|].
  rewrite E. intros x Hx. rewrite list.Forall_forall in Hd. by apply Hd.
Qed.

Lemma range_bytes lo hi : 0 <= lo -> 0 <= hi ->
  range_text lo hi <> "" /\ forall c, c ∈ str_bytes (range_text lo hi) -> is_digit c \/ c = 45.
Proof.
  intros Hl Hh. destruct (pretty_digit_bytes lo Hl) as [Hne Hlo], (pretty_digit_bytes hi Hh) as [_ Hhi]. unfold range_text. split.
  - intros Hp. apply (f_equal str_bytes) in Hp. rewrite str_bytes_app in Hp. apply app_eq_nil in Hp as [Hp _].
    apply Hne. by rewrite <- (str_of_str_bytes (pretty lo)), Hp.
  - intros c. rewrite !str_bytes_app, !elem_of_app. intros [Hc|[Hc|Hc]]; [left; auto| |left; auto].
    right. by apply list_elem_of_singleton in Hc.
Qed.

Lemma pretty_clean n : 0 <= n -> cleanb (pretty n) = true.
Proof. intros Hn. destruct (pretty_digit_bytes n Hn) as [Hne Hd]. apply clean_numeric; [done|]. auto. Qed.

Lemma range_clean lo hi : 0 <= lo -> 0 <= hi -> cleanb (range_text lo hi) = true.
Proof. intros Hl Hh. destruct (range_bytes lo hi Hl Hh). by apply clean_numeric. Qed.

(** ** Numbers in rules *)
Section Numbers.
Context `{IpNetLib, !RouteLib, NetText, StrCase, !RouteText, !TrimLaws}.

Lemma trim_clean v : cleanb v = true -> str_trim v = v.
Proof. intros Hv. apply clean_spec in Hv as (c & d & Hc & Hd & Hgc & Hgd & _). by eapply trim_keeps. Qed.

Lemma split_any_none (sep : Z -> bool) l : (forall c, c ∈ l -> sep c = false) -> split_any_bytes sep l = [l].
Proof.
  induction l as [|c l IH]; intros Hl; [done|]. cbn. rewrite Hl by left. rewrite IH; [done|]. intros x ?. apply Hl. by right.
Qed.

Lemma split_once_none c l : c ∉ l -> split_once_bytes c l = None.
Proof.
  induction l as [|x l IH]; intros Hl; [done|]. cbn. rewrite (proj2 (Z.eqb_neq x c)) by (intros ->; apply Hl; left).
  rewrite IH; [done|]. intros ?. apply Hl. by right.
Qed.

(** A text without separators is one port or range. *)
Lemma parse_port_single v : v <> "" -> (forall c, c ∈ str_bytes v -> is_digit c \/ c = 45) ->
  parse_classical_port v = parse_one_port v.
Proof.
  intros Hv Hd. unfold parse_classical_port. cbn [parse_port_fuel]. unfold parse_port_body, port_parts, str_split_any.
  rewrite split_any_none.
  - cbn [fmap list_fmap]. rewrite str_of_str_bytes, trim_clean by (by apply clean_numeric). cbn [List.filter].
    destruct (nonempty v); done.
  - intros c Hc. apply Hd in Hc. unfold is_port_sep, is_digit in *. lia.
Qed.

Lemma parse_port_pretty p : 0 <= p < 2 ^ 16 -> parse_classical_port (pretty p) = Some (MPort p).
Proof.
  change (2 ^ 16) with 65536. intros Hp. destruct (pretty_digit_bytes p) as [Hne Hd]; [lia|].
  rewrite parse_port_single by (try done; auto). unfold parse_one_port, str_split_once.
  rewrite split_once_none by (intros Hc; apply Hd in Hc; unfold is_digit in Hc; lia). cbn [mbind option_bind].
  unfold parse_u16. by rewrite parse_pretty by lia.
Qed.

Lemma parse_port_range lo hi : 0 <= lo <= hi -> hi < 2 ^ 16 -> parse_classical_port (range_text lo hi) = Some (MPortRange lo hi).
Proof.
  change (2 ^ 16) with 65536. intros Hl Hh. destruct (range_bytes lo hi) as [Hne Hd]; [lia..|].
  rewrite parse_port_single by done. unfold parse_one_port, range_text.
  rewrite (str_split_once_sep 45 "-") by (done || (intros Hc; apply pretty_digit_bytes in Hc; [unfold is_digit in Hc; lia|lia])).
  rewrite !trim_clean by (apply pretty_clean; lia). unfold parse_u16. rewrite !parse_pretty by lia. cbn [mbind option_bind].
  by rewrite (proj2 (Z.ltb_ge _ _)) by lia.
Qed.

Lemma parse_asn_pretty a : 0 <= a < 2 ^ 32 -> parse_asn (pretty a) = Some a.
Proof.
  intros Ha. unfold parse_asn. rewrite trim_clean by (apply pretty_clean; lia).
  destruct (pretty_digits a) as (c & ds & E & Hd & Hp); [lia|]. apply Forall_inv in Hd. unfold is_digit in Hd.
  assert (Hdrop : forall x y, 57 < x -> 57 < y -> drop_set x y (c :: ds) = c :: ds).
  { intros x y Hx Hy. cbn. by rewrite !(proj2 (Z.eqb_neq c _)) by lia. }
  rewrite E, !Hdrop, <- E, str_of_str_bytes by lia. apply Hp. lia.
Qed.
End Numbers.

(** ** Text of matchers *)

Definition paren (s : string) : string := "(" +:+ s +:+ ")".

Fixpoint rule_text (m : RouteMatcher) : string :=
  match m with
  | MAnd parts => "AND," +:+ paren (join "," (map (fun p => paren (rule_text p)) parts))
  | MOr parts => "OR," +:+ paren (join "," (map (fun p => paren (rule_text p)) parts))
  | MNot part => "NOT," +:+ paren (paren (rule_text part))
  | MNoResolve part => rule_text part +:+ ",no-resolve"
  | m => matcher_expression m
  end.

(** Type, value and the modifier [src] of a matcher without parts. *)
Definition leaf_fields (m : RouteMatcher) : string * string * bool :=
  match m with
  | MSrcSet n => ("RULE-SET", n, true)
  | m => (describe_matcher m, false)
  end.

Section Roundtrip.
Context `{IpNetLib, !RouteLib, NetText, StrCase, !RouteText, !TrimLaws}.

(** An option at the end of a condition of this type. *)
Definition value_option (kind o : string) : bool :=
  eq_ignore_ascii_case o "no-resolve" || eq_ignore_ascii_case o "no-log" || eq_ignore_ascii_case o "no-track"
  || (eq_ignore_ascii_case o "src" && target_kind kind).

(** A value that can be written as it is: its parentheses match up to escapes, there is no
    white space next to a comma that separates or at an end, and what follows the last such
    comma is no option of the type. *)
Definition writable (kind v : string) : Prop :=
  v <> "" /\ nests false 0 (str_bytes v) = true /\ join "," (split_top_level_commas v) = v
  /\ forall o, last (drop 1 (split_top_level_commas v)) = Some o -> value_option kind o = false.

(** A matcher without parts that the classical syntax can say, its value checked. *)
Definition classical_leaf (m : RouteMatcher) : Prop :=
  let kind := (leaf_fields m).1.1 in
  match m with
  | MAny => True
  | MDomain v | MSuffix v | MKeyword v | MGeoSite v | MGeoIp v | MSrcGeoIp v | MNetwork v | MInUser v | MInName v
  | MInType v | MRematchName v | MProcess v | MProcessPath v | MSet v | MSrcSet v => writable kind v
  | MDomainRegex v => writable kind v /\ validate_mihomo_domain_regex v = Some tt
  | MDomainWildcard v | MProcessWildcard v | MProcessPathWildcard v => writable kind v /\ validate_wildcard v = Some tt
  | MProcessRegex v | MProcessPathRegex v => writable kind v /\ validate_regex v = Some tt
  | MCidr v | MSrcCidr v => writable kind v /\ normalize_classical_cidr v = Some v
  | MIpSuffix v | MSrcIpSuffix v => writable kind v /\ normalize_classical_ip_suffix v = Some v
  | MIpAsn a | MSrcIpAsn a | MUid a => 0 <= a < 2 ^ 32
  | MPort p | MSrcPort p | MInPort p => 0 <= p < 2 ^ 16
  | MPortRange lo hi | MSrcPortRange lo hi | MInPortRange lo hi => 0 <= lo <= hi /\ hi < 2 ^ 16
  | MDscp d => 0 <= d < 2 ^ 8
  | _ => False
  end.

(** The matchers the modifier [no-resolve] goes with. *)
Definition resolvable (m : RouteMatcher) : Prop :=
  match m with MCidr _ | MIpSuffix _ | MGeoIp _ | MIpAsn _ | MSet _ | MSrcSet _ => True | _ => False end.

Fixpoint expressible (nested : bool) (m : RouteMatcher) : Prop :=
  match m with
  | MAnd parts | MOr parts =>
    (2 <= length parts)%nat /\ foldr (fun p acc => expressible true p /\ acc) True parts
  | MNot part => expressible true part
  | MNoResolve part => nested = true /\ classical_leaf part /\ resolvable part
  | m => classical_leaf m
  end.

Ltac closed := apply (bool_decide_unpack _); vm_compute; exact I.
Ltac pick_kind := repeat first [rewrite decide_True by closed | rewrite decide_False by closed].

(** ** Splitting printed text *)

(** A text that is one field. *)
Definition piece (s : string) : Prop := balanced (str_bytes s) /\ split_top_level_commas s = [s].

Lemma clean_balanced v : cleanb v = true -> balanced (str_bytes v).
Proof. intros Hv. apply clean_spec in Hv as (c & d & _ & _ & _ & _ & Hall). apply balanced_plain. intros x Hx. by apply Hall. Qed.

Lemma split_together s : str_trim s = s ->
  split_top false 0 (str_bytes s ++ []) = prepend (str_bytes s) (split_top false 0 []) -> split_top_level_commas s = [s].
Proof.
  intros Ht Hs. unfold split_top_level_commas. rewrite app_nil_r in Hs. rewrite Hs. cbn [split_top].
  rewrite prepend_cons, app_nil_r. cbn. by rewrite str_of_str_bytes, Ht.
Qed.

Lemma clean_piece v : cleanb v = true -> piece v.
Proof.
  intros Hv. split; [by apply clean_balanced|]. apply split_together; [by apply trim_clean|].
  apply clean_spec in Hv as (c & d & _ & _ & _ & _ & Hall). by apply split_flat.
Qed.

(** The fields of a list of balanced texts are the fields of each. *)
Lemma split_fields s ss : Forall (fun s => balanced (str_bytes s)) (s :: ss) ->
  split_top_level_commas (join "," (s :: ss)) = mjoin (split_top_level_commas <$> s :: ss).
Proof.
  unfold split_top_level_commas. revert s. induction ss as [|s' ss IH]; intros s Hs; [cbn; by rewrite app_nil_r|].
  change (join "," (s :: s' :: ss)) with (s +:+ "," +:+ join "," (s' :: ss)).
  rewrite !str_bytes_app. change (str_bytes ",") with [44]. cbn [app]. rewrite split_balanced by exact (Forall_inv Hs).
  rewrite fmap_app, IH by exact (Forall_inv_tail Hs). done.
Qed.

Lemma split_pieces s ss : Forall piece (s :: ss) -> split_top_level_commas (join "," (s :: ss)) = s :: ss.
Proof.
  intros Hs. rewrite split_fields by (eapply list.Forall_impl; [exact Hs|]; by intros x [? _]).
  induction Hs as [|x l [_ Hx] _ IH]; [done|]. cbn [fmap list_fmap mjoin list_join]. rewrite Hx. cbn [app]. f_equal. exact IH.
Qed.

Lemma clean_nonempty v : cleanb v = true -> v <> "".
Proof. by intros Hv ->. Qed.

Lemma clean_nests v : cleanb v = true -> nests false 0 (str_bytes v) = true.
Proof.
  intros Hv. apply clean_spec in Hv as (c & d & _ & _ & _ & _ & Hall). revert Hall. clear c d. induction (str_bytes v) as [|c l IH]; intros Hall; [done|].
  destruct (Hall c ltac:(by left)) as [Hc _]. cbn [nests]. not_special Hc. apply IH. intros x ?. apply Hall. by right.
Qed.

Lemma clean_writable kind v : cleanb v = true -> writable kind v.
Proof.
  intros Hv. destruct (clean_piece v Hv) as [_ Hs]. split; [by apply clean_nonempty|]. split; [by apply clean_nests|]. rewrite Hs. done.
Qed.

Lemma leaf_value_writable m : classical_leaf m -> m <> MAny -> writable (leaf_fields m).1.1 (leaf_fields m).1.2.
Proof.
  destruct m; cbn [classical_leaf leaf_fields describe_matcher fst snd]; intros Hm Hn; try done; try (by destruct Hm);
    apply clean_writable; first [apply pretty_clean; lia | apply range_clean; lia].
Qed.

Lemma leaf_matcher m : classical_leaf m -> m <> MAny ->
  classical_matcher (leaf_fields m).1.1 (leaf_fields m).2 (leaf_fields m).1.2 = Some m.
Proof.
  destruct m; cbn [classical_leaf leaf_fields describe_matcher fst snd]; intros Hm Hn; try done;
    unfold classical_matcher; pick_kind; try done.
  all: unfold parse_classical_source_port, parse_classical_in_port, parse_u32_text, parse_u8;
    rewrite ?parse_asn_pretty, ?parse_port_pretty, ?parse_port_range by (done || lia);
    rewrite ?parse_pretty by (change (2 ^ 8) with 256 in *; lia); try done.
  all: destruct Hm as [_ Hm]; rewrite Hm; done.
Qed.

(** What the fields of a leaf are in the classical syntax. *)
Lemma leaf_kind m : classical_leaf m -> m <> MAny ->
  let '(kind, value, src) := leaf_fields m in
  cleanb kind = true /\ to_ascii_uppercase kind = kind /\ kind ∉ ["SUB-RULE"; "AND"; "OR"; "NOT"]
  /\ (src = true \/ resolvable m -> target_kind kind = true).
Proof.
  destruct m; cbn [classical_leaf leaf_fields describe_matcher resolvable]; intros Hm Hn; try done;
    (split; [vm_compute; reflexivity|]; split; [vm_compute; reflexivity|]; split; [closed|]);
    intros [?|?]; try done; vm_compute; reflexivity.
Qed.

Lemma leaf_expression m : classical_leaf m -> m <> MAny ->
  let '(kind, value, src) := leaf_fields m in
  matcher_expression m = join "," (kind :: value :: (if src then ["src"] else [])).
Proof.
  intros Hm Hn. pose proof (leaf_value_writable m Hm Hn) as [Hc _]. apply String.eqb_neq in Hc. unfold matcher_expression.
  destruct m; cbn [classical_leaf leaf_fields describe_matcher join fst snd] in *; try done; try (by rewrite Hc).
  destruct (String.eqb_spec (name +:+ ",src") ""); [by destruct name|done].
Qed.

Lemma paren_bytes s : str_bytes (paren s) = 40 :: str_bytes s ++ [41].
Proof. unfold paren. by rewrite !str_bytes_app. Qed.

Lemma last_paren l : last (40 :: l ++ [41]) = Some 41.
Proof. change (40 :: l ++ [41]) with ((40 :: l) ++ [41]). apply last_snoc. Qed.

Lemma paren_trim s : str_trim (paren s) = paren s.
Proof.
  apply (trim_keeps _ 40 41); [by rewrite paren_bytes| |lia|lia]. rewrite paren_bytes. apply last_paren.
Qed.

Lemma balanced_paren s : balanced (str_bytes s) -> balanced (str_bytes (paren s)).
Proof. intros Hs. rewrite paren_bytes. apply bal_group; [done|constructor]. Qed.

Lemma paren_piece s : balanced (str_bytes s) -> piece (paren s).
Proof.
  intros Hs. split; [by apply balanced_paren|]. apply split_together; [apply paren_trim|].
  rewrite paren_bytes, <- app_comm_cons, <- app_assoc. by apply split_group.
Qed.

Lemma strip_paren s : balanced (str_bytes s) -> strip_one_parenthesis_pair (paren s) = Some s.
Proof.
  intros Hs. unfold strip_one_parenthesis_pair. rewrite paren_trim, paren_bytes.
  rewrite bool_decide_eq_true_2 by done.
  rewrite last_paren, bool_decide_eq_true_2 by done. cbn [andb].
  cbn [pair_depth Z.eqb]. change (40 =? 92) with false. change (40 =? 40) with true. cbn iota. rewrite pair_inner by done.
  cbn [pair_depth]. change (41 =? 92) with false. change (41 =? 40) with false. change (41 =? 41) with true. cbn iota.
  cbn [Nat.eqb andb negb]. change (len (@nil Z) =? 0) with true. cbn [negb andb]. cbn iota. cbn [pair_depth].
  change (drop 1 (40 :: str_bytes s ++ [41])) with (str_bytes s ++ [41]). cbn [length]. rewrite length_app. cbn [length].
  replace (S (length (str_bytes s) + 1) - 2)%nat with (length (str_bytes s)) by lia.
  by rewrite take_app_length, str_of_str_bytes.
Qed.

(** The case-insensitive comparison keeps commas. *)
Lemma comma_not_match s : 44 ∈ str_bytes s -> eq_ignore_ascii_case s "MATCH" = false.
Proof.
  intros Hs. unfold eq_ignore_ascii_case. apply String.eqb_neq. intros E. apply (f_equal str_bytes) in E.
  unfold to_ascii_lowercase in E at 1. rewrite str_bytes_of_bytes in E.
  - assert (Hin : 44 ∈ str_bytes (to_ascii_lowercase "MATCH")).
    { rewrite <- E. apply list_elem_of_fmap. by exists 44. }
    revert Hin. closed.
  - apply list.Forall_forall. intros x Hx. apply list_elem_of_fmap in Hx as (c & -> & Hc).
    pose proof (str_bytes_ok s) as Hok. rewrite list.Forall_forall in Hok. specialize (Hok c Hc).
    unfold ascii_lower_byte, in_range, uint in *. destruct ((65 <=? c) && (c <=? 90)) eqn:E2; [|done].
    apply andb_prop in E2. change (2 ^ 8) with 256 in *. lia.
Qed.

Lemma join_comma a b l : 44 ∈ str_bytes (join "," (a :: b :: l)).
Proof.
  change (join "," (a :: b :: l)) with (a +:+ "," +:+ join "," (b :: l)). rewrite !str_bytes_app, !elem_of_app.
  right. left. by left.
Qed.

(** ** Reading a leaf *)
Lemma parse_leaf_text fuel preserve kind value fields :
  piece kind -> balanced (str_bytes value) -> Forall piece fields ->
  to_ascii_uppercase kind = kind -> kind ∉ ["SUB-RULE"; "AND"; "OR"; "NOT"] ->
  parse_classical_fuel fuel (join "," (kind :: value :: fields)) preserve
  = parse_classical_leaf kind (kind :: split_top_level_commas value ++ fields) preserve.
Proof.
  intros [Hk Hks] Hv Hf Hu Hnk.
  assert (Hsp : split_top_level_commas (join "," (kind :: value :: fields)) = kind :: split_top_level_commas value ++ fields).
  { rewrite split_fields by (repeat apply list.Forall_cons_2; [done|done|]; eapply list.Forall_impl; [exact Hf|]; by intros x [? _]).
    cbn [fmap list_fmap mjoin list_join]. rewrite Hks. cbn [app]. f_equal. f_equal. clear -Hf.
    induction Hf as [|x l [_ Hx] _ IH]; [done|]. cbn [fmap list_fmap mjoin list_join]. rewrite Hx. cbn [app]. f_equal. exact IH. }
  destruct fuel; cbn [parse_classical_fuel]; unfold parse_classical_body;
    rewrite comma_not_match, Hsp by (done || apply join_comma); cbn [head default from_option id];
    rewrite Hu, decide_False, decide_False by (intros Hin; apply Hnk; set_solver); done.
Qed.

(** The options end where the value does. *)
Lemma strip_value kind l : (forall o, last l = Some o -> value_option kind o = false) ->
  strip_options kind (rev l) = (false, false, rev l).
Proof.
  intros Hl. destruct (last l) as [o|] eqn:E; [|by apply last_None in E as ->]. specialize (Hl o eq_refl).
  apply last_Some in E as [k ->]. rewrite rev_app_distr. cbn [rev app strip_options].
  unfold value_option in Hl. apply orb_false_iff in Hl as [Hl Hs]. apply orb_false_iff in Hl as [Hl Ht]. apply orb_false_iff in Hl as [Hr Hg].
  by rewrite Hr, Hg, Ht, Hs.
Qed.

Definition modifiers (src no_resolve : bool) : list string :=
  (if src then ["src"] else []) ++ (if no_resolve then ["no-resolve"] else []).

Lemma modifiers_pieces src no_resolve : Forall piece (modifiers src no_resolve).
Proof. destruct src, no_resolve; cbn; repeat apply list.Forall_cons_2; try apply list.Forall_nil_2; by apply clean_piece. Qed.

Lemma strip_modifiers kind src no_resolve l : (src || no_resolve = true -> target_kind kind = true) ->
  (forall o, last l = Some o -> value_option kind o = false) ->
  strip_options kind (rev (l ++ modifiers src no_resolve)) = (src, no_resolve, rev l).
Proof.
  intros Ht Hl. rewrite rev_app_distr. pose proof (strip_value kind l Hl) as Hs.
  destruct src, no_resolve; cbn [modifiers rev app strip_options]; change (eq_ignore_ascii_case "no-resolve" "no-resolve") with true;
    change (eq_ignore_ascii_case "src" "no-resolve") with false; change (eq_ignore_ascii_case "src" "no-log") with false;
    change (eq_ignore_ascii_case "src" "no-track") with false; change (eq_ignore_ascii_case "src" "src") with true;
    cbn [orb andb] in *; rewrite ?Ht by done; rewrite Hs; done.
Qed.

(** The text of a leaf with its modifiers, in every mode. *)
Lemma parse_leaf_modifiers m fuel preserve no_resolve : classical_leaf m -> m <> MAny -> (no_resolve = true -> resolvable m) ->
  let '(kind, value, src) := leaf_fields m in
  parse_classical_fuel fuel (join "," (kind :: value :: modifiers src no_resolve)) preserve
  = Some [if preserve && no_resolve then MNoResolve m else m].
Proof.
  intros Hm Hn Hr. pose proof (leaf_kind m Hm Hn) as Hk. pose proof (leaf_matcher m Hm Hn) as Hc.
  pose proof (leaf_value_writable m Hm Hn) as Hv. destruct (leaf_fields m) as [[kind value] src]. cbn [fst snd] in *.
  destruct Hk as (Hck & Hu & Hnk & Ht), Hv as (Hne & Hb & Hj & Hl).
  rewrite parse_leaf_text; [|by apply clean_piece|by apply nests_balanced|apply modifiers_pieces|done|done].
  destruct (split_top_level_commas value) as [|first rest]; [by destruct Hne|]. cbn [app]. unfold parse_classical_leaf.
  assert (Htk : src || no_resolve = true -> target_kind kind = true).
  { intros E. apply Ht. destruct src; [by left|]. right. by apply Hr. }
  rewrite strip_modifiers by done. rewrite rev_involutive, Hj, (proj2 (String.eqb_neq _ _)) by done. rewrite Hc.
  assert (Hno : no_resolve && negb (target_kind kind) = false).
  { destruct no_resolve; [|done]. by rewrite Htk by apply orb_true_r. }
  by rewrite Hno.
Qed.

Lemma parse_leaf m fuel preserve : classical_leaf m -> parse_classical_fuel fuel (matcher_expression m) preserve = Some [m].
Proof.
  intros Hm. assert (Hany : m = MAny \/ m <> MAny) by (destruct m; first [by left|by right]).
  destruct Hany as [->|Hn]; [by destruct fuel|].
  pose proof (leaf_expression m Hm Hn) as He. pose proof (parse_leaf_modifiers m fuel preserve false Hm Hn ltac:(done)) as Hp.
  destruct (leaf_fields m) as [[kind value] src]. rewrite andb_false_r in Hp. rewrite He. unfold modifiers in Hp. by rewrite app_nil_r in Hp.
Qed.

Lemma join_snoc sep x : forall s l, join sep ((s :: l) ++ [x]) = join sep (s :: l) +:+ sep +:+ x.
Proof.
  intros s l. revert s. induction l as [|y l IH]; intros s; [done|].
  change (join sep ((s :: y :: l) ++ [x])) with (s +:+ sep +:+ join sep ((y :: l) ++ [x])). rewrite IH.
  change (join sep (s :: y :: l)) with (s +:+ sep +:+ join sep (y :: l)). by rewrite !str_app_assoc.
Qed.

Lemma parse_no_resolve m fuel : classical_leaf m -> resolvable m ->
  parse_classical_fuel fuel (matcher_expression m +:+ ",no-resolve") true = Some [MNoResolve m].
Proof.
  intros Hm Hr. assert (Hn : m <> MAny) by (by intros ->).
  pose proof (leaf_expression m Hm Hn) as He. pose proof (parse_leaf_modifiers m fuel true true Hm Hn ltac:(done)) as Hp.
  destruct (leaf_fields m) as [[kind value] src]. rewrite He. change ",no-resolve" with ("," +:+ "no-resolve"). by rewrite <- join_snoc.
Qed.

(** ** Reading a tree *)

Lemma balanced_join l : (forall s, s ∈ l -> balanced (str_bytes s)) -> balanced (str_bytes (join "," l)).
Proof.
  induction l as [|s l IH]; intros Hl; [constructor|]. destruct l as [|s' l]; [apply Hl; by left|].
  change (join "," (s :: s' :: l)) with (s +:+ "," +:+ join "," (s' :: l)). rewrite !str_bytes_app.
  apply balanced_app; [apply Hl; by left|]. apply balanced_app; [apply balanced_plain; intros c Hc|apply IH; intros x ?; apply Hl; by right].
  change (str_bytes ",") with [44] in Hc. apply list_elem_of_singleton in Hc as ->. unfold special. lia.
Qed.

Lemma leaf_balanced m : classical_leaf m -> balanced (str_bytes (matcher_expression m)).
Proof.
  intros Hm. assert (Hany : m = MAny \/ m <> MAny) by (destruct m; first [by left|by right]).
  destruct Hany as [->|Hn]; [by apply clean_balanced|].
  pose proof (leaf_expression m Hm Hn) as He. pose proof (leaf_kind m Hm Hn) as Hk. pose proof (leaf_value_writable m Hm Hn) as (_ & Hv & _).
  destruct (leaf_fields m) as [[kind value] src]. cbn [fst snd] in *. destruct Hk as (Hck & _). rewrite He.
  apply balanced_join. intros s Hs. apply elem_of_cons in Hs as [->|Hs]; [by apply clean_balanced|].
  apply elem_of_cons in Hs as [->|Hs]; [by apply nests_balanced|]. apply clean_balanced.
  destruct src; [by apply list_elem_of_singleton in Hs as ->|by apply elem_of_nil in Hs].
Qed.

Lemma expressible_parts parts : foldr (fun p acc => expressible true p /\ acc) True parts -> forall p, p ∈ parts -> expressible true p.
Proof.
  induction parts as [|x l IH]; intros Hf p Hp; [by apply elem_of_nil in Hp|]. destruct Hf as [Hx Hl].
  apply elem_of_cons in Hp as [->|Hp]; [done|]. by apply IH.
Qed.

(** An operator and its operands. *)
Lemma operator_balanced op s : cleanb op = true -> balanced (str_bytes s) -> balanced (str_bytes (join "," [op; paren s])).
Proof.
  intros Ho Hs. apply balanced_join. intros x Hx. apply elem_of_cons in Hx as [->|Hx]; [by apply clean_balanced|].
  apply list_elem_of_singleton in Hx as ->. by apply balanced_paren.
Qed.

Lemma operands_balanced parts : (forall p, p ∈ parts -> balanced (str_bytes (rule_text p))) ->
  balanced (str_bytes (join "," (map (fun p => paren (rule_text p)) parts))).
Proof.
  intros Hp. apply balanced_join. intros s Hs. apply list_elem_of_fmap in Hs as (p & -> & Hin). by apply balanced_paren, Hp.
Qed.

Lemma expressible_balanced m : forall nested, expressible nested m -> balanced (str_bytes (rule_text m)).
Proof.
  revert m. apply (matcher_ind (fun m => forall nested, expressible nested m -> balanced (str_bytes (rule_text m)))).
  - intros parts Hp nested [_ He]. rewrite list.Forall_forall in Hp. apply (operator_balanced "AND"), operands_balanced; [done|].
    intros p Hin. by eapply Hp, expressible_parts.
  - intros parts Hp nested [_ He]. rewrite list.Forall_forall in Hp. apply (operator_balanced "OR"), operands_balanced; [done|].
    intros p Hin. by eapply Hp, expressible_parts.
  - intros part Hp nested He. apply (operator_balanced "NOT"), balanced_paren; [done|]. by eapply Hp.
  - intros part _ nested (_ & Hc & Hr). cbn [rule_text]. assert (Et : rule_text part = matcher_expression part) by (by destruct part).
    rewrite Et. change ",no-resolve" with ("," +:+ "no-resolve"). rewrite (str_bytes_app _ ("," +:+ "no-resolve")).
    apply balanced_app; [by apply leaf_balanced|]. apply balanced_plain. intros c Hc'. unfold special. intros Hs.
    assert (Hall : forallb (fun c => negb ((c =? 40) || (c =? 41) || (c =? 92))) (str_bytes ("," +:+ "no-resolve")) = true) by reflexivity.
    rewrite forallb_forall in Hall. apply list_elem_of_In in Hc'. apply Hall in Hc'. lia.
  - intros m Hl nested He. assert (Et : rule_text m = matcher_expression m) by (by destruct m). rewrite Et.
    apply leaf_balanced. by destruct m.
Qed.

Lemma join_longer s l : s ∈ l -> (length (str_bytes s) <= length (str_bytes (join "," l)))%nat.
Proof.
  induction l as [|x l IH]; intros Hs; [by apply elem_of_nil in Hs|]. destruct l as [|y l].
  - by apply list_elem_of_singleton in Hs as ->.
  - change (join "," (x :: y :: l)) with (x +:+ "," +:+ join "," (y :: l)). rewrite !str_bytes_app, !length_app.
    apply elem_of_cons in Hs as [->|Hs]; [lia|]. apply IH in Hs. lia.
Qed.

Lemma paren_longer s : length (str_bytes (paren s)) = (2 + length (str_bytes s))%nat.
Proof. rewrite paren_bytes. cbn. rewrite length_app. cbn. lia. Qed.

(** The operands come back. *)
Lemma mapM_texts (f : string -> option RouteMatcher) (g : RouteMatcher -> string) parts :
  (forall p, p ∈ parts -> f (g p) = Some p) -> mapM f (map g parts) = Some parts.
Proof.
  induction parts as [|p l IH]; intros Hf; [done|]. cbn [map mapM]. rewrite Hf by left. cbn [mbind option_bind].
  fold (mapM f (map g l)). rewrite IH; [done|]. intros x ?. apply Hf. by right.
Qed.

Lemma children_text parse parts : parts <> [] ->
  (forall p, p ∈ parts -> balanced (str_bytes (rule_text p)) /\ parse (rule_text p) = Some [p]) ->
  logical_children parse (paren (join "," (map (fun p => paren (rule_text p)) parts))) = Some parts.
Proof.
  intros Hne Hp. unfold logical_children. rewrite strip_paren by (apply operands_balanced; intros p Hin; by apply Hp).
  cbn [mbind option_bind]. destruct parts as [|p0 l] eqn:El; [done|]. rewrite <- El in *.
  assert (Es : split_top_level_commas (join "," (map (fun p => paren (rule_text p)) parts)) = map (fun p => paren (rule_text p)) parts).
  { rewrite El. cbn [map]. apply split_pieces. change (paren (rule_text p0) :: map (fun p => paren (rule_text p)) l)
      with (map (fun p => paren (rule_text p)) (p0 :: l)). rewrite <- El.
    apply list.Forall_forall. intros s Hs. apply list_elem_of_fmap in Hs as (p & -> & Hin). by apply paren_piece, Hp. }
  rewrite Es. apply mapM_texts. intros p Hin. destruct (Hp p Hin) as [Hb Hparse]. rewrite strip_paren by done.
  cbn [mbind option_bind]. by rewrite Hparse.
Qed.

(** Reading a printed operator. *)
Lemma parse_operator fuel preserve op inner parts m :
  op ∈ ["AND"; "OR"; "NOT"] -> balanced (str_bytes inner) ->
  logical_children (fun text => parse_classical_fuel fuel text true) (paren inner) = Some parts ->
  logical_matcher op parts = Some m ->
  parse_classical_fuel (S fuel) (join "," [op; paren inner]) preserve = Some [m].
Proof.
  intros Hop Hb Hc Hm. cbn [parse_classical_fuel]. unfold parse_classical_body.
  assert (Hclean : cleanb op = true /\ to_ascii_uppercase op = op /\ op <> "SUB-RULE").
  { repeat (apply elem_of_cons in Hop as [->|Hop]; [repeat split; vm_compute; (reflexivity || discriminate)|]). by apply elem_of_nil in Hop. }
  destruct Hclean as (Ho & Hu & Hs). rewrite comma_not_match by apply join_comma.
  rewrite split_pieces by (repeat apply list.Forall_cons_2; [by apply clean_piece|by apply paren_piece|apply list.Forall_nil_2]).
  cbn [head default from_option id]. rewrite Hu, decide_False, decide_True by done.
  assert (Hne : String.eqb (paren inner) "" = false) by done. rewrite Hne, Hc. cbn [mbind option_bind]. by rewrite Hm.
Qed.

Definition reads_back (m : RouteMatcher) : Prop :=
  forall nested, expressible nested m -> forall fuel, (length (str_bytes (rule_text m)) <= fuel)%nat ->
  parse_classical_fuel fuel (rule_text m) nested = Some [m].

Lemma operator_longer op inner : (2 + length (str_bytes inner) < length (str_bytes (join "," [op; paren inner])))%nat.
Proof. cbn [join]. rewrite (str_bytes_app op), (str_bytes_app ","), !length_app, paren_longer. cbn. lia. Qed.

Lemma reads_back_operands op parts fuel m : op ∈ ["AND"; "OR"] -> Forall reads_back parts ->
  (2 <= length parts)%nat -> foldr (fun p acc => expressible true p /\ acc) True parts -> logical_matcher op parts = Some m ->
  let text := join "," [op; paren (join "," (map (fun p => paren (rule_text p)) parts))] in
  forall nested, (length (str_bytes text) <= fuel)%nat -> parse_classical_fuel fuel text nested = Some [m].
Proof.
  intros Hop Hp Hlen He Hm text nested Hf. rewrite list.Forall_forall in Hp.
  pose proof (operator_longer op (join "," (map (fun p => paren (rule_text p)) parts))) as Hl. fold text in Hl.
  destruct fuel as [|fuel]; [lia|].
  assert (Hchild : forall p, p ∈ parts -> balanced (str_bytes (rule_text p)) /\ parse_classical_fuel fuel (rule_text p) true = Some [p]).
  { intros p Hin. pose proof (expressible_parts parts He p Hin) as Hep. split; [by eapply expressible_balanced|].
    apply Hp; [done|done|]. pose proof (join_longer (paren (rule_text p)) (map (fun p => paren (rule_text p)) parts)
      ltac:(apply list_elem_of_fmap; by exists p)) as Hj. rewrite paren_longer in Hj. lia. }
  apply (parse_operator fuel nested op _ parts); [set_solver|apply operands_balanced; intros p Hin; by apply Hchild| |done].
  apply children_text; [by intros ->; cbn in Hlen; lia|done].
Qed.

Lemma two_or_more {A} (l : list A) : (2 <= length l)%nat -> (2 <=? length l)%nat = true.
Proof. apply Nat.leb_le. Qed.

(** [C19] A matcher is read back from its classical text, whatever its nesting: for a rule
    without parts the text is the engine's own description of it.  A value may have
    parentheses that match, escaped characters and commas; it has no white space at its ends
    or next to a comma that separates (outside parentheses and not escaped), and what
    follows the last such comma is no option of the type. *)
Theorem rule_text_roundtrip m : expressible false m -> parse_classical_lhs (rule_text m) = Some [m].
Proof.
  assert (Hall : forall m, reads_back m); [|intros He; by apply Hall]. clear m. apply matcher_ind.
  - intros parts Hp nested [Hlen He] fuel Hf. apply (reads_back_operands "AND"); try done; [by left|].
    unfold logical_matcher. rewrite decide_True, two_or_more by done. done.
  - intros parts Hp nested [Hlen He] fuel Hf. apply (reads_back_operands "OR"); try done; [right; by left|].
    unfold logical_matcher. rewrite decide_False, decide_True, two_or_more by done. done.
  - intros part Hp nested He fuel Hf. change (rule_text (MNot part)) with (join "," ["NOT"; paren (paren (rule_text part))]) in *.
    pose proof (operator_longer "NOT" (paren (rule_text part))) as Hl. rewrite paren_longer in Hl.
    destruct fuel as [|fuel]; [lia|]. pose proof (expressible_balanced part true He) as Hb.
    apply (parse_operator fuel nested "NOT" _ [part]); [set_solver|by apply balanced_paren| |done].
    apply (children_text _ [part]); [done|]. intros p Hin. apply list_elem_of_singleton in Hin as ->. split; [done|].
    apply Hp; [done|lia].
  - intros part _ nested (-> & Hc & Hr) fuel Hf. cbn [rule_text].
    assert (Et : rule_text part = matcher_expression part) by (by destruct part). rewrite Et. by apply parse_no_resolve.
  - intros m Hl nested He fuel Hf. assert (Et : rule_text m = matcher_expression m) by (by destruct m). rewrite Et.
    apply parse_leaf. by destruct m.
Qed.

(** ** The fuel is enough *)

Lemma trim_shorter s : (length (str_bytes (str_trim s)) <= length (str_bytes s))%nat.
Proof. destruct (trim_infix s) as (a & b & E). rewrite E, !length_app. lia. Qed.

Lemma split_top_shorter l : forall esc d p, p ∈ split_top esc d l -> (length p <= length l)%nat /\ forall c, c ∈ p -> c ∈ l.
Proof.
  assert (Hcons : forall c ps p l, (forall p, p ∈ ps -> (length p <= length l)%nat /\ forall x, x ∈ p -> x ∈ l) ->
    p ∈ cons_head c ps -> (length p <= S (length l))%nat /\ forall x, x ∈ p -> x ∈ c :: l).
  { intros c ps p k Hps Hp. destruct ps as [|q ps]; cbn in Hp.
    - apply list_elem_of_singleton in Hp as ->. cbn. split; [lia|]. intros x Hx. apply list_elem_of_singleton in Hx as ->. by left.
    - apply elem_of_cons in Hp as [->|Hp].
      + destruct (Hps q ltac:(by left)) as [Hq Hin]. cbn. split; [lia|]. intros x [->|Hx]%elem_of_cons; [by left|right; auto].
      + destruct (Hps p ltac:(by right)) as [Hq Hin]. split; [lia|]. intros x Hx. right. auto. }
  induction l as [|c l IH]; intros esc d p Hp; [cbn in Hp; apply list_elem_of_singleton in Hp as ->; split; [done|]; by intros ? ?%elem_of_nil|].
  cbn [split_top length] in *.
  destruct esc; [eapply Hcons; [|exact Hp]; apply IH|]. destruct (c =? 92); [eapply Hcons; [|exact Hp]; apply IH|].
  destruct (c =? 40); [eapply Hcons; [|exact Hp]; apply IH|]. destruct (c =? 41); [eapply Hcons; [|exact Hp]; apply IH|].
  destruct (_ && _); [|eapply Hcons; [|exact Hp]; apply IH].
  apply elem_of_cons in Hp as [->|Hp]; [split; [cbn; lia|]; by intros ? ?%elem_of_nil|].
  destruct (IH _ _ _ Hp) as [Hl Hin]. split; [lia|]. intros x Hx. right. auto.
Qed.

Lemma bytes_of_sub s l : (forall c, c ∈ l -> c ∈ str_bytes s) -> str_bytes (str_of_bytes l) = l.
Proof.
  intros Hl. apply str_bytes_of_bytes. apply list.Forall_forall. intros c Hc.
  pose proof (str_bytes_ok s) as Hok. rewrite list.Forall_forall in Hok. apply Hok. auto.
Qed.

Lemma split_commas_shorter s p : p ∈ split_top_level_commas s -> (length (str_bytes p) <= length (str_bytes s))%nat.
Proof.
  unfold split_top_level_commas. intros Hp. apply list_elem_of_fmap in Hp as (q & -> & Hq).
  apply split_top_shorter in Hq as [Hl Hin]. etransitivity; [apply trim_shorter|]. by rewrite (bytes_of_sub s).
Qed.

Lemma strip_shorter s x : strip_one_parenthesis_pair s = Some x -> (length (str_bytes x) < length (str_bytes s))%nat.
Proof.
  unfold strip_one_parenthesis_pair. intros Hs. pose proof (trim_shorter s) as Ht.
  destruct (bool_decide (head _ = _)) eqn:Eh; [|done]. destruct (bool_decide (last _ = _)); [|done]. cbn [andb] in Hs.
  destruct (pair_depth _ _ _) as [[|]|]; [|done|done]. injection Hs as <-. rewrite (bytes_of_sub (str_trim s)).
  - rewrite length_take, length_drop. apply bool_decide_eq_true in Eh. destruct (str_bytes (str_trim s)); [done|]. cbn [length] in *. lia.
  - intros c Hc. set (l := str_bytes (str_trim s)) in *. rewrite <- (take_drop 1 l), elem_of_app. right.
    rewrite <- (take_drop (length l - 2) (drop 1 l)), elem_of_app. by left.
Qed.

Lemma mapM_same {A B} (f g : A -> option B) l : (forall x, x ∈ l -> f x = g x) -> mapM f l = mapM g l.
Proof.
  induction l as [|x l IH]; intros Hf; [done|]. cbn. rewrite Hf by left. destruct (g x); [|done]. cbn.
  fold (mapM f l). fold (mapM g l). rewrite IH; [done|]. intros y ?. apply Hf. by right.
Qed.

Lemma children_same f g value : (forall text, (length (str_bytes text) < length (str_bytes value))%nat -> f text = g text) ->
  logical_children f value = logical_children g value.
Proof.
  intros Hfg. unfold logical_children. destruct (strip_one_parenthesis_pair value) as [inner|] eqn:Ei; [|done].
  cbn [mbind option_bind]. apply strip_shorter in Ei. apply mapM_same. intros raw Hraw. apply split_commas_shorter in Hraw.
  destruct (strip_one_parenthesis_pair raw) as [child|] eqn:Ec; [|done]. apply strip_shorter in Ec. cbn [mbind option_bind].
  rewrite Hfg by lia. done.
Qed.

(** A recursive call is on a shorter text: two functions that agree on the shorter texts give
    the same reading. *)
Lemma body_calls_shorter f g lhs preserve :
  (forall text p, (length (str_bytes text) < length (str_bytes lhs))%nat -> f text p = g text p) ->
  parse_classical_body f lhs preserve = parse_classical_body g lhs preserve.
Proof.
  intros Hfg. unfold parse_classical_body. destruct (eq_ignore_ascii_case lhs "MATCH"); [done|].
  pose proof (split_commas_shorter lhs) as Hsp.
  destruct (split_top_level_commas lhs) as [|k [|value [|? ?]]]; [done|done| |done].
  specialize (Hsp value ltac:(right; by left)). case_decide; [|case_decide; [|done]].
  - destruct (strip_one_parenthesis_pair value) as [payload|] eqn:Ep; [|done]. apply strip_shorter in Ep. cbn [mbind option_bind].
    by rewrite Hfg by lia.
  - destruct (String.eqb value ""); [done|].
    rewrite (children_same (fun text => f text true) (fun text => g text true)); [done|]. intros text Ht. apply Hfg. lia.
Qed.

Lemma parse_fuel_same n : forall n' lhs preserve,
  (length (str_bytes lhs) <= n)%nat -> (length (str_bytes lhs) <= n')%nat ->
  parse_classical_fuel n lhs preserve = parse_classical_fuel n' lhs preserve.
Proof.
  induction n as [|n IH]; intros n' lhs preserve Hn Hn'; destruct n' as [|n']; cbn [parse_classical_fuel];
    apply body_calls_shorter; intros text p Ht; try lia. apply IH; lia.
Qed.

(** The equation of the source. *)
Lemma parse_inner_eq lhs preserve :
  parse_classical_lhs_inner lhs preserve = parse_classical_body parse_classical_lhs_inner lhs preserve.
Proof.
  unfold parse_classical_lhs_inner at 1. rewrite (parse_fuel_same _ (S (length (str_bytes lhs)))) by lia. cbn [parse_classical_fuel].
  apply body_calls_shorter. intros text p Ht. apply parse_fuel_same; lia.
Qed.

Lemma split_any_sep (sep : Z -> bool) k : forall p, p ∈ split_any_bytes sep k -> forall c, c ∈ p -> sep c = false /\ c ∈ k.
Proof.
  induction k as [|x k IH]; intros p Hp c Hc; cbn in Hp.
  - apply list_elem_of_singleton in Hp as ->. by apply elem_of_nil in Hc.
  - destruct (sep x) eqn:Ex.
    + apply elem_of_cons in Hp as [->|Hp]; [by apply elem_of_nil in Hc|]. destruct (IH p Hp c Hc). split; [done|by right].
    + destruct (split_any_bytes sep k) as [|p0 ps]; [apply list_elem_of_singleton in Hp as ->; apply list_elem_of_singleton in Hc as ->; split; [done|by left]|].
      apply elem_of_cons in Hp as [->|Hp].
      * apply elem_of_cons in Hc as [->|Hc]; [split; [done|by left]|]. destruct (IH p0 ltac:(by left) c Hc). split; [done|by right].
      * destruct (IH p ltac:(by right) c Hc). split; [done|by right].
Qed.

(** A part of a port list has no separator. *)
Lemma port_part_single v part f : part ∈ port_parts v -> parse_port_body f part = parse_one_port part.
Proof.
  unfold port_parts, str_split_any. intros Hp. apply list_elem_of_In, filter_In in Hp as [Hp Hne]. apply list_elem_of_In in Hp.
  apply list_elem_of_fmap in Hp as (q & -> & Hq). apply list_elem_of_fmap in Hq as (l & -> & Hl).
  assert (Hb : str_bytes (str_of_bytes l) = l) by (apply (bytes_of_sub v); intros c Hc; by eapply split_any_sep).
  destruct (trim_infix (str_of_bytes l)) as (a & b & E). set (part := str_trim (str_of_bytes l)) in *.
  assert (Hone : (length (port_parts part) <= 1)%nat).
  { unfold port_parts, str_split_any. rewrite split_any_none.
    - etransitivity; [apply List.filter_length_le|]. done.
    - intros c Hc. eapply (split_any_sep _ _ l Hl). rewrite <- Hb, E, !elem_of_app. right. by left. }
  unfold parse_port_body. by rewrite (proj2 (Nat.ltb_ge _ _)) by done.
Qed.

Lemma port_body_same f g v : (forall part, part ∈ port_parts v -> f part = g part) -> parse_port_body f v = parse_port_body g v.
Proof. intros Hfg. unfold parse_port_body. destruct (1 <? length (port_parts v))%nat; [|done]. f_equal. by apply mapM_same. Qed.

Lemma parse_port_eq v : parse_classical_port v = parse_port_body parse_classical_port v.
Proof.
  apply port_body_same. intros part Hp. cbn [parse_port_fuel]. rewrite (port_part_single v part _ Hp).
  unfold parse_classical_port. cbn [parse_port_fuel]. by rewrite (port_part_single v part _ Hp).
Qed.

(** [C20] Reading a classical condition ends on every text.  A step of the reader asks for
    readings of strictly shorter texts only; so the recursion of the source is well founded,
    the equation of the source has exactly one solution, and the reader is that solution: no
    result of it stands for a recursion cut off.  The same holds of port lists, whose parts
    are read without recursion. *)
Theorem classical_parser_terminates :
  (forall f g lhs preserve,
     (forall text p, (length (str_bytes text) < length (str_bytes lhs))%nat -> f text p = g text p) ->
     parse_classical_body f lhs preserve = parse_classical_body g lhs preserve)
  /\ (forall f, (forall lhs preserve, f lhs preserve = parse_classical_body f lhs preserve)
        <-> (forall lhs preserve, f lhs preserve = parse_classical_lhs_inner lhs preserve))
  /\ (forall f g v part, part ∈ port_parts v -> parse_port_body f part = parse_port_body g part)
  /\ (forall f, (forall v, f v = parse_port_body f v) <-> (forall v, f v = parse_classical_port v)).
Proof.
  split; [intros f g lhs preserve; apply body_calls_shorter|]. split; [|split].
  - intros f. split; [|intros Hf lhs preserve; rewrite Hf, parse_inner_eq; by apply body_calls_shorter].
    intros Hf lhs. remember (length (str_bytes lhs)) as n eqn:En. revert lhs En. induction (lt_wf n) as [n _ IH]. intros lhs -> preserve.
    rewrite Hf, parse_inner_eq. apply body_calls_shorter. intros text p Ht. by eapply IH.
  - intros f g v part Hp. by rewrite !(port_part_single v part _ Hp).
  - intros f. split; [|intros Hf v; rewrite Hf, parse_port_eq; by apply port_body_same].
    intros Hf v. rewrite Hf, parse_port_eq. apply port_body_same. intros part Hp. rewrite Hf, parse_port_eq.
    by rewrite !(port_part_single v part _ Hp).
Qed.
End Roundtrip.
