(* ===== verification/RouteConfig.v ===== *)
(** * From a configuration to decisions: instances and concrete runs

    Instances of the classes of the route compiler (network texts of both families, globs
    that refuse a dangling escape), and with them: the witnesses of [RouteRoundtrip.v] and
    [RouteCompileSpec.v], and configurations that are accepted although they do not mean
    what they say. *)

From stdpp Require Import base list gmap strings numbers option pretty.
From S2P Require Import Prelude Text Net TextSplit Instances RouteModel RouteMatch RouteInstances RouteSpec RouteEngine RouteCompile RouteCompileSpec RouteRoundtrip DnsInstances.
Import Concrete.

(** ** Trimming *)

Lemma trim_ascii_suffix l : exists a, l = a ++ trim_ascii l.
Proof.
  induction l as [|c l [a IH]]; [by exists []|]. cbn. destruct (is_ascii_space c); [|by exists []].
  exists (c :: a). cbn. by rewrite <- IH.
Qed.

Lemma trim_ascii_keeps c l : 33 <= c <= 126 -> trim_ascii (c :: l) = c :: l.
Proof. intros Hc. cbn. unfold is_ascii_space, in_range. destruct (_ || _) eqn:E; [lia|done]. Qed.

#[export] Instance ascii_trim_laws : TrimLaws.
Proof.
  constructor.
  - intros s. destruct (trim_ascii_suffix (str_bytes s)) as [a Ea]. set (l := trim_ascii (str_bytes s)) in *.
    destruct (trim_ascii_suffix (rev l)) as [b Eb].
    assert (El : l = trim_ascii_end l ++ rev b).
    { unfold trim_ascii_end. rewrite <- rev_app_distr, <- Eb. symmetry. apply rev_involutive. }
    exists a, (rev b). cbn [str_trim ascii_case]. fold l.
    assert (Hsub : forall c, c ∈ trim_ascii_end l -> c ∈ str_bytes s).
    { intros c Hc. rewrite Ea, elem_of_app. right. rewrite El, elem_of_app. by left. }
    rewrite (bytes_of_sub s) by done. by rewrite <- El.
  - intros s c d Hc Hd Hgc Hgd. cbn [str_trim ascii_case]. destruct (str_bytes s) as [|x l] eqn:E; [done|].
    injection Hc as ->. rewrite trim_ascii_keeps by done. unfold trim_ascii_end.
    apply last_Some in Hd as [k Hk]. rewrite Hk, rev_app_distr. cbn [rev app].
    change ([d] ++ rev k) with (d :: rev k). rewrite trim_ascii_keeps by done. cbn [rev]. rewrite rev_involutive, <- Hk, <- E.
    apply str_of_str_bytes.
Qed.

(** ** Networks *)

Lemma octet_no_slash o : 0 <= o < 256 -> 47 ∉ dec_digits o.
Proof.
  intros Ho Hin. destruct (octet_text_spec o Ho) as (_ & Hf & _). rewrite forallb_forall in Hf.
  apply list_elem_of_In in Hin. specialize (Hf _ Hin). done.
Qed.

Lemma show_ip_slash ip : ip_ok ip -> 47 ∉ str_bytes (show_ip ip).
Proof.
  destruct ip as [a|a]; cbn [show_ip ip_ok]; intros Ha; cbn [show_ipv4 show_ipv6 net_text].
  - destruct (show4_bytes_props a Ha) as (_ & B & _). unfold show4. rewrite str_bytes_of_bytes by done.
    unfold uint in Ha. change (2 ^ 32) with 4294967296 in Ha. unfold show4_bytes. rewrite !elem_of_app, !list_elem_of_singleton.
    intros [Hc|[Hc|[Hc|[Hc|[Hc|[Hc|Hc]]]]]]; try lia; revert Hc; apply octet_no_slash; Z.div_mod_to_equations; lia.
  - destruct (show6_bytes_props a Ha) as (_ & B & _ & F). unfold show6. rewrite str_bytes_of_bytes by done.
    intros Hc. rewrite list.Forall_forall in F. apply F in Hc. lia.
Qed.

(** A pattern that ends in an escape. *)
Fixpoint dangling (l : list Z) : bool :=
  match l with
  | [] => false
  | c :: l' => if c =? 92 then match l' with [] => true | _ :: l'' => dangling l'' end else dangling l'
  end.

Definition config_lib : RouteLib.
Proof.
  refine {| domain_to_ascii := puny;
            Regex := string; regex_build_ci p := Some p; regex_new p := Some p;
            regex_is_match r s := str_contains (to_ascii_lowercase s) (to_ascii_lowercase r);
            FancyRegex := string; compile_mihomo_domain_regex p := Some p;
            fancy_is_match r s := Some (str_contains s r);
            GlobMatcher := string; glob_build p := if dangling (str_bytes p) then None else Some p;
            glob_is_match := glob_text; parse_ipnet := parse_net;
            AhoCorasick := list string; ac_build ps := Some ps; find_overlapping := overlapping |}.
  exact (@find_overlapping_spec _ route_lib).
Defined.

Definition show_net (n : IpNet) : string :=
  match n with
  | Net4 c => show_ip (V4 (cidr_network c)) +:+ "/" +:+ pretty (32 - cidr_host_bits c)
  | Net6 c => show_ip (V6 (cidr_network c)) +:+ "/" +:+ pretty (128 - cidr_host_bits c)
  end.

Lemma cidr_back w (c : Cidr w) : 0 <= w ->
  0 <= cidr_host_bits c <= w /\ mk_cidr w (cidr_network c / 2 ^ cidr_host_bits c) (cidr_host_bits c) = Some c.
Proof.
  intros Hw. destruct c as [b h ok]. unfold cidr_network. cbn [cidr_block cidr_host_bits]. pose proof ok as ok'.
  rewrite !andb_true_iff in ok'. destruct ok' as ((H1 & H2) & H3).
  assert (Hh : 0 < 2 ^ h) by (apply Z.pow_pos_nonneg; lia). split.
  - split; [lia|]. apply (Z.pow_le_mono_r_iff 2); [lia|lia|]. nia.
  - rewrite Z.div_mul by lia. unfold mk_cidr. destruct (Sumbool.sumbool_of_bool _) as [e|e]; [|congruence].
    f_equal. f_equal. apply proof_irrel.
Qed.

Lemma parse_net_text ip bits : ip_ok ip -> 0 <= bits <= 255 ->
  parse_net (show_ip ip +:+ "/" +:+ pretty bits) = cidr_of ip bits.
Proof.
  intros Hip Hb. unfold parse_net. rewrite !str_bytes_app. change (str_bytes "/") with [47]. cbn [app].
  rewrite split_last_app by (intros Hc; apply pretty_digit_bytes in Hc; [unfold is_digit in Hc; lia|lia]).
  cbn [mbind option_bind]. rewrite !str_of_str_bytes, parse_show_ip by done. cbn [mbind option_bind].
  unfold parse_u8. by rewrite parse_pretty by lia.
Qed.

Definition config_text : @RouteText cidr_nets config_lib net_text.
Proof.
  refine {| net_show := show_net |}.
  - intros [c|c]; cbn [show_net parse_ipnet config_lib].
    + destruct (cidr_back 32 c) as [Hh Hc]; [lia|]. pose proof (cidr_bounds c) as Hb.
      rewrite parse_net_text by (cbn [ip_ok]; unfold uint; lia). cbn [cidr_of].
      replace (32 - (32 - cidr_host_bits c)) with (cidr_host_bits c) by lia. by rewrite Hc.
    + destruct (cidr_back 128 c) as [Hh Hc]; [lia|]. pose proof (cidr_bounds c) as Hb.
      rewrite parse_net_text by (cbn [ip_ok]; unfold uint; lia). cbn [cidr_of].
      replace (128 - (128 - cidr_host_bits c)) with (cidr_host_bits c) by lia. by rewrite Hc.
  - intros [a|a] Hip; cbn [is_ipv4 parse_ipnet config_lib].
    + change "/32" with ("/" +:+ pretty 32). rewrite parse_net_text by (done || lia). cbn [cidr_of].
      change (32 - 32) with 0. rewrite Z.pow_0_r, Z.div_1_r. destruct (mk_cidr_host 32 a Hip) as [n ->]. by eexists.
    + change "/128" with ("/" +:+ pretty 128). rewrite parse_net_text by (done || lia). cbn [cidr_of].
      change (128 - 128) with 0. rewrite Z.pow_0_r, Z.div_1_r. destruct (mk_cidr_host 128 a Hip) as [n ->]. by eexists.
  - exact show_ip_slash.
Defined.

Module RouteConfigConcrete.
#[export] Existing Instances config_lib config_text domain_index.
End RouteConfigConcrete.

(** ** Witnesses *)
Module RouteConfigWitness.
Import RouteConfigConcrete.

Definition nested_rule : RouteMatcher :=
  MAnd [MOr [MSuffix "example.com"; MNoResolve (MCidr "10.0.0.0/8"); MPortRange 1000 2000];
        MNot (MAnd [MNetwork "udp"; MDscp 46]); MSrcSet "lan"; MProcessPathRegex "^/opt/(a,b|c\)){1,2}/bin$"].

Ltac writable_text := split; [discriminate|]; split; [vm_compute; reflexivity|]; split; [vm_compute; reflexivity|];
  let o := fresh in intros o; vm_compute; first [discriminate | by intros [= <-]].

Lemma nested_rule_expressible : expressible false nested_rule.
Proof.
  cbn. repeat first [writable_text | lia | (vm_compute; reflexivity) | exact I | split].
Qed.

Lemma rule_text_roundtrip_witness :
  rule_text nested_rule
    = "AND,((OR,((DOMAIN-SUFFIX,example.com),(IP-CIDR,10.0.0.0/8,no-resolve),(DST-PORT,1000-2000))),(NOT,((AND,((NETWORK,udp),(DSCP,46))))),(RULE-SET,lan,src),(PROCESS-PATH-REGEX,^/opt/(a,b|c\)){1,2}/bin$))"
  /\ parse_classical_lhs (rule_text nested_rule) = Some [nested_rule].
Proof. split; [vm_compute; reflexivity|]. apply (rule_text_roundtrip nested_rule). exact nested_rule_expressible. Defined.

(** The reader with fuel to spare solves the equation too; a port list is read as two ports. *)
Lemma classical_parser_terminates_witness :
  (forall lhs preserve, parse_classical_fuel (5 + length (str_bytes lhs)) lhs preserve = parse_classical_lhs_inner lhs preserve)
  /\ parse_classical_body (parse_classical_fuel 17) "NOT,((NETWORK,udp))" false = parse_classical_lhs_inner "NOT,((NETWORK,udp))" false
  /\ parse_classical_lhs_inner "NOT,((NETWORK,udp))" false = Some [MNot (MNetwork "udp")]
  /\ (forall v, parse_port_fuel 9 v = parse_classical_port v)
  /\ parse_classical_port "80/443" = Some (MOr [MPort 80; MPort 443]).
Proof.
  destruct classical_parser_terminates as (Hshort & Hsol & Hpart & Hport). split.
  { apply (proj1 (Hsol (fun lhs preserve => parse_classical_fuel (5 + length (str_bytes lhs)) lhs preserve))). intros lhs preserve.
    rewrite (parse_fuel_same _ (length (str_bytes lhs))) by lia. change (parse_classical_fuel (length (str_bytes lhs)) lhs preserve)
      with (parse_classical_lhs_inner lhs preserve). rewrite (proj2 (Hsol parse_classical_lhs_inner) ltac:(done)).
    apply Hshort. intros text p Ht. apply parse_fuel_same; lia. }
  split; [vm_compute; reflexivity|]. split; [vm_compute; reflexivity|]. split; [|vm_compute; reflexivity].
  apply (proj1 (Hport (parse_port_fuel 9))). intros v. cbn [parse_port_fuel]. apply port_body_same. intros part Hp.
  apply (Hpart _ _ v part Hp).
Defined.

Definition no_fields : RouteStepObject :=
  mkObject None None None None None None None None None None None None None None false false false "main".

Definition with_ports (ports : list string) (network outbound : string) : RouteStepObject :=
  mkObject None None None None None None None (Some (MList ports)) None None None None (Some network) None false false false outbound.

Definition with_match (text outbound : string) : RouteStepObject :=
  mkObject (Some text) None None None None None None None None None None None None None false false false outbound.

Definition groups : gset string := {["main"]}.

Definition office : Route := mkRoute "global" "main"
  [ELine "domain:a.example, b.example -> main"; ELine "IP-CIDR,10.0.0.0/8,direct,no-resolve";
   ELine "DOMAIN-WILDCARD,*.corp,direct"; EObject (with_ports ["53"; "5000-6000"] "udp" "block");
   ELine "SUB-RULE,(NETWORK,tcp),web"]
  [("web", [ELine "DST-PORT,443,main"; ELine "any -> pass"])].

Definition plan_of (r : Route) : RoutePlan := default (mkPlan [] []) (compile_route r groups).
Definition engine_of (r : Route) : option RouteEngine :=
  match RouteEngine_with (plan_of r) None with Ok e => Some e | _ => None end.
Definition decision (r : Route) (c : FlowContext) : option RouteDecision :=
  e ← engine_of r; Some (dd_decision (decide_detailed e c)).

Lemma office_wildcards : wildcards_build (plan_of office).
Proof.
  intros w Hw.
  assert (Hall : forallb (fun m => match m with
      | MDomainWildcard w => bool_decide (is_Some (glob_build (normalize_route_domain_pattern w))) | _ => true end) (plan_leaves (plan_of office)) = true)
    by (vm_compute; reflexivity).
  rewrite forallb_forall in Hall. apply list_elem_of_In in Hw. specialize (Hall _ Hw). by apply bool_decide_eq_true in Hall.
Qed.

Lemma route_config_decides_witness :
  length (rp_steps (plan_of office)) = 8%nat
  /\ decision office (for_ip (V4 167772161) 80 NkTcp) = Some DDirect
  /\ exists e0, RouteEngine_with (plan_of office) None = Ok e0 /\ forall ops c,
    let e := toggles e0 ops in
    (match dd_decision (decide_detailed e c) with DGroup g => g ∈ groups \/ g = ro_final office | _ => True end)
    /\ (forall k s, rp_steps (plan_of office) !! k = Some s -> rs_matcher s = MAny -> decides (rs_action s) ->
         rule_disabled e k = false -> from_step detailed_hit (in_plan (plan_of office)) (decide_detailed e c)).
Proof.
  split; [vm_compute; reflexivity|]. split; [vm_compute; reflexivity|].
  apply (route_config_decides office groups (plan_of office) None); [vm_compute; reflexivity|exact office_wildcards].
Defined.

(** ** Accepted configurations that do not mean what they say *)

(** A domain wildcard is checked as it is written and built from its normal form, which
    drops trailing dots: [*\.] is accepted, and the engine panics on [*\]. *)
Theorem wildcard_panics_engine :
  let r := mkRoute "custom" "main" [ELine "DOMAIN-WILDCARD,*\.,direct"] [] in
  compile_route r groups = Some (plan_of r)
  /\ match RouteEngine_with (plan_of r) None with Panic => True | _ => False end.
Proof. split; [vm_compute; reflexivity|vm_compute; exact I]. Qed.

(** An unconditional jump into a branch counts as a catch-all rule: no final rule is added,
    and a flow that the branch does not decide goes DIRECT instead of to the final group. *)
Theorem unconditional_branch_drops_final :
  let r := mkRoute "custom" "main" [ELine "SUB-RULE,(MATCH),lan"] [("lan", [ELine "ip:10.0.0.0/8 -> direct"])] in
  let r' := mkRoute "custom" "main" [ELine "SUB-RULE,(NETWORK,tcp),lan"] [("lan", [ELine "ip:10.0.0.0/8 -> direct"])] in
  let c := for_ip (V4 134744072) 443 NkTcp in
  decision r c = Some DDirect /\ decision r' c = Some (DGroup "main").
Proof. vm_compute. split; reflexivity. Qed.

(** The values of a [match] field are joined by AND, those of the same text in a line by OR:
    [{match: "domain:a.example,b.example"}] matches neither name. *)
Theorem object_match_values_conjoined :
  let r := mkRoute "custom" "main" [EObject (with_match "domain:a.example,b.example" "block")] [] in
  let r' := mkRoute "custom" "main" [ELine "domain:a.example,b.example -> block"] [] in
  let c := for_domain "a.example" 443 NkTcp in
  decision r c = Some (DGroup "main") /\ decision r' c = Some DBlock.
Proof. vm_compute. split; reflexivity. Qed.

(** [no-resolve] behind a rule that takes none is refused with an arrow and accepted
    without. *)
Theorem no_resolve_check_skipped :
  parse_step_line groups [] "main" "DOMAIN,a.example,no-resolve -> main" = None
  /\ parse_step_line groups [] "main" "DOMAIN,a.example,main,no-resolve"
     = Some [mkStep (MDomain "a.example") (AGroup "main") "DOMAIN,a.example,main,no-resolve" (mkOptions true false false)].
Proof. vm_compute. split; reflexivity. Qed.

End RouteConfigWitness.
