(* ===== verification/TunAccept.v ===== *)
(** * Accepted TUN flows: the session, the sniffed host and the handoff

    Models how the three TCP stacks of [core-capture] and its UDP dispatcher turn a captured flow
    into what the listener gets: [handle_accepted_conn] of [stack_system.rs],
    [run_accept_consumer] of [tun_dispatch.rs], [handle_netstack_tcp] of [netstack_dispatch.rs]
    and [resolve_udp_session] of [udp_handle.rs].  A TCP stack that knows no host name for the
    destination reads the first bytes of the client and takes the TLS server name or HTTP host
    ([Sniff.v]).  Reading the bytes is input and output: they are an argument, empty when nothing
    came in time; the pool may have changed while the stack waited, so the second look at it has
    its own state and clock reading.  Replaying the bytes and relaying are not modelled. *)

From stdpp Require Import base list gmap strings numbers option.
From S2P Require Import Prelude Net Instances Text FakeIp Loopback DnsPacket DnsService RouteModel RouteMatch RouteEngine RouteInstances Sniff Listener TunInbound RouteConfig.

Section Accept.
Context `{IpNetLib, NetText, StrCase}.

(** What happens to a captured flow: answered by the DNS service, closed, or given to the listener *)
Inductive TunFate : Type := FateDns | FateDropped | FateListener (m : InboundMetadata).

(** [session.target.host.parse::<IpAddr>().is_ok()] *)
Definition target_is_address (s : TunSession) : bool := bool_decide (is_Some (parse_ip (dt_host (ts_target s)))).

(** [resolve_session(.., Some(host)).unwrap_or(session)], or the session when nothing was sniffed *)
Definition refine_session (ti : TunInbound) (source original_dst : SocketAddr) (host : option string) (s : TunSession) (now : Z) : TunSession :=
  match host with
  | Some h => match resolve_session ti NkTcp source original_dst (Some h) now with Keep s' => s' | DropPacket _ => s end
  | None => s
  end.

(** The session of the system stack, and the bytes taken from the client: after a missing fake
    record a flow without a sniffed host is closed. *)
Definition system_session (ti ti' : TunInbound) (source original_dst : SocketAddr) (payload : list Z) (now now' : Z) : outcome (option (TunSession * list Z)) :=
  match resolve_session ti NkTcp source original_dst None now with
  | Keep s =>
    if target_is_address s then
      host ← sniff_tcp_host payload;
      Ok (Some (refine_session ti' source original_dst host s now', payload))
    else Ok (Some (s, []))
  | DropPacket DropFakeDnsMissing =>
    host ← sniff_tcp_host payload;
    match host with
    | None => Ok None
    | Some h => Ok (match resolve_session ti' NkTcp source original_dst (Some h) now' with Keep s => Some (s, payload) | DropPacket _ => None end)
    end
  | DropPacket _ => Ok None
  end.

(** The session of the other two stacks, which ask again whatever was sniffed *)
Definition dispatch_session (ti ti' : TunInbound) (source original_dst : SocketAddr) (payload : list Z) (now now' : Z) : outcome (option (TunSession * list Z)) :=
  match resolve_session ti NkTcp source original_dst None now with
  | Keep s =>
    if target_is_address s then
      host ← sniff_tcp_host payload;
      Ok (Some (refine_session ti' source original_dst host s now', payload))
    else Ok (Some (s, []))
  | DropPacket DropFakeDnsMissing =>
    host ← sniff_tcp_host payload;
    Ok (match resolve_session ti' NkTcp source original_dst host now' with Keep s => Some (s, payload) | DropPacket _ => None end)
  | DropPacket _ => Ok None
  end.

(** The metadata, with the protocol of the first bytes if there are any *)
Definition tcp_metadata (s : TunSession) (initial_payload : list Z) : outcome InboundMetadata :=
  match initial_payload with
  | [] => Ok (build_inbound_metadata s)
  | _ :: _ => p ← sniff_tcp initial_payload; Ok (with_md_protocol (build_inbound_metadata s) (Some p))
  end.

Definition handle_accepted_conn (ti ti' : TunInbound) (source original_dst : SocketAddr) (payload : list Z) (now now' : Z) : outcome TunFate :=
  r ← system_session ti ti' source original_dst payload now now';
  match r with
  | None => Ok FateDropped
  | Some (s, initial) => if should_hijack_dns ti original_dst then Ok FateDns else m ← tcp_metadata s initial; Ok (FateListener m)
  end.

Definition run_accept_consumer (ti ti' : TunInbound) (source original_dst : SocketAddr) (payload : list Z) (now now' : Z) : outcome TunFate :=
  r ← dispatch_session ti ti' source original_dst payload now now';
  match r with
  | None => Ok FateDropped
  | Some (s, initial) => if should_hijack_dns ti (ts_original_dst s) then Ok FateDns else m ← tcp_metadata s initial; Ok (FateListener m)
  end.

Definition handle_netstack_tcp (ti ti' : TunInbound) (source original_dst : SocketAddr) (payload : list Z) (now now' : Z) : outcome TunFate :=
  if should_hijack_dns ti original_dst then Ok FateDns else
  r ← dispatch_session ti ti' source original_dst payload now now';
  match r with
  | None => Ok FateDropped
  | Some (s, initial) => m ← tcp_metadata s initial; Ok (FateListener m)
  end.

(** The logged reason is dropped. *)
Definition resolve_udp_session (ti : TunInbound) (source original_dst : SocketAddr) (now : Z) : option TunSession :=
  match resolve_session ti NkUdp source original_dst None now with Keep s => Some s | DropPacket _ => None end.

(** The first datagram of an association: [handle_udp_packet] and the metadata of [run_udp_dial_worker] *)
Definition first_datagram (ti : TunInbound) (source original_dst : SocketAddr) (now : Z) : TunFate :=
  if should_hijack_dns ti original_dst then FateDns else
  match resolve_udp_session ti source original_dst now with Some s => FateListener (build_inbound_metadata s) | None => FateDropped end.

(** The four ways into the listener *)
Inductive TunPath : Type := PathSystem | PathTun | PathNetstack | PathUdp.
#[export] Instance TunPath_eq_dec : EqDecision TunPath.
Proof. solve_decision. Defined.
Definition path_network (p : TunPath) : NetworkKind := match p with PathUdp => NkUdp | _ => NkTcp end.

Definition tun_flow (p : TunPath) (ti ti' : TunInbound) (source original_dst : SocketAddr) (payload : list Z) (now now' : Z) : outcome TunFate :=
  match p with
  | PathSystem => handle_accepted_conn ti ti' source original_dst payload now now'
  | PathTun => run_accept_consumer ti ti' source original_dst payload now now'
  | PathNetstack => handle_netstack_tcp ti ti' source original_dst payload now now'
  | PathUdp => Ok (first_datagram ti source original_dst now)
  end.

(** ** The name of a flow to a fake address

    The live name of the pool; without one, for TCP, the host read from the client's first bytes;
    two of the stacks then look a last time whether the pool has got a name meanwhile. *)
Definition flow_name (p : TunPath) (pool pool' : FakeIpPool) (ip : IpAddr) (sniffed : option string) (now now' : Z) : option string :=
  match fake_lookup pool ip now, p with
  | Some name, _ => Some name
  | None, PathSystem => sniffed
  | None, (PathTun | PathNetstack) => match sniffed with Some h => Some h | None => fake_lookup pool' ip now' end
  | None, PathUdp => None
  end.

(** The capture as it is while the first bytes are awaited: only the bindings of the pool change. *)
Definition same_capture (ti ti' : TunInbound) : Prop :=
  exists pool', ti' = mkTunInbound (ti_plan ti) pool' (ti_ipset ti) (ti_uid_filter ti) /\ fp_cfg pool' = fp_cfg (ti_pool ti).
End Accept.

Section AcceptLemmas.
Context `{IpNetLib, NetText, StrCase}.

(** The session a flow to a fake address gets, by what the pool and the first bytes say *)
Definition fake_session (ti : TunInbound) (n : NetworkKind) (source dst : SocketAddr) (name : string) (host : option string) (mode : DnsMode) (bypass : option TunBypassReason) : TunSession :=
  mkTunSession (cp_tag (ti_plan ti)) n source dst (mkDialTarget name (sa_ip dst) (sa_port dst) mode false) host bypass.

Lemma resolve_fake ti n source dst host now :
  fake_contains (ti_pool ti) (sa_ip dst) = true -> host <> Some "" ->
  resolve_session ti n source dst host now =
    match reject_loopback_endpoints ti source dst with
    | DropPacket r => DropPacket r
    | Keep _ =>
      match (match host with Some h => Some (h, DmDnsMapping) | None => (fun d => (d, DmFakeIp)) <$> fake_lookup (ti_pool ti) (sa_ip dst) now end) with
      | None => DropPacket DropFakeDnsMissing
      | Some (name, mode) => match route_policy ti (sa_ip dst) with DropPacket r => DropPacket r | Keep bypass => Keep (fake_session ti n source dst name host mode bypass) end
      end
    end.
Proof.
  intros Hc Hh. unfold resolve_session, build_dial_target, fake_session. destruct (reject_loopback_endpoints _ _ _); [|done]. cbn.
  destruct host as [h|]; cbn.
  - unfold non_empty. rewrite str_nonempty by congruence. cbn. by destruct (route_policy _ _).
  - destruct (fake_lookup _ _ _); cbn; rewrite Hc; [|done]. cbn. by destruct (route_policy _ _).
Qed.

Lemma same_capture_facts ti ti' source dst :
  same_capture ti ti' -> ti_plan ti' = ti_plan ti /\ (forall ip, fake_contains (ti_pool ti') ip = fake_contains (ti_pool ti) ip)
  /\ reject_loopback_endpoints ti' source dst = reject_loopback_endpoints ti source dst /\ forall ip, route_policy ti' ip = route_policy ti ip.
Proof.
  intros (pool' & -> & Hcfg). assert (Hc : forall ip, fake_contains pool' ip = fake_contains (ti_pool ti) ip) by (intros ip; unfold fake_contains; by rewrite Hcfg).
  split_and!; [done|done|done|]. intros ip. unfold route_policy. cbn. by rewrite Hc.
Qed.

(** Only the pool makes a fake record missing. *)
Lemma endpoints_not_missing ti source dst : reject_loopback_endpoints ti source dst <> DropPacket DropFakeDnsMissing.
Proof. unfold reject_loopback_endpoints. by destruct (_ || _). Qed.

Lemma policy_not_missing ti ip : route_policy ti ip <> DropPacket DropFakeDnsMissing.
Proof. unfold route_policy. repeat match goal with |- context [if ?b then _ else _] => destruct b end; done. Qed.

(** A sniffed host is text for a domain. *)
Lemma host_valid_text `{!TrimLaws} h : host_valid h -> domain_text h.
Proof.
  intros (Hne & _ & Hip & Hb). split_and!; [done| |done].
  assert (Hp : Forall (fun c => 33 <= c <= 126) (str_bytes h)).
  { eapply list.Forall_impl; [exact Hb|]. intros c Hc. cbn in Hc. unfold in_range in Hc. lia. }
  destruct (str_bytes h) as [|c l] eqn:E; [by destruct h|]. destruct (list.last (c :: l)) as [d|] eqn:El; [|by apply list.last_None in El].
  apply (trim_keeps h c d); rewrite ?E; [done|done|by inversion Hp|]. apply list.last_Some_elem_of in El. rewrite list.Forall_forall in Hp. by apply Hp.
Qed.

(** Nothing read is nothing sniffed: the netstack dispatcher does not look at an empty read. *)
Lemma sniff_nothing : sniff_tcp_host [] = Ok None.
Proof. reflexivity. Qed.
End AcceptLemmas.

(** ** The claim *)
Section AcceptClaims.
Context `{IpNetLib, !RouteLib, !RulesetIndexApi, NetText, StrCase, !TrimLaws}.

(** What the listener makes of a flow that is routed under a name *)
Definition routed_as (rt : Runtime) (mapping : IpHostMapping) (n : NetworkKind) (tag : string) (source : SocketAddr) (name : string) (port : Z) (bypass : option TunBypassReason) (m : InboundMetadata) : Prop :=
  forall t t', if reject_loopback_self_capture (rt_loopback rt) m then (prepare (dial_for n) rt mapping m t t').1 = None
  else exists process path packages id protocol,
    (prepare (dial_for n) rt mapping m t t').1 = Some (choice_for bypass (with_identity (set_protocol (domain_flow tag n source name port) protocol) process path packages id)).

Lemma fake_session_routed rt mapping ti n source ip port name host mode bypass protocol :
  (host = None \/ host = Some name) -> domain_text name -> str_trim "" = "" ->
  routed_as rt mapping n (cp_tag (ti_plan ti)) source name port bypass (with_md_protocol (build_inbound_metadata (fake_session ti n source (mkSocketAddr ip port) name host mode bypass)) protocol).
Proof.
  intros Hh Hd Hemp t t'. pose proof (session_prepared (fake_session ti n source (mkSocketAddr ip port) name host mode bypass) name port rt mapping t t' protocol (conj eq_refl Hh) eq_refl Hd Hemp) as Hp.
  cbn zeta in Hp. cbn [fake_session ts_network ts_inbound_tag ts_source ts_bypass] in Hp. destruct (reject_loopback_self_capture _ _); [done|]. destruct Hp as (pr & pa & pk & id & Hp). by exists pr, pa, pk, id, protocol.
Qed.

Lemma tcp_metadata_protocol s initial : bytes_ok initial -> exists protocol, tcp_metadata s initial = Ok (with_md_protocol (build_inbound_metadata s) protocol).
Proof.
  intros Hb. destruct initial as [|b l]; [exists None; cbn; by rewrite (proj1 (session_metadata s))|].
  destruct (proj1 (sniff_returns (b :: l) Hb)) as (p & E). exists (Some p). unfold tcp_metadata. by rewrite E.
Qed.

(** The session of the TCP stacks, by what decides it *)
Definition tcp_session (p : TunPath) : TunInbound -> TunInbound -> SocketAddr -> SocketAddr -> list Z -> Z -> Z -> outcome (option (TunSession * list Z)) :=
  match p with PathSystem => system_session | _ => dispatch_session end.

Lemma tcp_session_cases p ti ti' source dst payload now now' sniffed :
  p <> PathUdp -> bytes_ok payload -> sniff_tcp_host payload = Ok sniffed -> same_capture ti ti' ->
  fake_contains (ti_pool ti) (sa_ip dst) = true -> (forall name, fake_lookup (ti_pool ti) (sa_ip dst) now = Some name -> domain_text name) ->
  match reject_loopback_endpoints ti source dst, flow_name p (ti_pool ti) (ti_pool ti') (sa_ip dst) sniffed now now', route_policy ti (sa_ip dst) with
  | Keep _, Some name, Keep bypass => exists host mode initial, (host = None \/ host = Some name) /\ bytes_ok initial
    /\ tcp_session p ti ti' source dst payload now now' = Ok (Some (fake_session ti NkTcp source dst name host mode bypass, initial))
  | _, _, _ => tcp_session p ti ti' source dst payload now now' = Ok None
  end.
Proof.
  intros Hp Hb Hs Hsame Hc Hdom. destruct (same_capture_facts ti ti' source dst Hsame) as (Hplan & Hc' & He' & Hr').
  assert (Hne : sniffed <> Some "") by (intros ->; by apply sniffed_host_valid in Hs as [? _]).
  assert (Hfs : forall h name mode b, fake_session ti' NkTcp source dst name h mode b = fake_session ti NkTcp source dst name h mode b) by (intros; unfold fake_session; by rewrite Hplan).
  pose proof (resolve_fake ti NkTcp source dst None now Hc ltac:(done)) as H5.
  pose proof (resolve_fake ti' NkTcp source dst sniffed now' ltac:(by rewrite Hc') Hne) as H6. rewrite He', Hr' in H6.
  pose proof (endpoints_not_missing ti source dst) as Hm1. pose proof (policy_not_missing ti (sa_ip dst)) as Hm2.
  unfold tcp_session, flow_name. destruct (reject_loopback_endpoints ti source dst) as [|r]; [|by destruct p; unfold system_session, dispatch_session; rewrite H5; destruct r].
  destruct (fake_lookup (ti_pool ti) (sa_ip dst) now) as [name|]; cbn in H5.
  - specialize (Hdom name eq_refl). destruct (route_policy ti (sa_ip dst)) as [bypass|r]; [|by destruct p; unfold system_session, dispatch_session; rewrite H5; destruct r].
    exists None, DmFakeIp, []. split_and!; [by left|constructor|].
    destruct p; unfold system_session, dispatch_session; rewrite H5; unfold target_is_address; cbn; by rewrite (proj2 (proj2 Hdom)).
  - destruct sniffed as [h|]; cbn in H6.
    + destruct p; try done; unfold system_session, dispatch_session; rewrite H5, Hs; cbn; rewrite H6; destruct (route_policy ti (sa_ip dst)); try done; rewrite Hfs; exists (Some h); do 2 eexists; (split; [by right|split; [exact Hb|reflexivity]]).
    + destruct p; try done; unfold system_session, dispatch_session; rewrite H5, Hs; cbn; [done|..]; rewrite H6; (destruct (fake_lookup (ti_pool ti') (sa_ip dst) now'); cbn; [|done]);
        (destruct (route_policy ti (sa_ip dst)); [|done]); rewrite Hfs; exists None; do 2 eexists; (split; [by left|split; [exact Hb|reflexivity]]).
Qed.

End AcceptClaims.

Module TunAcceptWitness.
Import Concrete RouteConcrete.

(** The fake address of [TunInboundWitness]: its binding lives until 600 s, after that the host of
    the request names the flow. *)
Definition request : list Z := SniffWitness.request.


End TunAcceptWitness.
