(* ===== verification/GroupResolve.v ===== *)
(** * From a decision to an outbound

    Models how the runtime turns a flow into the outbound that carries it
    ([core-runtime/src/engine.rs]: [pick_outbound_for_context], [pick_in_group], the eligibility of
    members, the fallback of an empty group, the group views of the control plane, and
    [RuntimeDnsOutboundProvider], the same search for the upstreams of the resolver), with the
    registry of [core-outbound/src/registry.rs].  An outbound is its protocol and whether it relays
    UDP.  The set of groups being visited is restored by every branch that extends it, so it is an
    argument; the depth counts down from [GROUP_MAX_DEPTH].  A pick changes the selector of the
    group and the tester, which are passed along; clock readings are given per depth.  Metrics and
    log lines are left out. *)

From stdpp Require Import base list gmap strings numbers option relations pretty.
From S2P Require Import Prelude Net Text TextSplit Instances Health RouteModel RouteMatch RouteEngine GroupSelect.

(** ** The registry *)

Record Outbound : Type := mkOutbound { ob_protocol : string; ob_udp : bool }.

#[global] Instance Outbound_eq_dec : EqDecision Outbound.
Proof. solve_decision. Defined.

Definition OutboundRegistry : Type := gmap string Outbound.

Definition DirectOutbound : Outbound := mkOutbound "direct" true.
Definition BlockOutbound : Outbound := mkOutbound "block" true.

Definition OutboundRegistry_insert (r : OutboundRegistry) (name : string) (o : Outbound) : OutboundRegistry := <[name := o]> r.
Definition OutboundRegistry_new : OutboundRegistry :=
  OutboundRegistry_insert (OutboundRegistry_insert ∅ "DIRECT" DirectOutbound) "BLOCK" BlockOutbound.
Definition OutboundRegistry_get (r : OutboundRegistry) (name : string) : option Outbound := r !! name.
Definition OutboundRegistry_remove (r : OutboundRegistry) (name : string) : OutboundRegistry * option Outbound :=
  if bool_decide (name = "DIRECT" \/ name = "BLOCK") then (r, None) else (delete name r, r !! name).

(** ** Data *)

Definition GROUP_MAX_DEPTH : nat := 32.

Record ResolvedGroupPick : Type := mkResolved { rg_label : string; rg_outbound : Outbound; rg_chain : list string }.

(** [chain.push] *)
Definition chain_push (p : ResolvedGroupPick) (group : string) : ResolvedGroupPick :=
  mkResolved (rg_label p) (rg_outbound p) (rg_chain p ++ [group]).

Record RoutePick : Type := mkRoutePick { rk_decision : RouteDecision; rk_resolved : ResolvedGroupPick; rk_hit : RouteRuleHit }.

Definition is_udp (n : NetworkKind) : bool := match n with NkUdp => true | NkTcp => false end.

Definition global_mode_decision (final_target : string) : RouteDecision :=
  if bool_decide (final_target = "direct" \/ final_target = "DIRECT") then DDirect
  else if bool_decide (final_target ∈ ["block"; "BLOCK"; "REJECT"; "reject"]) then DBlock
  else DGroup final_target.

Definition decision_action (d : RouteDecision) : string :=
  match d with DDirect => "DIRECT" | DBlock => "REJECT" | DGroup g => g end.

(** The fallback of a group as the name of an outbound *)
Definition fallback_label (configured : string) : string :=
  let upper := to_ascii_uppercase configured in
  if bool_decide (upper = "REJECT" \/ upper = "BLOCK") then "BLOCK"
  else if bool_decide (upper = "DIRECT") then "DIRECT" else configured.

Section resolve.
Context `{GroupLib, GroupRandom, StickyCache, SmartApi, IpNetLib, !RouteLib, !RulesetIndexApi, NetText, StrCase}.

Record Runtime : Type := mkRuntime {
  rt_outbounds : OutboundRegistry;
  rt_groups : gmap string GroupSelector;
  rt_tester : option UrlTester;
  rt_route : RouteEngine;
  rt_mode : string;
  rt_final : string
}.

(** The selector and the tester after a pick *)
Definition note_group (rt : Runtime) (group : string) (g : GroupSelector) (tester : option UrlTester) : Runtime :=
  mkRuntime (rt_outbounds rt) (<[group := g]> (rt_groups rt)) tester (rt_route rt) (rt_mode rt) (rt_final rt).

Definition must_get (rt : Runtime) (name : string) : outcome Outbound :=
  match OutboundRegistry_get (rt_outbounds rt) name with Some o => Ok o | None => Panic end.

Definition blocked_group_pick (rt : Runtime) : outcome ResolvedGroupPick :=
  o ← must_get rt "BLOCK";
  Ok (mkResolved "BLOCK" o ["BLOCK"]).

Definition empty_group_pick (rt : Runtime) (g : GroupSelector) (group_name : string) : outcome ResolvedGroupPick :=
  let label := fallback_label (gp_empty_fallback (sel_plan g)) in
  match OutboundRegistry_get (rt_outbounds rt) label with
  | Some o => Ok (mkResolved label o [label; group_name])
  | None => blocked_group_pick rt
  end.

Definition member_protocol (rt : Runtime) (name : string) : string :=
  if bool_decide (is_Some (rt_groups rt !! name)) then "group"
  else match OutboundRegistry_get (rt_outbounds rt) name with Some o => ob_protocol o | None => "" end.

(** ** Eligibility *)

Definition fallback_supports_network (rt : Runtime) (fallback : string) (network : NetworkKind) : bool :=
  match OutboundRegistry_get (rt_outbounds rt) (fallback_label fallback) with
  | Some o => negb (is_udp network) || ob_udp o
  | None => false
  end.

(** [member_supports_network], given [group_supports_network] one level down *)
Definition member_supports_with (rt : Runtime) (network : NetworkKind) (group_supports : string -> bool) (name : string) : bool :=
  match OutboundRegistry_get (rt_outbounds rt) name with
  | Some o => negb (is_udp network) || ob_udp o
  | None => group_supports name
  end.

Definition truncate_members (g : GroupSelector) (members : list string) : list string :=
  if (0 <? gp_max_members (sel_plan g)) && (gp_max_members (sel_plan g) <? Z.of_nat (length members))
  then take (Z.to_nat (gp_max_members (sel_plan g))) members else members.

(** [levels] is [GROUP_MAX_DEPTH - depth]. *)
Fixpoint group_supports_network (levels : nat) (rt : Runtime) (group : string) (network : NetworkKind) (visiting : gset string) : bool :=
  match levels with
  | O => false
  | S levels =>
    if bool_decide (group ∈ visiting) then false else
    match rt_groups rt !! group with
    | None => false
    | Some g =>
      if is_udp network && gp_disable_udp (sel_plan g) then false else
      let members := truncate_members g (filtered_members g (member_protocol rt)) in
      let required := Z.to_nat (Z.max (gp_min_members (sel_plan g)) 1) in
      let able := List.filter (member_supports_with rt network (fun m => group_supports_network levels rt m network ({[group]} ∪ visiting)))
        (List.filter (fun m => negb (is_feed_placeholder m)) members) in
      (required <=? length (take required able))%nat
      || fallback_supports_network rt (gp_empty_fallback (sel_plan g)) network
    end
  end.

Definition member_supports_network (levels : nat) (rt : Runtime) (network : NetworkKind) (visiting : gset string) (name : string) : bool :=
  member_supports_with rt network (fun m => group_supports_network levels rt m network visiting) name.

(** ** The carrier of the error when no member relays UDP *)

(** [find_map] *)
Definition find_map {A B} (f : A -> option B) (l : list A) : option B := head (omap f l).

Fixpoint first_resolvable_member (levels : nat) (rt : Runtime) (member : string) (visiting : gset string) : option ResolvedGroupPick :=
  match OutboundRegistry_get (rt_outbounds rt) member with
  | Some o => Some (mkResolved member o [member])
  | None =>
    match levels with
    | O => None
    | S levels =>
      if bool_decide (member ∈ visiting) then None else
      match rt_groups rt !! member with
      | None => None
      | Some g =>
        (fun p => chain_push p member) <$>
        find_map (fun child => if is_feed_placeholder child then None else first_resolvable_member levels rt child ({[member]} ∪ visiting))
          (filtered_members g (member_protocol rt))
      end
    end
  end.

(** ** Resolution of a group *)

Definition flow_meta (ctx : FlowContext) : GroupMeta := mkGroupMeta (fc_host ctx) (fc_ip ctx) None (fc_port ctx) (network_str (fc_network ctx)).

Fixpoint pick_in_group_inner (levels : nat) (rt : Runtime) (group : string) (ctx : FlowContext) (visiting : gset string) (clocks : nat -> Clock)
  : outcome (Runtime * ResolvedGroupPick) :=
  match levels with
  | O => p ← blocked_group_pick rt; Ok (rt, p)
  | S levels =>
    if bool_decide (group ∈ visiting) then p ← blocked_group_pick rt; Ok (rt, p) else
    match rt_groups rt !! group with
    | None => p ← blocked_group_pick rt; Ok (rt, p)
    | Some g =>
      let visiting := {[group]} ∪ visiting in
      '(g, tester, pick) ← pick_eligible_with_protocol g (flow_meta ctx) (rt_tester rt)
        (member_supports_network levels rt (fc_network ctx) visiting) (member_protocol rt) (clocks levels);
      let rt := note_group rt group g tester in
      let empty := p ← empty_group_pick rt g group; Ok (rt, p) in
      match pick with
      | Some name =>
        match OutboundRegistry_get (rt_outbounds rt) name with
        | Some o => Ok (rt, mkResolved name o [name; group])
        | None =>
          if bool_decide (is_Some (rt_groups rt !! name)) then
            '(rt, nested) ← pick_in_group_inner levels rt name ctx visiting clocks;
            Ok (rt, chain_push nested group)
          else empty
        end
      | None =>
        if is_udp (fc_network ctx) then
          match find_map (fun member => first_resolvable_member levels rt member visiting) (filtered_members g (member_protocol rt)) with
          | Some fallback => Ok (rt, chain_push fallback group)
          | None => empty
          end
        else empty
      end
    end
  end.

Definition pick_in_group (rt : Runtime) (group : string) (ctx : FlowContext) (clocks : nat -> Clock) : outcome (Runtime * ResolvedGroupPick) :=
  pick_in_group_inner GROUP_MAX_DEPTH rt group ctx ∅ clocks.

(** ** The mode and the rules *)

Definition mode_hit (payload source action : string) : RouteRuleHit := mkHit None "MODE" payload source action false false false.

Definition flow_decision (rt : Runtime) (ctx : FlowContext) : DetailedRouteDecision :=
  let mode := to_ascii_lowercase (rt_mode rt) in
  if bool_decide (mode = "direct") then mkDetailed DDirect "mode" (mode_hit "direct" "mode:direct" "DIRECT")
  else if bool_decide (mode = "global") then
    let decision := global_mode_decision (rt_final rt) in
    mkDetailed decision "mode" (mode_hit "global" "mode:global" (decision_action decision))
  else decide_detailed (rt_route rt) ctx.

Definition pick_outbound_for_context (rt : Runtime) (ctx : FlowContext) (clocks : nat -> Clock) : outcome (Runtime * RoutePick) :=
  let route := flow_decision rt ctx in
  '(rt, resolved) ← match dd_decision route with
    | DDirect => o ← must_get rt "DIRECT"; Ok (rt, mkResolved "DIRECT" o ["DIRECT"])
    | DBlock => o ← must_get rt "BLOCK"; Ok (rt, mkResolved "BLOCK" o ["BLOCK"])
    | DGroup name => pick_in_group rt name ctx clocks
    end;
  Ok (rt, mkRoutePick (dd_decision route) resolved (dd_hit route)).

(** ** The outbound of a DNS upstream *)

(** [pick_group] of [RuntimeDnsOutboundProvider]; its eligibility functions repeat those above. *)
Fixpoint dns_pick_group (levels : nat) (rt : Runtime) (group_name host : string) (port : Z) (network : NetworkKind) (visiting : gset string) (clocks : nat -> Clock)
  : outcome (Runtime * ResolvedGroupPick) :=
  match levels with
  | O => Err InvalidData
  | S levels =>
    if bool_decide (group_name ∈ visiting) then Err InvalidData else
    match rt_groups rt !! group_name with
    | None => Err NotFound
    | Some g =>
      let visiting := {[group_name]} ∪ visiting in
      '(g, tester, picked) ← pick_eligible_with_protocol g (mkGroupMeta host None None port (network_str network)) (rt_tester rt)
        (member_supports_network levels rt network visiting) (member_protocol rt) (clocks levels);
      let rt := note_group rt group_name g tester in
      let fallback :=
        let label := fallback_label (gp_empty_fallback (sel_plan g)) in
        match OutboundRegistry_get (rt_outbounds rt) label with
        | Some o => Ok (rt, mkResolved label o [label; group_name])
        | None => Err NotFound
        end in
      match picked with
      | Some member =>
        match OutboundRegistry_get (rt_outbounds rt) member with
        | Some o => Ok (rt, mkResolved member o [member; group_name])
        | None =>
          if bool_decide (is_Some (rt_groups rt !! member)) then
            '(rt, resolved) ← dns_pick_group levels rt member host port network visiting clocks;
            Ok (rt, chain_push resolved group_name)
          else fallback
        end
      | None => fallback
      end
    end
  end.

Definition dns_pick (rt : Runtime) (outbound host : string) (port : Z) (network : NetworkKind) (clocks : nat -> Clock) : outcome (Runtime * ResolvedGroupPick) :=
  let normalized := if bool_decide (to_ascii_uppercase outbound = "REJECT") then "BLOCK" else outbound in
  match OutboundRegistry_get (rt_outbounds rt) normalized with
  | Some o => Ok (rt, mkResolved normalized o [normalized])
  | None => dns_pick_group GROUP_MAX_DEPTH rt normalized host port network ∅ clocks
  end.

(** ** Views of the control plane *)

Definition group_visible_members (rt : Runtime) (group : string) : list string :=
  match rt_groups rt !! group with
  | None => []
  | Some g =>
    let members := List.filter (fun m => negb (is_feed_placeholder m)
        && (bool_decide (is_Some (rt_groups rt !! m)) || bool_decide (is_Some (OutboundRegistry_get (rt_outbounds rt) m))))
      (filtered_members g (member_protocol rt)) in
    let members := truncate_members g members in
    if Z.of_nat (length members) <? Z.max (gp_min_members (sel_plan g)) 1 then [gp_empty_fallback (sel_plan g)] else members
  end.

(** [expand]: the leaves found so far are passed along. *)
Fixpoint expand_leaves (levels : nat) (rt : Runtime) (group_name : string) (visiting : gset string) (leaves : list string) : list string :=
  match levels with
  | O => leaves
  | S levels =>
    if bool_decide (group_name ∈ visiting) then leaves else
    if negb (bool_decide (is_Some (rt_groups rt !! group_name))) then leaves else
    foldl (fun leaves member =>
        if bool_decide (is_Some (rt_groups rt !! member)) then expand_leaves levels rt member ({[group_name]} ∪ visiting) leaves
        else if bool_decide (is_Some (OutboundRegistry_get (rt_outbounds rt) member)) && negb (bool_decide (member ∈ leaves)) then leaves ++ [member]
        else leaves)
      leaves (group_visible_members rt group_name)
  end.

Definition group_leaf_members (rt : Runtime) (group : string) : list string := expand_leaves GROUP_MAX_DEPTH rt group ∅ [].

(** What the control plane shows as the next hop of a group *)
Definition shown_member (rt : Runtime) (g : GroupSelector) : string :=
  let members := truncate_members g (List.filter (fun m => negb (is_feed_placeholder m)) (filtered_members g (member_protocol rt))) in
  let default_selected := gp_default_selected (sel_plan g) in
  let next :=
    match (match sel_last_pick g with Some m => if bool_decide (m ∈ members) then Some m else None | None => None end) with
    | Some m => m
    | None => if negb (bool_decide (default_selected = "")) && bool_decide (default_selected ∈ members) then default_selected
              else match head members with Some m => m | None => gp_empty_fallback (sel_plan g) end
    end in
  if bool_decide (to_ascii_uppercase next = "REJECT") then "BLOCK" else next.

(** The loop of [current_group_chain]: [outward] in the order of the walk *)
Fixpoint chain_walk (rounds : nat) (rt : Runtime) (current : string) (visited : gset string) (outward : list string) : list string :=
  match rounds with
  | O => ["BLOCK"]
  | S rounds =>
    if bool_decide (current ∈ visited) then ["BLOCK"] else
    match rt_groups rt !! current with
    | None => rev (outward ++ [current])
    | Some g => chain_walk rounds rt (shown_member rt g) ({[current]} ∪ visited) (outward ++ [current])
    end
  end.

Definition current_group_chain (rt : Runtime) (group : string) : list string := chain_walk GROUP_MAX_DEPTH rt group ∅ [].

End resolve.
