(* ===== verification/GroupResolveSpec.v ===== *)
(** * Resolution of groups: what a flow can end on

    Proofs about [GroupResolve.v].  A run-time state is [runtime_ok] when DIRECT and BLOCK are
    registered, every group is stored under its name, has a sane number of members, is no chain, and
    the choices the tester remembers for it are members of it; picks keep that.  [resolves] is the
    reading of a chain: a member, the fallback of an empty group, a group below, or BLOCK. *)

From stdpp Require Import base list gmap strings numbers option relations pretty.
From S2P Require Import Prelude Net Text TextSplit Instances Health RouteModel RouteMatch RouteInstances RouteEngine GroupSelect GroupResolve RouteCompile RouteConfig DnsInstances.

(** ** The registry keeps its built-in outbounds *)

Definition builtin (r : OutboundRegistry) : Prop := is_Some (r !! "DIRECT") /\ is_Some (r !! "BLOCK").

Lemma registry_new_builtin : builtin OutboundRegistry_new.
Proof. split; eexists; vm_compute; reflexivity. Qed.

Lemma registry_insert_builtin r name o : builtin r -> builtin (OutboundRegistry_insert r name o).
Proof. intros [H1 H2]. split; apply lookup_insert_is_Some'; by right. Qed.

Lemma registry_remove_builtin r name : builtin r -> builtin (OutboundRegistry_remove r name).1.
Proof.
  intros [H1 H2]. unfold OutboundRegistry_remove. case_bool_decide as Hn; [done|].
  split; apply lookup_delete_is_Some; (split; [intros ->; apply Hn; auto|done]).
Qed.

(** ** What the tester remembers *)

Definition remembered (tester : option UrlTester) (name : string) (P : string -> Prop) : Prop :=
  match tester with
  | Some t => forall w r, ut_fast_pick t !! name = Some (Some (w, r)) -> P (fp_node r)
  | None => True
  end.

Lemma remembered_same t t' name P : ut_fast_pick t' = ut_fast_pick t -> remembered (Some t) name P -> remembered (Some t') name P.
Proof. cbn. by intros ->. Qed.

Lemma activate_group_picks t group revision members url es ud interval idle now :
  ut_fast_pick (activate_group t group revision members url es ud interval idle now) = ut_fast_pick t.
Proof.
  assert (Hf : forall t0, ut_fast_pick (foldl (fun t member => update_stats t member url (fun st => request_interval st interval now)) t0 members) = ut_fast_pick t0).
  { induction members as [|m members IH]; intros t0; [done|]. cbn. by rewrite IH. }
  unfold activate_group. destruct (ut_schedules t !! group) as [s|]; [destruct (_ =? _)|]; cbn; auto.
Qed.

Lemma set_fast_pick_remembered t group e name P :
  remembered (Some t) name P -> (name = group -> forall w r, e = Some (w, r) -> P (fp_node r)) -> remembered (Some (set_fast_pick t group e)) name P.
Proof.
  cbn. intros Ht He w r. destruct (decide (group = name)) as [->|Hne]; [rewrite lookup_insert_eq|rewrite lookup_insert_ne by done; apply Ht].
  intros Heq. injection Heq as ->. by eapply He.
Qed.

Lemma pick_fast_remembered t group members url tolerance now name P :
  remembered (Some t) name P -> (name = group -> forall m, m ∈ members -> P m) -> remembered (Some (pick_fast t group members url tolerance now).1) name P.
Proof.
  intros Ht Hm. unfold pick_fast. destruct (fast_pick_hit _ _ _ _); [done|].
  pose proof (scan_least t url members) as Hl. destruct (scan_best t url members None) as [[nb nd]|]; [apply least_member in Hl as [Hnb _]|clear Hl].
  - destruct (default None (ut_fast_pick t !! group)) as [[w prev]|]; [|apply set_fast_pick_remembered; [done|intros -> ? ? [= _ <-]; auto]].
    case_bool_decide; cbn [andb]; [|apply set_fast_pick_remembered; [done|intros -> ? ? [= _ <-]; auto]].
    destruct (_ && _); (apply set_fast_pick_remembered; [done|intros -> ? ? [= _ <-]; auto]).
  - destruct (ut_fast_pick t !! group) as [[[w prev]|]|] eqn:E; cbn [default]; (apply set_fast_pick_remembered; [done|]); [|done|done].
    intros -> w' r [= <- <-]. by apply (Ht w).
Qed.

Section resolve.
Context `{GroupLib, GroupRandom, StickyCache, SmartApi, IpNetLib, !RouteLib, !RulesetIndexApi, NetText, StrCase}.

(** ** One pick *)

Lemma prepare_remembered g members url tester clock name P : remembered tester name P -> remembered (prepare_tester g members url tester clock) name P.
Proof.
  intros Ht. unfold prepare_tester. case_bool_decide; [done|]. destruct tester as [t|]; [|done].
  cbn [fmap option_fmap option_map]. eapply remembered_same; [|exact Ht]. apply activate_group_picks.
Qed.

Lemma strategy_remembered g meta members url tester clock g' t' r name P : pick_strategy g meta members url tester clock = Ok (g', t', r) ->
  remembered tester name P -> (name = gp_name (sel_plan g) -> forall m, m ∈ members -> P m) -> remembered t' name P.
Proof.
  unfold pick_strategy. intros E Ht Hm. destruct (gp_choose (sel_plan g)); try by simplify_eq.
  - unfold pick_url_test in E. destruct tester as [t|]; [|by simplify_eq].
    pose proof (pick_fast_remembered t (gp_name (sel_plan g)) (url_test_candidates g t members url) url (go_tolerance (sel_opts g)) (cl_instant clock) name P Ht) as Hf.
    destruct (pick_fast _ _ _ _ _ _) as [t1 r1]. simplify_eq. apply Hf. intros -> m Hc%url_test_candidates_sub. auto.
  - destruct (pick_load_balance _ _ _ _ _ _) as [[g1 r1]| |]; cbn in E; by simplify_eq.
  - destruct (pick_random _ _ _ _); cbn in E; by simplify_eq.
  - destruct (pick_weighted _ _ _ _); cbn in E; by simplify_eq.
Qed.

(** The selector refuses: the group does not relay UDP, or has too few members that can carry the flow. *)
Definition refuses (g : GroupSelector) (network : string) (eligible : string -> bool) (protocol_of : string -> string) : Prop :=
  (network = "udp" /\ go_disable_udp (sel_opts g) = true) \/ Z.of_nat (length (selectable g eligible protocol_of)) < Z.max (gp_min_members (sel_plan g)) 1.

(** A pick ends, keeps the plan, names a member unless the selector refuses, and the tester remembers members only. *)
Lemma pick_step g meta tester eligible protocol_of clock :
  Z.of_nat (length (gp_members (sel_plan g))) < 2 ^ 31 -> gp_choose (sel_plan g) <> Chain ->
  remembered tester (gp_name (sel_plan g)) (fun m => m ∈ gp_members (sel_plan g)) ->
  exists g' t' r, pick_eligible_with_protocol g meta tester eligible protocol_of clock = Ok (g', t', r) /\ sel_plan g' = sel_plan g
    /\ (forall n, r = Some n -> n ∈ gp_members (sel_plan g)) /\ (r = None -> refuses g (gm_network meta) eligible protocol_of)
    /\ (forall name P, remembered tester name P -> (name = gp_name (sel_plan g) -> forall m, m ∈ gp_members (sel_plan g) -> P m) -> remembered t' name P).
Proof.
  intros Hl Hc Hr. unfold pick_eligible_with_protocol. destruct (_ && _) eqn:Eu.
  { apply andb_true_iff in Eu as [?%bool_decide_eq_true ?]. exists g, tester, None. split_and!; try done. intros _. by left. }
  set (members := selectable g eligible protocol_of). assert (Hin : forall m, m ∈ members -> m ∈ gp_members (sel_plan g)) by (intros m Hm; by apply selectable_spec in Hm as [? _]).
  destruct (Z.ltb_spec (Z.of_nat (length members)) (Z.max (gp_min_members (sel_plan g)) 1)) as [Hlt|Hge]; [exists g, tester, None; split_and!; try done; intros _; by right|].
  assert (Hne : members <> []) by (intros Hz; rewrite Hz in Hge; cbn in Hge; lia). pose proof (selectable_length g eligible protocol_of) as Hs. fold members in Hs.
  set (url := probe_url g tester). set (t0 := prepare_tester g members url tester clock).
  assert (Hp : forall name P, remembered tester name P -> remembered t0 name P) by (intros; by apply prepare_remembered).
  destruct (pick_pin g members url t0) as [n|] eqn:Ep.
  - apply pin_member in Ep as [Hn _]. eexists _, _, _. split; [done|]. split_and!; [done|intros ? [= <-]; auto|done|auto].
  - destruct (strategy_spec g meta members url t0 clock Hne ltac:(lia)) as (g1 & t1 & n & E & Hn & _). rewrite E. cbn [mbind outcome_bind].
    eexists _, _, _. split; [done|]. split_and!; [by apply strategy_keeps in E as [_ ?]| |done|].
    + intros ? [= <-]. destruct Hn as [Hn|[(? & _)|(_ & t & w & r & Et & Ew & <- & _)]]; [auto|done|].
      pose proof (Hp _ _ Hr) as Hr0. rewrite Et in Hr0. by apply (Hr0 w).
    + intros name P Ht Hm. eapply strategy_remembered; [exact E|by apply Hp|]. intros Hname m ?. auto.
Qed.

(** ** The state *)

Record runtime_ok (rt : Runtime) : Prop := mkRuntimeOk {
  ro_builtin : builtin (rt_outbounds rt);
  ro_name : forall g sel, rt_groups rt !! g = Some sel -> gp_name (sel_plan sel) = g;
  ro_small : forall g sel, rt_groups rt !! g = Some sel -> Z.of_nat (length (gp_members (sel_plan sel))) < 2 ^ 31;
  ro_no_chain : forall g sel, rt_groups rt !! g = Some sel -> gp_choose (sel_plan sel) <> Chain;
  ro_remembered : forall g sel, rt_groups rt !! g = Some sel -> remembered (rt_tester rt) g (fun m => m ∈ gp_members (sel_plan sel))
}.

(** What a pick does not change *)
Definition same_config (rt rt' : Runtime) : Prop :=
  rt_outbounds rt' = rt_outbounds rt /\ rt_route rt' = rt_route rt /\ rt_mode rt' = rt_mode rt /\ rt_final rt' = rt_final rt
  /\ forall g, sel_plan <$> rt_groups rt' !! g = sel_plan <$> rt_groups rt !! g.

#[global] Instance same_config_preorder : PreOrder same_config.
Proof.
  split; [done|]. intros a b c (A1 & A2 & A3 & A4 & A5) (B1 & B2 & B3 & B4 & B5).
  split_and!; [congruence..|]. intros g. by rewrite B5, A5.
Qed.

Lemma same_config_group rt rt' g sel : same_config rt rt' -> rt_groups rt' !! g = Some sel -> exists sel0, rt_groups rt !! g = Some sel0 /\ sel_plan sel = sel_plan sel0.
Proof.
  intros (_ & _ & _ & _ & Hg) E. specialize (Hg g). rewrite E in Hg. destruct (rt_groups rt !! g) as [sel0|]; [|done].
  exists sel0. split; [done|]. cbn in Hg. congruence.
Qed.

Lemma note_group_ok rt group g g' t' : runtime_ok rt -> rt_groups rt !! group = Some g -> sel_plan g' = sel_plan g ->
  (forall name P, remembered (rt_tester rt) name P -> (name = gp_name (sel_plan g) -> forall m, m ∈ gp_members (sel_plan g) -> P m) -> remembered t' name P) ->
  runtime_ok (note_group rt group g' t') /\ same_config rt (note_group rt group g' t').
Proof.
  intros Hok Eg Hp Hm. assert (Hs : same_config rt (note_group rt group g' t')).
  { split_and!; try done. intros n. cbn. destruct (decide (group = n)) as [<-|]; [by rewrite lookup_insert_eq, Eg; cbn; rewrite Hp|by rewrite lookup_insert_ne]. }
  split; [|done]. constructor; [apply Hok| | | |]; intros n sel E; destruct (same_config_group _ _ _ _ Hs E) as (sel0 & E0 & ->).
  - by apply (ro_name rt Hok).
  - by apply (ro_small rt Hok n).
  - by apply (ro_no_chain rt Hok n).
  - cbn. apply Hm; [by apply (ro_remembered rt Hok)|]. intros ->. rewrite (ro_name rt Hok _ _ Eg) in E0. rewrite Eg in E0. by injection E0 as <-.
Qed.

(** ** Reading a chain *)

Definition member_of (rt : Runtime) (g m : string) : Prop := exists sel, rt_groups rt !! g = Some sel /\ m ∈ gp_members (sel_plan sel).
Definition fallback_of (rt : Runtime) (g n : string) : Prop := exists sel, rt_groups rt !! g = Some sel /\ n = fallback_label (gp_empty_fallback (sel_plan sel)).

(** [blocked] says whether a search may be given up. *)
Inductive resolves (rt : Runtime) (blocked : Prop) : string -> list string -> Prop :=
| resolves_blocked g : blocked -> resolves rt blocked g ["BLOCK"]
| resolves_member g m : member_of rt g m -> resolves rt blocked g [m; g]
| resolves_fallback g n : fallback_of rt g n -> resolves rt blocked g [n; g]
| resolves_nested g m chain : member_of rt g m -> resolves rt blocked m chain -> resolves rt blocked g (chain ++ [g]).

Lemma member_of_same rt rt' g m : same_config rt rt' -> member_of rt' g m -> member_of rt g m.
Proof. intros Hs (sel & E & Hm). destruct (same_config_group _ _ _ _ Hs E) as (sel0 & E0 & Hp). exists sel0. by rewrite <- Hp. Qed.

Lemma fallback_of_same rt rt' g n : same_config rt rt' -> fallback_of rt' g n -> fallback_of rt g n.
Proof. intros Hs (sel & E & Hm). destruct (same_config_group _ _ _ _ Hs E) as (sel0 & E0 & Hp). exists sel0. by rewrite <- Hp. Qed.

Lemma resolves_same rt rt' blocked g chain : same_config rt rt' -> resolves rt' blocked g chain -> resolves rt blocked g chain.
Proof.
  intros Hs. induction 1; [by apply resolves_blocked|apply resolves_member|apply resolves_fallback|eapply resolves_nested; [|done]];
    eauto using member_of_same, fallback_of_same.
Qed.

(** The outbound of a chain was named by a group below the one asked for. *)
Lemma resolves_named rt blocked g chain : resolves rt blocked g chain -> forall n, head chain = Some n -> n = "BLOCK" \/ exists g', rtc (member_of rt) g g' /\ (member_of rt g' n \/ fallback_of rt g' n).
Proof.
  induction 1 as [g _|g m Hm|g m Hf|g m chain Hm Hr IH]; intros n Hn.
  - left. cbn in Hn. congruence.
  - injection Hn as <-. right. exists g. split; [done|by left].
  - injection Hn as <-. right. exists g. split; [done|by right].
  - destruct chain as [|x chain]; [inversion Hr; destruct chain; discriminate|]. destruct (IH n Hn) as [->|(g' & Hg & Hx)]; [by left|right].
    exists g'. split; [by eapply rtc_l|done].
Qed.

Lemma resolves_unknown rt blocked g chain : rt_groups rt !! g = None -> resolves rt blocked g chain -> chain = ["BLOCK"].
Proof. intros Hn. inversion 1; subst; [done|..]; repeat match goal with X : member_of _ _ _ |- _ => destruct X as (? & ? & _) | X : fallback_of _ _ _ |- _ => destruct X as (? & ? & _) end; congruence. Qed.

(** ** A resolved pick *)

Record sound_pick (rt : Runtime) (blocked : Prop) (group : string) (levels : nat) (p : ResolvedGroupPick) : Prop := mkSound {
  sp_chain : resolves rt blocked group (rg_chain p);
  sp_label : head (rg_chain p) = Some (rg_label p);
  sp_registered : rt_outbounds rt !! rg_label p = Some (rg_outbound p);
  sp_length : (length (rg_chain p) <= S levels)%nat
}.

Lemma sound_same rt rt' blocked group levels p : same_config rt rt' -> sound_pick rt' blocked group levels p -> sound_pick rt blocked group levels p.
Proof. intros Hs [S1 S2 S3 S4]. constructor; [by eapply resolves_same|done| |done]. by destruct Hs as (<- & _). Qed.

Lemma sound_push rt blocked g m levels p : member_of rt g m -> sound_pick rt blocked m levels p -> sound_pick rt blocked g (S levels) (chain_push p g).
Proof.
  intros Hm [S1 S2 S3 S4]. constructor; cbn; [by eapply resolves_nested| |done|rewrite length_app; cbn; lia].
  destruct (rg_chain p); [done|]. by cbn in *.
Qed.

Lemma blocked_ok rt (blocked : Prop) group levels : builtin (rt_outbounds rt) -> exists p, blocked_group_pick rt = Ok p /\ rg_label p = "BLOCK" /\ (blocked -> sound_pick rt blocked group levels p).
Proof.
  intros [_ [o Ho]]. unfold blocked_group_pick, must_get, OutboundRegistry_get. rewrite Ho. eexists. split; [done|].
  split; [done|]. intros Hb. constructor; [by apply resolves_blocked|done|done|cbn; lia].
Qed.

(** The fallback of a group is registered. *)
Definition fallback_registered (rt : Runtime) (g : GroupSelector) : Prop := is_Some (rt_outbounds rt !! fallback_label (gp_empty_fallback (sel_plan g))).

Lemma empty_ok rt (blocked : Prop) g group levels : builtin (rt_outbounds rt) -> rt_groups rt !! group = Some g -> blocked \/ fallback_registered rt g ->
  exists p, empty_group_pick rt g group = Ok p /\ sound_pick rt blocked group (S levels) p.
Proof.
  intros Hb Eg Hf. unfold empty_group_pick, fallback_registered, OutboundRegistry_get in *. set (label := fallback_label _) in *.
  destruct (rt_outbounds rt !! label) as [o|] eqn:Eo.
  - eexists. split; [done|]. constructor; [apply resolves_fallback; by exists g|done|done|cbn; lia].
  - destruct Hf as [Hf|[? ?]]; [|done]. destruct (blocked_ok rt blocked group (S levels) Hb) as (p & -> & _ & Hp). eauto.
Qed.

Lemma find_map_some {A B} (f : A -> option B) l b : find_map f l = Some b -> exists a, a ∈ l /\ f a = Some b.
Proof.
  unfold find_map. induction l as [|a l IH]; [done|]. cbn. destruct (f a) as [b'|] eqn:E.
  - intros [= ->]. exists a. split; [apply list_elem_of_here|done].
  - intros (x & Hx & Hf)%IH. exists x. split; [by apply list_elem_of_further|done].
Qed.

Lemma filtered_member_of rt group g protocol_of m : rt_groups rt !! group = Some g -> m ∈ filtered_members g protocol_of -> member_of rt group m.
Proof. intros Eg [_ Hm]%list_elem_of_filter. by exists g. Qed.

(** The carrier of an error, seen from the group that pushes itself *)
Lemma first_resolvable_sound rt blocked group levels : forall member visiting p, member_of rt group member ->
  first_resolvable_member levels rt member visiting = Some p -> sound_pick rt blocked group (S levels) (chain_push p group).
Proof.
  revert group. induction levels as [|levels IH]; intros group member visiting p Hm; cbn [first_resolvable_member]; unfold OutboundRegistry_get;
    (destruct (rt_outbounds rt !! member) as [o|] eqn:Eo;
     [intros [= <-]; constructor; cbn; [by apply resolves_member|done|done|lia]|]); [done|].
  case_bool_decide; [done|]. destruct (rt_groups rt !! member) as [g|] eqn:Eg; [|done].
  destruct (find_map _ _) as [q|] eqn:Ef; [|done]. intros [= <-]. apply find_map_some in Ef as (child & Hc & Hq).
  destruct (is_feed_placeholder child); [done|]. eapply sound_push; [exact Hm|]. eapply IH; [|exact Hq]. by eapply filtered_member_of.
Qed.

(** A search that is never given up: known groups without a cycle, registered fallbacks, levels enough *)
Inductive safe (rt : Runtime) : nat -> string -> gset string -> Prop :=
| safe_group levels group visiting g : group ∉ visiting -> rt_groups rt !! group = Some g -> fallback_registered rt g ->
    (forall m, m ∈ gp_members (sel_plan g) -> is_Some (rt_groups rt !! m) -> safe rt levels m ({[group]} ∪ visiting)) -> safe rt (S levels) group visiting.

Lemma safe_same rt rt' levels group visiting : same_config rt rt' -> safe rt levels group visiting -> safe rt' levels group visiting.
Proof.
  intros Hs. pose proof Hs as (Ho & _ & _ & _ & Hg). induction 1 as [levels group visiting g Hv Eg Hf Hm IH].
  pose proof (Hg group) as Hgg. rewrite Eg in Hgg. destruct (rt_groups rt' !! group) as [g'|] eqn:Eg'; [|done]. cbn in Hgg. injection Hgg as Hp.
  econstructor; [done|exact Eg'|unfold fallback_registered in *; by rewrite Ho, Hp|]. rewrite Hp. intros m Hin Hk. apply IH; [done|].
  destruct Hk as [k Hk]. specialize (Hg m). rewrite Hk in Hg. destruct (rt_groups rt !! m); [eauto|done].
Qed.

Lemma pick_in_group_ok (blocked : Prop) levels : forall rt group ctx visiting clocks, runtime_ok rt -> blocked \/ safe rt levels group visiting ->
  exists rt' p, pick_in_group_inner levels rt group ctx visiting clocks = Ok (rt', p) /\ runtime_ok rt' /\ same_config rt rt' /\ sound_pick rt blocked group levels p.
Proof.
  induction levels as [|levels IH]; intros rt group ctx visiting clocks Hok Hsafe; cbn [pick_in_group_inner]; pose proof (ro_builtin rt Hok) as Hb.
  - destruct Hsafe as [Hb'|Hs]; [|by inversion Hs]. destruct (blocked_ok rt blocked group 0 Hb) as (p & -> & _ & Hp). exists rt, p; split_and!; (done || auto).
  - destruct (blocked_ok rt blocked group (S levels) Hb) as (pb & Eb & _ & Hblocked). rewrite Eb. cbn [mbind outcome_bind].
    case_bool_decide as Hv; [destruct Hsafe as [?|Hs]; [exists rt, pb; split_and!; (done || auto)|by inversion Hs]|].
    destruct (rt_groups rt !! group) as [g|] eqn:Eg; [|destruct Hsafe as [?|Hs]; [exists rt, pb; split_and!; (done || auto)|inversion Hs; congruence]].
    pose proof (ro_name rt Hok _ _ Eg) as Hname.
    match goal with |- context [pick_eligible_with_protocol ?a ?b ?c ?d ?e ?f] =>
      destruct (pick_step a b c d e f (ro_small rt Hok _ _ Eg) (ro_no_chain rt Hok _ _ Eg)) as (g' & t' & r & -> & Hp & Hr & _ & Hm);
        [rewrite Hname; by apply (ro_remembered rt Hok)|] end.
    cbn [mbind outcome_bind]. destruct (note_group_ok rt group g g' t' Hok Eg Hp Hm) as [Hok1 Hs1]. set (rt1 := note_group rt group g' t') in *.
    assert (Eg1 : rt_groups rt1 !! group = Some g') by apply lookup_insert_eq.
    assert (Hf : blocked \/ fallback_registered rt1 g').
    { destruct Hsafe as [?|Hs]; [by left|right]. inversion Hs as [? ? ? g0 _ E0 Hf0 _]; subst. replace g0 with g in Hf0 by congruence. unfold fallback_registered in *. by rewrite Hp. }
    destruct (empty_ok rt1 blocked g' group levels (ro_builtin _ Hok1) Eg1 Hf) as (pe & -> & Hpe). cbn [mbind outcome_bind].
    assert (Hempty : exists rt' p, Ok (rt1, pe) = Ok (rt', p) /\ runtime_ok rt' /\ same_config rt rt' /\ sound_pick rt blocked group (S levels) p)
      by (exists rt1, pe; split_and!; try done; by eapply sound_same).
    destruct r as [name|].
    + assert (Hmem : member_of rt group name) by (exists g; auto). unfold OutboundRegistry_get. destruct (rt_outbounds rt1 !! name) as [o|] eqn:Eo.
      * eexists rt1, _. split; [done|]. split_and!; [done|done|]. constructor; cbn; [by apply resolves_member|done|done|lia].
      * case_bool_decide as Hk; [|done]. destruct (IH rt1 name ctx ({[group]} ∪ visiting) clocks Hok1) as (rt2 & p & -> & Hok2 & Hs2 & Hp2).
        { destruct Hsafe as [?|Hs]; [by left|right]. inversion Hs as [? ? ? g0 _ E0 _ Hsub]; subst. eapply safe_same; [exact Hs1|]. apply Hsub; [replace g0 with g by congruence; auto|].
          destruct Hk as [k Hk]. by destruct (same_config_group _ _ _ _ Hs1 Hk) as (? & ? & _); eauto. }
        cbn [mbind outcome_bind]. eexists rt2, _. split; [done|]. split_and!; [done|by etrans|]. eapply sound_push; [done|by eapply sound_same].
    + destruct (is_udp _); [|done]. destruct (find_map _ _) as [fb|] eqn:Ef; [|done]. apply find_map_some in Ef as (member & Hin & Hfm).
      eexists rt1, _. split; [done|]. split_and!; [done|done|]. eapply sound_same; [done|]. eapply first_resolvable_sound; [|exact Hfm].
      by eapply filtered_member_of.
Qed.

(** ** The whole search *)

(** The member a UDP flow is given when no member can carry it: the first that is registered, however deep *)
Inductive carrier (rt : Runtime) : string -> list string -> Prop :=
| carrier_member g m : member_of rt g m -> is_Some (rt_outbounds rt !! m) -> carrier rt g [m; g]
| carrier_nested g m chain : member_of rt g m -> rt_outbounds rt !! m = None -> carrier rt m chain -> carrier rt g (chain ++ [g]).

(** The selector of the group refuses the flow, with the members judged from here. *)
Definition group_refuses (rt : Runtime) (ctx : FlowContext) (levels : nat) (visiting : gset string) (group : string) : Prop :=
  exists rt' g, same_config rt rt' /\ rt_groups rt' !! group = Some g
    /\ refuses g (network_str (fc_network ctx)) (member_supports_network levels rt' (fc_network ctx) ({[group]} ∪ visiting)) (member_protocol rt').

(** The fallback, or BLOCK when it is not registered *)
Definition fallback_chain (rt : Runtime) (group n : string) : list string := if rt_outbounds rt !! n then [n; group] else ["BLOCK"].

(** How a search with [levels] left below the groups [visiting] ends: each way to BLOCK has its reason. *)
Inductive search (rt : Runtime) (ctx : FlowContext) : nat -> gset string -> string -> list string -> Prop :=
| search_deep visiting g : search rt ctx 0 visiting g ["BLOCK"]
| search_cycle levels visiting g : g ∈ visiting -> search rt ctx (S levels) visiting g ["BLOCK"]
| search_unknown levels visiting g : rt_groups rt !! g = None -> search rt ctx (S levels) visiting g ["BLOCK"]
| search_member levels visiting g m : g ∉ visiting -> member_of rt g m -> is_Some (rt_outbounds rt !! m) -> search rt ctx (S levels) visiting g [m; g]
| search_nested levels visiting g m chain : g ∉ visiting -> member_of rt g m -> rt_outbounds rt !! m = None -> is_Some (rt_groups rt !! m) ->
    search rt ctx levels ({[g]} ∪ visiting) m chain -> search rt ctx (S levels) visiting g (chain ++ [g])
| search_dangling levels visiting g m n : g ∉ visiting -> member_of rt g m -> rt_outbounds rt !! m = None -> rt_groups rt !! m = None -> fallback_of rt g n ->
    search rt ctx (S levels) visiting g (fallback_chain rt g n)
| search_refused levels visiting g n : g ∉ visiting -> group_refuses rt ctx levels visiting g -> fallback_of rt g n -> search rt ctx (S levels) visiting g (fallback_chain rt g n)
| search_carrier levels visiting g chain : g ∉ visiting -> is_udp (fc_network ctx) = true -> group_refuses rt ctx levels visiting g -> carrier rt g chain ->
    search rt ctx (S levels) visiting g chain.

Lemma same_config_sym rt rt' : same_config rt rt' -> same_config rt' rt.
Proof. intros (H1' & H2' & H3' & H4' & H5'). split_and!; [congruence..|]. intros g. by rewrite H5'. Qed.

Lemma same_config_known rt rt' m : same_config rt rt' -> rt_groups rt' !! m = None <-> rt_groups rt !! m = None.
Proof. intros (_ & _ & _ & _ & Hg). specialize (Hg m). destruct (rt_groups rt' !! m), (rt_groups rt !! m); naive_solver. Qed.

Lemma carrier_same rt rt' g chain : same_config rt rt' -> carrier rt' g chain -> carrier rt g chain.
Proof. intros Hs. pose proof Hs as (Ho & _). induction 1; [apply carrier_member|eapply carrier_nested]; rewrite <- ?Ho; eauto using member_of_same. Qed.

Lemma search_same rt rt' ctx levels visiting g chain : same_config rt rt' -> search rt' ctx levels visiting g chain -> search rt ctx levels visiting g chain.
Proof.
  intros Hs. pose proof Hs as (Ho & _). assert (Hrf : forall l v g0, group_refuses rt' ctx l v g0 -> group_refuses rt ctx l v g0).
  { intros l v g0 (rt2 & sel & Hs2 & ?). exists rt2, sel. split; [by etrans|done]. }
  assert (Hfc : forall g0 n, fallback_chain rt' g0 n = fallback_chain rt g0 n) by (intros; unfold fallback_chain; by rewrite Ho).
  assert (Hn : forall m, rt_groups rt' !! m = None <-> rt_groups rt !! m = None) by (intros; by apply same_config_known).
  induction 1 as [| |? ? ? Hu|? ? ? m ? ? Hm|? ? ? m ? ? ? Hm Hk ? IH|? ? ? m n ? ? Hm Hk ?|? ? ? n|? ? ? ? ? ? ? Hc]; rewrite ?Hfc.
  - constructor.
  - by constructor.
  - apply search_unknown. by apply Hn.
  - eapply search_member; [done|by eapply member_of_same|by rewrite <- Ho].
  - eapply search_nested; [done|by eapply member_of_same|by rewrite <- Ho| |done]. apply not_eq_None_Some. rewrite <- Hn. by apply not_eq_None_Some.
  - eapply search_dangling; [done|by eapply member_of_same|by rewrite <- Ho|by apply Hn|by eapply fallback_of_same].
  - eapply search_refused; [done|auto|by eapply fallback_of_same].
  - eapply search_carrier; [done|done|auto|by eapply carrier_same].
Qed.

Lemma first_resolvable_carrier rt levels : forall group member visiting p, member_of rt group member ->
  first_resolvable_member levels rt member visiting = Some p -> carrier rt group (rg_chain p ++ [group]).
Proof.
  induction levels as [|levels IH]; intros group member visiting p Hm; cbn [first_resolvable_member]; unfold OutboundRegistry_get;
    (destruct (rt_outbounds rt !! member) as [o|] eqn:Eo; [intros [= <-]; cbn; apply carrier_member; [done|by rewrite Eo]|]); [done|].
  case_bool_decide; [done|]. destruct (rt_groups rt !! member) as [g|] eqn:Eg; [|done].
  destruct (find_map _ _) as [q|] eqn:Ef; [|done]. intros [= <-]. apply find_map_some in Ef as (child & Hc & Hq).
  destruct (is_feed_placeholder child); [done|]. cbn. eapply carrier_nested; [done|done|]. eapply IH; [|exact Hq]. by eapply filtered_member_of.
Qed.

Lemma empty_chain rt g group p : rt_groups rt !! group = Some g -> empty_group_pick rt g group = Ok p ->
  rg_chain p = fallback_chain rt group (fallback_label (gp_empty_fallback (sel_plan g))) /\ fallback_of rt group (fallback_label (gp_empty_fallback (sel_plan g))).
Proof.
  intros Eg. unfold empty_group_pick, fallback_chain, OutboundRegistry_get. intros E. split; [|by exists g].
  destruct (rt_outbounds rt !! fallback_label _); [by injection E as <-|]. unfold blocked_group_pick in E. destruct (must_get rt "BLOCK"); cbn in E; [by injection E as <-|done|done].
Qed.

Lemma blocked_chain rt p : blocked_group_pick rt = Ok p -> rg_chain p = ["BLOCK"].
Proof. unfold blocked_group_pick. destruct (must_get rt "BLOCK"); cbn; [by intros [= <-]|done|done]. Qed.

Lemma pick_in_group_search levels : forall rt group ctx visiting clocks rt' p, runtime_ok rt ->
  pick_in_group_inner levels rt group ctx visiting clocks = Ok (rt', p) -> search rt ctx levels visiting group (rg_chain p).
Proof.
  induction levels as [|levels IH]; intros rt group ctx visiting clocks rt' p Hok; cbn [pick_in_group_inner].
  - destruct (blocked_group_pick rt) eqn:Eb; cbn; [|done..]. intros [= <- <-]. rewrite (blocked_chain _ _ Eb). apply search_deep.
  - assert (Hblocked : (p0 ← blocked_group_pick rt; Ok (rt, p0)) = Ok (rt', p) -> rg_chain p = ["BLOCK"]).
    { destruct (blocked_group_pick rt) eqn:Eb; cbn; [|done..]. intros [= <- <-]. by apply (blocked_chain rt). }
    case_bool_decide as Hv; [intros ->%Hblocked; by apply search_cycle|].
    destruct (rt_groups rt !! group) as [g|] eqn:Eg; [|intros ->%Hblocked; by apply search_unknown]. clear Hblocked.
    match goal with |- context [pick_eligible_with_protocol ?a ?b ?c ?d ?e ?f] =>
      destruct (pick_step a b c d e f (ro_small rt Hok _ _ Eg) (ro_no_chain rt Hok _ _ Eg)) as (g' & t' & r & -> & Hp & Hr & Hnone & Hm);
        [rewrite (ro_name rt Hok _ _ Eg); by apply (ro_remembered rt Hok)|] end.
    cbn [mbind outcome_bind]. destruct (note_group_ok rt group g g' t' Hok Eg Hp Hm) as [Hok1 Hs1]. set (rt1 := note_group rt group g' t') in *.
    assert (Eg1 : rt_groups rt1 !! group = Some g') by apply lookup_insert_eq.
    assert (Hempty : (p0 ← empty_group_pick rt1 g' group; Ok (rt1, p0)) = Ok (rt', p) -> exists n, rg_chain p = fallback_chain rt group n /\ fallback_of rt group n).
    { destruct (empty_group_pick rt1 g' group) as [pe| |] eqn:Ee; cbn; [|done..]. intros [= <- <-]. destruct (empty_chain _ _ _ _ Eg1 Ee) as [-> Hf].
      eexists. split; [reflexivity|by eapply fallback_of_same]. }
    destruct r as [name|].
    + assert (Hmem : member_of rt group name) by (exists g; auto). unfold OutboundRegistry_get. destruct (rt_outbounds rt1 !! name) as [o|] eqn:Eo.
      * intros [= <- <-]. cbn. apply search_member; [done|done|]. cbn in Eo. by rewrite Eo.
      * case_bool_decide as Hk.
        -- destruct (pick_in_group_inner levels rt1 name ctx ({[group]} ∪ visiting) clocks) as [[rt2 q]| |] eqn:En; cbn; [|done..]. intros [= <- <-].
           apply (IH rt1) in En; [|done]. cbn. eapply search_nested; [done|done|done| |by eapply search_same].
           apply not_eq_None_Some. rewrite <- (same_config_known rt rt1 name Hs1). by apply not_eq_None_Some.
        -- intros (n & -> & Hf)%Hempty. eapply search_dangling; [done|done|done| |done]. apply (same_config_known rt rt1 name Hs1), eq_None_not_Some, Hk.
    + assert (Href : group_refuses rt ctx levels visiting group) by (exists rt, g; split_and!; [done|done|by apply Hnone]).
      destruct (is_udp (fc_network ctx)) eqn:Eu; [|intros (n & -> & Hf)%Hempty; by eapply search_refused].
      destruct (find_map _ _) as [fb|] eqn:Ef; [|intros (n & -> & Hf)%Hempty; by eapply search_refused].
      apply find_map_some in Ef as (member & Hin & Hfm). intros [= <- <-]. cbn. apply search_carrier; [done|done|done|].
      eapply carrier_same; [exact Hs1|]. eapply first_resolvable_carrier; [|exact Hfm]. by eapply filtered_member_of.
Qed.

(** ** The search for DNS upstreams *)

Lemma jump_no_error tries k members url tester : no_error (jump_tries tries k members url tester).
Proof.
  revert k. induction tries as [|tries IH]; intros k; cbn [jump_tries]; [done|]. apply no_error_bind; [apply no_error_index|]. intros m. by case_match.
Qed.

Lemma rr_no_error offs start members url tester : no_error (rr_scan offs start members url tester).
Proof.
  revert start. induction offs as [|offs IH]; intros start; cbn [rr_scan]; [done|]. apply no_error_bind; [apply no_error_index|]. intros m. by case_match.
Qed.

Ltac no_error := repeat match goal with
  | |- no_error (mbind _ _) => apply no_error_bind; [|intros]
  | |- no_error (index _ _) => apply no_error_index
  | |- no_error (jump_tries _ _ _ _ _) => apply jump_no_error
  | |- no_error (rr_scan _ _ _ _ _) => apply rr_no_error
  | |- no_error (Ok _) => exact I
  | |- no_error (match ?e with _ => _ end) => destruct e
  end.

(** A selector can panic but reports no error. *)
Lemma pick_no_error g meta tester eligible protocol_of clock e : pick_eligible_with_protocol g meta tester eligible protocol_of clock <> Err e.
Proof.
  intros E. assert (Hn : no_error (pick_eligible_with_protocol g meta tester eligible protocol_of clock)); [|by rewrite E in Hn]. clear E.
  unfold pick_eligible_with_protocol, pick_strategy, pick_load_balance, lb_consistent_hashing, lb_round_robin, lb_sticky, pick_random, pick_weighted. no_error.
Qed.

(** What the search for a flow does when the search for an upstream gives [r] *)
Definition agrees (r flow : outcome (Runtime * ResolvedGroupPick)) : Prop :=
  match r with
  | Ok (rt, p) => flow = Ok (rt, p)
  | Err _ => exists rt p, flow = Ok (rt, p) /\ rg_label p = "BLOCK"
  | Panic => flow = Panic
  end.

Lemma agrees_bind r flow (k : Runtime * ResolvedGroupPick -> outcome (Runtime * ResolvedGroupPick)) :
  agrees r flow -> (forall rt p, exists rt' p', k (rt, p) = Ok (rt', p') /\ rg_label p' = rg_label p) -> agrees (mbind k r) (mbind k flow).
Proof.
  intros Ha Hk. destruct r as [[rt p]|e|]; cbn [agrees] in Ha |- *.
  - subst flow. cbn [mbind outcome_bind]. destruct (Hk rt p) as (rt' & p' & -> & _). done.
  - destruct Ha as (rt & p & -> & Hp). cbn [mbind outcome_bind agrees]. destruct (Hk rt p) as (rt' & p' & -> & Hl). exists rt', p'. by rewrite Hl.
  - by subst flow.
Qed.

Lemma dns_group_agrees levels : forall rt group ctx visiting clocks, is_Some (rt_outbounds rt !! "BLOCK") -> fc_network ctx = NkTcp -> fc_ip ctx = None ->
  agrees (dns_pick_group levels rt group (fc_host ctx) (fc_port ctx) NkTcp visiting clocks) (pick_in_group_inner levels rt group ctx visiting clocks).
Proof.
  induction levels as [|levels IH]; intros rt group ctx visiting clocks Hb Hn Hip; cbn [dns_pick_group pick_in_group_inner];
    (assert (Hblocked : exists p, blocked_group_pick rt = Ok p /\ rg_label p = "BLOCK")
      by (destruct Hb as [o Ho]; unfold blocked_group_pick, must_get, OutboundRegistry_get; rewrite Ho; eauto));
    destruct Hblocked as (blocked & Eb & Hl); rewrite Eb; cbn [mbind outcome_bind]; [cbn; eauto|].
  case_bool_decide; [cbn; eauto|]. destruct (rt_groups rt !! group) as [g|]; [|cbn; eauto]. unfold flow_meta. rewrite Hn, Hip.
  destruct (pick_eligible_with_protocol _ _ _ _ _ _) as [[[g' t'] r]|e|] eqn:Ep; cbn [mbind outcome_bind]; [|by exfalso; eapply pick_no_error|done].
  set (rt1 := note_group rt group g' t').
  assert (Hfall : forall label, label = fallback_label (gp_empty_fallback (sel_plan g')) ->
    agrees (match OutboundRegistry_get (rt_outbounds rt1) label with Some o => Ok (rt1, mkResolved label o [label; group]) | None => Err NotFound end)
      (mbind (fun p => Ok (rt1, p)) (empty_group_pick rt1 g' group))).
  { intros label ->. unfold empty_group_pick. destruct (OutboundRegistry_get _ _) as [o|]; [done|].
    change (blocked_group_pick rt1) with (blocked_group_pick rt). rewrite Eb. cbn. eauto. }
  destruct r as [name|]; [|cbn [is_udp]; by apply Hfall].
  destruct (OutboundRegistry_get _ name) as [o|]; [done|]. case_bool_decide; [|by apply Hfall].
  apply agrees_bind; [by apply IH|]. intros rt2 p. eauto.
Qed.

(** ** Theorems *)

Lemma flow_pick_ok rt ctx clocks : runtime_ok rt ->
  exists rt' k, pick_outbound_for_context rt ctx clocks = Ok (rt', k) /\ runtime_ok rt' /\ same_config rt rt'
  /\ rk_decision k = dd_decision (flow_decision rt ctx)
  /\ let p := rk_resolved k in
     rt_outbounds rt !! rg_label p = Some (rg_outbound p)
     /\ match rk_decision k with
        | DDirect => rg_label p = "DIRECT"
        | DBlock => rg_label p = "BLOCK"
        | DGroup g =>
          resolves rt True g (rg_chain p) /\ (length (rg_chain p) <= S GROUP_MAX_DEPTH)%nat
          /\ (rt_groups rt !! g = None -> rg_label p = "BLOCK")
          /\ (rg_label p = "BLOCK" \/ exists g', rtc (member_of rt) g g' /\ (member_of rt g' (rg_label p) \/ fallback_of rt g' (rg_label p)))
        end.
Proof.
  intros Hok. pose proof (ro_builtin rt Hok) as [[od Hd] [ob Hb]]. unfold pick_outbound_for_context, must_get, OutboundRegistry_get.
  destruct (dd_decision (flow_decision rt ctx)) as [| |g] eqn:Ed.
  - rewrite Hd. eexists rt, _. split; [done|]. split_and!; done.
  - rewrite Hb. eexists rt, _. split; [done|]. split_and!; done.
  - destruct (pick_in_group_ok True GROUP_MAX_DEPTH rt g ctx ∅ clocks Hok (or_introl I)) as (rt' & p & E & Hok' & Hs & [S1 S2 S3 S4]).
    unfold pick_in_group. rewrite E. cbn [mbind outcome_bind]. eexists rt', _. split; [done|]. cbn [rk_decision rk_resolved].
    split_and!; try done; [|by eapply resolves_named].
    intros Hu. rewrite (resolves_unknown _ _ _ _ Hu S1) in S2. cbn in S2. congruence.
Qed.


(** [C14] The resolver's upstreams go where flows go: the search for the outbound of a DNS upstream and the
    search for a TCP flow to the same host make the same picks and end on the same outbound and
    chain; where the first reports an error (a cycle, an unknown group, a fallback that is not
    registered), the flow ends on BLOCK. *)
Theorem dns_outbound_agrees rt group host port clocks : is_Some (rt_outbounds rt !! "BLOCK") ->
  agrees (dns_pick_group GROUP_MAX_DEPTH rt group host port NkTcp ∅ clocks) (pick_in_group rt group (for_domain host port NkTcp) clocks).
Proof. intros Hb. by apply (dns_group_agrees GROUP_MAX_DEPTH rt group (for_domain host port NkTcp) ∅ clocks). Qed.

End resolve.

(** ** Witnesses *)
Module GroupResolveWitness.
Import Concrete RouteConfigConcrete.
#[local] Existing Instances GroupSelectWitness.toy_lib GroupSelectWitness.toy_random GroupSelectWitness.toy_lru GroupSelectWitness.toy_smart.

Definition group_plan (name : string) (choose : ChooseStrategy) (members : list string) (max : Z) (fallback : string) (disable_udp : bool) : GroupPlan :=
  mkGroupPlan name choose members 0 max "" fallback true [] [] [] None "" (from_secs 60) (from_secs 600) 50 None "consistent-hashing" "" "" "" 5 (from_secs 5) disable_udp None [] false "".

Definition selector (plan : GroupPlan) : GroupSelector := GroupSelector_new plan 1 [].

Definition with_groups (plans : list GroupPlan) : gmap string GroupSelector := list_to_map ((fun p => (gp_name p, selector p)) <$> plans).

Definition registry : OutboundRegistry :=
  OutboundRegistry_insert (OutboundRegistry_insert OutboundRegistry_new "tcp-node" (mkOutbound "http" false)) "udp-node" (mkOutbound "trojan" true).

Definition empty_engine : RouteEngine := mkEngine (mkPlan [] []) [] None PreparedMatchers_default [].

Definition runtime (plans : list GroupPlan) (mode final : string) : Runtime := mkRuntime registry (with_groups plans) None empty_engine mode final.

Definition clocks (levels : nat) : Clock := mkClock 1000 1000 1000 0.
Definition site (network : NetworkKind) : FlowContext := for_domain "example.com" 443 network.

(** The label and the chain of a group *)
Definition chosen (rt : Runtime) (group : string) (network : NetworkKind) : option (string * list string) :=
  match pick_in_group rt group (site network) clocks with Ok (_, p) => Some (rg_label p, rg_chain p) | _ => None end.

(** A manual group above an automatic one, and two groups that name each other *)
Definition nested : list GroupPlan :=
  [group_plan "main" Manual ["auto"; "tcp-node"] 0 "BLOCK" false; group_plan "auto" Stable ["udp-node"; "tcp-node"] 0 "BLOCK" false;
   group_plan "ping" Manual ["pong"] 0 "BLOCK" false; group_plan "pong" Manual ["ping"] 0 "missing" false].

Lemma with_groups_lookup plans g sel : with_groups plans !! g = Some sel -> exists p, p ∈ plans /\ gp_name p = g /\ sel = selector p.
Proof.
  intros E%elem_of_list_to_map_2. apply list_elem_of_fmap in E as (p & [= -> ->] & Hp). eauto.
Qed.

Lemma runtime_is_ok plans mode final :
  Forall (fun p => Z.of_nat (length (gp_members p)) < 2 ^ 31 /\ gp_choose p <> Chain) plans -> runtime_ok (runtime plans mode final).
Proof.
  intros Hp. constructor; [apply registry_insert_builtin, registry_insert_builtin, registry_new_builtin| | | |done];
    intros g sel (p & Hin & Hg & ->)%with_groups_lookup; [done|..]; rewrite list.Forall_forall in Hp; by apply Hp.
Qed.

Definition nested_runtime : Runtime := runtime nested "global" "main".

Lemma nested_ok : runtime_ok nested_runtime.
Proof. apply runtime_is_ok. apply (bool_decide_unpack _). vm_compute. exact I. Qed.

Definition label_of (r : outcome (Runtime * RoutePick)) : option (string * list string) :=
  match r with Ok (_, k) => Some (rg_label (rk_resolved k), rg_chain (rk_resolved k)) | _ => None end.


(** [ping] and [pong] name each other: the flow is blocked, and the upstream reports the cycle. *)
Lemma dns_outbound_agrees_witness :
  agrees (dns_pick_group GROUP_MAX_DEPTH nested_runtime "main" "example.com" 443 NkTcp ∅ clocks) (pick_in_group nested_runtime "main" (site NkTcp) clocks)
  /\ chosen nested_runtime "main" NkTcp = Some ("udp-node", ["udp-node"; "auto"; "main"])
  /\ chosen nested_runtime "ping" NkTcp = Some ("BLOCK", ["BLOCK"; "ping"]).
Proof.
  split; [apply (dns_outbound_agrees nested_runtime "main" "example.com" 443 clocks); apply nested_ok|].
  split; vm_compute; reflexivity.
Defined.

(** ** Departures *)

(** A group with [disable-udp] relays UDP all the same: the selector refuses, and the search for a
    carrier of the error then returns the first registered member, which does relay UDP. *)
Theorem disabled_udp_still_relayed :
  chosen (runtime [group_plan "web" Manual ["udp-node"] 0 "BLOCK" true] "rule" "web") "web" NkUdp = Some ("udp-node", ["udp-node"; "web"])
  /\ ob_udp <$> registry !! "udp-node" = Some true.
Proof. split; vm_compute; reflexivity. Qed.

(** No member relays UDP and the fallback is DIRECT: the group counts as able to relay UDP because of
    its fallback, the flow is given the member that cannot, and a DNS upstream the fallback. *)
Theorem udp_fallback_shadowed :
  let rt := runtime [group_plan "web" Manual ["tcp-node"] 0 "DIRECT" false] "rule" "web" in
  group_supports_network GROUP_MAX_DEPTH rt "web" NkUdp ∅ = true
  /\ chosen rt "web" NkUdp = Some ("tcp-node", ["tcp-node"; "web"])
  /\ match dns_pick rt "web" "example.com" 443 NkUdp clocks with Ok (_, p) => rg_label p | _ => "" end = "DIRECT".
Proof. split_and!; vm_compute; reflexivity. Qed.

(** [max-members] is applied to the members that can carry the flow when the group is asked, and to all
    of them when it is judged from above: [inner] alone carries UDP, [outer] does not find out. *)
Theorem nested_truncation_refuses :
  let rt := runtime [group_plan "outer" Manual ["inner"] 0 "BLOCK" false; group_plan "inner" Stable ["tcp-node"; "udp-node"] 1 "missing" false] "rule" "outer" in
  chosen rt "inner" NkUdp = Some ("udp-node", ["udp-node"; "inner"])
  /\ chosen rt "outer" NkUdp = Some ("tcp-node", ["tcp-node"; "inner"; "outer"]).
Proof. split; vm_compute; reflexivity. Qed.

(** [final: direct] (without a rule of the preset that says so) becomes a jump to a group called
    [direct]: such a flow is blocked by the rules and goes DIRECT in global mode. *)
Definition final_direct : Route := mkRoute "custom" "direct" [ELine "domain:a.example -> main"] [].

Definition configured_runtime (r : Route) (mode : string) : option Runtime :=
  e ← RouteConfigWitness.engine_of r; Some (mkRuntime registry (with_groups nested) None e mode (ro_final r)).

Definition final_label (mode : string) : option (string * list string) :=
  rt ← configured_runtime final_direct mode; label_of (pick_outbound_for_context rt (for_domain "b.example" 443 NkTcp) clocks).

Theorem final_direct_blocked : final_label "rule" = Some ("BLOCK", ["BLOCK"]) /\ final_label "global" = Some ("DIRECT", ["DIRECT"]).
Proof. split; vm_compute; reflexivity. Qed.

End GroupResolveWitness.
