(* ===== verification/IntRanges.v ===== *)
(** * Sets of status codes

    Models [IntRanges] ([core-runtime/src/int_ranges.rs]), the expected status codes of a health
    check ([200/204/401-429]), and the check of the same texts when a configuration is compiled
    ([validate_group_expected_status] of [core-config/src/runtime_plan.rs]). *)

From stdpp Require Import base list gmap strings numbers option pretty.
From S2P Require Import Prelude Text TextSplit Net.

Record Range : Type := mkRange { range_start : Z; range_end : Z }.

Definition IntRanges : Type := list Range.

Section ranges.
Context `{StrCase}.

(** [s.replace(',', "/")] *)
Definition commas_to_slashes (s : string) : string := str_of_bytes ((fun c => if c =? 44 then 47 else c) <$> str_bytes s).

Definition parse_one (c : string) : option Range :=
  match str_split_once 45 c with
  | Some (a, b) =>
    first ← parse_u16 (str_trim a);
    last ← parse_u16 (str_trim b);
    if last <? first then None else Some (mkRange first last)
  | None => v ← parse_u16 (str_trim c); Some (mkRange v v)
  end.

Definition IntRanges_parse (s : string) : option IntRanges :=
  let s := str_trim s in
  if bool_decide (s = "" \/ s = "*") then Some [] else
  let chunks := filter (fun x => x <> "") (str_split 47 (commas_to_slashes s)) in
  if (28 <? length chunks)%nat then None else mapM parse_one chunks.

Definition IntRanges_check (r : IntRanges) (status : Z) : bool :=
  match r with [] => true | _ => existsb (fun x => (range_start x <=? status) && (status <=? range_end x)) r end.

Definition show_range (x : Range) : string :=
  if range_start x =? range_end x then pretty (range_start x) else pretty (range_start x) +:+ "-" +:+ pretty (range_end x).

Definition IntRanges_show (r : IntRanges) : string :=
  match r with [] => "*" | _ => join "/" (show_range <$> r) end.

(** ** The check of the configuration *)

Definition status_part_ok (part : string) : bool :=
  let part := str_trim part in
  if bool_decide (part = "") then false else
  match
    match str_split_once 45 part with
    | Some (a, b) => first ← parse_u16 (str_trim a); last ← parse_u16 (str_trim b); Some (first, last)
    | None => status ← parse_u16 part; Some (status, status)
    end
  with
  | Some (first, last) => negb ((first <? 100) || (599 <? last) || (last <? first))
  | None => false
  end.

Definition validate_group_expected_status (expression : string) : bool :=
  let expression := str_trim expression in
  if bool_decide (expression = "" \/ expression = "*") then true else forallb status_part_ok (str_split 47 expression).

(** ** Printing and reading back *)

Definition range_ok (x : Range) : Prop := 0 <= range_start x <= range_end x /\ range_end x <= 65535.

Lemma split_bytes_none c l : c ∉ l -> split_bytes c l = [l].
Proof.
  induction l as [|x l IH]; [done|]. rewrite not_elem_of_cons. intros [Hx Hl]. cbn. rewrite (proj2 (Z.eqb_neq x c)) by done. by rewrite IH.
Qed.

Lemma split_bytes_app c a b : c ∉ a -> split_bytes c (a ++ c :: b) = a :: split_bytes c b.
Proof.
  induction a as [|x a IH]; cbn; [by rewrite Z.eqb_refl|]. rewrite not_elem_of_cons. intros [Hx Ha]. rewrite (proj2 (Z.eqb_neq x c)) by done. by rewrite IH.
Qed.

Lemma str_split_join c sep p ps : str_bytes sep = [c] -> Forall (fun q => c ∉ str_bytes q) (p :: ps) -> str_split c (join sep (p :: ps)) = p :: ps.
Proof.
  intros Hs. unfold str_split. revert p. induction ps as [|q ps IH]; intros p Hf; apply Forall_inv in Hf as Hp; apply Forall_inv_tail in Hf as Ht.
  - cbn [join]. rewrite split_bytes_none by done. cbn. by rewrite str_of_str_bytes.
  - change (join sep (p :: q :: ps)) with (p +:+ sep +:+ join sep (q :: ps)). rewrite !str_bytes_app, Hs. cbn [app].
    rewrite split_bytes_app by done. cbn [fmap list_fmap]. rewrite str_of_str_bytes. f_equal. by apply IH.
Qed.

Lemma split_once_absent c l : c ∉ l -> split_once_bytes c l = None.
Proof.
  induction l as [|x l IH]; [done|]. rewrite not_elem_of_cons. intros [Hx Hl]. cbn. rewrite (proj2 (Z.eqb_neq x c)) by done. by rewrite IH.
Qed.

Lemma filter_nonempty_all (l : list string) : "" ∉ l -> filter (fun x => x <> "") l = l.
Proof.
  induction l as [|x l IH]; [done|]. rewrite not_elem_of_cons. intros [Hx Hl]. rewrite filter_cons_True by done. by rewrite IH.
Qed.

(** A text that starts and ends with a digit, of digits and the bytes [P] *)
Definition digit_text (P : Z -> Prop) (l : list Z) : Prop :=
  Forall (fun c => P c \/ is_digit c) l /\ (exists c, head l = Some c /\ is_digit c) /\ (exists d, last l = Some d /\ is_digit d).

Lemma digit_text_app (P : Z -> Prop) a c b : P c -> digit_text P a -> digit_text P b -> digit_text P (a ++ c :: b).
Proof.
  intros Hc (A1 & (x & A2 & Hx) & _) (B1 & _ & y & B3 & Hy). split_and!.
  - apply Forall_app. split; [done|]. apply list.Forall_cons_2; [by left|done].
  - exists x. split; [|done]. destruct a; [done|]. by cbn in *.
  - exists y. split; [|done]. rewrite last_app_cons, last_cons, B3. done.
Qed.

Lemma digit_text_weaken (P Q : Z -> Prop) l : (forall c, P c -> Q c) -> digit_text P l -> digit_text Q l.
Proof. intros Hpq (F & Hh & Hl). split_and!; [|done|done]. eapply Forall_impl; [exact F|]. intros c [?|?]; auto. Qed.

Lemma number_text P n : 0 <= n -> digit_text P (str_bytes (pretty n)).
Proof.
  intros Hn. destruct (pretty_digits n Hn) as (c & ds & -> & Hf & _). split_and!.
  - eapply Forall_impl; [exact Hf|]. by right.
  - exists c. split; [done|]. by apply Forall_inv in Hf.
  - destruct (last (c :: ds)) as [d|] eqn:El; [|by apply last_None in El]. exists d. split; [done|].
    rewrite list.Forall_forall in Hf. apply Hf. by eapply last_Some_elem_of.
Qed.

Lemma range_text x : range_ok x -> digit_text (fun c => c = 45) (str_bytes (show_range x)).
Proof.
  intros [H1 H2]. unfold show_range. destruct (_ =? _); [apply number_text; lia|]. rewrite !str_bytes_app. change (str_bytes "-") with [45]. cbn [app].
  apply digit_text_app; [done|apply number_text; lia..].
Qed.

Lemma ranges_text x r : Forall range_ok (x :: r) -> digit_text (fun c => c = 45 \/ c = 47) (str_bytes (join "/" (show_range <$> x :: r))).
Proof.
  revert x. induction r as [|y r IH]; intros x Hf; apply Forall_inv in Hf as Hx; apply Forall_inv_tail in Hf as Hr.
  - cbn. eapply digit_text_weaken; [|by apply range_text]. auto.
  - change (join "/" (show_range <$> x :: y :: r)) with (show_range x +:+ "/" +:+ join "/" (show_range <$> y :: r)). rewrite !str_bytes_app. change (str_bytes "/") with [47]. cbn [app].
    apply digit_text_app; [by right| |by apply IH]. eapply digit_text_weaken; [|by apply range_text]. auto.
Qed.

Lemma digit_text_trim `{!TrimLaws} P s : digit_text P (str_bytes s) -> str_trim s = s.
Proof. intros (_ & (c & Hc & C) & d & Hd & D). unfold is_digit in *. apply (trim_keeps s c d); [done|done|lia|lia]. Qed.

Lemma digit_text_avoids (P : Z -> Prop) c l : digit_text P l -> ~ P c -> ~ is_digit c -> c ∉ l.
Proof. intros (F & _) Hp Hd Hin. rewrite list.Forall_forall in F. by destruct (F c Hin). Qed.

Lemma parse_one_show `{!TrimLaws} x : range_ok x -> parse_one (show_range x) = Some x.
Proof.
  intros Hx. pose proof (range_text x Hx) as Ht. destruct x as [a b]. destruct Hx as [H1 H2]. cbn [range_start range_end] in *. unfold parse_one, show_range, parse_u16 in *. cbn [range_start range_end] in *.
  assert (Hno : forall n, 0 <= n -> 45 ∉ str_bytes (pretty n)).
  { intros n Hn. apply (digit_text_avoids (fun _ => False)); [by apply number_text|tauto|unfold is_digit; lia]. }
  assert (Htr : forall n, 0 <= n -> str_trim (pretty n) = pretty n) by (intros n Hn; apply (digit_text_trim (fun _ => False)); by apply number_text).
  destruct (Z.eqb_spec a b) as [<-|Hne].
  - assert (E : str_split_once 45 (pretty a) = None).
    { unfold str_split_once. rewrite split_once_absent by (apply Hno; lia). done. }
    rewrite E, Htr, parse_pretty by lia. done.
  - rewrite (str_split_once_sep 45 "-") by (done || apply Hno; lia). rewrite !Htr by lia. rewrite !parse_pretty by lia. cbn [mbind option_bind].
    destruct (Z.ltb_spec b a); [lia|done].
Qed.

Lemma commas_none s : 44 ∉ str_bytes s -> commas_to_slashes s = s.
Proof.
  intros Hn. unfold commas_to_slashes. rewrite <- (str_of_str_bytes s) at 2. f_equal. induction (str_bytes s) as [|c l IH]; [done|].
  rewrite not_elem_of_cons in Hn. destruct Hn as [Hc Hl]. cbn. rewrite (proj2 (Z.eqb_neq c 44)) by done. by rewrite IH.
Qed.

(** A set of at most 28 ranges is printed as a text that is read back as the same set: single codes,
    ranges, and the empty set, which accepts every code. *)
Theorem status_ranges_roundtrip `{!TrimLaws} r : Forall range_ok r -> (length r <= 28)%nat -> IntRanges_parse (IntRanges_show r) = Some r.
Proof.
  intros Hr Hl. unfold IntRanges_parse. destruct r as [|x r].
  { cbn [IntRanges_show]. rewrite (trim_keeps "*" 42 42) by (done || lia). by rewrite bool_decide_eq_true_2 by auto. }
  cbn [IntRanges_show]. pose proof (ranges_text x r Hr) as Ht. rewrite (digit_text_trim _ _ Ht).
  rewrite bool_decide_eq_false_2.
  2: { destruct Ht as (_ & (c & Hc & C) & _). intros [E|E]; rewrite E in Hc; [done|]. injection Hc as <-. unfold is_digit in C. lia. }
  rewrite commas_none by (apply (digit_text_avoids _ 44 _ Ht); unfold is_digit; lia).
  assert (Hsl : Forall (fun q => 47 ∉ str_bytes q) (show_range <$> x :: r)).
  { apply list.Forall_fmap. eapply Forall_impl; [exact Hr|]. intros y Hy. cbn. apply (digit_text_avoids _ 47 _ (range_text y Hy)); unfold is_digit; lia. }
  rewrite fmap_cons in Hsl |- *. rewrite str_split_join by done. rewrite <- fmap_cons.
  rewrite filter_nonempty_all.
  2: { intros (y & Ey & Hy)%list_elem_of_fmap. rewrite list.Forall_forall in Hr. destruct (range_text y (Hr y Hy)) as (_ & (c & Hc & _) & _). by rewrite <- Ey in Hc. }
  rewrite length_fmap. destruct (Nat.ltb_spec 28 (length (x :: r))); [lia|].
  apply mapM_fmap_Forall_Some. eapply Forall_impl; [exact Hr|]. intros y. apply parse_one_show.
Qed.
End ranges.
