(* ===== verification/GroupCompile.v ===== *)
(** * Compilation of policy groups

    Models the group compiler of [core-config/src/runtime_plan.rs] ([compile_groups],
    [compile_group_globs], [validate_group_graph], the icons) on [GroupSpec] of
    [core-config/src/model.rs]: which members a group gets from its sources and patterns, and which
    configurations are refused.  A configuration error is [None].  Maps are association lists in key
    order.  The globs are [group_glob] of [GroupSelect.v]; glob sets, URLs, base64 and [petgraph] are
    the class [GroupConfigLib]. *)

From stdpp Require Import base list gmap strings numbers option relations sorting pretty.
From S2P Require Import Prelude Net Text TextSplit Health GroupSelect IntRanges.

Inductive Base64Engine : Type := STANDARD | STANDARD_NO_PAD | URL_SAFE | URL_SAFE_NO_PAD.

Class GroupConfigLib : Type := {
  (** [GlobSetBuilder::build] of patterns that are globs *)
  globset_builds : list string -> bool;
  (** [Url::parse]: the scheme and the host *)
  url_parse : string -> option (string * option string);
  base64_decode : Base64Engine -> list Z -> option (list Z);
  base64_encode : list Z -> string;
  (** [toposort] fails *)
  has_cycle : list string -> list (string * string) -> bool;
  has_cycle_spec : forall nodes edges, has_cycle nodes edges = true <-> exists n, tc (fun a b => (a, b) ∈ edges) n n
}.

Record GroupSpec : Type := mkGroupSpec {
  sp_choose : ChooseStrategy;
  sp_proxies : list string;
  sp_use : list string;
  sp_include_all : bool;
  sp_include_all_proxies : bool;
  sp_include_all_providers : bool;
  sp_include_groups : list string;
  sp_exclude_groups : list string;
  sp_include_nodes : list string;
  sp_exclude_nodes : list string;
  sp_include_providers : list string;
  sp_exclude_providers : list string;
  sp_min_members : Z;
  sp_max_members : Z;
  sp_default_selected : string;
  sp_empty_fallback : string;
  sp_lazy : bool;
  sp_weights : list (string * Z);
  sp_prefer : list string;
  sp_avoid : list string;
  sp_check : option string;
  sp_expected_status : string;
  sp_interval : Z;
  sp_idle_timeout : Z;
  sp_tolerance : Z;
  sp_unified_delay : option bool;
  sp_strategy : string;
  sp_filter : string;
  sp_exclude_filter : string;
  sp_exclude_type : string;
  sp_max_failed_times : Z;
  sp_test_timeout : Z;
  sp_disable_udp : bool;
  sp_sticky : option string;
  sp_path : list string;
  sp_hidden : bool;
  sp_icon : string
}.

Definition GroupSpec_default : GroupSpec :=
  mkGroupSpec Smart [] [] false false false [] [] [] [] [] [] 0 0 "" "BLOCK" true [] [] [] None "" (from_secs 60) (from_secs (10 * 60)) 50 None
    "consistent-hashing" "" "" "" 5 (from_secs 5) false None [] false "".

(** What [compile_groups] reads of a configuration: the names of the feeds and of the nodes, the groups *)
Record GroupSources : Type := mkSources { gc_feeds : list string; gc_nodes : list string; gc_groups : list (string * GroupSpec) }.

(** [IndexSet::insert] *)
Definition index_insert (members : list string) (m : string) : list string :=
  if bool_decide (m ∈ members) then members else members ++ [m].

(** The order of [String] *)
Fixpoint bytes_le (a b : list Z) : Prop :=
  match a, b with
  | [], _ => True
  | _ :: _, [] => False
  | x :: a, y :: b => x < y \/ (x = y /\ bytes_le a b)
  end.

#[global] Instance bytes_le_dec a b : Decision (bytes_le a b).
Proof. revert b. induction a as [|x a IH]; intros [|y b]; cbn; try apply _. Defined.

Definition name_le (a b : string) : Prop := bytes_le (str_bytes a) (str_bytes b).

Section compile.
Context `{GroupLib, GroupConfigLib, StrCase}.

Definition compile_group_globs (patterns : list string) : option (string -> bool) :=
  globs ← mapM group_glob patterns;
  if globset_builds patterns then Some (fun s => existsb (fun g => g s) globs) else None.

(** ** Icons *)

Definition MAX_INLINE_GROUP_ICON_BYTES : Z := 8 * 1024 * 1024.

Fixpoint trim_ws_fuel (fuel : nat) (l : list Z) : list Z :=
  match fuel with
  | O => l
  | S fuel => match ws_len l with O => l | n => trim_ws_fuel fuel (drop n l) end
  end.

(** [from_utf8_lossy] replaces no ASCII byte, no byte order mark and no white space. *)
Definition infer_group_icon_mime (bytes : list Z) : option string :=
  if starts_with bytes [137; 80; 78; 71; 13; 10; 26; 10] then Some "image/png" else
  if starts_with bytes [255; 216; 255] then Some "image/jpeg" else
  if starts_with bytes (str_bytes "GIF87a") || starts_with bytes (str_bytes "GIF89a") then Some "image/gif" else
  if (12 <=? len bytes) && starts_with bytes (str_bytes "RIFF") && starts_with (drop 8 bytes) (str_bytes "WEBP") then Some "image/webp" else
  if starts_with bytes [0; 0; 1; 0] then Some "image/x-icon" else
  if starts_with bytes (str_bytes "BM") then Some "image/bmp" else
  let trimmed := trim_ws_fuel (length bytes) (trim_start_matches [239; 187; 191] bytes) in
  if starts_with trimmed (str_bytes "<svg") || (starts_with trimmed (str_bytes "<?xml") && contains_bytes trimmed (str_bytes "<svg")) then Some "image/svg+xml" else
  None.

Definition is_ascii_whitespace (c : Z) : bool := (c =? 32) || (c =? 9) || (c =? 10) || (c =? 12) || (c =? 13).

Definition decode_group_icon_base64 (value : string) : option (list Z) :=
  let compact := List.filter (fun c => negb (is_ascii_whitespace c)) (str_bytes value) in
  head (omap (fun engine => base64_decode engine compact) [STANDARD; STANDARD_NO_PAD; URL_SAFE; URL_SAFE_NO_PAD]).

Definition canonical_group_icon_data_uri (bytes : list Z) : option string :=
  if MAX_INLINE_GROUP_ICON_BYTES <? len bytes then None else
  mime ← infer_group_icon_mime bytes;
  Some ("data:" +:+ mime +:+ ";base64," +:+ base64_encode bytes).

Definition is_base64_byte (c : Z) : bool :=
  in_range 48 57 c || in_range 65 90 c || in_range 97 122 c || bool_decide (c ∈ [43; 47; 95; 45; 61]).

Definition normalize_group_icon (icon : string) : option string :=
  let icon := str_trim icon in
  if bool_decide (icon = "") then Some "" else
  if str_starts_with icon "data:" then
    '(header, payload) ← str_split_once 44 icon;
    if negb (str_starts_with header "data:image/") || negb (ends_with (str_bytes header) (str_bytes ";base64")) then None else
    bytes ← decode_group_icon_base64 payload;
    canonical_group_icon_data_uri bytes
  else
  match str_strip_prefix "base64:" icon with
  | Some payload => bytes ← decode_group_icon_base64 payload; canonical_group_icon_data_uri bytes
  | None =>
    if (24 <=? str_len icon) && forallb is_base64_byte (str_bytes icon) then
      match decode_group_icon_base64 icon with
      | Some bytes => if bool_decide (is_Some (infer_group_icon_mime bytes)) then canonical_group_icon_data_uri bytes else Some icon
      | None => Some icon
      end
    else Some icon
  end.

(** ** One group *)

(** The checks of the loop before the members are collected *)
Definition check_url_ok (check : option string) : bool :=
  match check with
  | None => true
  | Some url =>
    match url_parse url with
    | Some (scheme, host) => bool_decide (scheme = "http" \/ scheme = "https") && bool_decide (is_Some host)
    | None => false
    end
  end.

Definition group_fields_ok (g : GroupSpec) : bool :=
  negb (sp_interval g <? from_secs 1) && negb (sp_idle_timeout g <? sp_interval g) && negb (sp_max_failed_times g =? 0)
  && negb (negb (sp_max_members g =? 0) && (sp_max_members g <? sp_min_members g))
  && negb (existsb (fun w => w.2 =? 0) (sp_weights g))
  && check_url_ok (sp_check g) && validate_group_expected_status (sp_expected_status g)
  && negb (bool_decide (sp_choose g = Spread) && negb (bool_decide (is_Some (LbStrategy_parse (sp_strategy g)))))
  && match sp_sticky g with Some s => bool_decide (s ∈ ["off"; "site"; "session"]) | None => true end
  && negb (bool_decide (sp_choose g = Chain)).

(** A name of [proxies] or [use] *)
Definition use_source (src : GroupSources) (members : list string) (name : string) : option (list string) :=
  if bool_decide (name = "nodes") then Some (foldl index_insert members (gc_nodes src)) else
  if bool_decide (name ∈ gc_feeds src) then Some (index_insert members ("feed:" +:+ name)) else
  if bool_decide (name ∈ (gc_groups src).*1) then Some (index_insert members name) else
  if bool_decide (name ∈ gc_nodes src) then Some (index_insert members name) else None.

Fixpoint use_sources (src : GroupSources) (members : list string) (names : list string) : option (list string) :=
  match names with
  | [] => Some members
  | name :: names => members ← use_source src members name; use_sources src members names
  end.

(** Names taken in by a pattern or by [include-all] *)
Definition included (all : bool) (include exclude : string -> bool) (names : list string) : list string :=
  List.filter (fun n => (all || include n) && negb (exclude n)) names.

Definition group_members (src : GroupSources) (name : string) (g : GroupSpec) : option (list string) :=
  include_nodes ← compile_group_globs (sp_include_nodes g);
  exclude_nodes ← compile_group_globs (sp_exclude_nodes g);
  include_providers ← compile_group_globs (sp_include_providers g);
  exclude_providers ← compile_group_globs (sp_exclude_providers g);
  include_groups ← compile_group_globs (sp_include_groups g);
  exclude_groups ← compile_group_globs (sp_exclude_groups g);
  _ ← mapM (fun pattern => compile_group_globs [pattern]) (sp_weights g).*1;
  members ← use_sources src [] (sp_proxies g ++ sp_use g);
  let members := foldl index_insert members
    (included (sp_include_all g || sp_include_all_proxies g) include_nodes exclude_nodes (merge_sort name_le (gc_nodes src))) in
  let members := foldl index_insert members
    ((fun p => "feed:" +:+ p) <$> included (sp_include_all g || sp_include_all_providers g) include_providers exclude_providers (gc_feeds src)) in
  let members := foldl index_insert members
    (included false include_groups exclude_groups (List.filter (fun n => negb (bool_decide (n = name))) (gc_groups src).*1)) in
  Some (List.filter (fun member =>
    match str_strip_prefix "feed:" member with
    | Some provider => negb (exclude_providers provider)
    | None => if bool_decide (member ∈ (gc_groups src).*1) then negb (exclude_groups member) else negb (exclude_nodes member)
    end) members).

Definition fallback_known (src : GroupSources) (fallback : string) : bool :=
  bool_decide (to_ascii_uppercase fallback ∈ ["DIRECT"; "BLOCK"; "REJECT"]) || bool_decide (fallback ∈ gc_nodes src).

Definition compile_group (src : GroupSources) (name : string) (g : GroupSpec) : option GroupPlan :=
  if negb (group_fields_ok g) then None else
  members ← group_members src name g;
  if negb (bool_decide (sp_default_selected g = "")) && negb (bool_decide (sp_default_selected g ∈ members)) then None else
  if bool_decide (sp_empty_fallback g ∈ (gc_groups src).*1) then None else
  if negb (fallback_known src (sp_empty_fallback g)) then None else
  icon ← normalize_group_icon (sp_icon g);
  Some (mkGroupPlan name (sp_choose g) members (sp_min_members g) (sp_max_members g) (sp_default_selected g) (sp_empty_fallback g) (sp_lazy g) (sp_weights g)
    (sp_prefer g) (sp_avoid g) (sp_check g) (sp_expected_status g) (sp_interval g) (sp_idle_timeout g) (sp_tolerance g) (sp_unified_delay g) (sp_strategy g)
    (sp_filter g) (sp_exclude_filter g) (sp_exclude_type g) (sp_max_failed_times g) (sp_test_timeout g) (sp_disable_udp g) (sp_sticky g) (sp_path g) (sp_hidden g) icon).

(** ** The graph of groups *)

Definition group_edges (groups : list (string * GroupPlan)) : list (string * string) :=
  flat_map (fun e => (fun m => (e.1, m)) <$> List.filter (fun m => bool_decide (m ∈ groups.*1)) (gp_members e.2)) groups.

Definition validate_group_graph (groups : list (string * GroupPlan)) : bool :=
  if has_cycle groups.*1 (group_edges groups) then false else
  forallb (fun e => let nested := List.filter (fun m => bool_decide (m ∈ groups.*1)) (gp_members e.2) in
    negb (negb (bool_decide (nested = [])) && negb (bool_decide (gp_choose e.2 = Manual)))) groups.

Definition compile_groups (src : GroupSources) : option (list (string * GroupPlan)) :=
  groups ← mapM (fun e => plan ← compile_group src e.1 e.2; Some (e.1, plan)) (gc_groups src);
  if validate_group_graph groups then Some groups else None.

End compile.
