(* ===== verification/GroupCompileSpec.v ===== *)
(** * Compiled groups at run time

    Proofs about [GroupCompile.v]: what an accepted plan is ([plan_ok]), that the groups of an accepted
    configuration have no cycle, and with [GroupResolveSpec.v] that every flow sent to one of them
    reaches an outbound the configuration names.  [build_runtime] is the part of [Runtime::build_with]
    ([core-runtime/src/engine.rs]) that makes the selectors. *)

From stdpp Require Import base list gmap strings numbers option relations sorting pretty.
From S2P Require Import Prelude Net Text TextSplit Instances Health RouteModel RouteMatch RouteInstances RouteEngine GroupSelect GroupResolve GroupResolveSpec RouteConfig IntRanges GroupCompile.

(** ** Members *)

Lemma index_insert_elem l m x : x ∈ index_insert l m <-> x ∈ l \/ x = m.
Proof. unfold index_insert. case_bool_decide; [|rewrite elem_of_app, list_elem_of_singleton; tauto]. split; [tauto|]. by intros [?| ->]. Qed.

Lemma index_insert_NoDup l m : NoDup l -> NoDup (index_insert l m).
Proof.
  intros Hl. unfold index_insert. case_bool_decide as Hm; [done|]. apply NoDup_app. split_and!; [done| |apply NoDup_singleton].
  intros x Hx ->%list_elem_of_singleton. done.
Qed.

Lemma index_inserts l ms : NoDup l -> NoDup (foldl index_insert l ms) /\ forall x, x ∈ foldl index_insert l ms <-> x ∈ l \/ x ∈ ms.
Proof.
  revert l. induction ms as [|m ms IH]; intros l Hl; cbn; [split; [done|]; intros x; rewrite elem_of_nil; tauto|].
  destruct (IH _ (index_insert_NoDup l m Hl)) as [IH1 IH2]. split; [done|]. intros x. rewrite IH2, index_insert_elem, elem_of_cons. tauto.
Qed.

Section compile.
Context `{GroupLib, GroupConfigLib, StrCase}.

(** What the configuration declares *)
Definition declared (src : GroupSources) (m : string) : Prop :=
  m ∈ gc_nodes src \/ m ∈ (gc_groups src).*1 \/ m ∈ (fun f => "feed:" +:+ f) <$> gc_feeds src.

(** A set of declared names *)
Definition members_ok (src : GroupSources) (l : list string) : Prop := NoDup l /\ forall m, m ∈ l -> declared src m.

Lemma members_ok_inserts src l ms : members_ok src l -> (forall m, m ∈ ms -> declared src m) -> members_ok src (foldl index_insert l ms).
Proof. intros [Hn Hd] Hms. destruct (index_inserts l ms Hn) as [H1' H2']. split; [done|]. intros m [?|?]%H2'; auto. Qed.

Lemma use_source_ok src l name l' : members_ok src l -> use_source src l name = Some l' -> members_ok src l'.
Proof.
  intros Hl. unfold use_source. assert (Hone : forall m, declared src m -> members_ok src (index_insert l m)).
  { intros m Hm. apply (members_ok_inserts src l [m] Hl). intros x ->%list_elem_of_singleton. done. }
  repeat case_bool_decide; intros [= <-]; [|apply Hone..]; [apply members_ok_inserts; [done|]; by left|right; right|right; by left|by left].
  apply list_elem_of_fmap. eauto.
Qed.

Lemma use_sources_ok src names : forall l l', members_ok src l -> use_sources src l names = Some l' -> members_ok src l'.
Proof.
  induction names as [|n names IH]; intros l l' Hl; cbn [use_sources]; [by intros [= <-]|].
  destruct (use_source src l n) as [l1|] eqn:E; [|done]. apply IH. by eapply use_source_ok.
Qed.

Lemma included_elem all include exclude names n : n ∈ included all include exclude names -> n ∈ names.
Proof. unfold included. rewrite list_elem_of_In, filter_In, <- list_elem_of_In. tauto. Qed.

Ltac bind_some := repeat match goal with
  | E : mbind _ ?e = Some _ |- _ => let x := fresh "x" in destruct e as [x|] eqn:?; [|discriminate E]; cbn [mbind option_bind] in E
  end.

Lemma group_members_ok src name g l : group_members src name g = Some l -> members_ok src l.
Proof.
  unfold group_members. intros E. bind_some. injection E as <-.
  assert (Hx : members_ok src x6) by (eapply use_sources_ok; [|eassumption]; split; [by apply NoDup_nil|by intros m ?%elem_of_nil]).
  match goal with |- members_ok src (List.filter _ ?l) => assert (Hl : members_ok src l) end.
  - apply members_ok_inserts; [apply members_ok_inserts; [apply members_ok_inserts; [done|]|]|].
    + intros m Hm%included_elem. left. by rewrite merge_sort_Permutation in Hm.
    + intros m (f & -> & Hf%included_elem)%list_elem_of_fmap. right; right. apply list_elem_of_fmap. eauto.
    + intros m Hm%included_elem. right; left. apply list_elem_of_In, filter_In in Hm as [Hm _]. by apply list_elem_of_In.
  - destruct Hl as [Hn Hd]. split; [apply NoDup_ListNoDup, List.NoDup_filter, NoDup_ListNoDup, Hn|].
    intros m Hm. apply Hd. apply list_elem_of_In, filter_In in Hm as [Hm _]. by apply list_elem_of_In.
Qed.

(** Declared names are finitely many. *)
Lemma members_length src l : members_ok src l -> (length l <= length (gc_nodes src) + length (gc_groups src) + length (gc_feeds src))%nat.
Proof.
  intros [Hn Hd]. transitivity (length (gc_nodes src ++ (gc_groups src).*1 ++ ((fun f => "feed:" +:+ f) <$> gc_feeds src))).
  - apply List.NoDup_incl_length; [by apply NoDup_ListNoDup|]. intros m Hm. apply list_elem_of_In in Hm. apply list_elem_of_In. rewrite !elem_of_app. by apply Hd.
  - rewrite !length_app, !length_fmap. lia.
Qed.

(** ** Plans *)

Record plan_ok (src : GroupSources) (name : string) (p : GroupPlan) : Prop := mkPlanOk {
  pk_name : gp_name p = name;
  pk_choose : gp_choose p <> Chain;
  pk_members : members_ok src (gp_members p);
  pk_bounds : gp_max_members p = 0 \/ gp_min_members p <= gp_max_members p;
  pk_default : gp_default_selected p = "" \/ gp_default_selected p ∈ gp_members p;
  pk_fallback : fallback_label (gp_empty_fallback p) ∈ ["DIRECT"; "BLOCK"] \/ fallback_label (gp_empty_fallback p) ∈ gc_nodes src;
  pk_not_group : gp_empty_fallback p ∉ (gc_groups src).*1
}.

Lemma fallback_known_label src fallback : fallback_known src fallback = true -> fallback_label fallback ∈ ["DIRECT"; "BLOCK"] \/ fallback_label fallback ∈ gc_nodes src.
Proof.
  unfold fallback_known, fallback_label. set (u := to_ascii_uppercase fallback). rewrite orb_true_iff, !bool_decide_eq_true. intros Hk.
  case_bool_decide as H1'; [left; apply (bool_decide_unpack _); vm_compute; exact I|]. case_bool_decide as H2'; [left; apply (bool_decide_unpack _); vm_compute; exact I|]. right.
  destruct Hk as [Hk|?]; [|done]. rewrite !elem_of_cons, elem_of_nil in Hk. tauto.
Qed.

Lemma compile_group_ok src name g p : compile_group src name g = Some p -> plan_ok src name p.
Proof.
  unfold compile_group. destruct (group_fields_ok g) eqn:Ef; [|done]. cbn [negb]. unfold group_fields_ok in Ef. rewrite !andb_true_iff, !negb_true_iff in Ef.
  destruct Ef as (((((((((_ & _) & _) & Hb) & _) & _) & _) & _) & _) & Hc).
  destruct (group_members src name g) as [members|] eqn:Em; [|done]. cbn [mbind option_bind].
  destruct (negb (bool_decide (sp_default_selected g = "")) && _) eqn:Ed; [done|].
  destruct (bool_decide (sp_empty_fallback g ∈ _)) eqn:Hg; [done|]. apply bool_decide_eq_false in Hg. destruct (fallback_known src _) eqn:Ek; cbn [negb]; [|done].
  destruct (normalize_group_icon _) as [icon|]; [|done]. cbn [mbind option_bind]. intros [= <-]. constructor; cbn.
  - done.
  - by apply bool_decide_eq_false in Hc.
  - by eapply group_members_ok.
  - apply andb_false_iff in Hb as [Hb|Hb]; [left; by apply negb_false_iff, Z.eqb_eq in Hb|right; by apply Z.ltb_ge in Hb].
  - apply andb_false_iff in Ed as [Hd|Hd]; apply negb_false_iff, bool_decide_eq_true in Hd; auto.
  - by apply fallback_known_label.
  - done.
Qed.

(** ** The graph *)

Definition nested_in (groups : list (string * GroupPlan)) (a b : string) : Prop := exists p, (a, p) ∈ groups /\ b ∈ gp_members p /\ b ∈ groups.*1.

Lemma group_edges_spec groups a b : (a, b) ∈ group_edges groups <-> nested_in groups a b.
Proof.
  unfold group_edges, nested_in. rewrite list_elem_of_In, in_flat_map. split.
  - intros ((a' & p) & Hin & Hx). apply list_elem_of_In, list_elem_of_fmap in Hx as (m & [= -> ->] & Hm). apply list_elem_of_In, filter_In in Hm as [Hm Hk%bool_decide_eq_true].
    exists p. split_and!; [by apply list_elem_of_In|by apply list_elem_of_In|done].
  - intros (p & Hin & Hm & Hk). exists (a, p). split; [by apply list_elem_of_In|]. apply list_elem_of_In, list_elem_of_fmap. exists b. split; [done|].
    apply list_elem_of_In, filter_In. split; [by apply list_elem_of_In|by apply bool_decide_eq_true].
Qed.

Lemma tc_mono {A} (R S : A -> A -> Prop) x y : (forall a b, R a b -> S a b) -> tc R x y -> tc S x y.
Proof. intros Hrs. induction 1; [apply tc_once|eapply tc_l]; eauto. Qed.

Lemma graph_acyclic groups : validate_group_graph groups = true -> forall n, ~ tc (nested_in groups) n n.
Proof.
  unfold validate_group_graph. destruct (has_cycle _ _) eqn:E; [done|]. intros _ n Hc.
  assert (has_cycle groups.*1 (group_edges groups) = true); [|congruence]. apply has_cycle_spec. exists n. eapply tc_mono; [|exact Hc].
  intros a b. apply group_edges_spec.
Qed.

Lemma graph_manual groups e m : validate_group_graph groups = true -> e ∈ groups -> m ∈ gp_members e.2 -> m ∈ groups.*1 -> gp_choose e.2 = Manual.
Proof.
  unfold validate_group_graph. destruct (has_cycle _ _); [done|]. rewrite forallb_forall. intros Hf He Hm Hk. apply list_elem_of_In, Hf in He.
  apply negb_true_iff, andb_false_iff in He as [He|He]; apply negb_false_iff, bool_decide_eq_true in He; [|done].
  assert (Hx : m ∈ List.filter (fun m => bool_decide (m ∈ groups.*1)) (gp_members e.2)); [|rewrite He in Hx; by apply elem_of_nil in Hx].
  apply list_elem_of_In, filter_In. split; [by apply list_elem_of_In|by apply bool_decide_eq_true].
Qed.

Lemma compile_groups_ok src plans : compile_groups src = Some plans ->
  plans.*1 = (gc_groups src).*1 /\ validate_group_graph plans = true /\ forall name p, (name, p) ∈ plans -> plan_ok src name p.
Proof.
  unfold compile_groups. destruct (mapM _ _) as [groups|] eqn:E; [|done]. cbn [mbind option_bind]. destruct (validate_group_graph groups) eqn:Ev; [|done]. intros [= <-].
  apply mapM_Some_1 in E. assert (Hb : forall e e', (plan ← compile_group src e.1 e.2; Some (e.1, plan)) = Some e' -> e'.1 = e.1 /\ compile_group src e.1 e.2 = Some e'.2).
  { intros e e'. destruct (compile_group src e.1 e.2) as [p|]; [|done]. by intros [= <-]. }
  split_and!; [|done|].
  - clear Ev. induction E as [|e e' l l' He _ IH]; [done|]. cbn. rewrite IH. by destruct (Hb _ _ He) as [-> _].
  - intros name p Hin. apply list_elem_of_lookup in Hin as [i Hi]. destruct (Forall2_lookup_r _ _ _ _ _ E Hi) as (e & _ & He).
    destruct (Hb _ _ He) as [Hn Hc]. cbn in Hn, Hc. subst name. by apply compile_group_ok in Hc.
Qed.
End compile.

(** ** The runtime of a configuration *)

Section runtime.
Context `{GroupLib, GroupConfigLib, GroupRandom, StickyCache, SmartApi, IpNetLib, !RouteLib, !RulesetIndexApi, NetText, StrCase}.

(** [revision] is the hash of [group_health_revision], [sticky] a new cache; no tester is there yet. *)
Definition build_runtime (plans : list (string * GroupPlan)) (outbounds : OutboundRegistry) (route : RouteEngine) (mode final : string)
    (revision : GroupPlan -> Z) (sticky : Lru) : Runtime :=
  mkRuntime outbounds (list_to_map ((fun e => (e.1, GroupSelector_new e.2 (revision e.2) sticky)) <$> plans)) None route mode final.

Section built.
Variables (src : GroupSources) (plans : list (string * GroupPlan)) (rt : Runtime).
Hypothesis compiled : compile_groups src = Some plans.
Hypothesis keys_once : NoDup (gc_groups src).*1.
(** [rt] has the outbounds of the configuration and its groups. *)
Hypothesis rt_builtin : builtin (rt_outbounds rt).
Hypothesis rt_nodes : forall n, n ∈ gc_nodes src -> is_Some (rt_outbounds rt !! n).
Hypothesis rt_plans : forall g, sel_plan <$> rt_groups rt !! g = (list_to_map plans : gmap string GroupPlan) !! g.

Lemma built_group g sel : rt_groups rt !! g = Some sel -> (g, sel_plan sel) ∈ plans /\ plan_ok src g (sel_plan sel).
Proof.
  intros E. destruct (compile_groups_ok src plans compiled) as (_ & _ & Hp). assert (Hin : (g, sel_plan sel) ∈ plans); [|split; [done|by apply Hp]].
  apply elem_of_list_to_map_2. rewrite <- rt_plans, E. done.
Qed.

Lemma built_known g : g ∈ plans.*1 -> exists sel, rt_groups rt !! g = Some sel.
Proof.
  intros Hg. destruct (compile_groups_ok src plans compiled) as (Hk & _ & _). apply list_elem_of_fmap in Hg as ((g' & p) & -> & Hin).
  pose proof (rt_plans g') as E. rewrite (elem_of_list_to_map_1 plans g' p) in E; [|by rewrite Hk|done]. cbn. destruct (rt_groups rt !! g') as [sel|]; [eauto|done].
Qed.

Lemma built_fallback g sel : rt_groups rt !! g = Some sel -> fallback_registered rt sel.
Proof.
  intros [_ Hp]%built_group. unfold fallback_registered. destruct rt_builtin as [Hd Hb]. destruct (pk_fallback _ _ _ Hp) as [Hf|Hf]; [|by apply rt_nodes].
  apply elem_of_cons in Hf as [->|Hf%list_elem_of_singleton]; [done|by rewrite Hf].
Qed.

(** No search below a group of the configuration is given up: the groups on the way are different. *)
Lemma built_safe levels : forall g visiting, g ∈ plans.*1 -> visiting ⊆ (list_to_set plans.*1 : gset string) -> (forall v, v ∈ visiting -> tc (nested_in plans) v g) ->
  (size (list_to_set plans.*1 : gset string) <= levels + size visiting)%nat -> safe rt levels g visiting.
Proof.
  destruct (compile_groups_ok src plans compiled) as (_ & Hv & _). pose proof (graph_acyclic plans Hv) as Hac.
  induction levels as [|levels IH]; intros g visiting Hg Hsub Hpath Hsize; assert (Hnew : g ∉ visiting) by (intros Hin; by apply (Hac g), Hpath).
  - assert (Hlt : (size visiting < size (list_to_set plans.*1 : gset string))%nat); [|lia]. apply subset_size. split; [done|].
    intros Hc. apply Hnew, Hc, elem_of_list_to_set, Hg.
  - destruct (built_known g Hg) as [sel Es]. econstructor; [done|exact Es|by eapply built_fallback|]. intros m Hm [k Hk].
    assert (Hmk : m ∈ plans.*1) by (apply built_group in Hk as [Hk _]; apply list_elem_of_fmap; by exists (m, sel_plan k)).
    assert (He : nested_in plans g m) by (exists (sel_plan sel); split_and!; [by apply built_group in Es as [? _]|done|done]).
    apply IH; [done| | |].
    + intros x [->%elem_of_singleton|?]%elem_of_union; [by apply elem_of_list_to_set|auto].
    + intros v [->%elem_of_singleton|Hvis]%elem_of_union; [by apply tc_once|]. eapply tc_r; [by apply Hpath|done].
    + rewrite size_union, size_singleton by set_solver. lia.
Qed.

End built.

Lemma size_names_le (l : list string) : (size (list_to_set l : gset string) <= length l)%nat.
Proof.
  induction l as [|x l IH]; [done|]. cbn [list_to_set length]. rewrite size_union_alt, size_singleton.
  assert (size (list_to_set l ∖ {[x]} : gset string) <= size (list_to_set l : gset string))%nat by (apply subseteq_size; set_solver). lia.
Qed.

Lemma build_plans plans outbounds route mode final revision sticky g :
  sel_plan <$> rt_groups (build_runtime plans outbounds route mode final revision sticky) !! g = (list_to_map plans : gmap string GroupPlan) !! g.
Proof.
  cbn. induction plans as [|[k p] plans IH]; [done|]. cbn. destruct (decide (k = g)) as [->|Hne]; [by rewrite !lookup_insert_eq|]. by rewrite !lookup_insert_ne by done.
Qed.

Lemma build_runtime_ok src plans outbounds route mode final revision sticky : compile_groups src = Some plans -> NoDup (gc_groups src).*1 -> builtin outbounds ->
  Z.of_nat (length (gc_nodes src) + length (gc_groups src) + length (gc_feeds src)) < 2 ^ 31 ->
  runtime_ok (build_runtime plans outbounds route mode final revision sticky).
Proof.
  intros Hc Hk Hb Hsz. set (rt := build_runtime _ _ _ _ _ _ _).
  assert (Hg : forall g sel, rt_groups rt !! g = Some sel -> plan_ok src g (sel_plan sel)).
  { intros g sel E. by apply (built_group src plans rt Hc) in E as [_ ?]; [|intros; apply build_plans]. }
  constructor; [done| | | |done]; intros g sel E; apply Hg in E as Hp; [by apply (pk_name _ _ _ Hp)| |by apply (pk_choose _ _ _ Hp)].
  pose proof (members_length src _ (pk_members _ _ _ Hp)). lia.
Qed.

Section accepted.
Variables (src : GroupSources) (plans : list (string * GroupPlan)) (outbounds : OutboundRegistry).
(** The configuration: accepted, with distinct group names, at most 32 groups and a sane number of names, and its nodes registered *)
Record accepted : Prop := mkAccepted {
  ac_compiled : compile_groups src = Some plans;
  ac_keys : NoDup (gc_groups src).*1;
  ac_builtin : builtin outbounds;
  ac_nodes : forall n, n ∈ gc_nodes src -> is_Some (outbounds !! n);
  ac_size : Z.of_nat (length (gc_nodes src) + length (gc_groups src) + length (gc_feeds src)) < 2 ^ 31;
  ac_depth : (length (gc_groups src) <= GROUP_MAX_DEPTH)%nat
}.

Lemma accepted_pick route mode final revision sticky rt g ctx clocks : accepted ->
  let rt0 := build_runtime plans outbounds route mode final revision sticky in
  runtime_ok rt -> same_config rt0 rt -> g ∈ (gc_groups src).*1 ->
  exists rt' p, pick_in_group rt g ctx clocks = Ok (rt', p) /\ runtime_ok rt' /\ same_config rt0 rt'
  /\ resolves rt0 False g (rg_chain p) /\ head (rg_chain p) = Some (rg_label p) /\ outbounds !! rg_label p = Some (rg_outbound p).
Proof.
  intros [Hc Hk Hb Hn Hsz Hd] rt0 Hok Hs Hg. destruct (compile_groups_ok src plans Hc) as (Hkeys & _ & _). rewrite <- Hkeys in Hg.
  assert (Hsafe : safe rt GROUP_MAX_DEPTH g ∅).
  { eapply safe_same; [exact Hs|]. apply (built_safe src plans rt0 Hc Hk Hb Hn (build_plans _ _ _ _ _ _ _)); [done|set_solver|set_solver|].
    rewrite size_empty, Nat.add_0_r, Hkeys. etrans; [apply size_names_le|]. by rewrite length_fmap. }
  destruct (pick_in_group_ok False GROUP_MAX_DEPTH rt g ctx ∅ clocks Hok (or_intror Hsafe)) as (rt' & p & E & Hok' & Hs' & Hp).
  apply (sound_same _ _ _ _ _ _ Hs) in Hp as [S1 S2 S3 _]. exists rt', p. split_and!; try done. by etrans.
Qed.
End accepted.

(** ** Theorem *)

(** An accepted configuration of at most 32 groups gives a runtime in which every flow sent to one of its
    groups, whatever was picked before, is carried: the search is never given up (no cycle, no unknown
    group, no missing fallback), and it ends on a registered outbound that some group on the way lists
    as a member or as its fallback. *)
Theorem accepted_groups_reach_outbounds src plans outbounds route mode final revision sticky : accepted src plans outbounds ->
  let rt0 := build_runtime plans outbounds route mode final revision sticky in
  runtime_ok rt0
  /\ forall rt g ctx clocks, runtime_ok rt -> same_config rt0 rt -> g ∈ (gc_groups src).*1 ->
     exists rt' p, pick_in_group rt g ctx clocks = Ok (rt', p) /\ runtime_ok rt' /\ same_config rt0 rt'
     /\ resolves rt0 False g (rg_chain p) /\ head (rg_chain p) = Some (rg_label p) /\ outbounds !! rg_label p = Some (rg_outbound p).
Proof. intros Ha rt0. split; [by apply (build_runtime_ok src); apply Ha|]. intros rt g ctx clocks. by apply accepted_pick. Qed.
End runtime.

(** ** Witnesses *)
Module GroupCompileWitness.
Import Concrete RouteConfigConcrete GroupResolveWitness.
#[local] Existing Instances GroupSelectWitness.toy_lib GroupSelectWitness.toy_random GroupSelectWitness.toy_lru GroupSelectWitness.toy_smart.

(** A graph as a set of branches, which are searched for a cycle *)
Definition graph_rules (edges : list (string * string)) : list (string * list RouteStep) :=
  (fun a => (a, (fun e => mkStep MAny (ASubRule e.2) "" (mkOptions false false false)) <$> List.filter (fun e => String.eqb e.1 a) edges)) <$> edges.*1.

Definition graph_cycle (edges : list (string * string)) : bool := match validate_sub_rule_graph (graph_rules edges) with Ok _ => false | _ => true end.

Lemma sub_rule_some (f : string -> list RouteStep) keys a : a ∈ keys -> exists steps, sub_rule ((fun a => (a, f a)) <$> keys) a = Some steps.
Proof.
  induction keys as [|b keys IH]; [by intros ?%elem_of_nil|]. intros [<-|Ha]%elem_of_cons; cbn; [rewrite String.eqb_refl; eauto|]. destruct (String.eqb b a); eauto.
Qed.

Lemma graph_rules_edge edges a b : edge (graph_rules edges) a b <-> (a, b) ∈ edges.
Proof.
  assert (Ht : forall steps, (a, steps) ∈ graph_rules edges -> (b ∈ targets steps <-> (a, b) ∈ edges)).
  { intros steps (a' & [= <- ->] & _)%list_elem_of_fmap. unfold targets. rewrite list_elem_of_omap. split.
    - intros (s & (e & -> & He)%list_elem_of_fmap & Hb). apply list_elem_of_In, filter_In in He as [He Hf%String.eqb_eq]. cbn in Hb. injection Hb as <-.
      destruct e. cbn in *. subst. by apply list_elem_of_In.
    - intros Hin. eexists. split; [apply list_elem_of_fmap; exists (a, b); split; [reflexivity|]|done].
      apply list_elem_of_In, filter_In. split; [by apply list_elem_of_In|apply String.eqb_refl]. }
  split.
  - intros (steps & Hs%sub_rule_elem & Hb). by apply (Ht steps).
  - intros Hin. assert (Hsome : exists steps, sub_rule (graph_rules edges) a = Some steps) by (apply sub_rule_some, list_elem_of_fmap; by exists (a, b)).
    destruct Hsome as [steps Hs]. exists steps. split; [done|]. apply Ht; [by apply sub_rule_elem|done].
Qed.

Lemma graph_cycle_spec (nodes : list string) edges : graph_cycle edges = true <-> exists n, tc (fun a b => (a, b) ∈ edges) n n.
Proof.
  unfold graph_cycle, validate_sub_rule_graph. set (rules := graph_rules edges).
  assert (Hm : forall n, tc (edge rules) n n <-> tc (fun a b => (a, b) ∈ edges) n n) by (intros n; split; apply tc_mono; intros a b; apply graph_rules_edge).
  pose proof (sub_rule_graph_acyclic rules) as Hac. unfold validate_sub_rule_graph in Hac.
  pose proof (visit_names_spec rules rules.*1 ∅ ltac:(intros n; set_solver)) as Hv.
  destruct (visit_names rules rules.*1 (∅, ∅)) as [[v d]| |]; cbn [mbind outcome_bind] in *; [|split; [|done]|done].
  - split; [done|]. intros (n & Hn%Hm). by destruct (Hac eq_refl n).
  - intros _. destruct Hv as (_ & n & Hn%Hm). eauto.
Qed.

#[local] Instance toy_config : GroupConfigLib := {|
  globset_builds := fun _ => true; url_parse := fun s => if str_starts_with s "http://" then Some ("http", Some s) else None;
  base64_decode := fun _ _ => None; base64_encode := fun _ => ""; has_cycle := fun _ => graph_cycle; has_cycle_spec := graph_cycle_spec |}.

Definition spec (choose : ChooseStrategy) (proxies : list string) : GroupSpec :=
  mkGroupSpec choose proxies [] false false false [] [] [] [] [] [] 0 0 "" "BLOCK" true [] [] [] None "" (from_secs 60) (from_secs 600) 50 None
    "consistent-hashing" "" "" "" 5 (from_secs 5) false None [] false "".

Definition office_groups : GroupSources :=
  mkSources ["sub"] ["tcp-node"; "udp-node"] [("auto", spec Stable ["nodes"; "sub"]); ("main", spec Manual ["auto"; "tcp-node"])].

Definition plans_of (src : GroupSources) : list (string * GroupPlan) := default [] (compile_groups src).
Definition no_sessions : @Lru GroupSelectWitness.toy_lru := @nil (Z * (nat * Z)).
Definition runtime_of (src : GroupSources) : Runtime := build_runtime (plans_of src) registry empty_engine "rule" "main" (fun _ => 1) no_sessions.

Lemma office_accepted : accepted office_groups (plans_of office_groups) registry.
Proof.
  constructor.
  - vm_compute. reflexivity.
  - apply (bool_decide_unpack _). vm_compute. exact I.
  - apply registry_insert_builtin, registry_insert_builtin, registry_new_builtin.
  - intros n Hn. assert (Hall : Forall (fun n => is_Some (registry !! n)) (gc_nodes office_groups)) by (apply (bool_decide_unpack _); vm_compute; exact I).
    rewrite list.Forall_forall in Hall. by apply Hall.
  - vm_compute. reflexivity.
  - vm_compute. lia.
Qed.

Lemma accepted_groups_reach_outbounds_witness :
  gp_members <$> (list_to_map (plans_of office_groups) : gmap string GroupPlan) !! "auto" = Some ["tcp-node"; "udp-node"; "feed:sub"]
  /\ chosen (runtime_of office_groups) "main" NkUdp = Some ("udp-node", ["udp-node"; "auto"; "main"])
  /\ exists rt' p, pick_in_group (runtime_of office_groups) "main" (site NkUdp) clocks = Ok (rt', p) /\ resolves (runtime_of office_groups) False "main" (rg_chain p).
Proof.
  split; [vm_compute; reflexivity|]. split; [vm_compute; reflexivity|].
  destruct (accepted_groups_reach_outbounds office_groups (plans_of office_groups) registry empty_engine "rule" "main" (fun _ => 1) no_sessions office_accepted) as [Hok Hall].
  destruct (Hall (runtime_of office_groups) "main" (site NkUdp) clocks Hok ltac:(reflexivity)) as (rt' & p & E & _ & _ & Hr & _);
    [apply (bool_decide_unpack _); vm_compute; exact I|]. exists rt', p. split; [exact E|exact Hr].
Defined.

(** The compiler does not bound the nesting: 33 groups in a row are accepted, and a flow sent to the
    outermost is blocked although the innermost has a node. *)
Definition level_name (n : nat) : string := "g" +:+ pretty n.
Definition tower (n : nat) : GroupSources :=
  mkSources [] ["udp-node"] ((level_name 0, spec Manual ["udp-node"]) :: ((fun k => (level_name (S k), spec Manual [level_name k])) <$> seq 0 n)).

Theorem nesting_not_bounded :
  length (plans_of (tower 32)) = 33%nat
  /\ chosen (runtime_of (tower 32)) (level_name 31) NkTcp = Some ("udp-node", "udp-node" :: (level_name <$> seq 0 32))
  /\ fst <$> chosen (runtime_of (tower 32)) (level_name 32) NkTcp = Some "BLOCK".
Proof. split_and!; vm_compute; reflexivity. Qed.

(** 29 status codes are accepted by the compiler; the health check cannot read them and takes the default. *)
Definition many_codes : string := join "/" (replicate 29 "204").

Theorem status_codes_not_bounded : validate_group_expected_status many_codes = true /\ IntRanges_parse many_codes = None.
Proof. split; vm_compute; reflexivity. Qed.

Lemma status_ranges_roundtrip_witness : IntRanges_parse "200/204/401-429" = Some [mkRange 200 200; mkRange 204 204; mkRange 401 429].
Proof.
  change "200/204/401-429" with (IntRanges_show [mkRange 200 200; mkRange 204 204; mkRange 401 429]). apply (status_ranges_roundtrip [mkRange 200 200; mkRange 204 204; mkRange 401 429]).
  - apply list.Forall_cons_2; [|apply list.Forall_cons_2; [|apply list.Forall_singleton]]; unfold range_ok; cbn; lia.
  - cbn. lia.
Defined.

End GroupCompileWitness.
