(* ===== verification/FlowConfig.v ===== *)
(** * From a configuration to the outbound of a flow

    Composes the route compiler, the route engine, the group compiler and the group search: what a
    flow gets in the runtime of an accepted configuration ([compile_route], [compile_groups] of
    [core-config], [RouteEngine] of [core-route], [pick_outbound_for_context] of [core-runtime]). *)

From stdpp Require Import base list gmap strings numbers option relations sorting pretty.
From S2P Require Import Prelude Net Text TextSplit Instances Health RouteModel RouteMatch RouteInstances RouteSpec RouteEngine RouteCompile RouteCompileSpec RouteConfig GroupSelect GroupResolve GroupResolveSpec IntRanges GroupCompile GroupCompileSpec.

Section flow.
Context `{GroupLib, GroupConfigLib, GroupRandom, StickyCache, SmartApi, IpNetLib, !RouteLib, !RulesetIndexApi, NetText, StrCase, !RouteText}.

Lemma global_names final : match global_mode_decision final with DGroup g => g = final | _ => True end.
Proof. unfold global_mode_decision. by repeat case_bool_decide. Qed.

(** The groups a decision of the runtime can name *)
Lemma decision_known (keys : list string) rt ctx :
  (forall c, match dd_decision (decide_detailed (rt_route rt) c) with DGroup g => g ∈ (list_to_set keys : gset string) \/ g = rt_final rt | _ => True end) ->
  match dd_decision (flow_decision rt ctx) with DGroup g => g ∈ keys \/ g = rt_final rt | _ => True end.
Proof.
  intros Hd. unfold flow_decision. case_bool_decide; [done|]. case_bool_decide.
  - cbn. pose proof (global_names (rt_final rt)) as Hg. destruct (global_mode_decision _); [done|done|by right].
  - specialize (Hd ctx). destruct (dd_decision _); [done|done|]. by rewrite elem_of_list_to_set in Hd.
Qed.

Lemma built_unknown src plans outbounds route mode final revision sticky g : compile_groups src = Some plans -> g ∉ (gc_groups src).*1 ->
  rt_groups (build_runtime plans outbounds route mode final revision sticky) !! g = None.
Proof.
  intros Hc Hg. destruct (compile_groups_ok src plans Hc) as (Hkeys & _ & _). cbn. apply not_elem_of_list_to_map_1.
  rewrite <- list_fmap_compose. cbn. by rewrite <- Hkeys in Hg.
Qed.

End flow.

(** ** Witness *)
Module FlowConfigWitness.
Import Concrete RouteConfigConcrete RouteConfigWitness GroupResolveWitness GroupCompileWitness.
#[local] Existing Instances GroupSelectWitness.toy_lib GroupSelectWitness.toy_random GroupSelectWitness.toy_lru GroupSelectWitness.toy_smart GroupCompileWitness.toy_config.

Definition flow_plan : RoutePlan := default (mkPlan [] []) (compile_route office (list_to_set (gc_groups office_groups).*1)).

Definition flow_label (c : FlowContext) : option (string * list string) :=
  match RouteEngine_with flow_plan None with
  | Ok e => label_of (pick_outbound_for_context (build_runtime (plans_of office_groups) registry e "rule" (ro_final office) (fun _ => 1) no_sessions) c clocks)
  | _ => None
  end.

Lemma flow_wildcards : wildcards_build flow_plan.
Proof.
  intros w Hw.
  assert (Hall : forallb (fun m => match m with
      | MDomainWildcard w => bool_decide (is_Some (glob_build (normalize_route_domain_pattern w))) | _ => true end) (plan_leaves flow_plan) = true)
    by (vm_compute; reflexivity).
  rewrite forallb_forall in Hall. apply list_elem_of_In in Hw. specialize (Hall _ Hw). by apply bool_decide_eq_true in Hall.
Qed.

End FlowConfigWitness.
