(* ===== verification/Dial.v ===== *)
(** * Dialling a flow

    Models the dial loops of [core-runtime/src/engine.rs] ([dial_with_context],
    [dial_udp_with_context], [should_retry_dial], [record_group_dial_success],
    [record_group_dial_failure], [resolve_route_destination]): the flow is routed, the outbound is
    dialled, and after a failure that may be retried the groups are told and the flow is routed
    again, at most [DIAL_MAX_RETRIES] times.  What a dial returns is a function of the attempt and
    of the outbound; what other flows do to the runtime while a dial is awaited is a function of the
    attempt ([Environment]).  The labels dialled are collected.  What a
    dial tells the smart selector shows in the [cl_smart] of the next clocks, which is free.  Log
    lines and the fields of the result that only describe the flow are left out. *)

From stdpp Require Import base list gmap strings numbers option relations pretty.
From S2P Require Import Prelude Net Text TextSplit Instances Health RouteModel RouteMatch RouteEngine GroupSelect GroupResolve GroupResolveSpec RouteConfig RouteInstances.

Definition DIAL_MAX_RETRIES : nat := 10.

(** [io::ErrorKind] as far as the loops look at it *)
Inductive DialErrorKind : Type := DkUnsupported | DkInvalidInput | DkAddrNotAvailable | DkPermissionDenied | DkConnectionAborted | DkOther.

Record DialError : Type := mkDialError { de_kind : DialErrorKind; de_message : string }.

Definition udp_channel_text : string := "udp " +:+ str_of_bytes [233; 128; 154; 233; 129; 147].
Definition no_udp_text : string := str_of_bytes [228; 184; 141; 230; 148; 175; 230; 140; 129] +:+ " udp".

Definition is_non_retryable_dial_error (err : DialError) (network : NetworkKind) : bool :=
  match de_kind err with
  | DkUnsupported | DkInvalidInput | DkAddrNotAvailable | DkPermissionDenied | DkConnectionAborted => true
  | DkOther =>
    let msg := to_ascii_lowercase (de_message err) in
    let any := existsb (str_contains msg) in
    any ["no address associated"; "name or service not known"; "no such host"; "ip not found"; "dns record not found"]
    || any ["ip version"; "address family"; "ipv6 disabled"; "ipv6 is disabled"]
    || any ["loopback"; "self-capture"]
    || (is_udp network && any ["does not support udp"; "udp relay"; udp_channel_text; no_udp_text])
  end.

Definition should_retry_dial (decision : RouteDecision) (label : string) (err : DialError) (network : NetworkKind) (attempt : nat) : bool :=
  if (DIAL_MAX_RETRIES <=? attempt)%nat then false else
  if negb (match decision with DGroup _ => true | _ => false end) then false else
  if bool_decide (label = "DIRECT" \/ label = "BLOCK") then false else
  negb (is_non_retryable_dial_error err network).

Definition blocked_error : DialError := mkDialError DkConnectionAborted "blocked".
Definition exhausted_error (udp : bool) : DialError := mkDialError DkOther (if udp then "udp dial retry exhausted" else "dial retry exhausted").

Section dial.
Context `{GroupLib, GroupRandom, StickyCache, SmartApi, IpNetLib, !RouteLib, !RulesetIndexApi, NetText, StrCase}.

(** [answer] is what the resolver says of the host, [None] an error. *)
Definition resolve_route_destination (rt : Runtime) (ctx : FlowContext) (answer : option (list IpAddr)) : FlowContext :=
  if negb (needs_destination_ip (rt_route rt) ctx) then ctx else
  match answer with
  | Some (ip :: _) => mkFlow (fc_host ctx) (Some ip) (fc_port ctx) (fc_network ctx) (fc_process ctx) (fc_ruleset ctx) (fc_protocol ctx)
  | _ => ctx
  end.

(** ** What the groups are told *)

Definition record_group_dial_success (rt : Runtime) (chain : list string) : Runtime :=
  foldl (fun rt group =>
    match rt_groups rt !! group with
    | Some g => note_group rt group (on_dial_success g) (rt_tester rt)
    | None => rt
    end) rt (drop 1 chain).

(** [chain.windows(2)] *)
Fixpoint windows2 (l : list string) : list (string * string) :=
  match l with
  | a :: ((b :: _) as l') => (a, b) :: windows2 l'
  | _ => []
  end.

(** [now] and [now_ms]: the monotonic clock and the Unix time of the failure *)
Definition record_member_failure (rt : Runtime) (member group error : string) (now now_ms : Z) : Runtime :=
  match rt_groups rt !! group with
  | None => rt
  | Some g =>
    let tester := if bool_decide (gp_choose (sel_plan g) = Manual) then rt_tester rt
      else (fun t => mark_member_failed g member t error now_ms) <$> rt_tester rt in
    let '(g, check) := on_dial_failed g now in
    note_group rt group g (if check then (fun t => invalidate_fast_pick t group) <$> tester else tester)
  end.

Definition record_group_dial_failure (rt : Runtime) (chain : list string) (error : string) (now now_ms : Z) : Runtime :=
  foldl (fun rt pair => record_member_failure rt pair.1 pair.2 error now now_ms) rt (windows2 chain).

(** ** The loop *)

(** [en_dial attempt label] is [None] for a connection; [en_meanwhile attempt] is what happens to the runtime during the dial. *)
Record Environment : Type := mkEnvironment {
  en_dial : nat -> string -> option DialError;
  en_meanwhile : nat -> Runtime -> Runtime;
  en_clocks : nat -> nat -> Clock;
  en_now : nat -> Z;
  en_now_ms : nat -> Z
}.

Record DialResult : Type := mkDialResult { dr_outbound : string; dr_decision : RouteDecision; dr_chain : list string; dr_hit : RouteRuleHit; dr_route_ip : option IpAddr }.

(** The runtime afterwards, the result, and the outbounds dialled in order *)
Definition DialRun : Type := Runtime * (DialError + DialResult) * list string.

Definition udp_unsupported (p : ResolvedGroupPick) : DialError :=
  mkDialError DkUnsupported ("outbound `" +:+ rg_label p +:+ "`/" +:+ ob_protocol (rg_outbound p) +:+ " does not support UDP relay").

(** [udp] tells the two loops apart, [attempt] counts from 1, [rounds] are left, [attempted] holds the labels dialled so far. *)
Fixpoint dial_loop (udp : bool) (rounds attempt : nat) (rt : Runtime) (ctx : FlowContext) (attempted : list string) (last_err : option DialError) (env : Environment)
  : outcome DialRun :=
  match rounds with
  | O => Ok (rt, inl (default (exhausted_error udp) last_err), attempted)
  | S rounds =>
    '(rt, pick) ← pick_outbound_for_context rt ctx (en_clocks env attempt);
    let p := rk_resolved pick in
    match rk_decision pick with
    | DBlock => Ok (rt, inl blocked_error, attempted)
    | decision =>
      match (if bool_decide (rg_label p ∈ attempted) then last_err else None) with
      | Some err => Ok (rt, inl err, attempted)
      | None =>
        if udp && negb (ob_udp (rg_outbound p)) then Ok (rt, inl (udp_unsupported p), attempted) else
        let attempted := attempted ++ [rg_label p] in
        let rt := en_meanwhile env attempt rt in
        match en_dial env attempt (rg_label p) with
        | None =>
          Ok (record_group_dial_success rt (rg_chain p), inr (mkDialResult (rg_label p) decision (rg_chain p) (rk_hit pick) (fc_ip ctx)), attempted)
        | Some e =>
          let rt := record_group_dial_failure rt (rg_chain p) (de_message e) (en_now env attempt) (en_now_ms env attempt) in
          if should_retry_dial decision (rg_label p) e (if udp then NkUdp else fc_network ctx) attempt
          then dial_loop udp rounds (S attempt) rt ctx attempted (Some e) env
          else Ok (rt, inl e, attempted)
        end
      end
    end
  end.

Definition dial_with_context (rt : Runtime) (ctx : FlowContext) (answer : option (list IpAddr)) (env : Environment) : outcome DialRun :=
  dial_loop false DIAL_MAX_RETRIES 1 rt (resolve_route_destination rt ctx answer) [] None env.

Definition dial_udp_with_context (rt : Runtime) (ctx : FlowContext) (answer : option (list IpAddr)) (env : Environment) : outcome DialRun :=
  dial_loop true DIAL_MAX_RETRIES 1 rt (resolve_route_destination rt ctx answer) [] None env.

(** ** The groups are told without harm *)

Lemma remembered_less t t' name P : (forall e, ut_fast_pick t' !! name = Some e -> ut_fast_pick t !! name = Some e) -> remembered (Some t) name P -> remembered (Some t') name P.
Proof. cbn. intros Hs Hr w r E. by apply (Hr w), Hs. Qed.

Lemma invalidate_remembered t group name P : remembered (Some t) name P -> remembered (Some (invalidate_fast_pick t group)) name P.
Proof. apply remembered_less. intros e. cbn. rewrite lookup_delete. by case_decide. Qed.

Lemma mark_failed_remembered g member t error now name P : remembered (Some t) name P -> remembered (Some (mark_member_failed g member t error now)) name P.
Proof. intros Hr. apply invalidate_remembered. exact Hr. Qed.

Lemma on_dial_failed_plan g now : sel_plan (on_dial_failed g now).1 = sel_plan g.
Proof. unfold on_dial_failed. by repeat case_match. Qed.

Definition keeps (rt rt' : Runtime) : Prop := runtime_ok rt' /\ same_config rt rt'.

Lemma keeps_trans a b c : keeps a b -> keeps b c -> keeps a c.
Proof. intros [_ H1'] [H2' H3']. split; [done|by etrans]. Qed.

Lemma success_keeps rt chain : runtime_ok rt -> keeps rt (record_group_dial_success rt chain).
Proof.
  unfold record_group_dial_success. generalize (drop 1 chain). intros l. revert rt. induction l as [|g l IH]; intros rt Hok; [done|]. cbn.
  destruct (rt_groups rt !! g) as [sel|] eqn:E; [|by apply IH].
  destruct (note_group_ok rt g sel (on_dial_success sel) (rt_tester rt) Hok E eq_refl) as [Hok1 Hs1]; [auto|].
  eapply keeps_trans; [split; [exact Hok1|exact Hs1]|by apply IH].
Qed.

Lemma member_failure_keeps rt member group error now now_ms : runtime_ok rt -> keeps rt (record_member_failure rt member group error now now_ms).
Proof.
  intros Hok. unfold record_member_failure. destruct (rt_groups rt !! group) as [g|] eqn:E; [|done].
  pose proof (on_dial_failed_plan g now) as Hp. destruct (on_dial_failed g now) as [g' check].
  destruct (note_group_ok rt group g g' (if check then (fun t => invalidate_fast_pick t group) <$>
      (if bool_decide (gp_choose (sel_plan g) = Manual) then rt_tester rt else (fun t => mark_member_failed g member t error now_ms) <$> rt_tester rt)
      else (if bool_decide (gp_choose (sel_plan g) = Manual) then rt_tester rt else (fun t => mark_member_failed g member t error now_ms) <$> rt_tester rt)) Hok E Hp); [|done].
  intros name P Hr _. destruct (rt_tester rt) as [t|]; [|by repeat case_match].
  case_bool_decide; destruct check; cbn [fmap option_fmap option_map]; auto using invalidate_remembered, mark_failed_remembered.
Qed.

Lemma failure_keeps rt chain error now now_ms : runtime_ok rt -> keeps rt (record_group_dial_failure rt chain error now now_ms).
Proof.
  unfold record_group_dial_failure. generalize (windows2 chain). intros l. revert rt. induction l as [|x l IH]; intros rt Hok; [done|]. cbn.
  eapply keeps_trans; [by apply member_failure_keeps|]. apply IH. by apply member_failure_keeps.
Qed.

(** ** What is dialled *)

(** The environment keeps the state well-formed and the configuration. *)
Definition env_ok (env : Environment) : Prop := forall n rt, runtime_ok rt -> keeps rt (en_meanwhile env n rt).

(** An outbound the rules and groups allow for the flow, and one that relays UDP when asked to *)
Definition may_dial (rt : Runtime) (ctx : FlowContext) (udp : bool) (label : string) : Prop :=
  (exists o, rt_outbounds rt !! label = Some o /\ (udp = true -> ob_udp o = true))
  /\ match dd_decision (flow_decision rt ctx) with
     | DDirect => label = "DIRECT"
     | DBlock => False
     | DGroup g => label = "BLOCK" \/ exists g', rtc (member_of rt) g g' /\ (member_of rt g' label \/ fallback_of rt g' label)
     end.

(** Why a dial fails: the flow is blocked, some dial failed with this error, or the outbound does not relay UDP *)
Definition explains (rt : Runtime) (ctx : FlowContext) (udp : bool) (env : Environment) (trace : list string) (e : DialError) : Prop :=
  (dd_decision (flow_decision rt ctx) = DBlock /\ e = blocked_error /\ trace = [])
  \/ (exists n label, label ∈ trace /\ en_dial env n label = Some e)
  \/ (udp = true /\ de_kind e = DkUnsupported).

Lemma flow_decision_same rt rt' ctx : same_config rt rt' -> flow_decision rt' ctx = flow_decision rt ctx.
Proof. intros (_ & Hr & Hm & Hf & _). unfold flow_decision. by rewrite Hr, Hm, Hf. Qed.

Lemma member_of_iff rt rt' g m : same_config rt rt' -> member_of rt' g m <-> member_of rt g m.
Proof.
  intros Hs. split; [by apply member_of_same|]. apply member_of_same. destruct Hs as (H1' & H2' & H3' & H4' & H5'). split_and!; [congruence..|]. intros x. by rewrite H5'.
Qed.

Lemma rtc_mono_member rt rt' g g' : same_config rt rt' -> rtc (member_of rt') g g' -> rtc (member_of rt) g g'.
Proof. intros Hs. induction 1 as [|x y z Hxy _ IH]; [done|]. eapply rtc_l; [by eapply member_of_same|done]. Qed.

(** The state of the loop: what was dialled, and that a repeat is due to a group and a failure *)
Record loop_inv (rt0 : Runtime) (ctx : FlowContext) (udp : bool) (env : Environment) (rt : Runtime) (attempted : list string) (last_err : option DialError) : Prop := mkLoopInv {
  li_keeps : keeps rt0 rt;
  li_nodup : NoDup attempted;
  li_allowed : Forall (may_dial rt0 ctx udp) attempted;
  li_repeat : attempted = [] \/ (exists e, last_err = Some e /\ explains rt0 ctx udp env attempted e) /\ exists g, dd_decision (flow_decision rt0 ctx) = DGroup g
}.

(** What a finished run says *)
Record run_ok (rt0 : Runtime) (ctx : FlowContext) (udp : bool) (env : Environment) (most : nat) (run : DialRun) : Prop := mkRunOk {
  ru_keeps : keeps rt0 run.1.1;
  ru_nodup : NoDup run.2;
  ru_length : (length run.2 <= most)%nat;
  ru_allowed : Forall (may_dial rt0 ctx udp) run.2;
  ru_once : (1 < length run.2)%nat -> exists g, dd_decision (flow_decision rt0 ctx) = DGroup g;
  ru_result : match run.1.2 with
    | inl e => explains rt0 ctx udp env run.2 e
    | inr d => last run.2 = Some (dr_outbound d) /\ dr_decision d = dd_decision (flow_decision rt0 ctx) /\ exists n, en_dial env n (dr_outbound d) = None
    end
}.

Lemma inv_once rt0 ctx udp env rt attempted last_err : loop_inv rt0 ctx udp env rt attempted last_err -> (0 < length attempted)%nat -> exists g, dd_decision (flow_decision rt0 ctx) = DGroup g.
Proof. intros [_ _ _ [->|[_ ?]]]; [cbn; lia|done]. Qed.

(** One more outbound, allowed and not dialled yet *)
Lemma inv_dial rt0 ctx udp env rt attempted last_err label : loop_inv rt0 ctx udp env rt attempted last_err -> may_dial rt0 ctx udp label -> label ∉ attempted ->
  NoDup (attempted ++ [label]) /\ Forall (may_dial rt0 ctx udp) (attempted ++ [label]).
Proof.
  intros [_ Hn Ha _] Hm Hl. split; [|apply Forall_app; split; [done|by apply list.Forall_singleton]].
  apply NoDup_app. split_and!; [done| |apply NoDup_singleton]. intros x Hx ->%list_elem_of_singleton. done.
Qed.

(** A pick, seen from the start *)
Lemma pick_for_dial rt0 ctx udp rt clocks : keeps rt0 rt ->
  exists rt' k, pick_outbound_for_context rt ctx clocks = Ok (rt', k) /\ keeps rt0 rt' /\ rk_decision k = dd_decision (flow_decision rt0 ctx)
  /\ (rk_decision k <> DBlock -> (udp && negb (ob_udp (rg_outbound (rk_resolved k)))) = false -> may_dial rt0 ctx udp (rg_label (rk_resolved k))).
Proof.
  intros [Hok Hs]. destruct (flow_pick_ok rt ctx clocks Hok) as (rt' & k & E & Hok' & Hs' & Hd & Hreg & Hcase). exists rt', k.
  rewrite (flow_decision_same rt0 rt ctx Hs) in Hd. split; [done|]. split; [split; [done|by etrans]|]. split; [done|]. intros Hnb Hu. pose proof Hs as (Ho & _). split.
  - exists (rg_outbound (rk_resolved k)). split; [by rewrite <- Ho|]. intros ->. cbn in Hu. by apply negb_false_iff in Hu.
  - rewrite Hd in Hcase, Hnb. destruct (dd_decision (flow_decision rt0 ctx)); [done|done|]. destruct Hcase as (_ & _ & _ & [?|(g' & Hg & Hn)]); [by left|right].
    exists g'. split; [by eapply rtc_mono_member|]. destruct Hn; [left; by eapply member_of_same|right; by eapply fallback_of_same].
Qed.

Lemma dial_loop_ok rt0 ctx udp env : env_ok env -> forall rounds attempt rt attempted last_err, loop_inv rt0 ctx udp env rt attempted last_err -> (0 < rounds)%nat ->
  (rounds + attempt = S DIAL_MAX_RETRIES)%nat ->
  exists run, dial_loop udp rounds attempt rt ctx attempted last_err env = Ok run /\ run_ok rt0 ctx udp env (length attempted + rounds) run.
Proof.
  intros Henv. induction rounds as [|rounds IH]; intros attempt rt attempted last_err Hinv Hpos Hround; [lia|]. cbn [dial_loop].
  destruct (pick_for_dial rt0 ctx udp rt (en_clocks env attempt) (li_keeps _ _ _ _ _ _ _ Hinv)) as (rt1 & k & -> & Hk1 & Hd & Hmay). cbn [mbind outcome_bind].
  set (p := rk_resolved k) in *. set (label := rg_label p) in *.
  assert (Hstop : forall e, explains rt0 ctx udp env attempted e -> run_ok rt0 ctx udp env (length attempted + S rounds) (rt1, inl e, attempted)).
  { intros e He. constructor; cbn; [done|apply Hinv|lia|apply Hinv|intros ?; eapply inv_once; [exact Hinv|lia]|done]. }
  destruct (rk_decision k) as [| |g] eqn:Ek; [|eexists; split; [done|]; apply Hstop; left; split_and!; try done|].
  2: { destruct (li_repeat _ _ _ _ _ _ _ Hinv) as [?|[_ [g Hg]]]; [done|congruence]. }
  all: case_bool_decide as Hin; [destruct (li_repeat _ _ _ _ _ _ _ Hinv) as [Hnil|[(e & -> & He) _]]; [by rewrite Hnil in Hin; apply elem_of_nil in Hin|by eexists; split; [done|]; apply Hstop]|].
  all: destruct (udp && negb (ob_udp (rg_outbound p))) eqn:Eu;
    [eexists; split; [done|]; apply Hstop; right; right; apply andb_true_iff in Eu as [-> _]; done|].
  all: specialize (Hmay ltac:(done) eq_refl); destruct (inv_dial _ _ _ _ _ _ _ _ Hinv Hmay Hin) as [Hnd Hal]; destruct (Henv attempt rt1 (proj1 Hk1)) as [Hok2 Hs2];
    set (rt2 := en_meanwhile env attempt rt1) in *; assert (Hk2 : keeps rt0 rt2) by (by eapply keeps_trans; [exact Hk1|split]).
  all: assert (Hone : (1 < length (attempted ++ [label]))%nat -> exists g, dd_decision (flow_decision rt0 ctx) = DGroup g)
    by (rewrite length_app; cbn; intros ?; eapply inv_once; [exact Hinv|lia]).
  all: destruct (en_dial env attempt label) as [e|] eqn:Ee;
    [|eexists; split; [done|]; constructor; cbn; [eapply keeps_trans; [exact Hk2|by apply success_keeps]|done|rewrite length_app; cbn; lia|done|done|split_and!; [apply last_snoc|done|eauto]]].
  all: pose proof (failure_keeps rt2 (rg_chain p) (de_message e) (en_now env attempt) (en_now_ms env attempt) Hok2) as Hk3;
    assert (Hex : explains rt0 ctx udp env (attempted ++ [label]) e) by (right; left; exists attempt, label; split; [apply elem_of_app; right; apply list_elem_of_here|done]).
  all: match goal with |- context [if ?b then _ else _] => destruct b eqn:Er end;
    [|eexists; split; [done|]; constructor; cbn; [by eapply keeps_trans|done|rewrite length_app; cbn; lia|done|done|done]].
  - unfold should_retry_dial in Er. by destruct (_ <=? _)%nat.
  - assert (Hrounds : (0 < rounds)%nat) by (unfold should_retry_dial in Er; destruct (Nat.leb_spec DIAL_MAX_RETRIES attempt); [done|lia]).
    destruct (IH (S attempt) (record_group_dial_failure rt2 (rg_chain p) (de_message e) (en_now env attempt) (en_now_ms env attempt)) (attempted ++ [label]) (Some e)) as (run & Er' & Hrun); [|done|lia|].
    + constructor; [by eapply keeps_trans|done|done|right; split; [eauto|by exists g]].
    + exists run. split; [exact Er'|]. rewrite length_app in Hrun. cbn in Hrun. by replace (length attempted + S rounds)%nat with (length attempted + 1 + rounds)%nat by lia.
Qed.

(** ** Theorem *)

(** [C15] Dialling a flow always ends, with a connection or with an explained error: at most ten dials, never the
    same outbound twice, and only for a group more than one; everything dialled is what the rules
    and groups allow for the flow (DIRECT or a node only if they say so, nothing for a blocked flow),
    and for UDP it relays UDP; a connection comes from the last outbound dialled; and
    whatever other flows do meanwhile, the state stays well-formed and the configuration as it was. *)
Theorem dial_sound (udp : bool) rt ctx answer env : runtime_ok rt -> env_ok env ->
  exists run, (if udp then dial_udp_with_context else dial_with_context) rt ctx answer env = Ok run
    /\ run_ok rt (resolve_route_destination rt ctx answer) udp env DIAL_MAX_RETRIES run.
Proof.
  intros Hok Henv. set (ctx' := resolve_route_destination rt ctx answer).
  assert (Hinv : loop_inv rt ctx' udp env rt [] None) by (constructor; [by split|by apply NoDup_nil|by apply Forall_nil|by left]).
  destruct (dial_loop_ok rt ctx' udp env Henv DIAL_MAX_RETRIES 1 rt [] None Hinv) as (run & E & Hrun); [unfold DIAL_MAX_RETRIES; lia|done|].
  exists run. destruct udp; by split.
Qed.
End dial.

(** ** Witness *)
Module DialWitness.
Import Concrete RouteConfigConcrete GroupResolveWitness.
#[local] Existing Instances GroupSelectWitness.toy_lib GroupSelectWitness.toy_random GroupSelectWitness.toy_lru GroupSelectWitness.toy_smart.

(** The first node refuses, the second connects. *)
Definition first_refuses : Environment :=
  mkEnvironment (fun _ label => if String.eqb label "udp-node" then Some (mkDialError DkOther "connection refused") else None)
    (fun _ rt => rt) (fun n _ => mkClock 1000 1000 1000 0) (fun _ => 1000) (fun _ => 1000).

Definition probed : Runtime := mkRuntime registry (with_groups nested) (Some GroupSelectWitness.tester0) empty_engine "global" "main".

Lemma probed_ok : runtime_ok probed.
Proof.
  destruct nested_ok as [R1 R2 R3 R4 _]. constructor; [done|exact R2|exact R3|exact R4|].
  intros g sel _ w r E. exfalso. revert E. change (ut_fast_pick GroupSelectWitness.tester0) with (∅ : gmap string (option (Z * FastPickResult))). by rewrite lookup_empty.
Qed.

Definition dialled_labels (r : outcome DialRun) : option (list string * option string) :=
  match r with Ok (_, inr d, trace) => Some (trace, Some (dr_outbound d)) | Ok (_, inl _, trace) => Some (trace, None) | _ => None end.

Lemma dial_sound_witness :
  dialled_labels (dial_with_context probed (site NkTcp) None first_refuses) = Some (["udp-node"; "tcp-node"], Some "tcp-node")
  /\ dialled_labels (dial_udp_with_context probed (site NkUdp) None first_refuses) = Some (["udp-node"], None)
  /\ exists run, dial_with_context probed (site NkTcp) None first_refuses = Ok run /\ run_ok probed (resolve_route_destination probed (site NkTcp) None) false first_refuses DIAL_MAX_RETRIES run.
Proof.
  split; [vm_compute; reflexivity|]. split; [vm_compute; reflexivity|].
  apply (dial_sound false probed (site NkTcp) None first_refuses); [exact probed_ok|]. intros n rt Hok. split; [exact Hok|reflexivity].
Defined.
End DialWitness.
