(* ===== verification/SmartStats.v ===== *)
(** * Statistics of a node for smart selection

    Models [core-smart/src/metrics.rs].  Durations and instants are nanoseconds; each method
    reads the clocks it is given.  A method of the atomics is one step, so a [compare_exchange]
    right after its load succeeds. *)

From stdpp Require Import base list gmap strings numbers option sorting.
From S2P Require Import Prelude Health F64.

Definition HISTORY_CAP : Z := 20.
Definition LATENCY_WINDOW : Z := 32.
Definition BASELINE_BOOTSTRAP : Z := 3.
Definition BASELINE_ALPHA : f64 := f64_lit 20 100.
Definition BASELINE_MAX_STEP : f64 := f64_lit 125 100.
Definition SPIKE_FACTOR : f64 := f64_of 3.
Definition DEGRADE_FACTOR : f64 := f64_lit 150 100.
Definition RECOVER_FACTOR : f64 := f64_lit 120 100.
Definition RECOVER_SUCCESSES : Z := 2.
Definition SPEED_WINDOW : Z := from_secs 1.
Definition SPEED_CURRENT_TTL : Z := from_secs 30.
Definition SPEED_PEAK_HALF_LIFE_SECS : f64 := f64_mul (f64_of 10) (f64_of 60).
Definition SPEED_CLOCK_GATE_BYTES : Z := 256 * 1024.
Definition DURATION_MAX : Z := from_secs (2 ^ 64 - 1) + 999999999.

(** The clocks of a call: [Instant::now()], [SystemTime::now()] since the epoch, and what the
    platform can represent: the earliest instant and the last second of a [SystemTime] *)
Record SmartClock : Type := mkSmartClock { sk_instant : Z; sk_unix : Z; sk_earliest : Z; sk_last_secs : Z }.

(** ** Data *)

(** [HistoryEntry] of [core-store/src/blobs.rs] *)
Record HistoryEntry : Type := mkHistoryEntry { he_time_ms : Z; he_delay_ms : Z }.

Record Inner : Type := mkInner {
  in_samples : Z;
  in_success_ewma : f64;
  in_p50_latency_ms : f64;
  in_p90_latency_ms : f64;
  in_jitter_ms : f64;
  in_timeout_rate : f64;
  in_baseline_latency_ms : f64;
  in_baseline_samples : Z;
  in_high_latency_streak : Z;
  in_degraded : bool;
  in_recover_streak : Z;
  in_last_failure : option Z;
  in_last_error : option string;
  in_last_used : option Z;
  in_latency_samples : list Z;
  in_history : list HistoryEntry;
  in_throughput_ewma_bps : f64;
  in_throughput_peak_bps : f64;
  in_throughput_updated : option Z
}.

(** Assignments to single fields *)
Definition with_samples (i : Inner) (samples : Z) : Inner :=
  mkInner samples (in_success_ewma i) (in_p50_latency_ms i) (in_p90_latency_ms i) (in_jitter_ms i) (in_timeout_rate i) (in_baseline_latency_ms i) (in_baseline_samples i) (in_high_latency_streak i) (in_degraded i) (in_recover_streak i) (in_last_failure i) (in_last_error i) (in_last_used i) (in_latency_samples i) (in_history i) (in_throughput_ewma_bps i) (in_throughput_peak_bps i) (in_throughput_updated i).
Definition with_rates (i : Inner) (success_ewma : f64) (timeout_rate : f64) : Inner :=
  mkInner (in_samples i) success_ewma (in_p50_latency_ms i) (in_p90_latency_ms i) (in_jitter_ms i) timeout_rate (in_baseline_latency_ms i) (in_baseline_samples i) (in_high_latency_streak i) (in_degraded i) (in_recover_streak i) (in_last_failure i) (in_last_error i) (in_last_used i) (in_latency_samples i) (in_history i) (in_throughput_ewma_bps i) (in_throughput_peak_bps i) (in_throughput_updated i).
Definition with_latency (i : Inner) (latency_samples : list Z) (p50_latency_ms : f64) (p90_latency_ms : f64) (jitter_ms : f64) : Inner :=
  mkInner (in_samples i) (in_success_ewma i) p50_latency_ms p90_latency_ms jitter_ms (in_timeout_rate i) (in_baseline_latency_ms i) (in_baseline_samples i) (in_high_latency_streak i) (in_degraded i) (in_recover_streak i) (in_last_failure i) (in_last_error i) (in_last_used i) latency_samples (in_history i) (in_throughput_ewma_bps i) (in_throughput_peak_bps i) (in_throughput_updated i).
Definition with_baseline (i : Inner) (baseline_latency_ms : f64) (baseline_samples : Z) (high_latency_streak : Z) : Inner :=
  mkInner (in_samples i) (in_success_ewma i) (in_p50_latency_ms i) (in_p90_latency_ms i) (in_jitter_ms i) (in_timeout_rate i) baseline_latency_ms baseline_samples high_latency_streak (in_degraded i) (in_recover_streak i) (in_last_failure i) (in_last_error i) (in_last_used i) (in_latency_samples i) (in_history i) (in_throughput_ewma_bps i) (in_throughput_peak_bps i) (in_throughput_updated i).
Definition with_recovery (i : Inner) (degraded : bool) (recover_streak : Z) : Inner :=
  mkInner (in_samples i) (in_success_ewma i) (in_p50_latency_ms i) (in_p90_latency_ms i) (in_jitter_ms i) (in_timeout_rate i) (in_baseline_latency_ms i) (in_baseline_samples i) (in_high_latency_streak i) degraded recover_streak (in_last_failure i) (in_last_error i) (in_last_used i) (in_latency_samples i) (in_history i) (in_throughput_ewma_bps i) (in_throughput_peak_bps i) (in_throughput_updated i).
Definition with_used (i : Inner) (last_used : option Z) : Inner :=
  mkInner (in_samples i) (in_success_ewma i) (in_p50_latency_ms i) (in_p90_latency_ms i) (in_jitter_ms i) (in_timeout_rate i) (in_baseline_latency_ms i) (in_baseline_samples i) (in_high_latency_streak i) (in_degraded i) (in_recover_streak i) (in_last_failure i) (in_last_error i) last_used (in_latency_samples i) (in_history i) (in_throughput_ewma_bps i) (in_throughput_peak_bps i) (in_throughput_updated i).
Definition with_failure (i : Inner) (last_failure : option Z) (last_error : option string) : Inner :=
  mkInner (in_samples i) (in_success_ewma i) (in_p50_latency_ms i) (in_p90_latency_ms i) (in_jitter_ms i) (in_timeout_rate i) (in_baseline_latency_ms i) (in_baseline_samples i) (in_high_latency_streak i) (in_degraded i) (in_recover_streak i) last_failure last_error (in_last_used i) (in_latency_samples i) (in_history i) (in_throughput_ewma_bps i) (in_throughput_peak_bps i) (in_throughput_updated i).
Definition with_history (i : Inner) (history : list HistoryEntry) : Inner :=
  mkInner (in_samples i) (in_success_ewma i) (in_p50_latency_ms i) (in_p90_latency_ms i) (in_jitter_ms i) (in_timeout_rate i) (in_baseline_latency_ms i) (in_baseline_samples i) (in_high_latency_streak i) (in_degraded i) (in_recover_streak i) (in_last_failure i) (in_last_error i) (in_last_used i) (in_latency_samples i) history (in_throughput_ewma_bps i) (in_throughput_peak_bps i) (in_throughput_updated i).
Definition with_speed (i : Inner) (throughput_ewma_bps : f64) (throughput_peak_bps : f64) (throughput_updated : option Z) : Inner :=
  mkInner (in_samples i) (in_success_ewma i) (in_p50_latency_ms i) (in_p90_latency_ms i) (in_jitter_ms i) (in_timeout_rate i) (in_baseline_latency_ms i) (in_baseline_samples i) (in_high_latency_streak i) (in_degraded i) (in_recover_streak i) (in_last_failure i) (in_last_error i) (in_last_used i) (in_latency_samples i) (in_history i) throughput_ewma_bps throughput_peak_bps throughput_updated.

Definition Inner_default : Inner :=
  mkInner 0 (f64_lit 5 10) (f64_of 200) (f64_of 200) (f64_of 0) (f64_of 0) (f64_of 0) 0 0 false 0 None None None [] [] (f64_of 0) (f64_of 0) None.

Record NodeStats : Type := mkNodeStats {
  ns_inner : Inner;
  ns_sample_count : Z;
  ns_active_conn : Z;
  ns_traffic_bytes : Z;
  ns_traffic_clock_gate : Z;
  ns_traffic_window_started_ms : Z;
  ns_throughput_hint : f64;
  ns_last_persist_ms : Z
}.

Definition NodeStats_new : NodeStats := mkNodeStats Inner_default 0 0 0 0 0 (f64_of 0) 0.

(** [NodeStatsBlob] of [core-store/src/blobs.rs] *)
Record NodeStatsBlob : Type := mkNodeStatsBlob {
  nb_samples : Z; nb_success_ewma : f64; nb_p50_latency_ms : f64; nb_p90_latency_ms : f64; nb_jitter_ms : f64; nb_timeout_rate : f64;
  nb_baseline_latency_ms : f64; nb_degraded : bool; nb_throughput_ewma_bps : f64; nb_throughput_peak_bps : f64; nb_throughput_updated_secs : option Z;
  nb_last_failure_secs : option Z; nb_last_error : option string; nb_last_used_secs : option Z; nb_history : list HistoryEntry
}.

Record NodeStatSnapshot : Type := mkSnapshot {
  sn_samples : Z; sn_success_rate : f64; sn_p50_latency_ms : f64; sn_p90_latency_ms : f64; sn_jitter_ms : f64; sn_timeout_rate : f64;
  sn_baseline_latency_ms : f64; sn_degraded : bool; sn_active_conn : Z; sn_throughput_bps : f64; sn_cooldown : Z; sn_last_error : option string
}.

(** ** Helpers *)

Definition ewma (previous sample alpha : f64) : f64 := (previous * (#1 - alpha) + sample * alpha)%f64.

Definition unix_now_ms (clock : SmartClock) : Z := Z.min (Z.max 0 (sk_unix clock) / 10 ^ 6) (2 ^ 64 - 1).

Definition elapsed (clock : SmartClock) (t : Z) : Z := saturating_sub (sk_instant clock) t.

Definition as_secs_f64 (d : Z) : f64 := (f64_of (d / 10 ^ 9) + f64_of (d mod 10 ^ 9) / f64_of (10 ^ 9))%f64.

(** [values.sort_unstable()] on [u32] *)
Definition sort_u32 (l : list Z) : list Z := merge_sort Z.le l.

Definition latency_quantiles (samples : list Z) : f64 * f64 :=
  match samples with
  | [] => (f64_of 200, f64_of 200)
  | _ =>
    let values := sort_u32 samples in
    let n := (length values - 1)%nat in
    (f64_of (values !!! (n / 2)%nat), f64_of (values !!! ((n * 9 + 9) / 10)%nat))
  end.

Definition push_history (history : list HistoryEntry) (delay_ms : Z) (clock : SmartClock) : list HistoryEntry :=
  trim_front (history ++ [mkHistoryEntry (unix_now_ms clock) delay_ms]) HISTORY_CAP.

Definition update_baseline (i : Inner) (latency_ms : f64) : Inner :=
  if in_baseline_samples i <? BASELINE_BOOTSTRAP then
    let count := f64_of (in_baseline_samples i + 1) in
    with_baseline i ((in_baseline_latency_ms i * (count - #1) + latency_ms) / count)%f64 (in_baseline_samples i + 1) (in_high_latency_streak i)
  else if (in_baseline_latency_ms i * SPIKE_FACTOR <? latency_ms)%f64 then
    let streak := saturating_add 8 (in_high_latency_streak i) 1 in
    if 5 <=? streak then with_baseline i (in_p50_latency_ms i) (in_baseline_samples i) 0
    else with_baseline i (in_baseline_latency_ms i) (in_baseline_samples i) streak
  else
    let capped := f64_min latency_ms (in_baseline_latency_ms i * BASELINE_MAX_STEP)%f64 in
    with_baseline i (ewma (in_baseline_latency_ms i) capped BASELINE_ALPHA) (in_baseline_samples i) 0.

Definition update_recovery (i : Inner) (latency_ms : f64) : Inner :=
  if (BASELINE_BOOTSTRAP <=? in_baseline_samples i) && (in_baseline_latency_ms i * DEGRADE_FACTOR <? latency_ms)%f64 then with_recovery i true 0
  else if in_degraded i && ((in_baseline_latency_ms i <=? #0)%f64 || (latency_ms <=? in_baseline_latency_ms i * RECOVER_FACTOR)%f64) then
    let streak := saturating_add 8 (in_recover_streak i) 1 in
    if RECOVER_SUCCESSES <=? streak then with_recovery i false 0 else with_recovery i (in_degraded i) streak
  else if in_degraded i then with_recovery i (in_degraded i) 0 else i.

Definition instant_to_unix (instant : option Z) (clock : SmartClock) : option Z :=
  t ← instant;
  if sk_instant clock <? t then None else
  let then_ := sk_unix clock - (sk_instant clock - t) in
  if then_ <? 0 then None else Some (then_ / 10 ^ 9).

Definition restore_instant (seconds : option Z) (clock : SmartClock) : option Z :=
  s ← seconds;
  if sk_last_secs clock <? s then None else
  let elapsed := sk_unix clock - from_secs s in
  if elapsed <? 0 then None else
  let t := sk_instant clock - elapsed in
  if t <? sk_earliest clock then None else Some t.

(** ** Probes and dials *)

Definition set_inner (s : NodeStats) (i : Inner) (sample_count : Z) : NodeStats :=
  mkNodeStats i sample_count (ns_active_conn s) (ns_traffic_bytes s) (ns_traffic_clock_gate s) (ns_traffic_window_started_ms s) (ns_throughput_hint s) (ns_last_persist_ms s).

(** [while len > n { pop_front() }] of [Health.trim_front] serves both deques. *)
Definition record_success_inner (s : NodeStats) (latency : Z) (add_history : bool) (clock : SmartClock) : NodeStats :=
  let latency_ms := Z.min (latency / 10 ^ 6) (2 ^ 32 - 1) in
  let i := ns_inner s in
  let i := with_samples i (saturating_add 32 (in_samples i) 1) in
  let i := with_rates i (ewma (in_success_ewma i) (f64_of 1) (f64_lit 2 10)) (ewma (in_timeout_rate i) (f64_of 0) (f64_lit 2 10)) in
  let i := with_used i (Some (sk_instant clock)) in
  let previous_p50 := in_p50_latency_ms i in
  let window := trim_front (in_latency_samples i ++ [latency_ms]) LATENCY_WINDOW in
  let '(p50, p90) := latency_quantiles window in
  let i := with_latency i window p50 p90 (ewma (in_jitter_ms i) (f64_abs (f64_of latency_ms - previous_p50)%f64) (f64_lit 20 100)) in
  let i := update_baseline i (f64_of latency_ms) in
  let i := update_recovery i (f64_of latency_ms) in
  let i := if negb (in_degraded i) then with_failure i (in_last_failure i) None else i in
  let i := if add_history then with_history i (push_history (in_history i) latency_ms clock) else i in
  set_inner s i (in_samples i).

Definition record_success (s : NodeStats) (latency : Z) (clock : SmartClock) : NodeStats := record_success_inner s latency false clock.
Definition record_probe (s : NodeStats) (latency : Z) (clock : SmartClock) : NodeStats := record_success_inner s latency true clock.

Definition record_failure_inner (s : NodeStats) (reason : string) (add_history : bool) (clock : SmartClock) : NodeStats :=
  let i := ns_inner s in
  let i := with_samples i (saturating_add 32 (in_samples i) 1) in
  let i := with_rates i (ewma (in_success_ewma i) (f64_of 0) (f64_lit 2 10)) (ewma (in_timeout_rate i) (f64_of 1) (f64_lit 2 10)) in
  let i := with_failure i (Some (sk_instant clock)) (Some reason) in
  let i := with_recovery i true 0 in
  let i := if add_history then with_history i (push_history (in_history i) 0 clock) else i in
  set_inner s i (in_samples i).

Definition record_failure (s : NodeStats) (reason : string) (clock : SmartClock) : NodeStats := record_failure_inner s reason false clock.
Definition record_probe_failure (s : NodeStats) (reason : string) (clock : SmartClock) : NodeStats := record_failure_inner s reason true clock.

Definition with_persisted (s : NodeStats) (now : Z) : NodeStats :=
  mkNodeStats (ns_inner s) (ns_sample_count s) (ns_active_conn s) (ns_traffic_bytes s) (ns_traffic_clock_gate s) (ns_traffic_window_started_ms s) (ns_throughput_hint s) now.

Definition should_persist (s : NodeStats) (interval : Z) (clock : SmartClock) : NodeStats * bool :=
  let now := unix_now_ms clock in
  let previous := ns_last_persist_ms s in
  if negb (previous =? 0) && (saturating_sub now previous <? as_millis_u64 interval) then (s, false) else (with_persisted s now, true).

(** ** Connections and traffic *)

Definition with_conn (s : NodeStats) (n : Z) : NodeStats :=
  mkNodeStats (ns_inner s) (ns_sample_count s) n (ns_traffic_bytes s) (ns_traffic_clock_gate s) (ns_traffic_window_started_ms s) (ns_throughput_hint s) (ns_last_persist_ms s).

Definition open_connection (s : NodeStats) : NodeStats := with_conn s (wrapping_add 32 (ns_active_conn s) 1).
Definition close_connection (s : NodeStats) : NodeStats := with_conn s (saturating_sub (ns_active_conn s) 1).

Definition with_traffic (s : NodeStats) (bytes gate started : Z) : NodeStats :=
  mkNodeStats (ns_inner s) (ns_sample_count s) (ns_active_conn s) bytes gate started (ns_throughput_hint s) (ns_last_persist_ms s).

Definition with_hint (s : NodeStats) (i : Inner) (hint : f64) : NodeStats :=
  mkNodeStats i (ns_sample_count s) (ns_active_conn s) (ns_traffic_bytes s) (ns_traffic_clock_gate s) (ns_traffic_window_started_ms s) hint (ns_last_persist_ms s).

Definition flush_speed_window (s : NodeStats) (now_ms : Z) (clock : SmartClock) : NodeStats :=
  let started := ns_traffic_window_started_ms s in
  if started =? 0 then with_traffic s (ns_traffic_bytes s) (ns_traffic_clock_gate s) now_ms else
  let elapsed_ms := saturating_sub now_ms started in
  if elapsed_ms <? as_millis_u64 SPEED_WINDOW then s else
  let bytes := ns_traffic_bytes s in
  let s := with_traffic s 0 (ns_traffic_clock_gate s) now_ms in
  if (bytes =? 0) || (elapsed_ms =? 0) then s else
  let speed := (f64_of bytes * #1000 / f64_of elapsed_ms)%f64 in
  let i := ns_inner s in
  let ewma_bps := if (in_throughput_ewma_bps i <=? #0)%f64 then speed else ewma (in_throughput_ewma_bps i) speed (f64_lit 35 100) in
  let peak := f64_max (in_throughput_peak_bps i) speed in
  with_hint s (with_speed i ewma_bps peak (Some (sk_instant clock))) (f64_max ewma_bps peak).

Definition record_transfer (s : NodeStats) (bytes : Z) (clock : SmartClock) : NodeStats :=
  if 0 <? bytes then
    let previous_bytes := ns_traffic_bytes s in
    let previous := ns_traffic_clock_gate s in
    let s := with_traffic s (wrapping_add 64 previous_bytes bytes) (wrapping_add 64 previous bytes) (ns_traffic_window_started_ms s) in
    if (previous_bytes =? 0) && (ns_traffic_window_started_ms s =? 0) then flush_speed_window s (unix_now_ms clock) clock else
    if saturating_add 64 previous bytes <? SPEED_CLOCK_GATE_BYTES then s else
    let gate := ns_traffic_clock_gate s in
    let s := with_traffic s (ns_traffic_bytes s) 0 (ns_traffic_window_started_ms s) in
    if gate <? SPEED_CLOCK_GATE_BYTES then s else flush_speed_window s (unix_now_ms clock) clock
  else flush_speed_window s (unix_now_ms clock) clock.

(** The observer of one connection: [closed] *)
Definition NodeFlowObserver_new (s : NodeStats) : NodeStats * bool := (open_connection s, false).

Definition on_upload (s : NodeStats) (bytes : Z) (clock : SmartClock) : NodeStats := record_transfer s bytes clock.
Definition on_download (s : NodeStats) (bytes : Z) (clock : SmartClock) : NodeStats := record_transfer s bytes clock.

Definition on_close (s : NodeStats) (closed : bool) (clock : SmartClock) : NodeStats * bool :=
  if closed then (s, true) else (close_connection (record_transfer s 0 clock), true).

(** ** Reading *)

Section snapshot.
Context `{Libm}.

Definition snapshot_for_scoring (s : NodeStats) (now_ms : Z) (include_error : bool) (clock : SmartClock) : NodeStats * NodeStatSnapshot :=
  let s := flush_speed_window s now_ms clock in
  let i := ns_inner s in
  let speed_age := match in_throughput_updated i with Some t => elapsed clock t | None => DURATION_MAX end in
  let current_speed := if speed_age <=? SPEED_CURRENT_TTL then in_throughput_ewma_bps i else f64_of 0 in
  let decayed_peak := if speed_age =? DURATION_MAX then f64_of 0
    else (in_throughput_peak_bps i * powf (f64_lit 5 10) (as_secs_f64 speed_age / SPEED_PEAK_HALF_LIFE_SECS))%f64 in
  (s, mkSnapshot (in_samples i) (in_success_ewma i) (in_p50_latency_ms i) (in_p90_latency_ms i) (in_jitter_ms i) (in_timeout_rate i) (in_baseline_latency_ms i)
    (in_degraded i) (ns_active_conn s) (f64_max current_speed decayed_peak)
    (match in_last_failure i with Some t => elapsed clock t | None => DURATION_MAX end) (if include_error then in_last_error i else None)).

Definition snapshot_at (s : NodeStats) (now_ms : Z) (clock : SmartClock) : NodeStats * NodeStatSnapshot := snapshot_for_scoring s now_ms true clock.
Definition snapshot (s : NodeStats) (clock : SmartClock) : NodeStats * NodeStatSnapshot := snapshot_at s (unix_now_ms clock) clock.
End snapshot.

Definition to_blob (s : NodeStats) (clock : SmartClock) : NodeStats * NodeStatsBlob :=
  let s := flush_speed_window s (unix_now_ms clock) clock in
  let i := ns_inner s in
  (s, mkNodeStatsBlob (in_samples i) (in_success_ewma i) (in_p50_latency_ms i) (in_p90_latency_ms i) (in_jitter_ms i) (in_timeout_rate i) (in_baseline_latency_ms i)
    (in_degraded i) (in_throughput_ewma_bps i) (in_throughput_peak_bps i) (instant_to_unix (in_throughput_updated i) clock)
    (instant_to_unix (in_last_failure i) clock) (in_last_error i) (instant_to_unix (in_last_used i) clock) (in_history i)).

Definition from_blob (b : NodeStatsBlob) (clock : SmartClock) : NodeStats :=
  let recent := take (Z.to_nat LATENCY_WINDOW) (filter (fun e => 0 < he_delay_ms e) (rev (nb_history b))) in
  let latency_samples := he_delay_ms <$> rev recent in
  let p50 := if (#0 <? nb_p50_latency_ms b)%f64 then nb_p50_latency_ms b else f64_of 200 in
  let p90 := if (#0 <? nb_p90_latency_ms b)%f64 then nb_p90_latency_ms b else p50 in
  mkNodeStats
    (mkInner (nb_samples b) (nb_success_ewma b) p50 p90 (nb_jitter_ms b) (nb_timeout_rate b) (nb_baseline_latency_ms b) (Z.min (nb_samples b) BASELINE_BOOTSTRAP) 0
      (nb_degraded b) 0 (restore_instant (nb_last_failure_secs b) clock) (nb_last_error b) (restore_instant (nb_last_used_secs b) clock) latency_samples (nb_history b)
      (nb_throughput_ewma_bps b) (nb_throughput_peak_bps b) (restore_instant (nb_throughput_updated_secs b) clock))
    (nb_samples b) 0 0 0 0 (f64_max (nb_throughput_ewma_bps b) (nb_throughput_peak_bps b)) 0.

(** ** What each operation keeps *)

(** Flushing the speed window changes only the throughput fields. *)
Lemma flush_keeps s now_ms clock : let s' := flush_speed_window s now_ms clock in
  exists ewma_bps peak updated, ns_inner s' = with_speed (ns_inner s) ewma_bps peak updated
  /\ ns_sample_count s' = ns_sample_count s /\ ns_active_conn s' = ns_active_conn s
  /\ (ns_throughput_hint s = f64_max (in_throughput_ewma_bps (ns_inner s)) (in_throughput_peak_bps (ns_inner s)) -> ns_throughput_hint s' = f64_max ewma_bps peak).
Proof.
  cbv zeta. unfold flush_speed_window. destruct (ns_inner s) as [] eqn:E.
  repeat match goal with |- context [if ?b then _ else _] => lazymatch b with context [if _ then _ else _] => fail | _ => destruct b end end;
    cbn; rewrite ?E; cbn; eexists _, _, _; (split_and!; [reflexivity|done|done|done]).
Qed.

Lemma transfer_keeps s bytes clock : let s' := record_transfer s bytes clock in
  exists ewma_bps peak updated, ns_inner s' = with_speed (ns_inner s) ewma_bps peak updated
  /\ ns_sample_count s' = ns_sample_count s /\ ns_active_conn s' = ns_active_conn s
  /\ (ns_throughput_hint s = f64_max (in_throughput_ewma_bps (ns_inner s)) (in_throughput_peak_bps (ns_inner s)) -> ns_throughput_hint s' = f64_max ewma_bps peak).
Proof.
  cbv zeta. unfold record_transfer. assert (Hid : exists ewma_bps peak updated, ns_inner s = with_speed (ns_inner s) ewma_bps peak updated
    /\ (ns_throughput_hint s = f64_max (in_throughput_ewma_bps (ns_inner s)) (in_throughput_peak_bps (ns_inner s)) -> ns_throughput_hint s = f64_max ewma_bps peak)).
  { destruct (ns_inner s). eexists _, _, _. split; [reflexivity|done]. }
  destruct Hid as (a & b & c & Hi & Hh).
  repeat case_match; try (eexists a, b, c; by split_and!).
  all: match goal with |- context [flush_speed_window ?t ?n ?k] => exact (flush_keeps t n k) end.
Qed.

(** ** Quantiles *)

Lemma sort_u32_perm l : sort_u32 l ≡ₚ l.
Proof. apply merge_sort_Permutation. Qed.

Lemma sort_u32_sorted l : StronglySorted Z.le (sort_u32 l).
Proof. apply StronglySorted_merge_sort; [intros x y z; lia|intros x y; lia]. Qed.

Lemma sorted_lookup l (i j : nat) x y : StronglySorted Z.le l -> l !! i = Some x -> l !! j = Some y -> (i < j)%nat -> x <= y.
Proof.
  intros Hs. revert i j. induction Hs as [|a l Hs IH Ha]; intros i j Hx Hy Hij; [done|]. destruct j as [|j]; [lia|]. destruct i as [|i]; cbn in *.
  - simplify_eq. rewrite list.Forall_forall in Ha. eapply Ha, list_elem_of_lookup_2, Hy.
  - apply (IH i j); [done|done|lia].
Qed.

(** Both quantiles are samples of the window, the lower one first. *)
Lemma quantiles_of_samples l : l <> [] -> exists p50 p90, latency_quantiles l = (f64_of p50, f64_of p90) /\ p50 ∈ l /\ p90 ∈ l /\ p50 <= p90.
Proof.
  intros Hl. destruct l as [|x l]; [done|]. unfold latency_quantiles. set (v := sort_u32 (x :: l)). set (n := (length v - 1)%nat).
  assert (Hlen : (length v = S (length l))%nat) by (unfold v; by rewrite sort_u32_perm).
  assert (Hin : forall k, (k <= n)%nat -> v !!! k ∈ x :: l).
  { intros k Hk. rewrite <- (sort_u32_perm (x :: l)). fold v. apply list_elem_of_lookup_total_2. lia. }
  assert (H1 : (n / 2 <= n)%nat) by (apply Nat.Div0.div_le_upper_bound; lia).
  assert (H2 : ((n * 9 + 9) / 10 <= n)%nat).
  { pose proof (Nat.div_mod_eq (n * 9 + 9) 10). pose proof (Nat.mod_upper_bound (n * 9 + 9) 10). lia. }
  assert (H3 : (n / 2 <= (n * 9 + 9) / 10)%nat).
  { pose proof (Nat.div_mod_eq n 2). pose proof (Nat.div_mod_eq (n * 9 + 9) 10). pose proof (Nat.mod_upper_bound n 2). pose proof (Nat.mod_upper_bound (n * 9 + 9) 10). lia. }
  eexists _, _. split_and!; [reflexivity|by apply Hin|by apply Hin|].
  destruct (decide (n / 2 = (n * 9 + 9) / 10)%nat) as [->|Hne]; [lia|].
  eapply (sorted_lookup v); [apply sort_u32_sorted| | |]; [apply list_lookup_lookup_total_lt; lia..|lia].
Qed.

(** ** A node in use *)

(** The statistics and the observers of its connections, [true] when closed *)
Definition Node : Type := NodeStats * list bool.

Fixpoint open_count (obs : list bool) : Z :=
  match obs with [] => 0 | closed :: obs => (if closed then 0 else 1) + open_count obs end.

(** Everything that happens to a node; fewer than [2^32] connections are open at a time. *)
Inductive node_step `{Libm} : Node -> Node -> Prop :=
| NdSuccess s obs latency history clock : 0 <= latency -> node_step (s, obs) (record_success_inner s latency history clock, obs)
| NdFailure s obs reason history clock : node_step (s, obs) (record_failure_inner s reason history clock, obs)
| NdPersist s obs interval clock : node_step (s, obs) ((should_persist s interval clock).1, obs)
| NdOpen s obs : open_count obs + 1 < 2 ^ 32 -> node_step (s, obs) ((NodeFlowObserver_new s).1, obs ++ [false])
| NdTransfer s obs bytes clock : node_step (s, obs) (record_transfer s bytes clock, obs)
| NdClose s obs k closed clock : obs !! k = Some closed -> node_step (s, obs) ((on_close s closed clock).1, <[k:=true]> obs)
| NdSnapshot s obs now_ms err clock : node_step (s, obs) ((snapshot_for_scoring s now_ms err clock).1, obs)
| NdBlob s obs clock : node_step (s, obs) ((to_blob s clock).1, obs).

(** The windows are bounded, the quantiles are those of the window, the counters below their
    thresholds, a healthy node has no error, and the hint is the better of the two speeds. *)
Record inner_ok (i : Inner) : Prop := mkInnerOk {
  io_window : Z.of_nat (length (in_latency_samples i)) <= LATENCY_WINDOW;
  io_quantiles : (in_p50_latency_ms i, in_p90_latency_ms i) = latency_quantiles (in_latency_samples i);
  io_history : Z.of_nat (length (in_history i)) <= HISTORY_CAP;
  io_samples : 0 <= in_samples i < 2 ^ 32;
  io_bootstrap : 0 <= in_baseline_samples i <= BASELINE_BOOTSTRAP;
  io_spikes : 0 <= in_high_latency_streak i < 5;
  io_recover : 0 <= in_recover_streak i < RECOVER_SUCCESSES;
  io_healthy : in_degraded i = false -> in_last_error i = None /\ in_recover_streak i = 0
}.

Record node_ok (n : Node) : Prop := mkNodeOk {
  no_inner : inner_ok (ns_inner n.1);
  no_count : ns_sample_count n.1 = in_samples (ns_inner n.1);
  no_active : ns_active_conn n.1 = open_count n.2;
  no_active_u32 : open_count n.2 < 2 ^ 32;
  no_hint : ns_throughput_hint n.1 = f64_max (in_throughput_ewma_bps (ns_inner n.1)) (in_throughput_peak_bps (ns_inner n.1))
}.

Lemma trim_length {A} (l : list A) cap : 0 <= cap -> Z.of_nat (length (trim_front l cap)) <= cap.
Proof. intros Hc. destruct (trim_front_suffix l cap Hc) as [_ ->]. lia. Qed.

Lemma update_baseline_fields i x : exists b n k, update_baseline i x = with_baseline i b n k
  /\ (0 <= in_baseline_samples i <= BASELINE_BOOTSTRAP -> 0 <= n <= BASELINE_BOOTSTRAP) /\ (0 <= in_high_latency_streak i < 5 -> 0 <= k < 5).
Proof.
  unfold update_baseline, BASELINE_BOOTSTRAP, saturating_add. destruct (Z.ltb_spec (in_baseline_samples i) 3).
  - eexists _, _, _. split_and!; [reflexivity|lia|lia].
  - destruct (f64_lt _ _); [destruct (Z.leb_spec 5 (Z.min (in_high_latency_streak i + 1) (2 ^ 8 - 1)))|]; (eexists _, _, _; split_and!; [reflexivity|lia|lia]).
Qed.

(** [update_recovery] needs two good samples in a row to make a degraded node healthy. *)
Lemma update_recovery_fields i x : 0 <= in_recover_streak i < RECOVER_SUCCESSES -> (in_degraded i = false -> in_recover_streak i = 0) ->
  exists d k, update_recovery i x = with_recovery i d k /\ 0 <= k < RECOVER_SUCCESSES /\ (d = false -> k = 0)
    /\ (d = false -> in_degraded i = false \/ in_recover_streak i = 1) /\ (d = true -> k <= in_recover_streak i + 1).
Proof.
  intros Hk Hh. unfold update_recovery, RECOVER_SUCCESSES, saturating_add in *. assert (Hid : i = with_recovery i (in_degraded i) (in_recover_streak i)) by (by destruct i).
  destruct (andb (BASELINE_BOOTSTRAP <=? in_baseline_samples i) _); [eexists _, _; split_and!; [reflexivity|lia..|done|lia]|].
  destruct (in_degraded i) eqn:Ed; cbn [andb].
  - destruct (orb _ _); [destruct (Z.leb_spec 2 (Z.min (in_recover_streak i + 1) (2 ^ 8 - 1)))|];
      (eexists _, _; split_and!; [reflexivity|lia|lia|first [done|lia]|intros ?; first [done|right; lia]|first [done|lia]]).
  - eexists _, _. split_and!; [exact Hid|lia|lia|done|by left|done].
Qed.

(** What a success leaves behind, and when it makes the node healthy *)
Lemma success_fields s latency history clock : inner_ok (ns_inner s) -> let s' := record_success_inner s latency history clock in
  inner_ok (ns_inner s') /\ ns_sample_count s' = in_samples (ns_inner s') /\ ns_active_conn s' = ns_active_conn s /\ ns_throughput_hint s' = ns_throughput_hint s
  /\ in_throughput_ewma_bps (ns_inner s') = in_throughput_ewma_bps (ns_inner s) /\ in_throughput_peak_bps (ns_inner s') = in_throughput_peak_bps (ns_inner s)
  /\ (in_degraded (ns_inner s') = false -> in_degraded (ns_inner s) = false \/ in_recover_streak (ns_inner s) = 1)
  /\ (in_degraded (ns_inner s') = true -> in_recover_streak (ns_inner s') <= in_recover_streak (ns_inner s) + 1).
Proof.
  intros [Hw Hq Hh Hs Hb Hk Hr Hg]. cbv zeta. unfold record_success_inner. set (ms := Z.min (latency / 10 ^ 6) (2 ^ 32 - 1)).
  set (i := ns_inner s) in *. set (window := trim_front (in_latency_samples _ ++ [ms]) LATENCY_WINDOW).
  assert (Hwin : Z.of_nat (length window) <= LATENCY_WINDOW) by (by apply trim_length).
  destruct (latency_quantiles window) as [p50 p90] eqn:Eq.
  set (i1 := with_latency _ window p50 p90 _). destruct (update_baseline_fields i1 (f64_of ms)) as (b & n & k & -> & Hn & Hk').
  set (i2 := with_baseline i1 b n k).
  destruct (update_recovery_fields i2 (f64_of ms)) as (d & r & -> & Hr' & Hd & Hd1 & Hd2); [exact Hr|intros ?; by apply Hg|].
  assert (Hsat : 0 <= saturating_add 32 (in_samples i) 1 < 2 ^ 32) by (unfold saturating_add; lia).
  assert (Hpush : forall h : list HistoryEntry, Z.of_nat (length (push_history h ms clock)) <= HISTORY_CAP) by (intros h; by apply trim_length).
  assert (Herr : (if negb (in_degraded (with_recovery i2 d r)) then with_failure (with_recovery i2 d r) (in_last_failure (with_recovery i2 d r)) None else with_recovery i2 d r)
    = with_failure (with_recovery i2 d r) (in_last_failure i) (if d then in_last_error i else None)).
  { destruct d; reflexivity. }
  rewrite Herr. split_and!; try (by destruct history).
  constructor; destruct history; cbn [in_latency_samples in_p50_latency_ms in_p90_latency_ms in_history in_samples in_baseline_samples in_high_latency_streak
    in_recover_streak in_degraded in_last_error ns_inner set_inner with_history with_failure with_recovery]; auto; intros ->; auto.
Qed.

Lemma failure_fields s reason history clock : inner_ok (ns_inner s) -> let s' := record_failure_inner s reason history clock in
  inner_ok (ns_inner s') /\ ns_sample_count s' = in_samples (ns_inner s') /\ ns_active_conn s' = ns_active_conn s /\ ns_throughput_hint s' = ns_throughput_hint s
  /\ in_throughput_ewma_bps (ns_inner s') = in_throughput_ewma_bps (ns_inner s) /\ in_throughput_peak_bps (ns_inner s') = in_throughput_peak_bps (ns_inner s)
  /\ in_degraded (ns_inner s') = true /\ in_recover_streak (ns_inner s') = 0.
Proof.
  intros [Hw Hq Hh Hs Hb Hk Hr Hg]. cbv zeta. unfold record_failure_inner.
  assert (Hsat : 0 <= saturating_add 32 (in_samples (ns_inner s)) 1 < 2 ^ 32) by (unfold saturating_add; lia).
  assert (Hpush : Z.of_nat (length (push_history (in_history (ns_inner s)) 0 clock)) <= HISTORY_CAP) by (by apply trim_length).
  destruct history; split_and!; try done; constructor; cbn; auto; unfold RECOVER_SUCCESSES; try lia; done.
Qed.

Lemma speed_ok i a b c : inner_ok i -> inner_ok (with_speed i a b c).
Proof. by intros []. Qed.

Lemma open_count_app obs : open_count (obs ++ [false]) = open_count obs + 1.
Proof. induction obs as [|c obs IH]; cbn in *; lia. Qed.

Lemma open_count_nonneg obs : 0 <= open_count obs.
Proof. induction obs as [|[] obs IH]; cbn in *; lia. Qed.

Lemma open_count_close (obs : list bool) (k : nat) (closed : bool) : obs !! k = Some closed -> open_count (<[k:=true]> obs) = open_count obs - (if closed then 0 else 1).
Proof.
  revert k. induction obs as [|c obs IH]; intros [|k] E; [done..| |].
  - cbn in *. simplify_eq. destruct closed; lia.
  - change (<[S k:=true]> (c :: obs)) with (c :: <[k:=true]> obs). cbn [open_count]. rewrite (IH k E). lia.
Qed.

Lemma open_count_pos (obs : list bool) (k : nat) : obs !! k = Some false -> 0 < open_count obs.
Proof. intros E%open_count_close. pose proof (open_count_nonneg (<[k:=true]> obs)). lia. Qed.

Lemma node_step_ok `{Libm} n n' : node_step n n' -> node_ok n -> node_ok n'.
Proof.
  assert (Hspeed : forall s s' obs, (exists e p u, ns_inner s' = with_speed (ns_inner s) e p u /\ ns_sample_count s' = ns_sample_count s /\ ns_active_conn s' = ns_active_conn s
    /\ (ns_throughput_hint s = f64_max (in_throughput_ewma_bps (ns_inner s)) (in_throughput_peak_bps (ns_inner s)) -> ns_throughput_hint s' = f64_max e p)) -> node_ok (s, obs) -> node_ok (s', obs)).
  { intros s s' obs (e & p & u & Hi & Hc & Ha & Hh) [O1 O2 O3 O4 O5]. cbn in *. constructor; cbn; rewrite ?Hi, ?Hc, ?Ha; [by apply speed_ok|done|done|done|by apply Hh]. }
  intros [s obs latency history clock Hl|s obs reason history clock|s obs interval clock|s obs Hopen|s obs bytes clock|s obs k closed clock Hk|s obs now_ms err clock|s obs clock] Hn.
  - destruct Hn as [O1 O2 O3 O4 O5]. destruct (success_fields s latency history clock O1) as (? & ? & Ha & Hh & He & Hp & _). constructor; cbn in *; [done|done|congruence|done|congruence].
  - destruct Hn as [O1 O2 O3 O4 O5]. destruct (failure_fields s reason history clock O1) as (? & ? & Ha & Hh & He & Hp & _). constructor; cbn in *; [done|done|congruence|done|congruence].
  - unfold should_persist. destruct (andb _ _); [done|]. by destruct Hn.
  - destruct Hn as [O1 O2 O3 O4 O5]. pose proof (open_count_nonneg obs). constructor; cbn in *; rewrite ?open_count_app; [done|done| |done|done].
    rewrite O3. unfold wrapping_add. rewrite Z.mod_small; lia.
  - eapply Hspeed; [apply transfer_keeps|done].
  - unfold on_close. destruct closed; cbn [fst].
    + destruct Hn as [O1 O2 O3 O4 O5]. constructor; cbn in *; rewrite ?(open_count_close obs k true Hk); rewrite ?Z.sub_0_r; done.
    + destruct (Hspeed s (record_transfer s 0 clock) obs (transfer_keeps _ _ _) Hn) as [O1 O2 O3 O4 O5]. pose proof (open_count_pos obs k Hk).
      constructor; cbn [fst snd close_connection with_conn ns_inner ns_sample_count ns_active_conn ns_throughput_hint] in *; rewrite ?(open_count_close obs k false Hk); [done|done| |lia|done].
      rewrite O3. unfold saturating_sub. lia.
  - eapply Hspeed; [apply flush_keeps|done].
  - eapply Hspeed; [apply flush_keeps|done].
Qed.

(** ** Theorems *)

Lemma node_new_ok : node_ok (NodeStats_new, []).
Proof. constructor; cbn; [|done..]. constructor; cbn; unfold LATENCY_WINDOW, HISTORY_CAP, BASELINE_BOOTSTRAP, RECOVER_SUCCESSES; try lia; done. Qed.

(** [C17] However a node is used, its windows stay bounded, the quantiles are those of the window, and
    the number of active connections is the number of observers not yet closed (closing twice counts once). *)
Theorem node_stats_invariant `{Libm} n : rtc node_step (NodeStats_new, []) n ->
  node_ok n /\ (in_latency_samples (ns_inner n.1) <> [] -> exists p50 p90, in_p50_latency_ms (ns_inner n.1) = f64_of p50 /\ in_p90_latency_ms (ns_inner n.1) = f64_of p90
    /\ p50 ∈ in_latency_samples (ns_inner n.1) /\ p90 ∈ in_latency_samples (ns_inner n.1) /\ p50 <= p90).
Proof.
  intros Hr. assert (Hn : node_ok n).
  { remember (NodeStats_new, []) as n0 eqn:E0. assert (H0 : node_ok n0) by (subst; exact node_new_ok). clear E0. induction Hr as [|x y z Hxy _ IH]; [done|]. by eapply IH, node_step_ok. }
  split; [done|]. intros Hne. destruct (quantiles_of_samples _ Hne) as (p50 & p90 & E & ? & ? & ?). pose proof (io_quantiles _ (no_inner _ Hn)) as Hq. rewrite E in Hq. simplify_eq. eauto 10.
Qed.

(** What was reported of a node, newest last *)
Inductive Report : Type := RpSuccess (latency : Z) | RpFailure (reason : string).

Definition report (s : NodeStats) (r : Report * bool * SmartClock) : NodeStats :=
  match r with
  | (RpSuccess latency, history, clock) => record_success_inner s latency history clock
  | (RpFailure reason, history, clock) => record_failure_inner s reason history clock
  end.

(** Successes since the last failure, [None] when nothing has failed *)
Definition since_failure (n : option Z) (r : Report * bool * SmartClock) : option Z :=
  match r.1.1 with RpSuccess _ => (fun k => k + 1) <$> n | RpFailure _ => Some 0 end.

Lemma recovery_inv rs : let s := foldl report NodeStats_new rs in
  inner_ok (ns_inner s) /\
  forall k, foldl since_failure None rs = Some k -> in_degraded (ns_inner s) = true /\ in_recover_streak (ns_inner s) <= k \/ RECOVER_SUCCESSES <= k.
Proof.
  cbv zeta. induction rs as [|r rs [Hok Hk]] using rev_ind; [split; [apply node_new_ok|done]|]. rewrite !foldl_app. cbn [foldl]. set (s := foldl report NodeStats_new rs) in *.
  destruct r as [[[latency|reason] history] clock]; cbn [report since_failure fst].
  - destruct (success_fields s latency history clock Hok) as (Hok' & _ & _ & _ & _ & _ & Hd & Hu). split; [done|]. destruct (foldl since_failure None rs) as [k|]; [|done].
    intros k' [= <-]. pose proof (io_recover _ Hok). unfold RECOVER_SUCCESSES in *. destruct (Hk k eq_refl) as [[Hd' Hk']|Hk']; [|right; lia].
    destruct (in_degraded (ns_inner (record_success_inner s latency history clock))); [left; split; [done|specialize (Hu eq_refl); lia]|].
    right. destruct (Hd eq_refl) as [?|?]; [congruence|lia].
  - destruct (failure_fields s reason history clock Hok) as (Hok' & _ & _ & _ & _ & _ & Hd & Hz). split; [done|]. intros k [= <-]. left. split; [done|lia].
Qed.

(** After a failure a node counts as healthy again only when at least two successes were reported since. *)
Theorem recovery_takes_two rs k : foldl since_failure None rs = Some k -> in_degraded (ns_inner (foldl report NodeStats_new rs)) = false -> RECOVER_SUCCESSES <= k.
Proof. intros E Hd. destruct (recovery_inv rs) as [_ Hk]. destruct (Hk k E) as [[? _]|?]; [congruence|done]. Qed.

(** ** Persistence *)

(** The two clocks have advanced together, and both readings can be represented. *)
Definition clocks_agree (c c' : SmartClock) : Prop :=
  sk_unix c' - sk_unix c = sk_instant c' - sk_instant c /\ sk_instant c <= sk_instant c' /\ 0 <= sk_unix c /\ sk_unix c < from_secs (sk_last_secs c').

(** An instant of the run, not before the epoch nor before what the platform can represent later *)
Definition instant_fits (c c' : SmartClock) (t : Z) : Prop :=
  t <= sk_instant c /\ 0 <= sk_unix c - (sk_instant c - t) /\ sk_earliest c' + from_secs 1 <= t.

(** Stored in whole seconds, an instant comes back less than a second early. *)
Lemma instant_roundtrip c c' t : clocks_agree c c' -> instant_fits c c' t ->
  exists t', restore_instant (instant_to_unix (Some t) c) c' = Some t' /\ t - from_secs 1 < t' <= t.
Proof.
  intros (Hd & Hle & H0 & Hlast) (Ht & Hpos & Hearly). unfold instant_to_unix, restore_instant, from_secs in *. cbn [mbind option_bind].
  destruct (Z.ltb_spec (sk_instant c) t); [lia|]. set (then_ := sk_unix c - (sk_instant c - t)) in *. destruct (Z.ltb_spec then_ 0); [lia|]. cbn [mbind option_bind].
  pose proof (Z.div_mod then_ (10 ^ 9) ltac:(lia)). pose proof (Z.mod_pos_bound then_ (10 ^ 9) ltac:(lia)).
  destruct (Z.ltb_spec (sk_last_secs c') (then_ / 10 ^ 9)); [nia|]. destruct (Z.ltb_spec (sk_unix c' - then_ / 10 ^ 9 * 10 ^ 9) 0); [lia|].
  destruct (Z.ltb_spec (sk_instant c' - (sk_unix c' - then_ / 10 ^ 9 * 10 ^ 9)) (sk_earliest c')); [lia|]. eexists. split; [reflexivity|lia].
Qed.

Lemma option_instant_roundtrip c c' o : clocks_agree c c' -> (forall t, o = Some t -> instant_fits c c' t) ->
  match o with
  | None => restore_instant (instant_to_unix o c) c' = None
  | Some t => exists t', restore_instant (instant_to_unix o c) c' = Some t' /\ t - from_secs 1 < t' <= t
  end.
Proof. intros Hc Ho. destruct o as [t|]; [|done]. apply instant_roundtrip; auto. Qed.

(** Statistics stored when the program ends and read when it starts again: the counters, rates,
    latencies, the health of the node, its last error and its history are as they were, the last
    failure is at most a second older, nothing is connected, and the latency window holds the
    latest successful probes of the history. *)
Theorem stats_survive_restart s c c' : inner_ok (ns_inner s) -> clocks_agree c c' ->
  (forall t, in_last_failure (ns_inner s) = Some t -> instant_fits c c' t) ->
  (#0 <? in_p50_latency_ms (ns_inner s))%f64 = true -> (#0 <? in_p90_latency_ms (ns_inner s))%f64 = true ->
  let r := ns_inner (from_blob (to_blob s c).2 c') in
  in_samples r = in_samples (ns_inner s) /\ in_success_ewma r = in_success_ewma (ns_inner s) /\ in_timeout_rate r = in_timeout_rate (ns_inner s)
  /\ in_p50_latency_ms r = in_p50_latency_ms (ns_inner s) /\ in_p90_latency_ms r = in_p90_latency_ms (ns_inner s) /\ in_jitter_ms r = in_jitter_ms (ns_inner s)
  /\ in_baseline_latency_ms r = in_baseline_latency_ms (ns_inner s) /\ in_degraded r = in_degraded (ns_inner s) /\ in_last_error r = in_last_error (ns_inner s)
  /\ in_history r = in_history (ns_inner s)
  /\ match in_last_failure (ns_inner s) with
     | None => in_last_failure r = None
     | Some t => exists t', in_last_failure r = Some t' /\ t - from_secs 1 < t' <= t
     end
  /\ ns_active_conn (from_blob (to_blob s c).2 c') = 0
  /\ in_latency_samples r = he_delay_ms <$> filter (fun e => 0 < he_delay_ms e) (in_history (ns_inner s)).
Proof.
  intros Hok Hc Hf H50 H90. unfold to_blob. destruct (flush_keeps s (unix_now_ms c) c) as (e & p & u & Hi & _). cbn [snd]. rewrite Hi. unfold from_blob.
  cbn [nb_samples nb_success_ewma nb_p50_latency_ms nb_p90_latency_ms nb_jitter_ms nb_timeout_rate nb_baseline_latency_ms nb_degraded nb_last_failure_secs nb_last_error nb_history
    with_speed ns_inner ns_active_conn in_samples in_success_ewma in_p50_latency_ms in_p90_latency_ms in_jitter_ms in_timeout_rate in_baseline_latency_ms in_degraded in_last_failure in_last_error
    in_history in_latency_samples in_last_used].
  rewrite H50, H90. split_and!; try done; [by apply option_instant_roundtrip|].
  assert (Hrev : filter (fun e => 0 < he_delay_ms e) (rev (in_history (ns_inner s))) = rev (filter (fun e => 0 < he_delay_ms e) (in_history (ns_inner s)))).
  { generalize (in_history (ns_inner s)). intros l. induction l as [|x l IH]; [done|]. cbn [rev]. rewrite filter_app, IH, !filter_cons, filter_nil. case_decide; cbn; [done|by rewrite app_nil_r]. }
  rewrite Hrev, take_ge, rev_involutive; [done|]. rewrite length_rev. pose proof (io_history _ Hok) as Hl. pose proof (length_filter (fun e => 0 < he_delay_ms e) (in_history (ns_inner s))).
  unfold HISTORY_CAP, LATENCY_WINDOW in *. lia.
Qed.

(** ** Witnesses *)
Module SmartStatsWitness.

#[local] Instance libm : Libm := {| ln := id; ln_1p := id; log2 := id; powf := fun _ y => y |}.

(** A minute after boot, at the Unix time of 1000 s *)
Definition clock : SmartClock := mkSmartClock (from_secs 60) (from_secs 1000) 0 (2 ^ 63 - 1).
Definition later : SmartClock := mkSmartClock (from_secs 90) (from_secs 1030) 0 (2 ^ 63 - 1).

Definition probes (l : list Z) : NodeStats := foldl (fun s ms => record_probe s (from_millis ms) clock) NodeStats_new l.

(** Five probes: the middle one and the slowest are the quantiles. *)
Example quantiles_and_jitter_are_real_samples :
  in_p50_latency_ms (ns_inner (probes [10; 20; 30; 40; 100])) = f64_of 30 /\ in_p90_latency_ms (ns_inner (probes [10; 20; 30; 40; 100])) = f64_of 100
  /\ f64_lt (f64_of 0) (in_jitter_ms (ns_inner (probes [10; 20; 30; 40; 100]))) = true.
Proof. vm_compute. by split_and!. Qed.

(** The stored history is described as eight entries at most; twenty are kept. *)
Theorem history_keeps_twenty : length (nb_history (to_blob (probes (seqZ 1 25)) clock).2) = 20%nat.
Proof. vm_compute. reflexivity. Qed.

Lemma node_stats_invariant_witness :
  let n1 := record_probe NodeStats_new (from_millis 30) clock in
  let n2 := open_connection n1 in
  let n3 := (on_close n2 false clock).1 in
  rtc node_step (NodeStats_new, []) (n3, [true]) /\ ns_active_conn n2 = 1 /\ ns_active_conn n3 = 0
  /\ exists p50 p90, in_p50_latency_ms (ns_inner n3) = f64_of p50 /\ in_p90_latency_ms (ns_inner n3) = f64_of p90 /\ p50 <= p90.
Proof.
  intros n1 n2 n3. assert (Hr : rtc node_step (NodeStats_new, []) (n3, [true])).
  { eapply rtc_l; [exact (NdSuccess NodeStats_new [] (from_millis 30) true clock ltac:(done))|].
    eapply rtc_l; [exact (NdOpen n1 [] ltac:(done))|]. eapply rtc_l; [exact (NdClose n2 [false] 0 false clock eq_refl)|]. apply rtc_refl. }
  split; [exact Hr|]. split; [vm_compute; reflexivity|]. split; [vm_compute; reflexivity|].
  destruct (node_stats_invariant _ Hr) as [_ Hq]. destruct Hq as (p50 & p90 & E1 & E2 & _ & _ & Hle); [vm_compute; discriminate|]. by exists p50, p90.
Defined.

Definition up (ms : Z) : Report * bool * SmartClock := (RpSuccess (from_millis ms), true, clock).
Definition fail : Report * bool * SmartClock := (RpFailure "timeout", true, clock).

Lemma recovery_takes_two_witness :
  in_degraded (ns_inner (foldl report NodeStats_new [up 50; up 50; up 50; fail; up 50])) = true
  /\ in_degraded (ns_inner (foldl report NodeStats_new [up 50; up 50; up 50; fail; up 50; up 50])) = false
  /\ RECOVER_SUCCESSES <= 2.
Proof.
  split; [vm_compute; reflexivity|]. split; [vm_compute; reflexivity|].
  apply (recovery_takes_two [up 50; up 50; up 50; fail; up 50; up 50] 2); vm_compute; reflexivity.
Defined.

Lemma stats_survive_restart_witness :
  let s := record_probe_failure (probes [50; 60; 70]) "timeout" clock in
  let r := ns_inner (from_blob (to_blob s clock).2 later) in
  in_samples r = 4 /\ in_degraded r = true /\ in_last_error r = Some "timeout" /\ in_latency_samples r = [50; 60; 70] /\ in_p50_latency_ms r = in_p50_latency_ms (ns_inner s).
Proof.
  intros s r. assert (Hok : inner_ok (ns_inner s)).
  { apply failure_fields. do 3 apply success_fields. apply node_new_ok. }
  destruct (stats_survive_restart s clock later Hok) as (E1 & _ & _ & E4 & _ & _ & _ & E8 & E9 & _ & _ & _ & E13).
  - split_and!; vm_compute; congruence.
  - intros t [= <-]. split_and!; vm_compute; congruence.
  - vm_compute. reflexivity.
  - vm_compute. reflexivity.
  - fold r in E1, E4, E8, E9, E13. rewrite E1, E8, E9, E13. split_and!; [vm_compute; reflexivity..|exact E4].
Defined.
End SmartStatsWitness.
