(* ===== verification/SmartSelect.v ===== *)
(** * Smart selection of nodes

    Models [core-smart/src/cache.rs] and [core-smart/src/selector.rs]: the memory of the node a
    site used last, the nodes in their penalty time, and the selector that scores the members of
    a group.  The selector is the state; a method reads the clocks once.  What is enqueued for the
    store is the list [ss_writer].  The public suffix list is [GroupLib]'s, AHash and the printing of
    numbers with decimals are [SmartLib]. *)

From stdpp Require Import base list gmap strings numbers option sorting pretty.
From S2P Require Import Prelude Net Text Health GroupSelect F64 SmartStats.

Class SmartLib : Type := {
  (** the hash of a group and a domain, as [u64] *)
  context_hash : string -> string -> Z;
  context_hash_nonneg : forall g d, 0 <= context_hash g d;
  (** [format!("{:.n}", x)] *)
  show_fixed : nat -> f64 -> string
}.

Definition NODE_PERSIST_INTERVAL : Z := from_secs 30.
Definition SWITCH_TOLERANCE : f64 := f64_of 4.
Definition EXPLAIN_LOG_CAP : nat := 256.
Definition SPEED_FLOOR_BPS : f64 := f64_of (4 * 1024 * 1024).
Definition SPEED_CEILING_BPS : f64 := f64_of (64 * 1024 * 1024).

Definition unix_now (clock : SmartClock) : Z := Z.max 0 (sk_unix clock) / 10 ^ 9.

(** ** The memory of sites *)

Record DomainBest : Type := mkDomainBest { db_map : gmap string (string * Z); db_ttl : Z }.

Definition DomainBest_new (ttl : Z) : DomainBest := mkDomainBest ∅ ttl.
Definition DomainBest_key (group etld : string) : string := group +:+ "|" +:+ etld.

Definition DomainBest_get (d : DomainBest) (key : string) (clock : SmartClock) : option string :=
  match db_map d !! key with
  | Some (node, at_) => if db_ttl d <? elapsed clock at_ then None else Some node
  | None => None
  end.

Definition DomainBest_put (d : DomainBest) (key node : string) (clock : SmartClock) : DomainBest :=
  mkDomainBest (<[key := (node, sk_instant clock)]> (db_map d)) (db_ttl d).

Definition put_if_changed (d : DomainBest) (key node : string) (clock : SmartClock) : DomainBest * bool :=
  match db_map d !! key with
  | Some (n, at_) => if bool_decide (n = node) && (elapsed clock at_ <? db_ttl d / 2) then (d, false) else (DomainBest_put d key node clock, true)
  | None => (DomainBest_put d key node clock, true)
  end.

(** ** Nodes in their penalty time: until when, and why *)

Notation NegativeCache := (gmap string (Z * string)).

Definition cool (c : NegativeCache) (node : string) (dur : Z) (reason : string) (clock : SmartClock) : NegativeCache :=
  <[node := (sk_instant clock + dur, reason)]> c.

Definition is_cool (c : NegativeCache) (node : string) (clock : SmartClock) : NegativeCache * option string :=
  match c !! node with
  | Some (until, reason) => if sk_instant clock <? until then (c, Some reason) else (delete node c, None)
  | None => (c, None)
  end.

(** ** The selector *)

Inductive SmartGoal : Type := Balanced | Speed | Stability | LowCost | Privacy.

Record Weights : Type := mkWeights { w_latency : f64; w_success : f64; w_stability : f64; w_throughput : f64; w_site_memory : f64; w_load : f64; w_preference : f64; w_cost : f64 }.

Definition Weights_for_goal (goal : SmartGoal) : Weights :=
  let c n := f64_lit n 100 in
  match goal with
  | Speed => mkWeights (c 30) (c 12) (c 8) (c 32) (c 6) (c 8) (c 3) (c 1)
  | Stability => mkWeights (c 18) (c 29) (c 25) (c 8) (c 8) (c 6) (c 4) (c 2)
  | LowCost => mkWeights (c 15) (c 18) (c 12) (c 8) (c 5) (c 4) (c 3) (c 35)
  | Privacy => mkWeights (c 22) (c 27) (c 20) (c 10) (c 2) (c 8) (c 8) (c 3)
  | Balanced => mkWeights (c 24) (c 22) (c 17) (c 18) (c 8) (c 6) (c 4) (c 1)
  end.

Record ScoreParts : Type := mkScoreParts {
  sp_total : f64; sp_latency : f64; sp_success : f64; sp_stability : f64; sp_throughput : f64; sp_site_memory : f64; sp_load : f64;
  sp_preference : f64; sp_cost : f64; sp_cooldown_penalty : f64; sp_degraded_penalty : f64
}.

(** [explain.rs] *)
Record NodeScore : Type := mkNodeScore { sr_node : string; sr_parts : ScoreParts; sr_capability_penalty : f64; sr_reason : string }.

Record ChoiceExplain : Type := mkChoiceExplain { ce_group : string; ce_host : string; ce_picked : string; ce_cache_hit : option string; ce_scores : list NodeScore }.

(** [BatchOp] of [core-store] as far as the selector uses it *)
Inductive BatchOp : Type :=
| PutNodeStats (node : string) (blob : NodeStatsBlob)
| PutNegative (node : string) (until_secs : Z) (reason : string)
| PutDomainBest (key node : string) (set_at_secs : Z)
| PutPin (key node : string).

Record SmartSelector : Type := mkSmartSelector {
  ss_nodes : gmap string NodeStats;
  ss_domain_best : DomainBest;
  ss_negative : NegativeCache;
  ss_goal : SmartGoal;
  ss_sticky : SmartSticky;
  ss_explain_log : list ChoiceExplain;
  ss_writer : option (list BatchOp)
}.

Definition SmartSelector_new (goal : SmartGoal) (sticky : SmartSticky) : SmartSelector :=
  mkSmartSelector ∅ (DomainBest_new (from_secs (10 * 60))) ∅ goal sticky [] None.

Definition set_nodes (s : SmartSelector) (nodes : gmap string NodeStats) : SmartSelector :=
  mkSmartSelector nodes (ss_domain_best s) (ss_negative s) (ss_goal s) (ss_sticky s) (ss_explain_log s) (ss_writer s).
Definition set_domain_best (s : SmartSelector) (d : DomainBest) : SmartSelector :=
  mkSmartSelector (ss_nodes s) d (ss_negative s) (ss_goal s) (ss_sticky s) (ss_explain_log s) (ss_writer s).
Definition set_negative (s : SmartSelector) (c : NegativeCache) : SmartSelector :=
  mkSmartSelector (ss_nodes s) (ss_domain_best s) c (ss_goal s) (ss_sticky s) (ss_explain_log s) (ss_writer s).
Definition set_goal (s : SmartSelector) (goal : SmartGoal) : SmartSelector :=
  mkSmartSelector (ss_nodes s) (ss_domain_best s) (ss_negative s) goal (ss_sticky s) (ss_explain_log s) (ss_writer s).
Definition set_log (s : SmartSelector) (log : list ChoiceExplain) : SmartSelector :=
  mkSmartSelector (ss_nodes s) (ss_domain_best s) (ss_negative s) (ss_goal s) (ss_sticky s) log (ss_writer s).

(** [writer.enqueue_batch(ops)], when there is a store *)
Definition enqueue (s : SmartSelector) (ops : list BatchOp) : SmartSelector :=
  mkSmartSelector (ss_nodes s) (ss_domain_best s) (ss_negative s) (ss_goal s) (ss_sticky s) (ss_explain_log s) ((fun q => q ++ ops) <$> ss_writer s).

Definition ensure_node (s : SmartSelector) (name : string) : SmartSelector * NodeStats :=
  match ss_nodes s !! name with
  | Some stats => (s, stats)
  | None => (set_nodes s (<[name := NodeStats_new]> (ss_nodes s)), NodeStats_new)
  end.

Definition put_node (s : SmartSelector) (name : string) (stats : NodeStats) : SmartSelector := set_nodes s (<[name := stats]> (ss_nodes s)).

Section selector.
Context `{GroupLib, SmartLib, Libm, NetText}.

Definition open_flow (s : SmartSelector) (node : string) : SmartSelector :=
  let '(s, stats) := ensure_node s node in put_node s node (NodeFlowObserver_new stats).1.

Definition persist_node_if_due (s : SmartSelector) (node : string) (stats : NodeStats) (clock : SmartClock) : SmartSelector :=
  let '(stats, due) := should_persist stats NODE_PERSIST_INTERVAL clock in
  let s := put_node s node stats in
  if negb due then s else
  match ss_writer s with
  | Some _ => let '(stats, blob) := to_blob stats clock in enqueue (put_node s node stats) [PutNodeStats node blob]
  | None => s
  end.

Definition smart_record_success (s : SmartSelector) (node : string) (latency : Z) (clock : SmartClock) : SmartSelector :=
  let '(s, stats) := ensure_node s node in persist_node_if_due s node (record_success stats latency clock) clock.

Definition record_probe_for (s : SmartSelector) (node : string) (latency : Z) (clock : SmartClock) : SmartSelector :=
  let '(s, stats) := ensure_node s node in persist_node_if_due s node (record_probe stats latency clock) clock.

(** The tail [record_failure] and [record_probe_failure_for] share: 30 s of penalty, stored at once *)
Definition after_failure (s : SmartSelector) (node : string) (stats : NodeStats) (reason : string) (clock : SmartClock) : SmartSelector :=
  let s := set_negative (put_node s node stats) (cool (ss_negative s) node (from_secs 30) reason clock) in
  match ss_writer s with
  | Some _ => let '(stats, blob) := to_blob stats clock in enqueue (put_node s node stats) [PutNodeStats node blob; PutNegative node (unix_now clock + 30) reason]
  | None => s
  end.

Definition smart_record_failure (s : SmartSelector) (node reason : string) (clock : SmartClock) : SmartSelector :=
  let '(s, stats) := ensure_node s node in after_failure s node (record_failure stats reason clock) reason clock.

Definition record_probe_failure_for (s : SmartSelector) (node reason : string) (clock : SmartClock) : SmartSelector :=
  let '(s, stats) := ensure_node s node in after_failure s node (record_probe_failure stats reason clock) reason clock.

(** ** Memory of sites and sessions *)

Definition registrable_domain (host : string) : string :=
  let host := to_ascii_lowercase (trim_end_char 46 host) in
  match parse_ip host with Some _ => host | None => default host (psl_domain host) end.

Definition stable_context_hash (ctx : SmartContext) : Z := context_hash (sc_group ctx) (registrable_domain (sc_host ctx)).

Definition cache_key (s : SmartSelector) (ctx : SmartContext) : option string :=
  match default (ss_sticky s) (sc_sticky ctx) with
  | StickyOff => None
  | StickySite => Some (DomainBest_key (sc_group ctx) (registrable_domain (sc_host ctx)))
  | StickySession => Some (DomainBest_key (sc_group ctx) (default (sc_host ctx) (sc_session_key ctx)))
  end.

Definition cache_hit (s : SmartSelector) (ctx : SmartContext) (clock : SmartClock) : option string :=
  key ← cache_key s ctx; DomainBest_get (ss_domain_best s) key clock.

Definition remember_selection (s : SmartSelector) (ctx : SmartContext) (node : string) (clock : SmartClock) : SmartSelector :=
  match cache_key s ctx with
  | None => s
  | Some key =>
    let '(d, changed) := put_if_changed (ss_domain_best s) key node clock in
    let s := set_domain_best s d in
    if changed then enqueue s [PutDomainBest key node (unix_now clock)] else s
  end.

Definition pin (s : SmartSelector) (host group node : string) (clock : SmartClock) : SmartSelector :=
  let key := DomainBest_key group (registrable_domain host) in
  enqueue (set_domain_best s (DomainBest_put (ss_domain_best s) key node clock)) [PutDomainBest key node (unix_now clock); PutPin key node].

(** ** Scores *)

Definition clamp (value minimum maximum : f64) : f64 := f64_min (f64_max value minimum) maximum.

Definition score (s : SmartSelector) (name : string) (ctx : SmartContext) (stats : NodeStatSnapshot) (w : Weights) (hit : option string) (speed_reference : f64) (clock : SmartClock)
  : SmartSelector * ScoreParts :=
  let confidence := f64_min (f64_of (sn_samples stats) / #5)%f64 (f64_of 1) in
  let latency := if sn_samples stats =? 0 then f64_of 50
    else (#100 * (#1 - ln (#1 + f64_min (sn_p50_latency_ms stats) #3000) / ln #3001))%f64 in
  let success := ((sn_success_rate stats * confidence + (5 ./ 10) * (#1 - confidence)) * #100)%f64 in
  let tail := f64_max (sn_p90_latency_ms stats - sn_p50_latency_ms stats)%f64 (f64_of 0) in
  let stability := clamp (#100 - f64_min (sn_jitter_ms stats) #500 / #5 - f64_min tail #1000 / #10 - sn_timeout_rate stats * #70)%f64 (f64_of 0) (f64_of 100) in
  let throughput := if (sn_throughput_bps stats <=? #0)%f64 then f64_of 50
    else clamp (ln_1p (sn_throughput_bps stats) / ln_1p speed_reference * #100)%f64 (f64_of 0) (f64_of 100) in
  let site_memory := if bool_decide (hit = Some name) then f64_of 100 else f64_of 50 in
  let load := (#100 / (#1 + f64_of (sn_active_conn stats) / #8))%f64 in
  let preference := if existsb (str_contains name) (sc_prefer ctx) then f64_of 90 else f64_of 50 in
  let cost := f64_of 50 in
  let '(negative, cooled) := is_cool (ss_negative s) name clock in
  let cooldown_penalty := if cooled then f64_of 55 else f64_of 0 in
  let degraded_penalty := if sn_degraded stats then f64_of 28 else f64_of 0 in
  let total := (w_latency w * latency + w_success w * success + w_stability w * stability + w_throughput w * throughput + w_site_memory w * site_memory
    + w_load w * load + w_preference w * preference + w_cost w * cost - cooldown_penalty - degraded_penalty)%f64 in
  (set_negative s negative, mkScoreParts total latency success stability throughput site_memory load preference cost cooldown_penalty degraded_penalty).

Definition speed_bucket (bytes_per_second : f64) : nat :=
  if (bytes_per_second <=? #1)%f64 then 0%nat else Z.to_nat (Z.min (f64_floor_usize (log2 bytes_per_second)) 63).

Fixpoint speed_reference_from (bucket : Z) (histogram : list Z) (seen target : Z) : f64 :=
  match histogram with
  | [] => SPEED_CEILING_BPS
  | count :: histogram =>
    let seen := saturating_add 32 seen count in
    if target <=? seen then
      let v := f64_of (2 ^ bucket) in
      if (v <? SPEED_FLOOR_BPS)%f64 then SPEED_FLOOR_BPS else if (SPEED_CEILING_BPS <? v)%f64 then SPEED_CEILING_BPS else v
    else speed_reference_from (bucket + 1) histogram seen target
  end.

Definition speed_reference (histogram : list Z) (samples : Z) : f64 :=
  if samples <? 3 then SPEED_FLOOR_BPS else speed_reference_from 0 histogram 0 (div_ceil (saturating_mul 32 samples 9) 10).

Definition to_node_score (name : string) (stats : NodeStatSnapshot) (parts : ScoreParts) (hit : option string) (prefer : list string) : NodeScore :=
  let reasons := (if bool_decide (hit = Some name) then ["site memory"] else [])
    ++ (if existsb (str_contains name) prefer then ["preferred"] else [])
    ++ ["p50=" +:+ show_fixed 0 (sn_p50_latency_ms stats) +:+ "ms p90=" +:+ show_fixed 0 (sn_p90_latency_ms stats) +:+ "ms success="
        +:+ show_fixed 0 (sn_success_rate stats * #100)%f64 +:+ "% speed=" +:+ show_fixed 1 (sn_throughput_bps stats / #1024 / #1024)%f64 +:+ "MiB/s"]
    ++ (if sn_degraded stats then ["degraded"] else [])
    ++ (match sn_last_error stats with Some e => ["last failure: " +:+ e] | None => [] end) in
  mkNodeScore name parts (f64_of 0) (join "; " reasons).

(** ** The choice *)

Definition avoided (ctx : SmartContext) (name : string) : bool := existsb (str_contains name) (sc_avoid ctx).

(** Members that are not avoided, all of them when nothing else is left *)
Definition candidates (ctx : SmartContext) (members : list string) : list string :=
  let cands := List.filter (fun name => negb (avoided ctx name)) members in
  match cands with [] => members | _ => cands end.

(** First pass: the nodes without a sample, and the histogram of speeds *)
Record Scan : Type := mkScan { sn_selector : SmartSelector; sn_cold : Z; sn_histogram : list Z; sn_speeds : Z }.

Definition scan_step (a : Scan) (name : string) : Scan :=
  let '(s, stats) := ensure_node (sn_selector a) name in
  let cold := if ns_sample_count stats =? 0 then sn_cold a + 1 else sn_cold a in
  let throughput := ns_throughput_hint stats in
  if (#0 <? throughput)%f64
  then mkScan s cold (alter (fun n => saturating_add 32 n 1) (speed_bucket throughput) (sn_histogram a)) (saturating_add 32 (sn_speeds a) 1)
  else mkScan s cold (sn_histogram a) (sn_speeds a).

(** What the second pass is given *)
Record RankArgs : Type := mkRankArgs { ra_ctx : SmartContext; ra_weights : Weights; ra_hit : option string; ra_reference : f64; ra_explore : bool; ra_target : Z; ra_explain : bool }.

Record Rank : Type := mkRank {
  rn_selector : SmartSelector; rn_best : option (string * ScoreParts); rn_current : option (string * ScoreParts);
  rn_cold_index : Z; rn_cold_pick : option string; rn_explanations : list NodeScore
}.

Definition rank_step (args : RankArgs) (clock : SmartClock) (a : Rank) (name : string) : Rank :=
  let '(s, stats) := ensure_node (rn_selector a) name in
  let '(stats, snap) := snapshot_for_scoring stats (unix_now_ms clock) (ra_explain args) clock in
  let '(s, parts) := score (put_node s name stats) name (ra_ctx args) snap (ra_weights args) (ra_hit args) (ra_reference args) clock in
  let cold := ra_explore args && (sn_samples snap =? 0) in
  mkRank s
    (match rn_best a with
     | Some (_, best) => if (sp_total best <? sp_total parts)%f64 then Some (name, parts) else rn_best a
     | None => Some (name, parts)
     end)
    (if bool_decide (sc_current (ra_ctx args) = Some name) then Some (name, parts) else rn_current a)
    (if cold then rn_cold_index a + 1 else rn_cold_index a)
    (if cold && (rn_cold_index a =? ra_target args) then Some name else rn_cold_pick a)
    (if ra_explain args then rn_explanations a ++ [to_node_score name snap parts (ra_hit args) (sc_prefer (ra_ctx args))] else rn_explanations a).

Definition no_parts : ScoreParts :=
  let z := f64_of 0 in mkScoreParts z z z z z z z z z z z.

(** The group's node in use is kept when it is healthy and its score is close to the best one. *)
Definition keep_current (parts best : ScoreParts) : bool :=
  (sp_degraded_penalty parts =? #0)%f64 && (sp_cooldown_penalty parts =? #0)%f64 && (sp_total best <=? sp_total parts + SWITCH_TOLERANCE)%f64.

Definition select_ranked (first : string) (a : Rank) : string :=
  let selected := match rn_cold_pick a with
    | Some cold => cold
    | None =>
      let '(best_name, best_parts) := default (first, no_parts) (rn_best a) in
      match rn_current a with
      | Some (current_name, parts) =>
        if keep_current parts best_parts then current_name else best_name
      | None => best_name
      end
    end in
  if String.eqb selected "" then first else selected.

Definition rank (s : SmartSelector) (ctx : SmartContext) (members : list string) (explain : bool) (clock : SmartClock) : SmartSelector * (string * list NodeScore) :=
  match members with
  | [] => (s, ("", []))
  | first :: _ =>
    let cands := candidates ctx members in
    let scan := foldl scan_step (mkScan s 0 (replicate 64 0) 0) cands in
    let s := sn_selector scan in
    let hit := cache_hit s ctx clock in
    let explore := (sn_cold scan =? Z.of_nat (length cands)) && bool_decide (sc_current ctx = None) && bool_decide (hit = None) in
    let target := if sn_cold scan =? 0 then 0 else stable_context_hash ctx mod sn_cold scan in
    let args := mkRankArgs ctx (Weights_for_goal (ss_goal s)) hit (speed_reference (sn_histogram scan) (sn_speeds scan)) explore target explain in
    let a := foldl (rank_step args clock) (mkRank s None None 0 None []) cands in
    let selected := select_ranked first a in
    (remember_selection (rn_selector a) ctx selected clock, (selected, rn_explanations a))
  end.

Definition smart_choose_node (s : SmartSelector) (ctx : SmartContext) (members : list string) (clock : SmartClock) : SmartSelector * string :=
  let '(s, (node, _)) := rank s ctx members false clock in (s, node).

Definition higher_score (a b : NodeScore) : Prop := (sp_total (sr_parts a) <? sp_total (sr_parts b))%f64 = false.
#[global] Instance higher_score_dec a b : Decision (higher_score a b).
Proof. unfold higher_score. apply _. Defined.

(** [scores.sort_by] is a stable sort, best first. *)
Definition choose (s : SmartSelector) (ctx : SmartContext) (members : list string) (clock : SmartClock) : SmartSelector * (string * ChoiceExplain) :=
  let '(s, (node, scores)) := rank s ctx members true clock in
  let explain := mkChoiceExplain (sc_group ctx) (sc_host ctx) node (cache_hit s ctx clock) (merge_sort higher_score scores) in
  let log := if (EXPLAIN_LOG_CAP <=? length (ss_explain_log s))%nat then tail (ss_explain_log s) else ss_explain_log s in
  (set_log s (log ++ [explain]), (node, explain)).

Definition recent_explains (s : SmartSelector) : list ChoiceExplain := ss_explain_log s.

(** ** The store *)

(** The rows of the four namespaces, in the order they are read *)
Record SmartRows : Type := mkSmartRows {
  rw_node_stats : list (string * NodeStatsBlob); rw_domain_best : list (string * (string * Z)); rw_pin : list (string * string); rw_negative : list (string * (Z * string))
}.

Definition with_store (goal : SmartGoal) (sticky : SmartSticky) (rows : SmartRows) (clock : SmartClock) : SmartSelector :=
  let s := SmartSelector_new goal sticky in
  let s := foldl (fun s row => put_node s row.1 (from_blob row.2 clock)) s (rw_node_stats rows) in
  let now := unix_now clock in
  let s := foldl (fun s '(key, (node, set_at)) => if saturating_sub now set_at <=? 60 * 60 then set_domain_best s (DomainBest_put (ss_domain_best s) key node clock) else s) s (rw_domain_best rows) in
  let s := foldl (fun s '(key, node) => if String.eqb node "" then s else set_domain_best s (DomainBest_put (ss_domain_best s) key node clock)) s (rw_pin rows) in
  let s := foldl (fun s '(node, (until, reason)) => if now <? until then set_negative s (cool (ss_negative s) node (from_secs (until - now)) reason clock) else s) s (rw_negative rows) in
  mkSmartSelector (ss_nodes s) (ss_domain_best s) (ss_negative s) (ss_goal s) (ss_sticky s) (ss_explain_log s) (Some []).

(** The nodes are visited in the order of the map, which is arbitrary. *)
Definition shutdown (s : SmartSelector) (clock : SmartClock) : SmartSelector :=
  match ss_writer s with
  | None => s
  | Some _ =>
    let nodes := map_to_list (ss_nodes s) in
    let s := foldl (fun s '(name, stats) => put_node s name (to_blob stats clock).1) s nodes in
    enqueue s ((fun '(name, stats) => PutNodeStats name (to_blob stats clock).2) <$> nodes)
  end.
End selector.
