(* ===== verification/SmartChoice.v ===== *)
(** * What smart selection chooses

    The choice of [SmartSelect.rank] as a function of the state it starts from: the two passes
    change the selector (nodes are created, speed windows closed, penalties that have ended
    removed), but not what the scores are computed from.  The selector is an instance of the
    interface [SmartApi] the groups use. *)

From stdpp Require Import base list gmap strings numbers option sorting relations.
From S2P Require Import Prelude Net Text Instances Health GroupSelect F64 SmartStats SmartSelect.

Lemma flush_idem st now_ms clock : flush_speed_window (flush_speed_window st now_ms clock) now_ms clock = flush_speed_window st now_ms clock.
Proof.
  unfold flush_speed_window at 2 3. set (started := ns_traffic_window_started_ms st).
  assert (Hagain : forall t, ns_traffic_window_started_ms t = now_ms -> flush_speed_window t now_ms clock = t).
  { intros t Ht. unfold flush_speed_window, saturating_sub. rewrite Ht, Z.sub_diag. destruct (Z.eqb_spec now_ms 0); [|done]. destruct t. cbn in Ht. by subst. }
  destruct (Z.eqb_spec started 0) as [E|E]; [by apply Hagain|].
  destruct (Z.ltb_spec (saturating_sub now_ms started) (as_millis_u64 SPEED_WINDOW)) as [Hlt|Hge].
  - unfold flush_speed_window. fold started. destruct (Z.eqb_spec started 0); [done|]. destruct (Z.ltb_spec (saturating_sub now_ms started) (as_millis_u64 SPEED_WINDOW)); [done|lia].
  - destruct (orb _ _); by apply Hagain.
Qed.

Section choice.
Context `{GroupLib, SmartLib, Libm, NetText}.
Variable clock : SmartClock.

(** ** What the scores are computed from *)

Definition stats_of (s : SmartSelector) (name : string) : NodeStats := default NodeStats_new (ss_nodes s !! name).
Definition node_view (s : SmartSelector) (name : string) : NodeStats := flush_speed_window (stats_of s name) (unix_now_ms clock) clock.
Definition cooled (s : SmartSelector) (name : string) : bool := match ss_negative s !! name with Some (until, _) => sk_instant clock <? until | None => false end.

Record same_view (s s' : SmartSelector) : Prop := mkSameView {
  sv_nodes : forall n, node_view s' n = node_view s n;
  sv_cooled : forall n, cooled s' n = cooled s n;
  sv_memory : ss_domain_best s' = ss_domain_best s;
  sv_config : ss_goal s' = ss_goal s /\ ss_sticky s' = ss_sticky s
}.

#[global] Instance same_view_preorder : PreOrder same_view.
Proof. split; [done|]. intros a b c [A1 A2 A3 [A4 A5]] [B1 B2 B3 [B4 B5]]. split; [congruence..|split; congruence]. Qed.

Lemma ensure_node_spec s name : (ensure_node s name).2 = stats_of s name /\ (forall n, stats_of (ensure_node s name).1 n = stats_of s n)
  /\ ss_negative (ensure_node s name).1 = ss_negative s /\ ss_domain_best (ensure_node s name).1 = ss_domain_best s
  /\ ss_goal (ensure_node s name).1 = ss_goal s /\ ss_sticky (ensure_node s name).1 = ss_sticky s.
Proof.
  unfold ensure_node, stats_of. destruct (ss_nodes s !! name) as [st|] eqn:E; [done|]. cbn. split_and!; try done. intros n. rewrite lookup_insert. case_decide; subst; [by rewrite E|done].
Qed.

Lemma ensure_view s name : same_view s (ensure_node s name).1.
Proof. destruct (ensure_node_spec s name) as (_ & Hn & Hneg & Hd & Hg & Hst). split; [intros n; unfold node_view; by rewrite Hn|intros n; unfold cooled; by rewrite Hneg|done|done]. Qed.

(** Storing the closed window of a node changes nothing that is read. *)
Lemma put_view s name : same_view s (put_node s name (node_view s name)).
Proof.
  split; [|done..]. intros n. unfold node_view at 1. unfold stats_of, put_node. cbn. rewrite lookup_insert. case_decide; [subst; cbn; apply flush_idem|done].
Qed.

Lemma is_cool_spec s name n : (cooled (set_negative s (is_cool (ss_negative s) name clock).1) n = cooled s n)
  /\ (if (is_cool (ss_negative s) name clock).2 then true else false) = cooled s name.
Proof.
  unfold is_cool, cooled. destruct (ss_negative s !! name) as [[until reason]|] eqn:E; [|done]. destruct (Z.ltb_spec (sk_instant clock) until); cbn [fst snd set_negative ss_negative]; [done|]. split; [|done].
  rewrite lookup_delete. case_decide; [subst|done]. rewrite E. destruct (Z.ltb_spec (sk_instant clock) until); [lia|done].
Qed.

(** The snapshot and the score of a member *)
Definition snap_of (s : SmartSelector) (explain : bool) (name : string) : NodeStatSnapshot := (snapshot_for_scoring (node_view s name) (unix_now_ms clock) explain clock).2.
Definition parts_of (s : SmartSelector) (args : RankArgs) (name : string) : ScoreParts :=
  (score s name (ra_ctx args) (snap_of s (ra_explain args) name) (ra_weights args) (ra_hit args) (ra_reference args) clock).2.

Lemma snapshot_spec s explain name : snapshot_for_scoring (stats_of s name) (unix_now_ms clock) explain clock = (node_view s name, snap_of s explain name).
Proof. unfold snap_of, node_view. unfold snapshot_for_scoring. cbn [fst snd]. by rewrite flush_idem. Qed.

Lemma score_fst s name ctx snap w hit ref : (score s name ctx snap w hit ref clock).1 = set_negative s (is_cool (ss_negative s) name clock).1.
Proof. unfold score. by destruct (is_cool (ss_negative s) name clock). Qed.

Lemma score_snd s s' name ctx snap w hit ref : cooled s' name = cooled s name -> (score s' name ctx snap w hit ref clock).2 = (score s name ctx snap w hit ref clock).2.
Proof.
  intros Hc. destruct (is_cool_spec s name name) as [_ E], (is_cool_spec s' name name) as [_ E']. unfold score.
  destruct (is_cool (ss_negative s) name clock) as [n o], (is_cool (ss_negative s') name clock) as [n' o']. cbn in E, E'. rewrite Hc, <- E in E'.
  destruct o, o'; cbn in *; done.
Qed.

Lemma parts_view s s' args name : same_view s s' -> parts_of s' args name = parts_of s args name.
Proof. intros [Hn Hc _ _]. unfold parts_of, snap_of. rewrite Hn. by apply score_snd. Qed.

(** ** First pass *)

Definition unsampled (s : SmartSelector) (name : string) : bool := ns_sample_count (stats_of s name) =? 0.

Lemma scan_spec s l a : same_view s (sn_selector a) -> (forall n, stats_of (sn_selector a) n = stats_of s n) ->
  same_view s (sn_selector (foldl scan_step a l)) /\ (forall n, stats_of (sn_selector (foldl scan_step a l)) n = stats_of s n)
  /\ sn_cold (foldl scan_step a l) = sn_cold a + Z.of_nat (length (List.filter (unsampled s) l)).
Proof.
  revert a. induction l as [|x l IH]; intros a Hv Hs; [cbn; split_and!; [done|done|lia]|]. cbn [foldl].
  destruct (ensure_node_spec (sn_selector a) x) as (E2 & En & _). pose proof (ensure_view (sn_selector a) x) as Ev.
  assert (Hstep : sn_selector (scan_step a x) = (ensure_node (sn_selector a) x).1 /\ sn_cold (scan_step a x) = sn_cold a + (if unsampled s x then 1 else 0)).
  { unfold scan_step, unsampled. rewrite <- (Hs x), <- E2. destruct (ensure_node (sn_selector a) x) as [s' st]. cbn. destruct (f64_lt _ _), (ns_sample_count st =? 0); cbn; split; done || lia. }
  destruct Hstep as [Es Ec]. destruct (IH (scan_step a x)) as (I1 & I2 & I3).
  - rewrite Es. by etrans.
  - intros n. rewrite Es. by rewrite En.
  - split_and!; [done|done|]. rewrite I3, Ec. cbn [List.filter]. destruct (unsampled s x); cbn [length]; lia.
Qed.

(** ** Second pass *)

Definition cold_of (s : SmartSelector) (args : RankArgs) (l : list string) : list string :=
  if ra_explore args then List.filter (fun n => sn_samples (snap_of s (ra_explain args) n) =? 0) l else [].

Definition total_of (s : SmartSelector) (args : RankArgs) (name : string) : f64 := sp_total (parts_of s args name).

Record rank_inv (s : SmartSelector) (args : RankArgs) (l : list string) (a : Rank) : Prop := mkRankInv {
  ri_view : same_view s (rn_selector a);
  ri_best : match rn_best a with
    | None => l = []
    | Some (n, p) => n ∈ l /\ p = parts_of s args n /\ forall m, m ∈ l -> f64_lt (sp_total p) (total_of s args m) = false
    end;
  ri_current : forall n p, rn_current a = Some (n, p) -> n ∈ l /\ p = parts_of s args n /\ sc_current (ra_ctx args) = Some n;
  ri_index : rn_cold_index a = Z.of_nat (length (cold_of s args l));
  ri_pick : rn_cold_pick a = cold_of s args l !! Z.to_nat (ra_target args)
}.

(** What one step does, from the state the passes started with *)
Lemma rank_step_fields s args a x : same_view s (rn_selector a) -> let a' := rank_step args clock a x in
  same_view s (rn_selector a')
  /\ rn_best a' = (match rn_best a with
     | Some (_, best) => if f64_lt (sp_total best) (total_of s args x) then Some (x, parts_of s args x) else rn_best a
     | None => Some (x, parts_of s args x) end)
  /\ rn_current a' = (if bool_decide (sc_current (ra_ctx args) = Some x) then Some (x, parts_of s args x) else rn_current a)
  /\ rn_cold_index a' = (if ra_explore args && (sn_samples (snap_of s (ra_explain args) x) =? 0) then rn_cold_index a + 1 else rn_cold_index a)
  /\ rn_cold_pick a' = (if (ra_explore args && (sn_samples (snap_of s (ra_explain args) x) =? 0)) && (rn_cold_index a =? ra_target args) then Some x else rn_cold_pick a).
Proof.
  intros Hv. cbv zeta. destruct (ensure_node_spec (rn_selector a) x) as (E2 & En & _). pose proof (ensure_view (rn_selector a) x) as Ev.
  unfold rank_step. destruct (ensure_node (rn_selector a) x) as [s1 st]. cbn [fst snd] in *. subst st. rewrite snapshot_spec.
  assert (Hv1 : same_view s s1) by (by etrans).
  assert (Ex : node_view (rn_selector a) x = node_view s1 x) by (symmetry; apply Ev).
  assert (Hv2 : same_view s (put_node s1 x (node_view (rn_selector a) x))) by (rewrite Ex; etrans; [exact Hv1|apply put_view]).
  set (s2 := put_node s1 x (node_view (rn_selector a) x)) in *.
  assert (Hsnap : snap_of (rn_selector a) (ra_explain args) x = snap_of s (ra_explain args) x) by (unfold snap_of; by rewrite (sv_nodes _ _ Hv)).
  pose proof (score_fst s2 x (ra_ctx args) (snap_of (rn_selector a) (ra_explain args) x) (ra_weights args) (ra_hit args) (ra_reference args)) as S1.
  assert (S2 : (score s2 x (ra_ctx args) (snap_of (rn_selector a) (ra_explain args) x) (ra_weights args) (ra_hit args) (ra_reference args) clock).2 = parts_of s args x)
    by (rewrite Hsnap; apply score_snd, Hv2).
  destruct (score s2 x _ _ _ _ _ _) as [s3 parts]. cbn [fst snd] in S1, S2. subst s3 parts. rewrite Hsnap. cbn. split_and!; try done.
  etrans; [exact Hv2|]. split; [done|intros n; exact (proj1 (is_cool_spec s2 x n))|done|done].
Qed.

Lemma cold_of_app s args l x : cold_of s args (l ++ [x]) = cold_of s args l ++ (if ra_explore args && (sn_samples (snap_of s (ra_explain args) x) =? 0) then [x] else []).
Proof. unfold cold_of. destruct (ra_explore args); [|done]. rewrite List.filter_app. cbn. by destruct (_ =? 0). Qed.

Lemma rank_step_inv s args l a x : 0 <= ra_target args -> rank_inv s args l a -> rank_inv s args (l ++ [x]) (rank_step args clock a x).
Proof.
  intros Ht [Iv Ib Ic Ii Ip]. destruct (rank_step_fields s args a x Iv) as (Fv & Fb & Fc & Fi & Fp).
  assert (Hx : x ∈ l ++ [x]) by (apply elem_of_app; right; apply list_elem_of_here).
  constructor; [done| | | |].
  - rewrite Fb. destruct (rn_best a) as [[n p]|].
    + destruct Ib as (Hn & Hp & Hmax). destruct (f64_lt (sp_total p) (total_of s args x)) eqn:E.
      * split_and!; [done|done|]. intros m [Hm| ->%list_elem_of_singleton]%elem_of_app; [|apply f64_lt_irrefl].
        destruct (f64_lt _ (total_of s args m)) eqn:E'; [|done]. specialize (Hmax m Hm). by rewrite (f64_lt_trans _ _ _ E E') in Hmax.
      * split_and!; [apply elem_of_app; by left|done|]. intros m [Hm| ->%list_elem_of_singleton]%elem_of_app; [by apply Hmax|done].
    + subst l. split_and!; [done|done|]. intros m ->%list_elem_of_singleton. apply f64_lt_irrefl.
  - intros n p. rewrite Fc. case_bool_decide; [by intros [= <- <-]|]. intros (? & ? & ?)%Ic. split_and!; [apply elem_of_app; by left|done|done].
  - rewrite Fi, cold_of_app, length_app, Ii. destruct (_ && _); cbn; lia.
  - rewrite Fp, cold_of_app, Ii, Ip. destruct (_ && _); cbn [andb]; [|by rewrite app_nil_r].
    destruct (Z.eqb_spec (Z.of_nat (length (cold_of s args l))) (ra_target args)) as [E|E].
    + rewrite lookup_app_r by lia. replace (Z.to_nat (ra_target args) - length (cold_of s args l))%nat with 0%nat by lia. done.
    + destruct (decide (Z.to_nat (ra_target args) < length (cold_of s args l))%nat); [by rewrite lookup_app_l|].
      rewrite (lookup_ge_None_2 (cold_of s args l)) by lia. symmetry. apply lookup_ge_None_2. rewrite length_app. cbn. lia.
Qed.

Lemma rank_fold_inv s args l0 l a : 0 <= ra_target args -> rank_inv s args l0 a -> rank_inv s args (l0 ++ l) (foldl (rank_step args clock) a l).
Proof.
  intros Ht. revert l0 a. induction l as [|x l IH]; intros l0 a Hi; [by rewrite app_nil_r|]. cbn [foldl]. replace (l0 ++ x :: l) with ((l0 ++ [x]) ++ l) by (by rewrite <- app_assoc).
  apply IH. by apply rank_step_inv.
Qed.

(** ** The choice *)

(** What [rank] computes before the second pass *)
Definition args_of (s : SmartSelector) (ctx : SmartContext) (members : list string) (explain : bool) : RankArgs :=
  let cands := candidates ctx members in
  let scan := foldl scan_step (mkScan s 0 (replicate 64 0) 0) cands in
  let s := sn_selector scan in
  let hit := cache_hit s ctx clock in
  let explore := (sn_cold scan =? Z.of_nat (length cands)) && bool_decide (sc_current ctx = None) && bool_decide (hit = None) in
  let target := if sn_cold scan =? 0 then 0 else stable_context_hash ctx mod sn_cold scan in
  mkRankArgs ctx (Weights_for_goal (ss_goal s)) hit (speed_reference (sn_histogram scan) (sn_speeds scan)) explore target explain.

Definition degraded_of (s : SmartSelector) (name : string) : bool := in_degraded (ns_inner (stats_of s name)).

(** A healthy node carries no penalty. *)
Lemma penalties s args name :
  f64_eq (sp_degraded_penalty (parts_of s args name)) (f64_of 0) = negb (degraded_of s name) /\ f64_eq (sp_cooldown_penalty (parts_of s args name)) (f64_of 0) = negb (cooled s name).
Proof.
  assert (Hd : sn_degraded (snap_of s (ra_explain args) name) = degraded_of s name).
  { unfold snap_of, snapshot_for_scoring, degraded_of. cbn [snd sn_degraded]. unfold node_view. rewrite flush_idem.
    destruct (flush_keeps (stats_of s name) (unix_now_ms clock) clock) as (e & p & u & -> & _). done. }
  destruct (is_cool_spec s name name) as [_ Hc]. unfold parts_of, score. destruct (is_cool (ss_negative s) name clock) as [neg o]. cbn [snd sp_degraded_penalty sp_cooldown_penalty] in *.
  rewrite Hd, <- Hc. destruct (degraded_of s name), o; split; reflexivity.
Qed.

Lemma candidates_sub ctx members x : x ∈ candidates ctx members -> x ∈ members.
Proof.
  unfold candidates. destruct (List.filter _ members) as [|y l] eqn:E; [done|]. rewrite <- E, !list_elem_of_In. intros [? _]%List.filter_In. done.
Qed.

Lemma candidates_nonempty ctx members : members <> [] -> candidates ctx members <> [].
Proof. unfold candidates. destruct (List.filter _ members); [done|]. done. Qed.

Lemma candidates_avoid ctx members x : x ∈ candidates ctx members -> avoided ctx x = true -> forall y, y ∈ members -> avoided ctx y = true.
Proof.
  unfold candidates. destruct (List.filter _ members) as [|z l] eqn:E.
  - intros _ _ y Hy%list_elem_of_In. destruct (avoided ctx y) eqn:Ea; [done|]. assert (Hin : In y (List.filter (fun n => negb (avoided ctx n)) members)) by (apply List.filter_In; by rewrite Ea).
    by rewrite E in Hin.
  - rewrite <- E, list_elem_of_In. intros [_ Hn]%List.filter_In Ha. by rewrite Ha in Hn.
Qed.

Lemma hit_view s s' ctx : same_view s s' -> cache_hit s' ctx clock = cache_hit s ctx clock.
Proof. intros [_ _ Hm [_ Hs]]. unfold cache_hit, cache_key. by rewrite Hm, Hs. Qed.

(** The second pass over all the candidates, from the state the call started with *)
Lemma rank_run s ctx first rest explain (members := first :: rest) : exists a,
  (rank s ctx members explain clock).2.1 = select_ranked first a /\ rank_inv s (args_of s ctx members explain) (candidates ctx members) a.
Proof.
  set (scan := foldl scan_step (mkScan s 0 (replicate 64 0) 0) (candidates ctx members)).
  destruct (scan_spec s (candidates ctx members) (mkScan s 0 (replicate 64 0) 0)) as (Hv & Hs & Hc); [reflexivity|done|]. fold scan in Hv, Hs, Hc.
  set (args := args_of s ctx members explain). exists (foldl (rank_step args clock) (mkRank (sn_selector scan) None None 0 None []) (candidates ctx members)). split; [reflexivity|].
  assert (Ht : 0 <= ra_target args). { change (ra_target args) with (if sn_cold scan =? 0 then 0 else stable_context_hash ctx mod sn_cold scan). destruct (Z.eqb_spec (sn_cold scan) 0); [lia|]. apply Z.mod_pos_bound. cbn [sn_cold] in Hc. lia. }
  apply (rank_fold_inv s args [] (candidates ctx members)); [done|]. constructor; cbn [rn_selector rn_best rn_current rn_cold_index rn_cold_pick]; [done|done|by intros n p|unfold cold_of; by destruct (ra_explore args)|unfold cold_of; by destruct (ra_explore args)].
Qed.

(** How the choice was made, before the guard against an empty name *)
Definition chosen (s : SmartSelector) (args : RankArgs) (cands : list string) (x : string) : Prop :=
  cold_of s args cands !! Z.to_nat (ra_target args) = Some x
  \/ cold_of s args cands !! Z.to_nat (ra_target args) = None /\ x ∈ cands /\
     ((sc_current (ra_ctx args) = Some x /\ degraded_of s x = false /\ cooled s x = false
       /\ forall m, m ∈ cands -> f64_lt (f64_add (total_of s args x) SWITCH_TOLERANCE) (total_of s args m) = false)
      \/ forall m, m ∈ cands -> f64_lt (total_of s args x) (total_of s args m) = false).

Lemma selected_chosen s args first cands a : cands <> [] -> rank_inv s args cands a ->
  exists x, chosen s args cands x /\ select_ranked first a = if String.eqb x "" then first else x.
Proof.
  intros Hne [_ Ib Ic _ Ip]. unfold select_ranked, chosen. destruct (rn_cold_pick a) as [cold|]; [exists cold; split; [left; congruence|done]|].
  destruct (rn_best a) as [[n p]|]; [|done]. destruct Ib as (Hn & -> & Hmax). unfold default, id.
  destruct (rn_current a) as [[c q]|]; [|exists n; split; [right; split_and!; [congruence|done|by right]|done]].
  destruct (Ic c q eq_refl) as (Hc & -> & Hcur). destruct (keep_current _ _) eqn:Ek; [|exists n; split; [right; split_and!; [congruence|done|by right]|done]].
  exists c. split; [|done]. right. split_and!; [congruence|done|left]. unfold keep_current in Ek. destruct (penalties s args c) as [Pd Pc]. rewrite Pd, Pc in Ek.
  apply andb_true_iff in Ek as [[Hd%negb_true_iff Hco%negb_true_iff]%andb_true_iff Hle]. split_and!; [done..|].
  intros m Hm. destruct (f64_lt (f64_add _ _) (total_of s args m)) eqn:E; [|done]. specialize (Hmax m Hm). by rewrite (f64_le_lt_trans _ _ _ Hle E) in Hmax.
Qed.

Lemma chosen_candidate s args cands x : chosen s args cands x -> x ∈ cands.
Proof.
  intros [E|(_ & ? & _)]; [|done]. apply list_elem_of_lookup_2 in E. unfold cold_of in E. destruct (ra_explore args); [|by apply elem_of_nil in E].
  apply list_elem_of_In, List.filter_In in E as [Hin _]. by apply list_elem_of_In.
Qed.

(** Whatever the state, the choice is one of the members. *)
Lemma choice_member s ctx members : members <> [] -> (smart_choose_node s ctx members clock).2 ∈ members.
Proof.
  intros Hne. destruct members as [|first rest]; [done|]. destruct (rank_run s ctx first rest false) as (a & E & Hinv).
  destruct (selected_chosen _ _ first _ a (candidates_nonempty ctx _ Hne) Hinv) as (x & Hx%chosen_candidate%candidates_sub & Es).
  unfold smart_choose_node. destruct (rank s ctx (first :: rest) false clock) as [s' [node scores]]. cbn in E. cbn [snd]. subst node. rewrite Es.
  destruct (String.eqb x ""); [apply list_elem_of_here|done].
Qed.

(** The counters of the nodes agree with their statistics, as [node_stats_invariant] shows. *)
Definition counts_agree (s : SmartSelector) : Prop := forall n, ns_sample_count (stats_of s n) = in_samples (ns_inner (stats_of s n)).

Lemma snap_samples s explain n : sn_samples (snap_of s explain n) = in_samples (ns_inner (stats_of s n)).
Proof.
  unfold snap_of, snapshot_for_scoring, node_view. cbn [snd sn_samples]. rewrite flush_idem. by destruct (flush_keeps (stats_of s n) (unix_now_ms clock) clock) as (e & p & u & -> & _).
Qed.

(** Nothing measured, no node in use, nothing remembered: the case in which flows are spread *)
Definition cold_start (s : SmartSelector) (ctx : SmartContext) (members : list string) : Prop :=
  (forall n, n ∈ candidates ctx members -> in_samples (ns_inner (stats_of s n)) = 0) /\ sc_current ctx = None /\ cache_hit s ctx clock = None.

Lemma filter_all {A} (f : A -> bool) l : length (List.filter f l) = length l -> List.filter f l = l /\ forall x, x ∈ l -> f x = true.
Proof.
  induction l as [|x l IH]; cbn [List.filter]; [by intros _; split; [|intros x ?%elem_of_nil]|]. destruct (f x) eqn:E; cbn [length].
  - intros Hl. destruct IH as [-> Ha]; [lia|]. split; [done|]. intros y [->|Hy]%elem_of_cons; [done|by apply Ha].
  - intros Hl. pose proof (List.filter_length_le f l). lia.
Qed.

(** Exploration happens exactly at a cold start, and then picks by the hash of the site. *)
Lemma cold_pick_spec s ctx members : members <> [] -> counts_agree s -> let args := args_of s ctx members false in let cands := candidates ctx members in
  match cold_of s args cands !! Z.to_nat (ra_target args) with
  | Some x => cold_start s ctx members /\ cands !! Z.to_nat (stable_context_hash ctx mod Z.of_nat (length cands)) = Some x
  | None => ~ cold_start s ctx members
  end.
Proof.
  intros Hne Hag. cbv zeta. set (cands := candidates ctx members). pose proof (candidates_nonempty ctx members Hne) as Hc.
  set (scan := foldl scan_step (mkScan s 0 (replicate 64 0) 0) cands).
  destruct (scan_spec s cands (mkScan s 0 (replicate 64 0) 0)) as (Hv & _ & Hcold); [reflexivity|done|]. fold scan in Hv, Hcold. cbn [sn_cold] in Hcold. rewrite Z.add_0_l in Hcold.
  assert (Hun : forall n, unsampled s n = true <-> in_samples (ns_inner (stats_of s n)) = 0) by (intros n; unfold unsampled; rewrite Hag; apply Z.eqb_eq).
  unfold cold_of. change (ra_explore (args_of s ctx members false)) with
    ((sn_cold scan =? Z.of_nat (length cands)) && bool_decide (sc_current ctx = None) && bool_decide (cache_hit (sn_selector scan) ctx clock = None)).
  change (ra_target (args_of s ctx members false)) with (if sn_cold scan =? 0 then 0 else stable_context_hash ctx mod sn_cold scan).
  rewrite (hit_view _ _ ctx Hv). destruct (andb _ _) eqn:Ex.
  - apply andb_true_iff in Ex as [[Hall%Z.eqb_eq Hcur%bool_decide_eq_true]%andb_true_iff Hhit%bool_decide_eq_true].
    destruct (filter_all (unsampled s) cands) as [_ Hf]; [lia|].
    assert (Hfull : List.filter (fun n => sn_samples (snap_of s (ra_explain (args_of s ctx members false)) n) =? 0) cands = cands).
    { apply forallb_filter_id, forallb_forall. intros n Hn%list_elem_of_In%Hf%Hun. rewrite snap_samples. by apply Z.eqb_eq. }
    rewrite Hfull, Hall. assert (length cands <> 0%nat) by (intros ?%nil_length_inv; done). destruct (Z.eqb_spec (Z.of_nat (length cands)) 0); [lia|].
    pose proof (Z.mod_pos_bound (stable_context_hash ctx) (Z.of_nat (length cands)) ltac:(lia)).
    destruct (lookup_lt_is_Some_2 cands (Z.to_nat (stable_context_hash ctx mod Z.of_nat (length cands)))) as [x Hx]; [lia|]. rewrite Hx. split; [|done]. split_and!; [|done|done].
    intros m Hm. by apply Hun, Hf.
  - intros (Hall & Hcur & Hhit). revert Ex. rewrite Hcur, Hhit, !bool_decide_true, !andb_true_r by done. intros Hn%Z.eqb_neq. apply Hn. rewrite Hcold. f_equal. f_equal.
    apply forallb_filter_id, forallb_forall. intros n Hin%list_elem_of_In. by apply Hun, Hall.
Qed.

Lemma choice_ok s ctx members : members <> [] -> "" ∉ members -> counts_agree s ->
  let x := (smart_choose_node s ctx members clock).2 in
  let cands := candidates ctx members in
  let total := total_of s (args_of s ctx members false) in
  x ∈ cands /\ (avoided ctx x = true -> forall y, y ∈ members -> avoided ctx y = true)
  /\ (cold_start s ctx members /\ cands !! Z.to_nat (stable_context_hash ctx mod Z.of_nat (length cands)) = Some x
      \/ ~ cold_start s ctx members /\
         ((sc_current ctx = Some x /\ degraded_of s x = false /\ cooled s x = false /\ forall y, y ∈ cands -> f64_lt (f64_add (total x) SWITCH_TOLERANCE) (total y) = false)
          \/ forall y, y ∈ cands -> f64_lt (total x) (total y) = false)).
Proof.
  intros Hne Hempty Hag. destruct members as [|first rest]; [done|]. cbv zeta. destruct (rank_run s ctx first rest false) as (a & E & Hinv).
  destruct (selected_chosen _ _ first _ a (candidates_nonempty ctx _ Hne) Hinv) as (x & Hx & Es). pose proof (chosen_candidate _ _ _ _ Hx) as Hin.
  assert (Enode : (smart_choose_node s ctx (first :: rest) clock).2 = x).
  { unfold smart_choose_node. destruct (rank s ctx (first :: rest) false clock) as [s' [node scores]]. cbn in E. cbn [snd]. subst node. rewrite Es.
    destruct (String.eqb_spec x ""); [|done]. subst x. by apply candidates_sub in Hin. }
  rewrite Enode. split; [done|]. split; [by apply candidates_avoid|]. pose proof (cold_pick_spec s ctx (first :: rest) Hne Hag) as Hcold. cbv zeta in Hcold.
  destruct Hx as [Hx|(Hx & _ & Hcase)]; rewrite Hx in Hcold; [by left|right]. by split.
Qed.

Lemma counts_view s s' : same_view s s' -> counts_agree s -> counts_agree s'.
Proof.
  intros Hv Hag n. assert (Hflush : forall t, ns_sample_count (node_view t n) = ns_sample_count (stats_of t n) /\ in_samples (ns_inner (node_view t n)) = in_samples (ns_inner (stats_of t n))).
  { intros t. unfold node_view. by destruct (flush_keeps (stats_of t n) (unix_now_ms clock) clock) as (e & p & u & -> & -> & _). }
  destruct (Hflush s) as [E1 E2], (Hflush s') as [E1' E2']. rewrite <- E1', <- E2', (sv_nodes _ _ Hv), E1, E2. apply Hag.
Qed.
End choice.

(** ** Reachable selectors *)
Section reachable.
Context `{GroupLib, SmartLib, Libm, NetText}.

(** Every method; a connection's observer works on the statistics of its node. *)
Inductive smart_step : SmartSelector -> SmartSelector -> Prop :=
| SsGoal s goal : smart_step s (set_goal s goal)
| SsSuccess s node latency clock : smart_step s (smart_record_success s node latency clock)
| SsFailure s node reason clock : smart_step s (smart_record_failure s node reason clock)
| SsProbe s node latency clock : smart_step s (record_probe_for s node latency clock)
| SsProbeFailure s node reason clock : smart_step s (record_probe_failure_for s node reason clock)
| SsOpen s node : smart_step s (open_flow s node)
| SsTransfer s node stats bytes clock : ss_nodes s !! node = Some stats -> smart_step s (put_node s node (record_transfer stats bytes clock))
| SsClose s node stats closed clock : ss_nodes s !! node = Some stats -> smart_step s (put_node s node (on_close stats closed clock).1)
| SsPin s host group node clock : smart_step s (pin s host group node clock)
| SsChooseNode s ctx members clock : smart_step s (smart_choose_node s ctx members clock).1
| SsChoose s ctx members clock : smart_step s (choose s ctx members clock).1
| SsShutdown s clock : smart_step s (shutdown s clock).

Definition smart_reachable (s : SmartSelector) : Prop :=
  exists goal sticky, rtc smart_step (SmartSelector_new goal sticky) s \/ exists rows clock, rtc smart_step (with_store goal sticky rows clock) s.

(** The counters agree, and the log of explanations is bounded. *)
Definition smart_ok (s : SmartSelector) : Prop := counts_agree s /\ (length (ss_explain_log s) <= EXPLAIN_LOG_CAP)%nat.

Definition count_ok (st : NodeStats) : Prop := ns_sample_count st = in_samples (ns_inner st).

Lemma success_count st latency history clock : count_ok (record_success_inner st latency history clock).
Proof. unfold record_success_inner. by destruct (latency_quantiles _). Qed.

Lemma flush_count st now_ms clock : count_ok st -> count_ok (flush_speed_window st now_ms clock).
Proof. unfold count_ok. by destruct (flush_keeps st now_ms clock) as (e & p & u & -> & -> & _). Qed.

Lemma transfer_count st bytes clock : count_ok st -> count_ok (record_transfer st bytes clock).
Proof. unfold count_ok. by destruct (transfer_keeps st bytes clock) as (e & p & u & -> & -> & _). Qed.

Lemma put_ok s node st : smart_ok s -> count_ok st -> smart_ok (put_node s node st).
Proof. intros [Hc Hl] Hst. split; [|done]. intros n. unfold stats_of, put_node. cbn. rewrite lookup_insert. case_decide; [done|apply Hc]. Qed.

Lemma ensure_ok s node : smart_ok s -> smart_ok (ensure_node s node).1 /\ count_ok (ensure_node s node).2.
Proof.
  intros [Hc Hl]. destruct (ensure_node_spec s node) as (-> & Hs & _). split; [split|apply Hc].
  - intros n. rewrite Hs. apply Hc.
  - unfold ensure_node. by destruct (ss_nodes s !! node).
Qed.

Lemma enqueue_ok s ops : smart_ok s -> smart_ok (enqueue s ops).
Proof. done. Qed.

Lemma persist_ok s node st clock : smart_ok s -> count_ok st -> smart_ok (persist_node_if_due s node st clock).
Proof.
  intros Hs Hst. unfold persist_node_if_due, should_persist. destruct (andb (negb _) _); cbn [negb].
  - by apply put_ok.
  - assert (Hp : smart_ok (put_node s node (with_persisted st (unix_now_ms clock)))) by (by apply put_ok). destruct (ss_writer _); [|done].
    unfold to_blob. apply enqueue_ok, put_ok; [done|]. by apply flush_count.
Qed.

Lemma after_failure_ok s node st reason clock : smart_ok s -> count_ok st -> smart_ok (after_failure s node st reason clock).
Proof.
  intros Hs Hst. unfold after_failure. assert (Hp : smart_ok (set_negative (put_node s node st) (cool (ss_negative s) node (from_secs 30) reason clock))) by (by apply (put_ok s node st)).
  destruct (ss_writer _); [|done]. unfold to_blob. apply enqueue_ok, put_ok; [done|]. by apply flush_count.
Qed.

Lemma remember_ok s ctx node clock : smart_ok s -> smart_ok (remember_selection s ctx node clock).
Proof. intros Hs. unfold remember_selection. destruct (cache_key s ctx); [|done]. destruct (put_if_changed _ _ _ _) as [d []]; done. Qed.

(** Ranking leaves the log alone. *)
Lemma scan_log l a : ss_explain_log (sn_selector (foldl scan_step a l)) = ss_explain_log (sn_selector a).
Proof.
  revert a. induction l as [|x l IH]; intros a; [done|]. cbn [foldl]. rewrite IH. unfold scan_step, ensure_node. destruct (ss_nodes (sn_selector a) !! x); by destruct (f64_lt _ _).
Qed.

Lemma rank_log args clock l a : ss_explain_log (rn_selector (foldl (rank_step args clock) a l)) = ss_explain_log (rn_selector a).
Proof.
  revert a. induction l as [|x l IH]; intros a; [done|]. cbn [foldl]. rewrite IH. unfold rank_step, ensure_node, score.
  destruct (ss_nodes (rn_selector a) !! x); cbn; destruct (is_cool _ _ _); done.
Qed.

Lemma rank_ok s ctx members explain clock : smart_ok s -> smart_ok (rank s ctx members explain clock).1.
Proof.
  intros [Hc Hl]. destruct members as [|first rest]; [done|]. unfold rank. cbn [fst]. apply remember_ok.
  set (cands := candidates ctx (first :: rest)). set (scan := foldl scan_step _ cands). set (args := mkRankArgs _ _ _ _ _ _ _).
  destruct (scan_spec clock s cands (mkScan s 0 (replicate 64 0) 0)) as (Hv & _ & Hcold); [reflexivity|done|]. fold scan in Hv, Hcold. cbn [sn_cold] in Hcold.
  assert (Ht : 0 <= ra_target args). { cbn. destruct (Z.eqb_spec (sn_cold scan) 0); [done|]. apply Z.mod_pos_bound. lia. }
  split; [|rewrite rank_log; cbn [rn_selector]; unfold scan; by rewrite scan_log].
  eapply counts_view; [|exact Hc]. apply (rank_fold_inv clock s args [] cands); [exact Ht|].
  constructor; cbn [rn_selector rn_best rn_current rn_cold_index rn_cold_pick]; [done|done|by intros n p|unfold cold_of; by destruct (ra_explore args)|unfold cold_of; by destruct (ra_explore args)].
Qed.

Lemma smart_step_ok s s' : smart_step s s' -> smart_ok s -> smart_ok s'.
Proof.
  intros Hstep Hs. destruct Hstep as [s goal|s node latency clock|s node reason clock|s node latency clock|s node reason clock|s node|s node st bytes clock E|s node st closed clock E|s host group node clock|s ctx members clock|s ctx members clock|s clock].
  all: try (unfold smart_record_success, smart_record_failure, record_probe_for, record_probe_failure_for, open_flow; destruct (ensure_ok s node Hs) as [Hs' Hst]; destruct (ensure_node s node) as [s1 st];
    cbn [fst snd] in *; first [apply persist_ok; [done|apply success_count]|apply after_failure_ok; done|by apply put_ok]).
  all: try (assert (Hst : count_ok st) by (pose proof (proj1 Hs node) as Hn; unfold stats_of in Hn; by rewrite E in Hn)).
  - done.
  - apply put_ok; [done|by apply transfer_count].
  - apply put_ok; [done|]. unfold on_close. destruct closed; [done|]. by apply (transfer_count st 0 clock).
  - done.
  - unfold smart_choose_node. pose proof (rank_ok s ctx members false clock Hs). by destruct (rank s ctx members false clock) as [? []].
  - unfold choose. pose proof (rank_ok s ctx members true clock Hs) as [Hc Hl]. destruct (rank s ctx members true clock) as [s1 [node scores]]. cbn [fst] in *. split; [exact Hc|].
    cbn [set_log ss_explain_log]. rewrite length_app. cbn [length]. assert (Htl : length (tail (ss_explain_log s1)) = pred (length (ss_explain_log s1))) by (by destruct (ss_explain_log s1)).
    unfold EXPLAIN_LOG_CAP in *. destruct (Nat.leb_spec 256 (length (ss_explain_log s1))); lia.
  - unfold shutdown. destruct (ss_writer s); [|done]. apply enqueue_ok.
    assert (Hall : Forall (fun kv => count_ok kv.2) (map_to_list (ss_nodes s))).
    { apply list.Forall_forall. intros [n st] Hin%elem_of_map_to_list. pose proof (proj1 Hs n) as Hn. unfold stats_of in Hn. by rewrite Hin in Hn. }
    revert Hall. generalize (map_to_list (ss_nodes s)). intros nodes Hall. revert s Hs. induction Hall as [|[n st] nodes Hst _ IH]; intros s Hs; [done|]. cbn [foldl]. apply IH, put_ok; [done|].
    by apply flush_count.
Qed.

Lemma with_store_ok goal sticky rows clock : smart_ok (with_store goal sticky rows clock).
Proof.
  assert (Hkeep : forall {R} (f : SmartSelector -> R -> SmartSelector), (forall s r, smart_ok s -> smart_ok (f s r)) -> forall l s, smart_ok s -> smart_ok (foldl f s l)).
  { intros R f Hf l. induction l as [|r l IH]; intros s Hs; [done|]. cbn [foldl]. by apply IH, Hf. }
  unfold with_store. set (s1 := foldl _ _ (rw_node_stats rows)). assert (H1' : smart_ok s1).
  { apply Hkeep; [intros s r Hs; by apply put_ok|]. split; [by intros n; unfold stats_of; cbn; rewrite lookup_empty|cbn; lia]. }
  set (s2 := foldl _ s1 _). assert (H2' : smart_ok s2) by (apply Hkeep; [intros s [key [node at_]] Hs; by destruct (_ <=? _)|done]).
  set (s3 := foldl _ s2 _). assert (H3' : smart_ok s3) by (apply Hkeep; [intros s [key node] Hs; by destruct (String.eqb _ _)|done]).
  set (s4 := foldl _ s3 _). assert (H4' : smart_ok s4) by (apply Hkeep; [intros s [node [until reason]] Hs; by destruct (_ <? _)|done]). exact H4'.
Qed.

Lemma smart_reachable_ok s : smart_reachable s -> smart_ok s.
Proof.
  intros (goal & sticky & Hr). assert (Hrun : forall a, smart_ok a -> rtc smart_step a s -> smart_ok s).
  { intros a Ha Has. induction Has as [|x y z Hxy _ IH]; [done|]. by eapply IH, smart_step_ok. }
  destruct Hr as [Hr|(rows & clock & Hr)]; (eapply Hrun; [|exact Hr]); [|apply with_store_ok].
  split; [by intros n; unfold stats_of; cbn; rewrite lookup_empty|cbn; lia].
Qed.

(** ** Theorems *)

(** [C16] The member chosen is one that is not to be avoided, unless all are.  At a cold start it
    is the one the hash of the group and site points at.  Otherwise it is the node in use, if that is
    healthy, not in its penalty time and at most [SWITCH_TOLERANCE] behind any other, or one that
    no candidate outscores. *)
Theorem smart_choice_sound clock s ctx members : smart_reachable s -> members <> [] -> "" ∉ members ->
  let x := (smart_choose_node s ctx members clock).2 in
  let cands := candidates ctx members in
  let total := total_of clock s (args_of clock s ctx members false) in
  x ∈ cands /\ (avoided ctx x = true -> forall y, y ∈ members -> avoided ctx y = true)
  /\ (cold_start clock s ctx members /\ cands !! Z.to_nat (stable_context_hash ctx mod Z.of_nat (length cands)) = Some x
      \/ ~ cold_start clock s ctx members /\
         ((sc_current ctx = Some x /\ degraded_of s x = false /\ cooled clock s x = false /\ forall y, y ∈ cands -> f64_lt (f64_add (total x) SWITCH_TOLERANCE) (total y) = false)
          \/ forall y, y ∈ cands -> f64_lt (total x) (total y) = false)).
Proof. intros Hr Hne Hempty. apply choice_ok; [done|done|]. by apply smart_reachable_ok. Qed.

(** The selector as the groups see it: [states] is what it has become by each moment. *)
Definition smart_api (states : Z -> SmartSelector * SmartClock) : SmartApi := {|
  choose_node := fun moment ctx members => (smart_choose_node (states moment).1 ctx members (states moment).2).2;
  choose_node_member := fun moment ctx members => choice_member (states moment).2 (states moment).1 ctx members
|}.
End reachable.

(** ** Witnesses *)
Module SmartChoiceWitness.
Import Concrete SmartStatsWitness.
#[local] Existing Instances GroupSelectWitness.toy_lib libm.

#[local] Instance toy_smart_lib : SmartLib := {| context_hash := fun _ d => Z.of_nat (String.length d); context_hash_nonneg := fun _ d => Nat2Z.is_nonneg _; show_fixed := fun _ _ => "" |}.

Definition site (current : option string) : SmartContext := mkSmartContext "main" "example.com" [] ["US"] current None None.
Definition anywhere : SmartContext := mkSmartContext "main" "example.com" [] [] None None None.

Definition four (node : string) (ms : Z) (s : SmartSelector) : SmartSelector :=
  smart_record_success (smart_record_success (smart_record_success (smart_record_success s node (from_millis ms) clock) node (from_millis ms) clock) node (from_millis ms) clock) node (from_millis ms) clock.

Definition measured : SmartSelector := four "US-1" 300 (four "HK-1" 50 (SmartSelector_new Balanced StickySite)).

Lemma four_reachable node ms s : rtc smart_step s (four node ms s).
Proof. unfold four. do 4 (eapply rtc_r; [|apply SsSuccess]). apply rtc_refl. Qed.

Lemma measured_reachable : smart_reachable measured.
Proof. exists Balanced, StickySite. left. unfold measured. etrans; apply four_reachable. Qed.

(** The faster node is chosen; a cold selector follows the hash of the site. *)
Lemma smart_choice_sound_witness :
  (smart_choose_node measured anywhere ["HK-1"; "US-1"] clock).2 = "HK-1"
  /\ (smart_choose_node (SmartSelector_new Balanced StickySite) anywhere ["HK-1"; "US-1"] clock).2 = "US-1"
  /\ (avoided anywhere "HK-1" = true -> forall y, y ∈ ["HK-1"; "US-1"] -> avoided anywhere y = true)
  /\ "HK-1" ∈ candidates anywhere ["HK-1"; "US-1"].
Proof.
  split; [vm_compute; reflexivity|]. split; [vm_compute; reflexivity|].
  destruct (smart_choice_sound clock measured anywhere ["HK-1"; "US-1"] measured_reachable) as (Hin & Ha & _); [discriminate|set_solver|].
  assert (E : (smart_choose_node measured anywhere ["HK-1"; "US-1"] clock).2 = "HK-1") by (vm_compute; reflexivity). rewrite E in Hin, Ha. split; [exact Ha|exact Hin].
Defined.

(** ** Where the documentation says something else *)

(** The manual gives the goal [low_cost] more regard for the cost of nodes; every node has the same. *)
Theorem low_cost_sees_no_cost s args node node' : sp_cost (parts_of clock s args node) = sp_cost (parts_of clock s args node').
Proof. unfold parts_of, score. by destruct (is_cool (ss_negative s) node clock), (is_cool (ss_negative s) node' clock). Qed.

(** A node pinned for a site is not the one its flows use when another scores better. *)
Theorem pin_is_no_pin :
  let s := pin (four "US-1" 3000 (four "HK-1" 50 (SmartSelector_new Balanced StickySite))) "example.com" "main" "US-1" clock in
  cache_hit s anywhere clock = Some "US-1" /\ (smart_choose_node s anywhere ["HK-1"; "US-1"] clock).2 = "HK-1"
  /\ cache_hit (smart_choose_node s anywhere ["HK-1"; "US-1"] clock).1 anywhere clock = Some "HK-1".
Proof. vm_compute. by split_and!. Qed.

(** What the store holds after the enqueued writes, oldest first: the last write to a key counts. *)
Definition upsert {A} (l : list (string * A)) (k : string) (v : A) : list (string * A) := List.filter (fun kv => negb (String.eqb kv.1 k)) l ++ [(k, v)].

Definition apply_op (r : SmartRows) (op : BatchOp) : SmartRows :=
  match op with
  | PutNodeStats n b => mkSmartRows (upsert (rw_node_stats r) n b) (rw_domain_best r) (rw_pin r) (rw_negative r)
  | PutNegative n u e => mkSmartRows (rw_node_stats r) (rw_domain_best r) (rw_pin r) (upsert (rw_negative r) n (u, e))
  | PutDomainBest k n t => mkSmartRows (rw_node_stats r) (upsert (rw_domain_best r) k (n, t)) (rw_pin r) (rw_negative r)
  | PutPin k n => mkSmartRows (rw_node_stats r) (rw_domain_best r) (upsert (rw_pin r) k n) (rw_negative r)
  end.

(** The rows of pins are called those of an older version, yet [pin] writes them, and at the next
    start they replace what was remembered after the pin. *)
Theorem pin_comes_back :
  let s := pin (four "US-1" 3000 (four "HK-1" 50 (with_store Balanced StickySite (mkSmartRows [] [] [] []) clock))) "example.com" "main" "US-1" clock in
  let s := (smart_choose_node s anywhere ["HK-1"; "US-1"] clock).1 in
  let again := with_store Balanced StickySite (foldl apply_op (mkSmartRows [] [] [] []) (default [] (ss_writer s))) later in
  cache_hit s anywhere clock = Some "HK-1" /\ cache_hit again anywhere later = Some "US-1".
Proof. vm_compute. by split. Qed.
End SmartChoiceWitness.
